(* ===== verification/_CoqProject ===== *)
-Q . S2P
Prelude.v
Text.v
Coding.v
Bitmap.v
Hash.v
SkipCore.v
SkipOps.v
SkipList.v
KvCache.v
Kfifo.v
DoubleQueue.v
Sorting.v
RbTree.v
RbInsert.v
RbErase.v
MemPool.v
PoolAlloc.v
BufferOp.v
BinMsg.v
Utility.v
MyCommon.v
Config.v
Json.v
Session.v
Platform.v
HttpPacket.v
HttpResponse.v
BlockQueue.v
Frame.v
Socket.v
TcpServer.v
TcpRecv.v
HttpServer.v
Redis.v
Hiredis.v
RedisClient.v
Program.v
Dispatcher.v
Tasks.v
Store.v
RedisSync.v
MySql.v
GameInfo.v
TouchStore.v
Detacher.v
FilterConfig.v
Filters.v
TouchServer.v
TouchLimit.v
TouchTasks.v
Net.v
MinHeap.v
Cstring.v
Practice.v
