(* ===== verification/Prelude.v ===== *)
(** * Verification of the C code of the [my_src] repository

    The repository collects a cache server ([mycache/]), several C++ services,
    data-structure exercises, and unpacked copies of third-party libraries.
    This development models the author's own algorithmic code and proves what it
    does on every branch, the flaws included.  Paths below are relative to
    [src/louluosrc/].

    ** The program and its model

    The cache server [mycache/src/] is layered: [util/coding.h] codes integers;
    [struct/] has the bitmap, the string hash, the skip list, the red-black tree
    and two queues between threads; [mem/minipwr_mem_pool.c] allocates from
    nodes that a red-black tree orders by address and a bitmap describes;
    [cache/kvcache.c] keeps its items in a ring of skip lists chosen by the
    string hash; [net/] parses requests with the integer codes and looks up
    sockets.  Beside it stand the sorting library [sort_algorithms/], the
    strings and the heap of [cstring/], and the exercises of [practice/].

    The services are a game login server ([logingame_server/]), the adapter
    [notify_adapter_v2/], through which an application server reaches the
    clients of a game, and the touch server [xlgame_touch_server/], which
    answers a client of the game by what its operators have configured; they share, as copies, the text functions and the
    configuration of [common/], an HTTP server, its requests and responses, and
    a blocking queue.  In the adapter a reactor (tcpserver.cpp) cuts the streams
    of its clients into frames, admits messages and queues them; a thread of the
    dispatcher turns them into tasks or publishes them through ZeroMQ; workers
    run the tasks over a pool of Redis clients and queue commands, with a byte
    in a pipe each, that the reactor obeys.  A second reactor (httpserver.cpp)
    takes broadcasts by HTTP.

    In the touch server the dispatcher takes the requests of the HTTP server and
    gives them to workers.  A worker runs a chain of filters over tables that are
    kept under a read-write lock, counts in Redis what it grants and puts the
    contents into the response; another task reads the tables anew from MySQL.
    Clients of Redis and MySQL come from pools, and a timer renews the keys.

    - [Prelude.v]: outcomes of C code, machine integers, arrays, loops, pointers.
    - [Coding.v]: [mycache/src/util/coding.h].
    - [Bitmap.v]: [mycache/src/struct/bitmap.h].
    - [Hash.v]: [mycache/src/struct/hash.c].
    - [SkipCore.v], [SkipOps.v]: the loops and the operations that
      [mycache/src/struct/skip_list.c] and [mycache/src/cache/kvcache.c] have in
      common, over a heap of nodes with a payload; [SkipList.v] and [KvCache.v]
      are the two clients.
    - [Kfifo.v]: [mycache/src/struct/kfifo.c] and [.h], sequentially and with
      one writer and one reader interleaved.
    - [DoubleQueue.v]: [mycache/src/struct/doublequeue.c], likewise.
    - [Sorting.v]: [sort_algorithms/].
    - [RbTree.v], [RbInsert.v], [RbErase.v]: [mycache/src/struct/rbtree.c] and
      [.h]: rotations and the relation of heap and tree, insertion and walks,
      deletion.
    - [MemPool.v], [PoolAlloc.v]: [mycache/src/mem/minipwr_mem_pool.c]: the
      operations and the search; what allocation guarantees and what not.
    - [BufferOp.v], [BinMsg.v]: [bufferoperation.cpp] and [cbinmsg.cpp] of
      [logingame_server/src/main/].
    - [Text.v]: byte strings, [boost::split] and [boost::trim] as a class with
      its laws, decimal numbers; [Utility.v]: [common/SDUtility.cpp];
      [MyCommon.v]: [common/mycommon.cpp]; [Config.v]: [common/SDConfiguration].
    - [Json.v]: [cJSON.c], of which every service has the same copy, over doubles
      in the arithmetic of [SpecFloat], and [cjson_wrapper.cpp].
    - [Session.v]: [memcache_client.cpp] with its guard and pool, over
      libmemcached and the server as a class, and the sessions that
      [dispatcher.cpp] of [logingame_server/src/main/] keeps there.
    - [Platform.v]: [main/libcurlclient.cpp] and
      [service/loginwebgame_service.cpp] of [logingame_server/src/], over libcurl
      as a class.
    - [HttpPacket.v], [HttpResponse.v]: [HttpRequestPacket.cpp] and
      [HttpResponseHeaderPacket.cpp] of [logingame_server/src/main/].
    - [BlockQueue.v]: [block_queue.h], and its threads step by step.
    - [Frame.v]: [protocol_codec.cpp] and [message_codec.cpp] of
      [notify_adapter_v2/src/main/].
    - [Socket.v]: the answers of the kernel, the log of what a server did with
      sockets, and the tags of connections, for both servers.
    - [TcpServer.v], [TcpRecv.v]: [tcpserver.cpp] and [tcpservermanager.cpp] of
      the adapter; the transfer of a stream of frames.
    - [HttpServer.v]: [httpserver.cpp] and [http_manager.cpp] of
      [logingame_server/src/main/], over the class [RequestDecoder], which
      [HttpPacket.v] implements.
    - [Redis.v], [Hiredis.v], [RedisClient.v]: what the dispatcher relies on, as
      the class [RedisClients] with its laws; [redis_client.cpp] of the adapter,
      over hiredis and the server as classes, implements it.
    - [Program.v]: programs of threads as trees of operations.
    - [Dispatcher.v]: [dispatcher.cpp], [template_pool.h], [template_guard.h],
      [threadpoll_manager.cpp] and [tokenid_service.cpp] of the adapter; the
      adapter as a whole as a step relation.
    - [Tasks.v]: its tasks run alone, from the message to the socket.
    - [Store.v]: what the touch server relies on of Redis and MySQL, as the class
      [Store] with its laws; [RedisSync.v] ([redis_client.cpp]), [MySql.v]
      ([cmysql.cpp], which all services have) and [TouchStore.v] implement it.
    - [GameInfo.v]: [gameinfo.cpp], [prevent_service.cpp], [databasepool.cpp] and
      parts of [trustee_service.cpp] and [dispatcher.cpp] of
      [logingame_server/src/], over the client of [MySql.v].
    - [Detacher.v]: [RW_detacher.cpp] and the pools, as programs of threads;
      [FilterConfig.v]: [filter_config.cpp]; [Filters.v]: the other filters, their
      contexts and events, in [xlgame_touch_server/src/filters/] and [events/].
    - [TouchServer.v]: [dispatcher.cpp], [threadpoll_manager.cpp] and the lock of
      the touch server, as a whole as a step relation; [TouchLimit.v]: any number
      of searches for a business at once; [TouchTasks.v]: its tasks
      run alone, against a specification of the chain of filters.
    - [Net.v]: [mycache/src/net/protocol.h] and the socket table of [net.h].
    - [MinHeap.v]: [cstring/minheap.h], related to the heap sort of [Sorting.v].
    - [Cstring.v]: [cstring/cstring.h].
    - [Practice.v]: [slist_reverse.c], [binary_tree.c], [ary.c] of [practice/].

    ** Conventions

    A function of the C code is a Rocq function of the same name into [outcome]:
    [Ret] with the result and the changed state, [Stuck] where C leaves the
    behaviour undefined (an access outside an object, a null or dangling
    pointer, an indeterminate value that decides a branch, signed overflow) or an
    [assert] fails, [Loop] when the fuel of a loop is used up.  [returns m Q]
    says that [m] completes with a result in [Q], so every theorem stated with
    it includes termination and the absence of undefined behaviour.  Integers
    are [Z] with the wrap-around ([u32], [u64], [s32], ...) or the overflow check
    ([in_s32], [in_s64]) written where the code has it; arrays are lists with a
    bounds check at each access; linked structures live in a [gmap] from
    locations to records.  What comes from outside (results of [malloc], the
    clock, random numbers, the byte order) is an argument.  A loop is [loop] with
    a fuel read off its bound or the size of the heap; a result [Ret] shows that
    the fuel was enough, and the theorems show it for all inputs they admit.

    ** What the theorems show

    - Codes: [Coding] round trips of varints, fixed-width integers and zigzag,
      and safety of decoding on any bytes; [BinMsg] round trip of records and
      safety on any bytes; [Frame], [MyCommon], [Utility], [HttpResponse] round
      trips of frames, key-value texts, URL escapes and responses.
    - Sets of bits and hashes: [Bitmap], [Hash].
    - Maps: [SkipList] and [KvCache] refine a list ordered by priority and a map
      from hashed keys to queues of items; [RbInsert], [RbErase] and
      [MemPool.node_search_correct] an ordered list of nodes, with the balance
      and the logarithmic search; [Config.load_refines] a map of the lines of a
      file.
    - Queues: [Kfifo] and [DoubleQueue] refine a bounded and an unbounded queue.
      [DoubleQueue] stays correct in any interleaving of producer and consumer
      (rule induction over the step relations [spsc_step] and [dq_step]), and so
      does [BlockQueue] with any number of threads; [Kfifo] does unless the index
      of the other side moves between the two times that [min] reads it
      ([spsc_overruns]).
    - Arrays: [Sorting], [MinHeap], [Net.pollfd_lookup].
    - Memory: [PoolAlloc.palloc_disjoint] for blocks handed out,
      [SkipList.skip_list_free_correct] and
      [DoubleQueue.double_queue_free_correct] for nodes given back.
    - Requests: [HttpPacket.decode_get_correct], [decode_post_correct].
    - JSON: [Json.json_parse_safe]: parsing ends on any text, and safely where
      the escape sequences are complete and every number that is read fits;
      [json_roundtrip] of trees without
      numbers, [wrapper_roundtrip]; [Session.session_stored]: a session that is
      stored is the one that is found.
    - The game platforms: [Platform.login_asks_platforms]: which of them are asked,
      and what is made of the answers; [signed_request]: what is posted, of
      parameters that need no escape.
    - Tables: [GameInfo.games_loaded]: the games that are found are those of the
      table, [update_prevent_spec], [remove_prevent_spec]: the map of who may not
      play follows the queries.
    - The two servers: in every state that events and commands lead to, the
      table, the kernel's connections, the identities and the permissions agree,
      and nothing undefined happens but where these theorems say so: a descriptor
      beyond the table, the end of [check_timeout], a request that its decoder
      cannot read ([server_safe], [http_server_safe]); what a
      client sends reaches the dispatcher whole and admitted
      ([message_admission], [stream_reassembly], [http_request_whole]); what is
      sent to a connection reaches it or nobody ([command_delivery],
      [http_answer]).
    - The clients of Redis and MySQL: [redis_client_correct],
      [sync_client_correct], [mysql_client_correct]: their operations end
      whatever the connection does, and what they answer is what the server has;
      for Redis by the relation [Hiredis.serves], which says of each command what
      it does to the keys of a server, with their kinds and times to live, and
      what it answers.
    - The adapter: [Dispatcher.adapter_safe] puts the servers, the dispatcher and
      its workers together, by an invariant of the interleaved operations and a
      weakest precondition of the threads' programs; [Tasks] says what the
      tasks do when nothing interferes, and [auth_end_to_end] follows one
      through the worker and the reactor.
    - The touch server: [touch_safe] and [touch_lock_progress] in any interleaving
      (nothing undefined outside the workers, no client used twice or lost, nobody
      waits for a lock that nobody will release); [volume_limit] and
      [output_limit_grants]: what is granted stays within the limits;
      [touch_core_correct]: a request is answered as the specification of the
      filters says; [update_configs_correct]: what an update leaves.
    - Flaws that the proofs met are theorems too: [skip_list_del_dangling],
      [kvcache_del_dangling], [kvcache_free_undefined], [palloc_overlaps],
      [record_codec_errors], [protocol_parse_progress], [stale_identity],
      [large_frame_refused], [published_identity], [resent_as_format],
      [hash_read_after_free], [removed_business_crash], [mysql_pool_leak],
      [constructor_overflows], [message_overflows], [unknown_column],
      [json_backslash], [json_short_escape], [json_big_number],
      [session_semicolons], [default_expiration], [http_request_leaks],
      [malformed_answer_succeeds], [json_status_lost], [brace_in_url],
      [special_key_ambiguous], [prevent_injection], [parameter_injected],
      [spsc_overruns], [insertions_meet], [connection_beyond_table],
      [get_slot_beyond], [first_piece_queued], and parts of
      [kvcache_set_get], [hash_string_correct], [pollfd_lookup],
      [key_value_roundtrip], [response_roundtrip], [zigzag_correct],
      [server_safe], [http_request_whole] and [process_auth_correct] (a key whose
      removal fails grants again).

    ** Not modelled

    - Vendored and third-party code: [apr-1.4.8/], [apr-util-1.5.2/],
      [protobuf-2.5.0/], [qemu-kvm-0.14.0/], [lockfree_struct/],
      [mycache/deps/], [someone_alloc/].
    - Code that does not compile as it stands: [mycache/src/struct/kfifos.c],
      [mycache/src/midware/], [mycache/src/net/net.c] and the epoll loop of
      [net.h], the older [src/mem/].
    - System calls, threads and logging: the socket functions of [net.h],
      [main.c], the start of the services and of their threads, and the tests.
    - ZeroMQ.  hiredis, libmemcached, libcurl and the client library of MySQL are
      not in the repository: [HiredisLaws], [SyncLaws], [MemcachedLaws],
      [CurlLaws] and [MysqlLaws] state what is documented of them and of the
      servers.
    - The rest of the services: the tasks of the login server that connect its
      parts, the copies of [libcurlclient.cpp] that differ, and the statistics.
    - Output: [bm_foreach] of [coding.h] and the tracing [printf]s.  Weak memory
      orders: the interleavings are sequentially consistent. *)

From stdpp Require Export base list numbers option gmap sorting.
From Stdlib Require Export ZArith Lia.

#[global] Open Scope Z_scope.

(** ** Outcomes of C code

    [Ret a]: the code runs to completion and yields [a].  [Stuck]: it performs
    an operation the C language leaves undefined (an access outside an object,
    a null or dangling dereference, signed overflow) or a failed [assert].
    [Loop]: the fuel given to one of its loops ran out. *)
Inductive outcome (A : Type) : Type :=
  | Ret (a : A)
  | Stuck
  | Loop.
Arguments Ret {A} a.
Arguments Stuck {A}.
Arguments Loop {A}.

#[export] Instance outcome_ret : MRet outcome := @Ret.
#[export] Instance outcome_bind : MBind outcome := λ A B k m,
  match m with
  | Ret a => k a
  | Stuck => Stuck
  | Loop => Loop
  end.

Declare Scope outcome_scope.
Delimit Scope outcome_scope with outcome.
Notation "'let!' x := m 'in' k" := (mbind (M:=outcome) (λ x, k) m)
  (at level 10, x pattern, m at level 200, k at level 200, only parsing) : outcome_scope.
#[global] Open Scope outcome_scope.

#[export] Instance outcome_eq_dec `{EqDecision A} : EqDecision (outcome A).
Proof. solve_decision. Defined.

(** [returns m Q]: [m] completes, and its result satisfies [Q] (a total
    correctness triple). *)
Definition returns {A} (m : outcome A) (Q : A → Prop) : Prop :=
  match m with
  | Ret a => Q a
  | _ => False
  end.

Section returns.
Context {A B : Type}.
Implicit Types (m : outcome A) (k : A → outcome B).

Lemma returns_ret (a : A) (Q : A → Prop) : Q a → returns (Ret a) Q.
Proof. done. Qed.

Lemma returns_bind m k (Q : B → Prop) :
  returns m (λ a, returns (k a) Q) → returns (m ≫= k) Q.
Proof. by destruct m. Qed.

Lemma returns_mono m (P Q : A → Prop) :
  returns m P → (∀ a, P a → Q a) → returns m Q.
Proof. destruct m; naive_solver. Qed.

Lemma returns_eq m (Q : A → Prop) : returns m Q ↔ ∃ a, m = Ret a ∧ Q a.
Proof. destruct m; naive_solver. Qed.

Lemma returns_of_eq m a (Q : A → Prop) : m = Ret a → Q a → returns m Q.
Proof. by intros ->. Qed.

Lemma bind_ret (a : A) k : Ret a ≫= k = k a.
Proof. done. Qed.
End returns.

(** Run the next operation of a block whose outcome a lemma describes. *)
Ltac step_with H := apply returns_bind; eapply returns_mono; [ eapply H | ].
Tactic Notation "run" uconstr(H) := apply returns_bind; eapply returns_mono; [ eapply H | ].

(** What [m] does: [P] if it is undefined, [Q] of the result; it always ends. *)
Definition mostly {A} (P : Prop) (m : outcome A) (Q : A → Prop) : Prop :=
  match m with Ret x => Q x | Stuck => P | Loop => False end.

Lemma mostly_bind {A B} P (m : outcome A) (k : A → outcome B) (R : A → Prop) Q :
  mostly P m R → (∀ x, R x → mostly P (k x) Q) → mostly P (m ≫= k) Q.
Proof. destruct m; simpl; auto. Qed.

Lemma mostly_mono {A} P P' (m : outcome A) (R Q : A → Prop) :
  mostly P m R → (P → P') → (∀ x, R x → Q x) → mostly P' m Q.
Proof. destruct m; simpl; auto. Qed.

Lemma mostly_returns {A} P (m : outcome A) Q : returns m Q → mostly P m Q.
Proof. by destruct m. Qed.

Lemma mostly_ret {A} P (m : outcome A) x Q : m = Ret x → mostly P m Q → Q x.
Proof. by intros ->. Qed.

Lemma mostly_completes {A} P (m : outcome A) Q : mostly P m Q → ¬ P → ∃ x, m = Ret x.
Proof. intros Hm HP. destruct m as [x| |]; [by exists x|done..]. Qed.

(** ** Pointers *)
Definition loc := positive.
Bind Scope positive_scope with loc.

(** A pointer; [Junk] is an indeterminate value (uninitialised memory). *)
Inductive ptr : Type :=
  | Null
  | Addr (l : loc)
  | Junk.

#[export] Instance ptr_eq_dec : EqDecision ptr.
Proof. solve_decision. Defined.

(** The truth value of a pointer; that of an indeterminate one is undefined. *)
Definition truth (p : ptr) : outcome bool :=
  match p with
  | Null => Ret false
  | Addr _ => Ret true
  | Junk => Stuck
  end.

(** ** Arrays

    A C array is a list; an index outside it is undefined behaviour. *)
Definition aget {A} (l : list A) (i : Z) : outcome A :=
  if bool_decide (0 ≤ i) then
    match l !! Z.to_nat i with
    | Some x => Ret x
    | None => Stuck
    end
  else Stuck.

Definition aset {A} (l : list A) (i : Z) (x : A) : outcome (list A) :=
  if bool_decide (0 ≤ i < Z.of_nat (length l)) then Ret (<[Z.to_nat i:=x]> l) else Stuck.

Section arrays.
Context {A : Type}.
Implicit Types (l : list A) (x : A).

Lemma aget_lookup l i x : 0 ≤ i → l !! Z.to_nat i = Some x → aget l i = Ret x.
Proof. intros Hi Hx. unfold aget. by rewrite bool_decide_eq_true_2, Hx. Qed.

Lemma aget_Ret l i x : aget l i = Ret x ↔ 0 ≤ i ∧ l !! Z.to_nat i = Some x.
Proof.
  unfold aget. case_bool_decide; [|naive_solver].
  destruct (l !! Z.to_nat i) eqn:E; naive_solver.
Qed.

Lemma aget_total `{!Inhabited A} l i :
  0 ≤ i < Z.of_nat (length l) → aget l i = Ret (l !!! Z.to_nat i).
Proof.
  intros Hi. apply aget_lookup; [lia|].
  apply list_lookup_lookup_total_lt. lia.
Qed.

Lemma aget_out l i : i < 0 ∨ Z.of_nat (length l) ≤ i → aget l i = Stuck.
Proof.
  intros Hi. unfold aget. case_bool_decide; [|done].
  rewrite lookup_ge_None_2; [done|lia].
Qed.

Lemma aset_ok l i x :
  0 ≤ i < Z.of_nat (length l) → aset l i x = Ret (<[Z.to_nat i:=x]> l).
Proof. intros. unfold aset. by rewrite bool_decide_eq_true_2. Qed.

Lemma aset_out l i x : i < 0 ∨ Z.of_nat (length l) ≤ i → aset l i x = Stuck.
Proof. intros. unfold aset. rewrite bool_decide_eq_false_2; [done|lia]. Qed.

(** Access at the seam of a decomposition. *)
Lemma drop_prefix l l1 l2 p :
  0 ≤ p → drop (Z.to_nat p) l = l1 ++ l2 → drop (Z.to_nat (p + Z.of_nat (length l1))) l = l2.
Proof.
  intros Hp H. replace (Z.to_nat (p + Z.of_nat (length l1))) with (Z.to_nat p + length l1)%nat by lia.
  by rewrite <-drop_drop, H, drop_app_length.
Qed.

Lemma aget_drop l l2 x p : 0 ≤ p → drop (Z.to_nat p) l = x :: l2 → aget l p = Ret x.
Proof.
  intros Hp H. apply aget_lookup; [done|]. by rewrite <-(Nat.add_0_r (Z.to_nat p)), <-lookup_drop, H.
Qed.

Lemma aget_mid l1 l2 x i :
  i = Z.of_nat (length l1) → aget (l1 ++ x :: l2) i = Ret x.
Proof. intros ->. apply aget_lookup; [lia|]. by rewrite Nat2Z.id, list_lookup_middle. Qed.

Lemma aset_mid l1 l2 x y i :
  i = Z.of_nat (length l1) → aset (l1 ++ x :: l2) i y = Ret (l1 ++ y :: l2).
Proof.
  intros ->. rewrite aset_ok by (rewrite length_app; simpl; lia).
  by rewrite Nat2Z.id, insert_app_r_alt, Nat.sub_diag.
Qed.
End arrays.

(** [memcpy(dst + d, src + s, n)] between distinct objects. *)
Definition memcpy {A} (dst : list A) (d : Z) (src : list A) (s n : Z) : outcome (list A) :=
  if bool_decide (0 ≤ n ∧ (0 ≤ d ∧ d + n ≤ Z.of_nat (length dst)) ∧
                  (0 ≤ s ∧ s + n ≤ Z.of_nat (length src)))
  then Ret (take (Z.to_nat d) dst ++ take (Z.to_nat n) (drop (Z.to_nat s) src)
            ++ drop (Z.to_nat (d + n)) dst)
  else Stuck.

Lemma memcpy_spec {A} (dst src : list A) d s n :
  0 ≤ n → 0 ≤ d → d + n ≤ Z.of_nat (length dst) → 0 ≤ s → s + n ≤ Z.of_nat (length src) →
  returns (memcpy dst d src s n) (λ dst', length dst' = length dst ∧
    ∀ j, 0 ≤ j → dst' !! Z.to_nat j =
      if decide (d ≤ j < d + n) then src !! Z.to_nat (s + j - d) else dst !! Z.to_nat j).
Proof.
  intros Hn Hd Hdn Hs Hsn. unfold memcpy. rewrite bool_decide_eq_true_2 by lia. simpl.
  assert (length (take (Z.to_nat d) dst) = Z.to_nat d) as L1 by (rewrite length_take; lia).
  assert (length (take (Z.to_nat n) (drop (Z.to_nat s) src)) = Z.to_nat n) as L2
    by (rewrite length_take, length_drop; lia).
  split.
  - rewrite !length_app, L1, L2, length_drop. lia.
  - intros j Hj. case_decide as Hin.
    + rewrite lookup_app_r by lia. rewrite L1, lookup_app_l by lia.
      rewrite lookup_take_lt, lookup_drop by lia. f_equal. lia.
    + destruct (decide (j < d)).
      * rewrite lookup_app_l by lia. apply lookup_take_lt. lia.
      * rewrite lookup_app_r, lookup_app_r by lia. rewrite L1, L2, lookup_drop. f_equal. lia.
Qed.

(** ** Loops *)

(** [loop fuel step s]: iterate [step] from [s]; [inl s'] continues with the
    state [s'], [inr r] leaves the loop with [r]. *)
Fixpoint loop {S R : Type} (fuel : nat) (step : S → outcome (S + R)) (s : S) : outcome R :=
  match fuel with
  | O => Loop
  | Datatypes.S fuel =>
      let! x := step s in
      match x with
      | inl s' => loop fuel step s'
      | inr r => Ret r
      end
  end.

Lemma loop_S {S R} fuel (step : S → outcome (S + R)) (s : S) :
  loop (Datatypes.S fuel) step s =
  step s ≫= λ x, match x with inl s' => loop fuel step s' | inr r => Ret r end.
Proof. done. Qed.

Lemma loop_ext {S R} fuel (step step' : S → outcome (S + R)) s :
  (∀ s, step s = step' s) → loop fuel step s = loop fuel step' s.
Proof.
  intros H. revert s. induction fuel as [|fuel IH]; intros s; [done|].
  rewrite !loop_S, H. destruct (step' s) as [[|]| |]; simpl; auto.
Qed.

(** Total correctness of a loop: an invariant and a decreasing measure. *)
Lemma loop_returns {S R} (I : S → Prop) (m : S → nat) (Q : R → Prop) step fuel (s : S) :
  (∀ s, I s →
     returns (step s) (λ x, match x with
                            | inl s' => I s' ∧ (m s' < m s)%nat
                            | inr r => Q r
                            end)) →
  I s → (m s < fuel)%nat → returns (loop fuel step s) Q.
Proof.
  intros Hstep. revert s. induction fuel as [|fuel IH]; intros s HI Hm; [lia|].
  simpl. apply returns_bind. eapply returns_mono; [by apply Hstep|].
  intros [s'|r] Hx; [|done]. destruct Hx. apply IH; [done|lia].
Qed.

Lemma loop_mostly {S R} (P : Prop) (I : S → Prop) (m : S → nat) (Q : R → Prop) step fuel (s : S) :
  (∀ s, I s → mostly P (step s) (λ x, match x with inl s' => I s' ∧ (m s' < m s)%nat | inr r => Q r end)) →
  I s → (m s < fuel)%nat → mostly P (loop fuel step s) Q.
Proof.
  intros Hstep. revert s. induction fuel as [|fuel IH]; intros s HI Hm; [lia|].
  rewrite loop_S. eapply mostly_bind; [by apply Hstep|]. intros [s'|r] Hx; [|done]. destruct Hx. apply IH; [done|lia].
Qed.

(** [for_up n i body s]: [n] iterations of [body] with the counter running
    upwards from [i]. *)
Fixpoint for_up {S : Type} (n : nat) (i : Z) (body : Z → S → outcome S) (s : S) : outcome S :=
  match n with
  | O => Ret s
  | Datatypes.S n => let! s' := body i s in for_up n (i + 1) body s'
  end.

(** [for (i = lo; i < hi; ++i) body]. *)
Definition for_range {S} (lo hi : Z) (body : Z → S → outcome S) (s : S) : outcome S :=
  for_up (Z.to_nat (hi - lo)) lo body s.

Lemma for_range_returns {S} (I : Z → S → Prop) lo hi body (s : S) :
  lo ≤ hi → I lo s →
  (∀ i s, lo ≤ i < hi → I i s → returns (body i s) (I (i + 1))) →
  returns (for_range lo hi body s) (I hi).
Proof.
  intros Hle H0 Hbody. unfold for_range.
  remember (Z.to_nat (hi - lo)) as n eqn:En.
  assert (lo = hi - Z.of_nat n) as Elo by lia. clear En.
  revert lo s Elo Hle H0 Hbody. induction n as [|n IH]; intros lo s Elo Hle H0 Hbody; simpl.
  - by replace hi with lo by lia.
  - apply returns_bind. eapply returns_mono; [apply Hbody; [lia|done]|].
    intros s' Hs'. apply IH; [lia|lia|done|]. intros i s'' Hi. apply Hbody. lia.
Qed.

Lemma for_range_mostly {S} (P : Prop) (I : Z → S → Prop) lo hi body (s : S) :
  lo ≤ hi → I lo s →
  (∀ i s, lo ≤ i < hi → I i s → mostly P (body i s) (I (i + 1))) →
  mostly P (for_range lo hi body s) (I hi).
Proof.
  intros Hle H0 Hbody. unfold for_range. remember (Z.to_nat (hi - lo)) as n eqn:En.
  assert (lo = hi - Z.of_nat n) as Elo by lia. clear En.
  revert lo s Elo Hle H0 Hbody. induction n as [|n IH]; intros lo s Elo Hle H0 Hbody; cbn [for_up].
  - by replace hi with lo by lia.
  - eapply mostly_bind; [apply Hbody; [lia|done]|]. intros s' Hs'. apply IH; [lia|lia|done|]. intros i s'' Hi. apply Hbody. lia.
Qed.

Lemma for_range_S {S} lo hi (body : Z → S → outcome S) (s : S) :
  lo < hi → for_range lo hi body s = body lo s ≫= for_range (lo + 1) hi body.
Proof.
  intros Hlt. unfold for_range. replace (Z.to_nat (hi - lo)) with (Datatypes.S (Z.to_nat (hi - (lo + 1)))) by lia.
  done.
Qed.

Lemma for_range_ext {S} lo hi (body body' : Z → S → outcome S) (s : S) :
  (∀ i s, lo ≤ i < hi → body i s = body' i s) → for_range lo hi body s = for_range lo hi body' s.
Proof.
  unfold for_range. remember (Z.to_nat (hi - lo)) as n eqn:En.
  assert (Z.of_nat n ≤ Z.max 0 (hi - lo)) as Hn by lia. clear En.
  revert lo s Hn. induction n as [|n IH]; intros lo s Hn H; simpl; [done|].
  rewrite H by lia. destruct (body' lo s); simpl; [|done..]. apply IH; [lia|].
  intros i s' Hi. apply H. lia.
Qed.

(** A loop one of whose iterations is undefined is undefined. *)
Lemma for_range_stuck {S} lo hi (body : Z → S → outcome S) (s : S) k :
  (∀ i s, body i s ≠ Loop) → lo ≤ k < hi → (∀ s, body k s = Stuck) →
  for_range lo hi body s = Stuck.
Proof.
  intros Hnl Hk Hs. unfold for_range. remember (Z.to_nat (hi - lo)) as n eqn:En.
  assert (k < lo + Z.of_nat n) as Hk' by lia. clear En.
  revert lo s Hk Hk'. induction n as [|n IH]; intros lo s Hk Hk'; simpl; [lia|].
  destruct (decide (lo = k)) as [->|]; [by rewrite Hs|].
  destruct (body lo s) eqn:E; simpl; [|done|by apply Hnl in E]. apply IH; lia.
Qed.

(** [for_down n i body s]: [n] iterations with the counter running downwards. *)
Fixpoint for_down {S : Type} (n : nat) (i : Z) (body : Z → S → outcome S) (s : S) : outcome S :=
  match n with
  | O => Ret s
  | Datatypes.S n => let! s' := body i s in for_down n (i - 1) body s'
  end.

(** [for (i = hi; i >= lo; --i) body]. *)
Definition for_rev {S} (hi lo : Z) (body : Z → S → outcome S) (s : S) : outcome S :=
  for_down (Z.to_nat (hi - lo + 1)) hi body s.

Lemma for_rev_returns {S} (I : Z → S → Prop) hi lo body (s : S) :
  lo ≤ hi + 1 → I hi s →
  (∀ i s, lo ≤ i ≤ hi → I i s → returns (body i s) (I (i - 1))) →
  returns (for_rev hi lo body s) (I (lo - 1)).
Proof.
  intros Hle H0 Hbody. unfold for_rev.
  remember (Z.to_nat (hi - lo + 1)) as n eqn:En.
  assert (hi = lo - 1 + Z.of_nat n) as Ehi by lia. clear En.
  revert hi s Ehi Hle H0 Hbody. induction n as [|n IH]; intros hi s Ehi Hle H0 Hbody; simpl.
  - by replace (lo - 1) with hi by lia.
  - apply returns_bind. eapply returns_mono; [apply Hbody; [lia|done]|].
    intros s' Hs'. apply IH; [lia|lia|done|]. intros i s'' Hi. apply Hbody. lia.
Qed.

(** ** Machine integers (LP64: [int] 32 bits, [long] 64 bits) *)
Definition u8 (z : Z) : Z := z mod 2 ^ 8.
Definition u32 (z : Z) : Z := z mod 2 ^ 32.
Definition u64 (z : Z) : Z := z mod 2 ^ 64.

(** Conversion to a signed type of [w] bits (two's complement). *)
Definition sw (w : Z) (z : Z) : Z :=
  let m := z mod 2 ^ w in if m <? 2 ^ (w - 1) then m else m - 2 ^ w.
Definition s8 := sw 8.
Definition s32 := sw 32.
Definition s64 := sw 64.

Definition is_u8 (z : Z) : Prop := 0 ≤ z < 2 ^ 8.
Definition is_u32 (z : Z) : Prop := 0 ≤ z < 2 ^ 32.
Definition is_u64 (z : Z) : Prop := 0 ≤ z < 2 ^ 64.
Definition is_s32 (z : Z) : Prop := - 2 ^ 31 ≤ z < 2 ^ 31.
Definition is_s64 (z : Z) : Prop := - 2 ^ 63 ≤ z < 2 ^ 63.

Definition INT_MAX : Z := 2 ^ 31 - 1.

(** Signed arithmetic: overflow is undefined. *)
Definition in_s32 (z : Z) : outcome Z :=
  if bool_decide (- 2 ^ 31 ≤ z < 2 ^ 31) then Ret z else Stuck.
Definition in_s64 (z : Z) : outcome Z :=
  if bool_decide (- 2 ^ 63 ≤ z < 2 ^ 63) then Ret z else Stuck.

Section machine.
Lemma u8_range z : is_u8 (u8 z).
Proof. apply Z.mod_pos_bound. lia. Qed.
Lemma u32_range z : is_u32 (u32 z).
Proof. apply Z.mod_pos_bound. lia. Qed.
Lemma u64_range z : is_u64 (u64 z).
Proof. apply Z.mod_pos_bound. lia. Qed.
Lemma u8_id z : is_u8 z → u8 z = z.
Proof. apply Z.mod_small. Qed.
Lemma u32_id z : is_u32 z → u32 z = z.
Proof. apply Z.mod_small. Qed.
Lemma u64_id z : is_u64 z → u64 z = z.
Proof. apply Z.mod_small. Qed.

Lemma in_s32_ok z : is_s32 z → in_s32 z = Ret z.
Proof. intros. unfold in_s32. by rewrite bool_decide_eq_true_2. Qed.
Lemma in_s64_ok z : is_s64 z → in_s64 z = Ret z.
Proof. intros. unfold in_s64. by rewrite bool_decide_eq_true_2. Qed.

Lemma sw_range w z : 0 < w → - 2 ^ (w - 1) ≤ sw w z < 2 ^ (w - 1).
Proof.
  intros Hw. unfold sw.
  assert (2 ^ w = 2 * 2 ^ (w - 1)) as E by (rewrite <-Z.pow_succ_r by lia; f_equal; lia).
  pose proof (Z.mod_pos_bound z (2 ^ w)).
  destruct (Z.ltb_spec (z mod 2 ^ w) (2 ^ (w - 1))); lia.
Qed.

Lemma sw_id w z : 0 < w → - 2 ^ (w - 1) ≤ z < 2 ^ (w - 1) → sw w z = z.
Proof.
  intros Hw Hz. unfold sw.
  assert (2 ^ w = 2 * 2 ^ (w - 1)) as E by (rewrite <-Z.pow_succ_r by lia; f_equal; lia).
  destruct (Z.ltb_spec (z mod 2 ^ w) (2 ^ (w - 1))) as [H|H].
  - destruct (decide (0 ≤ z)); [apply Z.mod_small; lia|].
    rewrite <-(Z.mod_add z 1), Z.mod_small in H by lia. lia.
  - destruct (decide (0 ≤ z)); [rewrite Z.mod_small in H by lia; lia|].
    rewrite <-(Z.mod_add z 1), Z.mod_small by lia. lia.
Qed.
End machine.

(** ** Bits *)

(** Two integers with the same bits are equal; the tactic reduces an equation
    between bitwise expressions to a boolean one per bit. *)
Lemma testbit_small a n i : 0 ≤ a < 2 ^ n → n ≤ i → Z.testbit a i = false.
Proof.
  intros Ha Hi. destruct (decide (0 ≤ n)).
  - rewrite <-(Z.mod_small a (2 ^ n)) by done. apply Z.mod_pow2_bits_high. lia.
  - rewrite Z.pow_neg_r in Ha by lia. lia.
Qed.

Lemma land_disjoint a b n : 0 ≤ a < 2 ^ n → Z.land a (Z.shiftl b n) = 0.
Proof.
  intros Ha. apply Z.bits_inj'. intros i Hi. rewrite Z.land_spec, Z.bits_0.
  destruct (decide (i < n)).
  - by rewrite Z.shiftl_spec_low, andb_false_r.
  - by rewrite (testbit_small a n) by lia.
Qed.

Lemma lor_disjoint_add a b n : 0 ≤ n → 0 ≤ a < 2 ^ n → Z.lor a (Z.shiftl b n) = a + b * 2 ^ n.
Proof.
  intros Hn Ha. rewrite <-Z.shiftl_mul_pow2 by done.
  symmetry. by apply Z.add_nocarry_lor, land_disjoint.
Qed.

Lemma lor_range a b n : 0 ≤ n → 0 ≤ a < 2 ^ n → 0 ≤ b < 2 ^ n → 0 ≤ Z.lor a b < 2 ^ n.
Proof.
  intros Hn Ha Hb. assert (0 ≤ Z.lor a b) as H0 by (apply Z.lor_nonneg; lia).
  split; [done|]. destruct (decide (Z.lor a b = 0)) as [->|]; [lia|].
  apply Z.log2_lt_pow2; [lia|]. rewrite Z.log2_lor by lia.
  destruct (decide (n = 0)) as [->|].
  { change (2 ^ 0) with 1 in *. assert (a = 0) as -> by lia. by assert (b = 0) as -> by lia. }
  apply Z.max_lub_lt.
  - destruct (decide (a = 0)) as [->|]; [simpl; lia|]. apply Z.log2_lt_pow2; lia.
  - destruct (decide (b = 0)) as [->|]; [simpl; lia|]. apply Z.log2_lt_pow2; lia.
Qed.

(** ** Little-endian digits *)
Fixpoint le_bytes (n : nat) (v : Z) : list Z :=
  match n with
  | O => []
  | S n => v mod 256 :: le_bytes n (v / 256)
  end.

Fixpoint le_value (l : list Z) : Z :=
  match l with
  | [] => 0
  | b :: l => b + 256 * le_value l
  end.

Lemma length_le_bytes n v : length (le_bytes n v) = n.
Proof. revert v. induction n; intros v; simpl; auto. Qed.

Lemma le_value_bytes n v : 0 ≤ v < 256 ^ Z.of_nat n → le_value (le_bytes n v) = v.
Proof.
  revert v. induction n as [|n IH]; intros v Hv; simpl.
  - change (256 ^ Z.of_nat 0) with 1 in Hv. lia.
  - rewrite IH.
    + pose proof (Z.div_mod v 256). lia.
    + rewrite Nat2Z.inj_succ, Z.pow_succ_r in Hv by lia.
      split; [apply Z.div_pos; lia|]. apply Z.div_lt_upper_bound; lia.
Qed.

Lemma le_bytes_range n v : Forall is_u8 (le_bytes n v).
Proof.
  revert v. induction n as [|n IH]; intros v; simpl; constructor; [|apply IH].
  apply (Z.mod_pos_bound v 256). lia.
Qed.

Lemma le_bytes_value l : Forall is_u8 l → le_bytes (length l) (le_value l) = l.
Proof.
  induction 1 as [|b l Hb Hl IH]; cbn [length le_value le_bytes]; [done|].
  unfold is_u8 in Hb. change (2 ^ 8) with 256 in Hb. f_equal.
  - rewrite Z.mul_comm, Z.mod_add, Z.mod_small by lia. done.
  - rewrite (Z.mul_comm 256), Z.div_add, Z.div_small, Z.add_0_l by lia. exact IH.
Qed.

(** ** Automation *)
Create HintDb outcome discriminated.
#[export] Hint Resolve returns_ret : outcome.
#[export] Hint Resolve u8_range u32_range u64_range : outcome.

(** [lia] with division and modulo by constants. *)
Ltac dlia := Z.to_euclidean_division_equations; lia.
