(* ===== verification/Text.v ===== *)
(** * Text: the parts of the C and C++ libraries that the services use

    A string is the list of its bytes, each from 0 to 255; a [std::string] may
    contain the byte 0, a C string is what stands in front of the first one.
    [string::npos] is [None], and -1 once converted to [int].  The character
    classes are those of the "C" locale for every byte value.  A [std::map] from
    strings is a [gmap], traversed in the order of its keys. *)

From Stdlib Require Import Ascii String.
From stdpp Require Import fin_maps.
From S2P Require Import Prelude.

Abbreviation slen s := (Z.of_nat (List.length s)).

(** The bytes of a literal. *)
Definition str (s : string) : list Z := map (λ a, Z.of_N (N_of_ascii a)) (list_ascii_of_string s).
Arguments str s%_string.

(** ** Characters *)
Definition isdigit (c : Z) : bool := (48 <=? c) && (c <=? 57).
Definition isupper (c : Z) : bool := (65 <=? c) && (c <=? 90).
Definition islower (c : Z) : bool := (97 <=? c) && (c <=? 122).
Definition isalnum (c : Z) : bool := isdigit c || isupper c || islower c.
Definition isspace (c : Z) : bool := (c =? 32) || ((9 <=? c) && (c <=? 13)).
Definition tolower (c : Z) : Z := if isupper c then c + 32 else c.
Definition toupper (c : Z) : Z := if islower c then c - 32 else c.

(** ** [std::string] *)

(** Place of the first byte that satisfies [f]. *)
Fixpoint index_of (f : Z → bool) (s : list Z) : option nat :=
  match s with
  | [] => None
  | x :: s => if f x then Some O else S <$> index_of f s
  end.

(** [s.find(c, pos)] for a character. *)
Definition find_char (c : Z) (s : list Z) (pos : Z) : option Z :=
  if pos <=? slen s then (λ k : nat, pos + Z.of_nat k) <$> index_of (Z.eqb c) (drop (Z.to_nat pos) s) else None.

Fixpoint starts_with (t s : list Z) : bool :=
  match t, s with
  | [], _ => true
  | x :: t, y :: s => (x =? y) && starts_with t s
  | _ :: _, [] => false
  end.

Fixpoint index_sub (t s : list Z) : option nat :=
  if starts_with t s then Some O
  else match s with
       | [] => None
       | _ :: s => S <$> index_sub t s
       end.

(** [s.find(t, pos)] for a string. *)
Definition find_str (t s : list Z) (pos : Z) : option Z :=
  if pos <=? slen s then (λ k : nat, pos + Z.of_nat k) <$> index_sub t (drop (Z.to_nat pos) s) else None.

Definition int_pos (o : option Z) : Z := default (-1) o.

(** [s.substr(pos, n)] and [s.substr(pos)]; an exception when [pos] is beyond
    the end, which nothing in the modelled code catches. *)
Definition substr (s : list Z) (pos n : Z) : outcome (list Z) :=
  if (0 <=? pos) && (pos <=? slen s) then Ret (take (Z.to_nat n) (drop (Z.to_nat pos) s)) else Stuck.

Definition substr_from (s : list Z) (pos : Z) : outcome (list Z) :=
  if (0 <=? pos) && (pos <=? slen s) then Ret (drop (Z.to_nat pos) s) else Stuck.

(** ** C strings *)
Fixpoint c_string (s : list Z) : list Z :=
  match s with
  | [] => []
  | x :: s => if x =? 0 then [] else x :: c_string s
  end.

(** ** [std::map] from strings *)

(** [operator<] and its reflexive closure. *)
Fixpoint str_lt (s t : list Z) : bool :=
  match s, t with
  | _, [] => false
  | [], _ :: _ => true
  | x :: s, y :: t => (x <? y) || ((x =? y) && str_lt s t)
  end.

Definition str_le (s t : list Z) : Prop := str_lt t s = false.

Definition item_le {A} (a b : list Z * A) : Prop := str_le a.1 b.1.

#[export] Instance item_le_dec {A} : RelDecision (item_le (A:=A)).
Proof. intros a b. unfold item_le, str_le. apply _. Defined.

(** The pairs in the order of the keys. *)
Definition items {A} (m : gmap (list Z) A) : list (list Z * A) := merge_sort item_le (map_to_list m).

(** [insert]: an existing pair stays. *)
Definition map_insert {A} (m : gmap (list Z) A) (k : list Z) (v : A) : gmap (list Z) A :=
  match m !! k with
  | Some _ => m
  | None => <[k := v]> m
  end.

(** ** Loops over the elements of a container *)
Fixpoint for_each {A S} (body : A → S → outcome S) (l : list A) (s : S) : outcome S :=
  match l with
  | [] => Ret s
  | x :: l => let! s := body x s in for_each body l s
  end.

Lemma for_each_returns {A S} (I : S → Prop) (P : A → Prop) (body : A → S → outcome S) l s :
  Forall P l → I s → (∀ x s, P x → I s → returns (body x s) I) → returns (for_each body l s) I.
Proof.
  intros Hl Hs Hb. revert s Hs. induction Hl as [|x l Hx Hl IH]; intros s Hs; cbn [for_each]; [done|].
  apply returns_bind. eapply returns_mono; [by apply Hb|]. intros s'. apply IH.
Qed.

(** ** The string algorithms of Boost

    [boost::split] with [is_any_of] and [boost::trim], by what their
    documentation says: the pieces between the separators, empty ones included;
    the text without the white space at its ends. *)
Class Boost := {
  boost_split : list Z → list Z → list (list Z);
  boost_trim : list Z → list Z;
}.

Fixpoint join (sep : Z) (l : list (list Z)) : list Z :=
  match l with
  | [] => []
  | [x] => x
  | x :: l => x ++ sep :: join sep l
  end.

(** No white space at either end. *)
Definition trimmed (s : list Z) : Prop := ∀ a x b, s = a ++ x :: b → a = [] ∨ b = [] → isspace x = false.

Class BoostLaws `{Boost} := {
  split_join sep s : join sep (boost_split s [sep]) = s;
  split_pieces sep s : Forall (λ p, sep ∉ p) (boost_split s [sep]);
  split_nonempty sep s : boost_split s [sep] ≠ [];
  trim_ends s : ∃ a b, s = a ++ boost_trim s ++ b ∧ Forall (λ c, isspace c = true) (a ++ b);
  trim_trimmed s : trimmed (boost_trim s);
}.

(** ** Decimal numbers *)

(** [snprintf] of a decimal number of at most 64 bits, in ASCII. *)
Fixpoint digits (fuel : nat) (n : Z) (acc : list Z) : list Z :=
  match fuel with
  | O => acc
  | S fuel =>
      let acc := 48 + n mod 10 :: acc in
      if n <? 10 then acc else digits fuel (n / 10) acc
  end.

Definition print_dec (n : Z) : list Z := if n <? 0 then 45 :: digits 20 (- n) [] else digits 20 n [].

Fixpoint dec_value (acc : Z) (l : list Z) : Z :=
  match l with
  | [] => acc
  | c :: l => dec_value (10 * acc + (c - 48)) l
  end.

Definition parse_dec (l : list Z) : Z :=
  match l with
  | 45 :: l => - dec_value 0 l
  | _ => dec_value 0 l
  end.

Lemma digits_value fuel n acc a :
  0 ≤ n < 10 ^ Z.of_nat fuel → (0 < fuel)%nat →
  ∃ k, dec_value a (digits fuel n acc) = dec_value (a * 10 ^ k + n) acc ∧ 0 ≤ k.
Proof.
  revert n acc a. induction fuel as [|fuel IH]; intros n acc a Hn Hf; [lia|]. cbn [digits].
  destruct (Z.ltb_spec n 10).
  - exists 1. rewrite Z.mod_small by lia. split; [|lia]. cbn [dec_value]. f_equal. lia.
  - rewrite Nat2Z.inj_succ, Z.pow_succ_r in Hn by lia.
    destruct (IH (n / 10) (48 + n mod 10 :: acc) a) as (k & -> & Hk).
    + split; [apply Z.div_pos; lia|]. apply Z.div_lt_upper_bound; lia.
    + destruct fuel; [|lia]. simpl in Hn. lia.
    + exists (k + 1). split; [|lia]. cbn [dec_value]. f_equal. rewrite Z.pow_add_r, Z.pow_1_r by lia.
      pose proof (Z.div_mod n 10). lia.
Qed.

Lemma digits_head fuel n acc : (0 < fuel)%nat → 0 ≤ n → ∃ c l, digits fuel n acc = c :: l ∧ (48 ≤ c < 58).
Proof.
  revert n acc. induction fuel as [|fuel IH]; intros n acc Hf Hn; [lia|]. cbn [digits].
  pose proof (Z.mod_pos_bound n 10). destruct (Z.ltb_spec n 10); [eexists _, _; split; [done|lia]|].
  destruct fuel as [|fuel]; [eexists _, _; split; [done|lia]|]. apply IH; [lia|]. apply Z.div_pos; lia.
Qed.

(** The digits written denote the number, for every 64-bit number. *)
Lemma print_dec_correct n : - 2 ^ 63 ≤ n < 2 ^ 64 → parse_dec (print_dec n) = n.
Proof.
  intros Hn. unfold print_dec. destruct (Z.ltb_spec n 0).
  - cbn [parse_dec]. destruct (digits_value 20 (- n) [] 0) as (k & -> & _); [lia..|]. cbn [dec_value]. lia.
  - destruct (digits_head 20 n []) as (c & l & E & Hc); [lia..|].
    destruct (digits_value 20 n [] 0) as (k & Ek & _); [lia..|]. rewrite E in *. cbn [dec_value] in Ek.
    assert (parse_dec (c :: l) = dec_value 0 (c :: l)) as ->.
    { unfold parse_dec. repeat (case_match; try done; try lia). }
    cbn [dec_value]. rewrite Ek. lia.
Qed.

Lemma digits_chars fuel n acc :
  0 ≤ n → Forall (λ c, isdigit c = true) acc →
  Forall (λ c, isdigit c = true) (digits fuel n acc) ∧ (length (digits fuel n acc) ≤ fuel + length acc)%nat.
Proof.
  revert n acc. induction fuel as [|fuel IH]; intros n acc Hn Ha; [split; [done|simpl; lia]|]. cbn [digits].
  assert (Forall (λ c, isdigit c = true) (48 + n mod 10 :: acc)) as Ha'.
  { constructor; [|done]. pose proof (Z.mod_pos_bound n 10). unfold isdigit. lia. }
  destruct (n <? 10); [split; [done|simpl; lia]|].
  destruct (IH (n / 10) _ ltac:(apply Z.div_pos; lia) Ha') as [? Hl]. split; [done|]. simpl in Hl. lia.
Qed.

Lemma print_dec_chars n : Forall (λ c, c = 45 ∨ isdigit c = true) (print_dec n) ∧ slen (print_dec n) ≤ 21.
Proof.
  unfold print_dec. destruct (Z.ltb_spec n 0).
  - destruct (digits_chars 20 (- n) [] ltac:(lia) ltac:(constructor)) as [Hc Hl]. split; [|cbn [length] in *; lia].
    constructor; [by left|]. eapply Forall_impl; [exact Hc|]. auto.
  - destruct (digits_chars 20 n [] ltac:(lia) ltac:(constructor)) as [Hc Hl]. split; [|cbn [length] in *; lia].
    eapply Forall_impl; [exact Hc|]. auto.
Qed.

Lemma print_dec_not c n : c ≠ 45 → isdigit c = false → c ∉ print_dec n.
Proof.
  intros Hc Hd Hin. destruct (print_dec_chars n) as [H _]. rewrite Forall_forall in H. destruct (H _ Hin); congruence.
Qed.

(** ** Lemmas: positions *)
Section positions.
Implicit Types (s t a b : list Z) (f : Z → bool).

Lemma index_of_None f s : index_of f s = None ↔ Forall (λ x, f x = false) s.
Proof.
  induction s as [|x s IH]; simpl; [done|]. rewrite Forall_cons, <-IH.
  destruct (f x), (index_of f s); naive_solver.
Qed.

Lemma index_of_app f a x b : Forall (λ x, f x = false) a → f x = true → index_of f (a ++ x :: b) = Some (length a).
Proof. intros Ha Hx. induction Ha as [|y a Hy Ha IH]; simpl; [by rewrite Hx|by rewrite Hy, IH]. Qed.

Lemma index_of_Some f s k :
  index_of f s = Some k → ∃ a x b, s = a ++ x :: b ∧ length a = k ∧ f x = true ∧ Forall (λ x, f x = false) a.
Proof.
  revert k. induction s as [|y s IH]; intros k; simpl; [done|]. destruct (f y) eqn:Ey.
  - intros [= <-]. by exists [], y, s.
  - intros H. destruct (index_of f s) as [j|]; [|done]. injection H as <-.
    destruct (IH j eq_refl) as (a & x & b & -> & <- & Hx & Ha). exists (y :: a), x, b. auto.
Qed.

Lemma find_char_app c s pos a b :
  0 ≤ pos ≤ slen s → drop (Z.to_nat pos) s = a ++ c :: b → (c ∉ a) → find_char c s pos = Some (pos + slen a).
Proof.
  intros Hp Hd Hc. unfold find_char. rewrite (proj2 (Z.leb_le _ _)) by lia. rewrite Hd, index_of_app; [done| |lia].
  apply Forall_forall. intros x Hx. apply Z.eqb_neq. by intros ->.
Qed.

Lemma find_char_None c s pos :
  0 ≤ pos → (c ∉ drop (Z.to_nat pos) s) → find_char c s pos = None.
Proof.
  intros Hp Hc. unfold find_char. destruct (pos <=? slen s); [|done].
  assert (index_of (Z.eqb c) (drop (Z.to_nat pos) s) = None) as ->; [|done].
  apply index_of_None, Forall_forall. intros x Hx. apply Z.eqb_neq. by intros ->.
Qed.

Lemma str_substr_ok s pos n : 0 ≤ pos ≤ slen s → substr s pos n = Ret (take (Z.to_nat n) (drop (Z.to_nat pos) s)).
Proof. intros Hp. unfold substr. rewrite (proj2 (Z.leb_le _ _)), (proj2 (Z.leb_le _ _)) by lia. done. Qed.

Lemma substr_from_ok s pos : 0 ≤ pos ≤ slen s → substr_from s pos = Ret (drop (Z.to_nat pos) s).
Proof. intros Hp. unfold substr_from. rewrite (proj2 (Z.leb_le _ _)), (proj2 (Z.leb_le _ _)) by lia. done. Qed.

Lemma c_string_id s : (0 ∉ s) → c_string s = s.
Proof.
  induction s as [|x s IH]; [done|]. intros [Hx Hs]%not_elem_of_cons. simpl.
  rewrite (proj2 (Z.eqb_neq _ _)) by done. by rewrite IH.
Qed.

Lemma c_string_no_nul s : 0 ∉ c_string s.
Proof.
  induction s as [|x s IH]; simpl; [apply not_elem_of_nil|]. destruct (Z.eqb_spec x 0); [apply not_elem_of_nil|].
  by apply not_elem_of_cons.
Qed.

Lemma c_string_sub s x : x ∈ c_string s → x ∈ s.
Proof.
  induction s as [|y s IH]; simpl; [done|]. destruct (y =? 0); [by intros ?%not_elem_of_nil|]. rewrite !elem_of_cons. tauto.
Qed.

Lemma c_string_length s : (length (c_string s) ≤ length s)%nat.
Proof. induction s as [|x s IH]; [done|]. cbn [c_string]. destruct (x =? 0); cbn [length]; lia. Qed.

Lemma c_string_app s t : (0 ∉ s) → c_string (s ++ t) = s ++ c_string t.
Proof.
  induction s as [|x s IH]; [done|]. intros [Hx Hs]%not_elem_of_cons. simpl.
  rewrite (proj2 (Z.eqb_neq _ _)) by done. by rewrite IH.
Qed.
End positions.

(** ** Lemmas: the order of strings *)
Section order.
Implicit Types (s t u : list Z).

Lemma str_lt_irrefl s : str_lt s s = false.
Proof. induction s as [|x s IH]; simpl; [done|]. by rewrite Z.ltb_irrefl, Z.eqb_refl, IH. Qed.

Lemma str_lt_cons x y s t : str_lt (x :: s) (y :: t) = true ↔ x < y ∨ x = y ∧ str_lt s t = true.
Proof. simpl. rewrite orb_true_iff, andb_true_iff, Z.ltb_lt, Z.eqb_eq. done. Qed.

Lemma str_lt_trans s t u : str_lt s t = true → str_lt t u = true → str_lt s u = true.
Proof.
  revert t u. induction s as [|x s IH]; intros [|y t] [|z u]; try done. rewrite !str_lt_cons.
  intros [?|[-> ?]] [?|[-> ?]]; [left; lia..|]. right. eauto.
Qed.

Lemma str_lt_total s t : str_lt s t = true ∨ s = t ∨ str_lt t s = true.
Proof.
  revert t. induction s as [|x s IH]; intros [|y t]; [auto|by left|by right; right|]. rewrite !str_lt_cons.
  destruct (Z.lt_trichotomy x y) as [?|[-> |?]]; [auto| |auto].
  destruct (IH t) as [?|[-> |?]]; auto.
Qed.

Lemma str_lt_asym s t : str_lt s t = true → str_lt t s = false.
Proof.
  intros H. destruct (str_lt t s) eqn:E; [|done]. pose proof (str_lt_trans _ _ _ H E) as Hs.
  by rewrite str_lt_irrefl in Hs.
Qed.

#[export] Instance str_le_trans : Transitive str_le.
Proof.
  intros s t u. unfold str_le. intros H1 H2. destruct (str_lt u s) eqn:E; [|done].
  destruct (str_lt_total s t) as [H|[-> |H]]; [|congruence..].
  by rewrite (str_lt_trans _ _ _ E H) in H2.
Qed.

#[export] Instance item_le_trans {A} : Transitive (item_le (A:=A)).
Proof. intros a b c. apply str_le_trans. Qed.

#[export] Instance item_le_total {A} : Total (item_le (A:=A)).
Proof.
  intros a b. unfold item_le, str_le. destruct (str_lt b.1 a.1) eqn:E; [right|by left]. by apply str_lt_asym.
Qed.
End order.

Lemma items_perm {A} (m : gmap (list Z) A) : items m ≡ₚ map_to_list m.
Proof. apply merge_sort_Permutation. Qed.

Lemma items_sorted {A} (m : gmap (list Z) A) : StronglySorted item_le (items m).
Proof. apply StronglySorted_merge_sort; apply _. Qed.

Lemma elem_of_items {A} (m : gmap (list Z) A) k v : (k, v) ∈ items m ↔ m !! k = Some v.
Proof. by rewrite items_perm, elem_of_map_to_list. Qed.

(** Inserting the pairs one after the other: the first of a key stays. *)
Definition insert_all {A} (l : list (list Z * A)) (m : gmap (list Z) A) : gmap (list Z) A :=
  foldl (λ m kv, map_insert m kv.1 kv.2) m l.

Lemma map_insert_fresh {A} (m : gmap (list Z) A) k v : m !! k = None → map_insert m k v = <[k := v]> m.
Proof. unfold map_insert. by intros ->. Qed.

Lemma map_insert_lookup {A} (m : gmap (list Z) A) k v k' :
  map_insert m k v !! k' = match m !! k' with Some x => Some x | None => if decide (k' = k) then Some v else None end.
Proof.
  unfold map_insert. destruct (decide (k' = k)) as [->|Hne].
  - destruct (m !! k) eqn:E; [by rewrite E|by rewrite lookup_insert_eq].
  - destruct (m !! k); [by destruct (m !! k')|]. rewrite lookup_insert_ne by done. by destruct (m !! k').
Qed.

(** The first value of [k] in [l]. *)
Fixpoint first_value {A} (k : list Z) (l : list (list Z * A)) : option A :=
  match l with
  | [] => None
  | (k', v) :: l => if decide (k = k') then Some v else first_value k l
  end.

Lemma insert_all_lookup {A} (l : list (list Z * A)) m k :
  insert_all l m !! k = match m !! k with Some v => Some v | None => first_value k l end.
Proof.
  revert m. induction l as [|[k' v] l IH]; intros m; simpl; [by destruct (m !! k)|].
  rewrite IH, map_insert_lookup. destruct (m !! k); [done|]. by case_decide.
Qed.

Lemma first_value_unique {A} (l : list (list Z * A)) k v : NoDup l.*1 → (k, v) ∈ l → first_value k l = Some v.
Proof.
  induction l as [|[k' v'] l IH]; intros Hn Hin; [by apply elem_of_nil in Hin|].
  apply NoDup_cons in Hn as [Hk' Hn]. simpl. apply elem_of_cons in Hin as [[= <- <-]|Hin].
  - by rewrite decide_True.
  - rewrite decide_False; [auto|]. intros ->. apply Hk'. by apply (list_elem_of_fmap_2 fst) in Hin.
Qed.

Lemma first_value_None {A} (l : list (list Z * A)) k : (k ∉ l.*1) → first_value k l = None.
Proof.
  induction l as [|[k' v'] l IH]; [done|]. intros [Hne Hl]%not_elem_of_cons. simpl. rewrite decide_False by done. auto.
Qed.

(** Pairs with distinct keys, in any order, join what is there. *)
Lemma insert_all_items {A} (m m0 : gmap (list Z) A) (l : list (list Z * A)) :
  l ≡ₚ map_to_list m → insert_all l m0 = m0 ∪ m.
Proof.
  intros Hl. assert (NoDup l.*1) as Hn by (rewrite Hl; apply NoDup_fst_map_to_list).
  apply map_eq. intros k. rewrite insert_all_lookup, lookup_union. destruct (m0 !! k); [by destruct (m !! k)|].
  destruct (m !! k) as [v|] eqn:E.
  - apply first_value_unique; [done|]. by rewrite Hl, elem_of_map_to_list.
  - apply first_value_None. rewrite Hl, list_elem_of_fmap. intros ([k' v] & -> & Hin).
    apply elem_of_map_to_list in Hin. simpl in E. congruence.
Qed.

(** ** Lemmas: splitting and trimming *)
Lemma join_inj sep l l' :
  Forall (λ p, sep ∉ p) l → Forall (λ p, sep ∉ p) l' → l ≠ [] → l' ≠ [] → join sep l = join sep l' → l = l'.
Proof.
  assert (∀ x y a b : list Z, (sep ∉ x) → (sep ∉ y) → x ++ sep :: a = y ++ sep :: b → x = y ∧ a = b) as Hcut.
  { induction x as [|c x IH]; intros [|d y] a b Hx Hy E; simpl in *.
    - by injection E.
    - injection E as -> _. destruct Hy. by left.
    - injection E as -> _. destruct Hx. by left.
    - apply not_elem_of_cons in Hx as [_ Hx], Hy as [_ Hy]. injection E as -> E.
      by destruct (IH y a b Hx Hy E) as [-> ->]. }
  intros Hl. revert l'. induction Hl as [|x l Hx Hl IH]; intros l' Hl' Hne Hne' E; [done|].
  destruct Hl' as [|y l' Hy Hl']; [done|].
  destruct l as [|x2 l], l' as [|y2 l'].
  - simpl in E. by subst.
  - change (x = y ++ sep :: join sep (y2 :: l')) in E. subst x. destruct Hx. apply elem_of_app. right. by left.
  - change (x ++ sep :: join sep (x2 :: l) = y) in E. subst y. destruct Hy. apply elem_of_app. right. by left.
  - change (x ++ sep :: join sep (x2 :: l) = y ++ sep :: join sep (y2 :: l')) in E.
    apply Hcut in E as [-> E]; [|done|done]. f_equal. by apply IH.
Qed.

Section boost.
Context `{BoostLaws}.

Lemma boost_split_join sep l : Forall (λ p, sep ∉ p) l → l ≠ [] → boost_split (join sep l) [sep] = l.
Proof.
  intros Hl Hne. apply (join_inj sep); [apply split_pieces|done|apply split_nonempty|done|apply split_join].
Qed.

Lemma split_one sep s : (sep ∉ s) → boost_split s [sep] = [s].
Proof. intros Hs. apply (boost_split_join sep [s]); [by repeat constructor|done]. Qed.

Lemma solid_trimmed s : Forall (λ c, isspace c = false) s → trimmed s.
Proof. intros Hs a x b -> _. apply Forall_app in Hs as [_ Hs]. by inversion Hs. Qed.

Lemma trim_id s : trimmed s → boost_trim s = s.
Proof.
  intros Ht. destruct (trim_ends s) as (a & b & E & Hab). apply Forall_app in Hab as [Ha Hb].
  destruct a as [|x a].
  - destruct b as [|y b _] using rev_ind; [by rewrite app_nil_r in E|]. exfalso.
    apply Forall_app in Hb as [_ Hy]. apply Forall_cons in Hy as [Hy _].
    rewrite (Ht (boost_trim s ++ b) y []) in Hy; [done| |by right]. by rewrite E, <-app_assoc at 1.
  - exfalso. apply Forall_cons in Ha as [Hx _]. rewrite (Ht [] x (a ++ boost_trim s ++ b)) in Hx; [done|done|by left].
Qed.
End boost.

(** An implementation. *)
Fixpoint split_at (f : Z → bool) (s : list Z) : list (list Z) :=
  match s with
  | [] => [[]]
  | x :: s =>
      if f x then [] :: split_at f s
      else match split_at f s with
           | p :: l => (x :: p) :: l
           | [] => [[x]]
           end
  end.

Fixpoint trim_left (s : list Z) : list Z :=
  match s with
  | [] => []
  | x :: s' => if isspace x then trim_left s' else s
  end.

#[export] Instance boost_impl : Boost := {
  boost_split s seps := split_at (λ x, bool_decide (x ∈ seps)) s;
  boost_trim s := rev (trim_left (rev (trim_left s)));
}.

Lemma split_at_nonempty f s : split_at f s ≠ [].
Proof. destruct s as [|x s]; simpl; [done|]. destruct (f x); [done|]. by destruct (split_at f s). Qed.

Lemma trim_left_suffix s : ∃ a, s = a ++ trim_left s ∧ Forall (λ c, isspace c = true) a.
Proof.
  induction s as [|x s (a & E & Ha)]; [by exists []|]. simpl. destruct (isspace x) eqn:Ex; [|by exists []].
  exists (x :: a). split; [simpl; by f_equal|by constructor].
Qed.

Lemma trim_left_head s x b : trim_left s = x :: b → isspace x = false.
Proof. induction s as [|y s IH]; [done|]. simpl. destruct (isspace y) eqn:Ey; [done|]. by intros [= <- _]. Qed.

#[export] Instance boost_impl_laws : BoostLaws.
Proof.
  split.
  - intros sep s. cbn. induction s as [|x s IH]; [done|]. cbn [split_at]. case_bool_decide as Hx.
    + apply list_elem_of_singleton in Hx as ->. pose proof (split_at_nonempty (λ x, bool_decide (x ∈ [sep])) s).
      destruct (split_at _ s) as [|p l]; [done|]. by rewrite <-IH.
    + pose proof (split_at_nonempty (λ x, bool_decide (x ∈ [sep])) s). destruct (split_at _ s) as [|p l]; [done|].
      rewrite <-IH. by destruct l.
  - intros sep s. cbn. induction s as [|x s IH]; [repeat constructor; apply not_elem_of_nil|]. cbn [split_at].
    case_bool_decide as Hx; [constructor; [apply not_elem_of_nil|done]|].
    destruct (split_at _ s) as [|p l]; [by repeat constructor; apply not_elem_of_cons; split; [intros ->; apply Hx; left|apply not_elem_of_nil]|].
    apply Forall_cons in IH as [Hp Hl]. constructor; [|done]. apply not_elem_of_cons. split; [|done]. intros ->. apply Hx. by left.
  - intros sep s. apply split_at_nonempty.
  - intros s. cbn. destruct (trim_left_suffix s) as (a & E & Ha). destruct (trim_left_suffix (rev (trim_left s))) as (b & E' & Hb).
    exists a, (rev b). split.
    + rewrite E at 1. f_equal. rewrite <-rev_app_distr, <-E'. by rewrite rev_involutive.
    + apply Forall_app. split; [done|]. by apply Forall_rev.
  - intros s a x b E [-> | ->]; cbn in E.
    + destruct (trim_left_suffix (rev (trim_left s))) as (c & E' & Hc). apply (f_equal (@rev Z)) in E'.
      rewrite rev_involutive, rev_app_distr, E in E'. simpl in E'. by apply trim_left_head in E'.
    + apply (f_equal (@rev Z)) in E. rewrite rev_involutive, rev_app_distr in E. by apply trim_left_head in E.
Qed.
