(* ===== verification/Coding.v ===== *)
(** * Integer coding: [mycache/src/util/coding.h]

    Fixed-width little-endian codes, the base-128 varints and the zigzag map
    of the wire format.  A [char] buffer is a list of byte values and a
    pointer into it is an index: storing through [*(ptr++)] outside the buffer
    is [Stuck]. *)

From S2P Require Import Prelude.

(** ** Byte order *)
Section endianness.
(** Byte order of the machine, and the global [little_endian] of the file. *)
Context (host_le : bool).

(** The object representation of an [n]-byte unsigned integer. *)
Definition object_bytes (n : nat) (v : Z) : list Z :=
  if host_le then le_bytes n v else rev (le_bytes n v).

Definition object_value (l : list Z) : Z :=
  le_value (if host_le then l else rev l).

(** [is_little_endian]: probe the first byte of the [int] 1. *)
Definition is_little_endian : outcome Z :=
  let! test := aget (object_bytes 4 1) 0 in
  if bool_decide (test ≠ 0) then Ret 1 else Ret 0.

(** [memcpy] of [src] to the buffer at index [at_]. *)
Fixpoint store_bytes (buf : list Z) (at_ : Z) (src : list Z) : outcome (list Z) :=
  match src with
  | [] => Ret buf
  | b :: src => let! buf := aset buf at_ (u8 b) in store_bytes buf (at_ + 1) src
  end.

Fixpoint load_bytes (buf : list Z) (at_ : Z) (n : nat) : outcome (list Z) :=
  match n with
  | O => Ret []
  | S n => let! b := aget buf at_ in
           let! l := load_bytes buf (at_ + 1) n in Ret (b :: l)
  end.

Definition encode_little_endian32 (little_endian : Z) (buf : list Z) (at_ value : Z)
    : outcome (list Z) :=
  if bool_decide (little_endian ≠ 0) then store_bytes buf at_ (object_bytes 4 value)
  else
    let! buf := aset buf at_ (u8 (Z.land value 0xff)) in
    let! buf := aset buf (at_ + 1) (u8 (Z.land (Z.shiftr value 8) 0xff)) in
    let! buf := aset buf (at_ + 2) (u8 (Z.land (Z.shiftr value 16) 0xff)) in
    aset buf (at_ + 3) (u8 (Z.land (Z.shiftr value 24) 0xff)).

Definition encode_little_endian64 (little_endian : Z) (buf : list Z) (at_ value : Z)
    : outcome (list Z) :=
  if bool_decide (little_endian ≠ 0) then store_bytes buf at_ (object_bytes 8 value)
  else
    let! buf := aset buf at_ (u8 (Z.land value 0xff)) in
    let! buf := aset buf (at_ + 1) (u8 (Z.land (Z.shiftr value 8) 0xff)) in
    let! buf := aset buf (at_ + 2) (u8 (Z.land (Z.shiftr value 16) 0xff)) in
    let! buf := aset buf (at_ + 3) (u8 (Z.land (Z.shiftr value 24) 0xff)) in
    let! buf := aset buf (at_ + 4) (u8 (Z.land (Z.shiftr value 32) 0xff)) in
    let! buf := aset buf (at_ + 5) (u8 (Z.land (Z.shiftr value 40) 0xff)) in
    let! buf := aset buf (at_ + 6) (u8 (Z.land (Z.shiftr value 48) 0xff)) in
    aset buf (at_ + 7) (u8 (Z.land (Z.shiftr value 56) 0xff)).

Definition decode_little_endian32 (little_endian : Z) (buf : list Z) (ptr : Z) : outcome Z :=
  if bool_decide (little_endian ≠ 0) then
    let! l := load_bytes buf ptr 4 in Ret (object_value l)
  else
    let! b0 := aget buf ptr in
    let! b1 := aget buf (ptr + 1) in
    let! b2 := aget buf (ptr + 2) in
    let! b3 := aget buf (ptr + 3) in
    Ret (Z.lor (Z.lor (Z.lor b0 (u32 (Z.shiftl b1 8))) (u32 (Z.shiftl b2 16)))
               (u32 (Z.shiftl b3 24))).

Definition decode_little_endian64 (little_endian : Z) (buf : list Z) (ptr : Z) : outcome Z :=
  if bool_decide (little_endian ≠ 0) then
    let! l := load_bytes buf ptr 8 in Ret (object_value l)
  else
    let! lo := decode_little_endian32 little_endian buf ptr in
    let! hi := decode_little_endian32 little_endian buf (ptr + 4) in
    Ret (Z.lor (u64 (Z.shiftl hi 32)) lo).
End endianness.

(** ** Varints *)

(** [*(ptr++) = x] through an [unsigned char *]. *)
Definition put_byte (st : list Z * Z) (x : Z) : outcome (list Z * Z) :=
  let! buf := aset st.1 st.2 (u8 x) in Ret (buf, st.2 + 1).

Definition B : Z := 128.

Definition encode_varint32 (buf : list Z) (dst v : Z) : outcome (list Z * Z) :=
  let ptr := (buf, dst) in
  if v <? Z.shiftl 1 7 then put_byte ptr v
  else if v <? Z.shiftl 1 14 then
    let! ptr := put_byte ptr (Z.lor v B) in
    put_byte ptr (Z.shiftr v 7)
  else if v <? Z.shiftl 1 21 then
    let! ptr := put_byte ptr (Z.lor v B) in
    let! ptr := put_byte ptr (Z.lor (Z.shiftr v 7) B) in
    put_byte ptr (Z.shiftr v 14)
  else if v <? Z.shiftl 1 28 then
    let! ptr := put_byte ptr (Z.lor v B) in
    let! ptr := put_byte ptr (Z.lor (Z.shiftr v 7) B) in
    let! ptr := put_byte ptr (Z.lor (Z.shiftr v 14) B) in
    put_byte ptr (Z.shiftr v 21)
  else
    let! ptr := put_byte ptr (Z.lor v B) in
    let! ptr := put_byte ptr (Z.lor (Z.shiftr v 7) B) in
    let! ptr := put_byte ptr (Z.lor (Z.shiftr v 14) B) in
    let! ptr := put_byte ptr (Z.lor (Z.shiftr v 21) B) in
    put_byte ptr (Z.shiftr v 28).

(** At most nine continuation bytes: [v] has 64 bits. *)
Definition encode_varint64 (buf : list Z) (dst v : Z) : outcome (list Z * Z) :=
  loop 10 (λ st : (list Z * Z) * Z,
    let '(ptr, v) := st in
    if B <=? v then
      let! ptr := put_byte ptr (Z.lor (Z.land v (B - 1)) B) in
      Ret (inl (ptr, Z.shiftr v 7))
    else
      let! ptr := put_byte ptr (u8 v) in Ret (inr ptr)) ((buf, dst), v).

Definition encode_varint_length (v : Z) : outcome Z :=
  loop 10 (λ st : Z * Z,
    let '(v, len) := st in
    if 128 <=? v then Ret (inl (Z.shiftr v 7, len + 1)) else Ret (inr len)) (v, 1).

(** One turn of the decoding loop of [get_varint32_fallback] (with [wrap] the
    32-bit wrap and [last = 28]) and [get_varint64_fallback] (64 bits, 63).
    [None] is the null result. *)
Definition varint_step (wrap : Z → Z) (last : Z) (buf : list Z) (limit : Z)
    (st : Z * Z * Z) : outcome ((Z * Z * Z) + option (Z * Z)) :=
  let '(p, shift, result) := st in
  if (shift <=? last) && (p <? limit) then
    let! byte := aget buf p in
    let p := p + 1 in
    if bool_decide (Z.land byte 128 ≠ 0) then
      Ret (inl (p, shift + 7, Z.lor result (wrap (Z.shiftl (Z.land byte 127) shift))))
    else
      Ret (inr (Some (p, Z.lor result (wrap (Z.shiftl byte shift)))))
  else Ret (inr None).

Definition get_varint32_fallback (buf : list Z) (p limit : Z) : outcome (option (Z * Z)) :=
  loop 6 (varint_step u32 28 buf limit) (p, 0, 0).

Definition get_varint64_fallback (buf : list Z) (p limit : Z) : outcome (option (Z * Z)) :=
  loop 11 (varint_step u64 63 buf limit) (p, 0, 0).

Definition get_varint32_data_ptr (buf : list Z) (p limit : Z) : outcome (option (Z * Z)) :=
  if p <? limit then
    let! result := aget buf p in
    if Z.land result 128 =? 0 then Ret (Some (p + 1, result))
    else get_varint32_fallback buf p limit
  else get_varint32_fallback buf p limit.

Definition get_varint64_data_ptr (buf : list Z) (p limit : Z) : outcome (option (Z * Z)) :=
  get_varint64_fallback buf p limit.

(** ** Zigzag

    [n << 1] is undefined for a negative [n] and when the result does not fit. *)
Definition shl_s32 (n k : Z) : outcome Z := if 0 <=? n then in_s32 (Z.shiftl n k) else Stuck.
Definition shl_s64 (n k : Z) : outcome Z := if 0 <=? n then in_s64 (Z.shiftl n k) else Stuck.

Definition zigzag_encode32 (n : Z) : outcome Z := let! m := shl_s32 n 1 in Ret (u32 (Z.lxor m (Z.shiftr n 31))).
Definition zigzag_decode32 (n : Z) : Z := s32 (Z.lxor (Z.shiftr n 1) (u32 (- Z.land n 1))).
Definition zigzag_encode64 (n : Z) : outcome Z := let! m := shl_s64 n 1 in Ret (u64 (Z.lxor m (Z.shiftr n 63))).
Definition zigzag_decode64 (n : Z) : Z := s64 (Z.lxor (Z.shiftr n 1) (u64 (- Z.land n 1))).

(** ** Reference definitions *)

(** The base-128 digits of [v], least significant first, all but the last with
    the continuation bit. *)
Fixpoint varint (n : nat) (v : Z) : list Z :=
  match n with
  | O => []
  | S n => if v <? 128 then [v] else v mod 128 + 128 :: varint n (v / 128)
  end.

(** The buffer with [src] copied over positions [at_, at_ + length src). *)
Definition splice (buf : list Z) (at_ : nat) (src : list Z) : list Z :=
  take at_ buf ++ src ++ drop (at_ + length src) buf.

Definition zigzag (n : Z) : Z := if n <? 0 then - 2 * n - 1 else 2 * n.

(** ** Lemmas *)
Lemma length_splice buf at_ src :
  (at_ + length src ≤ length buf)%nat → length (splice buf at_ src) = length buf.
Proof. intros. unfold splice. rewrite !length_app, length_take, length_drop. lia. Qed.

Lemma splice_nil buf at_ : splice buf at_ [] = buf.
Proof. unfold splice. simpl. by rewrite Nat.add_0_r, take_drop. Qed.

Lemma splice_insert buf at_ b src :
  (at_ + S (length src) ≤ length buf)%nat →
  splice (<[at_:=b]> buf) (S at_) src = splice buf at_ (b :: src).
Proof.
  intros. unfold splice. rewrite (take_S_r _ _ b) by (apply list_lookup_insert_eq; lia).
  rewrite take_insert_ge, drop_insert_lt by lia. simpl.
  rewrite <-app_assoc. simpl. do 4 f_equal. lia.
Qed.

Lemma drop_splice buf at_ src :
  (at_ + length src ≤ length buf)%nat →
  drop at_ (splice buf at_ src) = src ++ drop (at_ + length src) buf.
Proof.
  intros. unfold splice. rewrite drop_app_length'; [done|]. rewrite length_take. lia.
Qed.

Lemma store_bytes_ok buf at_ src :
  0 ≤ at_ → at_ + Z.of_nat (length src) ≤ Z.of_nat (length buf) → Forall is_u8 src →
  store_bytes buf at_ src = Ret (splice buf (Z.to_nat at_) src).
Proof.
  revert buf at_. induction src as [|b src IH]; intros buf at_ Hp Hlen Hu; simpl in *.
  - by rewrite splice_nil.
  - inversion_clear Hu. rewrite aset_ok by lia. simpl.
    rewrite IH; [|lia|rewrite length_insert; lia|done].
    rewrite u8_id by done. f_equal.
    replace (Z.to_nat (at_ + 1)) with (S (Z.to_nat at_)) by lia.
    apply splice_insert. lia.
Qed.

Lemma load_bytes_ok buf p l tl :
  0 ≤ p → drop (Z.to_nat p) buf = l ++ tl → load_bytes buf p (length l) = Ret l.
Proof.
  revert p. induction l as [|b l IH]; intros p Hp Hd; simpl in *; [done|].
  assert (buf !! Z.to_nat p = Some b) as Hb.
  { rewrite <-(Nat.add_0_r (Z.to_nat p)), <-lookup_drop, Hd. done. }
  rewrite (aget_lookup _ _ _ Hp Hb). simpl. rewrite IH; [done|lia|].
  replace (Z.to_nat (p + 1)) with (Z.to_nat p + 1)%nat by lia.
  by rewrite <-drop_drop, Hd.
Qed.

Lemma load_bytes_split mem q v :
  0 ≤ q → 0 ≤ v → q + v ≤ Z.of_nat (length mem) →
  load_bytes mem q (Z.to_nat v) = Ret (take (Z.to_nat v) (drop (Z.to_nat q) mem)).
Proof.
  intros Hq Hv Hl. pose proof (take_drop (Z.to_nat v) (drop (Z.to_nat q) mem)) as E.
  assert (length (take (Z.to_nat v) (drop (Z.to_nat q) mem)) = Z.to_nat v) as El by (rewrite length_take, length_drop; lia).
  rewrite <-El at 1. by eapply load_bytes_ok.
Qed.


Lemma store_bytes_cons buf at_ b src :
  store_bytes buf at_ (b :: src) = aset buf at_ (u8 b) ≫= λ buf, store_bytes buf (at_ + 1) src.
Proof. done. Qed.

(** *** Bits of the coded bytes *)
Lemma land_ff v : Z.land v 0xff = v mod 256.
Proof. change 0xff with (Z.ones 8). by rewrite Z.land_ones by lia. Qed.

Lemma land_127 v : Z.land v 127 = v mod 128.
Proof. change 127 with (Z.ones 7). by rewrite Z.land_ones by lia. Qed.

Lemma lor_128_small a : 0 ≤ a < 128 → Z.lor a 128 = a + 128.
Proof. intros Ha. change 128 with (Z.shiftl 1 7). by rewrite lor_disjoint_add by lia. Qed.

(** Storing [v | 128] in a byte keeps the low seven bits and sets the eighth. *)
Lemma u8_lor_128 v : 0 ≤ v → u8 (Z.lor v 128) = v mod 128 + 128.
Proof.
  intros Hv. rewrite <-lor_128_small, <-land_127 by (apply Z.mod_pos_bound; lia).
  unfold u8. rewrite <-Z.land_ones by lia.
  apply Z.bits_inj'. intros i Hi.
  rewrite !Z.land_spec, !Z.lor_spec, Z.land_spec.
  destruct (decide (i < 8)).
  - rewrite Z.ones_spec_low by lia. rewrite andb_true_r.
    destruct (decide (i = 7)) as [->|].
    + change (Z.testbit 128 7) with true. by rewrite !orb_true_r.
    + change 127 with (Z.ones 7). rewrite Z.ones_spec_low by lia. by rewrite andb_true_r.
  - rewrite Z.ones_spec_high, andb_false_r by lia.
    change 127 with (Z.ones 7). rewrite Z.ones_spec_high, andb_false_r by lia. simpl.
    by rewrite (testbit_small 128 8) by lia.
Qed.

Lemma land_128_small b : 0 ≤ b < 128 → Z.land b 128 = 0.
Proof. intros. by apply (land_disjoint b 1 7). Qed.

Lemma land_128_cont a : 0 ≤ a < 128 → Z.land (a + 128) 128 ≠ 0.
Proof.
  intros Ha E. rewrite <-lor_128_small in E by done.
  assert (Z.testbit (Z.land (Z.lor a 128) 128) 7 = true) as T.
  { rewrite Z.land_spec, Z.lor_spec. change (Z.testbit 128 7) with true. by rewrite orb_true_r. }
  by rewrite E in T.
Qed.

Lemma land_127_cont a : 0 ≤ a < 128 → Z.land (a + 128) 127 = a.
Proof.
  intros Ha. rewrite land_127.
  replace (a + 128) with (a + 1 * 128) by lia. by rewrite Z.mod_add, Z.mod_small by lia.
Qed.

(** *** Shape of the varints *)
Lemma varint_range n v : 0 ≤ v → Forall is_u8 (varint n v).
Proof.
  revert v. induction n as [|n IH]; intros v Hv; simpl; [constructor|].
  destruct (Z.ltb_spec v 128).
  - constructor; [unfold is_u8; lia|constructor].
  - constructor; [|apply IH, Z.div_pos; lia].
    pose proof (Z.mod_pos_bound v 128). unfold is_u8. lia.
Qed.

Lemma length_varint_le n v : (length (varint n v) ≤ n)%nat.
Proof.
  revert v. induction n as [|n IH]; intros v; simpl; [lia|].
  case_match; simpl; [lia|]. specialize (IH (v / 128)). lia.
Qed.

Lemma varint_shift7 v : Z.shiftr v 7 = v / 128.
Proof. by rewrite Z.shiftr_div_pow2 by lia. Qed.

Lemma put_byte_store buf dst x :
  put_byte (buf, dst) x = store_bytes buf dst [x] ≫= λ buf, Ret (buf, dst + 1).
Proof. unfold put_byte. simpl. by destruct (aset buf dst (u8 x)). Qed.

(** Encoding into a buffer is copying the varint into it. *)
Definition store_varint (n : nat) (buf : list Z) (dst v : Z) : outcome (list Z * Z) :=
  let! buf := store_bytes buf dst (varint n v) in
  Ret (buf, dst + Z.of_nat (length (varint n v))).

Lemma store_varint_step n buf dst v :
  0 ≤ v → 128 ≤ v →
  store_varint (S n) buf dst v =
  put_byte (buf, dst) (Z.lor v B) ≫= λ ptr, store_varint n ptr.1 ptr.2 (v / 128).
Proof.
  intros Hv Hge. unfold store_varint. simpl varint.
  destruct (Z.ltb_spec v 128); [lia|]. rewrite store_bytes_cons. unfold put_byte. simpl.
  unfold B. rewrite u8_lor_128 by done.
  rewrite (u8_id (v mod 128 + 128)) by (unfold is_u8; pose proof (Z.mod_pos_bound v 128); lia).
  destruct (aset buf dst (v mod 128 + 128)) as [buf'| |]; simpl; [|done|done].
  destruct (store_bytes buf' (dst + 1) (varint n (v / 128))); simpl; [|done|done].
  do 2 f_equal. lia.
Qed.

Lemma store_varint_last n buf dst v :
  0 ≤ v < 128 → store_varint (S n) buf dst v = put_byte (buf, dst) v.
Proof.
  intros Hv. unfold store_varint, put_byte. simpl.
  destruct (Z.ltb_spec v 128); [|lia]. simpl.
  by destruct (aset buf dst (u8 v)).
Qed.

Lemma shiftr_div128 v k : 0 ≤ k → Z.shiftr v (7 + k) = Z.shiftr v k / 128.
Proof.
  intros Hk. rewrite !Z.shiftr_div_pow2 by lia.
  rewrite Z.pow_add_r, Z.mul_comm, Z.div_div by lia. done.
Qed.

Lemma encode_varint32_store buf dst v :
  is_u32 v → encode_varint32 buf dst v = store_varint 5 buf dst v.
Proof.
  intros [Hv0 Hv]. unfold encode_varint32.
  assert (Z.shiftr v 7 = v / 128) as E7 by apply varint_shift7.
  assert (Z.shiftr v 14 = v / 128 / 128) as E14 by (rewrite <-E7; by apply (shiftr_div128 v 7)).
  assert (Z.shiftr v 21 = v / 128 / 128 / 128) as E21
    by (rewrite <-E14; by apply (shiftr_div128 v 14)).
  assert (Z.shiftr v 28 = v / 128 / 128 / 128 / 128) as E28
    by (rewrite <-E21; by apply (shiftr_div128 v 21)).
  rewrite E7, E14, E21, E28. clear E7 E14 E21 E28.
  change (Z.shiftl 1 7) with (2 ^ 7). change (Z.shiftl 1 14) with (2 ^ 14).
  change (Z.shiftl 1 21) with (2 ^ 21). change (Z.shiftl 1 28) with (2 ^ 28).
  destruct (Z.ltb_spec v (2 ^ 7)); [by rewrite store_varint_last by dlia|].
  rewrite store_varint_step by dlia.
  destruct (Z.ltb_spec v (2 ^ 14)).
  { destruct (put_byte _ _) as [[]| |]; [simpl|done|done]. by rewrite store_varint_last by dlia. }
  destruct (Z.ltb_spec v (2 ^ 21)).
  { do 1 (destruct (put_byte _ _) as [[]| |]; [simpl|done|done]; rewrite store_varint_step by dlia).
    destruct (put_byte _ _) as [[]| |]; [simpl|done|done]. by rewrite store_varint_last by dlia. }
  destruct (Z.ltb_spec v (2 ^ 28)).
  { do 2 (destruct (put_byte _ _) as [[]| |]; [simpl|done|done]; rewrite store_varint_step by dlia).
    destruct (put_byte _ _) as [[]| |]; [simpl|done|done]. by rewrite store_varint_last by dlia. }
  do 3 (destruct (put_byte _ _) as [[]| |]; [simpl|done|done]; rewrite store_varint_step by dlia).
  destruct (put_byte _ _) as [[]| |]; [simpl|done|done]. by rewrite store_varint_last by dlia.
Qed.

Lemma encode_varint64_store buf dst v :
  is_u64 v → encode_varint64 buf dst v = store_varint 10 buf dst v.
Proof.
  intros [Hv0 Hv]. unfold encode_varint64.
  assert (v < 128 ^ Z.of_nat 10) as Hb by (change (128 ^ Z.of_nat 10) with (2 ^ 70); lia).
  clear Hv. remember 10%nat as n eqn:En. assert (1 ≤ n)%nat as Hn by lia. clear En.
  revert buf dst v Hv0 Hb. induction n as [|n IH]; intros buf dst v Hv0 Hb; [lia|].
  simpl loop. destruct (Z.leb_spec B v) as [Hge|Hlt]; [unfold B in Hge|unfold B in Hlt].
  - rewrite store_varint_step by lia.
    assert (put_byte (buf, dst) (Z.lor (Z.land v (B - 1)) B) = put_byte (buf, dst) (Z.lor v B))
      as ->.
    { unfold put_byte, B. simpl. change (128 - 1) with 127.
      rewrite land_127, !u8_lor_128 by dlia. by rewrite Z.mod_mod by lia. }
    destruct (put_byte _ _) as [[buf' dst']| |]; simpl; [|done|done].
    rewrite varint_shift7. destruct n as [|n].
    { change (128 ^ Z.of_nat 1) with 128 in Hb. lia. }
    apply IH; [lia|dlia|].
    rewrite Nat2Z.inj_succ, Z.pow_succ_r in Hb by lia.
    apply Z.div_lt_upper_bound; lia.
  - rewrite store_varint_last by lia. rewrite u8_id by (unfold is_u8; lia).
    by destruct (put_byte _ _).
Qed.

Lemma encode_varint_length_loop n v len :
  (1 ≤ n)%nat → 0 ≤ v < 128 ^ Z.of_nat n →
  loop n (λ st : Z * Z,
    let '(v, len) := st in
    if 128 <=? v then Ret (inl (Z.shiftr v 7, len + 1)) else Ret (inr len)) (v, len) =
  Ret (len + Z.of_nat (length (varint n v)) - 1).
Proof.
  revert v len. induction n as [|n IH]; intros v len Hn Hb; [lia|].
  simpl. destruct (Z.leb_spec 128 v); destruct (Z.ltb_spec v 128); try lia; simpl.
  - rewrite varint_shift7. destruct n as [|n].
    { change (128 ^ Z.of_nat 1) with 128 in Hb. lia. }
    rewrite IH; [f_equal; lia|lia|split; [dlia|]].
    rewrite Nat2Z.inj_succ, Z.pow_succ_r in Hb by lia.
    apply Z.div_lt_upper_bound; lia.
  - f_equal. lia.
Qed.

Lemma encode_varint_length_eq v :
  is_u64 v → encode_varint_length v = Ret (Z.of_nat (length (varint 10 v))).
Proof.
  intros [Hv0 Hv]. unfold encode_varint_length. rewrite encode_varint_length_loop; [|lia|].
  - f_equal. lia.
  - split; [done|]. change (128 ^ Z.of_nat 10) with (2 ^ 70). lia.
Qed.

(** *** Decoding a varint *)
Lemma lookup_of_drop {A} (l : list A) n x tl : drop n l = x :: tl → l !! n = Some x.
Proof. intros Hd. by rewrite <-(Nat.add_0_r n), <-lookup_drop, Hd. Qed.

(** The decoder, with [acc] collected from the bytes below [shift] and the
    digits of [v] ahead of it: it stops with the value when all of them lie
    below [limit], with [None] otherwise. *)
Lemma varint_loop_spec w n : ∀ buf p limit shift acc v tl fuel,
  0 ≤ p → 0 ≤ v < 128 ^ Z.of_nat n → (1 ≤ n)%nat → (n < fuel)%nat →
  0 ≤ shift → 0 ≤ acc < 2 ^ shift → acc + v * 2 ^ shift < 2 ^ w → 0 ≤ w →
  drop (Z.to_nat p) buf = varint n v ++ tl →
  let len := Z.of_nat (length (varint n v)) in
  loop fuel (varint_step (λ z, z mod 2 ^ w) (shift + 7 * (Z.of_nat n - 1)) buf limit)
    (p, shift, acc) =
  Ret (if p + len <=? limit then Some (p + len, acc + v * 2 ^ shift) else None).
Proof.
  induction n as [|n IH]; intros buf p limit shift acc v tl fuel Hp Hv Hn Hf Hs Hacc Hw Hw0 Hd;
    [lia|].
  destruct fuel as [|fuel]; [lia|]. rewrite loop_S.
  set (rest := loop fuel _). unfold varint_step.
  destruct (Z.leb_spec shift (shift + 7 * (Z.of_nat (S n) - 1))); [|lia].
  cbv zeta. simpl andb.
  destruct (Z.ltb_spec p limit) as [Hpl|Hpl]; cycle 1.
  { destruct (Z.leb_spec (p + Z.of_nat (length (varint (S n) v))) limit) as [Hle|]; [|done].
    exfalso. simpl varint in Hle. destruct (v <? 128); simpl in Hle; lia. }
  assert (0 < 2 ^ shift) as Hsp by (apply Z.pow_pos_nonneg; lia).
  simpl varint in *. destruct (Z.ltb_spec v 128) as [Hlt|Hge]; simpl in Hd.
  - rewrite (aget_lookup _ _ _ Hp (lookup_of_drop _ _ _ _ Hd)). simpl.
    rewrite bool_decide_eq_false_2 by (rewrite land_128_small; lia). simpl.
    change (Z.of_nat 1) with 1. destruct (Z.leb_spec (p + 1) limit); [|lia]. do 3 f_equal.
    rewrite Z.mod_small by (rewrite Z.shiftl_mul_pow2 by lia; nia).
    by rewrite lor_disjoint_add by lia.
  - pose proof (Z.mod_pos_bound v 128 ltac:(lia)) as Hmod.
    pose proof (Z.div_mod v 128 ltac:(lia)) as Hdm.
    rewrite (aget_lookup _ _ _ Hp (lookup_of_drop _ _ _ _ Hd)). simpl.
    rewrite bool_decide_eq_true_2 by (apply land_128_cont; lia). simpl.
    rewrite land_127_cont by lia.
    assert (v mod 128 * 2 ^ shift ≤ v * 2 ^ shift) by nia.
    rewrite Z.mod_small by (rewrite Z.shiftl_mul_pow2 by lia; nia).
    rewrite lor_disjoint_add by lia.
    destruct n as [|n]; [change (128 ^ Z.of_nat 1) with 128 in Hv; lia|].
    subst rest. replace (shift + 7 * (Z.of_nat (S (S n)) - 1))
      with ((shift + 7) + 7 * (Z.of_nat (S n) - 1)) by lia.
    assert (2 ^ (shift + 7) = 128 * 2 ^ shift) as E7
      by (rewrite Z.pow_add_r by lia; change (2 ^ 7) with 128; lia).
    erewrite IH; [|lia| |lia|lia|lia| | |lia|].
    + rewrite E7. replace (p + 1 + Z.of_nat (length (varint (S n) (v / 128))))
        with (p + Z.of_nat (S (length (varint (S n) (v / 128))))) by lia.
      case_match; [|done]. do 3 f_equal. nia.
    + split; [dlia|]. rewrite Nat2Z.inj_succ, Z.pow_succ_r in Hv by lia.
      apply Z.div_lt_upper_bound; lia.
    + rewrite E7. nia.
    + rewrite E7. nia.
    + replace (Z.to_nat (p + 1)) with (Z.to_nat p + 1)%nat by lia.
      by rewrite <-drop_drop, Hd.
Qed.

Lemma varint_fuel n m v :
  0 ≤ v < 128 ^ Z.of_nat n → (1 ≤ n ≤ m)%nat → varint m v = varint n v.
Proof.
  revert m v. induction n as [|n IH]; intros m v Hv Hn; [lia|].
  destruct m as [|m]; [lia|]. simpl. destruct (Z.ltb_spec v 128); [done|].
  destruct n as [|n]; [change (128 ^ Z.of_nat 1) with 128 in Hv; lia|].
  f_equal. apply IH; [|lia]. split; [dlia|].
  rewrite Nat2Z.inj_succ, Z.pow_succ_r in Hv by lia. apply Z.div_lt_upper_bound; lia.
Qed.

Lemma varint_nonempty n v : (1 ≤ n)%nat → ∃ b tl, varint n v = b :: tl.
Proof. destruct n; [lia|]. simpl. case_match; eauto. Qed.

(** The one-byte fast path agrees with the loop. *)
Lemma get_varint32_fast buf p limit b :
  0 ≤ p → buf !! Z.to_nat p = Some b → is_u8 b →
  get_varint32_data_ptr buf p limit = get_varint32_fallback buf p limit.
Proof.
  intros Hp Hb Hu. unfold get_varint32_data_ptr.
  destruct (Z.ltb_spec p limit) as [Hlt|]; [|done].
  rewrite (aget_lookup _ _ _ Hp Hb). simpl.
  destruct (Z.eqb_spec (Z.land b 128) 0) as [E|]; [|done].
  unfold get_varint32_fallback. rewrite loop_S. set (rest := loop 5 _). simpl.
  destruct (Z.ltb_spec p limit); [|lia].
  rewrite (aget_lookup _ _ _ Hp Hb). simpl. rewrite bool_decide_eq_false_2 by lia. simpl.
  rewrite Z.shiftl_0_r, u32_id; [done|]. unfold is_u8, is_u32 in *. lia.
Qed.

Lemma get_varint32_spec buf p limit v tl :
  0 ≤ p → is_u32 v → drop (Z.to_nat p) buf = varint 5 v ++ tl →
  let q := p + Z.of_nat (length (varint 5 v)) in
  get_varint32_data_ptr buf p limit = Ret (if q <=? limit then Some (q, v) else None).
Proof.
  intros Hp Hv Hd q. destruct (varint_nonempty 5 v) as (b & tl' & E); [lia|].
  pose proof (varint_range 5 v (proj1 Hv)) as Hr. rewrite E in Hr.
  assert (buf !! Z.to_nat p = Some b) as Hb
    by (rewrite E in Hd; exact (lookup_of_drop _ _ _ _ Hd)).
  rewrite (get_varint32_fast _ _ _ _ Hp Hb (Forall_inv Hr)).
  unfold get_varint32_fallback, u32. unfold is_u32 in Hv.
  assert (v < 128 ^ Z.of_nat 5) by (change (128 ^ Z.of_nat 5) with (2 ^ 35); lia).
  pose proof (varint_loop_spec 32 5 buf p limit 0 0 v tl 6) as L. simpl Z.mul in L.
  change (0 + 7 * (Z.of_nat 5 - 1)) with 28 in L.
  rewrite L by (done || lia || (change (2 ^ 0) with 1; lia)).
  fold q. case_match; [|done]. do 3 f_equal. change (2 ^ 0) with 1. lia.
Qed.

Lemma get_varint64_spec buf p limit v tl :
  0 ≤ p → is_u64 v → drop (Z.to_nat p) buf = varint 10 v ++ tl →
  let q := p + Z.of_nat (length (varint 10 v)) in
  get_varint64_data_ptr buf p limit = Ret (if q <=? limit then Some (q, v) else None).
Proof.
  intros Hp Hv Hd q. unfold get_varint64_data_ptr, get_varint64_fallback, u64.
  unfold is_u64 in Hv.
  assert (v < 128 ^ Z.of_nat 10) by (change (128 ^ Z.of_nat 10) with (2 ^ 70); lia).
  pose proof (varint_loop_spec 64 10 buf p limit 0 0 v tl 11) as L.
  change (0 + 7 * (Z.of_nat 10 - 1)) with 63 in L.
  rewrite L by (done || lia || (change (2 ^ 0) with 1; lia)).
  fold q. case_match; [|done]. do 3 f_equal. change (2 ^ 0) with 1. lia.
Qed.

Lemma store_varint_ok n buf dst v :
  0 ≤ dst → 0 ≤ v → dst + Z.of_nat (length (varint n v)) ≤ Z.of_nat (length buf) →
  store_varint n buf dst v =
  Ret (splice buf (Z.to_nat dst) (varint n v), dst + Z.of_nat (length (varint n v))).
Proof.
  intros. unfold store_varint. rewrite store_bytes_ok by (done || by apply varint_range). done.
Qed.

(** A byte of any buffer keeps the decoders inside [p, limit). *)
Lemma varint_loop_safe w last K buf p limit :
  0 ≤ w → Forall is_u8 buf → 0 ≤ p → limit ≤ Z.of_nat (length buf) →
  0 ≤ last < 7 * Z.of_nat K →
  returns (loop (S K) (varint_step (λ z, z mod 2 ^ w) last buf limit) (p, 0, 0))
    (λ r, match r with
          | Some (q, v) => p < q ≤ limit ∧ q ≤ p + Z.of_nat K ∧ 0 ≤ v < 2 ^ w
          | None => True
          end).
Proof.
  intros Hw Hu Hp Hl HK.
  eapply (loop_returns
    (λ st, let '(q, shift, acc) := st in
           ∃ k, q = p + k ∧ shift = 7 * k ∧ 0 ≤ k ≤ Z.of_nat K ∧ 0 ≤ acc < 2 ^ w)
    (λ st, let '(q, shift, acc) := st in (K - Z.to_nat (q - p))%nat)).
  - intros [[q shift] acc] (k & -> & -> & Hk & Hacc). unfold varint_step.
    destruct (Z.leb_spec (7 * k) last); simpl; [|done].
    destruct (Z.ltb_spec (p + k) limit); simpl; [|done].
    destruct (lookup_lt_is_Some_2 buf (Z.to_nat (p + k))) as [b Hb]; [lia|].
    rewrite (aget_lookup buf (p + k) b) by (done || lia). simpl.
    assert (∀ x, 0 ≤ Z.lor acc (x mod 2 ^ w) < 2 ^ w) as Hlor.
    { intros x. apply lor_range; [done|done|]. apply Z.mod_pos_bound, Z.pow_pos_nonneg; lia. }
    case_bool_decide; simpl.
    + split; [|lia]. exists (k + 1). repeat split; try lia; apply Hlor.
    + split; [lia|]. split; [lia|apply Hlor].
  - exists 0. pose proof (Z.pow_pos_nonneg 2 w). lia.
  - lia.
Qed.

(** *** Zigzag *)

Lemma shiftr_sign w n : 0 < w → - 2 ^ (w - 1) ≤ n < 2 ^ (w - 1) →
  Z.shiftr n (w - 1) = if n <? 0 then -1 else 0.
Proof.
  intros Hw Hn. rewrite Z.shiftr_div_pow2 by lia.
  assert (0 < 2 ^ (w - 1)) by (apply Z.pow_pos_nonneg; lia).
  destruct (Z.ltb_spec n 0).
  - symmetry. apply (Z.div_unique_pos _ _ _ (n + 2 ^ (w - 1))); lia.
  - apply Z.div_small; lia.
Qed.

Lemma lxor_sign x b : Z.lxor x (if b : bool then -1 else 0) = if b then - x - 1 else x.
Proof.
  destruct b; [|apply Z.lxor_0_r]. rewrite Z.lxor_m1_r. unfold Z.lnot. lia.
Qed.

(** Where the shift is defined, the sign contributes nothing. *)
Lemma zigzag_encode_spec w n : 1 < w → 0 ≤ n → Z.shiftl n 1 < 2 ^ (w - 1) →
  Z.lxor (Z.shiftl n 1) (Z.shiftr n (w - 1)) mod 2 ^ w = zigzag n.
Proof.
  intros Hw Hn Hm. rewrite Z.shiftl_mul_pow2 in * by lia. change (2 ^ 1) with 2 in *.
  assert (2 ^ w = 2 * 2 ^ (w - 1)) as E by (rewrite <-Z.pow_succ_r by lia; f_equal; lia).
  rewrite shiftr_sign, lxor_sign by lia. unfold zigzag. destruct (Z.ltb_spec n 0); [lia|].
  rewrite Z.mod_small by lia. lia.
Qed.

Lemma zigzag_decode_spec w n : 1 < w → - 2 ^ (w - 1) ≤ n < 2 ^ (w - 1) →
  sw w (Z.lxor (Z.shiftr (zigzag n) 1) ((- Z.land (zigzag n) 1) mod 2 ^ w)) = n.
Proof.
  intros Hw Hn.
  assert (2 ^ w = 2 * 2 ^ (w - 1)) as E by (rewrite <-Z.pow_succ_r by lia; f_equal; lia).
  change 1 with (Z.ones 1) at 2. rewrite Z.land_ones, Z.shiftr_div_pow2 by lia.
  change (2 ^ 1) with 2. unfold zigzag. destruct (Z.ltb_spec n 0) as [Hneg|Hpos].
  - replace ((-2 * n - 1) mod 2) with 1 by dlia.
    replace ((-2 * n - 1) / 2) with (- n - 1) by dlia.
    change (- (1)) with (-1). replace (-1 mod 2 ^ w) with (Z.ones w).
    2:{ rewrite Z.ones_equiv. apply (Z.mod_unique_pos _ _ (-1)); lia. }
    assert (Z.lxor (- n - 1) (Z.ones w) = n + 2 ^ w) as ->.
    { pose proof (Z.lnot_eq_pred_opp n). unfold Z.pred in *.
      assert (- n - 1 = Z.lnot n) as -> by lia.
      replace (n + 2 ^ w) with (n mod 2 ^ w)
        by (symmetry; apply (Z.mod_unique_pos _ _ (-1)); lia).
      rewrite <-Z.land_ones by lia. apply Z.bits_inj'. intros i Hi.
      rewrite Z.lxor_spec, Z.lnot_spec, Z.land_spec by lia.
      destruct (decide (i < w)).
      - rewrite Z.ones_spec_low by lia. by destruct (Z.testbit n i).
      - rewrite Z.ones_spec_high by lia. rewrite andb_false_r, xorb_false_r.
        rewrite <-Z.lnot_spec by lia. apply (testbit_small _ w); [|lia].
        unfold Z.lnot, Z.pred. lia. }
    unfold sw. replace ((n + 2 ^ w) mod 2 ^ w) with (n + 2 ^ w).
    2:{ symmetry. apply Z.mod_small. lia. }
    destruct (Z.ltb_spec (n + 2 ^ w) (2 ^ (w - 1))); lia.
  - replace ((2 * n) mod 2) with 0 by dlia. replace (2 * n / 2) with n by dlia.
    change (- 0) with 0. rewrite Z.mod_0_l, Z.lxor_0_r by lia. apply sw_id; lia.
Qed.

(** *** Fixed-width codes *)
Lemma le_value_lt l : Forall is_u8 l → 0 ≤ le_value l < 256 ^ Z.of_nat (length l).
Proof.
  induction 1 as [|b l Hb Hl IH]; simpl; [lia|].
  rewrite Nat2Z.inj_succ, Z.pow_succ_r by lia. unfold is_u8 in Hb. lia.
Qed.

Lemma object_value_bytes host_le n v :
  0 ≤ v < 256 ^ Z.of_nat n → object_value host_le (object_bytes host_le n v) = v.
Proof.
  intros Hv. unfold object_value, object_bytes.
  destruct host_le; rewrite ?rev_involutive; by apply le_value_bytes.
Qed.

Lemma shiftr_bytes v k j : j = 8 + k → 0 ≤ k → Z.shiftr v j = Z.shiftr v k / 256.
Proof.
  intros -> Hk. rewrite !Z.shiftr_div_pow2 by lia.
  rewrite Z.pow_add_r, Z.mul_comm, Z.div_div by lia. done.
Qed.

(** The explicit stores of the big-endian branch are the little-endian bytes. *)
Lemma encode32_bytes buf at_ v host_le :
  encode_little_endian32 host_le 0 buf at_ v = store_bytes buf at_ (le_bytes 4 v).
Proof.
  unfold encode_little_endian32. simpl. rewrite !land_ff.
  rewrite (shiftr_bytes v 16 24), (shiftr_bytes v 8 16), (shiftr_bytes v 0 8), Z.shiftr_0_r by lia.
  replace (at_ + 1 + 1) with (at_ + 2) by lia. replace (at_ + 2 + 1) with (at_ + 3) by lia.
  do 3 (destruct (aset _ _ _); [simpl|done|done]). by destruct (aset _ _ _).
Qed.

Lemma encode64_bytes buf at_ v host_le :
  encode_little_endian64 host_le 0 buf at_ v = store_bytes buf at_ (le_bytes 8 v).
Proof.
  unfold encode_little_endian64. simpl. rewrite !land_ff.
  rewrite (shiftr_bytes v 48 56), (shiftr_bytes v 40 48), (shiftr_bytes v 32 40), (shiftr_bytes v 24 32),
    (shiftr_bytes v 16 24), (shiftr_bytes v 8 16), (shiftr_bytes v 0 8), Z.shiftr_0_r by lia.
  replace (at_ + 1 + 1) with (at_ + 2) by lia. replace (at_ + 2 + 1) with (at_ + 3) by lia.
  replace (at_ + 3 + 1) with (at_ + 4) by lia. replace (at_ + 4 + 1) with (at_ + 5) by lia.
  replace (at_ + 5 + 1) with (at_ + 6) by lia. replace (at_ + 6 + 1) with (at_ + 7) by lia.
  do 7 (destruct (aset _ _ _); [simpl|done|done]). by destruct (aset _ _ _).
Qed.

Lemma lor_bytes4 b0 b1 b2 b3 :
  is_u8 b0 → is_u8 b1 → is_u8 b2 → is_u8 b3 →
  Z.lor (Z.lor (Z.lor b0 (u32 (Z.shiftl b1 8))) (u32 (Z.shiftl b2 16))) (u32 (Z.shiftl b3 24)) =
  le_value [b0; b1; b2; b3].
Proof.
  unfold is_u8. intros. unfold u32.
  rewrite !Z.mod_small by (rewrite Z.shiftl_mul_pow2 by lia; lia).
  rewrite (lor_disjoint_add b0 b1 8) by lia.
  rewrite (lor_disjoint_add _ b2 16) by lia.
  rewrite (lor_disjoint_add _ b3 24) by lia. simpl le_value. lia.
Qed.

Lemma load4 buf p l tl :
  0 ≤ p → length l = 4%nat → drop (Z.to_nat p) buf = l ++ tl → Forall is_u8 l →
  decode_little_endian32 true 0 buf p = Ret (le_value l).
Proof.
  intros Hp Hlen Hd Hu. pose proof (load_bytes_ok buf p l tl Hp Hd) as HL. rewrite Hlen in HL.
  destruct l as [|b0 [|b1 [|b2 [|b3 [|]]]]]; try discriminate. decompose_Forall.
  unfold decode_little_endian32. simpl. simpl in HL.
  replace (p + 1 + 1) with (p + 2) in HL by lia. replace (p + 2 + 1) with (p + 3) in HL by lia.
  destruct (aget buf p); simpl in *; [|discriminate HL..].
  destruct (aget buf (p + 1)); simpl in *; [|discriminate HL..].
  destruct (aget buf (p + 2)); simpl in *; [|discriminate HL..].
  destruct (aget buf (p + 3)); simpl in *; [|discriminate HL..].
  injection HL as -> -> -> ->. f_equal. by apply lor_bytes4.
Qed.

Lemma decode32_flag host_le host_le' buf p :
  decode_little_endian32 host_le 0 buf p = decode_little_endian32 host_le' 0 buf p.
Proof. done. Qed.

Lemma le_value_split l1 l2 :
  le_value (l1 ++ l2) = le_value l1 + 256 ^ Z.of_nat (length l1) * le_value l2.
Proof.
  induction l1 as [|b l IH]; simpl; [lia|].
  rewrite IH, Nat2Z.inj_succ, Z.pow_succ_r by lia. lia.
Qed.

Lemma load8 buf p l tl host_le :
  0 ≤ p → length l = 8%nat → drop (Z.to_nat p) buf = l ++ tl → Forall is_u8 l →
  decode_little_endian64 host_le 0 buf p = Ret (le_value l).
Proof.
  intros Hp Hlen Hd Hu. rewrite <-(take_drop 4 l) in Hd, Hu |- *.
  assert (length (take 4 l) = 4%nat) as L1 by (rewrite length_take; lia).
  assert (length (drop 4 l) = 4%nat) as L2 by (rewrite length_drop; lia).
  revert L1 L2 Hd Hu. generalize (take 4 l) as lo, (drop 4 l) as hi. clear Hlen l.
  intros lo hi L1 L2 Hd Hu. rewrite <-app_assoc in Hd. apply Forall_app in Hu as [U1 U2].
  unfold decode_little_endian64. simpl bool_decide. cbn [bool_decide].
  rewrite !(decode32_flag host_le true).
  rewrite (load4 buf p lo (hi ++ tl)) by done. simpl.
  rewrite (load4 buf (p + 4) hi tl); [simpl|lia|done| |done].
  2:{ replace (Z.to_nat (p + 4)) with (Z.to_nat p + 4)%nat by lia.
      rewrite <-drop_drop, Hd. by apply drop_app_length'. }
  pose proof (le_value_lt lo U1) as B1. pose proof (le_value_lt hi U2) as B2.
  rewrite L1 in B1. rewrite L2 in B2. change (256 ^ Z.of_nat 4) with (2 ^ 32) in *.
  f_equal. unfold u64. rewrite Z.mod_small by (rewrite Z.shiftl_mul_pow2 by lia; lia).
  rewrite Z.lor_comm, lor_disjoint_add, le_value_split, L1 by lia.
  change (256 ^ Z.of_nat 4) with (2 ^ 32). lia.
Qed.

Lemma is_little_endian_eq host_le :
  is_little_endian host_le = Ret (if host_le then 1 else 0).
Proof. by destruct host_le. Qed.

Lemma encode32_eq host_le buf at_ v :
  encode_little_endian32 host_le (if host_le then 1 else 0) buf at_ v =
  store_bytes buf at_ (le_bytes 4 v).
Proof. destruct host_le; [done|apply encode32_bytes]. Qed.

Lemma encode64_eq host_le buf at_ v :
  encode_little_endian64 host_le (if host_le then 1 else 0) buf at_ v =
  store_bytes buf at_ (le_bytes 8 v).
Proof. destruct host_le; [done|apply encode64_bytes]. Qed.

Lemma decode32_eq host_le buf p v tl :
  0 ≤ p → is_u32 v → drop (Z.to_nat p) buf = le_bytes 4 v ++ tl →
  decode_little_endian32 host_le (if host_le then 1 else 0) buf p = Ret v.
Proof.
  intros Hp Hv Hd.
  assert (le_value (le_bytes 4 v) = v) as E by (apply le_value_bytes; exact Hv).
  destruct host_le.
  - unfold decode_little_endian32. simpl bool_decide. cbn [bool_decide].
    change 4%nat with (length (le_bytes 4 v)) at 1. rewrite (load_bytes_ok _ _ _ tl) by done.
    change (Ret (le_value (le_bytes 4 v)) = Ret v). by rewrite E.
  - rewrite (decode32_flag false true), (load4 _ _ (le_bytes 4 v) tl);
      [by rewrite E|done|done|done|apply le_bytes_range].
Qed.

Lemma decode64_eq host_le buf p v tl :
  0 ≤ p → is_u64 v → drop (Z.to_nat p) buf = le_bytes 8 v ++ tl →
  decode_little_endian64 host_le (if host_le then 1 else 0) buf p = Ret v.
Proof.
  intros Hp Hv Hd.
  assert (le_value (le_bytes 8 v) = v) as E by (apply le_value_bytes; exact Hv).
  destruct host_le.
  - unfold decode_little_endian64. simpl bool_decide. cbn [bool_decide].
    change 8%nat with (length (le_bytes 8 v)) at 1. rewrite (load_bytes_ok _ _ _ tl) by done.
    change (Ret (le_value (le_bytes 8 v)) = Ret v). by rewrite E.
  - rewrite (load8 _ _ (le_bytes 8 v) tl); [by rewrite E|done|done|done|apply le_bytes_range].
Qed.

(** ** Properties *)

(** [encode_varint32] writes exactly [encode_varint_length v] bytes (at most
    five) and nothing else of the buffer changes; [get_varint32_data_ptr] run
    on the result with any limit returns [v] and the end of the code when the
    whole code lies below the limit, and NULL when the limit cuts it. *)
Lemma varint32_roundtrip buf dst v :
  is_u32 v → 0 ≤ dst → dst + 5 ≤ Z.of_nat (length buf) →
  ∃ buf' q,
    encode_varint32 buf dst v = Ret (buf', q) ∧
    encode_varint_length v = Ret (q - dst) ∧
    dst < q ≤ dst + 5 ∧ length buf' = length buf ∧
    (∀ i, i < dst ∨ q ≤ i → buf' !! Z.to_nat i = buf !! Z.to_nat i ∨ i < 0) ∧
    ∀ limit, get_varint32_data_ptr buf' dst limit = Ret (if q <=? limit then Some (q, v) else None).
Proof.
  intros Hv Hd Hb. rewrite encode_varint32_store by done.
  pose proof (length_varint_le 5 v) as Hle. destruct (varint_nonempty 5 v) as (b & tl & E); [lia|].
  assert (1 ≤ length (varint 5 v))%nat as Hne by (rewrite E; simpl; lia).
  unfold is_u32 in Hv. rewrite store_varint_ok by lia.
  exists (splice buf (Z.to_nat dst) (varint 5 v)), (dst + Z.of_nat (length (varint 5 v))).
  split_and!; [done| |lia|lia|apply length_splice; lia| |].
  - rewrite encode_varint_length_eq by (unfold is_u64; lia).
    rewrite (varint_fuel 5 10); [f_equal; lia|change (128 ^ Z.of_nat 5) with (2 ^ 35); lia|lia].
  - intros i Hi. destruct (decide (i < 0)); [by right|left].
    unfold splice. destruct Hi.
    + rewrite lookup_app_l by (rewrite length_take; lia). apply lookup_take_lt. lia.
    + rewrite !lookup_app_r by (rewrite ?length_take; lia).
      rewrite lookup_drop, length_take. f_equal. lia.
  - intros limit. eapply get_varint32_spec; [done|exact Hv|]. apply drop_splice. lia.
Qed.

(** The same for the 64-bit varints, whose codes have at most ten bytes. *)
Lemma varint64_roundtrip buf dst v :
  is_u64 v → 0 ≤ dst → dst + 10 ≤ Z.of_nat (length buf) →
  ∃ buf' q,
    encode_varint64 buf dst v = Ret (buf', q) ∧
    encode_varint_length v = Ret (q - dst) ∧
    dst < q ≤ dst + 10 ∧ length buf' = length buf ∧
    ∀ limit, get_varint64_data_ptr buf' dst limit = Ret (if q <=? limit then Some (q, v) else None).
Proof.
  intros Hv Hd Hb. rewrite encode_varint64_store, encode_varint_length_eq by done.
  pose proof (length_varint_le 10 v) as Hle. destruct (varint_nonempty 10 v) as (b & tl & E); [lia|].
  assert (1 ≤ length (varint 10 v))%nat as Hne by (rewrite E; simpl; lia).
  unfold is_u64 in Hv. rewrite store_varint_ok by lia.
  exists (splice buf (Z.to_nat dst) (varint 10 v)), (dst + Z.of_nat (length (varint 10 v))).
  split_and!; [done|f_equal; lia|lia|lia|apply length_splice; lia|].
  intros limit. eapply get_varint64_spec; [done|exact Hv|]. apply drop_splice. lia.
Qed.

(** C23 [encode_varint32] and [encode_varint64] write exactly
    [encode_varint_length v] bytes (at most five, at most ten), the 32-bit one
    nothing else of the buffer; [get_varint32_data_ptr] and
    [get_varint64_data_ptr] run on the result with any limit return [v] and the
    end of the code when the whole code lies below the limit, and NULL when the
    limit cuts it. *)
Theorem varint_roundtrip buf dst v :
  0 ≤ dst →
  (is_u32 v → dst + 5 ≤ Z.of_nat (length buf) →
   ∃ buf' q,
     encode_varint32 buf dst v = Ret (buf', q) ∧
     encode_varint_length v = Ret (q - dst) ∧
     dst < q ≤ dst + 5 ∧ length buf' = length buf ∧
     (∀ i, i < dst ∨ q ≤ i → buf' !! Z.to_nat i = buf !! Z.to_nat i ∨ i < 0) ∧
     ∀ limit, get_varint32_data_ptr buf' dst limit = Ret (if q <=? limit then Some (q, v) else None)) ∧
  (is_u64 v → dst + 10 ≤ Z.of_nat (length buf) →
   ∃ buf' q,
     encode_varint64 buf dst v = Ret (buf', q) ∧
     encode_varint_length v = Ret (q - dst) ∧
     dst < q ≤ dst + 10 ∧ length buf' = length buf ∧
     ∀ limit, get_varint64_data_ptr buf' dst limit = Ret (if q <=? limit then Some (q, v) else None)).
Proof. split; intros; [by apply varint32_roundtrip|by apply varint64_roundtrip]. Qed.

Lemma varint_roundtrip_witness :
  (∃ buf' q, encode_varint32 (replicate 12 7) 2 300 = Ret (buf', q) ∧
    encode_varint_length 300 = Ret (q - 2) ∧
    2 < q ≤ 2 + 5 ∧ length buf' = length (replicate 12 7) ∧
    (∀ i, i < 2 ∨ q ≤ i → buf' !! Z.to_nat i = replicate 12 7 !! Z.to_nat i ∨ i < 0) ∧
    ∀ limit, get_varint32_data_ptr buf' 2 limit = Ret (if q <=? limit then Some (q, 300) else None)) ∧
  ∃ buf' q, encode_varint64 (replicate 12 7) 2 (2 ^ 64 - 1) = Ret (buf', q) ∧
    encode_varint_length (2 ^ 64 - 1) = Ret (q - 2) ∧
    2 < q ≤ 2 + 10 ∧ length buf' = length (replicate 12 7) ∧
    ∀ limit, get_varint64_data_ptr buf' 2 limit =
             Ret (if q <=? limit then Some (q, 2 ^ 64 - 1) else None).
Proof.
  split.
  - refine (proj1 (varint_roundtrip (replicate 12 7) 2 300 _) _ _); [lia|unfold is_u32; lia|simpl; lia].
  - refine (proj2 (varint_roundtrip (replicate 12 7) 2 (2 ^ 64 - 1) _) _ _); [lia|unfold is_u64; lia|simpl; lia].
Defined.

(** On an arbitrary byte buffer, malformed input included, both decoders
    terminate and read no byte outside [p, limit); a success advances the
    pointer by at most five (ten) bytes, stays within the limit and yields a
    value of the declared width. *)
Lemma varint_decode_safe buf p limit :
  Forall is_u8 buf → 0 ≤ p → limit ≤ Z.of_nat (length buf) →
  returns (get_varint32_data_ptr buf p limit)
    (λ r, match r with Some (q, v) => p < q ≤ limit ∧ q ≤ p + 5 ∧ is_u32 v | None => True end) ∧
  returns (get_varint64_data_ptr buf p limit)
    (λ r, match r with Some (q, v) => p < q ≤ limit ∧ q ≤ p + 10 ∧ is_u64 v | None => True end).
Proof.
  intros Hu Hp Hl. split.
  - destruct (decide (p < limit)) as [Hlt|].
    + destruct (lookup_lt_is_Some_2 buf (Z.to_nat p)) as [b Hb]; [lia|].
      rewrite (get_varint32_fast _ _ _ b) by (done || by eapply Forall_lookup_1).
      by apply (varint_loop_safe 32 28 5).
    + unfold get_varint32_data_ptr. destruct (Z.ltb_spec p limit); [lia|].
      by apply (varint_loop_safe 32 28 5).
  - by apply (varint_loop_safe 64 63 10).
Qed.

Lemma varint_decode_safe_witness :
  returns (get_varint32_data_ptr [255; 255; 255; 255; 255; 255] 0 6)
    (λ r, match r with Some (q, v) => 0 < q ≤ 6 ∧ q ≤ 0 + 5 ∧ is_u32 v | None => True end) ∧
  returns (get_varint64_data_ptr [255; 255; 255; 255; 255; 255] 0 6)
    (λ r, match r with Some (q, v) => 0 < q ≤ 6 ∧ q ≤ 0 + 10 ∧ is_u64 v | None => True end).
Proof.
  apply (varint_decode_safe [255; 255; 255; 255; 255; 255] 0 6); [|lia|simpl; lia].
  repeat constructor; unfold is_u8; lia.
Defined.

(** Once [is_little_endian] has run, on a machine of either byte order the
    fixed-width encoders write the little-endian bytes of the value and the
    decoders read it back. *)
Lemma little_endian_roundtrip host_le buf at_ v w :
  0 ≤ at_ → at_ + 12 ≤ Z.of_nat (length buf) → is_u32 v → is_u64 w →
  returns (is_little_endian host_le) (λ flag,
    returns (encode_little_endian32 host_le flag buf at_ v) (λ buf',
      buf' = splice buf (Z.to_nat at_) (le_bytes 4 v) ∧
      returns (encode_little_endian64 host_le flag buf' (at_ + 4) w) (λ buf'',
        buf'' = splice buf' (Z.to_nat (at_ + 4)) (le_bytes 8 w) ∧
        decode_little_endian32 host_le flag buf' at_ = Ret v ∧
        decode_little_endian64 host_le flag buf'' (at_ + 4) = Ret w))).
Proof.
  intros Hat Hlen Hv Hw. rewrite is_little_endian_eq. cbn [returns].
  rewrite encode32_eq, store_bytes_ok by (done || apply le_bytes_range || (rewrite length_le_bytes; lia)).
  cbn [returns]. split; [done|].
  assert (length (splice buf (Z.to_nat at_) (le_bytes 4 v)) = length buf) as L
    by (apply length_splice; rewrite length_le_bytes; lia).
  rewrite encode64_eq, store_bytes_ok
    by (lia || apply le_bytes_range || (rewrite length_le_bytes, L; lia)).
  cbn [returns]. split; [done|]. split.
  - eapply decode32_eq; [done|done|]. apply drop_splice. rewrite length_le_bytes. lia.
  - eapply decode64_eq; [lia|done|]. apply drop_splice. rewrite L, length_le_bytes. lia.
Qed.

Lemma little_endian_roundtrip_witness :
  returns (is_little_endian false) (λ flag,
    returns (encode_little_endian32 false flag (replicate 12 0) 0 0x01020304) (λ buf',
      buf' = splice (replicate 12 0) (Z.to_nat 0) (le_bytes 4 0x01020304) ∧
      returns (encode_little_endian64 false flag buf' (0 + 4) 5) (λ buf'',
        buf'' = splice buf' (Z.to_nat (0 + 4)) (le_bytes 8 5) ∧
        decode_little_endian32 false flag buf' 0 = Ret 0x01020304 ∧
        decode_little_endian64 false flag buf'' (0 + 4) = Ret 5))).
Proof.
  apply (little_endian_roundtrip false (replicate 12 0) 0 0x01020304 5);
    [lia|simpl; lia|unfold is_u32; lia|unfold is_u64; lia].
Defined.

(** The zigzag encoders send [n] to [2n] for the integers from 0 to below the
    quarter of the range, and are undefined at every other integer, the negative
    ones they are for among them; the decoders invert the zigzag map on the whole
    range. *)
Lemma zigzag_correct n :
  (is_s32 n → zigzag_encode32 n = (if decide (0 ≤ n < 2 ^ 30) then Ret (zigzag n) else Stuck) ∧ zigzag_decode32 (zigzag n) = n) ∧
  (is_s64 n → zigzag_encode64 n = (if decide (0 ≤ n < 2 ^ 62) then Ret (zigzag n) else Stuck) ∧ zigzag_decode64 (zigzag n) = n).
Proof.
  assert (Z.shiftl n 1 = 2 * n) as E by (rewrite Z.shiftl_mul_pow2; lia). split; intros Hn.
  - split; [|apply (zigzag_decode_spec 32 n); [lia|exact Hn]]. unfold zigzag_encode32, shl_s32, in_s32.
    case_decide as Hd; [|destruct (Z.leb_spec 0 n); [by rewrite bool_decide_eq_false_2 by lia|done]].
    rewrite (proj2 (Z.leb_le 0 n)), bool_decide_eq_true_2 by lia. cbn [mbind outcome_bind]. f_equal.
    apply (zigzag_encode_spec 32 n); lia.
  - split; [|apply (zigzag_decode_spec 64 n); [lia|exact Hn]]. unfold zigzag_encode64, shl_s64, in_s64.
    case_decide as Hd; [|destruct (Z.leb_spec 0 n); [by rewrite bool_decide_eq_false_2 by lia|done]].
    rewrite (proj2 (Z.leb_le 0 n)), bool_decide_eq_true_2 by lia. cbn [mbind outcome_bind]. f_equal.
    apply (zigzag_encode_spec 64 n); lia.
Qed.

Lemma zigzag_correct_witness :
  zigzag_encode32 3 = Ret 6 ∧ zigzag_encode32 (-3) = Stuck ∧ zigzag_decode32 (zigzag (-3)) = -3.
Proof.
  split; [reflexivity|]. destruct (zigzag_correct (-3)) as [H32 _].
  destruct H32 as [He Hd]; [unfold is_s32; lia|]. split; [exact He|exact Hd].
Defined.
