(* ===== verification/Bitmap.v ===== *)
(** * Bitmaps: [mycache/src/struct/bitmap.h]

    A bitmap is an array of 64-bit words ([ulong_t], [BITS_PER_LONG = 64]).
    The abstract view is the function [bit]; every operation is described by
    the bits it changes. *)

From S2P Require Import Prelude.

Definition BITS_PER_LONG : Z := 64.
Definition POWER_PER_LONG : Z := 6.

(** [DIV_ROUND_UP], on [size_t]. *)
Definition DIV_ROUND_UP (n d : Z) : Z := u64 (u64 (n + d) - 1) / d.
Definition BITS_TO_LONGS (nr : Z) : Z := DIV_ROUND_UP nr BITS_PER_LONG.

Definition BITMAP_LAST_WORD_MASK (nbits : Z) : Z :=
  if bool_decide (nbits mod BITS_PER_LONG ≠ 0)
  then u64 (u64 (Z.shiftl 1 (nbits mod BITS_PER_LONG)) - 1) else u64 (Z.lnot 0).

(** [_bm_getmask]: the word index and the mask of a position; the [int]
    position is converted to [size_t] by the modulo. *)
Definition bm_getmask (pos : Z) : Z * Z :=
  (Z.shiftr pos POWER_PER_LONG, u64 (Z.shiftl 1 (u64 pos mod BITS_PER_LONG))).

Definition bm_setbit (bm : list Z) (pos : Z) : outcome (list Z) :=
  let '(pos, bmask) := bm_getmask pos in
  let! w := aget bm pos in
  aset bm pos (Z.lor w bmask).

Definition bm_setbit_region (bm : list Z) (pos region : Z) : outcome (list Z) :=
  for_range 0 region (λ i bm, bm_setbit bm (pos + i)) bm.

Definition bm_clrbit (bm : list Z) (pos : Z) : outcome (list Z) :=
  let '(pos, bmask) := bm_getmask pos in
  let! w := aget bm pos in
  aset bm pos (Z.land w (u64 (Z.lnot bmask))).

Definition bm_clrbit_region (bm : list Z) (pos region : Z) : outcome (list Z) :=
  for_range 0 region (λ i bm, bm_clrbit bm (pos + i)) bm.

Definition bm_isset (bm : list Z) (pos : Z) : outcome Z :=
  let '(pos, bmask) := bm_getmask pos in
  let! w := aget bm pos in
  Ret (if bool_decide (Z.land w bmask ≠ 0) then 1 else 0).

Definition bm_isset_region (bm : list Z) (pos region : Z) : outcome Z :=
  loop (S (Z.to_nat region)) (λ i,
    if i <? region then
      let! b := bm_isset bm (pos + i) in
      if bool_decide (b ≠ 0) then Ret (inr 1) else Ret (inl (i + 1))
    else Ret (inr 0)) 0.

(** [memset] of [len] bytes (a multiple of 8) with words equal to [w]. *)
Definition memset_words (bm : list Z) (len w : Z) : outcome (list Z) :=
  for_range 0 (u64 len / 8) (λ i bm, aset bm i w) bm.

(** [const_p]: whether the compiler sees [nbits] as a constant
    ([__builtin_constant_p]). *)
Definition small_const_nbits (const_p : bool) (nbits : Z) : bool :=
  const_p && (nbits <=? BITS_PER_LONG).

Definition bm_zero (const_p : bool) (dst : list Z) (nbits : Z) : outcome (list Z) :=
  if small_const_nbits const_p nbits then aset dst 0 0
  else
    let len := s32 (u64 (BITS_TO_LONGS nbits * 8)) in
    memset_words dst len 0.

Definition bm_fill (const_p : bool) (dst : list Z) (nbits : Z) : outcome (list Z) :=
  let nlongs := BITS_TO_LONGS nbits in
  let! dst :=
    (if small_const_nbits const_p nbits then Ret dst
     else
       let len := s32 (u64 (u64 (nlongs - 1) * 8)) in
       memset_words dst len (2 ^ 64 - 1)) in
  aset dst (u64 (nlongs - 1)) (BITMAP_LAST_WORD_MASK nbits).

(** ** The abstract view *)
Definition bit (bm : list Z) (i : Z) : bool :=
  Z.testbit (bm !!! Z.to_nat (i / 64)) (i mod 64).

(** The bits of [bm] are those of [f] on the words present. *)
Definition has_bits (bm : list Z) (f : Z → bool) : Prop :=
  ∀ i, 0 ≤ i < 64 * Z.of_nat (length bm) → bit bm i = f i.

Definition wf_bitmap (bm : list Z) : Prop := Forall is_u64 bm.

(** ** Lemmas *)
Lemma getmask_eq pos :
  0 ≤ pos < 2 ^ 31 → bm_getmask pos = (pos / 64, 2 ^ (pos mod 64)).
Proof.
  intros Hp. unfold bm_getmask, POWER_PER_LONG, BITS_PER_LONG.
  rewrite Z.shiftr_div_pow2 by lia. change (2 ^ 6) with 64.
  rewrite (u64_id pos) by (unfold is_u64; lia).
  pose proof (Z.mod_pos_bound pos 64 ltac:(lia)).
  rewrite Z.shiftl_1_l, u64_id; [done|]. unfold is_u64.
  split; [lia|]. apply Z.pow_lt_mono_r; lia.
Qed.

Lemma word_index pos (bm : list Z) :
  0 ≤ pos < 64 * Z.of_nat (length bm) → 0 ≤ pos / 64 < Z.of_nat (length bm).
Proof. intros. dlia. Qed.

Lemma wf_lookup bm (k : nat) : wf_bitmap bm → is_u64 (bm !!! k).
Proof.
  intros Hwf. destruct (decide (k < length bm)%nat) as [Hk|].
  - eapply (Forall_lookup_1 is_u64 bm k); [done|]. by apply list_lookup_lookup_total_lt.
  - rewrite list_lookup_total_alt, lookup_ge_None_2 by lia. simpl. unfold is_u64, inhabitant. simpl. lia.
Qed.

(** The bits after an assignment to one word. *)
Lemma bit_insert bm k w i :
  (k < length bm)%nat → 0 ≤ i →
  bit (<[k:=w]> bm) i = if bool_decide (Z.to_nat (i / 64) = k) then Z.testbit w (i mod 64) else bit bm i.
Proof.
  intros Hk Hi. unfold bit. case_bool_decide as E.
  - rewrite E. by rewrite list_lookup_total_insert_eq.
  - by rewrite list_lookup_total_insert_ne.
Qed.

Lemma same_bit i pos :
  0 ≤ i → 0 ≤ pos → Z.to_nat (i / 64) = Z.to_nat (pos / 64) → i mod 64 = pos mod 64 → i = pos.
Proof.
  intros. rewrite (Z.div_mod i 64), (Z.div_mod pos 64) by lia.
  assert (i / 64 = pos / 64); [|congruence].
  apply Z2Nat.inj; [apply Z.div_pos; lia..|done].
Qed.

Lemma bm_setbit_spec bm pos :
  wf_bitmap bm → 0 ≤ pos < 64 * Z.of_nat (length bm) → pos < 2 ^ 31 →
  returns (bm_setbit bm pos) (λ bm',
    wf_bitmap bm' ∧ length bm' = length bm ∧
    ∀ i, 0 ≤ i → bit bm' i = bool_decide (i = pos) || bit bm i).
Proof.
  intros Hwf Hp H31. unfold bm_setbit. rewrite getmask_eq by lia.
  pose proof (word_index pos bm Hp) as Hk. pose proof (Z.mod_pos_bound pos 64 ltac:(lia)).
  rewrite aget_total by done. simpl. rewrite aset_ok by done. simpl.
  split_and!.
  - apply Forall_insert; [done|]. apply lor_range; [lia|by apply wf_lookup|].
    split; [lia|]. apply Z.pow_lt_mono_r; lia.
  - apply length_insert.
  - intros i Hi. rewrite bit_insert by lia. case_bool_decide as E.
    + rewrite Z.lor_spec, Z.pow2_bits_eqb by lia. unfold bit. rewrite E.
      rewrite orb_comm. f_equal. destruct (Z.eqb_spec (pos mod 64) (i mod 64)).
      * rewrite bool_decide_eq_true_2; [done|]. apply same_bit; [done|lia|done|congruence].
      * rewrite bool_decide_eq_false_2; [done|congruence].
    + rewrite bool_decide_eq_false_2 by congruence. done.
Qed.

Lemma bm_clrbit_spec bm pos :
  wf_bitmap bm → 0 ≤ pos < 64 * Z.of_nat (length bm) → pos < 2 ^ 31 →
  returns (bm_clrbit bm pos) (λ bm',
    wf_bitmap bm' ∧ length bm' = length bm ∧
    ∀ i, 0 ≤ i → bit bm' i = negb (bool_decide (i = pos)) && bit bm i).
Proof.
  intros Hwf Hp H31. unfold bm_clrbit. rewrite getmask_eq by lia.
  pose proof (word_index pos bm Hp) as Hk. pose proof (Z.mod_pos_bound pos 64 ltac:(lia)).
  rewrite aget_total by done. simpl. rewrite aset_ok by done. simpl.
  pose proof (wf_lookup bm (Z.to_nat (pos / 64)) Hwf) as Hw.
  split_and!.
  - apply Forall_insert; [done|]. unfold is_u64 in *. rewrite Z.land_comm. unfold u64.
    rewrite <-Z.land_ones, <-Z.land_assoc, (Z.land_comm (Z.ones 64)), Z.land_assoc, Z.land_ones by lia.
    apply Z.mod_pos_bound. lia.
  - apply length_insert.
  - intros i Hi. pose proof (Z.mod_pos_bound i 64 ltac:(lia)).
    rewrite bit_insert by lia. case_bool_decide as E.
    + unfold u64. rewrite Z.land_spec, Z.mod_pow2_bits_low, Z.lnot_spec, Z.pow2_bits_eqb by lia.
      unfold bit. rewrite E, andb_comm. f_equal. f_equal.
      destruct (Z.eqb_spec (pos mod 64) (i mod 64)).
      * rewrite bool_decide_eq_true_2; [done|]. apply same_bit; [done|lia|done|congruence].
      * rewrite bool_decide_eq_false_2; [done|congruence].
    + rewrite bool_decide_eq_false_2 by congruence. done.
Qed.

Lemma bm_isset_spec bm pos :
  wf_bitmap bm → 0 ≤ pos < 64 * Z.of_nat (length bm) → pos < 2 ^ 31 →
  bm_isset bm pos = Ret (if bit bm pos then 1 else 0).
Proof.
  intros Hwf Hp H31. unfold bm_isset. rewrite getmask_eq by lia.
  pose proof (word_index pos bm Hp) as Hk. pose proof (Z.mod_pos_bound pos 64 ltac:(lia)).
  rewrite aget_total by done. simpl. f_equal. unfold bit.
  set (w := bm !!! _). destruct (Z.testbit w (pos mod 64)) eqn:T; case_bool_decide as E; [done| | |done].
  - exfalso. assert (Z.testbit (Z.land w (2 ^ (pos mod 64))) (pos mod 64) = true) as T'
      by (by rewrite Z.land_spec, T, Z.pow2_bits_true by lia).
    by rewrite E, Z.bits_0 in T'.
  - exfalso. apply E. apply Z.bits_inj'. intros i Hi.
    rewrite Z.land_spec, Z.bits_0, Z.pow2_bits_eqb by lia.
    destruct (Z.eqb_spec (pos mod 64) i) as [<-|]; [by rewrite T|apply andb_false_r].
Qed.

(** The region of a request lies inside the bitmap. *)
Definition in_bitmap (bm : list Z) (pos region : Z) : Prop :=
  0 ≤ pos ∧ 0 ≤ region ∧ pos + region ≤ 64 * Z.of_nat (length bm) ∧ pos + region < 2 ^ 31.

Definition in_region (pos region i : Z) : bool := (pos <=? i) && (i <? pos + region).

Section region.
Context (bm : list Z) (pos region : Z).
Hypothesis (Hwf : wf_bitmap bm) (Hin : in_bitmap bm pos region).

Lemma setbit_region_spec :
  returns (bm_setbit_region bm pos region) (λ bm',
    wf_bitmap bm' ∧ length bm' = length bm ∧
    ∀ i, 0 ≤ i → bit bm' i = in_region pos region i || bit bm i).
Proof.
  unfold bm_setbit_region, in_bitmap, in_region in *.
  eapply (for_range_returns (λ k bm', wf_bitmap bm' ∧ length bm' = length bm ∧
    ∀ i, 0 ≤ i → bit bm' i = ((pos <=? i) && (i <? pos + k)) || bit bm i)); [lia| |].
  - split_and!; [done..|]. intros i Hi.
    destruct (Z.leb_spec pos i), (Z.ltb_spec i (pos + 0)); simpl; done || lia.
  - intros k bm' Hk (Hwf' & Hlen & Hbit).
    eapply returns_mono; [apply bm_setbit_spec; [done|rewrite Hlen; lia|lia]|].
    intros bm'' (Hwf'' & Hlen' & Hbit'). split_and!; [done|congruence|].
    intros i Hi. rewrite Hbit', Hbit by done.
    destruct (Z.leb_spec pos i), (Z.ltb_spec i (pos + k)), (Z.ltb_spec i (pos + (k + 1)));
      case_bool_decide; simpl; done || lia.
Qed.

Lemma clrbit_region_spec :
  returns (bm_clrbit_region bm pos region) (λ bm',
    wf_bitmap bm' ∧ length bm' = length bm ∧
    ∀ i, 0 ≤ i → bit bm' i = negb (in_region pos region i) && bit bm i).
Proof.
  unfold bm_clrbit_region, in_bitmap, in_region in *.
  eapply (for_range_returns (λ k bm', wf_bitmap bm' ∧ length bm' = length bm ∧
    ∀ i, 0 ≤ i → bit bm' i = negb ((pos <=? i) && (i <? pos + k)) && bit bm i)); [lia| |].
  - split_and!; [done..|]. intros i Hi.
    destruct (Z.leb_spec pos i), (Z.ltb_spec i (pos + 0)); simpl; done || lia.
  - intros k bm' Hk (Hwf' & Hlen & Hbit).
    eapply returns_mono; [apply bm_clrbit_spec; [done|rewrite Hlen; lia|lia]|].
    intros bm'' (Hwf'' & Hlen' & Hbit'). split_and!; [done|congruence|].
    intros i Hi. rewrite Hbit', Hbit by done.
    destruct (Z.leb_spec pos i), (Z.ltb_spec i (pos + k)), (Z.ltb_spec i (pos + (k + 1)));
      case_bool_decide; simpl; done || lia.
Qed.

Lemma isset_region_spec :
  returns (bm_isset_region bm pos region) (λ r,
    (r = 1 ∧ ∃ i, pos ≤ i < pos + region ∧ bit bm i = true) ∨
    (r = 0 ∧ ∀ i, pos ≤ i < pos + region → bit bm i = false)).
Proof.
  unfold bm_isset_region, in_bitmap in *.
  eapply (loop_returns
    (λ k, 0 ≤ k ≤ region ∧ ∀ i, pos ≤ i < pos + k → bit bm i = false)
    (λ k, Z.to_nat (region - k))); [|split; [lia|intros; lia]|lia].
  intros k [Hk Hclr]. destruct (Z.ltb_spec k region); simpl.
  - rewrite bm_isset_spec by (done || lia). simpl.
    destruct (bit bm (pos + k)) eqn:T; simpl.
    + left. split; [done|]. exists (pos + k). split; [lia|done].
    + split; [|lia]. split; [lia|]. intros i Hi.
      destruct (decide (i = pos + k)) as [->|]; [done|]. apply Hclr. lia.
  - right. split; [done|]. intros i Hi. apply Hclr. lia.
Qed.
End region.

(** *** Whole-bitmap operations *)
Definition longs (nbits : Z) : Z := (nbits + 63) / 64.

Lemma BITS_TO_LONGS_eq nbits : 0 ≤ nbits < 2 ^ 34 → BITS_TO_LONGS nbits = longs nbits.
Proof.
  intros. unfold BITS_TO_LONGS, DIV_ROUND_UP, BITS_PER_LONG, longs.
  rewrite (u64_id (nbits + 64)), u64_id by (unfold is_u64; lia). f_equal. lia.
Qed.

Lemma longs_le nbits : 0 ≤ nbits < 2 ^ 34 → 0 ≤ longs nbits ≤ 2 ^ 28.
Proof. intros. unfold longs. dlia. Qed.

Lemma memset_words_spec bm n w :
  wf_bitmap bm → is_u64 w → 0 ≤ n ≤ Z.of_nat (length bm) → n < 2 ^ 60 →
  returns (memset_words bm (n * 8) w) (λ bm',
    wf_bitmap bm' ∧ length bm' = length bm ∧
    ∀ k, 0 ≤ k → bm' !!! Z.to_nat k = if k <? n then w else bm !!! Z.to_nat k).
Proof.
  intros Hwf Hw Hn H60. unfold memset_words. rewrite u64_id by (unfold is_u64; lia).
  rewrite Z.div_mul by lia.
  eapply (for_range_returns (λ j bm', wf_bitmap bm' ∧ length bm' = length bm ∧
    ∀ k, 0 ≤ k → bm' !!! Z.to_nat k = if k <? j then w else bm !!! Z.to_nat k)); [lia| |].
  - split_and!; [done..|]. intros k Hk. destruct (Z.ltb_spec k 0); [lia|done].
  - intros j bm' Hj (Hwf' & Hlen & Hbm). rewrite aset_ok by lia. simpl.
    split_and!; [by apply Forall_insert|by rewrite length_insert|].
    intros k Hk. destruct (decide (k = j)) as [->|].
    + rewrite list_lookup_total_insert_eq by lia. destruct (Z.ltb_spec j (j + 1)); [done|lia].
    + rewrite list_lookup_total_insert_ne, Hbm by lia.
      destruct (Z.ltb_spec k j), (Z.ltb_spec k (j + 1)); done || lia.
Qed.

Lemma longs_31 nbits : 1 ≤ nbits < 2 ^ 31 → 1 ≤ longs nbits ≤ 2 ^ 25.
Proof. intros. unfold longs. dlia. Qed.

Lemma last_mask_range nbits : is_u64 (BITMAP_LAST_WORD_MASK nbits).
Proof. unfold BITMAP_LAST_WORD_MASK. case_bool_decide; apply u64_range. Qed.

Lemma last_mask_bits nbits j :
  1 ≤ nbits → 0 ≤ j < 64 →
  Z.testbit (BITMAP_LAST_WORD_MASK nbits) j = (64 * (longs nbits - 1) + j <? nbits).
Proof.
  intros Hn Hj. unfold BITMAP_LAST_WORD_MASK, BITS_PER_LONG, longs, u64.
  pose proof (Z.mod_pos_bound nbits 64 ltac:(lia)) as Hm.
  case_bool_decide as E.
  - rewrite Z.shiftl_1_l, (Z.mod_small (2 ^ _)) by (split; [lia|]; apply Z.pow_lt_mono_r; lia).
    rewrite Z.mod_small.
    2:{ assert (0 < 2 ^ (nbits mod 64)) by lia.
        assert (2 ^ (nbits mod 64) < 2 ^ 64) by (apply Z.pow_lt_mono_r; lia). lia. }
    change (2 ^ (nbits mod 64) - 1) with (Z.pred (2 ^ (nbits mod 64))).
    rewrite <-Z.ones_equiv. rewrite Z.testbit_ones by lia.
    destruct (Z.leb_spec 0 j); [|lia]. simpl.
    destruct (Z.ltb_spec j (nbits mod 64)), (Z.ltb_spec (64 * ((nbits + 63) / 64 - 1) + j) nbits);
      done || dlia.
  - change (Z.lnot 0 mod 2 ^ 64) with (Z.ones 64). rewrite Z.ones_spec_low by lia.
    symmetry. apply Z.ltb_lt. dlia.
Qed.

Lemma bit_of_words bm bm' n w i :
  (∀ k, 0 ≤ k → bm' !!! Z.to_nat k = if k <? n then w else bm !!! Z.to_nat k) →
  0 ≤ i → bit bm' i = if i <? 64 * n then Z.testbit w (i mod 64) else bit bm i.
Proof.
  intros H Hi. unfold bit. rewrite H by dlia.
  destruct (Z.ltb_spec (i / 64) n), (Z.ltb_spec i (64 * n)); done || dlia.
Qed.

Section init.
Context (const_p : bool) (bm : list Z) (nbits : Z).
Hypothesis (Hwf : wf_bitmap bm) (Hn : 1 ≤ nbits < 2 ^ 31).
Hypothesis (Hlen : longs nbits ≤ Z.of_nat (length bm)).

Lemma small_const_longs : small_const_nbits const_p nbits = true → longs nbits = 1.
Proof.
  unfold small_const_nbits, BITS_PER_LONG, longs. intros [_ Hb]%andb_prop. dlia.
Qed.

Lemma bm_zero_spec :
  returns (bm_zero const_p bm nbits) (λ bm',
    length bm' = length bm ∧
    ∀ i, 0 ≤ i → bit bm' i = negb (i <? 64 * longs nbits) && bit bm i).
Proof.
  pose proof (longs_31 nbits Hn) as HL. pose proof small_const_longs as Hs.
  unfold bm_zero. rewrite BITS_TO_LONGS_eq by lia.
  destruct (small_const_nbits const_p nbits).
  - rewrite aset_ok by lia. simpl. split; [apply length_insert|]. intros i Hi.
    rewrite Hs, bit_insert by (done || lia). rewrite Z.testbit_0_l.
    case_bool_decide; destruct (Z.ltb_spec i (64 * 1)); simpl; try done; dlia.
  - rewrite (u64_id (_ * 8)), (sw_id 32) by (unfold is_u64; lia).
    eapply returns_mono; [apply memset_words_spec; [done|unfold is_u64; lia..]|].
    intros bm' (_ & Hl & Hbm). split; [done|]. intros i Hi.
    rewrite (bit_of_words bm bm' (longs nbits) 0) by done. rewrite Z.testbit_0_l.
    by destruct (i <? _).
Qed.

(** The words below the last are filled first. *)
Lemma bm_fill_words :
  returns
    (if small_const_nbits const_p nbits then Ret bm
     else memset_words bm (s32 (u64 (u64 (longs nbits - 1) * 8))) (2 ^ 64 - 1))
    (λ bm', length bm' = length bm ∧
       ∀ i, 0 ≤ i → bit bm' i = if i <? 64 * (longs nbits - 1) then true else bit bm i).
Proof.
  pose proof (longs_31 nbits Hn) as HL. pose proof small_const_longs as Hs.
  destruct (small_const_nbits const_p nbits).
  - simpl. split; [done|]. intros i Hi. rewrite Hs by done.
    destruct (Z.ltb_spec i (64 * (1 - 1))); [lia|done].
  - rewrite (u64_id (_ - 1)), (u64_id (_ * 8)), (sw_id 32) by (unfold is_u64; lia).
    eapply returns_mono; [apply memset_words_spec; [done|unfold is_u64; lia..]|].
    intros bm' (_ & Hl & Hbm). split; [done|]. intros i Hi.
    rewrite (bit_of_words bm bm' (longs nbits - 1) (2 ^ 64 - 1)) by done.
    change (2 ^ 64 - 1) with (Z.ones 64).
    rewrite Z.ones_spec_low by (apply Z.mod_pos_bound; lia). done.
Qed.

Lemma bm_fill_spec :
  returns (bm_fill const_p bm nbits) (λ bm',
    length bm' = length bm ∧
    ∀ i, 0 ≤ i → bit bm' i = if i <? 64 * longs nbits then i <? nbits else bit bm i).
Proof.
  pose proof (longs_31 nbits Hn) as HL. unfold bm_fill. rewrite BITS_TO_LONGS_eq by lia.
  apply returns_bind. eapply returns_mono; [apply bm_fill_words|].
  intros bm' [Hl Hbm]. rewrite u64_id by (unfold is_u64; lia).
  rewrite aset_ok by lia. simpl. split; [by rewrite length_insert|]. intros i Hi.
  pose proof (Z.div_mod i 64 ltac:(lia)). pose proof (Z.mod_pos_bound i 64 ltac:(lia)).
  rewrite bit_insert by lia. case_bool_decide as E.
  - assert (i / 64 = longs nbits - 1) as Ei by lia.
    rewrite last_mask_bits by lia. destruct (Z.ltb_spec i (64 * longs nbits)); [|lia].
    f_equal. lia.
  - rewrite Hbm by done. assert (i / 64 ≠ longs nbits - 1) by (intros Ei; apply E; by rewrite Ei).
    destruct (Z.ltb_spec i (64 * (longs nbits - 1))), (Z.ltb_spec i (64 * longs nbits));
      try lia; [|done].
    symmetry. apply Z.ltb_lt. unfold longs in *. dlia.
Qed.
End init.

(** ** Properties *)

(** On a request that lies inside the bitmap, [bm_setbit_region] and
    [bm_clrbit_region] set (clear) exactly the bits of the region and keep the
    words 64 bits wide, and [bm_isset_region] answers 1 exactly when some bit
    of the region is set; none of them touches memory outside the bitmap. *)
Lemma bitmap_region bm pos region :
  wf_bitmap bm → in_bitmap bm pos region →
  returns (bm_setbit_region bm pos region) (λ bm',
    wf_bitmap bm' ∧ length bm' = length bm ∧
    ∀ i, 0 ≤ i → bit bm' i = in_region pos region i || bit bm i) ∧
  returns (bm_clrbit_region bm pos region) (λ bm',
    wf_bitmap bm' ∧ length bm' = length bm ∧
    ∀ i, 0 ≤ i → bit bm' i = negb (in_region pos region i) && bit bm i) ∧
  returns (bm_isset_region bm pos region) (λ r,
    (r = 1 ∧ ∃ i, pos ≤ i < pos + region ∧ bit bm i = true) ∨
    (r = 0 ∧ ∀ i, pos ≤ i < pos + region → bit bm i = false)).
Proof.
  intros Hwf Hin. split_and!.
  - by apply setbit_region_spec.
  - by apply clrbit_region_spec.
  - by apply isset_region_spec.
Qed.

Lemma bitmap_region_witness :
  returns (bm_setbit_region [0; 6] 62 4) (λ bm',
    wf_bitmap bm' ∧ length bm' = length [0; 6] ∧
    ∀ i, 0 ≤ i → bit bm' i = in_region 62 4 i || bit [0; 6] i) ∧
  returns (bm_clrbit_region [0; 6] 62 4) (λ bm',
    wf_bitmap bm' ∧ length bm' = length [0; 6] ∧
    ∀ i, 0 ≤ i → bit bm' i = negb (in_region 62 4 i) && bit [0; 6] i) ∧
  returns (bm_isset_region [0; 6] 62 4) (λ r,
    (r = 1 ∧ ∃ i, 62 ≤ i < 62 + 4 ∧ bit [0; 6] i = true) ∨
    (r = 0 ∧ ∀ i, 62 ≤ i < 62 + 4 → bit [0; 6] i = false)).
Proof.
  apply (bitmap_region [0; 6] 62 4).
  - repeat constructor; unfold is_u64; lia.
  - unfold in_bitmap. simpl. lia.
Defined.

(** For 1 ≤ nbits < 2^31 and a destination with a word for every 64 bits
    asked for, [bm_zero] clears all the bits of the words it covers and
    [bm_fill] sets the first [nbits] of them and clears the rest of the last
    word; the words beyond are untouched. *)
Lemma bitmap_init const_p bm nbits :
  wf_bitmap bm → 1 ≤ nbits < 2 ^ 31 → longs nbits ≤ Z.of_nat (length bm) →
  returns (bm_zero const_p bm nbits) (λ bm',
    length bm' = length bm ∧
    ∀ i, 0 ≤ i → bit bm' i = negb (i <? 64 * longs nbits) && bit bm i) ∧
  returns (bm_fill const_p bm nbits) (λ bm',
    length bm' = length bm ∧
    ∀ i, 0 ≤ i → bit bm' i = if i <? 64 * longs nbits then i <? nbits else bit bm i).
Proof.
  intros Hwf Hn Hlen. split; [by apply bm_zero_spec|by apply bm_fill_spec].
Qed.

Lemma bitmap_init_witness :
  returns (bm_zero false [5; 2 ^ 64 - 1; 9] 70) (λ bm',
    length bm' = length [5; 2 ^ 64 - 1; 9] ∧
    ∀ i, 0 ≤ i → bit bm' i = negb (i <? 64 * longs 70) && bit [5; 2 ^ 64 - 1; 9] i) ∧
  returns (bm_fill false [5; 2 ^ 64 - 1; 9] 70) (λ bm',
    length bm' = length [5; 2 ^ 64 - 1; 9] ∧
    ∀ i, 0 ≤ i → bit bm' i = if i <? 64 * longs 70 then i <? 70 else bit [5; 2 ^ 64 - 1; 9] i).
Proof.
  apply (bitmap_init false [5; 2 ^ 64 - 1; 9] 70).
  - repeat constructor; unfold is_u64; lia.
  - lia.
  - by apply Z.leb_le.
Defined.
