(* ===== verification/Hash.v ===== *)
(** * String hashing: [mycache/src/struct/hash.c]

    [crypt_table_init] fills the 0x500 words of the global [crypt_table] from
    a linear congruential stream, five words per first index; [hash_string]
    mixes the upper-cased characters of a key through one 256-word page of it.
    A [char] is signed; [unsigned long] arithmetic wraps at 64 bits. *)

From S2P Require Import Prelude.

Definition TABLE_SIZE : Z := 0x500.

(** One round of the generator: [seed = (seed * 125 + 3) % 0x2AAAAB]. *)
Definition next_seed (seed : Z) : Z := u64 (u64 (seed * 125) + 3) mod 0x2AAAAB.

(** The body of the inner loop: two rounds make one table word. *)
Definition crypt_fill (st : Z * list Z) (index2 : Z) : outcome (Z * list Z) :=
  let '(seed, crypt_table) := st in
  let seed := next_seed seed in
  let temp1 := u64 (Z.shiftl (Z.land seed 0xFFFF) 0x10) in
  let seed := next_seed seed in
  let temp2 := Z.land seed 0xFFFF in
  let! crypt_table := aset crypt_table index2 (Z.lor temp1 temp2) in
  Ret (seed, crypt_table).

Definition crypt_table_init (crypt_table : list Z) : outcome (list Z) :=
  let! st := for_range 0 0x100 (λ index1 st,
    for_range 0 5 (λ i st, crypt_fill st (index1 + i * 0x100)) st) (0x00100001, crypt_table) in
  Ret st.2.

(** [toupper] of the C locale; its argument must be an [unsigned char] value or
    [EOF]. *)
Definition toupper (c : Z) : outcome Z :=
  if bool_decide (-1 ≤ c ≤ 255) then
    Ret (if (97 <=? c) && (c <=? 122) then c - 32 else c)
  else Stuck.

Definition hash_step (crypt_table : list Z) (hash_type : Z) (cstring : list Z)
    (i : Z) (seeds : Z * Z) : outcome (Z * Z) :=
  let '(seed1, seed2) := seeds in
  let! c := aget cstring i in
  let! ch := toupper c in
  let! w := aget crypt_table (Z.shiftl hash_type 8 + ch) in
  let seed1 := Z.lxor w (u64 (seed1 + seed2)) in
  let seed2 := u64 (ch + seed1 + seed2 + u64 (Z.shiftl seed2 5) + 3) in
  Ret (seed1, seed2).

Definition hash_string (crypt_table : list Z) (cstring : list Z) (stringlen hash_type : Z)
    : outcome Z :=
  let! seeds := for_range 0 stringlen (hash_step crypt_table hash_type cstring)
                  (0x7FED7FED, 0xEEEEEEEE) in
  Ret seeds.1.

(** ** The table *)

(** The generator stream and the word made of rounds [2n + 1] and [2n + 2]. *)
Definition seed_at (n : nat) : Z := Nat.iter n next_seed 0x00100001.

Definition crypt_word (n : nat) : Z :=
  (seed_at (2 * n + 1) mod 2 ^ 16) * 2 ^ 16 + seed_at (2 * n + 2) mod 2 ^ 16.

(** The well-formed tables: what [crypt_table_init] establishes. *)
Definition table_ok (t : list Z) : Prop :=
  length t = Z.to_nat TABLE_SIZE ∧ Forall (λ w, 0 ≤ w < 2 ^ 32) t.

(** Keys the code handles without undefined behaviour: 7-bit characters. *)
Definition ascii_key (k : list Z) : Prop := Forall (λ c, 0 ≤ c < 128) k.

Definition upcase (c : Z) : Z := if (97 <=? c) && (c <=? 122) then c - 32 else c.

Lemma next_seed_range s : 0 ≤ next_seed s < 0x2AAAAB.
Proof. apply Z.mod_pos_bound. lia. Qed.

Lemma seed_at_S n : seed_at (S n) = next_seed (seed_at n).
Proof. done. Qed.

Lemma land_ffff s : Z.land s 0xFFFF = s mod 2 ^ 16.
Proof. change 0xFFFF with (Z.ones 16). by rewrite Z.land_ones by lia. Qed.

Lemma crypt_word_eq n :
  Z.lor (u64 (Z.shiftl (Z.land (seed_at (2 * n + 1)) 0xFFFF) 0x10)) (Z.land (seed_at (2 * n + 2)) 0xFFFF)
  = crypt_word n.
Proof.
  unfold crypt_word. rewrite !land_ffff.
  pose proof (Z.mod_pos_bound (seed_at (2 * n + 1)) (2 ^ 16) ltac:(lia)).
  pose proof (Z.mod_pos_bound (seed_at (2 * n + 2)) (2 ^ 16) ltac:(lia)).
  rewrite u64_id by (unfold is_u64; rewrite Z.shiftl_mul_pow2 by lia; lia).
  rewrite Z.lor_comm, lor_disjoint_add by lia. lia.
Qed.

Lemma crypt_word_range n : 0 ≤ crypt_word n < 2 ^ 32.
Proof.
  unfold crypt_word.
  pose proof (Z.mod_pos_bound (seed_at (2 * n + 1)) (2 ^ 16) ltac:(lia)).
  pose proof (Z.mod_pos_bound (seed_at (2 * n + 2)) (2 ^ 16) ltac:(lia)). lia.
Qed.

Lemma crypt_fill_spec n t k :
  0 ≤ k < Z.of_nat (length t) →
  crypt_fill (seed_at (2 * n), t) k = Ret (seed_at (2 * S n), <[Z.to_nat k:=crypt_word n]> t).
Proof.
  intros Hk. unfold crypt_fill. rewrite <-seed_at_S, <-seed_at_S.
  replace (S (2 * n)) with (2 * n + 1)%nat by lia. replace (S (2 * n + 1)) with (2 * n + 2)%nat by lia.
  rewrite crypt_word_eq, aset_ok by done. simpl mbind. do 3 f_equal. lia.
Qed.

(** Word [(j, i)] of the table, at index [j + i * 0x100], is number [5j + i] of
    the stream; [filled n] says the first [n] of them are in place. *)
Definition filled (n : Z) (t : list Z) : Prop :=
  length t = Z.to_nat TABLE_SIZE ∧
  ∀ j i, 0 ≤ j < 256 → 0 ≤ i < 5 → 5 * j + i < n →
    t !! Z.to_nat (j + i * 256) = Some (crypt_word (Z.to_nat (5 * j + i))).

Lemma filled_step n j i t :
  filled n t → 0 ≤ j < 256 → 0 ≤ i < 5 → n = 5 * j + i →
  filled (n + 1) (<[Z.to_nat (j + i * 256):=crypt_word (Z.to_nat n)]> t).
Proof.
  intros [Hlen Hf] Hj Hi ->. change (Z.to_nat TABLE_SIZE) with 1280%nat in Hlen.
  split; [by rewrite length_insert, Hlen|].
  intros j' i' Hj' Hi' Hlt. destruct (decide (j' = j ∧ i' = i)) as [[-> ->]|Hne].
  - apply list_lookup_insert_eq. lia.
  - rewrite list_lookup_insert_ne by lia. apply Hf; lia.
Qed.

Lemma crypt_table_init_spec t :
  length t = Z.to_nat TABLE_SIZE →
  returns (crypt_table_init t) (filled 1280).
Proof.
  intros Hlen. unfold crypt_table_init. apply returns_bind.
  eapply returns_mono; [apply (for_range_returns
    (λ j st, st.1 = seed_at (2 * Z.to_nat (5 * j)) ∧ filled (5 * j) st.2)); [lia| |]|].
  - split; [done|]. split; [done|]. intros; lia.
  - intros j [s t'] Hj [Hs Hf]. cbn [fst snd] in Hs, Hf.
    eapply returns_mono; [apply (for_range_returns
      (λ i st, st.1 = seed_at (2 * Z.to_nat (5 * j + i)) ∧ filled (5 * j + i) st.2)); [lia| |]|].
    + replace (5 * j + 0) with (5 * j) by lia. done.
    + intros i [s' t''] Hi [Hs' Hf']. cbn [fst snd] in Hs', Hf'. subst s'.
      assert (length t'' = 1280%nat) as Hl by (by destruct Hf').
      rewrite crypt_fill_spec by lia. cbn [returns fst snd]. split.
      * f_equal. lia.
      * replace (5 * j + (i + 1)) with (5 * j + i + 1) by lia. by apply filled_step.
    + intros [s' t''] [H1 H2]. replace (5 * (j + 1)) with (5 * j + 5) by lia. done.
  - intros [s t'] [_ Hf]. done.
Qed.

Lemma filled_table_ok t : filled 1280 t → table_ok t.
Proof.
  intros [Hlen Hf]. split; [done|]. change (Z.to_nat TABLE_SIZE) with 1280%nat in Hlen.
  apply Forall_lookup_2. intros k w Hk.
  pose proof (lookup_lt_Some _ _ _ Hk).
  specialize (Hf (Z.of_nat k mod 256) (Z.of_nat k / 256)).
  
  replace (Z.to_nat (Z.of_nat k mod 256 + Z.of_nat k / 256 * 256)) with k in Hf by dlia.
  rewrite Hf in Hk by dlia. injection Hk as <-. apply crypt_word_range.
Qed.

(** ** Hashing *)
Lemma toupper_ascii c : 0 ≤ c < 128 → toupper c = Ret (upcase c).
Proof. intros. unfold toupper. by rewrite bool_decide_eq_true_2 by lia. Qed.

Lemma upcase_ascii c : 0 ≤ c < 128 → 0 ≤ upcase c < 128.
Proof. intros. unfold upcase. destruct (Z.leb_spec 97 c), (Z.leb_spec c 122); simpl; lia. Qed.

Lemma hash_index ty c : 0 ≤ ty < 5 → 0 ≤ c < 128 → 0 ≤ Z.shiftl ty 8 + c < 1280.
Proof. intros. rewrite Z.shiftl_mul_pow2 by lia. lia. Qed.

Lemma ascii_lookup k n c : ascii_key k → k !! n = Some c → 0 ≤ c < 128.
Proof. intros Hk Hc. by eapply (Forall_lookup_1 (λ c, 0 ≤ c < 128)). Qed.

Section hash.
Context (t : list Z) (ty : Z).
Hypothesis (Ht : table_ok t) (Hty : 0 ≤ ty < 5).

Lemma hash_step_ascii k i s :
  ascii_key k → 0 ≤ i < Z.of_nat (length k) → is_u64 s.1 ∧ is_u64 s.2 →
  returns (hash_step t ty k i s) (λ s', is_u64 s'.1 ∧ is_u64 s'.2).
Proof.
  intros Hk Hi [H1 H2]. destruct s as [s1 s2]. unfold hash_step.
  rewrite aget_total by done. simpl mbind.
  assert (0 ≤ k !!! Z.to_nat i < 128) as Hc.
  { eapply ascii_lookup; [exact Hk|]. apply list_lookup_lookup_total_lt. lia. }
  rewrite toupper_ascii by done. simpl mbind.
  pose proof (hash_index ty _ Hty (upcase_ascii _ Hc)) as Hix.
  destruct Ht as [Hlen Hw]. change (Z.to_nat TABLE_SIZE) with 1280%nat in Hlen.
  rewrite aget_total by lia. simpl.
  assert (0 ≤ t !!! Z.to_nat (Z.shiftl ty 8 + upcase (k !!! Z.to_nat i)) < 2 ^ 32) as Hb.
  { eapply (Forall_lookup_1 (λ w, 0 ≤ w < 2 ^ 32)); [exact Hw|].
    apply list_lookup_lookup_total_lt. lia. }
  split; [|apply u64_range]. pose proof (u64_range (s1 + s2)) as Hu. unfold is_u64 in *.
  set (w := t !!! _) in *. set (x := u64 (s1 + s2)) in *. clearbody w x.
  assert (0 ≤ Z.lxor w x) by (apply Z.lxor_nonneg; lia).
  split; [done|]. destruct (decide (Z.lxor w x = 0)) as [->|]; [lia|].
  apply Z.log2_lt_pow2; [lia|]. eapply Z.le_lt_trans; [apply Z.log2_lxor; lia|].
  assert (∀ a, 0 ≤ a < 2 ^ 64 → Z.log2 a < 64) as Hlog.
  { intros a Ha. destruct (decide (a = 0)) as [->|]; [simpl; lia|]. apply Z.log2_lt_pow2; lia. }
  apply Z.max_lub_lt; apply Hlog; lia.
Qed.

Lemma hash_string_ascii k len :
  ascii_key k → 0 ≤ len ≤ Z.of_nat (length k) → returns (hash_string t k len ty) is_u64.
Proof.
  intros Hk Hlen. unfold hash_string. apply returns_bind.
  eapply returns_mono; [apply (for_range_returns (λ _ s, is_u64 s.1 ∧ is_u64 s.2)); [lia| |]|].
  - unfold is_u64. simpl. lia.
  - intros i s Hi Hs. apply hash_step_ascii; [done|lia|done].
  - by intros s [Hs _].
Qed.
End hash.

Lemma hash_string_upcase t ty k k' len :
  ascii_key k → ascii_key k' → upcase <$> k = upcase <$> k' → len ≤ Z.of_nat (length k) →
  hash_string t k len ty = hash_string t k' len ty.
Proof.
  intros Hk Hk' E Hlen. unfold hash_string. f_equal. apply for_range_ext.
  intros i [s1 s2] Hi. unfold hash_step.
  assert (length k = length k') as El by (by rewrite <-(length_fmap upcase k), E, length_fmap).
  rewrite !aget_total by lia. simpl mbind.
  assert (k !! Z.to_nat i = Some (k !!! Z.to_nat i)) as L1
    by (apply list_lookup_lookup_total_lt; lia).
  assert (k' !! Z.to_nat i = Some (k' !!! Z.to_nat i)) as L2
    by (apply list_lookup_lookup_total_lt; lia).
  assert (upcase (k !!! Z.to_nat i) = upcase (k' !!! Z.to_nat i)) as Eu.
  { pose proof (f_equal (λ l : list Z, l !! Z.to_nat i) E) as Ei. simpl in Ei.
    rewrite !list_lookup_fmap, L1, L2 in Ei. by injection Ei. }
  rewrite (toupper_ascii _ (ascii_lookup _ _ _ Hk L1)), (toupper_ascii _ (ascii_lookup _ _ _ Hk' L2)).
  by rewrite Eu.
Qed.

(** ** Properties *)

(** [crypt_table_init] writes every word of the table, whatever it held:
    the word at [j + i * 0x100] is made of rounds [2(5j + i) + 1] and
    [2(5j + i) + 2] of the generator and fits 32 bits. *)
Lemma crypt_table_init_correct t :
  length t = Z.to_nat TABLE_SIZE →
  returns (crypt_table_init t) (λ t',
    length t' = Z.to_nat TABLE_SIZE ∧
    (∀ j i, 0 ≤ j < 256 → 0 ≤ i < 5 →
       t' !! Z.to_nat (j + i * 256) = Some (crypt_word (Z.to_nat (5 * j + i)))) ∧
    Forall (λ w, 0 ≤ w < 2 ^ 32) t').
Proof.
  intros Hlen. eapply returns_mono; [by apply crypt_table_init_spec|].
  intros t' Hf. pose proof (filled_table_ok _ Hf) as [_ Hw]. destruct Hf as [Hl Hf].
  split_and!; [done| |done]. intros j i Hj Hi. apply Hf; lia.
Qed.

Lemma crypt_table_init_correct_witness :
  returns (crypt_table_init (replicate 1280 0)) (λ t',
    length t' = Z.to_nat TABLE_SIZE ∧
    (∀ j i, 0 ≤ j < 256 → 0 ≤ i < 5 →
       t' !! Z.to_nat (j + i * 256) = Some (crypt_word (Z.to_nat (5 * j + i)))) ∧
    Forall (λ w, 0 ≤ w < 2 ^ 32) t').
Proof. apply (crypt_table_init_correct (replicate 1280 0)). reflexivity. Defined.

(** On an initialised table [hash_string] is defined for every key of 7-bit
    characters and every page, its value fits an [unsigned long], and keys that
    differ only in letter case hash alike on every page; a key with a character
    below [EOF] (a byte of 0x80 to 0xFE, as [char] is signed) is undefined
    behaviour. *)
Lemma hash_string_correct t ty k len :
  table_ok t → 0 ≤ ty < 5 → 0 ≤ len ≤ Z.of_nat (length k) →
  (ascii_key k → returns (hash_string t k len ty) is_u64) ∧
  (∀ k', ascii_key k → ascii_key k' → upcase <$> k = upcase <$> k' →
     hash_string t k' len ty = hash_string t k len ty) ∧
  (∀ i c, 0 ≤ i < len → k !! Z.to_nat i = Some c → c < -1 → hash_string t k len ty = Stuck).
Proof.
  intros Ht Hty Hlen. split_and!.
  - intros Hk. by apply hash_string_ascii.
  - intros k' Hk Hk' E. symmetry. by apply hash_string_upcase; [..|lia].
  - intros i c Hi Hc Hneg. unfold hash_string. rewrite (for_range_stuck _ _ _ _ i); [done| |lia|].
    + intros j [s1 s2]. unfold hash_step, aget, toupper. by repeat (case_match; simpl).
    + intros [s1 s2]. unfold hash_step. rewrite (aget_lookup _ _ c) by (done || lia). simpl.
      unfold toupper. by rewrite bool_decide_eq_false_2 by lia.
Qed.

Lemma hash_string_correct_witness :
  table_ok (replicate 1280 7) ∧
  (ascii_key [104; 101; -61] → returns (hash_string (replicate 1280 7) [104; 101; -61] 3 1) is_u64) ∧
  (∀ k', ascii_key [104; 101; -61] → ascii_key k' → upcase <$> [104; 101; -61] = upcase <$> k' →
     hash_string (replicate 1280 7) k' 3 1 = hash_string (replicate 1280 7) [104; 101; -61] 3 1) ∧
  (∀ i c, 0 ≤ i < 3 → [104; 101; -61] !! Z.to_nat i = Some c → c < -1 →
     hash_string (replicate 1280 7) [104; 101; -61] 3 1 = Stuck).
Proof.
  assert (table_ok (replicate 1280 7)) as Ht.
  { split; [reflexivity|]. apply Forall_replicate. lia. }
  split; [exact Ht|]. apply (hash_string_correct (replicate 1280 7) 1 [104; 101; -61] 3);
    [exact Ht|lia|simpl; lia].
Defined.
