(* ===== verification/SkipCore.v ===== *)
(** * Skip-list nodes and loops shared by [skip_list.c] and [kvcache.c]

    Both files contain the same search, insertion and deletion loops over
    nodes that differ only in their payload.  This file holds the heap of such
    nodes, the loops, and their specification against the list of nodes in
    order. *)

From S2P Require Import Prelude.

(** ** Heap *)
(** A node: the search key, the payload, and the forward pointers allocated
    behind it ([elem\[0\]]). *)
Record node (V : Type) : Type := Node {
  priority : Z;
  ack_hash_1 : Z;
  ack_hash_2 : Z;
  payload : V;
  elem : list ptr
}.
Arguments Node {V} _ _ _ _ _.
Arguments priority {V} _.
Arguments ack_hash_1 {V} _.
Arguments ack_hash_2 {V} _.
Arguments payload {V} _.
Arguments elem {V} _.

Definition MAX_SK_LEVEL : nat := 16.
Definition MAX_SK_LEVEL_INDEX : Z := 15.
Definition MAX_PRIORITY : Z := 2 ^ 64 - 1.

Section ops.
Context {V : Type}.
Abbreviation heap := (gmap loc (node V)).

Definition deref (h : heap) (p : ptr) : outcome (node V) :=
  match p with
  | Addr l => match h !! l with Some n => Ret n | None => Stuck end
  | _ => Stuck
  end.

Definition get_elem (h : heap) (p : ptr) (i : Z) : outcome ptr :=
  let! n := deref h p in aget (elem n) i.

Definition set_elem (h : heap) (p : ptr) (i : Z) (q : ptr) : outcome heap :=
  match p with
  | Addr l =>
      match h !! l with
      | Some n =>
          let! e := aset (elem n) i q in
          Ret (<[l := Node (priority n) (ack_hash_1 n) (ack_hash_2 n) (payload n) e]> h)
      | None => Stuck
      end
  | _ => Stuck
  end.

(** [P_FREE]: releasing the null pointer does nothing. *)
Definition free_node (h : heap) (p : ptr) : outcome heap :=
  match p with
  | Null => Ret h
  | Addr l => if bool_decide (is_Some (h !! l)) then Ret (delete l h) else Stuck
  | Junk => Stuck
  end.

(** ** Loops *)

(** [while ((pnode = phead->elem[slevel]) && cmp pnode->priority priority)
    phead = pnode;] leaves [phead] and [pnode]. *)
Definition walk (cmp : Z → Z → bool) (h : heap) (prio slevel : Z) (phead : ptr)
    : outcome (ptr * ptr) :=
  loop (S (size h)) (λ phead,
    let! pnode := get_elem h phead slevel in
    let! b := truth pnode in
    if b : bool then
      let! n := deref h pnode in
      if cmp (priority n) prio then Ret (inl pnode) else Ret (inr (phead, pnode))
    else Ret (inr (phead, pnode))) phead.

(** [do { walk; update[slevel] = phead; } while (--slevel >= 0);] from level
    [slevel] down to 0. *)
Fixpoint descend (cmp : Z → Z → bool) (h : heap) (prio : Z) (slevel : nat) (phead : ptr)
    (update : list ptr) : outcome (ptr * list ptr) :=
  let! pp := walk cmp h prio (Z.of_nat slevel) phead in
  let! update := aset update (Z.of_nat slevel) pp.1 in
  match slevel with
  | O => Ret (pp.2, update)
  | S slevel => descend cmp h prio slevel pp.1 update
  end.

(** The same descent in the lookup functions, which keep no [update]. *)
Fixpoint descend_lookup (cmp : Z → Z → bool) (h : heap) (prio : Z) (slevel : nat) (phead : ptr)
    : outcome ptr :=
  let! pp := walk cmp h prio (Z.of_nat slevel) phead in
  match slevel with
  | O => Ret pp.2
  | S slevel => descend_lookup cmp h prio slevel pp.1
  end.

(** [while (pnode && priority == pnode->priority) { if (acks agree) return
    pnode; pnode = pnode->elem[0]; }]: the node found, or null. *)
Definition scan (h : heap) (prio a1 a2 : Z) (pnode : ptr) : outcome ptr :=
  loop (S (size h)) (λ pnode,
    let! b := truth pnode in
    if b : bool then
      let! n := deref h pnode in
      if prio =? priority n then
        if (a1 =? ack_hash_1 n) && (a2 =? ack_hash_2 n) then Ret (inr pnode)
        else let! next := get_elem h pnode 0 in Ret (inl next)
      else Ret (inr Null)
    else Ret (inr Null)) pnode.

(** [do { phead = update[slevel]; pnode->elem[slevel] = phead->elem[slevel];
    phead->elem[slevel] = pnode; } while (--slevel >= 0);]. *)
Fixpoint link (h : heap) (update : list ptr) (pnode : ptr) (slevel : nat) : outcome heap :=
  let! phead := aget update (Z.of_nat slevel) in
  let! next := get_elem h phead (Z.of_nat slevel) in
  let! h := set_elem h pnode (Z.of_nat slevel) next in
  let! h := set_elem h phead (Z.of_nat slevel) pnode in
  match slevel with
  | O => Ret h
  | S slevel => link h update pnode slevel
  end.

(** [for (slevel = 0; slevel <= tmplevel && (phead = update[slevel])->elem[slevel]
    == pnode; slevel++) phead->elem[slevel] = pnode->elem[slevel];]. *)
Definition unlink (h : heap) (update : list ptr) (pnode : ptr) (tmplevel : Z) : outcome heap :=
  loop (S (S (Z.to_nat tmplevel))) (λ st : Z * heap,
    let '(slevel, h) := st in
    if slevel <=? tmplevel then
      let! phead := aget update slevel in
      let! next := get_elem h phead slevel in
      if bool_decide (next = pnode) then
        let! e := get_elem h pnode slevel in
        let! h := set_elem h phead slevel e in
        Ret (inl (slevel + 1, h))
      else Ret (inr h)
    else Ret (inr h)) (0, h).

(** [while (head->elem[tmplevel] == NIL && tmplevel > 0) tmplevel--;]. *)
Definition shrink (h : heap) (head : ptr) (tmplevel : Z) : outcome Z :=
  loop (S (Z.to_nat tmplevel)) (λ tmplevel,
    let! e := get_elem h head tmplevel in
    if bool_decide (e = Null) && (0 <? tmplevel) then Ret (inl (tmplevel - 1))
    else Ret (inr tmplevel)) tmplevel.
End ops.

(** ** Random levels: [__get_random_level]

    [rand] is an oracle: the list of the values it will return.  The function
    keeps a static countdown [randomsLeft] across calls. *)
Record rng : Type := Rng { randomsLeft : Z; rands : list Z }.

Definition next_rand (g : list Z) : outcome (Z * list Z) :=
  match g with
  | r :: g => Ret (r, g)
  | [] => Loop
  end.

Definition get_random_level (fuel : nat) (g : rng) : outcome (Z * rng) :=
  let! rg := next_rand (rands g) in
  loop fuel (λ st : Z * Z * rng,
    let '(level, randomBits, g) := st in
    let b := Z.land randomBits 3 in
    let level := if bool_decide (b = 0) then level + 1 else level in
    let randomBits := Z.shiftr randomBits 2 in
    let left := randomsLeft g - 1 in
    let! st :=
      (if bool_decide (left = 0) then
         let! rg := next_rand (rands g) in
         Ret (rg.1, Rng MAX_SK_LEVEL_INDEX rg.2)
       else Ret (randomBits, Rng left (rands g))) in
    if bool_decide (b = 0) then Ret (inl (level, st.1, st.2))
    else Ret (inr (if MAX_SK_LEVEL_INDEX <? level then MAX_SK_LEVEL_INDEX else level, st.2)))
    (0, rg.1, Rng (randomsLeft g) rg.2).

(** The turns [__get_random_level] may take (its countdown has 15 steps). *)
Definition LEVEL_FUEL : nat := 32.

(** ** Specification *)
Section spec.
Context {V : Type}.
Abbreviation heap := (gmap loc (node V)).
Implicit Types (h : heap) (l x y : loc) (L A B C : list loc).

(** Views of a heap: height, key, and one forward pointer of a node. *)
Definition hgt h l : nat := from_option (λ n, length (elem n)) O (h !! l).
Definition prio h l : Z := from_option priority 0 (h !! l).
Definition el h l (i : nat) : option ptr := h !! l ≫= λ n, elem n !! i.

(** Everything but the contents of the forward pointers. *)
Definition sig (n : node V) := (priority n, ack_hash_1 n, ack_hash_2 n, payload n, length (elem n)).
Definition same_shape h h' : Prop := sig <$> h = sig <$> h'.

(** The first node of [ls] that has level [i]. *)
Fixpoint nxt h (i : nat) (ls : list loc) : ptr :=
  match ls with
  | [] => Null
  | l :: ls => if bool_decide (i < hgt h l)%nat then Addr l else nxt h i ls
  end.

(** The last node of [x :: ls] that has level [i], [x] being taken to. *)
Fixpoint lastge h (i : nat) (x : loc) (ls : list loc) : loc :=
  match ls with
  | [] => x
  | l :: ls => lastge h i (if bool_decide (i < hgt h l)%nat then l else x) ls
  end.

(** The skip list with head node [head], current level [lvl] and nodes [L] in
    order: each forward pointer leads to the next node of its level. *)
Record wf h (head : loc) (lvl : nat) (L : list loc) : Prop := Wf {
  wf_nodup : NoDup (head :: L);
  wf_head : hgt h head = MAX_SK_LEVEL;
  wf_hgt : ∀ l, l ∈ L → (1 ≤ hgt h l ≤ S lvl)%nat;
  wf_lvl : (lvl < MAX_SK_LEVEL)%nat;
  wf_next : ∀ A x B i, head :: L = A ++ x :: B → (i < hgt h x)%nat → el h x i = Some (nxt h i B);
  wf_sorted : StronglySorted Z.le (prio h <$> L)
}.

(** *** Views *)
Lemma same_shape_lookup h h' l :
  same_shape h h' → sig <$> h !! l = sig <$> h' !! l.
Proof. intros E. by rewrite <-!lookup_fmap, E. Qed.

Lemma same_shape_views h h' l :
  same_shape h h' → hgt h' l = hgt h l ∧ prio h' l = prio h l.
Proof.
  intros E. apply (same_shape_lookup _ _ l) in E. unfold hgt, prio.
  destruct (h !! l), (h' !! l); simpl in *; [|done..]. unfold sig in E. by simplify_eq.
Qed.

Lemma same_shape_hgt h h' l : same_shape h h' → hgt h' l = hgt h l.
Proof. intros E. by apply same_shape_views. Qed.

Lemma hgt_some h l : (0 < hgt h l)%nat → is_Some (h !! l).
Proof. unfold hgt. destruct (h !! l); simpl; [by eexists|lia]. Qed.

Lemma el_hgt h l i : (i < hgt h l)%nat ↔ is_Some (el h l i).
Proof.
  unfold hgt, el. destruct (h !! l) as [n|]; simpl.
  - by rewrite lookup_lt_is_Some.
  - split; [lia|by intros [? ?]].
Qed.

Lemma get_elem_eq h l i q : el h l i = Some q → get_elem h (Addr l) (Z.of_nat i) = Ret q.
Proof.
  unfold el, get_elem. simpl. destruct (h !! l) as [n|]; [|done]. simpl. intros E.
  apply aget_lookup; [lia|]. by rewrite Nat2Z.id.
Qed.

Lemma set_elem_spec h l i q :
  (i < hgt h l)%nat →
  returns (set_elem h (Addr l) (Z.of_nat i) q) (λ h', same_shape h h' ∧
    ∀ l' j, el h' l' j = if decide (l' = l ∧ j = i) then Some q else el h l' j).
Proof.
  unfold hgt, set_elem. destruct (h !! l) as [n|] eqn:Hl; simpl; [|lia]. intros Hi.
  rewrite aset_ok by lia. simpl. rewrite Nat2Z.id. split.
  - unfold same_shape. apply map_eq. intros k. rewrite !lookup_fmap, lookup_insert.
    case_decide as E; [|done]. subst k. rewrite Hl. simpl. f_equal. unfold sig. simpl.
    by rewrite length_insert.
  - intros l' j. unfold el. rewrite lookup_insert.
    destruct (decide (l = l')) as [->|Hne].
    + rewrite Hl. simpl. destruct (decide (j = i)) as [->|].
      * rewrite decide_True by done. by apply list_lookup_insert_eq.
      * rewrite decide_False by naive_solver. by apply list_lookup_insert_ne.
    + rewrite decide_False by naive_solver. done.
Qed.

(** *** Levels of a list of nodes *)
Lemma nxt_ext h h' i ls : (∀ l, l ∈ ls → hgt h' l = hgt h l) → nxt h' i ls = nxt h i ls.
Proof.
  induction ls as [|l ls IH]; intros H; simpl; [done|].
  rewrite (H l), IH; [done| |left]. intros l' Hl'. apply H. by right.
Qed.

Lemma lastge_ext h h' i x ls :
  (∀ l, l ∈ ls → hgt h' l = hgt h l) → lastge h' i x ls = lastge h i x ls.
Proof.
  revert x. induction ls as [|l ls IH]; intros x H; simpl; [done|].
  rewrite (H l), IH; [done| |left]. intros l' Hl'. apply H. by right.
Qed.

Lemma nxt_app_low h i A B : (∀ l, l ∈ A → (hgt h l ≤ i)%nat) → nxt h i (A ++ B) = nxt h i B.
Proof.
  induction A as [|a A IH]; intros H; simpl; [done|].
  rewrite bool_decide_eq_false_2 by (specialize (H a ltac:(left)); lia).
  apply IH. intros l Hl. apply H. by right.
Qed.

Lemma lastge_app h i x A B : lastge h i x (A ++ B) = lastge h i (lastge h i x A) B.
Proof. revert x. induction A as [|a A IH]; intros x; simpl; auto. Qed.

Lemma lastge_low h i x A : (∀ l, l ∈ A → (hgt h l ≤ i)%nat) → lastge h i x A = x.
Proof.
  revert x. induction A as [|a A IH]; intros x H; simpl; [done|].
  rewrite bool_decide_eq_false_2 by (specialize (H a ltac:(left)); lia).
  apply IH. intros l Hl. apply H. by right.
Qed.

(** Either no node of the list has level [i], or there is a first one. *)
Lemma level_cases h i A :
  (∀ l, l ∈ A → (hgt h l ≤ i)%nat) ∨
  ∃ C y D, A = C ++ y :: D ∧ (∀ l, l ∈ C → (hgt h l ≤ i)%nat) ∧ (i < hgt h y)%nat.
Proof.
  induction A as [|a A IH]; [left; intros l; by rewrite elem_of_nil|].
  destruct (decide (i < hgt h a)%nat) as [Ha|Ha].
  - right. exists [], a, A. split_and!; [done|intros l; by rewrite elem_of_nil|done].
  - destruct IH as [IH|(C & y & D & -> & HC & Hy)].
    + left. intros l [->|Hl]%elem_of_cons; [lia|auto].
    + right. exists (a :: C), y, D. split_and!; [done| |done].
      intros l [->|Hl]%elem_of_cons; [lia|auto].
Qed.

Lemma nxt_first h i C y D :
  (∀ l, l ∈ C → (hgt h l ≤ i)%nat) → (i < hgt h y)%nat → nxt h i (C ++ y :: D) = Addr y.
Proof. intros HC Hy. rewrite nxt_app_low by done. simpl. by rewrite bool_decide_eq_true_2. Qed.

Lemma lastge_first h i x C y D :
  (i < hgt h y)%nat → lastge h i x (C ++ y :: D) = lastge h i y D.
Proof. intros Hy. rewrite lastge_app. simpl. by rewrite bool_decide_eq_true_2. Qed.

Lemma nxt_inv h i ls y :
  nxt h i ls = Addr y → (i < hgt h y)%nat ∧ y ∈ ls.
Proof.
  induction ls as [|l ls IH]; simpl; [done|]. case_bool_decide.
  - intros [= ->]. split; [done|left].
  - intros H'. destruct (IH H'). split; [done|by right].
Qed.

Lemma nxt_not_junk h i ls : nxt h i ls ≠ Junk.
Proof. induction ls; simpl; [done|]. by case_bool_decide. Qed.

(** [lastge] picks an element of the list that has the level, and the rest of
    the list after it does not have it. *)
Lemma lastge_split h i x A :
  (i < hgt h x)%nat →
  ∃ C D, x :: A = C ++ lastge h i x A :: D ∧ (i < hgt h (lastge h i x A))%nat ∧
         (∀ l, l ∈ D → (hgt h l ≤ i)%nat).
Proof.
  revert x. induction A as [|a A IH]; intros x Hx; simpl.
  - exists [], []. split_and!; [done|done|intros l; by rewrite elem_of_nil].
  - case_bool_decide as Ha.
    + destruct (IH a Ha) as (C & D & E & H1 & H2). exists (x :: C), D. by rewrite E.
    + destruct (level_cases h i A) as [Hlow|(C & y & D & -> & HC & Hy)].
      * exists [], (a :: A). rewrite lastge_low by done. split_and!; [done|done|].
        intros l [->|Hl]%elem_of_cons; [lia|auto].
      * rewrite lastge_first by done. destruct (IH x Hx) as (C' & D' & E & H1 & H2).
        rewrite lastge_first in E, H1 by done.
        destruct C' as [|c C'].
        -- exfalso. simpl in E. injection E as E1 E2. rewrite <-E2 in H2.
           specialize (H2 y ltac:(apply elem_of_app; right; left)). lia.
        -- simpl in E. injection E as -> E. exists (c :: a :: C'), D'. simpl. by rewrite E.
Qed.
End spec.

Section search.
Context {V : Type}.
Implicit Types (h : gmap loc (node V)) (l x y : loc) (L A B C : list loc).

Lemma deref_eq h l : (0 < hgt h l)%nat →
  ∃ n, h !! l = Some n ∧ deref h (Addr l) = Ret n ∧ priority n = prio h l.
Proof.
  intros Hh. destruct (hgt_some h l Hh) as [n Hn]. exists n.
  unfold prio. simpl. by rewrite Hn.
Qed.

Lemma wf_pos h head lvl L x : wf h head lvl L → x ∈ head :: L → (0 < hgt h x)%nat.
Proof.
  intros Hwf [->|Hx]%elem_of_cons.
  - rewrite (wf_head _ _ _ _ Hwf). unfold MAX_SK_LEVEL. lia.
  - apply (wf_hgt _ _ _ _ Hwf) in Hx. lia.
Qed.

Lemma wf_size h head lvl L : wf h head lvl L → (length (head :: L) ≤ size h)%nat.
Proof.
  intros Hwf. pose proof (wf_nodup _ _ _ _ Hwf) as Hnd.
  rewrite <-size_dom, <-(size_list_to_set (C:=gset loc) (head :: L)) by done.
  apply subseteq_size. intros x Hx%elem_of_list_to_set.
  apply elem_of_dom, hgt_some. by eapply wf_pos.
Qed.

(** One turn of [walk]: no node of level [i] up to the bound, or a step. *)
Lemma walk_loop_spec (cmp : Z → Z → bool) h head lvl L p i A x B1 B2 fuel :
  wf h head lvl L → head :: L = A ++ x :: B1 ++ B2 → (i < hgt h x)%nat →
  (∀ l, l ∈ B1 → cmp (prio h l) p = true) → (∀ l, l ∈ B2 → cmp (prio h l) p = false) →
  (length B1 < fuel)%nat →
  loop fuel (λ phead,
    let! pnode := get_elem h phead (Z.of_nat i) in
    let! b := truth pnode in
    if b : bool then
      let! n := deref h pnode in
      if cmp (priority n) p then Ret (inl pnode) else Ret (inr (phead, pnode))
    else Ret (inr (phead, pnode))) (Addr x) = Ret (Addr (lastge h i x B1), nxt h i B2).
Proof.
  intros Hwf. revert A x fuel. remember (length B1) as m eqn:Em. revert B1 Em.
  induction m as [m IH] using lt_wf_ind.
  intros B1 -> A x fuel E Hx H1 H2 Hf. destruct fuel as [|fuel]; [lia|]. rewrite loop_S.
  set (rest := loop fuel _).
  rewrite (get_elem_eq _ _ _ _ (wf_next _ _ _ _ Hwf _ _ _ _ E Hx)). cbn [mbind outcome_bind].
  destruct (level_cases h i B1) as [Hlow|(C & y & D & -> & HC & Hy)].
  - rewrite nxt_app_low, lastge_low by done.
    destruct (nxt h i B2) as [|y|] eqn:En; [done| |by apply nxt_not_junk in En].
    apply nxt_inv in En as [Hy HyB]. cbn [truth mbind outcome_bind].
    destruct (deref_eq h y) as (n & _ & -> & Hp); [lia|]. cbn [mbind outcome_bind].
    by rewrite Hp, H2.
  - rewrite <-app_assoc. simpl. rewrite nxt_first by done. cbn [truth mbind outcome_bind].
    destruct (deref_eq h y) as (n & _ & -> & Hp); [lia|]. cbn [mbind outcome_bind].
    rewrite Hp, H1 by (apply elem_of_app; right; left). cbn [mbind outcome_bind].
    rewrite lastge_first by done. subst rest.
    eapply (IH (length D)); [rewrite length_app; simpl; lia|done| |done| |done|].
    + rewrite E. rewrite <-app_assoc. simpl. rewrite (app_comm_cons C), app_assoc. done.
    + intros l Hl. apply H1, elem_of_app. right. by right.
    + rewrite length_app in Hf. simpl in Hf. lia.
Qed.

(** Starting from any node that has the level leads to the same last one. *)
Lemma lastge_from h i head L1 A x D :
  head :: L1 = A ++ x :: D → (i < hgt h x)%nat → lastge h i x D = lastge h i head L1.
Proof.
  intros E Hx. destruct A as [|a A]; simpl in E; injection E as E0 E.
  - by subst.
  - by rewrite E, lastge_first.
Qed.

Section bounded.
Context (h : gmap loc (node V)) (head : loc) (lvl : nat) (L1 L2 : list loc).
Context (cmp : Z → Z → bool) (p : Z).
Hypothesis (Hwf : wf h head lvl (L1 ++ L2)).
Hypothesis (H1 : ∀ l, l ∈ L1 → cmp (prio h l) p = true).
Hypothesis (H2 : ∀ l, l ∈ L2 → cmp (prio h l) p = false).

(** The predecessor of the bound at level [i]. *)
Abbreviation pred i := (lastge h i head L1).

Lemma head_level i : (i < MAX_SK_LEVEL)%nat → (i < hgt h head)%nat.
Proof. by rewrite (wf_head _ _ _ _ Hwf). Qed.

Lemma pred_split i :
  (i < MAX_SK_LEVEL)%nat →
  ∃ A D, head :: L1 = A ++ pred i :: D ∧ (i < hgt h (pred i))%nat ∧
         (∀ l, l ∈ D → (hgt h l ≤ i)%nat).
Proof. intros Hi. by apply lastge_split, head_level. Qed.

Lemma pred_next i : (i < MAX_SK_LEVEL)%nat → el h (pred i) i = Some (nxt h i L2).
Proof.
  intros Hi. destruct (pred_split i Hi) as (A & D & E & Hx & Hlow).
  rewrite (wf_next _ _ _ _ Hwf A (pred i) (D ++ L2) i); [by rewrite nxt_app_low| |done].
  rewrite app_comm_cons, E, <-app_assoc. done.
Qed.

Lemma walk_spec i A x D :
  head :: L1 = A ++ x :: D → (i < hgt h x)%nat →
  walk cmp h p (Z.of_nat i) (Addr x) = Ret (Addr (pred i), nxt h i L2).
Proof.
  intros E Hx. rewrite <-(lastge_from h i head L1 A x D) by done. unfold walk.
  eapply (walk_loop_spec cmp h head lvl (L1 ++ L2)); [done| |done| |done|].
  - rewrite app_comm_cons, E, <-app_assoc. done.
  - intros l Hl. apply H1. destruct A; simpl in E; injection E as _ E; [by subst|].
    rewrite E. apply elem_of_app. right. by right.
  - pose proof (wf_size _ _ _ _ Hwf) as Hs. apply (f_equal length) in E.
    simpl in E, Hs. rewrite length_app in E, Hs. simpl in E. lia.
Qed.

Lemma descend_spec k A x D update :
  (k < MAX_SK_LEVEL)%nat → head :: L1 = A ++ x :: D → (k < hgt h x)%nat →
  length update = MAX_SK_LEVEL →
  returns (descend cmp h p k (Addr x) update) (λ r,
    r.1 = nxt h 0 L2 ∧ length r.2 = MAX_SK_LEVEL ∧
    (∀ i, (i ≤ k)%nat → r.2 !! i = Some (Addr (pred i))) ∧
    (∀ i, (k < i)%nat → r.2 !! i = update !! i)).
Proof.
  revert A x D update. induction k as [|k IH]; intros A x D update Hk E Hx Hu.
  - simpl. rewrite (walk_spec 0 A x D) by (done || lia). cbn [mbind outcome_bind fst snd].
    rewrite aset_ok by (rewrite Hu; unfold MAX_SK_LEVEL; lia). cbn [mbind outcome_bind].
    cbn [returns fst snd]. split_and!; [done|by rewrite length_insert| |].
    + intros i Hi. replace i with O by lia. apply list_lookup_insert_eq. rewrite Hu. unfold MAX_SK_LEVEL. lia.
    + intros i Hi. apply list_lookup_insert_ne. lia.
  - cbn [descend]. rewrite (walk_spec (S k) A x D) by done. cbn [mbind outcome_bind fst snd].
    rewrite aset_ok by (rewrite Hu; unfold MAX_SK_LEVEL in *; lia). cbn [mbind outcome_bind].
    destruct (pred_split (S k) Hk) as (A' & D' & E' & Hx' & _).
    eapply returns_mono; [apply (IH A' (pred (S k)) D'); [lia|done|lia|by rewrite length_insert]|].
    intros r (R1 & R2 & R3 & R4). rewrite Nat2Z.id in R4. split_and!; [done|done| |].
    + intros i Hi. destruct (decide (i = S k)) as [->|]; [|apply R3; lia].
      rewrite R4 by lia. apply list_lookup_insert_eq. rewrite Hu. lia.
    + intros i Hi. rewrite R4 by lia. apply list_lookup_insert_ne. lia.
Qed.

Lemma descend_lookup_spec k A x D :
  (k < MAX_SK_LEVEL)%nat → head :: L1 = A ++ x :: D → (k < hgt h x)%nat →
  descend_lookup cmp h p k (Addr x) = Ret (nxt h 0 L2).
Proof.
  revert A x D. induction k as [|k IH]; intros A x D Hk E Hx; cbn [descend_lookup].
  - rewrite (walk_spec 0 A x D) by (done || lia). done.
  - rewrite (walk_spec (S k) A x D) by done. cbn [mbind outcome_bind fst snd].
    destruct (pred_split (S k) Hk) as (A' & D' & E' & Hx' & _).
    apply (IH A' (pred (S k)) D'); [lia|done|lia].
Qed.

(** The complete descent of the code, from the head at the current level. *)
Lemma descend_head update :
  length update = MAX_SK_LEVEL →
  returns (descend cmp h p lvl (Addr head) update) (λ r,
    r.1 = nxt h 0 L2 ∧ length r.2 = MAX_SK_LEVEL ∧
    (∀ i, (i ≤ lvl)%nat → r.2 !! i = Some (Addr (pred i))) ∧
    (∀ i, (lvl < i)%nat → r.2 !! i = update !! i)).
Proof.
  intros Hu. apply (descend_spec lvl [] head L1); [by apply wf_lvl in Hwf|done| |done].
  apply head_level. by apply wf_lvl in Hwf.
Qed.

Lemma descend_lookup_head : descend_lookup cmp h p lvl (Addr head) = Ret (nxt h 0 L2).
Proof.
  apply (descend_lookup_spec lvl [] head L1); [by apply wf_lvl in Hwf|done|].
  apply head_level. by apply wf_lvl in Hwf.
Qed.
End bounded.

(** *** The scan among equal keys *)
Definition acks h l : Z * Z := from_option (λ n, (ack_hash_1 n, ack_hash_2 n)) (0, 0) (h !! l).

(** The first node of the leading run of nodes of key [p] whose acks agree. *)
Fixpoint find_match h (p a1 a2 : Z) (ls : list loc) : option loc :=
  match ls with
  | [] => None
  | l :: ls =>
      if bool_decide (prio h l = p) then
        if bool_decide (acks h l = (a1, a2)) then Some l else find_match h p a1 a2 ls
      else None
  end.

Definition ptr_of (o : option loc) : ptr := from_option Addr Null o.

Lemma scan_loop_spec h head lvl L A p a1 a2 ls fuel :
  wf h head lvl L → head :: L = A ++ ls → A ≠ [] → (length ls < fuel)%nat →
  loop fuel (λ pnode,
    let! b := truth pnode in
    if b : bool then
      let! n := deref h pnode in
      if p =? priority n then
        if (a1 =? ack_hash_1 n) && (a2 =? ack_hash_2 n) then Ret (inr pnode)
        else let! next := get_elem h pnode 0 in Ret (inl next)
      else Ret (inr Null)
    else Ret (inr Null)) (nxt h 0 ls) = Ret (ptr_of (find_match h p a1 a2 ls)).
Proof.
  intros Hwf. revert A fuel. induction ls as [|l ls IH]; intros A fuel E HA Hf;
    (destruct fuel as [|fuel]; [simpl in Hf; lia|]); rewrite loop_S; [done|].
  assert (l ∈ L) as Hl.
  { destruct A as [|a A]; [done|]. simpl in E. injection E as _ ->.
    apply elem_of_app. right. left. }
  assert (0 < hgt h l)%nat as Hpos by (eapply wf_pos; [done|by right]).
  set (rest := loop fuel _). simpl nxt. rewrite bool_decide_eq_true_2 by done.
  cbn [truth mbind outcome_bind].
  destruct (deref_eq h l Hpos) as (n & Hn & -> & Hp). cbn [mbind outcome_bind find_match].
  rewrite Hp. destruct (Z.eqb_spec p (prio h l)) as [->|]; cycle 1.
  { rewrite bool_decide_eq_false_2 by congruence. done. }
  rewrite bool_decide_eq_true_2 by done. unfold acks. rewrite Hn. simpl from_option.
  destruct (Z.eqb_spec a1 (ack_hash_1 n)) as [->|]; simpl andb; cycle 1.
  { rewrite bool_decide_eq_false_2 by congruence. change 0 with (Z.of_nat 0).
    rewrite (get_elem_eq _ _ _ _ (wf_next _ _ _ _ Hwf _ _ _ _ E Hpos)). simpl.
    apply (IH (A ++ [l])); [by rewrite <-app_assoc|by destruct A|simpl in Hf; lia]. }
  destruct (Z.eqb_spec a2 (ack_hash_2 n)) as [->|]; cycle 1.
  { rewrite bool_decide_eq_false_2 by congruence. change 0 with (Z.of_nat 0).
    rewrite (get_elem_eq _ _ _ _ (wf_next _ _ _ _ Hwf _ _ _ _ E Hpos)). simpl.
    apply (IH (A ++ [l])); [by rewrite <-app_assoc|by destruct A|simpl in Hf; lia]. }
  by rewrite bool_decide_eq_true_2.
Qed.

Lemma scan_spec h head lvl L A p a1 a2 ls :
  wf h head lvl L → head :: L = A ++ ls → A ≠ [] →
  scan h p a1 a2 (nxt h 0 ls) = Ret (ptr_of (find_match h p a1 a2 ls)).
Proof.
  intros Hwf E HA. unfold scan. eapply scan_loop_spec; [done|done|done|].
  apply wf_size in Hwf. rewrite E, length_app in Hwf. lia.
Qed.
End search.

Lemma app_cons_cases {T} (P Q M N : list T) (y : T) :
  P ++ Q = M ++ y :: N →
  (∃ N', P = M ++ y :: N' ∧ N = N' ++ Q) ∨ (∃ M', M = P ++ M' ∧ Q = M' ++ y :: N).
Proof.
  intros [(k & E1 & E2)|(k & E1 & E2)]%app_eq_inv; [|right; eauto].
  destruct k as [|z k]; simpl in E2.
  - right. exists []. rewrite app_nil_r in *. by rewrite E1.
  - injection E2 as <- E2. left. eauto.
Qed.

Section insertion.
Context {V : Type}.
Implicit Types (l x y : loc) (L A B C D : list loc).

Context (h : gmap loc (node V)) (head : loc) (lvl : nat) (L1 L2 : list loc).
Context (x : loc) (p a1 a2 : Z) (v : V) (k : nat).
Hypothesis (Hwf : wf h head lvl (L1 ++ L2)).
Hypothesis (Hfresh : h !! x = None).
Hypothesis (Hk : (k ≤ S lvl)%nat) (Hkm : (k < MAX_SK_LEVEL)%nat).

Abbreviation pred i := (lastge h i head L1).

(** The heap right after the allocation of the new node. *)
Definition alloc_heap : gmap loc (node V) := <[x := Node p a1 a2 v (replicate (S k) Junk)]> h.

Lemma fresh_not_in l : l ∈ head :: L1 ++ L2 → l ≠ x.
Proof.
  intros Hl ->. apply (wf_pos _ _ _ _ _ Hwf) in Hl. apply hgt_some in Hl as [? Hl]. congruence.
Qed.

Lemma pred_in i : pred i ∈ head :: L1.
Proof.
  assert (∀ A y, lastge h i y A ∈ y :: A) as G.
  { induction A as [|a A IH]; intros y; simpl; [left|].
    destruct (bool_decide _); specialize (IH a) as Ha; specialize (IH y) as Hy; set_solver. }
  apply G.
Qed.

Lemma pred_not_fresh i : pred i ≠ x.
Proof. apply fresh_not_in. pose proof (pred_in i). set_solver. Qed.

Lemma pred_top : pred (S lvl) = head.
Proof.
  apply lastge_low. intros l Hl. apply (wf_hgt _ _ _ _ Hwf). apply elem_of_app. by left.
Qed.

Lemma alloc_hgt l : hgt alloc_heap l = if decide (l = x) then S k else hgt h l.
Proof.
  unfold hgt, alloc_heap. rewrite lookup_insert. case_decide as E.
  - subst. rewrite decide_True by done. simpl. by rewrite length_replicate.
  - by rewrite decide_False.
Qed.

Lemma alloc_el l i : l ≠ x → el alloc_heap l i = el h l i.
Proof. intros Hl. unfold el, alloc_heap. by rewrite lookup_insert_ne. Qed.

(** One turn of [link], at level [j]. *)
Lemma link_step j h' :
  (j ≤ k)%nat → same_shape alloc_heap h' → el h' (pred j) j = Some (nxt h j L2) →
  returns (let! h1 := set_elem h' (Addr x) (Z.of_nat j) (nxt h j L2) in
           set_elem h1 (Addr (pred j)) (Z.of_nat j) (Addr x)) (λ h'',
    same_shape alloc_heap h'' ∧
    ∀ l i, el h'' l i =
      if decide (i = j) then
        if decide (l = pred j) then Some (Addr x)
        else if decide (l = x) then Some (nxt h j L2) else el h' l i
      else el h' l i).
Proof.
  intros Hj Hs He. pose proof (pred_not_fresh j) as Hne.
  assert (hgt h' x = S k) as Hx
    by (rewrite (same_shape_hgt _ _ _ Hs), alloc_hgt; by rewrite decide_True).
  apply returns_bind. eapply returns_mono; [apply set_elem_spec; lia|].
  intros h1 [Hs1 He1]. eapply returns_mono; [apply set_elem_spec|].
  - rewrite (same_shape_hgt _ _ _ Hs1). apply el_hgt. by rewrite He.
  - intros h2 [Hs2 He2]. split; [unfold same_shape in *; congruence|]. intros l i.
    rewrite He2, He1. repeat case_decide; naive_solver.
Qed.

Lemma link_spec update j h' :
  (j ≤ k)%nat → (∀ i, (i ≤ j)%nat → update !! i = Some (Addr (pred i))) →
  same_shape alloc_heap h' → (∀ i, (i ≤ j)%nat → el h' (pred i) i = Some (nxt h i L2)) →
  returns (link h' update (Addr x) j) (λ h'',
    same_shape alloc_heap h'' ∧
    ∀ l i, el h'' l i =
      if decide (i ≤ j)%nat then
        if decide (l = pred i) then Some (Addr x)
        else if decide (l = x) then Some (nxt h i L2) else el h' l i
      else el h' l i).
Proof.
  revert h'. induction j as [|j IH]; intros h' Hj Hu Hs He; cbn [link].
  - pose proof (link_step 0 h' Hj Hs (He O ltac:(lia))) as L.
    rewrite (aget_lookup _ _ (Addr (pred 0%nat))) by (lia || (rewrite Nat2Z.id; apply Hu; lia)).
    cbn [mbind outcome_bind]. rewrite (get_elem_eq _ _ _ _ (He 0%nat ltac:(lia))).
    cbn [mbind outcome_bind].
    destruct (set_elem h' _ _ _) as [h1| |]; [|done..]. cbn [mbind outcome_bind] in *.
    destruct (set_elem h1 _ _ _) as [h2| |]; [|done..]. cbn [mbind outcome_bind returns] in *.
    destruct L as [Hs2 He2]. split; [done|]. intros l i. rewrite He2.
    repeat case_decide; subst; try lia; done.
  - pose proof (link_step (S j) h' Hj Hs (He (S j) ltac:(lia))) as L.
    rewrite (aget_lookup _ _ (Addr (pred (S j)))) by (lia || (rewrite Nat2Z.id; apply Hu; lia)).
    cbn [mbind outcome_bind]. rewrite (get_elem_eq _ _ _ _ (He (S j) ltac:(lia))).
    cbn [mbind outcome_bind].
    destruct (set_elem h' _ _ _) as [h1| |]; [|done..]. cbn [mbind outcome_bind] in *.
    destruct (set_elem h1 _ _ _) as [h2| |]; [|done..]. cbn [mbind outcome_bind returns] in *.
    destruct L as [Hs2 He2]. eapply returns_mono; [apply IH; [lia|intros; apply Hu; lia|done|]|].
    + intros i Hi. rewrite He2, decide_False by lia. apply He. lia.
    + intros h3 [Hs3 He3]. split; [done|]. intros l i. rewrite He3, !He2.
      repeat case_decide; subst; try lia; done.
Qed.

(** The heap after linking: the shape of [alloc_heap], and the pointers that
    [link] wrote. *)
Context (h'' : gmap loc (node V)).
Hypothesis (Hs : same_shape alloc_heap h'').
Hypothesis (He : ∀ l i, el h'' l i =
  if decide (i ≤ k)%nat then
    if decide (l = pred i) then Some (Addr x)
    else if decide (l = x) then Some (nxt h i L2) else el alloc_heap l i
  else el alloc_heap l i).

Lemma new_hgt l : hgt h'' l = if decide (l = x) then S k else hgt h l.
Proof. rewrite <-alloc_hgt. by apply same_shape_hgt. Qed.

Lemma old_hgt l : l ∈ head :: L1 ++ L2 → hgt h'' l = hgt h l.
Proof. intros Hl. rewrite new_hgt, decide_False; [done|]. by apply fresh_not_in. Qed.

Lemma old_nxt i C : (∀ l, l ∈ C → l ∈ head :: L1 ++ L2) → nxt h'' i C = nxt h i C.
Proof. intros HC. apply nxt_ext. intros l Hl. by apply old_hgt, HC. Qed.

(** The links of the nodes before the new one. *)
Lemma insert_next_before A y B i :
  head :: L1 = A ++ y :: B → (i < hgt h y)%nat →
  el h'' y i = Some (nxt h'' i (B ++ x :: L2)).
Proof.
  intros E Hy.
  assert (∀ l, l ∈ A ++ y :: B → l ∈ head :: L1 ++ L2) as Hin by (rewrite <-E; set_solver).
  assert (y ≠ x) as Hyx by (apply fresh_not_in, Hin; set_solver).
  assert (el h y i = Some (nxt h i (B ++ L2))) as Hel.
  { apply (wf_next _ _ _ _ Hwf A); [|done]. by rewrite app_comm_cons, E, <-app_assoc. }
  pose proof (lastge_from h i head L1 A y B E Hy) as Hpred. rewrite He.
  destruct (level_cases h i B) as [Hlow|(C & z & D & -> & HC & Hz)].
  - rewrite lastge_low in Hpred by done. rewrite nxt_app_low in Hel by done.
    rewrite nxt_app_low by (intros l Hl; rewrite old_hgt; [auto|apply Hin; set_solver]).
    cbn [nxt]. rewrite new_hgt, (decide_True (P:=x = x)) by done. destruct (decide (i ≤ k)%nat).
    + rewrite decide_True by done. by rewrite bool_decide_eq_true_2 by lia.
    + rewrite bool_decide_eq_false_2, alloc_el, Hel by (done || lia). f_equal.
      symmetry. apply old_nxt. set_solver.
  - assert (y ≠ pred i) as Hyp.
    { rewrite <-Hpred, lastge_first by done.
      destruct (lastge_split h i z D Hz) as (C' & D' & E' & _). intros Heq.
      pose proof (wf_nodup _ _ _ _ Hwf) as Hnd.
      rewrite app_comm_cons, E, E', <-Heq in Hnd.
      apply NoDup_app in Hnd as [Hnd _]. apply NoDup_app in Hnd as (_ & _ & Hnd).
      apply NoDup_cons in Hnd as [Hnot _]. set_solver. }
    rewrite (decide_False (P:=y = pred i)), (decide_False (P:=y = x)), alloc_el, Hel by done.
    rewrite <-!app_assoc. simpl. rewrite !nxt_first; [by case_decide|..|done|done].
    + intros l Hl. rewrite old_hgt; [auto|]. apply Hin. set_solver.
    + rewrite old_hgt; [done|]. apply Hin. set_solver.
Qed.

(** The links of the new node. *)
Lemma insert_next_new i : (i < S k)%nat → el h'' x i = Some (nxt h'' i L2).
Proof.
  intros Hi. rewrite He, decide_True by lia.
  rewrite decide_False by (intros Heq; by apply (pred_not_fresh i)).
  rewrite decide_True by done. f_equal. symmetry. apply old_nxt. set_solver.
Qed.

(** The links of the nodes after it. *)
Lemma insert_next_after A y B i :
  L2 = A ++ y :: B → (i < hgt h y)%nat → el h'' y i = Some (nxt h'' i B).
Proof.
  intros E Hy.
  assert (y ≠ x) as Hyx by (apply fresh_not_in; rewrite E; set_solver).
  assert (y ≠ pred i) as Hyp.
  { intros Heq. pose proof (pred_in i) as Hp. pose proof (wf_nodup _ _ _ _ Hwf) as Hnd.
    rewrite app_comm_cons in Hnd. apply NoDup_app in Hnd as (_ & Hdis & _).
    apply (Hdis y); [by rewrite Heq|rewrite E; set_solver]. }
  rewrite He, (decide_False (P:=y = pred i)), (decide_False (P:=y = x)), alloc_el by done.
  rewrite (wf_next _ _ _ _ Hwf (head :: L1 ++ A) y B i); [|rewrite E; simpl; by rewrite <-app_assoc|done].
  rewrite old_nxt by (rewrite E; set_solver). by case_decide.
Qed.

Lemma insert_next A y B i :
  head :: L1 ++ x :: L2 = A ++ y :: B → (i < hgt h'' y)%nat → el h'' y i = Some (nxt h'' i B).
Proof.
  intros E Hy. rewrite app_comm_cons in E.
  destruct (app_cons_cases _ _ _ _ _ E) as [(B' & E1 & ->)|([|z A'] & -> & E2)].
  - apply (insert_next_before A); [done|]. rewrite <-old_hgt; [done|].
    assert (y ∈ head :: L1) by (rewrite E1; set_solver). set_solver.
  - simpl in E2. injection E2 as <- <-. apply insert_next_new.
    by rewrite new_hgt, decide_True in Hy.
  - simpl in E2. injection E2 as <- E2. apply (insert_next_after A'); [done|].
    rewrite <-old_hgt; [done|]. rewrite E2. set_solver.
Qed.

(** The insertion keeps the skip list well formed. *)
Lemma insert_wf :
  StronglySorted Z.le ((prio h <$> L1) ++ p :: (prio h <$> L2)) →
  wf h'' head (Nat.max lvl k) (L1 ++ x :: L2).
Proof.
  intros Hsort.
  assert (∀ l, l ∈ head :: L1 ++ L2 → prio h'' l = prio h l) as Hprio.
  { intros l Hl. apply fresh_not_in in Hl as Hne.
    destruct (same_shape_views _ _ l Hs) as [_ ->]. unfold prio, alloc_heap.
    by rewrite lookup_insert_ne. }
  assert (prio h'' x = p) as Hpx.
  { destruct (same_shape_views _ _ x Hs) as [_ ->]. unfold prio, alloc_heap.
    by rewrite lookup_insert_eq. }
  split.
  - apply (NoDup_Permutation_proper _ (x :: head :: L1 ++ L2)).
    { rewrite <-(Permutation_middle L1 L2 x). apply perm_swap. }
    apply NoDup_cons. split; [|by apply (wf_nodup _ _ _ _ Hwf)].
    intros Hx. by apply (fresh_not_in x Hx).
  - rewrite old_hgt by left. apply (wf_head _ _ _ _ Hwf).
  - intros l Hl. destruct (decide (l = x)) as [->|Hne].
    + rewrite new_hgt, decide_True by done. lia.
    + assert (l ∈ L1 ++ L2) as Hl' by set_solver.
      rewrite old_hgt by set_solver. apply (wf_hgt _ _ _ _ Hwf) in Hl'. lia.
  - pose proof (wf_lvl _ _ _ _ Hwf). lia.
  - intros A y B i. apply insert_next.
  - rewrite fmap_app, fmap_cons, Hpx.
    rewrite (list_fmap_ext _ (prio h) L1), (list_fmap_ext _ (prio h) L2); [done|..];
      intros i l Hl%list_elem_of_lookup_2; apply Hprio; set_solver.
Qed.
End insertion.

Section deletion.
Context {V : Type}.
Implicit Types (l x y : loc) (L A B C D : list loc).

Context (h : gmap loc (node V)) (head : loc) (lvl : nat) (L1 L2 : list loc) (x : loc).
Hypothesis (Hwf : wf h head lvl (L1 ++ x :: L2)).

Abbreviation pred i := (lastge h i head L1).

Lemma x_not_elsewhere l : l ∈ head :: L1 ++ L2 → l ≠ x.
Proof.
  intros Hl ->. pose proof (wf_nodup _ _ _ _ Hwf) as Hnd.
  rewrite <-(Permutation_middle L1 L2 x), (perm_swap x head) in Hnd.
  by apply NoDup_cons in Hnd as [? _].
Qed.

Lemma del_pred_next i :
  (i < MAX_SK_LEVEL)%nat →
  el h (pred i) i = Some (nxt h i (x :: L2)) ∧ (i < hgt h (pred i))%nat ∧ pred i ∈ head :: L1.
Proof.
  intros Hi. destruct (lastge_split h i head L1) as (A & D & E & Hx & Hlow).
  { by rewrite (wf_head _ _ _ _ Hwf). }
  split_and!; [|done|rewrite E; set_solver].
  rewrite (wf_next _ _ _ _ Hwf A (pred i) (D ++ x :: L2) i); [by rewrite nxt_app_low| |done].
  rewrite app_comm_cons, E, <-app_assoc. done.
Qed.

Definition unlinked (s : nat) (h' : gmap loc (node V)) : Prop :=
  same_shape h h' ∧ ∀ l i, el h' l i =
    if decide (i < s)%nat then
      if decide (l = pred i) then Some (nxt h i L2) else el h l i
    else el h l i.

Lemma unlinked_step s h' :
  unlinked s h' → (s < hgt h x)%nat →
  returns (set_elem h' (Addr (pred s)) (Z.of_nat s) (nxt h s L2)) (unlinked (S s)).
Proof.
  intros [Hs He] Hlt.
  assert (s < MAX_SK_LEVEL)%nat as Hsm.
  { pose proof (wf_hgt _ _ _ _ Hwf x) as Hh. pose proof (wf_lvl _ _ _ _ Hwf).
    assert (x ∈ L1 ++ x :: L2) by set_solver. specialize (Hh ltac:(done)). lia. }
  destruct (del_pred_next s Hsm) as (_ & Hp & _).
  eapply returns_mono; [apply set_elem_spec; by rewrite (same_shape_hgt _ _ _ Hs)|].
  intros h1 [Hs1 He1]. split; [unfold same_shape in *; congruence|]. intros l i.
  rewrite He1, He. repeat case_decide; subst; try lia; try done; try naive_solver.
  replace i with s in * by lia. naive_solver.
Qed.

Lemma unlink_spec update :
  (∀ i, (i ≤ lvl)%nat → update !! i = Some (Addr (pred i))) →
  returns (unlink h update (Addr x) (Z.of_nat lvl)) (unlinked (hgt h x)).
Proof.
  intros Hu. assert (x ∈ L1 ++ x :: L2) as Hxin by set_solver.
  pose proof (wf_hgt _ _ _ _ Hwf x Hxin) as Hxh. pose proof (wf_lvl _ _ _ _ Hwf) as Hlvl.
  eapply (loop_returns
    (λ st : Z * _, ∃ s, st.1 = Z.of_nat s ∧ (s ≤ hgt h x)%nat ∧ unlinked s st.2)
    (λ st : Z * _, (S lvl - Z.to_nat st.1)%nat)).
  - intros [s' h'] (s & Es & Hle & Hun). cbn [fst snd] in *. subst s'.
    destruct (Z.leb_spec (Z.of_nat s) (Z.of_nat lvl)) as [Hsl|Hsl]; cycle 1.
    { simpl. by replace (hgt h x) with s by lia. }
    rewrite (aget_lookup _ _ (Addr (pred s))) by (lia || (rewrite Nat2Z.id; apply Hu; lia)).
    cbn [mbind outcome_bind]. destruct (del_pred_next s) as (Hpe & Hph & Hpin); [lia|].
    assert (el h' (pred s) s = Some (nxt h s (x :: L2))) as Hpe'.
    { destruct Hun as [_ He]. by rewrite He, decide_False by lia. }
    rewrite (get_elem_eq _ _ _ _ Hpe'). cbn [mbind outcome_bind nxt].
    destruct (decide (s < hgt h x)%nat) as [Hlt|Hge].
    + rewrite (bool_decide_eq_true_2 (s < hgt h x)%nat), bool_decide_eq_true_2 by done.
      assert (el h' x s = Some (nxt h s L2)) as Hxe.
      { destruct Hun as [_ He]. rewrite He, decide_False by lia.
        apply (wf_next _ _ _ _ Hwf (head :: L1)); done. }
      rewrite (get_elem_eq _ _ _ _ Hxe). cbn [mbind outcome_bind].
      apply returns_bind. eapply returns_mono; [by apply unlinked_step|].
      intros h1 Hun1. simpl. split; [|lia]. exists (S s). split_and!; [lia|lia|done].
    + rewrite (bool_decide_eq_false_2 (s < hgt h x)%nat) by done.
      rewrite bool_decide_eq_false_2; [simpl; by replace (hgt h x) with s by lia|].
      intros [_ Hin]%nxt_inv. by apply (x_not_elsewhere x); [set_solver|].
  - exists O. split_and!; [done|lia|]. split; [done|]. intros l i. by rewrite decide_False by lia.
  - simpl. rewrite Nat2Z.id. lia.
Qed.

(** *** The heap after unlinking and releasing [x] *)
Context (h' : gmap loc (node V)).
Hypothesis (Hun : unlinked (hgt h x) h').

Lemma del_hgt l : l ≠ x → hgt (delete x h') l = hgt h l.
Proof.
  intros Hl. rewrite <-(same_shape_hgt _ _ l (proj1 Hun)). unfold hgt.
  by rewrite lookup_delete_ne.
Qed.

Lemma del_nxt i C : (∀ l, l ∈ C → l ∈ head :: L1 ++ L2) → nxt (delete x h') i C = nxt h i C.
Proof. intros HC. apply nxt_ext. intros l Hl. by apply del_hgt, x_not_elsewhere, HC. Qed.

Lemma del_el l i : l ≠ x → el (delete x h') l i =
    if decide (i < hgt h x)%nat then
      if decide (l = pred i) then Some (nxt h i L2) else el h l i
    else el h l i.
Proof.
  intros Hl. rewrite <-(proj2 Hun). unfold el. by rewrite lookup_delete_ne.
Qed.

Lemma del_next_before A y B i :
  head :: L1 = A ++ y :: B → (i < hgt h y)%nat →
  el (delete x h') y i = Some (nxt (delete x h') i (B ++ L2)).
Proof.
  intros E Hy.
  assert (∀ l, l ∈ A ++ y :: B → l ∈ head :: L1 ++ L2) as Hin by (rewrite <-E; set_solver).
  assert (y ≠ x) as Hyx by (apply x_not_elsewhere, Hin; set_solver).
  assert (el h y i = Some (nxt h i (B ++ x :: L2))) as Hel.
  { apply (wf_next _ _ _ _ Hwf A); [|done]. by rewrite app_comm_cons, E, <-app_assoc. }
  pose proof (lastge_from h i head L1 A y B E Hy) as Hpred.
  rewrite del_el, del_nxt by (done || (intros l; specialize (Hin l); set_solver)).
  destruct (level_cases h i B) as [Hlow|(C & z & D & -> & HC & Hz)].
  - rewrite lastge_low in Hpred by done. rewrite nxt_app_low by done.
    rewrite nxt_app_low in Hel by done. cbn [nxt] in Hel.
    destruct (decide (i < hgt h x)%nat).
    + by rewrite decide_True.
    + by rewrite bool_decide_eq_false_2 in Hel.
  - assert (y ≠ pred i) as Hyp.
    { rewrite <-Hpred, lastge_first by done.
      destruct (lastge_split h i z D Hz) as (C' & D' & E' & _). intros Heq.
      pose proof (wf_nodup _ _ _ _ Hwf) as Hnd.
      rewrite app_comm_cons, E, E', <-Heq in Hnd.
      apply NoDup_app in Hnd as [Hnd _]. apply NoDup_app in Hnd as (_ & _ & Hnd).
      apply NoDup_cons in Hnd as [Hnot _]. set_solver. }
    rewrite (decide_False (P:=y = pred i)), Hel by done.
    rewrite <-!app_assoc. simpl. rewrite !nxt_first by done. by case_decide.
Qed.

Lemma del_next_after A y B i :
  L2 = A ++ y :: B → (i < hgt h y)%nat →
  el (delete x h') y i = Some (nxt (delete x h') i B).
Proof.
  intros E Hy.
  assert (y ≠ x) as Hyx by (apply x_not_elsewhere; rewrite E; set_solver).
  assert (i < hgt h x → y ≠ pred i)%nat as Hyp.
  { intros Hix Heq. pose proof (wf_hgt _ _ _ _ Hwf x ltac:(set_solver)) as Hxh.
    pose proof (wf_lvl _ _ _ _ Hwf). destruct (del_pred_next i) as (_ & _ & Hp); [lia|].
    pose proof (wf_nodup _ _ _ _ Hwf) as Hnd.
    rewrite app_comm_cons in Hnd. apply NoDup_app in Hnd as (_ & Hdis & _).
    apply (Hdis y); [by rewrite Heq|rewrite E; set_solver]. }
  rewrite del_el, del_nxt by (done || (rewrite E; set_solver)).
  rewrite (wf_next _ _ _ _ Hwf (head :: L1 ++ x :: A) y B i);
    [|rewrite E; simpl; by rewrite <-app_assoc|done].
  repeat case_decide; naive_solver.
Qed.

Lemma delete_wf : wf (delete x h') head lvl (L1 ++ L2).
Proof.
  assert (∀ l, l ∈ head :: L1 ++ L2 → prio (delete x h') l = prio h l) as Hprio.
  { intros l Hl. apply x_not_elsewhere in Hl as Hne.
    destruct (same_shape_views _ _ l (proj1 Hun)) as [_ <-]. unfold prio.
    by rewrite lookup_delete_ne. }
  split.
  - pose proof (wf_nodup _ _ _ _ Hwf) as Hnd.
    rewrite <-(Permutation_middle L1 L2 x), (perm_swap x head) in Hnd.
    by apply NoDup_cons in Hnd as [_ ?].
  - rewrite del_hgt by (apply x_not_elsewhere; left). apply (wf_head _ _ _ _ Hwf).
  - intros l Hl. rewrite del_hgt by (apply x_not_elsewhere; set_solver).
    apply (wf_hgt _ _ _ _ Hwf). set_solver.
  - apply (wf_lvl _ _ _ _ Hwf).
  - intros A y B i E Hy.
    assert (y ∈ head :: L1 ++ L2) as Hin by (rewrite E; set_solver).
    rewrite del_hgt in Hy by (by apply x_not_elsewhere). rewrite app_comm_cons in E.
    destruct (app_eq_inv _ _ _ _ E) as [([|z B'] & E1 & E2)|(A' & -> & E2)]; simpl in E2.
    + apply (del_next_after []); [done|]. done.
    + injection E2 as <- ->. by apply (del_next_before A).
    + by apply (del_next_after A').
  - pose proof (wf_sorted _ _ _ _ Hwf) as Hsort.
    assert (StronglySorted Z.le (prio h <$> (L1 ++ L2))) as Hsort'.
    { rewrite fmap_app, fmap_cons in Hsort. rewrite fmap_app.
      apply StronglySorted_app in Hsort as (? & ? & Hs2). apply StronglySorted_app.
      apply StronglySorted_inv in Hs2 as [? ?]. split_and!; [set_solver|done|done]. }
    rewrite (list_fmap_ext _ (prio h)); [done|].
    intros i l Hl%list_elem_of_lookup_2. apply Hprio. set_solver.
Qed.
End deletion.

(** ** Lowering the level after a deletion *)
Section lowering.
Context {V : Type}.
Implicit Types (h : gmap loc (node V)) (l head : loc) (L : list loc).

Lemma nxt_null h i L : nxt h i L = Null → ∀ l, l ∈ L → (hgt h l ≤ i)%nat.
Proof.
  intros Hn. destruct (level_cases h i L) as [?|(C & y & D & -> & HC & Hy)]; [done|].
  by rewrite nxt_first in Hn.
Qed.

Lemma wf_head_el h head lvl L i :
  wf h head lvl L → (i < MAX_SK_LEVEL)%nat → el h head i = Some (nxt h i L).
Proof.
  intros Hwf Hi. apply (wf_next _ _ _ _ Hwf []); [done|]. by rewrite (wf_head _ _ _ _ Hwf).
Qed.

Lemma wf_lower h head lvl L :
  wf h head (S lvl) L → nxt h (S lvl) L = Null → wf h head lvl L.
Proof.
  intros [Hnd Hh Hl Hlv Hn Hs] E. split; [done|done| |lia|done|done].
  intros l Hin. specialize (Hl l Hin). pose proof (nxt_null _ _ _ E l Hin). lia.
Qed.

Lemma shrink_spec h head lvl L :
  wf h head lvl L →
  returns (shrink h (Addr head) (Z.of_nat lvl)) (λ t, ∃ lvl' : nat,
    t = Z.of_nat lvl' ∧ (lvl' ≤ lvl)%nat ∧ wf h head lvl' L ∧
    (lvl' = O ∨ nxt h lvl' L ≠ Null)).
Proof.
  intros Hwf. eapply (loop_returns
    (λ t, ∃ lvl' : nat, t = Z.of_nat lvl' ∧ (lvl' ≤ lvl)%nat ∧ wf h head lvl' L) Z.to_nat).
  - intros t (m & -> & Hle & Hm). pose proof (wf_lvl _ _ _ _ Hm).
    rewrite (get_elem_eq _ _ _ _ (wf_head_el _ _ _ _ m Hm ltac:(done))).
    cbn [mbind outcome_bind]. case_bool_decide as Hn; simpl; [|exists m; auto].
    destruct (Z.ltb_spec 0 (Z.of_nat m)).
    + destruct m as [|m]; [lia|]. split; [|lia]. exists m.
      split_and!; [lia|lia|by apply wf_lower].
    + exists m. split_and!; [done|done|done|left; lia].
  - by exists lvl.
  - lia.
Qed.
End lowering.

(** ** Cutting a sorted list at a key *)
Section cut.
Context {V : Type}.
Implicit Types (h : gmap loc (node V)) (L : list loc) (p : Z).

Lemma sorted_cut (cmp : Z → Z → bool) h p L :
  StronglySorted Z.le (prio h <$> L) →
  (∀ a b, a ≤ b → cmp b p = true → cmp a p = true) →
  ∃ L1 L2, L = L1 ++ L2 ∧ (∀ l, l ∈ L1 → cmp (prio h l) p = true) ∧
           (∀ l, l ∈ L2 → cmp (prio h l) p = false).
Proof.
  intros Hs Hmono. induction L as [|l L IH].
  { exists [], []. split_and!; [done|intros l Hl; by apply not_elem_of_nil in Hl..]. }
  apply StronglySorted_inv in Hs as [Hs Hall]. destruct (IH Hs) as (L1 & L2 & -> & H1 & H2).
  destruct (cmp (prio h l) p) eqn:E.
  - exists (l :: L1), L2. split_and!; [done| |done].
    intros l' [->|Hl']%elem_of_cons; auto.
  - exists [], (l :: L1 ++ L2). split_and!; [done|intros l' Hl'; by apply not_elem_of_nil in Hl'|].
    intros l' [->|Hl']%elem_of_cons; [done|].
    destruct (cmp (prio h l') p) eqn:E'; [|done]. exfalso.
    rewrite (Hmono (prio h l) (prio h l')) in E; [done| |done].
    rewrite Forall_forall in Hall. apply Hall. by apply list_elem_of_fmap_2.
Qed.

Lemma leb_mono p a b : a ≤ b → (b <=? p) = true → (a <=? p) = true.
Proof. rewrite !Z.leb_le. lia. Qed.
Lemma ltb_mono p a b : a ≤ b → (b <? p) = true → (a <? p) = true.
Proof. rewrite !Z.ltb_lt. lia. Qed.

Lemma wf_cut (cmp : Z → Z → bool) h head lvl L p :
  wf h head lvl L → (∀ a b, a ≤ b → cmp b p = true → cmp a p = true) →
  ∃ L1 L2, L = L1 ++ L2 ∧ (∀ l, l ∈ L1 → cmp (prio h l) p = true) ∧
           (∀ l, l ∈ L2 → cmp (prio h l) p = false).
Proof. intros Hwf. apply sorted_cut. apply (wf_sorted _ _ _ _ Hwf). Qed.

(** A new key goes in after the keys that are at most it. *)
Lemma sorted_insert (ks1 ks2 : list Z) p :
  StronglySorted Z.le (ks1 ++ ks2) → Forall (λ k, k ≤ p) ks1 → Forall (λ k, p ≤ k) ks2 →
  StronglySorted Z.le (ks1 ++ p :: ks2).
Proof.
  intros (Hd & Hs1 & Hs2)%StronglySorted_app. rewrite !Forall_forall. intros H1 H2.
  apply StronglySorted_app. split_and!; [|done|].
  - intros a b Ha [->|Hb]%elem_of_cons; auto.
  - apply SSorted_cons; [done|]. apply Forall_forall. auto.
Qed.
End cut.

(** ** The level generator *)

(** The oracle still has [n] values, none of which has its fifteen low 2-bit
    groups all zero ([rand()] is below 2^31). *)
Definition rng_ok (n : nat) (g : rng) : Prop :=
  (n ≤ length (rands g))%nat ∧ 1 ≤ randomsLeft g ≤ MAX_SK_LEVEL_INDEX ∧
  Forall (λ r, 0 ≤ r < 2 ^ 31 ∧ r mod 2 ^ 30 ≠ 0) (rands g).

Lemma next_rand_ok n left g :
  rng_ok (S n) (Rng left g) →
  ∃ r g', g = r :: g' ∧ rng_ok n (Rng left g') ∧ 0 ≤ r < 2 ^ 31 ∧ r mod 2 ^ 30 ≠ 0.
Proof.
  intros (Hn & Hl & Hf). destruct g as [|r g]; [simpl in Hn; lia|].
  simpl in *. apply Forall_cons in Hf as [Hr Hf]. exists r, g. destruct Hr as [Hr1 Hr2].
  repeat split; simpl; (done || lia).
Qed.

Section level.
Implicit Types (left : Z).

(** The states of the loop from which it terminates: the value at hand, or the
    next one, leaves it. *)
Definition level_inv (n : nat) (st : Z * Z * rng) : Prop :=
  0 ≤ st.1.1 ∧
  (rng_ok (S n) st.2 ∧ st.1.2 mod 4 ^ randomsLeft st.2 ≠ 0 ∨
   rng_ok (S (S n)) st.2 ∧ st.1.2 ≠ 0).

Definition level_measure (st : Z * Z * rng) : nat :=
  if bool_decide (st.1.2 mod 4 ^ randomsLeft st.2 ≠ 0) then Z.to_nat (randomsLeft st.2)
  else (16 + Z.to_nat (randomsLeft st.2))%nat.

Lemma shift_group bits : Z.land bits 3 = 0 → bits = 4 * Z.shiftr bits 2.
Proof.
  change 3 with (Z.ones 2). rewrite Z.land_ones, Z.shiftr_div_pow2 by lia.
  change (2 ^ 2) with 4. dlia.
Qed.

Lemma shift_group_mod bits left :
  0 < left → Z.land bits 3 = 0 → bits mod 4 ^ left ≠ 0 → Z.shiftr bits 2 mod 4 ^ (left - 1) ≠ 0.
Proof.
  intros Hl Hb Hm Hs. apply Hm. rewrite (shift_group bits Hb).
  replace left with (Z.succ (left - 1)) by lia.
  rewrite Z.pow_succ_r, Z.mul_mod_distr_l by lia. lia.
Qed.

Lemma rng_ok_le n m g : (m ≤ n)%nat → rng_ok n g → rng_ok m g.
Proof. intros Hle (H1 & H2 & H3). split; [lia|done]. Qed.

(** The countdown: refilled when it reaches 0. *)
Lemma countdown n g bits :
  rng_ok (S n) g →
  returns (if bool_decide (randomsLeft g - 1 = 0) then
             let! rg := next_rand (rands g) in Ret (rg.1, Rng MAX_SK_LEVEL_INDEX rg.2)
           else Ret (bits, Rng (randomsLeft g - 1) (rands g))) (λ st,
    rng_ok n st.2 ∧
    (randomsLeft g = 1 ∧ randomsLeft st.2 = 15 ∧ st.1 mod 4 ^ 15 ≠ 0 ∨
     1 < randomsLeft g ∧ st = (bits, Rng (randomsLeft g - 1) (rands g)))).
Proof.
  intros Hg. destruct g as [left g]. simpl. pose proof Hg as (_ & Hl & _). simpl in Hl.
  case_bool_decide as E.
  - destruct (next_rand_ok n left g Hg) as (r & g' & -> & Hg' & Hr & Hm). simpl.
    split; [|left; split_and!; [lia|done|exact Hm]].
    destruct Hg' as (H1 & _ & H3). split_and!; done.
  - simpl. split; [|right; split; [lia|done]].
    destruct Hg as (H1 & _ & H3). split; [simpl in *; lia|]. split; [simpl; lia|done].
Qed.

Lemma get_random_level_ok n g fuel :
  rng_ok (3 + n) g → (32 ≤ fuel)%nat →
  returns (get_random_level fuel g) (λ r, 0 ≤ r.1 ≤ MAX_SK_LEVEL_INDEX ∧ rng_ok n r.2).
Proof.
  intros Hg Hf. unfold get_random_level.
  destruct g as [left g]. destruct (next_rand_ok (2 + n) left g Hg) as (r & g' & -> & Hg' & Hr & Hm).
  cbn [next_rand rands mbind outcome_bind fst snd randomsLeft].
  eapply (loop_returns (level_inv n) level_measure).
  - intros [[level bits] g1] [Hlv Hinv]. cbn [fst snd] in *.
    assert (rng_ok (S n) g1) as Hg1.
    { destruct Hinv as [[? _]|[? _]]; [done|]. by eapply (rng_ok_le (S (S n))); [lia|]. }
    pose proof Hg1 as (_ & Hleft & _).
    set (b := Z.land bits 3). case_bool_decide as Hb.
    + assert (randomsLeft g1 = 1 → bits mod 4 ^ randomsLeft g1 = 0) as Hone.
      { intros ->. pose proof (shift_group bits Hb). change (4 ^ 1) with 4. dlia. }
      destruct Hinv as [[_ HA]|[HB Hnz]].
      * run (countdown n g1 (Z.shiftr bits 2) Hg1). intros st [_ [[H1 _]|[H1 ->]]]; [tauto|].
        pose proof (shift_group_mod bits (randomsLeft g1) ltac:(lia) Hb HA) as HA'. simpl.
        unfold level_inv, level_measure. simpl. rewrite !bool_decide_eq_true_2 by done.
        split_and!; [lia| |lia]. left. split; [|done].
        destruct Hg1 as (H2 & _ & H3). split; [done|]. split; [simpl; lia|done].
      * run (countdown (S n) g1 (Z.shiftr bits 2) HB). intros st [Hst [(H1 & H2 & H3)|[H1 ->]]].
        -- simpl. unfold level_inv, level_measure. simpl. rewrite H2.
           rewrite (bool_decide_eq_true_2 (st.1 mod _ ≠ 0)) by done.
           rewrite bool_decide_eq_false_2 by (intros HA; by apply HA, Hone).
           split_and!; [lia|left; done|lia].
        -- simpl. unfold level_inv, level_measure. simpl.
           assert (Z.shiftr bits 2 ≠ 0) as Hnz' by (pose proof (shift_group bits Hb); lia).
           split; [split; [lia|]|].
           ++ right. split; [|done]. destruct HB as (H2 & _ & H3). split; [done|]. split; [simpl; lia|done].
           ++ pose proof (shift_group_mod bits (randomsLeft g1)) as Hsh.
              repeat case_bool_decide; lia || tauto.
    + run (countdown n g1 (Z.shiftr bits 2) Hg1). intros st [Hst _]. simpl.
      split; [|done]. destruct (Z.ltb_spec MAX_SK_LEVEL_INDEX level); unfold MAX_SK_LEVEL_INDEX in *; lia.
  - split; [done|]. right. split; [done|]. simpl. intros ->. by apply Hm.
  - unfold level_measure. simpl. destruct Hg' as (_ & Hl & _). simpl in Hl.
    unfold MAX_SK_LEVEL_INDEX in Hl. case_bool_decide; lia.
Qed.
End level.

(** ** A decision procedure for the links of a concrete list *)
Section check_links.
Context {V : Type}.
Implicit Types (h : gmap loc (node V)) (l x : loc) (ls A B : list loc).

Fixpoint linksb h ls : bool :=
  match ls with
  | [] => true
  | x :: B => forallb (λ i, bool_decide (el h x i = Some (nxt h i B))) (seq 0 (hgt h x)) && linksb h B
  end.

Lemma linksb_next h ls A x B i :
  linksb h ls = true → ls = A ++ x :: B → (i < hgt h x)%nat → el h x i = Some (nxt h i B).
Proof.
  intros Hb -> Hi. induction A as [|a A IH]; simpl in Hb; apply andb_true_iff in Hb as [Hx Hb]; [|auto].
  rewrite forallb_forall in Hx. assert (In i (seq 0 (hgt h x))) as Hin by (apply (proj2 (in_seq _ _ _)); lia).
  apply (bool_decide_eq_true_1 _ (Hx i Hin)).
Qed.

Definition wfb h (head : loc) (lvl : nat) ls : bool :=
  bool_decide (NoDup (head :: ls)) && bool_decide (hgt h head = MAX_SK_LEVEL) &&
  forallb (λ l, (1 <=? hgt h l)%nat && (hgt h l <=? S lvl)%nat) ls &&
  (lvl <? MAX_SK_LEVEL)%nat && linksb h (head :: ls) &&
  forallb (λ '(a, b), a <=? b) (zip (prio h <$> ls) (tail (prio h <$> ls))).

Lemma sorted_pairs (ks : list Z) :
  forallb (λ '(a, b), a <=? b) (zip ks (tail ks)) = true → Sorted Z.le ks.
Proof.
  induction ks as [|a [|b ks] IH]; simpl; [constructor|repeat constructor|].
  rewrite andb_true_iff, Z.leb_le. intros [? ?]. constructor; [by apply IH|by constructor].
Qed.

Lemma wfb_wf h head lvl ls : wfb h head lvl ls = true → wf h head lvl ls.
Proof.
  unfold wfb. rewrite !andb_true_iff. intros [[[[[Hnd Hh] Hl] Hlv] Hn] Hs]. split.
  - by apply bool_decide_eq_true_1 in Hnd.
  - by apply bool_decide_eq_true_1 in Hh.
  - intros l Hin. rewrite forallb_forall in Hl. apply list_elem_of_In, Hl in Hin.
    apply andb_true_iff in Hin as [?%Nat.leb_le ?%Nat.leb_le]. lia.
  - by apply Nat.ltb_lt.
  - intros A x B i E Hi. by apply (linksb_next h (head :: ls) A).
  - apply Sorted_StronglySorted; [|by apply sorted_pairs]. intros a b c. apply Z.le_trans.
Qed.
End check_links.
