(* ===== verification/SkipOps.v ===== *)
(** * Insertion, deletion and lookup shared by [skip_list.c] and [kvcache.c]

    [skip_list_add] and [__kvcache_set], [skip_list_del] and [__kvcache_del],
    [skip_list_search] and [__kvcache_get] are the same code over two node
    types.  The common bodies are stated here once, with a payload type and the
    release of a payload as parameters, and specified against the list of the
    entries in order. *)

From S2P Require Import Prelude SkipCore.

(** [struct skip_list_head] and [struct cache_head]. *)
Record sl_head : Type := SlHead { level : Z; head : ptr }.

Section ops.
Context {V : Type}.
Abbreviation heap := (gmap loc (node V)).

(** Writing the fields of a node just returned by [P_MALLOC]; its forward
    pointers are indeterminate.  The result of the allocation is not checked. *)
Definition new_node (h : heap) (pnode : ptr) (priority a1 a2 : Z) (v : V) (nelem : Z)
    : outcome heap :=
  match pnode with
  | Addr l => Ret (<[l := Node priority a1 a2 v (replicate (Z.to_nat nelem) Junk)]> h)
  | _ => Stuck
  end.

(** Insertion. [pnode'] is what the allocator returns; the result is the node
    returned to the caller and the new state. *)
Definition add_node (fuel : nat) (h : heap) (s : sl_head) (priority a1 a2 : Z) (v : V)
    (pnode' : ptr) (g : rng) : outcome (ptr * (heap * sl_head * rng)) :=
  let! du := descend Z.leb h priority (Z.to_nat (level s)) (head s) (replicate MAX_SK_LEVEL Junk) in
  let! found := scan h priority a1 a2 du.1 in
  let! b := truth found in
  if b : bool then Ret (found, (h, s, g))
  else
    let! lg := get_random_level fuel g in
    let slevel := lg.1 in
    let! st :=
      (if level s <? slevel then
         let slevel := level s + 1 in
         let! update := aset du.2 slevel (head s) in
         Ret (slevel, SlHead slevel (head s), update)
       else Ret (slevel, s, du.2)) in
    let '(slevel, s, update) := st in
    let! h := new_node h pnode' priority a1 a2 v (slevel + 1) in
    let! h := link h update pnode' (Z.to_nat slevel) in
    Ret (pnode', (h, s, lg.2)).

(** Deletion; [release] frees what the payload owns.  [del_found] is what
    happens to the node the scan stopped at. *)
Definition del_found (release : V → outcome unit) (h : heap) (s : sl_head)
    (pnode : ptr) (update : list ptr) : outcome (ptr * (heap * sl_head)) :=
  let! b := truth pnode in
  if b : bool then
    let! h := unlink h update pnode (level s) in
    let! n := deref h pnode in
    let! _ := release (payload n) in
    let! h := free_node h pnode in
    let! tmplevel := shrink h (head s) (level s) in
    Ret (pnode, (h, SlHead tmplevel (head s)))
  else Ret (Null, (h, s)).

Definition del_node (release : V → outcome unit) (h : heap) (s : sl_head) (priority a1 a2 : Z)
    : outcome (ptr * (heap * sl_head)) :=
  let! du := descend Z.ltb h priority (Z.to_nat (level s)) (head s) (replicate MAX_SK_LEVEL Junk) in
  let! pnode := scan h priority a1 a2 du.1 in
  del_found release h s pnode du.2.

(** Lookup. *)
Definition find_node (h : heap) (s : sl_head) (priority a1 a2 : Z) : outcome ptr :=
  let! pnode := descend_lookup Z.ltb h priority (Z.to_nat (level s)) (head s) in
  scan h priority a1 a2 pnode.

(** Release of a whole list, head node included. *)
Definition free_all (release : V → outcome unit) (h : heap) (p : ptr) : outcome heap :=
  loop (S (size h)) (λ st : ptr * heap,
    let '(p, h) := st in
    let! q := get_elem h p 0 in
    let! n := deref h p in
    let! _ := release (payload n) in
    let! h := free_node h p in
    if bool_decide (q = Null) then Ret (inr h) else Ret (inl (q, h))) (p, h).

(** Writing the payload fields of a node. *)
Definition with_payload (n : node V) (v : V) : node V :=
  Node (priority n) (ack_hash_1 n) (ack_hash_2 n) v (elem n).

Definition set_payload (h : heap) (l : loc) (v : V) : heap := alter (λ n, with_payload n v) l h.

(** [for (i = 0; i < MAX; ++i) head->elem\[i\] = NIL;] *)
Definition clear_elems (h : heap) (p : ptr) (n : Z) : outcome heap :=
  for_range 0 n (λ i h, set_elem h p i Null) h.
End ops.

(** ** Specification: the list of the entries in order *)
Section entries.
Context {V : Type}.
Implicit Types (h : gmap loc (node V)) (l : loc) (L : list loc).

(** What a node holds, apart from its links. *)
Definition entry : Type := Z * (Z * Z) * V.
Definition key_of (e : entry) : Z * (Z * Z) := e.1.

Definition entry_of h l : option entry :=
  (λ n, (priority n, (ack_hash_1 n, ack_hash_2 n), payload n)) <$> h !! l.

Definition entries h L : list entry := omap (entry_of h) L.

(** The abstract operations. *)
Fixpoint put (e : entry) (es : list entry) : list entry :=
  match es with
  | [] => [e]
  | e' :: es => if bool_decide (e'.1.1 ≤ e.1.1) then e' :: put e es else e :: e' :: es
  end.

Fixpoint lookup_first (k : Z * (Z * Z)) (es : list entry) : option entry :=
  match es with
  | [] => None
  | e :: es => if bool_decide (key_of e = k) then Some e else lookup_first k es
  end.

(** A node's key, and the first node of a list with a given key. *)
Definition keyat h l : Z * (Z * Z) := (prio h l, acks h l).
Fixpoint first_loc h (k : Z * (Z * Z)) L : option loc :=
  match L with
  | [] => None
  | l :: L => if bool_decide (keyat h l = k) then Some l else first_loc h k L
  end.

Lemma entry_of_some h l : (0 < hgt h l)%nat → ∃ v, entry_of h l = Some (keyat h l, v).
Proof.
  intros [n Hn]%hgt_some. unfold entry_of, keyat, prio, acks. rewrite Hn. simpl. by eexists.
Qed.

Lemma entry_of_key h l e : entry_of h l = Some e → key_of e = keyat h l.
Proof.
  unfold entry_of, keyat, prio, acks. destruct (h !! l); simpl; [|done]. by intros [= <-].
Qed.

Lemma entries_app h A B : entries h (A ++ B) = entries h A ++ entries h B.
Proof. apply omap_app. Qed.

Lemma entries_step h l L :
  entries h (l :: L) = from_option (λ e, [e]) [] (entry_of h l) ++ entries h L.
Proof. unfold entries. cbn. by destruct (entry_of h l). Qed.

Lemma entries_cons h l L e : entry_of h l = Some e → entries h (l :: L) = e :: entries h L.
Proof. intros E. by rewrite entries_step, E. Qed.

Lemma entries_ext h h' L :
  (∀ l, l ∈ L → entry_of h' l = entry_of h l) → entries h' L = entries h L.
Proof.
  induction L as [|l L IH]; intros H; [done|].
  rewrite !entries_step, (H l), IH; [done| |by left]. intros l' Hl'. apply H. by right.
Qed.

Lemma sig_entry h h' l : sig <$> h !! l = sig <$> h' !! l → entry_of h' l = entry_of h l.
Proof.
  unfold entry_of, sig. destruct (h !! l), (h' !! l); simpl; intros E; congruence.
Qed.

Lemma same_shape_entry h h' l : same_shape h h' → entry_of h' l = entry_of h l.
Proof. intros Hs. by apply sig_entry, same_shape_lookup. Qed.

(** A node is determined by its shape and its links. *)
Lemma node_ext h h' l :
  sig <$> h !! l = sig <$> h' !! l → (∀ i, el h' l i = el h l i) → h' !! l = h !! l.
Proof.
  intros Hs He. destruct (h !! l) as [n|] eqn:E, (h' !! l) as [n'|] eqn:E'; simpl in Hs; [|done..].
  assert (elem n' = elem n) as Hel.
  { apply list_eq. intros i. specialize (He i). unfold el in He. by rewrite E, E' in He. }
  destruct n, n'. unfold sig in Hs. simpl in *. by simplify_eq.
Qed.

(** The skip list only depends on its own nodes. *)
Lemma wf_frame h h' hd lvl L :
  (∀ l, l ∈ hd :: L → h' !! l = h !! l) → wf h hd lvl L → wf h' hd lvl L.
Proof.
  intros Hf [Hnd Hh Hl Hlv Hn Hs].
  assert (∀ l, l ∈ hd :: L → hgt h' l = hgt h l ∧ prio h' l = prio h l ∧ ∀ i, el h' l i = el h l i)
    as Hv by (intros l Hin; unfold hgt, prio, el; by rewrite Hf).
  split; [done| | |done| |].
  - by rewrite (proj1 (Hv hd ltac:(left))).
  - intros l Hin. rewrite (proj1 (Hv l ltac:(by right))). auto.
  - intros A x B i E Hx. assert (x ∈ hd :: L) as Hin by (rewrite E; set_solver).
    destruct (Hv x Hin) as (Hxh & _ & ->). rewrite Hxh in Hx. rewrite (Hn A x B i E Hx).
    f_equal. symmetry. apply nxt_ext. intros l Hlb. apply Hv. rewrite E. set_solver.
  - rewrite (list_fmap_ext _ (prio h)); [done|].
    intros i l Hl'%list_elem_of_lookup_2. apply Hv. by right.
Qed.

Lemma first_loc_app h k A B :
  (∀ l, l ∈ A → keyat h l ≠ k) → first_loc h k (A ++ B) = first_loc h k B.
Proof.
  induction A as [|a A IH]; intros HA; simpl; [done|].
  rewrite bool_decide_eq_false_2 by (apply HA; left). apply IH. intros l Hl. apply HA. by right.
Qed.

Lemma first_loc_None h k L : first_loc h k L = None ↔ ∀ l, l ∈ L → keyat h l ≠ k.
Proof.
  induction L as [|l L IH]; simpl.
  - split; [intros _ l Hl; by apply not_elem_of_nil in Hl|done].
  - case_bool_decide.
    + split; [done|]. intros Hn. by destruct (Hn l ltac:(left)).
    + rewrite IH. set_solver.
Qed.

Lemma first_loc_Some h k L x :
  first_loc h k L = Some x →
  ∃ A B, L = A ++ x :: B ∧ keyat h x = k ∧ ∀ l, l ∈ A → keyat h l ≠ k.
Proof.
  induction L as [|l L IH]; simpl; [done|]. case_bool_decide.
  - intros [= ->]. exists [], L. split_and!; [done..|]. intros l Hl. by apply not_elem_of_nil in Hl.
  - intros (A & B & -> & Hx & HA)%IH. exists (l :: A), B. split_and!; [done..|].
    intros l' [->|Hl']%elem_of_cons; auto.
Qed.

(** The first entry with a key is that of the first node with it. *)
Lemma lookup_first_loc h k L :
  (∀ l, l ∈ L → (0 < hgt h l)%nat) → lookup_first k (entries h L) = first_loc h k L ≫= entry_of h.
Proof.
  induction L as [|l L IH]; intros Hpos; [done|].
  destruct (entry_of_some h l (Hpos l ltac:(left))) as [v Hv].
  rewrite (entries_cons _ _ _ _ Hv). cbn [lookup_first first_loc key_of fst].
  case_bool_decide; [done|]. apply IH. intros l' Hl'. apply Hpos. by right.
Qed.
End entries.
Arguments entry V : clear implicits.

(** ** The operations against the list of nodes *)
Section specs.
Context {V : Type}.
Implicit Types (h : gmap loc (node V)) (l x hd : loc) (L : list loc) (s : sl_head).

(** The list of head structure [s], head node [hd] and nodes [L]. *)
Definition sl_wf h s hd L : Prop :=
  head s = Addr hd ∧ ∃ lvl : nat, level s = Z.of_nat lvl ∧ wf h hd lvl L.

Lemma keyat_eq h l p a1 a2 : keyat h l = (p, (a1, a2)) ↔ prio h l = p ∧ acks h l = (a1, a2).
Proof. unfold keyat. split; [intros [= -> ->]; done|intros [-> ->]; done]. Qed.

Lemma keyat_prio h l k : keyat h l = k → prio h l = k.1.
Proof. by intros <-. Qed.

(** The run scanned by the code holds every node of the key. *)
Lemma find_match_first h p a1 a2 L1 L2 :
  (∀ l, l ∈ L1 → (prio h l <? p) = true) → (∀ l, l ∈ L2 → (prio h l <? p) = false) →
  StronglySorted Z.le (prio h <$> L2) →
  find_match h p a1 a2 L2 = first_loc h (p, (a1, a2)) (L1 ++ L2).
Proof.
  intros H1 H2 Hs. rewrite first_loc_app; cycle 1.
  { intros l Hl Hk%keyat_prio. specialize (H1 l Hl). simpl in Hk. lia. }
  induction L2 as [|l L2 IH]; [done|]. apply StronglySorted_inv in Hs as [Hs Hall].
  cbn [find_match first_loc]. case_bool_decide as Hp.
  - case_bool_decide as Ha.
    + by rewrite bool_decide_eq_true_2 by (by apply keyat_eq).
    + rewrite bool_decide_eq_false_2 by (rewrite keyat_eq; tauto).
      apply IH; [|done]. intros l' Hl'. apply H2. by right.
  - rewrite bool_decide_eq_false_2 by (rewrite keyat_eq; tauto). symmetry.
    apply first_loc_None. intros l' Hl' Hk%keyat_prio. simpl in Hk.
    rewrite Forall_forall in Hall.
    specialize (Hall (prio h l') (list_elem_of_fmap_2 _ _ _ Hl')).
    specialize (H2 l ltac:(left)). lia.
Qed.

Lemma sorted_tail h L1 L2 :
  StronglySorted Z.le (prio h <$> L1 ++ L2) → StronglySorted Z.le (prio h <$> L2).
Proof. rewrite fmap_app. by intros (_ & _ & ?)%StronglySorted_app. Qed.

Lemma find_node_spec h s hd L p a1 a2 :
  sl_wf h s hd L → find_node h s p a1 a2 = Ret (ptr_of (first_loc h (p, (a1, a2)) L)).
Proof.
  intros (Hh & lvl & Hl & Hwf). unfold find_node. rewrite Hh, Hl, Nat2Z.id.
  destruct (wf_cut Z.ltb _ _ _ _ p Hwf (ltb_mono p)) as (L1 & L2 & -> & H1 & H2).
  rewrite (descend_lookup_head _ _ _ L1 L2 _ _ Hwf H1 H2). cbn [mbind outcome_bind].
  rewrite (scan_spec _ _ _ _ (hd :: L1) _ _ _ L2 Hwf) by done.
  do 2 f_equal. apply find_match_first; [done|done|].
  apply (sorted_tail _ L1). apply (wf_sorted _ _ _ _ Hwf).
Qed.

(** Insertion never meets the key: the descent has gone past all of them. *)
Lemma find_match_past h p a1 a2 L2 :
  (∀ l, l ∈ L2 → (prio h l <=? p) = false) → find_match h p a1 a2 L2 = None.
Proof.
  destruct L2 as [|l L2]; intros H2; [done|]. simpl. specialize (H2 l ltac:(left)).
  rewrite bool_decide_eq_false_2; [done|lia].
Qed.

Lemma put_cut (e : entry V) es1 es2 :
  Forall (λ e', e'.1.1 ≤ e.1.1) es1 → Forall (λ e', e.1.1 < e'.1.1) es2 →
  put e (es1 ++ es2) = es1 ++ e :: es2.
Proof.
  intros H1 H2. induction H1 as [|e' es1 Hle _ IH]; simpl.
  - destruct H2 as [|e' es2 Hlt _]; simpl; [done|].
    rewrite bool_decide_eq_false_2; [done|lia].
  - rewrite bool_decide_eq_true_2 by done. by rewrite IH.
Qed.

Lemma entries_forall h (P : Z → Prop) L :
  (∀ l, l ∈ L → P (prio h l)) → Forall (λ e : entry V, P e.1.1) (entries h L).
Proof.
  intros HP. induction L as [|l L IH]; [constructor|]. rewrite entries_step.
  apply Forall_app. split; [|apply IH; intros; apply HP; by right].
  specialize (HP l ltac:(left)). unfold entry_of, prio in *. by destruct (h !! l); constructor.
Qed.
End specs.

Section adding.
Context {V : Type}.
Implicit Types (h : gmap loc (node V)) (l x hd : loc) (L : list loc) (s : sl_head).

(** Payloads do not matter to the links. *)
Lemma set_payload_views h x v l :
  hgt (set_payload h x v) l = hgt h l ∧ prio (set_payload h x v) l = prio h l ∧
  ∀ i, el (set_payload h x v) l i = el h l i.
Proof.
  unfold hgt, prio, el, set_payload. destruct (decide (l = x)) as [->|].
  - rewrite lookup_alter_eq. by destruct (h !! x).
  - by rewrite lookup_alter_ne.
Qed.

Lemma entry_set_payload h x v l :
  entry_of (set_payload h x v) l =
  if decide (l = x) then (λ e, (key_of e, v)) <$> entry_of h x else entry_of h l.
Proof.
  unfold entry_of, set_payload. case_decide as E.
  - subst. rewrite lookup_alter_eq. by destruct (h !! x).
  - by rewrite lookup_alter_ne.
Qed.

Lemma wf_set_payload h hd lvl L x v : wf h hd lvl L → wf (set_payload h x v) hd lvl L.
Proof.
  intros [Hnd Hh Hl Hlv Hn Hs]. pose proof (set_payload_views h x v) as Hv. split.
  - done.
  - by rewrite (proj1 (Hv hd)).
  - intros l Hin. rewrite (proj1 (Hv l)). auto.
  - done.
  - intros A y B i E Hy. destruct (Hv y) as (Hyh & _ & ->). rewrite Hyh in Hy.
    rewrite (Hn A y B i E Hy). f_equal. symmetry. apply nxt_ext. intros l _. apply Hv.
  - rewrite (list_fmap_ext _ (prio h)); [done|]. intros i l _. apply Hv.
Qed.

Lemma set_payload_id h x k v : entry_of h x = Some (k, v) → set_payload h x v = h.
Proof.
  unfold entry_of, set_payload. destruct (h !! x) as [n|] eqn:E; [|done]. simpl. intros [= _ <-].
  apply alter_id. intros n' E'. rewrite E in E'. injection E' as <-. by destruct n.
Qed.

Lemma set_payload_ne h x v l : l ≠ x → set_payload h x v !! l = h !! l.
Proof. intros. by apply lookup_alter_ne. Qed.

(** What an insertion does: the new node comes after its equals, the nodes of
    the list keep their entries, and no other memory changes. *)
Definition added h hd L x (e : entry V) h' s' : Prop :=
  ∃ L', sl_wf h' s' hd L' ∧ L' ≡ₚ x :: L ∧
    (∀ v, entries (set_payload h' x v) L' = put (key_of e, v) (entries h L)) ∧
    entry_of h' x = Some e ∧
    (∀ l, l ≠ x → entry_of h' l = entry_of h l) ∧
    (∀ l, l ∉ hd :: L → l ≠ x → h' !! l = h !! l).

Lemma alloc_entry h x p a1 a2 (v : V) k l :
  entry_of (alloc_heap h x p a1 a2 v k) l =
  if decide (l = x) then Some (p, (a1, a2), v) else entry_of h l.
Proof.
  unfold entry_of, alloc_heap. rewrite lookup_insert. by repeat case_decide; subst.
Qed.

Lemma link_new h hd lvl L1 L2 x p a1 a2 v k update :
  wf h hd lvl (L1 ++ L2) →
  (∀ l, l ∈ L1 → (prio h l <=? p) = true) → (∀ l, l ∈ L2 → (prio h l <=? p) = false) →
  h !! x = None → (k ≤ S lvl)%nat → (k < MAX_SK_LEVEL)%nat →
  (∀ i, (i ≤ k)%nat → update !! i = Some (Addr (lastge h i hd L1))) →
  returns (link (alloc_heap h x p a1 a2 v k) update (Addr x) k)
    (λ h', added h hd (L1 ++ L2) x (p, (a1, a2), v) h' (SlHead (Z.of_nat (lvl `max` k)) (Addr hd))).
Proof.
  intros Hwf H1 H2 Hx Hk Hkm Hu.
  eapply returns_mono; [apply (link_spec h hd lvl L1 L2 x p a1 a2 v k Hwf Hx Hk Hkm update k);
    [done|done|done|]|].
  - intros i Hi. rewrite alloc_el by (by eapply pred_not_fresh).
    eapply pred_next; [done|lia].
  - intros h' [Hs He].
    assert (∀ l, entry_of h' l = if decide (l = x) then Some (p, (a1, a2), v) else entry_of h l) as Hent.
    { intros l. by rewrite (same_shape_entry _ _ _ Hs), alloc_entry. }
    assert (∀ l, l ∈ hd :: L1 ++ L2 → l ≠ x) as Hne by (by intros l; eapply fresh_not_in).
    exists (L1 ++ x :: L2). split_and!.
    + split; [done|]. exists (lvl `max` k)%nat. split; [done|].
      eapply (insert_wf h hd lvl L1 L2 x p a1 a2 v k); try done.
      apply sorted_insert; [rewrite <-fmap_app; apply (wf_sorted _ _ _ _ Hwf)|..];
        apply Forall_forall; intros q (l & -> & Hl)%list_elem_of_fmap.
      * specialize (H1 l Hl). lia.
      * specialize (H2 l Hl). lia.
    + by rewrite Permutation_middle.
    + intros v'. rewrite !entries_app, (entries_cons _ _ _ (p, (a1, a2), v'))
        by (by rewrite entry_set_payload, decide_True, Hent, decide_True).
      rewrite put_cut.
      * rewrite !(entries_ext h (set_payload h' x v')); [done|..]; intros l Hl;
          (rewrite entry_set_payload, decide_False, Hent, decide_False; [done|..]);
          apply Hne; set_solver.
      * apply (entries_forall _ (λ q, q ≤ p)). intros l Hl. specialize (H1 l Hl). lia.
      * apply (entries_forall _ (λ q, p < q)). intros l Hl. specialize (H2 l Hl). lia.
    + by rewrite Hent, decide_True.
    + intros l Hl. by rewrite Hent, decide_False.
    + intros l Hl Hlx. transitivity (alloc_heap h x p a1 a2 v k !! l);
        [|unfold alloc_heap; by rewrite lookup_insert_ne].
      apply node_ext; [by apply same_shape_lookup|]. intros i. rewrite He.
      pose proof (pred_in h hd lvl L1 L2 x k Hwf Hx Hk Hkm i) as Hp.
      repeat case_decide; subst; [set_solver|done..].
Qed.

Lemma add_node_spec n fuel h s hd L p a1 a2 v x g :
  sl_wf h s hd L → h !! x = None → rng_ok (3 + n) g → (32 ≤ fuel)%nat →
  returns (add_node fuel h s p a1 a2 v (Addr x) g) (λ r,
    let '(q, (h', s', g')) := r in
    q = Addr x ∧ added h hd L x (p, (a1, a2), v) h' s' ∧ rng_ok n g').
Proof.
  intros (Hh & lvl & Hl & Hwf) Hx Hg Hf. unfold add_node. rewrite Hh, Hl, Nat2Z.id.
  pose proof (wf_lvl _ _ _ _ Hwf) as Hlvl.
  destruct (wf_cut Z.leb _ _ _ _ p Hwf (leb_mono p)) as (L1 & L2 & -> & H1 & H2).
  run (descend_head _ _ _ L1 L2 _ _ Hwf H1 H2 (replicate MAX_SK_LEVEL Junk)); [done|].
  intros [q update] (-> & Hul & Hu & _). cbn [fst snd] in *.
  rewrite (scan_spec _ _ _ _ (hd :: L1) _ _ _ L2 Hwf) by done.
  rewrite find_match_past by done. cbn [ptr_of from_option truth mbind outcome_bind].
  run (get_random_level_ok n g fuel Hg Hf). intros [k g'] [Hk Hg']. cbn [fst snd] in *.
  destruct (Z.ltb_spec (Z.of_nat lvl) k) as [Hlt|Hge].
  - rewrite aset_ok by (rewrite Hul; unfold MAX_SK_LEVEL, MAX_SK_LEVEL_INDEX in *; lia).
    cbn [mbind outcome_bind new_node].
    replace (Z.to_nat (Z.of_nat lvl + 1 + 1)) with (S (S lvl)) by lia.
    replace (Z.to_nat (Z.of_nat lvl + 1)) with (S lvl) by lia.
    run (link_new h hd lvl L1 L2 x p a1 a2 v (S lvl)); try done.
    + unfold MAX_SK_LEVEL, MAX_SK_LEVEL_INDEX in *. lia.
    + intros i Hi. destruct (decide (i = S lvl)) as [->|].
      * rewrite (pred_top _ _ _ _ _ Hwf). apply list_lookup_insert_eq.
        unfold MAX_SK_LEVEL, MAX_SK_LEVEL_INDEX in *. lia.
      * rewrite list_lookup_insert_ne by lia. apply Hu. lia.
    + intros h' Ha. split_and!; [done| |done].
      replace (Z.of_nat lvl + 1) with (Z.of_nat (lvl `max` S lvl)) by lia. done.
  - cbn [mbind outcome_bind new_node]. replace (Z.to_nat (k + 1)) with (S (Z.to_nat k)) by lia.
    run (link_new h hd lvl L1 L2 x p a1 a2 v (Z.to_nat k)); try done; [lia|lia| |].
    + intros i Hi. apply Hu. lia.
    + intros h' Ha. split_and!; [done| |done]. destruct s. cbn [head level] in *. subst.
      by replace (lvl `max` Z.to_nat k)%nat with lvl in Ha by lia.
Qed.
End adding.

Section deleting.
Context {V : Type} (release : V → outcome unit).
Implicit Types (h : gmap loc (node V)) (l x y hd : loc) (L : list loc) (s : sl_head).

(** What a deletion of node [x] does when it is right. *)
Definition removed h hd L1 x L2 h' s' : Prop :=
  sl_wf h' s' hd (L1 ++ L2) ∧ h' !! x = None ∧
  (∀ l, l ≠ x → entry_of h' l = entry_of h l) ∧
  (∀ l, l ∉ hd :: L1 → l ≠ x → h' !! l = h !! l).

Lemma entry_payload h x n : h !! x = Some n → ∃ e, entry_of h x = Some (e, payload n).
Proof. intros E. unfold entry_of. rewrite E. simpl. by eexists. Qed.

Lemma entry_delete h l x : entry_of (delete x h) l = if decide (l = x) then None else entry_of h l.
Proof. unfold entry_of. rewrite lookup_delete. by repeat case_decide; subst. Qed.

(** The descent and the scan, for a list cut at the first node of the key's
    priority. *)
Lemma del_search h s hd lvl L1 L2 p a1 a2 {B} (k : ptr → list ptr → outcome B) (Q : B → Prop) :
  head s = Addr hd → level s = Z.of_nat lvl → wf h hd lvl (L1 ++ L2) →
  (∀ l, l ∈ L1 → (prio h l <? p) = true) → (∀ l, l ∈ L2 → (prio h l <? p) = false) →
  (∀ update, (∀ i, (i ≤ lvl)%nat → update !! i = Some (Addr (lastge h i hd L1))) →
     returns (k (ptr_of (first_loc h (p, (a1, a2)) (L1 ++ L2))) update) Q) →
  returns (let! du := descend Z.ltb h p (Z.to_nat (level s)) (head s) (replicate MAX_SK_LEVEL Junk) in
           let! pnode := scan h p a1 a2 du.1 in k pnode du.2) Q.
Proof.
  intros Hh Hl Hwf H1 H2 Hk. rewrite Hh, Hl, Nat2Z.id.
  run (descend_head _ _ _ L1 L2 _ _ Hwf H1 H2 (replicate MAX_SK_LEVEL Junk)); [done|].
  intros [q update] (-> & _ & Hu & _). cbn [fst snd] in *.
  rewrite (scan_spec _ _ _ _ (hd :: L1) _ _ _ L2 Hwf) by done. cbn [mbind outcome_bind].
  rewrite (find_match_first h p a1 a2 L1 L2 H1 H2); [auto|].
  apply (sorted_tail _ L1). apply (wf_sorted _ _ _ _ Hwf).
Qed.

Lemma del_node_missing h s hd L p a1 a2 :
  sl_wf h s hd L → first_loc h (p, (a1, a2)) L = None →
  del_node release h s p a1 a2 = Ret (Null, (h, s)).
Proof.
  intros (Hh & lvl & Hl & Hwf) Hf.
  destruct (wf_cut Z.ltb _ _ _ _ p Hwf (ltb_mono p)) as (L1 & L2 & -> & H1 & H2).
  assert (returns (del_node release h s p a1 a2) (λ r, r = (Null, (h, s)))) as Hr;
    [|apply returns_eq in Hr; by destruct Hr as (r & -> & ->)].
  unfold del_node.
  eapply (del_search h s hd lvl L1 L2 p a1 a2 (del_found release h s)); try done.
  intros update _. by rewrite Hf.
Qed.

Lemma unlinked_frame h hd L1 L2 x n h' l :
  unlinked h hd L1 L2 n h' → (∀ i, lastge h i hd L1 ≠ l) → h' !! l = h !! l.
Proof.
  intros [Hs He] Hl. apply node_ext; [by apply same_shape_lookup|].
  intros i. rewrite He. case_decide; [|done]. by rewrite decide_False.
Qed.

Lemma lastge_in h i hd L1 : lastge h i hd L1 ∈ hd :: L1.
Proof.
  revert hd. induction L1 as [|a L1 IH]; intros hd; simpl; [left|].
  specialize (IH (if bool_decide (i < hgt h a)%nat then a else hd)). case_bool_decide; set_solver.
Qed.

(** Deletion of the first node of a priority. *)
Lemma del_node_found h s hd L1 x L2 p a1 a2 :
  sl_wf h s hd (L1 ++ x :: L2) → (∀ l, l ∈ L1 → prio h l < p) → keyat h x = (p, (a1, a2)) →
  (∀ k v, entry_of h x = Some (k, v) → release v = Ret tt) →
  returns (del_node release h s p a1 a2) (λ r,
    let '(q, (h', s')) := r in q = Addr x ∧ removed h hd L1 x L2 h' s').
Proof.
  intros (Hh & lvl & Hl & Hwf) H1 Hk Hrel. pose proof (keyat_prio _ _ _ Hk) as Hp. simpl in Hp.
  unfold del_node.
  eapply (del_search h s hd lvl L1 (x :: L2) p a1 a2 (del_found release h s)); try done.
  { intros l Hl1. apply Z.ltb_lt. auto. }
  { intros l Hl2. apply Z.ltb_ge. pose proof (sorted_tail _ _ _ (wf_sorted _ _ _ _ Hwf)) as Hs.
    apply StronglySorted_inv in Hs as [_ Hs]. apply elem_of_cons in Hl2 as [->|Hl2]; [lia|].
    rewrite Forall_forall in Hs. rewrite <-Hp. by apply Hs, list_elem_of_fmap_2. }
  intros update Hu. rewrite first_loc_app by (intros l Hl1 Hk1%keyat_prio; specialize (H1 l Hl1); simpl in Hk1; lia).
  simpl first_loc. rewrite bool_decide_eq_true_2 by done.
  unfold del_found. cbn [ptr_of from_option truth mbind outcome_bind]. rewrite Hl.
  run (unlink_spec h hd lvl L1 L2 x Hwf update Hu). intros h1 Hun.
  assert (hgt h1 x = hgt h x) as Hhx by apply (same_shape_hgt _ _ x (proj1 Hun)).
  destruct (hgt_some h1 x) as [n Hn].
  { rewrite Hhx. eapply wf_pos; [done|]. set_solver. }
  unfold deref. rewrite Hn. cbn [mbind outcome_bind].
  destruct (entry_payload h1 x n Hn) as [k Hen].
  rewrite (same_shape_entry _ _ x (proj1 Hun)) in Hen. rewrite (Hrel _ _ Hen).
  cbn [mbind outcome_bind free_node]. rewrite bool_decide_eq_true_2 by (by rewrite Hn).
  cbn [mbind outcome_bind]. rewrite Hh.
  pose proof (delete_wf h hd lvl L1 L2 x Hwf h1 Hun) as Hwf'.
  run (shrink_spec _ _ _ _ Hwf'). intros t (lvl' & -> & _ & Hwf'' & _). simpl.
  split; [done|]. split_and!.
  - split; [done|]. by exists lvl'.
  - apply lookup_delete_eq.
  - intros l Hlx. rewrite entry_delete, decide_False by done. by apply same_shape_entry, Hun.
  - intros l Hin Hlx. rewrite lookup_delete_ne by done. eapply unlinked_frame; [by apply x|done|].
    intros i <-. apply Hin, lastge_in.
Qed.
End deleting.

(** ** Deletion of a node that is not the first of its priority

    [update] then leads to the first node of the priority, the unlinking loop
    stops at level 0, and the node is released while its predecessor still
    points to it. *)
Section dangling.
Context {V : Type} (release : V → outcome unit).
Implicit Types (h : gmap loc (node V)) (l x y hd : loc) (L : list loc) (s : sl_head).

Lemma shrink_ext h h' hd t :
  h' !! hd = h !! hd → shrink h' (Addr hd) t = shrink h (Addr hd) t.
Proof.
  intros E. apply loop_ext. intros t'. unfold get_elem, deref. by rewrite E.
Qed.

Lemma unlink_blocked h hd lvl L1 y L2 x update :
  wf h hd lvl (L1 ++ y :: L2) → y ≠ x →
  (∀ i, (i ≤ lvl)%nat → update !! i = Some (Addr (lastge h i hd L1))) →
  unlink h update (Addr x) (Z.of_nat lvl) = Ret h.
Proof.
  intros Hwf Hyx Hu. unfold unlink. rewrite loop_S.
  destruct (Z.leb_spec 0 (Z.of_nat lvl)); [|lia].
  rewrite (aget_lookup _ _ (Addr (lastge h 0 hd L1))) by (lia || apply Hu; lia).
  cbn [mbind outcome_bind]. change 0 with (Z.of_nat 0).
  rewrite (get_elem_eq _ (lastge h 0 hd L1) 0 (nxt h 0 (y :: L2))) by (eapply pred_next; [done|unfold MAX_SK_LEVEL; lia]).
  cbn [mbind outcome_bind nxt].
  assert (0 < hgt h y)%nat as Hyh by (eapply wf_pos; [done|set_solver]).
  rewrite (bool_decide_eq_true_2 (0 < hgt h y)%nat) by done.
  by rewrite bool_decide_eq_false_2 by congruence.
Qed.

Lemma del_node_dangling h s hd L1 y L2 x p a1 a2 :
  sl_wf h s hd (L1 ++ y :: L2) → (∀ l, l ∈ L1 → prio h l < p) → prio h y = p → y ≠ x →
  first_loc h (p, (a1, a2)) (y :: L2) = Some x →
  (∀ k v, entry_of h x = Some (k, v) → release v = Ret tt) →
  returns (del_node release h s p a1 a2) (λ r,
    let '(q, (h', s')) := r in
    q = Addr x ∧ h' = delete x h ∧ head s' = head s ∧
    ∃ z, z ∈ y :: L2 ∧ el h' z 0 = Some (Addr x) ∧ h' !! x = None).
Proof.
  intros (Hh & lvl & Hl & Hwf) H1 Hy Hyx Hf Hrel. unfold del_node.
  eapply (del_search h s hd lvl L1 (y :: L2) p a1 a2 (del_found release h s)); try done.
  { intros l Hl1. apply Z.ltb_lt. auto. }
  { intros l Hl2. apply Z.ltb_ge. pose proof (sorted_tail _ _ _ (wf_sorted _ _ _ _ Hwf)) as Hs.
    apply StronglySorted_inv in Hs as [_ Hs]. apply elem_of_cons in Hl2 as [->|Hl2]; [lia|].
    rewrite Forall_forall in Hs. rewrite <-Hy. by apply Hs, list_elem_of_fmap_2. }
  intros update Hu.
  rewrite first_loc_app by (intros l Hl1 Hk%keyat_prio; specialize (H1 l Hl1); simpl in Hk; lia).
  rewrite Hf. unfold del_found. cbn [ptr_of from_option truth mbind outcome_bind]. rewrite Hl.
  rewrite (unlink_blocked h hd lvl L1 y L2 x) by done. cbn [mbind outcome_bind].
  destruct (first_loc_Some _ _ _ _ Hf) as (A & B & E & Hk & _).
  destruct A as [|a A]; simpl in E; [by injection E as ->|]. injection E as <- ->.
  assert (x ∈ hd :: L1 ++ y :: A ++ x :: B) as Hx by set_solver.
  destruct (hgt_some h x ltac:(by eapply wf_pos)) as [n Hn].
  unfold deref. rewrite Hn. cbn [mbind outcome_bind]. destruct (entry_payload h x n Hn) as [k Hen].
  rewrite (Hrel _ _ Hen). cbn [mbind outcome_bind free_node].
  rewrite bool_decide_eq_true_2 by (by rewrite Hn). cbn [mbind outcome_bind]. rewrite Hh.
  pose proof (wf_nodup _ _ _ _ Hwf) as Hnd.
  rewrite (shrink_ext h) by (apply lookup_delete_ne; intros ->; apply NoDup_cons in Hnd; set_solver).
  run (shrink_spec _ _ _ _ Hwf). intros t _. cbn [returns fst snd]. split_and!; try done.
  destruct (exists_last (l := y :: A)) as (C & z & E); [done|]. exists z.
  assert (z ∈ y :: A) as Hz by (rewrite E; set_solver).
  assert (z ≠ x) as Hzx.
  { intros ->. change (L1 ++ y :: A ++ x :: B) with (L1 ++ (y :: A) ++ x :: B) in Hnd.
    apply NoDup_cons in Hnd as [_ Hnd]. apply NoDup_app in Hnd as (_ & _ & Hnd).
    apply NoDup_app in Hnd as (_ & Hdis & _). apply (Hdis x); [done|left]. }
  assert (z ∈ hd :: L1 ++ y :: A ++ x :: B) as Hzin by set_solver.
  split_and!; [set_solver| |apply lookup_delete_eq].
  unfold el. rewrite lookup_delete_ne by done. change (el h z 0 = Some (Addr x)).
  rewrite (wf_next _ _ _ _ Hwf (hd :: L1 ++ C) z (x :: B) 0).
  - simpl. rewrite bool_decide_eq_true_2; [done|]. by eapply wf_pos.
  - change (hd :: L1 ++ y :: A ++ x :: B) with (hd :: L1 ++ (y :: A) ++ x :: B). rewrite E. 
    simpl. by rewrite <-!app_assoc.
  - by eapply wf_pos.
Qed.
End dangling.

(** ** Creation and release of a list *)
Section lifetime.
Context {V : Type} (release : V → outcome unit).
Implicit Types (h : gmap loc (node V)) (l x hd : loc) (L : list loc) (s : sl_head).

Lemma clear_elems_spec h hd p a1 a2 v n :
  clear_elems (<[hd := Node p a1 a2 v (replicate n Junk)]> h) (Addr hd) (Z.of_nat n) =
  Ret (<[hd := Node p a1 a2 v (replicate n Null)]> h).
Proof.
  assert (returns (clear_elems (<[hd := Node p a1 a2 v (replicate n Junk)]> h) (Addr hd) (Z.of_nat n))
    (λ h', h' = <[hd := Node p a1 a2 v (replicate n Null)]> h)) as Hr;
    [|apply returns_eq in Hr; by destruct Hr as (r & -> & ->)].
  eapply returns_mono; [eapply (for_range_returns (λ i h', ∃ k m, i = Z.of_nat k ∧ n = (k + m)%nat ∧
    h' = <[hd := Node p a1 a2 v (replicate k Null ++ replicate m Junk)]> h))|].
  - lia.
  - exists O, n. done.
  - intros i h' Hi (k & m & -> & En & ->). destruct m as [|m]; [lia|].
    unfold set_elem. rewrite lookup_insert_eq. simpl replicate. cbn [elem].
    rewrite aset_mid by (by rewrite length_replicate). cbn [mbind outcome_bind returns priority ack_hash_1 ack_hash_2 payload].
    exists (S k), m. split_and!; [lia|lia|]. rewrite insert_insert_eq. do 2 f_equal.
    by rewrite replicate_S_end, <-app_assoc.
  - intros h' (k & m & Ek & En & ->). assert (k = n) as -> by lia.
    assert (m = O) as -> by lia. by rewrite app_nil_r.
Qed.

Lemma empty_wf h hd p a1 a2 v :
  wf (<[hd := Node p a1 a2 v (replicate MAX_SK_LEVEL Null)]> h) hd 0 [].
Proof.
  split.
  - apply NoDup_singleton.
  - unfold hgt. by rewrite lookup_insert_eq.
  - intros l Hl. by apply not_elem_of_nil in Hl.
  - unfold MAX_SK_LEVEL. lia.
  - intros [|a A] x B i E Hi; [|by destruct A]. simpl in E. injection E as <- <-.
    unfold el, hgt in *. rewrite lookup_insert_eq in *. cbn [from_option elem option_bind mbind] in *.
    apply lookup_replicate_2. by rewrite length_replicate in Hi.
  - constructor.
Qed.

(** The release follows the bottom links: it frees every node once. *)
Lemma free_all_spec h hd lvl L :
  wf h hd lvl L → (∀ l k v, l ∈ hd :: L → entry_of h l = Some (k, v) → release v = Ret tt) →
  returns (free_all release h (Addr hd)) (λ h',
    ∀ l, h' !! l = if decide (l ∈ hd :: L) then None else h !! l).
Proof.
  intros Hwf Hrel. eapply (loop_returns
    (λ st : ptr * _, ∃ A x B, hd :: L = A ++ x :: B ∧ st.1 = Addr x ∧
       ∀ l, st.2 !! l = if decide (l ∈ A) then None else h !! l)
    (λ st : ptr * _, size st.2)).
  - intros [q h1] (A & x & B & E & Hq & H1). cbn [fst snd] in *. subst q.
    assert (0 < hgt h x)%nat as Hpos by (eapply wf_pos; [done|]; rewrite E; set_solver).
    destruct (hgt_some h x Hpos) as [n Hn].
    assert (x ∉ A) as HxA.
    { pose proof (wf_nodup _ _ _ _ Hwf) as Hnd. rewrite E in Hnd.
      apply NoDup_app in Hnd as (_ & Hdis & _). intros Hin. apply (Hdis x Hin). left. }
    assert (h1 !! x = Some n) as Hn1 by (by rewrite H1, decide_False).
    change 0 with (Z.of_nat 0). rewrite (get_elem_eq h1 x 0 (nxt h 0 B)); cycle 1.
    { unfold el. rewrite Hn1, <-Hn. by apply (wf_next _ _ _ _ Hwf A). }
    unfold deref. cbn [mbind outcome_bind]. rewrite Hn1. cbn [mbind outcome_bind].
    destruct (entry_payload h x n Hn) as [k Hk].
    rewrite (Hrel x k _) by (done || (rewrite E; set_solver)). cbn [mbind outcome_bind free_node].
    rewrite (bool_decide_eq_true_2 (is_Some (h1 !! x))) by (by exists n). cbn [mbind outcome_bind].
    assert (∀ l, delete x h1 !! l = if decide (l ∈ A ++ [x]) then None else h !! l) as H2.
    { intros l. rewrite lookup_delete. case_decide; [by rewrite decide_True by set_solver|].
      rewrite H1. by repeat case_decide; try set_solver. }
    destruct B as [|y B].
    + simpl. intros l. rewrite H2, E. done.
    + assert (0 < hgt h y)%nat as Hy by (eapply wf_pos; [done|]; rewrite E; set_solver).
      cbn [nxt]. rewrite (bool_decide_eq_true_2 (0 < hgt h y)%nat) by done.
      rewrite bool_decide_eq_false_2 by done. simpl. split; [exists (A ++ [x]), y, B; by rewrite <-app_assoc|].
      rewrite map_size_delete_Some by (by exists n). assert (size h1 ≠ 0%nat); [|lia].
      apply (map_size_ne_0_lookup_2 _ x). by exists n.
  - exists [], hd, L. split_and!; [done..|]. intros l. by rewrite decide_False by apply not_elem_of_nil.
  - simpl. lia.
Qed.
End lifetime.

(** ** The entries alone *)
Section abstract.
Context {V : Type}.
Implicit Types (h : gmap loc (node V)) (l x hd : loc) (L : list loc) (s : sl_head).
Implicit Types (e : entry V) (es : list (entry V)).

(** The list at [s] owns the nodes [D] and holds the entries [es]. *)
Definition sl_rep h s (D : gset loc) es : Prop :=
  ∃ hd L, sl_wf h s hd L ∧ D = list_to_set (hd :: L) ∧ entries h L = es.

Definition keys_sorted es : Prop := StronglySorted Z.le ((λ e, e.1.1) <$> es).

(** The first entry of a priority; removal of the first entry of a key; the
    payloads under a key, oldest first. *)
Fixpoint lookup_prio (p : Z) es : option (entry V) :=
  match es with
  | [] => None
  | e :: es => if bool_decide (e.1.1 = p) then Some e else lookup_prio p es
  end.

Fixpoint remove_first (k : Z * (Z * Z)) es : list (entry V) :=
  match es with
  | [] => []
  | e :: es => if bool_decide (key_of e = k) then es else e :: remove_first k es
  end.

Fixpoint update_first (k : Z * (Z * Z)) (v : V) es : list (entry V) :=
  match es with
  | [] => []
  | e :: es => if bool_decide (key_of e = k) then (key_of e, v) :: es else e :: update_first k v es
  end.

Definition queue (k : Z * (Z * Z)) es : list V := snd <$> filter (λ e, key_of e = k) es.

Lemma entries_prio h L :
  (∀ l, l ∈ L → (0 < hgt h l)%nat) → (λ e, e.1.1) <$> entries h L = prio h <$> L.
Proof.
  induction L as [|l L IH]; intros Hpos; [done|].
  destruct (entry_of_some h l (Hpos l ltac:(left))) as [v Hv].
  rewrite (entries_cons _ _ _ _ Hv), !fmap_cons, IH; [done|].
  intros l' Hl'. apply Hpos. by right.
Qed.

Lemma sl_rep_sorted h s D es : sl_rep h s D es → keys_sorted es.
Proof.
  intros (hd & L & (_ & lvl & _ & Hwf) & _ & <-). unfold keys_sorted. rewrite entries_prio.
  - apply (wf_sorted _ _ _ _ Hwf).
  - intros l Hl. eapply wf_pos; [done|by right].
Qed.

Lemma queue_app k es1 es2 : queue k (es1 ++ es2) = queue k es1 ++ queue k es2.
Proof. unfold queue. by rewrite filter_app, fmap_app. Qed.

Lemma queue_cons k e es : queue k (e :: es) = (if decide (key_of e = k) then [e.2] else []) ++ queue k es.
Proof. unfold queue. rewrite filter_cons. by case_decide. Qed.

Lemma queue_nil k es : Forall (λ e, e.1.1 ≠ k.1) es → queue k es = [].
Proof.
  induction 1 as [|e es He _ IH]; [done|]. rewrite queue_cons, IH, decide_False; [done|].
  intros <-. by apply He.
Qed.

(** Insertion appends to the queue of its key. *)
Lemma queue_put k e es :
  keys_sorted es →
  queue k (put e es) = queue k es ++ (if decide (key_of e = k) then [e.2] else []).
Proof.
  intros Hs. induction es as [|e' es IH].
  { simpl put. rewrite queue_cons. apply app_nil_r. }
  unfold keys_sorted in Hs. rewrite fmap_cons in Hs. apply StronglySorted_inv in Hs as [Hs Hall].
  cbn [put]. case_bool_decide as Hle.
  - rewrite !queue_cons, IH by done. by rewrite app_assoc.
  - rewrite (queue_cons _ e). destruct (decide (key_of e = k)) as [<-|]; [|by rewrite app_nil_r].
    rewrite (queue_nil _ (e' :: es)); [done|]. unfold key_of.
    constructor; [lia|]. rewrite Forall_forall in Hall. apply Forall_forall. intros e2 He2.
    specialize (Hall e2.1.1 (list_elem_of_fmap_2 (λ e, e.1.1) _ _ He2)). lia.
Qed.

Lemma lookup_first_queue k es : snd <$> lookup_first k es = hd_error (queue k es).
Proof.
  induction es as [|e es IH]; [done|]. rewrite queue_cons. simpl.
  case_bool_decide; [by rewrite decide_True|]. by rewrite decide_False.
Qed.

Lemma queue_remove k k' es :
  queue k (remove_first k' es) = if decide (k = k') then tail (queue k es) else queue k es.
Proof.
  induction es as [|e es IH]; [by case_decide|]. cbn [remove_first]. rewrite queue_cons.
  case_bool_decide as E.
  - subst k'. destruct (decide (key_of e = k)) as [->|]; [by rewrite decide_True|].
    by rewrite decide_False by congruence.
  - rewrite queue_cons, IH. destruct (decide (k = k')) as [->|]; [|done].
    by rewrite decide_False by done.
Qed.

Lemma queue_update k k' v es :
  queue k (update_first k' v es) =
  if decide (k = k') then match queue k es with [] => [] | _ :: q => v :: q end else queue k es.
Proof.
  induction es as [|e es IH]; [by case_decide|]. cbn [update_first]. rewrite queue_cons.
  case_bool_decide as E.
  - subst k'. rewrite queue_cons. unfold key_of at 1. cbn [fst snd].
    destruct (decide (key_of e = k)) as [<-|].
    + by rewrite !decide_True by done.
    + by rewrite !decide_False by (done || unfold key_of in *; congruence).
  - rewrite queue_cons, IH. destruct (decide (k = k')) as [->|]; [|done].
    by rewrite decide_False by done.
Qed.

(** Where the first entry of a priority lies in the list of nodes. *)
Lemma lookup_prio_split h hd lvl L p e :
  wf h hd lvl L → lookup_prio p (entries h L) = Some e →
  ∃ L1 x L2, L = L1 ++ x :: L2 ∧ entry_of h x = Some e ∧ prio h x = p ∧
    (∀ l, l ∈ L1 → prio h l < p) ∧ entries h L = entries h L1 ++ e :: entries h L2.
Proof.
  intros Hwf. pose proof (wf_sorted _ _ _ _ Hwf) as Hs.
  assert (∀ l, l ∈ L → (0 < hgt h l)%nat) as Hpos by (intros l Hl; eapply wf_pos; [done|by right]).
  clear Hwf. revert Hs Hpos. induction L as [|l L IH]; intros Hs Hpos; [done|].
  apply StronglySorted_inv in Hs as [Hs Hall].
  destruct (entry_of_some h l (Hpos l ltac:(left))) as [v Hv].
  rewrite (entries_cons _ _ _ _ Hv). cbn [lookup_prio fst keyat]. case_bool_decide as Hp.
  - intros [= <-]. exists [], l, L. split_and!; [done|done|done| |done].
    intros l' Hl'. by apply not_elem_of_nil in Hl'.
  - intros Hl. destruct IH as (L1 & x & L2 & -> & Hx & Hxp & Hlt & E); [done| |done|].
    { intros l' Hl'. apply Hpos. by right. }
    exists (l :: L1), x, L2. split_and!; [done|done|done| |].
    + intros l' [->|Hl']%elem_of_cons; [|auto]. rewrite Forall_forall in Hall.
      specialize (Hall (prio h x)). rewrite Hxp in Hall.
      assert (prio h l ≤ p); [|lia]. apply Hall. rewrite <-Hxp.
      apply list_elem_of_fmap_2. set_solver.
    + by rewrite E, (entries_cons _ _ _ _ Hv).
Qed.
End abstract.

(** ** The operations against the entries *)
Section refinement.
Context {V : Type}.
Implicit Types (h : gmap loc (node V)) (l x hd : loc) (L : list loc) (s : sl_head).
Implicit Types (e : entry V) (es : list (entry V)) (D : gset loc).

Lemma sl_rep_frame h h' s D es :
  (∀ l, l ∈ D → h' !! l = h !! l) → sl_rep h s D es → sl_rep h' s D es.
Proof.
  intros Hf (hd & L & (Hh & lvl & Hl & Hwf) & -> & <-).
  assert (∀ l, l ∈ hd :: L → h' !! l = h !! l) as Hf'.
  { intros l Hin. apply Hf. by apply elem_of_list_to_set. }
  exists hd, L. split_and!; [|done|].
  - split; [done|]. exists lvl. split; [done|]. by apply (wf_frame h).
  - apply entries_ext. intros l Hin. unfold entry_of. rewrite Hf'; [done|by right].
Qed.

Lemma sl_rep_owned h s D es x : sl_rep h s D es → x ∈ D → is_Some (h !! x).
Proof.
  intros (hd & L & (_ & lvl & _ & Hwf) & -> & _) Hx%elem_of_list_to_set.
  apply hgt_some. by eapply wf_pos.
Qed.

Lemma sl_rep_empty h s hd p a1 a2 v :
  s = SlHead 0 (Addr hd) →
  sl_rep (<[hd := Node p a1 a2 v (replicate MAX_SK_LEVEL Null)]> h) s {[hd]} [].
Proof.
  intros ->. exists hd, []. split_and!; [|simpl; by rewrite union_empty_r_L|done].
  split; [done|]. exists O. split; [done|]. apply empty_wf.
Qed.

Lemma update_first_loc h k L x v :
  (∀ l, l ∈ L → (0 < hgt h l)%nat) → first_loc h k L = Some x → NoDup L →
  entries (set_payload h x v) L = update_first k v (entries h L).
Proof.
  induction L as [|l L IH]; intros Hpos Hf Hnd; [done|].
  destruct (entry_of_some h l (Hpos l ltac:(left))) as [w Hw].
  apply NoDup_cons in Hnd as [Hl Hnd]. rewrite (entries_cons _ _ _ _ Hw).
  cbn [first_loc update_first key_of fst] in *. case_bool_decide as E.
  - injection Hf as ->. rewrite (entries_cons _ _ _ (keyat h x, v)).
    + f_equal. apply entries_ext. intros l' Hl'. rewrite entry_set_payload, decide_False; [done|].
      by intros ->.
    + by rewrite entry_set_payload, decide_True, Hw.
  - rewrite (entries_cons _ _ _ (keyat h l, w)).
    + f_equal. apply IH; [|done|done]. intros l' Hl'. apply Hpos. by right.
    + rewrite entry_set_payload, decide_False; [done|]. intros ->.
      by apply first_loc_Some in Hf as (A & B & _ & Hk & _).
Qed.

(** What a lookup returns. *)
Definition points_to h (q : ptr) (o : option (entry V)) : Prop :=
  match o with
  | Some e => ∃ l, q = Addr l ∧ entry_of h l = Some e
  | None => q = Null
  end.

Lemma rep_find h s D es p a1 a2 :
  sl_rep h s D es →
  returns (find_node h s p a1 a2) (λ q, points_to h q (lookup_first (p, (a1, a2)) es) ∧
    (∀ l, q = Addr l → l ∈ D ∧ head s ≠ Addr l ∧
       ∀ v, sl_rep (set_payload h l v) s D (update_first (p, (a1, a2)) v es))).
Proof.
  intros (hd & L & Hwf & -> & <-). rewrite (find_node_spec h s hd L) by done. simpl.
  destruct Hwf as (Hh & lvl & Hlv & Hwf).
  rewrite lookup_first_loc by (intros l Hl; eapply wf_pos; [done|by right]).
  destruct (first_loc h (p, (a1, a2)) L) as [x|] eqn:E; simpl; [|done].
  pose proof (wf_nodup _ _ _ _ Hwf) as Hnd. apply NoDup_cons in Hnd as [Hhd Hnd].
  pose proof (λ v Hpos, update_first_loc h (p, (a1, a2)) L x v Hpos E Hnd) as Hup.
  apply first_loc_Some in E as (A & B & -> & _).
  assert (0 < hgt h x)%nat as Hx by (eapply wf_pos; [done|]; set_solver).
  split.
  - destruct (entry_of_some h x Hx) as [v Hv]. rewrite Hv. by exists x.
  - intros l [= <-]. split_and!; [set_solver| |].
    + rewrite Hh. intros [= ->]. set_solver.
    + intros v. exists hd, (A ++ x :: B). split_and!; [|done|].
      * split; [done|]. exists lvl. split; [done|]. by apply wf_set_payload.
      * apply Hup. intros l Hl. eapply wf_pos; [done|by right].
Qed.

Lemma rep_add n fuel h s D es p a1 a2 v x g :
  sl_rep h s D es → h !! x = None → rng_ok (3 + n) g → (32 ≤ fuel)%nat →
  returns (add_node fuel h s p a1 a2 v (Addr x) g) (λ r,
    let '(q, (h', s', g')) := r in
    q = Addr x ∧ head s' = head s ∧
    (∀ v', sl_rep (set_payload h' x v') s' ({[x]} ∪ D) (put (p, (a1, a2), v') es)) ∧ rng_ok n g' ∧
    entry_of h' x = Some (p, (a1, a2), v) ∧
    (∀ l, l ≠ x → entry_of h' l = entry_of h l) ∧
    (∀ l, l ∉ D → l ≠ x → h' !! l = h !! l)).
Proof.
  intros (hd & L & Hwf & -> & <-) Hx Hg Hf.
  eapply returns_mono; [by eapply (add_node_spec n)|].
  intros [q [[h' s'] g']] (-> & (L' & Hwf' & Hperm & He & Hex & Hent & Hfr) & Hg').
  split_and!; try done.
  - by rewrite (proj1 Hwf), (proj1 Hwf').
  - intros v'. exists hd, L'. split_and!; [| |done].
    { destruct Hwf' as (? & lvl & ? & ?). split; [done|]. exists lvl. split; [done|].
      by apply wf_set_payload. }
    apply set_eq. intros l. rewrite !elem_of_union, !elem_of_list_to_set, !elem_of_cons, Hperm, elem_of_cons. set_solver.
  - intros l Hl Hlx. apply Hfr; [|done]. by rewrite <-(elem_of_list_to_set (C:=gset loc)).
Qed.

End refinement.

Section refinement_del.
Context {V : Type} (release : V → outcome unit).
Implicit Types (h : gmap loc (node V)) (l x hd : loc) (L : list loc) (s : sl_head).
Implicit Types (e : entry V) (es : list (entry V)) (D : gset loc).

Lemma rep_del_missing h s D es p a1 a2 :
  sl_rep h s D es → lookup_first (p, (a1, a2)) es = None →
  del_node release h s p a1 a2 = Ret (Null, (h, s)).
Proof.
  intros (hd & L & Hwf & -> & <-) Hn. eapply del_node_missing; [done|].
  destruct Hwf as (_ & lvl & _ & Hwf).
  assert (∀ l, l ∈ L → (0 < hgt h l)%nat) as Hpos by (intros l Hl; eapply wf_pos; [done|by right]).
  rewrite lookup_first_loc in Hn by done.
  destruct (first_loc h _ L) as [x|] eqn:E; [|done]. simpl in Hn. exfalso.
  apply first_loc_Some in E as (A & B & -> & _).
  destruct (entry_of_some h x (Hpos x ltac:(set_solver))) as [v Hv]. congruence.
Qed.

Lemma remove_first_app (k : Z * (Z * Z)) es1 e es2 :
  Forall (λ e, e.1.1 < k.1) es1 → key_of e = k → remove_first k (es1 ++ e :: es2) = es1 ++ es2.
Proof.
  intros H <-. induction H as [|e' es1 Hlt _ IH]; simpl.
  - by rewrite bool_decide_eq_true_2.
  - rewrite bool_decide_eq_false_2, IH; [done|]. unfold key_of in *. intros E. rewrite E in Hlt. lia.
Qed.

Lemma rep_del h s D es e :
  sl_rep h s D es → lookup_prio (key_of e).1 es = Some e → release e.2 = Ret tt →
  returns (del_node release h s (key_of e).1 (key_of e).2.1 (key_of e).2.2) (λ r,
    let '(q, (h', s')) := r in
    ∃ x, q = Addr x ∧ x ∈ D ∧ head s ≠ Addr x ∧ h' !! x = None ∧ head s' = head s ∧
    sl_rep h' s' (D ∖ {[x]}) (remove_first (key_of e) es) ∧
    (∀ l, l ≠ x → entry_of h' l = entry_of h l) ∧ (∀ l, l ∉ D → h' !! l = h !! l)).
Proof.
  intros (hd & L & Hwf & -> & <-) He Hrel. pose proof Hwf as (_ & lvl & _ & Hw).
  destruct (lookup_prio_split h hd lvl L _ e Hw He) as (L1 & x & L2 & -> & Hx & Hp & H1 & E).
  pose proof (entry_of_key _ _ _ Hx) as Hk.
  eapply returns_mono; [eapply (del_node_found release h s hd L1 x L2); [done|done| |]|].
  - rewrite <-Hk. by destruct (key_of e) as [? [? ?]].
  - intros k v Hv. rewrite Hv in Hx. by injection Hx as <-.
  - intros [q [h' s']] (-> & Hwf' & Hnone & Hent & Hfr).
    assert (x ∉ hd :: L1 ++ L2) as Hxn.
    { pose proof (wf_nodup _ _ _ _ Hw) as Hnd.
      rewrite <-(Permutation_middle L1 L2 x), (perm_swap x hd) in Hnd.
      by apply NoDup_cons in Hnd as [? _]. }
    exists x. split_and!; [done|set_solver| |done| | |done|].
    + rewrite (proj1 Hwf). intros [= ->]. set_solver.
    + by rewrite (proj1 Hwf), (proj1 Hwf').
    + exists hd, (L1 ++ L2). split_and!; [done| |].
      * apply set_eq. intros l. rewrite elem_of_difference, !elem_of_list_to_set. set_solver.
      * rewrite E, remove_first_app.
        -- rewrite entries_app, !(entries_ext h h'); [done|..]; intros l Hl; apply Hent; set_solver.
        -- by apply (entries_forall _ (λ q, q < (key_of e).1)).
        -- done.
    + intros l Hl. apply Hfr; set_solver.
Qed.

(** The release with a node left reachable: the key is there, but an entry with
    the same priority and other acknowledgements comes first. *)
Lemma rep_del_dangling h s D es p a1 a2 e e' :
  sl_rep h s D es → lookup_prio p es = Some e' → lookup_first (p, (a1, a2)) es = Some e →
  key_of e' ≠ (p, (a1, a2)) → release e.2 = Ret tt →
  returns (del_node release h s p a1 a2) (λ r,
    let '(q, (h', s')) := r in
    ∃ x z, q = Addr x ∧ h' = delete x h ∧ head s' = head s ∧ z ∈ D ∧
      el h' z 0 = Some (Addr x) ∧ h' !! x = None).
Proof.
  intros (hd & L & Hwf & -> & <-) He' He Hne Hrel. pose proof Hwf as (_ & lvl & _ & Hw).
  assert (∀ l, l ∈ L → (0 < hgt h l)%nat) as Hpos by (intros l Hl; eapply wf_pos; [done|by right]).
  rewrite lookup_first_loc in He by done.
  destruct (first_loc h _ L) as [x|] eqn:Ef; [|done]. simpl in He.
  destruct (lookup_prio_split h hd lvl L _ e' Hw He') as (L1 & y & L2 & -> & Hy & Hp & H1 & _).
  pose proof (entry_of_key _ _ _ Hy) as Hk.
  rewrite first_loc_app in Ef by (intros l Hl Hkl%keyat_prio; specialize (H1 l Hl); simpl in Hkl; lia).
  eapply returns_mono; [eapply (del_node_dangling release h s hd L1 y L2 x); try done|].
  - intros ->. apply first_loc_Some in Ef as (A & B & _ & Hkx & _). congruence.
  - intros k v Hv. rewrite Hv in He. by injection He as <-.
  - intros [q [h' s']] (-> & -> & Hs' & z & Hz & Hel & Hn). exists x, z. split_and!; try done. set_solver.
Qed.

Lemma rep_free h s D es :
  sl_rep h s D es → (∀ l k v, l ∈ D → entry_of h l = Some (k, v) → release v = Ret tt) →
  returns (free_all release h (head s)) (λ h', ∀ l, h' !! l = if decide (l ∈ D) then None else h !! l).
Proof.
  intros (hd & L & (Hh & lvl & _ & Hwf) & -> & _) Hrel. rewrite Hh.
  eapply returns_mono; [eapply free_all_spec; [done|]|].
  - intros l k v Hl. apply Hrel. by apply elem_of_list_to_set.
  - intros h' Hh' l. rewrite Hh'. repeat case_decide; set_solver.
Qed.
End refinement_del.
