(* ===== verification/SkipList.v ===== *)
(** * The skip list: [mycache/src/struct/skip_list.c]

    A list orders its nodes by priority and, among equal priorities, by age.
    The payload of a node is its field [nlevel], which only the head node gets.
    The list is given by the contents of its [skip_list_head], or [None] for
    the null pointer; the results of [P_MALLOC] are arguments. *)

From S2P Require Import Prelude SkipCore SkipOps.

Abbreviation sl_heap := (gmap loc (node (option Z))).

Definition MAX_SKIP_LIST_LEVEL : Z := 16.

Definition no_payload (v : option Z) : outcome unit := Ret ().

(** [m1]: the block for the [skip_list_head]; [m2]: that for its head node,
    whose unwritten fields hold [junk]. *)
Definition __skip_list_init (h : sl_heap) (m1 m2 : ptr) (junk : Z * Z)
    : outcome (option sl_head * sl_heap) :=
  if bool_decide (m1 = Null) then Ret (None, h)
  else if bool_decide (m2 = Null) then Ret (None, h)
  else
    let! h := new_node h m2 MAX_PRIORITY junk.1 junk.2 (Some MAX_SKIP_LIST_LEVEL) MAX_SKIP_LIST_LEVEL in
    let! h := clear_elems h m2 MAX_SKIP_LIST_LEVEL in
    Ret (Some (SlHead 0 m2), h).

Definition skip_list_init := __skip_list_init.

Definition skip_list_add (h : sl_heap) (shead : option sl_head) (priority ack_hash_1 ack_hash_2 : Z)
    (m : ptr) (g : rng) : outcome (ptr * (sl_heap * option sl_head * rng)) :=
  match shead with
  | None => Ret (Null, (h, shead, g))
  | Some s =>
      let! r := add_node LEVEL_FUEL h s priority ack_hash_1 ack_hash_2 None m g in
      let '(q, (h, s, g)) := r in Ret (q, (h, Some s, g))
  end.

Definition skip_list_del (h : sl_heap) (shead : option sl_head) (priority ack_hash_1 ack_hash_2 : Z)
    : outcome (ptr * (sl_heap * option sl_head)) :=
  match shead with
  | None => Ret (Null, (h, shead))
  | Some s =>
      let! r := del_node no_payload h s priority ack_hash_1 ack_hash_2 in
      let '(q, (h, s)) := r in Ret (q, (h, Some s))
  end.

Definition skip_list_search (h : sl_heap) (shead : option sl_head) (priority ack_hash_1 ack_hash_2 : Z)
    : outcome ptr :=
  match shead with
  | None => Ret Null
  | Some s => find_node h s priority ack_hash_1 ack_hash_2
  end.

Definition skip_list_free (h : sl_heap) (shead : option sl_head) : outcome sl_heap :=
  match shead with
  | None => Ret h
  | Some s => free_all no_payload h (head s)
  end.

(** ** Properties *)

(** [skip_list_init] with memory at hand makes an empty list out of the
    new head node, whose sixteen forward pointers are null, and leaves the
    other nodes alone; without memory it reports the failure. *)
Lemma skip_list_init_correct (h : sl_heap) (m1 hd : loc) (junk : Z * Z) :
  h !! hd = None →
  returns (skip_list_init h (Addr m1) (Addr hd) junk) (λ r,
    ∃ s, r.1 = Some s ∧ sl_rep r.2 s {[hd]} [] ∧ ∀ l, l ≠ hd → r.2 !! l = h !! l) ∧
  (∀ m2, skip_list_init h Null m2 junk = Ret (None, h)) ∧
  skip_list_init h (Addr m1) Null junk = Ret (None, h).
Proof.
  intros Hhd. split_and!; [|done|done]. unfold skip_list_init, __skip_list_init, new_node.
  rewrite !bool_decide_eq_false_2 by done. cbn [mbind outcome_bind].
  change MAX_SKIP_LIST_LEVEL with (Z.of_nat MAX_SK_LEVEL). rewrite Nat2Z.id.
  rewrite clear_elems_spec. cbn [mbind outcome_bind returns fst snd].
  exists (SlHead 0 (Addr hd)). split_and!; [done|by apply sl_rep_empty|].
  intros l Hl. by rewrite lookup_insert_ne.
Qed.

(** [skip_list_add] inserts a new node behind every node of its priority
    or less, keeping the list well formed (order, and at every level a link to
    the next node of the level), and returns it.  It does so also when the key
    is in the list already: its search for the key starts behind all the nodes
    of that priority. *)
Lemma skip_list_add_correct (h : sl_heap) s D es p a1 a2 x g n :
  sl_rep h s D es → h !! x = None → rng_ok (3 + n) g →
  returns (skip_list_add h (Some s) p a1 a2 (Addr x) g) (λ r,
    let '(q, (h', shead, g')) := r in
    q = Addr x ∧ entry_of h' x = Some (p, (a1, a2), None) ∧
    (∃ s', shead = Some s' ∧ sl_rep h' s' ({[x]} ∪ D) (put (p, (a1, a2), None) es)) ∧
    (∀ l, l ∉ D → l ≠ x → h' !! l = h !! l) ∧ rng_ok n g').
Proof.
  intros Hs Hx Hg. unfold skip_list_add. cbn [mbind outcome_bind].
  run (rep_add n LEVEL_FUEL h s D es p a1 a2 None x g); [done..|unfold LEVEL_FUEL; lia|].
  intros [q [[h' s'] g']] (-> & _ & Hs' & Hg' & Hx' & _ & Hfr). simpl.
  split_and!; try done. exists s'. split; [done|]. specialize (Hs' None).
  by rewrite (set_payload_id _ _ _ _ Hx') in Hs'.
Qed.

Definition demo_heap : sl_heap := {[1%positive := Node MAX_PRIORITY 0 0 (Some 16) (replicate 16 Null)]}.

Lemma demo_rep : sl_rep demo_heap (SlHead 0 (Addr 1)) {[1%positive]} [].
Proof. by apply (sl_rep_empty ∅). Qed.

Lemma skip_list_add_correct_witness :
  returns (skip_list_add demo_heap (Some (SlHead 0 (Addr 1))) 5 6 7 (Addr 2) (Rng 15 [12; 3; 3])) (λ r,
    let '(q, (h', shead, g')) := r in
    q = Addr 2 ∧ entry_of h' 2%positive = Some (5, (6, 7), None) ∧
    (∃ s', shead = Some s' ∧ sl_rep h' s' ({[2%positive]} ∪ {[1%positive]}) (put (5, (6, 7), None) [])) ∧
    (∀ l, l ∉ ({[1%positive]} : gset loc) → l ≠ 2%positive → h' !! l = demo_heap !! l) ∧ rng_ok 0 g').
Proof.
  apply (skip_list_add_correct demo_heap (SlHead 0 (Addr 1)) {[1%positive]} [] 5 6 7 2 (Rng 15 [12; 3; 3]) 0).
  - apply demo_rep.
  - reflexivity.
  - split; [simpl; lia|]. split; [unfold MAX_SK_LEVEL_INDEX; simpl; lia|].
    repeat constructor; discriminate.
Defined.

(** [skip_list_search] returns the first node, in list order, whose
    priority and acknowledgement pair are those asked for, and the null pointer
    when there is none. *)
Lemma skip_list_search_correct (h : sl_heap) s D es p a1 a2 :
  sl_rep h s D es →
  returns (skip_list_search h (Some s) p a1 a2) (λ q, points_to h q (lookup_first (p, (a1, a2)) es)).
Proof.
  intros Hs. eapply returns_mono; [by eapply rep_find|]. by intros q [? _].
Qed.

(** [skip_list_del] of an absent key changes nothing and returns null.
    When the first node of the priority has the key, it is unlinked at all its
    levels and released, the level of the list is lowered to the highest one in
    use, and the list holds the other entries in their order. *)
Lemma skip_list_del_correct (h : sl_heap) s D es p a1 a2 :
  sl_rep h s D es →
  (lookup_first (p, (a1, a2)) es = None →
     skip_list_del h (Some s) p a1 a2 = Ret (Null, (h, Some s))) ∧
  (∀ e, lookup_prio p es = Some e → key_of e = (p, (a1, a2)) →
     returns (skip_list_del h (Some s) p a1 a2) (λ r,
       let '(q, (h', shead)) := r in
       ∃ x s', q = Addr x ∧ x ∈ D ∧ h' !! x = None ∧ shead = Some s' ∧
         sl_rep h' s' (D ∖ {[x]}) (remove_first (p, (a1, a2)) es) ∧
         (∀ l, l ∉ D → h' !! l = h !! l))).
Proof.
  intros Hs. split.
  - intros Hn. unfold skip_list_del. by rewrite (rep_del_missing _ h s D es).
  - intros e He Hk. unfold skip_list_del.
    pose proof (rep_del no_payload h s D es e Hs) as Hd. rewrite Hk in Hd. cbn [fst snd] in Hd.
    run Hd; [done|done|]. intros [q [h' s']] (x & -> & Hx & _ & Hn & _ & Hs' & _ & Hfr). simpl.
    exists x, s'. by split_and!.
Qed.

(** A list of two nodes of priority 5: the older with acknowledgements (1, 2),
    the younger with (3, 4). *)
Definition two_heap : sl_heap :=
  {[1%positive := Node MAX_PRIORITY 0 0 (Some 16) (Addr 2 :: replicate 15 Null);
    2%positive := Node 5 1 2 None [Addr 3];
    3%positive := Node 5 3 4 None [Null]]}.
Definition two_dom : gset loc := {[1%positive; 2%positive; 3%positive]}.
Definition two_head : sl_head := SlHead 0 (Addr 1).

Lemma two_rep : sl_rep two_heap two_head two_dom [(5, (1, 2), None); (5, (3, 4), None)].
Proof.
  exists 1%positive, [2; 3]%positive. split_and!; [|by vm_compute|done].
  split; [done|]. exists O. split; [done|]. apply wfb_wf. by vm_compute.
Qed.

Lemma skip_list_del_correct_witness :
  returns (skip_list_del two_heap (Some two_head) 5 1 2) (λ r,
    let '(q, (h', shead)) := r in
    ∃ x s', q = Addr x ∧ x ∈ two_dom ∧ h' !! x = None ∧ shead = Some s' ∧
      sl_rep h' s' (two_dom ∖ {[x]}) (remove_first (5, (1, 2)) [(5, (1, 2), None); (5, (3, 4), None)]) ∧
      (∀ l, l ∉ two_dom → h' !! l = two_heap !! l)).
Proof.
  apply (proj2 (skip_list_del_correct two_heap two_head _ _ 5 1 2 two_rep) (5, (1, 2), None));
    reflexivity.
Defined.

(** When the key is not the first one of its priority, [skip_list_del]
    releases its node without unlinking it: a node of the list still points to
    the released one. *)
Lemma skip_list_del_dangling (h : sl_heap) s D es p a1 a2 e e' :
  sl_rep h s D es → lookup_prio p es = Some e' → key_of e' ≠ (p, (a1, a2)) →
  lookup_first (p, (a1, a2)) es = Some e →
  returns (skip_list_del h (Some s) p a1 a2) (λ r,
    let '(q, (h', shead)) := r in
    ∃ x z, q = Addr x ∧ z ∈ D ∧ el h' z 0 = Some (Addr x) ∧ h' !! x = None).
Proof.
  intros Hs He' Hne He. unfold skip_list_del.
  run (rep_del_dangling no_payload h s D es p a1 a2 e e' Hs He' He Hne); [done|].
  intros [q [h' s']] (x & z & -> & -> & _ & Hz & Hel & Hn). simpl. exists x, z. by split_and!.
Qed.

(** The younger key of the two-node list; looking for it afterwards reads the
    released node. *)
Lemma skip_list_del_dangling_witness :
  returns (skip_list_del two_heap (Some two_head) 5 3 4) (λ r,
    let '(q, (h', shead)) := r in
    ∃ x z, q = Addr x ∧ z ∈ two_dom ∧ el h' z 0 = Some (Addr x) ∧ h' !! x = None) ∧
  (let! r := skip_list_del two_heap (Some two_head) 5 3 4 in
   skip_list_search r.2.1 r.2.2 5 3 4) = Stuck.
Proof.
  split; [|by vm_compute].
  by apply (skip_list_del_dangling two_heap two_head _ _ 5 3 4 (5, (3, 4), None) (5, (1, 2), None) two_rep).
Defined.

(** [skip_list_free] releases the head node and every node of the list
    exactly once and touches no other memory. *)
Lemma skip_list_free_correct (h : sl_heap) s D es :
  sl_rep h s D es →
  returns (skip_list_free h (Some s)) (λ h', ∀ l, h' !! l = if decide (l ∈ D) then None else h !! l).
Proof. intros Hs. by eapply (rep_free no_payload). Qed.

Lemma skip_list_free_correct_witness :
  returns (skip_list_free two_heap (Some two_head)) (λ h', ∀ l,
    h' !! l = if decide (l ∈ two_dom) then None else two_heap !! l).
Proof. apply (skip_list_free_correct two_heap two_head _ _ two_rep). Defined.
