(* ===== verification/KvCache.v ===== *)
(** * The key-value cache: [mycache/src/cache/kvcache.c]

    A ring of [MAX_AREA_SIZE] skip lists.  A key is hashed three times: the
    first hash picks the list and the priority in it, the other two are the
    acknowledgement pair that stands for the key from then on.  The key and
    value buffers of a node belong to it alone, so they are part of its
    payload.  The results of [P_MALLOC] and [time] are arguments. *)

From stdpp Require Import functions.
From S2P Require Import Prelude Hash SkipCore SkipOps.

(** A pointer to a buffer: indeterminate, null, or to bytes of its own. *)
Inductive buf : Type :=
  | BJunk
  | BNull
  | BData (bytes : list Z).

(** The data and time fields of [struct cache_node]; [None] is an indeterminate
    value.  (The field [type] is never accessed.) *)
Record kvdata : Type := KvData {
  key : buf;
  value : buf;
  klen : option Z;
  vlen : option Z;
  ttl : option Z;
  tms : option Z
}.

Definition MAX_AREA_SIZE : Z := 1024 * 2 ^ 5.

Abbreviation kv_heap := (gmap loc (node kvdata)).

(** [kvcache_head_ring], the nodes, and the state of [__get_random_level]. *)
Record kvcache : Type := Kv {
  kvcache_head_ring : list sl_head;
  nodes : kv_heap;
  gen : rng
}.

Definition buf_truth (b : buf) : outcome bool :=
  match b with
  | BJunk => Stuck
  | BNull => Ret false
  | BData _ => Ret true
  end.

(** Reading a field that must have been written. *)
Definition written (f : option Z) : outcome Z := match f with Some z => Ret z | None => Stuck end.

(** [P_MALLOC(n)] followed by [memcpy] of [n] bytes from [src] into the block;
    [ok]: the allocation succeeded. *)
Definition copy_new (ok : bool) (src : list Z) (n : Z) : outcome buf :=
  if ok then if bool_decide (0 ≤ n ≤ Z.of_nat (length src)) then Ret (BData (take (Z.to_nat n) src)) else Stuck
  else Stuck.

Definition __kv_node_free (d : kvdata) : outcome unit :=
  let! _ := buf_truth (key d) in
  let! _ := buf_truth (value d) in
  Ret ().

Definition __kvcache_free (h : kv_heap) (kv_head : sl_head) : outcome kv_heap :=
  free_all __kv_node_free h (head kv_head).

(** The payload [__kvcache_set] gives to a new node. *)
Definition blank : kvdata := KvData BNull BNull (Some 0) (Some 0) None None.

Definition __kvcache_set (h : kv_heap) (shead : sl_head) (priority ack_hash_1 ack_hash_2 : Z)
    (m : ptr) (g : rng) : outcome (ptr * (kv_heap * sl_head * rng)) :=
  add_node LEVEL_FUEL h shead priority ack_hash_1 ack_hash_2 blank m g.

Definition __kvcache_del (h : kv_heap) (shead : sl_head) (priority ack_hash_1 ack_hash_2 : Z)
    : outcome (Z * (kv_heap * sl_head)) :=
  let! r := del_node __kv_node_free h shead priority ack_hash_1 ack_hash_2 in
  Ret (if bool_decide (r.1 = Null) then -1 else 0, r.2).

Definition __kvcache_get (h : kv_heap) (shead : sl_head) (priority ack_hash_1 ack_hash_2 : Z)
    : outcome ptr :=
  find_node h shead priority ack_hash_1 ack_hash_2.

(** The payload of the head node made by [kvcache_init]: nothing written. *)
Definition head_data : kvdata := KvData BJunk BJunk None None None None.

(** [ms]: what the allocator returns, call by call; [junk]: the unwritten
    acknowledgements of the [i]th head node. *)
Definition kvcache_init (c : kvcache) (ms : list ptr) (junk : Z → Z * Z) : outcome (Z * kvcache) :=
  loop (S (Z.to_nat MAX_AREA_SIZE)) (λ st : Z * list ptr * kvcache,
    let '(i, ms, c) := st in
    if i <? MAX_AREA_SIZE then
      match ms with
      | [] => Loop
      | m :: ms =>
          let! ring := aset (kvcache_head_ring c) i (SlHead 0 m) in
          if bool_decide (m = Null) then Ret (inr (-1, Kv ring (nodes c) (gen c)))
          else
            let! h := new_node (nodes c) m MAX_PRIORITY (junk i).1 (junk i).2 head_data (Z.of_nat MAX_SK_LEVEL) in
            let! h := clear_elems h m (Z.of_nat MAX_SK_LEVEL) in
            Ret (inl (i + 1, ms, Kv ring h (gen c)))
      end
    else Ret (inr (0, c))) (0, ms, c).

Definition kvcache_free (c : kvcache) : outcome kvcache :=
  let! h := for_range 0 MAX_AREA_SIZE (λ i h,
    let! s := aget (kvcache_head_ring c) i in __kvcache_free h s) (nodes c) in
  Ret (Kv (kvcache_head_ring c) h (gen c)).

(** The lines every operation starts with: list, priority, acknowledgements. *)
Definition area_of (t : list Z) (key : list Z) (klen : Z) : outcome (Z * (Z * (Z * Z))) :=
  let! ack_hash_0 := hash_string t key klen 0 in
  let! ack_hash_1 := hash_string t key klen 1 in
  let! ack_hash_2 := hash_string t key klen 2 in
  Ret (ack_hash_0 mod MAX_AREA_SIZE, (ack_hash_0 / MAX_AREA_SIZE, (ack_hash_1, ack_hash_2))).

(** [m]: the node block; [mk], [mv]: whether the buffers can be allocated;
    [now]: what [time] returns. *)
Definition kvcache_set (t : list Z) (c : kvcache) (key' value' : list Z) (klen' vlen' ttl' : Z)
    (m : ptr) (mk mv : bool) (now : Z) : outcome (Z * kvcache) :=
  let! a := area_of t key' klen' in
  let '(i, (priority, (ack_hash_1, ack_hash_2))) := a in
  let! s := aget (kvcache_head_ring c) i in
  let! r := __kvcache_set (nodes c) s priority ack_hash_1 ack_hash_2 m (gen c) in
  let '(kv_node, (h, s, g)) := r in
  let! ring := aset (kvcache_head_ring c) i s in
  match kv_node with
  | Null => Ret (-1, Kv ring h g)
  | Junk => Stuck
  | Addr l =>
      let! n := deref h kv_node in
      let d := payload n in
      let! bk := buf_truth (key d) in
      let! old := (if bk : bool then buf_truth (value d) else Ret false) in
      if old : bool then
        let! v := copy_new mv value' vlen' in
        Ret (0, Kv ring (set_payload h l (KvData (key d) v (klen d) (Some vlen') (ttl d) (tms d))) g)
      else
        let! k := copy_new mk key' klen' in
        let! v := copy_new mv value' vlen' in
        Ret (0, Kv ring (set_payload h l (KvData k v (Some klen') (Some vlen') (Some ttl') (Some now))) g)
  end.

Definition kvcache_get (t : list Z) (c : kvcache) (key' : list Z) (klen' : Z) (now : Z) : outcome buf :=
  let! a := area_of t key' klen' in
  let '(i, (priority, (ack_hash_1, ack_hash_2))) := a in
  let! s := aget (kvcache_head_ring c) i in
  let! kv_node := __kvcache_get (nodes c) s priority ack_hash_1 ack_hash_2 in
  let! b := truth kv_node in
  if b : bool then
    let! n := deref (nodes c) kv_node in
    let! tms' := written (tms (payload n)) in
    let! ttl' := written (ttl (payload n)) in
    let! limit := in_s64 (tms' + ttl') in
    if limit <? now then Ret BNull else Ret (value (payload n))
  else Ret BNull.

Definition kvcache_del (t : list Z) (c : kvcache) (key' : list Z) (klen' : Z) : outcome (Z * kvcache) :=
  let! a := area_of t key' klen' in
  let '(i, (priority, (ack_hash_1, ack_hash_2))) := a in
  let! s := aget (kvcache_head_ring c) i in
  let! r := __kvcache_del (nodes c) s priority ack_hash_1 ack_hash_2 in
  let '(ret, (h, s)) := r in
  let! ring := aset (kvcache_head_ring c) i s in
  Ret (ret, Kv ring h (gen c)).

Definition kvcache_ttl (t : list Z) (c : kvcache) (key' : list Z) (klen' : Z) (now : Z) : outcome Z :=
  let! a := area_of t key' klen' in
  let '(i, (priority, (ack_hash_1, ack_hash_2))) := a in
  let! s := aget (kvcache_head_ring c) i in
  let! kv_node := __kvcache_get (nodes c) s priority ack_hash_1 ack_hash_2 in
  let! b := truth kv_node in
  if b : bool then
    let! n := deref (nodes c) kv_node in
    let! tms' := written (tms (payload n)) in
    let! d := in_s64 (now - tms') in
    let ttl := s32 d in
    Ret (if 0 <? ttl then ttl else -1)
  else Ret 0.

Definition kvcache_expire (t : list Z) (c : kvcache) (key' : list Z) (klen' ttl' : Z) (now : Z)
    : outcome (Z * kvcache) :=
  let! a := area_of t key' klen' in
  let '(i, (priority, (ack_hash_1, ack_hash_2))) := a in
  let! s := aget (kvcache_head_ring c) i in
  let! kv_node := __kvcache_get (nodes c) s priority ack_hash_1 ack_hash_2 in
  match kv_node with
  | Null => Ret (0, c)
  | Junk => Stuck
  | Addr l =>
      let! n := deref (nodes c) kv_node in
      let d := payload n in
      let! tms0 := written (tms d) in
      let! ttl0 := written (ttl d) in
      let! limit := in_s64 (tms0 + ttl0) in
      if limit <? now then Ret (-1, c)
      else Ret (0, Kv (kvcache_head_ring c)
                     (set_payload (nodes c) l (KvData (key d) (value d) (klen d) (vlen d) (Some ttl') (Some now)))
                     (gen c))
  end.

(** ** Specification: a queue of items per hashed key *)
Definition AREAS : nat := Z.to_nat MAX_AREA_SIZE.

(** A complete item. *)
Definition item (k v : list Z) (kl vl t m : Z) : kvdata :=
  KvData (BData k) (BData v) (Some kl) (Some vl) (Some t) (Some m).
Definition live (d : kvdata) : Prop := ∃ k v kl vl t m, d = item k v kl vl t m.

Section rep.
Implicit Types (c : kvcache) (E : nat → list (entry kvdata)) (D : nat → gset loc) (s : sl_head).

(** One list of the ring: its entries are complete items, and nothing has been
    written to the data fields of its head node. *)
Definition area_ok (h : kv_heap) s (d : gset loc) (es : list (entry kvdata)) : Prop :=
  sl_rep h s d es ∧ Forall (λ e, live e.2) es ∧
  ∃ hd k, head s = Addr hd ∧ entry_of h hd = Some (k, head_data).

Definition cache_rep c E D : Prop :=
  length (kvcache_head_ring c) = AREAS ∧
  (∀ i s, kvcache_head_ring c !! i = Some s → area_ok (nodes c) s (D i) (E i)) ∧
  (∀ i j, (i < AREAS)%nat → (j < AREAS)%nat → i ≠ j → D i ## D j).

(** The abstract state: for every area and key of it the items, oldest first. *)
Definition hkey : Type := Z * (Z * (Z * Z)).
Definition kvmap : Type := hkey → list kvdata.

Definition cache_is c (Q : kvmap) : Prop :=
  ∃ E D, cache_rep c E D ∧ ∀ i k, 0 ≤ i < MAX_AREA_SIZE → Q (i, k) = queue k (E (Z.to_nat i)).

Lemma area_ok_head h s d es : area_ok h s d es → ∃ hd, head s = Addr hd ∧ hd ∈ d.
Proof.
  intros ((hd & L & (Hh & _) & -> & _) & _). exists hd. split; [done|]. set_solver.
Qed.

Lemma area_ok_frame h h' s d es :
  (∀ l, l ∈ d → h' !! l = h !! l) → area_ok h s d es → area_ok h' s d es.
Proof.
  intros Hf Ha. pose proof (area_ok_head _ _ _ _ Ha) as (hd & Hh & Hd).
  destruct Ha as (Hs & Hl & hd' & k & Hh' & Hk). split_and!; [by eapply sl_rep_frame|done|].
  exists hd', k. split; [done|]. rewrite Hh in Hh'. injection Hh' as <-.
  unfold entry_of in *. by rewrite Hf.
Qed.

(** An operation on one area: the others do not notice. *)
Lemma cache_rep_update c E D i s s' h' g' d' es' :
  cache_rep c E D → kvcache_head_ring c !! i = Some s →
  area_ok h' s' d' es' →
  (∀ l, l ∈ d' → l ∈ D i ∨ nodes c !! l = None) →
  (∀ l, l ∉ D i → is_Some (nodes c !! l) → h' !! l = nodes c !! l) →
  cache_rep (Kv (<[i := s']> (kvcache_head_ring c)) h' g') (<[i := es']> E) (<[i := d']> D).
Proof.
  intros (Hlen & Ha & Hdis) Hi Ha' Hd' Hf.
  pose proof (lookup_lt_Some _ _ _ Hi) as Hlt. rewrite Hlen in Hlt.
  assert (∀ j, (j < AREAS)%nat → j ≠ i → d' ## D j) as Hdj.
  { intros j Hj Hne l Hl Hlj.
    destruct (lookup_lt_is_Some_2 (kvcache_head_ring c) j) as [sj Hsj]; [by rewrite Hlen|].
    destruct (sl_rep_owned _ _ _ _ l (proj1 (Ha j sj Hsj)) Hlj) as [n Hn].
    destruct (Hd' l Hl) as [HDi|]; [|congruence]. by apply (Hdis j i Hj Hlt Hne l). }
  split_and!; simpl.
  - by rewrite length_insert.
  - intros j sj Hj. destruct (decide (j = i)) as [->|Hne].
    + rewrite list_lookup_insert_eq in Hj by (by rewrite Hlen). injection Hj as <-.
      by rewrite !fn_lookup_insert.
    + rewrite list_lookup_insert_ne in Hj by done. rewrite !fn_lookup_insert_ne by done.
      eapply area_ok_frame; [|by apply Ha]. intros l Hl. apply Hf.
      * intros Hli. apply (Hdis j i) in Hl; [done| |done|done].
        rewrite <-Hlen. by eapply lookup_lt_Some.
      * by eapply sl_rep_owned; [apply Ha|].
  - intros j1 j2 H1 H2 Hne. destruct (decide (j1 = i)) as [->|Hn1]; [|destruct (decide (j2 = i)) as [->|Hn2]].
    + rewrite fn_lookup_insert, fn_lookup_insert_ne by done. by apply Hdj.
    + rewrite fn_lookup_insert, fn_lookup_insert_ne by done. symmetry. by apply Hdj.
    + rewrite !fn_lookup_insert_ne by done. by apply Hdis.
Qed.

(** The same for the abstract state, when the operation changes one queue. *)
Lemma cache_is_update c E D (Q : kvmap) i k s s' h' g' d' es' q' :
  cache_rep c E D → (∀ i k, 0 ≤ i < MAX_AREA_SIZE → Q (i, k) = queue k (E (Z.to_nat i))) →
  0 ≤ i < MAX_AREA_SIZE → kvcache_head_ring c !! Z.to_nat i = Some s →
  area_ok h' s' d' es' →
  (∀ l, l ∈ d' → l ∈ D (Z.to_nat i) ∨ nodes c !! l = None) →
  (∀ l, l ∉ D (Z.to_nat i) → is_Some (nodes c !! l) → h' !! l = nodes c !! l) →
  (∀ k', queue k' es' = if decide (k' = k) then q' else queue k' (E (Z.to_nat i))) →
  cache_is (Kv (<[Z.to_nat i := s']> (kvcache_head_ring c)) h' g') (<[(i, k) := q']> Q).
Proof.
  intros Hc HQ Hi Hs Ha Hd Hf Hq. eexists _, _. split; [by eapply cache_rep_update|].
  intros j k' Hj. destruct (decide ((j, k') = (i, k))) as [[= -> ->]|Hne].
  - rewrite fn_lookup_insert, Hq, decide_True by done. by rewrite (fn_lookup_insert Q).
  - rewrite (fn_lookup_insert_ne Q) by congruence. rewrite HQ by done.
    destruct (decide (j = i)) as [->|].
    + rewrite fn_lookup_insert, Hq, decide_False; [done|]. congruence.
    + rewrite fn_lookup_insert_ne by lia. done.
Qed.

Lemma area_of_range t k kl i a : area_of t k kl = Ret (i, a) → 0 ≤ i < MAX_AREA_SIZE.
Proof.
  unfold area_of. destruct (hash_string t k kl 0) as [h0| |]; [|done..].
  destruct (hash_string t k kl 1); [|done..]. destruct (hash_string t k kl 2); [|done..].
  simpl. intros [= <- _]. apply Z.mod_pos_bound. unfold MAX_AREA_SIZE. lia.
Qed.

Lemma cache_area c E D i :
  cache_rep c E D → 0 ≤ i < MAX_AREA_SIZE →
  ∃ s, kvcache_head_ring c !! Z.to_nat i = Some s ∧ aget (kvcache_head_ring c) i = Ret s ∧
    (∀ s', aset (kvcache_head_ring c) i s' = Ret (<[Z.to_nat i := s']> (kvcache_head_ring c))) ∧
    area_ok (nodes c) s (D (Z.to_nat i)) (E (Z.to_nat i)).
Proof.
  intros (Hlen & Ha & _) Hi.
  destruct (lookup_lt_is_Some_2 (kvcache_head_ring c) (Z.to_nat i)) as [s Hs].
  { rewrite Hlen. unfold AREAS. lia. }
  exists s. split_and!; [done|apply aget_lookup; [lia|done]| |by apply Ha].
  intros s'. apply aset_ok. rewrite Hlen. unfold AREAS. lia.
Qed.
End rep.

Section operations.
Implicit Types (c : kvcache) (Q : kvmap) (s : sl_head).

Lemma live_release (d : kvdata) : live d → __kv_node_free d = Ret ().
Proof. by intros (k & v & kl & vl & t & m & ->). Qed.

Lemma entry_some h l e d (Q : Prop) :
  entry_of h l = Some (e, d) → (∀ n : node kvdata, h !! l = Some n → payload n = d → Q) → Q.
Proof.
  unfold entry_of. destruct (h !! l) as [n|] eqn:E; [|done]. simpl. intros [= _ <-] H. by apply (H n).
Qed.

(** The lookup of a key, against the abstract state. *)
Lemma area_find c (E : nat → list (entry kvdata)) (D : nat → gset loc) (i : nat) p a1 a2 s :
  area_ok (nodes c) s (D i) (E i) →
  returns (__kvcache_get (nodes c) s p a1 a2) (λ q,
    match queue (p, (a1, a2)) (E i) with
    | [] => q = Null
    | d :: _ => ∃ l n, q = Addr l ∧ nodes c !! l = Some n ∧ payload n = d ∧ live d ∧ l ∈ D i ∧
        ∀ d', live d' →
          area_ok (set_payload (nodes c) l d') s (D i) (update_first (p, (a1, a2)) d' (E i))
    end).
Proof.
  intros (Hs & Hlive & hd & k & Hh & Hk).
  eapply returns_mono; [by eapply rep_find|]. intros q [Hq Hupd].
  pose proof (lookup_first_queue (p, (a1, a2)) (E i)) as Hlq.
  destruct (queue (p, (a1, a2)) (E i)) as [|d q'] eqn:Eq; simpl in Hlq.
  - by destruct (lookup_first _ _).
  - destruct (lookup_first (p, (a1, a2)) (E i)) as [[ke d0]|] eqn:El; [|done].
    injection Hlq as ->. destruct Hq as (l & -> & Hl).
    destruct (Hupd l eq_refl) as (HD & Hhl & Hrep).
    assert (live d) as Hd.
    { rewrite Forall_forall in Hlive. apply (Hlive (ke, d)).
      clear -El. induction (E i) as [|e es IH]; [done|]. simpl in El. case_bool_decide; set_solver. }
    eapply entry_some; [exact Hl|]. intros n Hn Hp. exists l, n. split_and!; try done.
    intros d' Hd'. split_and!; [by apply Hrep| |].
    + clear -Hlive Hd'. induction Hlive as [|e es He Hes IH]; simpl; [constructor|].
      case_bool_decide; by constructor.
    + exists hd, k. split; [done|]. rewrite entry_set_payload, decide_False; [done|]. congruence.
Qed.

(** What [kvcache_set] does on every cache. *)
Lemma set_rep n t c E D ky v kl vl tt x now i k :
  cache_rep c E D → area_of t ky kl = Ret (i, k) →
  nodes c !! x = None → rng_ok (3 + n) (gen c) →
  0 ≤ kl ≤ Z.of_nat (length ky) → 0 ≤ vl ≤ Z.of_nat (length v) →
  returns (kvcache_set t c ky v kl vl tt (Addr x) true true now) (λ r,
    r.1 = 0 ∧ rng_ok n (gen r.2) ∧
    (∀ l, l ≠ x → nodes c !! l = None → nodes r.2 !! l = None) ∧
    ∃ D', cache_rep r.2 (<[Z.to_nat i := put (k, item (take (Z.to_nat kl) ky) (take (Z.to_nat vl) v) kl vl tt now)
                                            (E (Z.to_nat i))]> E) D').
Proof.
  intros Hc Ha Hx Hg Hkl Hvl. pose proof (area_of_range _ _ _ _ _ Ha) as Hi.
  destruct (cache_area c E D i Hc Hi) as (s & Hs & Hget & Hset & Hrep).
  destruct k as [p [a1 a2]]. unfold kvcache_set. rewrite Ha. cbn [mbind outcome_bind].
  rewrite Hget. cbn [mbind outcome_bind]. destruct Hrep as (Hsl & Hlive & hd & kh & Hh & Hkh).
  run (rep_add n LEVEL_FUEL _ _ _ _ p a1 a2 blank x (gen c) Hsl Hx Hg); [unfold LEVEL_FUEL; lia|].
  intros [q [[h' s'] g']] (-> & Hhd & Hrep & Hg' & Hx' & Hent & Hfr). rewrite Hset.
  cbn [mbind outcome_bind]. eapply entry_some; [exact Hx'|]. intros nd Hnd Hpl.
  unfold deref. rewrite Hnd. cbn [mbind outcome_bind]. rewrite Hpl.
  cbn [blank key value klen vlen buf_truth mbind outcome_bind copy_new].
  rewrite !bool_decide_eq_true_2 by lia. cbn [mbind outcome_bind returns fst snd].
  split_and!; [done|exact Hg'| |].
  { intros l Hlx Hl. cbn [nodes]. rewrite set_payload_ne, Hfr; [done| |done|done].
    intros HD. destruct (sl_rep_owned _ _ _ _ l Hsl HD) as [? ?]. congruence. }
  assert (hd ≠ x) as Hhx by (intros ->; unfold entry_of in Hkh; by rewrite Hx in Hkh).
  eexists. eapply (cache_rep_update c E D (Z.to_nat i) s s' _ g'); try done.
  - split_and!; [apply Hrep| |].
    + clear -Hlive. set (it := item _ _ _ _ _ _). assert (live it) as Hit by (by repeat eexists).
      induction Hlive as [|e es He Hes IH]; simpl; [by constructor|].
      case_bool_decide; repeat constructor; done.
    + exists hd, kh. split; [by rewrite Hhd|].
      rewrite entry_set_payload, decide_False, Hent by done. done.
  - intros l [Hl%elem_of_singleton|Hl]%elem_of_union; [right; by subst|by left].
  - intros l Hl Hsome. assert (l ≠ x) by (intros ->; rewrite Hx in Hsome; by destruct Hsome).
    rewrite set_payload_ne by done. by apply Hfr.
Qed.

Lemma set_spec n t c Q ky v kl vl tt x now i k :
  cache_is c Q → area_of t ky kl = Ret (i, k) →
  nodes c !! x = None → rng_ok (3 + n) (gen c) →
  0 ≤ kl ≤ Z.of_nat (length ky) → 0 ≤ vl ≤ Z.of_nat (length v) →
  returns (kvcache_set t c ky v kl vl tt (Addr x) true true now) (λ r,
    r.1 = 0 ∧ rng_ok n (gen r.2) ∧
    (∀ l, l ≠ x → nodes c !! l = None → nodes r.2 !! l = None) ∧
    cache_is r.2 (<[(i, k) := Q (i, k) ++ [item (take (Z.to_nat kl) ky) (take (Z.to_nat vl) v) kl vl tt now]]> Q)).
Proof.
  intros (E & D & Hc & HQ) Ha Hx Hg Hkl Hvl.
  pose proof (area_of_range _ _ _ _ _ Ha) as Hi.
  destruct (cache_area c E D i Hc Hi) as (s & Hs & _ & _ & Hrep & _).
  eapply returns_mono; [by eapply (set_rep n)|].
  intros r (H0 & Hr & Hfr & D' & Hc'). split_and!; [done|done|done|].
  eexists _, D'. split; [done|]. intros j k' Hj.
  destruct (decide (j = i)) as [->|Hji].
  - rewrite (fn_lookup_insert E), queue_put by (by eapply sl_rep_sorted). unfold key_of. cbn [fst snd].
    destruct (decide (k = k')) as [->|Hne].
    + rewrite (fn_lookup_insert Q). by rewrite HQ.
    + rewrite (fn_lookup_insert_ne Q) by congruence. rewrite app_nil_r. by apply HQ.
  - rewrite (fn_lookup_insert_ne E) by lia. rewrite (fn_lookup_insert_ne Q) by congruence. by apply HQ.
Qed.

Definition expired (d : kvdata) (now : Z) : bool :=
  from_option id 0 (tms d) + from_option id 0 (ttl d) <? now.

(** The deadline of an item is a number the code can compute. *)
Definition deadline_ok (d : kvdata) : Prop :=
  is_s64 (from_option id 0 (tms d) + from_option id 0 (ttl d)).

Lemma get_spec t c Q ky kl now i k :
  cache_is c Q → area_of t ky kl = Ret (i, k) → Forall deadline_ok (Q (i, k)) →
  kvcache_get t c ky kl now = Ret
    match Q (i, k) with
    | [] => BNull
    | d :: _ => if expired d now then BNull else value d
    end.
Proof.
  intros (E & D & Hc & HQ) Ha Hdl. pose proof (area_of_range _ _ _ _ _ Ha) as Hi.
  destruct (cache_area c E D i Hc Hi) as (s & Hs & Hget & Hset & Hrep).
  destruct k as [p [a1 a2]]. unfold kvcache_get. rewrite Ha. cbn [mbind outcome_bind].
  rewrite Hget. cbn [mbind outcome_bind].
  pose proof (area_find c E D (Z.to_nat i) p a1 a2 s Hrep) as Hf.
  apply returns_eq in Hf as (q & -> & Hq). cbn [mbind outcome_bind].
  rewrite HQ in * by done. destruct (queue (p, (a1, a2)) (E (Z.to_nat i))) as [|d q'].
  { by rewrite Hq. }
  destruct Hq as (l & n & -> & Hn & Hp & (kb & v & kl' & vl & tt & tm & ->) & _).
  cbn [truth mbind outcome_bind deref]. rewrite Hn. cbn [mbind outcome_bind]. rewrite Hp.
  apply Forall_cons in Hdl as [Hd _]. unfold deadline_ok, expired in *.
  cbn [item tms ttl written mbind outcome_bind from_option id value] in *.
  rewrite in_s64_ok by done. cbn [mbind outcome_bind].
  by destruct (tm + tt <? now).
Qed.

Lemma ttl_spec t c Q ky kl now i k :
  cache_is c Q → area_of t ky kl = Ret (i, k) →
  Forall (λ d, is_s64 (now - from_option id 0 (tms d))) (Q (i, k)) →
  kvcache_ttl t c ky kl now = Ret
    match Q (i, k) with
    | [] => 0
    | d :: _ => let age := s32 (now - from_option id 0 (tms d)) in if 0 <? age then age else -1
    end.
Proof.
  intros (E & D & Hc & HQ) Ha Hdl. pose proof (area_of_range _ _ _ _ _ Ha) as Hi.
  destruct (cache_area c E D i Hc Hi) as (s & Hs & Hget & Hset & Hrep).
  destruct k as [p [a1 a2]]. unfold kvcache_ttl. rewrite Ha. cbn [mbind outcome_bind].
  rewrite Hget. cbn [mbind outcome_bind].
  pose proof (area_find c E D (Z.to_nat i) p a1 a2 s Hrep) as Hf.
  apply returns_eq in Hf as (q & -> & Hq). cbn [mbind outcome_bind].
  rewrite HQ in * by done. destruct (queue (p, (a1, a2)) (E (Z.to_nat i))) as [|d q'].
  { by rewrite Hq. }
  destruct Hq as (l & n & -> & Hn & Hp & (kb & v & kl' & vl & tt & tm & ->) & _).
  cbn [truth mbind outcome_bind deref]. rewrite Hn. cbn [mbind outcome_bind]. rewrite Hp.
  apply Forall_cons in Hdl as [Hd _].
  cbn [item tms ttl written mbind outcome_bind from_option id value] in *.
  by rewrite in_s64_ok.
Qed.

Definition renewed (d : kvdata) (tt now : Z) : kvdata :=
  KvData (key d) (value d) (klen d) (vlen d) (Some tt) (Some now).

Lemma expire_spec t c Q ky kl tt now i k :
  cache_is c Q → area_of t ky kl = Ret (i, k) → Forall deadline_ok (Q (i, k)) →
  returns (kvcache_expire t c ky kl tt now) (λ r,
    match Q (i, k) with
    | [] => r = (0, c)
    | d :: q => if expired d now then r = (-1, c)
                else r.1 = 0 ∧ gen r.2 = gen c ∧ cache_is r.2 (<[(i, k) := renewed d tt now :: q]> Q)
    end).
Proof.
  intros (E & D & Hc & HQ) Ha Hdl. pose proof (area_of_range _ _ _ _ _ Ha) as Hi.
  destruct (cache_area c E D i Hc Hi) as (s & Hs & Hget & Hset & Hrep).
  destruct k as [p [a1 a2]]. unfold kvcache_expire. rewrite Ha. cbn [mbind outcome_bind].
  rewrite Hget. cbn [mbind outcome_bind].
  pose proof (area_find c E D (Z.to_nat i) p a1 a2 s Hrep) as Hf.
  apply returns_eq in Hf as (q & -> & Hq). cbn [mbind outcome_bind].
  rewrite HQ in * by done. destruct (queue (p, (a1, a2)) (E (Z.to_nat i))) as [|d q'] eqn:Eq.
  { by rewrite Hq. }
  destruct Hq as (l & n & -> & Hn & Hp & (kb & v & kl' & vl & tt0 & tm & ->) & HlD & Hupd).
  cbn [deref]. rewrite Hn. cbn [mbind outcome_bind]. rewrite Hp.
  apply Forall_cons in Hdl as [Hd _]. unfold deadline_ok, expired in *.
  cbn [item tms ttl klen vlen key value written mbind outcome_bind from_option id] in *.
  rewrite in_s64_ok by done. cbn [mbind outcome_bind].
  destruct (tm + tt0 <? now); [done|]. cbn [returns fst snd gen].
  split_and!; [done|done|]. unfold renewed. cbn [key value klen vlen].
  specialize (Hupd (item kb v kl' vl tt now) ltac:(by repeat eexists)).
  rewrite <-(list_insert_id (kvcache_head_ring c) (Z.to_nat i) s) by done.
  eapply (cache_is_update c E D Q i (p, (a1, a2)) s s _ (gen c)); try done.
  - intros l' Hl'. by left.
  - intros l' Hl' _. apply set_payload_ne. by intros ->.
  - intros k'. rewrite queue_update. case_decide as Ek; [|done]. subst. by rewrite Eq.
Qed.

Lemma lookup_prio_alone (p : Z) (a : Z * Z) (d : kvdata) q es :
  queue (p, a) es = d :: q → (∀ a', a' ≠ a → queue (p, a') es = []) →
  ∃ e, lookup_prio p es = Some e ∧ key_of e = (p, a) ∧ e.2 = d.
Proof.
  induction es as [|[[p' a'] d'] es IH]; intros Hq Hne; [done|]. rewrite queue_cons in Hq.
  unfold key_of in *. cbn [lookup_prio fst snd] in *. case_bool_decide as Hp.
  - subst p'. destruct (decide ((p, a') = (p, a))) as [[= ->]|Ha].
    + injection Hq as -> _. by eexists.
    + specialize (Hne a' ltac:(congruence)). rewrite queue_cons in Hne.
      unfold key_of in Hne. cbn [fst] in Hne. by rewrite decide_True in Hne.
  - apply IH.
    + rewrite decide_False in Hq by congruence. done.
    + intros a'' Ha. specialize (Hne a'' Ha). rewrite queue_cons in Hne.
      unfold key_of in Hne. cbn [fst] in Hne. by rewrite decide_False in Hne by congruence.
Qed.

Lemma del_spec t c Q ky kl i p a :
  cache_is c Q → area_of t ky kl = Ret (i, (p, a)) →
  (∀ a', a' ≠ a → Q (i, (p, a')) = []) →
  returns (kvcache_del t c ky kl) (λ r,
    match Q (i, (p, a)) with
    | [] => r.1 = -1 ∧ cache_is r.2 Q ∧ nodes r.2 = nodes c
    | d :: q => r.1 = 0 ∧ gen r.2 = gen c ∧ cache_is r.2 (<[(i, (p, a)) := q]> Q)
    end).
Proof.
  intros (E & D & Hc & HQ) Ha Hne. pose proof (area_of_range _ _ _ _ _ Ha) as Hi.
  destruct (cache_area c E D i Hc Hi) as (s & Hs & Hget & Hset & Hrep).
  unfold kvcache_del. rewrite Ha. destruct a as [a1 a2]. cbn [mbind outcome_bind].
  rewrite Hget. cbn [mbind outcome_bind]. unfold __kvcache_del.
  destruct Hrep as (Hsl & Hlive & hd & kh & Hh & Hkh).
  rewrite HQ by done. destruct (queue (p, (a1, a2)) (E (Z.to_nat i))) as [|d q] eqn:Eq.
  - pose proof (lookup_first_queue (p, (a1, a2)) (E (Z.to_nat i))) as Hlq. rewrite Eq in Hlq.
    rewrite (rep_del_missing __kv_node_free _ s _ _ p a1 a2 Hsl) by (by destruct (lookup_first _ _)).
    cbn [mbind outcome_bind fst snd]. rewrite bool_decide_eq_true_2 by done.
    rewrite Hset. cbn [mbind outcome_bind returns fst snd nodes].
    rewrite list_insert_id by done. destruct c. split_and!; [done| |done]. by exists E, D.
  - destruct (lookup_prio_alone p (a1, a2) d q (E (Z.to_nat i)) Eq) as (e & He & Hke & Hd).
    { intros a' Ha'. rewrite <-HQ by done. by apply Hne. }
    assert (live e.2) as Hel.
    { rewrite Forall_forall in Hlive. apply Hlive. clear -He.
      induction (E (Z.to_nat i)) as [|e' es IH]; [done|]. simpl in He. case_bool_decide; set_solver. }
    pose proof (rep_del __kv_node_free (nodes c) s _ _ e Hsl) as Hdel. rewrite Hke in Hdel.
    cbn [fst snd] in Hdel. specialize (Hdel He (live_release _ Hel)).
    apply returns_eq in Hdel as ([q0 [h' s']] & -> & x & -> & Hx & Hhx & Hxn & Hhd & Hsl' & Hent & Hfr).
    cbn [mbind outcome_bind fst snd]. rewrite bool_decide_eq_false_2 by done.
    rewrite Hset. cbn [mbind outcome_bind returns fst snd gen]. split_and!; [done|done|].
    eapply (cache_is_update c E D Q i (p, (a1, a2)) s s' h' (gen c)); try done.
    + split_and!; [done| |].
      * clear -Hlive. induction Hlive as [|e es He Hes IH]; simpl; [constructor|].
        case_bool_decide; [done|by constructor].
      * exists hd, kh. split; [congruence|]. rewrite Hent; [done|]. congruence.
    + intros l [Hl _]%elem_of_difference. by left.
    + intros l Hl _. by apply Hfr.
    + intros k'. rewrite queue_remove. case_decide as Ek; [|done]. subst. by rewrite Eq.
Qed.
End operations.

(** ** Initialisation *)
Section init.
Context (c : kvcache) (junk : Z → Z * Z) (hs : list loc) (rest : list ptr).
Hypothesis (Hlen : length (kvcache_head_ring c) = AREAS).
Hypothesis (Hhs : (length hs ≤ AREAS)%nat).
Hypothesis (Hnd : NoDup hs).
Hypothesis (Hfresh : ∀ l, l ∈ hs → nodes c !! l = None).

Definition head_node (i : nat) : node kvdata :=
  Node MAX_PRIORITY (junk (Z.of_nat i)).1 (junk (Z.of_nat i)).2 head_data (replicate MAX_SK_LEVEL Null).

(** The cache after [i] rounds of the loop. *)
Definition initialised (i : nat) (c' : kvcache) : Prop :=
  length (kvcache_head_ring c') = AREAS ∧ gen c' = gen c ∧
  (∀ j hd, (j < i)%nat → hs !! j = Some hd →
     kvcache_head_ring c' !! j = Some (SlHead 0 (Addr hd)) ∧ nodes c' !! hd = Some (head_node j)) ∧
  (∀ j hd, (i ≤ j)%nat → hs !! j = Some hd → nodes c' !! hd = None) ∧
  (∀ l, l ∉ hs → nodes c' !! l = nodes c !! l).

Lemma initialised_start : initialised 0 c.
Proof.
  split_and!; try done; [intros; lia|]. intros j hd _ Hj. apply Hfresh. by eapply list_elem_of_lookup_2.
Qed.

Lemma initialised_step i hd c' :
  hs !! i = Some hd → (i < AREAS)%nat → initialised i c' →
  initialised (S i) (Kv (<[i := SlHead 0 (Addr hd)]> (kvcache_head_ring c')) (<[hd := head_node i]> (nodes c')) (gen c')).
Proof.
  intros Hi Hlt (Hl & Hg & Hdone & Htodo & Hfr). split_and!; simpl.
  - by rewrite length_insert.
  - done.
  - intros j hd' Hj Hhd'. destruct (decide (j = i)) as [->|Hne].
    + rewrite Hi in Hhd'. injection Hhd' as <-.
      by rewrite list_lookup_insert_eq, lookup_insert_eq by (by rewrite Hl).
    + rewrite list_lookup_insert_ne, lookup_insert_ne by (done || (intros ->; apply Hne; by eapply NoDup_lookup)).
      apply Hdone; [lia|done].
  - intros j hd' Hj Hhd'. rewrite lookup_insert_ne; [apply (Htodo j); [lia|done]|].
    intros ->. assert (i = j); [by eapply NoDup_lookup|lia].
  - intros l Hl'. rewrite lookup_insert_ne; [by apply Hfr|]. intros <-.
    by eapply Hl', list_elem_of_lookup_2.
Qed.

Lemma initialised_rep c' :
  length hs = AREAS → initialised AREAS c' → ∃ D, cache_rep c' (λ _, []) D.
Proof.
  intros Hall (Hl & _ & Hdone & _ & _).
  assert (∀ i, (i < AREAS)%nat → ∃ hd, hs !! i = Some hd) as Hhd.
  { intros i Hi. rewrite <-Hall in Hi. apply lookup_lt_is_Some_2 in Hi as [hd ?]. by exists hd. }
  exists (λ i, match hs !! i with Some hd => {[hd]} | None => ∅ end). split_and!.
  - done.
  - intros i s Hs. pose proof (lookup_lt_Some _ _ _ Hs) as Hi. rewrite Hl in Hi.
    destruct (Hhd i Hi) as [hd Hi']. destruct (Hdone i hd Hi Hi') as [Hs' Hn].
    rewrite Hs in Hs'. injection Hs' as ->. rewrite Hi'. simpl.
    rewrite <-(insert_id (nodes c') hd (head_node i)) by done. split_and!.
    + by apply sl_rep_empty.
    + constructor.
    + exists hd. eexists. split; [done|]. unfold entry_of. by rewrite lookup_insert_eq.
  - intros i j Hi Hj Hne. destruct (Hhd i Hi) as [x Hx], (Hhd j Hj) as [y Hy].
    rewrite Hx, Hy. apply disjoint_singleton_l. rewrite elem_of_singleton. intros ->.
    apply Hne. by eapply NoDup_lookup.
Qed.

(** The allocator serves the blocks [hs], then fails if they are too few. *)
Lemma init_spec :
  length hs = AREAS ∨ hd_error rest = Some Null →
  returns (kvcache_init c (map Addr hs ++ rest) junk) (λ r,
    gen r.2 = gen c ∧ (∀ l, l ∉ hs → nodes r.2 !! l = nodes c !! l) ∧
    (length hs = AREAS → r.1 = 0 ∧ ∃ D, cache_rep r.2 (λ _, []) D) ∧
    ((length hs < AREAS)%nat → r.1 = -1)).
Proof.
  intros Hrest. eapply (loop_returns (λ st : Z * list ptr * kvcache, ∃ i : nat,
      (i ≤ length hs)%nat ∧ st.1.1 = Z.of_nat i ∧ st.1.2 = map Addr (drop i hs) ++ rest ∧ initialised i st.2)
    (λ st : Z * list ptr * kvcache, (AREAS - Z.to_nat st.1.1)%nat)).
  - intros [[i' ms] c'] (i & Hi & Ei & Ems & Hc'). cbn [fst snd] in *. subst i' ms.
    pose proof Hc' as (Hl & Hg & Hdone & Htodo & Hfr).
    destruct (Z.ltb_spec (Z.of_nat i) MAX_AREA_SIZE) as [Hlt|Hge]; cycle 1.
    { assert (length hs = AREAS ∧ i = AREAS) as [Hall ->] by (unfold AREAS in *; lia).
      cbn [returns fst snd]. split_and!; [done|done| |lia]. intros _. split; [done|by apply initialised_rep]. }
    assert (i < AREAS)%nat as Hia by (unfold AREAS; lia).
    destruct (hs !! i) as [hd|] eqn:Ehd.
    + rewrite (drop_S _ _ _ Ehd). cbn [map app].
      rewrite aset_ok by (rewrite Hl; lia). cbn [mbind outcome_bind new_node].
      rewrite bool_decide_eq_false_2 by done. rewrite !Nat2Z.id. cbn [mbind outcome_bind].
      rewrite clear_elems_spec. cbn [mbind outcome_bind returns fst snd].
      split; [|lia]. exists (S i). apply lookup_lt_Some in Ehd as Hih.
      split_and!; [lia|lia|done|]. by apply initialised_step.
    + apply lookup_ge_None_1 in Ehd. rewrite drop_ge by lia. cbn [map app].
      destruct Hrest as [|Hrest]; [lia|]. destruct rest as [|m rest']; [done|].
      simpl in Hrest. injection Hrest as ->. rewrite aset_ok by (rewrite Hl; lia).
      cbn [mbind outcome_bind]. rewrite bool_decide_eq_true_2 by done. cbn [returns fst snd gen nodes].
      split_and!; [done|done|lia|done].
  - exists O. split_and!; [lia|done|by rewrite drop_0|by apply initialised_start].
  - cbn [fst snd]. unfold AREAS. lia.
Qed.
End init.

(** ** Properties *)

(** [kvcache_init], when the allocator serves every request, returns 0 and
    leaves a cache in which no key has an item; when a request fails it returns
    -1. *)
Lemma kvcache_init_correct c ms rest junk :
  length (kvcache_head_ring c) = AREAS → NoDup ms → (∀ l, l ∈ ms → nodes c !! l = None) →
  length ms = AREAS ∨ (length ms < AREAS)%nat ∧ hd_error rest = Some Null →
  returns (kvcache_init c (map Addr ms ++ rest) junk) (λ r,
    (length ms = AREAS → r.1 = 0 ∧ cache_is r.2 (λ _, [])) ∧ ((length ms < AREAS)%nat → r.1 = -1)).
Proof.
  intros Hlen Hnd Hfr Hr.
  eapply returns_mono; [apply (init_spec c junk ms rest Hlen); [lia|done|done|tauto]|].
  intros r (_ & _ & H1 & H2). split; [|done]. intros Hall.
  destruct (H1 Hall) as (? & D & ?). split; [done|]. by exists (λ _, []), D.
Qed.

(** The concrete cache of the examples. *)
Definition blocks : list loc := Pos.of_succ_nat <$> seq 0 AREAS.
Definition raw_cache : kvcache :=
  Kv (replicate AREAS (SlHead 0 Null)) ∅ (Rng 15 [12; 3; 3; 12; 3; 3; 12; 3; 3]).
Definition no_junk (i : Z) : Z * Z := (0, 0).

Lemma blocks_length : length blocks = AREAS.
Proof. unfold blocks. by rewrite length_fmap, length_seq. Qed.

Lemma blocks_nodup : NoDup blocks.
Proof.
  apply NoDup_fmap_2; [|apply NoDup_ListNoDup, seq_NoDup]. intros a b Hab.
  by apply SuccNat2Pos.inj.
Qed.

Lemma raw_length : length (kvcache_head_ring raw_cache) = AREAS.
Proof. apply length_replicate. Qed.

Lemma kvcache_init_example :
  returns (kvcache_init raw_cache (map Addr blocks ++ []) no_junk) (λ r,
    (length blocks = AREAS → r.1 = 0 ∧ cache_is r.2 (λ _, [])) ∧ ((length blocks < AREAS)%nat → r.1 = -1)).
Proof.
  apply (kvcache_init_correct raw_cache blocks [] no_junk).
  - apply raw_length.
  - apply blocks_nodup.
  - intros l _. apply lookup_empty.
  - left. apply blocks_length.
Defined.

(** The example programs start from the initialised cache. *)
Definition demo_table : list Z := replicate 256 7 ++ (Z.of_nat <$> seq 0 1024).

Lemma demo_init :
  returns (kvcache_init raw_cache (map Addr blocks ++ []) no_junk) (λ r,
    rng_ok 9 (gen r.2) ∧ (∀ l, (Pos.of_succ_nat AREAS ≤ l)%positive → nodes r.2 !! l = None) ∧
    ∃ D, cache_rep r.2 (λ _, []) D).
Proof.
  eapply returns_mono; [apply (init_spec raw_cache no_junk blocks [] raw_length)|].
  - by rewrite blocks_length.
  - apply blocks_nodup.
  - intros l _. apply lookup_empty.
  - left. apply blocks_length.
  - intros r (Hg & Hfr & Hok & _). rewrite Hg. split_and!.
    + split; [vm_compute; lia|]. split; [vm_compute; split; discriminate|].
      repeat constructor; discriminate.
    + intros l Hl. rewrite Hfr; [apply lookup_empty|]. unfold blocks.
      intros (n & -> & Hn%elem_of_seq)%list_elem_of_fmap. lia.
    + by destruct (Hok blocks_length).
Qed.

Lemma demo_init_is :
  returns (kvcache_init raw_cache (map Addr blocks ++ []) no_junk) (λ r,
    rng_ok 9 (gen r.2) ∧ (∀ l, (Pos.of_succ_nat AREAS ≤ l)%positive → nodes r.2 !! l = None) ∧
    cache_is r.2 (λ _, [])).
Proof.
  eapply returns_mono; [apply demo_init|]. intros r (H1 & H2 & D & H3). split_and!; [done|done|].
  by exists (λ _, []), D.
Qed.

(** C5: [kvcache_set], given fresh memory, always returns 0 and appends an item
    with copies of the key and value bytes and the given times to the queue of
    the key's hashes; every other queue is as before.  It does so even when the
    key has an item already, so the branch that replaces the old value is never
    taken. *)
Theorem kvcache_set_correct n t c Q ky v kl vl tt x now i k :
  cache_is c Q → area_of t ky kl = Ret (i, k) →
  nodes c !! x = None → rng_ok (3 + n) (gen c) →
  0 ≤ kl ≤ Z.of_nat (length ky) → 0 ≤ vl ≤ Z.of_nat (length v) →
  returns (kvcache_set t c ky v kl vl tt (Addr x) true true now) (λ r,
    r.1 = 0 ∧ rng_ok n (gen r.2) ∧
    cache_is r.2 (<[(i, k) := Q (i, k) ++ [item (take (Z.to_nat kl) ky) (take (Z.to_nat vl) v) kl vl tt now]]> Q)).
Proof.
  intros. eapply returns_mono; [by eapply set_spec|]. by intros r (? & ? & _ & ?).
Qed.

Lemma kvcache_set_correct_witness :
  returns (let! r := kvcache_init raw_cache (map Addr blocks ++ []) no_junk in
           kvcache_set demo_table r.2 [104] [1; 2] 1 2 60 (Addr (Pos.of_succ_nat AREAS)) true true 1000)
    (λ r, r.1 = 0 ∧ rng_ok 6 (gen r.2) ∧
      cache_is r.2 (<[(28380, (187832, (6154907283, 6154907539))) := [item [104] [1; 2] 1 2 60 1000]]> (λ _, []))).
Proof.
  run demo_init_is. intros r (Hg & Hfr & Hc).
  refine (kvcache_set_correct 6 demo_table r.2 _ [104] [1; 2] 1 2 60 _ 1000 _ _ Hc _ _ Hg _ _).
  - vm_compute. reflexivity.
  - apply Hfr. apply Pos.le_refl.
  - simpl; lia.
  - simpl; lia.
Defined.

(** [kvcache_get] returns the value of the oldest item of the key's hashes,
    or null when there is none or the oldest one is past its deadline
    [tms + ttl]; it changes nothing. *)
Lemma kvcache_get_correct t c Q ky kl now i k :
  cache_is c Q → area_of t ky kl = Ret (i, k) → Forall deadline_ok (Q (i, k)) →
  kvcache_get t c ky kl now = Ret
    match Q (i, k) with
    | [] => BNull
    | d :: _ => if expired d now then BNull else value d
    end.
Proof. apply get_spec. Qed.

Lemma kvcache_get_correct_witness :
  returns (let! r := kvcache_init raw_cache (map Addr blocks ++ []) no_junk in
           let! r := kvcache_set demo_table r.2 [104] [1; 2] 1 2 60 (Addr (Pos.of_succ_nat AREAS)) true true 1000 in
           kvcache_get demo_table r.2 [104] 1 1060) (λ b, b = BData [1; 2]).
Proof.
  run demo_init_is. intros r (Hg & Hfr & Hc).
  run (set_spec 6 demo_table r.2 _ [104] [1; 2] 1 2 60 (Pos.of_succ_nat AREAS) 1000
         28380 (187832, (6154907283, 6154907539)) Hc);
    [by vm_compute|apply Hfr, Pos.le_refl|done|simpl; lia|simpl; lia|].
  intros r' (_ & _ & _ & Hc').
  rewrite (kvcache_get_correct demo_table r'.2 _ [104] 1 1060 28380 (187832, (6154907283, 6154907539)) Hc');
    [reflexivity|reflexivity|].
  change (Forall deadline_ok [item [104] [1; 2] 1 2 60 1000]).
  constructor; [|constructor]. unfold deadline_ok. vm_compute. split; [discriminate|reflexivity].
Defined.

(** a [kvcache_set] followed by a [kvcache_get] of the key, or of any key
    with the same hashes (another letter case), gives the value just set when
    the key had no item; when it had one, the value set is ignored and the get
    answers from the old item. *)
Lemma kvcache_set_get n t c Q ky v kl vl tt x now ky' kl' now' i k :
  cache_is c Q → area_of t ky kl = Ret (i, k) → area_of t ky' kl' = Ret (i, k) →
  nodes c !! x = None → rng_ok (3 + n) (gen c) →
  0 ≤ kl ≤ Z.of_nat (length ky) → 0 ≤ vl ≤ Z.of_nat (length v) →
  Forall deadline_ok (Q (i, k)) → is_s64 (now + tt) →
  returns (let! r := kvcache_set t c ky v kl vl tt (Addr x) true true now in
           kvcache_get t r.2 ky' kl' now') (λ b,
    b = match Q (i, k) with
        | [] => if now + tt <? now' then BNull else BData (take (Z.to_nat vl) v)
        | d :: _ => if expired d now' then BNull else value d
        end).
Proof.
  intros Hc Ha Ha' Hx Hg Hkl Hvl Hd Hlim. run (set_spec n); try done. intros r (_ & _ & _ & Hr).
  rewrite (get_spec t r.2 _ ky' kl' now' i k Hr Ha'); rewrite (fn_lookup_insert Q).
  - cbn [returns]. by destruct (Q (i, k)).
  - apply Forall_app. split; [done|]. by constructor.
Qed.

(** A second [set] of the same key is lost; its letter case does not matter. *)
Lemma kvcache_set_get_witness :
  returns (let! r := kvcache_init raw_cache (map Addr blocks ++ []) no_junk in
           let! r := kvcache_set demo_table r.2 [104] [1; 2] 1 2 60 (Addr (Pos.of_succ_nat AREAS)) true true 1000 in
           let! r := kvcache_set demo_table r.2 [104] [3] 1 1 60 (Addr (Pos.succ (Pos.of_succ_nat AREAS))) true true 1010 in
           kvcache_get demo_table r.2 [72] 1 1060) (λ b, b = BData [1; 2]).
Proof.
  run demo_init_is. intros r (Hg & Hfr & Hc).
  run (set_spec 6 demo_table r.2 _ [104] [1; 2] 1 2 60 (Pos.of_succ_nat AREAS) 1000
         28380 (187832, (6154907283, 6154907539)) Hc);
    [by vm_compute|apply Hfr, Pos.le_refl|done|simpl; lia|simpl; lia|].
  intros r' (_ & Hg' & Hfr' & Hc').
  eapply returns_mono;
    [eapply (kvcache_set_get 3 demo_table r'.2 _ [104] [3] 1 1 60 _ 1010 [72] 1 1060 28380
               (187832, (6154907283, 6154907539)) Hc')|].
  - reflexivity.
  - reflexivity.
  - apply Hfr'; [lia|]. apply Hfr. lia.
  - done.
  - simpl; lia.
  - simpl; lia.
  - change (Forall deadline_ok [item [104] [1; 2] 1 2 60 1000]).
    constructor; [|constructor]. unfold deadline_ok. vm_compute. split; [discriminate|reflexivity].
  - unfold is_s64. lia.
  - intros b ->. reflexivity.
Defined.

(** [kvcache_del] of a key without items returns -1 and keeps the cache;
    when no other key shares its area and priority, it returns 0 and removes
    exactly the oldest item of the key: the younger ones come back to light. *)
Lemma kvcache_del_correct t c Q ky kl i p a :
  cache_is c Q → area_of t ky kl = Ret (i, (p, a)) → (∀ a', a' ≠ a → Q (i, (p, a')) = []) →
  returns (kvcache_del t c ky kl) (λ r,
    match Q (i, (p, a)) with
    | [] => r.1 = -1 ∧ cache_is r.2 Q ∧ nodes r.2 = nodes c
    | d :: q => r.1 = 0 ∧ gen r.2 = gen c ∧ cache_is r.2 (<[(i, (p, a)) := q]> Q)
    end).
Proof. apply del_spec. Qed.

Lemma kvcache_del_correct_witness :
  returns (let! r := kvcache_init raw_cache (map Addr blocks ++ []) no_junk in
           let! r := kvcache_set demo_table r.2 [104] [1; 2] 1 2 60 (Addr (Pos.of_succ_nat AREAS)) true true 1000 in
           kvcache_del demo_table r.2 [104] 1) (λ r, r.1 = 0).
Proof.
  run demo_init_is. intros r (Hg & Hfr & Hc).
  run (set_spec 6 demo_table r.2 _ [104] [1; 2] 1 2 60 (Pos.of_succ_nat AREAS) 1000
         28380 (187832, (6154907283, 6154907539)) Hc);
    [by vm_compute|apply Hfr, Pos.le_refl|done|simpl; lia|simpl; lia|].
  intros r' (_ & _ & _ & Hc').
  eapply returns_mono;
    [apply (kvcache_del_correct demo_table r'.2 _ [104] 1 28380 187832 (6154907283, 6154907539) Hc')|].
  - reflexivity.
  - intros a' Ha'. etransitivity; [apply fn_lookup_insert_ne; congruence|reflexivity].
  - intros r'' H. exact (proj1 H).
Defined.

(** C24 [kvcache_ttl] returns the age in seconds of the oldest item, -1 when
    that is not positive, and 0 when the key has no item; it looks neither at
    the deadline nor at [ttl].  [kvcache_expire] restarts the clock of the
    oldest item with the new time to live and returns 0; an item past its
    deadline stays so (-1), and without an item the cache is unchanged, the
    answer being 0 again. *)
Theorem kvcache_lifetime_correct t c Q ky kl tt now i k :
  cache_is c Q → area_of t ky kl = Ret (i, k) →
  Forall (λ d, deadline_ok d ∧ is_s64 (now - from_option id 0 (tms d))) (Q (i, k)) →
  kvcache_ttl t c ky kl now = Ret
    match Q (i, k) with
    | [] => 0
    | d :: _ => let age := s32 (now - from_option id 0 (tms d)) in if 0 <? age then age else -1
    end ∧
  returns (kvcache_expire t c ky kl tt now) (λ r,
    match Q (i, k) with
    | [] => r = (0, c)
    | d :: q => if expired d now then r = (-1, c)
                else r.1 = 0 ∧ gen r.2 = gen c ∧ cache_is r.2 (<[(i, k) := renewed d tt now :: q]> Q)
    end).
Proof. intros Hc Ha [H1 H2]%Forall_and. split; [by eapply ttl_spec|by apply expire_spec]. Qed.

Lemma kvcache_lifetime_correct_witness :
  returns (let! r := kvcache_init raw_cache (map Addr blocks ++ []) no_junk in
           let! r := kvcache_set demo_table r.2 [104] [1; 2] 1 2 60 (Addr (Pos.of_succ_nat AREAS)) true true 1000 in
           let! z := kvcache_ttl demo_table r.2 [104] 1 1007 in
           let! e := kvcache_expire demo_table r.2 [104] 1 600 1007 in Ret (z, e.1)) (λ r, r = (7, 0)).
Proof.
  run demo_init_is. intros r (Hg & Hfr & Hc).
  run (set_spec 6 demo_table r.2 _ [104] [1; 2] 1 2 60 (Pos.of_succ_nat AREAS) 1000
         28380 (187832, (6154907283, 6154907539)) Hc);
    [by vm_compute|apply Hfr, Pos.le_refl|done|simpl; lia|simpl; lia|].
  intros r' (_ & _ & _ & Hc').
  destruct (kvcache_lifetime_correct demo_table r'.2 _ [104] 1 600 1007 28380 (187832, (6154907283, 6154907539)) Hc') as [-> He].
  - reflexivity.
  - change (Forall (λ d, deadline_ok d ∧ is_s64 (1007 - from_option id 0 (tms d))) [item [104] [1; 2] 1 2 60 1000]).
    constructor; [|constructor]. unfold deadline_ok. vm_compute. repeat split; discriminate || reflexivity.
  - cbn [mbind outcome_bind]. run He. intros e [He' _]. by rewrite He'.
Defined.

(** When an older item of the same area and priority belongs to another
    key, [kvcache_del] returns 0 but releases the node without unlinking it: a
    node of the list still leads to the released memory. *)
Lemma kvcache_del_dangling t c E D ky kl i p a e e' :
  cache_rep c E D → area_of t ky kl = Ret (i, (p, a)) →
  lookup_prio p (E (Z.to_nat i)) = Some e' → key_of e' ≠ (p, a) →
  lookup_first (p, a) (E (Z.to_nat i)) = Some e →
  returns (kvcache_del t c ky kl) (λ r,
    r.1 = 0 ∧ ∃ l z, z ∈ D (Z.to_nat i) ∧ el (nodes r.2) z 0 = Some (Addr l) ∧ nodes r.2 !! l = None).
Proof.
  intros Hc Ha He' Hne He. pose proof (area_of_range _ _ _ _ _ Ha) as Hi.
  destruct (cache_area c E D i Hc Hi) as (s & Hs & Hget & Hset & Hsl & Hlive & _).
  unfold kvcache_del. rewrite Ha. destruct a as [a1 a2]. cbn [mbind outcome_bind].
  rewrite Hget. cbn [mbind outcome_bind]. unfold __kvcache_del.
  assert (live e.2) as Hel.
  { rewrite Forall_forall in Hlive. apply Hlive. clear -He.
    induction (E (Z.to_nat i)) as [|x es IH]; [done|]. simpl in He. case_bool_decide; set_solver. }
  pose proof (rep_del_dangling __kv_node_free _ s _ _ p a1 a2 e e' Hsl He' He Hne (live_release _ Hel)) as Hd.
  apply returns_eq in Hd as ([q [h' s']] & -> & x & z & -> & -> & _ & Hz & Hz' & Hn).
  cbn [mbind outcome_bind fst snd]. rewrite bool_decide_eq_false_2 by done.
  rewrite Hset. cbn [mbind outcome_bind returns fst snd nodes]. split; [done|]. by exists x, z.
Qed.

(** Keys [h] and [j], whose first hashes collide in the example table. *)
Lemma kvcache_del_dangling_witness :
  returns (let! r := kvcache_init raw_cache (map Addr blocks ++ []) no_junk in
           let! r := kvcache_set demo_table r.2 [104] [1; 2] 1 2 60 (Addr (Pos.of_succ_nat AREAS)) true true 1000 in
           let! r := kvcache_set demo_table r.2 [106] [3] 1 1 60 (Addr (Pos.succ (Pos.of_succ_nat AREAS))) true true 1001 in
           kvcache_del demo_table r.2 [106] 1)
    (λ r, r.1 = 0 ∧ ∃ l z, el (nodes r.2) z 0 = Some (Addr l) ∧ nodes r.2 !! l = None).
Proof.
  run demo_init. intros r (Hg & Hfr & D & Hc).
  run (set_rep 6 demo_table r.2 _ _ [104] [1; 2] 1 2 60 (Pos.of_succ_nat AREAS) 1000
         28380 (187832, (6154907283, 6154907539)) Hc);
    [by vm_compute|apply Hfr, Pos.le_refl|done|simpl; lia|simpl; lia|].
  intros r' (_ & Hg' & Hfr' & D' & Hc').
  run (set_rep 3 demo_table r'.2 _ _ [106] [3] 1 1 60 (Pos.succ (Pos.of_succ_nat AREAS)) 1001
         28380 (187832, (6154907281, 6154907537)) Hc');
    [by vm_compute|apply Hfr'; [lia|]; apply Hfr; lia|done|simpl; lia|simpl; lia|].
  intros r2 (_ & _ & _ & D2 & Hc2).
  eapply returns_mono;
    [eapply (kvcache_del_dangling demo_table r2.2 _ D2 [106] 1 28380 187832 (6154907281, 6154907537)
        ((187832, (6154907281, 6154907537)), item [106] [3] 1 1 60 1001)
        ((187832, (6154907283, 6154907539)), item [104] [1; 2] 1 2 60 1000) Hc2)|].
  - reflexivity.
  - reflexivity.
  - discriminate.
  - reflexivity.
  - intros r3 (H0 & l & z & _ & H1 & H2). split; [done|]. by exists l, z.
Defined.

(** [kvcache_free] is undefined on every cache that [kvcache_init] and the
    operations can build: the first node it releases is a head node, whose key
    and value pointers were never written. *)
Lemma kvcache_free_undefined c Q : cache_is c Q → kvcache_free c = Stuck.
Proof.
  intros (E & D & Hc & _). unfold kvcache_free.
  rewrite for_range_S by (unfold MAX_AREA_SIZE; lia).
  destruct (cache_area c E D 0 Hc) as (s & Hs & -> & _ & Hsl & _ & hd & k & Hh & Hk).
  { unfold MAX_AREA_SIZE. lia. }
  cbn [mbind outcome_bind]. unfold __kvcache_free, free_all. rewrite loop_S, Hh.
  destruct Hsl as (hd' & L & (Hh' & lvl & _ & Hwf) & _ & _). rewrite Hh in Hh'. injection Hh' as <-.
  change 0 with (Z.of_nat 0).
  rewrite (get_elem_eq _ _ _ _ (wf_head_el _ _ _ _ 0 Hwf ltac:(unfold MAX_SK_LEVEL; lia))).
  eapply entry_some; [exact Hk|]. intros n Hn Hp. cbn [mbind outcome_bind deref].
  rewrite Hn. cbn [mbind outcome_bind]. by rewrite Hp.
Qed.

Lemma kvcache_free_undefined_witness :
  ∃ c, kvcache_init raw_cache (map Addr blocks ++ []) no_junk = Ret (0, c) ∧ kvcache_free c = Stuck.
Proof.
  pose proof demo_init_is as H. pose proof (init_spec raw_cache no_junk blocks [] raw_length) as H'.
  destruct (kvcache_init raw_cache (map Addr blocks ++ []) no_junk) as [[z c]| |]; [|destruct H..].
  destruct H as (_ & _ & Hc). exists c. split; [|exact (kvcache_free_undefined c _ Hc)].
  destruct H' as (_ & _ & H' & _).
  - by rewrite blocks_length.
  - apply blocks_nodup.
  - intros l _. apply lookup_empty.
  - left. apply blocks_length.
  - cbn [fst snd] in H'. by destruct (H' blocks_length) as [-> _].
Defined.
