(* ===== verification/Kfifo.v ===== *)
(** * The ring-buffer FIFO: [mycache/src/struct/kfifo.c], [kfifo.h]

    The indices [in] and [out] run freely modulo 2^32 and are reduced modulo
    the size, a power of two, at each access.  The first part models the
    operations; the second lets one writer and one reader run the unlocked
    operations concurrently, in sequentially consistent steps. *)

From stdpp Require Import relations.
From S2P Require Import Prelude.

Definition is_power_of_2 (x : Z) : bool := negb (x =? 0) && (Z.land x (x - 1) =? 0).

(** One test of [fls]: move the upper half down when it is not empty. *)
Definition fls_half (mask k : Z) (st : Z * Z) : Z * Z :=
  if negb (Z.land st.1 mask =? 0) then (Z.shiftr st.1 k, st.2 + k) else st.

Definition fls (x : Z) : Z :=
  if x =? 0 then 0
  else (fls_half 0x2 1 (fls_half 0xc 2 (fls_half 0xf0 4 (fls_half 0xff00 8
          (fls_half 0xffff0000 16 (x, 0)))))).2.

(** [1 << k] on [int], whose value for [k = 31] gcc defines as [INT_MIN]. *)
Definition roundup_pow_of_two (n : Z) : Z :=
  if n =? 0 then 0 else u32 (s32 (Z.shiftl 1 (if 2 ^ 31 <=? n then 31 else fls n + 1))).

(** [struct kfifo]; the lock is its state, held or not. *)
Record kfifo : Type := Kfifo {
  buffer : list Z;
  size : Z;
  in_ : Z;
  out : Z;
  lock : bool
}.

(** Taking a spin lock that is held never ends here: nobody else runs. *)
Definition pthread_spin_lock (f : kfifo) : outcome kfifo :=
  if lock f then Loop else Ret (Kfifo (buffer f) (size f) (in_ f) (out f) true).
Definition pthread_spin_unlock (f : kfifo) : kfifo :=
  Kfifo (buffer f) (size f) (in_ f) (out f) false.

(** [ok]: the structure could be allocated. *)
Definition kfifo_init (buffer : list Z) (size : Z) (ok : bool) : outcome (option kfifo) :=
  if is_power_of_2 size then
    if ok then Ret (Some (Kfifo buffer size 0 0 false)) else Ret None
  else Stuck.

(** [malloc n]: the block of [n] bytes returned for the buffer, if any. *)
Definition kfifo_alloc (malloc : Z → option (list Z)) (ok : bool) (size : Z) : outcome (option kfifo) :=
  let! size :=
    (if is_power_of_2 size then Ret size
     else if 0x80000000 <? size then Stuck
     else Ret (roundup_pow_of_two size)) in
  match malloc size with
  | None => Ret None
  | Some buffer => kfifo_init buffer size ok
  end.

Definition set_buffer (f : kfifo) (b : list Z) : kfifo := Kfifo b (size f) (in_ f) (out f) (lock f).
Definition set_in (f : kfifo) (i : Z) : kfifo := Kfifo (buffer f) (size f) i (out f) (lock f).
Definition set_out (f : kfifo) (o : Z) : kfifo := Kfifo (buffer f) (size f) (in_ f) o (lock f).

(** The pieces of the two transfers: the length (while nobody else moves the
    other index, the two evaluations of it in [min] agree), the two copies. *)
Definition put_space (f : kfifo) : Z := u32 (u32 (size f - in_ f) + out f).
Definition put_len (f : kfifo) (len : Z) : Z := Z.min len (put_space f).
Definition put_l (f : kfifo) (len : Z) : Z := Z.min len (size f - Z.land (in_ f) (size f - 1)).
Definition put_copy1 (f : kfifo) (src : list Z) (len : Z) : outcome kfifo :=
  let! b := memcpy (buffer f) (Z.land (in_ f) (size f - 1)) src 0 (put_l f len) in Ret (set_buffer f b).
Definition put_copy2 (f : kfifo) (src : list Z) (len : Z) : outcome kfifo :=
  let! b := memcpy (buffer f) 0 src (put_l f len) (len - put_l f len) in Ret (set_buffer f b).

Definition __kfifo_put (f : kfifo) (src : list Z) (len : Z) : outcome (Z * kfifo) :=
  let len := put_len f len in
  let! f := put_copy1 f src len in
  let! f := put_copy2 f src len in
  Ret (len, set_in f (u32 (in_ f + len))).

Definition get_len (f : kfifo) (len : Z) : Z := Z.min len (u32 (in_ f - out f)).
Definition get_l (f : kfifo) (len : Z) : Z := Z.min len (size f - Z.land (out f) (size f - 1)).
Definition get_copy1 (f : kfifo) (dst : list Z) (len : Z) : outcome (list Z) :=
  memcpy dst 0 (buffer f) (Z.land (out f) (size f - 1)) (get_l f len).
Definition get_copy2 (f : kfifo) (dst : list Z) (len : Z) : outcome (list Z) :=
  memcpy dst (get_l f len) (buffer f) 0 (len - get_l f len).

(** Also returns the destination buffer. *)
Definition __kfifo_get (f : kfifo) (dst : list Z) (len : Z) : outcome (Z * list Z * kfifo) :=
  let len := get_len f len in
  let! dst := get_copy1 f dst len in
  let! dst := get_copy2 f dst len in
  Ret (len, dst, set_out f (u32 (out f + len))).

Definition __kfifo_reset (f : kfifo) : kfifo := set_in (set_out f 0) 0.

Definition kfifo_reset (f : kfifo) : outcome kfifo :=
  let! f := pthread_spin_lock f in Ret (pthread_spin_unlock (__kfifo_reset f)).

Definition kfifo_put (f : kfifo) (src : list Z) (len : Z) : outcome (Z * kfifo) :=
  let! f := pthread_spin_lock f in
  let! r := __kfifo_put f src len in
  Ret (r.1, pthread_spin_unlock r.2).

Definition kfifo_get (f : kfifo) (dst : list Z) (len : Z) : outcome (Z * list Z * kfifo) :=
  let! f := pthread_spin_lock f in
  let! r := __kfifo_get f dst len in
  let f := if in_ r.2 =? out r.2 then __kfifo_reset r.2 else r.2 in
  Ret (r.1, pthread_spin_unlock f).

Definition __kfifo_len (f : kfifo) : Z := u32 (in_ f - out f).

Definition kfifo_len (f : kfifo) : outcome (Z * kfifo) :=
  let! f := pthread_spin_lock f in Ret (__kfifo_len f, pthread_spin_unlock f).

(** ** Powers of two *)
Lemma is_power_of_2_spec x :
  0 ≤ x → is_power_of_2 x = true ↔ ∃ k, 0 ≤ k ∧ x = 2 ^ k.
Proof.
  intros Hx. unfold is_power_of_2. rewrite andb_true_iff, negb_true_iff, Z.eqb_neq, Z.eqb_eq. split.
  - intros [Hnz Hl]. exists (Z.log2 x). split; [apply Z.log2_nonneg|].
    destruct (Z.log2_spec x ltac:(lia)) as [H1 H2]. destruct (decide (x = 2 ^ Z.log2 x)); [done|].
    exfalso. pose proof (Z.log2_nonneg x) as Hk.
    assert (Z.testbit (Z.land x (x - 1)) (Z.log2 x) = true) as Hb; [|by rewrite Hl, Z.bits_0 in Hb].
    assert (∀ y, 2 ^ Z.log2 x ≤ y < 2 ^ Z.succ (Z.log2 x) → Z.testbit y (Z.log2 x) = true) as Hbit.
    { intros y Hy. rewrite <-(Z.log2_unique y (Z.log2 x)) by done. apply Z.bit_log2.
      assert (0 < 2 ^ Z.log2 x) by (apply Z.pow_pos_nonneg; lia). lia. }
    rewrite Z.land_spec, !Hbit by lia. done.
  - intros (k & Hk & ->). assert (0 < 2 ^ k) by (apply Z.pow_pos_nonneg; lia). split; [lia|].
    replace (2 ^ k - 1) with (Z.ones k) by (rewrite Z.ones_equiv; lia).
    rewrite Z.land_ones by done. apply Z.mod_same. lia.
Qed.

Lemma fls_half_spec k x r :
  0 < k → 0 < x < 2 ^ (2 * k) →
  let st := fls_half (Z.shiftl (Z.ones k) k) k (x, r) in
  0 < st.1 < 2 ^ k ∧ st.2 + Z.log2 st.1 = r + Z.log2 x.
Proof.
  intros Hk Hx. unfold fls_half. simpl fst. simpl snd.
  assert (0 < 2 ^ k) by (apply Z.pow_pos_nonneg; lia).
  replace (2 * k) with (k + k) in Hx by lia. rewrite Z.pow_add_r in Hx by lia.
  assert (Z.land x (Z.shiftl (Z.ones k) k) = Z.shiftl (Z.shiftr x k) k) as E.
  { apply Z.bits_inj'. intros i Hi. rewrite Z.land_spec.
    destruct (decide (i < k)); [by rewrite !Z.shiftl_spec_low, andb_false_r by lia|].
    rewrite !Z.shiftl_spec, Z.shiftr_spec by lia. replace (i - k + k) with i by lia.
    destruct (decide (i < 2 * k)); [by rewrite Z.ones_spec_low, andb_true_r by lia|].
    rewrite (testbit_small x (k + k)) by (rewrite ?Z.pow_add_r; lia). done. }
  rewrite E, Z.shiftl_mul_pow2, Z.shiftr_div_pow2 by lia.
  destruct (Z.eqb_spec (x / 2 ^ k * 2 ^ k) 0) as [H0|H0]; simpl.
  - split; [|done]. assert (x / 2 ^ k = 0) as Hq by nia. apply Z.div_small_iff in Hq; lia.
  - assert (x / 2 ^ k ≠ 0) by (intros Hq; rewrite Hq in H0; lia).
    pose proof (Z.div_pos x (2 ^ k)). split.
    + split; [lia|]. apply Z.div_lt_upper_bound; lia.
    + rewrite <-Z.shiftr_div_pow2, Z.log2_shiftr by lia.
      assert (k ≤ Z.log2 x); [|lia]. apply Z.log2_le_pow2; [lia|].
      destruct (decide (2 ^ k ≤ x)); [done|]. rewrite Z.div_small in H0 by lia. lia.
Qed.

Lemma fls_log2 x : 0 < x < 2 ^ 32 → fls x = Z.log2 x.
Proof.
  intros Hx. unfold fls. destruct (Z.eqb_spec x 0); [lia|].
  destruct (fls_half_spec 16 x 0) as [H1 E1]; [lia|done|].
  change (Z.shiftl (Z.ones 16) 16) with 0xffff0000 in *. destruct (fls_half 0xffff0000 16 (x, 0)) as [x1 r1].
  destruct (fls_half_spec 8 x1 r1) as [H2 E2]; [lia|done|].
  change (Z.shiftl (Z.ones 8) 8) with 0xff00 in *. destruct (fls_half 0xff00 8 (x1, r1)) as [x2 r2].
  destruct (fls_half_spec 4 x2 r2) as [H3 E3]; [lia|done|].
  change (Z.shiftl (Z.ones 4) 4) with 0xf0 in *. destruct (fls_half 0xf0 4 (x2, r2)) as [x3 r3].
  destruct (fls_half_spec 2 x3 r3) as [H4 E4]; [lia|done|].
  change (Z.shiftl (Z.ones 2) 2) with 0xc in *. destruct (fls_half 0xc 2 (x3, r3)) as [x4 r4].
  destruct (fls_half_spec 1 x4 r4) as [H5 E5]; [lia|done|].
  change (Z.shiftl (Z.ones 1) 1) with 0x2 in *. destruct (fls_half 0x2 1 (x4, r4)) as [x5 r5].
  simpl in *. change (2 ^ 1) with 2 in *. assert (x5 = 1) as -> by lia. simpl in *. lia.
Qed.

(** The least power of two above a number that is none. *)
Lemma roundup_spec n :
  0 < n ≤ 2 ^ 31 → is_power_of_2 n = false →
  roundup_pow_of_two n = 2 ^ (Z.log2 n + 1) ∧ Z.log2 n + 1 ≤ 31.
Proof.
  intros Hn Hp. assert (n < 2 ^ 31) as Hlt.
  { destruct (decide (n = 2 ^ 31)) as [->|]; [done|lia]. }
  assert (Z.log2 n < 31) by (apply Z.log2_lt_pow2; lia). pose proof (Z.log2_nonneg n).
  split; [|lia]. unfold roundup_pow_of_two. destruct (Z.eqb_spec n 0); [lia|].
  destruct (Z.leb_spec (2 ^ 31) n); [lia|]. rewrite fls_log2 by lia.
  rewrite Z.shiftl_mul_pow2, Z.mul_1_l by lia.
  assert (2 ^ (Z.log2 n + 1) ≤ 2 ^ 31) by (apply Z.pow_le_mono_r; lia).
  assert (0 < 2 ^ (Z.log2 n + 1)) by (apply Z.pow_pos_nonneg; lia).
  unfold s32, sw, u32. rewrite (Z.mod_small (2 ^ (Z.log2 n + 1))) by lia.
  destruct (Z.ltb_spec (2 ^ (Z.log2 n + 1)) (2 ^ (32 - 1))); [by apply Z.mod_small; lia|].
  replace (2 ^ (Z.log2 n + 1) - 2 ^ 32) with (2 ^ (Z.log2 n + 1) + (-1) * 2 ^ 32) by lia.
  rewrite Z.mod_add, Z.mod_small by lia. done.
Qed.

(** ** The contents: the bytes from [out] up to [in] *)
Definition cell (f : kfifo) (k : Z) : Z := buffer f !!! Z.to_nat (k mod size f).
Definition used (f : kfifo) : Z := u32 (in_ f - out f).
Definition contents (f : kfifo) : list Z := (λ i, cell f (out f + i)) <$> seqZ 0 (used f).

Record kfifo_wf (f : kfifo) : Prop := KfifoWf {
  wf_pow : ∃ k, 0 ≤ k ≤ 31 ∧ size f = 2 ^ k;
  wf_buf : Z.of_nat (length (buffer f)) = size f;
  wf_in : is_u32 (in_ f);
  wf_out : is_u32 (out f);
  wf_used : used f ≤ size f
}.

Section transfer.
Context (f : kfifo).
Hypothesis (Hwf : kfifo_wf f).

Lemma size_range : 0 < size f ≤ 2 ^ 31.
Proof.
  destruct (wf_pow _ Hwf) as (k & Hk & ->). split; [apply Z.pow_pos_nonneg; lia|].
  apply Z.pow_le_mono_r; lia.
Qed.

Lemma size_mask z : Z.land z (size f - 1) = z mod size f.
Proof.
  destruct (wf_pow _ Hwf) as (k & Hk & ->).
  replace (2 ^ k - 1) with (Z.ones k) by (rewrite Z.ones_equiv; lia). apply Z.land_ones. lia.
Qed.

Lemma u32_mod_size z : u32 z mod size f = z mod size f.
Proof.
  unfold u32. apply Z.mod_mod_divide. destruct (wf_pow _ Hwf) as (k & Hk & ->).
  exists (2 ^ (32 - k)). rewrite <-Z.pow_add_r by lia. f_equal. lia.
Qed.

Lemma used_range : 0 ≤ used f ≤ size f.
Proof. split; [apply u32_range|apply (wf_used _ Hwf)]. Qed.

(** The free space the code computes. *)
Lemma put_space_eq : put_space f = size f - used f.
Proof.
  unfold put_space. pose proof used_range as Hu. pose proof size_range as Hs. unfold used in *.
  replace (u32 (u32 (size f - in_ f) + out f)) with (u32 (size f - u32 (in_ f - out f))).
  - apply u32_id. unfold is_u32. lia.
  - unfold u32. rewrite Zminus_mod_idemp_r, Zplus_mod_idemp_l. f_equal. lia.
Qed.

Lemma pos_wrap a i :
  0 ≤ i < size f →
  (a + i) mod size f = if decide (a mod size f + i < size f) then a mod size f + i
                       else a mod size f + i - size f.
Proof.
  intros Hi. pose proof size_range as Hs. pose proof (Z.mod_pos_bound a (size f) ltac:(lia)).
  rewrite (Z.div_mod a (size f)) at 1 by lia.
  replace (size f * (a / size f) + a mod size f + i)
    with (a mod size f + i + a / size f * size f) by lia.
  rewrite Z.mod_add by lia. case_decide; [apply Z.mod_small; lia|].
  rewrite <-(Z.mod_add _ (-1)) by lia. apply Z.mod_small. lia.
Qed.

Lemma cell_lookup k : buffer f !! Z.to_nat (k mod size f) = Some (cell f k).
Proof.
  pose proof size_range. pose proof (Z.mod_pos_bound k (size f) ltac:(lia)).
  apply list_lookup_lookup_total_lt. pose proof (wf_buf _ Hwf). lia.
Qed.

Lemma length_contents : length (contents f) = Z.to_nat (used f).
Proof. unfold contents. by rewrite length_fmap, length_seqZ. Qed.

Lemma contents_lookup i : 0 ≤ i < used f → contents f !! Z.to_nat i = Some (cell f (out f + i)).
Proof.
  intros Hi. unfold contents. rewrite list_lookup_fmap, lookup_seqZ_lt by lia. simpl.
  do 2 f_equal. lia.
Qed.

(** The two copies of a put, seen from the write index. *)
Section put.
Context (src : list Z) (n : Z).
Hypothesis (Hn : 0 ≤ n ≤ size f).

Lemma put_l_range : 0 ≤ put_l f n ≤ n ∧ in_ f mod size f + put_l f n ≤ size f ∧
  (put_l f n < n → put_l f n = size f - in_ f mod size f).
Proof.
  unfold put_l. rewrite size_mask. pose proof size_range.
  pose proof (Z.mod_pos_bound (in_ f) (size f) ltac:(lia)). lia.
Qed.

Lemma put_copy1_spec :
  put_l f n ≤ Z.of_nat (length src) →
  returns (put_copy1 f src n) (λ f1, f1 = set_buffer f (buffer f1) ∧ kfifo_wf f1 ∧
    ∀ i, 0 ≤ i < size f →
      cell f1 (in_ f + i) = if decide (i < put_l f n) then src !!! Z.to_nat i else cell f (in_ f + i)).
Proof.
  intros Hsrc. pose proof put_l_range as (H1 & H2 & H3). pose proof size_range as Hs.
  pose proof (wf_buf _ Hwf) as Hb. pose proof (Z.mod_pos_bound (in_ f) (size f) ltac:(lia)) as Hm.
  unfold put_copy1. rewrite size_mask. run (memcpy_spec (buffer f) src); [lia..|].
  intros b [Hlb Hlk]. split_and!; [done| |].
  - destruct Hwf. constructor; simpl; try done. by rewrite Hlb.
  - intros i Hi. unfold cell. simpl. pose proof (pos_wrap (in_ f) i Hi) as Hpos.
    pose proof (Z.mod_pos_bound (in_ f + i) (size f) ltac:(lia)) as Hm'.
    apply Some_inj. rewrite <-list_lookup_lookup_total_lt by lia. rewrite Hlk by lia.
    destruct (decide (i < put_l f n)).
    + rewrite decide_True in Hpos by lia. rewrite decide_True by lia.
      replace (0 + (in_ f + i) mod size f - in_ f mod size f) with i by lia.
      apply list_lookup_lookup_total_lt. lia.
    + rewrite decide_False by (case_decide; lia). apply cell_lookup.
Qed.

Lemma put_copy2_spec :
  n ≤ Z.of_nat (length src) →
  returns (put_copy2 f src n) (λ f1, f1 = set_buffer f (buffer f1) ∧ kfifo_wf f1 ∧
    ∀ i, 0 ≤ i < size f →
      cell f1 (in_ f + i) =
        if decide (put_l f n ≤ i < n) then src !!! Z.to_nat i else cell f (in_ f + i)).
Proof.
  intros Hsrc. pose proof put_l_range as (H1 & H2 & H3). pose proof size_range as Hs.
  pose proof (wf_buf _ Hwf) as Hb. pose proof (Z.mod_pos_bound (in_ f) (size f) ltac:(lia)) as Hm.
  unfold put_copy2. run (memcpy_spec (buffer f) src); [lia..|].
  intros b [Hlb Hlk]. split_and!; [done| |].
  - destruct Hwf. constructor; simpl; try done. by rewrite Hlb.
  - intros i Hi. unfold cell. simpl. pose proof (pos_wrap (in_ f) i Hi) as Hpos.
    pose proof (Z.mod_pos_bound (in_ f + i) (size f) ltac:(lia)) as Hm'.
    apply Some_inj. rewrite <-list_lookup_lookup_total_lt by lia. rewrite Hlk by lia.
    destruct (decide (put_l f n ≤ i < n)).
    + rewrite decide_False in Hpos by lia. rewrite decide_True by lia.
      replace (put_l f n + (in_ f + i) mod size f - 0) with i by lia.
      apply list_lookup_lookup_total_lt. lia.
    + rewrite decide_False by (case_decide; lia). apply cell_lookup.
Qed.

(** What a copy that is defined has read and written inside the object. *)
Lemma put_copy1_fits f' : put_copy1 f src n = Ret f' → put_l f n ≤ Z.of_nat (length src).
Proof. unfold put_copy1, memcpy. case_bool_decide; [lia|done]. Qed.

Lemma put_copy2_fits f' : put_copy2 f src n = Ret f' → n ≤ Z.of_nat (length src).
Proof. unfold put_copy2, memcpy. case_bool_decide; [lia|done]. Qed.
End put.

(** The two copies of a get. *)
Section get.
Context (dst : list Z) (n : Z).
Hypothesis (Hn : 0 ≤ n ≤ size f).

Lemma get_l_range : 0 ≤ get_l f n ≤ n ∧ out f mod size f + get_l f n ≤ size f ∧
  (get_l f n < n → get_l f n = size f - out f mod size f).
Proof.
  unfold get_l. rewrite size_mask. pose proof size_range.
  pose proof (Z.mod_pos_bound (out f) (size f) ltac:(lia)). lia.
Qed.

Lemma get_copy1_spec :
  get_l f n ≤ Z.of_nat (length dst) →
  returns (get_copy1 f dst n) (λ d, length d = length dst ∧ ∀ i, 0 ≤ i →
    d !! Z.to_nat i = if decide (i < get_l f n) then Some (cell f (out f + i)) else dst !! Z.to_nat i).
Proof.
  intros Hdst. pose proof get_l_range as (H1 & H2 & H3). pose proof size_range as Hs.
  pose proof (wf_buf _ Hwf) as Hb. pose proof (Z.mod_pos_bound (out f) (size f) ltac:(lia)) as Hm.
  unfold get_copy1. rewrite size_mask. eapply returns_mono; [apply memcpy_spec; lia|].
  intros d [Hl Hlk]. split; [done|]. intros i Hi. rewrite Hlk by done.
  destruct (decide (i < get_l f n)).
  - rewrite decide_True by lia. rewrite <-cell_lookup, pos_wrap, decide_True by lia. f_equal. lia.
  - by rewrite decide_False by lia.
Qed.

Lemma get_copy2_spec :
  n ≤ Z.of_nat (length dst) →
  returns (get_copy2 f dst n) (λ d, length d = length dst ∧ ∀ i, 0 ≤ i →
    d !! Z.to_nat i = if decide (get_l f n ≤ i < n) then Some (cell f (out f + i)) else dst !! Z.to_nat i).
Proof.
  intros Hdst. pose proof get_l_range as (H1 & H2 & H3). pose proof size_range as Hs.
  pose proof (wf_buf _ Hwf) as Hb. pose proof (Z.mod_pos_bound (out f) (size f) ltac:(lia)) as Hm.
  unfold get_copy2. eapply returns_mono; [apply memcpy_spec; lia|].
  intros d [Hl Hlk]. split; [done|]. intros i Hi. rewrite Hlk by done.
  destruct (decide (get_l f n ≤ i < n)).
  - rewrite decide_True by lia. rewrite <-cell_lookup, pos_wrap, decide_False by lia. f_equal. lia.
  - by rewrite decide_False by lia.
Qed.

Lemma get_copy1_fits d : get_copy1 f dst n = Ret d → get_l f n ≤ Z.of_nat (length dst).
Proof. unfold get_copy1, memcpy. case_bool_decide; [lia|done]. Qed.

Lemma get_copy2_fits d : get_copy2 f dst n = Ret d → n ≤ Z.of_nat (length dst).
Proof. unfold get_copy2, memcpy. case_bool_decide; [lia|done]. Qed.
End get.
End transfer.

(** ** Moving the indices *)
Section commit.
Context (f : kfifo).
Hypothesis (Hwf : kfifo_wf f).

Lemma cell_mod a b : a mod size f = b mod size f → cell f a = cell f b.
Proof. unfold cell. by intros ->. Qed.

Lemma cell_u32 a i : cell f (u32 a + i) = cell f (a + i).
Proof.
  apply cell_mod. pose proof (size_range f Hwf).
  by rewrite <-Zplus_mod_idemp_l, u32_mod_size, Zplus_mod_idemp_l.
Qed.

(** The write index is [used] cells after the read index. *)
Lemma cell_in i : cell f (in_ f + i) = cell f (out f + (used f + i)).
Proof.
  rewrite <-(u32_id (in_ f)) by apply Hwf. rewrite cell_u32. pose proof (size_range f Hwf).
  apply cell_mod. unfold used.
  replace (out f + (u32 (in_ f - out f) + i)) with (u32 (in_ f - out f) + (out f + i)) by lia.
  rewrite <-(Zplus_mod_idemp_l (u32 _)), u32_mod_size, Zplus_mod_idemp_l by done. f_equal. lia.
Qed.

Lemma put_commit n data :
  0 ≤ n ≤ size f - used f → n ≤ Z.of_nat (length data) →
  (∀ i, 0 ≤ i < n → cell f (in_ f + i) = data !!! Z.to_nat i) →
  let f' := set_in f (u32 (in_ f + n)) in
  kfifo_wf f' ∧ used f' = used f + n ∧ contents f' = contents f ++ take (Z.to_nat n) data.
Proof.
  intros Hn Hd Hc f'. pose proof (size_range f Hwf) as Hs. pose proof (used_range f Hwf) as Hu.
  assert (used f' = used f + n) as Hu'.
  { unfold used in *. simpl. unfold u32 at 1. unfold u32 at 1. rewrite Zminus_mod_idemp_l.
    replace (in_ f + n - out f) with (in_ f - out f + n) by lia.
    rewrite <-Zplus_mod_idemp_l. apply Z.mod_small. unfold u32 in *. lia. }
  split_and!; [|done|].
  - destruct Hwf. constructor; simpl; try done; [apply u32_range|]. unfold f' in *. lia.
  - unfold contents. rewrite Hu', seqZ_app, fmap_app by lia. f_equal.
    apply list_eq. intros i. rewrite list_lookup_fmap.
    destruct (decide (Z.of_nat i < n)).
    + rewrite lookup_seqZ_lt, lookup_take_lt by lia. simpl.
      replace (0 + used f + Z.of_nat i) with (used f + Z.of_nat i) by lia.
      change (cell f' (out f + (used f + Z.of_nat i))) with (cell f (out f + (used f + Z.of_nat i))).
      rewrite <-cell_in, Hc, Nat2Z.id by lia. symmetry. apply list_lookup_lookup_total_lt. lia.
    + rewrite lookup_seqZ_ge by lia. simpl. symmetry. apply lookup_ge_None_2.
      rewrite length_take. lia.
Qed.

Lemma get_commit n :
  0 ≤ n ≤ used f →
  let f' := set_out f (u32 (out f + n)) in
  kfifo_wf f' ∧ used f' = used f - n ∧ contents f' = drop (Z.to_nat n) (contents f).
Proof.
  intros Hn f'. pose proof (size_range f Hwf) as Hs. pose proof (used_range f Hwf) as Hu.
  assert (used f' = used f - n) as Hu'.
  { unfold used in *. simpl. unfold u32 at 1. unfold u32 at 1. rewrite Zminus_mod_idemp_r.
    replace (in_ f - (out f + n)) with (in_ f - out f - n) by lia.
    rewrite <-Zminus_mod_idemp_l. apply Z.mod_small. unfold u32 in *. lia. }
  split_and!; [|done|].
  - destruct Hwf. constructor; simpl; try done; [apply u32_range|]. unfold f' in *. lia.
  - apply list_eq. intros i. rewrite lookup_drop. unfold contents.
    rewrite !list_lookup_fmap. destruct (decide (Z.of_nat i < used f - n)).
    + rewrite !lookup_seqZ_lt by lia. simpl. f_equal.
      change (cell f' (u32 (out f + n) + (0 + Z.of_nat i))) with (cell f (u32 (out f + n) + (0 + Z.of_nat i))).
      rewrite cell_u32. f_equal. lia.
    + by rewrite !lookup_seqZ_ge by lia.
Qed.

Lemma contents_keep g :
  size g = size f → in_ g = in_ f → out g = out f →
  (∀ i, 0 ≤ i < used f → cell g (out f + i) = cell f (out f + i)) → contents g = contents f.
Proof.
  intros Hs Hi Ho Hc. unfold contents. replace (used g) with (used f) by (unfold used; congruence).
  rewrite Ho. apply list_fmap_ext. intros k z Hz. apply lookup_seqZ in Hz as [-> ?]. apply Hc. lia.
Qed.

Lemma pos_before i :
  (out f + i) mod size f = (in_ f + (i - used f + size f)) mod size f.
Proof.
  pose proof (size_range f Hwf). unfold used.
  replace (in_ f + (i - u32 (in_ f - out f) + size f))
    with (in_ f + i - u32 (in_ f - out f) + 1 * size f) by lia.
  rewrite Z.mod_add by lia. rewrite <-(Zminus_mod_idemp_r (in_ f + i)), u32_mod_size by done.
  rewrite Zminus_mod_idemp_r. f_equal. lia.
Qed.

(** Writing into the free space leaves the contents alone. *)
Lemma contents_free g n :
  size g = size f → in_ g = in_ f → out g = out f → 0 ≤ n ≤ size f - used f →
  (∀ i, n ≤ i < size f → cell g (in_ f + i) = cell f (in_ f + i)) → contents g = contents f.
Proof.
  intros Hs Hi Ho Hn Hc. apply contents_keep; [done..|]. intros i Hlt.
  specialize (Hc (i - used f + size f) ltac:(lia)). unfold cell in *. rewrite Hs in *.
  by rewrite pos_before.
Qed.

(** The bytes a get of [n] copies are the first of the contents. *)
Lemma get_bytes dst d n :
  0 ≤ n ≤ used f → n ≤ Z.of_nat (length dst) → length d = length dst →
  (∀ i, 0 ≤ i → d !! Z.to_nat i = if decide (i < n) then Some (cell f (out f + i)) else dst !! Z.to_nat i) →
  d = take (Z.to_nat n) (contents f) ++ drop (Z.to_nat n) dst.
Proof.
  intros Hn Hd Hl Hlk. pose proof (length_contents f) as Hlc. apply list_eq. intros i.
  rewrite <-(Nat2Z.id i), Hlk by lia. case_decide.
  - rewrite lookup_app_l by (rewrite length_take; lia). rewrite lookup_take_lt by lia.
    by rewrite contents_lookup by lia.
  - rewrite lookup_app_r by (rewrite length_take; lia). rewrite lookup_drop, length_take. f_equal. lia.
Qed.
End commit.

(** ** The unlocked operations against the contents *)
Section sequential.
Context (f : kfifo).
Hypothesis (Hwf : kfifo_wf f).

Lemma kfifo_put_spec src len :
  0 ≤ len ≤ Z.of_nat (length src) →
  returns (__kfifo_put f src len) (λ r,
    r.1 = Z.min len (size f - used f) ∧ kfifo_wf r.2 ∧ size r.2 = size f ∧ lock r.2 = lock f ∧
    contents r.2 = contents f ++ take (Z.to_nat r.1) src).
Proof.
  intros Hlen. unfold __kfifo_put. unfold put_len. rewrite put_space_eq by done. set (n := Z.min _ _).
  pose proof (used_range f Hwf) as Hu. pose proof (size_range f Hwf) as Hs.
  pose proof (put_l_range f Hwf n ltac:(lia)) as (Hl0 & _).
  run (put_copy1_spec f Hwf src n); [lia|lia|]. intros f1 (E1 & Hwf1 & H1).
  assert (put_l f1 n = put_l f n) as Hl by (by rewrite E1).
  assert (size f1 = size f ∧ in_ f1 = in_ f ∧ out f1 = out f ∧ lock f1 = lock f) as (Hs1 & Hi1 & Ho1 & Hk1)
    by (by rewrite E1).
  run (put_copy2_spec f1 Hwf1 src n); [lia|lia|]. intros f2 (E2 & Hwf2 & H2).
  assert (size f2 = size f ∧ in_ f2 = in_ f ∧ out f2 = out f ∧ lock f2 = lock f) as (Hs2 & Hi2 & Ho2 & Hk2)
    by (by rewrite E2).
  assert (used f2 = used f) as Hu2 by (unfold used; congruence).
  rewrite Hs1, Hi1, Hl in H2. cbn [returns fst snd].
  destruct (put_commit f2 Hwf2 n src) as (Hw & _ & Hc); [lia|lia| |].
  { intros i Hi. rewrite Hi2, H2 by lia. case_decide; [done|]. rewrite H1 by lia. case_decide; [done|lia]. }
  split_and!; [done|done|done|done|]. rewrite Hc. f_equal.
  apply (contents_free f Hwf f2 n); [done..|lia|]. intros i Hi.
  rewrite H2, decide_False by lia. rewrite H1, decide_False by lia. done.
Qed.

Lemma kfifo_get_spec dst len :
  0 ≤ len ≤ Z.of_nat (length dst) →
  returns (__kfifo_get f dst len) (λ r, let '(n, d, f') := r in
    n = Z.min len (used f) ∧ kfifo_wf f' ∧ size f' = size f ∧ lock f' = lock f ∧
    d = take (Z.to_nat n) (contents f) ++ drop (Z.to_nat n) dst ∧
    contents f' = drop (Z.to_nat n) (contents f)).
Proof.
  intros Hlen. unfold __kfifo_get. change (get_len f len) with (Z.min len (used f)). set (n := Z.min _ _).
  pose proof (used_range f Hwf) as Hu.
  pose proof (get_l_range f Hwf n ltac:(lia)) as (Hl0 & _).
  run (get_copy1_spec f Hwf dst n); [lia|lia|]. intros d1 [Hl1 H1].
  run (get_copy2_spec f Hwf d1 n); [lia|lia|]. intros d2 [Hl2 H2]. cbn [returns].
  destruct (get_commit f Hwf n ltac:(lia)) as (Hw & _ & Hc).
  split_and!; [done|done|done|done| |done].
  apply get_bytes; [lia|lia|congruence|]. intros i Hi. rewrite H2, H1 by done.
  pose proof (get_l_range f Hwf n ltac:(lia)). repeat case_decide; done || lia.
Qed.
End sequential.

(** ** One writer and one reader without the lock

    Each of the two runs the unlocked operation step by step: the length, the
    two copies, the update of its own index.  The macro [min] evaluates its
    second argument twice, so the length takes two reads of the other side's
    index: one for the comparison and, when the length asked is not below, one
    for the value; the other side may run between them.  The steps of the two
    sides interleave in any order; [sent] and [received] record the bytes of
    the completed operations. *)
Inductive writer : Type :=
  | WIdle
  | WTested (src : list Z) (len : Z) (seen : Z)
  | WSampled (src : list Z) (n : Z)
  | WCopied1 (src : list Z) (n : Z)
  | WCopied2 (src : list Z) (n : Z).

Inductive reader : Type :=
  | RIdle
  | RTested (dst : list Z) (len : Z) (seen : Z)
  | RSampled (dst : list Z) (n : Z)
  | RCopied1 (dst : list Z) (n : Z)
  | RCopied2 (dst : list Z) (n : Z).

Record spsc : Type := Spsc {
  fifo : kfifo;
  wr : writer;
  rd : reader;
  sent : list Z;
  received : list Z
}.

(** [seen] is the value of the other side's index at the first read. *)
Inductive spsc_step : spsc → spsc → Prop :=
  | w_test_less f r S R src len : 0 ≤ len ≤ Z.of_nat (length src) → len < put_space f →
      spsc_step (Spsc f WIdle r S R) (Spsc f (WSampled src len) r S R)
  | w_test_not_less f r S R src len : 0 ≤ len ≤ Z.of_nat (length src) → ¬ len < put_space f →
      spsc_step (Spsc f WIdle r S R) (Spsc f (WTested src len (out f)) r S R)
  | w_sample f r S R src len seen :
      spsc_step (Spsc f (WTested src len seen) r S R) (Spsc f (WSampled src (put_space f)) r S R)
  | w_copy1 f f' r S R src n : put_copy1 f src n = Ret f' →
      spsc_step (Spsc f (WSampled src n) r S R) (Spsc f' (WCopied1 src n) r S R)
  | w_copy2 f f' r S R src n : put_copy2 f src n = Ret f' →
      spsc_step (Spsc f (WCopied1 src n) r S R) (Spsc f' (WCopied2 src n) r S R)
  | w_commit f r S R src n :
      spsc_step (Spsc f (WCopied2 src n) r S R)
                (Spsc (set_in f (u32 (in_ f + n))) WIdle r (S ++ take (Z.to_nat n) src) R)
  | r_test_less f w S R dst len : 0 ≤ len ≤ Z.of_nat (length dst) → len < __kfifo_len f →
      spsc_step (Spsc f w RIdle S R) (Spsc f w (RSampled dst len) S R)
  | r_test_not_less f w S R dst len : 0 ≤ len ≤ Z.of_nat (length dst) → ¬ len < __kfifo_len f →
      spsc_step (Spsc f w RIdle S R) (Spsc f w (RTested dst len (in_ f)) S R)
  | r_sample f w S R dst len seen :
      spsc_step (Spsc f w (RTested dst len seen) S R) (Spsc f w (RSampled dst (__kfifo_len f)) S R)
  | r_copy1 f w S R dst d n : get_copy1 f dst n = Ret d →
      spsc_step (Spsc f w (RSampled dst n) S R) (Spsc f w (RCopied1 d n) S R)
  | r_copy2 f w S R dst d n : get_copy2 f dst n = Ret d →
      spsc_step (Spsc f w (RCopied1 dst n) S R) (Spsc f w (RCopied2 d n) S R)
  | r_commit f w S R d n :
      spsc_step (Spsc f w (RCopied2 d n) S R)
                (Spsc (set_out f (u32 (out f + n))) w RIdle S (R ++ take (Z.to_nat n) d)).

Definition defined {A} (o : outcome A) : Prop := returns o (λ _, True).

(** When the copies are inside their objects: never outside the FIFO's
    buffer, and outside the caller's exactly when it is shorter than the length
    found, which cannot be while the other index is what it was at the first
    read. *)
Definition spsc_bounds (s : spsc) : Prop :=
  match wr s with
  | WTested src len seen => seen = out (fifo s) → put_space (fifo s) ≤ len ≤ Z.of_nat (length src)
  | WSampled src n => defined (put_copy1 (fifo s) src n) ↔ put_l (fifo s) n ≤ Z.of_nat (length src)
  | WCopied1 src n => defined (put_copy2 (fifo s) src n) ↔ n ≤ Z.of_nat (length src)
  | _ => True
  end ∧
  match rd s with
  | RTested dst len seen => seen = in_ (fifo s) → __kfifo_len (fifo s) ≤ len ≤ Z.of_nat (length dst)
  | RSampled dst n => defined (get_copy1 (fifo s) dst n) ↔ get_l (fifo s) n ≤ Z.of_nat (length dst)
  | RCopied1 dst n => defined (get_copy2 (fifo s) dst n) ↔ n ≤ Z.of_nat (length dst)
  | _ => True
  end.

Section protocol.

(** What each side knows at each point. *)
Definition w_inv (f : kfifo) (w : writer) : Prop :=
  match w with
  | WIdle => True
  | WTested src len seen => u32 (u32 (size f - in_ f) + seen) ≤ len ≤ Z.of_nat (length src)
  | WSampled src n => 0 ≤ n ≤ size f - used f
  | WCopied1 src n => (0 ≤ n ≤ size f - used f ∧ put_l f n ≤ Z.of_nat (length src)) ∧
      ∀ i, 0 ≤ i < put_l f n → cell f (in_ f + i) = src !!! Z.to_nat i
  | WCopied2 src n => (0 ≤ n ≤ size f - used f ∧ n ≤ Z.of_nat (length src)) ∧
      ∀ i, 0 ≤ i < n → cell f (in_ f + i) = src !!! Z.to_nat i
  end.

Definition r_inv (f : kfifo) (r : reader) : Prop :=
  match r with
  | RIdle => True
  | RTested dst len seen => u32 (seen - out f) ≤ len ≤ Z.of_nat (length dst)
  | RSampled dst n => 0 ≤ n ≤ used f
  | RCopied1 d n => (0 ≤ n ≤ used f ∧ get_l f n ≤ Z.of_nat (length d)) ∧
      ∀ i, 0 ≤ i < get_l f n → d !! Z.to_nat i = contents f !! Z.to_nat i
  | RCopied2 d n => (0 ≤ n ≤ used f ∧ n ≤ Z.of_nat (length d)) ∧
      ∀ i, 0 ≤ i < n → d !! Z.to_nat i = contents f !! Z.to_nat i
  end.

Definition spsc_inv (s : spsc) : Prop :=
  kfifo_wf (fifo s) ∧ sent s = received s ++ contents (fifo s) ∧
  w_inv (fifo s) (wr s) ∧ r_inv (fifo s) (rd s).

(** A step of the writer keeps the reader's knowledge. *)
Lemma r_inv_stable f f' r :
  kfifo_wf f → kfifo_wf f' → size f' = size f → out f' = out f → used f ≤ used f' →
  (∃ more, contents f' = contents f ++ more) → r_inv f r → r_inv f' r.
Proof.
  intros Hwf Hwf' Hs Ho Hu [more Hc] Hr.
  assert (∀ i, 0 ≤ i < used f → contents f' !! Z.to_nat i = contents f !! Z.to_nat i) as Hpre.
  { intros i Hi. rewrite Hc, lookup_app_l; [done|]. rewrite length_contents. lia. }
  assert (∀ n, get_l f' n = get_l f n) as Hl by (intros n; unfold get_l; by rewrite Hs, Ho).
  destruct r as [|d n seen|d n|d n|d n]; simpl in *; [done|by rewrite Ho|lia|..]; destruct Hr as [Hn Hr];
    (split; [rewrite ?Hl; lia|]); intros i Hi.
  - rewrite Hl in Hi. rewrite Hr by done. symmetry. apply Hpre.
    pose proof (get_l_range f Hwf n ltac:(pose proof (used_range f Hwf); lia)). lia.
  - rewrite Hr by done. symmetry. apply Hpre. lia.
Qed.

(** A step of the reader keeps the writer's. *)
Lemma w_inv_stable f n w : used (set_out f n) ≤ used f → w_inv f w → w_inv (set_out f n) w.
Proof.
  intros Hu Hw. destruct w as [|src m seen|src m|src m|src m]; simpl in *; [done|done|lia|..];
    destruct Hw as [[Hm Hl] Hw]; (split; [split; [lia|exact Hl]|exact Hw]).
Qed.

Lemma writer_step s s' :
  spsc_step s s' → rd s' = rd s → received s' = received s → spsc_inv s → wr s' ≠ wr s → spsc_inv s'.
Proof.
  intros Hst Hrd Hrc (Hwf & Hsent & Hw & Hr) Hne.
  pose proof (used_range (fifo s) Hwf) as Hu. pose proof (size_range (fifo s) Hwf) as Hsz.
  destruct Hst as [f r S R src len Hlen Hlt|f r S R src len Hlen Hlt|f r S R src len seen|f f' r S R src n E|f f' r S R src n E|f r S R src n
    | | | | | | ];
    simpl in *; try done.
  - rewrite put_space_eq in Hlt by done. split_and!; [done|done|simpl; lia|done].
  - split_and!; [done|done|simpl|done]. fold (put_space f). lia.
  - split_and!; [done|done|simpl|done]. rewrite put_space_eq by done. lia.
  - pose proof (put_copy1_fits f src n _ E) as Hfit.
    pose proof (put_copy1_spec f Hwf src n ltac:(lia) Hfit) as Hcp. rewrite E in Hcp. simpl in Hcp.
    destruct Hcp as (Ef & Hwf' & Hc).
    assert (size f' = size f ∧ in_ f' = in_ f ∧ out f' = out f) as (Hs1 & Hi1 & Ho1) by (by rewrite Ef).
    pose proof (put_l_range f Hwf n ltac:(lia)) as (Hl & _).
    assert (contents f' = contents f) as Hcont.
    { apply (contents_free f Hwf f' n); [done..|lia|]. intros i Hi. rewrite Hc, decide_False by lia. done. }
    assert (used f' = used f) as Hu' by (unfold used; congruence). split; [done|]. split; [|split].
    + simpl. by rewrite Hcont.
    + simpl. assert (put_l f' n = put_l f n) as Hl' by (unfold put_l; by rewrite Hs1, Hi1).
      split; [lia|]. intros i Hi. rewrite Hl' in Hi. by rewrite Hi1, Hc, decide_True by lia.
    + simpl. apply (r_inv_stable f); try done; [lia|]. exists []. by rewrite app_nil_r.
  - destruct Hw as [Hn Hw].
    pose proof (put_copy2_fits f src n _ E) as Hfit.
    pose proof (put_copy2_spec f Hwf src n ltac:(lia) Hfit) as Hcp. rewrite E in Hcp. simpl in Hcp.
    destruct Hcp as (Ef & Hwf' & Hc).
    assert (size f' = size f ∧ in_ f' = in_ f ∧ out f' = out f) as (Hs1 & Hi1 & Ho1) by (by rewrite Ef).
    pose proof (put_l_range f Hwf n ltac:(lia)) as (Hl & _).
    assert (contents f' = contents f) as Hcont.
    { apply (contents_free f Hwf f' n); [done..|lia|]. intros i Hi. rewrite Hc, decide_False by lia. done. }
    assert (used f' = used f) as Hu' by (unfold used; congruence). split; [done|]. split; [|split].
    + simpl. by rewrite Hcont.
    + simpl. split; [lia|]. intros i Hi. rewrite Hi1, Hc by lia. case_decide; [done|]. apply Hw. lia.
    + simpl. apply (r_inv_stable f); try done; [lia|]. exists []. by rewrite app_nil_r.
  - destruct Hw as [Hn Hw]. destruct (put_commit f Hwf n src) as (Hwf' & Hu' & Hc'); [lia|lia|done|].
    split; [done|]. split; [|split; [done|]]; simpl.
    + by rewrite Hc', Hsent, app_assoc.
    + simpl. apply (r_inv_stable f); try done; [lia|]. by eexists.
Qed.

Lemma reader_step s s' :
  spsc_step s s' → wr s' = wr s → sent s' = sent s → spsc_inv s → rd s' ≠ rd s → spsc_inv s'.
Proof.
  intros Hst Hwr Hse (Hwf & Hsent & Hw & Hr) Hne.
  pose proof (used_range (fifo s) Hwf) as Hu. pose proof (length_contents (fifo s)) as Hlc.
  destruct Hst as [ | | | | | |f w S R dst len Hlen Hlt|f w S R dst len Hlen Hlt|f w S R dst len seen
    |f w S R dst d n E|f w S R dst d n E|f w S R d n];
    simpl in *; try done.
  - change (__kfifo_len f) with (used f) in Hlt. split_and!; [done|done|done|simpl; lia].
  - change (__kfifo_len f) with (used f) in Hlt. split_and!; [done|done|done|simpl]. fold (used f). lia.
  - split_and!; [done|done|done|]. simpl. change (__kfifo_len f) with (used f). lia.
  - pose proof (get_copy1_fits f dst n _ E) as Hfit.
    pose proof (get_copy1_spec f Hwf dst n ltac:(lia) Hfit) as Hcp. rewrite E in Hcp. simpl in Hcp.
    destruct Hcp as [Hl Hlk]. pose proof (get_l_range f Hwf n ltac:(lia)) as (Hgl & _).
    split; [done|]. split; [done|]. split; [done|]. simpl. split; [lia|]. intros i Hi.
    rewrite Hlk, decide_True by lia. symmetry. apply contents_lookup. lia.
  - destruct Hr as [Hn Hr].
    pose proof (get_copy2_fits f dst n _ E) as Hfit.
    pose proof (get_copy2_spec f Hwf dst n ltac:(lia) Hfit) as Hcp. rewrite E in Hcp. simpl in Hcp.
    destruct Hcp as [Hl Hlk]. split; [done|]. split; [done|]. split; [done|]. simpl. split; [lia|]. intros i Hi.
    rewrite Hlk by lia. case_decide; [|apply Hr; lia]. symmetry. apply contents_lookup. lia.
  - destruct Hr as [Hn Hr]. destruct (get_commit f Hwf n ltac:(lia)) as (Hwf' & Hu' & Hc').
    split; [done|]. split; [simpl|split; [apply w_inv_stable; [lia|done]|done]].
    rewrite Hc', Hsent, <-app_assoc. f_equal.
    rewrite <-(take_drop (Z.to_nat n) (contents f)) at 1. f_equal.
    apply list_eq. intros i. destruct (decide (Z.of_nat i < n)).
    + rewrite !lookup_take_lt by lia. rewrite <-(Nat2Z.id i). symmetry. apply Hr. lia.
    + by rewrite !lookup_take_ge by lia.
Qed.
End protocol.

Lemma spsc_inv_step s s' : spsc_inv s → spsc_step s s' → spsc_inv s'.
Proof.
  intros Hi Hst. assert ((rd s' = rd s ∧ received s' = received s ∧ wr s' ≠ wr s) ∨
    (wr s' = wr s ∧ sent s' = sent s ∧ rd s' ≠ rd s)) as [(H1 & H2 & H3)|(H1 & H2 & H3)].
  { destruct Hst; simpl; [left..|right|right|right|right|right|right]; done. }
  - by apply (writer_step s).
  - by apply (reader_step s).
Qed.

Lemma defined_copy {A} (o : outcome A) (P : Prop) :
  (∀ x, o = Ret x → P) → (P → defined o) → defined o ↔ P.
Proof. intros Hf Hd. split; [|done]. destruct o; [intros _; by eapply Hf|done|done]. Qed.

Lemma spsc_inv_bounds s : spsc_inv s → spsc_bounds s.
Proof.
  intros (Hwf & _ & Hw & Hr). pose proof (used_range (fifo s) Hwf) as Hu. split.
  - destruct (wr s) as [|src n seen|src n|src n|src n]; [done| | | |done]; simpl in Hw.
    + by intros ->.
    + apply defined_copy; [apply put_copy1_fits|]. intros Hl.
      eapply returns_mono; [apply put_copy1_spec; [done|lia|lia]|done].
    + apply defined_copy; [apply put_copy2_fits|]. intros Hl.
      eapply returns_mono; [apply put_copy2_spec; [done|lia|lia]|done].
  - destruct (rd s) as [|d n seen|d n|d n|d n]; [done| | | |done]; simpl in Hr.
    + by intros ->.
    + apply defined_copy; [apply get_copy1_fits|]. intros Hl.
      eapply returns_mono; [apply get_copy1_spec; [done|lia|lia]|done].
    + apply defined_copy; [apply get_copy2_fits|]. intros Hl.
      eapply returns_mono; [apply get_copy2_spec; [done|lia|lia]|done].
Qed.

(** ** Properties *)

(** [kfifo_alloc] of a size from 1 to 2^31, given memory, makes an empty
    FIFO of the least power of two that is at least the size; without memory it
    returns null, and a size of 0 or above 2^31 fails its assertion. *)
Lemma kfifo_alloc_correct (malloc : Z → option (list Z)) ok size :
  (∀ n b, 0 ≤ n → malloc n = Some b → Z.of_nat (length b) = n) → is_u32 size →
  (1 ≤ size ≤ 2 ^ 31 → ∃ k, 0 ≤ k ≤ 31 ∧ size ≤ 2 ^ k ∧ (∀ j, 0 ≤ j → size ≤ 2 ^ j → k ≤ j) ∧
     returns (kfifo_alloc malloc ok size) (λ r,
       match r with
       | Some f => kfifo_wf f ∧ Kfifo.size f = 2 ^ k ∧ contents f = [] ∧ lock f = false
       | None => malloc (2 ^ k) = None ∨ ok = false
       end)) ∧
  (is_Some (malloc 0) → size = 0 ∨ 2 ^ 31 < size → kfifo_alloc malloc ok size = Stuck).
Proof.
  intros Hm Hsz. split.
  - intros Hs. unfold kfifo_alloc.
    assert (∃ k, 0 ≤ k ≤ 31 ∧ size ≤ 2 ^ k ∧ (∀ j, 0 ≤ j → size ≤ 2 ^ j → k ≤ j) ∧
      (if is_power_of_2 size then Ret size
       else if 0x80000000 <? size then Stuck else Ret (roundup_pow_of_two size)) = Ret (2 ^ k))
      as (k & Hk & Hle & Hmin & ->).
    { destruct (is_power_of_2 size) eqn:E.
      - apply is_power_of_2_spec in E as (k & Hk & ->); [|lia]. exists k. split_and!; [done| |done| |done].
        + apply (Z.pow_le_mono_r_iff 2); lia.
        + intros j Hj. apply Z.pow_le_mono_r_iff; lia.
      - destruct (roundup_spec size) as [-> Hk]; [lia|done|].
        change 0x80000000 with (2 ^ 31). destruct (Z.ltb_spec (2 ^ 31) size); [lia|].
        pose proof (Z.log2_nonneg size). destruct (Z.log2_spec size) as [Hl1 Hl2]; [lia|].
        exists (Z.log2 size + 1). split_and!; [lia|lia|unfold Z.succ in Hl2; lia| |done].
        intros j Hj Hsj. destruct (decide (Z.log2 size + 1 ≤ j)); [done|].
        assert (2 ^ j ≤ 2 ^ Z.log2 size) by (apply Z.pow_le_mono_r; lia).
        assert (size = 2 ^ Z.log2 size) as Ep by lia.
        enough (is_power_of_2 size = true) by congruence.
        apply is_power_of_2_spec; [lia|]. by exists (Z.log2 size). }
    exists k. split_and!; [lia|lia|done|done|]. cbn [mbind outcome_bind].
    destruct (malloc (2 ^ k)) as [b|] eqn:Eb; [|by left]. unfold kfifo_init.
    rewrite (proj2 (is_power_of_2_spec (2 ^ k) ltac:(lia))) by (exists k; lia).
    destruct ok; [|by right]. simpl. split_and!; [|done..].
    constructor; simpl; [by exists k|apply Hm; [lia|done]|unfold is_u32; lia|unfold is_u32; lia|].
    unfold used. simpl. change (u32 (0 - 0)) with 0. lia.
  - intros [b Hb] Hs. unfold kfifo_alloc. destruct Hs as [->|Hs].
    + change (is_power_of_2 0) with false. cbn. by rewrite Hb.
    + destruct (is_power_of_2 size) eqn:E; cycle 1.
      { change 0x80000000 with (2 ^ 31). destruct (Z.ltb_spec (2 ^ 31) size); [done|lia]. }
      apply is_power_of_2_spec in E as (k & Hk & ->); [|unfold is_u32 in Hsz; lia]. exfalso.
      apply Z.pow_lt_mono_r_iff in Hs; [|lia|lia].
      assert (2 ^ 32 ≤ 2 ^ k) by (apply Z.pow_le_mono_r; lia). unfold is_u32 in Hsz. lia.
Qed.

Lemma kfifo_alloc_correct_witness :
  (∃ k, 0 ≤ k ≤ 31 ∧ 5 ≤ 2 ^ k ∧ (∀ j, 0 ≤ j → 5 ≤ 2 ^ j → k ≤ j) ∧
     returns (kfifo_alloc (λ n, Some (replicate (Z.to_nat n) 7)) true 5) (λ r,
       match r with
       | Some f => kfifo_wf f ∧ size f = 2 ^ k ∧ contents f = [] ∧ lock f = false
       | None => Some (replicate (Z.to_nat (2 ^ k)) 7) = None ∨ true = false
       end)).
Proof.
  refine (proj1 (kfifo_alloc_correct (λ n, Some (replicate (Z.to_nat n) 7)) true 5 _ _) _).
  - intros n b Hn [= <-]. rewrite length_replicate. lia.
  - unfold is_u32. lia.
  - lia.
Defined.

(** C25: the locked operations are a bounded byte queue.  [kfifo_put] appends the
    first bytes of its buffer, as many as there is room for, and returns their
    number; [kfifo_get] moves the first bytes, at most the number asked for, to
    the front of the destination and leaves the rest of it; [kfifo_len] counts
    and [kfifo_reset] empties.  All keep the invariant, indices that wrap at
    2^32 included, and release the lock; a held lock is waited for. *)
Theorem kfifo_refines f buf len :
  kfifo_wf f → lock f = false → 0 ≤ len ≤ Z.of_nat (length buf) →
  let room := size f - Z.of_nat (length (contents f)) in
  returns (kfifo_put f buf len) (λ r,
    r.1 = Z.min len room ∧ kfifo_wf r.2 ∧ lock r.2 = false ∧ size r.2 = size f ∧
    contents r.2 = contents f ++ take (Z.to_nat r.1) buf) ∧
  returns (kfifo_get f buf len) (λ r, let '(n, d, f') := r in
    n = Z.min len (Z.of_nat (length (contents f))) ∧ kfifo_wf f' ∧ lock f' = false ∧ size f' = size f ∧
    d = take (Z.to_nat n) (contents f) ++ drop (Z.to_nat n) buf ∧
    contents f' = drop (Z.to_nat n) (contents f)) ∧
  kfifo_len f = Ret (Z.of_nat (length (contents f)), f) ∧
  returns (kfifo_reset f) (λ f', kfifo_wf f' ∧ lock f' = false ∧ size f' = size f ∧ contents f' = []).
Proof.
  intros Hwf Hlk Hlen room. pose proof (used_range f Hwf) as Hu.
  assert (Z.of_nat (length (contents f)) = used f) as Hlc by (rewrite length_contents; lia).
  set (g := Kfifo (buffer f) (size f) (in_ f) (out f) true).
  assert (kfifo_wf g) as Hg by (destruct Hwf; by constructor).
  assert (∀ f', kfifo_wf f' → kfifo_wf (pthread_spin_unlock f')) as Hun
    by (intros f' []; by constructor).
  assert (pthread_spin_lock f = Ret g) as Hl by (unfold pthread_spin_lock; by rewrite Hlk).
  unfold room. rewrite Hlc.
  unfold kfifo_put, kfifo_get, kfifo_len, kfifo_reset. rewrite Hl. cbn [mbind outcome_bind].
  split_and!.
  - run (kfifo_put_spec g Hg buf len Hlen). intros r (H1 & H2 & H3 & H4 & H5).
    split_and!; [done|by apply Hun|done|done|exact H5].
  - run (kfifo_get_spec g Hg buf len Hlen). intros [[n d] f'] (H1 & H2 & H3 & H4 & H5 & H6).
    cbn [fst snd returns]. destruct (Z.eqb_spec (in_ f') (out f')) as [E|]; cycle 1.
    { split_and!; [done|by apply Hun|done|done|exact H5|exact H6]. }
    assert (used f' = 0) as Hu0 by (unfold used, u32; by rewrite E, Z.sub_diag, Z.mod_0_l by lia).
    assert (contents f' = []) as Hc0 by (unfold contents; by rewrite Hu0).
    split_and!; [done| |done|done|exact H5|].
    + apply Hun. destruct H2. constructor; simpl; try done; [unfold is_u32; lia..|].
      change (used (__kfifo_reset f')) with 0. lia.
    + change (contents (pthread_spin_unlock (__kfifo_reset f'))) with (@nil Z).
      change (contents f) with (contents g). by rewrite <-H6.
  - unfold pthread_spin_unlock, __kfifo_len. simpl. unfold used. destruct f. simpl in *. by subst.
  - cbn [returns]. split_and!; [|done..]. apply Hun. destruct Hwf. constructor; simpl; try done;
      [unfold is_u32; lia..|]. change (used (__kfifo_reset g)) with 0. lia.
Qed.

Lemma kfifo_refines_witness :
  let f := Kfifo [10; 11; 12; 13] 4 1 (2 ^ 32 - 1) false in
  contents f = [13; 10] ∧
  returns (kfifo_put f [1; 2; 3] 3) (λ r,
    r.1 = Z.min 3 2 ∧ kfifo_wf r.2 ∧ lock r.2 = false ∧ size r.2 = size f ∧
    contents r.2 = [13; 10] ++ take (Z.to_nat r.1) [1; 2; 3]).
Proof.
  split; [reflexivity|].
  refine (proj1 (kfifo_refines (Kfifo [10; 11; 12; 13] 4 1 (2 ^ 32 - 1) false) [1; 2; 3] 3 _ _ _)).
  - constructor; simpl; [exists 2; lia|lia|unfold is_u32; lia|unfold is_u32; lia|vm_compute; discriminate].
  - reflexivity.
  - simpl; lia.
Defined.

(** C11: without the lock, one writer and one reader that interleave their steps
    in any order lose, repeat and reorder nothing: at every reachable state the
    bytes of the completed puts are those of the completed gets followed by the
    contents.  A copy about to be made is defined exactly when the caller's
    object holds the bytes it takes; the FIFO's buffer is never overrun.  The
    length found may exceed the length asked, because the macro [min] reads the
    other side's index twice, but not while that index is unchanged since the
    first read ([spsc_bounds]; [spsc_overruns] reaches both overruns). *)
Theorem kfifo_spsc f s :
  kfifo_wf f → contents f = [] → rtc spsc_step (Spsc f WIdle RIdle [] []) s →
  sent s = received s ++ contents (fifo s) ∧ kfifo_wf (fifo s) ∧ spsc_bounds s.
Proof.
  intros Hwf Hc Hst.
  assert (spsc_inv s) as Hi; [|split_and!; [apply Hi|apply Hi|by apply spsc_inv_bounds]].
  assert (spsc_inv (Spsc f WIdle RIdle [] [])) as H0.
  { split; [done|]. split; [simpl; by rewrite Hc|done]. }
  clear Hwf Hc. induction Hst as [|s1 s2 s3 H12 _ IH]; [done|]. by apply IH, (spsc_inv_step s1).
Qed.

(** The writer puts two bytes while the reader is in the middle of a get. *)
Lemma kfifo_spsc_witness :
  let f0 := Kfifo [10; 11; 12; 13] 4 (2 ^ 32 - 1) (2 ^ 32 - 1) false in
  let f1 := set_buffer f0 [10; 11; 12; 1] in
  let f2 := set_buffer f0 [2; 11; 12; 1] in
  let s := Spsc (set_in f2 1) WIdle (RSampled [0; 0] 0) [1; 2] [] in
  contents (fifo s) = [1; 2] ∧
  sent s = received s ++ contents (fifo s) ∧ kfifo_wf (fifo s) ∧ spsc_bounds s.
Proof.
  intros f0 f1 f2 s. split; [reflexivity|].
  apply (kfifo_spsc f0 s).
  - constructor; simpl; [exists 2; lia|lia|unfold is_u32; lia|unfold is_u32; lia|vm_compute; discriminate].
  - reflexivity.
  - eapply rtc_l; [apply (w_test_less f0 RIdle [] [] [1; 2] 2); [simpl; lia|vm_compute; reflexivity]|].
    eapply rtc_l; [apply (r_test_not_less f0 _ [] [] [0; 0] 2); [simpl; lia|vm_compute; discriminate]|].
    eapply rtc_l; [apply r_sample|].
    eapply rtc_l; [apply (w_copy1 f0 f1); reflexivity|].
    eapply rtc_l; [apply (w_copy2 f1 f2); reflexivity|].
    eapply rtc_l; [apply w_commit|]. apply rtc_refl.
Defined.

(** Two copies the comment of the operations promises cannot happen: a reader
    that asks for one byte of the empty FIFO is about to copy two into an object
    of one, and a writer of one byte into the full FIFO is about to take two from
    an object of one; the other side ran between the two reads of its index. *)
Lemma spsc_overruns :
  let f0 := Kfifo [10; 11; 12; 13] 4 0 0 false in
  (∃ s, rtc spsc_step (Spsc f0 WIdle RIdle [] []) s ∧ rd s = RSampled [0] 2 ∧
     get_copy1 (fifo s) [0] 2 = Stuck) ∧
  (∃ s, rtc spsc_step (Spsc f0 WIdle RIdle [] []) s ∧ wr s = WSampled [9] 2 ∧
     put_copy1 (fifo s) [9] 2 = Stuck).
Proof.
  intros f0. split.
  - set (f2 := set_buffer f0 [1; 2; 12; 13]).
    exists (Spsc (set_in f2 2) WIdle (RSampled [0] 2) [1; 2] []). split_and!; [|done|done].
    eapply rtc_l; [apply (r_test_not_less f0 _ [] [] [0] 1); [simpl; lia|vm_compute; discriminate]|].
    eapply rtc_l; [apply (w_test_less f0 _ [] [] [1; 2] 2); [simpl; lia|vm_compute; reflexivity]|].
    eapply rtc_l; [apply (w_copy1 f0 f2); reflexivity|].
    eapply rtc_l; [apply (w_copy2 f2 f2); reflexivity|].
    eapply rtc_l; [apply w_commit|]. eapply rtc_l; [apply r_sample|]. apply rtc_refl.
  - set (f2 := set_buffer f0 [1; 2; 3; 4]). set (f3 := set_in f2 4).
    exists (Spsc (set_out f3 2) (WSampled [9] 2) RIdle [1; 2; 3; 4] [1; 2]). split_and!; [|done|done].
    eapply rtc_l; [apply (w_test_not_less f0 _ [] [] [1; 2; 3; 4] 4); [simpl; lia|vm_compute; discriminate]|].
    eapply rtc_l; [apply w_sample|].
    eapply rtc_l; [apply (w_copy1 f0 f2); reflexivity|].
    eapply rtc_l; [apply (w_copy2 f2 f2); reflexivity|].
    eapply rtc_l; [apply w_commit|].
    eapply rtc_l; [apply (w_test_not_less f3 _ _ _ [9] 1); [simpl; lia|vm_compute; discriminate]|].
    eapply rtc_l; [apply (r_test_less f3 _ _ _ [0; 0] 2); [simpl; lia|vm_compute; reflexivity]|].
    eapply rtc_l; [apply (r_copy1 f3 _ _ _ [0; 0] [1; 2]); reflexivity|].
    eapply rtc_l; [apply (r_copy2 f3 _ _ _ [1; 2] [1; 2]); reflexivity|].
    eapply rtc_l; [apply r_commit|]. eapply rtc_l; [apply w_sample|]. apply rtc_refl.
Qed.
