(* ===== verification/DoubleQueue.v ===== *)
(** * The two-ring queue: [mycache/src/struct/doublequeue.c]

    Two rings of doubly linked nodes, each with a dummy node.  The producer
    inserts behind the dummy of the ring [in] under the lock; the consumer takes
    from the end of the ring [out] and, when that is empty, waits on the
    semaphore and swaps the rings under the lock.  ([swap_queue/swap_queue.c] is
    the same code under other names, [practice/struct/doublequeue_spin.c] with a
    spin lock.) *)

From stdpp Require Import relations.
From S2P Require Import Prelude.

(** [struct double_queue_node]; data are opaque pointers, 0 being NULL. *)
Record dnode : Type := DNode { next : ptr; prev : ptr; data : Z }.
Abbreviation dheap := (gmap loc dnode).

(** [struct double_queue_head], with the value of the semaphore [no_empty]. *)
Record dhead : Type := DHead { dq_in : ptr; dq_out : ptr; no_empty : Z }.

Definition dget (h : dheap) (p : ptr) : outcome dnode :=
  match p with
  | Addr l => match h !! l with Some n => Ret n | None => Stuck end
  | _ => Stuck
  end.
Definition dset (h : dheap) (p : ptr) (f : dnode → dnode) : outcome dheap :=
  match p with
  | Addr l => match h !! l with Some n => Ret (<[l := f n]> h) | None => Stuck end
  | _ => Stuck
  end.
Definition set_next (q : ptr) (n : dnode) : dnode := DNode q (prev n) (data n).
Definition set_prev (q : ptr) (n : dnode) : dnode := DNode (next n) q (data n).
Definition dfree (h : dheap) (p : ptr) : outcome dheap :=
  match p with
  | Null => Ret h
  | Addr l => if bool_decide (is_Some (h !! l)) then Ret (delete l h) else Stuck
  | Junk => Stuck
  end.

(** [m]: what the allocator returns. *)
Definition __new_double_queue_node (h : dheap) (m : ptr) (d : Z) : dheap :=
  match m with Addr l => <[l := DNode Null Null d]> h | _ => h end.

Definition __free_double_queue_node (h : dheap) (node : ptr) : outcome dheap :=
  if bool_decide (node = Null) then Ret h else dfree h node.

Definition __new_double_queue_node_dummy (h : dheap) (m : ptr) : dheap :=
  match m with Addr l => <[l := DNode m m 0]> h | _ => h end.

(** [m0]: the block for the head; [m1], [m2]: those for the dummies. *)
Definition double_queue_init (h : dheap) (m0 m1 m2 : ptr) (cond : Z) : option dhead * dheap :=
  if bool_decide (m0 = Null) then (None, h)
  else
    let h := __new_double_queue_node_dummy h m1 in
    if bool_decide (m1 = Null) then (None, h)
    else
      let h := __new_double_queue_node_dummy h m2 in
      if bool_decide (m2 = Null) then (None, h)
      else (Some (DHead m1 m2 cond), h).

Definition __free_double_queue_dummy (h : dheap) (dummy : ptr) : outcome dheap := dfree h dummy.

(** One of the two loops of [double_queue_free]: release every node up to the
    dummy, then the dummy.  The handler's calls are recorded in order. *)
Definition free_ring (h : dheap) (dummy : ptr) (handled : list Z) : outcome (dheap * list Z) :=
  let! n := dget h dummy in
  let! r := loop (S (size h)) (λ st : ptr * dheap * list Z,
    let '(p, h, handled) := st in
    if bool_decide (p = dummy) then Ret (inr (h, handled))
    else
      let! tmp := dget h p in
      let! h := dfree h p in
      Ret (inl (next tmp, h, handled ++ [data tmp]))) (next n, h, handled) in
  let! h := __free_double_queue_dummy r.1 dummy in
  Ret (h, r.2).

Definition double_queue_free (h : dheap) (head : dhead) : outcome (dheap * list Z) :=
  let! r := free_ring h (dq_in head) [] in
  free_ring r.1 (dq_out head) r.2.

Definition __double_queue_put (h : dheap) (head : dhead) (node : ptr) : outcome (Z * (dheap * dhead)) :=
  let in_head := dq_in head in
  if bool_decide (in_head = Null) then Ret (-1, (h, head))
  else
    let! n := dget h in_head in
    let! h := dset h node (set_next (next n)) in
    let! n := dget h in_head in
    let! h := dset h (next n) (set_prev node) in
    let! h := dset h in_head (set_next node) in
    let! h := dset h node (set_prev in_head) in
    let! n := dget h node in
    let head :=
      if bool_decide (in_head = next n) then DHead in_head (dq_out head) (no_empty head + 1) else head in
    Ret (0, (h, head)).

Definition double_queue_put (h : dheap) (head : option dhead) (d : Z) (m : ptr)
    : outcome (Z * (dheap * option dhead)) :=
  match head with
  | None => Ret (-1, (h, head))
  | Some hd =>
      if d =? 0 then Ret (-1, (h, head))
      else if bool_decide (m = Null) then Ret (-1, (h, head))
      else
        let! r := __double_queue_put (__new_double_queue_node h m d) hd m in
        let '(ret, (h, hd)) := r in Ret (ret, (h, Some hd))
  end.

(** The parts of [__double_queue_get]: is the ring [out] empty; the swap; the
    removal of the last node. *)
Definition out_empty (h : dheap) (head : dhead) : outcome bool :=
  let! n := dget h (dq_out head) in Ret (bool_decide (dq_out head = next n)).

Definition swap_rings (head : dhead) : dhead := DHead (dq_out head) (dq_in head) (no_empty head).

Definition take_last (h : dheap) (head : dhead) : outcome (ptr * dheap) :=
  let out_head := dq_out head in
  let! n := dget h out_head in
  let last := prev n in
  if bool_decide (last = out_head) then Ret (Null, h)
  else
    let! n := dget h last in
    let! h := dset h (prev n) (set_next (next n)) in
    let! n := dget h last in
    let! h := dset h (next n) (set_prev (prev n)) in
    Ret (last, h).

(** [sem_timedwait]: takes a unit when there is one, else times out. *)
Definition sem_timedwait (head : dhead) : bool * dhead :=
  if 0 <? no_empty head then (true, DHead (dq_in head) (dq_out head) (no_empty head - 1)) else (false, head).

Definition __double_queue_get (h : dheap) (head : dhead) : outcome (ptr * (dheap * dhead)) :=
  if bool_decide (dq_out head = Null) then Ret (Null, (h, head))
  else
    let! e := out_empty h head in
    if e : bool then
      let '(ok, head) := sem_timedwait head in
      if ok : bool then
        let head := swap_rings head in
        let! r := take_last h head in Ret (r.1, (r.2, head))
      else Ret (Null, (h, head))
    else
      let! r := take_last h head in Ret (r.1, (r.2, head)).

(** Reading the data of a node and releasing it. *)
Definition consume (h : dheap) (node : ptr) : outcome (Z * dheap) :=
  let! n := dget h node in
  let! h := __free_double_queue_node h node in
  Ret (data n, h).

Definition double_queue_get (h : dheap) (head : option dhead) : outcome (Z * (dheap * option dhead)) :=
  match head with
  | None => Ret (0, (h, head))
  | Some hd =>
      let! r := __double_queue_get h hd in
      let '(node, (h, hd)) := r in
      if bool_decide (node = Null) then Ret (0, (h, Some hd))
      else let! r := consume h node in Ret (r.1, (r.2, Some hd))
  end.

(** ** Rings *)
Definition nx (h : dheap) (l : loc) : option ptr := next <$> h !! l.
Definition pv (h : dheap) (l : loc) : option ptr := prev <$> h !! l.
Definition dt (h : dheap) (l : loc) : option Z := data <$> h !! l.

(** From [a] the nodes [xs] in [next] order, then [z]; [prev] leads back. *)
Fixpoint chain (h : dheap) (a : loc) (xs : list loc) (z : loc) : Prop :=
  match xs with
  | [] => nx h a = Some (Addr z) ∧ pv h z = Some (Addr a)
  | x :: xs => nx h a = Some (Addr x) ∧ pv h x = Some (Addr a) ∧ chain h x xs z
  end.

(** The ring of dummy [d] with nodes [xs], which hold [vs]. *)
Definition ring (h : dheap) (d : loc) (xs : list loc) (vs : list Z) : Prop :=
  NoDup (d :: xs) ∧ chain h d xs d ∧ dt h <$> xs = Some <$> vs.

Section rings.
Implicit Types (h : dheap) (a d l x y z : loc) (xs ys : list loc).

Lemma chain_app h a xs y ys z : chain h a (xs ++ y :: ys) z ↔ chain h a xs y ∧ chain h y ys z.
Proof.
  revert a. induction xs as [|x xs IH]; intros a; simpl; [tauto|]. rewrite IH. tauto.
Qed.

Lemma chain_ext h h' a xs z :
  (∀ l, l ∈ a :: xs → nx h' l = nx h l) → (∀ l, l ∈ xs ++ [z] → pv h' l = pv h l) →
  chain h a xs z → chain h' a xs z.
Proof.
  revert a. induction xs as [|x xs IH]; intros a Hn Hp; simpl.
  - rewrite Hn, Hp by set_solver. done.
  - rewrite Hn, Hp by set_solver. intros (? & ? & Hc). split_and!; [done|done|].
    apply IH; [| |done]; intros l Hl; [apply Hn|apply Hp]; set_solver.
Qed.

Lemma dget_nx h l p : nx h l = Some p → ∃ n, h !! l = Some n ∧ dget h (Addr l) = Ret n ∧ next n = p.
Proof. unfold nx. simpl. destruct (h !! l) as [n|]; simpl; [|done]. intros [= <-]. by exists n. Qed.

Lemma dget_pv h l p : pv h l = Some p → ∃ n, h !! l = Some n ∧ dget h (Addr l) = Ret n ∧ prev n = p.
Proof. unfold pv. simpl. destruct (h !! l) as [n|]; simpl; [|done]. intros [= <-]. by exists n. Qed.

(** What a write to a link changes. *)
Lemma dset_next h l q :
  is_Some (h !! l) → returns (dset h (Addr l) (set_next q)) (λ h',
    (∀ l', nx h' l' = if decide (l' = l) then Some q else nx h l') ∧
    (∀ l', pv h' l' = pv h l') ∧ (∀ l', dt h' l' = dt h l') ∧
    (∀ l', is_Some (h' !! l') ↔ is_Some (h !! l')) ∧ (∀ l', l' ≠ l → h' !! l' = h !! l')).
Proof.
  intros [n Hn]. simpl. rewrite Hn. simpl. unfold nx, pv, dt. split_and!.
  - intros l'. rewrite lookup_insert. repeat case_decide; subst; done.
  - intros l'. rewrite lookup_insert. case_decide; subst; [by rewrite Hn|done].
  - intros l'. rewrite lookup_insert. case_decide; subst; [by rewrite Hn|done].
  - intros l'. rewrite lookup_insert. case_decide; subst; [|done]. rewrite Hn. split; by eexists.
  - intros l' Hl. by rewrite lookup_insert_ne.
Qed.

Lemma dset_prev h l q :
  is_Some (h !! l) → returns (dset h (Addr l) (set_prev q)) (λ h',
    (∀ l', pv h' l' = if decide (l' = l) then Some q else pv h l') ∧
    (∀ l', nx h' l' = nx h l') ∧ (∀ l', dt h' l' = dt h l') ∧
    (∀ l', is_Some (h' !! l') ↔ is_Some (h !! l')) ∧ (∀ l', l' ≠ l → h' !! l' = h !! l')).
Proof.
  intros [n Hn]. simpl. rewrite Hn. simpl. unfold nx, pv, dt. split_and!.
  - intros l'. rewrite lookup_insert. repeat case_decide; subst; done.
  - intros l'. rewrite lookup_insert. case_decide; subst; [by rewrite Hn|done].
  - intros l'. rewrite lookup_insert. case_decide; subst; [by rewrite Hn|done].
  - intros l'. rewrite lookup_insert. case_decide; subst; [|done]. rewrite Hn. split; by eexists.
  - intros l' Hl. by rewrite lookup_insert_ne.
Qed.

Lemma nx_some h l p : nx h l = Some p → is_Some (h !! l).
Proof. unfold nx. destruct (h !! l); [by eexists|done]. Qed.
Lemma pv_some h l p : pv h l = Some p → is_Some (h !! l).
Proof. unfold pv. destruct (h !! l); [by eexists|done]. Qed.

Lemma chain_some h a xs z l : chain h a xs z → l ∈ a :: xs → is_Some (h !! l).
Proof.
  revert a. induction xs as [|x xs IH]; intros a; simpl.
  - intros [Hn _] ->%list_elem_of_singleton. by eapply nx_some.
  - intros (Hn & _ & Hc) [->|Hl]%elem_of_cons; [by eapply nx_some|by eapply IH].
Qed.

(** The first node after [a]. *)
Definition first (xs : list loc) (z : loc) : loc := match xs with [] => z | x :: _ => x end.

Lemma chain_first h a xs z :
  chain h a xs z → nx h a = Some (Addr (first xs z)) ∧ pv h (first xs z) = Some (Addr a).
Proof. destruct xs; simpl; tauto. Qed.

Lemma ring_frame h h' d xs vs :
  (∀ l, l ∈ d :: xs → h' !! l = h !! l) → ring h d xs vs → ring h' d xs vs.
Proof.
  intros Hf (Hnd & Hc & Hv). split_and!; [done| |].
  - eapply chain_ext; [| |done]; intros l Hl; unfold nx, pv; rewrite Hf; [done|set_solver|done|set_solver].
  - rewrite <-Hv. apply list_fmap_ext. intros i l Hl%list_elem_of_lookup_2. unfold dt.
    rewrite Hf; [done|set_solver].
Qed.

Lemma chain_push h h' d x xs :
  NoDup (d :: xs) → x ∉ d :: xs → chain h d xs d →
  (∀ l, nx h' l = if decide (l = d) then Some (Addr x)
                  else if decide (l = x) then Some (Addr (first xs d)) else nx h l) →
  (∀ l, pv h' l = if decide (l = x) then Some (Addr d)
                  else if decide (l = first xs d) then Some (Addr x) else pv h l) →
  chain h' d (x :: xs) d.
Proof.
  intros Hnd Hx Hc Hn Hp. assert (x ≠ d) as Hxd by set_solver.
  split; [by rewrite Hn, decide_True|]. split; [by rewrite Hp, decide_True|].
  destruct xs as [|y ys]; simpl in *.
  - by rewrite Hn, Hp, (decide_False (P:=x = d)), (decide_False (P:=d = x)), !decide_True by done.
  - destruct Hc as (_ & _ & Hc). apply NoDup_cons in Hnd as [Hd Hnd]. apply NoDup_cons in Hnd as [Hy _].
    assert (x ≠ y) by set_solver.
    rewrite Hn, Hp, (decide_False (P:=x = d)), (decide_False (P:=y = x)), !decide_True by done.
    split_and!; [done|done|]. eapply chain_ext; [| |done]; intros l Hl.
    + rewrite Hn, !decide_False by set_solver. done.
    + rewrite Hp, !decide_False; [done| |set_solver].
      intros ->. apply elem_of_app in Hl as [?|Hl%list_elem_of_singleton]; [done|set_solver].
Qed.

Lemma chain_pop h h' d ys l p :
  NoDup (d :: ys ++ [l]) → chain h d (ys ++ [l]) d → p = default d (last ys) →
  (∀ k, nx h' k = if decide (k = p) then Some (Addr d) else nx h k) →
  (∀ k, pv h' k = if decide (k = d) then Some (Addr p) else pv h k) →
  chain h' d ys d.
Proof.
  intros Hnd Hc -> Hn Hp. destruct ys as [|q zs _] using rev_ind.
  - simpl in *. by rewrite Hn, Hp, !decide_True by done.
  - rewrite last_snoc in *. simpl in *. apply chain_app in Hc as [Hc _].
    apply chain_app in Hc as [Hc _]. apply NoDup_cons in Hnd as [Hd Hnd].
    apply NoDup_app in Hnd as [Hnd _]. apply NoDup_app in Hnd as (_ & Hq & _).
    apply chain_app. split; [|simpl; by rewrite Hn, Hp, !decide_True by done].
    eapply chain_ext; [| |done]; intros k Hk.
    + rewrite Hn, decide_False; [done|]. intros ->.
      apply elem_of_cons in Hk as [->|Hk]; [set_solver|]. apply (Hq q Hk). left.
    + rewrite Hp, decide_False; [done|]. intros ->. set_solver.
Qed.

(** The last node and its neighbours. *)
Lemma chain_last h d ys l :
  chain h d (ys ++ [l]) d → pv h d = Some (Addr l) ∧ nx h l = Some (Addr d) ∧
    pv h l = Some (Addr (default d (last ys))).
Proof.
  intros [Hc [Hl Hd]]%chain_app. split_and!; [done|done|].
  destruct ys as [|q zs _] using rev_ind; [simpl in *; tauto|].
  rewrite last_snoc. simpl. apply chain_app in Hc as [_ Hc]. simpl in Hc. tauto.
Qed.
End rings.

Section ring_ops.
Implicit Types (h : dheap) (d l x : loc) (xs ys : list loc) (vs : list Z) (head : dhead).

Lemma bool_decide_Addr (a b : loc) : bool_decide (Addr a = Addr b) = bool_decide (a = b).
Proof. apply bool_decide_ext. split; [by intros [= ->]|by intros ->]. Qed.

Lemma put_spec h head d xs vs x v :
  ring h d xs vs → dq_in head = Addr d → x ∉ d :: xs → dt h x = Some v →
  returns (__double_queue_put h head (Addr x)) (λ r, let '(ret, (h', head')) := r in
    ret = 0 ∧ ring h' d (x :: xs) (v :: vs) ∧
    head' = DHead (dq_in head) (dq_out head) (no_empty head + (if bool_decide (xs = []) then 1 else 0)) ∧
    (∀ l, l ∉ d :: x :: xs → h' !! l = h !! l) ∧ (∀ l, is_Some (h' !! l) ↔ is_Some (h !! l))).
Proof.
  intros (Hnd & Hc & Hv) Hin Hx Hxv. unfold __double_queue_put. rewrite Hin.
  rewrite bool_decide_eq_false_2 by done.
  destruct (chain_first _ _ _ _ Hc) as [Hf1 Hf2].
  assert (is_Some (h !! x)) as Hxs by (unfold dt in Hxv; destruct (h !! x); [by eexists|done]).
  assert (x ≠ d) as Hxd by set_solver.
  destruct (dget_nx _ _ _ Hf1) as (n & _ & -> & En). cbn [mbind outcome_bind]. rewrite En. clear n En.
  run (dset_next h x (Addr (first xs d))); [done|]. intros h1 (N1 & P1 & D1 & S1 & F1).
  destruct (dget_nx h1 d (Addr (first xs d))) as (n1 & _ & -> & En).
  { by rewrite N1, decide_False by done. }
  cbn [mbind outcome_bind]. rewrite En. clear n1 En.
  run (dset_prev h1 (first xs d) (Addr x)); [apply S1; by eapply pv_some|].
  intros h2 (P2 & N2 & D2 & S2 & F2).
  run (dset_next h2 d (Addr x)); [apply S2, S1; by eapply nx_some|].
  intros h3 (N3 & P3 & D3 & S3 & F3).
  run (dset_prev h3 x (Addr d)); [apply S3, S2, S1; done|]. intros h4 (P4 & N4 & D4 & S4 & F4).
  destruct (dget_nx h4 x (Addr (first xs d))) as (n4 & _ & -> & En).
  { by rewrite N4, N3, N2, N1, decide_False, decide_True. }
  cbn [mbind outcome_bind returns]. rewrite En. clear n4 En. rewrite bool_decide_Addr.
  assert (∀ l, is_Some (h4 !! l) ↔ is_Some (h !! l)) as HS by (intros l; by rewrite S4, S3, S2, S1).
  split_and!; [done| | | |done].
  - split_and!.
    + apply NoDup_cons in Hnd as [? ?]. rewrite !NoDup_cons. set_solver.
    + apply (chain_push h); [done|done|done|..]; intros l; rewrite ?N4, ?N3, ?N2, ?N1, ?P4, ?P3, ?P2, ?P1; done.
    + rewrite !fmap_cons, D4, D3, D2, D1, Hxv. f_equal. rewrite <-Hv.
      apply list_fmap_ext. intros i l _. by rewrite D4, D3, D2, D1.
  - destruct xs as [|y ys]; simpl.
    + by rewrite !bool_decide_eq_true_2 by done.
    + apply NoDup_cons in Hnd as [Hnd _].
      rewrite (bool_decide_eq_false_2 (d = y)) by (intros ->; apply Hnd; left).
      destruct head. simpl in *.
      by rewrite Z.add_0_r, Hin.
  - intros l Hl. rewrite !not_elem_of_cons in Hl. destruct Hl as (Hl1 & Hl2 & Hl3).
    assert (l ≠ first xs d) as Hl4.
    { destruct xs as [|y ys]; simpl; [done|]. by apply not_elem_of_cons in Hl3 as [? _]. }
    by rewrite F4, F3, F2, F1.
Qed.

Lemma take_empty h head d vs : ring h d [] vs → dq_out head = Addr d → take_last h head = Ret (Null, h).
Proof.
  intros (_ & [_ Hp] & _) Ho. unfold take_last. rewrite Ho.
  destruct (dget_pv _ _ _ Hp) as (n & _ & -> & En). cbn [mbind outcome_bind]. rewrite En. clear n En.
  by rewrite bool_decide_eq_true_2.
Qed.

Lemma take_spec h head d ys l vs v :
  ring h d (ys ++ [l]) (vs ++ [v]) → dq_out head = Addr d → length vs = length ys →
  returns (take_last h head) (λ r,
    r.1 = Addr l ∧ dt r.2 l = Some v ∧ ring (delete l r.2) d ys vs ∧
    (∀ k, k ∉ d :: ys ++ [l] → r.2 !! k = h !! k)).
Proof.
  intros (Hnd & Hc & Hv) Ho Hlen. unfold take_last. rewrite Ho.
  destruct (chain_last _ _ _ _ Hc) as (Hd & Hl1 & Hl2). set (p := default d (last ys)) in *.
  assert (l ≠ d ∧ l ∉ ys) as [Hld Hly].
  { rewrite NoDup_cons in Hnd. destruct Hnd as [H1 H2]. apply NoDup_app in H2 as (_ & H2 & _).
    split; [set_solver|]. intros Hin. apply (H2 l Hin). left. }
  assert (p ≠ l ∧ p ∈ d :: ys) as [Hpl Hp].
  { unfold p. destruct ys as [|q zs _] using rev_ind; [set_solver|]. rewrite last_snoc. simpl. set_solver. }
  destruct (dget_pv _ _ _ Hd) as (n & _ & -> & En). cbn [mbind outcome_bind]. rewrite En. clear n En.
  rewrite bool_decide_eq_false_2 by (intros [= ?]; done).
  destruct (dget_pv _ _ _ Hl2) as (n1 & Hn1 & -> & Hn1p). cbn [mbind outcome_bind].
  assert (next n1 = Addr d) as Hn1n by (unfold nx in Hl1; rewrite Hn1 in Hl1; by injection Hl1).
  rewrite Hn1p, Hn1n.
  run (dset_next h p (Addr d)).
  { eapply (chain_some h d (ys ++ [l]) d); [done|]. set_solver. }
  intros h1 (N1 & P1 & D1 & S1 & F1).
  destruct (dget_pv h1 l (Addr p)) as (n2 & Hn2 & -> & En); [by rewrite P1|]. cbn [mbind outcome_bind]. rewrite En.
  assert (next n2 = Addr d) as ->.
  { assert (nx h1 l = Some (Addr d)) as E by (by rewrite N1, decide_False by done).
    unfold nx in E. rewrite Hn2 in E. by injection E. }
  run (dset_prev h1 d (Addr p)); [apply S1; by eapply pv_some|]. intros h2 (P2 & N2 & D2 & S2 & F2).
  rewrite !fmap_app in Hv. apply app_inj_2 in Hv as [Hv Hvl]; [|done]. injection Hvl as Hvl.
  cbn [returns fst snd]. split_and!; [done|by rewrite D2, D1| |].
  - apply (ring_frame h2); [intros k Hk; apply lookup_delete_ne; intros ->; by apply elem_of_cons in Hk as [?|?]|].
    split_and!.
    + rewrite app_comm_cons in Hnd. by apply NoDup_app in Hnd as [? _].
    + apply (chain_pop h h2 d ys l p); [done|done|done|..]; intros k; rewrite ?N2, ?N1, ?P2, ?P1; done.
    + rewrite <-Hv. apply list_fmap_ext. intros i k _. by rewrite D2, D1.
  - intros k [Hkd Hk]%not_elem_of_cons. rewrite F2, F1; [done| |done].
    intros ->. apply elem_of_cons in Hp as [->|Hp]; [done|]. apply Hk, elem_of_app. by left.
Qed.
End ring_ops.

(** ** The two rings of a queue *)
Section two_rings.
Implicit Types (h : dheap) (d l x : loc) (xs xi xo : list loc) (vi vo : list Z) (head : dhead).

Record two_rings h head d1 xi vi d2 xo vo : Prop := TwoRings {
  tr_in : dq_in head = Addr d1;
  tr_out : dq_out head = Addr d2;
  tr_ring1 : ring h d1 xi vi;
  tr_ring2 : ring h d2 xo vo;
  tr_disjoint : ∀ l, l ∈ d1 :: xi → l ∉ d2 :: xo
}.

Lemma ring_length h d xs vs : ring h d xs vs → length vs = length xs.
Proof. intros (_ & _ & E). apply (f_equal length) in E. by rewrite !length_fmap in E. Qed.

Lemma ring_some h d xs vs l : ring h d xs vs → l ∈ d :: xs → is_Some (h !! l).
Proof. intros (_ & Hc & _). by eapply chain_some. Qed.

Lemma two_put h head d1 xi vi d2 xo vo x v :
  two_rings h head d1 xi vi d2 xo vo → h !! x = None → v ≠ 0 →
  returns (double_queue_put h (Some head) v (Addr x)) (λ r, let '(ret, (h', head')) := r in
    ret = 0 ∧ ∃ hd, head' = Some hd ∧ two_rings h' hd d1 (x :: xi) (v :: vi) d2 xo vo ∧
    no_empty hd = no_empty head + (if bool_decide (xi = []) then 1 else 0) ∧
    (∀ l, is_Some (h' !! l) ↔ l = x ∨ is_Some (h !! l))).
Proof.
  intros [Hi Ho H1 H2 Hd] Hx Hv. unfold double_queue_put.
  destruct (Z.eqb_spec v 0); [done|]. rewrite bool_decide_eq_false_2 by done.
  assert (∀ l, l ∈ d1 :: xi → l ≠ x) as Hx1.
  { intros l Hl ->. destruct (ring_some _ _ _ _ _ H1 Hl) as [? ?]. congruence. }
  assert (∀ l, l ∈ d2 :: xo → l ≠ x) as Hx2.
  { intros l Hl ->. destruct (ring_some _ _ _ _ _ H2 Hl) as [? ?]. congruence. }
  unfold __new_double_queue_node. set (h0 := <[x := _]> h).
  assert (ring h0 d1 xi vi) as H1'.
  { apply (ring_frame h); [|done]. intros l Hl. apply lookup_insert_ne. by apply not_eq_sym, Hx1. }
  assert (ring h0 d2 xo vo) as H2'.
  { apply (ring_frame h); [|done]. intros l Hl. apply lookup_insert_ne. by apply not_eq_sym, Hx2. }
  run (put_spec h0 head d1 xi vi x v H1' Hi).
  - intros Hl. by apply (Hx1 x).
  - unfold dt, h0. by rewrite lookup_insert_eq.
  - intros [ret [h' head']] (-> & Hr & -> & Hf & Hs). cbn [returns]. split; [done|].
    eexists. split; [done|]. split_and!; [|done|].
    + constructor; simpl; [done|done|done| |].
      * apply (ring_frame h0); [|done]. intros l Hl. apply Hf. intros Hl1.
        apply elem_of_cons in Hl1 as [->|[->|Hl1]%elem_of_cons].
        -- apply (Hd d1); [left|done].
        -- by apply (Hx2 x).
        -- apply (Hd l); [by right|done].
      * intros l [->|[->|Hl]%elem_of_cons]%elem_of_cons.
        -- apply Hd. left.
        -- intros Hl. by apply (Hx2 x).
        -- apply Hd. by right.
    + intros l. rewrite Hs. unfold h0. rewrite lookup_insert. case_decide; subst.
      * split; [by left|by eexists].
      * split; [by right|intros [?|?]; done].
Qed.

Lemma two_take h head d1 xi vi d2 ys l ws w :
  two_rings h head d1 xi vi d2 (ys ++ [l]) (ws ++ [w]) →
  returns (take_last h head) (λ r, r.1 = Addr l ∧
    returns (consume r.2 (Addr l)) (λ r', r'.1 = w ∧ two_rings r'.2 head d1 xi vi d2 ys ws ∧
      (∀ k, is_Some (r'.2 !! k) → is_Some (h !! k)))).
Proof.
  intros [Hi Ho H1 H2 Hd]. pose proof (ring_length _ _ _ _ H2) as Hlen.
  rewrite !length_app in Hlen. simpl in Hlen.
  eapply returns_mono; [apply (take_spec h head d2 ys l ws w H2 Ho); lia|].
  intros [q h'] (Hq & Hw & Hr & Hf). cbn [fst snd] in *. split; [done|].
  unfold consume, dt in *. simpl. destruct (h' !! l) as [n|] eqn:En; [|done].
  simpl in Hw. injection Hw as Hw. cbn [mbind outcome_bind]. unfold __free_double_queue_node.
  rewrite bool_decide_eq_false_2 by done. simpl.
  rewrite bool_decide_eq_true_2 by (by exists n). cbn [mbind outcome_bind returns fst snd].
  split_and!; [done| |].
  - constructor; [done|done| |done|].
    + apply (ring_frame h); [|done]. intros k Hk. pose proof (Hd k Hk) as Hk2.
      rewrite lookup_delete_ne, Hf; [done|done|]. intros ->. apply Hk2. right. apply elem_of_app. right. left.
    + intros k Hk Hk2. apply (Hd k Hk). apply elem_of_cons in Hk2 as [->|Hk2]; [left|].
      right. apply elem_of_app. by left.
  - intros k. destruct (decide (k = l)) as [->|Hkl]; [rewrite lookup_delete_eq; by intros [? ?]|].
    rewrite lookup_delete_ne by done. destruct (decide (k ∈ d2 :: ys ++ [l])) as [Hin|Hin].
    + intros _. by eapply ring_some.
    + by rewrite Hf.
Qed.

Lemma two_swap h head d1 xi vi d2 xo vo :
  two_rings h head d1 xi vi d2 xo vo → two_rings h (swap_rings head) d2 xo vo d1 xi vi.
Proof. intros [Hi Ho H1 H2 Hd]. constructor; simpl; try done. intros l Hl Hl1. by apply (Hd l). Qed.

Lemma two_sem h head d1 xi vi d2 xo vo n :
  two_rings h head d1 xi vi d2 xo vo → two_rings h (DHead (dq_in head) (dq_out head) n) d1 xi vi d2 xo vo.
Proof. intros []. by constructor. Qed.

Lemma two_out_empty h head d1 xi vi d2 xo vo :
  two_rings h head d1 xi vi d2 xo vo → out_empty h head = Ret (bool_decide (xo = [])).
Proof.
  intros [Hi Ho H1 (Hnd & Hc & _) Hd]. unfold out_empty. rewrite Ho.
  destruct (chain_first _ _ _ _ Hc) as [Hf _]. destruct (dget_nx _ _ _ Hf) as (n & _ & -> & En).
  cbn [mbind outcome_bind]. rewrite En. f_equal. rewrite bool_decide_Addr.
  apply bool_decide_ext. destruct xo as [|y ys]; simpl; [done|]. split; [|done].
  intros ->. apply NoDup_cons in Hnd as [Hnd _]. exfalso. apply Hnd. left.
Qed.
End two_rings.

(** ** Producer and consumer as interleaved steps

    [put] runs under the lock, as does the swap.  The consumer's other accesses
    are to the ring [out], which the producer never touches. *)
Inductive consumer : Type := CIdle | CWait | CSwap | CTake.

Record dq : Type := Dq {
  dq_heap : dheap;
  dq_head : dhead;
  cons : consumer;
  put_log : list Z;
  got_log : list Z
}.

Inductive dq_step : dq → dq → Prop :=
  | p_put h h' hd hd' c P G x v :
      h !! x = None → double_queue_put h (Some hd) v (Addr x) = Ret (0, (h', Some hd')) →
      dq_step (Dq h hd c P G) (Dq h' hd' c (P ++ [v]) G)
  | c_look h hd P G e : out_empty h hd = Ret e →
      dq_step (Dq h hd CIdle P G) (Dq h hd (if e : bool then CWait else CTake) P G)
  | c_wait h hd hd' P G : sem_timedwait hd = (true, hd') →
      dq_step (Dq h hd CWait P G) (Dq h hd' CSwap P G)
  | c_timeout h hd P G :
      dq_step (Dq h hd CWait P G) (Dq h hd CIdle P G)
  | c_swap h hd P G :
      dq_step (Dq h hd CSwap P G) (Dq h (swap_rings hd) CTake P G)
  | c_take h h1 h2 hd P G l v :
      take_last h hd = Ret (Addr l, h1) → consume h1 (Addr l) = Ret (v, h2) →
      dq_step (Dq h hd CTake P G) (Dq h2 hd CIdle P (G ++ [v]))
  | c_take_null h h1 hd P G : take_last h hd = Ret (Null, h1) →
      dq_step (Dq h hd CTake P G) (Dq h1 hd CIdle P G).

Section protocol.
Implicit Types (h : dheap) (s : dq).

Definition posted (xi : list loc) : Z := if bool_decide (xi = []) then 0 else 1.

Definition dq_inv s : Prop :=
  ∃ d1 xi vi d2 xo vo,
    two_rings (dq_heap s) (dq_head s) d1 xi vi d2 xo vo ∧
    put_log s = got_log s ++ rev vo ++ rev vi ∧
    match cons s with
    | CIdle => no_empty (dq_head s) = posted xi
    | CWait => xo = [] ∧ no_empty (dq_head s) = posted xi
    | CSwap => xo = [] ∧ xi ≠ [] ∧ no_empty (dq_head s) = 0
    | CTake => xo ≠ [] ∧ no_empty (dq_head s) = posted xi
    end.

Lemma posted_cons x xi : posted (x :: xi) = 1.
Proof. done. Qed.

Lemma ring_values h d xs vs : ring h d xs vs → xs = [] ↔ vs = [].
Proof. intros Hr%ring_length. destruct xs, vs; simpl in *; done. Qed.

Lemma dq_inv_put h h' hd hd' c P G x v :
  dq_inv (Dq h hd c P G) → h !! x = None →
  double_queue_put h (Some hd) v (Addr x) = Ret (0, (h', Some hd')) →
  dq_inv (Dq h' hd' c (P ++ [v]) G).
Proof.
  intros (d1 & xi & vi & d2 & xo & vo & Htr & Hlog & Hc) Hx Hput. cbn [dq_heap dq_head cons put_log got_log] in *.
  assert (v ≠ 0) as Hv by (intros ->; done).
  pose proof (two_put h hd d1 xi vi d2 xo vo x v Htr Hx Hv) as Hp. rewrite Hput in Hp.
  destruct Hp as (_ & hd2 & [= <-] & Htr' & Hsem & _).
  exists d1, (x :: xi), (v :: vi), d2, xo, vo. split; [done|]. simpl. split.
  - by rewrite Hlog, <-!app_assoc.
  - destruct c; simpl in *; rewrite ?posted_cons; rewrite Hsem; unfold posted in *.
    + case_bool_decide; lia.
    + destruct Hc as [-> Hc]. split; [done|]. case_bool_decide; lia.
    + destruct Hc as (-> & Hne & Hc). rewrite bool_decide_eq_false_2 by done. by rewrite Hc.
    + destruct Hc as [Hc1 Hc]. split; [done|]. case_bool_decide; lia.
Qed.

Lemma dq_inv_step s s' : dq_inv s → dq_step s s' → dq_inv s'.
Proof.
  intros Hi Hst. destruct Hst as [h h' hd hd' c P G x v Hx Hput|h hd P G e He|h hd hd' P G Hw|h hd P G
    |h hd P G|h h1 h2 hd P G l v Ht Hc|h h1 hd P G Ht].
  - by eapply dq_inv_put.
  - destruct Hi as (d1 & xi & vi & d2 & xo & vo & Htr & Hlog & Hc). cbn [dq_heap dq_head cons put_log got_log] in *.
    pose proof (two_out_empty _ _ _ _ _ _ _ _ Htr) as He'. rewrite He in He'. injection He' as ->.
    exists d1, xi, vi, d2, xo, vo. split; [done|]. split; [done|]. simpl. by case_bool_decide.
  - destruct Hi as (d1 & xi & vi & d2 & xo & vo & Htr & Hlog & Hc). cbn [dq_heap dq_head cons put_log got_log] in *.
    destruct Hc as [-> Hc]. unfold sem_timedwait in Hw. destruct (Z.ltb_spec 0 (no_empty hd)); [|done].
    injection Hw as <-. exists d1, xi, vi, d2, [], vo. split; [by apply two_sem|]. split; [done|]. simpl.
    unfold posted in Hc. case_bool_decide; [lia|]. split_and!; [done|done|lia].
  - destruct Hi as (d1 & xi & vi & d2 & xo & vo & Htr & Hlog & Hc). cbn [dq_heap dq_head cons put_log got_log] in *.
    exists d1, xi, vi, d2, xo, vo. split; [done|]. split; [done|]. by destruct Hc.
  - destruct Hi as (d1 & xi & vi & d2 & xo & vo & Htr & Hlog & -> & Hne & Hc). cbn [dq_heap dq_head cons put_log got_log] in *.
    exists d2, [], vo, d1, xi, vi. split; [by apply two_swap|]. split; [simpl|done].
    assert (vo = []) as -> by (by apply (ring_values _ _ _ _ (tr_ring2 _ _ _ _ _ _ _ _ Htr))).
    by rewrite Hlog, app_nil_r.
  - destruct Hi as (d1 & xi & vi & d2 & xo & vo & Htr & Hlog & Hne & Hsem). cbn [dq_heap dq_head cons put_log got_log] in *.
    pose proof (ring_length _ _ _ _ (tr_ring2 _ _ _ _ _ _ _ _ Htr)) as Hlen.
    destruct xo as [|l' ys _] using rev_ind; [done|].
    destruct vo as [|w ws _] using rev_ind; [rewrite length_app in Hlen; simpl in Hlen; lia|].
    pose proof (two_take _ _ _ _ _ _ _ _ _ _ Htr) as Htk. rewrite Ht in Htk.
    destruct Htk as ([= ->] & Hcons). cbn [fst snd] in Hcons. rewrite Hc in Hcons.
    destruct Hcons as (Hv & Htr' & _). cbn [fst snd] in *. subst w.
    exists d1, xi, vi, d2, ys, ws. split; [done|]. split; [simpl|done].
    by rewrite Hlog, rev_unit, <-app_assoc.
  - destruct Hi as (d1 & xi & vi & d2 & xo & vo & Htr & Hlog & Hne & Hsem). cbn [dq_heap dq_head cons put_log got_log] in *.
    pose proof (ring_length _ _ _ _ (tr_ring2 _ _ _ _ _ _ _ _ Htr)) as Hlen.
    destruct xo as [|l' ys _] using rev_ind; [done|].
    destruct vo as [|w ws _] using rev_ind; [rewrite length_app in Hlen; simpl in Hlen; lia|].
    pose proof (two_take _ _ _ _ _ _ _ _ _ _ Htr) as Htk. rewrite Ht in Htk. by destruct Htk.
Qed.
End protocol.

(** ** Releasing a ring *)
Section release.
Implicit Types (h : dheap) (d l x : loc) (xs : list loc) (vs : list Z).

Lemma free_ring_spec h d xs vs handled :
  ring h d xs vs → returns (free_ring h (Addr d) handled) (λ r,
    r.2 = handled ++ vs ∧ ∀ l, r.1 !! l = if decide (l ∈ d :: xs) then None else h !! l).
Proof.
  intros Hr. pose proof Hr as (Hnd & Hc & Hv). unfold free_ring.
  destruct (chain_first _ _ _ _ Hc) as [Hf _]. destruct (dget_nx _ _ _ Hf) as (n & Hn & -> & En).
  cbn [mbind outcome_bind]. rewrite En. apply returns_bind. apply NoDup_cons in Hnd as [Hd Hnd].
  eapply returns_mono; [eapply (loop_returns (λ st : ptr * dheap * list Z, ∃ A B vA vB,
      xs = A ++ B ∧ vs = vA ++ vB ∧ length A = length vA ∧ st.1.1 = Addr (first B d) ∧
      st.2 = handled ++ vA ∧ ∀ l, st.1.2 !! l = if decide (l ∈ A) then None else h !! l)
    (λ st : ptr * dheap * list Z, size st.1.2)
    (λ r : dheap * list Z, r.2 = handled ++ vs ∧
      ∀ l, r.1 !! l = if decide (l ∈ xs) then None else h !! l))|].
  - intros [[p h1] hn] (A & B & vA & vB & EA & EV & Hlen & Hp & Hh & H1). cbn [fst snd] in *.
    subst p hn xs vs. destruct B as [|y B]; simpl first.
    { rewrite bool_decide_eq_true_2 by done. rewrite app_nil_r in *.
      pose proof (ring_length _ _ _ _ Hr) as Hl. rewrite length_app in Hl.
      destruct vB; [|simpl in Hl; lia]. rewrite app_nil_r. split; [done|]. exact H1. }
    assert (y ≠ d ∧ y ∉ A) as [Hyd HyA].
    { split; [intros ->; apply Hd, elem_of_app; right; left|]. apply NoDup_app in Hnd as (_ & Hx & _).
      intros Hin. apply (Hx y Hin). left. }
    rewrite bool_decide_eq_false_2 by (intros [= ?]; done).
    apply chain_app in Hc as [_ Hcy]. destruct (chain_first _ _ _ _ Hcy) as [Hny _].
    destruct (dget_nx _ _ _ Hny) as (ny & Hy & _ & Eny).
    assert (h1 !! y = Some ny) as Hy1 by (by rewrite H1, decide_False).
    simpl. rewrite Hy1. cbn [mbind outcome_bind]. rewrite bool_decide_eq_true_2 by (by exists ny).
    cbn [mbind outcome_bind returns]. rewrite !fmap_app in Hv.
    apply app_inj_1 in Hv as [_ Hv]; [|by rewrite !length_fmap].
    destruct vB as [|v vB]; [done|]. rewrite !fmap_cons in Hv. injection Hv as Hvy _.
    unfold dt in Hvy. rewrite Hy in Hvy. injection Hvy as Hvy.
    split.
    + exists (A ++ [y]), B, (vA ++ [v]), vB. rewrite !length_app, <-!app_assoc, Eny, Hvy. simpl.
      split_and!; try done; [lia|]. intros l. rewrite lookup_delete.
      case_decide; [subst; rewrite decide_True; [done|apply elem_of_app; right; left]|].
      rewrite H1. repeat case_decide; try done; set_solver.
    + cbn [fst snd]. rewrite map_size_delete_Some by (by exists ny).
      assert (size h1 ≠ 0%nat); [|lia]. apply (map_size_ne_0_lookup_2 _ y). by exists ny.
  - exists [], xs, [], vs. split_and!; try done. by rewrite app_nil_r.
  - simpl. lia.
  - intros [h1 hn] [-> H1]. cbn [fst snd] in *. unfold __free_double_queue_dummy. simpl.
    rewrite bool_decide_eq_true_2 by (rewrite H1, decide_False by done; by exists n).
    simpl. split; [done|]. intros l. rewrite lookup_delete, H1.
    destruct (decide (d = l)) as [<-|]; [by rewrite decide_True by left|].
    repeat case_decide; try done; set_solver.
Qed.
End release.

(** ** Properties *)

Definition dq_rep (h : dheap) (hd : dhead) (q : list Z) : Prop :=
  ∃ d1 xi vi d2 xo vo, two_rings h hd d1 xi vi d2 xo vo ∧ no_empty hd = posted xi ∧
    q = rev vo ++ rev vi.

Lemma get_finish h hd d1 xi vi d2 ys l ws w :
  two_rings h hd d1 xi vi d2 (ys ++ [l]) (ws ++ [w]) → no_empty hd = posted xi →
  returns ((let! r := take_last h hd in Ret (r.1, (r.2, hd))) ≫= λ r, let '(node, (h, hd)) := r in
     if bool_decide (node = Null) then Ret (0, (h, Some hd))
     else let! r := consume h node in Ret (r.1, (r.2, Some hd)))
    (λ r, ∃ hd', r.2.2 = Some hd' ∧ r.1 = w ∧ dq_rep r.2.1 hd' (rev ws ++ rev vi)).
Proof.
  intros Htr Hsem. apply returns_bind. run (two_take _ _ _ _ _ _ _ _ _ _ Htr).
  intros [q h'] [Hq Hc]. cbn [fst snd] in *. subst q. cbn [returns].
  rewrite bool_decide_eq_false_2 by done. apply returns_bind. eapply returns_mono; [exact Hc|].
  intros [v h2] (-> & Htr' & _). simpl. exists hd. split_and!; [done|done|].
  by exists d1, xi, vi, d2, ys, ws.
Qed.

Lemma two_nonempty h head d1 xi vi d2 xo vo :
  two_rings h head d1 xi vi d2 xo vo → xo ≠ [] →
  ∃ ys l ws w, xo = ys ++ [l] ∧ vo = ws ++ [w].
Proof.
  intros Htr Hne. pose proof (ring_length _ _ _ _ (tr_ring2 _ _ _ _ _ _ _ _ Htr)) as Hlen.
  destruct xo as [|l ys _] using rev_ind; [done|].
  destruct vo as [|w ws _] using rev_ind; [rewrite length_app in Hlen; simpl in Hlen; lia|].
  by exists ys, l, ws, w.
Qed.

Lemma get_sequential h hd q :
  dq_rep h hd q → returns (double_queue_get h (Some hd)) (λ r, ∃ hd', r.2.2 = Some hd' ∧
    match q with
    | [] => r.1 = 0 ∧ r.2.1 = h ∧ hd' = hd
    | v :: q => r.1 = v ∧ dq_rep r.2.1 hd' q
    end).
Proof.
  intros (d1 & xi & vi & d2 & xo & vo & Htr & Hsem & ->).
  unfold double_queue_get, __double_queue_get.
  rewrite (bool_decide_eq_false_2 (dq_out hd = Null)) by (by rewrite (tr_out _ _ _ _ _ _ _ _ Htr)).
  rewrite (two_out_empty _ _ _ _ _ _ _ _ Htr). cbn [mbind outcome_bind].
  destruct (decide (xo = [])) as [->|Hxo].
  - rewrite bool_decide_eq_true_2 by done. unfold sem_timedwait. rewrite Hsem.
    assert (vo = []) as -> by (by apply (ring_values _ _ _ _ (tr_ring2 _ _ _ _ _ _ _ _ Htr))).
    destruct (decide (xi = [])) as [->|Hxi].
    + assert (vi = []) as -> by (by apply (ring_values _ _ _ _ (tr_ring1 _ _ _ _ _ _ _ _ Htr))).
      simpl. by exists hd.
    + unfold posted. rewrite bool_decide_eq_false_2 by done. change (0 <? 1) with true. cbn iota beta.
      pose proof (two_sem _ _ _ _ _ _ _ _ (1 - 1) (two_swap _ _ _ _ _ _ _ _ Htr)) as Htr'.
      destruct (two_nonempty _ _ _ _ _ _ _ _ Htr' Hxi) as (ys & l & ws & w & -> & ->).
      eapply returns_mono; [eapply (get_finish h (swap_rings (DHead (dq_in hd) (dq_out hd) (1 - 1)))); [exact Htr'|done]|].
      intros r (hd' & H1 & H2 & H3). exists hd'. split; [done|]. rewrite rev_unit. simpl.
      by rewrite app_nil_r in H3.
  - rewrite bool_decide_eq_false_2 by done.
    destruct (two_nonempty _ _ _ _ _ _ _ _ Htr Hxo) as (ys & l & ws & w & -> & ->).
    eapply returns_mono; [by eapply get_finish|]. intros r (hd' & H1 & H2 & H3).
    exists hd'. split; [done|]. rewrite rev_unit. done.
Qed.

(** C26: one producer and one consumer, interleaved in any order: the data put
    are, in order, the data got followed by the pending ones.  The semaphore
    stays at 0 or 1 and a consumer that waits while data are pending is let
    through; once it has swapped, the end of its ring is the oldest pending
    datum, never the dummy; and a [put] never fails for fresh memory. *)
Theorem double_queue_fifo h hd s :
  dq_rep h hd [] → rtc dq_step (Dq h hd CIdle [] []) s →
  ∃ pending, put_log s = got_log s ++ pending ∧ 0 ≤ no_empty (dq_head s) ≤ 1 ∧
    (cons s = CWait → pending ≠ [] → (sem_timedwait (dq_head s)).1 = true) ∧
    (cons s = CTake → returns (take_last (dq_heap s) (dq_head s)) (λ r, r.1 ≠ Null ∧
       returns (consume r.2 r.1) (λ r', hd_error pending = Some r'.1))) ∧
    (∀ x v, dq_heap s !! x = None → v ≠ 0 →
       returns (double_queue_put (dq_heap s) (Some (dq_head s)) v (Addr x)) (λ r, r.1 = 0)).
Proof.
  intros (d1 & xi & vi & d2 & xo & vo & Htr & Hsem & Hq) Hst.
  assert (dq_inv s) as (e1 & yi & wi & e2 & yo & wo & Htr' & Hlog & Hc).
  { assert (dq_inv (Dq h hd CIdle [] [])) as H0.
    { exists d1, xi, vi, d2, xo, vo. by split_and!. }
    clear -H0 Hst. induction Hst as [|s1 s2 s3 H12 _ IH]; [done|]. by apply IH, (dq_inv_step s1). }
  exists (rev wo ++ rev wi). split; [done|]. split_and!.
  - unfold posted in Hc. destruct (cons s); try case_bool_decide; lia.
  - unfold posted in Hc. destruct (cons s); try case_bool_decide; lia.
  - intros E Hne. rewrite E in Hc. destruct Hc as [-> Hsem']. unfold sem_timedwait.
    assert (wo = []) as -> by (by apply (ring_values _ _ _ _ (tr_ring2 _ _ _ _ _ _ _ _ Htr'))).
    rewrite Hsem'. unfold posted. case_bool_decide as Hyi; [|done].
    apply (ring_values _ _ _ _ (tr_ring1 _ _ _ _ _ _ _ _ Htr')) in Hyi. by subst wi.
  - intros E. rewrite E in Hc. destruct Hc as [Hne _].
    pose proof (ring_length _ _ _ _ (tr_ring2 _ _ _ _ _ _ _ _ Htr')) as Hlen.
    destruct yo as [|l ys _] using rev_ind; [done|].
    destruct wo as [|w ws _] using rev_ind; [rewrite length_app in Hlen; simpl in Hlen; lia|].
    eapply returns_mono; [by eapply two_take|]. intros r [Hr1 Hr]. rewrite Hr1. split; [done|].
    eapply returns_mono; [exact Hr|]. intros r' (Hv & _). rewrite Hv, rev_unit. reflexivity.
  - intros x v Hx Hv. eapply returns_mono; [by eapply two_put|]. intros [ret [h' hd']]. by intros [-> _].
Qed.

Definition demo_dummies : dheap :=
  {[1%positive := DNode (Addr 1) (Addr 1) 0; 2%positive := DNode (Addr 2) (Addr 2) 0]}.

Lemma demo_dq_rep : dq_rep demo_dummies (DHead (Addr 1) (Addr 2) 0) [].
Proof.
  exists 1%positive, [], [], 2%positive, [], []. split_and!; [|done|done].
  constructor; [done|done| | |].
  - split_and!; [apply NoDup_singleton|done|done].
  - split_and!; [apply NoDup_singleton|done|done].
  - intros l ->%list_elem_of_singleton Hl%list_elem_of_singleton. done.
Qed.

(** Two puts around the consumer's wait. *)
Lemma double_queue_fifo_witness :
  ∃ s, rtc dq_step (Dq demo_dummies (DHead (Addr 1) (Addr 2) 0) CIdle [] []) s ∧
    put_log s = [8; 9] ∧ got_log s = [] ∧
    returns (take_last (dq_heap s) (dq_head s)) (λ r, returns (consume r.2 r.1) (λ r', r'.1 = 8)).
Proof.
  assert (∃ s, rtc dq_step (Dq demo_dummies (DHead (Addr 1) (Addr 2) 0) CIdle [] []) s ∧
    cons s = CTake ∧ put_log s = [8; 9] ∧ got_log s = []) as (s & Hs & Hc & Hp & Hg).
  { eexists. split.
    - eapply rtc_l; [apply c_look; reflexivity|]. cbn.
      eapply rtc_l; [eapply (p_put demo_dummies _ _ _ _ _ _ 3%positive 8); reflexivity|].
      eapply rtc_l; [apply c_wait; reflexivity|].
      eapply rtc_l; [eapply (p_put _ _ _ _ _ _ _ 4%positive 9); reflexivity|].
      eapply rtc_l; [apply c_swap|]. apply rtc_refl.
    - split_and!; reflexivity. }
  exists s. split_and!; [exact Hs|exact Hp|exact Hg|].
  destruct (double_queue_fifo demo_dummies (DHead (Addr 1) (Addr 2) 0) s demo_dq_rep Hs) as (pending & Hlog & _ & _ & Ht & _).
  eapply returns_mono; [exact (Ht Hc)|]. intros r [_ Hr]. eapply returns_mono; [exact Hr|].
  intros r' Hpe. rewrite Hp, Hg in Hlog. cbn [app] in Hlog. rewrite <-Hlog in Hpe. simpl in Hpe.
  by injection Hpe.
Defined.

(** Run by one thread the queue is a FIFO: [double_queue_init] with memory
    for its blocks makes an empty one; [double_queue_put] of a non-null datum
    appends it, given memory, and refuses otherwise; [double_queue_get] removes
    and returns the oldest datum, or NULL after its timeout when there is none. *)
Lemma double_queue_sequential h hd q :
  (∀ m0 d1 d2, d1 ≠ d2 → m0 ≠ Null →
     ∃ hd h', double_queue_init h m0 (Addr d1) (Addr d2) 0 = (Some hd, h') ∧ dq_rep h' hd []) ∧
  (dq_rep h hd q →
    (∀ x v, h !! x = None → v ≠ 0 →
       returns (double_queue_put h (Some hd) v (Addr x)) (λ r,
         r.1 = 0 ∧ ∃ hd', r.2.2 = Some hd' ∧ dq_rep r.2.1 hd' (q ++ [v]))) ∧
    (∀ m, double_queue_put h (Some hd) 0 m = Ret (-1, (h, Some hd))) ∧
    (∀ v, double_queue_put h (Some hd) v Null = Ret (-1, (h, Some hd))) ∧
    returns (double_queue_get h (Some hd)) (λ r, ∃ hd', r.2.2 = Some hd' ∧
      match q with
      | [] => r.1 = 0 ∧ r.2.1 = h ∧ hd' = hd
      | v :: q => r.1 = v ∧ dq_rep r.2.1 hd' q
      end)).
Proof.
  split.
  - intros m0 d1 d2 Hne Hm. unfold double_queue_init. rewrite !bool_decide_eq_false_2 by done.
    eexists _, _. split; [done|]. exists d1, [], [], d2, [], []. split_and!; [|done|done].
    unfold __new_double_queue_node_dummy. constructor; [done|done| | |].
    + split_and!; [apply NoDup_singleton| |done]. unfold chain, nx, pv.
      by rewrite lookup_insert_ne, lookup_insert_eq by done.
    + split_and!; [apply NoDup_singleton| |done]. unfold chain, nx, pv. by rewrite lookup_insert_eq.
    + intros l ->%list_elem_of_singleton Hl%list_elem_of_singleton. done.
  - intros (d1 & xi & vi & d2 & xo & vo & Htr & Hsem & ->). split_and!.
    + intros x v Hx Hv. eapply returns_mono; [by eapply two_put|].
      intros [ret [h' hd']] (-> & hd2 & -> & Htr' & Hs' & _). simpl. split; [done|].
      exists hd2. split; [done|]. exists d1, (x :: xi), (v :: vi), d2, xo, vo. split_and!; [done| |].
      * rewrite Hs', Hsem. unfold posted. case_bool_decide; done.
      * simpl. by rewrite app_assoc.
    + done.
    + intros v. unfold double_queue_put. destruct (Z.eqb_spec v 0); [done|]. by rewrite bool_decide_eq_true_2.
    + apply get_sequential. by exists d1, xi, vi, d2, xo, vo.
Qed.

Lemma double_queue_sequential_witness :
  returns (double_queue_put demo_dummies (Some (DHead (Addr 1) (Addr 2) 0)) 8 (Addr 3)) (λ r,
    r.1 = 0 ∧ ∃ hd', r.2.2 = Some hd' ∧ dq_rep r.2.1 hd' ([] ++ [8])).
Proof.
  refine (proj1 (proj2 (double_queue_sequential demo_dummies (DHead (Addr 1) (Addr 2) 0) []) demo_dq_rep)
            3%positive 8 _ _); [reflexivity|discriminate].
Defined.

(** [double_queue_free] hands every pending datum to the handler once, those
    of the producer's ring first, releases all nodes and both dummies exactly
    once and touches no other memory. *)
Lemma double_queue_free_correct h hd d1 xi vi d2 xo vo :
  two_rings h hd d1 xi vi d2 xo vo →
  returns (double_queue_free h hd) (λ r, r.2 = vi ++ vo ∧
    ∀ l, r.1 !! l = if decide (l ∈ (d1 :: xi) ++ d2 :: xo) then None else h !! l).
Proof.
  intros [Hi Ho H1 H2 Hd]. unfold double_queue_free. rewrite Hi, Ho.
  run (free_ring_spec h d1 xi vi [] H1). intros [h1 hn] [Hn Hh1]. cbn [fst snd] in *. subst hn.
  eapply returns_mono; [apply (free_ring_spec h1 d2 xo vo)|].
  - apply (ring_frame h); [|done]. intros l Hl. rewrite Hh1, decide_False; [done|].
    intros Hl1. by apply (Hd l).
  - intros [h2 hn2] [-> Hh2]. cbn [fst snd] in *. split; [done|]. intros l. rewrite Hh2, Hh1.
    repeat case_decide; try done; set_solver.
Qed.

Lemma double_queue_free_correct_witness :
  returns (double_queue_free demo_dummies (DHead (Addr 1) (Addr 2) 0)) (λ r, r.2 = [] ++ [] ∧
    ∀ l, r.1 !! l = if decide (l ∈ [1%positive] ++ [2%positive]) then None else demo_dummies !! l).
Proof.
  apply (double_queue_free_correct demo_dummies (DHead (Addr 1) (Addr 2) 0) 1 [] [] 2 [] []).
  constructor; [reflexivity|reflexivity| | |].
  - split; [apply NoDup_singleton|]. split; [split; reflexivity|reflexivity].
  - split; [apply NoDup_singleton|]. split; [split; reflexivity|reflexivity].
  - intros l ->%list_elem_of_singleton Hl%list_elem_of_singleton. discriminate.
Defined.
