(* ===== verification/Sorting.v ===== *)
(** * The sorts of [sort_algorithms/] and their dispatcher [sort.h]

    Arrays are lists of [int] values; positions are those of the C code, with
    [hindex] and [eindex] the first and last position of the range to sort.
    Arrays are shorter than 2^30, so that no index expression overflows. *)

From S2P Require Import Prelude.

(** ** Definitions *)

(** [SWAP(&array\[i\], &array\[j\])]. *)
Definition SWAP (array : list Z) (i j : Z) : outcome (list Z) :=
  let! tmp := aget array i in
  let! b := aget array j in
  let! array := aset array i b in
  aset array j tmp.

(** The body shared by the insertion sorts: [array\[i\]] moves down, in steps of
    [gap] and not below [lo], past the elements of greater [key]. *)
Definition insert_at (key : Z → Z) (gap lo : Z) (array : list Z) (i : Z) : outcome (list Z) :=
  let! tmp := aget array i in
  loop (S (length array)) (λ st : Z * list Z,
    let '(j, array) := st in
    let! more := (if lo <=? j then let! x := aget array j in Ret (key tmp <? key x) else Ret false) in
    if more : bool then
      let! x := aget array j in
      let! array := aset array (j + gap) x in
      Ret (inl (j - gap, array))
    else
      let! array := aset array (j + gap) tmp in Ret (inr array)) (i - gap, array).

Definition insert_sort (array2sort : list Z) (hindex eindex array_size : Z) : outcome (list Z) :=
  for_range (hindex + 1) (eindex + 1) (λ i array2sort, insert_at id 1 hindex array2sort i) array2sort.

Definition shell_sort (array2sort : list Z) (hindex eindex array_size : Z) : outcome (list Z) :=
  loop (S (Z.to_nat array_size)) (λ st : Z * list Z,
    let '(gap, array2sort) := st in
    if 0 <? gap then
      let! array2sort := for_range gap array_size (λ i a, insert_at id gap 0 a i) array2sort in
      Ret (inl (Z.quot gap 2, array2sort))
    else Ret (inr array2sort)) (Z.quot array_size 2, array2sort).

(** [GET_POS_NB(srcnb, d, 10)]. *)
Definition GET_POS_NB (d : nat) (srcnb : Z) : Z := Z.rem (Nat.iter d (λ nb, Z.quot nb 10) srcnb) 10.
Definition DEPTH : Z := 3.

Definition radix_sort (array : list Z) (hindex eindex array_size : Z) : outcome (list Z) :=
  for_range 0 DEPTH (λ d array,
    for_range (hindex + 1) (eindex + 1) (λ i array,
      insert_at (GET_POS_NB (Z.to_nat d)) 1 hindex array i) array) array.

Definition bubble_sort (array : list Z) (hindex eindex array_size : Z) : outcome (list Z) :=
  for_rev eindex hindex (λ j array,
    for_range hindex j (λ i array,
      let! x := aget array i in
      let! y := aget array (i + 1) in
      if y <? x then SWAP array i (i + 1) else Ret array) array) array.

Definition select_sort (array : list Z) (hindex eindex array_size : Z) : outcome (list Z) :=
  for_range hindex (eindex + 1) (λ j array,
    let! min := for_range j (eindex + 1) (λ i min,
      let! x := aget array i in
      let! y := aget array min in
      Ret (if x <? y then i else min)) j in
    if bool_decide (min ≠ j) then SWAP array min j else Ret array) array.

Definition partition (array : list Z) (hindex eindex : Z) : outcome (Z * list Z) :=
  let! st := for_range hindex eindex (λ i (st : Z * list Z),
    let '(mid, array) := st in
    let! x := aget array i in
    let! y := aget array eindex in
    if x <? y then
      let! array := SWAP array i mid in Ret (mid + 1, array)
    else Ret (mid, array)) (hindex, array) in
  let '(mid, array) := st in
  let! array := SWAP array eindex mid in
  Ret (mid, array).

Fixpoint quick_sort_rec (fuel : nat) (array : list Z) (hindex eindex : Z) : outcome (list Z) :=
  match fuel with
  | O => Loop
  | S fuel =>
      if hindex <? eindex then
        let! r := partition array hindex eindex in
        let '(mid, array) := r in
        let! array := quick_sort_rec fuel array hindex (mid - 1) in
        quick_sort_rec fuel array (mid + 1) eindex
      else Ret array
  end.

Definition quick_sort (array : list Z) (hindex eindex array_size : Z) : outcome (list Z) :=
  quick_sort_rec (S (length array)) array hindex eindex.

(** The loops of [merge_array] on the adjacent runs at [h] and [t] of [a]. *)
Definition merge_both (a : list Z) (h t harray_size tarray_size : Z) (st : Z * Z * Z * list Z)
    : outcome (Z * Z * Z * list Z + Z * Z * Z * list Z) :=
  let '(i, j, k, array) := st in
  if (i <? harray_size) && (j <? tarray_size) then
    let! x := aget a (h + i) in
    let! y := aget a (t + j) in
    if x <? y then let! array := aset array k x in Ret (inl (i + 1, j, k + 1, array))
    else let! array := aset array k y in Ret (inl (i, j + 1, k + 1, array))
  else Ret (inr (i, j, k, array)).

Definition merge_left (a : list Z) (h harray_size : Z) (st : Z * Z * list Z)
    : outcome (Z * Z * list Z + Z * list Z) :=
  let '(i, k, array) := st in
  if i <? harray_size then
    let! x := aget a (h + i) in
    let! array := aset array k x in Ret (inl (i + 1, k + 1, array))
  else Ret (inr (k, array)).

Definition merge_right (a : list Z) (t tarray_size : Z) (st : Z * Z * list Z)
    : outcome (Z * Z * list Z + list Z) :=
  let '(j, k, array) := st in
  if j <? tarray_size then
    let! y := aget a (t + j) in
    let! array := aset array k y in Ret (inl (j + 1, k + 1, array))
  else Ret (inr array).

Definition merge_array (a : list Z) (h t harray_size tarray_size : Z) : outcome (list Z) :=
  let fuel := S (Z.to_nat (harray_size + tarray_size)) in
  let array := replicate (Z.to_nat (harray_size + tarray_size)) 0 in
  let! st := loop fuel (merge_both a h t harray_size tarray_size) (0, 0, 0, array) in
  let '(i, j, k, array) := st in
  let! st := loop fuel (merge_left a h harray_size) (i, k, array) in
  let '(k, array) := st in
  let! array := loop fuel (merge_right a t tarray_size) (j, k, array) in
  for_range 0 (harray_size + tarray_size) (λ i a,
    let! x := aget array i in aset a (h + i) x) a.

(** [__merge_sort(array + at, array_size)]. *)
Fixpoint __merge_sort (fuel : nat) (array : list Z) (at_ array_size : Z) : outcome (list Z) :=
  match fuel with
  | O => Loop
  | S fuel =>
      if 1 <? array_size then
        let harray_size := Z.quot array_size 2 in
        let tarray_size := array_size - harray_size in
        let! array := __merge_sort fuel array at_ harray_size in
        let! array := __merge_sort fuel array (at_ + harray_size) tarray_size in
        merge_array array at_ (at_ + harray_size) harray_size tarray_size
      else Ret array
  end.

Definition merge_sort (array : list Z) (hindex eindex array_size : Z) : outcome (list Z) :=
  __merge_sort (S (Z.to_nat array_size)) array 0 array_size.

Definition LEFT (x : Z) : Z := Z.shiftl x 1 + 1.
Definition RIGHT (x : Z) : Z := Z.shiftl x 1 + 2.

(** The greater of [current] and a child, when the child is in the heap. *)
Definition pick_child (array : list Z) (child array_size current : Z) : outcome Z :=
  if child <? array_size then
    let! x := aget array child in
    let! y := aget array current in
    Ret (if y <? x then child else current)
  else Ret current.

Definition up_heap (array : list Z) (index array_size : Z) : outcome (list Z) :=
  let leaf_index := Z.quot array_size 2 in
  loop (S (length array)) (λ st : Z * Z * list Z,
    let '(current, index, array) := st in
    if current <? leaf_index then
      let! current := pick_child array (LEFT index) array_size current in
      let! current := pick_child array (RIGHT index) array_size current in
      if bool_decide (current ≠ index) then
        let! array := SWAP array current index in
        Ret (inl (current, current, array))
      else Ret (inr array)
    else Ret (inr array)) (index, index, array).

Definition max_heap (array : list Z) (hindex eindex array_size : Z) : outcome (list Z) :=
  for_rev (Z.quot array_size 2 - 1) hindex (λ i array, up_heap array i array_size) array.

Definition heap_sort (array : list Z) (hindex eindex array_size : Z) : outcome (list Z) :=
  let! array := max_heap array hindex eindex array_size in
  loop (S (length array)) (λ st : Z * Z * list Z,
    let '(tail_index, array_size, array) := st in
    if (0 <? array_size) && (hindex <? tail_index) then
      let! array := SWAP array tail_index hindex in
      let array_size := array_size - 1 in
      let! array := up_heap array hindex array_size in
      Ret (inl (tail_index - 1, array_size, array))
    else Ret (inr array)) (eindex, array_size, array).

(** [sort.h]: the kinds, and the node that carries the function. *)
Inductive sort_type : Type :=
  BITMAP | BUBBLE | BUCKET | COUNT | INSERT | MERGE | HEAP | QUICK | RADIX | SELECT | SHELL.

Definition sort_cb : Type := list Z → Z → Z → Z → outcome (list Z).

Record sort_node : Type := SortNode {
  array2sort : list Z;
  type : sort_type;
  hindex : Z;
  eindex : Z;
  array_len : Z;
  cb : sort_cb
}.

(** [ok]: the node could be allocated. *)
Definition sort_node_init (array : list Z) (hindex eindex array_len : Z) (type : sort_type) (ok : bool)
    : option sort_node :=
  if ok then
    Some match type with
         | INSERT => SortNode array type hindex eindex array_len insert_sort
         | BUBBLE => SortNode array type hindex eindex array_len bubble_sort
         | QUICK => SortNode array type hindex eindex array_len quick_sort
         | HEAP => SortNode array type hindex eindex array_len heap_sort
         | SELECT => SortNode array type hindex eindex array_len select_sort
         | SHELL => SortNode array type hindex eindex array_len shell_sort
         | MERGE => SortNode array type hindex eindex array_len merge_sort
         | RADIX => SortNode array type hindex eindex array_len radix_sort
         | _ => SortNode array INSERT hindex eindex array_len insert_sort
         end
  else None.

Definition sort_node_run (snode : option sort_node) : outcome (option sort_node) :=
  match snode with
  | None => Ret None
  | Some s =>
      let! a := cb s (array2sort s) (hindex s) (eindex s) (array_len s) in
      Ret (Some (SortNode a (type s) (hindex s) (eindex s) (array_len s) (cb s)))
  end.

(** ** Array lemmas *)
Definition get (a : list Z) (i : Z) : Z := a !!! Z.to_nat i.
Definition len (a : list Z) : Z := Z.of_nat (length a).

(** [a'] is [a] rearranged within the positions from [lo] to [hi]. *)
Definition rearranged (lo hi : Z) (a a' : list Z) : Prop :=
  a' ≡ₚ a ∧ ∀ k, 0 ≤ k → k < lo ∨ hi < k → get a' k = get a k.

Definition sorted_range (R : Z → Z → Prop) (lo hi : Z) (a : list Z) : Prop :=
  ∀ i j, lo ≤ i → i < j → j ≤ hi → R (get a i) (get a j).

Section arrays.
Implicit Types (a : list Z) (i j k lo hi : Z).

Lemma aget_get a i : 0 ≤ i < len a → aget a i = Ret (get a i).
Proof. intros. by apply aget_total. Qed.

Lemma get_insert a i j x : 0 ≤ i < len a → 0 ≤ j → get (<[Z.to_nat i := x]> a) j = if decide (j = i) then x else get a j.
Proof.
  intros Hi Hj. unfold get, len in *. case_decide as E.
  - subst. apply list_lookup_total_insert_eq. lia.
  - apply list_lookup_total_insert_ne. lia.
Qed.

Lemma len_insert a (i : nat) x : len (<[i := x]> a) = len a.
Proof. unfold len. by rewrite length_insert. Qed.

Lemma rearranged_len lo hi a a' : rearranged lo hi a a' → len a' = len a.
Proof. intros [Hp _]. unfold len. by rewrite Hp. Qed.

Lemma rearranged_refl lo hi a : rearranged lo hi a a.
Proof. done. Qed.

Lemma rearranged_trans lo hi a a1 a2 : rearranged lo hi a a1 → rearranged lo hi a1 a2 → rearranged lo hi a a2.
Proof. intros [P1 O1] [P2 O2]. split; [by rewrite P2|]. intros k Hk Ho. by rewrite O2, O1. Qed.

Lemma rearranged_weaken lo hi lo' hi' a a' :
  lo' ≤ lo → hi ≤ hi' → rearranged lo hi a a' → rearranged lo' hi' a a'.
Proof. intros Hlo Hhi [P O]. split; [done|]. intros k Hk Ho. apply O; lia. Qed.

Lemma get_lookup a k : 0 ≤ k < len a → a !! Z.to_nat k = Some (get a k).
Proof. intros Hk. unfold get, len in *. apply list_lookup_lookup_total_lt. lia. Qed.

(** What holds of all elements of the range still does. *)
Lemma rearranged_forall lo hi a a' (P : Z → Prop) :
  rearranged lo hi a a' → 0 ≤ lo → hi < len a →
  (∀ k, lo ≤ k ≤ hi → P (get a k)) → ∀ k, lo ≤ k ≤ hi → P (get a' k).
Proof.
  intros Hr Hlo Hhi HP k Hk. pose proof (rearranged_len _ _ _ _ Hr) as Hl. destruct Hr as [Hp Ho].
  unfold len in *.
  set (n := Z.to_nat lo). set (m := Z.to_nat (hi + 1)).
  assert (take n a' = take n a) as E1.
  { apply list_eq. intros i. destruct (decide (i < n)%nat).
    - rewrite !lookup_take_lt by done. rewrite <-(Nat2Z.id i), !get_lookup by (unfold len; lia).
      f_equal. apply Ho; lia.
    - by rewrite !lookup_take_ge by lia. }
  assert (drop m a' = drop m a) as E2.
  { apply list_eq. intros i. rewrite !lookup_drop. destruct (decide (m + i < length a)%nat).
    - rewrite <-(Nat2Z.id (m + i)), !get_lookup by (unfold len; lia). f_equal. apply Ho; lia.
    - by rewrite !lookup_ge_None_2 by lia. }
  set (M := drop n (take m a)). set (M' := drop n (take m a')).
  assert (∀ b : list Z, take n b ++ drop n (take m b) ++ drop m b = b) as Hsplit.
  { intros b. rewrite <-(take_drop m b) at 4. rewrite app_assoc. f_equal.
    rewrite <-(take_drop n (take m b)) at 2. f_equal. rewrite take_take. f_equal. lia. }
  assert (M' ≡ₚ M) as HM.
  { rewrite <-(Hsplit a), <-(Hsplit a'), E1, E2 in Hp.
    apply Permutation_app_inv_l, Permutation_app_inv_r in Hp. done. }
  assert (get a' k ∈ M') as Hin.
  { apply list_elem_of_lookup. exists (Z.to_nat k - n)%nat. unfold M'.
    rewrite lookup_drop, lookup_take_lt by lia.
    replace (n + (Z.to_nat k - n))%nat with (Z.to_nat k) by lia. apply get_lookup. unfold len. lia. }
  rewrite HM in Hin. apply list_elem_of_lookup in Hin as [i Hi]. unfold M in Hi.
  rewrite lookup_drop in Hi. pose proof (lookup_lt_Some _ _ _ Hi) as Hlt.
  rewrite length_take in Hlt. rewrite lookup_take_lt in Hi by lia.
  rewrite <-(Nat2Z.id (n + i)), get_lookup in Hi by (unfold len; lia).
  injection Hi as <-. apply HP. lia.
Qed.

Lemma SWAP_spec a i j :
  0 ≤ i < len a → 0 ≤ j < len a →
  returns (SWAP a i j) (λ a', a' ≡ₚ a ∧ len a' = len a ∧
    ∀ k, 0 ≤ k → get a' k = if decide (k = j) then get a i else if decide (k = i) then get a j else get a k).
Proof.
  intros Hi Hj. unfold SWAP. rewrite !aget_get by done. cbn [mbind outcome_bind].
  rewrite aset_ok by (unfold len in *; lia). cbn [mbind outcome_bind].
  rewrite aset_ok by (rewrite length_insert; unfold len in *; lia). cbn [returns]. split_and!.
  - apply Permutation_insert_swap; by apply get_lookup.
  - by rewrite !len_insert.
  - intros k Hk. rewrite get_insert by (rewrite ?len_insert; lia). case_decide; [done|].
    by rewrite get_insert by lia.
Qed.

(** A swap inside the range. *)
Lemma SWAP_rearranged lo hi a i j :
  0 ≤ lo → hi < len a → lo ≤ i ≤ hi → lo ≤ j ≤ hi →
  returns (SWAP a i j) (λ a', rearranged lo hi a a' ∧ len a' = len a ∧
    ∀ k, 0 ≤ k → get a' k = if decide (k = j) then get a i else if decide (k = i) then get a j else get a k).
Proof.
  intros Hlo Hhi Hi Hj. eapply returns_mono; [apply SWAP_spec; lia|].
  intros a' (Hp & Hl & Hg). split; [|done]. split; [done|]. intros k Hk Ho.
  rewrite Hg by done. repeat case_decide; try done; lia.
Qed.
End arrays.

(** Case analysis on the positions compared by [get] after a write or a swap. *)
Ltac positions := repeat case_decide; subst; try lia; try done.

(** ** Insertion passes *)

(** The order by [key], ties broken by [P]. *)
Definition lex (key : Z → Z) (P : Z → Z → Prop) (x y : Z) : Prop :=
  key x < key y ∨ key x = key y ∧ P x y.

(** What [insert_at] with gap 1 does to the array. *)
Definition inserted (key : Z → Z) (lo i m : Z) (a a' : list Z) : Prop :=
  (∀ k, 0 ≤ k < m → get a' k = get a k) ∧ get a' m = get a i ∧
  (∀ k, m < k ≤ i → get a' k = get a (k - 1) ∧ key (get a i) < key (get a (k - 1))) ∧
  (lo < m → key (get a (m - 1)) ≤ key (get a i)).

Section insertion.
Implicit Types (a arr : list Z) (i j k lo hi gap : Z).

(** The hole of the inner loop moves from [h] to [j]. *)
Lemma hole_move arr h j x :
  0 ≤ h < len arr → 0 ≤ j < len arr → h ≠ j →
  <[Z.to_nat j := x]> (<[Z.to_nat h := get arr j]> arr) ≡ₚ <[Z.to_nat h := x]> arr.
Proof.
  intros Hh Hj Hne. unfold len in *.
  pose proof (Permutation_insert_swap (<[Z.to_nat h := x]> arr) (Z.to_nat h) (Z.to_nat j) x (get arr j)) as Hp.
  rewrite list_insert_insert_eq in Hp. apply Hp.
  - apply list_lookup_insert_eq. lia.
  - rewrite list_lookup_insert_ne by lia. by apply get_lookup.
Qed.

Lemma insert_at_spec key gap lo a i :
  0 ≤ lo → lo ≤ i < len a → 0 < gap →
  returns (insert_at key gap lo a i) (λ a', rearranged lo i a a' ∧ len a' = len a ∧
    (gap = 1 → ∃ m, lo ≤ m ≤ i ∧ inserted key lo i m a a')).
Proof.
  intros Hlo Hi Hgap. unfold insert_at. rewrite aget_get by lia. cbn [mbind outcome_bind].
  apply (loop_returns (λ st : Z * list Z, let '(j, arr) := st in
    len arr = len a ∧ lo ≤ j + gap ≤ i ∧ <[Z.to_nat (j + gap) := get a i]> arr ≡ₚ a ∧
    (∀ k, 0 ≤ k → k < lo ∨ i < k → get arr k = get a k) ∧
    (gap = 1 → (∀ k, 0 ≤ k ≤ j + 1 → get arr k = get a k) ∧
      ∀ k, j + 1 < k ≤ i → get arr k = get a (k - 1) ∧ key (get a i) < key (get a (k - 1))))
    (λ st : Z * list Z, Z.to_nat (fst st + gap))).
  - intros [j arr] (Hl & Hj & Hp & Ho & Hg). cbn [fst].
    assert (∀ b, (lo ≤ j → b = (key (get a i) <? key (get arr j))) → (j < lo → b = false) →
      (if lo <=? j then let! x := aget arr j in Ret (key (get a i) <? key x) else Ret false) = Ret b) as Hif.
    { intros b H1 H2. destruct (Z.leb_spec lo j); [|by rewrite H2 by lia].
      rewrite aget_get by lia. cbn. by rewrite H1. }
    destruct (decide (lo ≤ j ∧ key (get a i) < key (get arr j))) as [[Hlj Hkey]|Hno].
    + rewrite (Hif true) by first [lia | intros; symmetry; by apply Z.ltb_lt]. cbn [mbind outcome_bind].
      rewrite aget_get by lia. cbn [mbind outcome_bind]. rewrite aset_ok by (unfold len in *; lia).
      cbn [mbind outcome_bind returns fst]. replace (j - gap + gap) with j by lia.
      split; [|lia]. rewrite len_insert. split; [done|]. split; [lia|]. split.
      { etrans; [apply hole_move; lia|exact Hp]. }
      split.
      { intros k Hk Hout. rewrite get_insert by lia. positions; by apply Ho. }
      intros ->. destruct (Hg eq_refl) as [Hg1 Hg2]. split; intros k Hk; rewrite get_insert by lia; positions.
      { apply Hg1. lia. }
      { replace (j + 1 - 1) with j by lia. rewrite <-(Hg1 j) by lia. done. }
      { apply Hg2. lia. }
    + rewrite (Hif false) by first [done | intros; symmetry; apply Z.ltb_ge; lia].
      cbn [mbind outcome_bind]. rewrite aset_ok by (unfold len in *; lia).
      cbn [mbind outcome_bind returns]. rewrite len_insert. split; [split; [done|]|split; [done|]].
      { intros k Hk Hout. rewrite get_insert by lia. positions. by apply Ho. }
      intros ->. destruct (Hg eq_refl) as [Hg1 Hg2]. exists (j + 1). split; [lia|].
      split; [|split; [|split]].
      * intros k Hk. rewrite get_insert by lia. positions. apply Hg1. lia.
      * rewrite get_insert by lia. positions.
      * intros k Hk. rewrite get_insert by lia. positions. apply Hg2. lia.
      * intros Hlt. rewrite <-(Hg1 (j + 1 - 1)) by lia. replace (j + 1 - 1) with j by lia. lia.
  - replace (i - gap + gap) with i by lia. split; [done|]. split; [lia|]. split.
    { rewrite list_insert_id; [done|]. apply get_lookup. lia. }
    split; [done|]. intros ->. split; [done|]. lia.
  - cbn [fst]. unfold len in *. lia.
Qed.

(** Inserting the next element keeps the sorted part sorted; equal keys stay in
    the order of [P]. *)
Lemma inserted_sorted key P lo i m a a' :
  0 ≤ lo → lo ≤ m ≤ i → inserted key lo i m a a' → sorted_range (lex key P) lo (i - 1) a →
  (∀ k, lo ≤ k < i → P (get a k) (get a i)) → sorted_range (lex key P) lo i a'.
Proof.
  intros Hlo Hm (H1 & H2 & H3 & H4) Hs HP p q Hp Hpq Hq.
  assert (∀ k, lo ≤ k < m → lex key P (get a k) (get a i)) as Hbelow.
  { intros k Hk. specialize (H4 ltac:(lia)). specialize (HP k ltac:(lia)).
    assert (key (get a k) ≤ key (get a (m - 1))) as Hle.
    { destruct (decide (k = m - 1)) as [->|]; [done|].
      destruct (Hs k (m - 1)) as [|[-> _]]; lia. }
    unfold lex. destruct (decide (key (get a k) < key (get a i))); [by left|right; split; [lia|done]]. }
  destruct (Z.lt_trichotomy p m) as [Hpm|[->|Hpm]].
  - rewrite (H1 p) by lia. destruct (Z.lt_trichotomy q m) as [Hqm|[->|Hqm]].
    + rewrite H1 by lia. apply Hs; lia.
    + rewrite H2. apply Hbelow. lia.
    + destruct (H3 q) as [-> _]; [lia|]. apply Hs; lia.
  - rewrite H2. destruct (H3 q) as [-> ?]; [lia|]. by left.
  - destruct (H3 p) as [-> _]; [lia|]. destruct (H3 q) as [-> _]; [lia|]. apply Hs; lia.
Qed.

(** A pass of insertions over a range sorted by [P]: sorted by [key], ties kept
    in the order of [P]. *)
Lemma insert_pass key P a lo hi :
  0 ≤ lo → lo ≤ hi + 1 → hi < len a → sorted_range P lo hi a →
  returns (for_range (lo + 1) (hi + 1) (λ i a, insert_at key 1 lo a i) a)
    (λ a', rearranged lo hi a a' ∧ sorted_range (lex key P) lo hi a').
Proof.
  intros Hlo Hle Hhi HP. destruct (decide (hi ≤ lo)).
  { unfold for_range. replace (Z.to_nat (hi + 1 - (lo + 1))) with O by lia. cbn. split; [done|].
    intros i j; lia. }
  eapply returns_mono.
  - apply (for_range_returns (λ i arr, rearranged lo (i - 1) a arr ∧ sorted_range (lex key P) lo (i - 1) arr)).
    + lia.
    + split; [done|]. intros i j; lia.
    + intros i arr Hi [Hr Hs]. pose proof (rearranged_len _ _ _ _ Hr) as Hl.
      eapply returns_mono; [apply (insert_at_spec key 1 lo arr i); lia|].
      intros arr' (Hr' & Hl' & Hg). destruct (Hg eq_refl) as (m & Hm & Hins).
      replace (i + 1 - 1) with i by lia. split.
      { eapply rearranged_trans; [|done]. eapply rearranged_weaken; [| |done]; lia. }
      eapply inserted_sorted; [done|done|done|done|]. intros k Hk. destruct Hr as [Hp Ho].
      rewrite (Ho i) by lia.
      apply (rearranged_forall lo (i - 1) a arr (λ x, P x (get a i))); [done|lia|lia| |lia].
      intros k' Hk'. apply HP; lia.
  - intros a'. cbv beta. by replace (hi + 1 - 1) with hi by lia.
Qed.

Lemma lex_le x y : lex id (λ _ _, True) x y ↔ x ≤ y.
Proof. unfold lex, id. lia. Qed.

Lemma insert_sort_range a lo hi n :
  0 ≤ lo → lo ≤ hi + 1 → hi < len a →
  returns (insert_sort a lo hi n) (λ a', rearranged lo hi a a' ∧ sorted_range Z.le lo hi a').
Proof.
  intros Hlo Hle Hhi. eapply returns_mono; [by apply (insert_pass id (λ _ _, True))|].
  intros a' [Hr Hs]. split; [done|]. intros i j Hi Hij Hj. by apply lex_le, Hs.
Qed.

(** Three passes order by the last three decimal digits. *)
Lemma digits x : 0 ≤ x < 1000 →
  x = 100 * GET_POS_NB 2 x + 10 * GET_POS_NB 1 x + GET_POS_NB 0 x ∧
  0 ≤ GET_POS_NB 2 x < 10 ∧ 0 ≤ GET_POS_NB 1 x < 10 ∧ 0 ≤ GET_POS_NB 0 x < 10.
Proof. intros Hx. unfold GET_POS_NB. cbn [Nat.iter nat_rect]. dlia. Qed.

Lemma radix_sort_range a lo hi n :
  0 ≤ lo → lo ≤ hi + 1 → hi < len a → (∀ k, lo ≤ k ≤ hi → 0 ≤ get a k < 1000) →
  returns (radix_sort a lo hi n) (λ a', rearranged lo hi a a' ∧ sorted_range Z.le lo hi a').
Proof.
  intros Hlo Hle Hhi Hx. unfold radix_sort, DEPTH. rewrite !for_range_S by lia.
  change (0 + 1) with 1. change (1 + 1) with 2. change (2 + 1) with 3.
  run (insert_pass (GET_POS_NB 0) (λ _ _, True)); [done..|]. intros a1 [R1 S1].
  pose proof (rearranged_len _ _ _ _ R1).
  rewrite for_range_S by lia. change (1 + 1) with 2.
  run (insert_pass (GET_POS_NB 1)); [done|done|lia|done|]. intros a2 [R2 S2].
  pose proof (rearranged_len _ _ _ _ R2).
  rewrite for_range_S by lia. change (2 + 1) with 3.
  run (insert_pass (GET_POS_NB 2)); [done|done|lia|done|]. intros a3 [R3 S3].
  cbn. assert (rearranged lo hi a a3) as R by (eapply rearranged_trans; [done|eapply rearranged_trans; done]).
  split; [done|]. intros i j Hi Hij Hj.
  pose proof (rearranged_forall lo hi a a3 (λ x, 0 ≤ x < 1000) R Hlo Hhi Hx) as Hx'.
  pose proof (digits _ (Hx' i ltac:(lia))). pose proof (digits _ (Hx' j ltac:(lia))).
  specialize (S3 i j Hi Hij Hj). unfold lex in S3. lia.
Qed.
End insertion.

(** ** The other sorts *)
Section exchange.
Implicit Types (a arr : list Z) (i j k lo hi gap : Z).

(** The positions from [j] on (within the range) hold no less than the ones before them. *)
Definition above (lo hi j : Z) (a : list Z) : Prop :=
  ∀ p q, lo ≤ p → p < q → q ≤ hi → j ≤ q → get a p ≤ get a q.

Lemma shell_pass a gap :
  0 < gap ≤ len a →
  returns (for_range gap (len a) (λ i a, insert_at id gap 0 a i) a) (λ a',
    rearranged 0 (len a - 1) a a' ∧ (gap = 1 → sorted_range Z.le 0 (len a - 1) a')).
Proof.
  intros Hgap. destruct (decide (gap = 1)) as [->|].
  - pose proof (insert_sort_range a 0 (len a - 1) 0) as H. unfold insert_sort in H.
    replace (len a - 1 + 1) with (len a) in H by lia. change (0 + 1) with 1 in H.
    eapply returns_mono; [apply H; lia|]. naive_solver.
  - eapply returns_mono; [apply (for_range_returns (λ i arr, rearranged 0 (len a - 1) a arr))|]; [lia|done| |].
    + intros i arr Hi Hr. pose proof (rearranged_len _ _ _ _ Hr).
      eapply returns_mono; [apply insert_at_spec; lia|]. intros arr' (Hr' & _ & _).
      eapply rearranged_trans; [done|]. eapply rearranged_weaken; [| |done]; lia.
    + intros a' Hr. split; [done|lia].
Qed.

Lemma shell_sort_all a lo hi :
  returns (shell_sort a lo hi (len a)) (λ a',
    rearranged 0 (len a - 1) a a' ∧ sorted_range Z.le 0 (len a - 1) a').
Proof.
  assert (0 ≤ len a) as H0 by (unfold len; lia). unfold shell_sort.
  apply (loop_returns (λ st : Z * list Z, let '(gap, arr) := st in
    rearranged 0 (len a - 1) a arr ∧ 0 ≤ gap ≤ len a ∧ (gap = 0 → sorted_range Z.le 0 (len a - 1) arr))
    (λ st : Z * list Z, Z.to_nat (fst st))).
  - intros [gap arr] (Hr & Hg & Hs). pose proof (rearranged_len _ _ _ _ Hr) as Hl. cbn [fst].
    destruct (Z.ltb_spec 0 gap); [|cbn; split; [done|apply Hs; lia]].
    rewrite <-Hl. run (shell_pass arr); [lia|]. intros arr' [Hr' Hs']. cbn [returns fst]. rewrite !Hl in *.
    split; [|dlia]. split; [by eapply rearranged_trans|]. split; [dlia|]. intros Hz. apply Hs'. dlia.
  - split; [done|]. split; [dlia|]. intros Hz i j Hi Hij Hj. dlia.
  - cbn [fst]. unfold len in *. dlia.
Qed.

Lemma bubble_sort_range a lo hi n :
  0 ≤ lo → lo ≤ hi + 1 → hi < len a →
  returns (bubble_sort a lo hi n) (λ a', rearranged lo hi a a' ∧ sorted_range Z.le lo hi a').
Proof.
  intros Hlo Hle Hhi. unfold bubble_sort. eapply returns_mono.
  - apply (for_rev_returns (λ j arr, rearranged lo hi a arr ∧ above lo hi (j + 1) arr)).
    + done.
    + split; [done|]. intros p q; lia.
    + intros j arr Hj [Hr Hab]. replace (j - 1 + 1) with j by lia. eapply returns_mono.
      * apply (for_range_returns (λ i arr, rearranged lo hi a arr ∧ above lo hi (j + 1) arr ∧
          ∀ p, lo ≤ p < i → get arr p ≤ get arr i)); [lia| |].
        { split; [done|]. split; [done|]. lia. }
        clear arr Hr Hab. intros i arr Hi (Hr & Hab & Hmax).
        pose proof (rearranged_len _ _ _ _ Hr) as Hl.
        rewrite !aget_get by lia. cbn [mbind outcome_bind].
        destruct (Z.ltb_spec (get arr (i + 1)) (get arr i)) as [Hlt|Hge].
        { eapply returns_mono; [apply (SWAP_rearranged lo hi); lia|]. intros arr' (Hr' & _ & Hg).
          split; [by eapply rearranged_trans|]. split.
          - intros p q Hp Hpq Hq Hjq. rewrite !Hg by lia. positions; apply Hab; lia.
          - intros p Hp. rewrite !Hg by lia. positions. apply Hmax. lia. }
        cbn. split; [done|]. split; [done|]. intros p Hp.
        destruct (decide (p = i)) as [->|]; [done|]. etrans; [apply Hmax; lia|done].
      * intros arr' (Hr' & Hab' & Hmax). split; [done|]. intros p q Hp Hpq Hq Hjq.
        destruct (decide (q = j)) as [->|]; [apply Hmax; lia|apply Hab'; lia].
  - cbv beta. intros a' [Hr Hab]. split; [done|]. intros p q Hp Hpq Hq. apply Hab; lia.
Qed.

Lemma select_sort_range a lo hi n :
  0 ≤ lo → lo ≤ hi + 1 → hi < len a →
  returns (select_sort a lo hi n) (λ a', rearranged lo hi a a' ∧ sorted_range Z.le lo hi a').
Proof.
  intros Hlo Hle Hhi. unfold select_sort. eapply returns_mono.
  - apply (for_range_returns (λ j arr, rearranged lo hi a arr ∧
      ∀ p q, lo ≤ p → p < q → q ≤ hi → p < j → get arr p ≤ get arr q)).
    + done.
    + split; [done|]. lia.
    + intros j arr Hj [Hr Hlow]. pose proof (rearranged_len _ _ _ _ Hr) as Hl.
      apply returns_bind. eapply returns_mono.
      * apply (for_range_returns (λ i min, j ≤ min ≤ hi ∧ ∀ k, j ≤ k < i → get arr min ≤ get arr k));
          [lia|split; lia|].
        intros i min Hi [Hm Hmin]. rewrite !aget_get by lia. cbn [mbind outcome_bind returns].
        destruct (Z.ltb_spec (get arr i) (get arr min)); (split; [lia|]); intros k Hk;
          (destruct (decide (k = i)) as [->|]; [lia|]); specialize (Hmin k); lia.
      * intros min [Hm Hmin]. case_bool_decide as Hne.
        { eapply returns_mono; [apply (SWAP_rearranged lo hi); lia|]. intros arr' (Hr' & _ & Hg).
          split; [by eapply rearranged_trans|]. intros p q Hp Hpq Hq Hpj. rewrite !Hg by lia.
          positions; first [apply Hlow; lia | apply Hmin; lia]. }
        cbn. assert (min = j) as -> by (destruct (decide (min = j)); [done|by destruct Hne]). split; [done|]. intros p q Hp Hpq Hq Hpj.
        destruct (decide (p = j)) as [->|]; [apply Hmin; lia|apply Hlow; lia].
  - intros a' [Hr Hlow]. split; [done|]. intros p q Hp Hpq Hq. apply Hlow; lia.
Qed.

Lemma partition_spec a lo hi :
  0 ≤ lo → lo < hi → hi < len a →
  returns (partition a lo hi) (λ '(mid, a'), rearranged lo hi a a' ∧ lo ≤ mid ≤ hi ∧
    (∀ k, lo ≤ k < mid → get a' k < get a' mid) ∧ (∀ k, mid < k ≤ hi → get a' mid ≤ get a' k)).
Proof.
  intros Hlo Hlt Hhi. unfold partition. apply returns_bind. eapply returns_mono.
  - apply (for_range_returns (λ i (st : Z * list Z), let '(mid, arr) := st in
      rearranged lo hi a arr ∧ lo ≤ mid ≤ i ∧ (∀ k, lo ≤ k < mid → get arr k < get arr hi) ∧
      (∀ k, mid ≤ k < i → get arr hi ≤ get arr k))); [lia| |].
    + split; [done|]. split; [lia|]. split; intros; lia.
    + intros i [mid arr] Hi (Hr & Hm & H1 & H2). pose proof (rearranged_len _ _ _ _ Hr) as Hl.
      rewrite !aget_get by lia. cbn [mbind outcome_bind].
      destruct (Z.ltb_spec (get arr i) (get arr hi)) as [Hlt'|Hge].
      * run (SWAP_rearranged lo hi); [lia..|]. intros arr' (Hr' & _ & Hg). cbn.
        split; [by eapply rearranged_trans|]. split; [lia|].
        split; intros k Hk; rewrite !Hg by lia; positions; first [apply H1; lia | apply H2; lia].
      * cbn. split; [done|]. split; [lia|]. split; [done|]. intros k Hk.
        destruct (decide (k = i)) as [->|]; [done|]. apply H2; lia.
  - intros [mid arr] (Hr & Hm & H1 & H2). pose proof (rearranged_len _ _ _ _ Hr) as Hl.
    run (SWAP_rearranged lo hi); [lia..|]. intros arr' (Hr' & _ & Hg). cbn.
    split; [by eapply rearranged_trans|]. split; [lia|].
    split; intros k Hk; rewrite !Hg by lia; positions; first [apply H1; lia | apply H2; lia].
Qed.

Lemma quick_sort_rec_spec fuel a lo hi :
  0 ≤ lo → hi < len a → hi - lo + 1 < Z.of_nat fuel → (0 < fuel)%nat →
  returns (quick_sort_rec fuel a lo hi) (λ a', rearranged lo hi a a' ∧ sorted_range Z.le lo hi a').
Proof.
  revert a lo hi. induction fuel as [|fuel IH]; intros a lo hi Hlo Hhi Hf Hf0; [lia|]. cbn [quick_sort_rec].
  destruct (Z.ltb_spec lo hi); [|cbn; split; [done|intros i j; lia]].
  run partition_spec; [done..|]. intros [mid a1] (R1 & Hm & Hlow & Hup).
  pose proof (rearranged_len _ _ _ _ R1).
  run IH; [lia..|]. intros a2 [R2 S2]. pose proof (rearranged_len _ _ _ _ R2).
  eapply returns_mono; [apply IH; lia|]. intros a3 [R3 S3]. split.
  { eapply rearranged_trans; [done|]. eapply rearranged_trans; eapply rearranged_weaken; [| |done| | |done]; lia. }
  assert (get a3 mid = get a1 mid) as Emid by (rewrite (proj2 R3), (proj2 R2) by lia; done).
  assert (∀ k, lo ≤ k ≤ mid - 1 → get a3 k < get a3 mid) as Hlow3.
  { intros k Hk. rewrite Emid, (proj2 R3) by lia.
    apply (rearranged_forall lo (mid - 1) a1 a2 (λ x, x < get a1 mid) R2); [lia|lia| |lia].
    intros; apply Hlow; lia. }
  assert (∀ k, mid + 1 ≤ k ≤ hi → get a3 mid ≤ get a3 k) as Hup3.
  { rewrite Emid. apply (rearranged_forall (mid + 1) hi a2 a3 (λ x, get a1 mid ≤ x) R3); [lia|lia|].
    intros k Hk. rewrite (proj2 R2) by lia. apply Hup; lia. }
  intros p q Hp Hpq Hq. destruct (Z.lt_trichotomy p mid) as [Hpm|[->|Hpm]].
  - destruct (Z.lt_trichotomy q mid) as [Hqm|[->|Hqm]].
    + rewrite !(proj2 R3) by lia. apply S2; lia.
    + specialize (Hlow3 p). lia.
    + specialize (Hlow3 p). specialize (Hup3 q). lia.
  - apply Hup3; lia.
  - apply S3; lia.
Qed.

Lemma quick_sort_range a lo hi n :
  0 ≤ lo → lo ≤ hi + 1 → hi < len a →
  returns (quick_sort a lo hi n) (λ a', rearranged lo hi a a' ∧ sorted_range Z.le lo hi a').
Proof. intros. apply quick_sort_rec_spec; unfold len in *; lia. Qed.
End exchange.

(** ** Merging *)
Section merging.
Implicit Types (l out : list Z).

(** [out] is the sorted part of the output; [y1] and [y2] are what is left of the inputs. *)
Definition emitted (l out y1 y2 : list Z) : Prop :=
  out ++ y1 ++ y2 ≡ₚ l ∧ StronglySorted Z.le out ∧ (∀ o y, o ∈ out → y ∈ y1 ++ y2 → o ≤ y).

Lemma emitted_snoc l out y y1 y2 y1' y2' :
  emitted l out y1' y2' → y1' ++ y2' ≡ₚ y :: y1 ++ y2 → (∀ z, z ∈ y1 ++ y2 → y ≤ z) →
  emitted l (out ++ [y]) y1 y2.
Proof.
  intros (Hp & Hs & Hle) Heq Hy. split; [|split].
  - rewrite <-Hp, Heq, <-app_assoc. done.
  - apply StronglySorted_app_2; [|done|by repeat constructor].
    intros o z Ho ->%list_elem_of_singleton. apply Hle; [done|]. rewrite Heq. constructor.
  - intros o z [Ho| ->%list_elem_of_singleton]%elem_of_app Hz; [|by apply Hy].
    apply Hle; [done|]. rewrite Heq. by constructor.
Qed.

Lemma sorted_head_le y l : StronglySorted Z.le (y :: l) → ∀ z, z ∈ y :: l → y ≤ z.
Proof.
  intros [_ Hf]%StronglySorted_inv z [->|Hz]%elem_of_cons; [done|].
  rewrite Forall_forall in Hf. by apply Hf.
Qed.

(** A state of the merge of [l1] and [l2]. *)
Definition merge_inv (l1 l2 : list Z) (i j k : Z) (arr : list Z) : Prop :=
  ∃ x1 y1 x2 y2 out rest, l1 = x1 ++ y1 ∧ l2 = x2 ++ y2 ∧ i = len x1 ∧ j = len x2 ∧
    arr = out ++ rest ∧ k = len out ∧ len rest = len y1 + len y2 ∧ emitted (l1 ++ l2) out y1 y2.

Lemma write_output out rest y :
  0 < len rest → ∃ rest', aset (out ++ rest) (len out) y = Ret ((out ++ [y]) ++ rest') ∧ len rest' = len rest - 1.
Proof.
  intros Hr. destruct rest as [|z rest]; [by cbn in Hr|]. exists rest. split.
  - rewrite <-app_assoc. by apply aset_mid.
  - unfold len. rewrite length_cons. lia.
Qed.

Lemma len_app l1 l2 : len (l1 ++ l2) = len l1 + len l2.
Proof. unfold len. rewrite length_app. lia. Qed.

Lemma len_cons y l : len (y :: l) = 1 + len l.
Proof. unfold len. rewrite length_cons. lia. Qed.

Lemma len_nonneg l : 0 ≤ len l.
Proof. unfold len. lia. Qed.

Context (pre l1 l2 post : list Z) (S1 : StronglySorted Z.le l1) (S2 : StronglySorted Z.le l2).
Let a := pre ++ l1 ++ l2 ++ post.
Let h := len pre.
Let t := h + len l1.

Lemma read_h x1 y y1 : l1 = x1 ++ y :: y1 → aget a (h + len x1) = Ret y.
Proof.
  intros E. unfold a, h. rewrite E, <-!app_assoc, !app_assoc. rewrite <-(app_assoc _ _ post), <-(app_assoc _ _ (l2 ++ post)).
  apply aget_mid. unfold len. rewrite length_app. lia.
Qed.

Lemma read_t x2 y y2 : l2 = x2 ++ y :: y2 → aget a (t + len x2) = Ret y.
Proof.
  intros E. unfold a, t, h. rewrite E, <-!app_assoc, !app_assoc. rewrite <-(app_assoc _ _ post).
  apply aget_mid. unfold len. rewrite !length_app. lia.
Qed.

(** Taking from the first run is right when its head is a least remaining element. *)
Lemma take_h x1 y y1 j k arr x2 y2 out rest :
  l1 = x1 ++ y :: y1 → l2 = x2 ++ y2 → j = len x2 → arr = out ++ rest → k = len out →
  len rest = len (y :: y1) + len y2 → emitted (l1 ++ l2) out (y :: y1) y2 → (∀ z, z ∈ y2 → y ≤ z) →
  returns (aset arr k y) (λ arr', merge_inv l1 l2 (len x1 + 1) j (k + 1) arr').
Proof.
  intros E1 E2 -> -> -> Hr He Hy. rewrite len_cons in Hr. pose proof (len_nonneg y1). pose proof (len_nonneg y2).
  destruct (write_output out rest y) as (rest' & -> & Hr'); [lia|]. cbn [returns].
  exists (x1 ++ [y]), y1, x2, y2, (out ++ [y]), rest'. rewrite <-app_assoc, !len_app.
  repeat (split; [done || (unfold len in *; simpl; lia)|]). eapply emitted_snoc; [done|done|].
  intros z [Hz|Hz]%elem_of_app; [|by apply Hy].
  apply (sorted_head_le y y1); [|by constructor]. rewrite E1 in S1. by apply StronglySorted_app_1_r in S1.
Qed.

Lemma take_t i k arr x1 y1 x2 y y2 out rest :
  l1 = x1 ++ y1 → l2 = x2 ++ y :: y2 → i = len x1 → arr = out ++ rest → k = len out →
  len rest = len y1 + len (y :: y2) → emitted (l1 ++ l2) out y1 (y :: y2) → (∀ z, z ∈ y1 → y ≤ z) →
  returns (aset arr k y) (λ arr', merge_inv l1 l2 i (len x2 + 1) (k + 1) arr').
Proof.
  intros E1 E2 -> -> -> Hr He Hy. rewrite len_cons in Hr. pose proof (len_nonneg y1). pose proof (len_nonneg y2).
  destruct (write_output out rest y) as (rest' & -> & Hr'); [lia|]. cbn [returns].
  exists x1, y1, (x2 ++ [y]), y2, (out ++ [y]), rest'. rewrite <-app_assoc, !len_app.
  repeat (split; [done || (unfold len in *; simpl; lia)|]). eapply emitted_snoc; [done| |].
  - by rewrite <-Permutation_middle.
  - intros z [Hz|Hz]%elem_of_app; [by apply Hy|].
    apply (sorted_head_le y y2); [|by constructor]. rewrite E2 in S2. by apply StronglySorted_app_1_r in S2.
Qed.

(** Which run is exhausted. *)
Lemma run_cases x y i l : l = x ++ y → i = len x → (y = [] ∧ i = len l) ∨ (∃ z y', y = z :: y' ∧ i < len l).
Proof.
  intros -> ->. rewrite len_app. destruct y as [|z y]; [left; cbn; split; [done|unfold len; simpl; lia]|right].
  exists z, y. split; [done|]. rewrite len_cons. pose proof (len_nonneg y). lia.
Qed.

(** The final copy. *)
Lemma copy_back (st mid : list Z) :
  len st = len mid →
  returns (for_range 0 (len st) (λ i a, let! x := aget st i in aset a (h + i) x) (pre ++ mid ++ post))
    (λ r, r = pre ++ st ++ post).
Proof.
  intros Hl. pose proof (len_nonneg st). eapply returns_mono.
  - apply (for_range_returns (λ i r, r = pre ++ take (Z.to_nat i) st ++ drop (Z.to_nat i) mid ++ post)).
    + done.
    + done.
    + intros i r Hi ->. rewrite aget_get by done. cbn [mbind outcome_bind].
      destruct (drop (Z.to_nat i) mid) as [|z rest] eqn:E.
      { apply (f_equal length) in E. rewrite length_drop in E. unfold len in *. simpl in E. lia. }
      cbn [app]. rewrite app_assoc, aset_mid.
      * cbn [returns]. rewrite <-app_assoc. f_equal. replace (Z.to_nat (i + 1)) with (S (Z.to_nat i)) by lia.
        rewrite (take_S_r _ _ (get st i)) by (by apply get_lookup).
        rewrite <-app_assoc. cbn [app]. do 3 f_equal. rewrite <-Nat.add_1_r, <-drop_drop, E. done.
      * unfold h, len in *. rewrite length_app, length_take. lia.
  - intros r ->. unfold len in *. rewrite firstn_all2, skipn_all2 by lia. done.
Qed.

Lemma merge_both_spec fuel i j k arr :
  merge_inv l1 l2 i j k arr → len l1 + len l2 - i - j < Z.of_nat fuel → (0 < fuel)%nat →
  returns (loop fuel (merge_both a h t (len l1) (len l2)) (i, j, k, arr))
    (λ '(i, j, k, arr), merge_inv l1 l2 i j k arr ∧ (i = len l1 ∨ j = len l2)).
Proof.
  intros Hinv Hf Hf0. apply (loop_returns (λ st : Z * Z * Z * list Z, let '(i, j, k, arr) := st in merge_inv l1 l2 i j k arr)
    (λ st : Z * Z * Z * list Z, let '(i, j, k, arr) := st in Z.to_nat (len l1 + len l2 - i - j))); [|done|lia].
  clear i j k arr Hinv Hf. intros [[[i j] k] arr] (x1 & y1 & x2 & y2 & out & rest & E1 & E2 & Ei & Ej & Ea & Ek & Hr & He).
  unfold merge_both. destruct (run_cases _ _ _ _ E1 Ei) as [[-> Hi]|(z1 & y1' & -> & Hi)].
  { rewrite (proj2 (Z.ltb_ge i _)) by lia. cbn. split; [by exists x1, [], x2, y2, out, rest|by left]. }
  destruct (run_cases _ _ _ _ E2 Ej) as [[-> Hj]|(z2 & y2' & -> & Hj)].
  { rewrite (proj2 (Z.ltb_ge j _)), andb_false_r by lia. cbn. split; [by exists x1, (z1 :: y1'), x2, [], out, rest|by right]. }
  rewrite (proj2 (Z.ltb_lt i _)), (proj2 (Z.ltb_lt j _)) by lia. cbn [andb]. subst i j.
  rewrite (read_h x1 z1 y1'), (read_t x2 z2 y2') by done. cbn [mbind outcome_bind].
  assert (StronglySorted Z.le (z1 :: y1')) as T1 by (rewrite E1 in S1; by apply StronglySorted_app_1_r in S1).
  assert (StronglySorted Z.le (z2 :: y2')) as T2 by (rewrite E2 in S2; by apply StronglySorted_app_1_r in S2).
  destruct (Z.ltb_spec z1 z2).
  - run (take_h x1 z1 y1' (len x2) k arr x2 (z2 :: y2') out rest); try done.
    + intros z Hz. pose proof (sorted_head_le _ _ T2 z Hz). lia.
    + intros arr' Hinv'. cbn [returns]. split; [done|]. lia.
  - run (take_t (len x1) k arr x1 (z1 :: y1') x2 z2 y2' out rest); try done.
    + intros z Hz. pose proof (sorted_head_le _ _ T1 z Hz). lia.
    + intros arr' Hinv'. cbn [returns]. split; [done|]. lia.
Qed.

Lemma merge_left_spec fuel i j k arr :
  merge_inv l1 l2 i j k arr → i = len l1 ∨ j = len l2 → len l1 + len l2 - i < Z.of_nat fuel → (0 < fuel)%nat →
  returns (loop fuel (merge_left a h (len l1)) (i, k, arr)) (λ '(k, arr), merge_inv l1 l2 (len l1) j k arr).
Proof.
  intros Hinv Hor Hf Hf0.
  apply (loop_returns (λ st : Z * Z * list Z, let '(i, k, arr) := st in merge_inv l1 l2 i j k arr ∧ (i = len l1 ∨ j = len l2))
    (λ st : Z * Z * list Z, let '(i, k, arr) := st in Z.to_nat (len l1 + len l2 - i))); [|done|lia].
  pose proof (len_nonneg l2).
  clear i k arr Hinv Hf Hor. intros [[i k] arr] [(x1 & y1 & x2 & y2 & out & rest & E1 & E2 & Ei & Ej & Ea & Ek & Hr & He) Hor].
  unfold merge_left. destruct (run_cases _ _ _ _ E1 Ei) as [[-> Hi]|(z1 & y1' & -> & Hi)].
  { rewrite (proj2 (Z.ltb_ge i _)) by lia. cbn. exists x1, [], x2, y2, out, rest. by rewrite <-Hi. }
  destruct Hor as [|Hj']; [lia|].
  destruct (run_cases _ _ _ _ E2 Ej) as [[-> Hj]|(z2 & y2' & -> & Hj)]; [|lia].
  rewrite (proj2 (Z.ltb_lt i _)) by lia. subst i. rewrite (read_h x1 z1 y1') by done. cbn [mbind outcome_bind].
  run (take_h x1 z1 y1' j k arr x2 [] out rest); try done.
  { intros z Hz. by apply elem_of_nil in Hz. }
  intros arr' Hinv'. cbn [returns]. split; [|lia]. split; [done|by right].
Qed.

Lemma merge_right_spec fuel j k arr :
  merge_inv l1 l2 (len l1) j k arr → len l2 - j < Z.of_nat fuel → (0 < fuel)%nat →
  returns (loop fuel (merge_right a t (len l2)) (j, k, arr)) (λ arr, arr ≡ₚ l1 ++ l2 ∧ StronglySorted Z.le arr).
Proof.
  intros Hinv Hf Hf0.
  apply (loop_returns (λ st : Z * Z * list Z, let '(j, k, arr) := st in merge_inv l1 l2 (len l1) j k arr)
    (λ st : Z * Z * list Z, let '(j, k, arr) := st in Z.to_nat (len l2 - j))); [|done|lia].
  clear j k arr Hinv Hf. intros [[j k] arr] (x1 & y1 & x2 & y2 & out & rest & E1 & E2 & Ei & Ej & Ea & Ek & Hr & He).
  unfold merge_right. destruct (run_cases _ _ _ _ E1 Ei) as [[-> Hi]|(z1 & y1' & -> & Hi)]; [|lia].
  destruct (run_cases _ _ _ _ E2 Ej) as [[-> Hj]|(z2 & y2' & -> & Hj)].
  { rewrite (proj2 (Z.ltb_ge j _)) by lia. cbn [returns]. destruct He as (Hp & Hs & _).
    destruct rest as [|z rest]; [|by unfold len in Hr]. rewrite app_nil_r in Ea. subst arr.
    by rewrite !app_nil_r in Hp. }
  rewrite (proj2 (Z.ltb_lt j _)) by lia. subst j. rewrite (read_t x2 z2 y2') by done. cbn [mbind outcome_bind].
  run (take_t (len l1) k arr x1 [] x2 z2 y2' out rest); try done.
  { intros z Hz. by apply elem_of_nil in Hz. }
  intros arr' Hinv'. cbn [returns]. split; [done|lia].
Qed.

Lemma merge_array_spec :
  returns (merge_array a h t (len l1) (len l2)) (λ r, ∃ out,
    r = pre ++ out ++ post ∧ out ≡ₚ l1 ++ l2 ∧ StronglySorted Z.le out).
Proof.
  pose proof (len_nonneg l1). pose proof (len_nonneg l2). unfold merge_array.
  run merge_both_spec; [|lia|lia|].
  { exists [], l1, [], l2, [], (replicate (Z.to_nat (len l1 + len l2)) 0). repeat (split; [done|]). split.
    { unfold len. rewrite length_replicate. unfold len. lia. }
    split; [done|]. split; [constructor|]. intros o y Ho. by apply elem_of_nil in Ho. }
  intros [[[i j] k] arr] [Hinv Hor].
  assert (0 ≤ i ∧ 0 ≤ j) as [Hi Hj].
  { destruct Hinv as (x1 & y1 & x2 & y2 & out & rest & _ & _ & -> & -> & _). split; apply len_nonneg. }
  run (merge_left_spec _ i j k arr Hinv Hor); [lia|lia|]. intros [k' arr'] Hinv'.
  run (merge_right_spec _ j k' arr' Hinv'); [lia|lia|]. intros out [Hp Hs].
  assert (len out = len (l1 ++ l2)) as Hl by (unfold len; by rewrite Hp).
  rewrite <-len_app, <-Hl. pose proof (copy_back out (l1 ++ l2) Hl) as Hc. rewrite <-app_assoc in Hc.
  eapply returns_mono; [exact Hc|]. intros r ->. by exists out.
Qed.
End merging.

Lemma merge_sort_rec_spec fuel pre l post :
  len l < Z.of_nat fuel → 
  returns (__merge_sort fuel (pre ++ l ++ post) (len pre) (len l))
    (λ r, ∃ l', r = pre ++ l' ++ post ∧ l' ≡ₚ l ∧ StronglySorted Z.le l').
Proof.
  revert pre l post. induction fuel as [|fuel IH]; intros pre l post Hf.
  { pose proof (len_nonneg l). lia. }
  cbn [__merge_sort]. destruct (Z.ltb_spec 1 (len l)) as [Hlt|Hge].
  - set (n := Z.quot (len l) 2). assert (1 ≤ n < len l) as Hn by (unfold n; dlia).
    set (l1 := take (Z.to_nat n) l). set (l2 := drop (Z.to_nat n) l).
    assert (len l1 = n) as L1 by (unfold len, l1 in *; rewrite length_take; lia).
    assert (len l - n = len l2) as -> by (unfold len, l2 in *; rewrite length_drop; lia).
    assert (l = l1 ++ l2) as E by (symmetry; apply take_drop). clearbody l1 l2 n. subst l.
    rewrite len_app in Hf, Hn. rewrite <-!app_assoc, <-L1. run (IH pre l1 (l2 ++ post)); [lia|]. intros r1 (l1' & -> & P1 & S1).
    assert (len l1' = len l1) as L1' by (unfold len; by rewrite P1).
    rewrite <-L1'. replace (pre ++ l1' ++ l2 ++ post) with ((pre ++ l1') ++ l2 ++ post) by by rewrite <-!app_assoc.
    rewrite <-len_app. run (IH (pre ++ l1') l2 post); [lia|]. intros r2 (l2' & -> & P2 & S2).
    assert (len l2' = len l2) as L2' by (unfold len; by rewrite P2).
    rewrite len_app, <-L2', <-!app_assoc. eapply returns_mono; [by apply merge_array_spec|].
    intros r (out & -> & Po & So). exists out. split; [done|]. split; [|done]. by rewrite Po, P1, P2.
  - cbn [returns]. exists l. split; [done|]. split; [done|]. unfold len in Hge.
    destruct l as [|x [|y l]]; [constructor|by repeat constructor|simpl in Hge; lia].
Qed.

Lemma sorted_list_range l : StronglySorted Z.le l → sorted_range Z.le 0 (len l - 1) l.
Proof.
  intros Hs i j Hi Hij Hj.
  rewrite <-(take_drop (Z.to_nat j) l) in Hs. apply (StronglySorted_app_1_elem_of _ _ _ _ _ Hs).
  - apply list_elem_of_lookup. exists (Z.to_nat i). rewrite lookup_take_lt by lia. apply get_lookup. lia.
  - apply list_elem_of_lookup. exists O. rewrite lookup_drop, Nat.add_0_r. apply get_lookup. lia.
Qed.

Lemma sorted_range_list l : sorted_range Z.le 0 (len l - 1) l → StronglySorted Z.le l.
Proof.
  induction l as [|x l IH]; [constructor|]. intros Hs. constructor.
  - apply IH. intros i j Hi Hij Hj. specialize (Hs (i + 1) (j + 1)). rewrite len_cons in Hs. revert Hs.
    unfold get. rewrite !Z2Nat.inj_add, !Nat.add_1_r by lia. intros Hs. apply Hs; lia.
  - apply Forall_forall. intros y [i Hi]%list_elem_of_lookup. pose proof (lookup_lt_Some _ _ _ Hi).
    assert (get (x :: l) (Z.of_nat (S i)) = y) as <-.
    { unfold get. rewrite Nat2Z.id. by apply list_lookup_total_correct. }
    apply (Hs 0); unfold len; simpl; lia.
Qed.

Lemma permuted_rearranged a a' : a' ≡ₚ a → rearranged 0 (len a - 1) a a'.
Proof.
  intros Hp. split; [done|]. intros k Hk Ho. assert (length a' = length a) as Hl by (by rewrite Hp).
  unfold get. unfold len in Ho. rewrite !list_lookup_total_alt, !lookup_ge_None_2 by lia. done.
Qed.

Lemma merge_sort_all a lo hi :
  returns (merge_sort a lo hi (len a)) (λ a',
    rearranged 0 (len a - 1) a a' ∧ sorted_range Z.le 0 (len a - 1) a').
Proof.
  unfold merge_sort. pose proof (merge_sort_rec_spec (S (Z.to_nat (len a))) [] a []) as H.
  cbn [app] in H. rewrite app_nil_r in H. pose proof (len_nonneg a).
  eapply returns_mono; [apply H; lia|]. intros r (l' & -> & Hp & Hs). cbn [app].
  rewrite app_nil_r. split; [by apply permuted_rearranged|].
  assert (len l' = len a) as <- by (unfold len; by rewrite Hp). by apply sorted_list_range.
Qed.

(** ** Heaps *)
Section heaps.
Implicit Types (a arr : list Z) (i c k n s : Z).

Definition parent c : Z := (c - 1) / 2.

(** Every element of the first [n] whose parent is at [s] or after is at most its parent. *)
Definition heap_from s n a : Prop := ∀ c, 0 < c < n → s ≤ parent c → get a c ≤ get a (parent c).

Lemma heap_root n a : heap_from 0 n a → ∀ k, 0 ≤ k < n → get a k ≤ get a 0.
Proof.
  intros Hh k Hk. revert Hk. induction (Z.lt_wf 0 k) as [k _ IH]. intros Hk.
  destruct (decide (k = 0)) as [->|]; [done|].
  etrans; [apply Hh; [lia|]; unfold parent; dlia|]. apply IH; unfold parent; dlia.
Qed.

Lemma pick_child_spec a child n current :
  n ≤ len a → 0 ≤ current < n → 0 ≤ child →
  returns (pick_child a child n current) (λ c, (c = current ∨ c = child ∧ child < n) ∧
    get a current ≤ get a c ∧ (child < n → get a child ≤ get a c)).
Proof.
  intros Hn Hc Hch. unfold pick_child. destruct (Z.ltb_spec child n); [|cbn; lia].
  rewrite !aget_get by lia. cbn [mbind outcome_bind returns].
  destruct (Z.ltb_spec (get a current) (get a child)); lia.
Qed.

(** The state of a sift-down at [cur]: the heap is broken at [cur] only. *)
Definition sifting s n cur a : Prop :=
  (∀ c, 0 < c < n → s ≤ parent c → parent c ≠ cur → get a c ≤ get a (parent c)) ∧
  (∀ c, 0 < c < n → parent c = cur → s ≤ parent cur → get a c ≤ get a (parent cur)).

Lemma sifting_swap s n cur child a a' :
  0 ≤ s ≤ cur → 0 < child < n → parent child = cur →
  (∀ c, 0 < c < n → parent c = cur → get a c ≤ get a child) → get a cur ≤ get a child →
  (∀ k, 0 ≤ k → get a' k = if decide (k = cur) then get a child else if decide (k = child) then get a cur else get a k) →
  sifting s n cur a → sifting s n child a'.
Proof.
  intros Hs Hc Hp Hmax Hle Hg [H1 H2].
  assert (cur < child) as Hlt by (unfold parent in Hp; dlia). split.
  - intros c Hcn Hsc Hne. rewrite !Hg by lia. destruct (decide (parent c = cur)) as [E|Hn].
    + rewrite decide_False by (unfold parent in *; dlia).
      case_decide; [done|by apply Hmax].
    + rewrite (decide_False (P := parent c = child)) by done.
      case_decide as E1; [subst c|rewrite decide_False by (intros ->; done); by apply H1].
      assert (parent child = cur) by done. apply H2; [lia|done|done].
  - intros c Hcn Hpc Hsc. rewrite Hp, !Hg by lia. rewrite (decide_True (P := cur = cur)) by done.
    rewrite !decide_False by (unfold parent in *; dlia). rewrite <-Hpc. apply H1; [done|lia|lia].
Qed.

Lemma up_heap_spec a s n :
  0 ≤ s → n ≤ len a → heap_from (s + 1) n a →
  returns (up_heap a s n) (λ a', rearranged 0 (n - 1) a a' ∧ heap_from s n a').
Proof.
  intros Hs Hn Hh. unfold up_heap.
  apply (loop_returns (λ st : Z * Z * list Z, let '(current, index, arr) := st in
    current = index ∧ s ≤ index ∧ rearranged 0 (n - 1) a arr ∧ sifting s n index arr)
    (λ st : Z * Z * list Z, let '(current, index, arr) := st in Z.to_nat (n - index))).
  - intros [[current cur] arr] (-> & Hc & Hr & Hsift). pose proof (rearranged_len _ _ _ _ Hr) as Hl.
    unfold LEFT, RIGHT. rewrite !Z.shiftl_mul_pow2 by lia. change (2 ^ 1) with 2.
    destruct (Z.ltb_spec cur (Z.quot n 2)) as [Hlt|Hge].
    2: { cbn. split; [done|]. intros c Hcn Hsc. apply Hsift; [done|done|]. unfold parent. dlia. }
    assert (cur * 2 + 1 < n) as Hin by dlia.
    run (pick_child_spec arr (cur * 2 + 1) n cur); [lia..|]. intros c1 (Hc1 & Hle1 & Hl1).
    run (pick_child_spec arr (cur * 2 + 2) n c1); [lia..|]. intros c2 (Hc2 & Hle2 & Hl2).
    assert (∀ c, 0 < c < n → parent c = cur → get arr c ≤ get arr c2) as Hmax.
    { intros c Hcn Hpc. assert (c = cur * 2 + 1 ∨ c = cur * 2 + 2) as [->| ->] by (unfold parent in Hpc; dlia);
        [specialize (Hl1 ltac:(lia)); lia|apply Hl2; lia]. }
    case_bool_decide as Hne.
    + assert (0 < c2 < n ∧ parent c2 = cur) as [Hr2 Hp2] by (unfold parent; dlia).
      run (SWAP_rearranged 0 (n - 1)); [lia..|]. intros arr' (Hr' & _ & Hg). cbn [returns].
      split; [|lia]. split; [done|]. split; [lia|]. split; [by eapply rearranged_trans|].
      eapply sifting_swap; [| | |exact Hmax| |exact Hg|exact Hsift]; [lia|done|done|lia].
    + cbn [returns]. assert (c2 = cur) as -> by (destruct (decide (c2 = cur)); [done|by destruct Hne]).
      split; [done|]. intros c Hcn Hsc. destruct (decide (parent c = cur)) as [E|Hn']; [rewrite E; by apply Hmax|by apply Hsift].
  - split; [done|]. split; [done|]. split; [done|]. split.
    + intros c Hcn Hsc Hne. apply Hh; [done|lia].
    + intros c Hcn <- Hsc. unfold parent in Hsc. dlia.
  - unfold len in *. lia.
Qed.

Lemma max_heap_spec a e :
  returns (max_heap a 0 e (len a)) (λ a', rearranged 0 (len a - 1) a a' ∧ heap_from 0 (len a) a').
Proof.
  pose proof (len_nonneg a) as H0. unfold max_heap. eapply returns_mono.
  - apply (for_rev_returns (λ i arr, rearranged 0 (len a - 1) a arr ∧ heap_from (i + 1) (len a) arr)).
    + dlia.
    + split; [done|]. intros c Hc Hp. unfold parent in Hp. dlia.
    + intros i arr Hi [Hr Hh]. pose proof (rearranged_len _ _ _ _ Hr).
      replace (i - 1 + 1) with i by lia. eapply returns_mono; [apply up_heap_spec; [lia|lia|done]|].
      intros arr' [Hr' Hh']. split; [by eapply rearranged_trans|done].
  - cbv beta. intros a' H. done.
Qed.

Lemma heap_sort_all a :
  returns (heap_sort a 0 (len a - 1) (len a)) (λ a',
    rearranged 0 (len a - 1) a a' ∧ sorted_range Z.le 0 (len a - 1) a').
Proof.
  pose proof (len_nonneg a) as H0. unfold heap_sort. run max_heap_spec. intros a0 [R0 H0'].
  pose proof (rearranged_len _ _ _ _ R0) as L0.
  apply (loop_returns (λ st : Z * Z * list Z, let '(tail, size, arr) := st in
    size = tail + 1 ∧ 0 ≤ size ≤ len a ∧ rearranged 0 (len a - 1) a arr ∧ heap_from 0 size arr ∧
    above 0 (len a - 1) (tail + 1) arr)
    (λ st : Z * Z * list Z, let '(tail, size, arr) := st in Z.to_nat size)).
  - intros [[tail size] arr] (-> & Hsz & Hr & Hh & Hab). pose proof (rearranged_len _ _ _ _ Hr) as Hl.
    destruct (decide (0 < tail)) as [Ht|Ht].
    + rewrite (proj2 (Z.ltb_lt 0 (tail + 1))), (proj2 (Z.ltb_lt 0 tail)) by lia. cbn [andb].
      run (SWAP_rearranged 0 (len a - 1)); [lia..|]. intros arr1 (R1 & L1 & Hg).
      replace (tail + 1 - 1) with tail by lia.
      run up_heap_spec; [lia|lia| |].
      { intros c Hc Hp. assert (parent c < c) by (unfold parent; dlia). rewrite !Hg by lia.
        rewrite !decide_False by lia. apply Hh; lia. }
      intros arr2 [R2 Hh2]. cbn [returns]. split; [|lia]. split; [lia|]. split; [lia|].
      split. { eapply rearranged_trans; [done|]. eapply rearranged_trans; [done|]. eapply rearranged_weaken; [| |done]; lia. }
      split; [done|]. replace (tail - 1 + 1) with tail by lia. intros p q Hp Hpq Hq Htq.
      rewrite (proj2 R2 q) by lia.
      assert (∀ k, 0 ≤ k ≤ tail - 1 → get arr1 k ≤ get arr1 q) as Hall.
      { intros k Hk. rewrite !Hg by lia. pose proof (heap_root _ _ Hh) as Hroot.
        positions; first [apply Hab; lia | apply Hroot; lia]. }
      destruct (decide (p < tail)).
      * apply (rearranged_forall 0 (tail - 1) arr1 arr2 (λ x, x ≤ get arr1 q) R2); [lia|lia|done|lia].
      * rewrite (proj2 R2 p), !Hg by lia. positions; apply Hab; lia.
    + rewrite (proj2 (Z.ltb_ge 0 tail)), andb_false_r by lia. cbn [returns]. split; [done|].
      intros p q Hp Hpq Hq. apply Hab; lia.
  - split; [lia|]. split; [lia|]. split; [done|]. split; [done|]. intros p q; lia.
  - unfold len in *. lia.
Qed.
End heaps.

(** ** The sorts and the dispatcher *)

(** Insertion, bubble, selection and quick sort order any range of positions
    of an array increasingly by a rearrangement of that range, and write nothing
    outside it; all accesses are within the range. *)
Lemma sorts_subrange a lo hi n :
  0 ≤ lo → lo ≤ hi + 1 → hi < len a →
  ∀ f : sort_cb, f ∈ [insert_sort; bubble_sort; select_sort; quick_sort] →
  returns (f a lo hi n) (λ a', rearranged lo hi a a' ∧ sorted_range Z.le lo hi a').
Proof.
  intros Hlo Hle Hhi f Hf. rewrite !elem_of_cons in Hf. destruct Hf as [->|[->|[->|[->|[]%elem_of_nil]]]].
  - by apply insert_sort_range.
  - by apply bubble_sort_range.
  - by apply select_sort_range.
  - by apply quick_sort_range.
Qed.

Lemma sorts_subrange_witness :
  returns (quick_sort [9; 5; 3; 4; 1] 1 3 5) (λ a', rearranged 1 3 [9; 5; 3; 4; 1] a' ∧ sorted_range Z.le 1 3 a').
Proof.
  apply (sorts_subrange [9; 5; 3; 4; 1] 1 3 5 ltac:(lia) ltac:(lia) ltac:(by vm_compute) quick_sort).
  do 3 right. left.
Defined.

(** C27 A sort node over a whole array, of whatever kind, sorts it increasingly;
    the kinds without an implementation fall back on insertion sort.  Radix sort
    looks at three decimal digits, so its numbers must lie between 0 and 999. *)
Theorem sort_node_run_correct a ty :
  (ty = RADIX → ∀ k, 0 ≤ k < len a → 0 ≤ get a k < 1000) →
  returns (sort_node_run (sort_node_init a 0 (len a - 1) (len a) ty true)) (λ r, ∃ s,
    r = Some s ∧ array2sort s ≡ₚ a ∧ StronglySorted Z.le (array2sort s)).
Proof.
  intros Hradix. pose proof (len_nonneg a) as H0.
  assert (∀ f : sort_cb, returns (f a 0 (len a - 1) (len a)) (λ a',
      rearranged 0 (len a - 1) a a' ∧ sorted_range Z.le 0 (len a - 1) a') →
    ∀ ty, returns (sort_node_run (Some (SortNode a ty 0 (len a - 1) (len a) f))) (λ r, ∃ s,
      r = Some s ∧ array2sort s ≡ₚ a ∧ StronglySorted Z.le (array2sort s))) as Hrun.
  { intros f Hf ty'. unfold sort_node_run. cbn [cb array2sort hindex eindex array_len].
    apply returns_bind. eapply returns_mono; [exact Hf|]. intros a' [Hr Hs]. cbn [returns].
    eexists. split; [done|]. cbn [array2sort]. split; [apply Hr|].
    apply sorted_range_list. by rewrite (rearranged_len _ _ _ _ Hr). }
  destruct ty; cbn [sort_node_init]; apply Hrun;
    first [apply insert_sort_range; lia | apply bubble_sort_range; lia | apply merge_sort_all
          | apply heap_sort_all | apply quick_sort_range; lia | apply select_sort_range; lia
          | apply shell_sort_all | apply radix_sort_range; [lia|lia|lia|]].
  intros k Hk. apply Hradix; [done|lia].
Qed.

Lemma sort_node_run_correct_witness :
  returns (sort_node_run (sort_node_init [305; 27; 999; 0] 0 3 4 RADIX true)) (λ r, ∃ s,
    r = Some s ∧ array2sort s ≡ₚ [305; 27; 999; 0] ∧ StronglySorted Z.le (array2sort s)).
Proof.
  apply (sort_node_run_correct [305; 27; 999; 0] RADIX). intros _ k Hk.
  assert (k = 0 ∨ k = 1 ∨ k = 2 ∨ k = 3) as [->|[->|[->| ->]]] by (unfold len in Hk; simpl in Hk; lia);
    vm_compute; split; congruence.
Defined.
