(* ===== verification/RbTree.v ===== *)
(** * Red-black trees with parent pointers ([rbtree.c], [rbtree.h])

    The nodes of a tree live in a heap from locations to [rb_node]s.  The C code
    keeps the colour in the low bits of the parent pointer, which are zero in an
    aligned address; here the two are fields.  [rbtree.c] writes every case
    twice, with left and right exchanged; the definitions take the side [d] and
    the C code is their two instances. *)

From S2P Require Import Prelude.

(** ** Definitions *)
Inductive color : Type := RB_RED | RB_BLACK.
#[export] Instance color_eq_dec : EqDecision color.
Proof. solve_decision. Defined.

Inductive side : Type := Lft | Rgt.
#[export] Instance side_eq_dec : EqDecision side.
Proof. solve_decision. Defined.
Definition opp (d : side) : side := match d with Lft => Rgt | Rgt => Lft end.

Record rb_node : Type := RbNode {
  rb_parent : ptr;
  rb_color : color;
  rb_right : ptr;
  rb_left : ptr
}.

Record rb_tree : Type := RbTree { root : ptr; nodes : gmap loc rb_node }.

Definition child (d : side) (n : rb_node) : ptr := match d with Lft => rb_left n | Rgt => rb_right n end.
Definition with_parent (p : ptr) (n : rb_node) : rb_node := RbNode p (rb_color n) (rb_right n) (rb_left n).
Definition with_color (c : color) (n : rb_node) : rb_node := RbNode (rb_parent n) c (rb_right n) (rb_left n).
Definition with_child (d : side) (p : ptr) (n : rb_node) : rb_node :=
  match d with
  | Lft => RbNode (rb_parent n) (rb_color n) (rb_right n) p
  | Rgt => RbNode (rb_parent n) (rb_color n) p (rb_left n)
  end.

Definition rb_get (s : rb_tree) (p : ptr) : outcome rb_node :=
  match p with
  | Addr l => match nodes s !! l with Some n => Ret n | None => Stuck end
  | _ => Stuck
  end.

Definition modify (s : rb_tree) (p : ptr) (f : rb_node → rb_node) : outcome rb_tree :=
  match p with
  | Addr l => match nodes s !! l with
              | Some n => Ret (RbTree (root s) (<[l := f n]> (nodes s)))
              | None => Stuck
              end
  | _ => Stuck
  end.

Definition rb_set_parent (s : rb_tree) (rb p : ptr) : outcome rb_tree := modify s rb (with_parent p).
Definition rb_set_color (s : rb_tree) (rb : ptr) (c : color) : outcome rb_tree := modify s rb (with_color c).
Definition rb_set_red (s : rb_tree) (rb : ptr) : outcome rb_tree := rb_set_color s rb RB_RED.
Definition rb_set_black (s : rb_tree) (rb : ptr) : outcome rb_tree := rb_set_color s rb RB_BLACK.
Definition set_child (s : rb_tree) (p : ptr) (d : side) (q : ptr) : outcome rb_tree := modify s p (with_child d q).
Definition get_child (s : rb_tree) (p : ptr) (d : side) : outcome ptr :=
  let! n := rb_get s p in Ret (child d n).

(** [if (p) rb_set_parent(p, q)]. *)
Definition reparent (s : rb_tree) (p q : ptr) : outcome rb_tree :=
  let! b := truth p in
  if b : bool then rb_set_parent s p q else Ret s.

(** [p && rb_is_red(p)] and [!p || rb_is_black(p)]. *)
Definition is_red (s : rb_tree) (p : ptr) : outcome bool :=
  let! b := truth p in
  if b : bool then let! n := rb_get s p in Ret (bool_decide (rb_color n = RB_RED)) else Ret false.
Definition is_black (s : rb_tree) (p : ptr) : outcome bool :=
  let! r := is_red s p in Ret (negb r).

(** The child of [parent] that is [node], or the root, becomes [new]. *)
Definition replace_child (d : side) (s : rb_tree) (parent node new : ptr) : outcome rb_tree :=
  let! b := truth parent in
  if b : bool then
    let! pc := get_child s parent d in
    if bool_decide (node = pc) then set_child s parent d new else set_child s parent (opp d) new
  else Ret (RbTree new (nodes s)).

(** [__rb_rotate_left] for [Lft], [__rb_rotate_right] for [Rgt]. *)
Definition rotate (d : side) (s : rb_tree) (node : ptr) : outcome rb_tree :=
  let! n := rb_get s node in
  let right := child (opp d) n in
  let parent := rb_parent n in
  let! inner := get_child s right d in
  let! s := set_child s node (opp d) inner in
  let! s := reparent s inner node in
  let! s := set_child s right d node in
  let! s := rb_set_parent s right parent in
  let! s := replace_child d s parent node right in
  rb_set_parent s node right.
Definition __rb_rotate_left := rotate Lft.
Definition __rb_rotate_right := rotate Rgt.

(** The loop body of [rb_insert_color] below a red [parent] that is the [d]
    child of [gparent]. *)
Definition insert_fix (d : side) (s : rb_tree) (node parent gparent : ptr) : outcome (ptr * rb_tree) :=
  let! uncle := get_child s gparent (opp d) in
  let! ur := is_red s uncle in
  if ur : bool then
    let! s := rb_set_black s uncle in
    let! s := rb_set_black s parent in
    let! s := rb_set_red s gparent in
    Ret (gparent, s)
  else
    let! inner := get_child s parent (opp d) in
    let! st := (if bool_decide (inner = node) then
                  let! s := rotate d s parent in Ret (node, parent, s)
                else Ret (parent, node, s)) in
    let '(parent, node, s) := st in
    let! s := rb_set_black s parent in
    let! s := rb_set_red s gparent in
    let! s := rotate (opp d) s gparent in
    Ret (node, s).

Definition insert_step (st : ptr * rb_tree) : outcome (ptr * rb_tree + rb_tree) :=
  let '(node, s) := st in
  let! n := rb_get s node in
  let parent := rb_parent n in
  let! pr := is_red s parent in
  if pr : bool then
    let! pn := rb_get s parent in
    let gparent := rb_parent pn in
    let! gl := get_child s gparent Lft in
    let! st := insert_fix (if bool_decide (parent = gl) then Lft else Rgt) s node parent gparent in
    Ret (inl st)
  else
    let! s := rb_set_black s (root s) in Ret (inr s).

Definition rb_insert_color (s : rb_tree) (node : ptr) : outcome rb_tree :=
  loop (S (size (nodes s))) insert_step (node, s).

(** [rb_link_node(node, parent, rb_link)], the link being the [d] child of
    [parent] or the root pointer. *)
Definition rb_link_node (s : rb_tree) (node : loc) (parent : ptr) (d : side) : outcome rb_tree :=
  let s := RbTree (root s) (<[node := RbNode parent RB_RED Null Null]> (nodes s)) in
  match parent with
  | Null => Ret (RbTree (Addr node) (nodes s))
  | _ => set_child s parent d (Addr node)
  end.

(** [while ((left = node->rb_left)) node = left], and mirrored. *)
Definition descend_side (d : side) (s : rb_tree) (node : ptr) : outcome ptr :=
  loop (S (size (nodes s))) (λ node,
    let! next := get_child s node d in
    let! b := truth next in
    Ret (if b : bool then inl next else inr node)) node.

(** [rb_first] for [Lft], [rb_last] for [Rgt]. *)
Definition rb_end (d : side) (s : rb_tree) : outcome ptr :=
  let! b := truth (root s) in
  if b : bool then descend_side d s (root s) else Ret Null.
Definition rb_first := rb_end Lft.
Definition rb_last := rb_end Rgt.

(** [rb_next] for [Rgt], [rb_prev] for [Lft]. *)
Definition rb_adjacent (d : side) (s : rb_tree) (node : ptr) : outcome ptr :=
  let! n := rb_get s node in
  if bool_decide (rb_parent n = node) then Ret Null
  else
    let! b := truth (child d n) in
    if b : bool then descend_side (opp d) s (child d n)
    else
      loop (S (size (nodes s))) (λ node,
        let! n := rb_get s node in
        let! b := truth (rb_parent n) in
        if b : bool then
          let! pc := get_child s (rb_parent n) d in
          Ret (if bool_decide (node = pc) then inl (rb_parent n) else inr (rb_parent n))
        else Ret (inr Null)) node.
Definition rb_next := rb_adjacent Rgt.
Definition rb_prev := rb_adjacent Lft.

(** ** Trees and contexts *)
Inductive tree : Type :=
  | E
  | T (c : color) (a : tree) (x : loc) (b : tree).

Definition root_ptr (t : tree) : ptr := match t with E => Null | T _ _ x _ => Addr x end.
Definition tcolor (t : tree) : color := match t with E => RB_BLACK | T c _ _ _ => c end.

(** In-order locations. *)
Fixpoint locs (t : tree) : list loc :=
  match t with E => [] | T _ a x b => locs a ++ x :: locs b end.

(** The node at [x] with [t] on side [d] and [b] on the other. *)
Definition node (d : side) (c : color) (t : tree) (x : loc) (b : tree) : tree :=
  match d with Lft => T c t x b | Rgt => T c b x t end.

(** A path to the root: [(d, c, x, b)] is the parent [x] of the hole, which is
    its [d] child, with the sibling [b]. *)
Definition frame : Type := side * color * loc * tree.
Fixpoint plug (C : list frame) (t : tree) : tree :=
  match C with [] => t | (d, c, x, b) :: C => plug C (node d c t x b) end.
Definition cparent (C : list frame) : ptr := match C with [] => Null | (_, _, x, _) :: _ => Addr x end.
Fixpoint before (C : list frame) : list loc :=
  match C with
  | [] => []
  | (d, c, x, b) :: C => before C ++ match d with Lft => [] | Rgt => locs b ++ [x] end
  end.
Fixpoint after (C : list frame) : list loc :=
  match C with
  | [] => []
  | (d, c, x, b) :: C => match d with Lft => x :: locs b | Rgt => [] end ++ after C
  end.

(** The heap cell of a node. *)
Definition cell (par : ptr) (c : color) (d : side) (p q : ptr) : rb_node :=
  match d with Lft => RbNode par c q p | Rgt => RbNode par c p q end.

Fixpoint rep (h : gmap loc rb_node) (par : ptr) (t : tree) : Prop :=
  match t with
  | E => True
  | T c a x b => h !! x = Some (cell par c Lft (root_ptr a) (root_ptr b)) ∧ rep h (Addr x) a ∧ rep h (Addr x) b
  end.
Fixpoint rep_ctx (h : gmap loc rb_node) (C : list frame) (p : ptr) : Prop :=
  match C with
  | [] => True
  | (d, c, x, b) :: C => h !! x = Some (cell (cparent C) c d p (root_ptr b)) ∧ rep h (Addr x) b ∧ rep_ctx h C (Addr x)
  end.

(** The heap holds the tree [t]. *)
Definition represents (s : rb_tree) (t : tree) : Prop :=
  root s = root_ptr t ∧ rep (nodes s) Null t ∧ NoDup (locs t).

(** Only cells of the list [L] changed. *)
Definition only (L : list loc) (s s' : rb_tree) : Prop :=
  ∀ l, l ∉ L → nodes s' !! l = nodes s !! l.

(** ** Lemmas *)
Section structure.
Implicit Types (t a b : tree) (C : list frame) (h : gmap loc rb_node) (s : rb_tree) (l x : loc).

Lemma locs_node d c t x b :
  locs (node d c t x b) = match d with Lft => locs t ++ x :: locs b | Rgt => locs b ++ x :: locs t end.
Proof. by destruct d. Qed.

Lemma locs_plug C t : locs (plug C t) = before C ++ locs t ++ after C.
Proof.
  revert t. induction C as [|[[[d c] x] b] C IH]; intros t; simpl; [by rewrite app_nil_r|].
  rewrite IH, locs_node. destruct d; by rewrite ?app_nil_r, <-!app_assoc.
Qed.

Lemma root_node d c t x b : root_ptr (node d c t x b) = Addr x.
Proof. by destruct d. Qed.

Lemma rep_node h par d c t x b :
  rep h par (node d c t x b) ↔
  h !! x = Some (cell par c d (root_ptr t) (root_ptr b)) ∧ rep h (Addr x) t ∧ rep h (Addr x) b.
Proof. destruct d; simpl; tauto. Qed.

Lemma rep_plug h C t :
  rep h Null (plug C t) ↔ rep_ctx h C (root_ptr t) ∧ rep h (cparent C) t.
Proof.
  revert t. induction C as [|[[[d c] x] b] C IH]; intros t; simpl; [tauto|].
  rewrite IH, root_node, rep_node. tauto.
Qed.

Lemma rep_agree h h' par t :
  (∀ l, l ∈ locs t → h' !! l = h !! l) → rep h par t → rep h' par t.
Proof.
  revert par. induction t as [|c a IHa x b IHb]; intros par Hag; simpl; [done|].
  intros (Hx & Ha & Hb). split; [|split].
  - rewrite Hag; [done|]. simpl. set_solver.
  - apply IHa; [|done]. intros l Hl. apply Hag. simpl. set_solver.
  - apply IHb; [|done]. intros l Hl. apply Hag. simpl. set_solver.
Qed.

Definition clocs C : list loc := before C ++ after C.

Lemma clocs_cons d c x b C l : l ∈ clocs ((d, c, x, b) :: C) ↔ l = x ∨ l ∈ locs b ∨ l ∈ clocs C.
Proof. unfold clocs. destruct d; simpl; rewrite ?app_nil_r; set_solver. Qed.

Lemma rep_ctx_agree h h' C p :
  (∀ l, l ∈ clocs C → h' !! l = h !! l) → rep_ctx h C p → rep_ctx h' C p.
Proof.
  revert p. induction C as [|[[[d c] x] b] C IH]; intros p Hag; simpl; [done|].
  intros (Hx & Hb & HC). split; [|split].
  - rewrite Hag; [done|]. rewrite clocs_cons. by left.
  - eapply rep_agree; [|done]. intros l Hl. apply Hag. rewrite clocs_cons. auto.
  - apply IH; [|done]. intros l Hl. apply Hag. rewrite clocs_cons. auto.
Qed.
Lemma nodup_plug C t :
  NoDup (locs (plug C t)) ↔ NoDup (clocs C) ∧ NoDup (locs t) ∧ (∀ l, l ∈ locs t → l ∉ clocs C).
Proof.
  assert (Permutation (locs (plug C t)) (locs t ++ clocs C)) as ->.
  { rewrite locs_plug. unfold clocs. rewrite (Permutation_app_comm (before C)), <-app_assoc.
    by rewrite (Permutation_app_comm (after C)). }
  rewrite NoDup_app. tauto.
Qed.

Lemma nodup_node d c t x b :
  NoDup (locs (node d c t x b)) ↔
  (x ∉ locs t) ∧ (x ∉ locs b) ∧ NoDup (locs t) ∧ NoDup (locs b) ∧ (∀ l, l ∈ locs t → l ∉ locs b).
Proof.
  rewrite locs_node. destruct d; rewrite NoDup_app, NoDup_cons; set_solver.
Qed.

Lemma elem_of_node d c t x b l : l ∈ locs (node d c t x b) ↔ l = x ∨ l ∈ locs t ∨ l ∈ locs b.
Proof. rewrite locs_node. destruct d; set_solver. Qed.

Lemma elem_of_plug C t l : l ∈ locs (plug C t) ↔ l ∈ locs t ∨ l ∈ clocs C.
Proof. rewrite locs_plug. unfold clocs. set_solver. Qed.

Lemma nodup_clocs d c x b C :
  NoDup (clocs ((d, c, x, b) :: C)) ↔
  (x ∉ locs b) ∧ (x ∉ clocs C) ∧ NoDup (locs b) ∧ NoDup (clocs C) ∧ (∀ l, l ∈ locs b → l ∉ clocs C).
Proof.
  assert (Permutation (clocs ((d, c, x, b) :: C)) (x :: locs b ++ clocs C)) as ->.
  { unfold clocs. simpl. destruct d; simpl.
    - rewrite app_nil_r, (Permutation_app_comm (before C)), (Permutation_app_comm (before C)). simpl.
      by rewrite <-app_assoc.
    - rewrite <-!app_assoc. simpl. rewrite (Permutation_app_comm (before C)).
      rewrite <-app_assoc. simpl. rewrite <-Permutation_middle.
      by rewrite (Permutation_app_comm (after C)). }
  rewrite NoDup_cons, NoDup_app. set_solver.
Qed.

(** What a represented tree gives at a focus. *)
Lemma represents_plug s C t :
  represents s (plug C t) ↔
  root s = root_ptr (plug C t) ∧ rep_ctx (nodes s) C (root_ptr t) ∧ rep (nodes s) (cparent C) t ∧
  NoDup (clocs C) ∧ NoDup (locs t) ∧ (∀ l, l ∈ locs t → l ∉ clocs C).
Proof. unfold represents. rewrite rep_plug, nodup_plug. tauto. Qed.

Lemma root_plug_ne C t t' : C ≠ [] → root_ptr (plug C t) = root_ptr (plug C t').
Proof.
  revert t t'. induction C as [|[[[d c] x] b] C IH]; intros t t' HC; [done|]. simpl.
  destruct C; [simpl; by rewrite !root_node|by apply IH].
Qed.

Lemma root_plug_same C t t' : root_ptr t = root_ptr t' → root_ptr (plug C t) = root_ptr (plug C t').
Proof. intros E. destruct C; [done|by apply root_plug_ne]. Qed.
End structure.

(** ** The primitive updates *)
Section updates.
Implicit Types (t a b : tree) (C : list frame) (s : rb_tree) (l x y : loc) (p q : ptr).

Lemma rb_get_ok s l n : nodes s !! l = Some n → rb_get s (Addr l) = Ret n.
Proof. intros H. simpl. by rewrite H. Qed.

Lemma get_child_ok s l n d : nodes s !! l = Some n → get_child s (Addr l) d = Ret (child d n).
Proof. intros H. unfold get_child. by rewrite (rb_get_ok _ _ _ H). Qed.

Lemma modify_ok s l n f :
  nodes s !! l = Some n → modify s (Addr l) f = Ret (RbTree (root s) (<[l := f n]> (nodes s))).
Proof. intros H. simpl. by rewrite H. Qed.

Lemma child_cell par c d p q : child d (cell par c d p q) = p.
Proof. by destruct d. Qed.
Lemma child_opp_cell par c d p q : child (opp d) (cell par c d p q) = q.
Proof. by destruct d. Qed.
Lemma parent_cell par c d p q : rb_parent (cell par c d p q) = par.
Proof. by destruct d. Qed.
Lemma color_cell par c d p q : rb_color (cell par c d p q) = c.
Proof. by destruct d. Qed.
Lemma with_parent_cell par c d p q r : with_parent r (cell par c d p q) = cell r c d p q.
Proof. by destruct d. Qed.
Lemma with_color_cell par c d p q r : with_color r (cell par c d p q) = cell par r d p q.
Proof. by destruct d. Qed.
Lemma with_child_cell par c d p q r : with_child d r (cell par c d p q) = cell par c d r q.
Proof. by destruct d. Qed.
Lemma with_child_opp_cell par c d p q r : with_child (opp d) r (cell par c d p q) = cell par c d p r.
Proof. by destruct d. Qed.
Lemma cell_opp par c d p q : cell par c (opp d) q p = cell par c d p q.
Proof. by destruct d. Qed.
Lemma node_opp d c t x b : node (opp d) c b x t = node d c t x b.
Proof. by destruct d. Qed.
Lemma opp_opp d : opp (opp d) = d.
Proof. by destruct d. Qed.

Lemma set_child_ok s l par c d p q r :
  nodes s !! l = Some (cell par c d p q) →
  set_child s (Addr l) d r = Ret (RbTree (root s) (<[l := cell par c d r q]> (nodes s))).
Proof. intros H. unfold set_child. by rewrite (modify_ok _ _ _ _ H), with_child_cell. Qed.

Lemma set_parent_ok s l par c d p q r :
  nodes s !! l = Some (cell par c d p q) →
  rb_set_parent s (Addr l) r = Ret (RbTree (root s) (<[l := cell r c d p q]> (nodes s))).
Proof. intros H. unfold rb_set_parent. by rewrite (modify_ok _ _ _ _ H), with_parent_cell. Qed.

Lemma only_insert (L : list loc) s l n : l ∈ L → only L s (RbTree (root s) (<[l := n]> (nodes s))).
Proof. intros Hl k Hk. cbn [nodes]. rewrite lookup_insert_ne; [done|]. by intros ->. Qed.

Lemma only_refl L s : only L s s.
Proof. done. Qed.
Lemma only_trans L s1 s2 s3 : only L s1 s2 → only L s2 s3 → only L s1 s3.
Proof. intros H1 H2 l Hl. by rewrite H2, H1. Qed.
Lemma only_weaken (L L' : list loc) s s' : (∀ l, l ∈ L → l ∈ L') → only L s s' → only L' s s'.
Proof. intros HL H l Hl. apply H. naive_solver. Qed.

Lemma reparent_spec s t par q :
  rep (nodes s) par t → NoDup (locs t) →
  returns (reparent s (root_ptr t) q) (λ s',
    root s' = root s ∧ rep (nodes s') q t ∧ only (locs t) s s').
Proof.
  intros Hr Hnd. unfold reparent. destruct t as [|c a x b]; [done|].
  cbn [root_ptr truth mbind outcome_bind]. destruct Hr as (Hx & Ha & Hb).
  unfold rb_set_parent. rewrite (modify_ok _ _ _ _ Hx), with_parent_cell. cbn [returns root nodes].
  apply (nodup_node Lft c) in Hnd as (N1 & N2 & _).
  split; [done|]. split.
  - split; [by rewrite lookup_insert_eq|]. split; (eapply rep_agree; [|done]); intros l Hl;
      rewrite lookup_insert_ne; done || set_solver.
  - intros l Hl. cbn [nodes]. rewrite lookup_insert_ne; [done|]. simpl in Hl. set_solver.
Qed.

Lemma replace_child_spec dd s C x q :
  rep_ctx (nodes s) C (Addr x) → NoDup (clocs C) → x ∉ clocs C →
  returns (replace_child dd s (cparent C) (Addr x) q) (λ s',
    root s' = match C with [] => q | _ => root s end ∧ rep_ctx (nodes s') C q ∧ only (clocs C) s s').
Proof.
  intros HC Hnd Hx. unfold replace_child. destruct C as [|[[[d c] z] b] C]; [done|].
  cbn [cparent truth mbind outcome_bind]. destruct HC as (Hz & Hb & HC).
  apply nodup_clocs in Hnd as (N1 & N2 & N3 & N4 & N5). rewrite clocs_cons in Hx.
  rewrite (get_child_ok _ _ _ _ Hz). cbn [mbind outcome_bind].
  assert (returns (set_child s (Addr z) d q) (λ s', root s' = root s ∧
    rep_ctx (nodes s') ((d, c, z, b) :: C) q ∧ only (clocs ((d, c, z, b) :: C)) s s')) as Hset.
  { unfold set_child. rewrite (modify_ok _ _ _ _ Hz), with_child_cell. cbn [returns root nodes].
    split; [done|]. split.
    - simpl. split; [by rewrite lookup_insert_eq|].
      split; [eapply rep_agree; [|done]|eapply rep_ctx_agree; [|done]]; intros l Hl; rewrite lookup_insert_ne; done || set_solver.
    - intros l Hl. rewrite clocs_cons in Hl. cbn [nodes]. rewrite lookup_insert_ne; [done|]. naive_solver. }
  assert (root_ptr b ≠ Addr x) as Hbx.
  { intros Eb. destruct b as [|cb ba y bb]; [done|]. injection Eb as ->. apply Hx. simpl. set_solver. }
  destruct (decide (dd = d)) as [->|Hd].
  - by rewrite child_cell, bool_decide_eq_true_2.
  - assert (dd = opp d) as -> by (by destruct dd, d). rewrite child_opp_cell, opp_opp.
    by rewrite bool_decide_eq_false_2.
Qed.
(** Recolouring the node in focus. *)
Lemma set_color_spec s d C c a x b c' :
  represents s (plug C (node d c a x b)) →
  returns (rb_set_color s (Addr x) c') (λ s',
    represents s' (plug C (node d c' a x b)) ∧ only (locs (plug C (node d c a x b))) s s').
Proof.
  rewrite !represents_plug, rep_node, root_node. intros (Hr & HC & (Hx & Ha & Hb) & N1 & N2 & N3).
  unfold rb_set_color. rewrite (modify_ok _ _ _ _ Hx), with_color_cell. cbn [returns].
  assert (locs (node d c' a x b) = locs (node d c a x b)) as El by (by rewrite !locs_node).
  pose proof N2 as N2'. apply nodup_node in N2' as (Na & Nb & _). split.
  - rewrite represents_plug, rep_node, !root_node, El. cbn [root nodes].
    split; [rewrite Hr; apply root_plug_same; by rewrite !root_node|].
    split. { eapply rep_ctx_agree; [|exact HC]. intros l Hl. rewrite lookup_insert_ne; [done|].
             intros ->. apply (N3 l); [apply elem_of_node; auto|done]. }
    split; [|done]. split; [by rewrite lookup_insert_eq|].
    split; (eapply rep_agree; [|done]); intros l Hl; rewrite lookup_insert_ne; done || set_solver.
  - intros l Hl. cbn [nodes]. rewrite lookup_insert_ne; [done|]. rewrite elem_of_plug, elem_of_node in Hl. naive_solver.
Qed.

(** Rotation of the node in focus. *)
Lemma rotate_spec s d C c a x c' b y e :
  represents s (plug C (node d c a x (node d c' b y e))) →
  returns (rotate d s (Addr x)) (λ s',
    represents s' (plug C (node d c' (node d c a x b) y e)) ∧
    only (locs (plug C (node d c a x (node d c' b y e)))) s s').
Proof.
  intros Hrep. apply represents_plug in Hrep.
  rewrite !rep_node, !root_node in Hrep. destruct Hrep as (Hr & HC & (Hx & Ha & Hy & Hb & He) & N1 & N2 & N3).
  pose proof N2 as N2'. apply nodup_node in N2' as (M1 & M2 & M3 & M4 & M5). pose proof M4 as M4'. apply nodup_node in M4' as (K1 & K2 & K3 & K4 & K5).
  assert (∀ l, l = x ∨ l ∈ locs a ∨ l = y ∨ l ∈ locs b ∨ l ∈ locs e → l ∉ clocs C) as N3'.
  { intros l Hl. apply N3. rewrite !elem_of_node. tauto. }
  assert (x ≠ y ∧ (x ∉ locs b) ∧ x ∉ locs e) as (Nxy & Nxb & Nxe) by (rewrite elem_of_node in M2; naive_solver).
  assert (∀ l, l ∈ locs a → l ≠ y ∧ (l ∉ locs b) ∧ l ∉ locs e) as Na.
  { intros l Hl. specialize (M5 l Hl). rewrite elem_of_node in M5. naive_solver. }
  unfold rotate. rewrite (rb_get_ok _ _ _ Hx). cbn [mbind outcome_bind].
  rewrite child_opp_cell, parent_cell, (get_child_ok _ _ _ _ Hy), child_cell. cbn [mbind outcome_bind].
  rewrite <-cell_opp in Hx. rewrite (set_child_ok _ _ _ _ _ _ _ _ Hx), cell_opp. cbn [mbind outcome_bind].
  run (reparent_spec _ b (Addr y)); [|done|].
  { cbn [nodes]. eapply rep_agree; [|exact Hb]. intros l Hl. rewrite lookup_insert_ne; [done|]. naive_solver. }
  intros s2 (R2 & Hb2 & O2). cbn [root nodes] in R2, O2.
  assert (nodes s2 !! y = Some (cell (Addr x) c' d (root_ptr b) (root_ptr e))) as Hy2.
  { rewrite O2 by done. cbn [nodes]. by rewrite lookup_insert_ne. }
  rewrite (set_child_ok _ _ _ _ _ _ _ _ Hy2). cbn [mbind outcome_bind].
  erewrite set_parent_ok by (cbn [nodes]; apply lookup_insert_eq). cbn [mbind outcome_bind root nodes].
  rewrite insert_insert_eq.
  run (replace_child_spec d (RbTree (root s2) (<[y := _]> (nodes s2))) C x); [|done|auto|].
  { cbn [nodes]. eapply rep_ctx_agree; [|exact HC]. intros l Hl.
    rewrite lookup_insert_ne by (intros ->; naive_solver). rewrite O2 by naive_solver. cbn [nodes].
    apply lookup_insert_ne. intros ->. naive_solver. }
  intros s5 (R5 & HC5 & O5). cbn [root nodes] in R5.
  assert (nodes s5 !! x = Some (cell (cparent C) c d (root_ptr a) (root_ptr b))) as Hx5.
  { rewrite O5 by auto. cbn [nodes]. rewrite lookup_insert_ne, O2 by done. cbn [nodes]. by rewrite lookup_insert_eq. }
  rewrite (set_parent_ok _ _ _ _ _ _ _ _ Hx5). cbn [returns].
  assert (only (locs (plug C (node d c a x (node d c' b y e)))) s (RbTree (root s5) (<[x := cell (Addr y) c d (root_ptr a) (root_ptr b)]> (nodes s5)))) as Honly.
  { assert (∀ l, l ∉ locs (plug C (node d c a x (node d c' b y e))) → l ≠ x ∧ l ≠ y ∧ (l ∉ locs b) ∧ l ∉ clocs C) as Hout.
    { intros l Hl. rewrite elem_of_plug, !elem_of_node in Hl. naive_solver. }
    intros l Hl. apply Hout in Hl as (H1 & H2 & H3 & H4). cbn [nodes].
    rewrite lookup_insert_ne, O5 by done. cbn [nodes]. rewrite lookup_insert_ne, O2 by done. cbn [nodes]. by apply lookup_insert_ne. }
  assert (∀ l, l ≠ x → l ∉ clocs C → l ≠ y → l ∉ locs b → (<[x := cell (Addr y) c d (root_ptr a) (root_ptr b)]> (nodes s5)) !! l = nodes s !! l) as Hrest.
  { intros l H1 H2 H3 H4. rewrite lookup_insert_ne, O5 by done. cbn [nodes]. rewrite lookup_insert_ne, O2 by done. cbn [nodes]. by apply lookup_insert_ne. }
  split; [|exact Honly]. apply represents_plug. cbn [root nodes]. rewrite !rep_node, !root_node.
  split. { rewrite R5. destruct C as [|F C]; [by simpl; rewrite root_node|]. rewrite R2, Hr. by apply root_plug_ne. }
  split. { eapply rep_ctx_agree; [|exact HC5]. intros l Hl. apply lookup_insert_ne. naive_solver. }
  split.
  { split. { rewrite lookup_insert_ne, O5 by auto. cbn [nodes]. by rewrite lookup_insert_eq. }
    split; [split; [by rewrite lookup_insert_eq|split]|].
    - eapply rep_agree; [|exact Ha]. intros l Hl. apply Hrest; naive_solver.
    - eapply rep_agree; [|exact Hb2]. intros l Hl. rewrite lookup_insert_ne, O5 by naive_solver. cbn [nodes].
      apply lookup_insert_ne. naive_solver.
    - eapply rep_agree; [|exact He]. intros l Hl. apply Hrest; naive_solver. }
  assert (Permutation (locs (node d c' (node d c a x b) y e)) (locs (node d c a x (node d c' b y e)))) as Hp.
  { rewrite !locs_node. destruct d; by rewrite <-?app_assoc. }
  split; [done|]. rewrite Hp. split; [done|]. intros l Hl. apply N3. by rewrite <-Hp.
Qed.
End updates.

(** ** Reading around the focus, and updates that keep the order *)

(** The heap holds [t], whose locations in order are [L]. *)
Definition shows (L : list loc) (s : rb_tree) (t : tree) : Prop := represents s t ∧ locs t = L.

Definition ccolor (C : list frame) : color := match C with [] => RB_BLACK | (_, c, _, _) :: _ => c end.

Section focus.
Implicit Types (t a b : tree) (C : list frame) (s : rb_tree) (l x y : loc) (p q : ptr) (L : list loc).

Lemma focus_cell s d C c a x b :
  represents s (plug C (node d c a x b)) → nodes s !! x = Some (cell (cparent C) c d (root_ptr a) (root_ptr b)).
Proof. rewrite represents_plug, rep_node. naive_solver. Qed.

Lemma focus_get s d C c a x b :
  represents s (plug C (node d c a x b)) → rb_get s (Addr x) = Ret (cell (cparent C) c d (root_ptr a) (root_ptr b)).
Proof. intros H. by apply rb_get_ok, focus_cell. Qed.

Lemma focus_child s d C c a x b :
  represents s (plug C (node d c a x b)) → get_child s (Addr x) d = Ret (root_ptr a).
Proof. intros H. by rewrite (get_child_ok _ _ _ _ (focus_cell _ _ _ _ _ _ _ H)), child_cell. Qed.

Lemma focus_child_opp s d C c a x b :
  represents s (plug C (node d c a x b)) → get_child s (Addr x) (opp d) = Ret (root_ptr b).
Proof. intros H. by rewrite (get_child_ok _ _ _ _ (focus_cell _ _ _ _ _ _ _ H)), child_opp_cell. Qed.

Lemma is_red_sub s C t :
  represents s (plug C t) → is_red s (root_ptr t) = Ret (bool_decide (tcolor t = RB_RED)).
Proof.
  intros H. destruct t as [|c a x b]; [done|]. unfold is_red. cbn [root_ptr truth mbind outcome_bind].
  by rewrite (focus_get s Lft C c a x b H).
Qed.

Lemma is_black_sub s C t :
  represents s (plug C t) → is_black s (root_ptr t) = Ret (bool_decide (tcolor t = RB_BLACK)).
Proof. intros H. unfold is_black. rewrite (is_red_sub _ _ _ H). cbn. by destruct (tcolor t). Qed.

Lemma is_red_parent s C t :
  represents s (plug C t) → is_red s (cparent C) = Ret (bool_decide (ccolor C = RB_RED)).
Proof.
  intros H. destruct C as [|[[[d c] x] b] C]; [done|]. unfold is_red. cbn [cparent truth mbind outcome_bind].
  rewrite (focus_get s d C c t x b H). cbn [mbind outcome_bind]. by rewrite color_cell.
Qed.

Lemma locs_plug_eq C t t' : locs t = locs t' → locs (plug C t) = locs (plug C t').
Proof. intros E. by rewrite !locs_plug, E. Qed.

Lemma locs_rotate d c c' a x b y e :
  locs (node d c' (node d c a x b) y e) = locs (node d c a x (node d c' b y e)).
Proof. rewrite !locs_node. destruct d; by rewrite <-?app_assoc. Qed.

Lemma set_color_shows L s d C c a x b c' :
  shows L s (plug C (node d c a x b)) →
  returns (rb_set_color s (Addr x) c') (λ s', shows L s' (plug C (node d c' a x b)) ∧ only L s s').
Proof.
  intros [H <-]. eapply returns_mono; [by apply set_color_spec|]. intros s' [H' Ho].
  split; [|done]. split; [done|]. apply locs_plug_eq. by rewrite !locs_node.
Qed.

Lemma rotate_shows L s d C c a x c' b y e :
  shows L s (plug C (node d c a x (node d c' b y e))) →
  returns (rotate d s (Addr x)) (λ s', shows L s' (plug C (node d c' (node d c a x b) y e)) ∧ only L s s').
Proof.
  intros [H <-]. eapply returns_mono; [by apply rotate_spec|]. intros s' [H' Ho].
  split; [|done]. split; [done|]. apply locs_plug_eq, locs_rotate.
Qed.

(** The locations of a represented tree are cells of the heap. *)
Lemma rep_dom h par t l : rep h par t → l ∈ locs t → l ∈ dom h.
Proof.
  revert par. induction t as [|c a IHa x b IHb]; intros par; simpl; [set_solver|].
  intros (Hx & Ha & Hb) Hl. apply elem_of_app in Hl as [Hl|[->|Hl]%elem_of_cons];
    [by eapply IHa|by eapply elem_of_dom_2|by eapply IHb].
Qed.

Lemma represents_size s t : represents s t → (length (locs t) ≤ size (nodes s))%nat.
Proof.
  intros (_ & Hr & Hnd). rewrite <-(size_list_to_set (C:=gset loc)) by done. rewrite <-size_dom.
  apply subseteq_size. intros l Hl. apply elem_of_list_to_set in Hl. by eapply rep_dom.
Qed.

Lemma length_ctx C t : (length C + length (locs t) ≤ length (locs (plug C t)))%nat.
Proof.
  revert t. induction C as [|[[[d c] x] b] C IH]; intros t; simpl; [lia|].
  specialize (IH (node d c t x b)). rewrite locs_node in IH.
  destruct d; rewrite length_app, length_cons in IH; lia.
Qed.
End focus.

(** ** The red-black invariant *)

(** [t] has no red node with a red child, and [n] black nodes on every path. *)
Fixpoint is_rb (t : tree) (n : nat) : Prop :=
  match t with
  | E => n = O
  | T RB_RED a _ b => tcolor a = RB_BLACK ∧ tcolor b = RB_BLACK ∧ is_rb a n ∧ is_rb b n
  | T RB_BLACK a _ b => match n with O => False | S m => is_rb a m ∧ is_rb b m end
  end.

Definition valid (t : tree) : Prop := tcolor t = RB_BLACK ∧ ∃ n, is_rb t n.

(** A path whose hole takes a tree of black height [n]. *)
Fixpoint ctx_rb (C : list frame) (n : nat) : Prop :=
  match C with
  | [] => True
  | (_, RB_RED, _, b) :: C => tcolor b = RB_BLACK ∧ is_rb b n ∧ C ≠ [] ∧ ccolor C = RB_BLACK ∧ ctx_rb C n
  | (_, RB_BLACK, _, b) :: C => is_rb b n ∧ ctx_rb C (S n)
  end.

(** What the hole of [C] asks of the colour of its tree. *)
Definition fits (C : list frame) (t : tree) : Prop := C = [] ∨ ccolor C = RB_RED → tcolor t = RB_BLACK.

Section invariant.
Implicit Types (t a b : tree) (C : list frame) (n : nat).

Lemma is_rb_red d a x b n :
  is_rb (node d RB_RED a x b) n ↔ tcolor a = RB_BLACK ∧ tcolor b = RB_BLACK ∧ is_rb a n ∧ is_rb b n.
Proof. destruct d; simpl; tauto. Qed.

Lemma is_rb_black d a x b n :
  is_rb (node d RB_BLACK a x b) n ↔ ∃ m, n = S m ∧ is_rb a m ∧ is_rb b m.
Proof. destruct d, n; simpl; naive_solver. Qed.

Lemma tcolor_node d c a x b : tcolor (node d c a x b) = c.
Proof. by destruct d. Qed.

Lemma plug_valid C t n : ctx_rb C n → is_rb t n → fits C t → valid (plug C t).
Proof.
  revert t n. induction C as [|[[[d c] x] b] C IH]; intros t n HC Ht Hf; simpl.
  - split; [apply Hf; by left|by exists n].
  - destruct c; simpl in HC.
    + destruct HC as (Hb & Hbn & HC0 & Hcc & HC). apply (IH _ n); [done| |].
      * apply is_rb_red. split; [apply Hf; by right|done].
      * intros [?|?]; congruence.
    + destruct HC as [Hb HC]. apply (IH _ (S n)); [done| |].
      * apply is_rb_black. by exists n.
      * intros _. apply tcolor_node.
Qed.

Lemma valid_plug C t : valid (plug C t) → ∃ n, ctx_rb C n ∧ is_rb t n ∧ fits C t.
Proof.
  revert t. induction C as [|[[[d c] x] b] C IH]; intros t; simpl.
  - intros [Hc [n Hn]]. exists n. split; [done|]. split; [done|]. by intros _.
  - intros (n & HC & Ht & Hf)%IH. destruct c.
    + apply is_rb_red in Ht as (Ha & Hb & Han & Hbn). unfold fits in Hf. rewrite tcolor_node in Hf.
      exists n. split; [|split; [done|by unfold fits]]. split; [done|]. split; [done|].
      split; [naive_solver|]. split; [|done]. destruct (ccolor C); naive_solver.
    + apply is_rb_black in Ht as (m & -> & Ha & Hb). exists m. split; [done|]. split; [done|].
      by intros [|].
Qed.

(** The height of a red-black tree is logarithmic. *)
Fixpoint height t : nat := match t with E => O | T _ a _ b => S (Nat.max (height a) (height b)) end.

Lemma rb_height t n :
  is_rb t n → (2 ^ n ≤ S (length (locs t)))%nat ∧ (height t ≤ 2 * n + if decide (tcolor t = RB_RED) then 1 else 0)%nat.
Proof.
  revert n. induction t as [|c a IHa x b IHb]; intros n; cbn [is_rb].
  { intros ->. simpl. split; lia. }
  cbn [locs height tcolor]. rewrite length_app, length_cons. destruct c.
  - intros (Hca & Hcb & Ha & Hb). destruct (IHa n Ha) as [A1 A2], (IHb n Hb) as [B1 B2].
    rewrite Hca in A2. rewrite Hcb in B2. simpl in A2, B2 |- *. split; lia.
  - destruct n as [|n]; [done|]. intros (Ha & Hb). destruct (IHa n Ha) as [A1 A2], (IHb n Hb) as [B1 B2].
    simpl Nat.pow. split; [lia|]. repeat case_decide; lia.
Qed.

Lemma valid_height t : valid t → (height t ≤ 2 * Nat.log2 (S (length (locs t))))%nat.
Proof.
  intros [Hc [n Hn]]. destruct (rb_height t n Hn) as [H1 H2]. rewrite Hc in H2. simpl in H2.
  assert (n ≤ Nat.log2 (S (length (locs t))))%nat; [|lia].
  apply Nat.log2_le_pow2; lia.
Qed.

Lemma height_locs t : (height t ≤ length (locs t))%nat.
Proof. induction t; simpl; [lia|]. rewrite length_app, length_cons. lia. Qed.
End invariant.
