(* ===== verification/RbInsert.v ===== *)
(** * Insertion into a red-black tree and the walk over it

    [rb_link_node] with [rb_insert_color], and [rb_first], [rb_last], [rb_next]
    and [rb_prev], on the trees of [RbTree.v]. *)

From S2P Require Import Prelude RbTree.

(** ** Insertion *)
Section insertion.
Implicit Types (t a b : tree) (C : list frame) (s : rb_tree) (l x y : loc) (L : list loc).


Lemma insert_fix_red L s d d1 C g p u ua ub t pb node_ :
  shows L s (plug C (node d RB_BLACK (node d1 RB_RED t p pb) g (T RB_RED ua u ub))) →
  returns (insert_fix d s node_ (Addr p) (Addr g)) (λ '(node', s'),
    node' = Addr g ∧ only L s s' ∧
    shows L s' (plug C (node d RB_RED (node d1 RB_BLACK t p pb) g (T RB_BLACK ua u ub)))).
Proof.
  intros H. unfold insert_fix. rewrite (focus_child_opp _ _ _ _ _ _ _ (proj1 H)). cbn [mbind outcome_bind].
  rewrite <-node_opp in H. rewrite (is_red_sub s ((opp d, RB_BLACK, g, node d1 RB_RED t p pb) :: C) _ (proj1 H)).
  cbn [mbind outcome_bind]. rewrite bool_decide_eq_true_2 by done. cbn [root_ptr]. 
  run (set_color_shows L s Lft ((opp d, RB_BLACK, g, node d1 RB_RED t p pb) :: C) RB_RED ua u ub RB_BLACK H).
  cbv beta. intros s1 [H1 O1]. simpl plug in H1. rewrite node_opp in H1.
  run (set_color_shows L s1 d1 ((d, RB_BLACK, g, T RB_BLACK ua u ub) :: C) RB_RED t p pb RB_BLACK H1).
  intros s2 [H2 O2]. run (set_color_shows L s2 d C RB_BLACK _ g _ RB_RED H2). intros s3 [H3 O3].
  cbn [returns]. split; [done|]. split; [|done]. eauto using only_trans.
Qed.

(** The last rotation, of the grandparent [g] of a red [x] below a red [p]. *)
Lemma insert_rotate L s d C g p u t pb (node_ : ptr) :
  shows L s (plug C (node d RB_BLACK (node d RB_RED t p pb) g u)) →
  returns (let! s := rb_set_black s (Addr p) in let! s := rb_set_red s (Addr g) in
           let! s := rotate (opp d) s (Addr g) in Ret (node_, s))
    (λ r : ptr * rb_tree, let '(node', s') := r in node' = node_ ∧ only L s s' ∧ shows L s' (plug C (node d RB_BLACK t p (node d RB_RED pb g u)))).
Proof.
  intros H. run (set_color_shows L s d ((d, RB_BLACK, g, u) :: C) RB_RED t p pb RB_BLACK H). intros s1 [H1 O1].
  run (set_color_shows L s1 d C RB_BLACK (node d RB_BLACK t p pb) g u RB_RED H1). intros s2 [H2 O2].
  rewrite <-(node_opp d RB_RED), <-(node_opp d RB_BLACK) in H2.
  run (rotate_shows L s2 (opp d) C _ _ _ _ _ _ _ H2). intros s3 [H3 O3].
  rewrite !node_opp in H3. cbn [returns]. split; [done|]. split; [|done]. eauto using only_trans.
Qed.

(** A node seen from either side. *)
Lemma node_T d c a x b : ∃ a' b', T c a x b = node d c a' x b' ∧ ∀ P : tree → Prop, P a → P b → P a' ∧ P b'.
Proof. destruct d; [exists a, b|exists b, a]; (split; [done|tauto]). Qed.

(** The locations below a child of the focus. *)
Lemma sibling_ne s C d c t x b y : represents s (plug C (node d c t x b)) → y ∈ locs t → root_ptr b ≠ Addr y ∧ x ≠ y.
Proof.
  rewrite represents_plug. intros (_ & _ & _ & _ & Hnd & _) Hy.
  apply nodup_node in Hnd as (Hx & _ & _ & _ & Hdis). split; [|by intros ->].
  intros Eb. destruct b as [|cb ba z bb]; [done|]. injection Eb as ->. apply (Hdis y Hy). simpl. set_solver.
Qed.

(** Black uncle: the subtree comes back with a black root. *)
Lemma insert_fix_black L s d d1 C g p u a x b pb :
  tcolor u = RB_BLACK →
  shows L s (plug C (node d RB_BLACK (node d1 RB_RED (T RB_RED a x b) p pb) g u)) →
  returns (insert_fix d s (Addr x) (Addr p) (Addr g)) (λ '(node', s'), only L s s' ∧ ∃ a' z b' y c',
    node' = Addr z ∧ shows L s' (plug C (node d RB_BLACK (node d RB_RED a' z b') y (node d RB_RED c' g u))) ∧
    ∀ P : tree → Prop, P a → P b → P pb → P a' ∧ P b' ∧ P c').
Proof.
  intros Hu H. unfold insert_fix. rewrite (focus_child_opp _ _ _ _ _ _ _ (proj1 H)). cbn [mbind outcome_bind].
  pose proof H as Hn. rewrite <-node_opp in Hn.
  rewrite (is_red_sub s ((opp d, RB_BLACK, g, node d1 RB_RED (T RB_RED a x b) p pb) :: C) _ (proj1 Hn)).
  cbn [mbind outcome_bind]. rewrite bool_decide_eq_false_2 by (by rewrite Hu).
  pose proof (sibling_ne s ((d, RB_BLACK, g, u) :: C) d1 _ _ _ _ x (proj1 H) ltac:(simpl; set_solver)) as [Hpb Hpx].
  destruct (node_T d RB_RED a x b) as (a' & b' & E & HP).
  destruct (decide (d1 = d)) as [->|Hd].
  - rewrite (focus_child_opp s d ((d, RB_BLACK, g, u) :: C) _ _ _ _ (proj1 H)). cbn [mbind outcome_bind].
    rewrite bool_decide_eq_false_2 by done. cbn [mbind outcome_bind].
    eapply returns_mono; [by apply insert_rotate|]. intros [node' s'] (-> & Ho & Hs). split; [done|].
    exists a', x, b', p, pb. rewrite <-E. naive_solver.
  - assert (d1 = opp d) as -> by (by destruct d1, d). rewrite node_opp in H, Hn.
    rewrite (focus_child_opp s d ((d, RB_BLACK, g, u) :: C) _ _ _ _ (proj1 H)). cbn [mbind outcome_bind root_ptr].
    rewrite bool_decide_eq_true_2 by done. rewrite E in H.
    apply returns_bind. run (rotate_shows L s d ((d, RB_BLACK, g, u) :: C) _ _ _ _ _ _ _ H).
    intros s1 [H1 O1]. cbn [returns]. eapply returns_mono; [by apply insert_rotate|].
    intros [node' s'] (-> & Ho & Hs). split; [by eapply only_trans|].
    exists pb, p, a', x, b'. naive_solver.
Qed.

(** A step below a red parent. *)
Lemma insert_step_red L s d1 p pb d g u C a x b :
  shows L s (plug C (node d RB_BLACK (node d1 RB_RED (T RB_RED a x b) p pb) g u)) →
  insert_step (Addr x, s) = insert_fix d s (Addr x) (Addr p) (Addr g) ≫= λ st, Ret (inl st).
Proof.
  intros [H _]. unfold insert_step.
  rewrite (focus_get s Lft ((d1, RB_RED, p, pb) :: (d, RB_BLACK, g, u) :: C) _ _ _ _ H). cbn [mbind outcome_bind].
  rewrite parent_cell, (is_red_parent _ ((d1, RB_RED, p, pb) :: (d, RB_BLACK, g, u) :: C) _ H). cbn [mbind outcome_bind].
  rewrite bool_decide_eq_true_2 by done. cbn [cparent].
  rewrite (focus_get s d1 ((d, RB_BLACK, g, u) :: C) _ _ _ _ H). cbn [mbind outcome_bind].
  rewrite parent_cell. cbn [cparent].
  assert (root_ptr u ≠ Addr p) as Hup.
  { apply (sibling_ne s C d _ _ _ _ p H). rewrite elem_of_node. auto. }
  destruct d.
  - rewrite (focus_child s Lft C _ _ _ _ H), root_node. cbn [mbind outcome_bind]. by rewrite bool_decide_eq_true_2.
  - pose proof (focus_child_opp s Rgt C _ _ _ _ H) as Eg. cbn [opp] in Eg. rewrite Eg. cbn [mbind outcome_bind]. by rewrite bool_decide_eq_false_2.
Qed.

(** The last step: the root is blackened. *)
Lemma insert_step_black L s C a x b n :
  shows L s (plug C (T RB_RED a x b)) → is_rb (T RB_RED a x b) n → ctx_rb C n → ccolor C = RB_BLACK →
  returns (insert_step (Addr x, s)) (λ r, ∃ s' t', r = inr s' ∧ only L s s' ∧ shows L s' t' ∧ valid t').
Proof.
  intros H Hrb HC Hcc. unfold insert_step. rewrite (focus_get s Lft C _ _ _ _ (proj1 H)). cbn [mbind outcome_bind].
  rewrite parent_cell, (is_red_parent _ _ _ (proj1 H)), Hcc. cbn [mbind outcome_bind].
  rewrite bool_decide_eq_false_2 by done.
  assert (∃ c lt y rt m, plug C (T RB_RED a x b) = T c lt y rt ∧ is_rb (T RB_BLACK lt y rt) m) as (c & lt & y & rt & m & E & Hm).
  { destruct C as [|F C]; [exists RB_RED, a, x, b, (S n); split; [done|]; simpl in Hrb; simpl; tauto|].
    destruct (plug_valid (F :: C) _ n HC Hrb) as [Hb [m Hm]]; [intros [|]; congruence|].
    destruct (plug (F :: C) (T RB_RED a x b)) as [|c lt y rt] eqn:E.
    - pose proof (length_ctx (F :: C) (T RB_RED a x b)) as Hl. rewrite E in Hl. simpl in Hl. lia.
    - simpl in Hb. subst c. by exists RB_BLACK, lt, y, rt, m. }
  rewrite E in H. pose proof (proj1 (proj1 H)) as ->. cbn [root_ptr].
  run (set_color_shows L s Lft [] c lt y rt RB_BLACK H). intros s' [H' Ho]. cbn [returns].
  exists s', (T RB_BLACK lt y rt). split; [done|]. split; [done|]. split; [done|]. split; [done|by exists m].
Qed.

Lemma insert_loop fuel C a x b n s L :
  shows L s (plug C (T RB_RED a x b)) → is_rb (T RB_RED a x b) n → ctx_rb C n → (length C < fuel)%nat →
  returns (loop fuel insert_step (Addr x, s)) (λ s', only L s s' ∧ ∃ t', shows L s' t' ∧ valid t').
Proof.
  revert C a x b n s. induction fuel as [|fuel IH]; intros C a x b n s H Hrb HC Hf; [lia|]. rewrite loop_S.
  destruct (decide (ccolor C = RB_RED)) as [Hcc|Hcc].
  2: { assert (ccolor C = RB_BLACK) as Hb by (by destruct (ccolor C)). run (insert_step_black L s C a x b n); [done..|].
       intros r (s' & t' & -> & Ho & Hs & Hv). cbn [returns]. eauto. }
  destruct C as [|[[[d1 c1] p] pb] C]; [done|]. simpl in Hcc. subst c1. simpl in HC.
  destruct HC as (Hpb & Hpbn & HC0 & Hcc & HC). destruct C as [|[[[d c2] g] u] C]; [done|].
  simpl in Hcc. subst c2. simpl in HC, Hf. destruct HC as [Hu HC]. pose proof Hrb as (Ha & Hb & Han & Hbn).
  rewrite (insert_step_red L s d1 p pb d g u C a x b H).
  assert (∀ C' a' z b' m s1, only L s s1 → shows L s1 (plug C' (T RB_RED a' z b')) → is_rb (T RB_RED a' z b') m →
    ctx_rb C' m → (length C' < fuel)%nat →
    returns (loop fuel insert_step (Addr z, s1)) (λ s', only L s s' ∧ ∃ t', shows L s' t' ∧ valid t')) as Hgo.
  { intros C' a' z b' m s1 O1 H1 R1 C1 F1. eapply returns_mono; [by eapply IH|].
    intros s2 (O2 & Ht). split; [by eapply only_trans|done]. }
  destruct u as [|[] ua ux ub].
  2: { apply returns_bind. run (insert_fix_red _ _ _ _ _ _ _ _ _ _ _ _ (Addr x) H). intros [node' s1] (-> & O1 & H1). cbn [returns].
    assert (is_rb (node d RB_RED (node d1 RB_BLACK (T RB_RED a x b) p pb) g (T RB_BLACK ua ux ub)) (S n)) as HR.
    { destruct Hu as (Hua & Hub & Huan & Hubn). apply is_rb_red. rewrite tcolor_node. split; [done|]. split; [done|].
      split; [|done]. apply is_rb_black. by exists n. }
    unfold node at 1 in HR. unfold node at 1 in H1. destruct d; (eapply Hgo; [done|exact H1|exact HR|done|lia]). }
  all: (apply returns_bind, returns_bind; eapply returns_mono; [eapply (insert_fix_black L s d d1); [|exact H]; done|]);
    intros [node' s1] (O1 & a' & z & b' & y & c' & -> & H1 & HP); cbn [returns];
    (destruct (HP (λ t, tcolor t = RB_BLACK ∧ is_rb t n)) as (Pa & Pb & Pc); [done..|]);
    destruct d; (eapply (Hgo ((_, RB_BLACK, y, node _ RB_RED c' g _) :: C)); [done|exact H1|simpl; naive_solver|simpl in *; naive_solver|simpl; lia]).
Qed.
End insertion.

Section linking.
Implicit Types (t a b : tree) (C : list frame) (s : rb_tree) (x : loc).

(** The side of the hole below its parent. *)
Definition hole_side (C : list frame) (d : side) : Prop :=
  match C with [] => True | (d', _, _, _) :: _ => d' = d end.

Lemma link_node_spec s C x d :
  represents s (plug C E) → x ∉ locs (plug C E) → hole_side C d →
  returns (rb_link_node s x (cparent C) d) (λ s',
    shows (before C ++ x :: after C) s' (plug C (T RB_RED E x E)) ∧ only (before C ++ x :: after C) s s').
Proof.
  intros H Hx Hd. apply represents_plug in H as (Hr & HC & _ & Hnd & _).
  rewrite elem_of_plug in Hx. assert (x ∉ clocs C) as Hxc by tauto.
  assert (∀ s', root s' = root_ptr (plug C (T RB_RED E x E)) → rep_ctx (nodes s') C (Addr x) →
    nodes s' !! x = Some (RbNode (cparent C) RB_RED Null Null) → shows (before C ++ x :: after C) s' (plug C (T RB_RED E x E))) as Hdone.
  { intros s' R1 R2 R3. split; [|by rewrite locs_plug]. apply represents_plug. split; [done|]. split; [done|].
    split; [done|]. split; [done|]. split; [apply NoDup_singleton|]. simpl. set_solver. }
  unfold rb_link_node. destruct C as [|[[[d' c] z] b] C]; cbn [cparent].
  - cbn [returns root nodes]. split; [apply Hdone; cbn [root nodes]; [done|done|by rewrite lookup_insert_eq]|].
    apply only_insert. simpl. set_solver.
  - simpl in Hd. subst d'. pose proof HC as (Hz & Hb & HC'). rewrite clocs_cons in Hxc.
    assert (rep_ctx (<[x := RbNode (Addr z) RB_RED Null Null]> (nodes s)) ((d, c, z, b) :: C) (root_ptr E)) as HC1.
    { eapply rep_ctx_agree; [|exact HC]. intros l Hl. apply lookup_insert_ne. intros ->. rewrite clocs_cons in Hl. tauto. }
    pose proof HC1 as (Hz1 & _). rewrite (set_child_ok (RbTree _ _) _ _ _ _ _ _ _ Hz1). cbn [returns root nodes].
    pose proof Hnd as Hnd'. apply nodup_clocs in Hnd' as (N1 & N2 & N3 & N4 & N5). split.
    + apply Hdone; cbn [root nodes].
      * rewrite Hr. by apply root_plug_ne.
      * simpl. split; [by rewrite lookup_insert_eq|]. destruct HC1 as (_ & Hb1 & HC1).
        split; [eapply rep_agree; [|exact Hb1]|eapply rep_ctx_agree; [|exact HC1]]; intros l Hl; apply lookup_insert_ne; set_solver.
      * rewrite lookup_insert_ne by naive_solver. by rewrite lookup_insert_eq.
    + intros l Hl. cbn [nodes]. rewrite !lookup_insert_ne; [done|set_solver|].
      intros ->. apply Hl. pose proof (proj2 (clocs_cons d c l b C l) (or_introl eq_refl)) as Hin. unfold clocs in Hin. set_solver.
Qed.
End linking.

(** ** Walking *)
Definition head_ptr (l : list loc) : ptr := match l with [] => Null | x :: _ => Addr x end.

(** A list as met from side [d]. *)
Definition ord (d : side) (l : list loc) : list loc := match d with Lft => l | Rgt => reverse l end.

(** What follows the hole of [C], coming from side [d]. *)
Fixpoint nexts (d : side) (C : list frame) : list loc :=
  match C with
  | [] => []
  | (d', c, y, b) :: C => (if decide (d' = d) then y :: ord d (locs b) else []) ++ nexts d C
  end.

Section walking.
Implicit Types (t a b : tree) (C : list frame) (s : rb_tree) (x y : loc).

Lemma ord_node d c a x b : ord d (locs (node d c a x b)) = ord d (locs a) ++ x :: ord d (locs b).
Proof. rewrite locs_node. destruct d; [done|]. simpl. by rewrite reverse_app, reverse_cons, <-app_assoc. Qed.

Lemma ord_after d C : nexts d C = ord d (match d with Lft => after C | Rgt => before C end).
Proof.
  induction C as [|[[[d' c] y] b] C IH]; simpl; [by destruct d|]. rewrite IH. destruct d, d'; simpl; try done.
  - by rewrite app_nil_r.
  - by rewrite !reverse_app, reverse_singleton.
Qed.

Lemma head_ptr_app l1 l2 : l1 ≠ [] → head_ptr (l1 ++ l2) = head_ptr l1.
Proof. by destruct l1. Qed.

Lemma ord_nil d l : ord d l = [] → l = [].
Proof. destruct d; [done|]. simpl. intros H. by rewrite <-(reverse_involutive l), H. Qed.

Lemma descend_side_loop s d fuel C c a x b :
  represents s (plug C (node d c a x b)) → (length (locs a) < fuel)%nat →
  loop fuel (λ node, let! next := get_child s node d in let! more := truth next in
    Ret (if more : bool then inl next else inr node)) (Addr x) = Ret (head_ptr (ord d (locs (node d c a x b)))).
Proof.
  revert C c a x b. induction fuel as [|fuel IH]; intros C c a x b H Hf; [lia|].
  rewrite loop_S, (focus_child _ _ _ _ _ _ _ H). cbn [mbind outcome_bind]. rewrite ord_node.
  destruct a as [|ca al y ar].
  - cbn. by destruct d.
  - destruct (node_T d ca al y ar) as (al' & ar' & E & _).
    assert (ord d (locs (T ca al y ar)) ≠ []) as Hne.
    { intros Ho%ord_nil. simpl in Ho. by destruct (locs al). }
    rewrite head_ptr_app by done. rewrite E in H, Hf |- *.
    rewrite root_node. cbn [truth mbind outcome_bind].
    apply (IH ((d, c, x, b) :: C) ca al' y ar' H).
    rewrite locs_node in Hf. destruct d; rewrite length_app, length_cons in Hf; lia.
Qed.

Lemma descend_side_spec s d C t :
  represents s (plug C t) → t ≠ E → descend_side d s (root_ptr t) = Ret (head_ptr (ord d (locs t))).
Proof.
  intros H Ht. destruct t as [|c a x b]; [done|]. destruct (node_T d c a x b) as (a' & b' & E & _).
  rewrite E in H |- *. rewrite root_node. eapply descend_side_loop; [exact H|].
  apply represents_size in H. pose proof (length_ctx C (node d c a' x b')) as Hl. rewrite locs_node in Hl.
  destruct d; rewrite length_app, length_cons in Hl; lia.
Qed.

Lemma rb_end_spec s d t : represents s t → rb_end d s = Ret (head_ptr (ord d (locs t))).
Proof.
  intros H. unfold rb_end. rewrite (proj1 H). destruct t as [|c a x b]; [by destruct d|].
  cbn [root_ptr truth mbind outcome_bind]. by apply (descend_side_spec s d [] (T c a x b)).
Qed.

Lemma climb_spec s o fuel C c a x b :
  represents s (plug C (T c a x b)) → (length C < fuel)%nat →
  loop fuel (λ node, let! n := rb_get s node in let! more := truth (rb_parent n) in
    if more : bool then
      let! pc := get_child s (rb_parent n) (opp o) in
      Ret (if bool_decide (node = pc) then inl (rb_parent n) else inr (rb_parent n))
    else Ret (inr Null)) (Addr x) = Ret (head_ptr (nexts o C)).
Proof.
  revert C c a x b. induction fuel as [|fuel IH]; intros C c a x b H Hf; [lia|].
  rewrite loop_S, (focus_get s Lft C _ _ _ _ H). cbn [mbind outcome_bind]. rewrite parent_cell.
  destruct C as [|[[[d' c'] y] b'] C]; [done|]. cbn [cparent truth mbind outcome_bind nexts].
  case_decide as Hd.
  - subst d'. rewrite (focus_child_opp s o C c' _ _ _ H). cbn [mbind outcome_bind].
    rewrite bool_decide_eq_false_2; [done|]. intros E. symmetry in E. revert E.
    apply (sibling_ne s C o c' _ y _ x H). simpl. set_solver.
  - assert (d' = opp o) as -> by (by destruct d', o). rewrite (focus_child s (opp o) C c' _ _ _ H).
    cbn [mbind outcome_bind root_ptr app]. rewrite bool_decide_eq_true_2 by done.
    destruct o; simpl plug in H; (eapply IH; [exact H|simpl in Hf; lia]).
Qed.

Lemma rb_adjacent_spec s o C c a x b :
  represents s (plug C (node o c a x b)) →
  rb_adjacent (opp o) s (Addr x) = Ret (head_ptr (ord o (locs b) ++ nexts o C)).
Proof.
  intros H. unfold rb_adjacent. rewrite (focus_get _ _ _ _ _ _ _ H). cbn [mbind outcome_bind].
  rewrite parent_cell, child_opp_cell, opp_opp.
  rewrite bool_decide_eq_false_2.
  2: { apply represents_plug in H as (_ & _ & _ & _ & _ & Hdis).
       destruct C as [|[[[d' c'] y] b'] C]; [done|]. intros [= ->]. apply (Hdis x); [apply elem_of_node; auto|].
       apply clocs_cons. auto. }
  destruct b as [|cb bl y br].
  - cbn [root_ptr truth mbind outcome_bind]. replace (ord o (locs E)) with (@nil loc) by (by destruct o).
    assert ((length C < S (size (nodes s)))%nat) as Hl.
    { apply represents_size in H. pose proof (length_ctx C (node o c a x E)). lia. }
    destruct o; simpl plug in H; by eapply climb_spec.
  - cbn [root_ptr truth mbind outcome_bind].
    rewrite head_ptr_app by (intros Ho%ord_nil; simpl in Ho; by destruct (locs bl)).
    rewrite <-node_opp in H. by apply (descend_side_spec s o ((opp o, c, x, a) :: C) (T cb bl y br)).
Qed.

Lemma locate t x : x ∈ locs t → ∃ C c a b, t = plug C (T c a x b).
Proof.
  assert (∀ C0, x ∈ locs t → ∃ C c a b, plug C0 t = plug C (T c a x b)) as Hg; [|apply (Hg [])].
  induction t as [|c a IHa y b IHb]; intros C0 Hx; simpl in Hx; [by apply elem_of_nil in Hx|].
  apply elem_of_app in Hx as [Hx|[->|Hx]%elem_of_cons].
  - apply (IHa ((Lft, c, y, b) :: C0) Hx).
  - by exists C0, c, a, b.
  - apply (IHb ((Rgt, c, y, a) :: C0) Hx).
Qed.

Lemma split_unique (l1 l2 l1' l2' : list loc) x :
  l1 ++ x :: l2 = l1' ++ x :: l2' → NoDup (l1 ++ x :: l2) → l1 = l1' ∧ l2 = l2'.
Proof.
  revert l1'. induction l1 as [|y l1 IH]; intros l1' E Hnd.
  - destruct l1' as [|z l1']; [by injection E|]. simpl in E. injection E as <- E.
    simpl in Hnd. apply NoDup_cons in Hnd as [Hx _]. subst l2. set_solver.
  - simpl in E, Hnd. apply NoDup_cons in Hnd as [Hy Hnd]. destruct l1' as [|z l1']; simpl in E; injection E as -> E.
    + set_solver.
    + destruct (IH _ E Hnd) as [-> ->]. done.
Qed.
End walking.

(** ** Properties *)

Lemma rb_insert_ok s C x d :
  represents s (plug C E) → valid (plug C E) → x ∉ locs (plug C E) → hole_side C d →
  returns (let! s := rb_link_node s x (cparent C) d in rb_insert_color s (Addr x)) (λ s',
    ∃ t', represents s' t' ∧ valid t' ∧ locs t' = before C ++ x :: after C ∧
      ∀ l, l ∉ before C ++ x :: after C → nodes s' !! l = nodes s !! l).
Proof.
  intros H Hv Hx Hd. run (link_node_spec s C x d); [done..|]. intros s1 [H1 O1].
  destruct (valid_plug _ _ Hv) as (n & HC & HE & _). simpl in HE. subst n.
  unfold rb_insert_color. eapply returns_mono; [apply (insert_loop _ C E x E 0 s1 _ H1)|].
  - simpl. tauto.
  - done.
  - pose proof (represents_size _ _ (proj1 H1)). pose proof (length_ctx C (T RB_RED E x E)). lia.
  - intros s2 (O2 & t' & [Hr Hl] & Hv'). exists t'. split; [done|]. split; [done|]. split; [done|].
    by eapply only_trans.
Qed.

(** C9 Linking a new node at a hole of a red-black tree and calling
    [rb_insert_color] gives a red-black tree with the node at that place of the
    order, and writes no cell outside the tree. *)
Theorem rb_insert_correct s C x d :
  represents s (plug C E) → valid (plug C E) → x ∉ locs (plug C E) → hole_side C d →
  returns (let! s := rb_link_node s x (cparent C) d in rb_insert_color s (Addr x)) (λ s',
    ∃ t', represents s' t' ∧ valid t' ∧ locs t' = before C ++ x :: after C ∧
      ∀ l, l ∉ before C ++ x :: after C → nodes s' !! l = nodes s !! l).
Proof. apply rb_insert_ok. Qed.

Lemma rb_walk_ok s t :
  represents s t →
  rb_first s = Ret (head_ptr (locs t)) ∧ rb_last s = Ret (head_ptr (reverse (locs t))) ∧
  ∀ l1 x l2, locs t = l1 ++ x :: l2 →
    rb_next s (Addr x) = Ret (head_ptr l2) ∧ rb_prev s (Addr x) = Ret (head_ptr (reverse l1)).
Proof.
  intros H. split; [by apply (rb_end_spec s Lft)|]. split; [by apply (rb_end_spec s Rgt)|].
  intros l1 x l2 E. destruct (locate t x) as (C & c & a & b & ->); [rewrite E; set_solver|].
  pose proof H as (_ & _ & Hnd). rewrite locs_plug in E, Hnd. simpl in E, Hnd. rewrite <-app_assoc, app_assoc in E, Hnd. simpl in E, Hnd.
  destruct (split_unique _ _ _ _ _ E Hnd) as [<- <-]. split.
  - pose proof (rb_adjacent_spec s Lft C c a x b H) as Hn. rewrite ord_after in Hn. exact Hn.
  - pose proof (rb_adjacent_spec s Rgt C c b x a H) as Hn. rewrite ord_after in Hn. simpl in Hn.
    rewrite <-reverse_app in Hn. exact Hn.
Qed.

(** [rb_first] and [rb_last] return the ends of the order of a tree, and
    [rb_next] and [rb_prev] the neighbours of a node in it, null at the ends. *)
Lemma rb_walk_correct s t :
  represents s t →
  rb_first s = Ret (head_ptr (locs t)) ∧ rb_last s = Ret (head_ptr (reverse (locs t))) ∧
  ∀ l1 x l2, locs t = l1 ++ x :: l2 →
    rb_next s (Addr x) = Ret (head_ptr l2) ∧ rb_prev s (Addr x) = Ret (head_ptr (reverse l1)).
Proof. apply rb_walk_ok. Qed.

(** Two insertions: 2 below the black root 1, then 3 below 2, which rotates. *)
Definition sample : rb_tree :=
  RbTree (Addr 1) (<[1%positive := RbNode Null RB_BLACK (Addr 2) Null]> {[2%positive := RbNode (Addr 1) RB_RED Null Null]}).

Lemma rb_insert_correct_witness :
  returns (let! s := rb_link_node sample 3 (Addr 2) Rgt in rb_insert_color s (Addr 3)) (λ s',
    ∃ t', represents s' t' ∧ valid t' ∧ locs t' = [1; 2; 3]%positive ∧
      ∀ l, l ∉ [1; 2; 3]%positive → nodes s' !! l = nodes sample !! l).
Proof.
  refine (rb_insert_correct sample [(Rgt, RB_RED, 2%positive, E); (Rgt, RB_BLACK, 1%positive, E)] 3 Rgt _ _ _ _).
  - split; [done|]. split; [by vm_compute|]. apply (bool_decide_unpack _). by vm_compute.
  - split; [done|]. exists 1%nat. by vm_compute.
  - apply (bool_decide_unpack _). by vm_compute.
  - done.
Defined.

Lemma rb_walk_correct_witness :
  rb_first sample = Ret (Addr 1) ∧ rb_last sample = Ret (Addr 2) ∧
  ∀ l1 x l2, [1; 2]%positive = l1 ++ x :: l2 →
    rb_next sample (Addr x) = Ret (head_ptr l2) ∧ rb_prev sample (Addr x) = Ret (head_ptr (reverse l1)).
Proof.
  refine (rb_walk_correct sample (T RB_BLACK E 1 (T RB_RED E 2 E)) _).
  split; [done|]. split; [by vm_compute|]. apply (bool_decide_unpack _). by vm_compute.
Defined.
