(* ===== verification/RbErase.v ===== *)
(** * Deletion from a red-black tree: [rb_erase], [__rb_erase_color] and
    [rb_replace_node] on the trees of [RbTree.v]. *)

From S2P Require Import Prelude RbTree RbInsert.

(** ** The operations *)

(** The cases of the loop body of [__rb_erase_color] when [node] is the [d]
    child of [parent].  A red sibling: *)
Definition fix_red_sibling (d : side) (s : rb_tree) (parent : ptr) : outcome (ptr * rb_tree) :=
  let! other := get_child s parent (opp d) in
  let! on := rb_get s other in
  if bool_decide (rb_color on = RB_RED) then
    let! s := rb_set_black s other in
    let! s := rb_set_red s parent in
    let! s := rotate d s parent in
    let! other := get_child s parent (opp d) in
    Ret (other, s)
  else Ret (other, s).

(** Both children of the sibling black. *)
Definition both_black (s : rb_tree) (other : ptr) : outcome bool :=
  let! on := rb_get s other in
  let! lb := is_black s (rb_left on) in
  if lb : bool then is_black s (rb_right on) else Ret false.

(** The far child of the sibling black, so the near one is red. *)
Definition fix_near (d : side) (s : rb_tree) (parent other : ptr) : outcome (ptr * rb_tree) :=
  let! on := rb_get s other in
  let! ob := is_black s (child (opp d) on) in
  if ob : bool then
    let! s := rb_set_black s (child d on) in
    let! s := rb_set_red s other in
    let! s := rotate (opp d) s other in
    let! other := get_child s parent (opp d) in
    Ret (other, s)
  else Ret (other, s).

(** The far child of the sibling red. *)
Definition fix_far (d : side) (s : rb_tree) (parent other : ptr) : outcome rb_tree :=
  let! pn := rb_get s parent in
  let! s := rb_set_color s other (rb_color pn) in
  let! s := rb_set_black s parent in
  let! far := get_child s other (opp d) in
  let! s := rb_set_black s far in
  rotate d s parent.

(** [inl]: the loop goes on one level up. *)
Definition erase_fix (d : side) (s : rb_tree) (parent : ptr) : outcome (ptr * ptr * rb_tree + ptr * rb_tree) :=
  let! st := fix_red_sibling d s parent in
  let '(other, s) := st in
  let! bb := both_black s other in
  if bb : bool then
    let! s := rb_set_red s other in
    let! pn := rb_get s parent in
    Ret (inl (parent, rb_parent pn, s))
  else
    let! st := fix_near d s parent other in
    let '(other, s) := st in
    let! s := fix_far d s parent other in
    Ret (inr (root s, s)).

Definition erase_step (st : ptr * ptr * rb_tree) : outcome (ptr * ptr * rb_tree + ptr * rb_tree) :=
  let '(node, parent, s) := st in
  let! b := is_black s node in
  if b && bool_decide (node ≠ root s) then
    let! pl := get_child s parent Lft in
    erase_fix (if bool_decide (pl = node) then Lft else Rgt) s parent
  else Ret (inr (node, s)).

Definition __rb_erase_color (s : rb_tree) (node parent : ptr) : outcome rb_tree :=
  let! st := loop (S (size (nodes s))) erase_step (node, parent, s) in
  let '(node, s) := st in
  let! b := truth node in
  if b : bool then rb_set_black s node else Ret s.

(** [rb_erase] of a node [old] with two children: its successor [node], the
    least node of its right subtree, leaves its place to its child ... *)
Definition detach_min (s : rb_tree) (old node child_ parent : ptr) : outcome (ptr * rb_tree) :=
  if bool_decide (parent = old) then Ret (node, s)
  else
    let! s := reparent s child_ parent in
    let! s := set_child s parent Lft child_ in
    let! o := rb_get s old in
    let! s := set_child s node Rgt (rb_right o) in
    let! o := rb_get s old in
    let! s := rb_set_parent s (rb_right o) node in
    Ret (parent, s).

(** ... and takes the one of [old]. *)
Definition take_place (s : rb_tree) (old node : ptr) : outcome rb_tree :=
  let! o := rb_get s old in
  let! s := modify s node (λ n, with_color (rb_color o) (with_parent (rb_parent o) n)) in
  let! o := rb_get s old in
  let! s := set_child s node Lft (rb_left o) in
  let! o := rb_get s old in
  rb_set_parent s (rb_left o) node.

Definition splice (s : rb_tree) (old : ptr) : outcome (ptr * ptr * color * rb_tree) :=
  let! oldn := rb_get s old in
  let! node := descend_side Lft s (rb_right oldn) in
  let! s := replace_child Lft s (rb_parent oldn) old node in
  let! nn := rb_get s node in
  let! st := detach_min s old node (rb_right nn) (rb_parent nn) in
  let '(parent, s) := st in
  let! s := take_place s old node in
  Ret (rb_right nn, parent, rb_color nn, s).

Definition rb_erase (s : rb_tree) (node : ptr) : outcome rb_tree :=
  let! n := rb_get s node in
  let! l := truth (rb_left n) in
  let! r := truth (rb_right n) in
  let! st := (if l && r then splice s node
              else
                let child_ := if l then rb_left n else rb_right n in
                let! s := reparent s child_ (rb_parent n) in
                let! s := replace_child Lft s (rb_parent n) node child_ in
                Ret (child_, rb_parent n, rb_color n, s)) in
  let '(child_, parent, c, s) := st in
  if bool_decide (c = RB_BLACK) then __rb_erase_color s child_ parent else Ret s.

Definition rb_replace_node (s : rb_tree) (victim new : ptr) : outcome rb_tree :=
  let! v := rb_get s victim in
  let! s := replace_child Lft s (rb_parent v) victim new in
  let! v := rb_get s victim in
  let! s := reparent s (rb_left v) new in
  let! s := reparent s (rb_right v) new in
  let! v := rb_get s victim in
  modify s new (λ _, v).

(** ** Rebalancing *)

(** The tree [t] at a hole of black height [S n] lacks one black node, or is red
    and only has to be blackened. *)
Definition deficient (t : tree) (n : nat) : Prop :=
  match t with
  | T RB_RED a x b => is_rb (T RB_BLACK a x b) (S n)
  | _ => is_rb t n
  end.

Section rebalancing.
Implicit Types (t a b : tree) (C : list frame) (s : rb_tree) (l x y p o : loc) (L : list loc).

(** The sibling of a deficient tree is not empty. *)
Lemma sibling_node C d c p t n :
  ctx_rb ((d, c, p, t) :: C) (S n) → ∀ d', ∃ c' a o b, t = node d' c' a o b.
Proof.
  intros HC d'. destruct t as [|c' a o b]; [by destruct c; simpl in HC; naive_solver|].
  destruct (node_T d' c' a o b) as (a' & b' & E & _). eauto.
Qed.

Lemma fix_red_sibling_spec L s d C c t p b n :
  shows L s (plug C (node d c t p b)) → ctx_rb ((d, c, p, b) :: C) (S n) →
  returns (fix_red_sibling d s (Addr p)) (λ r : ptr * rb_tree, let '(other, s') := r in only L s s' ∧
    ∃ C' c' b1 o b2, other = Addr o ∧ shows L s' (plug C' (node d c' t p (node d RB_BLACK b1 o b2))) ∧
      ctx_rb ((d, c', p, node d RB_BLACK b1 o b2) :: C') (S n) ∧ (C' = C ∧ c' = c ∨ c' = RB_RED)).
Proof.
  intros H HC. unfold fix_red_sibling. destruct (sibling_node _ _ _ _ _ _ HC d) as (cb & b1 & o & b2 & ->).
  rewrite (focus_child_opp _ _ _ _ _ _ _ (proj1 H)), root_node. cbn [mbind outcome_bind].
  pose proof H as Hn. rewrite <-(node_opp d c) in Hn.
  rewrite (focus_get s d ((opp d, c, p, t) :: C) _ _ _ _ (proj1 Hn)). cbn [mbind outcome_bind]. rewrite color_cell.
  destruct cb; cbn [bool_decide]; [rewrite bool_decide_eq_true_2 by done|rewrite bool_decide_eq_false_2 by done].
  2: { cbn [returns]. split; [done|]. exists C, c, b1, o, b2. split; [done|]. split; [done|]. auto. }
  assert (c = RB_BLACK) as -> by (destruct c; [|done]; simpl in HC; rewrite tcolor_node in HC; naive_solver).
  simpl in HC. rewrite is_rb_red in HC. destruct HC as ((Hb1 & Hb2 & Hb1n & Hb2n) & HC).
  run (set_color_shows L s d ((opp d, RB_BLACK, p, t) :: C) RB_RED b1 o b2 RB_BLACK Hn). intros s1 [H1 O1].
  simpl plug in H1. rewrite node_opp in H1.
  run (set_color_shows L s1 d C RB_BLACK t p _ RB_RED H1). intros s2 [H2 O2].
  run (rotate_shows L s2 d C RB_RED t p RB_BLACK b1 o b2 H2). intros s3 [H3 O3].
  pose proof (focus_child_opp s3 d ((d, RB_BLACK, o, b2) :: C) _ _ _ _ (proj1 H3)) as ->. cbn [mbind outcome_bind returns].
  split; [eauto using only_trans|].
  assert (ctx_rb ((d, RB_RED, p, b1) :: (d, RB_BLACK, o, b2) :: C) (S n)) as HC'.
  { simpl. naive_solver. }
  destruct (sibling_node _ _ _ _ _ _ HC' d) as (cb & b11 & y & b12 & ->).
  rewrite tcolor_node in Hb1. subst cb. rewrite root_node.
  exists ((d, RB_BLACK, o, b2) :: C), RB_RED, b11, y, b12. split; [done|]. split; [done|]. auto.
Qed.

Lemma both_black_spec L s d C c b1 o b2 :
  shows L s (plug C (node d c b1 o b2)) →
  both_black s (Addr o) = Ret (bool_decide (tcolor b1 = RB_BLACK) && bool_decide (tcolor b2 = RB_BLACK)).
Proof.
  intros [H _]. unfold both_black. rewrite (focus_get _ _ _ _ _ _ _ H). cbn [mbind outcome_bind].
  assert (is_black s (root_ptr b1) = Ret (bool_decide (tcolor b1 = RB_BLACK))) as E1.
  { apply (is_black_sub s ((d, c, o, b2) :: C)). done. }
  assert (is_black s (root_ptr b2) = Ret (bool_decide (tcolor b2 = RB_BLACK))) as E2.
  { apply (is_black_sub s ((opp d, c, o, b1) :: C)). simpl. by rewrite node_opp. }
  destruct d; simpl rb_left; simpl rb_right; rewrite ?E1, ?E2; cbn [mbind outcome_bind];
    repeat case_bool_decide; cbn; done.
Qed.

Lemma fix_near_spec L s d C c t p b1 o b2 n :
  shows L s (plug C (node d c t p (node d RB_BLACK b1 o b2))) → is_rb (node d RB_BLACK b1 o b2) (S n) →
  ¬ (tcolor b1 = RB_BLACK ∧ tcolor b2 = RB_BLACK) →
  returns (fix_near d s (Addr p) (Addr o)) (λ r : ptr * rb_tree, let '(other, s') := r in only L s s' ∧
    ∃ b1' o' b21 f b22, other = Addr o' ∧
      shows L s' (plug C (node d c t p (node d RB_BLACK b1' o' (node d RB_RED b21 f b22)))) ∧
      is_rb (node d RB_BLACK b1' o' (node d RB_RED b21 f b22)) (S n)).
Proof.
  intros H Hrb Hnb. apply is_rb_black in Hrb as (m & [= <-] & Hb1 & Hb2). pose proof H as Hn. rewrite <-(node_opp d c) in Hn.
  unfold fix_near. rewrite (focus_get s d ((opp d, c, p, t) :: C) _ _ _ _ (proj1 Hn)). cbn [mbind outcome_bind].
  rewrite child_opp_cell, child_cell.
  pose proof Hn as Hn2. simpl plug in Hn2. rewrite <-(node_opp d RB_BLACK) in Hn2.
  rewrite (is_black_sub s ((opp d, RB_BLACK, o, b1) :: (opp d, c, p, t) :: C) b2 (proj1 Hn2)). cbn [mbind outcome_bind].
  case_bool_decide as Hc2.
  - destruct b1 as [|[] l1 y1 r1]; [naive_solver| |naive_solver].
    destruct (node_T d RB_RED l1 y1 r1) as (b11 & b12 & E & HP). rewrite E in H, Hn, Hb1 |- *.
    apply is_rb_red in Hb1 as (K1 & K2 & K3 & K4). rewrite root_node.
    run (set_color_shows L s d ((d, RB_BLACK, o, b2) :: (opp d, c, p, t) :: C) RB_RED b11 y1 b12 RB_BLACK Hn). intros s1 [H1 O1].
    run (set_color_shows L s1 d ((opp d, c, p, t) :: C) RB_BLACK _ o b2 RB_RED H1). intros s2 [H2 O2].
    rewrite <-(node_opp d RB_RED), <-(node_opp d RB_BLACK) in H2.
    run (rotate_shows L s2 (opp d) ((opp d, c, p, t) :: C) _ _ _ _ _ _ _ H2). intros s3 [H3 O3].
    simpl plug in H3. rewrite !node_opp in H3.
    rewrite (focus_child_opp _ _ _ _ _ _ _ (proj1 H3)), root_node. cbn [mbind outcome_bind returns].
    split; [eauto using only_trans|]. exists b11, y1, b12, o, b2. split; [done|]. split; [done|].
    apply is_rb_black. exists n. rewrite is_rb_red. naive_solver.
  - destruct b2 as [|[] l2 y2 r2]; [naive_solver| |naive_solver].
    destruct (node_T d RB_RED l2 y2 r2) as (b21 & b22 & E & HP). rewrite E in H, Hb2. cbn [returns].
    split; [done|]. exists b1, o, b21, y2, b22. split; [done|]. split; [done|]. apply is_rb_black. eauto.
Qed.

Lemma fix_far_spec L s d C c t p b1 o b21 f b22 :
  shows L s (plug C (node d c t p (node d RB_BLACK b1 o (node d RB_RED b21 f b22)))) →
  returns (fix_far d s (Addr p) (Addr o)) (λ s', only L s s' ∧
    shows L s' (plug C (node d c (node d RB_BLACK t p b1) o (node d RB_BLACK b21 f b22)))).
Proof.
  intros H. unfold fix_far. rewrite (focus_get _ _ _ _ _ _ _ (proj1 H)). cbn [mbind outcome_bind]. rewrite color_cell.
  pose proof H as Hn. rewrite <-(node_opp d c) in Hn.
  run (set_color_shows L s d ((opp d, c, p, t) :: C) RB_BLACK b1 o _ c Hn). intros s1 [H1 O1].
  simpl plug in H1. rewrite node_opp in H1.
  run (set_color_shows L s1 d C c t p _ RB_BLACK H1). intros s2 [H2 O2].
  pose proof H2 as Hn2. rewrite <-(node_opp d RB_BLACK t) in Hn2.
  rewrite (focus_child_opp s2 d ((opp d, RB_BLACK, p, t) :: C) _ _ _ _ (proj1 Hn2)), root_node. cbn [mbind outcome_bind].
  simpl plug in Hn2. rewrite <-(node_opp d c) in Hn2.
  run (set_color_shows L s2 d ((opp d, c, o, b1) :: (opp d, RB_BLACK, p, t) :: C) RB_RED b21 f b22 RB_BLACK Hn2). intros s3 [H3 O3].
  simpl plug in H3. rewrite !node_opp in H3.
  eapply returns_mono; [apply (rotate_shows L s3 d C _ _ _ _ _ _ _ H3)|]. intros s4 [H4 O4].
  split; [eauto using only_trans|done].
Qed.
Lemma deficient_red d a x b n : deficient (node d RB_RED a x b) n ↔ is_rb (node d RB_BLACK a x b) (S n).
Proof. by destruct d. Qed.
Lemma deficient_black d a x b n : deficient (node d RB_BLACK a x b) n ↔ is_rb (node d RB_BLACK a x b) n.
Proof. by destruct d. Qed.

(** The loop body: it moves up, to a red node or one level, or is done. *)
Lemma erase_fix_spec L s d C c t p b n :
  shows L s (plug C (node d c t p b)) → tcolor t = RB_BLACK → is_rb t n → ctx_rb ((d, c, p, b) :: C) (S n) →
  returns (erase_fix d s (Addr p)) (λ r, match r with
    | inl (node', parent', s') => only L s s' ∧ ∃ C' t' n', node' = root_ptr t' ∧ parent' = cparent C' ∧
        shows L s' (plug C' t') ∧ deficient t' n' ∧ ctx_rb C' (S n') ∧ (tcolor t' = RB_RED ∨ C' = C)
    | inr (node', s') => only L s s' ∧ ∃ t', node' = root_ptr t' ∧ shows L s' t' ∧ valid t'
    end).
Proof.
  intros H Hc Ht HC. unfold erase_fix. run (fix_red_sibling_spec L s d C c t p b n H HC).
  intros [other s1] (O1 & C1 & c1 & b1 & o & b2 & -> & H1 & HC1 & Hor).
  pose proof H1 as Hn. rewrite <-(node_opp d c1) in Hn.
  rewrite (both_black_spec L s1 d ((opp d, c1, p, t) :: C1) RB_BLACK b1 o b2 Hn). cbn [mbind outcome_bind].
  assert (is_rb (node d RB_BLACK b1 o b2) (S n)) as Hrb by (destruct c1; simpl in HC1; tauto).
  pose proof Hrb as Hrb'. apply is_rb_black in Hrb' as (m & [= <-] & Hb1 & Hb2).
  destruct (bool_decide (tcolor b1 = RB_BLACK) && bool_decide (tcolor b2 = RB_BLACK)) eqn:Ebb.
  - apply andb_true_iff in Ebb as [Hc1%bool_decide_eq_true_1 Hc2%bool_decide_eq_true_1].
    run (set_color_shows L s1 d ((opp d, c1, p, t) :: C1) RB_BLACK b1 o b2 RB_RED Hn). intros s2 [H2 O2].
    simpl plug in H2. rewrite node_opp in H2.
    rewrite (focus_get _ _ _ _ _ _ _ (proj1 H2)). cbn [mbind outcome_bind returns]. rewrite parent_cell.
    split; [by eapply only_trans|].
    assert (is_rb (node d RB_RED b1 o b2) n) as Hr by (apply is_rb_red; done).
    exists C1, (node d c1 t p (node d RB_RED b1 o b2)). destruct c1; simpl in HC1.
    + exists n. rewrite root_node, deficient_red, is_rb_black, tcolor_node. naive_solver.
    + exists (S n). rewrite root_node, deficient_black, is_rb_black, tcolor_node. naive_solver.
  - run (fix_near_spec L s1 d C1 c1 t p b1 o b2 n H1 Hrb).
    { intros [Hc1 Hc2]. by rewrite !bool_decide_eq_true_2 in Ebb. }
    intros [other s2] (O2 & b1' & o' & b21 & f & b22 & -> & H2 & Hrb2).
    run (fix_far_spec L s2 d C1 c1 t p b1' o' b21 f b22 H2). intros s3 [O3 H3]. cbn [returns].
    split; [eauto using only_trans|]. eexists. split; [apply (proj1 (proj1 H3))|]. split; [exact H3|].
    apply is_rb_black in Hrb2 as (m & [= <-] & Hb1' & Hb2'). apply is_rb_red in Hb2' as (_ & _ & Hb21 & Hb22).
    assert (is_rb (node d RB_BLACK t p b1') (S n)) as R1 by (apply is_rb_black; eauto).
    assert (is_rb (node d RB_BLACK b21 f b22) (S n)) as R2 by (apply is_rb_black; eauto).
    destruct c1; simpl in HC1.
    + apply (plug_valid _ _ (S n)); [tauto| |].
      * apply is_rb_red. by rewrite !tcolor_node.
      * unfold fits. rewrite tcolor_node. destruct HC1 as (_ & _ & HC0 & Hcc & _). intros [|]; congruence.
    + apply (plug_valid _ _ (S (S n))); [tauto| |by intros _; rewrite tcolor_node]. apply is_rb_black. eauto.
Qed.

Lemma plug_root_in F C t : ∃ z, root_ptr (plug (F :: C) t) = Addr z ∧ z ∈ clocs (F :: C).
Proof.
  revert F t. induction C as [|F' C IH]; intros [[[d c] x] b] t.
  - exists x. simpl. rewrite root_node, clocs_cons. auto.
  - destruct (IH F' (node d c t x b)) as (z & Hz & Hin). exists z. rewrite clocs_cons. auto.
Qed.

Lemma focus_not_root L s F C t : shows L s (plug (F :: C) t) → root_ptr t ≠ root s.
Proof.
  intros [H _]. apply represents_plug in H as (-> & _ & _ & _ & _ & Hdis).
  destruct (plug_root_in F C t) as (z & -> & Hz). destruct t as [|c a x b]; [done|]. intros [= ->].
  apply (Hdis z); [simpl; set_solver|done].
Qed.

Lemma erase_step_black L s d c p b C t n :
  shows L s (plug ((d, c, p, b) :: C) t) → tcolor t = RB_BLACK → ctx_rb ((d, c, p, b) :: C) (S n) →
  erase_step (root_ptr t, Addr p, s) = erase_fix d s (Addr p).
Proof.
  intros H Hc HC. unfold erase_step. rewrite (is_black_sub s _ _ (proj1 H)), (bool_decide_eq_true_2 (tcolor t = RB_BLACK)) by done.
  cbn [mbind outcome_bind]. rewrite (bool_decide_eq_true_2 (root_ptr t ≠ root s)) by (by eapply focus_not_root). cbn [andb].
  destruct (sibling_node _ _ _ _ _ _ HC d) as (cb & b1 & o & b2 & ->). destruct d.
  - rewrite (focus_child s Lft C c _ _ _ (proj1 H)). cbn [mbind outcome_bind]. by rewrite bool_decide_eq_true_2.
  - pose proof (focus_child_opp s Rgt C c _ _ _ (proj1 H)) as E. cbn [opp] in E. rewrite E.
    cbn [mbind outcome_bind]. rewrite bool_decide_eq_false_2; [done|]. simpl root_ptr.
    destruct t as [|ct a x tb]; [done|]. intros [= ->].
    destruct H as [H _]. apply represents_plug in H as (_ & _ & _ & _ & _ & Hdis). apply (Hdis x); [simpl; set_solver|].
    rewrite clocs_cons, elem_of_node. auto.
Qed.

Definition blacken t : tree := match t with E => E | T _ a x b => T RB_BLACK a x b end.

Lemma valid_blacken t : valid t → blacken t = t.
Proof. intros [Hc _]. destruct t; [done|]. simpl in *. congruence. Qed.

(** How the loop ends. *)
Definition erased L s (r : ptr * rb_tree) : Prop :=
  let '(node', s') := r in only L s s' ∧
  ∃ C' t', node' = root_ptr t' ∧ shows L s' (plug C' t') ∧ valid (plug C' (blacken t')).

Lemma erase_exit L s C t n par fuel :
  shows L s (plug C t) → deficient t n → ctx_rb C (S n) → tcolor t = RB_RED ∨ C = [] → (0 < fuel)%nat →
  returns (loop fuel erase_step (root_ptr t, par, s)) (erased L s).
Proof.
  intros H Hd HC Hor Hf. destruct fuel as [|fuel]; [lia|]. rewrite loop_S.
  assert (erase_step (root_ptr t, par, s) = Ret (inr (root_ptr t, s))) as ->.
  { unfold erase_step. rewrite (is_black_sub s _ _ (proj1 H)). cbn [mbind outcome_bind].
    destruct Hor as [Hc| ->].
    - by rewrite Hc.
    - pose proof (proj1 (proj1 H)) as Hr. simpl in Hr. rewrite (bool_decide_eq_false_2 (root_ptr t ≠ root s)), andb_false_r; [done|].
      rewrite Hr. naive_solver. }
  cbn [mbind outcome_bind returns]. split; [done|]. exists C, t. split; [done|]. split; [done|].
  destruct t as [|[] a x b]; simpl in Hd.
  - destruct Hor as [| ->]; [done|]. split; [done|by exists n].
  - apply (plug_valid _ _ (S n)); [done|done|done].
  - destruct Hor as [| ->]; [done|]. split; [done|by exists n].
Qed.

Lemma erase_loop L fuel C t n s :
  shows L s (plug C t) → deficient t n → ctx_rb C (S n) → (length C < fuel)%nat →
  returns (loop fuel erase_step (root_ptr t, cparent C, s)) (erased L s).
Proof.
  revert C t n s. induction fuel as [|fuel IH]; intros C t n s H Hd HC Hf; [lia|].
  destruct (decide (tcolor t = RB_RED ∨ C = [])) as [Hor|Hor]; [eapply erase_exit; [done|exact Hd|done|done|lia]|].
  destruct C as [|[[[d c] p] b] C]; [naive_solver|].
  assert (tcolor t = RB_BLACK) as Hc by (destruct (tcolor t); naive_solver).
  assert (is_rb t n) as Ht by (destruct t as [|[] ???]; [done|done|done]).
  rewrite loop_S. cbn [cparent]. rewrite (erase_step_black L s d c p b C t n) by done.
  run (erase_fix_spec L s d C c t p b n); [done..|]. intros [[[node' par'] s']|[node' s']].
  - intros (O1 & C' & t' & n' & -> & -> & H' & Hd' & HC' & Hor').
    assert (returns (loop fuel erase_step (root_ptr t', cparent C', s')) (erased L s')) as Hr.
    { simpl in Hf. destruct Hor' as [Hred| ->].
      - eapply erase_exit; [done|exact Hd'|done|by left|lia].
      - apply (IH C t' n'); [done..|lia]. }
    eapply returns_mono; [exact Hr|]. intros [r s2] (O2 & Hex). split; [by eapply only_trans|done].
  - intros (O1 & t' & -> & H' & Hv). cbn [returns]. split; [done|]. exists [], t'. split; [done|].
    split; [done|]. by rewrite valid_blacken.
Qed.

Lemma rb_erase_color_spec L s C t n :
  shows L s (plug C t) → deficient t n → ctx_rb C (S n) →
  returns (__rb_erase_color s (root_ptr t) (cparent C)) (λ s', only L s s' ∧ ∃ t', shows L s' t' ∧ valid t').
Proof.
  intros H Hd HC. unfold __rb_erase_color. run (erase_loop L _ C t n s H Hd HC).
  { pose proof (represents_size _ _ (proj1 H)). pose proof (length_ctx C t). lia. }
  intros [node' s1] (O1 & C1 & t1 & -> & H1 & Hv). destruct t1 as [|c a x b].
  - cbn. split; [done|]. by exists (plug C1 E).
  - cbn [root_ptr truth mbind outcome_bind].
    eapply returns_mono; [apply (set_color_shows L s1 Lft C1 c a x b RB_BLACK H1)|].
    intros s2 [H2 O2]. split; [by eapply only_trans|]. by exists (plug C1 (T RB_BLACK a x b)).
Qed.
End rebalancing.

(** ** Taking a node out *)
Section removal.
Implicit Types (t a b r e : tree) (C D : list frame) (s : rb_tree) (x y z : loc) (L : list loc).

Lemma plug_app C D t : plug (C ++ D) t = plug D (plug C t).
Proof. revert t. induction C as [|[[[d c] x] b] C IH]; intros t; simpl; [done|apply IH]. Qed.

(** The child of a node with at most one takes its place. *)
Lemma remove_spec s d C c t x :
  represents s (plug C (node d c t x E)) →
  returns (let! s := reparent s (root_ptr t) (cparent C) in replace_child Lft s (cparent C) (Addr x) (root_ptr t))
    (λ s', shows (before C ++ locs t ++ after C) s' (plug C t) ∧ only (before C ++ locs t ++ after C) s s').
Proof.
  intros H. apply represents_plug in H as (Hr & HC & Hn & N1 & N2 & N3). rewrite root_node in HC.
  apply rep_node in Hn as (Hx & Ht & _). pose proof N2 as N2'. apply nodup_node in N2' as (M1 & _ & M3 & _).
  assert (∀ l, l = x ∨ l ∈ locs t → l ∉ clocs C) as N3'.
  { intros l Hl. apply N3. rewrite elem_of_node. tauto. }
  run (reparent_spec s t (Addr x) (cparent C)); [done|done|]. intros s1 (R1 & Ht1 & O1).
  eapply returns_mono; [apply (replace_child_spec Lft s1 C x (root_ptr t)); [|done|auto]|].
  { eapply rep_ctx_agree; [|exact HC]. intros l Hl. apply O1. naive_solver. }
  intros s2 (R2 & HC2 & O2). split.
  - split; [|by rewrite locs_plug]. apply represents_plug. split.
    { rewrite R2. destruct C as [|F C]; [done|]. rewrite R1, Hr. by apply root_plug_ne. }
    split; [done|]. split; [|split; [done|split; [done|naive_solver]]].
    eapply rep_agree; [|exact Ht1]. intros l Hl. apply O2. auto.
  - intros l Hl. unfold clocs in O2. rewrite O2, O1; [done|set_solver|set_solver].
Qed.

(** A change inside a subtree that keeps its root. *)
Lemma rep_replace h h' par D t t' :
  rep h par (plug D t) → NoDup (locs (plug D t)) → root_ptr t = root_ptr t' →
  (∀ l, l ∉ locs t → h' !! l = h !! l) → (∀ par', rep h par' t → rep h' par' t') →
  rep h' par (plug D t').
Proof.
  revert t t'. induction D as [|[[[d c] x] b] D IH]; intros t t' Hr Hnd Hroot Hag Ht; simpl in *; [by apply Ht|].
  assert (NoDup (locs (node d c t x b))) as Hnd' by (apply nodup_plug in Hnd; tauto).
  apply nodup_node in Hnd' as (N1 & N2 & _ & _ & N5).
  apply (IH (node d c t x b)); [done|done|by rewrite !root_node| |].
  - intros l Hl. apply Hag. rewrite elem_of_node in Hl. tauto.
  - intros par' Hn. rewrite rep_node in Hn |- *. destruct Hn as (Hx & Hrt & Hrb).
    split; [by rewrite Hag, <-Hroot|]. split; [by apply Ht|]. eapply rep_agree; [|exact Hrb].
    intros l Hl. apply Hag. intros Hl'. by apply (N5 l).
Qed.

(** The least node of a tree. *)
Lemma leftmost t : t ≠ E → ∃ D c y r, t = plug D (T c E y r) ∧ before D = [] ∧ (D = [] ∨ ∃ c1 z e D', D = (Lft, c1, z, e) :: D').
Proof.
  assert (∀ D0, t ≠ E → before D0 = [] → ∃ D c y r, plug D0 t = plug D (T c E y r) ∧ before D = [] ∧
    (D = D0 ∨ ∃ c1 z e D', D = (Lft, c1, z, e) :: D')) as Hg; [|intros Ht; by apply (Hg [])].
  induction t as [|c a IHa x b _]; intros D0 Ht HD; [done|]. destruct a as [|ca al y ar].
  - exists D0, c, x, b. auto.
  - destruct (IHa ((Lft, c, x, b) :: D0)) as (D & c' & y' & r & E1 & E2 & Hor); [done|simpl; by rewrite app_nil_r|].
    exists D, c', y', r. split; [done|]. split; [done|]. right. destruct Hor as [->|]; [eauto|done].
Qed.

Definition sparent (par : ptr) D : ptr := match D with [] => par | (_, _, z, _) :: _ => Addr z end.

Lemma rep_sub h par D t : rep h par (plug D t) → rep h (sparent par D) t.
Proof.
  revert t. induction D as [|[[[d c] x] b] D IH]; intros t; simpl; [done|].
  intros Hr%IH. apply rep_node in Hr. tauto.
Qed.

Lemma set_parent_spec s t par q :
  rep (nodes s) par t → NoDup (locs t) → t ≠ E →
  returns (rb_set_parent s (root_ptr t) q) (λ s', root s' = root s ∧ rep (nodes s') q t ∧ only (locs t) s s').
Proof. intros Hr Hnd Ht. pose proof (reparent_spec s t par q Hr Hnd) as H. by destruct t. Qed.

Lemma plug_not_E D t : t ≠ E → plug D t ≠ E.
Proof.
  revert t. induction D as [|[[[d c] x] b] D IH]; intros t Ht; simpl; [done|]. apply IH. by destruct d.
Qed.

Lemma detach_min_spec s x par c a D cy y r :
  let b := plug D (T cy E y r) in
  nodes s !! x = Some (cell par c Lft (root_ptr a) (root_ptr b)) → x ∉ locs b → NoDup (locs b) → rep (nodes s) (Addr x) b →
  before D = [] → D = [] ∨ (∃ c1 z e D', D = (Lft, c1, z, e) :: D') →
  returns (detach_min s (Addr x) (Addr y) (root_ptr r) (sparent (Addr x) D)) (λ st : ptr * rb_tree, let '(pr, s') := st in
    pr = sparent (Addr y) D ∧ root s' = root s ∧ rep (nodes s') (Addr y) (plug D r) ∧
    (∃ py, nodes s' !! y = Some (cell py cy Lft Null (root_ptr (plug D r)))) ∧ only (locs b) s s').
Proof.
  intros b Hx Hxb Hnd Hb HbD Hor. unfold detach_min. destruct Hor as [-> |(c1 & z & e & D' & ->)].
  - cbn [sparent]. rewrite bool_decide_eq_true_2 by done. cbn [returns]. subst b. simpl in Hb |- *.
    destruct Hb as (Hy & _ & Hr). split; [done|]. split; [done|]. split; [done|]. split; [by eexists|done].
  - cbn [sparent]. subst b. pose proof (rep_sub _ _ D' _ Hb) as Hsub. set (p0 := sparent (Addr x) D') in Hsub.
    destruct Hsub as (Hz & (Hy & _ & Hr) & He).
    pose proof Hnd as Hnd'. simpl plug in Hnd'. apply nodup_plug in Hnd' as (_ & Hnz & HD').
    pose proof Hnz as Hnz'. apply (nodup_node Lft c1) in Hnz' as (Z1 & Z2 & Z3 & Z4 & Z5).
    apply (nodup_node Lft cy) in Z3 as (Y1 & Y2 & Y3 & Y4 & Y5). simpl in Z1, Z5.
    assert (x ∉ locs (T c1 (T cy E y r) z e)) as Hxt by (intros Hin; apply Hxb; simpl plug; rewrite elem_of_plug; auto).
    simpl in Hxt. rewrite bool_decide_eq_false_2 by (intros [= ->]; set_solver).
    run (reparent_spec s r (Addr y) (Addr z)); [done|done|]. intros s1 (R1 & Hr1 & O1).
    assert (nodes s1 !! z = Some (cell p0 c1 Lft (Addr y) (root_ptr e))) as Hz1 by (rewrite O1 by set_solver; exact Hz).
    rewrite (set_child_ok _ _ _ _ _ _ _ _ Hz1). cbn [mbind outcome_bind].
    set (s2 := RbTree _ _). assert (nodes s2 !! x = nodes s !! x) as Hx2.
    { unfold s2. cbn [nodes]. rewrite lookup_insert_ne by set_solver. apply O1. set_solver. }
    rewrite Hx in Hx2. rewrite (rb_get_ok _ _ _ Hx2). cbn [mbind outcome_bind].
    assert (nodes s2 !! y = Some (cell (Addr z) cy Rgt (root_ptr r) Null)) as Hy2.
    { unfold s2. cbn [nodes]. rewrite lookup_insert_ne by set_solver. rewrite O1 by done. exact Hy. }
    rewrite (set_child_ok _ _ _ _ _ _ _ _ Hy2). cbn [mbind outcome_bind].
    set (s3 := RbTree (root s2) _). assert (nodes s3 !! x = nodes s2 !! x) as Hx3.
    { unfold s3. cbn [nodes]. apply lookup_insert_ne. set_solver. }
    rewrite Hx2 in Hx3. rewrite (rb_get_ok _ _ _ Hx3). cbn [mbind outcome_bind].
    assert (∀ l, l ∉ locs (T c1 (T cy E y r) z e) → nodes s3 !! l = nodes s !! l) as Hout.
    { intros l Hl. simpl in Hl. unfold s3, s2. cbn [nodes]. rewrite !lookup_insert_ne by set_solver. apply O1. set_solver. }
    assert (rep (nodes s3) (Addr x) (plug D' (T c1 r z e))) as H3.
    { apply (rep_replace (nodes s) _ _ _ (T c1 (T cy E y r) z e)); [exact Hb|exact Hnd|done|exact Hout|].
      intros par' (Hz' & _ & _). rewrite Hz in Hz'. injection Hz' as <-.
      split; [unfold s3, s2; cbn [nodes]; rewrite lookup_insert_ne by set_solver; by rewrite lookup_insert_eq|].
      split; [eapply rep_agree; [|exact Hr1]|eapply rep_agree; [|exact He]]; intros l Hl.
      - unfold s3, s2. cbn [nodes]. rewrite !lookup_insert_ne by set_solver. done.
      - unfold s3, s2. cbn [nodes]. rewrite !lookup_insert_ne by set_solver. apply O1. set_solver. }
    assert (NoDup (locs (plug D' (T c1 r z e)))) as Hnd3.
    { simpl plug in Hnd. rewrite locs_plug in Hnd |- *. simpl in HbD, Hnd |- *. rewrite app_nil_r in HbD.
      rewrite HbD in Hnd |- *. simpl in Hnd. by apply NoDup_cons in Hnd as [_ ?]. }
    assert (root_ptr (plug D' (T c1 (T cy E y r) z e)) = root_ptr (plug D' (T c1 r z e))) as Hroot by (by apply root_plug_same).
    change (rb_right (cell par c Lft (root_ptr a) ?q)) with q. simpl plug. rewrite Hroot.
    assert (∀ l, l ∈ locs (plug D' (T c1 r z e)) → l ≠ y) as Hny.
    { intros l Hl ->. rewrite elem_of_plug in Hl. destruct Hl as [Hl|Hl]; [simpl in Hl; set_solver|].
      apply (HD' y); [simpl; set_solver|done]. }
    run (set_parent_spec s3 _ (Addr x) (Addr y) H3 Hnd3); [by apply plug_not_E|]. intros s4 (R4 & H4 & O4). cbn [returns].
    split; [done|]. split; [by rewrite R4|]. split; [exact H4|]. split.
    + exists (Addr z). rewrite O4 by (intros Hin; by apply (Hny y)). unfold s3. cbn [nodes]. rewrite lookup_insert_eq. simpl plug. by rewrite Hroot.
    + intros l Hl. rewrite elem_of_plug in Hl. rewrite O4, Hout; [done|tauto|].
      rewrite elem_of_plug. simpl in Hl |- *. set_solver.
Qed.

Lemma take_place_spec s x y par c a pb py cy q :
  nodes s !! x = Some (cell par c Lft (root_ptr a) pb) → nodes s !! y = Some (cell py cy Lft Null q) →
  x ≠ y → a ≠ E → rep (nodes s) (Addr x) a → NoDup (locs a) → x ∉ locs a → y ∉ locs a →
  returns (take_place s (Addr x) (Addr y)) (λ s', root s' = root s ∧ rep (nodes s') (Addr y) a ∧
    nodes s' !! y = Some (cell par c Lft (root_ptr a) q) ∧ only (y :: locs a) s s').
Proof.
  intros Hx Hy Hne Ha Hra Hnd Hxa Hya. unfold take_place. rewrite (rb_get_ok _ _ _ Hx). cbn [mbind outcome_bind].
  rewrite (modify_ok _ _ _ _ Hy). cbn [mbind outcome_bind]. rewrite with_parent_cell, with_color_cell, color_cell, parent_cell.
  set (s1 := RbTree _ _). assert (nodes s1 !! x = Some (cell par c Lft (root_ptr a) pb)) as Hx1.
  { unfold s1. cbn [nodes]. by rewrite lookup_insert_ne. }
  rewrite (rb_get_ok _ _ _ Hx1). cbn [mbind outcome_bind].
  assert (nodes s1 !! y = Some (cell par c Lft Null q)) as Hy1 by (unfold s1; cbn [nodes]; by rewrite lookup_insert_eq).
  rewrite (set_child_ok _ _ _ _ _ _ _ _ Hy1). cbn [mbind outcome_bind].
  set (s2 := RbTree (root s1) _). assert (nodes s2 !! x = Some (cell par c Lft (root_ptr a) pb)) as Hx2.
  { unfold s2. cbn [nodes]. by rewrite lookup_insert_ne. }
  rewrite (rb_get_ok _ _ _ Hx2). cbn [mbind outcome_bind].
  assert (∀ l, l ≠ y → nodes s2 !! l = nodes s !! l) as Hout.
  { intros l Hl. unfold s2, s1. cbn [nodes]. by rewrite !lookup_insert_ne. }
  eapply returns_mono; [apply (set_parent_spec s2 a (Addr x) (Addr y)); [|done|done]|].
  { eapply rep_agree; [|exact Hra]. intros l Hl. apply Hout. by intros ->. }
  intros s3 (R3 & H3 & O3). split; [done|]. split; [done|]. split.
  - rewrite O3 by done. unfold s2. cbn [nodes]. by rewrite lookup_insert_eq.
  - intros l Hl. rewrite O3, Hout by set_solver. done.
Qed.
Lemma splice_spec s C c a x b :
  let L := before C ++ locs a ++ locs b ++ after C in
  represents s (plug C (T c a x b)) → a ≠ E → b ≠ E →
  returns (splice s (Addr x)) (λ st, let '(child_, parent, cy, s') := st in only L s s' ∧
    ∃ D y r, b = plug D (T cy E y r) ∧ child_ = root_ptr r ∧ parent = cparent (D ++ (Rgt, c, y, a) :: C) ∧
      shows L s' (plug (D ++ (Rgt, c, y, a) :: C) r)).
Proof.
  intros L H Ha Hb. destruct (leftmost b Hb) as (D & cy & y & r & Eb & HbD & Hor).
  assert (head_ptr (locs b) = Addr y) as Hhead by (rewrite Eb, locs_plug, HbD; done).
  unfold splice. rewrite (focus_get s Lft C c a x b H). cbn [mbind outcome_bind]. rewrite parent_cell.
  change (rb_right (cell (cparent C) c Lft (root_ptr a) (root_ptr b))) with (root_ptr b).
  rewrite (descend_side_spec s Lft ((Rgt, c, x, a) :: C) b H Hb). cbn [mbind outcome_bind ord]. rewrite Hhead.
  apply represents_plug in H as (Hr & HC & (Hx & Hra & Hrb) & N1 & N2 & N3). cbn [root_ptr] in HC.
  pose proof N2 as N2'. apply (nodup_node Lft c) in N2' as (M1 & M2 & M3 & M4 & M5).
  assert (∀ l, l = x ∨ l ∈ locs a ∨ l ∈ locs b → l ∉ clocs C) as N3'.
  { intros l Hl. apply N3. simpl. set_solver. }
  assert (y ∈ locs b) as Hyb by (rewrite Eb, elem_of_plug; simpl; set_solver).
  run (replace_child_spec Lft s C x (Addr y) HC N1); [auto|]. intros s1 (R1 & HC1 & O1).
  assert (rep (nodes s1) (Addr x) b) as Hb1 by (eapply rep_agree; [|exact Hrb]; intros l Hl; apply O1; auto).
  assert (rep (nodes s1) (Addr x) a) as Ha1 by (eapply rep_agree; [|exact Hra]; intros l Hl; apply O1; auto).
  assert (nodes s1 !! x = Some (cell (cparent C) c Lft (root_ptr a) (root_ptr b))) as Hx1 by (rewrite O1 by auto; exact Hx).
  pose proof Hb1 as Hsub. rewrite Eb in Hsub. apply rep_sub in Hsub as (Hy1 & _ & _).
  rewrite (rb_get_ok _ _ _ Hy1). cbn [mbind outcome_bind]. rewrite parent_cell, color_cell.
  change (rb_right (cell ?p cy Lft ?q (root_ptr r))) with (root_ptr r).
  subst b. assert (locs (plug D (T cy E y r)) = y :: locs (plug D r)) as Lb by (rewrite !locs_plug, HbD; done).
  run (detach_min_spec s1 x (cparent C) c a D cy y r Hx1 M2 M4 Hb1 HbD Hor). intros [pr s2] (-> & R2 & Hb2 & [py Hy2] & O2).
  assert (x ≠ y) as Hxy by (intros ->; done).
  assert (y ∉ locs a) as Hya by (intros Hl; by apply (M5 y)).
  assert (nodes s2 !! x = Some (cell (cparent C) c Lft (root_ptr a) (root_ptr (plug D (T cy E y r))))) as Hx2.
  { rewrite O2 by done. exact Hx1. }
  run (take_place_spec s2 x y _ _ _ _ _ _ _ Hx2 Hy2 Hxy Ha); [|done|done|done|].
  { eapply rep_agree; [|exact Ha1]. intros l Hl. apply O2. auto. }
  intros s3 (R3 & Ha3 & Hy3 & O3). cbn [returns]. split.
  { unfold L. intros l Hl. rewrite Lb in Hl. rewrite O3 by set_solver. rewrite O2 by (rewrite Lb; set_solver).
    apply O1. unfold clocs. set_solver. }
  exists D, y, r. split; [done|]. split; [done|]. split; [by destruct D as [|[[[??]?]?]?]|].
  rewrite plug_app. simpl plug. change (T c a y (plug D r)) with (node Lft c a y (plug D r)). split.
  2: { rewrite locs_plug, locs_node. unfold L. rewrite Lb. by rewrite <-app_assoc. }
  apply represents_plug. rewrite rep_node, root_node. split.
  { rewrite R3, R2, R1. destruct C as [|F C]; [done|]. rewrite Hr. by apply root_plug_ne. }
  split. { eapply rep_ctx_agree; [|exact HC1]. intros l Hl. rewrite O3.
           - apply O2. intros Hlb. by apply (N3' l); [auto|].
           - intros Hin. apply (N3' l); [|done]. apply elem_of_cons in Hin as [->|]; auto. }
  pose proof M4 as M4'. rewrite Lb in M4'. apply NoDup_cons in M4' as [Hyn Hndr].
  split. { split; [exact Hy3|]. split; [exact Ha3|]. eapply rep_agree; [|exact Hb2]. intros l Hl. apply O3.
           intros [->|Hla]%elem_of_cons; [done|]. apply (M5 l Hla). rewrite Lb. by right. }
  split; [done|]. split.
  - rewrite locs_node, <-Lb. apply NoDup_app. done.
  - intros l Hl. apply N3'. rewrite locs_node, <-Lb in Hl. apply elem_of_app in Hl. tauto.
Qed.

(** The colour of the paths does not depend on the locations. *)
Lemma ctx_rb_relocate D C d c x y a n :
  ctx_rb (D ++ (d, c, x, a) :: C) n → ctx_rb (D ++ (d, c, y, a) :: C) n.
Proof.
  revert n. induction D as [|[[[d' c'] z] b] D IH]; intros n; simpl; [done|].
  assert (ccolor (D ++ (d, c, x, a) :: C) = ccolor (D ++ (d, c, y, a) :: C)) as -> by (by destruct D).
  destruct c'; [|naive_solver]. intros (? & ? & _ & ? & ?). split; [done|]. split; [done|].
  split; [by destruct D|]. auto.
Qed.

(** After a node of colour [c] was unlinked at the hole of [C]. *)
Lemma erase_finish L s C c t n :
  shows L s (plug C t) → ctx_rb C n → is_rb (T c E 1 t) n → fits C (T c E 1 t) →
  returns (if bool_decide (c = RB_BLACK) then __rb_erase_color s (root_ptr t) (cparent C) else Ret s)
    (λ s', only L s s' ∧ ∃ t', shows L s' t' ∧ valid t').
Proof.
  intros H HC Ht Hf. destruct c.
  - rewrite bool_decide_eq_false_2 by done. cbn [returns]. split; [done|]. exists (plug C t). split; [done|].
    simpl in Ht. apply (plug_valid _ _ n); [done|tauto|]. intros _. tauto.
  - rewrite bool_decide_eq_true_2 by done. destruct n as [|n]; [done|]. simpl in Ht. destruct Ht as [-> Ht].
    apply (rb_erase_color_spec L s C t 0); [done| |done].
    destruct t as [|[] ta x tb]; [done| |done]. simpl in Ht |- *. tauto.
Qed.
End removal.

(** ** Properties *)

Lemma rb_erase_ok s t l1 x l2 :
  represents s t → valid t → locs t = l1 ++ x :: l2 →
  returns (rb_erase s (Addr x)) (λ s', ∃ t', represents s' t' ∧ valid t' ∧ locs t' = l1 ++ l2 ∧
    ∀ l, l ∉ l1 ++ l2 → nodes s' !! l = nodes s !! l).
Proof.
  intros H Hv El. destruct (locate t x) as (C & c & a & b & ->); [rewrite El; set_solver|].
  assert (l1 ++ l2 = before C ++ locs a ++ locs b ++ after C) as ->.
  { pose proof H as (_ & _ & Hnd). rewrite locs_plug in El, Hnd. simpl in El, Hnd.
    rewrite <-app_assoc, app_assoc in El, Hnd. simpl in El, Hnd.
    destruct (split_unique _ _ _ _ _ El Hnd) as [<- <-]. by rewrite <-app_assoc. }
  destruct (valid_plug _ _ Hv) as (n & HC & Ht & Hf).
  assert (∀ m, returns m (λ s', only (before C ++ locs a ++ locs b ++ after C) s s' ∧ ∃ t', shows (before C ++ locs a ++ locs b ++ after C) s' t' ∧ valid t') →
    returns m (λ s', ∃ t', represents s' t' ∧ valid t' ∧ locs t' = before C ++ locs a ++ locs b ++ after C ∧
      ∀ l, l ∉ before C ++ locs a ++ locs b ++ after C → nodes s' !! l = nodes s !! l)) as Hwrap.
  { intros m Hm. eapply returns_mono; [exact Hm|]. intros s' (Ho & t' & [Hr Hl] & Hv'). eauto 6. }
  apply Hwrap. unfold rb_erase. rewrite (focus_get s Lft C c a x b H). cbn [mbind outcome_bind].
  change (rb_left (cell (cparent C) c Lft (root_ptr a) (root_ptr b))) with (root_ptr a).
  change (rb_right (cell (cparent C) c Lft (root_ptr a) (root_ptr b))) with (root_ptr b).
  rewrite parent_cell, color_cell.
  assert (∀ d t, plug C (T c a x b) = plug C (node d c t x E) → locs a ++ locs b = locs t →
    is_rb (T c E 1 t) n → fits C (T c E 1 t) →
    returns (let! st := (let! s := reparent s (root_ptr t) (cparent C) in
             let! s := replace_child Lft s (cparent C) (Addr x) (root_ptr t) in Ret (root_ptr t, cparent C, c, s)) in
             let '(child_, parent, c, s) := st in
             if bool_decide (c = RB_BLACK) then __rb_erase_color s child_ parent else Ret s)
      (λ s', only (before C ++ locs a ++ locs b ++ after C) s s' ∧ ∃ t', shows (before C ++ locs a ++ locs b ++ after C) s' t' ∧ valid t')) as Hone.
  { intros d t Ep Elt Hrt Hft. rewrite Ep in H. pose proof (remove_spec s d C c t x H) as Hrem.
    rewrite (app_assoc (locs a)), Elt. 
    destruct (reparent s (root_ptr t) (cparent C)) as [s0| |]; [|done|done]. cbn [mbind outcome_bind] in Hrem |- *.
    destruct (replace_child Lft s0 (cparent C) (Addr x) (root_ptr t)) as [s1| |]; [|done|done]. cbn [mbind outcome_bind returns] in Hrem |- *.
    destruct Hrem as [H1 O1]. eapply returns_mono; [by eapply erase_finish|]. intros s2 (O2 & Ht2).
    split; [by eapply only_trans|done]. }
  assert (tcolor (T c a x b) = tcolor (T c E 1 E)) as Hcol by done.
  destruct a as [|ca al ax ar]; [|destruct b as [|cb bl bx br]].
  - assert (∃ v, truth (root_ptr b) = Ret v) as [v ->] by (destruct b; eauto). cbn [root_ptr truth mbind outcome_bind andb].
    apply (Hone Rgt b); [done|done| |done]. by destruct c.
  - cbn [root_ptr truth mbind outcome_bind andb]. apply (Hone Lft (T ca al ax ar)); [done|by rewrite app_nil_r| |done].
    destruct c, n; simpl in Ht |- *; tauto.
  - cbn [root_ptr truth mbind outcome_bind andb].
    run (splice_spec s C c (T ca al ax ar) x (T cb bl bx br) H); [done|done|].
    intros [[[child_ parent] cy] s1] (O1 & D & y & r & Eb & -> & -> & H1).
    assert (valid (plug (D ++ (Rgt, c, x, T ca al ax ar) :: C) (T cy E y r))) as Hv2.
    { rewrite plug_app. simpl plug. by rewrite <-Eb. }
    apply valid_plug in Hv2 as (m & HC2 & Ht2 & Hf2).
    eapply returns_mono; [eapply (erase_finish _ s1 (D ++ (Rgt, c, y, T ca al ax ar) :: C) cy r m H1)|].
    + by eapply ctx_rb_relocate.
    + by destruct cy.
    + intros Hor. apply Hf2. destruct D; destruct Hor as [?|Hor]; [done|by right|done|by right].
    + intros s2 (O2 & Ht2'). split; [by eapply only_trans|done].
Qed.

(** C4 [rb_erase] of a node of a red-black tree gives a red-black tree of the
    other nodes in the same order; no cell outside the remaining tree, that of
    the removed node included, is written. *)
Theorem rb_erase_correct s t l1 x l2 :
  represents s t → valid t → locs t = l1 ++ x :: l2 →
  returns (rb_erase s (Addr x)) (λ s', ∃ t', represents s' t' ∧ valid t' ∧ locs t' = l1 ++ l2 ∧
    ∀ l, l ∉ l1 ++ l2 → nodes s' !! l = nodes s !! l).
Proof. apply rb_erase_ok. Qed.

Lemma rb_erase_correct_witness :
  returns (rb_erase sample (Addr 1)) (λ s', ∃ t', represents s' t' ∧ valid t' ∧ locs t' = [] ++ [2%positive] ∧
    ∀ l, l ∉ [] ++ [2%positive] → nodes s' !! l = nodes sample !! l).
Proof.
  refine (rb_erase_correct sample (T RB_BLACK E 1 (T RB_RED E 2 E)) [] 1 [2%positive] _ _ _).
  - split; [done|]. split; [by vm_compute|]. apply (bool_decide_unpack _). by vm_compute.
  - split; [done|]. exists 1%nat. by vm_compute.
  - done.
Defined.

(** [rb_replace_node] puts a node that is not in the tree in the place of
    another, without touching the shape. *)
Theorem rb_replace_node_correct s C c a x b y n :
  represents s (plug C (T c a x b)) → y ∉ locs (plug C (T c a x b)) → nodes s !! y = Some n →
  returns (rb_replace_node s (Addr x) (Addr y)) (λ s', represents s' (plug C (T c a y b)) ∧
    ∀ l, l ∉ locs (plug C (T c a y b)) → nodes s' !! l = nodes s !! l).
Proof.
  intros H Hy Hn. unfold rb_replace_node. rewrite (focus_get s Lft C c a x b H). cbn [mbind outcome_bind].
  rewrite parent_cell. pose proof H as (_ & _ & Hnd0).
  apply represents_plug in H as (Hr & HC & (Hx & Ha & Hb) & N1 & N2 & N3). cbn [root_ptr] in HC.
  rewrite elem_of_plug in Hy. pose proof N2 as N2'. apply (nodup_node Lft c) in N2' as (M1 & M2 & M3 & M4 & M5).
  assert (y ≠ x ∧ (y ∉ locs a) ∧ (y ∉ locs b) ∧ y ∉ clocs C) as (Y1 & Y2 & Y3 & Y4) by (simpl in Hy; set_solver).
  assert (∀ l, l = x ∨ l ∈ locs a ∨ l ∈ locs b → l ∉ clocs C) as N3' by (intros l Hl; apply N3; simpl; set_solver).
  run (replace_child_spec Lft s C x (Addr y) HC N1); [auto|]. intros s1 (R1 & HC1 & O1).
  assert (nodes s1 !! x = Some (cell (cparent C) c Lft (root_ptr a) (root_ptr b))) as Hx1 by (rewrite O1 by auto; exact Hx).
  rewrite (rb_get_ok _ _ _ Hx1). cbn [mbind outcome_bind].
  run (reparent_spec s1 a (Addr x) (Addr y)); [|done|].
  { eapply rep_agree; [|exact Ha]. intros l Hl. apply O1. auto. }
  intros s2 (R2 & Ha2 & O2). run (reparent_spec s2 b (Addr x) (Addr y)); [|done|].
  { eapply rep_agree; [|exact Hb]. intros l Hl. rewrite O2 by (intros Hla; by apply (M5 l)). apply O1. auto. }
  intros s3 (R3 & Hb3 & O3).
  assert (nodes s3 !! x = Some (cell (cparent C) c Lft (root_ptr a) (root_ptr b))) as Hx3 by (rewrite O3, O2 by done; exact Hx1).
  rewrite (rb_get_ok _ _ _ Hx3). cbn [mbind outcome_bind].
  assert (nodes s3 !! y = Some n) as Hy3 by (rewrite O3, O2, O1 by done; exact Hn).
  rewrite (modify_ok _ _ _ _ Hy3). cbn [returns]. split.
  - apply represents_plug. cbn [root nodes]. split.
    { rewrite R3, R2, R1. destruct C as [|F C]; [done|]. rewrite Hr. by apply root_plug_ne. }
    split. { eapply rep_ctx_agree; [|exact HC1]. intros l Hl. rewrite lookup_insert_ne by (by intros ->).
             rewrite O3, O2; [done| |]; intros Hl'; apply (N3' l); auto. }
    split. { split; [by rewrite lookup_insert_eq|]. split; (eapply rep_agree; [|done]); intros l Hl;
             (rewrite lookup_insert_ne by (by intros ->)); [|done]. apply O3. by apply M5. }
    split; [done|]. split; [by apply (nodup_node Lft c)|]. intros l Hl.
    apply (elem_of_node Lft c) in Hl as [->|Hl]; [done|]. apply N3'. tauto.
  - intros l Hl. rewrite elem_of_plug in Hl. simpl in Hl. cbn [nodes].
    rewrite lookup_insert_ne by set_solver. rewrite O3, O2, O1; [done|set_solver..].
Qed.
