(* ===== verification/MemPool.v ===== *)
(** * The memory pool: [mycache/src/mem/minipwr_mem_pool.c]

    The pool hands out blocks of 8-byte units from nodes of 4096 bytes; a node
    has a bitmap of its units and sits in a red-black tree ordered by address.
    Addresses are integers, 0 is [NULL]; the [rb_node] embedded in a node is the
    cell of [RbTree.v] at the node's location.  What [malloc] and
    [posix_memalign] return is an argument of the operations. *)

From S2P Require Import Prelude Bitmap RbTree RbInsert RbErase.

(** ** Definitions *)
Definition DIV_ROUND_UP_FOR_8BYTES (n : Z) : Z := Z.shiftr (n + 7) 3.
Definition MEM_BITMAP_SIZE : Z := 8.
Definition MEM_NODE_ALLOC_BLOCK : Z := 1024.
Definition MEM_NODE_BODY_SIZE : Z := Z.shiftl MEM_NODE_ALLOC_BLOCK 2.
(** [sizeof(minipwr_mem_node_t)]: the [rb_node], the bitmap and [preal]. *)
Definition MEM_NODE_SIZE : Z := 24 + 8 * MEM_BITMAP_SIZE + 8.

Record mem_node : Type := MemNode { bitmap_t : list Z; preal : Z }.

Record mem_pool : Type := MemPool {
  current_series_node : ptr;
  latest_free_node : ptr;
  current_series_ptr : Z;
  latest_free_ptr : Z;
  pool_total_size : Z;
  pool_left_series_size : Z;
  pool_node_nb : Z;
  rbroot : rb_tree;
  mnodes : gmap loc mem_node
}.

(** What the allocator gives to a new node: its location, the contents of its
    bitmap, the address of its body. *)
Record node_alloc : Type := NodeAlloc { na_node : option loc; na_junk : list Z; na_body : option Z }.

Definition node_at (data : gmap loc mem_node) (p : ptr) : outcome mem_node :=
  match p with
  | Addr l => match data !! l with Some n => Ret n | None => Stuck end
  | _ => Stuck
  end.

Definition minipwr_init_mem_node (r : node_alloc) (data : gmap loc mem_node) : outcome (ptr * gmap loc mem_node) :=
  match na_node r, na_body r with
  | Some l, Some a =>
      let! bm := bm_zero true (na_junk r) (MEM_BITMAP_SIZE * BITS_PER_LONG) in
      Ret (Addr l, <[l := MemNode bm a]> data)
  | _, _ => Ret (Null, data)
  end.

Definition search_step (s : rb_tree) (data : gmap loc mem_node) (pindex : Z) (node : ptr) : outcome (ptr + ptr) :=
  let! b := truth node in
  if b : bool then
    let! this := node_at data node in
    if pindex <? preal this then let! c := get_child s node Lft in Ret (inl c)
    else if preal this + MEM_NODE_BODY_SIZE <? pindex then let! c := get_child s node Rgt in Ret (inl c)
    else Ret (inr node)
  else Ret (inr Null).

Definition minipwr_mem_node_search (s : rb_tree) (data : gmap loc mem_node) (pindex : Z) : outcome ptr :=
  loop (S (S (size (nodes s)))) (search_step s data pindex) (root s).

(** [inr None]: the node overlaps one of the tree and is not inserted. *)
Definition insert_descend (s : rb_tree) (data : gmap loc mem_node) (me : mem_node) (st : ptr * side * ptr)
    : outcome (ptr * side * ptr + option (ptr * side)) :=
  let '(parent, d, new) := st in
  let! b := truth new in
  if b : bool then
    let! this := node_at data new in
    if preal me <? preal this then let! c := get_child s new Lft in Ret (inl (new, Lft, c))
    else if preal this + MEM_NODE_BODY_SIZE <? preal me then let! c := get_child s new Rgt in Ret (inl (new, Rgt, c))
    else Ret (inr None)
  else Ret (inr (Some (parent, d))).

Definition minipwr_mem_node_insert (s : rb_tree) (data : gmap loc mem_node) (l : loc) : outcome (Z * rb_tree) :=
  let! me := node_at data (Addr l) in
  let! r := loop (S (S (size (nodes s)))) (insert_descend s data me) (Null, Lft, root s) in
  match r with
  | None => Ret (0, s)
  | Some (parent, d) =>
      let! s := rb_link_node s l parent d in
      let! s := rb_insert_color s (Addr l) in
      Ret (1, s)
  end.

Definition minipwr_mem_node_del (s : rb_tree) (data : gmap loc mem_node) (pindex : Z)
    : outcome (rb_tree * gmap loc mem_node) :=
  let! p := minipwr_mem_node_search s data pindex in
  match p with
  | Addr l => let! s := rb_erase s (Addr l) in Ret (s, delete l data)
  | _ => Ret (s, data)
  end.

(** [minipwr_create_pool]: the allocator gives [allocs] one after the other;
    [mem] is whether the pool itself could be allocated (the code does not
    check), [lock] whether [pthread_spin_init] fails.  The fields set with the
    first node are indeterminate before. *)
Definition create_step (num : Z) (st : Z * list node_alloc * mem_pool)
    : outcome (Z * list node_alloc * mem_pool + bool * mem_pool) :=
  let '(i, allocs, p) := st in
  if i <? num then
    match allocs with
    | [] => Ret (inr (false, p))
    | r :: allocs =>
        let! x := minipwr_init_mem_node r (mnodes p) in
        let '(pnode, data) := x in
        match pnode with
        | Addr l =>
            let! y := minipwr_mem_node_insert (rbroot p) data l in
            let '(_, s) := y in
            let! n := node_at data pnode in
            Ret (inl (i + 1, allocs,
              if bool_decide (i = 0)
              then MemPool pnode pnode (preal n) (preal n) (pool_total_size p) (pool_left_series_size p)
                     (pool_node_nb p) s data
              else MemPool (current_series_node p) (latest_free_node p) (current_series_ptr p) (latest_free_ptr p)
                     (pool_total_size p) (pool_left_series_size p) (pool_node_nb p) s data))
        | _ => Ret (inr (false, p))
        end
    end
  else Ret (inr (true, p)).

Definition create_nodes (allocs : list node_alloc) (num : Z) (p : mem_pool) : outcome (bool * mem_pool) :=
  loop (S (Z.to_nat num)) (create_step num) (0, allocs, p).

Definition minipwr_create_pool (num : Z) (mem : bool) (lock : bool) (allocs : list node_alloc)
    : outcome (Z * option mem_pool) :=
  if num <=? 0 then Ret (-1, None)
  else if mem then
    let! total := in_s32 (num * MEM_NODE_BODY_SIZE) in
    let! st := create_nodes allocs num (MemPool Junk Junk 0 0 total total num (RbTree Null ∅) ∅) in
    let '(ok, p) := st in
    if ok : bool then Ret (if lock then -1 else 0, Some p) else Ret (-1, Some p)
  else Stuck.

(** The bodies freed, in order. *)
Definition minipwr_destroy_pool (p : mem_pool) : outcome (list Z) :=
  let! first := rb_first (rbroot p) in
  loop (S (S (size (nodes (rbroot p))))) (λ st : ptr * rb_tree * list Z,
    let '(node, s, freed) := st in
    let! b := truth node in
    if b : bool then
      let! data := node_at (mnodes p) node in
      let! next := rb_next s node in
      let! s := rb_erase s node in
      Ret (inl (next, s, freed ++ [preal data]))
    else Ret (inr freed)) (first, rbroot p, []).

Definition set_bitmap (data : gmap loc mem_node) (l : loc) (n : mem_node) (bm : list Z) : gmap loc mem_node :=
  <[l := MemNode bm (preal n)]> data.

(** The first attempt: at [latest_free_ptr]. *)
Definition palloc_latest (p : mem_pool) (howmany size : Z) : outcome (option (Z * mem_pool)) :=
  let! n := node_at (mnodes p) (latest_free_node p) in
  let pos := s32 (DIV_ROUND_UP_FOR_8BYTES (latest_free_ptr p - preal n)) in
  let! set := bm_isset_region (bitmap_t n) pos howmany in
  if bool_decide (set = 0) then
    let! bm := bm_setbit_region (bitmap_t n) pos howmany in
    match latest_free_node p with
    | Addr l =>
        let data := set_bitmap (mnodes p) l n bm in
        let same := bool_decide (latest_free_ptr p = current_series_ptr p) in
        Ret (Some (latest_free_ptr p,
          MemPool (current_series_node p) (latest_free_node p)
            (if same then current_series_ptr p + size else current_series_ptr p) (latest_free_ptr p)
            (pool_total_size p)
            (if same then u64 (pool_left_series_size p - size) else pool_left_series_size p)
            (pool_node_nb p) (rbroot p) data))
    | _ => Stuck
    end
  else Ret None.

(** The second: at [current_series_ptr]. *)
Definition palloc_current (p : mem_pool) (howmany size : Z) : outcome (option (Z * mem_pool)) :=
  let! n := node_at (mnodes p) (current_series_node p) in
  let pos := s32 (current_series_ptr p - preal n) in
  if pos + size <? MEM_NODE_BODY_SIZE then
    let! bm := bm_setbit_region (bitmap_t n) (DIV_ROUND_UP_FOR_8BYTES pos) howmany in
    match current_series_node p with
    | Addr l =>
        let data := set_bitmap (mnodes p) l n bm in
        Ret (Some (current_series_ptr p,
          MemPool (current_series_node p) (latest_free_node p) (current_series_ptr p + size)
            (if bool_decide (latest_free_ptr p = current_series_ptr p) then latest_free_ptr p + size else latest_free_ptr p)
            (pool_total_size p) (u64 (pool_left_series_size p - size)) (pool_node_nb p) (rbroot p) data))
    | _ => Stuck
    end
  else Ret None.

(** The third: the next node of the tree. *)
Definition palloc_next (p : mem_pool) (howmany size : Z) : outcome (option (Z * mem_pool)) :=
  let! next := rb_next (rbroot p) (current_series_node p) in
  match next with
  | Addr l =>
      let! n := node_at (mnodes p) (Addr l) in
      let! bm := bm_setbit_region (bitmap_t n) 0 howmany in
      Ret (Some (preal n,
        MemPool (Addr l) (latest_free_node p) (preal n + size) (latest_free_ptr p) (pool_total_size p)
          (u64 (pool_left_series_size p - size)) (pool_node_nb p) (rbroot p) (set_bitmap (mnodes p) l n bm)))
  | _ => Ret None
  end.

(** The last: a new node. *)
Definition palloc_new (p : mem_pool) (howmany size : Z) (r : node_alloc) : outcome (Z * mem_pool) :=
  let! x := minipwr_init_mem_node r (mnodes p) in
  let '(new_pnode, data) := x in
  match new_pnode with
  | Addr l =>
      let! n := node_at data (Addr l) in
      let! bm := bm_setbit_region (bitmap_t n) 0 howmany in
      let data := set_bitmap data l n bm in
      let! y := minipwr_mem_node_insert (rbroot p) data l in
      let '(_, s) := y in
      Ret (preal n,
        MemPool (Addr l) (latest_free_node p) (preal n + size) (latest_free_ptr p)
          (u64 (pool_total_size p + MEM_NODE_SIZE)) (u64 (pool_left_series_size p + (MEM_NODE_SIZE - size)))
          (u64 (pool_node_nb p + 1)) s data)
  | _ => Ret (0, MemPool (current_series_node p) (latest_free_node p) (current_series_ptr p) (latest_free_ptr p)
           (pool_total_size p) (pool_left_series_size p) (pool_node_nb p) (rbroot p) data)
  end.

(** [big]: what [malloc] returns for a block larger than a node. *)
Definition minipwr_palloc (pool : option mem_pool) (howmany big : Z) (r : node_alloc) : outcome (Z * option mem_pool) :=
  let! size := in_s32 (Z.shiftl howmany 3) in
  match pool with
  | None => Ret (0, pool)
  | Some p =>
      if MEM_NODE_BODY_SIZE <? size then Ret (big, pool)
      else if size <=? 0 then Ret (0, pool)
      else
        let! a := palloc_latest p howmany size in
        match a with
        | Some (q, p) => Ret (q, Some p)
        | None =>
            let! a := palloc_current p howmany size in
            match a with
            | Some (q, p) => Ret (q, Some p)
            | None =>
                let! a := palloc_next p howmany size in
                match a with
                | Some (q, p) => Ret (q, Some p)
                | None => let! x := palloc_new p howmany size r in let '(q, p) := x in Ret (q, Some p)
                end
            end
        end
  end.

(** The [memset] writes the first [size] bytes of the block, whose contents are
    not part of the model; the result is the constant 0. *)
Definition minipwr_pcalloc (pool : option mem_pool) (size big : Z) (r : node_alloc) : outcome (Z * option mem_pool) :=
  let! x := minipwr_palloc pool size big r in
  let '(_, pool) := x in
  Ret (0, pool).

(** The flag: the block was passed on to [free]. *)
Definition minipwr_pfree (pool : option mem_pool) (p howmany : Z) : outcome (bool * option mem_pool) :=
  let! size := in_s32 (Z.shiftl howmany 3) in
  if bool_decide (p = 0) then Ret (false, pool)
  else
    match pool with
    | None => Stuck
    | Some m =>
        let! q := minipwr_mem_node_search (rbroot m) (mnodes m) p in
        match q with
        | Addr l =>
            let! n := node_at (mnodes m) (Addr l) in
            let pos := s32 (DIV_ROUND_UP_FOR_8BYTES (p - preal n)) in
            let! bm := bm_clrbit_region (bitmap_t n) pos howmany in
            let last := bool_decide (current_series_ptr m = p + size) in
            Ret (false, Some (MemPool (current_series_node m) (Addr l)
              (if last then p else current_series_ptr m) p (pool_total_size m)
              (if last then u64 (pool_left_series_size m + size) else pool_left_series_size m)
              (pool_node_nb m) (rbroot m) (set_bitmap (mnodes m) l n bm)))
        | _ => Ret (true, pool)
        end
    end.

(** ** The tree of nodes, in the order of the addresses *)
Definition addr (data : gmap loc mem_node) (l : loc) : Z :=
  match data !! l with Some n => preal n | None => 0 end.

(** The nodes [ls] are there, and their bodies lie one after the other. *)
Definition ordered (data : gmap loc mem_node) (ls : list loc) : Prop :=
  StronglySorted (λ x y, addr data x + MEM_NODE_BODY_SIZE ≤ addr data y) ls ∧ ∀ l, l ∈ ls → is_Some (data !! l).

(** What a search for the address [p] finds: a node whose body holds or ends at [p]. *)
Definition found (data : gmap loc mem_node) (ls : list loc) (p : Z) (r : ptr) : Prop :=
  match r with
  | Addr l => l ∈ ls ∧ addr data l ≤ p ≤ addr data l + MEM_NODE_BODY_SIZE
  | Null => ∀ l, l ∈ ls → p < addr data l ∨ addr data l + MEM_NODE_BODY_SIZE < p
  | Junk => False
  end.

Section search.
Context (s : rb_tree) (data : gmap loc mem_node).
Implicit Types (t a b : tree) (C : list frame) (l x : loc) (p : Z).

Lemma node_at_ok l n : data !! l = Some n → node_at data (Addr l) = Ret n ∧ addr data l = preal n.
Proof. intros H. unfold addr. simpl. by rewrite H. Qed.

Lemma ordered_node a x b c :
  ordered data (locs (T c a x b)) →
  ordered data (locs a) ∧ ordered data (locs b) ∧ is_Some (data !! x) ∧
  (∀ l, l ∈ locs a → addr data l + MEM_NODE_BODY_SIZE ≤ addr data x) ∧
  (∀ l, l ∈ locs b → addr data x + MEM_NODE_BODY_SIZE ≤ addr data l).
Proof.
  intros [Hs Hd]. simpl in Hs, Hd. apply StronglySorted_app in Hs as (H1 & H2 & [H3 H4]%StronglySorted_cons).
  rewrite Forall_forall in H3. unfold ordered.
  split; [split; [done|intros; apply Hd; set_solver]|]. split; [split; [done|intros; apply Hd; set_solver]|].
  split; [apply Hd; set_solver|]. split; [|done]. intros l Hl. apply H1; [done|by left].
Qed.

Lemma search_step_addr p x :
  is_Some (data !! x) →
  search_step s data p (Addr x) =
    if p <? addr data x then get_child s (Addr x) Lft ≫= λ c, Ret (inl c)
    else if addr data x + 4096 <? p then get_child s (Addr x) Rgt ≫= λ c, Ret (inl c) else Ret (inr (Addr x)).
Proof. intros [n Hn]. unfold search_step, addr. simpl. by rewrite Hn. Qed.

Lemma search_loop fuel C t p :
  represents s (plug C t) → ordered data (locs t) → (height t < fuel)%nat →
  returns (loop fuel (search_step s data p) (root_ptr t)) (found data (locs t) p).
Proof.
  revert C t. induction fuel as [|fuel IH]; intros C t H Ho Hf; [lia|]. rewrite loop_S.
  destruct t as [|c a x b].
  { cbn. intros l Hl. by apply elem_of_nil in Hl. }
  destruct (ordered_node _ _ _ _ Ho) as (Ha & Hb & Hn & Hax & Hbx).
  cbn [root_ptr]. rewrite (search_step_addr p x Hn). simpl in Hf. unfold found, MEM_NODE_BODY_SIZE in *. change (Z.shiftl MEM_NODE_ALLOC_BLOCK 2) with 4096 in *.
  destruct (Z.ltb_spec p (addr data x)).
  - rewrite (focus_child s Lft C c a x b H). cbn [mbind outcome_bind].
    eapply returns_mono; [apply (IH ((Lft, c, x, b) :: C) a H Ha); lia|].
    intros [|l|]; simpl; change (Z.shiftl 1024 2) with 4096; [|intros [? ?]; split; [set_solver|done]|done]. intros Hl l Hin. apply elem_of_app in Hin as [Hin|[->|Hin]%elem_of_cons].
    + by apply Hl.
    + by left.
    + left. specialize (Hbx l Hin). lia.
  - destruct (Z.ltb_spec (addr data x + 4096) p).
    + rewrite (focus_child s Rgt C c b x a H). cbn [mbind outcome_bind].
      eapply returns_mono; [apply (IH ((Rgt, c, x, a) :: C) b H Hb); lia|].
      intros [|l|]; simpl; change (Z.shiftl 1024 2) with 4096; [|intros [? ?]; split; [set_solver|done]|done]. intros Hl l Hin. apply elem_of_app in Hin as [Hin|[->|Hin]%elem_of_cons].
      * right. specialize (Hax l Hin). lia.
      * by right.
      * by apply Hl.
    + cbn. split; [set_solver|]. lia.
Qed.
Lemma insert_descend_addr me parent d x :
  is_Some (data !! x) →
  insert_descend s data me (parent, d, Addr x) =
    if preal me <? addr data x then get_child s (Addr x) Lft ≫= λ c, Ret (inl (Addr x, Lft, c))
    else if addr data x + 4096 <? preal me then get_child s (Addr x) Rgt ≫= λ c, Ret (inl (Addr x, Rgt, c))
    else Ret (inr None).
Proof. intros [n Hn]. unfold insert_descend, addr. simpl. by rewrite Hn. Qed.

(** The hole the descent ends at, or a node in the way. *)
Lemma insert_loop_spec me fuel C t d :
  represents s (plug C t) → ordered data (locs t) → (height t < fuel)%nat → hole_side C d →
  returns (loop fuel (insert_descend s data me) (cparent C, d, root_ptr t)) (λ r, match r with
    | None => ∃ k, k ∈ locs t ∧ addr data k ≤ preal me ≤ addr data k + 4096
    | Some (parent, d') => ∃ C' (l1 l2 : list loc), plug C' E = plug C t ∧ parent = cparent C' ∧ hole_side C' d' ∧
        before C' = before C ++ l1 ∧ after C' = l2 ++ after C ∧ locs t = l1 ++ l2 ∧
        (∀ k, k ∈ l1 → addr data k + 4096 < preal me) ∧ (∀ k, k ∈ l2 → preal me < addr data k)
    end).
Proof.
  revert C t d. induction fuel as [|fuel IH]; intros C t d H Ho Hf Hd; [lia|]. rewrite loop_S.
  destruct t as [|c a x b].
  { cbn. exists C, [], []. rewrite app_nil_r. repeat (split; [done|]). split; intros k Hk; by apply elem_of_nil in Hk. }
  destruct (ordered_node _ _ _ _ Ho) as (Ha & Hb & Hn & Hax & Hbx).
  cbn [root_ptr]. rewrite (insert_descend_addr me _ _ x Hn). simpl in Hf.
  unfold MEM_NODE_BODY_SIZE in *. change (Z.shiftl MEM_NODE_ALLOC_BLOCK 2) with 4096 in *.
  destruct (Z.ltb_spec (preal me) (addr data x)).
  - rewrite (focus_child s Lft C c a x b H). cbn [mbind outcome_bind].
    eapply returns_mono; [apply (IH ((Lft, c, x, b) :: C) a Lft H Ha); [lia|done]|].
    intros [[parent d']|].
    + intros (C' & l1 & l2 & E1 & E2 & E3 & E4 & E5 & E6 & G1 & G2). exists C', l1, (l2 ++ x :: locs b).
      split; [done|]. split; [done|]. split; [done|]. simpl in E4, E5. rewrite app_nil_r in E4.
      split; [done|]. split; [by rewrite E5, <-!app_assoc|]. split; [simpl; by rewrite E6, <-app_assoc|]. split; [done|].
      intros k [Hk|[->|Hk]%elem_of_cons]%elem_of_app; [by apply G2|done|]. specialize (Hbx k Hk). lia.
    + intros (k & Hk & Hr). exists k. split; [simpl; set_solver|done].
  - destruct (Z.ltb_spec (addr data x + 4096) (preal me)).
    + rewrite (focus_child s Rgt C c b x a H). cbn [mbind outcome_bind].
      eapply returns_mono; [apply (IH ((Rgt, c, x, a) :: C) b Rgt H Hb); [lia|done]|].
      intros [[parent d']|].
      * intros (C' & l1 & l2 & E1 & E2 & E3 & E4 & E5 & E6 & G1 & G2). exists C', (locs a ++ x :: l1), l2.
        split; [done|]. split; [done|]. split; [done|]. simpl in E4, E5.
        split; [by rewrite E4, <-!app_assoc|]. split; [done|]. split; [simpl; by rewrite E6, <-app_assoc|]. split; [|done].
        intros k [Hk|[->|Hk]%elem_of_cons]%elem_of_app; [|done|by apply G1]. specialize (Hax k Hk). lia.
      * intros (k & Hk & Hr). exists k. split; [simpl; set_solver|done].
    + cbn. exists x. split; [set_solver|lia].
Qed.

(** Inserting a node whose body overlaps no other: refused only next to the end
    of another body. *)
Lemma node_insert_ok t l me :
  represents s t → valid t → ordered data (locs t) → l ∉ locs t → data !! l = Some me →
  (∀ k, k ∈ locs t → addr data k + 4096 ≤ preal me ∨ preal me + 4096 ≤ addr data k) →
  returns (minipwr_mem_node_insert s data l) (λ r : Z * rb_tree, let '(r, s') := r in
    (r = 0 ∧ s' = s ∧ ∃ k, k ∈ locs t ∧ addr data k + 4096 = preal me) ∨
    (r = 1 ∧ ∃ t' (l1 l2 : list loc), represents s' t' ∧ valid t' ∧ locs t = l1 ++ l2 ∧ locs t' = l1 ++ l :: l2 ∧
      ordered data (locs t'))).
Proof.
  intros H Hv Ho Hl Hme Hdis. unfold minipwr_mem_node_insert. destruct (node_at_ok l me Hme) as [-> Ea].
  cbn [mbind outcome_bind]. rewrite (proj1 H).
  run (insert_loop_spec me (S (S (size (nodes s)))) [] t Lft H Ho); [|done|].
  { pose proof (represents_size s t H). pose proof (height_locs t). lia. }
  intros [[parent d']|].
  - intros (C & l1 & l2 & E1 & -> & E3 & E4 & E5 & E6 & G1 & G2). simpl in E1, E4, E5. rewrite app_nil_r in E5.
    subst t l1 l2. rewrite E6 in Hl, Ho, Hdis.
    assert (returns (let! s' := rb_link_node s l (cparent C) d' in rb_insert_color s' (Addr l)) (λ s',
      ∃ t', represents s' t' ∧ valid t' ∧ locs t' = before C ++ l :: after C ∧
      ∀ k, k ∉ before C ++ l :: after C → nodes s' !! k = nodes s !! k)) as Hins.
    { apply (rb_insert_ok s C l d' H Hv); [by rewrite E6|done]. }
    destruct (rb_link_node s l (cparent C) d') as [s1| |]; [|done|done]. cbn [mbind outcome_bind] in Hins |- *.
    destruct (rb_insert_color s1 (Addr l)) as [s2| |]; [|done|done]. cbn [mbind outcome_bind returns] in Hins |- *.
    destruct Hins as (t' & R & V & L & _). right. split; [done|]. exists t', (before C), (after C).
    split; [done|]. split; [done|]. split; [done|]. split; [done|]. rewrite L.
    destruct Ho as [Hs Hd]. split.
    + apply StronglySorted_app in Hs as (S1 & S2 & S3).
      apply StronglySorted_app_2; [|done|].
      * intros x1 x2 H1 [->|H2]%elem_of_cons; [|by apply S1]. rewrite Ea. destruct (Hdis x1); [set_solver|done|].
        specialize (G1 x1 H1). unfold MEM_NODE_BODY_SIZE. change (Z.shiftl MEM_NODE_ALLOC_BLOCK 2) with 4096. lia.
      * apply StronglySorted_cons. split; [|done]. apply Forall_forall. intros x2 H2. rewrite Ea.
        destruct (Hdis x2); [set_solver| |done]. specialize (G2 x2 H2). lia.
    + intros k Hk. apply elem_of_app in Hk as [Hk|[->|Hk]%elem_of_cons]; [apply Hd; set_solver|by eexists|apply Hd; set_solver].
  - intros (k & Hk & Hr). cbn. left. split; [done|]. split; [done|]. exists k. split; [done|].
    destruct (Hdis k Hk); lia.
Qed.
End search.

(** ** Properties of the tree of nodes *)

(** In a pool of [n] nodes, at most [2 log2 (n + 1) + 1] steps of
    [minipwr_mem_node_search] find a node whose body holds or ends at an
    address, and null exactly when there is none. *)
Lemma node_search_correct s data t p fuel :
  represents s t → valid t → ordered data (locs t) → (2 * Nat.log2 (S (length (locs t))) < fuel)%nat →
  returns (loop fuel (search_step s data p) (root s)) (found data (locs t) p) ∧
  returns (minipwr_mem_node_search s data p) (found data (locs t) p).
Proof.
  intros H Hv Ho Hf. pose proof (valid_height t Hv). rewrite (proj1 H). split.
  - apply (search_loop s data fuel [] t p H Ho). lia.
  - unfold minipwr_mem_node_search. rewrite (proj1 H). apply (search_loop s data _ [] t p H Ho).
    pose proof (represents_size s t H). pose proof (height_locs t). lia.
Qed.

(** The nodes of [sample] with bodies at 8192 and 16384, and a third one. *)
Definition sample_nodes : gmap loc mem_node :=
  <[3%positive := MemNode [] 32768]> (<[1%positive := MemNode [] 8192]> {[2%positive := MemNode [] 16384]}).

Lemma sample_ordered : represents sample (T RB_BLACK E 1 (T RB_RED E 2 E)) ∧ valid (T RB_BLACK E 1 (T RB_RED E 2 E)) ∧
  ordered sample_nodes [1%positive; 2%positive].
Proof.
  split; [|split; [|split]].
  - split; [done|]. split; [by vm_compute|]. apply (bool_decide_unpack _). by vm_compute.
  - split; [done|]. exists 1%nat. by vm_compute.
  - repeat constructor; by vm_compute.
  - intros l Hl. rewrite !elem_of_cons, elem_of_nil in Hl. destruct Hl as [->|[->|[]]]; by eexists; vm_compute.
Qed.

Lemma node_search_correct_witness :
  returns (loop 4 (search_step sample sample_nodes 16400) (root sample)) (found sample_nodes [1%positive; 2%positive] 16400) ∧
  returns (minipwr_mem_node_search sample sample_nodes 16400) (found sample_nodes [1%positive; 2%positive] 16400).
Proof.
  destruct sample_ordered as (H & Hv & Ho). refine (node_search_correct sample sample_nodes _ 16400 4 H Hv Ho _).
  by vm_compute; lia.
Defined.
