(* ===== verification/PoolAlloc.v ===== *)
(** * Allocation from the memory pool

    Blocks handed out by a pool nothing is returned to are disjoint, as long as
    its nodes come at increasing addresses ([PoolAlloc.palloc_disjoint]); when
    they do not, or once blocks are returned, [minipwr_palloc] hands out the same
    memory twice ([PoolAlloc.palloc_overlaps]).  [minipwr_destroy_pool] frees
    every body once. *)

From S2P Require Import Prelude Bitmap RbTree RbInsert RbErase MemPool.

(** ** Blocks *)
Definition block : Type := Z * Z.
Definition apart (b1 b2 : block) : Prop := b1.1 + b1.2 ≤ b2.1 ∨ b2.1 + b2.2 ≤ b1.1.
Fixpoint pairwise_apart (B : list block) : Prop :=
  match B with [] => True | b :: B => (∀ b', b' ∈ B → apart b b') ∧ pairwise_apart B end.

(** A sequence of requests, each with what the allocator would give to a new node. *)
Fixpoint palloc_all (pool : option mem_pool) (reqs : list (Z * node_alloc)) : outcome (list block) :=
  match reqs with
  | [] => Ret []
  | (h, r) :: reqs =>
      let! x := minipwr_palloc pool h 0 r in
      let '(q, pool) := x in
      let! B := palloc_all pool reqs in
      Ret ((q, 8 * h) :: B)
  end.

(** The allocator gives new nodes with bodies at increasing addresses above
    [lo], with a gap between any two. *)
Fixpoint ascending (lo : Z) (used : list loc) (rs : list node_alloc) : Prop :=
  match rs with
  | [] => True
  | r :: rs => ∃ l a, na_node r = Some l ∧ na_body r = Some a ∧ length (na_junk r) = 8%nat ∧
      lo < a ∧ (l ∉ used) ∧ ascending (a + 4096) (l :: used) rs
  end.

Definition bodies (rs : list node_alloc) : list Z := omap na_body rs.

(** ** The state of a pool nothing is returned to *)
Definition node_wf (data : gmap loc mem_node) (l : loc) : Prop :=
  ∃ n, data !! l = Some n ∧ wf_bitmap (bitmap_t n) ∧ length (bitmap_t n) = 8%nat.

(** The nodes in [l1] are full, the current one is [c], those in [l2] are empty;
    [f] is the node created first, [B] the blocks handed out. *)
Record bump (A : list Z) (lo : Z) (used : list loc) (p : mem_pool) (t : tree) (f c : loc) (l1 l2 : list loc)
    (B : list block) : Prop := Bump {
  b_rep : represents (rbroot p) t;
  b_valid : valid t;
  b_locs : locs t = l1 ++ c :: l2;
  b_ordered : ordered (mnodes p) (locs t);
  b_wf : ∀ l, l ∈ locs t → node_wf (mnodes p) l ∧ 0 < addr (mnodes p) l ∧ addr (mnodes p) l + 4096 ≤ lo ∧
    l ∈ used ∧ addr (mnodes p) l ∈ A;
  b_cur : current_series_node p = Addr c;
  b_ptr : ∃ k, current_series_ptr p = addr (mnodes p) c + 8 * k ∧ 0 ≤ k ≤ 512;
  b_latest : latest_free_node p = Addr f ∧ latest_free_ptr p = addr (mnodes p) f ∧ f ∈ l1 ++ [c];
  b_state : (B = [] ∧ f = c ∧ current_series_ptr p = addr (mnodes p) c ∧
               ∀ n, mnodes p !! f = Some n → ∀ i, 0 ≤ i < 512 → bit (bitmap_t n) i = false) ∨
            (addr (mnodes p) c < current_series_ptr p ∧ ∀ n, mnodes p !! f = Some n → bit (bitmap_t n) 0 = true);
  b_blocks : ∀ b, b ∈ B → 0 < b.2 ∧ ∃ k, k ∈ l1 ++ [c] ∧ addr (mnodes p) k ≤ b.1 ∧ b.1 + b.2 ≤ addr (mnodes p) k + 4096 ∧
    (k = c → b.1 + b.2 ≤ current_series_ptr p);
  b_apart : pairwise_apart B
}.

Section pool.
Implicit Types (p : mem_pool) (l : loc) (B : list block).

Lemma body_size : MEM_NODE_BODY_SIZE = 4096.
Proof. done. Qed.

Lemma init_node_ok r l a data :
  na_node r = Some l → na_body r = Some a → length (na_junk r) = 8%nat →
  minipwr_init_mem_node r data = Ret (Addr l, <[l := MemNode (replicate 8 0) a]> data).
Proof.
  intros El Ea Hj. unfold minipwr_init_mem_node. rewrite El, Ea. destruct (na_junk r) as [|x1 [|x2 [|x3 [|x4 [|x5 [|x6 [|x7 [|x8 [|]]]]]]]]]; try done.
Qed.

Lemma addr_set_bitmap data l n bm k :
  data !! l = Some n → addr (set_bitmap data l n bm) k = addr data k.
Proof.
  intros H. unfold addr, set_bitmap. destruct (decide (k = l)) as [->|].
  - by rewrite lookup_insert_eq, H.
  - by rewrite lookup_insert_ne.
Qed.

Lemma ordered_ext data data' ls :
  (∀ l, l ∈ ls → addr data' l = addr data l) → (∀ l, l ∈ ls → is_Some (data !! l) → is_Some (data' !! l)) →
  ordered data ls → ordered data' ls.
Proof.
  intros Ha Hd [Hs Hl]. split; [|intros l Hin; by apply Hd, Hl].
  clear Hl Hd. induction Hs as [|x ls Hs IH Hx]; [constructor|]. constructor.
  - apply IH. intros l Hl. apply Ha. by right.
  - rewrite Forall_forall in Hx |- *. intros y Hy. rewrite !Ha by (by (left || right)). by apply Hx.
Qed.

Lemma ordered_set_bitmap data l n bm ls :
  data !! l = Some n → ordered data ls → ordered (set_bitmap data l n bm) ls.
Proof.
  intros Hn. apply ordered_ext.
  - intros k _. by apply addr_set_bitmap.
  - intros k _. unfold set_bitmap. rewrite lookup_insert_is_Some. intros. destruct (decide (l = k)); auto.
Qed.

Lemma node_wf_set_bitmap data l n bm k :
  wf_bitmap bm → length bm = 8%nat → node_wf data k → node_wf (set_bitmap data l n bm) k.
Proof.
  intros H1 H2 (m & Hm & H3). unfold node_wf, set_bitmap. destruct (decide (k = l)) as [->|].
  - rewrite lookup_insert_eq. eexists. split; [done|]. done.
  - rewrite lookup_insert_ne by done. by exists m.
Qed.

(** Two nodes of the pool: one lies wholly before the other. *)
Lemma ordered_app data (l1 l2 : list loc) x y :
  ordered data (l1 ++ l2) → x ∈ l1 → y ∈ l2 → addr data x + 4096 ≤ addr data y.
Proof. intros [Hs _] Hx Hy. by apply (StronglySorted_app_1_elem_of _ l1 l2 x y Hs). Qed.

(** The bookkeeping of an allocation at the end of the current node. *)
Lemma blocks_snoc data (l1 : list loc) c cur B size :
  ordered data (l1 ++ [c]) → 0 < size → addr data c ≤ cur → cur + size ≤ addr data c + 4096 →
  (∀ b, b ∈ B → 0 < b.2 ∧ ∃ k, k ∈ l1 ++ [c] ∧ addr data k ≤ b.1 ∧ b.1 + b.2 ≤ addr data k + 4096 ∧ (k = c → b.1 + b.2 ≤ cur)) →
  pairwise_apart B →
  (∀ b, b ∈ (cur, size) :: B → 0 < b.2 ∧ ∃ k, k ∈ l1 ++ [c] ∧ addr data k ≤ b.1 ∧ b.1 + b.2 ≤ addr data k + 4096 ∧ (k = c → b.1 + b.2 ≤ cur + size)) ∧
  pairwise_apart ((cur, size) :: B).
Proof.
  intros Ho Hsz Hc Hfit HB Hap. split.
  - intros b [->|Hb]%elem_of_cons.
    + split; [done|]. exists c. split; [set_solver|]. simpl. lia.
    + destruct (HB b Hb) as (H1 & k & H2 & H3 & H4 & H5). split; [done|]. exists k.
      split; [done|]. split; [done|]. split; [done|]. intros E. specialize (H5 E). lia.
  - split; [|done]. intros b Hb. destruct (HB b Hb) as (H1 & k & H2 & H3 & H4 & H5). unfold apart. simpl. right.
    apply elem_of_app in H2 as [H2|H2].
    + pose proof (ordered_app _ _ _ k c Ho H2 ltac:(set_solver)). lia.
    + apply list_elem_of_singleton in H2 as ->. by apply H5.
Qed.
Context (A : list Z) (lo : Z) (used : list loc).

(** The node [c'] takes the block of [h] units at [q]: it is the current node,
    at its end, or the next one. *)
Lemma bump_alloc p t f c (l1 l2 : list loc) B p' c' (l1' l2' : list loc) n bm q k h :
  bump A lo used p t f c l1 l2 B →
  locs t = l1' ++ c' :: l2' → rbroot p' = rbroot p →
  mnodes p !! c' = Some n → wf_bitmap bm → length bm = 8%nat → mnodes p' = set_bitmap (mnodes p) c' n bm →
  current_series_node p' = Addr c' → latest_free_node p' = latest_free_node p → latest_free_ptr p' = latest_free_ptr p →
  q = addr (mnodes p) c' + 8 * k → 0 ≤ k → 1 ≤ h → k + h ≤ 512 → current_series_ptr p' = q + 8 * h →
  c' = c ∧ l1' = l1 ∧ q = current_series_ptr p ∨ l1' = l1 ++ [c] ∧ k = 0 →
  (∀ m, mnodes p' !! f = Some m → bit (bitmap_t m) 0 = true) →
  bump A lo used p' t f c' l1' l2' ((q, 8 * h) :: B).
Proof.
  intros [R V L O W Cu Pt (La1 & La2 & La3) St Bl Ap] L' Er En Hwf Hlen Em Ec El1 El2 Eq Hk Hh Hfit Ep Hpos Hbit.
  assert (∀ x, addr (mnodes p') x = addr (mnodes p) x) as Ea by (intros x; rewrite Em; by apply addr_set_bitmap).
  assert (ordered (mnodes p) (l1' ++ [c'])) as O'.
  { destruct O as [O1 O2]. rewrite L' in O1, O2. rewrite cons_middle, app_assoc in O1, O2. split.
    - by apply StronglySorted_app_1_l in O1.
    - intros x Hx. apply O2. set_solver. }
  assert (∀ b, b ∈ B → 0 < b.2 ∧ ∃ x, x ∈ l1' ++ [c'] ∧ addr (mnodes p) x ≤ b.1 ∧ b.1 + b.2 ≤ addr (mnodes p) x + 4096 ∧ (x = c' → b.1 + b.2 ≤ q)) as Bl'.
  { intros b Hb. destruct (Bl b Hb) as (H1 & x & H2 & H3 & H4 & H5). split; [done|]. exists x.
    destruct Hpos as [(-> & -> & ->)|(-> & ->)]; [done|]. split; [set_solver|]. split; [done|]. split; [done|].
    intros ->. pose proof (ordered_app _ _ _ c' c' O' H2 ltac:(set_solver)). lia. }
  destruct (blocks_snoc (mnodes p) l1' c' q B (8 * h) O') as [Hb Ha]; [lia|lia|lia|done|done|].
  constructor; rewrite ?Er; try done.
  - rewrite Em. by apply ordered_set_bitmap.
  - intros x Hx. destruct (W x Hx) as (W1 & W2). rewrite Ea. split; [|done]. rewrite Em. by apply node_wf_set_bitmap.
  - exists (k + h). rewrite Ea, Ep. lia.
  - rewrite El1, El2, Ea. split; [done|]. split; [done|].
    destruct Hpos as [(-> & -> & _)|(-> & _)]; [done|set_solver].
  - right. rewrite Ea. split; [lia|done].
  - intros b Hin. destruct (Hb b Hin) as (H1 & x & H2 & H3 & H4 & H5). split; [done|]. exists x.
    rewrite Ea, Ep. done.
Qed.

Lemma div8 k : DIV_ROUND_UP_FOR_8BYTES (8 * k) = k.
Proof. unfold DIV_ROUND_UP_FOR_8BYTES. rewrite Z.shiftr_div_pow2 by lia. change (2 ^ 3) with 8. dlia. Qed.

Lemma region_ok bm k h : length bm = 8%nat → 0 ≤ k → 1 ≤ h → k + h ≤ 512 → in_bitmap bm k h.
Proof. intros Hl. unfold in_bitmap. rewrite Hl. lia. Qed.

Section step.
Context (p : mem_pool) (t : tree) (f c : loc) (l1 l2 : list loc) (B : list block) (h : Z).
Hypothesis (Hb : bump A lo used p t f c l1 l2 B) (Hh : 1 ≤ h ≤ 512).

Lemma node_in x : x ∈ l1 ++ c :: l2 → ∃ n, mnodes p !! x = Some n ∧ node_at (mnodes p) (Addr x) = Ret n ∧
  addr (mnodes p) x = preal n ∧ wf_bitmap (bitmap_t n) ∧ length (bitmap_t n) = 8%nat.
Proof.
  intros Hx. destruct Hb. destruct (b_wf0 x) as ((n & Hn & Hw & Hl) & _); [by rewrite b_locs0|].
  exists n. destruct (node_at_ok (mnodes p) x n Hn) as [-> ->]. done.
Qed.

(** The first block of all comes from [latest_free_ptr]. *)
Lemma palloc_latest_first :
  B = [] → f = c → current_series_ptr p = addr (mnodes p) c →
  (∀ n, mnodes p !! f = Some n → ∀ i, 0 ≤ i < 512 → bit (bitmap_t n) i = false) →
  returns (palloc_latest p h (8 * h)) (λ r, ∃ q p', r = Some (q, p') ∧ bump A lo used p' t f c l1 l2 ((q, 8 * h) :: B)).
Proof.
  intros HB Hf Hcur Hclr. destruct (node_in c ltac:(set_solver)) as (n & Hn & En & Ea & Hw & Hl).
  pose proof (b_latest _ _ _ _ _ _ _ _ _ _ Hb) as (La1 & La2 & La3). pose proof (b_cur _ _ _ _ _ _ _ _ _ _ Hb) as Hc.
  assert (node_at (mnodes p) (Addr f) = Ret n) as En' by (by rewrite Hf).
  assert (addr (mnodes p) f = addr (mnodes p) c) as Eaf by (by rewrite Hf).
  unfold palloc_latest. rewrite La1, La2, En'. cbn [mbind outcome_bind].
  replace (addr (mnodes p) f - preal n) with (8 * 0) by lia. rewrite div8, (sw_id 32) by lia.
  pose proof (region_ok (bitmap_t n) 0 h Hl ltac:(lia) ltac:(lia) ltac:(lia)) as Hin.
  run (isset_region_spec (bitmap_t n) 0 h Hw Hin). intros r [(-> & i & Hi & Hbit)|(-> & _)].
  { rewrite Hf in Hclr. by rewrite (Hclr n Hn i) in Hbit by lia. }
  rewrite bool_decide_eq_true_2 by done.
  run (setbit_region_spec (bitmap_t n) 0 h Hw Hin). intros bm (Hw' & Hl' & Hbits). cbn [returns].
  rewrite Eaf, Hcur, bool_decide_eq_true_2 by done. eexists _, _. split; [done|].
  eapply (bump_alloc p t f c l1 l2 B _ c l1 l2 n bm _ 0 h Hb); cbn [rbroot mnodes current_series_node latest_free_node latest_free_ptr current_series_ptr]; try done; try lia.
  - apply Hb.
  - by rewrite Hf.
  - left. done.
  - intros m. unfold set_bitmap. rewrite lookup_insert_eq. intros [= <-]. cbn [bitmap_t].
    rewrite Hbits by lia. unfold in_region. destruct (Z.leb_spec 0 0), (Z.ltb_spec 0 (0 + h)); [done|lia|lia|lia].
Qed.

Hypothesis (Hcur : addr (mnodes p) c < current_series_ptr p)
  (Hbit : ∀ n, mnodes p !! f = Some n → bit (bitmap_t n) 0 = true).

Lemma f_in : f ∈ l1 ++ c :: l2.
Proof. pose proof (b_latest _ _ _ _ _ _ _ _ _ _ Hb) as (_ & _ & Hf). set_solver. Qed.

Lemma palloc_latest_none : palloc_latest p h (8 * h) = Ret None.
Proof.
  destruct (node_in f f_in) as (n & Hn & En & Ea & Hw & Hl).
  pose proof (b_latest _ _ _ _ _ _ _ _ _ _ Hb) as (La1 & La2 & La3).
  unfold palloc_latest. rewrite La1, La2, En. cbn [mbind outcome_bind].
  replace (addr (mnodes p) f - preal n) with (8 * 0) by lia. rewrite div8, (sw_id 32) by lia.
  pose proof (isset_region_spec (bitmap_t n) 0 h Hw (region_ok _ 0 h Hl ltac:(lia) ltac:(lia) ltac:(lia))) as Hs.
  destruct (bm_isset_region (bitmap_t n) 0 h) as [r| |]; [|done|done]. cbn [returns mbind outcome_bind] in Hs |- *.
  destruct Hs as [(-> & _)|(-> & Hclr)]; [done|]. pose proof (Hbit n Hn) as Hb0. by rewrite (Hclr 0) in Hb0 by lia.
Qed.

Lemma latest_ne : latest_free_ptr p ≠ current_series_ptr p.
Proof.
  pose proof (b_latest _ _ _ _ _ _ _ _ _ _ Hb) as (La1 & La2 & La3). rewrite La2.
  apply elem_of_app in La3 as [Hf|Hf%list_elem_of_singleton]; [|subst; lia].
  pose proof (b_ordered _ _ _ _ _ _ _ _ _ _ Hb) as Ho. rewrite (b_locs _ _ _ _ _ _ _ _ _ _ Hb) in Ho.
  pose proof (ordered_app _ _ _ f c Ho Hf ltac:(set_solver)). lia.
Qed.

(** Bits stay set. *)
Lemma keep_bit x n bm m :
  mnodes p !! x = Some n → (∀ i, 0 ≤ i → bit bm i = true ∨ bit bm i = bit (bitmap_t n) i) →
  set_bitmap (mnodes p) x n bm !! f = Some m → bit (bitmap_t m) 0 = true.
Proof.
  intros Hn Hk. unfold set_bitmap. destruct (decide (f = x)) as [->|].
  - rewrite lookup_insert_eq. intros [= <-]. cbn [bitmap_t]. destruct (Hk 0 ltac:(lia)) as [| ->]; [done|by apply Hbit].
  - rewrite lookup_insert_ne by done. apply Hbit.
Qed.

Lemma palloc_current_ok :
  returns (palloc_current p h (8 * h)) (λ r, ∀ q p', r = Some (q, p') → bump A lo used p' t f c l1 l2 ((q, 8 * h) :: B)).
Proof.
  destruct (node_in c ltac:(set_solver)) as (n & Hn & En & Ea & Hw & Hl).
  pose proof (b_cur _ _ _ _ _ _ _ _ _ _ Hb) as Hc. destruct (b_ptr _ _ _ _ _ _ _ _ _ _ Hb) as (k & Hk & Hk2).
  unfold palloc_current. rewrite Hc, En. cbn [mbind outcome_bind].
  replace (current_series_ptr p - preal n) with (8 * k) by lia. rewrite (sw_id 32), div8, body_size by lia.
  destruct (Z.ltb_spec (8 * k + 8 * h) 4096) as [Hfit|]; [|done].
  run (setbit_region_spec (bitmap_t n) k h Hw (region_ok _ k h Hl ltac:(lia) ltac:(lia) ltac:(lia))). intros bm (Hw' & Hl' & Hbits). cbn [returns].
  rewrite (bool_decide_eq_false_2 _ latest_ne). intros q p' [= <- <-].
  eapply (bump_alloc p t f c l1 l2 B _ c l1 l2 n bm _ k h Hb); cbn [rbroot mnodes current_series_node latest_free_node latest_free_ptr current_series_ptr]; try done; try lia.
  - apply Hb.
  - left. done.
  - intros m. apply (keep_bit c n bm m Hn). intros i Hi. rewrite Hbits by done. destruct (in_region k h i); auto.
Qed.

Lemma palloc_next_ok :
  returns (palloc_next p h (8 * h)) (λ r, match r with
    | Some (q, p') => ∃ x (l2' : list loc), l2 = x :: l2' ∧ bump A lo used p' t f x (l1 ++ [c]) l2' ((q, 8 * h) :: B)
    | None => l2 = []
    end).
Proof.
  pose proof (b_cur _ _ _ _ _ _ _ _ _ _ Hb) as Hc.
  destruct (rb_walk_ok (rbroot p) t (b_rep _ _ _ _ _ _ _ _ _ _ Hb)) as (_ & _ & Hwalk).
  destruct (Hwalk l1 c l2 (b_locs _ _ _ _ _ _ _ _ _ _ Hb)) as [Hnext _].
  unfold palloc_next. rewrite Hc, Hnext. cbn [mbind outcome_bind]. case_eq l2; [done|]. intros x l2' E2.
  cbn [head_ptr]. destruct (node_in x ltac:(rewrite E2; set_solver)) as (n & Hn & En & Ea & Hw & Hl). rewrite En. cbn [mbind outcome_bind].
  run (setbit_region_spec (bitmap_t n) 0 h Hw (region_ok _ 0 h Hl ltac:(lia) ltac:(lia) ltac:(lia))). intros bm (Hw' & Hl' & Hbits). cbn [returns].
  exists x, l2'. split; [done|].
  eapply (bump_alloc p t f c l1 l2 B _ x (l1 ++ [c]) l2' n bm _ 0 h Hb); cbn [rbroot mnodes current_series_node latest_free_node latest_free_ptr current_series_ptr]; try done; try lia.
  - rewrite (b_locs _ _ _ _ _ _ _ _ _ _ Hb), E2. by rewrite <-app_assoc.
  - by right.
  - intros m. apply (keep_bit x n bm m Hn). intros i Hi. rewrite Hbits by done. destruct (in_region 0 h i); auto.
Qed.
End step.
End pool.

Section growth.
Implicit Types (p : mem_pool) (B : list block).

Lemma bump_weaken A lo used p t f c l1 l2 B lo' l :
  bump A lo used p t f c l1 l2 B → lo ≤ lo' → bump A lo' (l :: used) p t f c l1 l2 B.
Proof.
  intros [] Hlo. constructor; try done. intros x Hx. destruct (b_wf0 x Hx) as (H1 & H2 & H3 & H4 & H5).
  split; [done|]. split; [done|]. split; [lia|]. split; [by right|done].
Qed.

Lemma wf_zeros : wf_bitmap (replicate 8 0).
Proof. repeat constructor; unfold is_u64; lia. Qed.

Lemma bit_zeros i : 0 ≤ i < 512 → bit (replicate 8 0) i = false.
Proof. intros Hi. unfold bit. rewrite lookup_total_replicate_2 by dlia. apply Z.testbit_0_l. Qed.

(** The pool with the node [l] of address [a] added at the end of the tree. *)
Lemma insert_last s data t l bm a lo :
  represents s t → valid t → ordered data (locs t) → l ∉ locs t → lo < a →
  (∀ k, k ∈ locs t → addr data k + 4096 ≤ lo) →
  returns (minipwr_mem_node_insert s (<[l := MemNode bm a]> data) l) (λ r : Z * rb_tree, let '(_, s') := r in
    ∃ t', represents s' t' ∧ valid t' ∧ locs t' = locs t ++ [l] ∧ ordered (<[l := MemNode bm a]> data) (locs t')).
Proof.
  intros H Hv Ho Hl Ha Hlo.
  assert (∀ k, k ∈ locs t → addr (<[l := MemNode bm a]> data) k = addr data k) as Eadd.
  { intros k Hk. unfold addr. rewrite lookup_insert_ne; [done|]. by intros ->. }
  assert (addr (<[l := MemNode bm a]> data) l = a) as El by (unfold addr; by rewrite lookup_insert_eq).
  eapply returns_mono; [apply (node_insert_ok s (<[l := MemNode bm a]> data) t l (MemNode bm a)); [done|done| |done|by rewrite lookup_insert_eq|]|].
  - eapply ordered_ext; [exact Eadd| |exact Ho]. intros k Hk Hs. rewrite lookup_insert_ne; [done|]. by intros ->.
  - intros k Hk. rewrite Eadd by done. left. specialize (Hlo k Hk). simpl. lia.
  - intros [r s'] [(_ & _ & k & Hk & Hadj)|(_ & t' & la & lb & R & V & L1 & L2 & O)].
    { rewrite Eadd in Hadj by done. specialize (Hlo k Hk). simpl in Hadj. lia. }
    exists t'. split; [done|]. split; [done|]. split; [|done]. rewrite L2, L1.
    destruct lb as [|k lb]; [by rewrite app_nil_r|]. exfalso.
    assert (k ∈ locs t) as Hk by (rewrite L1; set_solver). specialize (Hlo k Hk).
    rewrite L2, cons_middle, app_assoc in O. pose proof (ordered_app _ _ _ l k O ltac:(set_solver) ltac:(set_solver)) as Hlk.
    rewrite El, (Eadd k Hk) in Hlk. lia.
Qed.

Lemma bump_grow A lo used p t f c l1 l2 B s' t' l a p' :
  bump A lo used p t f c l1 l2 B → lo < a → l ∉ used → a ∈ A →
  represents s' t' → valid t' → locs t' = locs t ++ [l] →
  ordered (<[l := MemNode (replicate 8 0) a]> (mnodes p)) (locs t') →
  rbroot p' = s' → mnodes p' = <[l := MemNode (replicate 8 0) a]> (mnodes p) →
  current_series_node p' = current_series_node p → current_series_ptr p' = current_series_ptr p →
  latest_free_node p' = latest_free_node p → latest_free_ptr p' = latest_free_ptr p →
  bump A (a + 4096) (l :: used) p' t' f c l1 (l2 ++ [l]) B.
Proof.
  intros [R V L O W Cu Pt (La1 & La2 & La3) St Bl Ap] Ha Hl HA R' V' L' O' Es Em E1 E2 E3 E4.
  assert (∀ k, k ∈ locs t → k ≠ l) as Hne by (intros k Hk ->; apply Hl; by apply W).
  assert (∀ k, k ∈ locs t → mnodes p' !! k = mnodes p !! k) as Elk.
  { intros k Hk. rewrite Em. apply lookup_insert_ne. intros E. by apply (Hne k). }
  assert (∀ k, k ∈ locs t → addr (mnodes p') k = addr (mnodes p) k) as Eadd.
  { intros k Hk. unfold addr. by rewrite Elk. }
  assert (addr (mnodes p') l = a) as El by (unfold addr; rewrite Em; by rewrite lookup_insert_eq).
  assert (c ∈ locs t) as Hc by (rewrite L; set_solver).
  assert (∀ k, k ∈ l1 ++ [c] → k ∈ locs t) as Hsub by (intros k Hk; rewrite L; set_solver).
  assert (0 < a) as Hpos by (destruct (W c Hc) as (_ & ? & ? & _); lia).
  assert (f ∈ locs t) as Hf by auto.
  constructor; try done.
  - by rewrite Es.
  - rewrite L', L. by rewrite <-app_assoc.
  - by rewrite Em.
  - intros k Hk. rewrite L' in Hk. apply elem_of_app in Hk as [Hk|Hk%list_elem_of_singleton].
    + destruct (W k Hk) as (W1 & W2 & W3 & W4 & W5). rewrite Eadd by done. split; [unfold node_wf; by rewrite Elk|].
      split; [done|]. split; [lia|]. split; [by right|done].
    + subst k. rewrite El. split; [|split; [done|split; [lia|split; [by left|done]]]].
      exists (MemNode (replicate 8 0) a). rewrite Em, lookup_insert_eq. split; [done|]. split; [apply wf_zeros|done].
  - by rewrite E1.
  - rewrite E2, Eadd by done. done.
  - rewrite E3, E4, Eadd by done. done.
  - rewrite E2, Eadd, Elk by done. exact St.
  - intros b Hb. destruct (Bl b Hb) as (H1 & k & H2 & H3 & H4 & H5). split; [done|]. exists k.
    rewrite Eadd, E2 by auto. done.
Qed.

Lemma palloc_new_ok A lo used p t f c l1 B h r l a :
  bump A lo used p t f c l1 [] B → 1 ≤ h ≤ 512 →
  addr (mnodes p) c < current_series_ptr p → (∀ n, mnodes p !! f = Some n → bit (bitmap_t n) 0 = true) →
  na_node r = Some l → na_body r = Some a → length (na_junk r) = 8%nat → lo < a → l ∉ used → a ∈ A →
  returns (palloc_new p h (8 * h) r) (λ x : Z * mem_pool, let '(q, p') := x in
    ∃ t', bump A (a + 4096) (l :: used) p' t' f l (l1 ++ [c]) [] ((q, 8 * h) :: B)).
Proof.
  intros Hb Hh Hcur Hbit El Ea Hj Ha Hl HA. unfold palloc_new. rewrite (init_node_ok r l a _ El Ea Hj).
  cbn [mbind outcome_bind]. rewrite (proj1 (node_at_ok _ l _ (lookup_insert_eq _ _ _))). cbn [mbind outcome_bind bitmap_t].
  run (setbit_region_spec (replicate 8 0) 0 h wf_zeros (region_ok (replicate 8 0) 0 h eq_refl ltac:(lia) ltac:(lia) ltac:(lia))).
  intros bm (Hw & Hlen & Hbits). unfold set_bitmap. rewrite insert_insert_eq. cbn [preal].
  pose proof (b_wf _ _ _ _ _ _ _ _ _ _ Hb) as W. pose proof (b_locs _ _ _ _ _ _ _ _ _ _ Hb) as L.
  run (insert_last (rbroot p) (mnodes p) t l bm a lo); [apply Hb|apply Hb|apply Hb| |done| |].
  { intros Hin. apply Hl. by apply W. }
  { intros k Hk. by apply W. }
  intros [z s'] (t' & R' & V' & L' & O'). cbn [returns]. exists t'.
  assert (ordered (<[l := MemNode (replicate 8 0) a]> (mnodes p)) (locs t')) as O0.
  { eapply ordered_ext; [| |exact O'].
    - intros k _. unfold addr. destruct (decide (k = l)) as [->|]; [by rewrite !lookup_insert_eq|by rewrite !lookup_insert_ne].
    - intros k _. rewrite !lookup_insert_is_Some. done. }
  assert (bump A (a + 4096) (l :: used) (MemPool (current_series_node p) (latest_free_node p) (current_series_ptr p) (latest_free_ptr p)
    (pool_total_size p) (pool_left_series_size p) (pool_node_nb p) s' (<[l := MemNode (replicate 8 0) a]> (mnodes p))) t' f c l1 [l] B) as Hg.
  { by eapply (bump_grow A lo used p t f c l1 [] B s' t' l a). }
  eapply (bump_alloc A _ _ _ t' f c l1 [l] B _ l (l1 ++ [c]) [] (MemNode (replicate 8 0) a) bm _ 0 h Hg);
    cbn [rbroot mnodes current_series_node latest_free_node latest_free_ptr current_series_ptr]; try done; try lia.
  - rewrite L', L. by rewrite <-!app_assoc.
  - by rewrite lookup_insert_eq.
  - unfold set_bitmap. by rewrite insert_insert_eq.
  - unfold addr. rewrite lookup_insert_eq. simpl. lia.
  - by right.
  - intros m. destruct (decide (f = l)) as [->|].
    + rewrite lookup_insert_eq. intros [= <-]. cbn [bitmap_t]. rewrite Hbits by lia. unfold in_region.
      destruct (Z.leb_spec 0 0), (Z.ltb_spec 0 (0 + h)); [done|lia..].
    + rewrite lookup_insert_ne by done. apply Hbit.
Qed.

(** One allocation. *)
Lemma palloc_step A lo used p t f c l1 l2 B h r l a :
  bump A lo used p t f c l1 l2 B → 1 ≤ h ≤ 512 →
  na_node r = Some l → na_body r = Some a → length (na_junk r) = 8%nat → lo < a → l ∉ used → a ∈ A →
  returns (minipwr_palloc (Some p) h 0 r) (λ x : Z * option mem_pool, let '(q, pool) := x in
    ∃ p' t' c' (l1' l2' : list loc), pool = Some p' ∧ bump A (a + 4096) (l :: used) p' t' f c' l1' l2' ((q, 8 * h) :: B)).
Proof.
  intros Hb Hh El Ea Hj Ha Hl HA. unfold minipwr_palloc.
  rewrite Z.shiftl_mul_pow2 by lia. change (2 ^ 3) with 8. rewrite (Z.mul_comm h 8), in_s32_ok by (unfold is_s32; lia).
  cbn [mbind outcome_bind]. rewrite body_size, (proj2 (Z.ltb_ge 4096 (8 * h))), (proj2 (Z.leb_gt (8 * h) 0)) by lia.
  destruct (b_state _ _ _ _ _ _ _ _ _ _ Hb) as [(HB & Hf & Hc & Hclr)|(Hc & Hbit)].
  - run (palloc_latest_first A lo used p t f c l1 l2 B h Hb Hh HB Hf Hc Hclr). intros x (q & p' & -> & Hb').
    cbn [returns]. exists p', t, c, l1, l2. split; [done|]. eapply bump_weaken; [exact Hb'|lia].
  - rewrite (palloc_latest_none A lo used p t f c l1 l2 B h Hb Hh Hc Hbit). cbn [mbind outcome_bind].
    run (palloc_current_ok A lo used p t f c l1 l2 B h Hb Hh Hc Hbit). intros [[q p']|] Hcurr.
    { cbn [returns]. exists p', t, c, l1, l2. split; [done|]. eapply bump_weaken; [by apply Hcurr|lia]. }
    run (palloc_next_ok A lo used p t f c l1 l2 B h Hb Hh Hc Hbit). intros [[q p']|].
    { intros (x & l2' & _ & Hb'). cbn [returns]. exists p', t, x, (l1 ++ [c]), l2'. split; [done|]. eapply bump_weaken; [exact Hb'|lia]. }
    intros ->. run (palloc_new_ok A lo used p t f c l1 B h r l a); try done. intros [q p'] (t' & Hb').
    cbn [returns]. exists p', t', l, (l1 ++ [c]), []. done.
Qed.
End growth.

(** ** From the creation of the pool to a sequence of requests *)
Section lifetime.
Implicit Types (p : mem_pool) (B : list block).

Lemma create_step_ok A lo used p t f l2 num i r allocs l a :
  bump A lo used p t f f [] l2 [] → 0 < i < num →
  na_node r = Some l → na_body r = Some a → length (na_junk r) = 8%nat → lo < a → l ∉ used → a ∈ A →
  returns (create_step num (i, r :: allocs, p)) (λ x, ∃ p' t', x = inl (i + 1, allocs, p') ∧
    bump A (a + 4096) (l :: used) p' t' f f [] (l2 ++ [l]) []).
Proof.
  intros Hb Hi El Ea Hj Ha Hl HA. unfold create_step. rewrite (proj2 (Z.ltb_lt i num)) by lia.
  rewrite (init_node_ok r l a _ El Ea Hj). cbn [mbind outcome_bind].
  pose proof (b_wf _ _ _ _ _ _ _ _ _ _ Hb) as W.
  run (insert_last (rbroot p) (mnodes p) t l (replicate 8 0) a lo); [apply Hb|apply Hb|apply Hb| |done| |].
  { intros Hin. apply Hl. by apply W. }
  { intros k Hk. by apply W. }
  intros [z s'] (t' & R' & V' & L' & O'). rewrite (proj1 (node_at_ok _ l _ (lookup_insert_eq _ _ _))). cbn [mbind outcome_bind returns].
  rewrite bool_decide_eq_false_2 by lia. eexists _, t'. split; [done|]. by eapply (bump_grow A lo used p t f f [] l2 [] s' t' l a).
Qed.

Lemma create_first A num r allocs l a total :
  0 < num → na_node r = Some l → na_body r = Some a → length (na_junk r) = 8%nat → 0 < a → a ∈ A →
  returns (create_step num (0, r :: allocs, MemPool Junk Junk 0 0 total total num (RbTree Null ∅) ∅)) (λ x, ∃ p t,
    x = inl (1, allocs, p) ∧ bump A (a + 4096) [l] p t l l [] [] []).
Proof.
  intros Hnum El Ea Hj Ha HA. unfold create_step. rewrite (proj2 (Z.ltb_lt 0 num)) by lia. cbn [mnodes rbroot].
  rewrite (init_node_ok r l a _ El Ea Hj). cbn [mbind outcome_bind].
  run (insert_last (RbTree Null ∅) ∅ E l (replicate 8 0) a 0); [| | | |done| |].
  { split; [done|]. split; [done|constructor]. }
  { split; [done|by exists O]. }
  { split; [constructor|]. intros x Hx. by apply elem_of_nil in Hx. }
  { apply not_elem_of_nil. }
  { intros k Hk. by apply elem_of_nil in Hk. }
  intros [z s'] (t' & R' & V' & L' & O'). simpl in L'.
  rewrite (proj1 (node_at_ok _ l _ (lookup_insert_eq _ _ _))). cbn [mbind outcome_bind returns preal].
  rewrite bool_decide_eq_true_2 by done. eexists _, t'. split; [done|].
  assert (addr (<[l := MemNode (replicate 8 0) a]> ∅) l = a) as Eadd by (unfold addr; by rewrite lookup_insert_eq).
  constructor; cbn [rbroot mnodes current_series_node latest_free_node latest_free_ptr current_series_ptr]; try done.
  - intros k Hk. rewrite L' in Hk. apply list_elem_of_singleton in Hk as ->. rewrite Eadd.
    split; [|split; [done|split; [lia|split; [by left|done]]]].
    exists (MemNode (replicate 8 0) a). rewrite lookup_insert_eq. split; [done|]. split; [apply wf_zeros|done].
  - exists 0. rewrite Eadd. lia.
  - rewrite Eadd. split; [done|]. split; [done|set_solver].
  - left. rewrite Eadd. split; [done|]. split; [done|]. split; [done|]. intros n.
    rewrite lookup_insert_eq. intros [= <-]. apply bit_zeros.
  - intros b Hb. by apply elem_of_nil in Hb.
Qed.

Lemma create_rest A num rs allocs : ∀ lo used p t f l2 i fuel,
  bump A lo used p t f f [] l2 [] → 0 < i → i + Z.of_nat (length allocs) = num →
  ascending lo used (allocs ++ rs) → (∀ a, a ∈ bodies allocs → a ∈ A) → (length allocs < fuel)%nat →
  returns (loop fuel (create_step num) (i, allocs, p)) (λ x : bool * mem_pool, let '(ok, p') := x in ok = true ∧
    ∃ lo' used' t' l2', bump A lo' used' p' t' f f [] l2' [] ∧ ascending lo' used' rs).
Proof.
  induction allocs as [|r allocs IH]; intros lo used p t f l2 i fuel Hb Hi Hn Has HA Hf;
    (destruct fuel as [|fuel]; [lia|]); rewrite loop_S; cbn [length] in *.
  - assert (create_step num (i, [], p) = Ret (inr (true, p))) as ->.
    { unfold create_step. by rewrite (proj2 (Z.ltb_ge i num)) by lia. }
    cbn [mbind outcome_bind returns].
    split; [done|]. exists lo, used, t, l2. done.
  - simpl in Has. destruct Has as (l & a & El & Ea & Hj & Ha & Hl & Has).
    assert (∀ x, x ∈ bodies (r :: allocs) ↔ x = a ∨ x ∈ bodies allocs) as Hbod.
    { intros x. unfold bodies. simpl. rewrite Ea. simpl. apply elem_of_cons. }
    run (create_step_ok A lo used p t f l2 num i r allocs l a); try done; try lia.
    { apply HA, Hbod. by left. }
    intros x (p' & t' & -> & Hb'). cbn [returns]. apply (IH (a + 4096) (l :: used) p' t' f (l2 ++ [l])); try done; try lia.
    intros y Hy. apply HA, Hbod. by right.
Qed.

Lemma create_pool_ok num allocs rs A :
  1 ≤ num < 2 ^ 19 → Z.of_nat (length allocs) = num → ascending 0 [] (allocs ++ rs) → (∀ a, a ∈ bodies allocs → a ∈ A) →
  returns (minipwr_create_pool num true false allocs) (λ x : Z * option mem_pool, let '(r, pool) := x in r = 0 ∧
    ∃ p lo used t f l2, pool = Some p ∧ bump A lo used p t f f [] l2 [] ∧ ascending lo used rs).
Proof.
  intros Hnum Hlen Has HA. unfold minipwr_create_pool. rewrite (proj2 (Z.leb_gt num 0)) by lia.
  rewrite body_size, in_s32_ok by (unfold is_s32; lia). cbn [mbind outcome_bind]. unfold create_nodes.
  destruct allocs as [|r allocs]; [simpl in Hlen; lia|]. rewrite loop_S. cbn [length] in Hlen.
  simpl in Has. destruct Has as (l & a & El & Ea & Hj & Ha & Hl & Has).
  assert (∀ x, x ∈ bodies (r :: allocs) ↔ x = a ∨ x ∈ bodies allocs) as Hbod.
  { intros x. unfold bodies. simpl. rewrite Ea. simpl. apply elem_of_cons. }
  apply returns_bind. run (create_first A num r allocs l a (num * 4096)); try done; try lia.
  { apply HA, Hbod. by left. }
  intros x (p & t & -> & Hb). cbn [returns].
  eapply returns_mono.
  { apply (create_rest A num rs allocs (a + 4096) [l] p t l [] 1); try done; try lia.
    intros y Hy. apply HA, Hbod. by right. }
  intros [ok p'] (-> & lo & used & t' & l2 & Hb' & Has'). cbn [returns]. split; [done|].
  exists p', lo, used, t', l, l2. done.
Qed.

Lemma palloc_all_ok A reqs : ∀ lo used p t f c (l1 l2 : list loc) B,
  bump A lo used p t f c l1 l2 B → ascending lo used reqs.*2 → (∀ a, a ∈ bodies reqs.*2 → a ∈ A) →
  Forall (λ h, 1 ≤ h ≤ 512) reqs.*1 →
  returns (palloc_all (Some p) reqs) (λ B', Forall2 (λ b req, b.2 = 8 * req.1) B' reqs ∧
    ∃ lo' used' p' t' f' c' (l1' l2' : list loc), bump A lo' used' p' t' f' c' l1' l2' (reverse B' ++ B)).
Proof.
  induction reqs as [|[h r] reqs IH]; intros lo used p t f c l1 l2 B Hb Has HA Hsz.
  - cbn. split; [constructor|]. exists lo, used, p, t, f, c, l1, l2. done.
  - cbn [palloc_all fmap list_fmap snd fst] in *. apply Forall_cons in Hsz as [Hh Hsz].
    destruct Has as (l & a & El & Ea & Hj & Ha & Hl & Has).
    assert (∀ x, x ∈ bodies (r :: reqs.*2) ↔ x = a ∨ x ∈ bodies reqs.*2) as Hbod.
    { intros x. unfold bodies. simpl. rewrite Ea. simpl. apply elem_of_cons. }
    run (palloc_step A lo used p t f c l1 l2 B h r l a); try done.
    { apply HA, Hbod. by left. }
    intros [q pool] (p' & t' & c' & l1' & l2' & -> & Hb').
    run (IH (a + 4096) (l :: used) p' t' f c' l1' l2' _ Hb' Has); [|done|].
    { intros y Hy. apply HA, Hbod. by right. }
    intros B' (HF & lo' & used' & p'' & t'' & f'' & c'' & l1'' & l2'' & Hb''). cbn [returns].
    split; [by constructor|]. exists lo', used', p'', t'', f'', c'', l1'', l2''.
    by rewrite reverse_cons, <-app_assoc.
Qed.

Lemma pairwise_apart_perm B B' : B ≡ₚ B' → pairwise_apart B → pairwise_apart B'.
Proof.
  induction 1 as [|b B B' HP IH|b1 b2 B|B1 B2 B3 _ IH1 _ IH2]; simpl; try tauto.
  - intros [H1 H2]. split; [|by apply IH]. intros b' Hb'. apply H1. by rewrite HP.
  - intros (H1 & H2 & H3). split; [|split; [|done]].
    + intros b' [->|Hb']%elem_of_cons; [|by apply H2]. destruct (H1 b1) as [?|?]; [by left|by right|by left].
    + intros b' Hb'. apply H1. by right.
Qed.
End lifetime.

(** ** Destruction *)

(** [minipwr_destroy_pool] frees every body once, in the order of the addresses. *)
Theorem destroy_pool_correct p t :
  represents (rbroot p) t → valid t → (∀ l, l ∈ locs t → is_Some (mnodes p !! l)) →
  minipwr_destroy_pool p = Ret (addr (mnodes p) <$> locs t).
Proof.
  intros H Hv Hd. unfold minipwr_destroy_pool.
  rewrite (proj1 (rb_walk_ok _ _ H)). cbn [mbind outcome_bind].
  assert (∀ fuel s t' freed, represents s t' → valid t' → (∀ l, l ∈ locs t' → is_Some (mnodes p !! l)) →
    (length (locs t') < fuel)%nat →
    loop fuel (λ st : ptr * rb_tree * list Z,
      let '(node, s, freed) := st in
      let! b := truth node in
      if b : bool then
        let! data := node_at (mnodes p) node in
        let! next := rb_next s node in
        let! s := rb_erase s node in
        Ret (inl (next, s, freed ++ [preal data]))
      else Ret (inr freed)) (head_ptr (locs t'), s, freed) = Ret (freed ++ (addr (mnodes p) <$> locs t'))) as Hloop.
  { induction fuel as [|fuel IH]; intros s t' freed Hs Hv' Hd' Hf; [lia|]. rewrite loop_S.
    destruct (locs t') as [|x ls] eqn:El.
    - cbn. by rewrite app_nil_r.
    - cbn [head_ptr truth mbind outcome_bind]. destruct (Hd' x) as [n Hn]; [by left|].
      destruct (node_at_ok (mnodes p) x n Hn) as [-> Ea]. cbn [mbind outcome_bind].
      destruct (rb_walk_ok s t' Hs) as (_ & _ & Hw). destruct (Hw [] x ls El) as [-> _]. cbn [mbind outcome_bind].
      pose proof (rb_erase_ok s t' [] x ls Hs Hv' El) as He. apply returns_eq in He as (s' & -> & t'' & Hs' & Hv'' & El' & _).
      cbn [mbind outcome_bind]. simpl in El'. rewrite <-El'. rewrite (IH s' t''); [|done|done| |].
      + rewrite El', <-app_assoc. cbn. by rewrite Ea.
      + intros l Hl. apply Hd'. right. by rewrite El' in Hl.
      + rewrite El'. simpl in Hf. lia. }
  apply Hloop; [done|done|done|]. pose proof (represents_size _ _ H). lia.
Qed.

(** ** Properties *)

(** C28 From its creation, as long as nothing is returned to it, a pool whose
    nodes come at increasing addresses serves every request of 1 to 512 units
    with a block of its own: inside the body of one node, and apart from every
    block handed out before. *)
Theorem palloc_disjoint num allocs reqs :
  1 ≤ num < 2 ^ 19 → Z.of_nat (length allocs) = num → ascending 0 [] (allocs ++ reqs.*2) →
  Forall (λ h, 1 ≤ h ≤ 512) reqs.*1 →
  returns (let! x := minipwr_create_pool num true false allocs in palloc_all x.2 reqs) (λ B,
    pairwise_apart B ∧
    Forall2 (λ b req, b.2 = 8 * req.1 ∧ ∃ a, a ∈ bodies (allocs ++ reqs.*2) ∧ a ≤ b.1 ∧ b.1 + b.2 ≤ a + 4096) B reqs).
Proof.
  intros Hnum Hlen Has Hsz. set (A := bodies (allocs ++ reqs.*2)).
  assert (A = bodies allocs ++ bodies reqs.*2) as EA by apply omap_app.
  run (create_pool_ok num allocs reqs.*2 A Hnum Hlen Has).
  { intros a Ha. rewrite EA. set_solver. }
  intros [r pool] (-> & p & lo & used & t & f & l2 & -> & Hb & Has').
  eapply returns_mono; [apply (palloc_all_ok A reqs lo used p t f f [] l2 [] Hb Has'); [|done]|].
  { intros a Ha. rewrite EA. set_solver. }
  intros B (HF & lo' & used' & p' & t' & f' & c' & l1' & l2' & Hb'). rewrite app_nil_r in Hb'. split.
  - eapply pairwise_apart_perm; [|apply (b_apart _ _ _ _ _ _ _ _ _ _ Hb')]. apply reverse_Permutation.
  - apply Forall2_same_length_lookup_2; [by eapply Forall2_length|]. intros i b req Hbi Hri.
    split; [by apply (Forall2_lookup_lr _ _ _ _ _ _ HF Hbi Hri)|]. destruct (b_blocks _ _ _ _ _ _ _ _ _ _ Hb' b) as (_ & k & Hk & H1 & H2 & _).
    { apply elem_of_reverse. by eapply list_elem_of_lookup_2. }
    exists (addr (mnodes p') k). split; [|done]. apply (b_wf _ _ _ _ _ _ _ _ _ _ Hb').
    rewrite (b_locs _ _ _ _ _ _ _ _ _ _ Hb'). set_solver.
Qed.

(** A node at location [l] with its body at [a]. *)
Definition fresh_node (l : loc) (a : Z) : node_alloc := NodeAlloc (Some l) (replicate 8 7) (Some a).

Lemma palloc_disjoint_witness :
  returns (let! x := minipwr_create_pool 1 true false [fresh_node 1 4096] in
           palloc_all x.2 [(300, fresh_node 2 12288); (300, fresh_node 3 20480)]) (λ B,
    pairwise_apart B ∧
    Forall2 (λ b req, b.2 = 8 * req.1 ∧ ∃ a, a ∈ bodies [fresh_node 1 4096; fresh_node 2 12288; fresh_node 3 20480] ∧
      a ≤ b.1 ∧ b.1 + b.2 ≤ a + 4096) B [(300, fresh_node 2 12288); (300, fresh_node 3 20480)]).
Proof.
  apply (palloc_disjoint 1 [fresh_node 1 4096] [(300, fresh_node 2 12288); (300, fresh_node 3 20480)]).
  - lia.
  - done.
  - repeat (eexists _, _; split; [done|]; split; [done|]; split; [done|]; split; [lia|]; split; [apply (bool_decide_unpack _); by vm_compute|]).
    done.
  - repeat constructor; simpl; lia.
Defined.

(** Allocation and release in the order of a list: [inl] a request with the node
    the allocator would give, [inr] the index of a block to return. *)
Fixpoint pool_trace (pool : option mem_pool) (ops : list (Z * node_alloc + nat)) (B : list block)
    : outcome (list block * option mem_pool) :=
  match ops with
  | [] => Ret (B, pool)
  | inl (h, r) :: ops =>
      let! x := minipwr_palloc pool h 0 r in pool_trace x.2 ops (B ++ [(x.1, 8 * h)])
  | inr i :: ops =>
      match B !! i with
      | Some (q, sz) => let! x := minipwr_pfree pool q (sz / 8) in pool_trace x.2 ops B
      | None => Ret (B, pool)
      end
  end.

Definition trace_from (a : Z) (ops : list (Z * node_alloc + nat)) : outcome (list block) :=
  let! x := minipwr_create_pool 1 true false [fresh_node 1 a] in
  let! r := pool_trace x.2 ops [] in Ret r.1.

(** Where the pool goes wrong.  (1) Without any release: the second node comes
    at a lower address, so the "next" node of the third request is the first one
    again, and its first block is handed out twice.  (2) Three blocks of one unit
    are returned, the first one last; a request of three units at the first runs
    over the end mark of the pool, and the next request gets its last unit again.
    (3) A request larger than what is left of a node behind [latest_free_ptr]
    runs over the bitmap.  (4) [minipwr_pcalloc] takes a block and returns [NULL]. *)
Lemma palloc_overlaps :
  trace_from 100000 [inl (300, fresh_node 2 50000); inl (300, fresh_node 2 50000); inl (300, fresh_node 3 90000)] =
    Ret [(100000, 2400); (50000, 2400); (100000, 2400)] ∧
  trace_from 100000 [inl (1, fresh_node 2 50000); inl (1, fresh_node 2 50000); inl (1, fresh_node 2 50000);
    inr 1%nat; inr 2%nat; inr 0%nat; inl (3, fresh_node 2 50000); inl (1, fresh_node 2 50000)] =
    Ret [(100000, 8); (100008, 8); (100016, 8); (100000, 24); (100016, 8)] ∧
  trace_from 100000 [inl (400, fresh_node 2 50000); inl (100, fresh_node 2 50000); inr 1%nat; inl (200, fresh_node 2 50000)] = Stuck ∧
  (let! x := minipwr_create_pool 1 true false [fresh_node 1 100000] in
   let! y := minipwr_pcalloc x.2 1 0 (fresh_node 2 50000) in
   let! z := minipwr_palloc y.2 1 0 (fresh_node 2 50000) in Ret (y.1, z.1)) = Ret (0, 100008).
Proof. split; [by vm_compute|]. split; [by vm_compute|]. split; by vm_compute. Qed.
