(* ===== verification/BufferOp.v ===== *)
(** * Message buffers: [CBufferManage] of the game login server
    ([logingame_server/src/main/bufferoperation.cpp] and [.h])

    A buffer manager is a cursor over a [char] array: integers are stored in
    network byte order, strings behind their 32-bit length.  The memory the
    manager points into is a list of byte values threaded through the writing
    operations, a [char *] into it is an index, [None] the null pointer.  An
    [int &] parameter is an argument (its value before the call) and a
    component of the result (its value after it).  Overloads get names of their
    own: [_str] takes a [string], [_buf] copies from or to a [char] array,
    [_ref] returns a pointer into the buffer. *)

From S2P Require Import Prelude Coding.

(** ** Definitions *)
Definition Err_Buffer_Param : Z := -1.
Definition Err_Buffer_Overflow : Z := -2.
Definition Err_Buffer_NoEnough : Z := -3.
Definition Err_Buffer_NoData : Z := -4.

(** [class CBufferManage]. *)
Record buffer_manage : Type := BufferManage {
  m_szBuffer : option Z;
  m_iBufferLen : Z;
  m_iOffset : Z
}.

Definition CBufferManage : buffer_manage := BufferManage None 0 0.

Definition AttachBuffer (s : buffer_manage) (szBuffer : option Z) (iBufferLen : Z) : Z * buffer_manage :=
  if bool_decide (szBuffer = None) || (iBufferLen <=? 0) then (Err_Buffer_Param, s)
  else (0, BufferManage szBuffer iBufferLen 0).

Definition DetachBuffer (s : buffer_manage) : Z * buffer_manage := (0, BufferManage None 0 0).
Definition GetBuffer (s : buffer_manage) : option Z := m_szBuffer s.
Definition GetBufferLen (s : buffer_manage) : Z := m_iBufferLen s.
Definition GetBufferOffset (s : buffer_manage) : Z := m_iOffset s.

Definition at_offset (s : buffer_manage) (off : Z) : buffer_manage :=
  BufferManage (m_szBuffer s) (m_iBufferLen s) off.

Definition SetOffset (s : buffer_manage) (iOffset : Z) : Z * buffer_manage :=
  if m_iBufferLen s <? iOffset then (Err_Buffer_Param, s) else (0, at_offset s iOffset).

(** [m_szBuffer + m_iOffset], about to be dereferenced. *)
Definition cursor (s : buffer_manage) : outcome Z :=
  match m_szBuffer s with
  | Some p => Ret (p + m_iOffset s)
  | None => Stuck
  end.

(** [m_iOffset += n] for a [size_t] [n]: unsigned arithmetic, back to [int]. *)
Definition advance (s : buffer_manage) (n : Z) : buffer_manage := at_offset s (s32 (m_iOffset s + n)).

(** [m_iOffset += n] for an [int] [n]. *)
Definition advance_int (s : buffer_manage) (n : Z) : outcome buffer_manage :=
  let! off := in_s32 (m_iOffset s + n) in Ret (at_offset s off).

(** The guard [m_iOffset + n > m_iBufferLen]. *)
Definition exceeds (s : buffer_manage) (n : Z) : outcome bool :=
  let! e := in_s32 (m_iOffset s + n) in Ret (m_iBufferLen s <? e).

(** The bytes of an [n]-byte number, most significant first. *)
Definition be_bytes (n : nat) (v : Z) : list Z := rev (le_bytes n v).

Section byte_order.
Context (host_le : bool).

(** [htonl] of the C library: the number whose representation in memory is
    the big-endian one; [ntohl] is its inverse. *)
Definition htonl (v : Z) : Z := object_value host_le (be_bytes 4 v).
Definition ntohl (v : Z) : Z := le_value (rev (object_bytes host_le 4 v)).

Definition LBER_HTONL (ll : Z) : Z :=
  let a := 0x00000000FFFFFFFF in
  let b := 0xFFFFFFFF00000000 in
  Z.lor (u64 (Z.shiftl (htonl (u32 (Z.land ll a))) 32)) (htonl (u32 (Z.shiftr (Z.land ll b) 32))).

Definition LBER_NTOHL (ll : Z) : Z :=
  let a := 0x00000000FFFFFFFF in
  let b := 0xFFFFFFFF00000000 in
  Z.lor (u64 (Z.shiftl (ntohl (u32 (Z.land ll a))) 32)) (ntohl (u32 (Z.shiftr (Z.land ll b) 32))).

(** [ntohl( *(int* )p )] as an [int], and [*(int* )p = htonl(v)]. *)
Definition read_int (mem : list Z) (p : Z) : outcome Z :=
  let! l := load_bytes mem p 4 in Ret (s32 (ntohl (object_value host_le l))).
Definition write_int (mem : list Z) (p v : Z) : outcome (list Z) :=
  store_bytes mem p (object_bytes host_le 4 (htonl (u32 v))).

(** *** Reading *)
Definition GetInt (mem : list Z) (s : buffer_manage) (iValue : Z) : outcome (Z * Z * buffer_manage) :=
  let! e := exceeds s 4 in
  if e : bool then Ret (Err_Buffer_Overflow, iValue, s)
  else
    let! p := cursor s in
    let! iValue := read_int mem p in
    Ret (0, iValue, advance s 4).

Definition GetLong64 (mem : list Z) (s : buffer_manage) (llValue : Z) : outcome (Z * Z * buffer_manage) :=
  let! e := exceeds s 8 in
  if e : bool then Ret (Err_Buffer_Overflow, llValue, s)
  else
    let! p := cursor s in
    let! l := load_bytes mem p 8 in
    Ret (0, LBER_NTOHL (object_value host_le l), advance s 8).

Definition GetChar (mem : list Z) (s : buffer_manage) (cValue : Z) : outcome (Z * Z * buffer_manage) :=
  let! e := exceeds s 1 in
  if e : bool then Ret (Err_Buffer_Overflow, cValue, s)
  else
    let! p := cursor s in
    let! cValue := aget mem p in
    Ret (0, cValue, advance s 1).

(** The offset stays behind the length when the string is refused. *)
Definition GetString_str (mem : list Z) (s : buffer_manage) (strValue : list Z)
    : outcome (Z * list Z * buffer_manage) :=
  let! e := exceeds s 4 in
  if e : bool then Ret (Err_Buffer_Overflow, strValue, s)
  else
    let! p := cursor s in
    let! iLength := read_int mem p in
    let s := advance s 4 in
    let! e := exceeds s iLength in
    if e || (iLength <? 0) then Ret (Err_Buffer_Overflow, strValue, s)
    else
      let! p := cursor s in
      let! strValue := load_bytes mem p (Z.to_nat iLength) in
      let! s := advance_int s iLength in
      Ret (0, strValue, s).

(** [dst] is the array behind [szBuffer]. *)
Definition GetString_buf (mem : list Z) (s : buffer_manage) (dst : option (list Z)) (iLength : Z)
    : outcome (Z * option (list Z) * Z * buffer_manage) :=
  match dst with
  | None => Ret (Err_Buffer_Param, dst, iLength, s)
  | Some szBuffer =>
      if iLength <=? 0 then Ret (Err_Buffer_Param, dst, iLength, s)
      else
        let! e := exceeds s 4 in
        if e : bool then Ret (Err_Buffer_Overflow, dst, iLength, s)
        else
          let! p := cursor s in
          let! iStringLen := read_int mem p in
          if iLength <=? iStringLen then
            let! n := in_s32 (iStringLen + 1) in
            Ret (Err_Buffer_NoEnough, dst, n, s)
          else
            let! e := exceeds s iStringLen in
            if e || (iStringLen <? 0) then Ret (Err_Buffer_Overflow, dst, 0, s)
            else
              let s := advance s 4 in
              let! p := cursor s in
              let! l := load_bytes mem p (Z.to_nat iStringLen) in
              let! szBuffer := store_bytes szBuffer 0 l in
              let! szBuffer := aset szBuffer iStringLen 0 in
              let! s := advance_int s iStringLen in
              Ret (0, Some szBuffer, iLength, s)
  end.

(** [pBuffer] is [None] for the null pointer, otherwise the pointer it holds. *)
Definition GetString_ref (mem : list Z) (s : buffer_manage) (pBuffer : option (option Z)) (iLength : Z)
    : outcome (Z * option (option Z) * Z * buffer_manage) :=
  if bool_decide (pBuffer = None) then Ret (Err_Buffer_Param, pBuffer, iLength, s)
  else
    let! e := exceeds s 4 in
    if e : bool then Ret (Err_Buffer_Overflow, pBuffer, iLength, s)
    else
      let! p := cursor s in
      let! iLength := read_int mem p in
      let! n := in_s32 (m_iOffset s + iLength) in
      let! n := in_s32 (n + 4) in
      if (m_iBufferLen s <? n) || (iLength <? 0) then Ret (Err_Buffer_Overflow, pBuffer, 0, s)
      else
        let s := advance s 4 in
        let! p := cursor s in
        let! s := advance_int s iLength in
        Ret (0, Some (Some p), iLength, s).

Definition GetCharBuffer_buf (mem : list Z) (s : buffer_manage) (dst : option (list Z)) (iLength : Z)
    : outcome (Z * option (list Z) * Z * buffer_manage) :=
  match dst with
  | None => Ret (Err_Buffer_Param, dst, iLength, s)
  | Some szBuffer =>
      if iLength <=? 0 then Ret (Err_Buffer_Param, dst, iLength, s)
      else
        let! e := exceeds s iLength in
        if e : bool then
          let! n := in_s32 (m_iBufferLen s - m_iOffset s) in
          Ret (Err_Buffer_NoData, dst, n, s)
        else
          let! p := cursor s in
          let! l := load_bytes mem p (Z.to_nat iLength) in
          let! szBuffer := store_bytes szBuffer 0 l in
          let! s := advance_int s iLength in
          Ret (0, Some szBuffer, iLength, s)
  end.

(** The length is not checked for being negative. *)
Definition GetCharBuffer_ref (s : buffer_manage) (ppBuffer : option (option Z)) (iBufferLen : Z)
    : outcome (Z * option (option Z) * Z * buffer_manage) :=
  if bool_decide (ppBuffer = None) then Ret (Err_Buffer_Param, ppBuffer, iBufferLen, s)
  else
    let! e := exceeds s iBufferLen in
    if e : bool then
      let! n := in_s32 (m_iBufferLen s - m_iOffset s) in
      Ret (Err_Buffer_NoData, ppBuffer, n, s)
    else
      let! p := cursor s in
      let! s := advance_int s iBufferLen in
      Ret (0, Some (Some p), iBufferLen, s).

(** *** Writing *)
Definition PutInt (mem : list Z) (s : buffer_manage) (iValue : Z) : outcome (Z * list Z * buffer_manage) :=
  let! e := exceeds s 4 in
  if e : bool then Ret (Err_Buffer_NoEnough, mem, s)
  else
    let! p := cursor s in
    let! mem := write_int mem p iValue in
    Ret (0, mem, advance s 4).

Definition PutLong64 (mem : list Z) (s : buffer_manage) (llValue : Z) : outcome (Z * list Z * buffer_manage) :=
  let! e := exceeds s 8 in
  if e : bool then Ret (Err_Buffer_NoEnough, mem, s)
  else
    let! p := cursor s in
    let! mem := store_bytes mem p (object_bytes host_le 8 (LBER_HTONL llValue)) in
    Ret (0, mem, advance s 8).

Definition PutChar (mem : list Z) (s : buffer_manage) (cChar : Z) : outcome (Z * list Z * buffer_manage) :=
  let! e := exceeds s 1 in
  if e : bool then Ret (Err_Buffer_NoEnough, mem, s)
  else
    let! p := cursor s in
    let! mem := aset mem p (u8 cChar) in
    Ret (0, mem, advance s 1).

Definition PutString_str (mem : list Z) (s : buffer_manage) (strValue : list Z)
    : outcome (Z * list Z * buffer_manage) :=
  let len := Z.of_nat (length strValue) in
  let! n := in_s32 (m_iOffset s + s32 len) in
  let! n := in_s32 (n + 4) in
  if m_iBufferLen s <? n then Ret (Err_Buffer_NoEnough, mem, s)
  else
    let! p := cursor s in
    let! mem := write_int mem p len in
    let s := advance s 4 in
    if 0 <? len then
      let! p := cursor s in
      let! mem := store_bytes mem p strValue in
      Ret (0, mem, advance s len)
    else Ret (0, mem, s).

(** [src] is the null-terminated array behind [szBuffer]. *)
Definition PutString_buf (mem : list Z) (s : buffer_manage) (src : option (list Z)) (iLength : Z)
    : outcome (Z * Z * list Z * buffer_manage) :=
  match src with
  | None => Ret (Err_Buffer_Param, iLength, mem, s)
  | Some szBuffer =>
      if iLength <? 0 then Ret (Err_Buffer_Param, iLength, mem, s)
      else
        let! n := in_s32 (m_iOffset s + 4) in
        let! n := in_s32 (n + iLength) in
        if m_iBufferLen s <? n then Ret (Err_Buffer_NoEnough, s32 (m_iOffset s + 4 + iLength), mem, s)
        else
          let! p := cursor s in
          let! mem := write_int mem p iLength in
          let! s := advance_int s 4 in
          if 0 <? iLength then
            let! p := cursor s in
            let! l := load_bytes szBuffer 0 (Z.to_nat iLength) in
            let! mem := store_bytes mem p l in
            let! s := advance_int s iLength in
            Ret (0, iLength, mem, s)
          else Ret (0, iLength, mem, s)
  end.

Definition PutCharBuffer (mem : list Z) (s : buffer_manage) (src : option (list Z)) (iLength : Z)
    : outcome (Z * Z * list Z * buffer_manage) :=
  match src with
  | None => Ret (Err_Buffer_Param, iLength, mem, s)
  | Some szBuffer =>
      if iLength <? 0 then Ret (Err_Buffer_Param, iLength, mem, s)
      else
        let! e := exceeds s iLength in
        if e : bool then
          let! n := in_s32 (m_iOffset s + iLength) in
          Ret (Err_Buffer_NoEnough, n, mem, s)
        else
          let! p := cursor s in
          let! l := load_bytes szBuffer 0 (Z.to_nat iLength) in
          let! mem := store_bytes mem p l in
          let! s := advance_int s iLength in
          Ret (0, iLength, mem, s)
  end.
End byte_order.

(** ** Specification *)

(** A string behind its length. *)
Definition wire_str (l : list Z) : list Z := be_bytes 4 (Z.of_nat (length l)) ++ l.

(** The manager is a window of [mem] with room for [n] more bytes. *)
Definition room (mem : list Z) (s : buffer_manage) (p n : Z) : Prop :=
  m_szBuffer s = Some p ∧ 0 ≤ p ∧ 0 ≤ m_iOffset s ∧ 0 ≤ n ∧ m_iOffset s + n ≤ m_iBufferLen s ∧
  m_iBufferLen s ≤ INT_MAX ∧ p + m_iBufferLen s ≤ Z.of_nat (length mem).

(** ** Lemmas *)

(** *** Byte order *)
Lemma length_be_bytes n v : length (be_bytes n v) = n.
Proof. unfold be_bytes. by rewrite length_rev, length_le_bytes. Qed.

Lemma be_bytes_u8 n v : Forall is_u8 (be_bytes n v).
Proof. unfold be_bytes. apply Forall_rev, le_bytes_range. Qed.

Lemma length_wire_str l : Z.of_nat (length (wire_str l)) = 4 + Z.of_nat (length l).
Proof. unfold wire_str. rewrite length_app, length_be_bytes. lia. Qed.

Lemma wire_str_u8 l : Forall is_u8 l → Forall is_u8 (wire_str l).
Proof. intros. apply Forall_app. split; [apply be_bytes_u8|done]. Qed.

Lemma splice_app buf k (l1 l2 : list Z) :
  (k + length l1 + length l2 ≤ length buf)%nat →
  splice (splice buf k l1) (k + length l1) l2 = splice buf k (l1 ++ l2).
Proof.
  intros H. unfold splice at 1 3. rewrite length_app, <-!app_assoc.
  replace (take (k + length l1) (splice buf k l1)) with (take k buf ++ l1).
  - rewrite <-app_assoc. do 3 f_equal.
    rewrite <-Nat.add_assoc, <-(drop_drop (splice buf k l1)), drop_splice by lia.
    rewrite <-(drop_drop (l1 ++ _)), drop_app_length, drop_drop. f_equal. lia.
  - unfold splice. rewrite app_assoc. rewrite take_app_length'; [done|].
    rewrite length_app, length_take. lia.
Qed.

Section byte_order_lemmas.
Context (host_le : bool).

Lemma object_bytes_value l : Forall is_u8 l → object_bytes host_le (length l) (object_value host_le l) = l.
Proof.
  intros H. unfold object_bytes, object_value. destruct host_le; [by apply le_bytes_value|].
  rewrite <-(length_rev l), le_bytes_value by by apply Forall_rev. apply rev_involutive.
Qed.

Lemma htonl_bytes v : object_bytes host_le 4 (htonl host_le v) = be_bytes 4 v.
Proof.
  unfold htonl. rewrite <-(length_be_bytes 4 v) at 1. apply object_bytes_value, be_bytes_u8.
Qed.

Lemma htonl_u32 v : is_u32 (htonl host_le v).
Proof.
  unfold htonl, object_value, is_u32. change (2 ^ 32) with (256 ^ Z.of_nat 4).
  pose proof (le_value_lt (be_bytes 4 v) (be_bytes_u8 4 v)) as H1.
  pose proof (le_value_lt (rev (be_bytes 4 v)) (Forall_rev (be_bytes_u8 4 v))) as H2.
  rewrite ?length_rev, length_be_bytes in *. by destruct host_le.
Qed.

Lemma ntohl_htonl v : is_u32 v → ntohl host_le (htonl host_le v) = v.
Proof.
  intros Hv. unfold ntohl. rewrite htonl_bytes. unfold be_bytes. rewrite rev_involutive.
  by apply le_value_bytes.
Qed.

Lemma ntohl_value l : Forall is_u8 l → length l = 4%nat → ntohl host_le (object_value host_le l) = le_value (rev l).
Proof. intros H El. unfold ntohl. rewrite <-El, object_bytes_value by done. done. Qed.

Lemma write_int_ok mem p v :
  0 ≤ p → p + 4 ≤ Z.of_nat (length mem) →
  write_int host_le mem p v = Ret (splice mem (Z.to_nat p) (be_bytes 4 (u32 v))).
Proof.
  intros Hp Hl. unfold write_int. rewrite htonl_bytes.
  apply store_bytes_ok; [done|rewrite length_be_bytes; lia|apply be_bytes_u8].
Qed.

Lemma read_int_bytes mem p l tl :
  0 ≤ p → length l = 4%nat → Forall is_u8 l → drop (Z.to_nat p) mem = l ++ tl →
  read_int host_le mem p = Ret (s32 (le_value (rev l))).
Proof.
  intros Hp El Hl Hd. unfold read_int. rewrite <-El at 1. rewrite (load_bytes_ok _ _ _ tl) by done.
  cbn [mbind outcome_bind]. by rewrite ntohl_value.
Qed.

Lemma read_int_ok mem p v tl :
  0 ≤ p → is_u32 v → drop (Z.to_nat p) mem = be_bytes 4 v ++ tl → read_int host_le mem p = Ret (s32 v).
Proof.
  intros Hp Hv Hd. rewrite (read_int_bytes _ _ _ _ Hp (length_be_bytes 4 v) (be_bytes_u8 4 v) Hd).
  unfold be_bytes. rewrite rev_involutive, le_value_bytes by exact Hv. done.
Qed.
End byte_order_lemmas.

(** *** The window *)
Lemma room_weaken mem s p n k : room mem s p n → 0 ≤ k ≤ n → room mem s p k.
Proof. unfold room. naive_solver lia. Qed.

Lemma room_shift mem s p n k : room mem s p n → 0 ≤ k ≤ n → room mem (at_offset s (m_iOffset s + k)) p (n - k).
Proof. unfold room. intros (E & Hr) Hk. split; [done|]. cbn [m_iOffset m_iBufferLen at_offset]. lia. Qed.

Lemma room_cursor mem s p n : room mem s p n → cursor s = Ret (p + m_iOffset s).
Proof. intros (E & _). unfold cursor. by rewrite E. Qed.

Lemma room_int mem s p n k : room mem s p n → 0 ≤ k ≤ n → in_s32 (m_iOffset s + k) = Ret (m_iOffset s + k).
Proof. unfold room, INT_MAX. intros H Hk. apply in_s32_ok. unfold is_s32. lia. Qed.

Lemma room_exceeds mem s p n k : room mem s p n → 0 ≤ k ≤ n → exceeds s k = Ret false.
Proof.
  intros H Hk. unfold exceeds. rewrite (room_int _ _ _ _ _ H Hk). cbn [mbind outcome_bind].
  unfold room in H. f_equal. lia.
Qed.

Lemma room_advance mem s p n k : room mem s p n → 0 ≤ k ≤ n → advance s k = at_offset s (m_iOffset s + k).
Proof.
  unfold room, INT_MAX. intros H Hk. unfold advance, s32. by rewrite sw_id by lia.
Qed.

Lemma room_advance_int mem s p n k :
  room mem s p n → 0 ≤ k ≤ n → advance_int s k = Ret (at_offset s (m_iOffset s + k)).
Proof. intros H Hk. unfold advance_int. by rewrite (room_int _ _ _ _ _ H Hk). Qed.

Lemma room_splice mem s p n k l :
  (k + length l ≤ length mem)%nat → room mem s p n → room (splice mem k l) s p n.
Proof. intros Hl. unfold room. by rewrite length_splice by done. Qed.

Lemma in_s32_stuck z : INT_MAX < z → in_s32 z = Stuck.
Proof. unfold INT_MAX, in_s32. intros. rewrite bool_decide_eq_false_2; [done|]. unfold is_s32. lia. Qed.

Section operations.
Context (host_le : bool).
Implicit Types (s : buffer_manage) (mem l tl : list Z).

(** The length stored at [q]. *)
Definition peek mem (q : Z) : Z := s32 (le_value (rev (take 4 (drop (Z.to_nat q) mem)))).

Lemma peek_wire mem q l tl :
  Z.of_nat (length l) ≤ INT_MAX → drop (Z.to_nat q) mem = wire_str l ++ tl → peek mem q = Z.of_nat (length l).
Proof.
  unfold INT_MAX. intros Hl Hd. unfold peek. rewrite Hd. unfold wire_str. rewrite <-app_assoc.
  rewrite take_app_length' by (by rewrite length_be_bytes). unfold be_bytes.
  rewrite rev_involutive, le_value_bytes by lia. apply sw_id; lia.
Qed.

Lemma read_int_peek mem p :
  Forall is_u8 mem → 0 ≤ p → p + 4 ≤ Z.of_nat (length mem) → read_int host_le mem p = Ret (peek mem p).
Proof.
  intros Hm Hp Hl. apply (read_int_bytes _ _ _ _ (drop 4 (drop (Z.to_nat p) mem))); [done|..].
  - rewrite length_take, length_drop. lia.
  - by apply Forall_take, Forall_drop.
  - by rewrite take_drop.
Qed.

Lemma peek_range mem q : is_s32 (peek mem q).
Proof. unfold peek, s32. apply (sw_range 32). lia. Qed.

(** Every outcome of [GetString_ref] inside a window. *)
Lemma GetString_ref_eq mem s p pb n :
  Forall is_u8 mem → room mem s p 0 →
  let v := peek mem (p + m_iOffset s) in
  GetString_ref host_le mem s (Some pb) n =
  if m_iBufferLen s <? m_iOffset s + 4 then
    (if INT_MAX <? m_iOffset s + 4 then Stuck else Ret (Err_Buffer_Overflow, Some pb, n, s))
  else if INT_MAX <? m_iOffset s + v + 4 then Stuck
  else if (0 <=? v) && (m_iOffset s + v + 4 <=? m_iBufferLen s)
  then Ret (0, Some (Some (p + m_iOffset s + 4)), v, at_offset s (m_iOffset s + (4 + v)))
  else Ret (Err_Buffer_Overflow, Some pb, 0, s).
Proof.
  intros Hm Hr v. unfold GetString_ref. rewrite bool_decide_eq_false_2 by done.
  unfold exceeds. destruct (Z.ltb_spec (m_iBufferLen s) (m_iOffset s + 4)) as [Hs|Hs].
  { destruct (Z.ltb_spec INT_MAX (m_iOffset s + 4)); [by rewrite in_s32_stuck by done|].
    rewrite in_s32_ok by (unfold room, INT_MAX, is_s32 in *; lia). cbn [mbind outcome_bind].
    by rewrite (proj2 (Z.ltb_lt _ _) Hs). }
  assert (room mem s p 4) as H4 by (unfold room in *; naive_solver lia).
  rewrite (room_int _ _ _ _ _ H4) by lia. cbn [mbind outcome_bind].
  rewrite (proj2 (Z.ltb_ge _ _) Hs), (room_cursor _ _ _ _ H4). cbn [mbind outcome_bind].
  rewrite read_int_peek by (unfold room in H4; naive_solver lia). cbn [mbind outcome_bind]. fold v.
  pose proof (peek_range mem (p + m_iOffset s)) as Hv. fold v in Hv. unfold is_s32 in Hv.
  destruct (Z.ltb_spec INT_MAX (m_iOffset s + v + 4)) as [Ho|Ho].
  { destruct (decide (INT_MAX < m_iOffset s + v)); [by rewrite in_s32_stuck by done|].
    rewrite in_s32_ok by (unfold room, INT_MAX, is_s32 in *; lia). cbn [mbind outcome_bind].
    by rewrite in_s32_stuck by done. }
  rewrite in_s32_ok by (unfold room, INT_MAX, is_s32 in *; lia). cbn [mbind outcome_bind].
  rewrite in_s32_ok by (unfold room, INT_MAX, is_s32 in *; lia). cbn [mbind outcome_bind].
  destruct (Z.ltb_spec v 0); [by rewrite orb_true_r, (proj2 (Z.leb_gt _ _)) by lia|].
  rewrite orb_false_r, Z.ltb_antisym, (proj2 (Z.leb_le 0 v)) by lia. rewrite andb_true_l.
  destruct (Z.leb_spec (m_iOffset s + v + 4) (m_iBufferLen s)) as [Hin|]; [|done]. cbn [negb].
  assert (room mem s p (4 + v)) as Hr' by (unfold room in *; naive_solver lia).
  pose proof (room_shift _ _ _ _ 4 Hr' ltac:(lia)) as Hr4.
  rewrite (room_advance _ _ _ _ _ Hr'), (room_cursor _ _ _ _ Hr4) by lia. cbn [mbind outcome_bind].
  rewrite (room_advance_int _ _ _ _ _ Hr4) by lia. cbn [mbind outcome_bind m_iOffset at_offset].
  unfold at_offset. cbn. by rewrite !Z.add_assoc.
Qed.

Lemma GetString_ref_ok mem s p pb n l tl :
  Forall is_u8 mem → room mem s p (4 + Z.of_nat (length l)) →
  drop (Z.to_nat (p + m_iOffset s)) mem = wire_str l ++ tl →
  GetString_ref host_le mem s (Some pb) n =
  Ret (0, Some (Some (p + m_iOffset s + 4)), Z.of_nat (length l), at_offset s (m_iOffset s + (4 + Z.of_nat (length l)))).
Proof.
  intros Hm Hr Hd. unfold room, INT_MAX in Hr.
  rewrite (GetString_ref_eq _ _ p) by (unfold room, INT_MAX in *; naive_solver lia). cbv zeta.
  rewrite (peek_wire _ _ l tl) by (unfold INT_MAX; lia || done). unfold INT_MAX.
  rewrite (proj2 (Z.ltb_ge _ _)) by lia. rewrite (proj2 (Z.ltb_ge _ _)) by lia.
  by rewrite (proj2 (Z.leb_le _ _)), (proj2 (Z.leb_le (_ + _ + _) _)) by lia.
Qed.

Lemma PutString_buf_ok mem s p l :
  room mem s p (4 + Z.of_nat (length l)) → Forall is_u8 l →
  PutString_buf host_le mem s (Some (l ++ [0])) (Z.of_nat (length l)) =
  Ret (0, Z.of_nat (length l), splice mem (Z.to_nat (p + m_iOffset s)) (wire_str l),
       at_offset s (m_iOffset s + (4 + Z.of_nat (length l)))).
Proof.
  intros Hr Hl. unfold PutString_buf. rewrite (proj2 (Z.ltb_ge _ 0)) by lia.
  rewrite (room_int _ _ _ _ _ Hr) by lia. cbn [mbind outcome_bind].
  rewrite <-Z.add_assoc, (room_int _ _ _ _ _ Hr) by lia. cbn [mbind outcome_bind].
  rewrite (proj2 (Z.ltb_ge _ _)) by (unfold room in Hr; lia).
  rewrite (room_cursor _ _ _ _ Hr). cbn [mbind outcome_bind].
  rewrite write_int_ok by (unfold room in Hr; lia). cbn [mbind outcome_bind].
  rewrite (room_advance_int _ _ _ _ _ Hr) by lia. cbn [mbind outcome_bind].
  rewrite u32_id by (unfold room, INT_MAX, is_u32 in *; lia). unfold wire_str.
  destruct (Z.ltb_spec 0 (Z.of_nat (length l))) as [Hpos|Hpos].
  - pose proof (room_shift _ _ _ _ 4 Hr ltac:(lia)) as Hr4. rewrite (room_cursor _ _ _ _ Hr4).
    cbn [mbind outcome_bind m_iOffset at_offset]. rewrite Nat2Z.id, (load_bytes_ok _ 0 l [0]) by done.
    cbn [mbind outcome_bind].
    assert (Z.to_nat (p + (m_iOffset s + 4)) = (Z.to_nat (p + m_iOffset s) + length (be_bytes 4 (Z.of_nat (length l))))%nat) as Ek
      by (rewrite length_be_bytes; unfold room in Hr; lia).
    rewrite store_bytes_ok; [|unfold room in Hr; lia| |done].
    + cbn [mbind outcome_bind]. rewrite Ek, splice_app by (rewrite length_be_bytes; unfold room in Hr; lia).
      rewrite (room_advance_int _ _ _ _ _ Hr4) by lia. cbn [mbind outcome_bind]. unfold at_offset. cbn.
      by rewrite !Z.add_assoc.
    + rewrite length_splice by (rewrite length_be_bytes; unfold room in Hr; lia). unfold room in Hr. lia.
  - destruct l; [|simpl in Hpos; lia]. by rewrite app_nil_r.
Qed.

Lemma PutString_buf_full mem s p l :
  room mem s p 0 → m_iBufferLen s < m_iOffset s + (4 + Z.of_nat (length l)) ≤ INT_MAX →
  PutString_buf host_le mem s (Some (l ++ [0])) (Z.of_nat (length l)) =
  Ret (Err_Buffer_NoEnough, m_iOffset s + (4 + Z.of_nat (length l)), mem, s).
Proof.
  unfold room, INT_MAX. intros Hr Hl. unfold PutString_buf. rewrite (proj2 (Z.ltb_ge _ 0)) by lia.
  rewrite in_s32_ok by (unfold is_s32; lia). cbn [mbind outcome_bind].
  rewrite in_s32_ok by (unfold is_s32; lia). cbn [mbind outcome_bind].
  rewrite (proj2 (Z.ltb_lt _ _)) by lia. unfold s32. rewrite sw_id by lia. by rewrite Z.add_assoc.
Qed.
End operations.

(** *** 64-bit numbers *)
Lemma low_half ll : u32 (Z.land ll 0x00000000FFFFFFFF) = ll mod 2 ^ 32.
Proof.
  change 0x00000000FFFFFFFF with (Z.ones 32). rewrite Z.land_ones by lia. unfold u32. by rewrite Z.mod_mod by lia.
Qed.

Lemma high_half ll : is_u64 ll → u32 (Z.shiftr (Z.land ll 0xFFFFFFFF00000000) 32) = ll / 2 ^ 32.
Proof.
  intros Hl. unfold is_u64 in Hl. rewrite Z.shiftr_land. change (Z.shiftr 0xFFFFFFFF00000000 32) with (Z.ones 32).
  rewrite Z.land_ones, Z.shiftr_div_pow2 by lia. unfold u32. rewrite Z.mod_mod by lia.
  apply Z.mod_small. split; [apply Z.div_pos; lia|]. apply Z.div_lt_upper_bound; lia.
Qed.

Lemma join_halves x y : is_u32 x → is_u32 y → Z.lor (u64 (Z.shiftl x 32)) y = y + x * 2 ^ 32.
Proof.
  unfold is_u32. intros Hx Hy. unfold u64. rewrite Z.mod_small by (rewrite Z.shiftl_mul_pow2 by lia; lia).
  rewrite Z.lor_comm. apply lor_disjoint_add; lia.
Qed.

Lemma split_halves y x : is_u32 x → is_u32 y → (y + x * 2 ^ 32) mod 2 ^ 32 = y ∧ (y + x * 2 ^ 32) / 2 ^ 32 = x.
Proof.
  unfold is_u32. intros Hx Hy. split.
  - rewrite Z.mod_add by lia. by apply Z.mod_small.
  - rewrite Z.div_add, Z.div_small by lia. done.
Qed.

Lemma le_bytes_split n m x y :
  0 ≤ y < 256 ^ Z.of_nat n → le_bytes (n + m) (y + x * 256 ^ Z.of_nat n) = le_bytes n y ++ le_bytes m x.
Proof.
  revert y. induction n as [|n IH]; intros y Hy; [change (256 ^ Z.of_nat 0) with 1 in *; cbn; f_equal; lia|].
  rewrite Nat2Z.inj_succ, Z.pow_succ_r in * by lia. cbn [Nat.add le_bytes app].
  replace (y + x * (256 * 256 ^ Z.of_nat n)) with (y + (x * 256 ^ Z.of_nat n) * 256) by lia.
  rewrite Z.mod_add, Z.div_add, IH by lia || (split; [apply Z.div_pos; lia|apply Z.div_lt_upper_bound; lia]). done.
Qed.

Section long64.
Context (host_le : bool).

Lemma ntohl_u32 v : is_u32 (ntohl host_le v).
Proof.
  unfold ntohl, is_u32. change (2 ^ 32) with (256 ^ Z.of_nat 4).
  assert (Forall is_u8 (rev (object_bytes host_le 4 v))) as H%le_value_lt.
  { apply Forall_rev. unfold object_bytes. destruct host_le; [|apply Forall_rev]; apply le_bytes_range. }
  rewrite length_rev in H. unfold object_bytes in *. destruct host_le; by rewrite ?length_rev, length_le_bytes in H.
Qed.

Lemma LBER_HTONL_eq v :
  is_u64 v → LBER_HTONL host_le v = htonl host_le (v / 2 ^ 32) + htonl host_le (v mod 2 ^ 32) * 2 ^ 32.
Proof. intros Hv. unfold LBER_HTONL. rewrite low_half, high_half by done. apply join_halves; apply htonl_u32. Qed.

Lemma LBER_NTOHL_HTONL v : is_u64 v → LBER_NTOHL host_le (LBER_HTONL host_le v) = v.
Proof.
  intros Hv. pose proof (htonl_u32 host_le (v / 2 ^ 32)) as Hh. pose proof (htonl_u32 host_le (v mod 2 ^ 32)) as Hl.
  destruct (split_halves _ _ Hl Hh) as [E1 E2]. unfold LBER_NTOHL. rewrite LBER_HTONL_eq by done.
  rewrite low_half, high_half, E1, E2.
  2:{ unfold is_u32, is_u64 in *. lia. }
  assert (is_u32 (v / 2 ^ 32)) as H1.
  { unfold is_u64 in Hv. split; [apply Z.div_pos; lia|]. apply Z.div_lt_upper_bound; lia. }
  assert (is_u32 (v mod 2 ^ 32)) as H2 by (apply Z.mod_pos_bound; lia).
  rewrite !ntohl_htonl, join_halves by done. pose proof (Z.div_mod v (2 ^ 32)). lia.
Qed.
End long64.

(** On a little-endian machine the bytes written are in network order; on a
    big-endian one the two halves are exchanged, which the decoder of the same
    machine undoes. *)
Lemma LBER_HTONL_little v :
  is_u64 v → object_bytes true 8 (LBER_HTONL true v) = be_bytes 4 (v / 2 ^ 32) ++ be_bytes 4 (v mod 2 ^ 32).
Proof.
  intros Hv. rewrite LBER_HTONL_eq by done. pose proof (htonl_bytes true (v / 2 ^ 32)) as E1.
  pose proof (htonl_bytes true (v mod 2 ^ 32)) as E2. cbn [object_bytes] in *. rewrite <-E1, <-E2.
  apply (le_bytes_split 4 4), htonl_u32.
Qed.

Lemma LBER_HTONL_big v :
  is_u64 v → object_bytes false 8 (LBER_HTONL false v) = be_bytes 4 (v mod 2 ^ 32) ++ be_bytes 4 (v / 2 ^ 32).
Proof.
  intros Hv. rewrite LBER_HTONL_eq by done. pose proof (htonl_bytes false (v / 2 ^ 32)) as E1.
  pose proof (htonl_bytes false (v mod 2 ^ 32)) as E2. cbn [object_bytes] in *. rewrite <-E1, <-E2, <-rev_app_distr.
  f_equal. apply (le_bytes_split 4 4), htonl_u32.
Qed.

(** *** What is put is got back *)
Lemma s32_u32 v : is_s32 v → s32 (u32 v) = v.
Proof.
  unfold is_s32. intros Hv. unfold s32, sw, u32. rewrite Z.mod_mod by lia.
  destruct (decide (0 ≤ v)).
  - rewrite Z.mod_small by lia. change (2 ^ (32 - 1)) with (2 ^ 31). by rewrite (proj2 (Z.ltb_lt _ _)) by lia.
  - rewrite <-(Z.mod_add v 1), Z.mod_small by lia. change (2 ^ (32 - 1)) with (2 ^ 31).
    rewrite (proj2 (Z.ltb_ge _ _)) by lia. lia.
Qed.

Section roundtrips.
Context (host_le : bool).
Implicit Types (s : buffer_manage) (mem l : list Z).

Lemma drop_spliced mem s p n l :
  room mem s p n → Z.of_nat (length l) ≤ n →
  drop (Z.to_nat (p + m_iOffset s)) (splice mem (Z.to_nat (p + m_iOffset s)) l) =
  l ++ drop (Z.to_nat (p + m_iOffset s) + length l) mem.
Proof. unfold room. intros Hr Hl. apply drop_splice. lia. Qed.

Lemma room_put mem s p n l :
  room mem s p n → Z.of_nat (length l) ≤ n → room (splice mem (Z.to_nat (p + m_iOffset s)) l) s p n.
Proof. intros Hr Hl. apply room_splice; [|done]. unfold room in Hr. lia. Qed.

Lemma PutInt_GetInt mem s p v old :
  room mem s p 4 → is_s32 v →
  returns (PutInt host_le mem s v) (λ r, let '(ret, mem', s') := r in
    ret = 0 ∧ s' = at_offset s (m_iOffset s + 4) ∧ GetInt host_le mem' s old = Ret (0, v, s')).
Proof.
  intros Hr Hv. pose proof Hr as Hr'. unfold room in Hr'. unfold PutInt.
  rewrite (room_exceeds _ _ _ _ _ Hr), (room_cursor _ _ _ _ Hr) by lia. cbn [mbind outcome_bind].
  rewrite write_int_ok by lia. cbn [mbind outcome_bind returns].
  rewrite (room_advance _ _ _ _ _ Hr) by lia. split; [done|]. split; [done|].
  pose proof (room_put _ _ _ _ (be_bytes 4 (u32 v)) Hr ltac:(rewrite length_be_bytes; lia)) as Hr2. unfold GetInt.
  rewrite (room_exceeds _ _ _ _ _ Hr2), (room_cursor _ _ _ _ Hr2) by lia. cbn [mbind outcome_bind].
  rewrite (read_int_ok _ _ (p + m_iOffset s) (u32 v) _ ltac:(lia) (u32_range v) (drop_spliced _ _ _ _ (be_bytes 4 (u32 v)) Hr ltac:(rewrite length_be_bytes; lia))).
  cbn [mbind outcome_bind]. by rewrite (room_advance _ _ _ _ _ Hr2), s32_u32 by (done || lia).
Qed.

Lemma PutLong64_GetLong64 mem s p v old :
  room mem s p 8 → is_u64 v →
  returns (PutLong64 host_le mem s v) (λ r, let '(ret, mem', s') := r in
    ret = 0 ∧ s' = at_offset s (m_iOffset s + 8) ∧ GetLong64 host_le mem' s old = Ret (0, v, s')).
Proof.
  intros Hr Hv. pose proof Hr as Hr'. unfold room in Hr'. unfold PutLong64.
  assert (length (object_bytes host_le 8 (LBER_HTONL host_le v)) = 8%nat) as El
    by (unfold object_bytes; destruct host_le; rewrite ?length_rev, length_le_bytes; done).
  rewrite (room_exceeds _ _ _ _ _ Hr), (room_cursor _ _ _ _ Hr) by lia. cbn [mbind outcome_bind].
  assert (Forall is_u8 (object_bytes host_le 8 (LBER_HTONL host_le v))) as Hu
    by (unfold object_bytes; destruct host_le; [|apply Forall_rev]; apply le_bytes_range).
  rewrite store_bytes_ok by (done || lia). cbn [mbind outcome_bind returns].
  rewrite (room_advance _ _ _ _ _ Hr) by lia. split; [done|]. split; [done|].
  pose proof (room_put _ _ _ _ (object_bytes host_le 8 (LBER_HTONL host_le v)) Hr ltac:(lia)) as Hr2. unfold GetLong64.
  rewrite (room_exceeds _ _ _ _ _ Hr2), (room_cursor _ _ _ _ Hr2) by lia. cbn [mbind outcome_bind].
  pose proof (load_bytes_ok _ (p + m_iOffset s) _ _ ltac:(lia) (drop_spliced _ _ _ _ (object_bytes host_le 8 (LBER_HTONL host_le v)) Hr ltac:(lia))) as Ll.
  rewrite El in Ll. rewrite Ll. cbn [mbind outcome_bind]. rewrite (room_advance _ _ _ _ _ Hr2) by lia.
  rewrite object_value_bytes, LBER_NTOHL_HTONL; [done|done|].
  rewrite LBER_HTONL_eq by done. pose proof (htonl_u32 host_le (v / 2 ^ 32)). pose proof (htonl_u32 host_le (v mod 2 ^ 32)).
  unfold is_u32 in *. change (256 ^ Z.of_nat 8) with (2 ^ 64). lia.
Qed.

Lemma PutChar_GetChar mem s p c old :
  room mem s p 1 → is_u8 c →
  returns (PutChar mem s c) (λ r, let '(ret, mem', s') := r in
    ret = 0 ∧ s' = at_offset s (m_iOffset s + 1) ∧ GetChar mem' s old = Ret (0, c, s')).
Proof.
  intros Hr Hc. pose proof Hr as Hr'. unfold room in Hr'. unfold PutChar.
  rewrite (room_exceeds _ _ _ _ _ Hr), (room_cursor _ _ _ _ Hr) by lia. cbn [mbind outcome_bind].
  rewrite aset_ok, u8_id by (done || lia). cbn [mbind outcome_bind returns].
  rewrite (room_advance _ _ _ _ _ Hr) by lia. split; [done|]. split; [done|]. unfold GetChar.
  assert (room (<[Z.to_nat (p + m_iOffset s):=c]> mem) s p 1) as Hr2 by (unfold room; rewrite length_insert; done).
  rewrite (room_exceeds _ _ _ _ _ Hr2), (room_cursor _ _ _ _ Hr2) by lia. cbn [mbind outcome_bind].
  rewrite (aget_lookup _ _ c); [|lia|apply list_lookup_insert_eq; lia]. cbn [mbind outcome_bind].
  by rewrite (room_advance _ _ _ _ _ Hr2) by lia.
Qed.

Lemma PutString_GetString mem s p l old :
  room mem s p (4 + Z.of_nat (length l)) → Forall is_u8 l →
  returns (PutString_str host_le mem s l) (λ r, let '(ret, mem', s') := r in
    ret = 0 ∧ s' = at_offset s (m_iOffset s + (4 + Z.of_nat (length l))) ∧
    mem' = splice mem (Z.to_nat (p + m_iOffset s)) (wire_str l) ∧
    GetString_str host_le mem' s old = Ret (0, l, s')).
Proof.
  intros Hr Hl. pose proof Hr as Hr'. unfold room, INT_MAX in Hr'.
  pose proof (room_shift _ _ _ _ 4 Hr ltac:(lia)) as Hr4.
  assert (PutString_str host_le mem s l = Ret (0, splice mem (Z.to_nat (p + m_iOffset s)) (wire_str l), at_offset s (m_iOffset s + (4 + Z.of_nat (length l))))) as ->.
  { unfold PutString_str, s32. rewrite sw_id by lia. rewrite (room_int _ _ _ _ _ Hr) by lia. cbn [mbind outcome_bind].
    replace (m_iOffset s + Z.of_nat (length l) + 4) with (m_iOffset s + (4 + Z.of_nat (length l))) by lia.
    rewrite (room_int _ _ _ _ _ Hr) by lia. cbn [mbind outcome_bind]. rewrite (proj2 (Z.ltb_ge _ _)) by lia.
    rewrite (room_cursor _ _ _ _ Hr). cbn [mbind outcome_bind]. rewrite write_int_ok by lia. cbn [mbind outcome_bind].
    rewrite (room_advance _ _ _ _ _ Hr), u32_id by (unfold is_u32; lia). unfold wire_str.
    destruct (Z.ltb_spec 0 (Z.of_nat (length l))); [|destruct l; [by rewrite app_nil_r|simpl in *; lia]].
    rewrite (room_cursor _ _ _ _ Hr4). cbn [mbind outcome_bind m_iOffset at_offset].
    rewrite store_bytes_ok; [|lia|rewrite length_splice; rewrite ?length_be_bytes; lia|done]. cbn [mbind outcome_bind].
    replace (Z.to_nat (p + (m_iOffset s + 4))) with (Z.to_nat (p + m_iOffset s) + length (be_bytes 4 (Z.of_nat (length l))))%nat
      by (rewrite length_be_bytes; lia).
    rewrite splice_app by (rewrite length_be_bytes; lia). rewrite (room_advance _ _ _ _ _ Hr4) by lia.
    unfold at_offset. cbn. by rewrite Z.add_assoc. }
  split; [done|]. split; [done|]. split; [done|].
  assert (length (wire_str l) = 4 + length l)%nat as Ew by (pose proof (length_wire_str l); lia).
  pose proof (drop_spliced _ _ _ _ (wire_str l) Hr ltac:(lia)) as Hd.
  pose proof (room_put _ _ _ _ (wire_str l) Hr ltac:(lia)) as Hr2. remember (splice _ _ _) as mem' eqn:Em. clear Em.
  pose proof (room_shift _ _ _ _ 4 Hr2 ltac:(lia)) as Hr3. unfold wire_str in Hd. rewrite <-app_assoc in Hd.
  unfold GetString_str. rewrite (room_exceeds _ _ _ _ _ Hr2), (room_cursor _ _ _ _ Hr2) by lia. cbn [mbind outcome_bind].
  rewrite (read_int_ok _ _ (p + m_iOffset s) (Z.of_nat (length l)) _ ltac:(lia) ltac:(unfold is_u32; lia) Hd). cbn [mbind outcome_bind].
  unfold s32. rewrite sw_id by lia. rewrite (room_advance _ _ _ _ _ Hr2) by lia.
  rewrite (room_exceeds _ _ _ _ _ Hr3), (room_cursor _ _ _ _ Hr3) by lia. cbn [mbind outcome_bind orb m_iOffset at_offset].
  rewrite (proj2 (Z.ltb_ge _ 0)) by lia. apply drop_prefix in Hd; [|lia]. rewrite length_be_bytes in Hd.
  rewrite Nat2Z.id, Z.add_assoc, (load_bytes_ok _ (p + m_iOffset s + 4) _ _ ltac:(lia) Hd). cbn [mbind outcome_bind].
  rewrite (room_advance_int _ _ _ _ _ Hr3) by lia. unfold at_offset. cbn. by rewrite <-Z.add_assoc.
Qed.
End roundtrips.
