(* ===== verification/BinMsg.v ===== *)
(** * Binary messages of the game login server: fields, rows and records
    ([logingame_server/src/main/cbinmsg.cpp] and [.h])

    A record is a list of rows, a row a list of named string fields; on the
    wire every item stands behind its length.  Strings are lists of byte
    values, buffers as in [BufferOp.v].  The encoders and decoders are the
    methods of the three classes; the loops of rows and records are the same
    text and are one definition each here. *)

From S2P Require Import Prelude Text Coding BufferOp.

(** ** Definitions *)
Definition Err_BinMsg_FieldDecode : Z := -1.
Definition Err_BinMsg_RowDecode : Z := -2.
Definition Err_BinMsg_Param : Z := -7.
Definition Err_BinMsg_NoEnough : Z := -8.

Record bin_field : Type := CBinMsgField { m_strName : list Z; m_strValue : list Z }.
Record bin_row : Type := CBinMsgRow { m_vecField : list bin_field; m_iFieldNum : Z; m_iReadField : Z }.
Record bin_record : Type := CBinMsgRecord { m_vecRow : list bin_row; m_iRowNum : Z; m_iReadRow : Z }.

Definition new_field : bin_field := CBinMsgField [] [].
Definition new_row : bin_row := CBinMsgRow [] 0 0.
Definition new_record : bin_record := CBinMsgRecord [] 0 0.

(** [s.c_str()]. *)
Definition c_str (s : list Z) : option (list Z) := Some (s ++ [0]).
Definition strlen (s : list Z) : Z := Z.of_nat (length s).

Section codec.
Context (host_le : bool).

(** The result of an encoder: its value, [iBufferLen] and the memory. *)
Definition Field_Encode (f : bin_field) (mem : list Z) (szBuffer : option Z) (iBufferLen : Z)
    : outcome (Z * Z * list Z) :=
  if bool_decide (szBuffer = None) || (iBufferLen <? 0) then Ret (Err_BinMsg_Param, iBufferLen, mem)
  else
    let '(iRet, clsBuffer) := AttachBuffer CBufferManage szBuffer iBufferLen in
    if bool_decide (iRet ≠ 0) then Ret (Err_BinMsg_Param, iBufferLen, mem)
    else
      let! r := PutString_buf host_le mem clsBuffer (c_str (m_strName f)) (s32 (strlen (m_strName f))) in
      let '(iRet, _, mem, clsBuffer) := r in
      if bool_decide (iRet ≠ 0) then Ret (Err_BinMsg_NoEnough, 0, mem)
      else
        let! r := PutString_buf host_le mem clsBuffer (c_str (m_strValue f)) (s32 (strlen (m_strValue f))) in
        let '(iRet, _, mem, clsBuffer) := r in
        if bool_decide (iRet ≠ 0) then Ret (Err_BinMsg_NoEnough, 0, mem)
        else Ret (0, s32 (strlen (m_strValue f) + 4 + strlen (m_strName f) + 4), mem).

(** [std::string(p, n)]. *)
Definition string_at (mem : list Z) (p : option (option Z)) (n : Z) : outcome (list Z) :=
  match p with
  | Some (Some p) => load_bytes mem p (Z.to_nat n)
  | _ => Stuck
  end.

Definition Field_Decode (f : bin_field) (mem : list Z) (szBuffer : option Z) (iBufferLen : Z)
    : outcome (Z * bin_field) :=
  if bool_decide (szBuffer = None) || (iBufferLen <=? 0) then Ret (Err_BinMsg_Param, f)
  else
    let '(iRet, clsBuffer) := AttachBuffer CBufferManage szBuffer iBufferLen in
    if bool_decide (iRet ≠ 0) then Ret (Err_BinMsg_Param, f)
    else
      let! r := GetString_ref host_le mem clsBuffer (Some None) 0 in
      let '(iRet, szBufferRow, iFieldLength, clsBuffer) := r in
      if bool_decide (iRet ≠ 0) then Ret (Err_BinMsg_FieldDecode, f)
      else
        let! name := string_at mem szBufferRow iFieldLength in
        let f := CBinMsgField name (m_strValue f) in
        let! r := GetString_ref host_le mem clsBuffer szBufferRow iFieldLength in
        let '(iRet, szBufferRow, iFieldLength, clsBuffer) := r in
        if bool_decide (iRet ≠ 0) then Ret (Err_BinMsg_FieldDecode, f)
        else
          let! value := string_at mem szBufferRow iFieldLength in
          Ret (0, CBinMsgField (m_strName f) value).

(** The loop of both encoders over [num] items, from offset [start]; the
    second component of a successful result is the length reached. *)
Definition encode_step {A} (enc : A → list Z → option Z → Z → outcome (Z * Z * list Z))
    (items : list A) (num szBuffer iBufferLen : Z) (st : Z * Z * list Z)
    : outcome (Z * Z * list Z + Z * Z * list Z) :=
  let '(i, iRowLen, mem) := st in
  if i <? num then
    let! n := in_s32 (iBufferLen - iRowLen) in
    let iTemp := s32 (n - 4) in
    if iTemp <=? 0 then Ret (inr (Err_BinMsg_NoEnough, 0, mem))
    else
      let! item := aget items i in
      let! r := enc item mem (Some (szBuffer + 4 + iRowLen)) iTemp in
      let '(iRet, iTemp, mem) := r in
      if bool_decide (iRet ≠ 0) then Ret (inr (Err_BinMsg_NoEnough, 0, mem))
      else
        let! mem := write_int host_le mem (szBuffer + iRowLen) iTemp in
        Ret (inl (i + 1, s32 (iRowLen + iTemp + 4), mem))
  else Ret (inr (0, iRowLen, mem)).

Definition encode_items {A} (enc : A → list Z → option Z → Z → outcome (Z * Z * list Z))
    (items : list A) (num : Z) (mem : list Z) (szBuffer iBufferLen start : Z) : outcome (Z * Z * list Z) :=
  loop (S (Z.to_nat num)) (encode_step enc items num szBuffer iBufferLen) (0, start, mem).

(** The loop of both decoders: strings are taken until one is refused; every
    turn moves the offset by at least four. *)
Definition decode_step {A C} (dec : list Z → option Z → Z → outcome (Z * A)) (add : C → A → outcome C) (err : Z)
    (mem : list Z) (st : buffer_manage * option Z * Z * bool * C)
    : outcome (buffer_manage * option Z * Z * bool * C + Z * C) :=
  let '(clsBuffer, szBufferRow, iRowLength, flag, c) := st in
  let! r := GetString_ref host_le mem clsBuffer (Some szBufferRow) iRowLength in
  let '(iRet, szBufferRow, iRowLength, clsBuffer) := r in
  match szBufferRow with
  | Some szBufferRow =>
      if bool_decide (iRet = 0) then
        let! d := dec mem szBufferRow iRowLength in
        let '(iRet, item) := d in
        if bool_decide (iRet ≠ 0) then Ret (inr (err, c))
        else
          let! c := add c item in
          Ret (inl (clsBuffer, szBufferRow, iRowLength, true, c))
      else Ret (inr (if flag : bool then 0 else err, c))
  | None => Stuck
  end.

Definition decode_items {A C} (dec : list Z → option Z → Z → outcome (Z * A)) (add : C → A → outcome C) (err : Z)
    (mem : list Z) (clsBuffer : buffer_manage) (c : C) : outcome (Z * C) :=
  loop (S (Z.to_nat (m_iBufferLen clsBuffer))) (decode_step dec add err mem) (clsBuffer, None, 0, false, c).

(** *** Rows *)
Definition AddField (r : bin_row) (clsField : bin_field) : outcome bin_row :=
  let! n := in_s32 (m_iFieldNum r + 1) in
  Ret (CBinMsgRow (m_vecField r ++ [clsField]) n (m_iReadField r)).

Definition GetFieldNum (r : bin_row) : Z := m_iFieldNum r.

Definition Row_Encode (r : bin_row) (mem : list Z) (szBuffer : option Z) (iBufferLen : Z)
    : outcome (Z * Z * list Z) :=
  match szBuffer with
  | None => Ret (Err_BinMsg_Param, iBufferLen, mem)
  | Some p =>
      if iBufferLen <? 0 then Ret (Err_BinMsg_Param, iBufferLen, mem)
      else encode_items Field_Encode (m_vecField r) (GetFieldNum r) mem p iBufferLen 0
  end.

Definition Row_Decode (r : bin_row) (mem : list Z) (szBuffer : option Z) (iBufferLen : Z)
    : outcome (Z * bin_row) :=
  if bool_decide (szBuffer = None) || (iBufferLen <=? 0) then Ret (Err_BinMsg_Param, r)
  else
    let '(iRet, clsBuffer) := AttachBuffer CBufferManage szBuffer iBufferLen in
    if bool_decide (iRet ≠ 0) then Ret (Err_BinMsg_Param, r)
    else decode_items (Field_Decode new_field) AddField Err_BinMsg_FieldDecode mem clsBuffer r.

(** *** Records *)
Definition AddRow (r : bin_record) (clsRow : bin_row) : outcome bin_record :=
  let! n := in_s32 (m_iRowNum r + 1) in
  Ret (CBinMsgRecord (m_vecRow r ++ [clsRow]) n (m_iReadRow r)).

Definition GetRowNum (r : bin_record) : Z := m_iRowNum r.

Definition Record_Encode (r : bin_record) (mem : list Z) (szBuffer : option Z) (iBufferLen : Z)
    : outcome (Z * Z * list Z) :=
  match szBuffer with
  | None => Ret (Err_BinMsg_Param, iBufferLen, mem)
  | Some p =>
      if iBufferLen <? 0 then Ret (Err_BinMsg_Param, iBufferLen, mem)
      else
        let! e := encode_items Row_Encode (m_vecRow r) (GetRowNum r) mem p iBufferLen 4 in
        let '(iRet, iRecLen, mem) := e in
        if bool_decide (iRet ≠ 0) then Ret (iRet, iRecLen, mem)
        else
          let! mem := write_int host_le mem p iRecLen in
          Ret (0, iRecLen, mem)
  end.

(** The length in front of the record is skipped. *)
Definition Record_Decode (r : bin_record) (mem : list Z) (szBuffer : option Z) (iBufferLen : Z)
    : outcome (Z * bin_record) :=
  match szBuffer with
  | None => Ret (Err_BinMsg_Param, r)
  | Some p =>
      if iBufferLen <? 4 then Ret (Err_BinMsg_Param, r)
      else
        let '(iRet, clsBuffer) := AttachBuffer CBufferManage (Some (p + 4)) (s32 (iBufferLen - 4)) in
        if bool_decide (iRet ≠ 0) then Ret (Err_BinMsg_Param, r)
        else decode_items (Row_Decode new_row) AddRow Err_BinMsg_RowDecode mem clsBuffer r
  end.
End codec.

(** *** Sizes *)
Definition Field_GetSize (f : bin_field) : Z := s32 (strlen (m_strName f) + 4 + strlen (m_strValue f) + 4).

(** [iRowSize += iTemp + sizeof(int)] over the items. *)
Definition add_sizes {A} (size_of : A → Z) (items : list A) (num start : Z) : outcome Z :=
  for_range 0 num (λ i n, let! it := aget items i in Ret (s32 (n + (size_of it + 4)))) start.

Definition Row_GetSize (r : bin_row) : outcome Z := add_sizes Field_GetSize (m_vecField r) (GetFieldNum r) 0.

Definition Record_GetSize (r : bin_record) : outcome Z :=
  for_range 0 (GetRowNum r) (λ i n,
    let! it := aget (m_vecRow r) i in
    let! size := Row_GetSize it in
    Ret (s32 (n + (size + 4)))) 4.

(** *** Access to the fields of a row *)

(** The first position with the name. *)
Fixpoint position (strName : list Z) (l : list bin_field) : option nat :=
  match l with
  | [] => None
  | f :: l => if bool_decide (m_strName f = strName) then Some O else S <$> position strName l
  end.

(** A pointer to a field of the row is its position. *)
Definition GetField_at (r : bin_row) (iIndex : Z) : option Z :=
  let iFieldNum := s32 (Z.of_nat (length (m_vecField r))) in
  if (iIndex <? 0) || (iFieldNum <=? iIndex) then None else Some iIndex.

Definition GetNextField (r : bin_row) : outcome (option Z * bin_row) :=
  match GetField_at r (m_iReadField r) with
  | None => Ret (None, r)
  | Some pField =>
      let! n := in_s32 (m_iReadField r + 1) in
      Ret (Some pField, CBinMsgRow (m_vecField r) (m_iFieldNum r) n)
  end.

Definition GetField (r : bin_row) (strName : list Z) : list Z :=
  match position strName (m_vecField r) with
  | None => []
  | Some i => match m_vecField r !! i with Some f => m_strValue f | None => [] end
  end.

Definition FindField (r : bin_row) (strName : list Z) : Z :=
  match position strName (m_vecField r) with Some _ => 1 | None => 0 end.

Definition SetField_str (r : bin_row) (strName strValue : list Z) : bin_row :=
  match position strName (m_vecField r) with
  | None => r
  | Some i => CBinMsgRow (alter (λ f, CBinMsgField (m_strName f) strValue) i (m_vecField r)) (m_iFieldNum r) (m_iReadField r)
  end.

Definition GetRow (r : bin_record) (iIndex : Z) : option Z :=
  let iRowNum := s32 (Z.of_nat (length (m_vecRow r))) in
  if (iIndex <? 0) || (iRowNum <=? iIndex) then None else Some iIndex.

Definition GetNextRow (r : bin_record) : outcome (option Z * bin_record) :=
  match GetRow r (m_iReadRow r) with
  | None => Ret (None, r)
  | Some pRow =>
      let! n := in_s32 (m_iReadRow r + 1) in
      Ret (Some pRow, CBinMsgRecord (m_vecRow r) (m_iRowNum r) n)
  end.

(** A [char] as a null-terminated string. *)
Definition char_str (cValue : Z) : list Z := if bool_decide (cValue = 0) then [] else [cValue].

Definition AddField_str (r : bin_row) (strName strValue : list Z) : outcome bin_row :=
  AddField r (CBinMsgField strName strValue).
Definition AddField_char (r : bin_row) (strName : list Z) (cValue : Z) : outcome bin_row :=
  AddField r (CBinMsgField strName (char_str cValue)).
Definition AddField_int32 (r : bin_row) (strName : list Z) (iValue : Z) : outcome bin_row :=
  AddField r (CBinMsgField strName (print_dec iValue)).
Definition AddField_uint32 (r : bin_row) (strName : list Z) (ulValue : Z) : outcome bin_row :=
  AddField r (CBinMsgField strName (print_dec ulValue)).
Definition AddField_int64 (r : bin_row) (strName : list Z) (llValue : Z) : outcome bin_row :=
  AddField r (CBinMsgField strName (print_dec llValue)).
Definition AddField_uint64 (r : bin_row) (strName : list Z) (ullValue : Z) : outcome bin_row :=
  AddField r (CBinMsgField strName (print_dec ullValue)).

Definition SetField_char (r : bin_row) (strName : list Z) (cValue : Z) : bin_row :=
  SetField_str r strName (char_str cValue).
Definition SetField_int32 (r : bin_row) (strName : list Z) (iValue : Z) : bin_row :=
  SetField_str r strName (print_dec iValue).
Definition SetField_uint32 (r : bin_row) (strName : list Z) (ulValue : Z) : bin_row :=
  SetField_str r strName (print_dec ulValue).
Definition SetField_int64 (r : bin_row) (strName : list Z) (llValue : Z) : bin_row :=
  SetField_str r strName (print_dec llValue).
Definition SetField_uint64 (r : bin_row) (strName : list Z) (ullValue : Z) : bin_row :=
  SetField_str r strName (print_dec ullValue).

(** ** Specification *)

(** The fields of a row that can be looked up, and its well-formedness. *)
Definition row_of (l : list bin_field) : bin_row := CBinMsgRow l (Z.of_nat (length l)) 0.
Definition record_of (l : list bin_row) : bin_record := CBinMsgRecord l (Z.of_nat (length l)) 0.

(** Items behind their lengths. *)
Definition wire_items {A} (w : A → list Z) (l : list A) : list Z := concat (map (λ a, wire_str (w a)) l).

(** What the row and record codecs need of the codec of their items. *)
Class Message (A : Type) : Type := {
  wire : A → list Z;
  msg_ok : A → Prop;
  reset : A → A;
  msg_encode : bool → A → list Z → option Z → Z → outcome (Z * Z * list Z);
  msg_decode : bool → list Z → option Z → Z → outcome (Z * A)
}.

(** [mem'] differs from [mem] only in [p, p + n). *)
Definition within (mem mem' : list Z) (p n : Z) : Prop :=
  length mem' = length mem ∧ (Forall is_u8 mem → Forall is_u8 mem') ∧
  ∀ j : nat, Z.of_nat j < p ∨ p + n ≤ Z.of_nat j → mem' !! j = mem !! j.

(** No length read in [mem] is so close to [INT_MAX] that adding it to an
    offset below [n] overflows. *)
Definition tame (mem : list Z) (n : Z) : Prop :=
  Forall (λ q : nat, peek mem (Z.of_nat q) + n + 4 ≤ INT_MAX) (seq 0 (length mem)).

(** The longest message whose end the cursor can test for. *)
Definition MSG_MAX : Z := INT_MAX - 4.

Class MessageLaws (A : Type) `{!Message A} : Prop := {
  wire_bytes (a : A) : msg_ok a → Forall is_u8 (wire a);
  wire_size (a : A) : msg_ok a → 0 < strlen (wire a) ≤ MSG_MAX;
  encode_ok host_le (a : A) mem p n :
    msg_ok a → 0 ≤ p → p + n ≤ Z.of_nat (length mem) → strlen (wire a) ≤ n ≤ INT_MAX →
    msg_encode host_le a mem (Some p) n = Ret (0, strlen (wire a), splice mem (Z.to_nat p) (wire a));
  encode_full host_le (a : A) mem p n :
    msg_ok a → 0 ≤ p → p + n ≤ Z.of_nat (length mem) → 0 < n < strlen (wire a) →
    returns (msg_encode host_le a mem (Some p) n) (λ r, r.1 = (Err_BinMsg_NoEnough, 0) ∧ within mem r.2 p n);
  decode_ok host_le (a : A) mem p tl :
    msg_ok a → Forall is_u8 mem → 0 ≤ p → drop (Z.to_nat p) mem = wire a ++ tl →
    msg_decode host_le mem (Some p) (strlen (wire a)) = Ret (0, reset a);
  decode_total host_le mem p n :
    Forall is_u8 mem → 0 ≤ p → 0 ≤ n ≤ MSG_MAX → p + n ≤ Z.of_nat (length mem) → tame mem n →
    returns (msg_decode host_le mem (Some p) n) (λ _, True)
}.

(** ** Lemmas *)
Lemma splice_before (buf l1 l2 : list Z) k j :
  j = (k + length l1)%nat → (j + length l2 ≤ length buf)%nat →
  splice (splice buf j l2) k l1 = splice buf k (l1 ++ l2).
Proof.
  intros -> H. unfold splice at 1. rewrite drop_splice by lia. unfold splice.
  rewrite take_app_le by (rewrite length_take; lia). rewrite take_take, Nat.min_l by lia.
  rewrite length_app, <-!app_assoc. do 3 f_equal. by rewrite Nat.add_assoc.
Qed.

Lemma within_refl mem p n : within mem mem p n.
Proof. done. Qed.

Lemma within_trans mem1 mem2 mem3 p n : within mem1 mem2 p n → within mem2 mem3 p n → within mem1 mem3 p n.
Proof.
  intros (L1 & U1 & H1) (L2 & U2 & H2). split; [congruence|]. split; [auto|].
  intros j Hj. by rewrite H2, H1.
Qed.

Lemma within_weaken mem mem' p n q k : within mem mem' q k → p ≤ q → q + k ≤ p + n → within mem mem' p n.
Proof. intros (L & U & H) ??. split; [done|]. split; [done|]. intros j Hj. apply H. lia. Qed.

Lemma within_splice mem p l :
  0 ≤ p → p + strlen l ≤ Z.of_nat (length mem) → Forall is_u8 l → within mem (splice mem (Z.to_nat p) l) p (strlen l).
Proof.
  unfold strlen. intros Hp Hl Hu. split; [apply length_splice; lia|]. split.
  - intros Hm. unfold splice. apply Forall_app. split; [by apply Forall_take|].
    apply Forall_app. split; [done|by apply Forall_drop].
  - intros j Hj. unfold splice. destruct (decide (j < Z.to_nat p)%nat).
    + rewrite lookup_app_l by (rewrite length_take; lia). apply lookup_take_lt. lia.
    + rewrite app_assoc, lookup_app_r by (rewrite length_app, length_take; lia).
      rewrite lookup_drop, length_app, length_take. f_equal. lia.
Qed.

Lemma strlen_app l1 l2 : strlen (l1 ++ l2) = strlen l1 + strlen l2.
Proof. unfold strlen. rewrite length_app. lia. Qed.

Lemma strlen_wire_str l : strlen (wire_str l) = 4 + strlen l.
Proof. apply length_wire_str. Qed.

Lemma strlen_nonneg l : 0 ≤ strlen l.
Proof. unfold strlen. lia. Qed.

Lemma tame_le mem n m : tame mem n → m ≤ n → tame mem m.
Proof. intros H Hm. eapply Forall_impl; [exact H|]. simpl. intros. lia. Qed.

Lemma tame_peek mem n q : tame mem n → 0 ≤ q < Z.of_nat (length mem) → peek mem q + n + 4 ≤ INT_MAX.
Proof.
  intros H Hq. unfold tame in H. rewrite Forall_forall in H.
  specialize (H (Z.to_nat q)). rewrite Z2Nat.id in H by lia. apply H.
  apply elem_of_seq. lia.
Qed.

Lemma window_room mem p n off k :
  0 ≤ p → p + n ≤ Z.of_nat (length mem) → n ≤ INT_MAX → 0 ≤ off → 0 ≤ k → off + k ≤ n →
  room mem (BufferManage (Some p) n off) p k.
Proof. intros. split; [done|]. cbn. lia. Qed.

Section items.
Context {A : Type} `{MessageLaws A} (host_le : bool).
Implicit Types (a : A) (l : list A) (mem : list Z).

Lemma wire_items_cons a l : wire_items wire (a :: l) = wire_str (wire a) ++ wire_items wire l.
Proof. done. Qed.

Lemma wire_items_bytes l : Forall msg_ok l → Forall is_u8 (wire_items wire l).
Proof.
  induction 1 as [|a l Ha Hl IH]; [constructor|]. rewrite wire_items_cons.
  apply Forall_app. split; [by apply wire_str_u8, wire_bytes|done].
Qed.

Lemma wire_items_count l : 4 * Z.of_nat (length l) ≤ strlen (wire_items wire l).
Proof.
  induction l as [|a l IH]; [done|]. rewrite wire_items_cons, strlen_app, strlen_wire_str.
  pose proof (strlen_nonneg (wire a)). simpl length. lia.
Qed.

Lemma encode_step_end enc l mem p n off num :
  encode_step (A:=A) host_le enc l num p n (num, off, mem) = Ret (inr (0, off, mem)).
Proof. unfold encode_step. by rewrite Z.ltb_irrefl. Qed.

Lemma encode_step_ok l0 a l mem p n off :
  msg_ok a → 0 ≤ p → 0 ≤ off → p + n ≤ Z.of_nat (length mem) → n ≤ INT_MAX → off + (4 + strlen (wire a)) ≤ n →
  encode_step host_le (msg_encode host_le) (l0 ++ a :: l) (Z.of_nat (length (l0 ++ a :: l))) p n (Z.of_nat (length l0), off, mem) =
  Ret (inl (Z.of_nat (length (l0 ++ [a])), off + (4 + strlen (wire a)), splice mem (Z.to_nat (p + off)) (wire_str (wire a)))).
Proof.
  intros Ha Hp Ho Hm Hn Hs. unfold INT_MAX in Hn. pose proof (wire_size a Ha) as Hsz. unfold encode_step.
  rewrite (proj2 (Z.ltb_lt _ _)) by (rewrite length_app; simpl; lia).
  rewrite in_s32_ok by (unfold is_s32; lia). cbn [mbind outcome_bind].
  unfold s32. rewrite sw_id by lia. rewrite (proj2 (Z.leb_gt _ _)) by lia.
  rewrite aget_mid by done. cbn [mbind outcome_bind].
  rewrite encode_ok by (done || lia || (unfold INT_MAX; lia)). cbn [mbind outcome_bind]. rewrite bool_decide_eq_false_2 by lia.
  rewrite write_int_ok by (rewrite ?length_splice; unfold strlen in *; lia). cbn [mbind outcome_bind].
  rewrite sw_id by lia. rewrite u32_id by (unfold is_u32; lia).
  rewrite splice_before by (rewrite ?length_be_bytes; unfold strlen in *; lia).
  rewrite length_app, Nat2Z.inj_add. do 4 f_equal. lia.
Qed.

Lemma encode_items_loop l0 l mem p n off fuel :
  Forall msg_ok l → 0 ≤ p → 0 ≤ off → p + n ≤ Z.of_nat (length mem) → n ≤ INT_MAX →
  off + strlen (wire_items wire l) ≤ n → (length l < fuel)%nat →
  loop fuel (encode_step host_le (msg_encode host_le) (l0 ++ l) (Z.of_nat (length (l0 ++ l))) p n) (Z.of_nat (length l0), off, mem) =
  Ret (0, off + strlen (wire_items wire l), splice mem (Z.to_nat (p + off)) (wire_items wire l)).
Proof.
  intros Hl. revert l0 mem off fuel. induction Hl as [|a l Ha Hl IH]; intros l0 mem off fuel Hp Ho Hm Hn Hs Hf;
    (destruct fuel as [|fuel]; [simpl in Hf; lia|]); rewrite loop_S.
  - rewrite app_nil_r, encode_step_end. cbn. by rewrite splice_nil, Z.add_0_r.
  - rewrite wire_items_cons, strlen_app, strlen_wire_str in Hs |- *.
    pose proof (strlen_nonneg (wire_items wire l)). pose proof (strlen_wire_str (wire a)) as Ew.
    rewrite encode_step_ok by (done || lia). cbn [mbind outcome_bind].
    rewrite (cons_middle a), app_assoc. unfold strlen in *.
    rewrite IH; [|lia|lia|rewrite length_splice by lia; lia|done|lia|simpl in Hf; lia].
    f_equal. f_equal; [f_equal; lia|].
    replace (Z.to_nat (p + (off + (4 + Z.of_nat (length (wire a)))))) with (Z.to_nat (p + off) + length (wire_str (wire a)))%nat by lia.
    apply splice_app. lia.
Qed.

Lemma encode_items_ok l mem p n start :
  Forall msg_ok l → 0 ≤ p → 0 ≤ start → p + n ≤ Z.of_nat (length mem) → n ≤ INT_MAX →
  start + strlen (wire_items wire l) ≤ n →
  encode_items host_le (msg_encode host_le) l (Z.of_nat (length l)) mem p n start =
  Ret (0, start + strlen (wire_items wire l), splice mem (Z.to_nat (p + start)) (wire_items wire l)).
Proof. intros. unfold encode_items. apply (encode_items_loop []); [done..|lia]. Qed.

(** Without room for the item at hand. *)
Lemma encode_step_full l0 a l mem p n off :
  msg_ok a → 0 ≤ p → 0 ≤ off → p + n ≤ Z.of_nat (length mem) → 0 ≤ n ≤ INT_MAX → off ≤ n + 4 →
  n < off + (4 + strlen (wire a)) →
  returns (encode_step host_le (msg_encode host_le) (l0 ++ a :: l) (Z.of_nat (length (l0 ++ a :: l))) p n (Z.of_nat (length l0), off, mem))
    (λ r, ∃ mem', r = inr (Err_BinMsg_NoEnough, 0, mem') ∧ within mem mem' p n).
Proof.
  intros Ha Hp Ho Hm Hn Hoff Hs. unfold INT_MAX in Hn. unfold encode_step.
  rewrite (proj2 (Z.ltb_lt _ _)) by (rewrite length_app; simpl; lia).
  rewrite in_s32_ok by (unfold is_s32; lia). cbn [mbind outcome_bind].
  destruct (decide (n - off - 4 ≤ 0)).
  { assert (s32 (n - off - 4) ≤ 0) as Hneg.
    { unfold s32. rewrite sw_id; lia. }
    rewrite (proj2 (Z.leb_le _ _)) by done. simpl. exists mem. split; [done|apply within_refl]. }
  unfold s32. rewrite sw_id by lia. rewrite (proj2 (Z.leb_gt _ _)) by lia.
  rewrite aget_mid by done. cbn [mbind outcome_bind].
  run (encode_full host_le a mem (p + 4 + off) (n - off - 4)); [done|lia..|]. intros [[ret k] mem'] [[= -> ->] Hw].
  simpl. exists mem'. split; [done|]. apply (within_weaken _ _ _ _ _ _ Hw); lia.
Qed.

Lemma encode_items_full_loop l0 l mem p n off fuel :
  Forall msg_ok l → 0 ≤ p → 0 ≤ off → p + n ≤ Z.of_nat (length mem) → 0 ≤ n ≤ INT_MAX → off ≤ n + 4 →
  n < off + strlen (wire_items wire l) → l ≠ [] → (length l < fuel)%nat →
  returns (loop fuel (encode_step host_le (msg_encode host_le) (l0 ++ l) (Z.of_nat (length (l0 ++ l))) p n) (Z.of_nat (length l0), off, mem))
    (λ r, r.1 = (Err_BinMsg_NoEnough, 0) ∧ within mem r.2 p n).
Proof.
  intros Hl. revert l0 mem off fuel. induction Hl as [|a l Ha Hl IH]; intros l0 mem off fuel Hp Ho Hm Hn Hoff Hs Hne Hf; [done|].
  destruct fuel as [|fuel]; [lia|]. rewrite loop_S. rewrite wire_items_cons, strlen_app, strlen_wire_str in Hs.
  destruct (decide (n < off + (4 + strlen (wire a)))).
  { run (encode_step_full l0 a l mem p n off); [done..|]. intros ? (mem' & -> & Hw). done. }
  rewrite encode_step_ok by (done || lia). cbn [mbind outcome_bind].
  pose proof (within_splice mem (p + off) (wire_str (wire a))) as Hw. rewrite strlen_wire_str in Hw.
  pose proof (strlen_nonneg (wire a)).
  specialize (Hw ltac:(lia) ltac:(lia) (wire_str_u8 _ (wire_bytes a Ha))).
  rewrite (cons_middle a), app_assoc.
  eapply returns_mono; [apply IH|]; [done|lia|rewrite (proj1 Hw); lia|lia|lia|lia| |simpl in Hf; lia|].
  - intros ->. change (strlen (wire_items wire [])) with 0 in Hs. lia.
  - intros r [E Hr]. split; [done|]. eapply within_trans; [|exact Hr]. apply (within_weaken _ _ _ _ _ _ Hw); lia.
Qed.

Lemma encode_items_full l mem p n start :
  Forall msg_ok l → 0 ≤ p → 0 ≤ start ≤ 4 → p + n ≤ Z.of_nat (length mem) → 0 ≤ n ≤ INT_MAX →
  n < start + strlen (wire_items wire l) → l ≠ [] →
  returns (encode_items host_le (msg_encode host_le) l (Z.of_nat (length l)) mem p n start)
    (λ r, r.1 = (Err_BinMsg_NoEnough, 0) ∧ within mem r.2 p n).
Proof. intros. unfold encode_items. apply (encode_items_full_loop []); (done || lia). Qed.

(** *** The decoding loop *)
Section container.
Context {C : Type} (add : C → A → outcome C) (err : Z).

Fixpoint add_all (c : C) (l : list A) : outcome C :=
  match l with
  | [] => Ret c
  | a :: l => let! c := add c (reset a) in add_all c l
  end.

(** No string can be taken at offset [off]. *)
Definition refused mem (p n off : Z) : Prop :=
  n < off + 4 ∨ off + peek mem (p + off) + 4 ≤ INT_MAX ∧ (peek mem (p + off) < 0 ∨ n < off + peek mem (p + off) + 4).

Lemma decode_step_refused mem p n off pb k flag c :
  Forall is_u8 mem → 0 ≤ p → p + n ≤ Z.of_nat (length mem) → n ≤ MSG_MAX → 0 ≤ off ≤ n → refused mem p n off →
  decode_step host_le (msg_decode host_le) add err mem (BufferManage (Some p) n off, pb, k, flag, c) =
  Ret (inr (if flag : bool then 0 else err, c)).
Proof.
  unfold MSG_MAX. intros Hm Hp Hl Hn Ho Hr. unfold decode_step.
  rewrite (GetString_ref_eq _ _ _ p) by (done || (apply window_room; lia)). cbn [m_iOffset m_iBufferLen]. unfold refused in Hr.
  destruct (Z.ltb_spec n (off + 4)); [rewrite (proj2 (Z.ltb_ge _ _)) by lia; done|].
  destruct Hr as [Hr|[Hr1 Hr2]]; [lia|]. rewrite (proj2 (Z.ltb_ge _ _)) by lia.
  destruct (Z.leb_spec 0 (peek mem (p + off))); [|done]. by rewrite (proj2 (Z.leb_gt _ _)) by lia.
Qed.

Lemma decode_step_ok a tl mem p n off pb k flag c :
  msg_ok a → Forall is_u8 mem → 0 ≤ p → p + n ≤ Z.of_nat (length mem) → n ≤ MSG_MAX → 0 ≤ off →
  drop (Z.to_nat (p + off)) mem = wire_str (wire a) ++ tl → off + (4 + strlen (wire a)) ≤ n →
  decode_step host_le (msg_decode host_le) add err mem (BufferManage (Some p) n off, pb, k, flag, c) =
  let! c := add c (reset a) in
  Ret (inl (BufferManage (Some p) n (off + (4 + strlen (wire a))), Some (p + off + 4), strlen (wire a), true, c)).
Proof.
  unfold MSG_MAX. intros Ha Hm Hp Hl Hn Ho Hd Hs. unfold decode_step. pose proof (strlen_nonneg (wire a)).
  rewrite (GetString_ref_ok _ _ _ p _ _ (wire a) tl); [|done|apply window_room; unfold strlen in *; lia|done].
  cbn [mbind outcome_bind]. rewrite bool_decide_eq_true_2 by done. cbn [m_iOffset].
  change (Z.of_nat (length (wire a))) with (strlen (wire a)).
  rewrite (decode_ok host_le a mem (p + off + 4) tl); [done|done|done|lia|].
  unfold wire_str in Hd. rewrite <-app_assoc in Hd. apply drop_prefix in Hd; [|lia].
  by rewrite length_be_bytes in Hd.
Qed.

Lemma decode_items_loop l rest mem p n off pb k flag c fuel :
  Forall msg_ok l → Forall is_u8 mem → 0 ≤ p → p + n ≤ Z.of_nat (length mem) → n ≤ MSG_MAX → 0 ≤ off →
  drop (Z.to_nat (p + off)) mem = wire_items wire l ++ rest → off + strlen (wire_items wire l) ≤ n →
  refused mem p n (off + strlen (wire_items wire l)) → (length l < fuel)%nat →
  loop fuel (decode_step host_le (msg_decode host_le) add err mem) (BufferManage (Some p) n off, pb, k, flag, c) =
  let! c := add_all c l in Ret (if flag || bool_decide (l ≠ []) then 0 else err, c).
Proof.
  intros Hl Hm Hp Hlen Hn. revert off pb k flag c fuel.
  induction Hl as [|a l Ha Hl IH]; intros off pb k flag c fuel Ho Hd Hs Hr Hf;
    (destruct fuel as [|fuel]; [simpl in Hf; lia|]); rewrite loop_S.
  - change (strlen (wire_items wire [])) with 0 in *. rewrite Z.add_0_r in Hr.
    rewrite decode_step_refused by (done || lia). by destruct flag.
  - rewrite wire_items_cons, strlen_app, strlen_wire_str in *. rewrite <-app_assoc in Hd.
    pose proof (strlen_nonneg (wire a)). pose proof (strlen_nonneg (wire_items wire l)).
    rewrite (decode_step_ok a (wire_items wire l ++ rest)) by (done || lia). cbn [add_all].
    destruct (add c (reset a)) as [c'| |]; [|done..]. cbn [mbind outcome_bind].
    apply drop_prefix in Hd; [|lia]. pose proof (strlen_wire_str (wire a)) as Ew. unfold strlen in Ew at 1. rewrite Ew in Hd.
    rewrite IH; [|lia|by rewrite Z.add_assoc|lia|by rewrite <-Z.add_assoc|simpl in Hf; lia].
    rewrite (bool_decide_eq_true_2 (a :: l ≠ [])) by done. by rewrite orb_true_r.
Qed.

Lemma decode_items_ok l rest mem p n c :
  Forall msg_ok l → Forall is_u8 mem → 0 ≤ p → p + n ≤ Z.of_nat (length mem) → n ≤ MSG_MAX →
  drop (Z.to_nat p) mem = wire_items wire l ++ rest → strlen (wire_items wire l) ≤ n →
  refused mem p n (strlen (wire_items wire l)) →
  decode_items host_le (msg_decode host_le) add err mem (BufferManage (Some p) n 0) c =
  let! c := add_all c l in Ret (if bool_decide (l ≠ []) then 0 else err, c).
Proof.
  intros ? ? ? ? ? Hd Hs Hr. unfold decode_items.
  rewrite (decode_items_loop l rest); rewrite ?Z.add_0_r, ?Z.add_0_l; try done.
  cbn [m_iBufferLen]. pose proof (wire_items_count l). lia.
Qed.

(** On any bytes without a huge length the loop completes; [J k c]: [k] more
    items may be added to [c]. *)
Lemma decode_items_total (J : Z → C → Prop) mem p n c :
  (∀ k c a, 0 ≤ k → J (k + 1) c → returns (add c a) (J k)) → (∀ k k' c, k' ≤ k → J k c → J k' c) →
  Forall is_u8 mem → 0 ≤ p → 0 ≤ n ≤ MSG_MAX → p + n ≤ Z.of_nat (length mem) → tame mem n → J n c →
  returns (decode_items host_le (msg_decode host_le) add err mem (BufferManage (Some p) n 0) c)
    (λ r, (r.1 = 0 ∨ r.1 = err) ∧ J 0 r.2).
Proof.
  unfold MSG_MAX. intros Hadd Hle Hm Hp Hn Hl Ht HJ. unfold decode_items.
  apply (loop_returns (λ st : buffer_manage * option Z * Z * bool * C, let '(b, _, _, _, c) := st in
           ∃ off, b = BufferManage (Some p) n off ∧ 0 ≤ off ≤ n ∧ J (n - off) c)
          (λ st : buffer_manage * option Z * Z * bool * C, Z.to_nat (n - m_iOffset st.1.1.1.1))).
  - intros [[[[b pb] k] flag] c'] (off & -> & Ho & HJ'). unfold decode_step.
    rewrite (GetString_ref_eq _ _ _ p) by (done || (apply window_room; lia)). cbn [m_iOffset m_iBufferLen].
    assert ((if flag : bool then 0 else err) = 0 ∨ (if flag then 0 else err) = err) as Hf by (destruct flag; auto).
    assert (J 0 c') as HJ0 by (eapply Hle; [|exact HJ']; lia).
    destruct (Z.ltb_spec n (off + 4)); [rewrite (proj2 (Z.ltb_ge _ _)) by lia; exact (conj Hf HJ0)|].
    pose proof (tame_peek mem n (p + off) Ht ltac:(lia)). rewrite (proj2 (Z.ltb_ge _ _)) by lia.
    destruct (Z.leb_spec 0 (peek mem (p + off))) as [Hv|]; [|exact (conj Hf HJ0)].
    destruct (Z.leb_spec (off + peek mem (p + off) + 4) n) as [Hin|]; [|exact (conj Hf HJ0)].
    cbn [andb mbind outcome_bind]. rewrite bool_decide_eq_true_2 by done.
    run (decode_total host_le mem (p + off + 4) (peek mem (p + off))); [done|lia|unfold MSG_MAX; lia|lia|eapply tame_le; [done|lia]|].
    intros [ret a] _. case_bool_decide; [exact (conj (or_intror eq_refl) HJ0)|].
    run (Hadd (n - (off + (4 + peek mem (p + off)))) c' a); [lia|eapply Hle; [|exact HJ']; lia|].
    intros c2 HJ2. cbn [returns fst m_iOffset at_offset]. split; [|lia]. eexists. split; [done|]. split; [lia|done].
  - exists 0. rewrite Z.sub_0_r. split; [done|]. split; [lia|done].
  - cbn [m_iOffset m_iBufferLen fst]. lia.
Qed.
End container.
End items.

(** *** Fields *)
Lemma attach p n : 0 < n → AttachBuffer CBufferManage (Some p) n = (0, BufferManage (Some p) n 0).
Proof. intros. unfold AttachBuffer. rewrite bool_decide_eq_false_2 by done. by rewrite (proj2 (Z.leb_gt _ _)) by lia. Qed.

#[export] Instance field_message : Message bin_field := {|
  wire f := wire_str (m_strName f) ++ wire_str (m_strValue f);
  msg_ok f := Forall is_u8 (m_strName f) ∧ Forall is_u8 (m_strValue f) ∧
    8 + strlen (m_strName f) + strlen (m_strValue f) ≤ MSG_MAX;
  reset f := f;
  msg_encode := Field_Encode;
  msg_decode h := Field_Decode h new_field
|}.

Lemma field_size f : strlen (wire f) = 8 + strlen (m_strName f) + strlen (m_strValue f).
Proof. change (wire f) with (wire_str (m_strName f) ++ wire_str (m_strValue f)). rewrite strlen_app, !strlen_wire_str. lia. Qed.

Lemma Field_Encode_ok host_le f mem p n :
  msg_ok f → 0 ≤ p → p + n ≤ Z.of_nat (length mem) → strlen (wire f) ≤ n ≤ INT_MAX →
  Field_Encode host_le f mem (Some p) n = Ret (0, strlen (wire f), splice mem (Z.to_nat p) (wire f)).
Proof.
  intros (Hn & Hv & Hs) Hp Hm Hw. rewrite field_size in *. unfold MSG_MAX, INT_MAX in *.
  pose proof (strlen_nonneg (m_strName f)). pose proof (strlen_nonneg (m_strValue f)).
  unfold Field_Encode. rewrite bool_decide_eq_false_2 by done. rewrite (proj2 (Z.ltb_ge n 0)) by lia. cbn [orb].
  rewrite attach by lia. rewrite bool_decide_eq_false_2 by lia. unfold s32, c_str. rewrite !sw_id by lia.
  unfold strlen at 1. rewrite (PutString_buf_ok _ _ _ p) by (done || (apply window_room; unfold strlen, INT_MAX in *; lia)).
  cbn [mbind outcome_bind]. rewrite bool_decide_eq_false_2 by lia. unfold strlen at 1.
  pose proof (strlen_wire_str (m_strName f)) as Ew. unfold at_offset. cbn [m_szBuffer m_iBufferLen m_iOffset].
  rewrite (PutString_buf_ok _ _ _ p); [|apply window_room; rewrite ?length_splice; unfold strlen, INT_MAX in *; lia|done].
  cbn [mbind outcome_bind m_iOffset]. rewrite bool_decide_eq_false_2 by lia.
  change (wire f) with (wire_str (m_strName f) ++ wire_str (m_strValue f)).
  pose proof (strlen_wire_str (m_strValue f)). unfold strlen in *. rewrite <-splice_app by lia.
  rewrite Z.add_0_r, Z.add_0_l.
  replace (Z.to_nat (p + (4 + Z.of_nat (length (m_strName f))))) with (Z.to_nat p + length (wire_str (m_strName f)))%nat by lia.
  f_equal. f_equal. f_equal. lia.
Qed.

Lemma Field_Encode_full host_le f mem p n :
  msg_ok f → 0 ≤ p → p + n ≤ Z.of_nat (length mem) → 0 < n < strlen (wire f) →
  returns (Field_Encode host_le f mem (Some p) n) (λ r, r.1 = (Err_BinMsg_NoEnough, 0) ∧ within mem r.2 p n).
Proof.
  intros (Hn & Hv & Hs) Hp Hm Hw. rewrite field_size in *. unfold MSG_MAX, INT_MAX in *.
  pose proof (strlen_nonneg (m_strName f)). pose proof (strlen_nonneg (m_strValue f)).
  unfold Field_Encode. rewrite bool_decide_eq_false_2 by done. rewrite (proj2 (Z.ltb_ge n 0)) by lia. cbn [orb].
  rewrite attach by lia. rewrite bool_decide_eq_false_2 by lia. unfold s32, c_str. rewrite !sw_id by lia.
  unfold strlen in *. destruct (decide (n < 4 + Z.of_nat (length (m_strName f)))).
  { rewrite (PutString_buf_full _ _ _ p); [|apply window_room|cbn [m_iOffset m_iBufferLen]]; [|unfold INT_MAX; lia..].
    split; [done|]. apply within_refl. }
  rewrite (PutString_buf_ok _ _ _ p) by (done || (apply window_room; unfold INT_MAX; lia)).
  cbn [mbind outcome_bind]. rewrite bool_decide_eq_false_2 by lia.
  pose proof (strlen_wire_str (m_strName f)) as Ew. unfold at_offset, strlen in *. cbn [m_szBuffer m_iBufferLen m_iOffset].
  rewrite (PutString_buf_full _ _ _ p);
    [|apply window_room; rewrite ?length_splice|cbn [m_iOffset m_iBufferLen]]; [|unfold INT_MAX; lia..].
  split; [done|]. rewrite Z.add_0_r. eapply within_weaken; [apply within_splice|..]; unfold strlen; try lia.
  by apply wire_str_u8.
Qed.

Lemma Field_Decode_ok host_le f mem p tl :
  msg_ok f → Forall is_u8 mem → 0 ≤ p → drop (Z.to_nat p) mem = wire f ++ tl →
  Field_Decode host_le new_field mem (Some p) (strlen (wire f)) = Ret (0, f).
Proof.
  intros (Hn & Hv & Hs) Hm Hp Hd. assert (p + strlen (wire f) ≤ Z.of_nat (length mem)) as Hl.
  { apply (f_equal length) in Hd. rewrite length_drop, length_app in Hd. rewrite field_size in *.
    pose proof (field_size f) as E. unfold strlen in *. lia. }
  rewrite field_size in *. change (wire f) with (wire_str (m_strName f) ++ wire_str (m_strValue f)) in Hd.
  rewrite <-app_assoc in Hd. unfold MSG_MAX, INT_MAX, strlen in *. unfold Field_Decode.
  rewrite bool_decide_eq_false_2 by done. rewrite (proj2 (Z.leb_gt _ 0)) by lia. cbn [orb].
  rewrite attach by lia. rewrite bool_decide_eq_false_2 by lia.
  rewrite (GetString_ref_ok _ _ _ p _ _ (m_strName f) (wire_str (m_strValue f) ++ tl));
    [|done|apply window_room; unfold INT_MAX; lia|by rewrite Z.add_0_r].
  cbn [mbind outcome_bind]. rewrite bool_decide_eq_false_2 by lia. unfold at_offset. cbn [m_szBuffer m_iBufferLen m_iOffset string_at].
  pose proof (drop_prefix _ _ _ _ Hp Hd) as Hd2. pose proof (strlen_wire_str (m_strName f)) as Ew. unfold strlen in Ew.
  rewrite Ew in Hd2. unfold wire_str at 1 in Hd. rewrite <-app_assoc in Hd. apply drop_prefix in Hd; [|done].
  rewrite length_be_bytes in Hd. rewrite Nat2Z.id, Z.add_0_r.
  rewrite (load_bytes_ok _ (p + 4) (m_strName f) (wire_str (m_strValue f) ++ tl)) by (done || lia).
  cbn [mbind outcome_bind m_strName m_strValue].
  rewrite (GetString_ref_ok _ _ _ p _ _ (m_strValue f) tl); [|done|apply window_room; unfold INT_MAX; lia|exact Hd2].
  cbn [mbind outcome_bind m_iOffset string_at]. rewrite bool_decide_eq_false_2 by lia.
  unfold wire_str in Hd2. rewrite <-app_assoc in Hd2. apply drop_prefix in Hd2; [|lia].
  rewrite length_be_bytes in Hd2. rewrite Nat2Z.id.
  rewrite (load_bytes_ok _ _ (m_strValue f) tl); [by destruct f|lia|exact Hd2].
Qed.

Lemma Field_Decode_total host_le mem p n :
  Forall is_u8 mem → 0 ≤ p → 0 ≤ n ≤ MSG_MAX → p + n ≤ Z.of_nat (length mem) → tame mem n →
  returns (Field_Decode host_le new_field mem (Some p) n) (λ _, True).
Proof.
  unfold MSG_MAX. intros Hm Hp Hn Hl Ht. unfold Field_Decode. rewrite bool_decide_eq_false_2 by done.
  destruct (Z.leb_spec n 0); [done|]. cbn [orb]. rewrite attach by lia. rewrite bool_decide_eq_false_2 by lia.
  rewrite (GetString_ref_eq _ _ _ p) by (done || (apply window_room; lia)). cbn [m_iOffset m_iBufferLen].
  destruct (Z.ltb_spec n (0 + 4)); [rewrite (proj2 (Z.ltb_ge _ _)) by lia; done|].
  pose proof (tame_peek mem n (p + 0) Ht ltac:(lia)). rewrite (proj2 (Z.ltb_ge _ _)) by lia.
  destruct (Z.leb_spec 0 (peek mem (p + 0))) as [Hv|]; [|done].
  destruct (Z.leb_spec (0 + peek mem (p + 0) + 4) n) as [Hin|]; [|done].
  cbn [andb mbind outcome_bind string_at]. rewrite bool_decide_eq_false_2 by lia.
  remember (peek mem (p + 0)) as v eqn:Ev. clear Ev.
  rewrite (load_bytes_split mem (p + 0 + 4) v) by lia. cbn [mbind outcome_bind m_strName m_strValue]. unfold at_offset. cbn [m_szBuffer m_iBufferLen].
  rewrite (GetString_ref_eq _ _ _ p) by (done || (apply window_room; lia)). cbn [m_iOffset m_iBufferLen].
  destruct (Z.ltb_spec n (0 + (4 + v) + 4)); [rewrite (proj2 (Z.ltb_ge _ _)) by lia; done|].
  pose proof (tame_peek mem n (p + (0 + (4 + v))) Ht ltac:(lia)). rewrite (proj2 (Z.ltb_ge _ _)) by lia.
  destruct (Z.leb_spec 0 (peek mem (p + (0 + (4 + v))))) as [Hv2|]; [|done].
  destruct (Z.leb_spec (0 + (4 + v) + peek mem (p + (0 + (4 + v))) + 4) n) as [Hin2|]; [|done].
  cbn [andb mbind outcome_bind string_at]. rewrite bool_decide_eq_false_2 by lia.
  rewrite load_bytes_split by lia. done.
Qed.

#[export] Instance field_laws : MessageLaws bin_field.
Proof.
  split.
  - intros f (Hn & Hv & _). apply Forall_app. split; by apply wire_str_u8.
  - intros f (_ & _ & Hs). rewrite field_size.
    pose proof (strlen_nonneg (m_strName f)). pose proof (strlen_nonneg (m_strValue f)). lia.
  - apply Field_Encode_ok.
  - apply Field_Encode_full.
  - apply Field_Decode_ok.
  - apply Field_Decode_total.
Qed.

(** *** Rows *)
Definition row_wf (r : bin_row) : Prop := m_iFieldNum r = Z.of_nat (length (m_vecField r)).

#[export] Instance row_message : Message bin_row := {|
  wire r := wire_items wire (m_vecField r);
  msg_ok r := row_wf r ∧ Forall msg_ok (m_vecField r) ∧ m_vecField r ≠ [] ∧
    strlen (wire_items wire (m_vecField r)) ≤ MSG_MAX;
  reset r := row_of (m_vecField r);
  msg_encode := Row_Encode;
  msg_decode h := Row_Decode h new_row
|}.

Lemma wire_items_pos {A} `{MessageLaws A} (l : list A) : l ≠ [] → 4 ≤ strlen (wire_items wire l).
Proof. intros Hl. pose proof (wire_items_count l). destruct l; [done|]. simpl length in *. lia. Qed.

Lemma add_fields (l : list bin_field) (r : bin_row) :
  m_iFieldNum r + Z.of_nat (length l) ≤ INT_MAX → 0 ≤ m_iFieldNum r →
  add_all AddField r l = Ret (CBinMsgRow (m_vecField r ++ l) (m_iFieldNum r + Z.of_nat (length l)) (m_iReadField r)).
Proof.
  unfold INT_MAX. revert r. induction l as [|f l IH]; intros r Hl H0.
  - simpl. rewrite app_nil_r, Z.add_0_r. by destruct r.
  - cbn [add_all reset field_message]. unfold AddField. simpl length in Hl.
    rewrite in_s32_ok by (unfold is_s32; lia). cbn [mbind outcome_bind].
    rewrite IH by (cbn [m_iFieldNum]; lia). cbn [m_vecField m_iFieldNum m_iReadField].
    rewrite <-app_assoc. f_equal. f_equal. simpl length. lia.
Qed.

Definition row_room (k : Z) (r : bin_row) : Prop := row_wf r ∧ m_iFieldNum r + k ≤ INT_MAX.

Lemma AddField_room k r f : 0 ≤ k → row_room (k + 1) r → returns (AddField r f) (row_room k).
Proof.
  unfold row_room, row_wf, INT_MAX, AddField. intros Hk [Hw Hr]. rewrite in_s32_ok by (unfold is_s32; lia).
  cbn [mbind outcome_bind returns m_vecField m_iFieldNum]. rewrite length_app. simpl length. lia.
Qed.

Lemma drop_bound (mem l tl : list Z) p :
  0 ≤ p → l ≠ [] → drop (Z.to_nat p) mem = l ++ tl → p + strlen l ≤ Z.of_nat (length mem).
Proof.
  intros Hp Hl Hd. apply (f_equal length) in Hd. rewrite length_drop, length_app in Hd.
  unfold strlen. destruct l; [done|]. simpl length in *. lia.
Qed.

Lemma strlen_ne l : 0 < strlen l → l ≠ [].
Proof. by intros H ->. Qed.

(** A window that holds complete fields and then nothing a field can be
    taken from. *)
Lemma Row_Decode_items host_le (l : list bin_field) rest mem p n :
  Forall msg_ok l → l ≠ [] → Forall is_u8 mem → 0 ≤ p → p + n ≤ Z.of_nat (length mem) → n ≤ MSG_MAX →
  drop (Z.to_nat p) mem = wire_items wire l ++ rest → strlen (wire_items wire l) ≤ n →
  refused mem p n (strlen (wire_items wire l)) →
  Row_Decode host_le new_row mem (Some p) n = Ret (0, row_of l).
Proof.
  intros Hl Hne Hm Hp Hlen Hn Hd Hs Hr. pose proof (wire_items_pos l Hne). pose proof (wire_items_count l).
  unfold MSG_MAX in *. unfold Row_Decode.
  rewrite bool_decide_eq_false_2 by done. rewrite (proj2 (Z.leb_gt _ 0)) by lia. cbn [orb].
  rewrite attach by lia. rewrite bool_decide_eq_false_2 by lia.
  change (Field_Decode host_le new_field) with (msg_decode (A:=bin_field) host_le).
  rewrite (decode_items_ok (A:=bin_field) host_le AddField Err_BinMsg_FieldDecode l rest) by (done || unfold MSG_MAX; lia).
  rewrite add_fields by (cbn; lia). cbn [mbind outcome_bind]. by rewrite bool_decide_eq_true_2.
Qed.

#[export] Instance row_laws : MessageLaws bin_row.
Proof.
  split.
  - intros r (_ & Hf & _). by apply wire_items_bytes.
  - intros r (_ & _ & Hne & Hs). pose proof (wire_items_pos _ Hne). cbn [wire row_message]. lia.
  - intros h r mem p n (Hw & Hf & Hne & Hs) Hp Hl Hn. cbn [wire msg_encode row_message] in *.
    pose proof (strlen_nonneg (wire_items wire (m_vecField r))).
    unfold Row_Encode, GetFieldNum. rewrite (proj2 (Z.ltb_ge n 0)) by lia. rewrite Hw.
    change (Field_Encode h) with (msg_encode (A:=bin_field) h).
    rewrite (encode_items_ok (A:=bin_field)) by (done || lia). by rewrite Z.add_0_l, Z.add_0_r.
  - intros h r mem p n (Hw & Hf & Hne & Hs) Hp Hl Hn. cbn [wire msg_encode row_message] in *.
    unfold Row_Encode, GetFieldNum, MSG_MAX in *. rewrite (proj2 (Z.ltb_ge n 0)) by lia. rewrite Hw.
    change (Field_Encode h) with (msg_encode (A:=bin_field) h).
    apply (encode_items_full (A:=bin_field) h); (done || lia).
  - intros h r mem p tl (Hw & Hf & Hne & Hs) Hm Hp Hd. cbn [wire msg_decode reset row_message] in *.
    pose proof (wire_items_pos _ Hne).
    apply (Row_Decode_items h _ tl); [done..|apply (drop_bound _ _ tl); [done|apply strlen_ne; lia|done]|done|done|lia|].
    left. lia.
  - intros h mem p n Hm Hp Hn Hl Ht. cbn [msg_decode row_message]. unfold Row_Decode.
    rewrite bool_decide_eq_false_2 by done. destruct (Z.leb_spec n 0); [done|]. cbn [orb].
    rewrite attach by lia. rewrite bool_decide_eq_false_2 by lia.
    change (Field_Decode h new_field) with (msg_decode (A:=bin_field) h).
    eapply returns_mono; [apply (decode_items_total (A:=bin_field) h AddField _ row_room)|]; try done.
    + intros k r f Hk. by apply AddField_room.
    + unfold row_room. intros k k' r Hk [Hw Hr]. split; [done|lia].
    + unfold row_room, row_wf, MSG_MAX in *. cbn. lia.
Qed.

(** *** Records *)
Definition record_wf (r : bin_record) : Prop := m_iRowNum r = Z.of_nat (length (m_vecRow r)).

(** A record of nonempty rows that are well formed and short enough. *)
Definition record_ok (r : bin_record) : Prop :=
  record_wf r ∧ Forall msg_ok (m_vecRow r) ∧ m_vecRow r ≠ [] ∧ 4 + strlen (wire_items wire (m_vecRow r)) ≤ MSG_MAX.

(** The total length, then the rows. *)
Definition wire_record (r : bin_record) : list Z :=
  let body := wire_items wire (m_vecRow r) in be_bytes 4 (4 + strlen body) ++ body.

Definition reset_record (r : bin_record) : bin_record := record_of (map reset (m_vecRow r)).

Lemma add_rows (l : list bin_row) (r : bin_record) :
  m_iRowNum r + Z.of_nat (length l) ≤ INT_MAX → 0 ≤ m_iRowNum r →
  add_all AddRow r l = Ret (CBinMsgRecord (m_vecRow r ++ map reset l) (m_iRowNum r + Z.of_nat (length l)) (m_iReadRow r)).
Proof.
  unfold INT_MAX. revert r. induction l as [|f l IH]; intros r Hl H0.
  - simpl. rewrite app_nil_r, Z.add_0_r. by destruct r.
  - cbn [add_all]. unfold AddRow. simpl length in Hl.
    rewrite in_s32_ok by (unfold is_s32; lia). cbn [mbind outcome_bind].
    rewrite IH by (cbn [m_iRowNum]; lia). cbn [m_vecRow m_iRowNum m_iReadRow map].
    rewrite <-app_assoc. f_equal. f_equal. simpl length. lia.
Qed.

Definition record_room (k : Z) (r : bin_record) : Prop := record_wf r ∧ m_iRowNum r + k ≤ INT_MAX.

Lemma AddRow_room k r x : 0 ≤ k → record_room (k + 1) r → returns (AddRow r x) (record_room k).
Proof.
  unfold record_room, record_wf, INT_MAX, AddRow. intros Hk [Hw Hr]. rewrite in_s32_ok by (unfold is_s32; lia).
  cbn [mbind outcome_bind returns m_vecRow m_iRowNum]. rewrite length_app. simpl length. lia.
Qed.

Lemma strlen_record r : strlen (wire_record r) = 4 + strlen (wire_items wire (m_vecRow r)).
Proof. unfold wire_record. rewrite strlen_app. unfold strlen at 1. by rewrite length_be_bytes. Qed.

Lemma Record_Encode_ok host_le r mem p n :
  record_ok r → 0 ≤ p → p + n ≤ Z.of_nat (length mem) → strlen (wire_record r) ≤ n ≤ INT_MAX →
  Record_Encode host_le r mem (Some p) n = Ret (0, strlen (wire_record r), splice mem (Z.to_nat p) (wire_record r)).
Proof.
  intros (Hw & Hl & Hne & Hs) Hp Hm Hn. rewrite strlen_record in *. pose proof (wire_items_pos _ Hne).
  unfold Record_Encode, GetRowNum. rewrite (proj2 (Z.ltb_ge n 0)) by lia. rewrite Hw.
  change (Row_Encode host_le) with (msg_encode (A:=bin_row) host_le).
  rewrite (encode_items_ok (A:=bin_row)) by (done || lia). cbn [mbind outcome_bind].
  rewrite bool_decide_eq_false_2 by lia. unfold MSG_MAX, INT_MAX in *.
  rewrite write_int_ok by (rewrite ?length_splice; unfold strlen in *; lia). cbn [mbind outcome_bind].
  rewrite u32_id by (unfold is_u32; lia).
  rewrite splice_before by (rewrite ?length_be_bytes; unfold strlen in *; lia). done.
Qed.

Lemma Record_Encode_full host_le r mem p n :
  record_ok r → 0 ≤ p → p + n ≤ Z.of_nat (length mem) → 0 ≤ n < strlen (wire_record r) →
  returns (Record_Encode host_le r mem (Some p) n) (λ e, e.1 = (Err_BinMsg_NoEnough, 0) ∧ within mem e.2 p n).
Proof.
  intros (Hw & Hl & Hne & Hs) Hp Hm Hn. rewrite strlen_record in *. unfold MSG_MAX in Hs.
  unfold Record_Encode, GetRowNum. rewrite (proj2 (Z.ltb_ge n 0)) by lia. rewrite Hw.
  change (Row_Encode host_le) with (msg_encode (A:=bin_row) host_le).
  run (encode_items_full (A:=bin_row) host_le (m_vecRow r) mem p n 4); [done|done|lia|done|lia|lia|done|].
  intros [[ret k] mem'] [[= -> ->] Hm']. by split.
Qed.

(** A window with the length, complete rows and then nothing a row can be
    taken from. *)
Lemma Record_Decode_items host_le hdr (l : list bin_row) rest mem p n :
  length hdr = 4%nat → Forall msg_ok l → l ≠ [] → Forall is_u8 mem → 0 ≤ p → p + n ≤ Z.of_nat (length mem) → n ≤ MSG_MAX →
  drop (Z.to_nat p) mem = hdr ++ wire_items wire l ++ rest → 4 + strlen (wire_items wire l) ≤ n →
  refused mem (p + 4) (n - 4) (strlen (wire_items wire l)) →
  Record_Decode host_le new_record mem (Some p) n = Ret (0, record_of (map reset l)).
Proof.
  intros Hh Hl Hne Hm Hp Hlen Hn Hd Hs Hr. pose proof (wire_items_pos l Hne). pose proof (wire_items_count l).
  unfold MSG_MAX, INT_MAX in *. unfold Record_Decode. rewrite (proj2 (Z.ltb_ge n 4)) by lia.
  unfold s32. rewrite sw_id by lia. rewrite attach by lia. rewrite bool_decide_eq_false_2 by lia.
  apply drop_prefix in Hd; [|done]. rewrite Hh in Hd.
  change (Row_Decode host_le new_row) with (msg_decode (A:=bin_row) host_le).
  rewrite (decode_items_ok (A:=bin_row) host_le AddRow Err_BinMsg_RowDecode l rest) by (done || unfold MSG_MAX, INT_MAX; lia).
  rewrite add_rows by (cbn; unfold INT_MAX; lia). cbn [mbind outcome_bind]. rewrite bool_decide_eq_true_2 by done.
  unfold record_of. cbn. by rewrite length_map.
Qed.

(** *** Sizes *)
Lemma sum_sizes {A} (body : A → Z → outcome Z) (w : A → Z) (l0 l : list A) n :
  (∀ a n, a ∈ l → 0 ≤ n → n + (w a + 4) ≤ INT_MAX → body a n = Ret (n + (w a + 4))) → Forall (λ a, 0 ≤ w a) l →
  0 ≤ n → n + foldr (λ a k, w a + 4 + k) 0 l ≤ INT_MAX →
  for_up (length l) (Z.of_nat (length l0)) (λ i n, let! it := aget (l0 ++ l) i in body it n) n =
  Ret (n + foldr (λ a k, w a + 4 + k) 0 l).
Proof.
  intros Hb Hw. revert l0 n Hb. induction Hw as [|a l Ha Hw IH]; intros l0 n Hb Hn Hs; simpl.
  - by rewrite Z.add_0_r.
  - simpl in Hs. assert (0 ≤ foldr (λ a k, w a + 4 + k) 0 l) as H0.
    { clear -Hw. induction Hw; simpl; lia. }
    rewrite aget_mid by done. cbn [mbind outcome_bind].
    rewrite Hb by (constructor || lia). cbn [mbind outcome_bind].
    rewrite (cons_middle a), app_assoc.
    replace (Z.of_nat (length l0) + 1) with (Z.of_nat (length (l0 ++ [a]))) by (rewrite length_app; simpl; lia).
    rewrite IH by (lia || (intros; apply Hb; [by constructor|done..])). f_equal. lia.
Qed.

Lemma strlen_items {A} (w : A → list Z) (l : list A) :
  strlen (wire_items w l) = foldr (λ a k, strlen (w a) + 4 + k) 0 l.
Proof.
  induction l as [|a l IH]; [done|].
  change (wire_items w (a :: l)) with (wire_str (w a) ++ wire_items w l).
  rewrite strlen_app, strlen_wire_str, IH. simpl. lia.
Qed.

Lemma s32_size n w : 0 ≤ n → 0 ≤ w → n + (w + 4) ≤ INT_MAX → s32 (n + (w + 4)) = n + (w + 4).
Proof. unfold INT_MAX. intros. unfold s32. apply sw_id; lia. Qed.

Lemma Row_GetSize_ok r : msg_ok r → Row_GetSize r = Ret (strlen (wire r)).
Proof.
  intros (Hw & Hf & _ & Hs). cbn [wire row_message]. rewrite strlen_items in *.
  unfold Row_GetSize, GetFieldNum, add_sizes, for_range. rewrite Hw, Z.sub_0_r, Nat2Z.id. unfold MSG_MAX in Hs.
  etrans; [apply (sum_sizes (λ f n, Ret (s32 (n + (Field_GetSize f + 4)))) (λ f, strlen (wire f)) [])|by rewrite Z.add_0_l]; [|..|lia|lia].
  - intros f n Hin Hn Hle. rewrite Forall_forall in Hf. destruct (Hf f Hin) as (_ & _ & Hfs).
    assert (Field_GetSize f = strlen (wire f)) as ->.
    { unfold Field_GetSize. rewrite field_size. unfold MSG_MAX, INT_MAX in Hfs.
      pose proof (strlen_nonneg (m_strName f)). pose proof (strlen_nonneg (m_strValue f)).
      unfold s32. rewrite sw_id; lia. }
    by rewrite s32_size by (apply strlen_nonneg || done).
  - apply Forall_forall. intros. apply strlen_nonneg.
Qed.

Lemma Record_GetSize_ok r : record_ok r → Record_GetSize r = Ret (strlen (wire_record r)).
Proof.
  intros (Hw & Hl & _ & Hs). rewrite strlen_record. rewrite strlen_items in *. unfold MSG_MAX in Hs.
  unfold Record_GetSize, GetRowNum, for_range. rewrite Hw, Z.sub_0_r, Nat2Z.id.
  apply (sum_sizes (λ it n, let! size := Row_GetSize it in Ret (s32 (n + (size + 4)))) (λ x, strlen (wire x)) []); [|..|lia|lia].
  - intros x n Hin Hn Hle. rewrite Forall_forall in Hl. rewrite Row_GetSize_ok by auto. cbn [mbind outcome_bind].
    by rewrite s32_size by (apply strlen_nonneg || done).
  - apply Forall_forall. intros. apply strlen_nonneg.
Qed.

(** ** A sample *)
Definition demo_row : bin_row := row_of [CBinMsgField [117; 105; 100] [52; 50]; CBinMsgField [111; 107] []].
Definition demo_record : bin_record := CBinMsgRecord [demo_row; demo_row] 2 1.

Lemma demo_row_ok : msg_ok demo_row.
Proof.
  split; [done|]. split; [|done].
  repeat constructor; (done || (cbn; unfold is_u8; lia) || idtac).
Defined.

Lemma demo_record_ok : record_ok demo_record.
Proof. split; [done|]. split; [repeat constructor; apply demo_row_ok|done]. Defined.

(** ** Properties *)

(** C29 [GetSize] tells the number of bytes of a record; [Encode] into at
    least that much room writes exactly those bytes, and [Decode], on a machine
    of either byte order, reads the rows back; with less room [Encode] answers
    [Err_BinMsg_NoEnough] and stays inside the buffer. *)
Theorem record_roundtrip host_le r mem p n :
  record_ok r → Forall is_u8 mem → 0 ≤ p → 0 ≤ n ≤ INT_MAX → p + n ≤ Z.of_nat (length mem) →
  Record_GetSize r = Ret (strlen (wire_record r)) ∧
  returns (Record_Encode host_le r mem (Some p) n) (λ e,
    if strlen (wire_record r) <=? n then
      e.1 = (0, strlen (wire_record r)) ∧ within mem e.2 p (strlen (wire_record r)) ∧
      ∀ host_le', Record_Decode host_le' new_record e.2 (Some p) (strlen (wire_record r)) = Ret (0, reset_record r)
    else e.1 = (Err_BinMsg_NoEnough, 0) ∧ within mem e.2 p n).
Proof.
  intros Hr Hm Hp Hn Hl. split; [by apply Record_GetSize_ok|].
  destruct (Z.leb_spec (strlen (wire_record r)) n) as [Hs|Hs]; [|apply Record_Encode_full; (done || lia)].
  rewrite Record_Encode_ok by (done || lia). split; [done|].
  destruct Hr as (Hw & Hrows & Hne & Hsz). cbn [snd].
  assert (Forall is_u8 (wire_record r)) as Hu.
  { apply Forall_app. split; [apply be_bytes_u8|]. by apply wire_items_bytes. }
  pose proof (within_splice mem p (wire_record r) Hp ltac:(lia) Hu) as Hwi. split; [done|]. intros h.
  destruct Hwi as (El & Hmu & _). rewrite strlen_record in *.
  apply (Record_Decode_items h (be_bytes 4 (4 + strlen (wire_items wire (m_vecRow r)))) (m_vecRow r)
           (drop (Z.to_nat p + length (wire_record r)) mem)); try done; try lia; [auto| |left; lia].
  rewrite drop_splice; [by unfold wire_record; rewrite <-app_assoc|].
  pose proof (strlen_record r). unfold strlen in *. lia.
Qed.

Lemma record_roundtrip_witness :
  Record_GetSize demo_record = Ret (strlen (wire_record demo_record)) ∧
  returns (Record_Encode true demo_record (replicate 80 0) (Some 3) 77) (λ e,
    if strlen (wire_record demo_record) <=? 77 then
      e.1 = (0, strlen (wire_record demo_record)) ∧ within (replicate 80 0) e.2 3 (strlen (wire_record demo_record)) ∧
      ∀ host_le', Record_Decode host_le' new_record e.2 (Some 3) (strlen (wire_record demo_record)) = Ret (0, reset_record demo_record)
    else e.1 = (Err_BinMsg_NoEnough, 0) ∧ within (replicate 80 0) e.2 3 77).
Proof.
  refine (record_roundtrip true demo_record (replicate 80 0) 3 77 demo_record_ok _ _ _ _);
    [by apply Forall_replicate|lia|unfold INT_MAX; lia|by rewrite length_replicate].
Defined.

(** On any bytes, whatever lengths they claim, [Decode] of a record
    completes, reads nothing outside the message and returns 0,
    [Err_BinMsg_Param] or [Err_BinMsg_RowDecode] with a consistent record, as
    long as no length in the bytes is close enough to [INT_MAX] to overflow the
    sum with an offset. *)
Lemma record_decode_total host_le mem p n :
  Forall is_u8 mem → 0 ≤ p → n ≤ MSG_MAX → p + n ≤ Z.of_nat (length mem) → tame mem n →
  returns (Record_Decode host_le new_record mem (Some p) n) (λ r,
    r.1 ∈ [0; Err_BinMsg_Param; Err_BinMsg_RowDecode] ∧ record_wf r.2).
Proof.
  unfold MSG_MAX, INT_MAX. intros Hm Hp Hn Hl Ht. unfold Record_Decode.
  destruct (Z.ltb_spec n 4); [split; [set_solver|done]|].
  unfold s32. rewrite sw_id by lia. destruct (decide (n = 4)) as [->|]; [split; [set_solver|done]|].
  rewrite attach by lia. rewrite bool_decide_eq_false_2 by lia.
  change (Row_Decode host_le new_row) with (msg_decode (A:=bin_row) host_le).
  eapply returns_mono; [apply (decode_items_total (A:=bin_row) host_le AddRow _ record_room)|]; try done.
  - intros k r x Hk. by apply AddRow_room.
  - unfold record_room. intros k k' r Hk [Hw Hr]. split; [done|lia].
  - lia.
  - unfold MSG_MAX, INT_MAX. lia.
  - lia.
  - eapply tame_le; [done|lia].
  - unfold record_room, record_wf, INT_MAX. cbn. lia.
  - intros r [Hr [Hw _]]. split; [|done]. destruct Hr as [-> | ->]; set_solver.
Qed.

Lemma record_decode_total_witness :
  returns (Record_Decode false new_record (wire_record demo_record) (Some 0) 50) (λ r,
    r.1 ∈ [0; Err_BinMsg_Param; Err_BinMsg_RowDecode] ∧ record_wf r.2).
Proof.
  refine (record_decode_total false (wire_record demo_record) 0 50 _ _ _ _ _);
    [|lia|unfold MSG_MAX, INT_MAX; lia|vm_compute; done|apply (bool_decide_unpack _); vm_compute; done].
  apply (bool_decide_unpack _). vm_compute. done.
Defined.

(** *** Access by name *)
Lemma position_Some strName l i :
  position strName l = Some i ↔
  (∃ f, l !! i = Some f ∧ m_strName f = strName) ∧ ∀ j f, (j < i)%nat → l !! j = Some f → m_strName f ≠ strName.
Proof.
  revert i. induction l as [|g l IH]; intros i; simpl; [naive_solver|].
  case_bool_decide as Hg.
  - split; [intros [= <-]; split; [by exists g|lia]|]. intros [(f & Hf & En) Hlt]. destruct i as [|i]; [done|].
    by destruct (Hlt 0%nat g ltac:(lia) eq_refl).
  - rewrite fmap_Some. split.
    + intros (k & Hk & ->). apply IH in Hk as [(f & Hf & En) Hlt]. split; [by exists f|].
      intros [|j] f' Hj Hf'; [by simplify_eq/=|]. apply (Hlt j); [lia|done].
    + intros [(f & Hf & En) Hlt]. destruct i as [|i]; [simplify_eq/=|]. exists i. split; [|done]. apply IH.
      split; [by exists f|]. intros j f' Hj Hf'. apply (Hlt (S j)); [lia|done].
Qed.

Lemma position_alter strName' v i l :
  position strName' (alter (λ f, CBinMsgField (m_strName f) v) i l) = position strName' l.
Proof.
  revert i. induction l as [|g l IH]; intros [|i]; simpl; [done..|]. by rewrite <-(IH i).
Qed.

(** Setting a field that exists changes the value [GetField] finds for that
    name and for no other; a name that does not occur is not added. *)
Lemma SetField_correct r strName v strName' :
  FindField (SetField_str r strName v) strName' = FindField r strName' ∧
  GetField (SetField_str r strName v) strName' =
    (if bool_decide (strName' = strName ∧ FindField r strName = 1) then v else GetField r strName').
Proof.
  unfold FindField, GetField, SetField_str. destruct (position strName (m_vecField r)) as [i|] eqn:Ei; cbn [m_vecField].
  2:{ split; [done|]. rewrite bool_decide_eq_false_2; [done|]. naive_solver. }
  rewrite position_alter. split; [done|]. destruct (position strName' (m_vecField r)) as [k|] eqn:Ek.
  2:{ rewrite bool_decide_eq_false_2; [done|]. intros [-> _]. congruence. }
  apply position_Some in Ei as [(f & Hf & En) Hi]. pose proof Ek as Ek'. apply position_Some in Ek' as [(g & Hg & Eg) Hk].
  destruct (decide (i = k)) as [->|Hne].
  - rewrite list_lookup_alter_eq, Hf. simplify_eq/=. by rewrite bool_decide_eq_true_2.
  - rewrite list_lookup_alter_ne, Hg by done. rewrite bool_decide_eq_false_2; [done|]. intros [-> _].
    destruct (decide (i < k)%nat); [by apply (Hk i f)|]. apply (Hi k g); [lia|done..].
Qed.

(** [GetNextField] walks the fields in order and stays at the end. *)
Lemma GetNextField_correct r :
  Z.of_nat (length (m_vecField r)) ≤ INT_MAX → 0 ≤ m_iReadField r ≤ Z.of_nat (length (m_vecField r)) →
  GetNextField r =
  if m_iReadField r <? Z.of_nat (length (m_vecField r))
  then Ret (Some (m_iReadField r), CBinMsgRow (m_vecField r) (m_iFieldNum r) (m_iReadField r + 1))
  else Ret (None, r).
Proof.
  unfold INT_MAX. intros Hl Hr. unfold GetNextField, GetField_at, s32. rewrite sw_id by lia.
  rewrite (proj2 (Z.ltb_ge _ 0)) by lia. rewrite orb_false_l, Z.leb_antisym.
  destruct (Z.ltb_spec (m_iReadField r) (Z.of_nat (length (m_vecField r)))); [|done]. cbn [negb].
  by rewrite in_s32_ok by (unfold is_s32; lia).
Qed.

(** *** Broken messages *)
Lemma store_bytes_short buf p l :
  0 ≤ p ≤ Z.of_nat (length buf) → Z.of_nat (length buf) < p + strlen l → store_bytes buf p l = Stuck.
Proof.
  unfold strlen. revert buf p. induction l as [|b l IH]; intros buf p Hp Hl; simpl in *; [lia|].
  destruct (decide (p = Z.of_nat (length buf))).
  - by rewrite aset_out by lia.
  - rewrite aset_ok by lia. cbn [mbind outcome_bind]. apply IH; rewrite length_insert; lia.
Qed.

Lemma strlen_hdr hdr l : length hdr = 4%nat → strlen (hdr ++ l) = 4 + strlen l.
Proof. intros H. rewrite strlen_app. unfold strlen at 1. by rewrite H. Qed.

Lemma Record_Decode_cut host_le hdr (rows : list bin_row) (r : bin_row) k :
  length hdr = 4%nat → Forall is_u8 hdr → Forall msg_ok rows → rows ≠ [] → msg_ok r →
  8 + strlen (wire_items wire rows) + strlen (wire r) ≤ MSG_MAX → (k < length (wire_str (wire r)))%nat →
  let cut := hdr ++ wire_items wire rows ++ take k (wire_str (wire r)) in
  Record_Decode host_le new_record cut (Some 0) (strlen cut) = Ret (0, record_of (map reset rows)).
Proof.
  intros Hh Hhu Hrows Hne Hr Hs Hk cut. unfold MSG_MAX in Hs.
  assert (Z.of_nat (length (take k (wire_str (wire r)))) = Z.of_nat k) as Ek by (rewrite length_take; lia).
  pose proof (strlen_wire_str (wire r)) as Ew. unfold strlen in Ew.
  assert (strlen cut = 4 + (strlen (wire_items wire rows) + Z.of_nat k)) as Ec.
  { unfold cut. rewrite strlen_hdr, strlen_app by done. unfold strlen. lia. }
  rewrite Ec. apply (Record_Decode_items host_le hdr rows (take k (wire_str (wire r)))); try done.
  - apply Forall_app. split; [done|]. apply Forall_app. split; [by apply wire_items_bytes|].
    by apply Forall_take, wire_str_u8, wire_bytes.
  - rewrite <-Ec. done.
  - unfold MSG_MAX. unfold strlen in *. lia.
  - lia.
  - destruct (decide (k < 4)%nat); [left; lia|]. right.
    assert (peek cut (0 + 4 + strlen (wire_items wire rows)) = strlen (wire r)) as ->; [|unfold strlen in *; lia].
    unfold peek, cut. rewrite app_assoc.
    replace (Z.to_nat (0 + 4 + strlen (wire_items wire rows))) with (length (hdr ++ wire_items wire rows))
      by (rewrite length_app, Hh; unfold strlen; lia).
    rewrite drop_app_length, take_take, Nat.min_l by lia. rewrite <-(drop_0 (wire_str (wire r))).
    apply (peek_wire (wire_str (wire r)) 0 (wire r) []); [unfold strlen in *; lia|by rewrite app_nil_r].
Qed.

(** The first turn of the decoding loop. *)
Lemma Record_Decode_start host_le hdr l :
  length hdr = 4%nat → 0 < strlen l ≤ MSG_MAX - 4 →
  Record_Decode host_le new_record (hdr ++ l) (Some 0) (strlen (hdr ++ l)) =
  loop (S (Z.to_nat (strlen l))) (decode_step host_le (Row_Decode host_le new_row) AddRow Err_BinMsg_RowDecode (hdr ++ l))
    (BufferManage (Some 4) (strlen l) 0, None, 0, false, new_record).
Proof.
  unfold MSG_MAX, INT_MAX. intros Hh Hl. unfold Record_Decode. rewrite strlen_hdr by done.
  rewrite (proj2 (Z.ltb_ge _ 4)) by lia. unfold s32. rewrite sw_id by lia.
  replace (4 + strlen l - 4) with (strlen l) by lia. rewrite attach by lia.
  by rewrite bool_decide_eq_false_2 by lia.
Qed.

Lemma first_length host_le hdr v tl :
  length hdr = 4%nat → Forall is_u8 hdr → Forall is_u8 tl → 0 ≤ v ≤ INT_MAX → 4 + strlen tl ≤ MSG_MAX →
  let msg := hdr ++ be_bytes 4 v ++ tl in
  GetString_ref host_le msg (BufferManage (Some 4) (4 + strlen tl) 0) (Some None) 0 =
  if INT_MAX <? v + 4 then Stuck
  else if v <=? strlen tl then Ret (0, Some (Some 8), v, BufferManage (Some 4) (4 + strlen tl) (4 + v))
  else Ret (Err_Buffer_Overflow, Some None, 0, BufferManage (Some 4) (4 + strlen tl) 0).
Proof.
  intros Hh Hhu Htu Hv Hs msg. unfold MSG_MAX, INT_MAX in *. pose proof (strlen_nonneg tl).
  assert (strlen msg = 8 + strlen tl) as Em.
  { unfold msg. rewrite strlen_hdr, strlen_hdr by (done || apply length_be_bytes). lia. }
  rewrite (GetString_ref_eq _ _ _ 4).
  2:{ apply Forall_app. split; [done|]. apply Forall_app. split; [apply be_bytes_u8|done]. }
  2:{ apply window_room; unfold strlen, INT_MAX in *; lia. }
  assert (peek msg (4 + 0) = v) as Ep.
  { unfold peek, msg. change (Z.to_nat (4 + 0)) with 4%nat. rewrite drop_app_length' by done.
    rewrite take_app_length' by (by rewrite length_be_bytes). unfold be_bytes. rewrite rev_involutive.
    rewrite le_value_bytes by (change (256 ^ Z.of_nat 4) with (2 ^ 32); lia). apply sw_id; lia. }
  cbn [m_iOffset m_iBufferLen]. cbv zeta. rewrite Ep.
  rewrite (proj2 (Z.ltb_ge (4 + _) _)) by lia. unfold INT_MAX. rewrite Z.add_0_l.
  destruct (Z.ltb_spec (2 ^ 31 - 1) (v + 4)); [done|]. rewrite (proj2 (Z.leb_le 0 v)) by lia.
  rewrite andb_true_l. destruct (Z.leb_spec v (strlen tl)).
  - rewrite (proj2 (Z.leb_le _ _)) by lia. done.
  - by rewrite (proj2 (Z.leb_gt _ _)) by lia.
Qed.

Lemma first_step host_le hdr v tl :
  length hdr = 4%nat → Forall is_u8 hdr → Forall is_u8 tl → 0 ≤ v ≤ INT_MAX → 4 + strlen tl ≤ MSG_MAX →
  v = 0 ∨ INT_MAX < v + 4 →
  decode_step host_le (Row_Decode host_le new_row) AddRow Err_BinMsg_RowDecode (hdr ++ be_bytes 4 v ++ tl)
    (BufferManage (Some 4) (4 + strlen tl) 0, None, 0, false, new_record) =
  if INT_MAX <? v + 4 then Stuck else Ret (inr (Err_BinMsg_RowDecode, new_record)).
Proof.
  intros Hh Hhu Htu Hv Hs Hc. unfold decode_step. rewrite first_length by done.
  destruct Hc as [-> |Hc]; [|by rewrite (proj2 (Z.ltb_lt _ _)) by lia].
  rewrite (proj2 (Z.ltb_ge _ _)) by (unfold INT_MAX; lia).
  by rewrite (proj2 (Z.leb_le 0 _)) by apply strlen_nonneg.
Qed.

(** What the decoder does not notice, and where the code is undefined: a
    record cut anywhere after its first row is accepted as the rows in front of
    the cut, whatever its total length says; a row of length 0, which is how a
    row without fields is encoded, is an error; a length within four of
    [INT_MAX] overflows a signed addition; and a record without rows is
    written past a buffer of fewer than four bytes. *)
Lemma record_codec_errors host_le hdr (rows : list bin_row) (r : bin_row) k v tl mem n :
  length hdr = 4%nat → Forall is_u8 hdr → Forall is_u8 tl → Forall msg_ok rows → rows ≠ [] → msg_ok r →
  8 + strlen (wire_items wire rows) + strlen (wire r) ≤ MSG_MAX →
  (k < length (wire_str (wire r)))%nat → INT_MAX - 4 < v ≤ INT_MAX → 4 ≤ strlen tl ≤ MSG_MAX - 8 →
  0 ≤ n < 4 → n ≤ Z.of_nat (length mem) →
  (let cut := hdr ++ wire_items wire rows ++ take k (wire_str (wire r)) in
   Record_Decode host_le new_record cut (Some 0) (strlen cut) = Ret (0, record_of (map reset rows))) ∧
  (let msg := hdr ++ be_bytes 4 0 ++ tl in
   Record_Decode host_le new_record msg (Some 0) (strlen msg) = Ret (Err_BinMsg_RowDecode, new_record)) ∧
  (let msg := hdr ++ be_bytes 4 v ++ tl in
   Record_Decode host_le new_record msg (Some 0) (strlen msg) = Stuck) ∧
  Record_Encode host_le new_record mem (Some (Z.of_nat (length mem) - n)) n = Stuck.
Proof.
  intros Hh Hhu Htu Hrows Hne Hr Hs Hk Hv Htl Hn Hm. unfold MSG_MAX in *.
  assert (strlen (be_bytes 4 0 ++ tl) = 4 + strlen tl) as El by (apply strlen_hdr, length_be_bytes).
  split; [|split; [|split]].
  - by apply Record_Decode_cut.
  - rewrite Record_Decode_start by (done || rewrite El; unfold MSG_MAX; lia). rewrite El, loop_S.
    rewrite first_step by (done || unfold MSG_MAX, INT_MAX in *; lia). done.
  - rewrite Record_Decode_start by (done || rewrite strlen_hdr by apply length_be_bytes; unfold MSG_MAX; lia).
    rewrite strlen_hdr, loop_S by apply length_be_bytes.
    rewrite first_step by (done || unfold MSG_MAX, INT_MAX in *; lia). by rewrite (proj2 (Z.ltb_lt _ _)) by lia.
  - unfold Record_Encode. rewrite (proj2 (Z.ltb_ge n 0)) by lia. cbn. unfold write_int.
    rewrite store_bytes_short; [done|lia|]. unfold strlen. rewrite htonl_bytes, length_be_bytes. lia.
Qed.

Lemma record_codec_errors_witness :
  let cut := [9; 9; 9; 9] ++ wire_items wire [demo_row] ++ take 10 (wire_str (wire demo_row)) in
  Record_Decode true new_record cut (Some 0) (strlen cut) = Ret (0, record_of (map reset [demo_row])).
Proof.
  refine (proj1 (record_codec_errors true [9; 9; 9; 9] [demo_row] demo_row 10 INT_MAX [0; 0; 0; 0] [7; 7] 2
    _ _ _ _ _ demo_row_ok _ _ _ _ _ _)); try (done || lia).
  - repeat constructor; unfold is_u8; lia.
  - repeat constructor; unfold is_u8; lia.
  - repeat constructor; apply demo_row_ok.
  - vm_compute. lia.
Defined.

