(* ===== verification/Utility.v ===== *)
(** * String utilities of the game login server: [SDUtility]
    ([logingame_server/src/common/SDUtility.cpp])

    Hexadecimal and URL codes, numbers, hashes and comparison.  Strings are
    shorter than 2^30 bytes, so the positions held in an [int] do not overflow.
    A [char *] argument is the array it points to, terminator included. *)

From S2P Require Import Prelude Text.

(** ** Definitions: hexadecimal text *)

(** [sprintf] of a byte with "%02X" and "%2.2x". *)
Definition hex_char (ten n : Z) : Z := if n <? 10 then 48 + n else ten + (n - 10).
Definition print_hex (ten n : Z) : list Z := [hex_char ten (n / 16); hex_char ten (n mod 16)].

Definition str2hex (buf : list Z) (size : Z) : outcome (list Z) :=
  for_range 0 size (λ i ret_str,
    let! c := aget buf i in
    Ret (ret_str ++ print_hex 65 c)) [].

Definition hex2int (chr : Z) : Z :=
  if (48 <=? chr) && (chr <=? 57) then chr - 48
  else if (97 <=? chr) && (chr <=? 102) then chr - 97 + 10
  else if (65 <=? chr) && (chr <=? 70) then chr - 65 + 10
  else 0.

(** The status and [binary_string]; the buffer is filled from the front. *)
Definition hexstr2byte (binary_string hex_string : list Z) : outcome (bool * list Z) :=
  if bool_decide (slen hex_string mod 2 ≠ 0) then Ret (false, binary_string)
  else
    let buff_len := u32 (slen hex_string / 2) in
    let! buff := for_range 0 buff_len (λ i buff,
      let! a := aget (hex_string ++ [0]) (2 * i) in
      let! b := aget (hex_string ++ [0]) (2 * i + 1) in
      Ret (buff ++ [u8 (16 * hex2int a + hex2int b)])) [] in
    Ret (true, buff).

(** [MD5] of OpenSSL returns the sixteen bytes of the digest. *)
Definition get_md5 (MD5 : list Z → list Z) (src : list Z) : outcome (list Z) :=
  for_range 0 16 (λ i buf,
    let! c := aget (MD5 src) i in
    Ret (buf ++ print_hex 97 c)) [].

(** ** Definitions: numbers *)
Definition format_int (i : Z) : list Z := print_dec i.
Definition format_uint32 (i : Z) : list Z := print_dec i.
(** "%u" is given a 64-bit number; the services' machine prints its low half. *)
Definition format_uint64 (i : Z) : list Z := print_dec (u32 i).

(** From the answer of [gettimeofday]. *)
Definition get_cur_millseconds (tv_sec tv_usec : Z) : Z := u32 (tv_sec * 1000 + tv_usec / 1000).

(** The loop of the four conversions, [wrap] the conversion to the result type. *)
Definition atou_step (wrap : Z → Z) (str : list Z) (st : Z * Z * Z) : outcome (Z * Z * Z + Z) :=
  let '(value, ptr, len) := st in
  if 0 <=? len then
    let! c := aget str ptr in
    if isdigit c then Ret (inl (wrap (10 * value + (c - 48)), ptr + 1, len - 1)) else Ret (inr value)
  else Ret (inr value).

Definition atou (wrap : Z → Z) (str : list Z) (len : Z) : outcome Z :=
  loop (S (length str)) (atou_step wrap str) (0, 0, len).

Definition atouint8 (ptr : list Z) (len : Z) : outcome Z :=
  if len =? 0 then Ret 0 else atou u8 ptr len.
Definition atouint32 (ptr : list Z) (len : Z) : outcome Z :=
  if len =? 0 then Ret 0 else atou u32 ptr len.
Definition atouint64 (ptr : list Z) (len : Z) : outcome Z :=
  if len =? 0 then Ret 0 else atou u64 ptr len.
(** The overload for [const char *], without the test. *)
Definition atouint64_const (ptr : list Z) (len : Z) : outcome Z := atou u64 ptr len.
Definition atouint32_str (str : list Z) : outcome Z := atouint32 (str ++ [0]) (s32 (slen str)).
Definition atouint64_str (str : list Z) : outcome Z := atouint64_const (str ++ [0]) (s32 (slen str)).

Definition ip2long (str_ip : list Z) : outcome Z :=
  let position1 := int_pos (find_char 46 str_ip 0) in
  let position2 := int_pos (find_char 46 str_ip (position1 + 1)) in
  let position3 := int_pos (find_char 46 str_ip (position2 + 1)) in
  let! ip00 := substr str_ip 0 (u64 position1) in
  let! ip11 := substr str_ip (position1 + 1) (u64 position2) in
  let! ip22 := substr str_ip (position2 + 1) (u64 position3) in
  let! ip33 := substr_from str_ip (position3 + 1) in
  let! ip0 := atouint32 (ip00 ++ [0]) (s32 (slen ip00)) in
  let! ip1 := atouint32 (ip11 ++ [0]) (s32 (slen ip00)) in
  let! ip2 := atouint32 (ip22 ++ [0]) (s32 (slen ip00)) in
  let! ip3 := atouint32 (ip33 ++ [0]) (s32 (slen ip00)) in
  Ret (u32 (u32 (u32 (u32 (Z.shiftl ip0 24) + u32 (Z.shiftl ip1 16)) + u32 (Z.shiftl ip2 8)) + ip3)).

(** ** Definitions: hashes *)

(** [sprintf] of a number below 100 with "%02d". *)
Definition print_02d (n : Z) : list Z := [48 + n / 10; 48 + n mod 10].

Definition hash (id : list Z) : outcome (list Z) :=
  let! result := for_range 0 (slen id) (λ i result,
    let! c := aget id i in Ret (u32 (31 * result + s8 c))) 1 in
  let result := u32 (Z.land result 0x7FFFFFFF + 0x80000000) in
  Ret (print_02d (result mod 100)).

(** [31 * h + c] on [int]s. *)
Definition hash_int (str : list Z) (i h : Z) : outcome Z :=
  let! h := in_s32 (31 * h) in
  let! c := aget str i in
  in_s32 (h + s8 c).

Definition hash_gcid (str : list Z) : outcome Z :=
  if bool_decide (str = []) then Ret 0
  else
    let! result := for_range 0 (slen str) (hash_int str) 1 in
    in_s32 (Z.abs result).

Definition hash_java (str : list Z) : outcome Z :=
  let! h := for_range 0 (slen str) (hash_int str) 0 in
  if h <? 0 then in_s32 (0 - h) else Ret h.

Definition user_postfix (user_id : list Z) : outcome (list Z) :=
  let len := u32 (slen user_id) in
  if len <? 2 then Ret [48; 48]
  else
    let! a := aget user_id (len - 1) in
    let! b := aget user_id (len - 2) in
    if isdigit a && isdigit b then substr user_id (len - 2) 2 else hash user_id.

Definition group_postfix (group_id : list Z) : outcome (list Z) :=
  if slen group_id <? 2 then Stuck else substr group_id (slen group_id - 2) 2.

Definition message_postfix (dst_id : list Z) : outcome (list Z) := hash dst_id.

(** ** Definitions: comparison *)
Definition strnicmp_step (s1 s2 : list Z) (st : Z * Z) : outcome (Z * Z + Z * Z) :=
  let '(i, len) := st in
  let! c1 := aget s1 i in
  let! c2 := aget s2 i in
  let next c1 c2 : outcome (Z * Z + Z * Z) :=
    if bool_decide (len - 1 = 0) then Ret (inr (c1, c2)) else Ret (inl (i + 1, len - 1)) in
  if bool_decide (c1 = 0) then Ret (inr (c1, c2))
  else if bool_decide (c2 = 0) then Ret (inr (c1, c2))
  else if bool_decide (c1 = c2) then next c1 c2
  else
    let c1 := tolower c1 in
    let c2 := tolower c2 in
    if bool_decide (c1 ≠ c2) then Ret (inr (c1, c2)) else next c1 c2.

Definition strnicmp (s1 s2 : list Z) (len : Z) : outcome Z :=
  if bool_decide (len ≠ 0) then
    let! r := loop (S (length s1)) (strnicmp_step s1 s2) (0, len) in
    Ret (r.1 - r.2)
  else Ret 0.

(** ** Definitions: the URL code *)
Definition toHex (x : Z) : Z := if 9 <? x then x + 55 else x + 48.

(** The text of a byte, as a C string. *)
Definition URLEncode_char (c : Z) : list Z :=
  if isalnum c then [c]
  else if isspace c then [43]
  else [37; toHex (Z.shiftr c 4); toHex (c mod 16)].

Definition URLEncode (sIn : list Z) : outcome (list Z) :=
  for_range 0 (slen sIn) (λ ix sOut,
    let! c := aget sIn ix in
    Ret (sOut ++ c_string (URLEncode_char c))) [].

(** The [char] of a digit: a byte is converted to the signed type first. *)
Definition x2c_digit (c : Z) : Z :=
  let c := s8 c in if 65 <=? c then Z.land c 0xdf - 65 + 10 else c - 48.

Definition x2c_value (a b : Z) : Z :=
  let digit := s8 (x2c_digit a) in
  let digit := s8 (digit * 16) in
  u8 (s8 (digit + x2c_digit b)).

(** [what] is [url + p]. *)
Definition x2c (url : list Z) (p : Z) : outcome Z :=
  let! a := aget url p in
  let! b := aget url (p + 1) in
  Ret (x2c_value a b).

Definition unescape_step (st : Z * Z * list Z) : outcome (Z * Z * list Z + Z * list Z) :=
  let '(x, y, url) := st in
  let! c := aget url y in
  if bool_decide (c = 0) then Ret (inr (x, url))
  else
    let! url := aset url x c in
    if bool_decide (c = 37) then
      let! d := x2c url (y + 1) in
      let! url := aset url x d in
      Ret (inl (x + 1, y + 2 + 1, url))
    else
      let! e := aget url y in
      if bool_decide (e = 43) then
        let! url := aset url x 32 in
        Ret (inl (x + 1, y + 1, url))
      else Ret (inl (x + 1, y + 1, url)).

Definition unescape_url (url : list Z) : outcome (list Z) :=
  let! r := loop (S (length url)) unescape_step (0, 0, url) in
  aset r.2 r.1 0.

(** [strdup] copies the C string. *)
Definition URLDecode (url : list Z) : outcome (list Z) :=
  let! pszUrl := unescape_url (c_string url ++ [0]) in
  Ret (c_string pszUrl).

(** ** Specification *)

(** What [URLDecode] makes of a byte: spaces of every kind become blanks. *)
Definition blank (c : Z) : Z := if isspace c then 32 else c.
Definition byte_char (c : Z) : Prop := 0 < c < 256.

(** The texts of bytes in a row. *)
Definition url_text (s : list Z) : list Z := concat (map URLEncode_char s).

Definition digit_string (s : list Z) : Prop := Forall (λ c, isdigit c = true) s.
Definition value_of (s : list Z) : Z := dec_value 0 s.

(** ** Lemmas: bytes *)
Lemma bytes_check (P : Z → bool) : forallb P (seqZ 0 256) = true → ∀ c, 0 ≤ c < 256 → P c = true.
Proof. rewrite forallb_forall. intros H c Hc. apply H, list_elem_of_In, elem_of_seqZ. lia. Qed.

Lemma hex_byte ten c : ten = 65 ∨ ten = 97 → 0 ≤ c < 256 →
  u8 (16 * hex2int (hex_char ten (c / 16)) + hex2int (hex_char ten (c mod 16))) = c.
Proof.
  intros [-> | ->] Hc; apply Z.eqb_eq;
    [apply (bytes_check (λ c, u8 (16 * hex2int (hex_char 65 (c / 16)) + hex2int (hex_char 65 (c mod 16))) =? c))
    |apply (bytes_check (λ c, u8 (16 * hex2int (hex_char 97 (c / 16)) + hex2int (hex_char 97 (c mod 16))) =? c))];
    (done || by vm_compute).
Qed.

Lemma url_byte c : 0 ≤ c < 256 → x2c_value (toHex (Z.shiftr c 4)) (toHex (c mod 16)) = c.
Proof.
  intros Hc. apply Z.eqb_eq.
  by apply (bytes_check (λ c, x2c_value (toHex (Z.shiftr c 4)) (toHex (c mod 16)) =? c)); [vm_compute|].
Qed.

(** The three forms of the text of a byte. *)
Lemma URLEncode_char_forms c : byte_char c →
  (∃ d, URLEncode_char c = [d] ∧ d ≠ 0 ∧ d ≠ 37 ∧ (if bool_decide (d = 43) then 32 else d) = blank c) ∨
  (∃ a b, URLEncode_char c = [37; a; b] ∧ a ≠ 0 ∧ b ≠ 0 ∧ x2c_value a b = blank c).
Proof.
  intros Hc. unfold byte_char in Hc. unfold URLEncode_char, blank. destruct (isalnum c) eqn:Ea.
  - left. exists c. unfold isalnum, isdigit, isupper, islower, isspace in *.
    rewrite bool_decide_eq_false_2 by lia. split; [done|]. split; [lia|]. split; [lia|].
    destruct ((c =? 32) || (9 <=? c) && (c <=? 13)) eqn:Es; [lia|done].
  - destruct (isspace c) eqn:Es; [left; by exists 43|]. right. exists (toHex (Z.shiftr c 4)), (toHex (c mod 16)).
    split; [done|]. rewrite url_byte by lia. pose proof (Z.mod_pos_bound c 16). rewrite Z.shiftr_div_pow2 by lia.
    change (2 ^ 4) with 16. assert (0 ≤ c / 16) by (apply Z.div_pos; lia). unfold toHex.
    destruct (9 <? c / 16), (9 <? c mod 16); lia.
Qed.

Lemma URLEncode_char_no_nul c : byte_char c → 0 ∉ URLEncode_char c.
Proof.
  intros Hc. destruct (URLEncode_char_forms c Hc) as [(d & -> & Hd & _)|(a & b & -> & Ha & Hb & _)];
    rewrite !not_elem_of_cons; split_and!; (done || apply not_elem_of_nil).
Qed.

Lemma url_text_no_nul s : Forall byte_char s → 0 ∉ url_text s.
Proof.
  induction 1 as [|c s Hc Hs IH]; [apply not_elem_of_nil|]. unfold url_text in *. simpl.
  rewrite elem_of_app. intros [H|H]; [by apply (URLEncode_char_no_nul c)|done].
Qed.

(** Loops that append the text of one element after the other. *)
Lemma append_loop {A} (l : list A) (f : A → list Z) (body : Z → list Z → outcome (list Z)) k out :
  (∀ i x out, 0 ≤ i → l !! Z.to_nat i = Some x → body i out = Ret (out ++ f x)) →
  (k ≤ length l)%nat →
  for_up (length l - k) (Z.of_nat k) body out = Ret (out ++ concat (map f (drop k l))).
Proof.
  intros Hb Hk. remember (length l - k)%nat as n eqn:En. revert k out Hk En.
  induction n as [|n IH]; intros k out Hk En; simpl.
  - rewrite drop_ge by lia. by rewrite app_nil_r.
  - destruct (lookup_lt_is_Some_2 l k) as [x Hx]; [lia|].
    rewrite (Hb _ x) by (try rewrite Nat2Z.id; (done || lia)). cbn [mbind outcome_bind].
    replace (Z.of_nat k + 1) with (Z.of_nat (S k)) by lia. rewrite IH by lia.
    rewrite (drop_S _ _ _ Hx). simpl. by rewrite app_assoc.
Qed.

Lemma append_range {A} (l : list A) (f : A → list Z) (body : Z → list Z → outcome (list Z)) n out :
  (∀ i x out, 0 ≤ i → l !! Z.to_nat i = Some x → body i out = Ret (out ++ f x)) → n = slen l →
  for_range 0 n body out = Ret (out ++ concat (map f l)).
Proof.
  intros Hb ->. unfold for_range. rewrite Z.sub_0_r, Nat2Z.id, <-(Nat.sub_0_r (length l)).
  rewrite (append_loop l f) by (done || lia). by rewrite drop_0.
Qed.

Lemma URLEncode_eq s : Forall byte_char s → URLEncode s = Ret (url_text s).
Proof.
  intros Hs. unfold URLEncode. rewrite (append_range s URLEncode_char); [done| |done].
  intros i x out Hi Hx. rewrite (aget_lookup _ _ _ Hi Hx). cbn [mbind outcome_bind].
  rewrite c_string_id; [done|]. apply URLEncode_char_no_nul. by eapply Forall_lookup_1.
Qed.

Lemma str2hex_eq buf : str2hex buf (slen buf) = Ret (concat (map (print_hex 65) buf)).
Proof.
  unfold str2hex. rewrite (append_range buf (print_hex 65)); [done| |done].
  intros i x out Hi Hx. by rewrite (aget_lookup _ _ _ Hi Hx).
Qed.

(** ** Lemmas: decoding *)

(** A turn of the decoder: it stands [mid] behind the place it writes to. *)
Lemma unescape_turn out mid c rest :
  byte_char c →
  ∃ mid', unescape_step (slen out, slen out + slen mid, out ++ mid ++ URLEncode_char c ++ rest) =
    Ret (inl (slen (out ++ [blank c]), slen (out ++ [blank c]) + slen mid', (out ++ [blank c]) ++ mid' ++ rest)).
Proof.
  intros Hc.
  assert (∃ z m, mid ++ [hd 0 (URLEncode_char c)] = z :: m ∧ slen m = slen mid) as (z & m & Em & Hm).
  { destruct mid as [|z mid]; [by exists (hd 0 (URLEncode_char c)), []|]. exists z, (mid ++ [hd 0 (URLEncode_char c)]).
    split; [done|]. rewrite length_app. simpl. lia. }
  assert (∀ l v, aset (out ++ mid ++ hd 0 (URLEncode_char c) :: l) (slen out) v = Ret (out ++ v :: m ++ l)) as Hset.
  { intros l v. rewrite cons_middle, (app_assoc mid), Em. simpl. by rewrite aset_mid. }
  assert (∀ l x, aget (out ++ mid ++ x :: l) (slen out + slen mid) = Ret x) as Hget.
  { intros l x. rewrite app_assoc, aget_mid; [done|]. rewrite length_app. lia. }
  unfold unescape_step. destruct (URLEncode_char_forms c Hc) as [(d & E & Hd & Hp & Hb)|(a & b & E & _ & _ & Hb)];
    rewrite E in *; cbn [hd app] in *; rewrite Hget; cbn [mbind outcome_bind].
  - rewrite bool_decide_eq_false_2 by done. rewrite Hset. cbn [mbind outcome_bind]. rewrite bool_decide_eq_false_2 by done.
    exists m. rewrite length_app, <-!app_assoc. cbn [length app].
    assert (aget (out ++ d :: m ++ rest) (slen out + slen mid) = Ret d) as ->.
    { destruct mid as [|y mid]; [injection Em as -> <-; rewrite Z.add_0_r; by rewrite aget_mid|].
      injection Em as -> <-. rewrite <-app_assoc. cbn [app]. rewrite app_comm_cons, app_assoc, aget_mid; [done|].
      rewrite length_app. simpl. lia. }
    cbn [mbind outcome_bind]. case_bool_decide; rewrite <-Hb.
    + rewrite aset_mid by done. cbn [mbind outcome_bind]. do 4 f_equal; lia.
    + do 4 f_equal; lia.
  - rewrite bool_decide_eq_false_2 by done. rewrite Hset. cbn [mbind outcome_bind]. rewrite bool_decide_eq_true_2 by done.
    unfold x2c.
    assert (aget (out ++ 37 :: m ++ a :: b :: rest) (slen out + slen mid + 1) = Ret a) as ->.
    { rewrite app_comm_cons, app_assoc, aget_mid; [done|]. rewrite length_app. simpl. lia. }
    cbn [mbind outcome_bind].
    assert (aget (out ++ 37 :: m ++ a :: b :: rest) (slen out + slen mid + 1 + 1) = Ret b) as ->.
    { rewrite (cons_middle a), (app_assoc m), app_comm_cons, app_assoc, aget_mid; [done|].
      rewrite length_app. simpl. rewrite length_app. simpl. lia. }
    cbn [mbind outcome_bind].
    rewrite aset_mid, Hb by done. cbn [mbind outcome_bind]. exists (m ++ [a; b]). rewrite !length_app, <-!app_assoc. cbn [length app].
    do 4 f_equal; lia.
Qed.

Lemma unescape_loop s : ∀ fuel out mid rest,
  Forall byte_char s →
  ∃ mid', loop (length s + fuel) unescape_step (slen out, slen out + slen mid, out ++ mid ++ url_text s ++ rest) =
    let out' := out ++ map blank s in loop fuel unescape_step (slen out', slen out' + slen mid', out' ++ mid' ++ rest).
Proof.
  induction s as [|c s IH]; intros fuel out mid rest Hs; cbv zeta.
  - exists mid. simpl. by rewrite app_nil_r.
  - apply Forall_cons in Hs as [Hc Hs]. change (length (c :: s) + fuel)%nat with (S (length s + fuel)). rewrite loop_S.
    change (url_text (c :: s)) with (URLEncode_char c ++ url_text s). rewrite <-app_assoc.
    destruct (unescape_turn out mid c (url_text s ++ rest) Hc) as [mid' ->]. cbn [mbind outcome_bind].
    destruct (IH fuel (out ++ [blank c]) mid' rest Hs) as [mid'' ->]. exists mid''. cbv zeta. simpl map.
    by rewrite <-app_assoc.
Qed.

Lemma url_text_length s : Forall byte_char s → (length s ≤ length (url_text s))%nat.
Proof.
  induction 1 as [|c s Hc Hs IH]; [done|]. change (url_text (c :: s)) with (URLEncode_char c ++ url_text s).
  rewrite length_app. destruct (URLEncode_char_forms c Hc) as [(d & -> & _)|(a & b & -> & _)]; simpl; lia.
Qed.

(** The decoder over the text of [s]. *)
Lemma unescape_text s rest :
  Forall byte_char s →
  ∃ mid fuel, unescape_url (url_text s ++ rest) =
    (let! r := loop (S (length rest) + fuel) unescape_step (slen s, slen s + slen mid, map blank s ++ mid ++ rest) in
     aset r.2 r.1 0).
Proof.
  intros Hs. pose proof (url_text_length s Hs) as Hl. unfold unescape_url.
  destruct (unescape_loop s (S (length rest) + (length (url_text s) - length s)) [] [] rest Hs) as [mid E].
  exists mid, (length (url_text s) - length s)%nat. cbv zeta in E. simpl app in E. rewrite length_map in E.
  rewrite <-E. f_equal. rewrite length_app. f_equal. lia.
Qed.

Lemma blank_no_nul s : Forall byte_char s → 0 ∉ map blank s.
Proof.
  induction 1 as [|c s Hc Hs IH]; [apply not_elem_of_nil|]. simpl. apply not_elem_of_cons. split; [|done].
  unfold blank. unfold byte_char in Hc. destruct (isspace c); lia.
Qed.

Lemma URLDecode_text s : Forall byte_char s → URLDecode (url_text s) = Ret (map blank s).
Proof.
  intros Hs. unfold URLDecode. rewrite c_string_id by by apply url_text_no_nul.
  destruct (unescape_text s [0] Hs) as (mid & fuel & ->). cbn [length Nat.add]. rewrite loop_S.
  assert (aget (map blank s ++ mid ++ [0]) (slen s + slen mid) = Ret 0) as E.
  { rewrite app_assoc, aget_mid; [done|]. rewrite length_app, length_map. lia. }
  assert (unescape_step (slen s, slen s + slen mid, map blank s ++ mid ++ [0]) = Ret (inr (slen s, map blank s ++ mid ++ [0]))) as ->
    by (unfold unescape_step; by rewrite E).
  cbn [mbind outcome_bind fst snd].
  assert (∃ z m, mid ++ [0] = z :: m) as (z & m & ->) by (destruct mid; eauto).
  rewrite aset_mid by by rewrite length_map. cbn [mbind outcome_bind]. f_equal.
  rewrite c_string_app by by apply blank_no_nul. apply app_nil_r.
Qed.

(** A [%] with fewer than two characters behind it is read past the terminator. *)
Lemma URLDecode_cut s h : Forall byte_char s → Forall byte_char h → (length h ≤ 1)%nat → URLDecode (url_text s ++ 37 :: h) = Stuck.
Proof.
  intros Hs Hh Hl. unfold URLDecode.
  rewrite c_string_id.
  2:{ rewrite elem_of_app, elem_of_cons. intros [H|[H|H]]; [by apply (url_text_no_nul s)|done|].
      rewrite Forall_forall in Hh. by destruct (Hh 0 H). }
  rewrite <-app_assoc. destruct (unescape_text s ((37 :: h) ++ [0]) Hs) as (mid & fuel & ->).
  set (st := (slen s, slen s + slen mid, map blank s ++ mid ++ (37 :: h) ++ [0])).
  assert (∃ z m, mid ++ [37] = z :: m ∧ slen m = slen mid) as (z & m & Em & Hm).
  { destruct mid as [|z mid]; [by exists 37, []|]. exists z, (mid ++ [37]). rewrite length_app. simpl. split; [done|lia]. }
  assert (unescape_step st = let! d := x2c (map blank s ++ 37 :: m ++ h ++ [0]) (slen s + slen mid + 1) in
    let! url := aset (map blank s ++ 37 :: m ++ h ++ [0]) (slen s) d in Ret (inl (slen s + 1, slen s + slen mid + 2 + 1, url))) as E.
  { unfold st, unescape_step. rewrite app_assoc. cbn [app]. rewrite aget_mid by (rewrite length_app, length_map; lia).
    cbn [mbind outcome_bind]. rewrite <-app_assoc, (cons_middle 37), (app_assoc mid), Em. cbn [app].
    by rewrite aset_mid by by rewrite length_map. }
  cbn [Nat.add]. rewrite loop_S, E. destruct h as [|a [|b h]]; [| |simpl in Hl; lia]; cbn [app].
  - unfold x2c. assert (aget (map blank s ++ 37 :: m ++ [0]) (slen s + slen mid + 1) = Ret 0) as ->.
    { rewrite app_comm_cons, app_assoc, aget_mid; [done|]. rewrite length_app, length_map. simpl. lia. }
    cbn [mbind outcome_bind]. rewrite aget_out; [done|]. rewrite length_app, length_map. simpl. rewrite length_app. simpl. lia.
  - unfold x2c. assert (aget (map blank s ++ 37 :: m ++ [a; 0]) (slen s + slen mid + 1) = Ret a) as ->.
    { rewrite app_comm_cons, app_assoc, aget_mid; [done|]. rewrite length_app, length_map. simpl. lia. }
    assert (aget (map blank s ++ 37 :: m ++ [a; 0]) (slen s + slen mid + 1 + 1) = Ret 0) as ->.
    { rewrite (cons_middle a), (app_assoc m), app_comm_cons, app_assoc, aget_mid; [done|].
      rewrite length_app, length_map. simpl. rewrite length_app. simpl. lia. }
    cbn [mbind outcome_bind]. rewrite aset_mid by by rewrite length_map. cbn [mbind outcome_bind length app Nat.add]. rewrite loop_S.
    unfold unescape_step. rewrite aget_out; [done|]. rewrite length_app, length_map. simpl. rewrite length_app. simpl. lia.
Qed.

(** ** Lemmas: numbers *)
Lemma dec_value_app a s t : dec_value a (s ++ t) = dec_value (dec_value a s) t.
Proof. revert a. induction s as [|c s IH]; intros a; [done|]. simpl. apply IH. Qed.

Lemma dec_value_nonneg a s : 0 ≤ a → digit_string s → 0 ≤ dec_value a s.
Proof.
  intros Ha Hs. revert a Ha. induction Hs as [|c s Hc Hs IH]; intros a Ha; [done|]. apply IH. unfold isdigit in Hc. lia.
Qed.

Lemma value_of_nonneg s : digit_string s → 0 ≤ value_of s.
Proof. by apply dec_value_nonneg. Qed.

Lemma dec_value_mod m a b s : 0 < m → a mod m = b mod m → dec_value a s mod m = dec_value b s mod m.
Proof.
  intros Hm. revert a b. induction s as [|c s IH]; intros a b H; [done|]. simpl. apply IH.
  rewrite <-(Zplus_mod_idemp_l (10 * a)), <-(Zplus_mod_idemp_l (10 * b)).
  by rewrite <-(Zmult_mod_idemp_r a), <-(Zmult_mod_idemp_r b), H.
Qed.

Lemma atou_step_eq wrap pre c l value len :
  atou_step wrap (pre ++ c :: l) (value, slen pre, len) =
  Ret (if (0 <=? len) && isdigit c then inl (wrap (10 * value + (c - 48)), slen pre + 1, len - 1) else inr value).
Proof.
  unfold atou_step. destruct (0 <=? len); [|done]. rewrite aget_mid by done. cbn [mbind outcome_bind andb].
  by destruct (isdigit c).
Qed.

Lemma atou_loop w pre ds c rest value len fuel :
  0 ≤ w → digit_string ds → isdigit c = false → -1 ≤ len → (length ds < fuel)%nat →
  loop fuel (atou_step (λ z, z mod 2 ^ w) (pre ++ ds ++ c :: rest)) (value mod 2 ^ w, slen pre, len) =
  Ret (dec_value value (take (Z.to_nat (len + 1)) ds) mod 2 ^ w).
Proof.
  intros Hw Hds Hc. revert pre value len fuel. induction Hds as [|d ds Hd Hds IH]; intros pre value len fuel Hl Hf;
    (destruct fuel as [|fuel]; [simpl in Hf; lia|]); rewrite loop_S; cbn [app]; rewrite atou_step_eq.
  - by rewrite Hc, andb_false_r, take_nil.
  - rewrite Hd, andb_true_r. cbn [mbind outcome_bind]. destruct (Z.leb_spec 0 len).
    + replace (Z.to_nat (len + 1)) with (S (Z.to_nat (len - 1 + 1))) by lia. cbn [take dec_value].
      specialize (IH (pre ++ [d]) (10 * value + (d - 48)) (len - 1) fuel ltac:(lia) ltac:(simpl in Hf; lia)).
      rewrite <-app_assoc, length_app in IH. cbn [app length] in IH. rewrite Nat2Z.inj_add in IH.
      rewrite <-IH. do 3 f_equal. rewrite <-(Zplus_mod_idemp_l (10 * (value mod 2 ^ w))), Zmult_mod_idemp_r.
      apply Zplus_mod_idemp_l.
    + by replace (Z.to_nat (len + 1)) with O by lia.
Qed.

Lemma atou_spec w ds c rest len :
  0 ≤ w → digit_string ds → isdigit c = false → 0 ≤ len →
  atou (λ z, z mod 2 ^ w) (ds ++ c :: rest) len = Ret (value_of (take (Z.to_nat (len + 1)) ds) mod 2 ^ w).
Proof.
  intros Hw Hds Hc Hl. unfold atou. pose proof (atou_loop w [] ds c rest 0 len (S (length (ds ++ c :: rest)))) as H.
  rewrite Z.mod_0_l in H by lia. apply H; (done || lia || (rewrite length_app; lia)).
Qed.

Lemma atouint32_spec ds c rest len :
  digit_string ds → isdigit c = false → 0 < len →
  atouint32 (ds ++ c :: rest) len = Ret (u32 (value_of (take (Z.to_nat (len + 1)) ds))).
Proof.
  intros Hds Hc Hl. unfold atouint32. rewrite (proj2 (Z.eqb_neq _ _)) by lia. by apply (atou_spec 32); [lia|..|lia].
Qed.

(** The conversions end at the terminator. *)
Lemma atou_total wrap s len : ∃ n, atou wrap (s ++ [0]) len = Ret n.
Proof.
  unfold atou. assert (returns (loop (S (length (s ++ [0]))) (atou_step wrap (s ++ [0])) (0, 0, len)) (λ _, True)) as Hr.
  { apply (loop_returns (λ st : Z * Z * Z, 0 ≤ st.1.2 ≤ slen s) (λ st, Z.to_nat (slen s - st.1.2))); [|cbn; lia|rewrite length_app; cbn; lia].
    intros [[v ptr] l] Hp. cbn [fst snd] in *. unfold atou_step. destruct (0 <=? l); [|done].
    destruct (lookup_lt_is_Some_2 (s ++ [0]) (Z.to_nat ptr)) as [c Ec]; [rewrite length_app; cbn; lia|].
    rewrite (aget_lookup _ _ c) by (done || lia). cbn [mbind outcome_bind]. destruct (isdigit c) eqn:Ed; [|done]. cbn [returns fst snd].
    assert (ptr ≠ slen s) as Hne; [|lia]. intros ->. rewrite Nat2Z.id, lookup_app_r, Nat.sub_diag in Ec by lia. injection Ec as <-. done. }
  destruct (loop _ _ _) as [n| |]; [by exists n|done..].
Qed.

Lemma atouint32_total s len : ∃ n, atouint32 (s ++ [0]) len = Ret n.
Proof. unfold atouint32. destruct (len =? 0); [by eexists|apply atou_total]. Qed.

Lemma digit_not_dot ds : digit_string ds → 46 ∉ ds.
Proof. unfold digit_string. rewrite Forall_forall. intros H Hin. by specialize (H _ Hin). Qed.

Lemma u32_octets a b c d :
  u32 (u32 (u32 (u32 (Z.shiftl (u32 a) 24) + u32 (Z.shiftl (u32 b) 16)) + u32 (Z.shiftl (u32 c) 8)) + u32 d) =
  u32 (a * 2 ^ 24 + b * 2 ^ 16 + c * 2 ^ 8 + d).
Proof. rewrite !Z.shiftl_mul_pow2 by lia. unfold u32. dlia. Qed.

(** [n] of the address of which the first octet has [n] digits. *)
Definition octet (n : nat) (ds : list Z) : Z := value_of (take (S n) ds).

Lemma ip2long_spec A B C D :
  digit_string A → digit_string B → digit_string C → digit_string D → A ≠ [] →
  slen (A ++ 46 :: B ++ 46 :: C ++ 46 :: D) < 2 ^ 30 →
  ip2long (A ++ 46 :: B ++ 46 :: C ++ 46 :: D) =
  Ret (u32 (value_of A * 2 ^ 24 + octet (length A) B * 2 ^ 16 + octet (length A) C * 2 ^ 8 + octet (length A) D)).
Proof.
  intros HA HB HC HD Hne Hs. set (s := A ++ 46 :: B ++ 46 :: C ++ 46 :: D) in *.
  assert (0 < slen A) as HlA by (destruct A; [done|simpl; lia]).
  assert (slen s = slen A + slen B + slen C + slen D + 3) as Hl by (unfold s; rewrite !length_app; simpl; rewrite !length_app; simpl; rewrite !length_app; simpl; lia).
  assert (drop (Z.to_nat 0) s = A ++ 46 :: B ++ 46 :: C ++ 46 :: D) as D0 by done.
  assert (drop (Z.to_nat (slen A + 1)) s = B ++ 46 :: C ++ 46 :: D) as D1.
  { unfold s. rewrite cons_middle, app_assoc. apply drop_app_length'. rewrite length_app. simpl. lia. }
  assert (drop (Z.to_nat (slen A + slen B + 2)) s = C ++ 46 :: D) as D2.
  { replace (slen A + slen B + 2) with (slen A + 1 + slen (B ++ [46])) by (rewrite length_app; simpl; lia).
    apply drop_prefix; [lia|]. by rewrite D1, <-app_assoc. }
  assert (drop (Z.to_nat (slen A + slen B + slen C + 3)) s = D) as D3.
  { replace (slen A + slen B + slen C + 3) with (slen A + slen B + 2 + slen (C ++ [46])) by (rewrite length_app; simpl; lia).
    apply drop_prefix; [lia|]. by rewrite D2, <-app_assoc. }
  unfold ip2long. rewrite (find_char_app 46 s 0 A _ ltac:(lia) D0 (digit_not_dot _ HA)). cbn [int_pos default from_option id].
  rewrite Z.add_0_l, (find_char_app 46 s (slen A + 1) B _ ltac:(lia) D1 (digit_not_dot _ HB)). cbn [int_pos default from_option id].
  replace (slen A + 1 + slen B + 1) with (slen A + slen B + 2) by lia.
  rewrite (find_char_app 46 s (slen A + slen B + 2) C _ ltac:(lia) D2 (digit_not_dot _ HC)). cbn [int_pos default from_option id].
  replace (slen A + slen B + 2 + slen C + 1) with (slen A + slen B + slen C + 3) by lia.
  rewrite !u64_id by (unfold is_u64; lia).
  rewrite (str_substr_ok s 0), (str_substr_ok s (slen A + 1)), (str_substr_ok s (slen A + slen B + 2)), substr_from_ok by lia.
  cbn [mbind outcome_bind]. rewrite D0, D1, D2, D3.
  assert (take (Z.to_nat (slen A)) (A ++ 46 :: B ++ 46 :: C ++ 46 :: D) = A) as -> by (rewrite Nat2Z.id; apply take_app_length).
  assert (s32 (slen A) = slen A) as -> by (apply sw_id; lia).
  assert (∀ X Y k, digit_string X → slen X < k → atouint32 (take (Z.to_nat k) (X ++ 46 :: Y) ++ [0]) (slen A) = Ret (u32 (octet (length A) X))) as Hoct.
  { intros X Y k HX Hk. rewrite take_app_ge by lia.
    destruct (Z.to_nat k - length X)%nat as [|n] eqn:En; [lia|]. cbn [take]. rewrite <-app_assoc. cbn [app].
    rewrite atouint32_spec by (done || lia). unfold octet. do 4 f_equal. lia. }
  rewrite (Hoct B), (Hoct C) by (done || lia).
  rewrite (atouint32_spec A), (atouint32_spec D) by (done || lia). cbn [mbind outcome_bind].
  replace (Z.to_nat (slen A + 1)) with (S (length A)) by lia. rewrite take_ge by lia.
  unfold octet. by rewrite u32_octets.
Qed.

(** ** Lemmas: hexadecimal text and comparison *)
Lemma hexstr2byte_step s i x dflt :
  0 ≤ i → Forall is_u8 s → s !! Z.to_nat i = Some x →
  ∃ a b, drop (Z.to_nat (2 * i)) (concat (map (print_hex 65) s) ++ dflt) = a :: b :: drop (Z.to_nat (2 * i + 2)) (concat (map (print_hex 65) s) ++ dflt) ∧
    u8 (16 * hex2int a + hex2int b) = x.
Proof.
  intros Hi Hs Hx. remember (Z.to_nat i) as k eqn:Ek. assert (i = Z.of_nat k) as -> by lia. clear Ek Hi.
  replace (Z.to_nat (2 * Z.of_nat k)) with (2 * k)%nat by lia.
  replace (Z.to_nat (2 * Z.of_nat k + 2)) with (2 * S k)%nat by lia.
  revert k Hx. induction Hs as [|c s Hc Hs IH]; intros k Hx; [done|]. destruct k as [|k].
  - injection Hx as ->. exists (hex_char 65 (x / 16)), (hex_char 65 (x mod 16)). split; [done|].
    apply hex_byte; [by left|]. exact Hc.
  - destruct (IH k Hx) as (a & b & E & Hab). exists a, b. split; [|done].
    replace (2 * S k)%nat with (S (S (2 * k))) by lia. replace (2 * S (S k))%nat with (S (S (2 * S k))) by lia. exact E.
Qed.

Lemma length_hex ten s : length (concat (map (print_hex ten) s)) = (2 * length s)%nat.
Proof. induction s as [|c s IH]; [done|]. cbn [map concat]. rewrite length_app, IH. simpl. lia. Qed.

(** [hexstr2byte] reads back what [str2hex] writes. *)
(** The digest in lower-case hexadecimal digits. *)
Lemma get_md5_ok MD5 src : length (MD5 src) = 16%nat → get_md5 MD5 src = Ret (concat (map (print_hex 97) (MD5 src))).
Proof.
  intros Hl. cut (returns (get_md5 MD5 src) (λ r, r = concat (map (print_hex 97) (MD5 src)))).
  { intros (r & -> & ->)%returns_eq. done. }
  unfold get_md5. eapply returns_mono; [eapply (for_range_returns (λ i buf, buf = concat (map (print_hex 97) (take (Z.to_nat i) (MD5 src))))); [lia|done|]|].
  - intros i buf Hi ->. destruct (lookup_lt_is_Some_2 (MD5 src) (Z.to_nat i)) as [c Hc]; [lia|].
    rewrite (aget_lookup _ _ c) by (done || lia). cbn [mbind outcome_bind returns].
    replace (Z.to_nat (i + 1)) with (S (Z.to_nat i)) by lia. rewrite (take_S_r _ _ c) by done.
    by rewrite map_app, concat_app.
  - simpl. intros buf ->. by rewrite take_ge by (change (Z.to_nat 16) with 16%nat; lia).
Qed.

Lemma hexstr2byte_ok bin s :
  Forall is_u8 s → slen s < 2 ^ 30 → hexstr2byte bin (concat (map (print_hex 65) s)) = Ret (true, s).
Proof.
  intros Hs Hl. unfold hexstr2byte. rewrite length_hex. replace (Z.of_nat (2 * length s)) with (slen s * 2) by lia.
  rewrite Z.mod_mul, Z.div_mul, u32_id by (done || (unfold is_u32; lia)). rewrite bool_decide_eq_false_2 by (intros H; by apply H).
  rewrite (append_range s (λ x, [x])); [| |done].
  - cbn [mbind outcome_bind]. do 2 f_equal. simpl app. clear. induction s as [|c s IH]; [done|]. simpl. by rewrite IH.
  - intros i x out Hi Hx. destruct (hexstr2byte_step s i x [0] Hi Hs Hx) as (a & b & Ed & Hab).
    rewrite (aget_drop _ _ _ (2 * i) ltac:(lia) Ed). cbn [mbind outcome_bind].
    apply (drop_prefix _ [a]) in Ed; [|lia]. change (2 * i + Z.of_nat (length [a])) with (2 * i + 1) in Ed.
    rewrite (aget_drop _ _ _ (2 * i + 1) ltac:(lia) Ed). cbn [mbind outcome_bind]. by rewrite Hab.
Qed.


Lemma strnicmp_step_eq pre1 pre2 x y l1 l2 n :
  length pre1 = length pre2 →
  strnicmp_step (pre1 ++ x :: l1) (pre2 ++ y :: l2) (slen pre1, n) =
  Ret (if decide (x = 0 ∨ y = 0) then inr (x, y)
       else if decide (tolower x = tolower y) then
         (if decide (n = 1) then (if decide (x = y) then inr (x, y) else inr (tolower x, tolower y)) else inl (slen pre1 + 1, n - 1))
       else inr (tolower x, tolower y)).
Proof.
  intros Hp. unfold strnicmp_step. rewrite (aget_mid pre1), (aget_mid pre2) by lia. cbn [mbind outcome_bind].
  repeat case_bool_decide; repeat case_decide; subst; (done || lia || naive_solver lia).
Qed.

(** [strnicmp] of two C strings is 0 iff the first [n] characters agree up to
    case. *)
Lemma strnicmp_loop s t pre1 pre2 n fuel :
  (0 ∉ s) → (0 ∉ t) → length pre1 = length pre2 → 0 < n → (length s < fuel)%nat →
  ∃ c1 c2, loop fuel (strnicmp_step (pre1 ++ s ++ [0]) (pre2 ++ t ++ [0])) (slen pre1, n) = Ret (c1, c2) ∧
    (c1 = c2 ↔ map tolower (take (Z.to_nat n) s) = map tolower (take (Z.to_nat n) t)).
Proof.
  revert t pre1 pre2 n fuel. induction s as [|x s IH]; intros t pre1 pre2 n fuel Hs Ht Hp Hn Hf;
    (destruct fuel as [|fuel]; [simpl in Hf; lia|]); rewrite loop_S;
    (destruct (Z.to_nat n) as [|k] eqn:Ek; [lia|]); destruct t as [|y t]; cbn [app]; rewrite strnicmp_step_eq by done;
    try apply not_elem_of_cons in Hs as [Hx Hs]; try apply not_elem_of_cons in Ht as [Hy Ht].
  - by exists 0, 0.
  - exists 0, y. rewrite decide_True by auto. split; [done|]. simpl. split; [lia|done].
  - exists x, 0. rewrite decide_True by auto. split; [done|]. simpl. split; [lia|done].
  - rewrite (decide_False (P := _ ∨ _)) by intuition congruence. cbn [take map].
    destruct (decide (tolower x = tolower y)) as [E|E].
    + destruct (decide (n = 1)) as [->|Hn1]; cbn [mbind outcome_bind].
      * assert (k = O) as -> by lia. destruct (decide (x = y)) as [->|Hxy]; [by exists y, y|].
        exists (tolower x), (tolower y). split; [done|]. by rewrite E.
      * destruct (IH t (pre1 ++ [x]) (pre2 ++ [y]) (n - 1) fuel) as (c1 & c2 & El & Hc);
          [done|done|rewrite !length_app; simpl; lia|lia|simpl in Hf; lia|].
        rewrite <-!app_assoc, length_app in El. cbn [app length] in El. rewrite Nat2Z.inj_add in El.
        exists c1, c2. split; [exact El|]. replace (Z.to_nat (n - 1)) with k in Hc by lia. rewrite E. split; [intros H|intros [= H]].
        -- f_equal. by apply Hc.
        -- by apply Hc.
    + cbn [mbind outcome_bind]. exists (tolower x), (tolower y). split; [done|]. split; [done|]. by intros [= ?].
Qed.

Lemma strnicmp_ok s t n :
  (0 ∉ s) → (0 ∉ t) → 0 ≤ n →
  returns (strnicmp (s ++ [0]) (t ++ [0]) n)
    (λ r, r = 0 ↔ map tolower (take (Z.to_nat n) s) = map tolower (take (Z.to_nat n) t)).
Proof.
  intros Hs Ht Hn. unfold strnicmp. case_bool_decide as Hz; [|by assert (n = 0) as -> by lia].
  destruct (strnicmp_loop s t [] [] n (S (length (s ++ [0])))) as (c1 & c2 & E & Hc);
    [done|done|done|lia|rewrite length_app; lia|].
  change (slen []) with 0 in E. cbn [app] in E. rewrite E. cbn [mbind outcome_bind returns fst snd].
  rewrite <-Hc. lia.
Qed.

(** The two digits of a hash, whatever the bytes. *)
Lemma hash_ok id : Forall is_u8 id → returns (hash id) (λ p, ∃ a b, p = [a; b] ∧ isdigit a = true ∧ isdigit b = true).
Proof.
  intros Hu. unfold hash. apply returns_bind.
  eapply returns_mono; [apply (for_range_returns (λ _ r, is_u32 r)); [lia|unfold is_u32; lia|]|].
  - intros i r Hi Hr. destruct (lookup_lt_is_Some_2 id (Z.to_nat i)) as [c Hc]; [lia|].
    rewrite (aget_lookup _ _ _ (proj1 Hi) Hc). apply u32_range.
  - intros r Hr. cbn [returns]. set (v := u32 _ mod 100). assert (0 ≤ v < 100) as Hv by (apply Z.mod_pos_bound; lia).
    exists (48 + v / 10), (48 + v mod 10). split; [done|]. unfold isdigit.
    assert (0 ≤ v / 10 < 10) by (split; [apply Z.div_pos; lia|apply Z.div_lt_upper_bound; lia]).
    pose proof (Z.mod_pos_bound v 10). lia.
Qed.

(** The number of every user is spread over the same hundred tables. *)
Lemma user_postfix_ok id :
  Forall is_u8 id → slen id < 2 ^ 30 →
  returns (user_postfix id) (λ p, ∃ a b, p = [a; b] ∧ isdigit a = true ∧ isdigit b = true).
Proof.
  intros Hu Hl. unfold user_postfix. rewrite u32_id by (unfold is_u32; lia). destruct (Z.ltb_spec (slen id) 2).
  { by exists 48, 48. }
  destruct (lookup_lt_is_Some_2 id (Z.to_nat (slen id - 1))) as [a Ha]; [lia|].
  destruct (lookup_lt_is_Some_2 id (Z.to_nat (slen id - 2))) as [b Hb]; [lia|].
  rewrite (aget_lookup id (slen id - 1) a), (aget_lookup id (slen id - 2) b) by (lia || done). cbn [mbind outcome_bind].
  destruct (isdigit a) eqn:Ea; [|by apply hash_ok]. destruct (isdigit b) eqn:Eb; [|by apply hash_ok]. cbn [andb].
  rewrite str_substr_ok by lia. exists b, a. split; [|done]. rewrite (drop_S _ _ _ Hb).
  replace (S (Z.to_nat (slen id - 2))) with (Z.to_nat (slen id - 1)) by lia. by rewrite (drop_S _ _ _ Ha).
Qed.

Lemma url_text_chars s : Forall byte_char s → Forall (λ c, c = 37 ∨ c = 43 ∨ isalnum c = true) (url_text s).
Proof.
  induction 1 as [|c s Hc Hs IH]; [constructor|]. change (url_text (c :: s)) with (URLEncode_char c ++ url_text s).
  apply Forall_app. split; [|done]. unfold URLEncode_char. destruct (isalnum c) eqn:Ea; [constructor; [auto|constructor]|].
  destruct (isspace c); [constructor; [auto|constructor]|]. unfold byte_char in Hc. pose proof (Z.mod_pos_bound c 16 ltac:(lia)).
  rewrite Z.shiftr_div_pow2 by lia. change (2 ^ 4) with 16.
  assert (0 ≤ c / 16 < 16) by (split; [apply Z.div_pos; lia|apply Z.div_lt_upper_bound; lia]).
  assert (∀ d, 0 ≤ d < 16 → isalnum (toHex d) = true) as Hd.
  { intros d Hd. unfold toHex, isalnum, isdigit, isupper, islower. destruct (Z.ltb_spec 9 d); lia. }
  constructor; [auto|]. constructor; [auto|]. constructor; [auto|constructor].
Qed.

(** ** Properties *)

(** The text [URLEncode] makes of bytes other than 0 has only letters, digits,
    [%] and [+], and [URLDecode] reads it back, white space of every kind as a
    blank.  A text that ends within an escape, [%] or [%] and one character, is
    undefined: the decoder passes the terminator. *)
Lemma url_roundtrip s :
  Forall byte_char s →
  ∃ t, URLEncode s = Ret t ∧ Forall (λ c, c = 37 ∨ c = 43 ∨ isalnum c = true) t ∧
    URLDecode t = Ret (map blank s) ∧
    ∀ h, Forall byte_char h → (length h ≤ 1)%nat → URLDecode (t ++ 37 :: h) = Stuck.
Proof.
  intros Hs. exists (url_text s). split; [by apply URLEncode_eq|]. split; [by apply url_text_chars|].
  split; [by apply URLDecode_text|]. intros h Hh Hl. by apply URLDecode_cut.
Qed.

Lemma url_roundtrip_witness :
  ∃ t, URLEncode [104; 9; 255] = Ret t ∧ Forall (λ c, c = 37 ∨ c = 43 ∨ isalnum c = true) t ∧
    URLDecode t = Ret (map blank [104; 9; 255]) ∧
    ∀ h, Forall byte_char h → (length h ≤ 1)%nat → URLDecode (t ++ 37 :: h) = Stuck.
Proof. refine (url_roundtrip [104; 9; 255] _). repeat constructor; unfold byte_char; lia. Defined.

(** [ip2long] of an address "A.B.C.D" of decimal numbers, A not empty: every
    octet but the first is read up to one digit more than the first has, so the
    result is right when no other octet is longer than that, and
    "1.200.3.4" is taken for 1.20.3.4. *)
Lemma ip2long_correct A B C D :
  digit_string A → digit_string B → digit_string C → digit_string D → A ≠ [] →
  slen (A ++ 46 :: B ++ 46 :: C ++ 46 :: D) < 2 ^ 30 →
  ip2long (A ++ 46 :: B ++ 46 :: C ++ 46 :: D) =
    Ret (u32 (value_of A * 2 ^ 24 + octet (length A) B * 2 ^ 16 + octet (length A) C * 2 ^ 8 + octet (length A) D)) ∧
  ((length B ≤ S (length A))%nat → (length C ≤ S (length A))%nat → (length D ≤ S (length A))%nat →
   ip2long (A ++ 46 :: B ++ 46 :: C ++ 46 :: D) =
     Ret (u32 (value_of A * 2 ^ 24 + value_of B * 2 ^ 16 + value_of C * 2 ^ 8 + value_of D))) ∧
  ip2long [49; 46; 50; 48; 48; 46; 51; 46; 52] = ip2long [49; 46; 50; 48; 46; 51; 46; 52].
Proof.
  intros HA HB HC HD Hne Hs. split; [by apply ip2long_spec|]. split; [|by vm_compute].
  intros LB LC LD. rewrite ip2long_spec by done. unfold octet. by rewrite !take_ge.
Qed.

Lemma ip2long_correct_witness :
  ip2long [49; 48; 46; 49; 50; 55; 46; 48; 46; 57] = Ret (u32 (10 * 2 ^ 24 + 127 * 2 ^ 16 + 0 * 2 ^ 8 + 9)).
Proof.
  refine (proj1 (proj2 (ip2long_correct [49; 48] [49; 50; 55] [48] [57] _ _ _ _ _ _)) _ _ _);
    (by repeat constructor) || (simpl; lia) || done.
Defined.
