(* ===== verification/MyCommon.v ===== *)
(** * Shared helpers of the services: [mycommon.cpp]
    ([logingame_server/src/common/mycommon.cpp]; the copies of the other
    services differ in comments and in the name [get_vaule])

    Key-value texts "k1=v1&k2=v2", byte order, and the editing of paths and
    shell commands.  [boost::split] and [boost::trim] come from the interface
    [Boost] of [Text.v]. *)

From S2P Require Import Prelude Text Utility.

(** ** Definitions *)

(** The loop over the bytes, each printed with "%.2X ". *)
Definition printstring2str (str_src str_dst : list Z) : list Z :=
  foldl (λ str_dst data, str_dst ++ (print_hex 65 data ++ [32])) str_dst str_src.

(** [erase(pos)] removes the rest of the string. *)
Definition erasestr (str : list Z) : list Z :=
  match find_char 13 str 0 with
  | None => str
  | Some pos => take (Z.to_nat pos) str
  end.

(** "()". *)
Definition g_str_cmd_filter : list Z := [40; 41].

Definition filter_step (filter : Z) (str_cmd : list Z) : outcome (list Z + list Z) :=
  let pos := int_pos (find_char filter str_cmd 0) in
  if bool_decide (pos = -1) then Ret (inr str_cmd)
  else Ret (inl (take (Z.to_nat pos) str_cmd ++ 92 :: drop (Z.to_nat pos) str_cmd)).

(** [fuel] bounds the turns of the inner loop. *)
Definition pre_process_shell_cmd (fuel : nat) (str_cmd : list Z) : outcome (list Z) :=
  for_each (λ filter str_cmd, loop fuel (filter_step filter) str_cmd) g_str_cmd_filter str_cmd.

Definition process_path_erase (str_file_path : list Z) : outcome (Z * list Z) :=
  if bool_decide (slen str_file_path = 0) then Ret (-1, str_file_path)
  else
    let! c := aget str_file_path (slen str_file_path - 1) in
    if bool_decide (c = 47) then Ret (0, take (length str_file_path - 1) str_file_path)
    else Ret (0, str_file_path).

(** The pairs are visited from the last key to the first. *)
Definition map2string (str_rtn : list Z) (map_src : gmap (list Z) (list Z)) : list Z :=
  let str_rtn := foldl (λ str_rtn kv, str_rtn ++ kv.1 ++ [61] ++ kv.2 ++ [38]) str_rtn (reverse (items map_src)) in
  if bool_decide (str_rtn ≠ []) then take (length str_rtn - 1) str_rtn else str_rtn.

Section boost.
Context `{Boost}.

Definition stringsplit (str_src token : list Z) : list (list Z) := boost_split str_src token.

(** The body of the loops of the two parsers; [conv] is what they do to a value. *)
Definition string2map_item (conv : list Z → outcome (list Z)) (str_item : list Z) (map_rtn : gmap (list Z) (list Z))
    : outcome (gmap (list Z) (list Z)) :=
  match boost_split str_item [61] with
  | [key; value] =>
      let key := boost_trim key in
      let value := boost_trim value in
      let! value := conv value in
      Ret (map_insert map_rtn key value)
  | _ => Ret map_rtn
  end.

Definition string2map (str_src : list Z) (map_rtn : gmap (list Z) (list Z)) : outcome (gmap (list Z) (list Z)) :=
  for_each (string2map_item Ret) (boost_split str_src [38]) map_rtn.

Definition string2map_urldecode (str_src : list Z) (map_rtn : gmap (list Z) (list Z)) : outcome (gmap (list Z) (list Z)) :=
  for_each (string2map_item URLDecode) (boost_split str_src [38]) map_rtn.
End boost.

Definition get_value (key : list Z) (map_get : gmap (list Z) (list Z)) : list Z :=
  match map_get !! key with
  | Some v => v
  | None => []
  end.

(** The number whose bytes in memory are those of [a] in the other order. *)
Definition hton16 (a : Z) : Z := le_value (rev (le_bytes 2 a)).
Definition hton32 (a : Z) : Z := le_value (rev (le_bytes 4 a)).

(** ** Specification *)

(** Text that can stand on either side of [=]. *)
Definition plain (s : list Z) : Prop := (38 ∉ s) ∧ (61 ∉ s) ∧ trimmed s.

Definition pair_text (kv : list Z * list Z) : list Z := kv.1 ++ 61 :: kv.2.

(** ** Lemmas *)
Lemma map2string_fold (l : list (list Z * list Z)) out :
  foldl (λ str_rtn kv, str_rtn ++ kv.1 ++ [61] ++ kv.2 ++ [38]) out l = out ++ concat (map (λ kv, pair_text kv ++ [38]) l).
Proof.
  revert out. induction l as [|kv l IH]; intros out; simpl; [by rewrite app_nil_r|]. rewrite IH.
  unfold pair_text. rewrite <-!app_assoc. cbn [app]. by rewrite <-?app_assoc.
Qed.

Lemma join_terminated (f : list Z * list Z → list Z) l :
  l ≠ [] → concat (map (λ kv, f kv ++ [38]) l) = join 38 (map f l) ++ [38].
Proof.
  induction l as [|kv l IH]; [done|]. intros _. destruct l as [|kv2 l]; [simpl; by rewrite app_nil_r|].
  change (concat (map (λ kv, f kv ++ [38]) (kv :: kv2 :: l)))
    with ((f kv ++ [38]) ++ concat (map (λ kv, f kv ++ [38]) (kv2 :: l))).
  rewrite IH by done. change (join 38 (map f (kv :: kv2 :: l))) with (f kv ++ 38 :: join 38 (map f (kv2 :: l))).
  by rewrite <-!app_assoc.
Qed.

(** The pairs, each with [&] behind it, and the last [&] taken away. *)
Lemma pairs_text (l : list (list Z * list Z)) :
  (let str_rtn := foldl (λ str_rtn kv, str_rtn ++ kv.1 ++ [61] ++ kv.2 ++ [38]) [] l in
   if bool_decide (str_rtn ≠ []) then take (length str_rtn - 1) str_rtn else str_rtn) = join 38 (map pair_text l).
Proof.
  rewrite map2string_fold. cbn [app]. destruct l as [|kv l]; [done|].
  rewrite join_terminated by done. rewrite bool_decide_eq_true_2.
  - by rewrite length_app, Nat.add_sub, take_app_length.
  - intros H. by apply app_eq_nil in H as [_ ?].
Qed.

(** What [map2string] writes. *)
Lemma map2string_eq m : map2string [] m = join 38 (map pair_text (reverse (items m))).
Proof. apply pairs_text. Qed.

Section boost_lemmas.
Context `{BoostLaws}.
Implicit Types (conv : list Z → outcome (list Z)) (m : gmap (list Z) (list Z)).

Lemma string2map_item_plain conv k v w m :
  plain k → plain v → conv v = Ret w → string2map_item conv (pair_text (k, v)) m = Ret (map_insert m k w).
Proof.
  intros (_ & Hk & Htk) (_ & Hv & Htv) Hw. unfold string2map_item.
  change (pair_text (k, v)) with (join 61 [k; v]). rewrite boost_split_join by (done || by repeat constructor).
  rewrite !trim_id by done. by rewrite Hw.
Qed.

Lemma for_each_pairs conv (l : list (list Z * list Z)) (f : list Z → list Z) m :
  Forall (λ kv, plain kv.1 ∧ plain kv.2 ∧ conv kv.2 = Ret (f kv.2)) l →
  for_each (string2map_item conv) (map pair_text l) m = Ret (insert_all (map (prod_map id f) l) m).
Proof.
  intros Hl. revert m. induction Hl as [|[k v] l (Hk & Hv & Hc) Hl IH]; intros m; [done|]. cbn [map for_each].
  rewrite (string2map_item_plain _ _ _ (f v)) by done. cbn [mbind outcome_bind]. apply IH.
Qed.

Lemma pair_text_no_amp k v : plain k → plain v → 38 ∉ pair_text (k, v).
Proof. intros (? & _) (? & _). unfold pair_text. simpl. rewrite elem_of_app, elem_of_cons. intuition congruence. Qed.

(** Parsing the pairs of a map, written in any order, with the values converted. *)
Lemma parse_pairs conv f m m0 (l : list (list Z * list Z)) :
  l ≡ₚ map_to_list m → (∀ k v, m !! k = Some v → plain k ∧ plain v ∧ conv v = Ret (f v)) →
  for_each (string2map_item conv) (boost_split (join 38 (map pair_text l)) [38]) m0 = Ret (m0 ∪ (f <$> m)).
Proof.
  intros Hl Hm.
  assert (Forall (λ kv, plain kv.1 ∧ plain kv.2 ∧ conv kv.2 = Ret (f kv.2)) l) as Hf.
  { apply Forall_forall. intros [k v] Hin. apply Hm. by rewrite Hl, elem_of_map_to_list in Hin. }
  assert (map (prod_map id f) l ≡ₚ map_to_list (f <$> m)) as Hlf by (rewrite Hl, map_to_list_fmap; done).
  rewrite <-(insert_all_items _ m0 _ Hlf), <-(for_each_pairs conv l f) by done. destruct l as [|kv l].
  - simpl. rewrite split_one by apply not_elem_of_nil. cbn [for_each]. unfold string2map_item.
    by rewrite split_one by apply not_elem_of_nil.
  - f_equal. apply boost_split_join; [|done]. apply Forall_map. eapply Forall_impl; [exact Hf|].
    intros [k v] (Hk & Hv & _). by apply (pair_text_no_amp k v).
Qed.

Lemma parse_map2string conv f m m0 :
  (∀ k v, m !! k = Some v → plain k ∧ plain v ∧ conv v = Ret (f v)) →
  for_each (string2map_item conv) (boost_split (map2string [] m) [38]) m0 = Ret (m0 ∪ (f <$> m)).
Proof. rewrite map2string_eq. apply parse_pairs. rewrite reverse_Permutation. apply items_perm. Qed.

(** A value with an [=] is dropped, key and all. *)
Lemma string2map_equals k a b :
  (38 ∉ k ++ 61 :: a ++ 61 :: b) → (61 ∉ k) → (61 ∉ a) → string2map (k ++ 61 :: a ++ 61 :: b) ∅ = Ret ∅.
Proof.
  intros Hamp Hk Ha. unfold string2map. rewrite split_one by done. cbn [for_each]. unfold string2map_item.
  assert (∃ p l, b = join 61 (p :: l) ∧ Forall (λ q, 61 ∉ q) (p :: l)) as (p & l & -> & Hpl).
  { pose proof (split_join 61 b) as E. pose proof (split_pieces 61 b) as Hp. pose proof (split_nonempty 61 b).
    destruct (boost_split b [61]) as [|p l]; [done|]. by exists p, l. }
  change (k ++ 61 :: a ++ 61 :: join 61 (p :: l)) with (join 61 (k :: a :: p :: l)).
  rewrite boost_split_join; [done|by constructor; [|constructor]|done].
Qed.
Lemma string2map_total s m : ∃ m', string2map s m = Ret m'.
Proof.
  unfold string2map. revert m. induction (boost_split s [38]) as [|x l IH]; intros m; [by eexists|]. cbn [for_each].
  assert (∃ m', string2map_item Ret x m = Ret m') as [m' ->] by (unfold string2map_item; repeat case_match; by eexists).
  apply IH.
Qed.

Lemma for_each_snoc {A S} (f : A → S → outcome S) l x s s' :
  for_each f l s = Ret s' → for_each f (l ++ [x]) s = f x s'.
Proof.
  revert s. induction l as [|y l IH]; intros s; cbn [for_each app]; [intros [= ->]; by destruct (f x s')|].
  destruct (f y s) as [s1| |]; [|done..]. apply IH.
Qed.

Lemma join_snoc sep l x : l ≠ [] → join sep (l ++ [x]) = join sep l ++ sep :: x.
Proof.
  induction l as [|y l IH]; [done|]. intros _. destruct l as [|z l]; [done|].
  change (y ++ sep :: join sep ((z :: l) ++ [x]) = (y ++ sep :: join sep (z :: l)) ++ sep :: x). by rewrite IH, <-app_assoc.
Qed.

(** A pair behind a text is inserted behind the pairs of the text. *)
Lemma string2map_append s k v m m' :
  string2map s m = Ret m' → plain k → plain v → string2map (s ++ 38 :: pair_text (k, v)) m = Ret (map_insert m' k v).
Proof.
  intros Hs Hk Hv. unfold string2map in *.
  assert (boost_split (s ++ 38 :: pair_text (k, v)) [38] = boost_split s [38] ++ [pair_text (k, v)]) as ->.
  { rewrite <-(split_join 38 s) at 1. rewrite <-join_snoc by apply split_nonempty. apply boost_split_join; [|by destruct (boost_split s [38])].
    apply Forall_app. split; [apply split_pieces|]. constructor; [by apply pair_text_no_amp|done]. }
  rewrite (for_each_snoc _ _ _ _ _ Hs). by rewrite (string2map_item_plain _ _ _ v).
Qed.

(** A map of plain texts is read back. *)
Lemma string2map_map2string m :
  (∀ k v, m !! k = Some v → plain k ∧ plain v) → string2map (map2string [] m) ∅ = Ret m.
Proof.
  intros Hm. unfold string2map. rewrite (parse_map2string Ret id); [by rewrite map_fmap_id, (left_id_L ∅ (∪))|].
  intros k v E. by destruct (Hm k v E).
Qed.
End boost_lemmas.

(** *** Byte order and URL text *)
Lemma hton16_twice a : 0 ≤ a < 2 ^ 16 → hton16 (hton16 a) = a.
Proof.
  intros Ha. unfold hton16.
  assert (le_bytes 2 (le_value (rev (le_bytes 2 a))) = rev (le_bytes 2 a)) as ->.
  { apply (le_bytes_value (rev (le_bytes 2 a))), Forall_rev, le_bytes_range. }
  rewrite rev_involutive. apply le_value_bytes. by change (256 ^ Z.of_nat 2) with (2 ^ 16).
Qed.

Lemma hton32_twice a : is_u32 a → hton32 (hton32 a) = a.
Proof.
  intros Ha. unfold hton32.
  assert (le_bytes 4 (le_value (rev (le_bytes 4 a))) = rev (le_bytes 4 a)) as ->.
  { apply (le_bytes_value (rev (le_bytes 4 a))), Forall_rev, le_bytes_range. }
  rewrite rev_involutive. apply le_value_bytes. by change (256 ^ Z.of_nat 4) with (2 ^ 32).
Qed.

Lemma plain_solid s : Forall (λ c, c ≠ 38 ∧ c ≠ 61 ∧ isspace c = false) s → plain s.
Proof.
  rewrite Forall_forall. intros H. split_and!; [intros Hin; by destruct (H _ Hin)|intros Hin; by destruct (H _ Hin) as (_ & ? & _)|].
  intros a x b -> _. apply H. apply elem_of_app. right. left.
Qed.

Lemma url_text_plain s : Forall byte_char s → plain (url_text s).
Proof.
  intros Hs. apply plain_solid. eapply Forall_impl; [by apply url_text_chars|]. simpl.
  intros x [-> |[-> |Ha]]; [done..|]. unfold isalnum, isdigit, isupper, islower, isspace in *. lia.
Qed.

(** *** Commands *)
Lemma find_char_0 c s : c ∈ s → ∃ k, find_char c s 0 = Some (Z.of_nat k) ∧ (k < length s)%nat.
Proof.
  intros Hin. unfold find_char. rewrite (proj2 (Z.leb_le _ _)) by lia. change (drop (Z.to_nat 0) s) with s.
  destruct (index_of (Z.eqb c) s) as [k|] eqn:E.
  - exists k. split; [done|]. destruct (index_of_Some _ _ _ E) as (a & x & b & -> & <- & _). rewrite length_app. simpl. lia.
  - apply index_of_None in E. rewrite Forall_forall in E. specialize (E c Hin). by rewrite Z.eqb_refl in E.
Qed.

Lemma filter_absent c fuel s : (c ∉ s) → (0 < fuel)%nat → loop fuel (filter_step c) s = Ret s.
Proof.
  intros Hc Hf. destruct fuel as [|fuel]; [lia|]. rewrite loop_S. unfold filter_step.
  by rewrite find_char_None by (done || lia).
Qed.

(** The character stays in the string, behind the backslash put in front of it. *)
Lemma filter_present c fuel s : c ∈ s → loop fuel (filter_step c) s = Loop.
Proof.
  revert s. induction fuel as [|fuel IH]; intros s Hc; [done|]. rewrite loop_S.
  destruct (find_char_0 c s Hc) as (k & E & Hk).
  assert (filter_step c s = Ret (inl (take k s ++ 92 :: drop k s))) as ->.
  { unfold filter_step. rewrite E. cbn [int_pos default from_option id]. rewrite bool_decide_eq_false_2 by lia. by rewrite Nat2Z.id. }
  apply IH. rewrite <-(take_drop k s), elem_of_app in Hc. rewrite elem_of_app, elem_of_cons. naive_solver.
Qed.

(** ** Properties *)

(** Parsing inverts printing: a map whose keys and values are free of [&],
    [=] and outer white space is read back from its text by [string2map], and
    one with arbitrary values sent in the URL code is read back by
    [string2map_urldecode] up to the kind of white space.  A value that
    contains [=] is dropped together with its key. *)
Lemma key_value_roundtrip `{BoostLaws} (m : gmap (list Z) (list Z)) k a b :
  (∀ k v, m !! k = Some v → plain k) →
  (38 ∉ k ++ 61 :: a ++ 61 :: b) → (61 ∉ k) → (61 ∉ a) →
  ((∀ k v, m !! k = Some v → plain v) → string2map (map2string [] m) ∅ = Ret m) ∧
  ((∀ k v, m !! k = Some v → Forall byte_char v) →
   string2map_urldecode (map2string [] (url_text <$> m)) ∅ = Ret (map blank <$> m)) ∧
  string2map (k ++ 61 :: a ++ 61 :: b) ∅ = Ret ∅.
Proof.
  intros Hk Hamp Hk61 Ha61. split; [|split].
  - intros Hv. apply string2map_map2string. eauto.
  - intros Hv. unfold string2map_urldecode. rewrite (parse_map2string URLDecode (λ t, default [] (match URLDecode t with Ret r => Some r | _ => None end))).
    + f_equal. rewrite (left_id_L ∅ (∪)), <-map_fmap_compose. apply map_fmap_ext. intros k' v E. simpl. by rewrite URLDecode_text by eauto.
    + intros k' w. rewrite lookup_fmap. destruct (m !! k') as [v|] eqn:E; [|done]. intros [= <-].
      split; [eauto|]. split; [apply url_text_plain; eauto|]. by rewrite URLDecode_text by eauto.
  - by apply string2map_equals.
Qed.

Lemma key_value_roundtrip_witness :
  let m := {[ [97; 98] := [32; 61]; [99] := [49; 50] ]} : gmap (list Z) (list Z) in
  string2map_urldecode (map2string [] (url_text <$> m)) ∅ = Ret (map blank <$> m).
Proof.
  refine (proj1 (proj2 (key_value_roundtrip {[ [97; 98] := [32; 61]; [99] := [49; 50] ]} [107] [49] [50] _ _ _ _)) _).
  - intros k v [[<- _]|[_ [<- _]%lookup_singleton_Some]]%lookup_insert_Some; apply plain_solid; by repeat constructor.
  - by apply (bool_decide_unpack _); vm_compute.
  - by apply (bool_decide_unpack _); vm_compute.
  - by apply (bool_decide_unpack _); vm_compute.
  - intros k v [[_ <-]|[_ [_ <-]%lookup_singleton_Some]]%lookup_insert_Some; repeat constructor; unfold byte_char; lia.
Defined.

(** [pre_process_shell_cmd] searches every turn from the start of the string
    and finds the parenthesis it has just put a backslash in front of: it
    returns exactly the commands that need no change, and never returns on a
    command with a parenthesis. *)
Lemma shell_cmd_termination s :
  ((40 ∉ s) → (41 ∉ s) → ∀ fuel, (0 < fuel)%nat → pre_process_shell_cmd fuel s = Ret s) ∧
  (40 ∈ s ∨ 41 ∈ s → ∀ fuel, pre_process_shell_cmd fuel s = Loop).
Proof.
  unfold pre_process_shell_cmd, g_str_cmd_filter. cbn [for_each]. split.
  - intros H1 H2 fuel Hf. by rewrite filter_absent, bind_ret, filter_absent.
  - intros Hin fuel. destruct (decide (40 ∈ s)) as [H1|H1]; [by rewrite filter_present|].
    destruct fuel as [|fuel]; [done|]. rewrite filter_absent, bind_ret by (done || lia).
    destruct Hin as [?|H2]; [done|]. by rewrite filter_present.
Qed.

Lemma shell_cmd_termination_witness : pre_process_shell_cmd 5 [108; 115; 40; 41] = Loop.
Proof. refine (proj2 (shell_cmd_termination [108; 115; 40; 41]) _ 5%nat). left. by do 2 right; left. Defined.
