(* ===== verification/Config.v ===== *)
(** * Configuration files: [SDConfiguration]
    ([logingame_server/src/common/SDConfiguration.cpp] and [.h]; the other
    services have copies)

    Lines "key=value" are kept in a vector sorted by key.  [fopen] gives the
    bytes of a file, [None] when it cannot be opened.  [lower_bound] of the
    standard library is the number of elements before the item, which is where
    the search ends on a sorted vector.  Files are shorter than 2^31 bytes. *)

From S2P Require Import Prelude Text.

(** ** Definitions *)

(** [SDItemData]. *)
Abbreviation item := (list Z * list Z)%type.
Record configuration : Type := SDConfiguration { m_file_name : list Z; m_content : list item }.

Definition max_path : Z := 1024.
Definition max_line_length : Z := 1024.

(** [SDConfiguration()] and [SDConfiguration(file_name)]; [strcpy] into an array. *)
Definition new_configuration : configuration := SDConfiguration [] [].

Definition set_file_name (c : configuration) (file_name : list Z) : outcome configuration :=
  if slen file_name <? max_path then Ret (SDConfiguration file_name (m_content c)) else Stuck.

Definition item_lt (s1 s2 : item) : bool := str_lt s1.1 s2.1.

Fixpoint lower_bound (l : list item) (x : item) : nat :=
  match l with
  | [] => O
  | y :: l => if item_lt y x then S (lower_bound l x) else O
  end.

Definition insertItem (m_content : list item) (it : item) : list item :=
  let it_find := lower_bound m_content it in
  let inserted := take it_find m_content ++ it :: drop it_find m_content in
  match m_content !! it_find with
  | Some (m_key, _) => if bool_decide (m_key ≠ it.1) then inserted else m_content
  | None => inserted
  end.

Definition not_space (c : Z) : bool := negb (c =? 32).
Definition find_first_not_space (s : list Z) : option Z := Z.of_nat <$> index_of not_space s.
Definition find_last_not_space (s : list Z) : option Z := (λ k : nat, slen s - 1 - Z.of_nat k) <$> index_of not_space (rev s).

Definition trim (s : list Z) : outcome (list Z) :=
  let bpos := int_pos (find_first_not_space s) in
  let epos := int_pos (find_last_not_space s) in
  if (bpos <? 0) || (epos <? 0) then Ret []
  else substr s bpos (u64 (epos - bpos + 1)).

(** [strrchr(buffer, '\n')]. *)
Definition last_newline (buffer : list Z) : option Z :=
  (λ k : nat, slen buffer - 1 - Z.of_nat k) <$> index_of (Z.eqb 10) (rev buffer).

(** [buffer] is the C string.  The difference to a null pointer is undefined. *)
Definition loadLine (m_content : list item) (buffer : list Z) : outcome (bool * list item) :=
  match find_char 61 buffer 0 with
  | Some pos =>
      match last_newline buffer with
      | None => Stuck
      | Some p_LF =>
          let! key := substr buffer 0 pos in
          let! value := substr buffer (pos + 1) (u64 (p_LF - pos - 1)) in
          let! key := trim key in
          let! value := trim value in
          if (0 <? slen key) && bool_decide (find_char 35 key 0 ≠ Some 0)
          then Ret (true, insertItem m_content (key, value)) else Ret (true, m_content)
      end
  | None => Ret (false, m_content)
  end.

(** What [fgets] reads into a buffer of [n + 1] characters, and the rest. *)
Fixpoint fgets (n : nat) (s : list Z) : list Z * list Z :=
  match n, s with
  | O, _ => ([], s)
  | S _, [] => ([], [])
  | S n, x :: s => if x =? 10 then ([10], s) else let r := fgets n s in (x :: r.1, r.2)
  end.

Definition load_step (st : list Z * list item) : outcome (list Z * list item + list item) :=
  let '(fp, m_content) := st in
  match fp with
  | [] => Ret (inr m_content)
  | _ :: _ =>
      let r := fgets (Z.to_nat (max_line_length - 1)) fp in
      let! l := loadLine m_content (c_string r.1) in
      Ret (inl (r.2, l.2))
  end.

Definition load (fopen : list Z → option (list Z)) (c : configuration) (file_name : option (list Z))
    : outcome (bool * configuration) :=
  let! c := (match file_name with Some f => set_file_name c f | None => Ret c end) in
  match fopen (m_file_name c) with
  | None => Ret (false, c)
  | Some fp =>
      let! m_content := loop (S (length fp)) load_step (fp, []) in
      Ret (true, SDConfiguration (m_file_name c) m_content)
  end.

Definition getString (m_content : list item) (key default_value : list Z) : list Z :=
  match m_content !! lower_bound m_content (key, []) with
  | Some (m_key, m_value) => if bool_decide (m_key = key) then m_value else default_value
  | None => default_value
  end.

(** [atoi]: white space, a sign, digits; undefined when the number is no [int]. *)
Fixpoint leading_digits (s : list Z) : list Z :=
  match s with
  | [] => []
  | c :: s => if isdigit c then c :: leading_digits s else []
  end.

Definition atoi (s : list Z) : outcome Z :=
  match trim_left s with
  | 45 :: s => in_s32 (- dec_value 0 (leading_digits s))
  | 43 :: s => in_s32 (dec_value 0 (leading_digits s))
  | s => in_s32 (dec_value 0 (leading_digits s))
  end.

Definition getInt (m_content : list item) (key : list Z) (default_value : Z) : outcome Z :=
  match m_content !! lower_bound m_content (key, []) with
  | Some (m_key, m_value) => if bool_decide (m_key = key) then atoi (c_string m_value) else Ret default_value
  | None => Ret default_value
  end.

Definition copyItemData (m_content : list item) : list item := m_content.

(** ** Specification *)

(** The text without the blanks at its ends. *)
Fixpoint drop_blanks (s : list Z) : list Z :=
  match s with
  | [] => []
  | x :: s' => if x =? 32 then drop_blanks s' else s
  end.
Definition strip (s : list Z) : list Z := rev (drop_blanks (rev (drop_blanks s))).

(** What a line (without its end) defines; lines starting with [#] nothing. *)
Definition parse_line (line : list Z) : option item :=
  match index_of (Z.eqb 61) line with
  | None => None
  | Some k =>
      match strip (take k line) with
      | [] => None
      | c :: key => if c =? 35 then None else Some (c :: key, strip (drop (S k) line))
      end
  end.

(** A line that fits the buffer. *)
Definition line_ok (line : list Z) : Prop := (0 ∉ line) ∧ (10 ∉ line) ∧ slen line + 1 < max_line_length.
Definition file_of (lines : list (list Z)) : list Z := concat (map (λ l, l ++ [10]) lines).

Definition sorted_items (l : list item) : Prop := StronglySorted (λ a b, str_lt a.1 b.1 = true) l.

(** ** Lemmas: trimming *)
Lemma index_of_app_l f a b k : index_of f a = Some k → index_of f (a ++ b) = Some k.
Proof.
  revert k. induction a as [|x a IH]; intros k; simpl; [done|]. destruct (f x); [done|].
  destruct (index_of f a) as [j|]; [|done]. intros [= <-]. by rewrite (IH j).
Qed.

Lemma drop_blanks_None s : index_of not_space s = None → drop_blanks s = [].
Proof.
  induction s as [|x s IH]; [done|]. simpl. unfold not_space at 1. destruct (x =? 32); simpl; [|done].
  destruct (index_of not_space s) eqn:E; [done|]. auto.
Qed.

Lemma drop_blanks_Some s k : index_of not_space s = Some k → drop_blanks s = drop k s.
Proof.
  revert k. induction s as [|x s IH]; intros k; [done|]. simpl. unfold not_space at 1. destruct (x =? 32); simpl.
  - destruct (index_of _ s) as [j|] eqn:E; [|done]. intros [= <-]. by rewrite (IH j).
  - by intros [= <-].
Qed.

Lemma index_of_rev_drop f s k : index_of f s = Some k → ∃ j, index_of f (rev (drop k s)) = Some j ∧ index_of f (rev s) = Some j.
Proof.
  intros H. destruct (index_of_Some _ _ _ H) as (a & x & b & -> & <- & Hx & _). rewrite drop_app_length.
  destruct (index_of f (rev (x :: b))) as [j|] eqn:E.
  - exists j. split; [done|]. rewrite rev_app_distr. by apply index_of_app_l.
  - apply index_of_None in E. rewrite Forall_forall in E. rewrite E in Hx; [done|]. simpl. apply elem_of_app. right. by left.
Qed.

Lemma trim_eq s : slen s < 2 ^ 31 → trim s = Ret (strip s).
Proof.
  intros Hs. unfold trim, strip, find_first_not_space, find_last_not_space. destruct (index_of not_space s) as [k|] eqn:E.
  - destruct (index_of_rev_drop _ _ _ E) as (j & E1 & E2). rewrite E2. cbn [fmap option_fmap option_map int_pos default from_option id].
    rewrite (drop_blanks_Some _ _ E), (drop_blanks_Some _ _ E1).
    destruct (index_of_Some _ _ _ E1) as (a & x & b & E3 & La & _).
    assert (length (drop k s) = j + S (length b))%nat as Ld by (rewrite <-length_rev, E3, length_app, La; done).
    rewrite length_drop in Ld.
    rewrite (proj2 (Z.ltb_ge (Z.of_nat k) 0)), (proj2 (Z.ltb_ge _ 0)) by lia. cbn [orb].
    rewrite str_substr_ok, u64_id by (unfold is_u64; lia). rewrite skipn_rev, rev_involutive, Nat2Z.id, length_drop.
    do 2 f_equal. lia.
  - by rewrite (drop_blanks_None _ E).
Qed.

(** ** Lemmas: the vector *)
Fixpoint insert_sorted (it : item) (l : list item) : list item :=
  match l with
  | [] => [it]
  | y :: l' => if item_lt y it then y :: insert_sorted it l' else if bool_decide (y.1 ≠ it.1) then it :: l else l
  end.

Lemma insertItem_eq l it : insertItem l it = insert_sorted it l.
Proof.
  induction l as [|y l IH]; [done|]. unfold insertItem in *. cbn [lower_bound insert_sorted].
  destruct (item_lt y it); [|by destruct y]. cbn [lookup list_lookup take drop app].
  rewrite <-IH. destruct (l !! lower_bound l it) as [[k v]|]; [|done]. by case_bool_decide.
Qed.

Lemma insert_sorted_spec it l :
  sorted_items l →
  sorted_items (insert_sorted it l) ∧
  (∀ k, first_value k (insert_sorted it l) = match first_value k l with Some v => Some v | None => if decide (k = it.1) then Some it.2 else None end) ∧
  (∀ P : item → Prop, P it → Forall P l → Forall P (insert_sorted it l)).
Proof.
  destruct it as [k0 v0]. induction 1 as [|[k' v'] l Hs IH Hall].
  - split_and!; [repeat constructor|done|by repeat constructor].
  - destruct IH as (IHs & IHf & IHP). cbn [insert_sorted]. unfold item_lt. cbn [fst snd].
    destruct (str_lt k' k0) eqn:E.
    + split_and!; [constructor; [done|by apply IHP]| |].
      * intros k. cbn [first_value]. rewrite IHf. by case_decide.
      * intros P HP [Hy Hl]%Forall_cons. constructor; [done|auto].
    + case_bool_decide as Hne.
      * destruct (str_lt_total k' k0) as [?|[?|Hlt]]; [congruence|done|]. split_and!; [| |by constructor].
        -- constructor; [by constructor|]. constructor; [done|]. eapply Forall_impl; [exact Hall|]. intros a Ha. by eapply str_lt_trans.
        -- intros k. cbn [first_value]. destruct (decide (k = k0)) as [->|]; [|by repeat case_decide; destruct (first_value k l)].
           rewrite decide_False by done.
           assert (first_value k0 l = None) as ->; [|done]. apply first_value_None. intros ([k1 v1] & -> & Hin)%list_elem_of_fmap.
           rewrite Forall_forall in Hall. specialize (Hall _ Hin). pose proof (str_lt_trans _ _ _ Hlt Hall) as H. simpl in H.
           by rewrite str_lt_irrefl in H.
      * split_and!; [by constructor| |done]. intros k. cbn [first_value]. destruct (decide (k = k')) as [->|]; [done|].
        rewrite decide_False by congruence. by destruct (first_value k l).
Qed.

(** The binary search finds what the list of the items has. *)
Lemma lookup_lower_bound l key :
  sorted_items l →
  match l !! lower_bound l (key, []) with
  | Some (k, v) => if bool_decide (k = key) then Some v else None
  | None => None
  end = first_value key l.
Proof.
  induction 1 as [|[k v] l Hs IH Hall]; [done|]. cbn [lower_bound first_value]. unfold item_lt. cbn [fst].
  destruct (str_lt k key) eqn:E.
  - change (((k, v) :: l) !! S (lower_bound l (key, []))) with (l !! lower_bound l (key, [])).
    rewrite IH, decide_False; [done|]. intros ->. by rewrite str_lt_irrefl in E.
  - cbn [lookup list_lookup]. destruct (decide (key = k)) as [->|Hne]; [by rewrite bool_decide_eq_true_2|].
    rewrite bool_decide_eq_false_2 by done. symmetry. apply first_value_None. intros ([k1 v1] & -> & Hin)%list_elem_of_fmap.
    rewrite Forall_forall in Hall. specialize (Hall _ Hin). simpl in *. congruence.
Qed.

Lemma getString_eq l key dflt : sorted_items l → getString l key dflt = default dflt (first_value key l).
Proof.
  intros Hs. rewrite <-lookup_lower_bound by done. unfold getString.
  destruct (l !! _) as [[k v]|]; [|done]. by case_bool_decide.
Qed.

Lemma getInt_eq l key dflt :
  sorted_items l → getInt l key dflt = match first_value key l with Some v => atoi (c_string v) | None => Ret dflt end.
Proof.
  intros Hs. rewrite <-lookup_lower_bound by done. unfold getInt.
  destruct (l !! _) as [[k v]|]; [|done]. by case_bool_decide.
Qed.

(** ** Lemmas: reading *)
Lemma fgets_line n line rest :
  (10 ∉ line) → (length line < n)%nat → fgets n (line ++ 10 :: rest) = (line ++ [10], rest).
Proof.
  revert n. induction line as [|x line IH]; intros n Hn Hl; (destruct n as [|n]; [simpl in Hl; lia|]); [done|].
  apply not_elem_of_cons in Hn as [Hx Hn]. cbn [app fgets]. rewrite (proj2 (Z.eqb_neq _ _)) by done.
  rewrite IH by (done || simpl in Hl; lia). done.
Qed.

Lemma fgets_short n s : (10 ∉ s) → (length s ≤ n)%nat → fgets n s = (s, []).
Proof.
  revert n. induction s as [|x s IH]; intros n Hn Hl; (destruct n as [|n]; [done || (simpl in Hl; lia)|]); [done|].
  apply not_elem_of_cons in Hn as [Hx Hn]. cbn [fgets]. rewrite (proj2 (Z.eqb_neq _ _)) by done.
  rewrite IH by (done || simpl in Hl; lia). done.
Qed.

Lemma find_char_start c s : find_char c s 0 = Z.of_nat <$> index_of (Z.eqb c) s.
Proof. unfold find_char. rewrite (proj2 (Z.leb_le _ _)) by lia. by destruct (index_of _ _). Qed.

Lemma find_hash s : bool_decide (find_char 35 s 0 ≠ Some 0) = match s with c :: _ => negb (c =? 35) | [] => true end.
Proof.
  rewrite find_char_start. destruct s as [|c s]; [done|]. cbn [index_of]. rewrite Z.eqb_sym. destruct (c =? 35); [done|].
  destruct (index_of _ s); [|done]. apply bool_decide_eq_true_2. done.
Qed.

Lemma loadLine_eq c line :
  line_ok line → ∃ b, loadLine c (line ++ [10]) = Ret (b, match parse_line line with Some it => insert_sorted it c | None => c end).
Proof.
  intros (H0 & H10 & Hl). unfold max_line_length in Hl. unfold loadLine, parse_line. rewrite find_char_start.
  destruct (index_of (Z.eqb 61) line) as [k|] eqn:E.
  - rewrite (index_of_app_l _ _ _ _ E). cbn [fmap option_fmap option_map].
    destruct (index_of_Some _ _ _ E) as (a & x & b & El & La & _).
    assert (length line = k + S (length b))%nat as Ll by (rewrite El, length_app, La; done).
    assert (last_newline (line ++ [10]) = Some (slen line)) as ->.
    { unfold last_newline. rewrite rev_app_distr, length_app. simpl. f_equal. lia. }
    rewrite !str_substr_ok, u64_id by (rewrite ?length_app; simpl; unfold is_u64; lia). cbn [mbind outcome_bind].
    change (drop (Z.to_nat 0) ?s) with s. rewrite Nat2Z.id. rewrite take_app_le by lia.
    rewrite drop_app_le, take_app_le by (rewrite ?length_drop; lia).
    rewrite (take_ge (drop _ line)) by (rewrite length_drop; lia).
    replace (Z.to_nat (Z.of_nat k + 1)) with (S k) by lia.
    rewrite (trim_eq (take k line)), (trim_eq (drop (S k) line)) by (rewrite ?length_take, ?length_drop; lia). cbn [mbind outcome_bind].
    exists true. rewrite find_hash. destruct (strip (take k line)) as [|x' key]; [done|].
    cbn [length]. rewrite (proj2 (Z.ltb_lt _ _)) by lia. cbn [andb]. rewrite insertItem_eq. by destruct (x' =? 35).
  - exists false. assert (index_of (Z.eqb 61) (line ++ [10]) = None) as ->; [|done].
    apply index_of_None, Forall_app. split; [by apply index_of_None|by repeat constructor].
Qed.

Lemma load_step_line line rest c :
  line_ok line →
  load_step (line ++ 10 :: rest, c) = Ret (inl (rest, match parse_line line with Some it => insert_sorted it c | None => c end)).
Proof.
  intros Hl. pose proof Hl as (H0 & H10 & Hs). unfold max_line_length in *. unfold load_step.
  assert (∃ x s, line ++ 10 :: rest = x :: s) as (x & s & E) by (destruct line; simpl; eauto). rewrite E, <-E.
  change (Z.to_nat (max_line_length - 1)) with 1023%nat. rewrite fgets_line by (done || lia). cbn [fst snd].
  rewrite c_string_app by done. change (c_string [10]) with [10].
  destruct (loadLine_eq c line Hl) as [b ->]. done.
Qed.

(** The content after the definitions [l]. *)
Definition define_all (l c : list item) : list item := foldl (λ c it, insert_sorted it c) c l.

Lemma load_loop lines rest c fuel :
  Forall line_ok lines →
  loop (length lines + fuel) load_step (file_of lines ++ rest, c) = loop fuel load_step (rest, define_all (omap parse_line lines) c).
Proof.
  intros Hl. revert c. induction Hl as [|line lines Hline Hl IH]; intros c; [done|].
  change (length (line :: lines) + fuel)%nat with (S (length lines + fuel)). rewrite loop_S.
  unfold file_of. cbn [map concat]. rewrite <-!app_assoc. cbn [app]. rewrite load_step_line by done. cbn [mbind outcome_bind].
  change (concat (map (λ l, l ++ [10]) lines)) with (file_of lines). rewrite IH. cbn [omap list_omap]. by destruct (parse_line line).
Qed.

Lemma define_all_spec l c :
  sorted_items c →
  sorted_items (define_all l c) ∧ ∀ k, first_value k (define_all l c) = match first_value k c with Some v => Some v | None => first_value k l end.
Proof.
  revert c. induction l as [|[k0 v0] l IH]; intros c Hc; [split; [done|]; intros k; change (define_all [] c) with c; by destruct (first_value k c)|].
  destruct (insert_sorted_spec (k0, v0) c Hc) as (Hs & Hf & _). destruct (IH _ Hs) as [Hs' Hf']. split; [done|].
  intros k. unfold define_all in *. cbn [foldl]. rewrite Hf', Hf. cbn [fst snd first_value].
  destruct (first_value k c); [done|]. by case_decide.
Qed.

Lemma length_file_of lines : (length lines ≤ length (file_of lines))%nat.
Proof. induction lines as [|l lines IH]; [done|]. unfold file_of in *. cbn [map concat]. rewrite !length_app. simpl. lia. Qed.

Lemma load_eq fopen c f lines :
  Forall line_ok lines → slen f < max_path → fopen f = Some (file_of lines) →
  load fopen c (Some f) = Ret (true, SDConfiguration f (define_all (omap parse_line lines) [])).
Proof.
  intros Hl Hf Ho. unfold load, set_file_name. rewrite (proj2 (Z.ltb_lt _ _)) by done. cbn [mbind outcome_bind m_file_name].
  rewrite Ho. pose proof (length_file_of lines) as Hlen.
  replace (S (length (file_of lines))) with (length lines + S (length (file_of lines) - length lines))%nat by lia.
  rewrite <-(app_nil_r (file_of lines)) at 2. by rewrite load_loop.
Qed.

(** A last line without its end is undefined as soon as it has an [=]. *)
Lemma load_unterminated fopen c f lines last :
  Forall line_ok lines → slen f < max_path → (10 ∉ last) → (0 ∉ last) → 61 ∈ last → slen last < max_line_length →
  fopen f = Some (file_of lines ++ last) → load fopen c (Some f) = Stuck.
Proof.
  intros Hl Hf H10 H0 H61 Hs Ho. unfold load, set_file_name. rewrite (proj2 (Z.ltb_lt _ _)) by done. cbn [mbind outcome_bind m_file_name].
  rewrite Ho. pose proof (length_file_of lines) as Hlen. rewrite length_app.
  replace (S (length (file_of lines) + length last)) with (length lines + S (length (file_of lines) - length lines + length last))%nat by lia.
  rewrite load_loop, loop_S by done. unfold load_step. destruct last as [|x l] eqn:El; [by apply elem_of_nil in H61|]. rewrite <-El in *.
  unfold max_line_length in *. change (Z.to_nat (1024 - 1)) with 1023%nat. rewrite fgets_short by (done || lia). cbn [fst snd].
  rewrite c_string_id by done. unfold loadLine. rewrite find_char_start.
  destruct (index_of (Z.eqb 61) last) as [k|] eqn:E.
  - cbn [fmap option_fmap option_map]. assert (last_newline last = None) as ->; [|done].
    unfold last_newline. assert (index_of (Z.eqb 10) (rev last) = None) as ->; [|done].
    apply index_of_None, Forall_forall. intros y Hy. apply Z.eqb_neq. intros <-. apply H10. rewrite <-(rev_involutive last).
    rewrite list_elem_of_In, <-in_rev. by apply list_elem_of_In.
  - apply index_of_None in E. rewrite Forall_forall in E. by specialize (E _ H61).
Qed.

(** ** Properties *)

(** Loading a file whose lines end properly and fit the buffer gives a
    configuration sorted by key, without duplicates, in which [getString] and
    [getInt] answer with the first definition of a key in the file, or the
    default; a last line with an [=] and without an end is undefined. *)
Lemma load_refines fopen c f lines :
  Forall line_ok lines → slen f < max_path → fopen f = Some (file_of lines) →
  returns (load fopen c (Some f)) (λ r, r.1 = true ∧ sorted_items (m_content r.2) ∧
    (∀ key dflt, getString (m_content r.2) key dflt = default dflt (first_value key (omap parse_line lines))) ∧
    ∀ key dflt, getInt (m_content r.2) key dflt =
      match first_value key (omap parse_line lines) with Some v => atoi (c_string v) | None => Ret dflt end) ∧
  ∀ fopen' last, fopen' f = Some (file_of lines ++ last) → (10 ∉ last) → (0 ∉ last) → 61 ∈ last →
    slen last < max_line_length → load fopen' c (Some f) = Stuck.
Proof.
  intros Hl Hf Ho. split; [|intros; by eapply load_unterminated].
  rewrite (load_eq fopen c f lines) by done. destruct (define_all_spec (omap parse_line lines) [] ltac:(constructor)) as [Hs Hv].
  cbn [returns fst snd m_content]. split_and!; [done|done| |].
  - intros key dflt. by rewrite getString_eq, Hv.
  - intros key dflt. by rewrite getInt_eq, Hv.
Qed.

(** "port = 80", "#x=1", "port=81". *)
Definition sample_lines : list (list Z) :=
  [[112; 111; 114; 116; 32; 61; 32; 56; 48]; [35; 120; 61; 49]; [112; 111; 114; 116; 61; 56; 49]].

Lemma load_refines_witness :
  returns (load (λ _, Some (file_of sample_lines)) new_configuration (Some [99])) (λ r, r.1 = true ∧ sorted_items (m_content r.2) ∧
    (∀ key dflt, getString (m_content r.2) key dflt = default dflt (first_value key (omap parse_line sample_lines))) ∧
    ∀ key dflt, getInt (m_content r.2) key dflt =
      match first_value key (omap parse_line sample_lines) with Some v => atoi (c_string v) | None => Ret dflt end).
Proof.
  refine (proj1 (load_refines (λ _, Some (file_of sample_lines)) new_configuration [99] sample_lines _ _ _)); [|done|done].
  repeat constructor; by apply (bool_decide_unpack _); vm_compute.
Defined.

Example port_is_80 : getInt (define_all (omap parse_line sample_lines) []) [112; 111; 114; 116] 7 = Ret 80.
Proof. by vm_compute. Qed.
