(* ===== verification/Json.v ===== *)
(** * The JSON library
    ([cJSON.c], of which every service has a copy, and [cjson_wrapper.cpp])

    A tree of [cJSON] nodes is a value of the type [cJSON]; a pointer into the text
    that is parsed is a position in its block [s], which ends with a zero byte.
    Numbers are doubles, computed with the arithmetic of [SpecFloat];
    [pow] and the printing of doubles belong to the C library and are arguments.
    Memory is not exhausted, and the lengths of texts fit [int]. *)

From Stdlib Require Import String SpecFloat.
From S2P Require Import Prelude Text.

(** ** Definitions: doubles *)
Definition double : Type := spec_float.
Definition of_int (z : Z) : double := binary_normalize 53 1024 z 0 false.
Definition dadd : double → double → double := SFadd 53 1024.
Definition dsub : double → double → double := SFsub 53 1024.
Definition dmul : double → double → double := SFmul 53 1024.

(** [(int)d]; a value that does not fit is undefined. *)
Definition to_int (d : double) : outcome Z :=
  match d with
  | S754_zero _ => Ret 0
  | S754_finite sign m e => let n := Z.shiftl (Zpos m) e in in_s32 (if sign then - n else n)
  | _ => Stuck
  end.

Definition floor (d : double) : double :=
  match d with
  | S754_finite sign m e =>
      if 0 <=? e then d
      else
        let n := Z.shiftr (if sign then Zneg m else Zpos m) (- e) in
        if bool_decide (n = 0) then S754_zero sign else of_int n
  | _ => d
  end.

Definition DBL_EPSILON : double := binary_normalize 53 1024 1 (-52) false.
(** [1.0e-6] and [1.0e9]. *)
Definition d1em6 : double := binary_normalize 53 1024 0x10c6f7a0b5ed8d (-72) false.
Definition d1e9 : double := of_int 1000000000.

(** ** Definitions: nodes *)

(** The type of a node with what belongs to it; the children of an object have
    names. *)
#[warnings="-register-all"]
Inductive cJSON : Type :=
  | cJSON_NULL
  | cJSON_False
  | cJSON_True
  | cJSON_Number (valuedouble : double) (valueint : Z)
  | cJSON_String (valuestring : list Z)
  | cJSON_Array (child : list cJSON)
  | cJSON_Object (child : list (list Z * cJSON)).

Definition valuestring (item : cJSON) : option (list Z) := match item with cJSON_String t => Some t | _ => None end.
Definition valueint (item : cJSON) : Z := match item with cJSON_Number _ n => n | cJSON_True => 1 | _ => 0 end.

(** Of two C strings. *)
Fixpoint cJSON_strcasecmp (s1 s2 : list Z) : Z :=
  match s1, s2 with
  | [], [] => 0
  | x :: s1, y :: s2 => if bool_decide (tolower x = tolower y) then cJSON_strcasecmp s1 s2 else tolower x - tolower y
  | x :: _, [] => tolower x
  | [], y :: _ => - tolower y
  end.

Fixpoint find_child (child : list (list Z * cJSON)) (string : list Z) : option cJSON :=
  match child with
  | [] => None
  | (name, c) :: child => if bool_decide (cJSON_strcasecmp name string ≠ 0) then find_child child string else Some c
  end.

(** Children without names are passed over. *)
Definition cJSON_GetObjectItem (object : cJSON) (string : list Z) : option cJSON :=
  match object with cJSON_Object child => find_child child (c_string string) | _ => None end.

(** An object in the making is its list of children. *)
Definition cJSON_CreateObject : list (list Z * cJSON) := [].
Definition cJSON_AddStringToObject (object : list (list Z * cJSON)) (name s : list Z) : list (list Z * cJSON) :=
  object ++ [(c_string name, cJSON_String (c_string s))].

(** ** Definitions: [sscanf] with [%4x] *)
Definition xdigit (c : Z) : option Z :=
  if isdigit c then Some (c - 48)
  else if (97 <=? c) && (c <=? 102) then Some (c - 87)
  else if (65 <=? c) && (c <=? 70) then Some (c - 55)
  else None.

(** The number that up to [n] digits make. *)
Fixpoint xvalue (n : nat) (t : list Z) (acc : Z) : Z :=
  match n, t with
  | S n, c :: t => match xdigit c with Some d => xvalue n t (acc * 16 + d) | None => acc end
  | _, _ => acc
  end.
Definition hex_number (n : nat) (t : list Z) : option Z :=
  match n, t with
  | S _, c :: _ => match xdigit c with Some _ => Some (xvalue n t 0) | None => None end
  | _, _ => None
  end.

(** Blanks are skipped; a sign and [0x] count for the width. *)
Definition scan_prefix (n : nat) (t : list Z) : option Z :=
  match t with
  | z :: x :: r => if bool_decide ((2 ≤ n)%nat ∧ z = 48 ∧ (x = 120 ∨ x = 88)) then hex_number (n - 2) r else hex_number n t
  | _ => hex_number n t
  end.
Definition sscanf_4x (t : list Z) : option Z :=
  match trim_left t with
  | [] => None
  | c :: r =>
      if bool_decide (c = 45) then (λ v, u32 (- v)) <$> scan_prefix 3 r
      else if bool_decide (c = 43) then scan_prefix 3 r
      else scan_prefix 4 (c :: r)
  end.

(** ** Definitions: parsing *)
Section parse.
Context (pow : double → double → double) (s : list Z).

Definition skip (p : Z) : outcome Z :=
  loop (S (length s)) (λ p, let! c := aget s p in Ret (if bool_decide (c ≠ 0) && (c <=? 32) then inl (p + 1) else inr p)) p.

(** [!strncmp(value, t, n)] for a text [t] of [n] characters. *)
Fixpoint starts (p : Z) (t : list Z) : outcome bool :=
  match t with
  | [] => Ret true
  | x :: t => let! c := aget s p in if bool_decide (c = x) then starts (p + 1) t else Ret false
  end.

(** As long as there are digits. *)
Definition digits_loop {A} (f : A → Z → outcome A) (a : A) (p : Z) : outcome (A * Z) :=
  loop (S (length s)) (λ x : A * Z,
    let (a, p) := x in
    let! c := aget s p in
    if isdigit c then let! a := f a (c - 48) in Ret (inl (a, p + 1)) else Ret (inr (a, p))) (a, p).

(** [n = n * 10.0 + digit], without and with [scale--]. *)
Definition digit_of (n : double) (d : Z) : outcome double := Ret (dadd (dmul n (of_int 10)) (of_int d)).
Definition fraction_of (x : double * double) (d : Z) : outcome (double * double) :=
  Ret (dadd (dmul x.1 (of_int 10)) (of_int d), dsub x.2 (of_int 1)).
Definition exponent_of (subscale d : Z) : outcome Z := in_s32 (subscale * 10 + d).

(** The value and the pointer behind it. *)
Definition number_value (num : Z) : outcome (double * Z) :=
  let! c := aget s num in
  let '(sign, num) := if bool_decide (c = 45) then (of_int (-1), num + 1) else (of_int 1, num) in
  let! c := aget s num in
  let num := if bool_decide (c = 48) then num + 1 else num in
  let! c := aget s num in
  let! r := if (49 <=? c) && (c <=? 57) then digits_loop digit_of (of_int 0) num else Ret (of_int 0, num) in
  let (n, num) := (r : double * Z) in
  let! c := aget s num in
  let! r :=
    if bool_decide (c = 46) then
      let! d := aget s (num + 1) in
      if isdigit d then digits_loop fraction_of (n, of_int 0) (num + 1) else Ret ((n, of_int 0), num)
    else Ret ((n, of_int 0), num) in
  let '((n, scale), num) := (r : double * double * Z) in
  let! c := aget s num in
  let! r :=
    if bool_decide (c = 101 ∨ c = 69) then
      let! c := aget s (num + 1) in
      let '(signsubscale, num) := if bool_decide (c = 43) then (1, num + 2) else if bool_decide (c = 45) then (-1, num + 2) else (1, num + 1) in
      let! r := digits_loop exponent_of 0 num in
      Ret (r.1, signsubscale, r.2)
    else Ret (0, 1, num) in
  let '(subscale, signsubscale, num) := (r : Z * Z * Z) in
  Ret (dmul (dmul sign n) (pow (of_int 10) (dadd scale (of_int (subscale * signsubscale)))), num).

Definition parse_number (num : Z) : outcome (cJSON * Z) :=
  let! r := number_value num in
  let! i := to_int r.1 in
  Ret (cJSON_Number r.1 i, r.2).

(** *** Strings *)

(** The room that a string needs at most. *)
Definition room_step (x : Z * Z) : outcome (Z * Z + Z) :=
  let (ptr, len) := x in
  let! c := aget s ptr in
  if bool_decide (c = 34 ∨ c = 0) then Ret (inr len)
  else Ret (inl (if bool_decide (c = 92) then ptr + 2 else ptr + 1, len + 1)).
Definition string_room (p : Z) : outcome Z := loop (S (length s)) room_step (p + 1, 0).

(** Writing behind [out], which has room for [len + 1] bytes. *)
Definition store_text (len : Z) (out t : list Z) : outcome (list Z) :=
  if slen (out ++ t) <=? len + 1 then Ret (out ++ t) else Stuck.

(** The bytes of a character, and [uc] after it has been shifted. *)
Definition utf8 (uc : Z) : list Z * Z :=
  let low uc := u8 (Z.land (Z.lor uc 0x80) 0xBF) in
  if uc <? 0x80 then ([u8 uc], uc)
  else if uc <? 0x800 then ([u8 (Z.lor (Z.shiftr uc 6) 0xC0); low uc], Z.shiftr uc 6)
  else if uc <? 0x10000 then ([u8 (Z.lor (Z.shiftr uc 12) 0xE0); low (Z.shiftr uc 6); low uc], Z.shiftr uc 12)
  else ([u8 (Z.lor (Z.shiftr uc 18) 0xF0); low (Z.shiftr uc 12); low (Z.shiftr uc 6); low uc], Z.shiftr uc 18).

(** [ptr], the text so far, [uc] and [uc2], which are indeterminate at first. *)
Abbreviation scanning := (Z * list Z * option Z * option Z)%type.

Definition scan_4x (p : Z) (uc : option Z) : outcome (option Z) :=
  if bool_decide (0 ≤ p < slen s) then
    Ret (match sscanf_4x (c_string (drop (Z.to_nat p) s)) with Some v => Some v | None => uc end)
  else Stuck.

(** The case ['u'], up to [break]. *)
Definition transcode (len : Z) (x : scanning) : outcome scanning :=
  let '(ptr, out, uc, uc2) := x in
  let! uc := scan_4x (ptr + 1) uc in
  let ptr := ptr + 4 in
  match uc with
  | None => Stuck
  | Some v =>
      if (0xDC00 <=? v) && (v <=? 0xDFFF) || bool_decide (v = 0) then Ret (ptr, out, uc, uc2)
      else if (0xD800 <=? v) && (v <=? 0xDBFF) then
        let! a := aget s (ptr + 1) in
        if bool_decide (a ≠ 92) then Ret (ptr, out, uc, uc2)
        else
          let! b := aget s (ptr + 2) in
          if bool_decide (b ≠ 117) then Ret (ptr, out, uc, uc2)
          else
            let! uc2 := scan_4x (ptr + 3) uc2 in
            let ptr := ptr + 6 in
            match uc2 with
            | None => Stuck
            | Some v2 =>
                if (v2 <? 0xDC00) || (0xDFFF <? v2) then Ret (ptr, out, uc, uc2)
                else
                  let v := Z.lor 0x10000 (Z.lor (Z.shiftl (Z.land v 0x3FF) 10) (Z.land v2 0x3FF)) in
                  let! out := store_text len out (utf8 v).1 in
                  Ret (ptr, out, Some (utf8 v).2, uc2)
            end
      else
        let! out := store_text len out (utf8 v).1 in
        Ret (ptr, out, Some (utf8 v).2, uc2)
  end.

(** The character that a backslash and [e] stand for, when [e] is not ['u']. *)
Definition unescape (e : Z) : Z :=
  if bool_decide (e = 98) then 8 else if bool_decide (e = 102) then 12 else if bool_decide (e = 110) then 10
  else if bool_decide (e = 114) then 13 else if bool_decide (e = 116) then 9 else e.

Definition string_step (len : Z) (x : scanning) : outcome (scanning + scanning) :=
  let '(ptr, out, uc, uc2) := x in
  let! c := aget s ptr in
  if bool_decide (c = 34 ∨ c = 0) then Ret (inr x)
  else if bool_decide (c ≠ 92) then
    let! out := store_text len out [c] in
    Ret (inl (ptr + 1, out, uc, uc2))
  else
    let! e := aget s (ptr + 1) in
    if bool_decide (e = 117) then
      let! y := transcode len (ptr + 1, out, uc, uc2) in
      let '(ptr, out, uc, uc2) := (y : scanning) in
      Ret (inl (ptr + 1, out, uc, uc2))
    else
      let! out := store_text len out [unescape e] in
      Ret (inl (ptr + 2, out, uc, uc2)).

(** The text, which ends at its first zero byte, and the pointer behind it; [None]
    is a null pointer. *)
Definition parse_string (str : Z) : outcome (option (list Z * Z)) :=
  let! c := aget s str in
  if bool_decide (c ≠ 34) then Ret None
  else
    let! len := string_room str in
    let! x := loop (S (length s)) (string_step len) (str + 1, [], None, None) in
    let '(ptr, out, _, _) := (x : scanning) in
    let! out := store_text len out [0] in
    let! c := aget s ptr in
    Ret (Some (c_string out, if bool_decide (c = 34) then ptr + 1 else ptr)).

(** *** Values *)
Fixpoint parse_value (fuel : nat) (value : Z) : outcome (option (cJSON * Z)) :=
  match fuel with
  | O => Loop
  | S fuel =>
      let! null := starts value (str "null") in
      if null : bool then Ret (Some (cJSON_NULL, value + 4))
      else
        let! no := starts value (str "false") in
        if no : bool then Ret (Some (cJSON_False, value + 5))
        else
          let! yes := starts value (str "true") in
          if yes : bool then Ret (Some (cJSON_True, value + 4))
          else
            let! c := aget s value in
            if bool_decide (c = 34) then
              let! r := parse_string value in
              Ret ((λ x : list Z * Z, (cJSON_String x.1, x.2)) <$> r)
            else if bool_decide (c = 45) || isdigit c then
              let! r := parse_number value in Ret (Some r)
            else if bool_decide (c = 91) then
              let! p := skip (value + 1) in
              let! c := aget s p in
              if bool_decide (c = 93) then Ret (Some (cJSON_Array [], p + 1)) else parse_array fuel p []
            else if bool_decide (c = 123) then
              let! p := skip (value + 1) in
              let! c := aget s p in
              if bool_decide (c = 125) then Ret (Some (cJSON_Object [], p + 1)) else parse_object fuel p []
            else Ret None
  end
(** The elements from [p] on, behind [child]. *)
with parse_array (fuel : nat) (p : Z) (child : list cJSON) : outcome (option (cJSON * Z)) :=
  match fuel with
  | O => Loop
  | S fuel =>
      let! p := skip p in
      let! r := parse_value fuel p in
      match r with
      | None => Ret None
      | Some (v, p) =>
          let child := child ++ [v] in
          let! p := skip p in
          let! c := aget s p in
          if bool_decide (c = 44) then parse_array fuel (p + 1) child
          else if bool_decide (c = 93) then Ret (Some (cJSON_Array child, p + 1))
          else Ret None
      end
  end
with parse_object (fuel : nat) (p : Z) (child : list (list Z * cJSON)) : outcome (option (cJSON * Z)) :=
  match fuel with
  | O => Loop
  | S fuel =>
      let! p := skip p in
      let! r := parse_string p in
      match r with
      | None => Ret None
      | Some (name, p) =>
          let! p := skip p in
          let! c := aget s p in
          if bool_decide (c ≠ 58) then Ret None
          else
            let! p := skip (p + 1) in
            let! r := parse_value fuel p in
            match r with
            | None => Ret None
            | Some (v, p) =>
                let child := child ++ [(name, v)] in
                let! p := skip p in
                let! c := aget s p in
                if bool_decide (c = 44) then parse_object fuel (p + 1) child
                else if bool_decide (c = 125) then Ret (Some (cJSON_Object child, p + 1))
                else Ret None
            end
      end
  end.
End parse.

(** What follows the value is not looked at. *)
Definition cJSON_Parse (pow : double → double → double) (value : list Z) : outcome (option cJSON) :=
  let s := c_string value ++ [0] in
  let! p := skip s 0 in
  let! r := parse_value pow s (2 * length s) p in
  Ret (fst <$> r).

(** ** Definitions: printing *)

(** What a character is printed as, and the room that is counted for it. *)
Definition escape_char (c : Z) : list Z :=
  if (31 <? c) && bool_decide (c ≠ 34) && bool_decide (c ≠ 92) then [c]
  else if bool_decide (c = 92) then [92; 92] else if bool_decide (c = 34) then [92; 34]
  else if bool_decide (c = 8) then [92; 98] else if bool_decide (c = 12) then [92; 102] else if bool_decide (c = 10) then [92; 110]
  else if bool_decide (c = 13) then [92; 114] else if bool_decide (c = 9) then [92; 116]
  else str "\u00" ++ [48 + c / 16; if c mod 16 <? 10 then 48 + c mod 16 else 87 + c mod 16].
Definition escape_room (c : Z) : Z :=
  if bool_decide (c ∈ [34; 92; 8; 12; 10; 13; 9]) then 2 else if c <? 32 then 6 else 1.

(** A text that is written into [room] bytes with its zero byte. *)
Definition in_block (room : Z) (text : list Z) : outcome (list Z) := if slen text <? room then Ret text else Stuck.

Definition print_string_ptr (s : list Z) : outcome (list Z) :=
  let s := c_string s in
  let len := foldl (λ len c, len + escape_room c) 0 s in
  in_block (len + 3) ([34] ++ concat (map escape_char s) ++ [34]).

Section print.
(** [sprintf] of a double. *)
Context (print_double : list Z → double → list Z) (fmt : bool).

Definition print_number (d : double) (n : Z) : outcome (list Z) :=
  if SFleb (SFabs (dsub (of_int n) d)) DBL_EPSILON && SFleb d (of_int INT_MAX) && SFleb (of_int (- 2 ^ 31)) d then in_block 21 (print_dec n)
  else
    in_block 64 (print_double (if SFleb (SFabs (dsub (floor d) d)) DBL_EPSILON then str "%.0f"
                           else if SFltb (SFabs d) d1em6 || SFltb d1e9 (SFabs d) then str "%e" else str "%f") d).

(** The texts with a separator between them. *)
Definition fmt_text (t : list Z) : list Z := if fmt then t else [].
Definition tabs (n : nat) : list Z := if fmt then replicate n 9 else [].

Fixpoint compose_array (entries : list (list Z)) : list Z :=
  match entries with
  | [] => []
  | [e] => e
  | e :: entries => e ++ [44] ++ fmt_text [32] ++ compose_array entries
  end.
Fixpoint compose_object (depth : nat) (entries : list (list Z * list Z)) : list Z :=
  match entries with
  | [] => []
  | (name, e) :: entries =>
      tabs depth ++ name ++ [58] ++ fmt_text [9] ++ e ++ (if bool_decide (entries = []) then [] else [44]) ++ fmt_text [10] ++ compose_object depth entries
  end.

(** The texts of the children, with a function that prints one; those of an object
    with their names. *)
Definition print_entries (f : cJSON → outcome (list Z)) : list cJSON → outcome (list (list Z)) :=
  fix entries (child : list cJSON) :=
    match child with
    | [] => Ret []
    | c :: child => let! e := f c in let! es := entries child in Ret (e :: es)
    end.
Definition print_members (f : cJSON → outcome (list Z)) : list (list Z * cJSON) → outcome (list (list Z * list Z)) :=
  fix members (child : list (list Z * cJSON)) :=
    match child with
    | [] => Ret []
    | (name, c) :: child =>
        let! name := print_string_ptr name in
        let! e := f c in
        let! es := members child in
        Ret ((name, e) :: es)
    end.

(** The block that is allocated for an array, and for an object whose members are
    printed at [depth]. *)
Definition array_len (entries : list (list Z)) : Z := foldl (λ len e, len + slen e + 2 + (if fmt then 1 else 0)) 5 entries.
Definition object_len (depth : nat) (entries : list (list Z * list Z)) : Z :=
  foldl (λ len x, len + slen x.2 + slen x.1 + 2 + (if fmt then 2 + Z.of_nat depth else 0)) (7 + (if fmt then Z.of_nat depth else 0)) entries.

Fixpoint print_value (depth : nat) (item : cJSON) : outcome (list Z) :=
  match item with
  | cJSON_NULL => Ret (str "null")
  | cJSON_False => Ret (str "false")
  | cJSON_True => Ret (str "true")
  | cJSON_Number d n => print_number d n
  | cJSON_String t => print_string_ptr t
  | cJSON_Array child =>
      let! entries := print_entries (print_value (S depth)) child in
      in_block (array_len entries) ([91] ++ compose_array entries ++ [93])
  | cJSON_Object child =>
      let! entries := print_members (print_value (S depth)) child in
      in_block (object_len (S depth) entries) ([123] ++ fmt_text [10] ++ compose_object (S depth) entries ++ tabs depth ++ [125])
  end.
End print.

Definition cJSON_Print (print_double : list Z → double → list Z) (item : cJSON) : outcome (list Z) := print_value print_double true 0 item.
Definition cJSON_PrintUnformatted (print_double : list Z → double → list Z) (item : cJSON) : outcome (list Z) := print_value print_double false 0 item.

(** ** Definitions: the wrapper

    [m_pjsonobj] is [None] for a null pointer; reading a member of a null pointer is
    undefined. *)
Definition cjson_wrapper (pow : double → double → double) (str_json : list Z) : outcome (option cJSON) := cJSON_Parse pow str_json.

(** The result and the value. *)
Definition get_string (m_pjsonobj : option cJSON) (key value : list Z) : outcome (Z * list Z) :=
  match m_pjsonobj with
  | None => Ret (-1, value)
  | Some obj =>
      match cJSON_GetObjectItem obj key with
      | None => Stuck
      | Some pobj => Ret (0, match valuestring pobj with Some t => t | None => value end)
      end
  end.
Definition get_int (m_pjsonobj : option cJSON) (key : list Z) (value : Z) : outcome (Z * Z) :=
  match m_pjsonobj with
  | None => Ret (-1, value)
  | Some obj =>
      match cJSON_GetObjectItem obj key with
      | None => Stuck
      | Some pobj => Ret (0, valueint pobj)
      end
  end.

(** The object with the entries of a map, which come in the order of its keys. *)
Definition object_of (mapparam : list (list Z * list Z)) : cJSON :=
  cJSON_Object (foldl (λ obj x, cJSON_AddStringToObject obj x.1 x.2) cJSON_CreateObject mapparam).
Definition format_json_fromat (print_double : list Z → double → list Z) (mapparam : list (list Z * list Z)) : outcome (list Z) :=
  cJSON_Print print_double (object_of mapparam).
Definition format_json_unfromat (print_double : list Z → double → list Z) (mapparam : list (list Z * list Z)) : outcome (list Z) :=
  cJSON_PrintUnformatted print_double (object_of mapparam).

(** ** Specification *)

(** Every backslash is followed by a character, and [\u] by four hexadecimal
    digits. *)
Fixpoint escapes_ok (t : list Z) : bool :=
  match t with
  | [] => true
  | c :: t =>
      if bool_decide (c = 92) then
        match t with
        | [] => false
        | e :: t =>
            if bool_decide (e = 117) then
              match t with
              | a :: b :: c :: d :: t => forallb (λ x, bool_decide (is_Some (xdigit x))) [a; b; c; d] && escapes_ok t
              | _ => false
              end
            else escapes_ok t
        end
      else escapes_ok t
  end.

(** *** Where the parser reads a value

    In the text [t] with its zero byte: [Value_at p] when [parse_value] is called at
    [p], [Elements_at p] and [Members_at p] when the elements of an array and the
    members of an object are read from [p] on. *)
Section places.
Context (pow : double → double → double) (s : list Z).

(** A value at [p] ends before [r], where, behind blanks, a comma is. *)
Definition comma_behind (p r : Z) : Prop :=
  ∃ fuel v q, parse_value pow s fuel p = Ret (Some (v, q)) ∧ skip s q = Ret r ∧ aget s r = Ret 44.

(** A name at [p], and behind its colon and blanks, [r]. *)
Definition name_before (p r : Z) : Prop :=
  ∃ q name q' r', skip s p = Ret q ∧ parse_string s q = Ret (Some (name, q')) ∧
    skip s q' = Ret r' ∧ aget s r' = Ret 58 ∧ skip s (r' + 1) = Ret r.

Inductive Value_at : Z → Prop :=
  | value_first p : skip s 0 = Ret p → Value_at p
  | value_element p q : Elements_at p → skip s p = Ret q → Value_at q
  | value_member p q : Members_at p → name_before p q → Value_at q
with Elements_at : Z → Prop :=
  | elements_first p q c : Value_at p → aget s p = Ret 91 → skip s (p + 1) = Ret q → aget s q = Ret c → c ≠ 93 →
      Elements_at q
  | elements_next p q r : Elements_at p → skip s p = Ret q → comma_behind q r → Elements_at (r + 1)
with Members_at : Z → Prop :=
  | members_first p q c : Value_at p → aget s p = Ret 123 → skip s (p + 1) = Ret q → aget s q = Ret c → c ≠ 125 →
      Members_at q
  | members_next p q r : Members_at p → name_before p q → comma_behind q r → Members_at (r + 1).

(** The exponent of a number behind [p] is not an [int]. *)
Definition exponent_overflows (p : Z) : Prop := ∃ q, p ≤ q ∧ digits_loop s exponent_of 0 q = Stuck.

(** A value that is read is a number that is not an [int], or whose exponent is
    not; there, [parse_number] is undefined. *)
Definition number_overflows : Prop :=
  ∃ p, Value_at p ∧ parse_number pow s p = Stuck ∧
    ((∃ n q, number_value pow s p = Ret (n, q) ∧ to_int n = Stuck) ∨ exponent_overflows p).
End places.

(** A byte other than zero. *)
Definition is_char (c : Z) : Prop := 1 ≤ c < 256.

(** A tree without numbers, whose texts are C strings. *)
Fixpoint plain (item : cJSON) : bool :=
  match item with
  | cJSON_Number _ _ => false
  | cJSON_String t => forallb (λ c, bool_decide (is_char c)) t
  | cJSON_Array child => forallb plain child
  | cJSON_Object child => forallb (λ x, forallb (λ c, bool_decide (is_char c)) x.1 && plain x.2) child
  | _ => true
  end.

(** ** Lemmas: parsing is safe *)

(** What the first pass over a string counts. *)
Fixpoint room_of (t : list Z) : Z :=
  match t with
  | [] => 0
  | c :: t =>
      if bool_decide (c = 34) then 0
      else if bool_decide (c = 92) then match t with [] => 0 | _ :: t => 1 + room_of t end
      else 1 + room_of t
  end.

Lemma room_of_nonneg t : 0 ≤ room_of t.
Proof.
  induction t as [t IH] using (induction_ltof1 _ (@length Z)). unfold ltof in IH. destruct t as [|c t]; [done|]. cbn [room_of length] in *.
  repeat case_bool_decide; [done| |specialize (IH t); lia]. destruct t as [|e t]; [done|]. specialize (IH t). cbn [length] in IH. lia.
Qed.

Lemma hex_digit_Some c v : xdigit c = Some v → (48 ≤ c ≤ 57 ∨ 97 ≤ c ≤ 102 ∨ 65 ≤ c ≤ 70) ∧ 0 ≤ v < 16.
Proof. unfold xdigit, isdigit. repeat case_match; intros; simplify_eq; rewrite ?andb_true_iff, ?Z.leb_le in *; lia. Qed.

Lemma hex_value_4 a b c d r v1 v2 v3 v4 :
  xdigit a = Some v1 → xdigit b = Some v2 → xdigit c = Some v3 → xdigit d = Some v4 →
  sscanf_4x (a :: b :: c :: d :: r) = Some (((v1 * 16 + v2) * 16 + v3) * 16 + v4).
Proof.
  intros Ha Hb Hc Hd. pose proof (hex_digit_Some a _ Ha) as [Ra _]. pose proof (hex_digit_Some b _ Hb) as [Rb _].
  unfold sscanf_4x. cbn [trim_left]. assert (isspace a = false) as ->.
  { unfold isspace. rewrite orb_false_iff, andb_false_iff, Z.eqb_neq, !Z.leb_gt. lia. }
  rewrite !bool_decide_eq_false_2 by lia. unfold scan_prefix. rewrite bool_decide_eq_false_2 by lia.
  cbn [hex_number xvalue]. by rewrite Ha, Hb, Hc, Hd.
Qed.

Section safety.
Context (pow : double → double → double) (t : list Z) (Ht : 0 ∉ t).
Abbreviation s := (t ++ [0]).

(** A pointer into the text, at the beginning of an escape sequence or outside of any. *)
Definition ok (p : Z) : Prop := 0 ≤ p ≤ slen t ∧ escapes_ok (drop (Z.to_nat p) t) = true.

Lemma ok_end : ok (slen t).
Proof. split; [lia|]. by rewrite Nat2Z.id, drop_all. Qed.

Lemma drop_next p c l : 0 ≤ p → drop (Z.to_nat p) t = c :: l → drop (Z.to_nat (p + 1)) t = l ∧ p < slen t.
Proof.
  intros Hp E. split.
  - replace (Z.to_nat (p + 1)) with (Z.to_nat p + 1)%nat by lia. by rewrite <-drop_drop, E.
  - apply (f_equal length) in E. rewrite length_drop in E. cbn in E. lia.
Qed.

(** The character at a pointer. *)
Lemma ok_cases p : 0 ≤ p ≤ slen t →
  (p = slen t ∧ aget s p = Ret 0 ∧ drop (Z.to_nat p) t = []) ∨
  (p < slen t ∧ ∃ c l, aget s p = Ret c ∧ c ≠ 0 ∧ drop (Z.to_nat p) t = c :: l ∧ drop (Z.to_nat (p + 1)) t = l).
Proof.
  intros Hp. destruct (drop (Z.to_nat p) t) as [|c l] eqn:E.
  - left. apply (f_equal length) in E. rewrite length_drop in E. cbn in E. assert (p = slen t) as -> by lia.
    split; [done|]. split; [|done]. by apply aget_mid.
  - right. pose proof (drop_next p c l ltac:(lia) E) as [En Hlt]. split; [done|]. exists c, l. split_and!; [|intros ->|done|done].
    + apply (aget_drop s (l ++ [0])); [lia|]. rewrite drop_app_le by lia. by rewrite E.
    + apply Ht. rewrite <-(take_drop (Z.to_nat p) t), E. set_solver.
Qed.

(** Reading a character that is not a backslash. *)
Lemma ok_char p : ok p → ∃ c, aget s p = Ret c ∧ (c = 0 ↔ p = slen t) ∧ (c ≠ 0 → c ≠ 92 → ok (p + 1)).
Proof.
  intros [Hp He]. destruct (ok_cases p Hp) as [(-> & Ea & _)|(Hlt & c & l & Ea & Hc & E & En)].
  - exists 0. by split_and!.
  - exists c. split; [done|]. split; [split; lia|]. intros _ Hb. split; [lia|]. rewrite En. rewrite E in He. cbn [escapes_ok] in He.
    by rewrite bool_decide_eq_false_2 in He.
Qed.

Lemma skip_ok p : ok p → returns (skip s p) (λ q, p ≤ q ∧ ok q).
Proof.
  intros Hp. apply (loop_returns (λ q, p ≤ q ∧ ok q) (λ q, Z.to_nat (slen t - q))).
  - intros q [Hq Hok]. destruct (ok_char q Hok) as (c & -> & H0 & Hn). cbn [mbind outcome_bind returns].
    destruct (bool_decide (c ≠ 0) && (c <=? 32)) eqn:Ec; [|done]. apply andb_true_iff in Ec as [E1%bool_decide_eq_true E2%Z.leb_le].
    specialize (Hn E1 ltac:(lia)). split; [split; [lia|done]|]. destruct Hok, Hn. lia.
  - split; [lia|done].
  - destruct Hp as [Hp _]. rewrite length_app. lia.
Qed.

Lemma starts_ok l p : ok p → (92 ∉ l) → (0 ∉ l) → returns (starts s p l) (λ b, b = true → ok (p + slen l)).
Proof.
  revert p. induction l as [|x l IH]; intros p Hp H92 H0; [cbn; by rewrite Z.add_0_r|]. cbn [starts].
  destruct (ok_char p Hp) as (c & -> & Hc & Hn). cbn [mbind outcome_bind]. case_bool_decide as E; [|done]. subst x.
  apply not_elem_of_cons in H92 as [? ?], H0 as [? ?]. eapply returns_mono; [apply IH; [by apply Hn|done|done]|].
  intros b Hb Et. specialize (Hb Et). cbn [length]. by replace (p + Z.of_nat (S (length l))) with (p + 1 + slen l) by lia.
Qed.
Lemma digits_ok {A} P (f : A → Z → outcome A) a p :
  (∀ a d, mostly P (f a d) (λ _, True)) → ok p → mostly P (digits_loop s f a p) (λ r, p ≤ r.2 ∧ ok r.2).
Proof.
  intros Hf Hp. apply (loop_mostly P (λ x : A * Z, p ≤ x.2 ∧ ok x.2) (λ x, Z.to_nat (slen t - x.2))).
  - intros [b q] [Hq Hok]. cbn [fst snd] in *. destruct (ok_char q Hok) as (c & -> & H0 & Hn). cbn [mbind outcome_bind].
    destruct (isdigit c) eqn:Ec; [|done]. unfold isdigit in Ec. apply andb_true_iff in Ec as [E1%Z.leb_le E2%Z.leb_le].
    specialize (Hn ltac:(lia) ltac:(lia)). eapply mostly_bind; [apply Hf|]. intros b' _. cbn [mostly snd].
    split; [split; [lia|done]|]. destruct Hok, Hn. lia.
  - split; [cbn; lia|done].
  - destruct Hp as [Hp _]. rewrite length_app. cbn [snd length]. lia.
Qed.

Lemma digits_total {A} (f : A → Z → A) a p : ok p → returns (digits_loop s (λ a d, Ret (f a d)) a p) (λ r, p ≤ r.2 ∧ ok r.2).
Proof.
  intros Hp. assert (mostly False (digits_loop s (λ a d, Ret (f a d)) a p) (λ r, p ≤ r.2 ∧ ok r.2)) as Hm by by apply digits_ok.
  by destruct (digits_loop s _ a p).
Qed.

(** The character at [p], when it is none of those that end a text or begin an escape
    sequence. *)
Lemma ok_step p (b : bool) c : ok p → aget s p = Ret c → (b = true → c ≠ 0 ∧ c ≠ 92) → ok (if b then p + 1 else p).
Proof. intros Hp Ea Hb. destruct b; [|done]. destruct (ok_char p Hp) as (c' & E & _ & Hn). rewrite Ea in E. injection E as <-. naive_solver. Qed.

Lemma number_sign p : ok p → ∃ c, aget s p = Ret c ∧ ok (if bool_decide (c = 45) then p + 1 else p) ∧ ok (if bool_decide (c = 48) then p + 1 else p).
Proof.
  intros Hp. destruct (ok_char p Hp) as (c & Ea & _). exists c. split; [done|].
  split; (eapply ok_step; [done..|]); intros E%bool_decide_eq_true; lia.
Qed.

Lemma number_exponent c p :
  ok p → aget s p = Ret c →
  mostly (exponent_overflows s p)
    (if bool_decide (c = 101 ∨ c = 69) then
      let! c := aget s (p + 1) in
      let '(signsubscale, num) := if bool_decide (c = 43) then (1, p + 2) else if bool_decide (c = 45) then (-1, p + 2) else (1, p + 1) in
      let! r := digits_loop s exponent_of 0 num in
      Ret (r.1, signsubscale, r.2)
    else Ret (0, 1, p)) (λ r, p ≤ r.2 ∧ ok r.2).
Proof.
  intros Hp Ea. case_bool_decide as Ec; [|by split]. assert (ok (p + 1)) as Hp1.
  { pose proof (ok_step p true c Hp Ea) as Hq. apply Hq. lia. }
  destruct (ok_char (p + 1) Hp1) as (c1 & -> & _ & Hn). cbn [mbind outcome_bind].
  assert (∀ sg q, ok q → p ≤ q → mostly (exponent_overflows s p) (let! r := digits_loop s exponent_of 0 q in Ret (r.1, sg, r.2)) (λ r : Z * Z * Z, p ≤ r.2 ∧ ok r.2)) as Hk.
  { intros sg q Hq Hle. assert (mostly (digits_loop s exponent_of 0 q = Stuck) (digits_loop s exponent_of 0 q) (λ r, q ≤ r.2 ∧ ok r.2)) as Hm.
    - assert (mostly True (digits_loop s exponent_of 0 q) (λ r, q ≤ r.2 ∧ ok r.2)) as Hm; [|by destruct (digits_loop s exponent_of 0 q)].
      apply digits_ok; [|done]. intros b d. unfold exponent_of, in_s32. by case_bool_decide.
    - eapply (mostly_bind _ _ _ (λ r, q ≤ r.2 ∧ ok r.2)); [|intros r [? ?]; cbn; split; [lia|done]].
      eapply mostly_mono; [exact Hm| |done]. intros E. by exists q. }
  assert (p + 2 = p + 1 + 1) as -> by lia.
  case_bool_decide as E1; [apply Hk; [apply Hn; lia|lia]|]. case_bool_decide as E2; [apply Hk; [apply Hn; lia|lia]|]. apply Hk; [done|lia].
Qed.

Lemma number_value_ok p : ok p → mostly (exponent_overflows s p) (number_value pow s p) (λ r, p ≤ r.2 ∧ ok r.2).
Proof.
  intros Hp. unfold number_value. destruct (number_sign p Hp) as (c & -> & H1 & _). cbn [mbind outcome_bind].
  assert (p ≤ if bool_decide (c = 45) then p + 1 else p) as Hle by (case_bool_decide; lia).
  set (p1 := if bool_decide (c = 45) then p + 1 else p) in *.
  assert ((if bool_decide (c = 45) then (of_int (-1), p + 1) else (of_int 1, p)) = ((if bool_decide (c = 45) then of_int (-1) else of_int 1), p1)) as ->
    by (unfold p1; by case_bool_decide).
  destruct (number_sign p1 H1) as (c1 & -> & _ & H2). cbn [mbind outcome_bind].
  assert (p1 ≤ if bool_decide (c1 = 48) then p1 + 1 else p1) as Hle1 by (case_bool_decide; lia).
  set (p2 := if bool_decide (c1 = 48) then p1 + 1 else p1) in *. destruct (ok_char p2 H2) as (c2 & -> & _). cbn [mbind outcome_bind].
  eapply (mostly_bind _ _ _ (λ r, p2 ≤ r.2 ∧ ok r.2)).
  { destruct (_ && _); [|by split]. apply mostly_returns. by apply digits_total. }
  intros [n p3] [Hle2 H3]. cbn [snd] in *. destruct (ok_char p3 H3) as (c3 & E3 & _ & Hn3). rewrite E3. cbn [mbind outcome_bind].
  eapply (mostly_bind _ _ _ (λ r, p3 ≤ r.2 ∧ ok r.2)).
  { case_bool_decide as E; [|by split]. specialize (Hn3 ltac:(lia) ltac:(lia)). destruct (ok_char _ Hn3) as (c4 & -> & _). cbn [mbind outcome_bind].
    destruct (isdigit c4); [|by split]. apply mostly_returns. eapply returns_mono; [by apply digits_total|]. intros r [? ?]. split; [lia|done]. }
  intros [[n' scale] p4] [Hle3 H4]. cbn [snd] in *. destruct (ok_char p4 H4) as (c4 & E4 & _). rewrite E4. cbn [mbind outcome_bind].
  eapply mostly_bind; [eapply mostly_mono; [by apply number_exponent|intros (e & ? & ?); exists e; split; [lia|done]|done]|]. intros [[sub sg] p5] [Hle4 H5]. cbn [mostly snd] in *. split; [lia|done].
Qed.
Lemma put_ok len out l : slen out + slen l ≤ len + 1 → store_text len out l = Ret (out ++ l).
Proof. intros Hl. unfold store_text. rewrite length_app. by rewrite (proj2 (Z.leb_le _ _)) by lia. Qed.

Lemma scan_hex p uc a b c d l :
  0 ≤ p → drop (Z.to_nat p) t = a :: b :: c :: d :: l → forallb (λ x, bool_decide (is_Some (xdigit x))) [a; b; c; d] = true →
  ∃ v, 0 ≤ v < 65536 ∧ scan_4x s p uc = Ret (Some v).
Proof.
  intros Hp E Hh. cbn [forallb] in Hh. rewrite !andb_true_iff, !bool_decide_eq_true in Hh. destruct Hh as ([v1 H1] & [v2 H2] & [v3 H3] & [v4 H4] & _).
  exists (((v1 * 16 + v2) * 16 + v3) * 16 + v4). pose proof (hex_digit_Some _ _ H1). pose proof (hex_digit_Some _ _ H2).
  pose proof (hex_digit_Some _ _ H3). pose proof (hex_digit_Some _ _ H4). split; [lia|]. unfold scan_4x.
  assert (p < slen t) as Hlt by (apply (f_equal length) in E; rewrite length_drop in E; cbn [length] in E; lia).
  rewrite bool_decide_eq_true_2 by (rewrite length_app; cbn [length]; lia). rewrite drop_app_le by lia. rewrite c_string_app.
  - rewrite E. cbn [app]. by erewrite hex_value_4.
  - intros Hin. apply Ht. rewrite <-(take_drop (Z.to_nat p) t). set_solver.
Qed.

(** What is left of the room covers what is left of the text. *)
Definition fits_in (len : Z) (x : Z * list Z * option Z * option Z) : Prop :=
  let '(ptr, out, uc, uc2) := x in ok ptr ∧ slen out + room_of (drop (Z.to_nat ptr) t) ≤ len.

Lemma drop_more p n l1 l2 : 0 ≤ p ≤ slen t → drop (Z.to_nat p) t = l1 ++ l2 → n = slen l1 → drop (Z.to_nat (p + n)) t = l2 ∧ p + n ≤ slen t.
Proof.
  intros Hp E ->. split; [apply drop_prefix; [lia|done]|]. apply (f_equal length) in E. rewrite length_drop, length_app in E.
  lia.
Qed.

Lemma escapes_hex a b c d l : escapes_ok (92 :: 117 :: a :: b :: c :: d :: l) = forallb (λ x, bool_decide (is_Some (xdigit x))) [a; b; c; d] && escapes_ok l.
Proof. done. Qed.

Lemma room_hex a b c d l :
  forallb (λ x, bool_decide (is_Some (xdigit x))) [a; b; c; d] = true → room_of (92 :: 117 :: a :: b :: c :: d :: l) = 5 + room_of l.
Proof.
  cbn [forallb]. rewrite !andb_true_iff, !bool_decide_eq_true. intros ([v1 H1%hex_digit_Some] & [v2 H2%hex_digit_Some] & [v3 H3%hex_digit_Some] & [v4 H4%hex_digit_Some] & _).
  cbn [room_of]. rewrite (bool_decide_eq_true_2 (92 = 92)) by done. rewrite !bool_decide_eq_false_2 by lia. lia.
Qed.

Lemma utf8_length v : slen (utf8 v).1 ≤ 4 ∧ (v < 65536 → slen (utf8 v).1 ≤ 3).
Proof. unfold utf8. repeat case_match; cbn; lia. Qed.

(** A well-formed escape sequence begins with [\u]. *)
Lemma escape_hex p l : 0 ≤ p ≤ slen t → drop (Z.to_nat p) t = 92 :: 117 :: l → escapes_ok (92 :: 117 :: l) = true → ∃ a b c d l',
  l = a :: b :: c :: d :: l' ∧ forallb (λ x, bool_decide (is_Some (xdigit x))) [a; b; c; d] = true ∧
  drop (Z.to_nat (p + 2)) t = l ∧ drop (Z.to_nat (p + 6)) t = l' ∧ ok (p + 6) ∧ room_of (92 :: 117 :: l) = 5 + room_of l'.
Proof.
  intros Hp E He. destruct l as [|a [|b [|c [|d l']]]]; try done. exists a, b, c, d, l'. rewrite escapes_hex in He.
  apply andb_true_iff in He as [Hh He]. pose proof (drop_more p 2 [92; 117] _ Hp E eq_refl) as [E2 _].
  pose proof (drop_more p 6 [92; 117; a; b; c; d] l' Hp E eq_refl) as [E6 Hle].
  do 4 (split; [done|]). split; [split; [lia|by rewrite E6]|by apply room_hex].
Qed.

(** Writing the bytes of a character that an escape sequence stands for. *)
Lemma put_utf8 len out v uc2 ptr q l' lo :
  slen (utf8 v).1 ≤ 4 → ok (ptr + 1) → drop (Z.to_nat (ptr + 1)) t = l' → q ≤ ptr → slen out + slen (utf8 v).1 + room_of l' ≤ len → lo = q →
  returns (let! out := store_text len out (utf8 v).1 in Ret (ptr, out, Some (utf8 v).2, uc2))
    (λ y, let '(ptr, out, uc, uc2) := y in lo ≤ ptr ∧ fits_in len (ptr + 1, out, uc, uc2)).
Proof.
  intros _ Hok E Hq Hlen ->. pose proof (room_of_nonneg l'). rewrite put_ok by lia. cbn [mbind outcome_bind returns].
  split; [done|]. split; [done|]. rewrite E, length_app. lia.
Qed.

Lemma transcode_ok len p out uc uc2 l :
  0 ≤ p ≤ slen t → drop (Z.to_nat p) t = 92 :: 117 :: l → escapes_ok (92 :: 117 :: l) = true → slen out + room_of (92 :: 117 :: l) ≤ len →
  returns (transcode s len (p + 1, out, uc, uc2)) (λ y, let '(ptr, out, uc, uc2) := y in p + 5 ≤ ptr ∧ fits_in len (ptr + 1, out, uc, uc2)).
Proof.
  intros Hp E He Hroom. destruct (escape_hex p l Hp E He) as (a & b & c & d & l' & -> & Hh & E2 & E6 & Hok & Er). rewrite Er in Hroom.
  unfold transcode. replace (p + 1 + 1) with (p + 2) by lia.
  destruct (scan_hex (p + 2) uc a b c d l' ltac:(lia) E2 Hh) as (v & Hv & ->). cbn [mbind outcome_bind]. replace (p + 1 + 4) with (p + 5) by lia.
  pose proof (room_of_nonneg l') as Hnn. replace (p + 6) with (p + 5 + 1) in * by lia.
  assert (∀ u1 u2, p + 5 ≤ p + 5 ∧ fits_in len (p + 5 + 1, out, u1, u2)) as Hstop by (intros; split; [done|]; split; [done|]; rewrite E6; lia).
  destruct (_ || _); [apply Hstop|]. destruct (_ && _).
  - destruct (ok_cases _ (proj1 Hok)) as [(_ & -> & _)|(Hlt & x & l2 & -> & _ & El & El1)]; cbn [mbind outcome_bind]; [apply Hstop|].
    case_bool_decide as Ex; [apply Hstop|]. assert (x = 92) as -> by (destruct (decide (x = 92)); done).
    replace (p + 5 + 2) with (p + 5 + 1 + 1) by lia.
    destruct (ok_cases (p + 5 + 1 + 1) ltac:(lia)) as [(_ & -> & _)|(_ & y & l3 & -> & _ & Ey & _)]; cbn [mbind outcome_bind]; [apply Hstop|].
    case_bool_decide as E117; [apply Hstop|]. assert (y = 117) as -> by (destruct (decide (y = 117)); done).
    assert (l2 = 117 :: l3) as -> by congruence. assert (l' = 92 :: 117 :: l3) as -> by congruence. destruct Hok as [Hp6 Hok6]. rewrite El in Hok6.
    destruct (escape_hex _ _ Hp6 El Hok6) as (a' & b' & c' & d' & l'' & -> & Hh' & E2' & E6' & Hok' & Er').
    replace (p + 5 + 3) with (p + 5 + 1 + 2) by lia. destruct (scan_hex (p + 5 + 1 + 2) uc2 _ _ _ _ _ ltac:(lia) E2' Hh') as (v2 & Hv2 & ->). cbn [mbind outcome_bind].
    replace (p + 5 + 1 + 6) with (p + 5 + 6 + 1) in * by lia. rewrite Er' in Hroom.
    destruct (_ || _); [split; [lia|split; [done|rewrite E6'; pose proof (room_of_nonneg l''); lia]]|].
    pose proof (proj1 (utf8_length (Z.lor 65536 (Z.lor (Z.shiftl (Z.land v 1023) 10) (Z.land v2 1023))))).
    eapply (put_utf8 len out _ _ (p + 5 + 6) (p + 5) l''); try done; lia.
  - pose proof (utf8_length v) as [H4 _]. by eapply (put_utf8 len out v _ (p + 5) (p + 5) l'); try lia.
Qed.

Lemma string_step_ok len x : fits_in len x →
  returns (string_step s len x) (λ y, match y with
    | inl x' => fits_in len x' ∧ x.1.1.1 < x'.1.1.1
    | inr x' => x' = x
    end).
Proof.
  destruct x as [[[p out] uc] uc2]. intros [Hok Hroom]. unfold string_step.
  destruct Hok as [Hp He]. destruct (ok_cases p Hp) as [(-> & -> & _)|(Hlt & c & l & -> & Hc & E & E1)]; cbn [mbind outcome_bind]; [done|].
  case_bool_decide as Eq; [done|]. rewrite E in *. case_bool_decide as E92.
  { cbn [room_of escapes_ok] in *. rewrite !bool_decide_eq_false_2 in Hroom by lia. rewrite bool_decide_eq_false_2 in He by lia.
    pose proof (room_of_nonneg l). rewrite put_ok by (cbn [length]; lia). cbn [mbind outcome_bind returns fst]. split; [|lia].
    split; [split; [lia|by rewrite E1]|]. rewrite E1, length_app. cbn [length]. lia. }
  assert (c = 92) as -> by (destruct (decide (c = 92)); done).
  destruct (ok_cases (p + 1) ltac:(lia)) as [(_ & _ & E0)|(Hlt1 & e & l' & -> & He0 & Ee & E2)].
  { rewrite E0 in E1. subst l. done. }
  assert (l = e :: l') as -> by congruence. cbn [mbind outcome_bind]. case_bool_decide as E117.
  - subst e. run (transcode_ok len p out uc uc2 l'); [done..|]. intros [[[ptr o] u] u2] [Hle Hf]. cbn [returns fst]. split; [done|lia].
  - cbn [room_of escapes_ok] in *. rewrite bool_decide_eq_true_2 in He by done. rewrite (bool_decide_eq_true_2 (92 = 92)) in Hroom by done.
    rewrite bool_decide_eq_false_2 in Hroom, He by lia. pose proof (room_of_nonneg l').
    rewrite put_ok by (cbn [length]; lia). cbn [mbind outcome_bind returns fst]. split; [|lia]. replace (p + 1 + 1) with (p + 2) in * by lia.
    split; [split; [lia|by rewrite E2]|]. rewrite E2, length_app. cbn [length]. lia.
Qed.

Lemma room_ok p : ok (p + 1) → 0 ≤ p → string_room s p = Ret (room_of (drop (Z.to_nat (p + 1)) t)).
Proof.
  intros Hok Hp. unfold string_room. set (q := p + 1) in *.
  assert (returns (loop (S (length s)) (room_step s) (q, 0))
    (λ n, n = room_of (drop (Z.to_nat q) t))) as Hr.
  - apply (loop_returns (λ x, ok x.1 ∧ x.2 + room_of (drop (Z.to_nat x.1) t) = room_of (drop (Z.to_nat q) t)) (λ x, Z.to_nat (slen t - x.1))).
    + intros [r n] [[Hr He] Hn]. unfold room_step. cbn [fst snd] in *. destruct (ok_cases r Hr) as [(-> & -> & E)|(Hlt & c & l & -> & Hc & E & E1)]; cbn [mbind outcome_bind].
      * rewrite bool_decide_eq_true_2 by lia. cbn [returns]. rewrite E in Hn. cbn [room_of] in Hn. lia.
      * rewrite E in Hn, He. case_bool_decide as Ec; cbn [returns].
        { destruct Ec as [->|]; [|done]. cbn [room_of] in Hn. rewrite bool_decide_eq_true_2 in Hn by done. lia. }
        cbn [room_of escapes_ok fst snd] in *. rewrite (bool_decide_eq_false_2 (c = 34)) in Hn by lia. case_bool_decide as E92.
        -- subst c. destruct l as [|e l]; [done|]. destruct (drop_more r 2 [92; e] l ltac:(lia) E eq_refl) as [E2 Hle].
           split; [|lia]. unfold ok. rewrite E2. split; [|lia]. split; [lia|]. case_bool_decide as E117; [|done].
           destruct l as [|a' [|b' [|c' [|d' l]]]]; try done. apply andb_true_iff in He as [Hh He].
           cbn [forallb] in Hh. rewrite !andb_true_iff, !bool_decide_eq_true in Hh.
           destruct Hh as ([v1 H1%hex_digit_Some] & [v2 H2%hex_digit_Some] & [v3 H3%hex_digit_Some] & [v4 H4%hex_digit_Some] & _).
           cbn [escapes_ok]. by rewrite !bool_decide_eq_false_2 by lia.
        -- split; [|lia]. unfold ok. rewrite E1. split; [|lia]. split; [lia|done].
    + split; [done|]. cbn [fst snd]. lia.
    + destruct Hok. cbn [fst]. rewrite length_app. cbn [length]. lia.
  - by apply returns_eq in Hr as (n & -> & ->).
Qed.

Lemma parse_string_ok p : ok p → returns (parse_string s p) (λ r, match r with Some (_, q) => p ≤ q ∧ ok q | None => True end).
Proof.
  intros Hp. unfold parse_string. destruct (ok_char p Hp) as (c & -> & H0 & Hn). cbn [mbind outcome_bind]. case_bool_decide as Ec; [done|].
  assert (c = 34) as -> by (destruct (decide (c = 34)); done). specialize (Hn ltac:(lia) ltac:(lia)). destruct Hp as [Hp _].
  rewrite room_ok by (done || lia). cbn [mbind outcome_bind]. set (len := room_of _). apply returns_bind.
  eapply (returns_mono _ (λ x, fits_in len x ∧ p ≤ x.1.1.1)).
  - apply (loop_returns (λ x, fits_in len x ∧ p ≤ x.1.1.1) (λ x, Z.to_nat (slen t - x.1.1.1))).
    + intros x [Hx Hle]. eapply returns_mono; [by apply string_step_ok|]. intros [y|y]; [|intros ->; by split].
      intros [Hy Hlt]. split; [split; [done|lia]|]. destruct x as [[[q o] u] u2], y as [[[q' o'] u'] u2']. destruct Hx as [[] _], Hy as [[] _].
      cbn [fst snd] in *. lia.
    + split; [|cbn [fst]; lia]. split; [done|]. cbn [length]. fold len. lia.
    + destruct Hn. rewrite length_app. cbn [fst length]. lia.
  - intros [[[q o] u] u2] [[Hq Hroom] Hle]. cbn [fst] in Hle. pose proof (room_of_nonneg (drop (Z.to_nat q) t)).
    rewrite put_ok by (cbn [length]; lia). cbn [mbind outcome_bind]. destruct (ok_char q Hq) as (c & -> & H0' & Hn'). cbn [mbind outcome_bind returns].
    case_bool_decide as E; [|done]. split; [lia|]. apply Hn'; lia.
Qed.

Lemma parse_number_ok p : ok p → Value_at pow s p → mostly (number_overflows pow s) (parse_number pow s p) (λ r, p ≤ r.2 ∧ ok r.2).
Proof.
  intros Hp Hat. pose proof (number_value_ok p Hp) as Hv.
  destruct (parse_number pow s p) as [r| |] eqn:E; unfold parse_number in E;
    destruct (number_value pow s p) as [[n q]| |] eqn:En; cbn [mostly mbind outcome_bind fst snd] in *; try done.
  - destruct (to_int n); [|done..]. cbn [mbind outcome_bind] in E. by injection E as <-.
  - exists p. split; [done|]. split; [unfold parse_number; by rewrite En|]. left. exists n, q. split; [done|].
    by destruct (to_int n).
  - exists p. split; [done|]. split; [unfold parse_number; by rewrite En|]. by right.
  - destruct n as [| | |sg m e]; cbn in E; try done. unfold in_s32 in E. by case_bool_decide.
Qed.

(** The end of a value behind [p]. *)
Definition value_end (p : Z) (r : option (cJSON * Z)) : Prop := match r with Some (_, q) => p ≤ q ∧ ok q | None => True end.

(** [skip], then the character there. *)
Lemma skip_char p : ok p → ∃ q c, skip s p = Ret q ∧ p ≤ q ∧ ok q ∧ aget s q = Ret c ∧ (c ≠ 0 → c ≠ 92 → ok (q + 1)).
Proof.
  intros Hp. pose proof (skip_ok p Hp) as (q & E & Hle & Hq)%returns_eq. destruct (ok_char q Hq) as (c & Ec & _ & Hn). by exists q, c.
Qed.

Abbreviation mostly_end m p := (mostly (number_overflows pow s) m (value_end p)).

Lemma value_end_mono m p q : mostly_end m q → p ≤ q → mostly_end m p.
Proof. intros Hm Hle. eapply mostly_mono; [exact Hm|done|]. intros [[v r]|]; [|done]. intros [? ?]. split; [lia|done]. Qed.

(** The three parsers with enough fuel at [p]. *)
Definition value_good (fuel : nat) : Prop :=
  ∀ p, ok p → Value_at pow s p → 2 * (slen t - p) + 1 ≤ Z.of_nat fuel → mostly_end (parse_value pow s fuel p) p.
Definition array_good (fuel : nat) : Prop :=
  ∀ p child, ok p → Elements_at pow s p → 2 * (slen t - p) + 2 ≤ Z.of_nat fuel → mostly_end (parse_array pow s fuel p child) p.
Definition object_good (fuel : nat) : Prop :=
  ∀ p child, ok p → Members_at pow s p → 2 * (slen t - p) + 2 ≤ Z.of_nat fuel → mostly_end (parse_object pow s fuel p child) p.

Lemma value_total fuel : array_good fuel → object_good fuel → value_good (S fuel).
Proof.
  intros IHa IHo p Hp Hat Hf. cbn [parse_value]. set (null := str "null"). set (no := str "false"). set (yes := str "true").
  pose proof (λ l H1 H2, starts_ok l p Hp H1 H2) as Hs.
  destruct (proj1 (returns_eq _ _) (Hs null ltac:(by apply (bool_decide_unpack _)) ltac:(by apply (bool_decide_unpack _)))) as (b1 & -> & H1). cbn [mbind outcome_bind].
  destruct b1; [split; [lia|by apply H1]|].
  destruct (proj1 (returns_eq _ _) (Hs no ltac:(by apply (bool_decide_unpack _)) ltac:(by apply (bool_decide_unpack _)))) as (b2 & -> & H2). cbn [mbind outcome_bind].
  destruct b2; [split; [lia|by apply H2]|].
  destruct (proj1 (returns_eq _ _) (Hs yes ltac:(by apply (bool_decide_unpack _)) ltac:(by apply (bool_decide_unpack _)))) as (b3 & -> & H3). cbn [mbind outcome_bind].
  destruct b3; [split; [lia|by apply H3]|]. clear Hs H1 H2 H3.
  destruct (ok_char p Hp) as (c & Ec & _ & Hn). rewrite Ec. cbn [mbind outcome_bind].
  case_bool_decide as E34.
  { apply mostly_returns. run (parse_string_ok p Hp). intros [[o q]|]; cbn; done. }
  destruct (_ || _).
  { eapply mostly_bind; [by apply parse_number_ok|]. intros [v q] Hq. done. }
  assert (∀ (k e : Z) v m, k ≠ 0 → k ≠ 92 → e ≠ 0 → e ≠ 92 → c = k →
    (∀ q c, ok q → p < q → skip s (p + 1) = Ret q → aget s q = Ret c → c ≠ e → mostly_end (m q) q) →
    mostly_end (let! q := skip s (p + 1) in let! c := aget s q in if bool_decide (c = e) then Ret (Some (v, q + 1)) else m q) p) as Hk.
  { intros k e v m ? ? ? ? -> Hm. destruct (skip_char (p + 1) (Hn ltac:(done) ltac:(done))) as (q & c' & Es & Hle & Hq & Ec' & Hnq).
    rewrite Es. cbn [mbind outcome_bind]. rewrite Ec'. cbn [mbind outcome_bind]. case_bool_decide as Ee; [|apply (value_end_mono _ _ q); [by apply (Hm q c'); [|lia|..]|lia]].
    cbn [mostly value_end]. split; [lia|]. apply Hnq; lia. }
  case_bool_decide as E91.
  { eapply (Hk 91); [lia..|]. intros q c' Hq Hlt Es Ec' Hne. apply IHa; [done| |lia]. subst c. by eapply elements_first. }
  case_bool_decide as E123; [|done]. eapply (Hk 123); [lia..|]. intros q c' Hq Hlt Es Ec' Hne. apply IHo; [done| |lia]. subst c. by eapply members_first.
Qed.

(** What follows an element: a comma and more of them, or the end. *)
Lemma next_total p q e v m :
  ok q → p ≤ q → e ≠ 0 → e ≠ 92 →
  (∀ r, skip s q = Ret r → aget s r = Ret 44 → ok (r + 1) → q < r + 1 → mostly_end (m (r + 1)) (r + 1)) →
  mostly_end (let! q := skip s q in let! c := aget s q in
              if bool_decide (c = 44) then m (q + 1) else if bool_decide (c = e) then Ret (Some (v, q + 1)) else Ret None) p.
Proof.
  intros Hq Hle He1 He2 Hm. destruct (skip_char q Hq) as (r & c & Es & Hle' & Hr & Ec & Hn). rewrite Es. cbn [mbind outcome_bind]. rewrite Ec. cbn [mbind outcome_bind].
  case_bool_decide as E44; [subst c; apply (value_end_mono _ _ (r + 1)); [apply Hm; [done|done|apply Hn; lia|lia]|lia]|].
  case_bool_decide as Ee; [|done]. split; [lia|]. apply Hn; lia.
Qed.

Lemma array_total fuel : value_good fuel → array_good fuel → array_good (S fuel).
Proof.
  intros IHv IHa p child Hp Hat Hf. cbn [parse_array]. fold (parse_value pow s). destruct (skip_char p Hp) as (q & _ & Es & Hle & Hq & _). rewrite Es. cbn [mbind outcome_bind].
  pose proof (IHv q Hq (value_element _ _ p q Hat Es) ltac:(lia)) as Hv.
  destruct (parse_value pow s fuel q) as [[[v r]|]| |] eqn:Ev; cbn [mostly mbind outcome_bind value_end] in *; try done. destruct Hv as [Hle' Hr].
  apply (next_total p r 93 (cJSON_Array (child ++ [v])) (λ q, parse_array pow s fuel q (child ++ [v]))); [done|lia..|]. intros r' Es' Ec' Hr' Hlt. apply IHa; [done| |lia].
  apply (elements_next _ _ p q r'); [done|done|]. by exists fuel, v, r.
Qed.

Lemma object_total fuel : value_good fuel → object_good fuel → object_good (S fuel).
Proof.
  intros IHv IHo p child Hp Hat Hf. cbn [parse_object]. fold (parse_value pow s). destruct (skip_char p Hp) as (q & _ & Es & Hle & Hq & _). rewrite Es. cbn [mbind outcome_bind].
  pose proof (parse_string_ok q Hq) as Hs. destruct (parse_string s q) as [[[name r]|]| |] eqn:En; cbn [returns mbind outcome_bind] in *; try done.
  destruct Hs as [Hle' Hr]. destruct (skip_char r Hr) as (r1 & c & Es1 & Hle1 & Hr1 & Ec & Hn). rewrite Es1. cbn [mbind outcome_bind]. rewrite Ec. cbn [mbind outcome_bind]. case_bool_decide as E; [done|].
  assert (c = 58) as -> by (destruct (decide (c = 58)); done).
  destruct (skip_char (r1 + 1) (Hn ltac:(lia) ltac:(lia))) as (r2 & _ & Es2 & Hle2 & Hr2 & _). rewrite Es2. cbn [mbind outcome_bind].
  assert (name_before s p r2) as Hname by (exists q, name, r, r1; by split_and!).
  pose proof (IHv r2 Hr2 (value_member _ _ p r2 Hat Hname) ltac:(lia)) as Hv.
  destruct (parse_value pow s fuel r2) as [[[v r3]|]| |] eqn:Ev; cbn [mostly mbind outcome_bind value_end] in *; try done. destruct Hv as [Hle3 Hr3].
  apply (next_total p r3 125 (cJSON_Object (child ++ [(name, v)])) (λ q, parse_object pow s fuel q (child ++ [(name, v)]))); [done|lia..|]. intros r' Es' Ec' Hr' Hlt. apply IHo; [done| |lia].
  apply (members_next _ _ p r2 r'); [done|done|]. by exists fuel, v, r3.
Qed.

Lemma parse_total fuel : value_good fuel ∧ array_good fuel ∧ object_good fuel.
Proof.
  induction fuel as [|fuel (IHv & IHa & IHo)].
  - split_and!; intros p; intros; match goal with H : ok p |- _ => destruct H as [[] _] end; lia.
  - split_and!; [by apply value_total|by apply array_total|by apply object_total].
Qed.
End safety.

(** *** Any text: parsing ends *)
Section ends.
Context (pow : double → double → double) (s : list Z).

Lemma aget_any p : mostly True (aget s p) (λ _, 0 ≤ p < slen s).
Proof. unfold aget. case_bool_decide; [|done]. destruct (s !! Z.to_nat p) eqn:E; [|done]. apply lookup_lt_Some in E. cbn. lia. Qed.

Lemma aget_bind {A} p (k : Z → outcome A) (Q : A → Prop) : (∀ c, 0 ≤ p < slen s → mostly True (k c) Q) → mostly True (aget s p ≫= k) Q.
Proof. intros Hk. eapply mostly_bind; [apply aget_any|cbv beta]. intros c Hc. by apply Hk. Qed.

(** A loop that moves forward. *)
Lemma loop_ends {S R} (pos : S → Z) (step : S → outcome (S + R)) (Q : R → Prop) (x : S) :
  (∀ y, pos x ≤ pos y → mostly True (step y) (λ r, match r with inl z => pos y < pos z ∧ pos y < slen s | inr r => Q r end)) →
  0 ≤ pos x → mostly True (loop (Datatypes.S (length s)) step x) Q.
Proof.
  intros Hstep Hx. apply (loop_mostly True (λ y, pos x ≤ pos y) (λ y, Z.to_nat (slen s - pos y))).
  - intros y Hy. eapply mostly_mono; [by apply Hstep|done|cbv beta]. intros [z|r]; [|done]. intros [? ?]. split; [lia|lia].
  - lia.
  - lia.
Qed.

Lemma skip_ends p : 0 ≤ p → mostly True (skip s p) (λ q, p ≤ q < slen s).
Proof.
  intros Hp. apply (loop_ends (λ q : Z, q)); [|done]. intros q Hq. apply aget_bind. intros c Hc.
  destruct (_ && _); cbn in *; lia.
Qed.

Lemma starts_ends l p : mostly True (starts s p l) (λ b, b = true → p + slen l ≤ slen s ∨ l = []).
Proof.
  revert p. induction l as [|x l IH]; intros p; [cbn; auto|]. cbn [starts]. apply aget_bind. intros c Hc.
  case_bool_decide; [|done]. eapply mostly_mono; [apply IH|done|cbv beta]. intros b Hb Et. left. specialize (Hb Et). cbn [length]. destruct Hb as [?| ->]; cbn [length] in *; lia.
Qed.

Lemma digits_ends {A} (f : A → Z → outcome A) a p : (∀ a d, mostly True (f a d) (λ _, True)) → 0 ≤ p → mostly True (digits_loop s f a p) (λ r, p ≤ r.2).
Proof.
  intros Hf Hp. apply (loop_ends snd); [|done]. intros [b q] Hq. cbn [snd] in *. apply aget_bind. intros c Hc.
  destruct (isdigit c); [|cbn; lia]. eapply mostly_bind; [apply Hf|cbv beta]. intros b' _. cbn. lia.
Qed.

Lemma number_value_ends p : 0 ≤ p → mostly True (number_value pow s p) (λ r, p ≤ r.2).
Proof.
  intros Hp. unfold number_value. apply aget_bind. intros c _.
  assert (∃ sg p1, (if bool_decide (c = 45) then (of_int (-1), p + 1) else (of_int 1, p)) = (sg, p1) ∧ p ≤ p1) as (sg & p1 & -> & H1) by (case_bool_decide; eexists _, _; (split; [done|lia])).
  apply aget_bind. intros c1 _. assert (p1 ≤ if bool_decide (c1 = 48) then p1 + 1 else p1) as H2 by (case_bool_decide; lia).
  set (p2 := if bool_decide (c1 = 48) then p1 + 1 else p1) in *. apply aget_bind. intros c2 _.
  eapply (mostly_bind _ _ _ (λ r, p2 ≤ r.2)); [destruct (_ && _); [apply digits_ends; [done|lia]|cbn; lia]|cbv beta]. intros [n p3] H3. cbn [snd] in *.
  apply aget_bind. intros c3 _.
  eapply (mostly_bind _ _ _ (λ r, p3 ≤ r.2)).
  { case_bool_decide; [|cbn; lia]. apply aget_bind. intros d _. destruct (isdigit d); [|cbn; lia].
    eapply mostly_mono; [apply digits_ends; [done|lia]|done|cbv beta]. intros r Hr. lia. }
  intros [[n' scale] p4] H4. cbn [snd] in *. apply aget_bind. intros c4 _.
  eapply (mostly_bind _ _ _ (λ r, p4 ≤ r.2)); [|intros [[? ?] ?] Hr; cbn in *; lia].
  case_bool_decide; [|cbn; lia]. apply aget_bind. intros c5 _.
  assert (∃ sg5 p5, (if bool_decide (c5 = 43) then (1, p4 + 2) else if bool_decide (c5 = 45) then (-1, p4 + 2) else (1, p4 + 1)) = (sg5, p5) ∧ p4 ≤ p5) as (sg5 & p5 & -> & H5)
    by (repeat case_bool_decide; eexists _, _; (split; [done|lia])).
  eapply mostly_bind; [apply digits_ends; [|lia]|]; [intros; unfold exponent_of, in_s32; by case_bool_decide|cbv beta]. intros r Hr. cbn. lia.
Qed.

Lemma parse_number_ends p : 0 ≤ p → mostly True (parse_number pow s p) (λ r, p ≤ r.2).
Proof.
  intros Hp. unfold parse_number. eapply mostly_bind; [by apply number_value_ends|cbv beta]. intros r Hr.
  assert (mostly True (to_int r.1) (λ _, True)) as Hi by (unfold to_int, in_s32; repeat case_match; done).
  eapply mostly_bind; [exact Hi|cbv beta]. intros i _. exact Hr.
Qed.

Lemma store_any len out t : mostly True (store_text len out t) (λ _, True).
Proof. unfold store_text. by case_match. Qed.
Lemma scan_any p uc : mostly True (scan_4x s p uc) (λ _, True).
Proof. unfold scan_4x. by case_bool_decide. Qed.

Lemma transcode_ends len p out uc uc2 : mostly True (transcode s len (p, out, uc, uc2)) (λ y, p < y.1.1.1).
Proof.
  unfold transcode. eapply mostly_bind; [apply scan_any|cbv beta]. intros [v|] _; [|done]. destruct (_ || _); [cbn; lia|]. destruct (_ && _).
  - apply aget_bind. intros a _. case_bool_decide; [cbn; lia|]. apply aget_bind. intros b _.
    case_bool_decide; [cbn; lia|]. eapply mostly_bind; [apply scan_any|cbv beta]. intros [v2|] _; [|done]. destruct (_ || _); [cbn; lia|].
    eapply mostly_bind; [apply store_any|cbv beta]. intros o _. cbn. lia.
  - eapply mostly_bind; [apply store_any|cbv beta]. intros o _. cbn. lia.
Qed.

Lemma parse_string_ends p : 0 ≤ p → mostly True (parse_string s p) (λ r, match r with Some x => p < x.2 | None => True end).
Proof.
  intros Hp. unfold parse_string. apply aget_bind. intros c _. case_bool_decide; [done|].
  eapply (mostly_bind _ _ _ (λ _, True)).
  { apply (loop_ends fst); [|cbn; lia]. intros [q n] Hq. unfold room_step. cbn [fst] in *. apply aget_bind. intros c' Hc'.
    case_bool_decide; [done|]. cbn. case_bool_decide; lia. }
  intros len _. eapply (mostly_bind _ _ _ (λ x, p + 1 ≤ x.1.1.1)).
  { apply (loop_ends (λ x : Z * list Z * option Z * option Z, x.1.1.1)); [|cbn; lia]. intros [[[q o] uc] uc2] Hq. unfold string_step. cbn [fst] in *.
    apply aget_bind. intros c' Hc'. case_bool_decide; [cbn; lia|]. case_bool_decide.
    { eapply mostly_bind; [apply store_any|cbv beta]. intros o' _. cbn. lia. }
    apply aget_bind. intros e _. case_bool_decide.
    - eapply mostly_bind; [apply transcode_ends|cbv beta]. intros [[[q' o'] u] u2] Hq'. cbn in *. lia.
    - eapply mostly_bind; [apply store_any|cbv beta]. intros o' _. cbn. lia. }
  intros [[[q o] uc] uc2] Hq. cbn [fst] in Hq. eapply mostly_bind; [apply store_any|cbv beta]. intros o' _. apply aget_bind. intros c' _.
  cbn. case_bool_decide; lia.
Qed.

(** *** Values: each of the three parsers, with enough fuel *)
Definition ends (m : outcome (option (cJSON * Z))) (p : Z) : Prop :=
  mostly True m (λ r, match r with Some x => p ≤ x.2 | None => True end).

Definition value_ends (fuel : nat) : Prop := ∀ p, 0 ≤ p → 1 ≤ Z.of_nat fuel → 2 * (slen s - 1 - p) + 1 ≤ Z.of_nat fuel → ends (parse_value pow s fuel p) p.
Definition array_ends (fuel : nat) : Prop := ∀ p child, 0 ≤ p → 1 ≤ Z.of_nat fuel → 2 * (slen s - 1 - p) + 2 ≤ Z.of_nat fuel → ends (parse_array pow s fuel p child) p.
Definition object_ends (fuel : nat) : Prop := ∀ p child, 0 ≤ p → 1 ≤ Z.of_nat fuel → 2 * (slen s - 1 - p) + 2 ≤ Z.of_nat fuel → ends (parse_object pow s fuel p child) p.

Lemma ends_mono m p q : ends m q → p ≤ q → ends m p.
Proof. intros Hm Hle. eapply mostly_mono; [exact Hm|done|cbv beta]. intros [x|]; [|done]. lia. Qed.

Lemma value_end_all fuel : array_ends fuel → object_ends fuel → value_ends (S fuel).
Proof.
  intros IHa IHo p Hp _ Hf. cbn [parse_value]. fold (parse_array pow s). fold (parse_object pow s).
  do 3 (eapply mostly_bind; [apply starts_ends|cbv beta]; intros []; [intros _; cbn; lia|intros _]).
  apply aget_bind. intros c Hc. case_bool_decide.
  { eapply mostly_bind; [by apply parse_string_ends|cbv beta]. intros [[o q]|] Hq; cbn in *; [lia|done]. }
  destruct (_ || _); [eapply mostly_bind; [by apply parse_number_ends|cbv beta]; intros [v q] Hq; exact Hq|].
  assert (∀ (e : Z) v m, (∀ q, p < q < slen s → ends (m q) q) →
    ends (let! q := skip s (p + 1) in let! c := aget s q in if bool_decide (c = e) then Ret (Some (v, q + 1)) else m q) p) as Hk.
  { intros e v m Hm. eapply mostly_bind; [apply skip_ends; lia|cbv beta]. intros q Hq. apply aget_bind. intros c' _.
    case_bool_decide; [cbn; lia|]. eapply ends_mono; [apply Hm; lia|lia]. }
  case_bool_decide; [apply Hk; intros q Hq; apply IHa; lia|]. case_bool_decide; [|done]. apply Hk. intros q Hq. apply IHo; lia.
Qed.

Lemma next_ends p q e v m : 0 ≤ q → p ≤ q → (∀ q', q < q' → q < slen s → ends (m q') q') →
  ends (let! q := skip s q in let! c := aget s q in if bool_decide (c = 44) then m (q + 1) else if bool_decide (c = e) then Ret (Some (v, q + 1)) else Ret None) p.
Proof.
  intros Hq Hle Hm. eapply mostly_bind; [by apply skip_ends|cbv beta]. intros r Hr. apply aget_bind. intros c Hc.
  case_bool_decide; [eapply ends_mono; [apply Hm; lia|lia]|]. case_bool_decide; [cbn; lia|done].
Qed.

Lemma array_end_all fuel : value_ends fuel → array_ends fuel → array_ends (S fuel).
Proof.
  intros IHv IHa p child Hp H2 Hf. cbn [parse_array]. fold (parse_value pow s). eapply mostly_bind; [by apply skip_ends|cbv beta]. intros q Hq.
  eapply mostly_bind; [apply IHv; lia|cbv beta]. intros [[v r]|] Hr; [|done]. cbn [snd] in Hr.
  apply (next_ends p r 93 (cJSON_Array (child ++ [v])) (λ q, parse_array pow s fuel q (child ++ [v]))); [lia|lia|cbv beta]. intros q' Hlt Hs. apply IHa; lia.
Qed.

Lemma object_end_all fuel : value_ends fuel → object_ends fuel → object_ends (S fuel).
Proof.
  intros IHv IHo p child Hp H2 Hf. cbn [parse_object]. fold (parse_value pow s). eapply mostly_bind; [by apply skip_ends|cbv beta]. intros q Hq.
  eapply mostly_bind; [apply parse_string_ends; lia|cbv beta]. intros [[name r]|] Hr; [|done]. cbn [snd] in Hr.
  eapply mostly_bind; [apply skip_ends; lia|cbv beta]. intros r1 Hr1. apply aget_bind. intros c _. case_bool_decide; [done|].
  eapply mostly_bind; [apply skip_ends; lia|cbv beta]. intros r2 Hr2. eapply mostly_bind; [apply IHv; lia|cbv beta]. intros [[v r3]|] Hr3; [|done]. cbn [snd] in Hr3.
  apply (next_ends p r3 125 (cJSON_Object (child ++ [(name, v)])) (λ q, parse_object pow s fuel q (child ++ [(name, v)]))); [lia|lia|cbv beta]. intros q' Hlt Hs. apply IHo; lia.
Qed.

Lemma parse_ends fuel : value_ends fuel ∧ array_ends fuel ∧ object_ends fuel.
Proof.
  induction fuel as [|fuel (IHv & IHa & IHo)]; [split_and!; intros p; intros; lia|].
  split_and!; [by apply value_end_all|by apply array_end_all|by apply object_end_all].
Qed.
End ends.

Lemma cJSON_Parse_ends pow text : mostly True (cJSON_Parse pow text) (λ _, True).
Proof.
  unfold cJSON_Parse. eapply mostly_bind; [by apply skip_ends|cbv beta]. intros p Hp. eapply mostly_bind; [|done].
  apply (proj1 (parse_ends pow (c_string text ++ [0]) _)); [lia|rewrite length_app; cbn [length]; lia|lia].
Qed.

(** C31 (safety).  [cJSON_Parse] ends on every text.  If the escape sequences of the
    text are complete (every backslash is followed by a character, and [\u] by four
    hexadecimal digits), it never reads outside of the text and never writes outside of
    the blocks that it allocates, whatever else the text contains: it returns, unless
    one of the values that it reads ([Value_at], not a part of a string, of a longer
    number or behind the end) is a number that does not fit an [int], or whose exponent
    does not. *)
Theorem json_parse_safe (pow : double → double → double) (text : list Z) :
  cJSON_Parse pow text ≠ Loop ∧
  (escapes_ok (c_string text) = true → mostly (number_overflows pow (c_string text ++ [0])) (cJSON_Parse pow text) (λ _, True)).
Proof.
  split; [pose proof (cJSON_Parse_ends pow text) as He; by destruct (cJSON_Parse pow text)|]. intros Hesc.
  unfold cJSON_Parse. pose proof (c_string_no_nul text) as H0. assert (ok (c_string text) 0) as Hp by (split; [lia|done]).
  destruct (skip_char (c_string text) H0 0 Hp) as (q & _ & Es & Hle & Hq & _). rewrite Es. cbn [mbind outcome_bind].
  eapply mostly_bind; [|done]. apply (proj1 (parse_total pow (c_string text) H0 _) q Hq); [by apply value_first|].
  rewrite length_app. cbn [length]. lia.
Qed.

(** ** Lemmas: reading back a string *)

(** The characters that count one for the room: an escape sequence without its
    hexadecimal digits, or another character. *)
Definition unit_ok (u : list Z) : Prop := (∃ c, u = [c] ∧ c ≠ 0 ∧ c ≠ 34 ∧ c ≠ 92) ∨ (∃ c, u = [92; c]).
Definition units (c : Z) : list (list Z) :=
  match escape_char c with
  | [x] => [[x]]
  | x :: y :: l => [x; y] :: map (λ z, [z]) l
  | [] => []
  end.

Lemma hex_printed d : 0 ≤ d < 16 → xdigit (if d <? 10 then 48 + d else 87 + d) = Some d.
Proof.
  intros Hd. unfold xdigit, isdigit. destruct (Z.ltb_spec d 10).
  - rewrite !(proj2 (Z.leb_le _ _)) by lia. cbn [andb]. f_equal. lia.
  - rewrite (proj2 (Z.leb_gt (87 + d) 57)), andb_false_r by lia. rewrite !(proj2 (Z.leb_le _ _)) by lia. cbn [andb]. f_equal. lia.
Qed.

Lemma escape_cases c : is_char c →
  (escape_char c = [c] ∧ 31 < c ∧ c ≠ 34 ∧ c ≠ 92) ∨
  (∃ e, (c, e) ∈ [(92, 92); (34, 34); (8, 98); (12, 102); (10, 110); (13, 114); (9, 116)] ∧ escape_char c = [92; e]) ∨
  (1 ≤ c < 32 ∧ ∃ h1 h2, escape_char c = [92; 117; 48; 48; h1; h2] ∧ xdigit h1 = Some (c / 16) ∧ xdigit h2 = Some (c mod 16)).
Proof.
  intros Hc. unfold is_char in Hc. unfold escape_char. destruct (_ && _) eqn:E.
  { left. rewrite !andb_true_iff, !bool_decide_eq_true, Z.ltb_lt in E. naive_solver. }
  assert (c ≠ 34 → c ≠ 92 → c < 32) as Hlow.
  { intros ? ?. rewrite !bool_decide_eq_true_2, !andb_true_r, Z.ltb_ge in E by done. lia. }
  clear E. right. repeat (case_bool_decide; [left; subst c; eexists; split; [|done]; set_solver|]). right.
  assert (1 ≤ c < 32) as Hc' by (split; [lia|by apply Hlow]). split; [done|].
  eexists _, _. split; [done|]. split; [|by apply hex_printed, Z.mod_pos_bound].
  pose proof (hex_printed (c / 16)) as H16. assert (0 ≤ c / 16 < 2) as Hd by (clear - Hc'; dlia). rewrite (proj2 (Z.ltb_lt _ _)) in H16 by lia. apply H16. lia.
Qed.

Lemma escape_units c : is_char c → concat (units c) = escape_char c ∧ Forall unit_ok (units c) ∧ (1 ≤ length (units c) ≤ length (escape_char c))%nat.
Proof.
  intros Hc. unfold units. destruct (escape_cases c Hc) as [(-> & ? & ? & ?)|[(e & _ & ->)|(_ & h1 & h2 & -> & H1%hex_digit_Some & H2%hex_digit_Some)]].
  - split; [done|]. split; [|cbn; lia]. constructor; [|done]. left. exists c. split_and!; [done|lia..].
  - split; [done|]. split; [|cbn; lia]. constructor; [|done]. right. by exists e.
  - split; [done|]. split; [|cbn; lia]. cbn [map]. repeat apply Forall_cons_2; [|left; eexists; (split; [done|lia])..|done]. right. by eexists.
Qed.

Lemma escape_room_length c : is_char c → slen (escape_char c) = escape_room c.
Proof.
  intros Hc. unfold escape_room. destruct (escape_cases c Hc) as [(-> & ? & ? & ?)|[(e & Hin & ->)|(? & h1 & h2 & E & _)]].
  - rewrite bool_decide_eq_false_2; [|intros Hin; rewrite !elem_of_cons in Hin; set_unfold in Hin; lia]. by rewrite (proj2 (Z.ltb_ge _ _)) by lia.
  - rewrite bool_decide_eq_true_2; [done|]. set_unfold in Hin. set_unfold. naive_solver.
  - case_bool_decide as Hin; [|rewrite E; by rewrite (proj2 (Z.ltb_lt _ _)) by lia].
    exfalso. set_unfold in Hin. naive_solver.
Qed.

Lemma string_units cs : Forall is_char cs → ∃ us, concat us = concat (map escape_char cs) ∧ Forall unit_ok us ∧
  (length cs ≤ length us ≤ length (concat (map escape_char cs)))%nat.
Proof.
  induction 1 as [|c cs Hc _ (us & E & Hus & Hl)]; [by exists []|]. destruct (escape_units c Hc) as (Ec & Hu & Hlen).
  exists (units c ++ us). cbn [map concat length]. rewrite concat_app, Ec, E, !length_app. split; [done|]. split; [by apply Forall_app|lia].
Qed.

(** Reading the block [s] where the rest of the text is known. *)
Section at_text.
Context (s : list Z).
Abbreviation ahead p l := (0 ≤ p ∧ drop (Z.to_nat p) s = l).

Lemma at_get p c l : ahead p (c :: l) → aget s p = Ret c.
Proof. intros [Hp E]. by eapply aget_drop. Qed.

Lemma at_app p l1 l2 : ahead p (l1 ++ l2) → ahead (p + slen l1) l2.
Proof. intros [Hp E]. split; [lia|]. by apply drop_prefix. Qed.

Lemma at_cons p c l : ahead p (c :: l) → ahead (p + 1) l.
Proof. intros H. by apply (at_app p [c]). Qed.

Lemma at_length p l : ahead p l → l ≠ [] → p + slen l = slen s.
Proof. intros [Hp E] Hl. apply (f_equal length) in E. rewrite length_drop in E. destruct l as [|x l]; [done|]. cbn [length] in *. lia. Qed.

Lemma room_step_eq p n :
  room_step s (p, n) = let! c := aget s p in
    if bool_decide (c = 34 ∨ c = 0) then Ret (inr n) else Ret (inl (if bool_decide (c = 92) then p + 2 else p + 1, n + 1)).
Proof. done. Qed.

Lemma room_units us rest p n fuel :
  ahead p (concat us ++ 34 :: rest) → Forall unit_ok us → (length us < fuel)%nat →
  loop fuel (room_step s) (p, n)
  = Ret (n + slen us).
Proof.
  revert p n fuel. induction us as [|u us IH]; intros p n [|fuel] Hat Hus Hf; cbn [length] in Hf; try lia; rewrite loop_S, room_step_eq.
  - cbn [concat app] in Hat. rewrite (at_get _ _ _ Hat). cbn. by rewrite Z.add_0_r.
  - apply Forall_cons in Hus as [Hu Hus]. cbn [concat] in Hat. rewrite <-app_assoc in Hat. pose proof (at_app _ _ _ Hat) as Hat'.
    destruct Hu as [(c & -> & H0 & H34 & H92)|[c ->]]; cbn [app] in Hat; rewrite (at_get _ _ _ Hat); cbn [mbind outcome_bind].
    + rewrite !bool_decide_eq_false_2 by lia. cbn [mbind outcome_bind]. rewrite (IH (p + 1)) by (done || lia). f_equal. cbn [length]. lia.
    + rewrite bool_decide_eq_false_2, bool_decide_eq_true_2 by lia. cbn [mbind outcome_bind]. rewrite (IH (p + 2)) by (done || lia). f_equal. cbn [length]. lia.
Qed.

Lemma step_char c len p out uc uc2 rest :
  is_char c → ahead p (escape_char c ++ rest) → slen out < len →
  ∃ uc', string_step s len (p, out, uc, uc2) = Ret (inl (p + slen (escape_char c), out ++ [c], uc', uc2)).
Proof.
  intros Hc Hat Hlen. unfold string_step.
  assert (∀ x : Z, slen out + slen [x] ≤ len + 1) as Hput by (intros x; cbn [length]; lia).
  destruct (escape_cases c Hc) as [(E & ? & ? & ?)|[(e & Hin & E)|(Hr & h1 & h2 & E & H1 & H2)]]; rewrite E in *; cbn [app] in Hat; rewrite (at_get _ _ _ Hat); cbn [mbind outcome_bind].
  - rewrite bool_decide_eq_false_2, bool_decide_eq_true_2 by lia. rewrite put_ok by done. by eexists.
  - apply at_cons in Hat. rewrite (at_get _ _ _ Hat). cbn [mbind outcome_bind]. exists uc. rewrite !elem_of_cons in Hin.
    assert (unescape e = c ∧ e ≠ 117 ∧ is_char c) as (Eu & Ee & _).
    { destruct Hin as [?|[?|[?|[?|[?|[?|[?|Hin%elem_of_nil]]]]]]]; [..|done]; by simplify_eq. }
    rewrite (bool_decide_eq_false_2 (92 = 34 ∨ 92 = 0)), (bool_decide_eq_false_2 (92 ≠ 92)), bool_decide_eq_false_2 by lia.
    rewrite put_ok by done. cbn [mbind outcome_bind length]. by rewrite Eu.
  - apply at_cons in Hat. rewrite (at_get _ _ _ Hat). cbn [mbind outcome_bind]. apply at_cons in Hat.
    rewrite (bool_decide_eq_false_2 (92 = 34 ∨ 92 = 0)), (bool_decide_eq_false_2 (92 ≠ 92)), bool_decide_eq_true_2 by lia.
    assert (scan_4x s (p + 1 + 1) uc = Ret (Some c)) as Hscan.
    { unfold scan_4x. pose proof (at_length _ _ Hat ltac:(done)) as Hl. cbn [length] in Hl. rewrite bool_decide_eq_true_2 by lia. destruct Hat as [_ ->].
      pose proof (hex_digit_Some _ _ H1) as [? _]. pose proof (hex_digit_Some _ _ H2) as [? _].
      assert (c_string (48 :: 48 :: h1 :: h2 :: rest) = 48 :: 48 :: h1 :: h2 :: c_string rest) as ->.
      { apply (c_string_app [48; 48; h1; h2]). rewrite !not_elem_of_cons. split_and!; [lia..|apply not_elem_of_nil]. }
      rewrite (hex_value_4 _ _ _ _ _ 0 0 (c / 16) (c mod 16)) by done. do 2 f_equal. clear - Hr. dlia. }
    unfold transcode. rewrite Hscan. cbn [mbind outcome_bind]. exists (Some c).
    rewrite (proj2 (andb_false_iff _ _)) by (left; apply Z.leb_gt; lia). rewrite bool_decide_eq_false_2 by lia. cbn [orb].
    rewrite (proj2 (andb_false_iff _ _)) by (left; apply Z.leb_gt; lia). unfold utf8. rewrite (proj2 (Z.ltb_lt c 128)) by lia.
    cbn [fst snd]. rewrite u8_id by (unfold is_u8; lia). rewrite put_ok by done. cbn [mbind outcome_bind]. do 5 f_equal. cbn [length]. lia.
Qed.

Lemma string_loop cs len rest p out uc uc2 fuel :
  Forall is_char cs → ahead p (concat (map escape_char cs) ++ 34 :: rest) → slen out + slen cs ≤ len → (length cs < fuel)%nat →
  ∃ uc' uc2', loop fuel (string_step s len) (p, out, uc, uc2) = Ret (p + slen (concat (map escape_char cs)), out ++ cs, uc', uc2').
Proof.
  revert p out uc uc2 fuel. induction cs as [|c cs IH]; intros p out uc uc2 [|fuel] Hcs Hat Hlen Hf; cbn [length] in Hf; try lia; rewrite loop_S.
  - cbn [map concat app length] in *. unfold string_step. rewrite (at_get _ _ _ Hat). cbn. rewrite Z.add_0_r, app_nil_r. by eexists _, _.
  - apply Forall_cons in Hcs as [Hc Hcs]. cbn [map concat length] in *. rewrite <-app_assoc in Hat.
    destruct (step_char c len p out uc uc2 _ Hc Hat ltac:(lia)) as [uc' ->]. cbn [mbind outcome_bind]. apply at_app in Hat.
    destruct (IH _ (out ++ [c]) uc' uc2 fuel Hcs Hat) as (u & u2 & ->); [rewrite length_app; cbn [length]; lia|lia|].
    exists u, u2. by rewrite length_app, <-app_assoc, Nat2Z.inj_add, Z.add_assoc.
Qed.

(** The text of a string. *)
Definition string_text (cs : list Z) : list Z := [34] ++ concat (map escape_char cs) ++ [34].

Lemma parse_string_printed cs p rest :
  Forall is_char cs → ahead p (string_text cs ++ rest) → parse_string s p = Ret (Some (cs, p + slen (string_text cs))).
Proof.
  intros Hcs Hat. unfold string_text in *. cbn [app] in Hat. rewrite <-app_assoc in Hat. cbn [app] in Hat. unfold parse_string.
  rewrite (at_get _ _ _ Hat). cbn [mbind outcome_bind]. rewrite bool_decide_eq_false_2 by lia.
  pose proof (at_length _ _ Hat ltac:(done)) as Hl. cbn [length] in Hl. rewrite length_app in Hl.
  pose proof (proj1 Hat) as Hp. apply at_cons in Hat. destruct (string_units cs Hcs) as (us & Eu & Hus & Hn).
  unfold string_room. rewrite <-Eu in *. rewrite (room_units us rest) by (done || lia). cbn [mbind outcome_bind]. rewrite Eu in *.
  destruct (string_loop cs (0 + slen us) rest (p + 1) [] None None (S (length s)) Hcs Hat) as (uc & uc2 & ->); [cbn [length]; lia|lia|].
  cbn [mbind outcome_bind app]. rewrite put_ok by (cbn [length]; lia). cbn [mbind outcome_bind]. apply at_app in Hat. rewrite (at_get _ _ _ Hat).
  cbn [mbind outcome_bind]. rewrite bool_decide_eq_true_2 by done. rewrite c_string_app, app_nil_r.
  - do 3 f_equal. cbn [length]. rewrite length_app. cbn [length]. lia.
  - intros H0. rewrite Forall_forall in Hcs. specialize (Hcs 0 H0). unfold is_char in Hcs. lia.
Qed.
Definition blank (c : Z) : Prop := 1 ≤ c ≤ 32.

Lemma skip_blanks ws p c l : Forall blank ws → ahead p (ws ++ c :: l) → 32 < c → skip s p = Ret (p + slen ws).
Proof.
  intros Hws Hat Hc. unfold skip. pose proof (at_length _ _ Hat ltac:(by destruct ws)) as Hl. rewrite length_app in Hl. cbn [length] in Hl.
  pose proof (proj1 Hat) as Hp. assert (length ws < S (length s))%nat as Hf by lia. clear Hl Hp. revert p Hat Hf. generalize (S (length s)).
  induction Hws as [|w ws Hw Hws IH]; intros [|n] p Hat Hf; cbn [length app] in *; try lia; rewrite loop_S, (at_get _ _ _ Hat); cbn [mbind outcome_bind].
  - rewrite (proj2 (Z.leb_gt _ _)), andb_false_r by lia. cbn [mbind outcome_bind]. f_equal. lia.
  - unfold blank in Hw. rewrite bool_decide_eq_true_2, (proj2 (Z.leb_le _ _)) by lia. cbn [andb mbind outcome_bind].
    apply at_cons in Hat. rewrite (IH _ _ Hat) by lia. f_equal. lia.
Qed.

Lemma starts_at p l1 l2 : ahead p (l1 ++ l2) → starts s p l1 = Ret true.
Proof.
  revert p. induction l1 as [|c l1 IH]; intros p Hat; [done|]. cbn [starts app] in *. rewrite (at_get _ _ _ Hat). cbn [mbind outcome_bind].
  rewrite bool_decide_eq_true_2 by done. apply IH. by eapply at_cons.
Qed.

Lemma starts_not p c x l l' : ahead p (c :: l) → c ≠ x → starts s p (x :: l') = Ret false.
Proof. intros Hat Hc. cbn [starts]. rewrite (at_get _ _ _ Hat). cbn [mbind outcome_bind]. by rewrite bool_decide_eq_false_2. Qed.

Lemma not_literal p c l : ahead p (c :: l) → (c ∉ [110; 102; 116]) →
  starts s p (str "null") = Ret false ∧ starts s p (str "false") = Ret false ∧ starts s p (str "true") = Ret false.
Proof. intros Hat Hc. rewrite !not_elem_of_cons in Hc. destruct Hc as (? & ? & ? & _). by split_and!; (eapply starts_not; [exact Hat|]). Qed.
End at_text.

Abbreviation ahead s p l := (0 ≤ p ∧ drop (Z.to_nat p) s = l).

Lemma cJSON_nested_ind (P : cJSON → Prop) :
  P cJSON_NULL → P cJSON_False → P cJSON_True → (∀ d n, P (cJSON_Number d n)) → (∀ t, P (cJSON_String t)) →
  (∀ child, Forall P child → P (cJSON_Array child)) → (∀ child, Forall (λ x, P x.2) child → P (cJSON_Object child)) → ∀ v, P v.
Proof.
  intros Hnull Hno Hyes Hnum Hstr Harr Hobj. fix IH 1. intros [| | |d n|t|child|child]; [done..|apply Hnum|apply Hstr| |].
  - apply Harr. induction child as [|c child IHc]; constructor; [apply IH|done].
  - apply Hobj. induction child as [|[name c] child IHc]; constructor; [apply IH|done].
Qed.

Section roundtrip.
Context (pow : double → double → double).

(** The text [e] is read as [v], wherever it stands and whatever follows it. *)
Definition reads (v : cJSON) (e : list Z) : Prop :=
  (∃ c l, e = c :: l ∧ 32 < c ∧ c ≠ 93) ∧ (0 ∉ e) ∧
  ∀ s p rest fuel, ahead s p (e ++ rest) → 2 * slen e ≤ Z.of_nat fuel → parse_value pow s fuel p = Ret (Some (v, p + slen e)).

Lemma string_text_no0 cs : Forall is_char cs → 0 ∉ string_text cs.
Proof.
  intros Hcs. unfold string_text. cbn [app]. rewrite not_elem_of_cons, not_elem_of_app. split; [lia|]. split; [|set_solver].
  induction Hcs as [|c cs Hc _ IH]; [set_solver|]. cbn [map concat]. rewrite not_elem_of_app. split; [|done].
  unfold is_char in Hc. destruct (escape_cases c Hc) as [(-> & ? & _)|[(e & Hin & ->)|(_ & h1 & h2 & -> & H1%hex_digit_Some & H2%hex_digit_Some)]].
  - rewrite not_elem_of_cons. split; [lia|apply not_elem_of_nil].
  - set_unfold in Hin. rewrite !not_elem_of_cons. split_and!; [lia| |apply not_elem_of_nil]. intros <-. naive_solver.
  - rewrite !not_elem_of_cons. split_and!; [lia..|apply not_elem_of_nil].
Qed.

Lemma reads_string cs : Forall is_char cs → reads (cJSON_String cs) (string_text cs).
Proof.
  intros Hcs. split; [by eexists 34, _|]. split; [by apply string_text_no0|]. intros s p rest [|fuel] Hat Hf; [unfold string_text in Hf; cbn [app length] in Hf; lia|].
  cbn [parse_value]. pose proof Hat as Hat'. unfold string_text in Hat'. cbn [app] in Hat'.
  destruct (not_literal s p 34 _ Hat' ltac:(set_solver)) as (-> & -> & ->). cbn [mbind outcome_bind].
  rewrite (at_get _ _ _ _ Hat'). cbn [mbind outcome_bind]. rewrite bool_decide_eq_true_2 by done.
  by rewrite (parse_string_printed s cs p rest Hcs Hat).
Qed.

Lemma reads_const v e : (e = str "null" ∧ v = cJSON_NULL) ∨ (e = str "false" ∧ v = cJSON_False) ∨ (e = str "true" ∧ v = cJSON_True) → reads v e.
Proof.
  intros Hv. split; [destruct Hv as [[-> _]|[[-> _]|[-> _]]]; by eexists _, _|].
  split; [destruct Hv as [[-> _]|[[-> _]|[-> _]]]; by apply (bool_decide_unpack _)|].
  intros s p rest [|fuel] Hat Hf; [destruct Hv as [[-> _]|[[-> _]|[-> _]]]; cbn in Hf; lia|]. cbn [parse_value].
  destruct Hv as [[-> ->]|[[-> ->]|[-> ->]]].
  - by rewrite (starts_at s p _ rest Hat).
  - assert (starts s p (str "null") = Ret false) as -> by (by eapply starts_not; [exact Hat|]). cbn [mbind outcome_bind].
    by rewrite (starts_at s p _ rest Hat).
  - assert (starts s p (str "null") = Ret false) as -> by (by eapply starts_not; [exact Hat|]). cbn [mbind outcome_bind].
    assert (starts s p (str "false") = Ret false) as -> by (by eapply starts_not; [exact Hat|]). cbn [mbind outcome_bind].
    by rewrite (starts_at s p _ rest Hat).
Qed.

Lemma reads_first v e : reads v e → ∃ c l, e = c :: l ∧ 32 < c ∧ c ≠ 93.
Proof. by intros [? _]. Qed.

Section fmt.
Context (fmt : bool).

Lemma blank_text n : Forall blank (fmt_text fmt [32]) ∧ Forall blank (fmt_text fmt [9]) ∧ Forall blank (fmt_text fmt [10]) ∧ Forall blank (tabs fmt n).
Proof.
  destruct fmt; cbn [fmt_text tabs]; split_and!; try apply Forall_nil_2; try (apply Forall_cons_2; [unfold blank; lia|done]).
  apply Forall_replicate. unfold blank. lia.
Qed.

Lemma compose_array_first v e es rest : reads v e → ∃ c l, compose_array fmt (e :: es) ++ rest = c :: l ∧ 32 < c ∧ c ≠ 93.
Proof.
  intros (c & l & -> & H1 & H2)%reads_first. exists c. destruct es; cbn [compose_array app]; by eexists.
Qed.

Lemma reads_elements s vs es ws rest p fuel child :
  Forall2 reads vs es → es ≠ [] → Forall blank ws → ahead s p (ws ++ compose_array fmt es ++ 93 :: rest) → 2 * (slen (compose_array fmt es) + 1) ≤ Z.of_nat fuel →
  parse_array pow s fuel p child = Ret (Some (cJSON_Array (child ++ vs), p + slen ws + slen (compose_array fmt es) + 1)).
Proof.
  intros Hes. revert ws p fuel child. induction Hes as [|v e vs es Hv Hes IH]; intros ws p [|fuel] child Hne Hws Hat Hf; [done|done|lia|].
  cbn [parse_array]. fold (parse_value pow s). destruct (reads_first v e Hv) as (c & l & Ee & Hc & _). destruct Hv as (_ & _ & Hv).
  assert (∃ tail, compose_array fmt (e :: es) ++ 93 :: rest = e ++ tail ∧
    ((es = [] ∧ tail = 93 :: rest) ∨ (es ≠ [] ∧ tail = 44 :: fmt_text fmt [32] ++ compose_array fmt es ++ 93 :: rest))) as (tail & Et & Htail).
  { destruct es as [|e' es]; cbn [compose_array]; [eexists; split; [done|by left]|]. eexists. split; [|by right]. by rewrite <-!app_assoc. }
  rewrite Et in Hat. pose proof Hat as Hat'. rewrite Ee in Hat'. cbn [app] in Hat'. rewrite (skip_blanks s ws p c _ Hws Hat') by done. cbn [mbind outcome_bind].
  apply at_app in Hat. assert (slen e ≤ slen (compose_array fmt (e :: es))) as Hle by (destruct es; cbn [compose_array]; rewrite ?length_app; lia).
  rewrite (Hv s _ tail fuel Hat) by lia. cbn [mbind outcome_bind]. apply at_app in Hat. destruct Htail as [[-> ->]|[Hne' ->]].
  - rewrite (skip_blanks s [] _ 93 rest) by done. cbn [mbind outcome_bind length]. rewrite Z.add_0_r. rewrite (at_get _ _ _ _ Hat). cbn [mbind outcome_bind].
    rewrite bool_decide_eq_false_2, bool_decide_eq_true_2 by lia. inversion Hes; subst. done.
  - rewrite (skip_blanks s [] _ 44 _) by done. cbn [mbind outcome_bind length]. rewrite Z.add_0_r. rewrite (at_get _ _ _ _ Hat). cbn [mbind outcome_bind].
    rewrite bool_decide_eq_true_2 by lia. apply at_cons in Hat.
    assert (slen (compose_array fmt (e :: es)) = slen e + 1 + slen (fmt_text fmt [32]) + slen (compose_array fmt es)) as El.
    { destruct es; [done|]. cbn [compose_array]. rewrite !length_app. cbn [length]. lia. }
    destruct (blank_text 0) as (H32 & _). rewrite (IH (fmt_text fmt [32])) by (done || lia). rewrite <-app_assoc. cbn [app].
    do 3 f_equal. lia.
Qed.

(** A member and its texts. *)
Definition reads_member (x : list Z * cJSON) (y : list Z * list Z) : Prop := Forall is_char x.1 ∧ y.1 = string_text x.1 ∧ reads x.2 y.2.

(** A member that has been read, from its name on. *)
Lemma read_member s depth name v n e tail ws p fuel child :
  reads_member (name, v) (n, e) → Forall blank ws → ahead s p (ws ++ tabs fmt depth ++ n ++ [58] ++ fmt_text fmt [9] ++ e ++ tail) → 2 * slen e ≤ Z.of_nat fuel →
  parse_object pow s (S fuel) p child =
    let p := p + slen (ws ++ tabs fmt depth ++ n ++ [58] ++ fmt_text fmt [9] ++ e) in
    let child := child ++ [(name, v)] in
    let! p := skip s p in
    let! c := aget s p in
    if bool_decide (c = 44) then parse_object pow s fuel (p + 1) child
    else if bool_decide (c = 125) then Ret (Some (cJSON_Object child, p + 1))
    else Ret None.
Proof.
  intros (Hn & En & Hv) Hws Hat Hf. cbn [fst snd] in *. subst n. destruct (blank_text depth) as (_ & H9 & _ & Ht).
  cbn [parse_object]. fold (parse_value pow s). fold (parse_object pow s). rewrite (app_assoc ws) in Hat.
  rewrite (skip_blanks s (ws ++ tabs fmt depth) p 34 ((concat (map escape_char name) ++ [34]) ++ 58 :: fmt_text fmt [9] ++ e ++ tail)); [|by apply Forall_app|exact Hat|done].
  cbn [mbind outcome_bind]. apply at_app in Hat. rewrite (parse_string_printed s name _ _ Hn Hat). cbn [mbind outcome_bind].
  apply at_app in Hat. cbn [app] in Hat. rewrite (skip_blanks s [] _ 58 _) by done. cbn [mbind outcome_bind length]. rewrite Z.add_0_r.
  rewrite (at_get _ _ _ _ Hat). cbn [mbind outcome_bind]. rewrite bool_decide_eq_false_2 by lia. apply at_cons in Hat.
  destruct (reads_first v e Hv) as (c & l & Ee & Hc & _). destruct Hv as (_ & _ & Hv). rewrite Ee in Hat at 1. cbn [app] in Hat.
  rewrite (skip_blanks s _ _ c _ H9 Hat) by done. cbn [mbind outcome_bind]. apply at_app in Hat. change (c :: l ++ tail) with ((c :: l) ++ tail) in Hat.
  rewrite <-Ee in Hat. rewrite (Hv s _ tail fuel Hat) by done. cbn [mbind outcome_bind]. clear.
  replace (p + slen (ws ++ tabs fmt depth ++ string_text name ++ [58] ++ fmt_text fmt [9] ++ e))
    with (p + slen (ws ++ tabs fmt depth) + slen (string_text name) + 1 + slen (fmt_text fmt [9]) + slen e); [done|].
  rewrite !length_app. cbn [length]. lia.
Qed.

Lemma reads_members s depth ms es ws ws2 rest p fuel child :
  Forall2 reads_member ms es → es ≠ [] → Forall blank ws → Forall blank ws2 →
  ahead s p (ws ++ compose_object fmt depth es ++ ws2 ++ 125 :: rest) → 2 * (slen (compose_object fmt depth es) + 1) ≤ Z.of_nat fuel →
  parse_object pow s fuel p child = Ret (Some (cJSON_Object (child ++ ms), p + slen ws + slen (compose_object fmt depth es) + slen ws2 + 1)).
Proof.
  intros Hes. revert ws p fuel child. induction Hes as [|[name v] [n e] ms es Hv Hes IH]; intros ws p [|fuel] child Hne Hws Hws2 Hat Hf; [done|done|lia|].
  destruct (blank_text depth) as (_ & _ & H10 & _). cbn [compose_object] in Hat, Hf |- *. rewrite !length_app in Hf.
  assert (ws ++ (tabs fmt depth ++ n ++ [58] ++ fmt_text fmt [9] ++ e ++ (if bool_decide (es = []) then [] else [44]) ++ fmt_text fmt [10] ++ compose_object fmt depth es) ++ ws2 ++ 125 :: rest =
    (ws ++ tabs fmt depth ++ n ++ [58] ++ fmt_text fmt [9] ++ e) ++ (if bool_decide (es = []) then [] else [44]) ++ fmt_text fmt [10] ++ compose_object fmt depth es ++ ws2 ++ 125 :: rest) as Et
    by by rewrite <-!app_assoc.
  rewrite Et in Hat. erewrite (read_member s depth name v n e _ ws p fuel child Hv Hws); [|rewrite <-!app_assoc in Hat; exact Hat|lia]. cbv zeta.
  apply at_app in Hat. case_bool_decide as Ees.
  - subst es. inversion Hes; subst ms. cbn [compose_object app] in *. rewrite (app_assoc (fmt_text fmt [10])) in Hat.
    rewrite (skip_blanks s (fmt_text fmt [10] ++ ws2) _ 125 rest (proj2 (Forall_app _ _ _) (conj H10 Hws2)) Hat) by lia. cbn [mbind outcome_bind]. apply at_app in Hat. rewrite (at_get _ _ _ _ Hat).
    cbn [mbind outcome_bind]. rewrite bool_decide_eq_false_2, bool_decide_eq_true_2 by lia. do 3 f_equal. repeat (rewrite length_app || cbn [length]). lia.
  - cbn [app] in *. rewrite (skip_blanks s [] _ 44 _) by done. cbn [mbind outcome_bind length]. rewrite Z.add_0_r. rewrite (at_get _ _ _ _ Hat).
    cbn [mbind outcome_bind]. rewrite bool_decide_eq_true_2 by done. apply at_cons in Hat.
    rewrite (IH _ _ _ _ Ees H10 Hws2 Hat) by (cbn [length] in Hf; lia). rewrite <-app_assoc. cbn [app]. do 3 f_equal. repeat (rewrite length_app || cbn [length]). lia.
Qed.

Lemma compose_array_no0 es : Forall (λ e, 0 ∉ e) es → 0 ∉ compose_array fmt es.
Proof.
  induction 1 as [|e es He Hes IH]; [apply not_elem_of_nil|]. destruct es as [|e' es]; [done|].
  change (compose_array fmt (e :: e' :: es)) with (e ++ [44] ++ fmt_text fmt [32] ++ compose_array fmt (e' :: es)).
  rewrite !not_elem_of_app. split_and!; [done|set_solver|destruct fmt; cbn; set_solver|done].
Qed.

Lemma compose_object_no0 depth es : Forall (λ y, (0 ∉ y.1) ∧ (0 ∉ y.2)) es → 0 ∉ compose_object fmt depth es.
Proof.
  assert (0 ∉ tabs fmt depth) as Ht by (destruct fmt; cbn; [rewrite elem_of_replicate; lia|apply not_elem_of_nil]).
  induction 1 as [|[n e] es [Hn He] Hes IH]; [apply not_elem_of_nil|]. cbn [compose_object fst snd] in *. rewrite !not_elem_of_app.
  split_and!; try done; [set_solver|destruct fmt; cbn; set_solver|case_bool_decide; set_solver|destruct fmt; cbn; set_solver].
Qed.

(** Skipping blanks before the first name changes nothing. *)
Lemma parse_object_skip s p q fuel child : skip s p = skip s q → parse_object pow s fuel p child = parse_object pow s fuel q child.
Proof. intros E. destruct fuel; [done|]. cbn [parse_object]. by rewrite E. Qed.

(** What opens an array and an object. *)
Lemma open_array s p l fuel : ahead s p (91 :: l) →
  parse_value pow s (S fuel) p = let! q := skip s (p + 1) in let! c := aget s q in
    if bool_decide (c = 93) then Ret (Some (cJSON_Array [], q + 1)) else parse_array pow s fuel q [].
Proof.
  intros Hat. cbn [parse_value]. fold (parse_array pow s). destruct (not_literal s p 91 _ Hat ltac:(set_solver)) as (-> & -> & ->). cbn [mbind outcome_bind].
  rewrite (at_get _ _ _ _ Hat). cbn [mbind outcome_bind]. by rewrite !(bool_decide_eq_false_2 (91 = _)) by lia.
Qed.

Lemma open_object s p l fuel : ahead s p (123 :: l) →
  parse_value pow s (S fuel) p = let! q := skip s (p + 1) in let! c := aget s q in
    if bool_decide (c = 125) then Ret (Some (cJSON_Object [], q + 1)) else parse_object pow s fuel q [].
Proof.
  intros Hat. cbn [parse_value]. fold (parse_object pow s). destruct (not_literal s p 123 _ Hat ltac:(set_solver)) as (-> & -> & ->). cbn [mbind outcome_bind].
  rewrite (at_get _ _ _ _ Hat). cbn [mbind outcome_bind]. by rewrite !(bool_decide_eq_false_2 (123 = _)) by lia.
Qed.

Lemma reads_array vs es : Forall2 reads vs es → reads (cJSON_Array vs) ([91] ++ compose_array fmt es ++ [93]).
Proof.
  intros Hes. split; [by eexists 91, _|]. split.
  { cbn [app]. rewrite not_elem_of_cons, not_elem_of_app. split_and!; [lia| |set_solver]. apply compose_array_no0.
    clear -Hes. induction Hes as [|v e vs es (_ & H0 & _)]; by constructor. }
  intros s p rest [|fuel] Hat Hf; [cbn [app length] in Hf; lia|]. rewrite <-!app_assoc in Hat. cbn [app] in Hat.
  rewrite (open_array s p _ fuel Hat). apply at_cons in Hat.
  destruct Hes as [|v e vs es Hv Hes].
  - cbn [compose_array app] in *. rewrite (skip_blanks s [] _ 93 rest) by done. cbn [mbind outcome_bind length]. rewrite Z.add_0_r.
    rewrite (at_get _ _ _ _ Hat). cbn [mbind outcome_bind]. rewrite bool_decide_eq_true_2 by done. do 3 f_equal. lia.
  - destruct (compose_array_first v e es (93 :: rest) Hv) as (c & l & Ec & Hc & Hc93). pose proof Hat as Hat2. rewrite Ec in Hat2.
    rewrite (skip_blanks s [] _ c l) by done. cbn [mbind outcome_bind length]. rewrite Z.add_0_r. rewrite (at_get _ _ _ _ Hat2). cbn [mbind outcome_bind].
    rewrite bool_decide_eq_false_2 by done.
    rewrite (reads_elements s (v :: vs) (e :: es) [] rest _ fuel []); [|by constructor|done|done|exact Hat|rewrite !length_app in Hf; cbn [length] in Hf; lia].
    cbn [app]. do 3 f_equal. repeat (rewrite length_app || cbn [length]). lia.
Qed.

Lemma reads_object depth depth' ms es : Forall2 reads_member ms es →
  reads (cJSON_Object ms) ([123] ++ fmt_text fmt [10] ++ compose_object fmt depth es ++ tabs fmt depth' ++ [125]).
Proof.
  intros Hes. destruct (blank_text depth') as (_ & _ & H10 & Ht'). destruct (blank_text depth) as (_ & _ & _ & Ht).
  split; [by eexists 123, _|]. split.
  { cbn [app]. rewrite not_elem_of_cons, !not_elem_of_app. split_and!; [lia| | | |set_solver].
    - destruct fmt; cbn; set_solver.
    - apply compose_object_no0. clear -Hes. induction Hes as [|[name v] [n e] ms es (Hn & En & _ & H0 & _)]; constructor; [|done].
      cbn [fst snd] in *. subst n. split; [by apply string_text_no0|done].
    - destruct fmt; cbn; [rewrite elem_of_replicate; lia|apply not_elem_of_nil]. }
  intros s p rest [|fuel] Hat Hf; [cbn [app length] in Hf; lia|]. rewrite <-!app_assoc in Hat. cbn [app] in Hat.
  rewrite (open_object s p _ fuel Hat). apply at_cons in Hat. repeat (rewrite length_app in Hf || cbn [length] in Hf).
  destruct Hes as [|[name v] [n e] ms es Hv Hes].
  - cbn [compose_object app] in *. rewrite app_assoc in Hat.
    rewrite (skip_blanks s (fmt_text fmt [10] ++ tabs fmt depth') _ 125 rest (proj2 (Forall_app _ _ _) (conj H10 Ht')) Hat) by lia.
    cbn [mbind outcome_bind]. apply at_app in Hat. rewrite (at_get _ _ _ _ Hat). cbn [mbind outcome_bind]. rewrite bool_decide_eq_true_2 by done.
    do 3 f_equal. repeat (rewrite length_app || cbn [length]). lia.
  - pose proof Hv as (_ & En & _). cbn [fst snd] in En.
    assert (∃ l, compose_object fmt depth ((n, e) :: es) ++ tabs fmt depth' ++ 125 :: rest = tabs fmt depth ++ 34 :: l) as [l El].
    { cbn [compose_object]. rewrite En. unfold string_text. cbn [app]. rewrite <-!app_assoc. cbn [app]. by eexists. }
    pose proof Hat as Hat2. rewrite El, app_assoc in Hat2.
    rewrite (skip_blanks s (fmt_text fmt [10] ++ tabs fmt depth) _ 34 l (proj2 (Forall_app _ _ _) (conj H10 Ht)) Hat2) by lia.
    cbn [mbind outcome_bind]. pose proof (at_app _ _ _ _ Hat2) as Hat3. rewrite (at_get _ _ _ _ Hat3). cbn [mbind outcome_bind].
    rewrite bool_decide_eq_false_2 by lia.
    rewrite (parse_object_skip s _ (p + 1) fuel []).
    2: { rewrite (skip_blanks s [] _ 34 l) by done. rewrite Z.add_0_r. symmetry. eapply (skip_blanks s (fmt_text fmt [10] ++ tabs fmt depth)); [by apply Forall_app|exact Hat2|done]. }
    rewrite (reads_members s depth ((name, v) :: ms) ((n, e) :: es) (fmt_text fmt [10]) (tabs fmt depth') rest _ fuel []); [|by constructor|done|done|done|exact Hat|lia].
    cbn [app]. do 3 f_equal. repeat (rewrite length_app || cbn [length]). lia.
Qed.

(** *** Printing *)

Lemma fits_ok room text : slen text < room → in_block room text = Ret text.
Proof. intros H. unfold in_block. by rewrite (proj2 (Z.ltb_lt _ _)). Qed.

Lemma print_string_ok cs : Forall is_char cs → print_string_ptr cs = Ret (string_text cs).
Proof.
  intros Hcs. unfold print_string_ptr. rewrite c_string_id by (intros H0; rewrite Forall_forall in Hcs; by destruct (Hcs 0 H0)).
  apply fits_ok. assert (∀ n, foldl (λ len c, len + escape_room c) n cs = n + slen (concat (map escape_char cs))) as ->.
  - induction Hcs as [|c cs Hc _ IH]; intros n; cbn [foldl map concat]; [cbn [length]; lia|]. rewrite IH, length_app, <-escape_room_length by done. lia.
  - unfold string_text. rewrite !length_app. cbn [length]. lia.
Qed.

Context (print_double : list Z → double → list Z).
Abbreviation print := (print_value print_double fmt).

Lemma array_fits es : slen ([91] ++ compose_array fmt es ++ [93]) < array_len fmt es.
Proof.
  unfold array_len. assert (∀ n, slen (compose_array fmt es) + n ≤ foldl (λ len e, len + slen e + 2 + (if fmt then 1 else 0)) n es) as H.
  - induction es as [|e es IH]; intros n; [cbn; lia|]. cbn [foldl]. etransitivity; [|apply IH].
    assert (slen (fmt_text fmt [32]) = if fmt then 1 else 0) as E by by destruct fmt.
    destruct es as [|e' es]; [cbn [compose_array length]; destruct fmt; lia|].
    change (compose_array fmt (e :: e' :: es)) with (e ++ [44] ++ fmt_text fmt [32] ++ compose_array fmt (e' :: es)).
    rewrite !length_app. cbn [length]. destruct fmt; lia.
  - specialize (H 5). rewrite !length_app. cbn [length]. lia.
Qed.

Lemma object_fits depth es :
  slen ([123] ++ fmt_text fmt [10] ++ compose_object fmt (S depth) es ++ tabs fmt depth ++ [125]) < object_len fmt (S depth) es.
Proof.
  unfold object_len. set (m := if fmt then Z.of_nat (S depth) else 0).
  assert (∀ k, slen (tabs fmt k) = if fmt then Z.of_nat k else 0) as Et by (intros k; destruct fmt; cbn; [by rewrite length_replicate|done]).
  assert (slen (fmt_text fmt [10]) = if fmt then 1 else 0) as E10 by by destruct fmt.
  assert (slen (fmt_text fmt [9]) = if fmt then 1 else 0) as E9 by by destruct fmt.
  assert (∀ n, slen (compose_object fmt (S depth) es) + n ≤ foldl (λ len x, len + slen x.2 + slen x.1 + 2 + (if fmt then 2 + Z.of_nat (S depth) else 0)) n es) as H.
  - induction es as [|[name e] es IH]; intros n; [cbn; lia|]. cbn [foldl fst snd]. etransitivity; [|apply IH]. cbn [compose_object].
    pose proof (Et (S depth)). assert (slen (if bool_decide (es = []) then [] else [44]) ≤ 1) by (case_bool_decide; cbn; lia).
    rewrite !length_app. cbn [length]. destruct fmt; lia.
  - specialize (H (7 + m)). pose proof (Et depth). rewrite !length_app. cbn [length]. unfold m in *. destruct fmt; lia.
Qed.

Lemma plain_chars cs : forallb (λ c, bool_decide (is_char c)) cs = true → Forall is_char cs.
Proof. rewrite forallb_forall, Forall_forall. intros H c Hc. specialize (H c). apply bool_decide_eq_true in H; [done|by apply list_elem_of_In]. Qed.

Lemma printed v : plain v = true → ∀ depth, ∃ e, print depth v = Ret e ∧ reads v e.
Proof.
  induction v as [| | |d n|cs|vs IH|ms IH] using cJSON_nested_ind; cbn [plain print_value]; intros Hp depth.
  1-3: by eexists; split; [done|]; apply reads_const; naive_solver.
  - done.
  - apply plain_chars in Hp. eexists. split; [by apply print_string_ok|by apply reads_string].
  - assert (∃ es, print_entries (print (S depth)) vs = Ret es ∧ Forall2 reads vs es) as (es & -> & Hes).
    { induction IH as [|v vs Hv _ IHvs]; [by exists []|]. cbn [forallb] in Hp. apply andb_true_iff in Hp as [Hp1 Hp2].
      destruct (Hv Hp1 (S depth)) as (e & Ee & He). destruct (IHvs Hp2) as (es & Ees & Hes). exists (e :: es). cbn [print_entries].
      fold (print_entries (print (S depth))). rewrite Ee, Ees. split; [done|by constructor]. }
    cbn [mbind outcome_bind]. eexists. split; [by apply fits_ok, array_fits|by apply reads_array].
  - assert (∃ es, print_members (print (S depth)) ms = Ret es ∧ Forall2 reads_member ms es) as (es & -> & Hes).
    { induction IH as [|[name v] ms Hv _ IHms]; [by exists []|]. cbn [forallb fst snd] in *. rewrite !andb_true_iff in Hp. destruct Hp as [[Hp0%plain_chars Hp1] Hp2].
      destruct (Hv Hp1 (S depth)) as (e & Ee & He). destruct (IHms Hp2) as (es & Ees & Hes). exists ((string_text name, e) :: es). cbn [print_members].
      fold (print_members (print (S depth))). rewrite print_string_ok by done. cbn [mbind outcome_bind]. rewrite Ee. cbn [mbind outcome_bind]. rewrite Ees.
      split; [done|]. by constructor. }
    cbn [mbind outcome_bind]. eexists. split; [by apply fits_ok, object_fits|by apply reads_object].
Qed.
End fmt.
End roundtrip.

(** ** Theorems *)

Lemma parse_printed pow v e : reads pow v e → cJSON_Parse pow e = Ret (Some v).
Proof.
  intros (Hfirst & H0 & Hv). unfold cJSON_Parse. rewrite c_string_id by done. destruct Hfirst as (c & l & Ee & Hc & _).
  rewrite (skip_blanks _ [] 0 c (l ++ [0])); [|done|by rewrite Ee|done]. cbn [mbind outcome_bind length]. rewrite Z.add_0_r.
  rewrite (Hv _ 0 [0]); [done|done|]. rewrite length_app. cbn [length]. lia.
Qed.

(** C17 (roundtrip).  What [cJSON_Print] and [cJSON_PrintUnformatted] write for a tree
    without numbers, [cJSON_Parse] reads back as the same tree: printing never exceeds the
    block that was allocated for a text, and the escape sequences, the separators and
    the indentation are undone.  The trees may be nested to any depth, and their texts
    hold any bytes but zero. *)
Theorem json_roundtrip (pow : double → double → double) (print_double : list Z → double → list Z) (item : cJSON) (Hplain : plain item = true) :
  (∃ text, cJSON_Print print_double item = Ret text ∧ cJSON_Parse pow text = Ret (Some item)) ∧
  (∃ text, cJSON_PrintUnformatted print_double item = Ret text ∧ cJSON_Parse pow text = Ret (Some item)).
Proof.
  unfold cJSON_Print, cJSON_PrintUnformatted.
  split; [pose proof (printed pow true print_double item Hplain 0) as H|pose proof (printed pow false print_double item Hplain 0) as H].
  all: destruct H as (text & Et & Hr); exists text; split; [exact Et|by apply parse_printed].
Qed.

Definition demo_json : cJSON :=
  cJSON_Object [(str "name", cJSON_String [34; 92; 10; 1; 200]); (str "list", cJSON_Array [cJSON_NULL; cJSON_True; cJSON_Object []])].
Definition demo_pow : double → double → double := λ _ _, of_int 1.

Lemma json_roundtrip_witness :
  cJSON_PrintUnformatted (λ _ _, []) (cJSON_Array [cJSON_True; cJSON_String [10]]) = Ret ([91] ++ str "true" ++ [44; 34; 92; 110; 34; 93]) ∧
  (∃ text, cJSON_Print (λ _ _, []) demo_json = Ret text ∧ cJSON_Parse demo_pow text = Ret (Some demo_json)).
Proof. split; [by vm_compute|]. apply (json_roundtrip demo_pow (λ _ _, []) demo_json). by vm_compute. Defined.

(** The digits in a string are not a number that is read. *)
Definition demo_digits : list Z := [91; 34] ++ str "9999999999" ++ [34; 44] ++ str "12, {}".

Lemma json_parse_safe_witness :
  mostly (number_overflows demo_pow (demo_digits ++ [0])) (cJSON_Parse demo_pow demo_digits) (λ _, True) ∧
  cJSON_Parse demo_pow demo_digits = Ret None.
Proof. split; [|by vm_compute]. apply (proj2 (json_parse_safe demo_pow demo_digits)). by vm_compute. Defined.

(** Names are compared without regard to case. *)
Lemma strcasecmp_eq s1 s2 : Forall is_char s1 → Forall is_char s2 → cJSON_strcasecmp s1 s2 = 0 ↔ map tolower s1 = map tolower s2.
Proof.
  assert (∀ x, is_char x → tolower x ≠ 0) as Ht.
  { intros x Hx. unfold tolower, isupper, is_char in *. repeat case_match; lia. }
  intros H1. revert s2. induction H1 as [|x s1 Hx _ IH]; intros [|y s2] H2; cbn [cJSON_strcasecmp map]; [done| | |].
  - apply Forall_cons in H2 as [Hy _]. specialize (Ht y Hy). split; [lia|done].
  - specialize (Ht x Hx). split; [lia|done].
  - apply Forall_cons in H2 as [_ H2]. case_bool_decide as E.
    + rewrite IH by done. rewrite E. split; [by intros ->|by intros [= ->]].
    + split; [lia|]. by intros [= E' _].
Qed.

(** The value of the first entry with a key. *)
Fixpoint entry (mapparam : list (list Z * list Z)) (key : list Z) : option (list Z) :=
  match mapparam with
  | [] => None
  | (k, v) :: mapparam => if bool_decide (map tolower k = map tolower key) then Some v else entry mapparam key
  end.

Definition is_text (t : list Z) : Prop := Forall is_char t.

Lemma is_text_c_string t : is_text t → c_string t = t.
Proof. intros Ht. apply c_string_id. intros H0. unfold is_text in Ht. rewrite Forall_forall in Ht. by destruct (Ht 0 H0). Qed.

Lemma object_of_eq m : Forall (λ x, is_text x.1 ∧ is_text x.2) m → object_of m = cJSON_Object (map (λ x, (x.1, cJSON_String x.2)) m).
Proof.
  intros Hm. unfold object_of, cJSON_CreateObject. f_equal.
  assert (∀ l, foldl (λ obj x, cJSON_AddStringToObject obj x.1 x.2) l m = l ++ map (λ x, (x.1, cJSON_String x.2)) m) as H; [|apply H].
  induction Hm as [|[k v] m [Hk Hv] _ IH]; intros l; cbn [foldl map fst snd]; [by rewrite app_nil_r|].
  rewrite IH. unfold cJSON_AddStringToObject. rewrite !is_text_c_string by done. by rewrite <-app_assoc.
Qed.

Lemma text_plain t : is_text t → forallb (λ c, bool_decide (is_char c)) t = true.
Proof. unfold is_text. rewrite Forall_forall, forallb_forall. intros H c Hc%list_elem_of_In. by apply bool_decide_eq_true, H. Qed.

Lemma object_plain m : Forall (λ x, is_text x.1 ∧ is_text x.2) m → plain (cJSON_Object (map (λ x, (x.1, cJSON_String x.2)) m)) = true.
Proof.
  intros Hm. cbn [plain]. induction Hm as [|[k v] m [Hk Hv] _ IH]; [done|]. cbn [map forallb fst snd plain] in *.
  rewrite IH, andb_true_r. by rewrite !text_plain.
Qed.

(** The text of an object whose members are strings. *)
Definition members_text (m : list (list Z * list Z)) : list Z :=
  [123] ++ compose_object false 1 (map (λ x, (string_text x.1, string_text x.2)) m) ++ [125].

Lemma print_members_text print_double m : Forall (λ x, is_text x.1 ∧ is_text x.2) m →
  print_members (print_value print_double false 1) (map (λ x, (x.1, cJSON_String x.2)) m) = Ret (map (λ x, (string_text x.1, string_text x.2)) m).
Proof.
  induction 1 as [|[k v] m [Hk Hv] _ IH]; [done|]. cbn [map print_members fst snd] in *. fold (print_members (print_value print_double false 1)).
  rewrite print_string_ok by done. cbn [mbind outcome_bind print_value]. rewrite print_string_ok by done. cbn [mbind outcome_bind]. by rewrite IH.
Qed.

Lemma object_text print_double m : Forall (λ x, is_text x.1 ∧ is_text x.2) m →
  cJSON_PrintUnformatted print_double (object_of m) = Ret (members_text m).
Proof.
  intros Hm. rewrite object_of_eq by done. unfold cJSON_PrintUnformatted. cbn [print_value]. rewrite print_members_text by done. cbn [mbind outcome_bind].
  apply fits_ok. pose proof (object_fits false 0 (map (λ x, (string_text x.1, string_text x.2)) m)) as Hf. exact Hf.
Qed.

Lemma members_parsed pow m : Forall (λ x, is_text x.1 ∧ is_text x.2) m →
  cJSON_Parse pow (members_text m) = Ret (Some (cJSON_Object (map (λ x, (x.1, cJSON_String x.2)) m))).
Proof.
  intros Hm. pose proof (object_text (λ _ _, []) m Hm) as Et. rewrite object_of_eq in Et by done.
  destruct (printed pow false (λ _ _, []) _ (object_plain _ Hm) 0) as (text & Et' & Hr).
  unfold cJSON_PrintUnformatted in Et. rewrite Et in Et'. injection Et' as <-. by rewrite (parse_printed _ _ _ Hr).
Qed.

Lemma find_entry m key : Forall (λ x, is_text x.1 ∧ is_text x.2) m → is_text key →
  find_child (map (λ x, (x.1, cJSON_String x.2)) m) key = cJSON_String <$> entry m key.
Proof.
  intros Hm Hk. induction Hm as [|[k v] m [Hk' _] _ IH]; [done|]. cbn [map find_child entry fst snd] in *. pose proof (strcasecmp_eq k key Hk' Hk).
  case_bool_decide; [rewrite bool_decide_eq_false_2 by tauto; done|]. rewrite bool_decide_eq_true_2; [done|]. destruct (decide (cJSON_strcasecmp k key = 0)); [tauto|done].
Qed.

(** (roundtrip).  What [cjson_wrapper::format_json_fromat] and
    [format_json_unfromat] write for a map of strings, a [cjson_wrapper] made of that text
    gives back: [get_string] of a key returns 0 with the value of the first entry whose
    key is the same up to case.  A key that is not there is a null pointer that is
    dereferenced. *)
Lemma wrapper_roundtrip (pow : double → double → double) (print_double : list Z → double → list Z) (mapparam : list (list Z * list Z))
    (Hm : Forall (λ x, is_text x.1 ∧ is_text x.2) mapparam) (format : list (list Z * list Z) → outcome (list Z))
    (Hformat : format = format_json_fromat print_double ∨ format = format_json_unfromat print_double) :
  ∃ text obj, format mapparam = Ret text ∧ cjson_wrapper pow text = Ret obj ∧
    ∀ key value, is_text key → get_string obj key value = match entry mapparam key with Some v => Ret (0, v) | None => Stuck end.
Proof.
  assert (∃ text, format mapparam = Ret text ∧ cJSON_Parse pow text = Ret (Some (cJSON_Object (map (λ x, (x.1, cJSON_String x.2)) mapparam)))) as (text & Et & Ep).
  { destruct Hformat as [->| ->]; unfold format_json_fromat, format_json_unfromat, cJSON_Print, cJSON_PrintUnformatted; rewrite object_of_eq by done.
    - destruct (printed pow true print_double _ (object_plain _ Hm) 0) as (text & Et & Hr). exists text. split; [exact Et|by apply parse_printed].
    - destruct (printed pow false print_double _ (object_plain _ Hm) 0) as (text & Et & Hr). exists text. split; [exact Et|by apply parse_printed]. }
  exists text, (Some (cJSON_Object (map (λ x, (x.1, cJSON_String x.2)) mapparam))). split; [done|]. split; [done|].
  intros key value Hkey. unfold get_string, cJSON_GetObjectItem. rewrite is_text_c_string, find_entry by done. by destruct (entry mapparam key).
Qed.

Definition demo_params : list (list Z * list Z) := [(str "Key", str "value"); (str "key", str "other")].

Lemma wrapper_roundtrip_witness :
  ∃ text obj, format_json_unfromat (λ _ _, []) demo_params = Ret text ∧ cjson_wrapper demo_pow text = Ret obj ∧
    ∀ key value, is_text key → get_string obj key value = match entry demo_params key with Some v => Ret (0, v) | None => Stuck end.
Proof.
  apply (wrapper_roundtrip demo_pow (λ _ _, []) demo_params).
  - apply (bool_decide_unpack _). by vm_compute.
  - by right.
Defined.

(** A text that ends within an escape sequence is read beyond its end, and four
    characters behind [\u] that are no digits are jumped over without being counted: more
    is written than the block holds. *)
Lemma json_backslash : cJSON_Parse demo_pow [34; 92] = Stuck.
Proof. by vm_compute. Qed.
Lemma json_short_escape : cJSON_Parse demo_pow ([34; 92; 117; 49; 34; 44] ++ replicate 8 65 ++ [34]) = Stuck.
Proof. by vm_compute. Qed.

(** The number three thousand million is converted to [int]. *)
Lemma json_big_number : cJSON_Parse demo_pow (str "3000000000") = Stuck.
Proof. by vm_compute. Qed.
