(* ===== verification/Session.v ===== *)
(** * Sessions of the login server
    ([memcache_client.cpp], [memcache_guard.cpp], [memcache_cli_pool.cpp] and the
    session operations of [dispatcher.cpp] in [logingame_server/src/main/])

    A session is a JSON text that memcached keeps under the session's number for a
    time.  libmemcached and the server are behind the class [Memcached];
    [MemcachedLaws] states what is documented of them. *)

From Stdlib Require Import String.
From S2P Require Import Prelude Text Json.

(** ** Definitions: the client library and the server *)
Inductive memcached_return : Type :=
  | MEMCACHED_SUCCESS
  | MEMCACHED_NOTFOUND
  | MEMCACHED_FAILURE.

#[export] Instance memcached_return_eq_dec : EqDecision memcached_return.
Proof. solve_decision. Defined.

(** [C] are connections, [V] addresses of servers, [W] is the server with the clock and
    the rest of the world.  [memcached_set] takes the key, the value and the time at
    which it expires. *)
Class Memcached (C V W : Type) := {
  time : W → Z;
  memcached_server_list_append : list Z → Z → W → option V * memcached_return * W;
  memcached_create : W → C * W;
  memcached_server_push : C → V → W → memcached_return * W;
  memcached_free : C → W → W;
  memcached_set : C → list Z → list Z → Z → W → memcached_return * W;
  memcached_get : C → list Z → W → option (list Z) * memcached_return * W;
  memcached_delete : C → list Z → W → memcached_return * W;
}.

Section client.
Context {C V W : Type} `{Memcached C V W}.

(** [server] and [m_expiration], which the clients share. *)
Definition statics : Type := option V * Z.

(** With the address, the port and the expiration that the configuration has. *)
Definition INIT_MEMCACHED_CLIENT_MODULE (ip : list Z) (port expiration : Z) (st : statics) (w : W) : statics * W :=
  match st.1 with
  | Some _ => (st, w)
  | None => let '(server, rc, w) := memcached_server_list_append (c_string ip) port w in ((server, expiration), w)
  end.

(** A client is [m_memcached_st]. *)
Definition memcache_client : Type := option C.

Definition new_memcache_client (st : statics) (w : W) : memcache_client * W :=
  match st.1 with
  | None => (None, w)
  | Some server =>
      let (c, w) := memcached_create w in
      let (rc, w) := memcached_server_push c server w in
      if bool_decide (rc ≠ MEMCACHED_SUCCESS) then (None, memcached_free c w) else (Some c, w)
  end.
Definition delete_memcache_client (m_memcached_st : memcache_client) (w : W) : W :=
  match m_memcached_st with Some c => memcached_free c w | None => w end.

Definition set_value (m_expiration : Z) (m_memcached_st : memcache_client) (key value : list Z) (w : W) : Z * W :=
  match m_memcached_st with
  | None => (-1, w)
  | Some c =>
      let expiretime := time w + m_expiration in
      let (rc, w) := memcached_set c key value expiretime w in
      if bool_decide (rc = MEMCACHED_SUCCESS) then (0, w) else (-1, w)
  end.

Definition set_value_with_expire (m_expiration : Z) (m_memcached_st : memcache_client) (key value : list Z) (expire : Z) (w : W) : Z * W :=
  match m_memcached_st with
  | None => (-1, w)
  | Some c =>
      let expiretime := if expire <? 100 then time w + m_expiration else time w + expire in
      let (rc, w) := memcached_set c key value expiretime w in
      if bool_decide (rc = MEMCACHED_SUCCESS) then (0, w) else (-1, w)
  end.

(** The result, [str_value] and the world. *)
Definition get_value (m_memcached_st : memcache_client) (key str_value : list Z) (w : W) : Z * list Z * W :=
  match m_memcached_st with
  | None => (-1, str_value, w)
  | Some c =>
      let '(result, rc, w) := memcached_get c key w in
      match rc with
      | MEMCACHED_SUCCESS => match result with Some v => (1, str_value ++ v, w) | None => (-1, str_value, w) end
      | MEMCACHED_NOTFOUND => (0, str_value, w)
      | MEMCACHED_FAILURE => (-1, str_value, w)
      end
  end.

Definition delete_value (m_memcached_st : memcache_client) (key : list Z) (w : W) : Z * W :=
  match m_memcached_st with
  | None => (-1, w)
  | Some c =>
      let (rc, w) := memcached_delete c key w in
      (match rc with MEMCACHED_SUCCESS => 1 | MEMCACHED_NOTFOUND => 0 | MEMCACHED_FAILURE => -1 end, w)
  end.

(** ** Definitions: the pool

    The queue of the clients that are not in use, when one thread uses it: taking from
    the empty queue times out, five times. *)
Record state : Type := mk_state { m_client_queue : list memcache_client; world : W }.

Definition fetch_client (s : state) : Z * option memcache_client * state :=
  match m_client_queue s with
  | [] => (-1, None, s)
  | pclient :: queue => (0, Some pclient, mk_state queue (world s))
  end.
Definition restore_client (pclient : memcache_client) (s : state) : state := mk_state (m_client_queue s ++ [pclient]) (world s).

Fixpoint init_clients (count : nat) (st : statics) (s : state) : state :=
  match count with
  | O => s
  | S count => let (pclient, w) := new_memcache_client st (world s) in init_clients count st (mk_state (m_client_queue s ++ [pclient]) w)
  end.

(** A block with a [memcache_guard]: [None] when no client could be fetched. *)
Definition with_client {A} (use : memcache_client → W → A * W) (s : state) : option A * state :=
  let '(result, pclient, s) := fetch_client s in
  match pclient with
  | Some pclient => let (a, w) := use pclient (world s) in (Some a, restore_client pclient (mk_state (m_client_queue s) w))
  | None => (None, s)
  end.

(** ** Definitions: sessions *)
Record STU_SESSION_INFO : Type := mk_session {
  username : list Z;
  password : list Z;
  clientip : list Z;
  gameinternalno : list Z;
  idcardno : list Z;
  gameid : list Z;
  useloginstate : list Z;
  heartbeaturl : list Z;
  comefrom : list Z;
  xlinternalno : list Z;
  startsource : list Z;
  comefrom2 : list Z;
  comefrom3 : list Z;
}.

Definition no_session : STU_SESSION_INFO := mk_session [] [] [] [] [] [] [] [] [] [] [] [] [].

Definition session_entries (info : STU_SESSION_INFO) : list (list Z * list Z) :=
  [(str "username", username info); (str "password", password info); (str "clientip", clientip info);
   (str "gameinternalno", gameinternalno info); (str "idcardno", idcardno info); (str "gameid", gameid info);
   (str "useloginstate", useloginstate info); (str "heartbeaturl", heartbeaturl info); (str "comefrom", comefrom info);
   (str "xlinternalno", xlinternalno info); (str "startsource", startsource info); (str "comefrom2", comefrom2 info);
   (str "comefrom3", comefrom3 info)].

Context (print_double : list Z → double → list Z) (pow : double → double → double).

Definition session_to_json (info : STU_SESSION_INFO) : outcome (list Z) :=
  cJSON_PrintUnformatted print_double (object_of (session_entries info)).

(** The member [name], when there is one; [std::string] of a null pointer is undefined. *)
Definition session_item (jsonobj : cJSON) (name old : list Z) : outcome (list Z) :=
  match cJSON_GetObjectItem jsonobj name with
  | None => Ret old
  | Some item => match valuestring item with Some t => Ret t | None => Stuck end
  end.

Definition json_to_session (str_json : list Z) (info : STU_SESSION_INFO) : outcome (Z * STU_SESSION_INFO) :=
  let! jsonobj := cJSON_Parse pow str_json in
  match jsonobj with
  | None => Ret (-1, info)
  | Some jsonobj =>
      let! username := session_item jsonobj (str "username") (username info) in
      let! password := session_item jsonobj (str "password") (password info) in
      let! clientip := session_item jsonobj (str "clientip") (clientip info) in
      let! gameinternalno := session_item jsonobj (str "gameinternalno") (gameinternalno info) in
      let! idcardno := session_item jsonobj (str "idcardno") (idcardno info) in
      let! gameid := session_item jsonobj (str "gameid") (gameid info) in
      let! useloginstate := session_item jsonobj (str "useloginstate") (useloginstate info) in
      let! heartbeaturl := session_item jsonobj (str "heartbeaturl") (heartbeaturl info) in
      let! comefrom := session_item jsonobj (str "comefrom") (comefrom info) in
      let! xlinternalno := session_item jsonobj (str "xlinternalno") (xlinternalno info) in
      let! startsource := session_item jsonobj (str "startsource") (startsource info) in
      let! comefrom2 := session_item jsonobj (str "comefrom2") (comefrom2 info) in
      let! comefrom3 := session_item jsonobj (str "comefrom3") (comefrom3 info) in
      Ret (0, mk_session username password clientip gameinternalno idcardno gameid useloginstate heartbeaturl comefrom
                xlinternalno startsource comefrom2 comefrom3)
  end.

Definition PREFIX_SESSIONID : list Z := str "01".
Definition PREFIX_GID_TO_SESSIONID : list Z := str "02".
Definition PREFIX_SESSION_TICKOUT : list Z := str "06".

Context (m_expiration : Z).

Definition set_session_info (sessionid : list Z) (info : STU_SESSION_INFO) (s : state) : outcome (Z * state) :=
  match m_client_queue s with
  | [] => Ret (-1, s)
  | _ =>
      let! str_value := session_to_json info in
      let (result, s) := with_client (λ c, set_value m_expiration c (PREFIX_SESSIONID ++ sessionid) str_value) s in
      Ret (match result with Some r => if bool_decide (r = -1) then -1 else 0 | None => -1 end, s)
  end.

(** A value that is read: the old format, in which semicolons separate the parts, or
    JSON. *)
Definition decode_session `{Boost} (str_value : list Z) (info : STU_SESSION_INFO) : outcome (Z * STU_SESSION_INFO) :=
  match boost_split str_value [59] with
  | v0 :: v1 :: v2 :: v3 :: v4 :: v5 :: v6 :: v7 :: _ =>
      Ret (1, mk_session v0 v1 v2 v3 (if bool_decide (v4 = [42]) then [] else v4) v5 v6 v7
                (comefrom info) (xlinternalno info) (startsource info) (comefrom2 info) (comefrom3 info))
  | _ => let! r := json_to_session str_value info in Ret (if bool_decide (r.1 = -1) then -1 else 1, r.2)
  end.

Definition get_session_info `{Boost} (sessionid : list Z) (info : STU_SESSION_INFO) (s : state) : outcome (Z * STU_SESSION_INFO * state) :=
  let (r, s) := with_client (λ c w, let '(result, v, w) := get_value c (PREFIX_SESSIONID ++ sessionid) [] w in ((result, v), w)) s in
  match r with
  | None => Ret (-1, info, s)
  | Some (result, str_value) =>
      if bool_decide (result = -1) then Ret (-1, info, s)
      else if bool_decide (result = 0) then Ret (0, info, s)
      else let! x := decode_session str_value info in Ret (x.1, x.2, s)
  end.

Definition remove_sessioninfo (sessionid : list Z) (s : state) : Z * state :=
  let (r, s) := with_client (λ c, delete_value c (PREFIX_SESSIONID ++ sessionid)) s in
  (match r with Some r => if bool_decide (r = -1) then -1 else 0 | None => -1 end, s).

(** The number of the session of a user. *)
Definition get_sessionid_by_gameinternalno (gameinternalno str_sessionid : list Z) (s : state) : Z * list Z * state :=
  let (r, s) := with_client (λ c w, let '(result, v, w) := get_value c (PREFIX_GID_TO_SESSIONID ++ gameinternalno) str_sessionid w in ((result, v), w)) s in
  match r with Some (r, v) => (r, v, s) | None => (-1, str_sessionid, s) end.
Definition set_gameinternalno_sessionid_map (sessionid gameinternalno : list Z) (s : state) : Z * state :=
  if bool_decide (sessionid = [] ∨ gameinternalno = []) then (-1, s)
  else
    let (r, s) := with_client (λ c, set_value m_expiration c (PREFIX_GID_TO_SESSIONID ++ gameinternalno) sessionid) s in
    (default (-1) r, s).
(** With a client. *)
Definition set_gameinternalno_sessionid_map_with (sessionid gameinternalno : list Z) (pmem_client : option memcache_client) (w : W) : Z * W :=
  match pmem_client with
  | None => (-1, w)
  | Some c =>
      if bool_decide (sessionid = [] ∨ gameinternalno = []) then (-1, w)
      else set_value m_expiration c (PREFIX_GID_TO_SESSIONID ++ gameinternalno) sessionid w
  end.
Definition remove_cache_gameinternalno (gameinternalno : list Z) (s : state) : Z * state :=
  let (r, s) := with_client (λ c, delete_value c (PREFIX_GID_TO_SESSIONID ++ gameinternalno)) s in
  (match r with Some r => if bool_decide (r = -1) then -1 else 0 | None => -1 end, s).

Definition cache_set_session_tickout (old_session : list Z) (s : state) : Z * state :=
  if bool_decide (old_session = []) then (0, s)
  else
    let (r, s) := with_client (λ c, set_value_with_expire m_expiration c (PREFIX_SESSION_TICKOUT ++ old_session) (str "1") 600) s in
    (match r with Some _ => 0 | None => -1 end, s).
End client.

Arguments state C W : clear implicits.

(** ** What is documented of libmemcached and of the server

    Keys have at most 250 bytes without blanks and control characters.  An item is
    found until it expires, unless the server drops it earlier; an operation that
    fails may have been carried out or not. *)
Definition valid_key (key : list Z) : Prop := 0 < slen key ≤ 250 ∧ Forall (λ c, 32 < c ∧ c ≠ 127) key.

(** Smaller times of expiry are offsets. *)
Definition REALTIME_MAXDELTA : Z := 60 * 60 * 24 * 30.

Class MemcachedLaws (C V W : Type) `{Memcached C V W} := {
  held : W → gmap (list Z) (list Z * Z);
  set_law c key value e w rc w' :
    valid_key key → REALTIME_MAXDELTA < e → memcached_set c key value e w = (rc, w') →
    time w ≤ time w' ∧ delete key (held w') ⊆ delete key (held w) ∧ (rc = MEMCACHED_SUCCESS → held w' !! key = Some (value, e));
  get_law c key w r rc w' :
    valid_key key → memcached_get c key w = (r, rc, w') →
    time w ≤ time w' ∧ held w' ⊆ held w ∧
    (rc = MEMCACHED_SUCCESS → ∃ v e, r = Some v ∧ held w !! key = Some (v, e) ∧ time w < e) ∧
    (rc = MEMCACHED_NOTFOUND → ∀ v e, held w' !! key = Some (v, e) → e ≤ time w');
  delete_law c key w rc w' :
    valid_key key → memcached_delete c key w = (rc, w') →
    time w ≤ time w' ∧ held w' ⊆ held w ∧ (rc ≠ MEMCACHED_FAILURE → held w' !! key = None);
}.

(** ** Lemmas: the text of a session *)

Definition semicolons (t : list Z) : nat := length (filter (λ c, c = 59) t).

Lemma semicolons_app t1 t2 : semicolons (t1 ++ t2) = (semicolons t1 + semicolons t2)%nat.
Proof. unfold semicolons. by rewrite filter_app, length_app. Qed.

Lemma join_semicolons l : Forall (λ p, 59 ∉ p) l → l ≠ [] → S (semicolons (join 59 l)) = length l.
Proof.
  assert (∀ p, (59 ∉ p) → semicolons p = 0%nat) as Hp.
  { intros p Hin. unfold semicolons. destruct (filter _ p) as [|c f] eqn:E; [done|].
    assert (c ∈ filter (λ c, c = 59) p) as Hc by (rewrite E; by left). apply list_elem_of_filter in Hc as [-> Hc]. done. }
  induction 1 as [|p l Hin Hl IH]; intros Hne; [done|]. destruct l as [|p' l].
  - cbn [join length]. by rewrite Hp.
  - change (join 59 (p :: p' :: l)) with (p ++ [59] ++ join 59 (p' :: l)). rewrite !semicolons_app, Hp by done.
    change (semicolons [59]) with 1%nat. cbn [length] in *. specialize (IH ltac:(done)). lia.
Qed.

Lemma split_semicolons `{BoostLaws} t : length (boost_split t [59]) = S (semicolons t).
Proof. rewrite <-(join_semicolons (boost_split t [59])); [by rewrite split_join|apply split_pieces|apply split_nonempty]. Qed.

Lemma escape_semicolons c : is_char c → semicolons (escape_char c) = if bool_decide (c = 59) then 1%nat else 0%nat.
Proof.
  intros Hc. destruct (escape_cases c Hc) as [(-> & _)|[(e & Hin & ->)|(Hr & h1 & h2 & -> & H1%hex_digit_Some & H2%hex_digit_Some)]].
  - case_bool_decide as E; [by rewrite E|]. unfold semicolons. by rewrite filter_cons_False.
  - set_unfold in Hin. rewrite bool_decide_eq_false_2 by naive_solver. unfold semicolons. rewrite !filter_cons_False by naive_solver. done.
  - rewrite bool_decide_eq_false_2 by lia. unfold semicolons. rewrite !filter_cons_False by lia. done.
Qed.

Lemma text_semicolons t : is_text t → semicolons (string_text t) = semicolons t.
Proof.
  intros Ht. unfold string_text. rewrite !semicolons_app. change (semicolons [34]) with 0%nat.
  rewrite Nat.add_0_r. cbn [Nat.add]. induction Ht as [|c t Hc _ IH]; [done|]. cbn [map concat]. rewrite semicolons_app, IH, escape_semicolons by done.
  change (c :: t) with ([c] ++ t). rewrite (semicolons_app [c]). f_equal. case_bool_decide as E; [by rewrite E|]. unfold semicolons. by rewrite filter_cons_False.
Qed.

Lemma members_semicolons m : Forall (λ x, is_text x.1 ∧ is_text x.2) m → Forall (λ x, semicolons x.1 = 0%nat) m →
  semicolons (members_text m) = list_sum (map (λ x, semicolons x.2) m).
Proof.
  intros Hm Hn. unfold members_text. rewrite !semicolons_app. change (semicolons [123]) with 0%nat. change (semicolons [125]) with 0%nat.
  rewrite Nat.add_0_r. cbn [Nat.add]. induction Hm as [|[k v] m [Hk Hv] _ IH]; [done|]. apply Forall_cons in Hn as [Hk0 Hn].
  cbn [map compose_object fst snd list_sum foldr] in *. rewrite !semicolons_app. change (semicolons (tabs false 1)) with 0%nat.
  change (semicolons (fmt_text false _)) with 0%nat. change (semicolons [58]) with 0%nat. rewrite !text_semicolons, Hk0, IH by done.
  assert (∀ b : bool, semicolons (if b then [] else [44]) = 0%nat) as -> by by intros []. unfold list_sum. lia.
Qed.

Section sessions.
Context {C V W : Type} `{MemcachedLaws C V W} `{BoostLaws}.
Context (print_double : list Z → double → list Z) (pow : double → double → double) (m_expiration : Z).

(** The parts are C strings, and fewer than seven semicolons are in all of them. *)
Definition session_ok (info : STU_SESSION_INFO) : Prop :=
  Forall (λ x, is_text x.2) (session_entries info) ∧ (list_sum (map (λ x, semicolons x.2) (session_entries info)) < 7)%nat.

Lemma entry_names info : Forall (λ k, is_text k ∧ semicolons k = 0%nat) (session_entries info).*1.
Proof. change ((session_entries info).*1) with ((session_entries no_session).*1). apply (bool_decide_unpack _). by vm_compute. Qed.

Lemma entries_ok info : session_ok info →
  Forall (λ x, is_text x.1 ∧ is_text x.2) (session_entries info) ∧ Forall (λ x, semicolons x.1 = 0%nat) (session_entries info).
Proof.
  intros [Ht _]. pose proof (entry_names info) as Hn. rewrite Forall_fmap in Hn. rewrite Forall_forall in Ht, Hn. rewrite !Forall_forall.
  split; intros x Hx; specialize (Ht x Hx); specialize (Hn x Hx); cbn in Hn; tauto.
Qed.

Lemma session_text info : session_ok info → session_to_json print_double info = Ret (members_text (session_entries info)).
Proof. intros [Hm _]%entries_ok. by apply object_text. Qed.

Lemma session_item_eq info name v old : session_ok info → is_text name → entry (session_entries info) name = Some v →
  session_item (cJSON_Object (map (λ x, (x.1, cJSON_String x.2)) (session_entries info))) name old = Ret v.
Proof.
  intros [Hm _]%entries_ok Hn E. unfold session_item, cJSON_GetObjectItem. rewrite is_text_c_string, find_entry by done. by rewrite E.
Qed.

Lemma session_parsed info old : session_ok info → json_to_session pow (members_text (session_entries info)) old = Ret (0, info).
Proof.
  intros Hok. unfold json_to_session. destruct (entries_ok info Hok) as [Hm _].
  rewrite members_parsed by done. cbn [mbind outcome_bind].
  do 13 (erewrite session_item_eq; [cbn [mbind outcome_bind]|done|by apply (bool_decide_unpack _); vm_compute|by vm_compute]). by destruct info.
Qed.

Lemma session_decoded info old : session_ok info → decode_session pow (members_text (session_entries info)) old = Ret (1, info).
Proof.
  intros Hok. unfold decode_session. destruct (entries_ok info Hok) as [Hm Hn]. pose proof (split_semicolons (members_text (session_entries info))) as Hl.
  rewrite members_semicolons in Hl by done. destruct Hok as [Ht Hs]. rewrite session_parsed by done. cbn [mbind outcome_bind fst snd].
  destruct (boost_split _ _) as [|v0 [|v1 [|v2 [|v3 [|v4 [|v5 [|v6 [|v7 l]]]]]]]]; try done. cbn [length] in Hl. lia.
Qed.

(** *** The operations *)

(** The key of a session. *)
Abbreviation key sessionid := (PREFIX_SESSIONID ++ sessionid).

Lemma set_value_ok c k v (w : W) r w' : valid_key k → REALTIME_MAXDELTA < time w + m_expiration → set_value m_expiration c k v w = (r, w') →
  (r = 0 ∨ r = -1) ∧ (r = 0 → held w' !! k = Some (v, time w + m_expiration)) ∧ delete k (held w') ⊆ delete k (held w).
Proof.
  intros Hk He E. unfold set_value in E. destruct c as [c|]; [|injection E as <- <-; split_and!; [by right|done|done]].
  destruct (memcached_set c k v (time w + m_expiration) w) as [rc w1] eqn:Es. destruct (set_law _ _ _ _ _ _ _ Hk He Es) as (_ & Hd & Hs).
  case_bool_decide; injection E as <- <-; split_and!; auto; by intros.
Qed.

Lemma get_value_ok c k t (w : W) r v w' : valid_key k → get_value c k t w = (r, v, w') →
  held w' ⊆ held w ∧
  ((r = 1 ∧ ∃ x e, v = t ++ x ∧ held w !! k = Some (x, e) ∧ time w < e) ∨
   (r = 0 ∧ v = t ∧ ∀ x e, held w' !! k = Some (x, e) → e ≤ time w') ∨ (r = -1 ∧ v = t)).
Proof.
  intros Hk E. unfold get_value in E. destruct c as [c|]; [|injection E as <- <- <-; split; [done|]; right; by right].
  destruct (memcached_get c k w) as [[res rc] w1] eqn:Eg. destruct (get_law _ _ _ _ _ _ Hk Eg) as (_ & Hsub & Hs & Hn). destruct rc.
  - destruct (Hs eq_refl) as (x & e & -> & Hx & Ht). injection E as <- <- <-. split; [done|]. left. split; [done|]. by exists x, e.
  - injection E as <- <- <-. split; [done|]. right. left. split_and!; [done|done|by apply Hn].
  - injection E as <- <- <-. split; [done|]. right. by right.
Qed.

(** What [get_session_info] answers: the session that is stored and has not expired, or
    that there is none, or a failure. *)
Definition get_answer (k : list Z) (info : STU_SESSION_INFO) (s : state C W) (x : Z * STU_SESSION_INFO * state C W) : Prop :=
  let '(r, info', s') := x in
  held (world s') ⊆ held (world s) ∧ length (m_client_queue s') = length (m_client_queue s) ∧
  ((r = 1 ∧ info' = info ∧ ∃ v e, held (world s) !! k = Some (v, e) ∧ time (world s) < e) ∨
   (r = 0 ∧ info' = no_session ∧ ∀ v e, held (world s') !! k = Some (v, e) → e ≤ time (world s')) ∨
   (r = -1 ∧ info' = no_session)).

Lemma get_session_ok sessionid info (s : state C W) e :
  valid_key (key sessionid) → session_ok info → (∀ v e', held (world s) !! key sessionid = Some (v, e') → v = members_text (session_entries info) ∧ e' = e) →
  returns (get_session_info pow sessionid no_session s) (get_answer (key sessionid) info s).
Proof.
  intros Hk Hok Hheld. unfold get_session_info, with_client, fetch_client. destruct s as [queue w]. cbn [m_client_queue world] in *.
  destruct queue as [|c queue]; cbn [returns]; [split_and!; [done|done|right; by right]|].
  cbn [m_client_queue world]. destruct (get_value c (key sessionid) [] w) as [[r v] w'] eqn:Eg. unfold restore_client. cbn [m_client_queue world].
  destruct (get_value_ok _ _ _ _ _ _ _ Hk Eg) as (Hsub & [(-> & x & e1 & -> & Hx & Ht)|[(-> & -> & Hn)|(-> & ->)]]).
  - cbn [app]. destruct (Hheld _ _ Hx) as [-> ->]. rewrite !bool_decide_eq_false_2 by lia. rewrite session_decoded by done.
    cbn [mbind outcome_bind returns fst snd get_answer m_client_queue world]. split_and!; [done|rewrite length_app; cbn; lia|]. left. split_and!; [done|done|]. by eexists _, _.
  - rewrite bool_decide_eq_false_2, bool_decide_eq_true_2 by lia. cbn [returns get_answer m_client_queue world].
    split_and!; [done|rewrite length_app; cbn; lia|]. right. left. by split_and!.
  - rewrite bool_decide_eq_true_2 by lia. cbn [returns get_answer m_client_queue world]. split_and!; [done|rewrite length_app; cbn; lia|]. right. by right.
Qed.

(** C8 (functional).  When [set_session_info] has answered 0, [get_session_info] of the
    same number answers 1 with the same session, as long as the server keeps what was
    stored; or it answers 0 when the session has expired or the server has dropped it, or
    -1.  It never answers another session.  The session may hold any bytes but zero, and
    fewer than seven semicolons; other sessions are left alone, and after
    [remove_sessioninfo] has answered 0 there is no session. *)
Theorem session_stored (sessionid : list Z) (info : STU_SESSION_INFO) (s : state C W)
    (Hkey : valid_key (PREFIX_SESSIONID ++ sessionid)) (Hok : session_ok info)
    (Hexp : REALTIME_MAXDELTA < time (world s) + m_expiration) :
  returns (set_session_info print_double m_expiration sessionid info s) (λ '(r, s'),
    (r = 0 ∨ r = -1) ∧ length (m_client_queue s') = length (m_client_queue s) ∧
    delete (PREFIX_SESSIONID ++ sessionid) (held (world s')) ⊆ delete (PREFIX_SESSIONID ++ sessionid) (held (world s)) ∧
    (r = 0 → ∃ v, held (world s') !! (PREFIX_SESSIONID ++ sessionid) = Some (v, time (world s) + m_expiration) ∧
      ∀ s2 : state C W, (∀ x, held (world s2) !! (PREFIX_SESSIONID ++ sessionid) = Some x → x = (v, time (world s) + m_expiration)) →
        returns (get_session_info pow sessionid no_session s2) (get_answer (PREFIX_SESSIONID ++ sessionid) info s2))) ∧
  ((remove_sessioninfo sessionid s).1 = 0 → held (world (remove_sessioninfo sessionid s).2) !! (PREFIX_SESSIONID ++ sessionid) = None).
Proof.
  destruct s as [queue w]. cbn [world m_client_queue] in *. split.
  - unfold set_session_info, with_client, fetch_client. cbn [m_client_queue world]. destruct queue as [|c queue]; cbn [returns]; [by split_and!; [right|..]|].
    rewrite session_text by done. cbn [mbind outcome_bind].
    cbn [m_client_queue world]. destruct (set_value m_expiration c (key sessionid) (members_text (session_entries info)) w) as [r w'] eqn:Es.
    destruct (set_value_ok _ _ _ _ _ _ Hkey Hexp Es) as (Hr & Hr0 & Hd). unfold restore_client. cbn [mbind outcome_bind returns world m_client_queue].
    split; [case_bool_decide; auto|]. split; [rewrite length_app; cbn; lia|]. split; [done|]. intros Hz.
    exists (members_text (session_entries info)). split; [apply Hr0; case_bool_decide; naive_solver|]. intros s2 Hs2.
    apply get_session_ok with (e := time w + m_expiration); [done|done|]. intros v e' Hv. specialize (Hs2 _ Hv). by injection Hs2 as -> ->.
  - unfold remove_sessioninfo, with_client, fetch_client. cbn [m_client_queue world]. destruct queue as [|c queue]; [done|].
    unfold delete_value, restore_client. destruct c as [c|]; [|done]. cbn [m_client_queue world]. destruct (memcached_delete c (key sessionid) w) as [rc w'] eqn:Ed.
    destruct (delete_law _ _ _ _ _ Hkey Ed) as (_ & _ & Hn). destruct rc; cbn [fst snd world]; intros Hr; [by apply Hn|by apply Hn|done].
Qed.
End sessions.

(** With the expiration that is configured by default, 0, nothing that is stored is ever
    found. *)
Lemma default_expiration {C V W} `{MemcachedLaws C V W} c k v t (w : W) w' : valid_key k → REALTIME_MAXDELTA < time w →
  set_value 0 c k v w = (0, w') → (get_value c k t w').1.1 ≠ 1.
Proof.
  intros Hk He Es. assert (REALTIME_MAXDELTA < time w + 0) as He' by lia.
  destruct (set_value_ok 0 c k v w 0 w' Hk He' Es) as (_ & Hh & _). specialize (Hh eq_refl).
  assert (time w ≤ time w') as Ht.
  { unfold set_value in Es. destruct c as [c|]; [|done]. destruct (memcached_set c k v (time w + 0) w) as [rc w1] eqn:E.
    destruct (set_law _ _ _ _ _ _ _ Hk He' E) as (Ht & _). case_bool_decide; by simplify_eq. }
  destruct (get_value c k t w') as [[r x] w2] eqn:Eg. destruct (get_value_ok c k t w' r x w2 Hk Eg) as (_ & [(-> & y & e & _ & Hy & Hlt)|[(-> & _)|(-> & _)]]); cbn [fst]; [|lia..].
  rewrite Hh in Hy. injection Hy as <- <-. lia.
Qed.

(** ** A server *)

(** The items and the clock. *)
Definition demo_server : Type := gmap (list Z) (list Z * Z) * Z.

#[export] Instance demo_memcached : Memcached unit unit demo_server := {
  time w := w.2;
  memcached_server_list_append _ _ w := (Some tt, MEMCACHED_SUCCESS, w);
  memcached_create w := (tt, w);
  memcached_server_push _ _ w := (MEMCACHED_SUCCESS, w);
  memcached_free _ w := w;
  memcached_set _ k v e w := (MEMCACHED_SUCCESS, (<[k := (v, e)]> w.1, w.2));
  memcached_get _ k w :=
    match w.1 !! k with
    | Some (v, e) => if bool_decide (w.2 < e) then (Some v, MEMCACHED_SUCCESS, w) else (None, MEMCACHED_NOTFOUND, w)
    | None => (None, MEMCACHED_NOTFOUND, w)
    end;
  memcached_delete _ k w := (if bool_decide (w.1 !! k = None) then MEMCACHED_NOTFOUND else MEMCACHED_SUCCESS, (delete k w.1, w.2));
}.

#[export] Instance demo_memcached_laws : MemcachedLaws unit unit demo_server.
Proof.
  refine {| held w := w.1 |}.
  - intros [] k v e w rc w' _ _ [= <- <-]. cbn. split; [lia|]. split; [by rewrite delete_insert_eq|]. intros _. apply lookup_insert_eq.
  - intros [] k w r rc w' _ E. cbn in E. destruct (w.1 !! k) as [[v e]|] eqn:Ek; [case_bool_decide|]; injection E as <- <- <-; split_and!; try done; try lia.
    + intros _. by exists v, e.
    + intros _ v' e' E'. rewrite Ek in E'. injection E' as <- <-. cbn. lia.
    + intros _ v' e' E'. by rewrite Ek in E'.
  - intros [] k w rc w' _ [= <- <-]. cbn. split; [lia|]. split; [apply delete_subseteq|]. intros _. apply lookup_delete_eq.
Defined.

Definition demo_info : STU_SESSION_INFO :=
  mk_session (str "user") [34; 92; 200] (str "10.0.0.1") (str "12345") [] (str "000075") (str "0") (str "http://h/;a") [] (str "7") [] [] [].
Definition demo_state : state unit demo_server := mk_state [Some tt] (∅, 1400000000).

Lemma session_stored_witness :
  (set_session_info (λ _ _, []) 3600 (str "abc") demo_info demo_state ≫= λ x, get_session_info demo_pow (str "abc") no_session x.2)
    = Ret (1, demo_info, mk_state [Some tt] ({[str "01abc" := (members_text (session_entries demo_info), 1400003600)]}, 1400000000)) ∧
  returns (set_session_info (λ _ _, []) 3600 (str "abc") demo_info demo_state) (λ '(r, s'),
    (r = 0 ∨ r = -1) ∧ length (m_client_queue s') = length (m_client_queue demo_state) ∧
    delete (PREFIX_SESSIONID ++ str "abc") (held (world s')) ⊆ delete (PREFIX_SESSIONID ++ str "abc") (held (world demo_state)) ∧
    (r = 0 → ∃ v, held (world s') !! (PREFIX_SESSIONID ++ str "abc") = Some (v, time (world demo_state) + 3600) ∧
      ∀ s2 : state unit demo_server, (∀ x, held (world s2) !! (PREFIX_SESSIONID ++ str "abc") = Some x → x = (v, time (world demo_state) + 3600)) →
        returns (get_session_info demo_pow (str "abc") no_session s2) (get_answer (PREFIX_SESSIONID ++ str "abc") demo_info s2))).
Proof.
  split; [by vm_compute|]. refine (proj1 (session_stored (λ _ _, []) demo_pow 3600 (str "abc") demo_info demo_state _ _ _)).
  - split; [by vm_compute|]. apply (bool_decide_unpack _). by vm_compute.
  - split; [apply (bool_decide_unpack _); by vm_compute|by apply (bool_decide_unpack _); vm_compute].
  - by vm_compute.
Defined.

(** A session with seven semicolons, here in the URL, is taken for one of the old format:
    the user's name is the first part of the JSON text. *)
Definition semicolon_info : STU_SESSION_INFO :=
  mk_session (str "user") [] [] [] [] [] (str "0") (str "a;b;c;d;e;f;g;h") [] [] [] [] [].

Lemma session_semicolons :
  session_to_json (λ _ _, []) semicolon_info = Ret (members_text (session_entries semicolon_info)) ∧
  ∃ info, decode_session demo_pow (members_text (session_entries semicolon_info)) no_session = Ret (1, info) ∧
    username info ≠ username semicolon_info ∧ useloginstate info = str "g".
Proof. split; [by vm_compute|]. eexists. split; [by vm_compute|]. split; [by vm_compute|by vm_compute]. Qed.
