(* ===== verification/Platform.v ===== *)
(** * The client of the game platforms
    ([main/libcurlclient.cpp] and [service/loginwebgame_service.cpp] of
    [logingame_server/src/])

    The login server asks a game platform, and once more the platform that stands in
    for it, whether a user may enter a game: a signed POST request whose answer is a
    text of keys and values, or JSON when the platform failed.  libcurl and the
    platforms are behind the class [Curl]; [CurlLaws] states what is documented of
    them.  Statistics of times are left out. *)

From Stdlib Require Import String.
From S2P Require Import Prelude Text Utility MyCommon Config Json.

(** ** Definitions: libcurl *)

(** Texts are C strings, which libcurl copies or keeps for the time of the request. *)
Inductive curl_option : Type :=
  | CURLOPT_URL (url : list Z)
  | CURLOPT_POSTFIELDS (fields : list Z)
  | CURLOPT_WRITEFUNCTION
  | CURLOPT_WRITEDATA
  | CURLOPT_TIMEOUT (seconds : Z)
  | CURLOPT_HEADERDATA
  | CURLOPT_HEADERFUNCTION.

(** [E] are the handles, [W] is the rest of the world.  [curl_easy_perform] gives the
    callbacks pieces of the head ([true]) and of the body ([false]).  A result is whether
    the code is [CURLE_OK]. *)
Class Curl (E W : Type) := {
  curl_easy_init : W → option E * W;
  curl_easy_setopt : E → curl_option → W → bool * W;
  curl_easy_perform : E → W → bool * list (bool * list Z) * W;
  curl_easy_cleanup : E → W → W;
}.

Record libcurlclient : Type := mk_libcurlclient { m_str_response_body : list Z; m_str_response_header : list Z }.
Definition new_libcurlclient : libcurlclient := mk_libcurlclient [] [].

Definition writer_response (data content : list Z) : list Z := content ++ data.
Definition writer_header (data content : list Z) : list Z := content ++ data.

Definition receive (c : libcurlclient) (piece : bool * list Z) : libcurlclient :=
  if piece.1 then mk_libcurlclient (m_str_response_body c) (writer_header piece.2 (m_str_response_header c))
  else mk_libcurlclient (writer_response piece.2 (m_str_response_body c)) (m_str_response_header c).

Section curl.
Context {E W : Type} `{Curl E W}.

(** One option after the other; the handle is cleaned up after the first that fails. *)
Fixpoint set_options (curl : E) (options : list curl_option) (w : W) : bool * W :=
  match options with
  | [] => (true, w)
  | o :: options =>
      let (ok, w) := curl_easy_setopt curl o w in
      if ok : bool then set_options curl options w else (false, curl_easy_cleanup curl w)
  end.

(** When the request fails, the handle stays. *)
Definition http_request (str_url str_post_param : list Z) (c : libcurlclient) (w : W) : Z * libcurlclient * W :=
  let (curl, w) := curl_easy_init w in
  match curl with
  | None => (-1, c, w)
  | Some curl =>
      let (ok, w) := set_options curl [CURLOPT_URL (c_string str_url); CURLOPT_POSTFIELDS (c_string str_post_param); CURLOPT_WRITEFUNCTION;
                                       CURLOPT_WRITEDATA; CURLOPT_HEADERDATA; CURLOPT_HEADERFUNCTION] w in
      if negb ok then (-1, c, w)
      else
        let '(res, pieces, w) := curl_easy_perform curl w in
        let c := foldl receive c pieces in
        if negb res then (-1, c, w) else (0, c, curl_easy_cleanup curl w)
  end.

Definition http_request_timeout_seconds (str_url str_post_param : list Z) (timeout : Z) (c : libcurlclient) (w : W) : Z * libcurlclient * W :=
  let (curl, w) := curl_easy_init w in
  match curl with
  | None => (-1, c, w)
  | Some curl =>
      let (ok, w) := set_options curl [CURLOPT_URL (c_string str_url); CURLOPT_POSTFIELDS (c_string str_post_param); CURLOPT_WRITEFUNCTION;
                                       CURLOPT_WRITEDATA; CURLOPT_TIMEOUT timeout; CURLOPT_HEADERDATA; CURLOPT_HEADERFUNCTION] w in
      if negb ok then (-1, c, w)
      else
        let '(res, pieces, w) := curl_easy_perform curl w in
        let c := foldl receive c pieces in
        if negb res then (-1, c, curl_easy_cleanup curl w) else (0, c, curl_easy_cleanup curl w)
  end.
End curl.

(** ** Definitions: the service *)
Record STU_GAME_RESULT : Type := mk_game_result {
  loginStatus : list Z;
  gameLoginStatus : list Z;
  gameLoginURL : list Z;
  listNum : list Z;
  rtnMsg : list Z;
  costTime : list Z;
}.
Definition no_result : STU_GAME_RESULT := mk_game_result [] [] [] [] [] [].
Definition set_listNum (v : list Z) (r : STU_GAME_RESULT) : STU_GAME_RESULT :=
  mk_game_result (loginStatus r) (gameLoginStatus r) (gameLoginURL r) v (rtnMsg r) (costTime r).
Definition set_loginStatus (v : list Z) (r : STU_GAME_RESULT) : STU_GAME_RESULT :=
  mk_game_result v (gameLoginStatus r) (gameLoginURL r) (listNum r) (rtnMsg r) (costTime r).
Definition set_rtnMsg (v : list Z) (r : STU_GAME_RESULT) : STU_GAME_RESULT :=
  mk_game_result (loginStatus r) (gameLoginStatus r) (gameLoginURL r) (listNum r) v (costTime r).

(** The static fields. *)
Record loginwebgame_service : Type := mk_loginwebgame_service {
  m_map_newgameid : gmap (list Z) (list Z);
  m_old_gameserver : list Z;
  m_new_gameserver : list Z;
  m_md5key : list Z;
  m_gamelogin_rtn_default_errmsg : list Z;
  m_new_gameserver_retry : list Z;
  m_timeout : Z;
}.

(** The parameters that the functions of the service hand on. *)
Record login_args : Type := mk_login_args {
  a_username : list Z; a_password : list Z; a_userid : list Z; a_copartnerid : list Z; a_gameid : list Z; a_sid : list Z;
  a_loginurl : list Z; a_serverid : list Z; a_clientip : list Z; a_clientid : Z; a_comefrom : list Z; a_comefrom1 : list Z;
  a_comefrom2 : list Z; a_comefrom3 : list Z; a_tokenid : list Z;
}.

(** The error codes it uses. *)
Definition SUCCESS : Z := 1.
Definition MD5_VERIFY_ERROR : Z := 301.
Definition LOGIN_GAME_PARAM_ERROR : Z := 302.
Definition OTHER_SYS_ERROR : Z := 303.
Definition LOGIN_GAME_ILLEGAL_ACCESS : Z := 304.

Definition parseLoginGame (weblogingame_rtn_code : Z) : Z :=
  if weblogingame_rtn_code =? 0 then SUCCESS
  else if weblogingame_rtn_code =? 20 then LOGIN_GAME_ILLEGAL_ACCESS
  else if weblogingame_rtn_code =? 21 then LOGIN_GAME_PARAM_ERROR
  else if weblogingame_rtn_code =? 22 then MD5_VERIFY_ERROR
  else OTHER_SYS_ERROR.

Section service.
Context `{Boost}.
(** MD5 of OpenSSL, [iconv] from GBK to UTF-8 on a text into a room, and [pow]. *)
Context (MD5 : list Z → list Z) (iconv : list Z → Z → list Z) (pow : double → double → double).

(** The output is cleared first. *)
Definition code_convert (pszInBuf : list Z) (iOutLen : Z) : list Z :=
  let out := iconv pszInBuf iOutLen in out ++ replicate (Z.to_nat (iOutLen - slen out)) 0.
Definition GBKToUTF8 (sStr : list Z) : outcome (list Z) :=
  let pOutBuf := code_convert (c_string sStr ++ [0]) (3 * slen sStr + 1) in
  if bool_decide (0 ∈ pOutBuf) then Ret (c_string pOutBuf) else Stuck.

(** The message in GBK. *)
Definition default_errmsg : list Z := [181; 199; 194; 189; 183; 254; 206; 241; 198; 247; 73; 79; 210; 236; 179; 163].

Definition INIT_LOGINWEBGAME (config : list item) (m : gmap (list Z) (list Z)) : outcome loginwebgame_service :=
  let old := getString config (str "old_gameserver") (str "websvr.youxi.xunlei.com1") in
  let new := getString config (str "new_gameserver") (str "websvr.niu.xunlei.com1") in
  let retry := getString config (str "new_gameserver_retry") (str "websvr2.niu.xunlei.com") in
  let md5key := getString config (str "weblogingame_md5key") (str "weblogingame_md5key") in
  let! timeout := getInt config (str "curl_timeout") 20 in
  let newids := getString config (str "new_gameid") (str "000075") in
  let m := foldl (λ m s, if bool_decide (s = []) then m else map_insert m s (str "1")) m (boost_split newids [44]) in
  let! errmsg := GBKToUTF8 default_errmsg in
  Ret (mk_loginwebgame_service m old new md5key errmsg retry timeout).

(** The fields of the request but the signature. *)
Definition secured (p : loginwebgame_service) (str_url_decoded : list Z) (a : login_args) : list Z :=
  a_username a ++ a_password a ++ a_userid a ++ a_copartnerid a ++ a_gameid a ++ a_sid a ++ str_url_decoded ++ a_serverid a ++
  a_clientip a ++ m_md5key p.

Definition md5_hex (securty : list Z) : outcome (list Z) :=
  for_range 0 16 (λ i buf, let! c := aget (MD5 securty) i in Ret (buf ++ print_hex 97 c)) [].

Definition request_text (a : login_args) (md5sign : list Z) : list Z :=
  str "username=" ++ a_username a ++ str "&pwd=" ++ a_password a ++ str "&userid=" ++ a_userid a ++ str "&copartnerid=" ++ a_copartnerid a ++
  str "&gameid=" ++ a_gameid a ++ str "&sid=" ++ a_sid a ++ str "&loginurl=" ++ a_loginurl a ++ str "&serverid=" ++ a_serverid a ++
  str "&sign=" ++ md5sign ++ str "&clientip=" ++ a_clientip a ++ str "&clientid=" ++ format_int (a_clientid a) ++
  str "&comefrom=" ++ a_comefrom a ++ str "&comefrom1=" ++ a_comefrom1 a ++ str "&comefrom2=" ++ a_comefrom2 a ++
  str "&comefrom3=" ++ a_comefrom3 a ++ str "&tokenId=" ++ a_tokenid a.

Definition get_url_sign (p : loginwebgame_service) (a : login_args) : outcome (list Z) :=
  let! str_url_decoded := GBKToUTF8 (a_loginurl a) in
  let! str_url_decoded := URLDecode str_url_decoded in
  let! md5sign := md5_hex (secured p str_url_decoded a) in
  Ret (request_text a md5sign).

(** The status of the game is written into [listNum]. *)
Definition decode_error_json (errstr : list Z) (presult : STU_GAME_RESULT) : outcome (Z * STU_GAME_RESULT) :=
  let! pjson := cJSON_Parse pow errstr in
  match pjson with
  | None => Ret (-1, presult)
  | Some pjson =>
      let! presult :=
        match cJSON_GetObjectItem pjson (str "rtnMsg") with
        | None => Ret presult
        | Some item => match valuestring item with Some t => Ret (set_rtnMsg t presult) | None => Stuck end
        end in
      let number key (set : list Z → STU_GAME_RESULT → STU_GAME_RESULT) presult :=
        match cJSON_GetObjectItem pjson key with Some item => set (print_dec (valueint item)) presult | None => presult end in
      let presult := number (str "gameLoginStatus") set_listNum presult in
      let presult := number (str "listNum") set_listNum presult in
      let presult := number (str "loginStatus") set_loginStatus presult in
      Ret (0, presult)
  end.

(** The answer of the platform. *)
Definition decode_answer (str_response_body : list Z) : outcome STU_GAME_RESULT :=
  let! map_result := string2map str_response_body ∅ in
  let value key := get_value key map_result in
  let presult := mk_game_result (value (str "loginStatus")) (value (str "gameLoginStatus")) (value (str "gameLoginURL"))
                   (value (str "listNum")) (value (str "rtnMsg")) (value (str "costTime")) in
  if bool_decide (gameLoginStatus presult = [] ∧ gameLoginURL presult = [] ∧ listNum presult = [] ∧ loginStatus presult = [] ∧ rtnMsg presult = []) then
    let! r := decode_error_json str_response_body presult in Ret r.2
  else Ret presult.

Definition failed_result (p : loginwebgame_service) : STU_GAME_RESULT :=
  mk_game_result (str "0") (str "6") [] (str "0") (m_gamelogin_rtn_default_errmsg p) [].

Context {E W : Type} `{Curl E W}.

(** The result, [presult], [gameLoginStatus] and the world.  [gameLoginStatus] is read
    before JSON is, which does not write it. *)
Definition loginGame_internal (p : loginwebgame_service) (a : login_args) (logingameurl status : list Z) (w : W)
    : outcome (Z * STU_GAME_RESULT * list Z * W) :=
  let! sign := get_url_sign p a in
  let '(result, urlclient, w) := http_request_timeout_seconds logingameurl sign (m_timeout p) new_libcurlclient w in
  if bool_decide (result = -1) then Ret (-1, failed_result p, status, w)
  else let! presult := decode_answer (m_str_response_body urlclient) in Ret (0, presult, gameLoginStatus presult, w).

Definition loginGame (p : loginwebgame_service) (a : login_args) (w : W) : outcome (Z * STU_GAME_RESULT * W) :=
  let! r := loginGame_internal p a (m_new_gameserver p) [] w in
  let '(result, presult, status, w) := (r : Z * STU_GAME_RESULT * list Z * W) in
  if bool_decide (status = str "88" ∨ -1 = result) then
    let! r := loginGame_internal p a (m_new_gameserver_retry p) status w in
    let '(result, presult, _, w) := (r : Z * STU_GAME_RESULT * list Z * W) in
    if bool_decide (gameLoginStatus presult = str "88") then Ret (-2, presult, w)
    else Ret (if bool_decide (result = 0) then 0 else -1, presult, w)
  else Ret (if bool_decide (result = 0) then 0 else -1, presult, w).
End service.

(** ** What is documented of libcurl

    How many handles there are; the options that have been set for a handle, the last
    one first; and the requests that were made: the URL, the text that was posted and
    the body of the answer, when there was one. *)
Definition exchange : Type := list Z * list Z * option (list Z).

Class CurlServer (E W : Type) := {
  handles : W → Z;
  setting : W → E → list curl_option;
  exchanges : W → list exchange;
}.

Fixpoint url_of (options : list curl_option) : option (list Z) :=
  match options with
  | [] => None
  | CURLOPT_URL url :: _ => Some url
  | _ :: options => url_of options
  end.
Fixpoint fields_of (options : list curl_option) : option (list Z) :=
  match options with
  | [] => None
  | CURLOPT_POSTFIELDS fields :: _ => Some fields
  | _ :: options => fields_of options
  end.

Definition body_of (pieces : list (bool * list Z)) : list Z := mjoin (snd <$> filter (λ x, x.1 = false) pieces).

Class CurlLaws (E W : Type) `{Curl E W} `{CurlServer E W} : Prop := {
  init_law w e w' : curl_easy_init w = (e, w') → exchanges w' = exchanges w ∧
    match e with Some e => handles w' = handles w + 1 ∧ setting w' e = [] | None => handles w' = handles w end;
  setopt_law e o w ok w' : curl_easy_setopt e o w = (ok, w') → exchanges w' = exchanges w ∧ handles w' = handles w ∧
    (ok = true → setting w' e = o :: setting w e);
  perform_law e w ok pieces w' url fields : curl_easy_perform e w = (ok, pieces, w') →
    url_of (setting w e) = Some url → fields_of (setting w e) = Some fields → handles w' = handles w ∧
    exchanges w' = exchanges w ++ [(url, fields, if ok then Some (body_of pieces) else None)];
  cleanup_law e w : exchanges (curl_easy_cleanup e w) = exchanges w ∧ handles (curl_easy_cleanup e w) = handles w - 1;
}.

(** ** Specification *)

(** A request that was tried: it may have been made, and answered with [answer]. *)
Definition tried (url fields : list Z) (l : list exchange) (answer : option (list Z)) : Prop :=
  l = [(c_string url, c_string fields, answer)] ∨ l = [] ∧ answer = None.

(** The platform says, or does not say, that the user is to ask elsewhere. *)
Definition redirected (r : STU_GAME_RESULT) : Prop := gameLoginStatus r = str "88".

(** An answer that can be read: keys and values, or JSON without a message that is no
    text. *)
Definition answer_ok `{Boost} (pow : double → double → double) (body : list Z) : Prop :=
  (∃ m k, string2map body ∅ = Ret m ∧ k ∈ [str "loginStatus"; str "gameLoginStatus"; str "gameLoginURL"; str "listNum"; str "rtnMsg"] ∧ get_value k m ≠ []) ∨
  (∃ json, cJSON_Parse pow body = Ret json ∧
     ∀ root item, json = Some root → cJSON_GetObjectItem root (str "rtnMsg") = Some item → is_Some (valuestring item)).

(** Every percent sign has two characters behind it. *)
Fixpoint url_complete (s : list Z) : bool :=
  match s with
  | [] => true
  | c :: s => if bool_decide (c = 37) then match s with _ :: _ :: s => url_complete s | _ => false end else url_complete s
  end.

(** ** Lemmas: texts *)
Lemma complete_split s p c : 0 ≤ p → s !! Z.to_nat p = Some c → url_complete (drop (Z.to_nat p) s) = true →
  if bool_decide (c = 37) then p + 2 < slen s ∧ url_complete (drop (Z.to_nat (p + 2 + 1)) s) = true else url_complete (drop (Z.to_nat (p + 1)) s) = true.
Proof.
  intros Hp Hc Hd. rewrite (drop_S _ _ _ Hc) in Hd. cbn [url_complete] in Hd.
  replace (Z.to_nat (p + 1)) with (S (Z.to_nat p)) by lia. replace (Z.to_nat (p + 2 + 1)) with (S (Z.to_nat p) + 2)%nat by lia.
  case_bool_decide; [|done]. destruct (drop (S (Z.to_nat p)) s) as [|a [|b l]] eqn:E; [done..|]. split.
  - apply (f_equal length) in E. rewrite length_drop in E. cbn in E. lia.
  - by rewrite <-drop_drop, E.
Qed.

Lemma drop_aset x y (url : list Z) c : 0 ≤ x < slen url → x < y → ∃ url', aset url x c = Ret url' ∧ length url' = length url ∧
  drop (Z.to_nat y) url' = drop (Z.to_nat y) url.
Proof. intros Hx Hy. rewrite aset_ok by lia. eexists. split; [done|]. rewrite length_insert, drop_insert_lt by lia. done. Qed.

Definition decoding (s : list Z) (st : Z * Z * list Z) : Prop :=
  let '(x, y, url) := st in 0 ≤ x ≤ y ∧ y ≤ slen s ∧ length url = S (length s) ∧
    drop (Z.to_nat y) url = drop (Z.to_nat y) (s ++ [0]) ∧ url_complete (drop (Z.to_nat y) s) = true.

Lemma decoding_step s st : (0 ∉ s) → decoding s st → returns (unescape_step st) (λ r, match r with
  | inl st' => decoding s st' ∧ st.1.2 < st'.1.2 | inr r => 0 ≤ r.1 < slen r.2 end).
Proof.
  intros H0. destruct st as [[x y] url]. intros (Hx & Hy & Hlen & Hd & Hc). cbn [unescape_step fst snd].
  destruct (lookup_lt_is_Some_2 (s ++ [0]) (Z.to_nat y)) as [c Ec]; [rewrite length_app; cbn; lia|]. rewrite (drop_S _ _ _ Ec) in Hd.
  assert (0 ≤ y) as Hy0 by lia. rewrite (aget_drop _ _ _ _ Hy0 Hd). cbn [mbind outcome_bind]. case_bool_decide as Ec0; [cbn [returns fst snd]; lia|].
  assert (s !! Z.to_nat y = Some c) as Es.
  { apply lookup_app_Some in Ec as [?|[Hl Ec]]; [done|]. replace (Z.to_nat y - length s)%nat with 0%nat in Ec by lia. injection Ec as <-. done. }
  pose proof (complete_split s y c ltac:(lia) Es Hc) as Hn. apply lookup_lt_Some in Es.
  assert (∀ z, y < z → drop (Z.to_nat z) url = drop (Z.to_nat z) (s ++ [0])) as Hdz.
  { intros z Hz. replace (Z.to_nat z) with (Z.to_nat y + (1 + (Z.to_nat z - Z.to_nat y - 1)))%nat by lia. rewrite <-!(drop_drop _ _ (Z.to_nat y)).
    by rewrite Hd, (drop_S _ _ _ Ec). }
  destruct (drop_aset x (y + 1) url c) as (url1 & E1 & L1 & D1); [lia..|]. rewrite E1. cbn [mbind outcome_bind].
  assert (∀ z, y < z → drop (Z.to_nat z) url1 = drop (Z.to_nat z) (s ++ [0])) as Hdz1.
  { intros z Hz. rewrite <-Hdz by done. replace (Z.to_nat z) with (Z.to_nat (y + 1) + (Z.to_nat z - Z.to_nat (y + 1)))%nat by lia.
    by rewrite <-!(drop_drop _ _ (Z.to_nat (y + 1))), D1. }
  case_bool_decide as E37.
  - destruct Hn as [Hn1 Hn2]. unfold x2c.
    destruct (lookup_lt_is_Some_2 url1 (Z.to_nat (y + 1))) as [a Ea]; [lia|]. destruct (lookup_lt_is_Some_2 url1 (Z.to_nat (y + 1 + 1))) as [b Eb]; [lia|].
    rewrite (aget_lookup url1 (y + 1) a), (aget_lookup url1 (y + 1 + 1) b) by (done || lia). cbn [mbind outcome_bind].
    destruct (drop_aset x (y + 2 + 1) url1 (x2c_value a b)) as (url2 & E2 & L2 & D2); [lia..|]. rewrite E2. cbn [mbind outcome_bind returns fst snd].
    split; [|lia]. split_and!; [lia..|by rewrite D2, Hdz1 by lia|done].
  - assert (∃ e, aget url1 y = Ret e) as [e Ee].
    { destruct (lookup_lt_is_Some_2 url1 (Z.to_nat y)) as [e Ee]; [lia|]. exists e. by apply aget_lookup; [lia|]. }
    rewrite Ee. cbn [mbind outcome_bind]. case_bool_decide.
    + destruct (drop_aset x (y + 1) url1 32) as (url2 & E2 & L2 & D2); [lia..|]. rewrite E2. cbn [mbind outcome_bind returns fst snd].
      split; [|lia]. split_and!; [lia..|by rewrite D2, Hdz1 by lia|done].
    + cbn [returns fst snd]. split; [|lia]. split_and!; [lia..|by rewrite Hdz1 by lia|done].
Qed.

(** [URLDecode] of such a text reads nothing behind its end. *)
Lemma URLDecode_complete s : (0 ∉ s) → url_complete s = true → ∃ u, URLDecode s = Ret u.
Proof.
  intros H0 Hs. unfold URLDecode, unescape_url. rewrite c_string_id by done.
  assert (returns (loop (S (length (s ++ [0]))) unescape_step (0, 0, s ++ [0])) (λ r, 0 ≤ r.1 < slen r.2)) as Hl.
  { apply (loop_returns (decoding s) (λ st, Z.to_nat (slen s - st.1.2))).
    - intros st Hst. eapply returns_mono; [by apply decoding_step|]. intros [st'|r]; [|done]. destruct st' as [[x' y'] url']. cbn [fst snd].
      intros [Hst' ?]. split; [done|]. destruct Hst' as (_ & ? & _). lia.
    - split_and!; [lia|lia|lia|rewrite length_app; cbn; lia|done|done].
    - rewrite length_app. cbn. lia. }
  destruct (loop _ _ _) as [[x url]| |]; [|done..]. cbn [returns fst snd mbind outcome_bind] in *. rewrite aset_ok by lia. by eexists.
Qed.

(** ** Lemmas: libcurl *)
Section curl_lemmas.
Context {E W : Type} `{CurlLaws E W}.

Lemma set_options_spec curl options w ok w' : set_options curl options w = (ok, w') →
  exchanges w' = exchanges w ∧ handles w' = handles w - (if ok then 0 else 1) ∧ (ok = true → setting w' curl = rev options ++ setting w curl).
Proof.
  revert w. induction options as [|o options IH]; intros w; cbn [set_options].
  { intros [= <- <-]. by split_and!; [|lia|]. }
  destruct (curl_easy_setopt curl o w) as [ok1 w1] eqn:E1. destruct (setopt_law _ _ _ _ _ E1) as (Hx & Hh & Hs). destruct ok1.
  - intros (Hx2 & Hh2 & Hs2)%IH. split_and!; [congruence|lia|]. intros Hok. rewrite Hs2, Hs by done. cbn [rev]. by rewrite <-app_assoc.
  - intros [= <- <-]. destruct (cleanup_law curl w1) as [Hx2 Hh2]. split_and!; [congruence|lia|done].
Qed.

Lemma receive_body c pieces : m_str_response_body (foldl receive c pieces) = m_str_response_body c ++ body_of pieces.
Proof.
  revert c. induction pieces as [|[[] d] pieces IH]; intros c; [by rewrite app_nil_r|..]; cbn [foldl]; rewrite IH; [done|].
  change (body_of ((false, d) :: pieces)) with (d ++ body_of pieces). cbn. unfold writer_response. by rewrite <-app_assoc.
Qed.

(** What a request with a limit leaves: no handle, and an answer that is the one of the
    server, if the result is 0. *)
Lemma http_request_spec (Q : list Z → Prop) url fields timeout c w r c' w' :
  (∀ e w ok pieces w', curl_easy_perform e w = (ok, pieces, w') → Q (body_of pieces)) →
  http_request_timeout_seconds url fields timeout c w = (r, c', w') →
  handles w' = handles w ∧ ∃ l answer, exchanges w' = exchanges w ++ l ∧ tried url fields l answer ∧
    match answer with None => r = -1 | Some body => r = 0 ∧ m_str_response_body c' = m_str_response_body c ++ body ∧ Q body end.
Proof.
  intros HQ. unfold http_request_timeout_seconds. destruct (curl_easy_init w) as [[curl|] w1] eqn:E1; destruct (init_law _ _ _ E1) as [Hx1 Hh1].
  2:{ intros [= <- <- <-]. split; [done|]. exists [], None. rewrite app_nil_r. split_and!; [done|by right|done]. }
  destruct Hh1 as [Hh1 Hs1]. match goal with |- context [set_options curl ?l w1] => set (options := l) end.
  destruct (set_options curl options w1) as [ok w2] eqn:E2. destruct (set_options_spec _ _ _ _ _ E2) as (Hx2 & Hh2 & Hs2).
  destruct ok; cbn [negb].
  - rewrite Hs1 in Hs2. specialize (Hs2 eq_refl). destruct (curl_easy_perform curl w2) as [[res pieces] w3] eqn:E3.
    destruct (perform_law _ _ _ _ _ (c_string url) (c_string fields) E3) as [Hh3 Hx3]; [by rewrite Hs2..|].
    destruct (cleanup_law curl w3) as [Hx4 Hh4]. destruct res; cbn [negb]; intros [= <- <- <-]; (split; [lia|]); eexists _, _; rewrite Hx4, Hx3, Hx2, Hx1;
      (split; [done|]); (split; [by left|]); [|done]. split; [done|]. split; [apply receive_body|by eapply HQ].
  - intros [= <- <- <-]. split; [lia|]. exists [], None. rewrite app_nil_r. split_and!; [congruence|by right|done].
Qed.

(** A request without a limit that fails leaves its handle behind. *)
Lemma http_request_leaks url fields c w c' w' : http_request url fields c w = (-1, c', w') → exchanges w' ≠ exchanges w → handles w' = handles w + 1.
Proof.
  unfold http_request. destruct (curl_easy_init w) as [[curl|] w1] eqn:E1; destruct (init_law _ _ _ E1) as [Hx1 Hh1]; [|by intros [= <- <-]].
  destruct Hh1 as [Hh1 Hs1]. match goal with |- context [set_options curl ?l w1] => set (options := l) end.
  destruct (set_options curl options w1) as [ok w2] eqn:E2. destruct (set_options_spec _ _ _ _ _ E2) as (Hx2 & Hh2 & Hs2).
  destruct ok; cbn [negb]; [|intros [= <- <-] Hx; congruence]. rewrite Hs1 in Hs2. specialize (Hs2 eq_refl).
  destruct (curl_easy_perform curl w2) as [[res pieces] w3] eqn:E3.
  destruct (perform_law _ _ _ _ _ (c_string url) (c_string fields) E3) as [Hh3 Hx3]; [by rewrite Hs2..|]. destruct res; [done|]. intros [= <- <-] _. lia.
Qed.
End curl_lemmas.

(** ** Lemmas: the service *)

(** A text of GBK has at most three times as many bytes in UTF-8; [iconv] ends with the
    terminator, or before it. *)
Definition iconv_ok (iconv : list Z → Z → list Z) : Prop :=
  ∀ s n, (0 ∉ s) → ∃ a b, iconv (s ++ [0]) n = a ++ b ∧ slen a ≤ 3 * slen s ∧ (b = [] ∨ b = [0]).

Section service_lemmas.
Context `{Boost} (MD5 : list Z → list Z) (iconv : list Z → Z → list Z) (pow : double → double → double).
Context (HMD5 : ∀ s, length (MD5 s) = 16%nat).

Lemma GBKToUTF8_total s : iconv_ok iconv → ∃ u, GBKToUTF8 iconv s = Ret u ∧ (0 ∉ u).
Proof.
  intros Hi. unfold GBKToUTF8, code_convert. destruct (Hi (c_string s) (3 * slen s + 1) (c_string_no_nul s)) as (a & b & -> & Ha & Hb).
  rewrite bool_decide_eq_true_2; [eexists; split; [done|apply c_string_no_nul]|]. pose proof (c_string_length s) as Hl.
  destruct Hb as [-> | ->].
  - rewrite app_nil_r. apply elem_of_app. right. apply elem_of_replicate. split; [done|lia].
  - rewrite <-app_assoc. apply elem_of_app. right. by left.
Qed.

Lemma md5_hex_eq s : md5_hex MD5 s = Ret (concat (map (print_hex 97) (MD5 s))).
Proof. by apply (get_md5_ok MD5 s). Qed.

(** The text that is posted, when the URL can be decoded. *)
Lemma get_url_sign_total p a u : iconv_ok iconv → GBKToUTF8 iconv (a_loginurl a) = Ret u → url_complete u = true → ∃ sign, get_url_sign MD5 iconv p a = Ret sign.
Proof.
  intros Hi Eu Hu. unfold get_url_sign. rewrite Eu. cbn [mbind outcome_bind]. destruct (GBKToUTF8_total (a_loginurl a) Hi) as (u' & Eu' & H0).
  rewrite Eu in Eu'. injection Eu' as <-. destruct (URLDecode_complete u H0 Hu) as [d ->]. cbn [mbind outcome_bind]. rewrite md5_hex_eq. by eexists.
Qed.

End service_lemmas.

Section answer_lemmas.
Context `{Boost} (pow : double → double → double).

Lemma decode_answer_ok body : answer_ok pow body → ∃ r, decode_answer pow body = Ret r.
Proof.
  intros Hok. unfold decode_answer. destruct (string2map_total body ∅) as [m Em]. rewrite Em. cbn [mbind outcome_bind gameLoginStatus gameLoginURL listNum loginStatus rtnMsg].
  case_bool_decide as Ee; [|by eexists]. unfold decode_error_json. destruct Hok as [(m' & k & Em' & Hk & Hv)|(json & -> & Hj)].
  - rewrite Em in Em'. injection Em' as <-. exfalso. rewrite !elem_of_cons, elem_of_nil in Hk.
    destruct Ee as (? & ? & ? & ? & ?). destruct Hk as [-> |[-> |[-> |[-> |[-> |[]]]]]]; tauto.
  - cbn [mbind outcome_bind]. destruct json as [root|]; [|by eexists]. destruct (cJSON_GetObjectItem root (str "rtnMsg")) as [item|] eqn:Ei; [|by eexists].
    destruct (Hj root item eq_refl Ei) as [t ->]. by eexists.
Qed.

(** Neither form of the answer changes the status of the game when it is JSON. *)
Lemma decode_error_status body r x : decode_error_json pow body r = Ret x → gameLoginStatus x.2 = gameLoginStatus r.
Proof.
  unfold decode_error_json. destruct (cJSON_Parse pow body) as [[root|]| |]; cbn [mbind outcome_bind]; [|intros [= <-]; done|done..].
  destruct (cJSON_GetObjectItem root (str "rtnMsg")) as [item|]; [destruct (valuestring item) as [t|]|]; cbn [mbind outcome_bind]; [|done|];
    intros [= <-]; cbn [snd]; repeat case_match; done.
Qed.
End answer_lemmas.

(** ** Asking the platforms *)

Section login.
Context `{Boost} (MD5 : list Z → list Z) (iconv : list Z → Z → list Z) (pow : double → double → double).

(** The first platform did not answer, or sends the user elsewhere. *)
Definition passed_on (answer : option (list Z)) : Prop :=
  match answer with None => True | Some body => ∃ r, decode_answer pow body = Ret r ∧ redirected r end.

(** What [loginGame] promises: the requests that were made, the result and [presult]. *)
Inductive login_outcome (p : loginwebgame_service) (sign : list Z) : list exchange → Z → STU_GAME_RESULT → Prop :=
  | outcome_first l body r :
      tried (m_new_gameserver p) sign l (Some body) → decode_answer pow body = Ret r → ¬ redirected r → login_outcome p sign l 0 r
  | outcome_second l1 a1 l2 body r :
      tried (m_new_gameserver p) sign l1 a1 → passed_on a1 → tried (m_new_gameserver_retry p) sign l2 (Some body) →
      decode_answer pow body = Ret r → ¬ redirected r → login_outcome p sign (l1 ++ l2) 0 r
  | outcome_elsewhere l1 a1 l2 body r :
      tried (m_new_gameserver p) sign l1 a1 → passed_on a1 → tried (m_new_gameserver_retry p) sign l2 (Some body) →
      decode_answer pow body = Ret r → redirected r → login_outcome p sign (l1 ++ l2) (-2) r
  | outcome_failed l1 a1 l2 :
      tried (m_new_gameserver p) sign l1 a1 → passed_on a1 → tried (m_new_gameserver_retry p) sign l2 None →
      login_outcome p sign (l1 ++ l2) (-1) (failed_result p).

Context {E W : Type} `{CurlLaws E W}.
Context (Hmd5 : ∀ s, length (MD5 s) = 16%nat) (Hiconv : iconv_ok iconv).
Context (Hanswers : ∀ e (w : W) ok pieces w', curl_easy_perform e w = (ok, pieces, w') → answer_ok pow (body_of pieces)).

Lemma internal_spec p a sign url status (w : W) : get_url_sign MD5 iconv p a = Ret sign →
  returns (loginGame_internal MD5 iconv pow p a url status w) (λ '(r, presult, status', w'),
    handles w' = handles w ∧ ∃ l answer, exchanges w' = exchanges w ++ l ∧ tried url sign l answer ∧
    match answer with
    | None => r = -1 ∧ presult = failed_result p ∧ status' = status
    | Some body => r = 0 ∧ decode_answer pow body = Ret presult ∧ status' = gameLoginStatus presult
    end).
Proof.
  intros Es. unfold loginGame_internal. rewrite Es. cbn [mbind outcome_bind].
  destruct (http_request_timeout_seconds url sign (m_timeout p) new_libcurlclient w) as [[r c] w'] eqn:Er.
  destruct (http_request_spec (answer_ok pow) _ _ _ _ _ _ _ _ Hanswers Er) as (Hh & l & answer & Hx & Ht & Ha). destruct answer as [body|].
  - destruct Ha as (-> & Hb & Hok). cbn in Hb. rewrite bool_decide_eq_false_2, Hb by done. destruct (decode_answer_ok pow body Hok) as [presult Ed]. rewrite Ed.
    cbn [mbind outcome_bind returns]. split; [done|]. by exists l, (Some body).
  - subst r. cbn. split; [done|]. by exists l, None.
Qed.

(** With the text that is posted. *)
Lemma loginGame_spec p a sign (w : W) : get_url_sign MD5 iconv p a = Ret sign →
  returns (loginGame MD5 iconv pow p a w) (λ '(r, presult, w'),
    handles w' = handles w ∧ ∃ l, exchanges w' = exchanges w ++ l ∧ login_outcome p sign l r presult).
Proof.
  intros Es. unfold loginGame.
  run (internal_spec p a sign (m_new_gameserver p) [] w Es). intros [[[r1 p1] st1] w1] (Hh1 & l1 & a1 & Hx1 & Ht1 & Ha1).
  assert ((st1 = str "88" ∨ -1 = r1) ∧ passed_on a1 ∨ r1 = 0 ∧ ¬ (st1 = str "88" ∨ -1 = r1) ∧ ∃ body, a1 = Some body ∧ decode_answer pow body = Ret p1 ∧ ¬ redirected p1) as Hcase.
  { destruct a1 as [body|]; [|destruct Ha1 as (-> & _); left; split; [by right|done]]. destruct Ha1 as (-> & Ed & ->).
    destruct (decide (gameLoginStatus p1 = str "88")) as [Er|Er]; [left; split; [by left|by exists p1]|right]. split; [done|]. split; [by intros [?|?]|]. by exists body. }
  destruct Hcase as [[Hc Hp]|(-> & Hc & body & -> & Ed & Hn)].
  - rewrite bool_decide_eq_true_2 by done. run (internal_spec p a sign (m_new_gameserver_retry p) st1 w1 Es).
    intros [[[r2 p2] st2] w2] (Hh2 & l2 & a2 & Hx2 & Ht2 & Ha2). destruct a2 as [body2|].
    + destruct Ha2 as (-> & Ed2 & _). case_bool_decide as Er; cbn [returns]; (split; [congruence|]); exists (l1 ++ l2); rewrite Hx2, Hx1, app_assoc; (split; [done|]).
      * by eapply outcome_elsewhere.
      * by eapply outcome_second.
    + destruct Ha2 as (-> & -> & _). rewrite bool_decide_eq_false_2 by (by vm_compute). cbn [returns]. split; [congruence|]. exists (l1 ++ l2).
      rewrite Hx2, Hx1, app_assoc. split; [done|]. by eapply outcome_failed.
  - rewrite bool_decide_eq_false_2 by done. cbn [returns]. split; [done|]. exists l1. split; [done|]. by eapply outcome_first.
Qed.

(** C7 (refinement).  [loginGame] posts the signed request to the new platform and, when
    that fails or answers that the user is to go elsewhere, once to the one that stands
    in for it, and to no other; it answers 0 with what the last platform that was asked
    said, -2 when that too sends the user elsewhere, and -1 with the message for a failure
    when it could not be asked.  No handle of libcurl is left behind.  The URL of the game
    has to have two characters behind every percent sign. *)
Theorem login_asks_platforms (p : loginwebgame_service) (a : login_args) (u : list Z) (w : W)
    (Hurl : GBKToUTF8 iconv (a_loginurl a) = Ret u) (Hcomplete : url_complete u = true) :
  ∃ sign, get_url_sign MD5 iconv p a = Ret sign ∧
    returns (loginGame MD5 iconv pow p a w) (λ '(r, presult, w'),
      handles w' = handles w ∧ ∃ l, exchanges w' = exchanges w ++ l ∧ login_outcome p sign l r presult).
Proof.
  destruct (get_url_sign_total MD5 iconv Hmd5 p a u Hiconv Hurl Hcomplete) as [sign Es]. exists sign. split; [done|]. by apply loginGame_spec.
Qed.
End login.

(** ** The request *)

(** The fields of the request, as the platform is to read them. *)
Definition request_fields (a : login_args) (md5sign : list Z) : list (list Z * list Z) :=
  [(str "username", a_username a); (str "pwd", a_password a); (str "userid", a_userid a); (str "copartnerid", a_copartnerid a);
   (str "gameid", a_gameid a); (str "sid", a_sid a); (str "loginurl", a_loginurl a); (str "serverid", a_serverid a); (str "sign", md5sign);
   (str "clientip", a_clientip a); (str "clientid", format_int (a_clientid a)); (str "comefrom", a_comefrom a); (str "comefrom1", a_comefrom1 a);
   (str "comefrom2", a_comefrom2 a); (str "comefrom3", a_comefrom3 a); (str "tokenId", a_tokenid a)].

(** What a platform signs itself, to compare: the parameters and the key they share. *)
Definition signed_text (p : loginwebgame_service) (url : list Z) (a : login_args) : list Z :=
  mjoin [a_username a; a_password a; a_userid a; a_copartnerid a; a_gameid a; a_sid a; url; a_serverid a; a_clientip a; m_md5key p].

Lemma secured_eq p url a : secured p url a = signed_text p url a.
Proof. unfold secured, signed_text. cbn. by rewrite app_nil_r. Qed.

(** No value has an ampersand, an equals sign or white space at an end. *)
Definition args_plain (a : login_args) : Prop :=
  Forall MyCommon.plain [a_username a; a_password a; a_userid a; a_copartnerid a; a_gameid a; a_sid a; a_loginurl a; a_serverid a; a_clientip a;
                a_comefrom a; a_comefrom1 a; a_comefrom2 a; a_comefrom3 a; a_tokenid a].

Lemma request_text_eq a md5sign : request_text a md5sign = join 38 (map pair_text (request_fields a md5sign)).
Proof. unfold request_text, request_fields. destruct a. cbn [a_clientid]. generalize (format_int a_clientid0). intros n. by vm_compute. Qed.

Lemma print_dec_plain n : MyCommon.plain (print_dec n).
Proof. apply plain_solid. eapply Forall_impl; [apply print_dec_chars|]. intros c [-> |Hc]; [done|]. unfold isdigit, isspace in *. lia. Qed.

Lemma hex_plain l : Forall is_u8 l → MyCommon.plain (concat (map (print_hex 97) l)).
Proof.
  intros Hl. apply plain_solid. induction Hl as [|c l Hc Hl IH]; [constructor|]. cbn [map concat]. change (print_hex 97 c) with [hex_char 97 (c / 16); hex_char 97 (c mod 16)]. unfold is_u8 in Hc. cbn [app].
  assert (∀ n, 0 ≤ n < 16 → hex_char 97 n ≠ 38 ∧ hex_char 97 n ≠ 61 ∧ isspace (hex_char 97 n) = false) as Hn.
  { intros n Hn. unfold hex_char, isspace. destruct (n <? 10) eqn:?; lia. }
  constructor; [apply Hn; dlia|]. constructor; [apply Hn; dlia|exact IH].
Qed.

Lemma request_keys a md5sign : NoDup (request_fields a md5sign).*1 ∧ Forall MyCommon.plain (request_fields a md5sign).*1.
Proof.
  change (request_fields a md5sign).*1 with (request_fields (mk_login_args [] [] [] [] [] [] [] [] [] 0 [] [] [] [] []) []).*1.
  split; [by apply (bool_decide_unpack _); vm_compute|].
  apply (Forall_impl (λ k, Forall (λ c, c ≠ 38 ∧ c ≠ 61 ∧ isspace c = false) k)); [by apply (bool_decide_unpack _); vm_compute|]. apply plain_solid.
Qed.

(** C30 (roundtrip).  If no parameter has an ampersand, an equals sign or white
    space at an end ([args_plain]: nothing is escaped, see [parameter_injected]) and every [%] of
    the URL has two characters behind it ([url_complete]), the parser of keys
    and values of these services reads, in what [get_url_sign] makes, every
    parameter as it was given, and a signature that is the digest of the
    parameters, with the URL decoded, and the shared key. *)
Theorem signed_request `{BoostLaws} (MD5 : list Z → list Z) (iconv : list Z → Z → list Z) (p : loginwebgame_service) (a : login_args) (u : list Z)
    (Hmd5 : ∀ s, length (MD5 s) = 16%nat ∧ Forall is_u8 (MD5 s)) (Hiconv : iconv_ok iconv)
    (Hurl : GBKToUTF8 iconv (a_loginurl a) = Ret u) (Hcomplete : url_complete u = true) (Hplain : args_plain a) :
  returns (get_url_sign MD5 iconv p a) (λ text, ∃ d, URLDecode u = Ret d ∧
    string2map text ∅ = Ret (list_to_map (request_fields a (concat (map (print_hex 97) (MD5 (signed_text p d a))))))).
Proof.
  unfold get_url_sign. rewrite Hurl. cbn [mbind outcome_bind]. destruct (GBKToUTF8_total iconv (a_loginurl a) Hiconv) as (u' & Eu & H0').
  rewrite Hurl in Eu. injection Eu as <-. destruct (URLDecode_complete u H0' Hcomplete) as [d Ed]. rewrite Ed. cbn [mbind outcome_bind].
  rewrite md5_hex_eq by apply Hmd5. cbn [mbind outcome_bind returns]. exists d. split; [done|]. rewrite secured_eq. set (sign := concat _).
  rewrite request_text_eq. unfold string2map. destruct (request_keys a sign) as [Hnd Hk].
  rewrite (parse_pairs Ret id (list_to_map (request_fields a sign))); [by rewrite map_fmap_id, (left_id_L ∅ (∪))|by rewrite map_to_list_to_map|].
  intros k v Hkv. apply elem_of_list_to_map in Hkv; [|done].
  assert (Forall MyCommon.plain (request_fields a sign).*2) as Hv.
  { pose proof Hplain as Hp. unfold args_plain in Hp. repeat (apply Forall_cons in Hp as [? Hp]).
    repeat (constructor; [first [done|apply hex_plain, Hmd5|apply print_dec_plain]|]). constructor. }
  rewrite Forall_fmap in Hk, Hv. rewrite Forall_forall in Hk, Hv. specialize (Hk _ Hkv). specialize (Hv _ Hkv). cbn in Hk, Hv. by split_and!.
Qed.

(** ** Platforms *)

(** What they answer; the handles, the options of the only one, and the requests. *)
Record demo_net : Type := mk_demo_net { d_handles : Z; d_options : list curl_option; d_log : list exchange }.

(** The new platform sends everybody to the other one. *)
Definition demo_answer (url : list Z) : list Z :=
  if bool_decide (url = str "new") then str "gameLoginStatus=88" else str "loginStatus=0&gameLoginStatus=0&gameLoginURL=http://g/".

#[export] Instance demo_curl : Curl unit demo_net := {
  curl_easy_init w := (Some tt, mk_demo_net (d_handles w + 1) [] (d_log w));
  curl_easy_setopt _ o w := (true, mk_demo_net (d_handles w) (o :: d_options w) (d_log w));
  curl_easy_perform _ w :=
    match url_of (d_options w), fields_of (d_options w) with
    | Some url, Some fields =>
        (true, [(true, str "HTTP/1.1 200 OK"); (false, demo_answer url)],
         mk_demo_net (d_handles w) (d_options w) (d_log w ++ [(url, fields, Some (demo_answer url))]))
    | _, _ => (false, [], w)
    end;
  curl_easy_cleanup _ w := mk_demo_net (d_handles w - 1) [] (d_log w);
}.
#[export] Instance demo_curl_server : CurlServer unit demo_net := { handles := d_handles; setting w _ := d_options w; exchanges := d_log }.

#[export] Instance demo_curl_laws : CurlLaws unit demo_net.
Proof.
  split.
  - by intros w e w' [= <- <-].
  - by intros e o w ok w' [= <- <-].
  - intros e w ok pieces w' url fields E Hu Hf. cbn in *. rewrite Hu, Hf in E. injection E as <- <- <-.
    split; [done|]. change (body_of _) with (demo_answer url ++ []). by rewrite app_nil_r.
  - done.
Qed.

Definition demo_service : loginwebgame_service := mk_loginwebgame_service ∅ [] (str "new") (str "key") (str "failed") (str "other") 20.
Definition demo_args : login_args :=
  mk_login_args (str "user") (str "pass") (str "12345") (str "0101") (str "000075") (str "1") (str "http:%2F%2Fs1.g%2F") (str "7") (str "10.0.0.1") 3
    (str "a") [] (str "b") [] (str "t").
Definition demo_iconv (s : list Z) (n : Z) : list Z := s.
Definition demo_md5 (s : list Z) : list Z := replicate 16 171.

Lemma demo_iconv_ok : iconv_ok demo_iconv.
Proof. intros s n _. exists s, [0]. split_and!; [done|lia|by right]. Qed.

Lemma login_asks_platforms_witness :
  (loginGame demo_md5 demo_iconv demo_pow demo_service demo_args (mk_demo_net 0 [] []) ≫= λ x, Ret (x.1, (λ y : exchange, y.1.1) <$> d_log x.2)) =
    Ret ((0, mk_game_result (str "0") (str "0") (str "http://g/") [] [] []), [str "new"; str "other"]) ∧
  ∃ sign, get_url_sign demo_md5 demo_iconv demo_service demo_args = Ret sign ∧
    returns (loginGame demo_md5 demo_iconv demo_pow demo_service demo_args (mk_demo_net 0 [] [])) (λ '(r, presult, w'),
      handles w' = 0 ∧ ∃ l, exchanges w' = [] ++ l ∧ login_outcome demo_pow demo_service sign l r presult).
Proof.
  split; [by vm_compute|].
  refine (login_asks_platforms demo_md5 demo_iconv demo_pow _ demo_iconv_ok _ demo_service demo_args (str "http:%2F%2Fs1.g%2F") (mk_demo_net 0 [] []) _ _); [done| |done|done].
  intros e w ok pieces w' E. cbn in E. destruct (url_of (d_options w)) as [url|]; [destruct (fields_of (d_options w))|]; injection E as <- <- <-.
  2,3: (right; exists None; split; [by vm_compute|by intros]).
  left. change (body_of _) with (demo_answer url ++ []). rewrite app_nil_r. unfold demo_answer. case_bool_decide.
  - eexists _, (str "gameLoginStatus"). split; [by vm_compute|]. split; [by apply (bool_decide_unpack _); vm_compute|by vm_compute].
  - eexists _, (str "loginStatus"). split; [by vm_compute|]. split; [by apply (bool_decide_unpack _); vm_compute|by vm_compute].
Defined.

Lemma signed_request_witness :
  returns (get_url_sign demo_md5 demo_iconv demo_service demo_args) (λ text, ∃ d, URLDecode (str "http:%2F%2Fs1.g%2F") = Ret d ∧
    string2map text ∅ = Ret (list_to_map (request_fields demo_args (concat (map (print_hex 97) (demo_md5 (signed_text demo_service d demo_args))))))).
Proof.
  refine (signed_request demo_md5 demo_iconv demo_service demo_args (str "http:%2F%2Fs1.g%2F") _ demo_iconv_ok _ _ _); [|done|done|].
  - intros s. split; [done|]. unfold demo_md5. by apply (bool_decide_unpack _); vm_compute.
  - unfold args_plain. apply (Forall_impl (λ k, Forall (λ c, c ≠ 38 ∧ c ≠ 61 ∧ isspace c = false) k)); [by apply (bool_decide_unpack _); vm_compute|].
    apply plain_solid.
Defined.

(** The parameters are not escaped: a user whose name has an ampersand and an equals
    sign chooses the server that is read, here "9" and not the "1" that was asked
    for, and loses the end of the name.  The digest is that of the texts put one
    behind the other, so it does not tell. *)
Definition injecting_args : login_args :=
  mk_login_args (str "user&sid=9") (str "pass") (str "12345") (str "0101") (str "000075") (str "1") (str "http:%2F%2Fs1.g%2F") (str "7") (str "10.0.0.1") 3
    (str "a") [] (str "b") [] (str "t").

Lemma parameter_injected :
  (let! text := get_url_sign demo_md5 demo_iconv demo_service injecting_args in
   let! m := string2map text ∅ in
   Ret (m !! str "username", m !! str "sid")) = Ret (Some (str "user"), Some (str "9")) ∧
  signed_text demo_service (str "u") (mk_login_args (str "ab") (str "c") [] [] [] [] [] [] [] 0 [] [] [] [] []) =
    signed_text demo_service (str "u") (mk_login_args (str "a") (str "bc") [] [] [] [] [] [] [] 0 [] [] [] [] []).
Proof. split; by vm_compute. Qed.

(** An answer that is neither form, such as the page of a proxy, is read as success. *)
Lemma malformed_answer_succeeds :
  decode_answer demo_pow (str "<html>502 Bad Gateway</html>") = Ret no_result ∧
  (atouint32 (loginStatus no_result ++ [0]) 0 ≫= λ n, Ret (parseLoginGame n)) = Ret SUCCESS.
Proof. split; by vm_compute. Qed.

(** The status of the game in JSON becomes the number of those who wait, and the user is
    not sent elsewhere. *)
Definition json_status_text : list Z := [123; 34] ++ str "gameLoginStatus" ++ [34; 58; 56; 56; 125].
Lemma json_status_lost : decode_answer demo_pow json_status_text = Ret (set_listNum (str "88") no_result) ∧ ¬ redirected (set_listNum (str "88") no_result).
Proof. split; by vm_compute. Qed.
