(* ===== verification/HttpPacket.v ===== *)
(** * HTTP requests: [HttpRequestPacket]
    ([logingame_server/src/main/HttpRequestPacket.cpp]; the other services have
    copies)

    A request is decoded from its text into the path, the parameters, the
    cookies and the headers.  The character conversion calls [iconv] of the C
    library, a parameter here, as are [boost::split] and [boost::trim] (class
    [Boost]) and the address of the peer.  The logging and the fields that
    only other classes use are left out.  [str\[str.length()\]] is 0. *)

From Stdlib Require Import String.
From S2P Require Import Prelude Text Utility MyCommon Config.

(** ** Definitions *)
Record packet : Type := HttpRequestPacket {
  m_str_GetRequest : list Z;
  m_str_cmdpath : list Z;
  mapParam : gmap (list Z) (list Z);
  mapCookie : gmap (list Z) (list Z);
  mapHead : gmap (list Z) (list Z);
  m_str_clientip : list Z;
}.

Definition new_packet : packet := HttpRequestPacket [] [] ∅ ∅ ∅ [].

Definition set_request (p : packet) (s : list Z) : packet :=
  HttpRequestPacket s (m_str_cmdpath p) (mapParam p) (mapCookie p) (mapHead p) (m_str_clientip p).
Definition set_params (p : packet) (s : list Z) (m : gmap (list Z) (list Z)) : packet :=
  HttpRequestPacket (m_str_GetRequest p) s m (mapCookie p) (mapHead p) (m_str_clientip p).
Definition set_cookies (p : packet) (m : gmap (list Z) (list Z)) : packet :=
  HttpRequestPacket (m_str_GetRequest p) (m_str_cmdpath p) (mapParam p) m (mapHead p) (m_str_clientip p).
Definition set_head (p : packet) (m : gmap (list Z) (list Z)) : packet :=
  HttpRequestPacket (m_str_GetRequest p) (m_str_cmdpath p) (mapParam p) (mapCookie p) m (m_str_clientip p).
Definition set_clientip (p : packet) (s : list Z) : packet :=
  HttpRequestPacket (m_str_GetRequest p) (m_str_cmdpath p) (mapParam p) (mapCookie p) (mapHead p) s.

Definition crlf_str : list Z := [13; 10].

(** *** Text *)
Definition UpperCase (sText : list Z) : list Z := map toupper sText.

Definition is_blank (c : Z) : bool := (c =? 32) || (c =? 9).

Definition TrimLeft (s : list Z) : outcome (list Z) :=
  let! pos := loop (S (S (length s))) (λ pos,
    let! c := aget (s ++ [0]) pos in
    if is_blank c then Ret (inl (pos + 1)) else Ret (inr pos)) 0 in
  substr_from s pos.

Definition TrimRight (s : list Z) : outcome (list Z) :=
  let! pos := loop (S (S (length s))) (λ pos,
    let! c := aget (s ++ [0]) pos in
    if is_blank c then Ret (inl (pos - 1)) else Ret (inr pos)) (slen s - 1) in
  substr s 0 (u64 (pos + 1)).

Definition Trim (s : list Z) : outcome (list Z) :=
  let! s := TrimLeft s in TrimRight s.

(** Its body is commented out. *)
Definition Unescape_url (url : list Z) : bool * list Z := (true, url).

(** *** Parts of a request *)

(** One "name=value": a later value replaces an earlier one. *)
Definition put_pair (sParam : list Z) (m : gmap (list Z) (list Z)) : outcome (gmap (list Z) (list Z)) :=
  match find_char 61 sParam 0 with
  | None => Ret m
  | Some valuePos =>
      let! sValue := substr_from sParam (valuePos + 1) in
      let sValue := (Unescape_url sValue).2 in
      let! name := substr sParam 0 valuePos in
      Ret (<[name := sValue]> m)
  end.

(** The loop over the pairs separated by [sep], with the last pair behind it. *)
Definition pairs_loop (sep : Z) (text : list Z) (paramStartPos : Z) (m : gmap (list Z) (list Z)) : outcome (gmap (list Z) (list Z)) :=
  loop (S (S (length text))) (λ st : Z * gmap (list Z) (list Z),
    let '(paramStartPos, m) := st in
    match find_char sep text paramStartPos with
    | Some paramEndPos =>
        let! sParam := substr text paramStartPos (paramEndPos - paramStartPos) in
        let! m := put_pair sParam m in
        Ret (inl (paramEndPos + 1, m))
    | None =>
        let! sParam := substr_from text paramStartPos in
        let! m := put_pair sParam m in
        Ret (inr m)
    end) (paramStartPos, m).

Definition ParseCookie (p : packet) (sCookie : list Z) : outcome packet :=
  if bool_decide (sCookie = []) then Ret p
  else
    let sQuery := filter (λ c, c ≠ 32) sCookie in
    let! m := pairs_loop 59 sQuery 0 (mapCookie p) in
    Ret (set_cookies p m).

Definition head_line (sLine : list Z) (m : gmap (list Z) (list Z)) : outcome (gmap (list Z) (list Z)) :=
  match find_char 58 sLine 0 with
  | None => Ret m
  | Some diffPos =>
      let! sDomain := substr sLine 0 diffPos in
      let! sValue := substr_from sLine (diffPos + 1) in
      let! sDomain := Trim sDomain in
      let sDomain := UpperCase sDomain in
      Ret (<[sDomain := sValue]> m)
  end.

Definition ParseHead (p : packet) (sHttpHead : list Z) : outcome packet :=
  let! m := loop (S (S (length sHttpHead))) (λ st : Z * gmap (list Z) (list Z),
    let '(lineBegin, m) := st in
    match find_str crlf_str sHttpHead lineBegin with
    | None => Ret (inr m)
    | Some lineEnd =>
        let! sLine := substr sHttpHead lineBegin (lineEnd - lineBegin) in
        let! m := head_line sLine m in
        Ret (inl (lineEnd + 2, m))
    end) (0, mapHead p) in
  Ret (set_head p m).

Definition GetLine (p : packet) (sWhichDomain : list Z) : list Z :=
  match mapHead p !! UpperCase sWhichDomain with
  | None => []
  | Some v => v
  end.

(** [boost::trim] is applied to the header; [peer] is the address [getpeername]
    and [inet_ntop] give, [None] when one of them fails. *)
Definition generate_client_ip `{Boost} (peer : option (list Z)) (p : packet) : packet :=
  match mapHead p !! str "X-REAL-IP" with
  | Some ip => set_clientip p (boost_trim ip)
  | None =>
      if bool_decide (m_str_clientip p = []) then set_clientip p (match peer with Some ip => ip | None => str "127.0.0.1" end)
      else p
  end.

(** [config] is the content of the configuration. *)
Definition checkReferer (config : list (list Z * list Z)) (referer : list Z) : outcome Z :=
  let! hostNo := getInt config (str "hostNo") 0 in
  if hostNo =? 0 then Ret 0
  else
    loop (S (Z.to_nat hostNo)) (λ i,
      if i <? hostNo then
        match find_str (getString config (str "referer_host_" ++ print_dec i) []) referer 0 with
        | Some _ => Ret (inr 0)
        | None => Ret (inl (i + 1))
        end
      else Ret (inr 1)) 0.

(** *** Character sets *)

(** What a call of [iconv] ends with. *)
Inductive iconv_status : Type := IconvDone | IconvTooBig | IconvInvalid.

Section packet.
Context `{Boost}.
(** [iconv] from UTF-8 to GBK, on the rest of the input and the room in the
    output: the status, how many bytes it consumed, and the bytes it wrote. *)
Context (iconv : list Z → Z → iconv_status * nat * list Z).

(** The bytes written; [--iInLen] of an unsigned 0 is a length no buffer has. *)
Definition CodeConvert2 (pszInBuf : list Z) (iOutLen : Z) : outcome (list Z) :=
  loop (S (length pszInBuf)) (λ st : list Z * list Z,
    let '(ppin, ppout) := st in
    let '(status, n, bytes) := iconv ppin (iOutLen - slen ppout) in
    let ppin := drop n ppin in
    let ppout := ppout ++ bytes in
    match status with
    | IconvInvalid =>
        match ppin with
        | [] => Stuck
        | _ :: ppin => Ret (inl (ppin, ppout))
        end
    | _ => Ret (inr ppout)
    end) (pszInBuf, []).

Definition U2G (pszInBuf : list Z) (iOutLen : Z) : outcome (list Z) := CodeConvert2 pszInBuf iOutLen.

(** [snprintf] copies up to the first 0 of the string; what is behind it in the
    input buffer, which is converted too, stays indeterminate.  The output
    buffer is cleared first and read up to its first 0. *)
Definition UTF8ToGBK (sStr : list Z) : outcome (list Z) :=
  if bool_decide (0 ∈ sStr) then Stuck
  else
    let pInBuf := sStr ++ [0] in
    let! out := U2G pInBuf (3 * slen sStr + 1) in
    let pOutBuf := out ++ replicate (3 * length sStr + 1 - length out) 0 in
    if bool_decide (0 ∈ pOutBuf) then Ret (c_string pOutBuf) else Stuck.

(** *** Requests *)
Definition ParseParam (p : packet) (sHttpRequest : list Z) : outcome packet :=
  match find_char 63 sHttpRequest 0 with
  | None => Ret (set_params p sHttpRequest ∅)
  | Some cmdPos =>
      let! path := substr sHttpRequest 0 cmdPos in
      let path := (Unescape_url path).2 in
      let! path := UTF8ToGBK path in
      let! m := pairs_loop 38 sHttpRequest (cmdPos + 1) ∅ in
      Ret (set_params p path m)
  end.

(** The beginning of both decoders: the request line and the headers. *)
Definition decode_head (p : packet) (sHttpHead : list Z) : outcome (option packet * packet) :=
  match find_str crlf_str sHttpHead 0 with
  | None => Ret (None, p)
  | Some requestPos =>
      let! sRequestLine := substr sHttpHead 0 requestPos in
      match find_char 47 sRequestLine 0 with
      | None => Ret (None, p)
      | Some pos1 =>
          match find_char 32 sRequestLine pos1 with
          | None => Ret (None, p)
          | Some pos2 =>
              let! request := substr sRequestLine pos1 (pos2 - pos1) in
              let p := set_request p request in
              let! p := ParseParam p request in
              let! p := ParseHead p sHttpHead in
              Ret (Some p, p)
          end
      end
  end.

Definition decode_get (p : packet) (sHttpHead : list Z) : outcome (Z * packet) :=
  let! r := decode_head p sHttpHead in
  match r with
  | (None, p) => Ret (-1, p)
  | (Some p, _) =>
      let! p := ParseCookie p (GetLine p (str "COOKIE")) in
      Ret (0, p)
  end.

(** The number becomes an [int]; it is compared with the size as unsigned. *)
Definition decode_post (p : packet) (sHttpHead : list Z) : outcome (Z * packet) :=
  let! r := decode_head p sHttpHead in
  match r with
  | (None, p) => Ret (-1, p)
  | (Some p, _) =>
      match mapHead p !! str "CONTENT-LENGTH" with
      | None => Ret (-1, p)
      | Some str_length =>
          let! n := atouint32_str (boost_trim str_length) in
          let intlength := s32 n in
          if slen sHttpHead <? u64 intlength then Ret (-1, p)
          else
            let! str_params := substr sHttpHead (slen sHttpHead - intlength) (u64 intlength) in
            let! m := string2map str_params (mapParam p) in
            Ret (0, set_params p (m_str_cmdpath p) m)
      end
  end.

Definition Decode (p : packet) (sHttpHead : list Z) : outcome (Z * packet) :=
  match find_str crlf_str sHttpHead 0 with
  | None => Ret (-2, p)
  | Some requestPos =>
      let! sRequestLine := substr sHttpHead 0 requestPos in
      match find_str (str "GET") sRequestLine 0 with
      | Some _ => decode_get p sHttpHead
      | None =>
          match find_str (str "POST") sRequestLine 0 with
          | Some _ => decode_post p sHttpHead
          | None => Ret (-1, p)
          end
      end
  end.
End packet.

(** ** Specification *)

(** The pair a piece of text stands for goes into the map. *)
Definition put_text (m : gmap (list Z) (list Z)) (s : list Z) : gmap (list Z) (list Z) :=
  match index_of (Z.eqb 61) s with
  | None => m
  | Some k => <[take k s := drop (S k) s]> m
  end.

Definition put_header (m : gmap (list Z) (list Z)) (h : list Z * list Z) : gmap (list Z) (list Z) :=
  <[UpperCase h.1 := h.2]> m.

Definition cookie_texts (cookie : list Z) : list (list Z) := split_at (Z.eqb 59) (filter (λ c, c ≠ 32) cookie).

(** Characters of a target, and of one of its parts. *)
Definition target_char (c : Z) : Prop := c ≠ 32 ∧ c ≠ 13 ∧ c ≠ 58.
Definition path_ok (path : list Z) : Prop :=
  (∃ l, path = 47 :: l) ∧ Forall (λ c, target_char c ∧ c ≠ 63 ∧ 0 < c < 128) path.
Definition param_ok (kv : list Z * list Z) : Prop :=
  Forall (λ c, target_char c ∧ c ≠ 38 ∧ c ≠ 61) kv.1 ∧ Forall (λ c, target_char c ∧ c ≠ 38) kv.2.
Definition header_ok (h : list Z * list Z) : Prop :=
  (13 ∉ h.1) ∧ (58 ∉ h.1) ∧ (13 ∉ h.2) ∧
  (∃ x l, h.1 = x :: l ∧ is_blank x = false) ∧ (∃ x l, h.1 = l ++ [x] ∧ is_blank x = false).

Definition target (path : list Z) (params : list (list Z * list Z)) : list Z :=
  path ++ 63 :: join 38 (map pair_text params).
Definition request_line (meth path : list Z) (params : list (list Z * list Z)) : list Z :=
  meth ++ 32 :: target path params ++ str " HTTP/1.1".
Definition method_ok (meth : list Z) : Prop := meth = str "GET" ∨ meth = str "POST".
Definition header_line (h : list Z * list Z) : list Z := h.1 ++ 58 :: h.2.
Definition lines_text (lines : list (list Z)) : list Z := concat (map (λ l, l ++ crlf_str) lines).

(** ** Lemmas: pairs *)
Lemma put_pair_eq s m : put_pair s m = Ret (put_text m s).
Proof.
  unfold put_pair, put_text. rewrite find_char_start. destruct (index_of (Z.eqb 61) s) as [k|] eqn:E; [|done].
  destruct (index_of_Some _ _ _ E) as (a & x & b & -> & <- & _). cbn [fmap option_fmap option_map].
  rewrite substr_from_ok, str_substr_ok by (rewrite length_app; simpl; lia). cbn [mbind outcome_bind Unescape_url snd].
  change (drop (Z.to_nat 0) ?l) with l. do 3 f_equal; [f_equal; lia|f_equal; lia].
Qed.

Lemma pairs_loop_join sep pre ps fuel m step :
  step = (λ st : Z * gmap (list Z) (list Z),
    let '(paramStartPos, m) := st in
    match find_char sep (pre ++ join sep ps) paramStartPos with
    | Some paramEndPos =>
        let! sParam := substr (pre ++ join sep ps) paramStartPos (paramEndPos - paramStartPos) in
        let! m := put_pair sParam m in
        Ret (inl (paramEndPos + 1, m))
    | None =>
        let! sParam := substr_from (pre ++ join sep ps) paramStartPos in
        let! m := put_pair sParam m in
        Ret (inr m)
    end) →
  Forall (λ p, sep ∉ p) ps → ps ≠ [] → (length ps ≤ fuel)%nat →
  loop fuel step (slen pre, m) = Ret (foldl put_text m ps).
Proof.
  intros Hstep Hps. revert pre fuel m step Hstep. induction Hps as [|p ps Hp Hps IH]; intros pre fuel m step Hstep Hne Hf; [done|].
  destruct fuel as [|fuel]; [simpl in Hf; lia|]. rewrite loop_S.
  assert (∀ l, drop (Z.to_nat (slen pre)) (pre ++ l) = l) as Hd by (intros l; rewrite Nat2Z.id; apply drop_app_length).
  destruct ps as [|p2 ps].
  - assert (step (slen pre, m) = Ret (inr (put_text m p))) as ->; [|done]. subst step. cbn [join].
    rewrite find_char_None, substr_from_ok by (rewrite ?Hd, ?length_app; done || lia). rewrite Hd.
    cbn [mbind outcome_bind]. by rewrite put_pair_eq.
  - assert (step (slen pre, m) = Ret (inl (slen (pre ++ p ++ [sep]), put_text m p))) as ->.
    { subst step. change (join sep (p :: p2 :: ps)) with (p ++ sep :: join sep (p2 :: ps)).
      rewrite (find_char_app sep _ _ p (join sep (p2 :: ps))) by (rewrite ?Hd, ?length_app; done || lia).
      rewrite str_substr_ok by (rewrite length_app; lia). rewrite Hd. cbn [mbind outcome_bind].
      replace (Z.to_nat _) with (length p) by lia. rewrite take_app_length, put_pair_eq. cbn [mbind outcome_bind].
      do 3 f_equal. rewrite !length_app. simpl. lia. }
    cbn [mbind outcome_bind foldl]. apply IH; [|done|simpl in *; lia]. rewrite Hstep.
    change (join sep (p :: p2 :: ps)) with (p ++ [sep] ++ join sep (p2 :: ps)). by rewrite !app_assoc.
Qed.

Lemma pairs_loop_eq sep pre ps m :
  Forall (λ p, sep ∉ p) ps → ps ≠ [] →
  pairs_loop sep (pre ++ join sep ps) (slen pre) m = Ret (foldl put_text m ps).
Proof.
  intros Hps Hne. unfold pairs_loop. eapply pairs_loop_join; [done..|].
  assert (length ps ≤ S (length (join sep ps)))%nat as H; [|rewrite length_app; lia].
  clear. induction ps as [|p [|p2 ps] IH]; [simpl; lia..|].
  change (join sep (p :: p2 :: ps)) with (p ++ sep :: join sep (p2 :: ps)). rewrite length_app. simpl in *. lia.
Qed.

(** Any text is the pieces between the separators. *)
Lemma pairs_loop_split sep text m : pairs_loop sep text 0 m = Ret (foldl put_text m (split_at (Z.eqb sep) text)).
Proof.
  assert (join sep (split_at (Z.eqb sep) text) = text ∧ Forall (λ p, sep ∉ p) (split_at (Z.eqb sep) text)) as [E Hp].
  { induction text as [|x text [IH1 IH2]]; [split; [done|repeat constructor; apply not_elem_of_nil]|]. cbn [split_at].
    pose proof (split_at_nonempty (Z.eqb sep) text). destruct (Z.eqb_spec sep x) as [<-|Hx].
    - destruct (split_at _ text) as [|p l]; [done|]. split; [by rewrite <-IH1|]. constructor; [apply not_elem_of_nil|done].
    - destruct (split_at _ text) as [|p l]; [done|]. apply Forall_cons in IH2 as [Hp Hl]. split; [by rewrite <-IH1; destruct l|].
      constructor; [|done]. by apply not_elem_of_cons. }
  rewrite <-E at 1. apply (pairs_loop_eq sep [] _ m); [done|apply split_at_nonempty].
Qed.

Lemma put_text_pair m k v : (61 ∉ k) → put_text m (pair_text (k, v)) = <[k := v]> m.
Proof.
  intros Hk. unfold put_text, pair_text. cbn [fst snd]. rewrite index_of_app; [|apply Forall_forall|lia].
  - rewrite take_app_length, (cons_middle 61), app_assoc, drop_app_length'; [done|]. rewrite length_app. simpl. lia.
  - intros x Hx. apply Z.eqb_neq. by intros <-.
Qed.

(** ** Lemmas: lines *)
Lemma index_sub_cons x s : x ≠ 13 → index_sub crlf_str (x :: s) = S <$> index_sub crlf_str s.
Proof.
  intros Hx. assert (starts_with crlf_str (x :: s) = false) as H.
  { unfold crlf_str. cbn [starts_with]. by rewrite (proj2 (Z.eqb_neq 13 x)). }
  cbn [index_sub]. by rewrite H.
Qed.

Lemma index_sub_line a b : (13 ∉ a) → index_sub crlf_str (a ++ crlf_str ++ b) = Some (length a).
Proof.
  induction a as [|x a IH]; [done|]. intros [Hx Ha]%not_elem_of_cons. rewrite <-app_comm_cons, index_sub_cons, IH by done. done.
Qed.

Lemma index_sub_none a : (13 ∉ a) → index_sub crlf_str a = None.
Proof.
  induction a as [|x a IH]; [done|]. intros [Hx Ha]%not_elem_of_cons. by rewrite index_sub_cons, IH by done.
Qed.

Lemma find_line pre a b : (13 ∉ a) → find_str crlf_str (pre ++ a ++ crlf_str ++ b) (slen pre) = Some (slen pre + slen a).
Proof.
  intros Ha. unfold find_str. rewrite (proj2 (Z.leb_le _ _)) by (rewrite length_app; lia).
  by rewrite Nat2Z.id, drop_app_length, index_sub_line.
Qed.

Lemma find_no_line pre a : (13 ∉ a) → find_str crlf_str (pre ++ a) (slen pre) = None.
Proof.
  intros Ha. unfold find_str. rewrite (proj2 (Z.leb_le _ _)) by (rewrite length_app; lia).
  by rewrite Nat2Z.id, drop_app_length, index_sub_none.
Qed.

(** [ParseHead] treats the lines of its text one after the other. *)
Lemma head_loop lines pre rest m fuel step :
  step = (λ st : Z * gmap (list Z) (list Z),
    let '(lineBegin, m) := st in
    match find_str crlf_str (pre ++ lines_text lines ++ rest) lineBegin with
    | None => Ret (inr m)
    | Some lineEnd =>
        let! sLine := substr (pre ++ lines_text lines ++ rest) lineBegin (lineEnd - lineBegin) in
        let! m := head_line sLine m in
        Ret (inl (lineEnd + 2, m))
    end) →
  Forall (λ l, 13 ∉ l) lines → (13 ∉ rest) →
  loop (length lines + S fuel) step (slen pre, m) = for_each head_line lines m.
Proof.
  intros Hstep Hl Hr. revert pre m step Hstep. induction Hl as [|l lines Hl Hls IH]; intros pre m step Hstep.
  - rewrite Hstep. cbn [length Nat.add]. rewrite loop_S. unfold lines_text. cbn [map concat app].
    by rewrite find_no_line.
  - change (length (l :: lines) + S fuel)%nat with (S (length lines + S fuel)). rewrite loop_S.
    assert (step (slen pre, m) = let! m := head_line l m in Ret (inl (slen (pre ++ l ++ crlf_str), m))) as ->.
    { subst step. unfold lines_text. cbn [map concat]. fold (lines_text lines). rewrite <-!app_assoc, find_line by done.
      rewrite str_substr_ok by (rewrite !length_app; lia). cbn [mbind outcome_bind].
      rewrite Nat2Z.id, drop_app_length. replace (Z.to_nat _) with (length l) by lia. rewrite take_app_length.
      rewrite !length_app. replace (slen pre + slen l + 2) with (Z.of_nat (length pre + (length l + length crlf_str))) by (simpl; lia). done. }
    cbn [for_each]. destruct (head_line l m) as [m'| |]; [|done..]. cbn [mbind outcome_bind].
    apply IH. rewrite Hstep. unfold lines_text. cbn [map concat]. fold (lines_text lines). by rewrite <-!app_assoc.
Qed.

Lemma ParseHead_eq p lines rest :
  Forall (λ l, 13 ∉ l) lines → (13 ∉ rest) →
  ParseHead p (lines_text lines ++ rest) = (let! m := for_each head_line lines (mapHead p) in Ret (set_head p m)).
Proof.
  intros Hl Hr. unfold ParseHead. f_equal.
  assert (length lines ≤ length (lines_text lines))%nat as Hlen.
  { clear. unfold lines_text. induction lines as [|l lines IH]; [done|]. cbn [map concat]. rewrite !length_app. simpl. lia. }
  replace (S (S (length (lines_text lines ++ rest)))) with (length lines + S (S (length (lines_text lines ++ rest)) - length lines))%nat
    by (rewrite length_app; lia).
  by apply (head_loop lines [] rest).
Qed.

(** *** Names of headers *)
Lemma Trim_solid s : (∃ x l, s = x :: l ∧ is_blank x = false) → (∃ x l, s = l ++ [x] ∧ is_blank x = false) →
  slen s < 2 ^ 31 → Trim s = Ret s.
Proof.
  intros (x & l & E & Hx) (y & l' & E' & Hy) Hs. unfold Trim, TrimLeft. rewrite loop_S.
  assert (aget (s ++ [0]) 0 = Ret x) as -> by (by rewrite E). cbn [mbind outcome_bind]. rewrite Hx. cbn [mbind outcome_bind].
  rewrite substr_from_ok by lia. change (drop (Z.to_nat 0) s) with s. cbn [mbind outcome_bind]. unfold TrimRight. rewrite loop_S.
  assert (aget (s ++ [0]) (slen s - 1) = Ret y) as ->.
  { rewrite E', <-app_assoc. cbn [app]. apply aget_mid. rewrite length_app. simpl. lia. }
  cbn [mbind outcome_bind]. rewrite Hy. cbn [mbind outcome_bind]. rewrite u64_id by (unfold is_u64; lia).
  rewrite str_substr_ok by lia. change (drop (Z.to_nat 0) s) with s. by rewrite take_ge by lia.
Qed.

Lemma Trim_blank s : Forall (λ c, is_blank c = true) s → Trim s = Stuck.
Proof.
  intros Hs. assert (TrimLeft s = Ret []) as E; [|unfold Trim; by rewrite E].
  unfold TrimLeft.
  assert (∀ a b fuel, s = a ++ b → (length b < fuel)%nat → loop fuel (λ pos,
    let! c := aget (s ++ [0]) pos in if is_blank c then Ret (inl (pos + 1)) else Ret (inr pos)) (slen a) = Ret (slen s)) as H.
  { intros a b fuel Es. revert a fuel Es. induction b as [|x b IH]; intros a fuel Es Hf;
      (destruct fuel as [|fuel]; [simpl in Hf; lia|]); rewrite loop_S.
    - rewrite app_nil_r in Es. subst a. by rewrite aget_mid.
    - assert (aget (s ++ [0]) (slen a) = Ret x) as -> by (rewrite Es, <-app_assoc; by apply aget_mid).
      cbn [mbind outcome_bind]. rewrite Es, Forall_app, Forall_cons in Hs. destruct Hs as (_ & -> & _). cbn [mbind outcome_bind].
      specialize (IH (a ++ [x]) fuel). rewrite length_app in IH. cbn [length] in IH. rewrite Nat2Z.inj_add in IH. apply IH.
      + by rewrite Es, <-app_assoc.
      + simpl in Hf. lia. }
  rewrite (H [] s) by (done || lia). cbn [mbind outcome_bind]. rewrite substr_from_ok by lia. by rewrite drop_ge by lia.
Qed.

Lemma head_line_find n v : (58 ∉ n) → find_char 58 (header_line (n, v)) 0 = Some (slen n).
Proof. intros Hn. unfold header_line. rewrite (find_char_app 58 _ 0 n v) by (done || lia). done. Qed.

Lemma head_line_split n v m :
  (58 ∉ n) →
  head_line (header_line (n, v)) m = (let! d := Trim n in Ret (<[UpperCase d := v]> m)).
Proof.
  intros Hn. unfold head_line. rewrite head_line_find by done. unfold header_line. cbn [fst snd].
  rewrite str_substr_ok, substr_from_ok by (rewrite length_app; simpl; lia). cbn [mbind outcome_bind].
  change (drop (Z.to_nat 0) ?l) with l. rewrite Nat2Z.id, take_app_length.
  rewrite (cons_middle 58), app_assoc, drop_app_length'; [done|]. rewrite length_app. simpl. lia.
Qed.

Lemma head_line_none l m : (58 ∉ l) → head_line l m = Ret m.
Proof. intros Hl. unfold head_line. by rewrite find_char_None. Qed.

Lemma head_lines headers m :
  Forall header_ok headers → Forall (λ h, slen h.1 < 2 ^ 31) headers →
  for_each head_line (map header_line headers) m = Ret (foldl put_header m headers).
Proof.
  intros Hh. revert m. induction Hh as [|[n v] l (H1 & H2 & H3 & H4 & H5) Hl IH]; intros m Hs; [done|].
  apply Forall_cons in Hs as [Hsn Hs]. cbn [map for_each]. rewrite head_line_split, Trim_solid by done.
  cbn [mbind outcome_bind]. by apply IH.
Qed.

Lemma for_each_app {A S} (body : A → S → outcome S) l1 l2 s :
  for_each body (l1 ++ l2) s = (let! s := for_each body l1 s in for_each body l2 s).
Proof.
  revert s. induction l1 as [|x l1 IH]; intros s; [done|]. cbn [app for_each].
  destruct (body x s); [|done..]. apply IH.
Qed.

(** ** Lemmas: the request *)
Section requests.
Context `{Boost} (iconv : list Z → Z → iconv_status * nat * list Z).
(** ASCII text is the same in both character sets. *)
Hypothesis iconv_ascii : ∀ s room,
  Forall (λ c, 0 < c < 128) s → slen s + 1 ≤ room → iconv (s ++ [0]) room = (IconvDone, S (length s), s ++ [0]).

Lemma UTF8ToGBK_ascii s : Forall (λ c, 0 < c < 128) s → s ≠ [] → UTF8ToGBK iconv s = Ret s.
Proof.
  intros Hs Hne. assert (0 ∉ s) as H0 by (intros Hin; rewrite Forall_forall in Hs; specialize (Hs _ Hin); lia).
  assert (0 < length s)%nat as Hl by (destruct s; [done|simpl; lia]).
  unfold UTF8ToGBK. rewrite bool_decide_eq_false_2 by done. unfold U2G, CodeConvert2. rewrite loop_S.
  change (slen []) with 0. rewrite iconv_ascii by (done || lia). cbn [mbind outcome_bind app].
  rewrite bool_decide_eq_true_2 by (rewrite !elem_of_app; left; right; left). f_equal.
  rewrite <-app_assoc, c_string_app by done. apply app_nil_r.
Qed.

Lemma request_line_chars path params :
  path_ok path → Forall param_ok params →
  Forall target_char (target path params) ∧ Forall (λ c, c ≠ 63) path ∧
  Forall (λ t, 38 ∉ t) (map pair_text params) ∧ Forall (λ kv, 61 ∉ kv.1) params.
Proof.
  intros [_ Hp] Hps. split_and!.
  - unfold target. apply Forall_app. split; [eapply Forall_impl; [exact Hp|]; naive_solver|].
    constructor; [done|]. clear Hp. induction Hps as [|[k v] ps [Hk Hv] Hps IH]; [constructor|].
    assert (Forall target_char (pair_text (k, v))) as Hkv.
    { unfold pair_text. apply Forall_app. split; [eapply Forall_impl; [exact Hk|]; naive_solver|].
      constructor; [done|]. eapply Forall_impl; [exact Hv|]; naive_solver. }
    destruct ps as [|kv2 ps]; [done|]. cbn [map join]. apply Forall_app. split; [done|]. by constructor.
  - eapply Forall_impl; [exact Hp|]. naive_solver.
  - apply Forall_map. eapply Forall_impl; [exact Hps|]. intros [k v] [Hk Hv]. unfold pair_text. simpl in *.
    rewrite Forall_forall in Hk, Hv. rewrite elem_of_app, elem_of_cons. intros [Hin|[?|Hin]]; [|done|].
    + by destruct (Hk _ Hin) as (_ & ? & _).
    + by destruct (Hv _ Hin) as (_ & ?).
  - eapply Forall_impl; [exact Hps|]. intros [k v] [Hk _]. simpl in *. rewrite Forall_forall in Hk.
    intros Hin. by destruct (Hk _ Hin) as (_ & _ & ?).
Qed.

Lemma not_in_target c path params :
  path_ok path → Forall param_ok params → c = 32 ∨ c = 13 ∨ c = 58 → c ∉ target path params.
Proof.
  intros Hp Hps Hc Hin. destruct (request_line_chars _ _ Hp Hps) as [Ht _]. rewrite Forall_forall in Ht.
  specialize (Ht _ Hin). unfold target_char in Ht. lia.
Qed.

Lemma params_fold params m :
  Forall (λ kv, 61 ∉ kv.1) params → foldl put_text m (map pair_text params) = foldl (λ m kv, <[kv.1 := kv.2]> m) m params.
Proof.
  intros Hp. revert m. induction Hp as [|[k v] ps Hk Hp IH]; intros m; [done|]. cbn [map foldl]. by rewrite put_text_pair.
Qed.

Lemma ParseParam_eq p path params :
  path_ok path → Forall param_ok params →
  ParseParam iconv p (target path params) = Ret (set_params p path (foldl (λ m kv, <[kv.1 := kv.2]> m) ∅ params)).
Proof.
  intros Hp Hps. destruct (request_line_chars _ _ Hp Hps) as (_ & H63 & H38 & H61). unfold ParseParam.
  rewrite (find_char_app 63 (target path params) 0 path (join 38 (map pair_text params))); [|lia|done|].
  2:{ intros Hin. rewrite Forall_forall in H63. by specialize (H63 _ Hin). }
  rewrite Z.add_0_l, str_substr_ok by (unfold target; rewrite length_app; lia). cbn [mbind outcome_bind Unescape_url snd].
  change (drop (Z.to_nat 0) ?l) with l.
  assert (take (Z.to_nat (slen path)) (target path params) = path) as -> by (rewrite Nat2Z.id; apply take_app_length).
  destruct Hp as [[l El] Hp]. rewrite UTF8ToGBK_ascii; [|eapply Forall_impl; [exact Hp|]; naive_solver|by rewrite El].
  cbn [mbind outcome_bind].
  assert (target path params = (path ++ [63]) ++ join 38 (map pair_text params)) as -> by (unfold target; by rewrite <-app_assoc).
  replace (slen path + 1) with (slen (path ++ [63])) by (rewrite length_app; simpl; lia).
  rewrite <-params_fold by done. destruct params as [|kv params].
  - change (join 38 (map pair_text [])) with (join 38 [@nil Z]). rewrite pairs_loop_eq; [done|repeat constructor; apply not_elem_of_nil|done].
  - by rewrite pairs_loop_eq by done.
Qed.

Lemma request_line_chars_not c meth path params :
  method_ok meth → path_ok path → Forall param_ok params → c = 13 ∨ c = 58 → c ∉ request_line meth path params.
Proof.
  intros Hm Hp Hps Hc. unfold request_line. rewrite elem_of_app, elem_of_cons, elem_of_app. intros [Hin|[Hin|[Hin|Hin]]].
  - destruct Hm as [-> | ->], Hc as [-> | ->]; revert Hin; by apply (bool_decide_unpack _); vm_compute.
  - by destruct Hc as [-> | ->].
  - revert Hin. apply not_in_target; [done|done|tauto].
  - destruct Hc as [-> | ->]; revert Hin; by apply (bool_decide_unpack _); vm_compute.
Qed.

Lemma decode_head_eq p meth path params lines rest :
  method_ok meth → path_ok path → Forall param_ok params → Forall (λ l, 13 ∉ l) lines → (13 ∉ rest) →
  decode_head iconv p (lines_text (request_line meth path params :: lines) ++ rest) =
  (let! m := for_each head_line lines (mapHead p) in
   let p' := HttpRequestPacket (target path params) path (foldl (λ m kv, <[kv.1 := kv.2]> m) ∅ params)
               (mapCookie p) m (m_str_clientip p) in
   Ret (Some p', p')).
Proof.
  intros Hm Hp Hps Hl Hr. set (text := lines_text (request_line meth path params :: lines) ++ rest).
  assert (∀ c, c = 13 ∨ c = 58 → c ∉ request_line meth path params) as Hline by (intros; by apply request_line_chars_not).
  unfold decode_head.
  assert (text = request_line meth path params ++ crlf_str ++ lines_text lines ++ rest) as Et.
  { unfold text, lines_text. cbn [map concat]. by rewrite <-!app_assoc. }
  assert (find_str crlf_str text 0 = Some (slen (request_line meth path params))) as ->.
  { rewrite Et. apply (find_line [] (request_line meth path params)). auto. }
  rewrite str_substr_ok by (rewrite Et; rewrite length_app; lia). cbn [mbind outcome_bind].
  change (drop (Z.to_nat 0) text) with text.
  assert (take (Z.to_nat (slen (request_line meth path params))) text = request_line meth path params) as ->
    by (rewrite Et, Nat2Z.id; apply take_app_length).
  pose proof Hp as [[path' Ep] _].
  assert (target path params = 47 :: path' ++ 63 :: join 38 (map pair_text params)) as Etgt by (unfold target; by rewrite Ep).
  assert (request_line meth path params = (meth ++ [32]) ++ target path params ++ str " HTTP/1.1") as Erl
    by (unfold request_line; by rewrite <-app_assoc).
  assert (drop (Z.to_nat (slen (meth ++ [32]))) (request_line meth path params) = target path params ++ str " HTTP/1.1") as Ed.
  { rewrite Erl, Nat2Z.id. apply drop_app_length. }
  assert (slen (request_line meth path params) = slen (meth ++ [32]) + slen (target path params) + 9) as Elen.
  { rewrite Erl, !length_app. change (length (str " HTTP/1.1")) with 9%nat. lia. }
  assert (find_char 47 (request_line meth path params) 0 = Some (slen (meth ++ [32]))) as ->.
  { rewrite Erl, Etgt. destruct Hm as [-> | ->]; done. }
  set (pos1 := slen (meth ++ [32])) in *. assert (0 ≤ pos1) as Hpos by (unfold pos1; lia).
  rewrite (find_char_app 32 _ pos1 (target path params) (str "HTTP/1.1")) by (done || lia || (apply not_in_target; auto)).
  rewrite str_substr_ok by lia. rewrite Ed. replace (Z.to_nat (pos1 + slen (target path params) - pos1)) with (length (target path params)) by lia.
  rewrite take_app_length. cbn [mbind outcome_bind]. rewrite ParseParam_eq by done. cbn [mbind outcome_bind].
  unfold text. rewrite ParseHead_eq by (done || (constructor; auto)). cbn [for_each]. rewrite head_line_none by auto. cbn [mbind outcome_bind].
  unfold set_params, set_request. cbn [mapHead]. by destruct (for_each head_line lines (mapHead p)).
Qed.

(** The method is looked for anywhere in the request line. *)
Lemma Decode_eq p meth path params lines rest :
  method_ok meth → path_ok path → Forall param_ok params →
  Decode iconv p (lines_text (request_line meth path params :: lines) ++ rest) =
  match find_str (str "GET") (request_line meth path params) 0 with
  | Some _ => decode_get iconv p (lines_text (request_line meth path params :: lines) ++ rest)
  | None =>
      match find_str (str "POST") (request_line meth path params) 0 with
      | Some _ => decode_post iconv p (lines_text (request_line meth path params :: lines) ++ rest)
      | None => Ret (-1, p)
      end
  end.
Proof.
  intros Hm Hp Hps. set (text := lines_text (request_line meth path params :: lines) ++ rest).
  assert (text = request_line meth path params ++ crlf_str ++ lines_text lines ++ rest) as Et.
  { unfold text, lines_text. cbn [map concat]. by rewrite <-!app_assoc. }
  assert (13 ∉ request_line meth path params) as H13 by (apply request_line_chars_not; auto).
  unfold Decode. assert (find_str crlf_str text 0 = Some (slen (request_line meth path params))) as ->.
  { rewrite Et. by apply (find_line [] (request_line meth path params)). }
  rewrite str_substr_ok by (rewrite Et; rewrite length_app; lia). cbn [mbind outcome_bind].
  change (drop (Z.to_nat 0) text) with text.
  assert (take (Z.to_nat (slen (request_line meth path params))) text = request_line meth path params) as ->
    by (rewrite Et, Nat2Z.id; apply take_app_length).
  done.
Qed.

(** The results there are. *)
Lemma Decode_result p s r p' : Decode iconv p s = Ret (r, p') → r = 0 ∨ r = -1 ∨ r = -2.
Proof.
  unfold Decode. destruct (find_str crlf_str s 0); [|intros [= <- <-]; auto].
  destruct (substr _ _ _); [cbn [mbind outcome_bind]|done..]. destruct (find_str (str "GET") _ 0).
  - unfold decode_get. destruct (decode_head iconv p s) as [[[p1|] p2]| |]; [cbn [mbind outcome_bind]|by intros [= <- <-]; auto|done..].
    destruct (ParseCookie _ _); [|done..]. intros [= <- <-]. auto.
  - destruct (find_str (str "POST") _ 0); [|intros [= <- <-]; auto].
    unfold decode_post. destruct (decode_head iconv p s) as [[[p1|] p2]| |]; [cbn [mbind outcome_bind]|by intros [= <- <-]; auto|done..].
    destruct (mapHead p1 !! _); [|intros [= <- <-]; auto]. destruct (atouint32_str _); [cbn [mbind outcome_bind]|done..].
    case_match; [intros [= <- <-]; auto|]. destruct (substr _ _ _); [cbn [mbind outcome_bind]|done..].
    destruct (string2map _ _); [|done..]. intros [= <- <-]. auto.
Qed.

(** The packet after the request line and the headers. *)
Definition decoded p path params heads : packet :=
  HttpRequestPacket (target path params) path (foldl (λ m kv, <[kv.1 := kv.2]> m) ∅ params) (mapCookie p) heads (m_str_clientip p).

Lemma header_lines_13 headers : Forall header_ok headers → Forall (λ l, 13 ∉ l) (map header_line headers ++ [[]]).
Proof.
  intros Hh. apply Forall_app. split; [|repeat constructor; apply not_elem_of_nil]. apply Forall_map.
  eapply Forall_impl; [exact Hh|]. intros [n v] (Hn & _ & Hv & _). unfold header_line. simpl in *.
  rewrite elem_of_app, elem_of_cons. intuition congruence.
Qed.

Lemma decode_head_headers p meth path params headers rest :
  method_ok meth → path_ok path → Forall param_ok params → Forall header_ok headers → Forall (λ h, slen h.1 < 2 ^ 31) headers →
  (13 ∉ rest) →
  let p' := decoded p path params (foldl put_header (mapHead p) headers) in
  decode_head iconv p (lines_text (request_line meth path params :: map header_line headers ++ [[]]) ++ rest) = Ret (Some p', p').
Proof.
  intros Hm Hp Hps Hh Hl Hr p'. rewrite decode_head_eq by (done || by apply header_lines_13).
  rewrite for_each_app, head_lines by done. cbn [mbind outcome_bind for_each]. rewrite head_line_none by apply not_elem_of_nil. done.
Qed.

Lemma Decode_get_blank p path params headers b v more rest :
  path_ok path → Forall param_ok params → Forall header_ok headers → Forall (λ h, slen h.1 < 2 ^ 31) headers → (13 ∉ rest) →
  Forall (λ c, is_blank c = true) b → (13 ∉ v) → Forall (λ l, 13 ∉ l) more →
  Decode iconv p (lines_text (request_line (str "GET") path params :: map header_line headers ++ header_line (b, v) :: more) ++ rest) = Stuck.
Proof.
  intros Hp Hps Hh Hl Hr Hb Hv Hmore.
  assert (∀ c, c = 13 ∨ c = 58 → c ∉ b) as Hbn.
  { intros c Hc Hin. rewrite Forall_forall in Hb. specialize (Hb _ Hin). by destruct Hc as [-> | ->]. }
  rewrite Decode_eq by (done || by left). unfold decode_get. rewrite decode_head_eq; [|by left|done|done| |done].
  - rewrite for_each_app, head_lines by done. cbn [mbind outcome_bind for_each]. rewrite head_line_split by auto.
    by rewrite Trim_blank.
  - pose proof (header_lines_13 headers Hh) as H13. apply Forall_app in H13 as [H13 _]. apply Forall_app. split; [done|].
    constructor; [|done]. unfold header_line. simpl. rewrite elem_of_app, elem_of_cons. intros [Hin|[?|?]]; [|done..].
    by apply (Hbn 13); [left|].
Qed.
End requests.

(** ** Properties *)

(** A GET request of the form "GET path?k=v&... HTTP/1.1" with headers
    "name:value" is decoded into its target, its path, its parameters (the
    last of a name), its headers under upper-case names and the cookies of the
    COOKIE header, on top of the cookies and headers the packet had; but a
    header line without a name is undefined, because [TrimRight] of an empty
    name reads in front of it. *)
Lemma decode_get_correct `{Boost} iconv p path params headers rest :
  (∀ s room, Forall (λ c, 0 < c < 128) s → slen s + 1 ≤ room → iconv (s ++ [0]) room = (IconvDone, S (length s), s ++ [0])) →
  path_ok path → Forall param_ok params → Forall header_ok headers → Forall (λ h, slen h.1 < 2 ^ 31) headers → (13 ∉ rest) →
  (let heads := foldl put_header (mapHead p) headers in
   Decode iconv p (lines_text (request_line (str "GET") path params :: map header_line headers ++ [[]]) ++ rest) =
   Ret (0, HttpRequestPacket (target path params) path (foldl (λ m kv, <[kv.1 := kv.2]> m) ∅ params)
             (foldl put_text (mapCookie p) (cookie_texts (default [] (heads !! str "COOKIE")))) heads (m_str_clientip p))) ∧
  ∀ b v more, Forall (λ c, is_blank c = true) b → (13 ∉ v) → Forall (λ l, 13 ∉ l) more →
    Decode iconv p (lines_text (request_line (str "GET") path params :: map header_line headers ++ header_line (b, v) :: more) ++ rest) = Stuck.
Proof.
  intros Hi Hp Hps Hh Hl Hr. split; [|intros; by apply Decode_get_blank]. intros heads.
  rewrite Decode_eq by (done || by left). change (find_str (str "GET") (request_line (str "GET") path params) 0) with (Some 0).
  cbv iota. unfold decode_get. rewrite decode_head_headers by (done || by left). cbn [mbind outcome_bind]. fold heads.
  unfold GetLine, decoded. cbn [mapHead]. change (UpperCase (str "COOKIE")) with (str "COOKIE").
  assert ((match heads !! str "COOKIE" with None => [] | Some v => v end) = default [] (heads !! str "COOKIE")) as ->
    by (by destruct (heads !! str "COOKIE")).
  unfold ParseCookie, cookie_texts. case_bool_decide as Hc.
  - rewrite Hc. done.
  - rewrite pairs_loop_split. done.
Qed.

(** "/a", u=1 and u=2, with a COOKIE header. *)
Lemma decode_get_correct_witness :
  let iconv := λ (s : list Z) (room : Z), (IconvDone, length s, s) in
  let p := new_packet in let path := str "/a" in
  let params := [(str "u", str "1"); (str "u", str "2")] in
  let headers := [(str "Cookie", str " x=1; y=2")] in
  let heads := foldl put_header (mapHead p) headers in
  Decode iconv p (lines_text (request_line (str "GET") path params :: map header_line headers ++ [[]]) ++ []) =
  Ret (0, HttpRequestPacket (target path params) path (foldl (λ m kv, <[kv.1 := kv.2]> m) ∅ params)
            (foldl put_text (mapCookie p) (cookie_texts (default [] (heads !! str "COOKIE")))) heads (m_str_clientip p)).
Proof.
  intros iconv p path params headers.
  refine (proj1 (decode_get_correct iconv p path params headers [] _ _ _ _ _ _)).
  - intros s room _ _. unfold iconv. rewrite length_app. simpl. by rewrite Nat.add_1_r.
  - split; [by eexists|]. unfold target_char. by apply (bool_decide_unpack _); vm_compute.
  - unfold param_ok, target_char. by apply (bool_decide_unpack _); vm_compute.
  - constructor; [|constructor]. split_and!; try (by apply (bool_decide_unpack _); vm_compute); [by eexists _, _|by eexists _, (str "Cooki")].
  - by repeat constructor.
  - apply not_elem_of_nil.
Defined.

(** C32 A POST request whose method is not mistaken for GET, with a header
    CONTENT-LENGTH of exactly the length of its body of pairs, is decoded with the
    parameters of the target and those of the body, the former first; a request
    without the header, or with a length greater than the whole text, is
    refused; and a POST request with the letters GET in its request line is
    decoded as a GET request, without its body. *)
Theorem decode_post_correct `{BoostLaws} (iconv : list Z → Z → iconv_status * nat * list Z) (p : packet) (path : list Z) (params headers : list (list Z * list Z)) (bm : gmap (list Z) (list Z)) :
  (∀ s room, Forall (λ c, 0 < c < 128) s → slen s + 1 ≤ room → iconv (s ++ [0]) room = (IconvDone, S (length s), s ++ [0])) →
  path_ok path → Forall param_ok params → Forall header_ok headers → Forall (λ h, slen h.1 < 2 ^ 31) headers →
  (∀ k v, bm !! k = Some v → plain k ∧ plain v) →
  let body := map2string [] bm in
  let line := request_line (str "POST") path params in
  let text := lines_text (line :: map header_line headers ++ [[]]) ++ body in
  let p' := decoded p path params (foldl put_header (mapHead p) headers) in
  (13 ∉ body) →
  (find_str (str "GET") line 0 = None →
   match mapHead p' !! str "CONTENT-LENGTH" with
   | None => Decode iconv p text = Ret (-1, p')
   | Some cl => ∀ ds, boost_trim cl = ds → digit_string ds → ds ≠ [] → slen ds < 2 ^ 31 → value_of ds ≤ INT_MAX →
       (value_of ds = slen body → Decode iconv p text = Ret (0, set_params p' path (mapParam p' ∪ bm))) ∧
       (slen text < value_of ds → Decode iconv p text = Ret (-1, p'))
   end) ∧
  (find_str (str "GET") line 0 ≠ None → Decode iconv p text = decode_get iconv p text).
Proof.
  intros Hi Hp Hps Hh Hl Hbm body line text p' Hb.
  assert (Decode iconv p text = match find_str (str "GET") line 0 with Some _ => decode_get iconv p text | None => decode_post iconv p text end) as E.
  { unfold text, line. rewrite Decode_eq by (done || by right). by destruct (find_str (str "GET") _ 0). }
  rewrite E. split; [|by destruct (find_str (str "GET") line 0)]. intros ->.
  unfold decode_post, text, line. rewrite decode_head_headers by (done || by right). cbn [mbind outcome_bind]. fold p' line text.
  destruct (mapHead p' !! str "CONTENT-LENGTH") as [cl|]; [|done]. intros ds Hds Hd Hne Hsl Hv. rewrite Hds.
  assert (0 ≤ value_of ds) as Hv0 by by apply value_of_nonneg.
  assert (atouint32_str ds = Ret (value_of ds)) as ->.
  { unfold atouint32_str. unfold s32. rewrite sw_id by lia.
    rewrite atouint32_spec by (done || (destruct ds; [done|simpl; lia])). rewrite take_ge by lia.
    rewrite u32_id; [done|]. unfold is_u32, INT_MAX in *. lia. }
  unfold s32. cbn [mbind outcome_bind]. rewrite sw_id by (unfold INT_MAX in *; lia).
  rewrite u64_id by (unfold is_u64, INT_MAX in *; lia). split; intros Hlen.
  - assert (slen body ≤ slen text) as Hbt by (unfold text; rewrite length_app; lia).
    rewrite (proj2 (Z.ltb_ge _ _)) by lia. rewrite str_substr_ok by lia.
    assert (drop (Z.to_nat (slen text - value_of ds)) text = body) as ->.
    { unfold text. rewrite length_app. apply drop_app_length'. lia. }
    rewrite take_ge by lia. cbn [mbind outcome_bind]. unfold string2map, body.
    rewrite (parse_map2string Ret id); [by rewrite map_fmap_id|]. intros k v Ek. by destruct (Hbm k v Ek).
  - by rewrite (proj2 (Z.ltb_lt _ _)).
Qed.

(** "POST /a?u=1" with the body "v=2". *)
Lemma decode_post_correct_witness :
  let iconv := λ (s : list Z) (room : Z), (IconvDone, length s, s) in
  let params := [(str "u", str "1")] in
  let headers := [(str "Content-Length", str " 3")] in
  let bm := {[ str "v" := str "2" ]} in
  let body := map2string [] bm in
  let text := lines_text (request_line (str "POST") (str "/a") params :: map header_line headers ++ [[]]) ++ body in
  let p' := decoded new_packet (str "/a") params (foldl put_header ∅ headers) in
  Decode iconv new_packet text = Ret (0, set_params p' (str "/a") (mapParam p' ∪ bm)).
Proof.
  intros iconv params headers bm body text p'.
  refine (proj1 (proj1 (decode_post_correct iconv new_packet (str "/a") params headers bm _ _ _ _ _ _ _) _ (str "3") _ _ _ _ _) _).
  - intros s room _ _. unfold iconv. rewrite length_app. simpl. by rewrite Nat.add_1_r.
  - split; [by eexists|]. unfold target_char. by apply (bool_decide_unpack _); vm_compute.
  - unfold param_ok, target_char. by apply (bool_decide_unpack _); vm_compute.
  - constructor; [|constructor]. split_and!; try (by apply (bool_decide_unpack _); vm_compute); [by eexists _, _|by eexists _, (str "Content-Lengt")].
  - by repeat constructor.
  - intros k v [<- <-]%lookup_singleton_Some. split; apply plain_solid; by repeat constructor.
  - by apply (bool_decide_unpack _); vm_compute.
  - by vm_compute.
  - by vm_compute.
  - by repeat constructor.
  - done.
  - done.
  - by vm_compute.
  - by vm_compute.
Defined.
