(* ===== verification/HttpResponse.v ===== *)
(** * HTTP responses: [HttpResponseHeaderPacket]
    ([logingame_server/src/main/HttpResponseHeaderPacket.cpp]; the other
    services have the same text)

    The head is printed into an array of 512 bytes, the body is a key-value
    text.  What is printed is read back with the parsers of [HttpPacket.v] and
    [MyCommon.v], the services' own. *)

From Stdlib Require Import String.
From S2P Require Import Prelude Text Utility MyCommon HttpPacket.

(** ** Definitions *)
Definition HTTP_RESPONSE_STATUS_OK : Z := 200.
Definition HTTP_RESPONSE_STATUS_FORBIDDEN : Z := 403.
Definition HTTP_RESPONSE_STATUS_NOTFOUND : Z := 404.
Definition HTTP_RESPONSE_STATUS_INTERNALERR : Z := 500.

(** The switch at the beginning of both functions. *)
Definition sCodeDesc (iHttpCode : Z) : list Z :=
  if iHttpCode =? 200 then str "OK"
  else if iHttpCode =? 403 then str "Forbidden"
  else if iHttpCode =? 404 then str "Not Found"
  else if iHttpCode =? 500 then str "Internal Server Error"
  else str "OK".

(** [sprintf] of [text] into [pszTmp], and the string up to the terminator. *)
Definition print_512 (text : list Z) : outcome (list Z) := if slen text <? 512 then Ret text else Stuck.

Definition HttpHeaderInfo (iHttpCode iContentLength : Z) (sContentType : list Z) : outcome (list Z) :=
  print_512 (str "HTTP/1.1 " ++ print_dec iHttpCode ++ str " " ++ sCodeDesc iHttpCode ++ crlf_str
    ++ str "Content-Length:" ++ print_dec iContentLength ++ crlf_str
    ++ str "Connection: close" ++ crlf_str
    ++ str "Content-Type:" ++ c_string sContentType ++ crlf_str ++ crlf_str).

Definition HttpHeaderCompressInfo (iHttpCode iContentLength : Z) (sContentType : list Z) : outcome (list Z) :=
  print_512 (str "HTTP/1.1 " ++ print_dec iHttpCode ++ str " " ++ sCodeDesc iHttpCode ++ crlf_str
    ++ str "Content-Length:" ++ print_dec iContentLength ++ crlf_str
    ++ str "Connection: close" ++ crlf_str
    ++ str "Content-Type:" ++ c_string sContentType ++ str ";charset=utf-8" ++ crlf_str ++ crlf_str).

(** [HttpResponseHeaderPacket::map2string]: from the first key to the last. *)
Definition response_map2string (str_result : list Z) (map_src : gmap (list Z) (list Z)) : list Z :=
  let str_result := foldl (λ str_rtn kv, str_rtn ++ kv.1 ++ [61] ++ kv.2 ++ [38]) str_result (items map_src) in
  if bool_decide (str_result ≠ []) then take (length str_result - 1) str_result else str_result.

(** The result is the field [m_str_respond]. *)
Definition encode (iHttpCode : Z) (body_map : gmap (list Z) (list Z)) (sContentType : list Z) : outcome (list Z) :=
  let str_body := response_map2string [] body_map in
  let! m_str_respond := HttpHeaderInfo iHttpCode (s32 (slen str_body)) (str "text/html") in
  Ret (m_str_respond ++ str_body).

(** ** Lemmas *)
Lemma sCodeDesc_text n : (13 ∉ sCodeDesc n) ∧ (58 ∉ sCodeDesc n) ∧ 2 ≤ slen (sCodeDesc n) ≤ 21.
Proof. unfold sCodeDesc. repeat case_match; by apply (bool_decide_unpack _); vm_compute. Qed.

(** The lines of a head. *)
Definition status_line (iHttpCode : Z) : list Z :=
  str "HTTP/1.1 " ++ print_dec iHttpCode ++ str " " ++ sCodeDesc iHttpCode.
Definition head_fields (iContentLength : Z) (sContentType : list Z) : list (list Z * list Z) :=
  [(str "Content-Length", print_dec iContentLength); (str "Connection", str " close"); (str "Content-Type", sContentType)].

Lemma status_line_text n : (13 ∉ status_line n) ∧ (58 ∉ status_line n) ∧ 12 ≤ slen (status_line n) ≤ 52.
Proof.
  destruct (sCodeDesc_text n) as (H13 & H58 & Hl). destruct (print_dec_chars n) as [_ Hn]. unfold status_line.
  split_and!.
  - rewrite !elem_of_app. intros [H|[H|[H|H]]]; [|by apply print_dec_not in H| |done]; revert H; by apply (bool_decide_unpack _); vm_compute.
  - rewrite !elem_of_app. intros [H|[H|[H|H]]]; [|by apply print_dec_not in H| |done]; revert H; by apply (bool_decide_unpack _); vm_compute.
  - rewrite !length_app. change (length (str "HTTP/1.1 ")) with 9%nat. change (length (str " ")) with 1%nat. lia.
  - rewrite !length_app. change (length (str "HTTP/1.1 ")) with 9%nat. change (length (str " ")) with 1%nat. lia.
Qed.

Lemma head_lines_eq n len ct :
  str "HTTP/1.1 " ++ print_dec n ++ str " " ++ sCodeDesc n ++ crlf_str
    ++ str "Content-Length:" ++ print_dec len ++ crlf_str
    ++ str "Connection: close" ++ crlf_str
    ++ str "Content-Type:" ++ ct ++ crlf_str ++ crlf_str =
  lines_text (status_line n :: map header_line (head_fields len ct) ++ [[]]).
Proof.
  unfold lines_text, status_line, head_fields, header_line. cbn [map concat app fst snd]. rewrite <-!app_assoc. reflexivity.
Qed.

Lemma length_head n len ct :
  slen (lines_text (status_line n :: map header_line (head_fields len ct) ++ [[]])) =
  slen (status_line n) + slen (print_dec len) + slen ct + 55.
Proof.
  unfold lines_text, head_fields, header_line. cbn [map concat app fst snd].
  repeat (rewrite ?length_app; cbn [length]). simpl. lia.
Qed.

Lemma HttpHeaderInfo_eq n len ct :
  HttpHeaderInfo n len ct = print_512 (lines_text (status_line n :: map header_line (head_fields len (c_string ct)) ++ [[]])).
Proof. unfold HttpHeaderInfo. by rewrite head_lines_eq. Qed.

Lemma HttpHeaderCompressInfo_eq n len ct :
  HttpHeaderCompressInfo n len ct =
  print_512 (lines_text (status_line n :: map header_line (head_fields len (c_string ct ++ str ";charset=utf-8")) ++ [[]])).
Proof. unfold HttpHeaderCompressInfo. by rewrite <-head_lines_eq, <-app_assoc. Qed.

Lemma length_head_bounds n len ct :
  67 + slen ct ≤ slen (lines_text (status_line n :: map header_line (head_fields len ct) ++ [[]])) ≤ 128 + slen ct.
Proof.
  rewrite length_head. destruct (status_line_text n) as (_ & _ & Hs). destruct (print_dec_chars len) as [_ Hd]. lia.
Qed.

(** The services' own parser reads the fields back. *)
Lemma ParseHead_response n len ct body :
  (13 ∉ ct) → (13 ∉ body) →
  ParseHead new_packet (lines_text (status_line n :: map header_line (head_fields len ct) ++ [[]]) ++ body) =
  Ret (set_head new_packet (foldl put_header ∅ (head_fields len ct))).
Proof.
  intros Hct Hb. destruct (status_line_text n) as (H13 & H58 & _).
  assert (Forall header_ok (head_fields len ct)) as Hok.
  { assert (13 ∉ print_dec len) as Hlen by by apply print_dec_not.
    constructor; [|constructor; [|constructor; [|constructor]]]; unfold header_ok; cbn [fst snd].
    - split_and!; [by apply (bool_decide_unpack _); vm_compute..|done|by eexists _, _|by eexists _, (str "Content-Lengt")].
    - split_and!; [by apply (bool_decide_unpack _); vm_compute..|by eexists _, _|by eexists _, (str "Connectio")].
    - split_and!; [by apply (bool_decide_unpack _); vm_compute..|done|by eexists _, _|by eexists _, (str "Content-Typ")]. }
  rewrite ParseHead_eq; [|constructor; [done|by apply header_lines_13]|done].
  cbn [for_each]. rewrite head_line_none by done. cbn [mbind outcome_bind].
  rewrite for_each_app, head_lines by (done || by repeat constructor). cbn [mbind outcome_bind for_each].
  by rewrite head_line_none by apply not_elem_of_nil.
Qed.

Lemma join_absent c sep l : c ≠ sep → Forall (λ p, c ∉ p) l → c ∉ join sep l.
Proof.
  intros Hc. induction 1 as [|x l Hx Hl IH]; [apply not_elem_of_nil|]. destruct l as [|y l]; [done|].
  change (join sep (x :: y :: l)) with (x ++ sep :: join sep (y :: l)). rewrite elem_of_app, elem_of_cons. intuition.
Qed.

Lemma body_text m : response_map2string [] m = join 38 (map pair_text (items m)).
Proof. apply pairs_text. Qed.

Lemma body_absent c m :
  c ≠ 38 → c ≠ 61 → (∀ k v, m !! k = Some v → (c ∉ k) ∧ (c ∉ v)) → c ∉ response_map2string [] m.
Proof.
  intros H38 H61 Hm. rewrite body_text. apply join_absent; [done|]. apply Forall_map, Forall_forall.
  intros [k v] Hin%elem_of_items. destruct (Hm k v Hin). unfold pair_text. simpl. rewrite elem_of_app, elem_of_cons. intuition.
Qed.

Lemma head_fields_read n ct :
  let p := set_head new_packet (foldl put_header ∅ (head_fields n ct)) in
  GetLine p (str "Content-Length") = print_dec n ∧ GetLine p (str "Content-Type") = ct.
Proof.
  unfold GetLine, head_fields. cbn [foldl set_head mapHead]. unfold put_header. cbn [fst snd]. split.
  - rewrite lookup_insert_ne by (by vm_compute). rewrite lookup_insert_ne by (by vm_compute). by rewrite lookup_insert_eq.
  - by rewrite lookup_insert_eq.
Qed.

(** ** Property *)

(** A response is printed without leaving the array of 512 bytes, whatever the
    status and the body, and is read back: the services' own parsers find the
    body's length and the type "text/html" in the head and, in the body, the map
    that was to be sent.  The type the caller asks for is not printed; a head
    with a type of 445 bytes or more is written behind the array. *)
Lemma response_roundtrip `{BoostLaws} iHttpCode m sContentType :
  (∀ k v, m !! k = Some v → plain k ∧ plain v ∧ (13 ∉ k) ∧ (13 ∉ v)) →
  let body := response_map2string [] m in
  slen body ≤ INT_MAX →
  returns (encode iHttpCode m sContentType) (λ text, ∃ head p,
    text = head ++ body ∧ slen head < 512 ∧ string2map body ∅ = Ret m ∧
    ParseHead new_packet text = Ret p ∧ parse_dec (GetLine p (str "Content-Length")) = slen body ∧
    GetLine p (str "Content-Type") = str "text/html") ∧
  (445 ≤ slen (c_string sContentType) →
   HttpHeaderInfo iHttpCode (slen body) sContentType = Stuck ∧ HttpHeaderCompressInfo iHttpCode (slen body) sContentType = Stuck).
Proof.
  intros Hm body Hb.
  split.
  - unfold encode. fold body. unfold INT_MAX in Hb. assert (s32 (slen body) = slen body) as -> by (apply sw_id; lia).
    rewrite HttpHeaderInfo_eq. change (c_string (str "text/html")) with (str "text/html"). unfold print_512.
    assert (13 ∉ body) as H13 by (apply body_absent; [done..|]; intros k v E; by destruct (Hm k v E) as (_ & _ & ? & ?)).
    pose proof (length_head_bounds iHttpCode (slen body) (str "text/html")) as Hl. change (slen (str "text/html")) with 9 in Hl.
    rewrite (proj2 (Z.ltb_lt _ _)) by lia. cbn [mbind outcome_bind returns].
    eexists _, _. split_and!; [done|lia| |by apply ParseHead_response; [by apply (bool_decide_unpack _); vm_compute|]|..].
    + unfold string2map, body. rewrite body_text, (parse_pairs Ret id m); [by rewrite map_fmap_id, (left_id_L ∅ (∪))|apply items_perm|].
      intros k v E. by destruct (Hm k v E) as (? & ? & _).
    + rewrite (proj1 (head_fields_read _ _)). apply print_dec_correct. lia.
    + by rewrite (proj2 (head_fields_read _ _)).
  - intros Hc. rewrite HttpHeaderInfo_eq, HttpHeaderCompressInfo_eq. unfold print_512.
    pose proof (length_head_bounds iHttpCode (slen body) (c_string sContentType)) as H1.
    pose proof (length_head_bounds iHttpCode (slen body) (c_string sContentType ++ str ";charset=utf-8")) as H2.
    rewrite length_app in H2. by rewrite !(proj2 (Z.ltb_ge _ _)) by lia.
Qed.

(** "result=1&errinfo=ok". *)
Lemma response_roundtrip_witness :
  let m := {[ str "result" := str "1"; str "errinfo" := str "ok" ]} in
  let body := response_map2string [] m in
  returns (encode 200 m []) (λ text, ∃ head p,
    text = head ++ body ∧ slen head < 512 ∧ string2map body ∅ = Ret m ∧
    ParseHead new_packet text = Ret p ∧ parse_dec (GetLine p (str "Content-Length")) = slen body ∧
    GetLine p (str "Content-Type") = str "text/html").
Proof.
  intros m body. refine (proj1 (response_roundtrip 200 m [] _ _)).
  - assert (map_Forall (λ k v, Forall (λ c, c ≠ 38 ∧ c ≠ 61 ∧ isspace c = false) k ∧
      Forall (λ c, c ≠ 38 ∧ c ≠ 61 ∧ isspace c = false) v ∧ (13 ∉ k) ∧ (13 ∉ v)) m) as Hm
      by (by apply (bool_decide_unpack _); vm_compute).
    intros k v E. destruct (Hm k v E) as (? & ? & ? & ?). split_and!; [by apply plain_solid..|done|done].
  - by vm_compute.
Defined.
