(* ===== verification/BlockQueue.v ===== *)
(** * The blocking queue of the services: [block_queue.h]
    ([logingame_server/src/main/block_queue.h]; the copies of the other
    services have the same text)

    A [std::list] behind a mutex, and a condition variable with a mutex of its
    own.  The sequential operations come first; then the threads that call
    them, step by step: every locked region is one step, waiting and waking
    are steps of their own.  A queue is shorter than 2^31. *)

From S2P Require Import Prelude.

(** ** Definitions *)
Section block_queue.
Context {T : Type}.

Record block_queue : Type := BlockQueue { m_list : list T; m_size : Z; m_seconds : Z }.

Definition new_block_queue : block_queue := BlockQueue [] 0 3.
Definition set_timeout (q : block_queue) (seconds : Z) : block_queue := BlockQueue (m_list q) (m_size q) seconds.

(** The region behind [m_list_mutex]; the signal comes after it. *)
Definition add_queue (q : block_queue) (data : T) : block_queue :=
  BlockQueue (m_list q ++ [data]) (m_size q + 1) (m_seconds q).

Definition dequeue_nodelay (q : block_queue) : Z * option T * block_queue :=
  match m_list q with
  | data :: m_list => (1, Some data, BlockQueue m_list (m_size q - 1) (m_seconds q))
  | [] => (0, None, q)
  end.

(** What [pthread_cond_timedwait] answers. *)
Inductive wait_result : Type := Signalled | TimedOut | WaitFailed.

(** [dequeue] from the return of the wait on. *)
Definition dequeue (result : wait_result) (q : block_queue) : Z * option T * block_queue :=
  match result with
  | Signalled | TimedOut => dequeue_nodelay q
  | WaitFailed => (-1, None, q)
  end.

Definition getsize (q : block_queue) : Z := m_size q.

(** *** Threads *)

(** Where a consumer stands: outside, at the probe of [dequeue_expand], in
    front of the wait, in the wait, behind it, and with its answer. *)
Inductive pc : Type :=
  | Idle
  | Probing
  | Blocking
  | Waiting
  | Resuming (result : wait_result)
  | Returned (result : Z) (data : option T).

(** [signals] counts the producers that have left the region of [add_queue]
    and not yet signalled; [put] and [got] are what went in and came out. *)
Record system : Type := System {
  the_queue : block_queue;
  threads : gmap positive pc;
  signals : nat;
  put : list T;
  got : list T;
}.

Definition set_pc (s : system) (t : positive) (p : pc) : system :=
  System (the_queue s) (<[t := p]> (threads s)) (signals s) (put s) (got s).

Definition answer (s : system) (t : positive) (r : Z * option T * block_queue) : system :=
  let '(result, data, q) := r in
  System q (<[t := Returned result data]> (threads s)) (signals s) (put s) (got s ++ option_list data).

(** [dequeue_expand] tries [dequeue_nodelay] and calls [dequeue] when it
    answers 0. *)
Definition probe (s : system) (t : positive) : system :=
  match dequeue_nodelay (the_queue s) with
  | (0, _, _) => set_pc s t Blocking
  | r => answer s t r
  end.

Inductive step : system → system → Prop :=
  | step_add s data :
      step s (System (add_queue (the_queue s) data) (threads s) (S (signals s)) (put s ++ [data]) (got s))
  | step_signal_wakes s t n :
      signals s = S n → threads s !! t = Some Waiting →
      step s (System (the_queue s) (<[t := Resuming Signalled]> (threads s)) n (put s) (got s))
  | step_signal_lost s n :
      signals s = S n → (∀ t, threads s !! t ≠ Some Waiting) →
      step s (System (the_queue s) (threads s) n (put s) (got s))
  | step_call_nodelay s t : threads s !! t = Some Idle → step s (answer s t (dequeue_nodelay (the_queue s)))
  | step_call_dequeue s t : threads s !! t = Some Idle → step s (set_pc s t Blocking)
  | step_call_expand s t : threads s !! t = Some Idle → step s (set_pc s t Probing)
  | step_probe s t : threads s !! t = Some Probing → step s (probe s t)
  | step_wait s t : threads s !! t = Some Blocking → step s (set_pc s t Waiting)
  | step_wakes s t result : threads s !! t = Some Waiting → step s (set_pc s t (Resuming result))
  | step_resume s t result :
      threads s !! t = Some (Resuming result) → step s (answer s t (dequeue result (the_queue s)))
  | step_return s t result data : threads s !! t = Some (Returned result data) → step s (set_pc s t Idle).

(** A fresh queue with the consumers [ts], none of which has called. *)
Definition start (ts : list positive) : system :=
  System new_block_queue (list_to_map ((λ t, (t, Idle)) <$> ts)) 0 [] [].

(** ** Lemmas *)
Definition consistent (s : system) : Prop :=
  m_size (the_queue s) = Z.of_nat (length (m_list (the_queue s))) ∧
  put s = got s ++ m_list (the_queue s) ∧
  ∀ t result data, threads s !! t = Some (Returned result data) →
    match data with Some x => result = 1 ∧ x ∈ got s | None => result = 0 ∨ result = -1 end.

Lemma set_pc_consistent s t p :
  match p with Returned _ _ => False | _ => True end → consistent s → consistent (set_pc s t p).
Proof.
  intros Hp (Hn & Hf & Hr). split_and!; [done..|]. intros t' r d. simpl. rewrite lookup_insert_Some.
  intros [[_ ->]|[_ ?]]; [done|]. by eapply Hr.
Qed.

Lemma answer_consistent s t w : consistent s → consistent (answer s t (dequeue w (the_queue s))).
Proof.
  intros (Hn & Hf & Hr).
  destruct w; unfold dequeue, dequeue_nodelay; try (destruct (m_list (the_queue s)) as [|x l] eqn:E).
  all: cbn [answer option_list]; rewrite ?app_nil_r; split_and!; simpl in *; try done; try by rewrite ?E; try lia.
  all: try (intros t' r d; rewrite lookup_insert_Some; intros [[<- [= <- <-]]|[_ H%Hr]]; simpl; auto;
    destruct d; [|done]; destruct H; split; [done|]; try apply elem_of_app; by left).
  all: try by rewrite Hf, <-app_assoc.
  all: intros t' r d; rewrite lookup_insert_Some; intros [[<- [= <- <-]]|[_ H%Hr]]; [set_solver|];
    destruct d; [set_solver|done].
Qed.

Lemma step_consistent s s' : step s s' → consistent s → consistent s'.
Proof.
  intros Hs Hc. destruct Hs; try by apply set_pc_consistent.
  - destruct Hc as (Hn & Hf & Hr). split_and!; simpl; [rewrite length_app; simpl; lia|by rewrite Hf, <-app_assoc|done].
  - exact Hc.
  - by apply (answer_consistent s t Signalled).
  - unfold probe. pose proof (answer_consistent s t Signalled Hc) as Ha. unfold dequeue, dequeue_nodelay in *.
    destruct (m_list (the_queue s)); [by apply set_pc_consistent|exact Ha].
  - by apply answer_consistent.
Qed.

Lemma start_idle ts t p : threads (start ts) !! t = Some p → p = Idle.
Proof.
  unfold start. cbn [threads]. induction ts as [|u ts IH]; simpl; [by rewrite lookup_empty|].
  rewrite lookup_insert_Some. intros [[_ <-]|[_ ?]]; auto.
Qed.

Lemma start_threads ts t : t ∈ ts → threads (start ts) !! t = Some Idle.
Proof.
  intros Hin. destruct (threads (start ts) !! t) as [p|] eqn:E; [by rewrite (start_idle _ _ _ E)|].
  unfold start in E. cbn [threads] in E. apply not_elem_of_list_to_map in E. rewrite <-list_fmap_compose in E. simpl in E.
  by rewrite list_fmap_id in E.
Qed.

Lemma start_consistent ts : consistent (start ts).
Proof. split_and!; [done..|]. intros t r d H. by apply start_idle in H. Qed.
End block_queue.
Arguments block_queue : clear implicits.
Arguments system : clear implicits.

(** *** One thread *)

(** [dequeue_expand] by one thread; [w] is how the wait ends if there is one. *)
Definition dequeue_expand {T} (w : wait_result) (q : block_queue T) : Z * option T * block_queue T :=
  match dequeue_nodelay q with
  | (0, _, q) => dequeue w q
  | r => r
  end.

Lemma dequeue_cases {T} wait (q : block_queue T) r x q' :
  dequeue_expand wait q = (r, x, q') →
  (∃ y l, m_list q = y :: l ∧ x = Some y ∧ m_list q' = l ∧ dequeue_nodelay q = (1, Some y, q')) ∨ (x = None ∧ q' = q).
Proof.
  unfold dequeue_expand, dequeue_nodelay, dequeue. destruct (m_list q) as [|y l] eqn:El.
  - destruct wait; unfold dequeue_nodelay; rewrite ?El; intros [= <- <- <-]; by right.
  - intros [= <- <- <-]. left. by exists y, l.
Qed.

Lemma ok_queue {T} wait (q : block_queue T) r x q' (P : T → Prop) :
  dequeue_expand wait q = (r, x, q') → (∀ t, t ∈ m_list q → P t) → (∀ t, t ∈ m_list q' → P t) ∧ ∀ t, x = Some t → P t.
Proof.
  intros Ed HP. apply dequeue_cases in Ed as [(y & l & El & -> & Eq & _)|[-> ->]]; [|done]. rewrite El in HP. split.
  - rewrite Eq. intros t Ht. apply HP. by right.
  - intros t [= <-]. apply HP. by left.
Qed.

(** ** Properties *)

(** C33 In any interleaving of producers and consumers, by whichever of the three
    ways they dequeue, the data come out in the order they went in, none twice
    and none lost, the counter is the length of the list, and a consumer gets 1
    with one of the data, or 0 or -1 without.  But a signal is not remembered:
    a consumer can call [dequeue] and come to wait although there is data in
    the queue and nobody will signal any more. *)
Theorem block_queue_fifo {T} ts (s : system T) t x :
  rtc step (start ts) s → t ∈ ts →
  (m_size (the_queue s) = Z.of_nat (length (m_list (the_queue s))) ∧
   put s = got s ++ m_list (the_queue s) ∧
   ∀ t result data, threads s !! t = Some (Returned result data) →
     match data with Some x => result = 1 ∧ x ∈ got s | None => result = 0 ∨ result = -1 end) ∧
  rtc step (start ts) (System (BlockQueue [x] 1 3) (<[t := Waiting (T:=T)]> (threads (start ts))) 0 [x] []).
Proof.
  intros Hs Ht. split.
  - eapply (rtc_ind_r consistent); [apply start_consistent| |done]. intros y z _ Hstep Hy. by eapply step_consistent.
  - eapply rtc_l; [by apply (step_call_dequeue _ t), start_threads|].
    eapply rtc_l; [apply (step_add _ x)|].
    eapply rtc_l; [eapply step_signal_lost; [done|]|].
    + intros t'. simpl. rewrite lookup_insert_Some. by intros [[_ ?]|[_ H%start_idle]].
    + eapply rtc_l; [eapply (step_wait _ t); simpl; apply lookup_insert_eq|].
      unfold set_pc. cbn. rewrite insert_insert_eq. constructor.
Qed.

Lemma block_queue_fifo_witness :
  rtc step (start [1%positive]) (System (BlockQueue [5] 1 3) {[ 1%positive := Waiting ]} 0 [5] []).
Proof.
  refine (proj2 (block_queue_fifo [1%positive] (start [1%positive]) 1%positive 5 _ _)); [constructor|by left].
Defined.
