(* ===== verification/Frame.v ===== *)
(** * Frames and messages of the notify adapter
    ([notify_adapter_v2/src/main/protocol_codec.cpp], [message_codec.cpp])

    A frame is a head of two 16-bit numbers, version and length, in front of
    its content, a key-value text.  The memory behind a [char] pointer is the
    list of its bytes, a string is followed by its terminator; an integer is
    read and written in the byte order of the machine, [host_le]. *)

From Stdlib Require Import String.
From S2P Require Import Prelude Text Coding Utility MyCommon Config.

(** ** Definitions: [protocol_codec] *)
Section protocol_codec.
Context (host_le : bool).

(** [sizeof(STU_PROTOCOL_HEAD)], packed. *)
Definition get_head_length : Z := 4.

(** The length is compared with [sizeof], so as an unsigned number. *)
Definition get_body_length (pdata : list Z) (buffer_len : Z) : outcome Z :=
  if u64 buffer_len <? 4 then Ret (-1)
  else
    let! l := load_bytes pdata 2 2 in
    let length := hton16 (object_value host_le l) in
    if 5000 <=? length then Ret (-1)
    else if bool_decide (length = 0) then Ret (-1)
    else Ret length.

Definition get_body (pdata : list Z) (buffer_len : Z) (body : list Z) : outcome (Z * list Z) :=
  let! body_length := get_body_length pdata buffer_len in
  if bool_decide (body_length = -1) then Ret (-1, body)
  else if bool_decide (buffer_len ≠ body_length + get_head_length) then Ret (-1, body)
  else
    let! l := load_bytes pdata get_head_length (Z.to_nat body_length) in
    Ret (0, body ++ l).

(** Version and length become 16-bit numbers. *)
Definition encode_buffer (version : Z) (content str_buffer : list Z) : list Z :=
  let version := version mod 2 ^ 16 in
  let length := slen content mod 2 ^ 16 in
  let stu_head := object_bytes host_le 2 (hton16 version) ++ object_bytes host_le 2 (hton16 length) in
  (str_buffer ++ stu_head) ++ content.

Definition get_body_string (str_body str_content : list Z) : outcome (Z * list Z) :=
  if slen str_body <=? 4 then Ret (-1, str_content)
  else
    let! l := load_bytes (str_body ++ [0]) 0 4 in
    let content_length := hton32 (object_value host_le l) in
    if bool_decide (u32 (content_length + 4) ≠ slen str_body) then Ret (-1, str_content)
    else
      let! str_content := substr_from str_body 4 in
      Ret (0, str_content).
End protocol_codec.

(** ** Definitions: [message_codec] *)
Definition CONTENT_PATH_AUTH : list Z := str "/cli/notify/adapter/auth/post".
Definition CONTENT_PATH_AUTH_ACK : list Z := str "/svr/notify/adapter/auth/post".
Definition CONTENT_PATH_GETKEY : list Z := str "/cli/notify/adapter/randomkey/get".
Definition CONTENT_PATH_GETKEY_ACK : list Z := str "/svr/notify/adapter/randomkey/get".
Definition CONTENT_PATH_HEARTBEAT : list Z := str "/cli/notify/adapter/heartbeat/post".
Definition CONTENT_PATH_HEARTBEAT_ACK : list Z := str "/svr/notify/adapter/heartbeat/post".
Definition CONTENT_PATH_OFFLINE : list Z := str "/svr/notify/adapter/offline/post".

(** The state of a [message_codec] is its map. *)
Abbreviation content_map := (gmap (list Z) (list Z)).

Section message_codec.
Context `{Boost}.

Definition decode_content (content : list Z) (m_content_map : content_map) : outcome content_map :=
  string2map content m_content_map.

Definition get_content_path (m_content_map : content_map) : list Z := get_value (str "path") m_content_map.

(** [MD5] is the digest of the library, [m_verify_key] the key of the configuration. *)
Definition content_auth_verify (MD5 : list Z → list Z) (m_verify_key : list Z) (m_content_map : content_map) : outcome Z :=
  let gameinternalno := get_value (str "gameinternalno") m_content_map in
  let sign := get_value (str "sign") m_content_map in
  let key := get_value (str "key") m_content_map in
  if bool_decide (sign = []) || bool_decide (key = []) then Ret (-1)
  else
    let! md5after := get_md5 MD5 (gameinternalno ++ key ++ m_verify_key) in
    if bool_decide (md5after ≠ sign) then Ret (-1) else Ret 0.
End message_codec.

Definition encode_auth (validation : bool) (content seqid tokenid : list Z) : list Z :=
  let map_result : content_map := ∅ in
  let map_result := map_insert map_result (str "path") CONTENT_PATH_AUTH_ACK in
  let map_result := map_insert map_result (str "seqid") seqid in
  let map_result := map_insert map_result (str "tokenid") tokenid in
  let map_result := map_insert map_result (str "result") (if validation then str "1" else str "102") in
  map2string content map_result.

Definition encode_getkey_rtn (validation : bool) (randomkey rtn_content : list Z) : list Z :=
  let mapparam : content_map := ∅ in
  let mapparam := map_insert mapparam (str "path") CONTENT_PATH_GETKEY_ACK in
  let mapparam :=
    if validation then map_insert (map_insert mapparam (str "result") (str "1")) (str "key") randomkey
    else map_insert mapparam (str "result") (str "3") in
  map2string rtn_content mapparam.

Definition encode_heartbeat_rtn (rtn_content : list Z) : list Z :=
  let mapparam : content_map := map_insert ∅ (str "path") CONTENT_PATH_HEARTBEAT_ACK in
  map2string rtn_content mapparam.

(** [INIT_MESSAGE_CODEC]: the key [m_verify_key] of the class. *)
Definition INIT_MESSAGE_CODEC (config : list item) : list Z := getString config (str "verify_key_message") (str "123456").

(** ** Definitions for the statements *)

(** The head of a frame. *)
Definition head_bytes (host_le : bool) (version length : Z) : list Z :=
  object_bytes host_le 2 (hton16 version) ++ object_bytes host_le 2 (hton16 length).

(** The length in the head of [data]. *)
Definition head_value (host_le : bool) (data : list Z) : Z := hton16 (object_value host_le (take 2 (drop 2 data))).

(** The lengths a receiver accepts. *)
Definition length_ok (n : Z) : Prop := 0 < n < 5000.

#[export] Instance length_ok_dec n : Decision (length_ok n).
Proof. unfold length_ok. apply _. Defined.

(** A whole frame with an acceptable length. *)
Definition complete (host_le : bool) (data : list Z) : Prop :=
  4 < slen data ∧ slen data = 4 + head_value host_le data ∧ length_ok (head_value host_le data).

#[export] Instance complete_dec host_le data : Decision (complete host_le data).
Proof. unfold complete. apply _. Defined.

(** ** Lemmas *)
Lemma hton16_range a : 0 ≤ hton16 a < 2 ^ 16.
Proof.
  unfold hton16. assert (Forall is_u8 (rev (le_bytes 2 a))) as H by apply Forall_rev, le_bytes_range.
  apply le_value_lt in H. by rewrite length_rev, length_le_bytes in H.
Qed.

Lemma length_object_bytes host_le n v : length (object_bytes host_le n v) = n.
Proof. unfold object_bytes. destruct host_le; rewrite ?length_rev; apply length_le_bytes. Qed.

Lemma length_head_bytes host_le v n : length (head_bytes host_le v n) = 4%nat.
Proof. unfold head_bytes. by rewrite length_app, !length_object_bytes. Qed.

Lemma hton16_bytes a : 0 ≤ a < 2 ^ 16 → le_bytes 2 (hton16 a) = [a / 256; a mod 256].
Proof.
  intros Ha. unfold hton16.
  assert (le_bytes 2 (le_value (rev (le_bytes 2 a))) = rev (le_bytes 2 a)) as ->
    by apply (le_bytes_value (rev (le_bytes 2 a))), Forall_rev, le_bytes_range.
  cbn [le_bytes rev app]. by rewrite (Z.mod_small (a / 256)) by dlia.
Qed.

(** On a little-endian machine the numbers of the head are in network order. *)
Lemma head_bytes_le v n : 0 ≤ v < 2 ^ 16 → 0 ≤ n < 2 ^ 16 →
  head_bytes true v n = [v / 256; v mod 256; n / 256; n mod 256].
Proof. intros Hv Hn. unfold head_bytes, object_bytes. by rewrite !hton16_bytes. Qed.

Section frames.
Context (host_le : bool).

Lemma head_value_app data tl : 4 ≤ slen data → head_value host_le (data ++ tl) = head_value host_le data.
Proof.
  intros Hd. unfold head_value. rewrite drop_app_le by lia. rewrite take_app_le by (rewrite length_drop; lia). done.
Qed.

Lemma head_value_head v n tl : 0 ≤ n < 2 ^ 16 → head_value host_le (head_bytes host_le v n ++ tl) = n.
Proof.
  intros Hn. rewrite head_value_app by (rewrite length_head_bytes; lia). unfold head_value, head_bytes.
  rewrite drop_app_length', take_ge by by rewrite length_object_bytes.
  rewrite object_value_bytes by apply hton16_range. by apply hton16_twice.
Qed.

Lemma get_body_length_eq data tl buffer_len : 4 ≤ slen data → 4 ≤ buffer_len < 2 ^ 63 →
  get_body_length host_le (data ++ tl) buffer_len =
  Ret (if decide (length_ok (head_value host_le data)) then head_value host_le data else -1).
Proof.
  intros Hd Hb. unfold get_body_length. rewrite u64_id by (unfold is_u64; lia).
  rewrite (proj2 (Z.ltb_ge _ _)) by lia. rewrite (load_bytes_split _ 2 2) by (rewrite ?length_app; lia).
  cbn [mbind outcome_bind]. change (hton16 _) with (head_value host_le (data ++ tl)). rewrite head_value_app by done.
  pose proof (hton16_range (object_value host_le (take 2 (drop 2 data)))) as Hr. fold (head_value host_le data) in Hr.
  unfold length_ok. destruct (Z.leb_spec 5000 (head_value host_le data)); [by rewrite decide_False by lia|].
  case_bool_decide; [by rewrite decide_False by lia|]. by rewrite decide_True by lia.
Qed.

Lemma get_body_eq data body : slen data < 2 ^ 31 →
  get_body host_le (data ++ [0]) (s32 (slen data)) body =
  Ret (if decide (complete host_le data)
       then (0, body ++ drop 4 data) else (-1, body)).
Proof.
  intros Hd. unfold s32. rewrite sw_id by lia. unfold get_body. destruct (decide (slen data < 4)) as [Hs|Hs].
  { rewrite decide_False by (unfold complete; lia). unfold get_body_length. rewrite u64_id by (unfold is_u64; lia).
    rewrite (proj2 (Z.ltb_lt _ _)) by lia. done. }
  rewrite get_body_length_eq by lia. cbn [mbind outcome_bind].
  destruct (decide (length_ok _)) as [Hok|Hok]; [|rewrite bool_decide_eq_true_2 by done; rewrite decide_False by (unfold complete; tauto); done].
  unfold length_ok in *. rewrite bool_decide_eq_false_2 by lia. unfold get_head_length.
  case_bool_decide; [by rewrite decide_False by (unfold complete; lia)|].
  rewrite decide_True by (unfold complete, length_ok; lia).
  rewrite load_bytes_split by (rewrite ?length_app; lia). cbn [mbind outcome_bind]. do 3 f_equal.
  rewrite drop_app_le by (change (Z.to_nat 4) with 4%nat; lia). apply take_app_length'. rewrite length_drop. lia.
Qed.
End frames.

Lemma encode_buffer_eq host_le version content buf :
  encode_buffer host_le version content buf =
  buf ++ head_bytes host_le (version mod 2 ^ 16) (slen content mod 2 ^ 16) ++ content.
Proof. unfold encode_buffer, head_bytes. by rewrite <-!app_assoc. Qed.

(** *** Messages *)
Section messages.
Context `{BoostLaws}.

Ltac plain_map :=
  intros k w; unfold map_insert; simplify_map_eq;
  repeat (rewrite lookup_insert_Some || rewrite lookup_empty); intros Hkw;
  repeat match goal with
  | H : _ ∨ _ |- _ => destruct H
  | H : _ ∧ _ |- _ => destruct H
  | H : None = Some _ |- _ => discriminate H
  end; subst; split; try assumption; apply plain_solid; by apply (bool_decide_unpack _); vm_compute.

(** What the peer reads in the replies. *)
Lemma encode_auth_decodes ok seqid tokenid : plain seqid → plain tokenid →
  decode_content (encode_auth ok [] seqid tokenid) ∅ =
  Ret (<[str "result" := if ok then str "1" else str "102"]> (<[str "tokenid" := tokenid]>
        (<[str "seqid" := seqid]> {[ str "path" := CONTENT_PATH_AUTH_ACK ]}))).
Proof.
  intros Hs Ht. unfold decode_content, encode_auth. rewrite !map_insert_fresh by (by simplify_map_eq).
  rewrite string2map_map2string; [done|]. destruct ok; plain_map.
Qed.

Lemma encode_getkey_decodes key : plain key →
  decode_content (encode_getkey_rtn true key []) ∅ =
  Ret (<[str "key" := key]> (<[str "result" := str "1"]> {[ str "path" := CONTENT_PATH_GETKEY_ACK ]})).
Proof.
  intros Hs. unfold decode_content, encode_getkey_rtn. rewrite !map_insert_fresh by (by simplify_map_eq).
  rewrite string2map_map2string; [done|]. plain_map.
Qed.

Lemma encode_heartbeat_decodes : decode_content (encode_heartbeat_rtn []) ∅ = Ret {[ str "path" := CONTENT_PATH_HEARTBEAT_ACK ]}.
Proof.
  unfold decode_content, encode_heartbeat_rtn. rewrite !map_insert_fresh by done.
  rewrite string2map_map2string; [done|]. plain_map.
Qed.
End messages.

(** ** Properties *)

(** [encode_buffer] appends a head, in network order on a little-endian
    machine, and the content; [get_body] returns the content of a frame of 1 to
    4999 bytes, and refuses every longer one and the empty one, as it does a
    frame that is cut short.  But the head has only the low 16 bits of the
    length: a receiver takes the beginning of a longer content for a frame.
    The answers to an authentication and to the request for a key are decoded
    by the peer to what was put into them. *)
Lemma frame_roundtrip `{BoostLaws} host_le version content buf body ok seqid tokenid :
  slen content < 2 ^ 31 - 4 → plain seqid → plain tokenid →
  let f := encode_buffer host_le version content [] in
  encode_buffer host_le version content buf = buf ++ f ∧
  (host_le = true → take 4 f = [version mod 2 ^ 16 / 256; version mod 256; slen content mod 2 ^ 16 / 256; slen content mod 256]) ∧
  get_body host_le (f ++ [0]) (s32 (slen f)) body =
    Ret (if decide (length_ok (slen content)) then (0, body ++ content) else (-1, body)) ∧
  (∀ cut, (cut < length f)%nat → slen content < 2 ^ 16 → get_body host_le (take cut f ++ [0]) (s32 (slen (take cut f))) body = Ret (-1, body)) ∧
  (let n := slen content mod 2 ^ 16 in 2 ^ 16 ≤ slen content → length_ok n →
     let g := take (Z.to_nat (4 + n)) f in get_body host_le (g ++ [0]) (s32 (slen g)) body = Ret (0, body ++ take (Z.to_nat n) content)) ∧
  (∃ m, decode_content (encode_auth ok [] seqid tokenid) ∅ = Ret m ∧ get_content_path m = CONTENT_PATH_AUTH_ACK ∧
     get_value (str "result") m = (if ok then str "1" else str "102") ∧
     get_value (str "seqid") m = seqid ∧ get_value (str "tokenid") m = tokenid) ∧
  (∃ m, decode_content (encode_getkey_rtn true tokenid []) ∅ = Ret m ∧ get_content_path m = CONTENT_PATH_GETKEY_ACK ∧
     get_value (str "key") m = tokenid).
Proof.
  intros Hc Hs Ht f. assert (f = head_bytes host_le (version mod 2 ^ 16) (slen content mod 2 ^ 16) ++ content) as Ef by apply encode_buffer_eq.
  pose proof (Z.mod_pos_bound version (2 ^ 16) ltac:(lia)) as Hv. pose proof (Z.mod_pos_bound (slen content) (2 ^ 16) ltac:(lia)) as Hl.
  assert (slen f = 4 + slen content) as Hf by (rewrite Ef, length_app, length_head_bytes; lia).
  assert (head_value host_le f = slen content mod 2 ^ 16) as Hh by (rewrite Ef; by apply head_value_head).
  split_and!.
  - rewrite encode_buffer_eq. by rewrite Ef.
  - intros ->. rewrite Ef, take_app_length' by by rewrite length_head_bytes. rewrite head_bytes_le by done.
    by rewrite !Z.mod_mod_divide by by exists 256.
  - rewrite get_body_eq by lia.
    replace (drop 4 f) with content by (rewrite Ef; by rewrite drop_app_length' by by rewrite length_head_bytes).
    f_equal. destruct (decide (length_ok (slen content))) as [Hok|Hok].
    + rewrite decide_True; [done|]. unfold complete. rewrite Hh, Hf. unfold length_ok in *. rewrite Z.mod_small by lia. lia.
    + rewrite decide_False; [done|]. unfold complete. rewrite Hh, Hf. unfold length_ok in *. dlia.
  - intros cut Hcut Hsmall. assert (slen (take cut f) < slen f) as Hlt by (rewrite length_take; lia).
    rewrite get_body_eq by lia. rewrite decide_False; [done|]. intros (H4 & He & Hok).
    rewrite <-(take_drop cut f), head_value_app in Hh by lia. rewrite Hh in *. rewrite Z.mod_small in He by lia. lia.
  - intros n Hlong Hn g. unfold length_ok in Hn. assert (slen g = 4 + n) as Hg by (unfold g; rewrite length_take; lia).
    rewrite <-(take_drop (Z.to_nat (4 + n)) f), head_value_app in Hh by (fold g; lia). fold g in Hh.
    rewrite get_body_eq, decide_True by (unfold complete, length_ok; lia). unfold g. rewrite skipn_firstn_comm, Ef.
    rewrite drop_app_length' by by rewrite length_head_bytes. do 4 f_equal. lia.
  - eexists. split; [by apply encode_auth_decodes|]. by destruct ok.
  - eexists. split; [by apply encode_getkey_decodes|]. done.
Qed.

Lemma frame_roundtrip_witness :
  get_body true (encode_buffer true 0 [97; 61; 98] [] ++ [0]) 7 [] = Ret (0, [97; 61; 98]).
Proof.
  refine (proj1 (proj2 (proj2 (frame_roundtrip true 0 [97; 61; 98] [] [] true [49] [50] _ _ _)))); [done|..].
  all: apply plain_solid; by apply (bool_decide_unpack _); vm_compute.
Defined.
