(* ===== verification/Socket.v ===== *)
(** * What the kernel tells a connection server, and what the server does

    Shared by the two servers of the services, the notify adapter's
    ([TcpServer.v]) and the HTTP server ([HttpServer.v]): the answers of the
    kernel and of the clock, the log of what was done with descriptors, who
    holds a descriptor, and the tags that tell its successive holders apart. *)

From S2P Require Import Prelude Text.

(** ** Definitions *)

(** What a server did: descriptors opened and closed, data sent with the
    result of the call, identities given to connections. *)
Inductive action : Type :=
  | Accepted (fd tag : Z)
  | Closed (fd : Z)
  | Sent (fd : Z) (data : list Z) (result : Z)
  | Granted (fd tag : Z) (identity : list Z).

#[export] Instance action_eq_dec : EqDecision action.
Proof. solve_decision. Defined.

(** What the kernel and the clock answer while one event is handled: [send]
    by what went before, descriptor and data; [write] to the pipe by the bytes
    in it and the number of the attempt. *)
Record environment : Type := Env {
  env_time : Z;
  env_send : list action → Z → list Z → Z;
  env_write : Z → Z → Z;
}.

(** The answers to [accept], [non_blocking], [setsockopt], [epoll_ctl] and the
    address of the peer. *)
Record accept_result : Type := AcceptResult {
  new_client_fd : Z;
  noblock_result : Z;
  optresult : Z;
  add_result : Z;
  str_clientip : list Z;
}.

(** The answer to [read] and [recv]: bytes, none at the end of the stream; an
    error that says to try again; another error. *)
Inductive recv_result : Type := Received (data : list Z) | TryAgain | RecvFailed.

(** ** Definitions for the statements *)

(** The tag of the connection that holds [fd] after the actions [log]. *)
Definition owner_step (fd : Z) (o : option Z) (a : action) : option Z :=
  match a with
  | Accepted fd' tag => if bool_decide (fd' = fd) then Some tag else o
  | Closed fd' => if bool_decide (fd' = fd) then None else o
  | _ => o
  end.
Definition owner (log : list action) (fd : Z) : option Z := foldl (owner_step fd) None log.

(** The tags of all connections there have been. *)
Definition tags (log : list action) : list Z := omap (λ a, match a with Accepted _ tag => Some tag | _ => None end) log.

(** A server with the counter [id]: below 2^32 connections the tags are
    different, and their low halves are the values the counter had. *)
Definition tags_ok (id : Z) (log : list action) : Prop :=
  slen (tags log) < 2 ^ 32 →
  id = slen (tags log) ∧ NoDup (tags log) ∧ Forall (λ tag, 0 < tag mod 2 ^ 32 ≤ id) (tags log).

(** ** Lemmas *)
Lemma owner_app log a fd : owner (log ++ [a]) fd = owner_step fd (owner log fd) a.
Proof. unfold owner. by rewrite foldl_app. Qed.

Lemma tags_app log a : tags (log ++ [a]) = tags log ++ match a with Accepted _ tag => [tag] | _ => [] end.
Proof. unfold tags. rewrite omap_app. f_equal. by destruct a. Qed.

Lemma owner_accepted log fd tag : owner log fd = Some tag → Accepted fd tag ∈ log.
Proof.
  induction log as [|a log IH] using rev_ind; [done|]. rewrite owner_app, elem_of_app, list_elem_of_singleton.
  destruct a as [fd' tag'|fd'|fd' data result|fd' tag' id]; cbn [owner_step]; try (by left; auto).
  - case_bool_decide as E; [intros [= ->]; subst; by right|by left; auto].
  - case_bool_decide; [done|by left; auto].
Qed.

Lemma tags_ok_skip id log a : match a with Accepted _ _ => False | _ => True end → tags_ok id log → tags_ok id (log ++ [a]).
Proof. intros Ha Ht. unfold tags_ok. rewrite tags_app. destruct a; try done; by rewrite app_nil_r. Qed.

(** The low half of a tag is the counter's. *)
Lemma tag_low fd id : u64 (u64 (Z.shiftl (u64 fd) 32) + Z.land (u64 (id + 1)) (2 ^ 32 - 1)) mod 2 ^ 32 = (id + 1) mod 2 ^ 32.
Proof.
  change (2 ^ 32 - 1) with (Z.ones 32). rewrite Z.land_ones by lia.
  rewrite Z.shiftl_mul_pow2 by lia. unfold u64. change (2 ^ 64) with (2 ^ 32 * 2 ^ 32).
  assert (∀ z, (z mod (2 ^ 32 * 2 ^ 32)) mod 2 ^ 32 = z mod 2 ^ 32) as Hmm.
  { intros z. rewrite Z.rem_mul_r by lia. by rewrite (Z.mul_comm (2 ^ 32)), Z_mod_plus_full, Zmod_mod. }
  rewrite Hmm, Zplus_mod, Hmm, Z_mod_mult, Z.add_0_l, !Zmod_mod. apply Hmm.
Qed.

Lemma tags_ok_accept id log fd tag :
  tag mod 2 ^ 32 = (id + 1) mod 2 ^ 32 → tags_ok id log → tags_ok (u64 (id + 1)) (log ++ [Accepted fd tag]).
Proof.
  unfold tags_ok. intros Hlow Ht. rewrite tags_app, length_app. simpl. intros Hn. destruct Ht as (Hid & Hnd & Hf); [lia|].
  assert (u64 (id + 1) = id + 1) as Hu by (apply u64_id; unfold is_u64; lia). rewrite Hu.
  rewrite (Z.mod_small (id + 1)) in Hlow by lia. split_and!; [lia| |].
  - apply NoDup_app. split_and!; [done| |apply NoDup_singleton]. intros t Hin ->%list_elem_of_singleton.
    rewrite Forall_forall in Hf. apply Hf in Hin. lia.
  - apply Forall_app. split; [|by constructor; [lia|]]. eapply Forall_impl; [exact Hf|]. simpl. lia.
Qed.
