(* ===== verification/TcpServer.v ===== *)
(** * The connection server of the notify adapter
    ([notify_adapter_v2/src/main/tcpserver.cpp], [tcpservermanager.cpp],
    [socket_client.h], [adapter_common.h])

    One thread, the reactor, waits for sockets with epoll and owns the table of
    clients; the other threads hand it commands through a queue and a pipe.
    The kernel is the environment: what it answers to a call is an argument of
    the handler that makes the call, and what the server asks of it is noted
    in [m_log], which no handler reads.  A client object is reached only from
    its slot of the table, so the slot holds its value.  Counters of
    connections stay below 2^31. *)

From Stdlib Require Import String.
From S2P Require Import Prelude Text Coding Utility MyCommon Config BlockQueue Frame Socket.

(** ** Definitions: data *)
Record socket_client : Type := SocketClient {
  m_fd : Z;
  m_unify_tag : Z;
  m_data_recv : list Z;
  m_is_authed : bool;
  m_socket_identity : list Z;
  m_last_update_seconds : Z;
  m_clientip : list Z;
}.

Definition PIPE_CMD_SEND : Z := 0.
Definition PIPE_CMD_CLOSE : Z := 1.
Definition PIPE_CMD_AUTH_OK : Z := 2.
Definition PIPE_CMD_BOADCAST : Z := 3.

Definition TCP_CHECK_OK : Z := 1.
Definition TCP_CHECK_ERROR : Z := 2.

Inductive enum_notify_type : Type := enum_sock_data_recv | enum_sock_close.

Record STU_EPOLL_RTN : Type := EpollRtn {
  clientfd : Z;
  fd_unify_tag : Z;
  socket_ientity : list Z;
  str_data_send : list Z;
  cmd_type : Z;
}.

Record STU_SOCKET_INFO : Type := SocketInfo { info_fd : Z; info_tag : Z }.

Record STU_MSG_INFO : Type := MsgInfo {
  msg_fd : Z;
  msg_tag : Z;
  tokenid : list Z;
  content_path : list Z;
  content : list Z;
}.

(** The fields of [tcpserver], the queue of the dispatcher, and the number of
    bytes in the pipe. *)
Record server : Type := Server {
  m_array_epoll_data : gmap Z socket_client;
  m_map_socket_ientity : gmap (list Z) STU_SOCKET_INFO;
  m_queue_rtn : block_queue STU_EPOLL_RTN;
  m_queue_adapter_cmd : block_queue STU_MSG_INFO;
  m_clientcount : Z;
  m_client_history_count : Z;
  m_unify_id : Z;
  m_last_timeout_check_seconds : Z;
  m_pipe : Z;
  m_log : list action;
}.

Definition set_clients (f : gmap Z socket_client → gmap Z socket_client) (s : server) : server :=
  Server (f (m_array_epoll_data s)) (m_map_socket_ientity s) (m_queue_rtn s) (m_queue_adapter_cmd s) (m_clientcount s)
    (m_client_history_count s) (m_unify_id s) (m_last_timeout_check_seconds s) (m_pipe s) (m_log s).
Definition set_identities (f : gmap (list Z) STU_SOCKET_INFO → gmap (list Z) STU_SOCKET_INFO) (s : server) : server :=
  Server (m_array_epoll_data s) (f (m_map_socket_ientity s)) (m_queue_rtn s) (m_queue_adapter_cmd s) (m_clientcount s)
    (m_client_history_count s) (m_unify_id s) (m_last_timeout_check_seconds s) (m_pipe s) (m_log s).
Definition set_commands (q : block_queue STU_EPOLL_RTN) (s : server) : server :=
  Server (m_array_epoll_data s) (m_map_socket_ientity s) q (m_queue_adapter_cmd s) (m_clientcount s)
    (m_client_history_count s) (m_unify_id s) (m_last_timeout_check_seconds s) (m_pipe s) (m_log s).
Definition set_messages (q : block_queue STU_MSG_INFO) (s : server) : server :=
  Server (m_array_epoll_data s) (m_map_socket_ientity s) (m_queue_rtn s) q (m_clientcount s)
    (m_client_history_count s) (m_unify_id s) (m_last_timeout_check_seconds s) (m_pipe s) (m_log s).
Definition set_counts (count history : Z) (s : server) : server :=
  Server (m_array_epoll_data s) (m_map_socket_ientity s) (m_queue_rtn s) (m_queue_adapter_cmd s) count
    history (m_unify_id s) (m_last_timeout_check_seconds s) (m_pipe s) (m_log s).
Definition set_unify_id (id : Z) (s : server) : server :=
  Server (m_array_epoll_data s) (m_map_socket_ientity s) (m_queue_rtn s) (m_queue_adapter_cmd s) (m_clientcount s)
    (m_client_history_count s) id (m_last_timeout_check_seconds s) (m_pipe s) (m_log s).
Definition set_last_check (t : Z) (s : server) : server :=
  Server (m_array_epoll_data s) (m_map_socket_ientity s) (m_queue_rtn s) (m_queue_adapter_cmd s) (m_clientcount s)
    (m_client_history_count s) (m_unify_id s) t (m_pipe s) (m_log s).
Definition set_pipe (n : Z) (s : server) : server :=
  Server (m_array_epoll_data s) (m_map_socket_ientity s) (m_queue_rtn s) (m_queue_adapter_cmd s) (m_clientcount s)
    (m_client_history_count s) (m_unify_id s) (m_last_timeout_check_seconds s) n (m_log s).
Definition note (a : action) (s : server) : server :=
  Server (m_array_epoll_data s) (m_map_socket_ientity s) (m_queue_rtn s) (m_queue_adapter_cmd s) (m_clientcount s)
    (m_client_history_count s) (m_unify_id s) (m_last_timeout_check_seconds s) (m_pipe s) (m_log s ++ [a]).

(** ** Definitions: the server *)
Definition m_epoll_maxsize : Z := 200000.

(** The state after the constructor and the first part of the reactor. *)
Definition new_server (now : Z) : server := Server ∅ ∅ new_block_queue new_block_queue 0 0 0 now 0 [].

(** The slot of a descriptor. *)
Definition get_client (s : server) (fd : Z) : outcome (option socket_client) :=
  if (0 <=? fd) && (fd <? m_epoll_maxsize) then Ret (m_array_epoll_data s !! fd) else Stuck.

Definition put_client (fd : Z) (c : socket_client) (s : server) : server := set_clients (<[fd := c]>) s.

Definition add_command (c : STU_EPOLL_RTN) (s : server) : server := set_commands (add_queue (m_queue_rtn s) c) s.
Definition add_message (m : STU_MSG_INFO) (s : server) : server :=
  set_messages (add_queue (m_queue_adapter_cmd s) m) s.

Definition get_unify_tag (client_fd : Z) (s : server) : Z * server :=
  let s := set_unify_id (u64 (m_unify_id s + 1)) s in
  let unifyid := Z.land (m_unify_id s) (2 ^ 32 - 1) in
  let fd64 := u64 (Z.shiftl (u64 client_fd) 32) in
  (u64 (fd64 + unifyid), s).

(** The loop over the attempts [i] to 5. *)
Fixpoint write_attempts (e : environment) (n : nat) (i : Z) (s : server) : Z * server :=
  match n with
  | O => (-1, s)
  | S n =>
      if bool_decide (env_write e (m_pipe s) i = -1) then write_attempts e n (i + 1) s
      else (0, set_pipe (m_pipe s + 1) s)
  end.

Definition write_byte_to_pipe (e : environment) (s : server) : Z * server := write_attempts e 6 0 s.

(** *** Commands of the other threads *)
Definition close_socket (e : environment) (fd tag : Z) (s : server) : Z * server :=
  write_byte_to_pipe e (add_command (EpollRtn fd tag [] [] PIPE_CMD_CLOSE) s).

Definition socket_auth_ok (e : environment) (fd tag : Z) (socket_identity : list Z) (s : server) : Z * server :=
  (0, (write_byte_to_pipe e (add_command (EpollRtn fd tag socket_identity [] PIPE_CMD_AUTH_OK) s)).2).

Definition send_data (e : environment) (fd tag : Z) (senddata : list Z) (s : server) : Z * server :=
  write_byte_to_pipe e (add_command (EpollRtn fd tag [] senddata PIPE_CMD_SEND) s).

Definition send_data_ientity (e : environment) (socket_identity senddata : list Z) (s : server) : Z * server :=
  write_byte_to_pipe e (add_command (EpollRtn 0 0 socket_identity senddata PIPE_CMD_SEND) s).

Definition boadcast (e : environment) (boadcastinfo : list Z) (s : server) : Z * server :=
  write_byte_to_pipe e (add_command (EpollRtn 0 0 [] boadcastinfo PIPE_CMD_BOADCAST) s).

(** [tcpservermanager] passes its replies on. *)
Definition reply_data (e : environment) (fd tag : Z) (strdata : list Z) (s : server) : server :=
  (send_data e fd tag strdata s).2.
Definition reply_data_identity (e : environment) (sock_ientity strdata : list Z) (s : server) : server :=
  (send_data_ientity e sock_ientity strdata s).2.
Definition reply_close (e : environment) (fd tag : Z) (s : server) : server := (close_socket e fd tag s).2.
Definition reply_auth_ok (e : environment) (fd tag : Z) (sock_identity : list Z) (s : server) : server :=
  (socket_auth_ok e fd tag sock_identity s).2.

(** ** Definitions: callbacks of [tcpservermanager] *)
Section server.
Context `{Boost} (host_le : bool) (MD5 : list Z → list Z) (m_verify_key : list Z).
Context (m_check_timeout_interval_seconds m_invalid_socket_timeout_seconds : Z).

(** [new_connect_callback], with the constructor of [socket_client]. *)
Definition new_connect_callback (e : environment) (newfd unify_tag : Z) : socket_client :=
  SocketClient newfd unify_tag [] false [] (env_time e) [].

Definition callback_head_length (pclient : socket_client) : Z := get_head_length.
Definition callback_body_length (pclient : socket_client) : outcome Z :=
  get_body_length host_le (m_data_recv pclient ++ [0]) (s32 (slen (m_data_recv pclient))).

(** The test of a message that comes before authentication. *)
Definition check_unauthed (contentpath : list Z) (m_content_map : content_map) : outcome bool :=
  if bool_decide (contentpath = CONTENT_PATH_AUTH) then
    let! auth_result := content_auth_verify MD5 m_verify_key m_content_map in
    Ret (negb (bool_decide (auth_result = -1)))
  else Ret (bool_decide (contentpath = CONTENT_PATH_GETKEY)).

Definition data_notify_callback (e : environment) (notify_type : enum_notify_type) (pclientdata : option socket_client)
    (s : server) : outcome (Z * server) :=
  match notify_type, pclientdata with
  | enum_sock_data_recv, None => Ret (TCP_CHECK_ERROR, s)
  | enum_sock_data_recv, Some pclient =>
      let! r := get_body host_le (m_data_recv pclient ++ [0]) (s32 (slen (m_data_recv pclient))) [] in
      let (result, content) := (r : Z * list Z) in
      if bool_decide (result = -1) then Ret (TCP_CHECK_ERROR, s)
      else
        let! msgcodec := decode_content content ∅ in
        let contentpath := get_content_path msgcodec in
        let! admitted := if m_is_authed pclient then Ret true else check_unauthed contentpath msgcodec in
        if negb admitted then Ret (TCP_CHECK_ERROR, s)
        else if bool_decide (contentpath = CONTENT_PATH_HEARTBEAT) then
          let rtn_content := encode_heartbeat_rtn [] in
          let rtn_buffer := encode_buffer host_le 0 rtn_content [] in
          let s := reply_data e (m_fd pclient) (m_unify_tag pclient) rtn_buffer s in
          Ret (TCP_CHECK_OK, add_message (MsgInfo (m_fd pclient) (m_unify_tag pclient) (m_socket_identity pclient) CONTENT_PATH_HEARTBEAT content) s)
        else
          Ret (TCP_CHECK_OK, add_message (MsgInfo (m_fd pclient) (m_unify_tag pclient) (m_socket_identity pclient) (get_content_path msgcodec) content) s)
  | enum_sock_close, None => Stuck
  | enum_sock_close, Some pclient =>
      if bool_decide (m_socket_identity pclient ≠ []) then
        Ret (TCP_CHECK_OK, add_message (MsgInfo (m_fd pclient) (m_unify_tag pclient) (m_socket_identity pclient) CONTENT_PATH_OFFLINE []) s)
      else Ret (TCP_CHECK_OK, s)
  end.

(** *** Handlers of the reactor *)

(** The result is always -1. *)
Definition close_internal (e : environment) (fd : Z) (s : server) : outcome server :=
  let s := note (Closed fd) s in
  let s := set_counts (m_clientcount s - 1) (m_client_history_count s) s in
  let! pclient := get_client s fd in
  let s := set_clients (delete fd) s in
  match pclient with
  | Some c =>
      let! r := data_notify_callback e enum_sock_close (Some c) s in
      if bool_decide (m_socket_identity c ≠ []) then Ret (set_identities (delete (m_socket_identity c)) r.2)
      else Ret r.2
  | None => Ret s
  end.

Definition senddata_internal (e : environment) (data_send : list Z) (fd : Z) (s : server) : outcome (Z * server) :=
  let result := env_send e (m_log s) fd data_send in
  let s := note (Sent fd data_send result) s in
  if bool_decide (result = -1) then
    let! s := close_internal e fd s in Ret (-1, s)
  else if bool_decide (u64 result ≠ slen data_send) then Ret (-1, s)
  else Ret (0, s).

Definition boadcast_one (e : environment) (boadcastdata : list Z) (iter : list Z * STU_SOCKET_INFO)
    (st : server * list Z) : outcome (server * list Z) :=
  let (s, vec_fd_ready2close) := st in
  let fd := info_fd iter.2 in
  let result := env_send e (m_log s) fd boadcastdata in
  let s := note (Sent fd boadcastdata result) s in
  if bool_decide (result = -1) || bool_decide (u64 result ≠ slen boadcastdata) then Ret (s, vec_fd_ready2close ++ [fd])
  else Ret (s, vec_fd_ready2close).

Definition boadcast_internal (e : environment) (boadcastdata : list Z) (s : server) : outcome server :=
  let! r := for_each (boadcast_one e boadcastdata) (items (m_map_socket_ientity s)) (s, []) in
  for_each (close_internal e) r.2 r.1.

Definition touch (now : Z) (c : socket_client) : socket_client :=
  SocketClient (m_fd c) (m_unify_tag c) (m_data_recv c) (m_is_authed c) (m_socket_identity c) now (m_clientip c).
Definition set_recv (l : list Z) (c : socket_client) : socket_client :=
  SocketClient (m_fd c) (m_unify_tag c) l (m_is_authed c) (m_socket_identity c) (m_last_update_seconds c) (m_clientip c).
Definition set_identity (id : list Z) (c : socket_client) : socket_client :=
  SocketClient (m_fd c) (m_unify_tag c) (m_data_recv c) true id (m_last_update_seconds c) (m_clientip c).

(** The client object and a command name the same connection. *)
Definition same_socket (c : socket_client) (fd tag : Z) : bool :=
  bool_decide (m_fd c = fd) && bool_decide (m_unify_tag c = tag).

(** The case PIPE_CMD_SEND; [pclient] is the client of [fd]. *)
Definition pipe_cmd_send (e : environment) (stu : STU_EPOLL_RTN) (fd : Z) (pclient : socket_client) (s : server)
    : outcome (Z * server) :=
  let s := put_client fd (touch (env_time e) pclient) s in
  if bool_decide (socket_ientity stu = []) then
    let! r := senddata_internal e (str_data_send stu) fd s in Ret (0, r.2)
  else
    match m_map_socket_ientity s !! socket_ientity stu with
    | None => Ret (0, s)
    | Some iter => let! r := senddata_internal e (str_data_send stu) (info_fd iter) s in Ret (0, r.2)
    end.

(** The case PIPE_CMD_AUTH_OK. *)
Definition pipe_cmd_auth_ok (e : environment) (stu : STU_EPOLL_RTN) (s : server) : outcome (Z * server) :=
  let! pclient := get_client s (clientfd stu) in
  match pclient with
  | None => Ret (0, s)
  | Some pclient =>
      if negb (same_socket pclient (clientfd stu) (fd_unify_tag stu)) then Ret (0, s)
      else if bool_decide (socket_ientity stu = []) then Ret (0, s)
      else
        let s := put_client (clientfd stu) (set_identity (socket_ientity stu) pclient) s in
        let s := note (Granted (clientfd stu) (fd_unify_tag stu) (socket_ientity stu)) s in
        let info := SocketInfo (clientfd stu) (fd_unify_tag stu) in
        match m_map_socket_ientity s !! socket_ientity stu with
        | None => Ret (0, set_identities (λ m, map_insert m (socket_ientity stu) info) s)
        | Some iter =>
            if bool_decide (clientfd stu = info_fd iter) then Ret (0, s)
            else
              let! s := close_internal e (info_fd iter) s in
              Ret (0, set_identities (λ m, map_insert m (socket_ientity stu) info) s)
        end
  end.

(** The connection a command is for. *)
Definition command_target (stu : STU_EPOLL_RTN) (s : server) : option STU_SOCKET_INFO :=
  if bool_decide (cmd_type stu = PIPE_CMD_AUTH_OK) || bool_decide (socket_ientity stu = []) then
    Some (SocketInfo (clientfd stu) (fd_unify_tag stu))
  else m_map_socket_ientity s !! socket_ientity stu.

Definition pipe_cmd (e : environment) (stu : STU_EPOLL_RTN) (s : server) : outcome (Z * server) :=
  match command_target stu s with
  | None => Ret (-1, s)
  | Some info =>
      if bool_decide (cmd_type stu = PIPE_CMD_BOADCAST) then
        let! s := boadcast_internal e (str_data_send stu) s in Ret (0, s)
      else if m_epoll_maxsize <=? info_fd info then Ret (-1, s)
      else
        let! pclient := get_client s (info_fd info) in
        match pclient with
        | None => Ret (-1, s)
        | Some pclient =>
            if negb (same_socket pclient (info_fd info) (info_tag info)) then Ret (-1, s)
            else if bool_decide (cmd_type stu = PIPE_CMD_SEND) then pipe_cmd_send e stu (info_fd info) pclient s
            else if bool_decide (cmd_type stu = PIPE_CMD_CLOSE) then
              let! s := close_internal e (info_fd info) s in Ret (0, s)
            else if bool_decide (cmd_type stu = PIPE_CMD_AUTH_OK) then pipe_cmd_auth_ok e stu s
            else Ret (-1, s)
        end
  end.

(** [result] is what [read] of one byte from the pipe answers. *)
Definition dealwith_pipe_cmd (e : environment) (result : Z) (s : server) : outcome (Z * server) :=
  if bool_decide (result ≠ 1) then Ret (-1, s)
  else
    let s := set_pipe (m_pipe s - 1) s in
    match dequeue_nodelay (m_queue_rtn s) with
    | (1, Some stu_epoll_rtn, q) => pipe_cmd e stu_epoll_rtn (set_commands q s)
    | (_, _, q) => Ret (-1, set_commands q s)
    end.

(** The part of [dealwith_recv] behind the head; [recv] answers by the number
    of bytes asked for.  A negative number is a great [size_t] for the kernel,
    which would write behind the buffer. *)
Definition recv_body (e : environment) (recv : Z → recv_result) (fd headlength : Z) (pclient : socket_client) (s : server)
    : outcome (Z * server) :=
  let! body_length := callback_body_length pclient in
  if bool_decide (body_length = -1) then Ret (-1, s)
  else
    let needed := s32 (u64 (body_length - (slen (m_data_recv pclient) - headlength))) in
    let body_needto_recved := if 4096 <? needed then 4096 else needed in
    if body_needto_recved <? 0 then Stuck
    else match recv body_needto_recved with
    | TryAgain => Ret (0, s)
    | RecvFailed => Ret (-1, s)
    | Received charbody =>
        if bool_decide (slen charbody = 0) then Ret (-1, s)
        else
          let pclient := set_recv (m_data_recv pclient ++ charbody) pclient in
          let s := put_client fd pclient s in
          if slen charbody <? body_needto_recved then Ret (0, s)
          else
            let! r := data_notify_callback e enum_sock_data_recv (Some pclient) s in
            if bool_decide (r.1 ≠ TCP_CHECK_OK) then Ret (-1, r.2)
            else Ret (0, put_client fd (set_recv [] pclient) r.2)
    end.

(** One [read] for the head or one [recv] for the body per event. *)
Definition dealwith_recv (e : environment) (recv : Z → recv_result) (fd : Z) (s : server) : outcome (Z * server) :=
  let! pclient := get_client s fd in
  match pclient with
  | None => Ret (-1, s)
  | Some pclient =>
      let headlength := callback_head_length pclient in
      if bool_decide (headlength = -1) then Ret (-1, s)
      else
        let size_recved := s32 (slen (m_data_recv pclient)) in
        if size_recved <? headlength then
          match recv (headlength - size_recved) with
          | TryAgain => Ret (0, s)
          | RecvFailed => Ret (-1, s)
          | Received headdata =>
              if bool_decide (slen headdata = 0) then Ret (-1, s)
              else Ret (0, put_client fd (set_recv (m_data_recv pclient ++ headdata) pclient) s)
          end
        else recv_body e recv fd headlength pclient s
  end.

(** The slot is written without a test of the descriptor. *)
Definition dealwith_new_connection (e : environment) (a : accept_result) (s : server) : outcome (Z * server) :=
  if bool_decide (new_client_fd a = -1) then Ret (-1, s)
  else if bool_decide (noblock_result a = -1) then Ret (-1, s)
  else if bool_decide (optresult a = -1) then Ret (-1, s)
  else if bool_decide (add_result a = -1) then Ret (-1, s)
  else
    let (unify_tag, s) := get_unify_tag (new_client_fd a) s in
    let c := new_connect_callback e (new_client_fd a) unify_tag in
    let c := SocketClient (m_fd c) (m_unify_tag c) [] (m_is_authed c) [] (m_last_update_seconds c) (str_clientip a) in
    let! _ := get_client s (new_client_fd a) in
    let s := note (Accepted (new_client_fd a) unify_tag) (put_client (new_client_fd a) c s) in
    Ret (0, set_counts (m_clientcount s + 1) (u64 (m_client_history_count s + 1)) s).

Definition timeout_one (e : environment) (currentseconds fd : Z) (s : server) : outcome server :=
  let! pclient := get_client s fd in
  match pclient with
  | None => Ret s
  | Some pclient =>
      if m_last_update_seconds pclient <? currentseconds then
        let diff_fd := u64 (currentseconds - m_last_update_seconds pclient) in
        if u64 m_invalid_socket_timeout_seconds <? diff_fd then close_internal e (m_fd pclient) s else Ret s
      else Ret s
  end.

(** The statements of [check_timeout]. *)
Definition check_timeout_statements (e : environment) (s : server) : outcome server :=
  let currentseconds := env_time e in
  if m_last_timeout_check_seconds s <? currentseconds then
    let diff := u64 (currentseconds - m_last_timeout_check_seconds s) in
    if u64 m_check_timeout_interval_seconds <=? diff then
      for_range 0 m_epoll_maxsize (timeout_one e currentseconds) (set_last_check currentseconds s)
    else Ret s
  else Ret s.

(** The function is declared with the result [int] and ends behind its
    statements without one, which is undefined. *)
Definition check_timeout (e : environment) (s : server) : outcome (Z * server) :=
  let! _ := check_timeout_statements e s in Stuck.

(** One descriptor of [epoll_wait], and one turn of the loop; a turn without
    a descriptor is one that timed out. *)
Inductive event : Type :=
  | NewConnection (a : accept_result)
  | PipeReadable (result : Z)
  | SocketReadable (fd : Z) (recv : Z → recv_result).

Definition handle (ev : environment * event) (s : server) : outcome server :=
  match ev.2 with
  | NewConnection a => let! r := dealwith_new_connection ev.1 a s in Ret r.2
  | PipeReadable result => let! r := dealwith_pipe_cmd ev.1 result s in Ret r.2
  | SocketReadable fd recv =>
      let! r := dealwith_recv ev.1 recv fd s in
      if bool_decide (r.1 = -1) then close_internal ev.1 fd r.2 else Ret r.2
  end.

Definition reactor_turn (evs : list (environment * event)) (e : environment) (s : server) : outcome server :=
  let! s := for_each handle evs s in
  let! r := check_timeout e s in
  Ret r.2.

Definition get_current_conn (s : server) : Z := m_clientcount s.
Definition get_conn_history (s : server) : Z := m_client_history_count s.

(** ** Definitions for the statements *)

(** What the kernel promises for an event: a new descriptor is not in use; a
    descriptor of the event is one that was registered; a call does not give
    more bytes than it was asked for. *)
Definition kernel_ok (ev : event) (s : server) : Prop :=
  match ev with
  | NewConnection a => new_client_fd a = -1 ∨ 0 ≤ new_client_fd a ∧ owner (m_log s) (new_client_fd a) = None
  | PipeReadable _ => True
  | SocketReadable fd recv => (∃ tag, Accepted fd tag ∈ m_log s) ∧ ∀ n l, 0 ≤ n → recv n = Received l → slen l ≤ n
  end.

(** A new descriptor for which the table has no slot; nothing tests it. *)
Definition beyond_table (ev : event) : Prop :=
  match ev with NewConnection a => m_epoll_maxsize ≤ new_client_fd a | _ => False end.

(** The reactor, the threads that submit commands (about a connection they
    were told of, or by identity), and the dispatcher, which takes messages.
    The step of [check_timeout] is what its statements do, and then its call
    returns: what the machine code does that compilers make of it unless they
    take the missing result for a proof that it is never called. *)
Inductive server_step : server → server → Prop :=
  | step_event ev s s' : kernel_ok ev.2 s → handle ev s = Ret s' → server_step s s'
  | step_timeout e s s' : check_timeout_statements e s = Ret s' → server_step s s'
  | step_command c s : 0 ≤ clientfd c → server_step s (add_command c s)
  | step_write e s : server_step s (write_byte_to_pipe e s).2
  | step_take m q s :
      dequeue_nodelay (m_queue_adapter_cmd s) = (1, Some m, q) → server_step s (set_messages q s).

Definition reachable (s : server) : Prop := ∃ now, rtc server_step (new_server now) s.

(** A message for the dispatcher that the server may pass on: it carries the
    identity its connection was given, or it comes before authentication and
    then asks for a random key or has a valid signature. *)
Definition admitted (log : list action) (m : STU_MSG_INFO) : Prop :=
  (tokenid m ≠ [] ∧ Granted (msg_fd m) (msg_tag m) (tokenid m) ∈ log) ∨
  (tokenid m = [] ∧ ∃ msgcodec, decode_content (content m) ∅ = Ret msgcodec ∧
     get_content_path msgcodec = content_path m ∧
     (content_path m = CONTENT_PATH_GETKEY ∨
      content_path m = CONTENT_PATH_AUTH ∧ content_auth_verify MD5 m_verify_key msgcodec = Ret 0)).

(** ** The invariant *)

(** What has been received of a frame: part of its head, or a head with an
    acceptable length and less than its body. *)
Definition partial (data : list Z) : Prop :=
  slen data ≤ 4 ∨ length_ok (head_value host_le data) ∧ slen data < 4 + head_value host_le data.

Record client_ok (log : list action) (fd : Z) (c : socket_client) : Prop := {
  client_fd : m_fd c = fd;
  client_slot : 0 ≤ fd < m_epoll_maxsize;
  client_authed : m_is_authed c = true ↔ m_socket_identity c ≠ [];
  client_granted : m_socket_identity c ≠ [] → Granted fd (m_unify_tag c) (m_socket_identity c) ∈ log;
}.

Record server_ok (s : server) : Prop := {
  ok_owner : ∀ fd, owner (m_log s) fd = m_unify_tag <$> m_array_epoll_data s !! fd;
  ok_client : ∀ fd c, m_array_epoll_data s !! fd = Some c → client_ok (m_log s) fd c;
  ok_partial : ∀ fd c, m_array_epoll_data s !! fd = Some c → partial (m_data_recv c);
  ok_identity : ∀ id info, m_map_socket_ientity s !! id = Some info →
    0 ≤ info_fd info < m_epoll_maxsize ∧ Granted (info_fd info) (info_tag info) id ∈ m_log s;
  ok_command : ∀ c, c ∈ m_list (m_queue_rtn s) → 0 ≤ clientfd c;
  ok_message : ∀ m, m ∈ m_list (m_queue_adapter_cmd s) → 0 ≤ msg_fd m ∧ admitted (m_log s) m;
  ok_tags : tags_ok (m_unify_id s) (m_log s);
  ok_registered : ∀ fd tag, Accepted fd tag ∈ m_log s → 0 ≤ fd < m_epoll_maxsize;
}.
End server.

(** ** Lemmas *)

Lemma client_ok_mono log log' fd c : client_ok log fd c → client_ok (log ++ log') fd c.
Proof. intros [H1 H2 H3 H4]. split; [done..|]. intros Hi. apply elem_of_app. left. auto. Qed.

(** *** Closing *)

(** [close_internal] of a descriptor within the table. *)
Definition closed (fd : Z) (s : server) : server :=
  let s1 := set_clients (delete fd) (set_counts (m_clientcount s - 1) (m_client_history_count s) (note (Closed fd) s)) in
  match m_array_epoll_data s !! fd with
  | Some c =>
      if bool_decide (m_socket_identity c ≠ []) then
        set_identities (delete (m_socket_identity c))
          (add_message (MsgInfo (m_fd c) (m_unify_tag c) (m_socket_identity c) CONTENT_PATH_OFFLINE []) s1)
      else s1
  | None => s1
  end.

Lemma get_client_eq s fd : 0 ≤ fd < m_epoll_maxsize → get_client s fd = Ret (m_array_epoll_data s !! fd).
Proof. intros Hfd. unfold get_client. by rewrite (proj2 (Z.leb_le 0 fd)), (proj2 (Z.ltb_lt fd _)) by lia. Qed.

Section server_lemmas.
Context `{Boost} (host_le : bool) (MD5 : list Z → list Z) (m_verify_key : list Z).
Context (MD5_length : ∀ l, length (MD5 l) = 16%nat).
Abbreviation ok := (server_ok host_le MD5 m_verify_key).
Abbreviation adm := (λ log m, 0 ≤ msg_fd m ∧ admitted MD5 m_verify_key log m).

Lemma close_internal_eq e fd s :
  0 ≤ fd < m_epoll_maxsize → close_internal host_le MD5 m_verify_key e fd s = Ret (closed fd s).
Proof.
  intros Hfd. unfold close_internal, closed. rewrite get_client_eq by done. cbn [mbind outcome_bind].
  change (m_array_epoll_data (set_counts _ _ _)) with (m_array_epoll_data s).
  destruct (m_array_epoll_data s !! fd) as [c|]; [|done]. unfold data_notify_callback. by case_bool_decide.
Qed.

Lemma admitted_mono log log' m : adm log m → adm (log ++ log') m.
Proof. intros [Hfd [[Hi Hg]|Hu]]; (split; [done|]); [left|by right]. split; [done|]. apply elem_of_app. by left. Qed.

Lemma ok_note a s : match a with Sent _ _ _ | Granted _ _ _ => True | _ => False end → ok s → ok (note a s).
Proof.
  intros Ha [Ho Hc Hp Hi Hq Hm Ht Hacc]. split; cbn [note m_log m_array_epoll_data m_map_socket_ientity m_queue_rtn m_queue_adapter_cmd m_unify_id].
  - intros fd. rewrite owner_app, <-Ho. by destruct a.
  - intros fd c E. by apply client_ok_mono, Hc.
  - done.
  - intros id info E. destruct (Hi _ _ E). split; [done|]. apply elem_of_app. by left.
  - done.
  - intros m Hin. by apply admitted_mono, Hm.
  - apply tags_ok_skip; [by destruct a|done].
  - intros fd tag [?|[= E]%list_elem_of_singleton]%elem_of_app; [eauto|by subst a].
Qed.

Lemma ok_message_added m s : ok s → adm (m_log s) m → ok (add_message m s).
Proof.
  intros [Ho Hc Hp Hi Hq Hm Ht Hacc] Ha. split; try done. intros m'. simpl. rewrite elem_of_app, list_elem_of_singleton.
  intros [?| ->]; auto.
Qed.

Lemma ok_command_added c s : ok s → 0 ≤ clientfd c → ok (add_command c s).
Proof.
  intros [Ho Hc Hp Hi Hq Hm Ht Hacc] Ha. split; try done. intros c'. simpl. rewrite elem_of_app, list_elem_of_singleton.
  intros [?| ->]; auto.
Qed.

Lemma ok_put fd c c' s :
  ok s → m_array_epoll_data s !! fd = Some c → m_unify_tag c' = m_unify_tag c →
  client_ok (m_log s) fd c' → partial host_le (m_data_recv c') → ok (put_client fd c' s).
Proof.
  intros [Ho Hc Hp Hi Hq Hm Ht Hacc] E Etag Hc' Hp'. split; try done; cbn [put_client set_clients m_array_epoll_data m_log].
  - intros fd'. rewrite Ho. destruct (decide (fd = fd')) as [<-|Hne]; [by rewrite lookup_insert_eq, E; simpl; rewrite Etag|].
    by rewrite lookup_insert_ne.
  - intros fd' c1 [[<- <-]|[? ?]]%lookup_insert_Some; auto.
  - intros fd' c1 [[<- <-]|[? ?]]%lookup_insert_Some; eauto.
Qed.

Lemma ok_identities f s :
  ok s →
  (∀ id info, f (m_map_socket_ientity s) !! id = Some info →
     m_map_socket_ientity s !! id = Some info ∨
     0 ≤ info_fd info < m_epoll_maxsize ∧ Granted (info_fd info) (info_tag info) id ∈ m_log s) →
  ok (set_identities f s).
Proof. intros [Ho Hc Hp Hi Hq Hm Ht Hacc] Hf. split; try done. intros id info [E|E]%Hf; auto. Qed.

Lemma ok_closed fd s : ok s → ok (closed fd s).
Proof.
  intros Hok. pose proof Hok as [Ho Hc Hp Hi Hq Hm Ht Hacc]. unfold closed.
  assert (ok (set_clients (delete fd) (set_counts (m_clientcount s - 1) (m_client_history_count s) (note (Closed fd) s)))) as Hok1.
  { split; cbn [note set_clients set_counts m_log m_array_epoll_data m_map_socket_ientity m_queue_rtn m_queue_adapter_cmd m_unify_id].
    - intros fd'. rewrite owner_app. cbn [owner_step]. case_bool_decide as E; [by rewrite E, lookup_delete_eq|].
      by rewrite lookup_delete_ne.
    - intros fd' c [_ E]%lookup_delete_Some. by apply client_ok_mono, Hc.
    - intros fd' c [_ E]%lookup_delete_Some. eauto.
    - intros id info E. destruct (Hi _ _ E). split; [done|]. apply elem_of_app. by left.
    - done.
    - intros m Hin. by apply admitted_mono, Hm.
    - by apply tags_ok_skip.
    - intros fd' tag [?|[= E]%list_elem_of_singleton]%elem_of_app; eauto. }
  destruct (m_array_epoll_data s !! fd) as [c|] eqn:E; [|done]. case_bool_decide as Hid; [|done].
  apply ok_identities; [|intros id info [_ ?]%lookup_delete_Some; by left].
  apply ok_message_added; [done|]. destruct (Hc _ _ E) as [-> Hfd _ Hg]. split; [simpl; lia|]. left. split; [done|]. simpl.
  apply elem_of_app. auto.
Qed.

Lemma log_closed fd s : m_log (closed fd s) = m_log s ++ [Closed fd].
Proof. unfold closed. by repeat case_match. Qed.

(** *** Callbacks *)
Lemma write_attempts_pipe e n i s : ∃ k, (write_attempts e n i s).2 = set_pipe k s.
Proof.
  revert i. induction n as [|n IH]; intros i; cbn [write_attempts]; [exists (m_pipe s); by destruct s|].
  case_bool_decide; [apply IH|by eexists].
Qed.

Lemma ok_set_pipe k s : ok s → ok (set_pipe k s).
Proof. by intros [Ho Hc Hp Hi Hq Hm Ht Hacc]. Qed.

Lemma ok_write e s : ok s → ok (write_byte_to_pipe e s).2.
Proof. intros Hs. unfold write_byte_to_pipe. destruct (write_attempts_pipe e 6 0 s) as [k ->]. by apply ok_set_pipe. Qed.

(** What the callback does with a message it accepts. *)
Definition delivered (e : environment) (c : socket_client) (path body : list Z) (s : server) : server :=
  let m := MsgInfo (m_fd c) (m_unify_tag c) (m_socket_identity c) path body in
  if bool_decide (path = CONTENT_PATH_HEARTBEAT) then
    add_message m (reply_data e (m_fd c) (m_unify_tag c) (encode_buffer host_le 0 (encode_heartbeat_rtn []) []) s)
  else add_message m s.

Lemma check_unauthed_total path m :
  ∃ b, check_unauthed MD5 m_verify_key path m = Ret b ∧
    (b = true → path = CONTENT_PATH_GETKEY ∨ path = CONTENT_PATH_AUTH ∧ content_auth_verify MD5 m_verify_key m = Ret 0).
Proof.
  unfold check_unauthed. case_bool_decide as E; [|eexists; split; [done|]; intros ?%bool_decide_eq_true; by left].
  assert (content_auth_verify MD5 m_verify_key m = Ret 0 ∨ content_auth_verify MD5 m_verify_key m = Ret (-1)) as [-> | ->].
  - unfold content_auth_verify. destruct (_ || _); [by right|]. rewrite get_md5_ok by done. cbn [mbind outcome_bind].
    case_bool_decide; auto.
  - eexists. split; [done|]. intros _. by right.
  - eexists. split; [done|]. done.
Qed.

Lemma notify_recv_eq e c s : slen (m_data_recv c) < 2 ^ 31 →
  ∃ msgcodec b,
    decode_content (drop 4 (m_data_recv c)) ∅ = Ret msgcodec ∧
    (m_is_authed c = true → b = true) ∧
    (m_is_authed c = false → b = true → get_content_path msgcodec = CONTENT_PATH_GETKEY ∨
       get_content_path msgcodec = CONTENT_PATH_AUTH ∧ content_auth_verify MD5 m_verify_key msgcodec = Ret 0) ∧
    data_notify_callback host_le MD5 m_verify_key e enum_sock_data_recv (Some c) s =
    Ret (if decide (complete host_le (m_data_recv c)) then
           if b then (TCP_CHECK_OK, delivered e c (get_content_path msgcodec) (drop 4 (m_data_recv c)) s)
           else (TCP_CHECK_ERROR, s)
         else (TCP_CHECK_ERROR, s)).
Proof.
  intros Hl. destruct (string2map_total (drop 4 (m_data_recv c)) ∅) as [mc Emc]. exists mc.
  destruct (check_unauthed_total (get_content_path mc) mc) as (b & Eb & Hb).
  exists (if m_is_authed c then true else b).
  split_and!; [exact Emc|by intros ->|intros ->; exact Hb|].
  unfold data_notify_callback. rewrite get_body_eq by done. cbn [mbind outcome_bind].
  destruct (decide (complete host_le (m_data_recv c))) as [Hcm|Hcm].
  - cbn [app]. rewrite bool_decide_eq_false_2 by done.
    unfold decode_content. rewrite Emc. cbn [mbind outcome_bind].
    destruct (m_is_authed c); [|rewrite Eb]; cbn [mbind outcome_bind]; [|destruct b; cbn [negb]; [|done]].
    all: cbn [negb]; unfold delivered; by case_bool_decide as Ep; rewrite ?Ep.
  - by rewrite bool_decide_eq_true_2.
Qed.

Lemma delivered_clients e c path body s : m_array_epoll_data (delivered e c path body s) = m_array_epoll_data s.
Proof.
  unfold delivered, reply_data, send_data, write_byte_to_pipe. case_bool_decide; [|done].
  by destruct (write_attempts_pipe e 6 0 (add_command (EpollRtn (m_fd c) (m_unify_tag c) []
    (encode_buffer host_le 0 (encode_heartbeat_rtn []) []) PIPE_CMD_SEND) s)) as [k ->].
Qed.

Lemma delivered_messages e c path body s :
  m_list (m_queue_adapter_cmd (delivered e c path body s)) =
  m_list (m_queue_adapter_cmd s) ++ [MsgInfo (m_fd c) (m_unify_tag c) (m_socket_identity c) path body].
Proof.
  unfold delivered, reply_data, send_data, write_byte_to_pipe. case_bool_decide; [|done].
  by destruct (write_attempts_pipe e 6 0 (add_command (EpollRtn (m_fd c) (m_unify_tag c) []
    (encode_buffer host_le 0 (encode_heartbeat_rtn []) []) PIPE_CMD_SEND) s)) as [k ->].
Qed.

Lemma write_attempts_put e n i fd c s :
  (write_attempts e n i (put_client fd c s)).2 = put_client fd c (write_attempts e n i s).2.
Proof.
  revert i. induction n as [|n IH]; intros i; cbn [write_attempts]; [done|].
  change (m_pipe (put_client fd c s)) with (m_pipe s). by case_bool_decide.
Qed.

Lemma delivered_put e c path body fd c' s :
  put_client fd c' (delivered e c path body s) = delivered e c path body (put_client fd c' s).
Proof.
  unfold delivered, reply_data, send_data, write_byte_to_pipe. case_bool_decide; [|done].
  set (m := MsgInfo _ _ _ _ _). set (cmd := EpollRtn _ _ _ _ _).
  change (add_command cmd (put_client fd c' s)) with (put_client fd c' (add_command cmd s)). by rewrite write_attempts_put.
Qed.

Lemma ok_delivered e c path body s :
  ok s → 0 ≤ m_fd c → adm (m_log s) (MsgInfo (m_fd c) (m_unify_tag c) (m_socket_identity c) path body) →
  ok (delivered e c path body s).
Proof.
  intros Hok Hfd Ha. unfold delivered, reply_data, send_data, write_byte_to_pipe. case_bool_decide; [|by apply ok_message_added].
  destruct (write_attempts_pipe e 6 0 (add_command (EpollRtn (m_fd c) (m_unify_tag c) []
    (encode_buffer host_le 0 (encode_heartbeat_rtn []) []) PIPE_CMD_SEND) s)) as [k ->].
  apply ok_message_added; [|done]. apply ok_set_pipe. by apply ok_command_added.
Qed.

(** *** Receiving *)

(** How many bytes the next call asks for. *)
Definition wanted (data : list Z) : Z :=
  if slen data <? 4 then 4 - slen data else Z.min 4096 (4 + head_value host_le data - slen data).

(** The handler, on a client with [data] received so far and [l] more. *)
Definition recv_more (e : environment) (fd : Z) (c : socket_client) (l : list Z) (s : server) : outcome (Z * server) :=
  let c' := set_recv (m_data_recv c ++ l) c in
  let s := put_client fd c' s in
  if (slen (m_data_recv c) <? 4) || (slen l <? wanted (m_data_recv c)) then Ret (0, s)
  else
    let! r := data_notify_callback host_le MD5 m_verify_key e enum_sock_data_recv (Some c') s in
    if bool_decide (r.1 ≠ TCP_CHECK_OK) then Ret (-1, r.2) else Ret (0, put_client fd (set_recv [] c') r.2).

Lemma dealwith_recv_eq e recv fd s c :
  0 ≤ fd < m_epoll_maxsize → m_array_epoll_data s !! fd = Some c → partial host_le (m_data_recv c) →
  dealwith_recv host_le MD5 m_verify_key e recv fd s =
  if bool_decide (4 ≤ slen (m_data_recv c) ∧ ¬ length_ok (head_value host_le (m_data_recv c))) then Ret (-1, s)
  else
    match recv (wanted (m_data_recv c)) with
    | TryAgain => Ret (0, s)
    | RecvFailed => Ret (-1, s)
    | Received l => if bool_decide (l = []) then Ret (-1, s) else recv_more e fd c l s
    end.
Proof.
  intros Hfd E Hp. unfold dealwith_recv. rewrite get_client_eq by done. cbn [mbind outcome_bind]. rewrite E.
  unfold callback_head_length. rewrite bool_decide_eq_false_2 by done.
  assert (slen (m_data_recv c) < 2 ^ 31) as Hl by (unfold partial, length_ok in Hp; lia).
  assert (s32 (slen (m_data_recv c)) = slen (m_data_recv c)) as Hs32 by (apply sw_id; lia). rewrite !Hs32.
  change get_head_length with 4.
  destruct (Z.ltb_spec (slen (m_data_recv c)) 4) as [Hs|Hs].
  - rewrite bool_decide_eq_false_2 by lia. unfold wanted, recv_more. rewrite (proj2 (Z.ltb_lt _ _)) by done.
    destruct (recv _) as [l| |]; [|done..]. destruct l as [|x l]; [done|].
    by rewrite !bool_decide_eq_false_2 by (simpl; lia || done).
  - unfold recv_body, callback_body_length. rewrite Hs32, get_body_length_eq by lia.
    cbn [mbind outcome_bind]. destruct (decide (length_ok (head_value host_le (m_data_recv c)))) as [Hok|Hok];
      [|by rewrite !bool_decide_eq_true_2 by (done || lia)].
    assert (4 + head_value host_le (m_data_recv c) - slen (m_data_recv c) > 0) as Hpos by (unfold partial, length_ok in *; lia).
    rewrite !bool_decide_eq_false_2 by (unfold length_ok in *; tauto || lia).
    assert (wanted (m_data_recv c) = Z.min 4096 (4 + head_value host_le (m_data_recv c) - slen (m_data_recv c))) as Hw
      by (unfold wanted; by rewrite (proj2 (Z.ltb_ge _ _)) by lia).
    assert (s32 (u64 (head_value host_le (m_data_recv c) - (slen (m_data_recv c) - 4))) =
            4 + head_value host_le (m_data_recv c) - slen (m_data_recv c)) as ->.
    { unfold length_ok in Hok. rewrite u64_id by (unfold is_u64; lia). unfold s32. rewrite sw_id by lia. lia. }
    assert ((if 4096 <? 4 + head_value host_le (m_data_recv c) - slen (m_data_recv c) then 4096
             else 4 + head_value host_le (m_data_recv c) - slen (m_data_recv c)) = wanted (m_data_recv c)) as ->
      by (rewrite Hw; case_match; lia).
    rewrite (proj2 (Z.ltb_ge _ _)) by lia. destruct (recv _) as [l| |]; [|done..]. destruct l as [|x l]; [done|].
    rewrite !bool_decide_eq_false_2 by (simpl; lia || done). unfold recv_more.
    by rewrite (proj2 (Z.ltb_ge (slen (m_data_recv c)) 4)) by lia.
Qed.

Lemma wanted_nonneg data :
  partial host_le data → ¬ (4 ≤ slen data ∧ ¬ length_ok (head_value host_le data)) → 0 < wanted data.
Proof.
  intros Hp Hb. unfold wanted. destruct (Z.ltb_spec (slen data) 4); [lia|].
  assert (length_ok (head_value host_le data)) as Hok by (destruct (decide (length_ok (head_value host_le data))); tauto).
  unfold partial, length_ok in *. lia.
Qed.

Lemma partial_more data l :
  partial host_le data → ¬ (4 ≤ slen data ∧ ¬ length_ok (head_value host_le data)) → slen l ≤ wanted data →
  slen data < 4 ∨ slen l < wanted data → partial host_le (data ++ l).
Proof.
  intros Hp Hb Hl Hm. unfold wanted in *. unfold partial. rewrite length_app.
  destruct (Z.ltb_spec (slen data) 4) as [Hs|Hs]; [left; lia|].
  rewrite head_value_app by done. unfold partial in Hp. right. split; [|lia].
  destruct (decide (length_ok (head_value host_le data))); [done|]. by destruct Hb.
Qed.

Lemma closed_put fd c c' s :
  m_array_epoll_data s !! fd = Some c → m_fd c' = m_fd c → m_unify_tag c' = m_unify_tag c →
  m_socket_identity c' = m_socket_identity c → closed fd (put_client fd c' s) = closed fd s.
Proof.
  intros E Ef Et Ei. unfold closed. cbn [put_client set_clients m_array_epoll_data]. rewrite lookup_insert_eq, E, Ef, Et, Ei.
  assert (set_clients (delete fd) (set_counts (m_clientcount s - 1) (m_client_history_count s) (note (Closed fd) (put_client fd c' s))) =
          set_clients (delete fd) (set_counts (m_clientcount s - 1) (m_client_history_count s) (note (Closed fd) s))) as Hs.
  { unfold set_counts, note, set_clients, put_client, set_clients. cbn. by rewrite delete_insert_eq. }
  exact (f_equal (λ s1, if bool_decide (m_socket_identity c ≠ []) then
    set_identities (delete (m_socket_identity c)) (add_message (MsgInfo (m_fd c) (m_unify_tag c) (m_socket_identity c) CONTENT_PATH_OFFLINE []) s1) else s1) Hs).
Qed.

Lemma recv_more_ok e fd c l s :
  ok s → m_array_epoll_data s !! fd = Some c →
  ¬ (4 ≤ slen (m_data_recv c) ∧ ¬ length_ok (head_value host_le (m_data_recv c))) →
  slen l ≤ wanted (m_data_recv c) →
  returns (recv_more e fd c l s) (λ r, r.1 = 0 ∧ ok r.2 ∨ r.1 = -1 ∧ closed fd r.2 = closed fd s).
Proof.
  intros Hok E Hb Hl. pose proof (ok_partial _ _ _ _ Hok _ _ E) as Hp. pose proof (ok_client _ _ _ _ Hok _ _ E) as Hc.
  set (c' := set_recv (m_data_recv c ++ l) c). assert (client_ok (m_log s) fd c') as Hc' by by destruct Hc.
  unfold recv_more. fold c'. destruct ((_ || _)%bool) eqn:Em.
  { left. split; [done|]. apply (ok_put _ c); [done..|]. apply partial_more; [done..|lia]. }
  assert (slen (m_data_recv c') < 2 ^ 31) as Hlen.
  { unfold c'. cbn [set_recv m_data_recv]. rewrite length_app. unfold partial, length_ok, wanted in *. case_match; lia. }
  destruct (notify_recv_eq e c' (put_client fd c' s) Hlen) as (mc & b & Emc & Hb1 & Hb2 & ->). cbn [mbind outcome_bind].
  assert (returns (Ret (A:=Z * server) (-1, put_client fd c' s)) (λ r, r.1 = 0 ∧ ok r.2 ∨ r.1 = -1 ∧ closed fd r.2 = closed fd s)) as Hclose.
  { right. split; [done|]. by apply (closed_put _ c). }
  destruct (decide (complete host_le (m_data_recv c'))); [|exact Hclose]. destruct b; [|exact Hclose].
  cbn [fst snd]. rewrite bool_decide_eq_false_2 by (intros ?; done). left. split; [done|]. cbn [snd].
  set (path := get_content_path mc). set (body := drop 4 (m_data_recv c')).
  rewrite delivered_put. assert (put_client fd (set_recv [] c') (put_client fd c' s) = put_client fd (set_recv [] c) s) as ->.
  { unfold put_client, set_clients. cbn. by rewrite insert_insert_eq. }
  apply ok_delivered.
  - apply (ok_put _ c); [done..|by destruct Hc|by left].
  - simpl. destruct Hc as [-> ? _ _]. lia.
  - destruct Hc as [<- Hs Ha Hg]. cbn [put_client set_clients m_log m_fd c' set_recv m_unify_tag m_socket_identity]. split; [simpl; lia|].
    destruct (decide (m_socket_identity c = [])) as [Hi|Hi]; [|left; split; [done|]; auto].
    right. split; [done|]. exists mc. split_and!; [done..|]. simpl.
    destruct (Hb2 ltac:(simpl; destruct (m_is_authed c) eqn:Eauth; [by destruct (proj1 Ha)|done]) eq_refl) as [?|[? ?]]; auto.
Qed.

(** *** Commands *)

(** What a command that sends leaves in the log: nothing, or its data sent to
    the connection it is for, and that connection closed when the call fails. *)
Definition sent_to (stu : STU_EPOLL_RTN) (log log' : list action) : Prop :=
  log' = log ∨
  ∃ fd tag rc tl,
    log' = log ++ Sent fd (str_data_send stu) rc :: tl ∧ (tl = [] ∨ tl = [Closed fd]) ∧ owner log fd = Some tag ∧
    if decide (socket_ientity stu = []) then fd = clientfd stu ∧ tag = fd_unify_tag stu
    else Granted fd tag (socket_ientity stu) ∈ log.

Lemma senddata_ok e data fd s :
  ok s → 0 ≤ fd < m_epoll_maxsize →
  returns (senddata_internal host_le MD5 m_verify_key e data fd s) (λ r,
    ok r.2 ∧ ∃ rc tl, m_log r.2 = m_log s ++ Sent fd data rc :: tl ∧ (tl = [] ∨ tl = [Closed fd])).
Proof.
  intros Hok Hfd. unfold senddata_internal. set (rc := env_send e (m_log s) fd data).
  assert (ok (note (Sent fd data rc) s)) as Hok' by by apply ok_note.
  case_bool_decide as E.
  - rewrite close_internal_eq by done. cbn [mbind outcome_bind returns snd]. split; [by apply ok_closed|].
    exists rc, [Closed fd]. rewrite log_closed. simpl. rewrite <-app_assoc. auto.
  - case_bool_decide; (split; [done|]; exists rc, []; by auto).
Qed.

Lemma close_ok e fd s : ok s → 0 ≤ fd < m_epoll_maxsize → returns (close_internal host_le MD5 m_verify_key e fd s) ok.
Proof. intros Hok Hfd. rewrite close_internal_eq by done. by apply ok_closed. Qed.

Lemma boadcast_ok e data s : ok s → returns (boadcast_internal host_le MD5 m_verify_key e data s) ok.
Proof.
  intros Hok. unfold boadcast_internal. apply returns_bind. eapply returns_mono.
  - eapply (for_each_returns (λ st : server * list Z, ok st.1 ∧ Forall (λ fd, 0 ≤ fd < m_epoll_maxsize) st.2)
      (λ iter : list Z * STU_SOCKET_INFO, 0 ≤ info_fd iter.2 < m_epoll_maxsize)); [|by split; [|constructor]|].
    + apply Forall_forall. intros [id info] Hin. apply elem_of_items in Hin. by apply (ok_identity _ _ _ _ Hok) in Hin as [? _].
    + intros [id info] [s1 vec] Hfd [Hs1 Hvec]. unfold boadcast_one. cbn [snd] in *.
      assert (ok (note (Sent (info_fd info) data (env_send e (m_log s1) (info_fd info) data)) s1)) by by apply ok_note.
      case_match; split; try done. simpl. apply Forall_app. split; [done|]. by constructor.
  - intros [s1 vec] [Hs1 Hvec]. simpl in *. eapply for_each_returns; [exact Hvec|done|]. intros fd s2 Hfd Hs2. by apply close_ok.
Qed.

Lemma ok_client_of s fd c : ok s → m_array_epoll_data s !! fd = Some c →
  0 ≤ fd < m_epoll_maxsize ∧ owner (m_log s) fd = Some (m_unify_tag c).
Proof. intros Hok E. rewrite (ok_owner _ _ _ _ Hok), E. split; [|done]. by destruct (ok_client _ _ _ _ Hok _ _ E). Qed.

Lemma pipe_cmd_send_ok e stu info c s :
  ok s → m_array_epoll_data s !! info_fd info = Some c → same_socket c (info_fd info) (info_tag info) = true →
  cmd_type stu = PIPE_CMD_SEND → command_target stu s = Some info →
  returns (pipe_cmd_send host_le MD5 m_verify_key e stu (info_fd info) c s) (λ r, ok r.2 ∧ sent_to stu (m_log s) (m_log r.2)).
Proof.
  intros Hok E Hss Ht Htgt. unfold same_socket in Hss. apply andb_true_iff in Hss as [Hfd%bool_decide_eq_true Htag%bool_decide_eq_true].
  destruct (ok_client_of _ _ _ Hok E) as [Hr Hown].
  assert (ok (put_client (info_fd info) (touch (env_time e) c) s)) as Hok'.
  { apply (ok_put _ c); [done..| |by apply (ok_partial _ _ _ _ Hok _ _ E)]. by destruct (ok_client _ _ _ _ Hok _ _ E). }
  unfold pipe_cmd_send. unfold command_target in Htgt. rewrite Ht, (bool_decide_eq_false_2 (PIPE_CMD_SEND = _)) in Htgt by done.
  cbn [orb] in Htgt. destruct (decide (socket_ientity stu = [])) as [Hid|Hid].
  - rewrite bool_decide_eq_true_2 in Htgt |- * by done. injection Htgt as <-. cbn [info_fd info_tag] in *. run (senddata_ok e (str_data_send stu) (clientfd stu) _ Hok' Hr).
    intros r (Hr' & rc & tl & Hlog & Htl). split; [done|]. right. exists (clientfd stu), (fd_unify_tag stu), rc, tl.
    rewrite decide_True by done. split_and!; [done..|by rewrite Hown, Htag|done|done].
  - rewrite bool_decide_eq_false_2 in Htgt |- * by done.
    change (m_map_socket_ientity (put_client _ _ s)) with (m_map_socket_ientity s). rewrite Htgt.
    run (senddata_ok e (str_data_send stu) (info_fd info) _ Hok' Hr).
    intros r (Hr' & rc & tl & Hlog & Htl). split; [done|]. right. exists (info_fd info), (info_tag info), rc, tl.
    rewrite decide_False by done. split_and!; [done..|by rewrite Hown, Htag|].
    by destruct (ok_identity _ _ _ _ Hok _ _ Htgt).
Qed.

Lemma ok_map_insert id info s :
  ok s → 0 ≤ info_fd info < m_epoll_maxsize → Granted (info_fd info) (info_tag info) id ∈ m_log s →
  ok (set_identities (λ m, map_insert m id info) s).
Proof.
  intros Hok Hr Hg. apply ok_identities; [done|]. intros id' info'. rewrite map_insert_lookup.
  destruct (m_map_socket_ientity s !! id'); [by left|]. case_decide as E; [|done]. intros [= <-]. right. by rewrite E.
Qed.

Lemma pipe_cmd_auth_ok_ok e stu s :
  ok s → 0 ≤ clientfd stu < m_epoll_maxsize → returns (pipe_cmd_auth_ok host_le MD5 m_verify_key e stu s) (λ r, ok r.2).
Proof.
  intros Hok Hr. unfold pipe_cmd_auth_ok. rewrite get_client_eq by done. cbn [mbind outcome_bind].
  destruct (m_array_epoll_data s !! clientfd stu) as [c|] eqn:E; [|done].
  destruct (same_socket c _ _) eqn:Hss; [cbn [negb]|done].
  unfold same_socket in Hss. apply andb_true_iff in Hss as [Hfd%bool_decide_eq_true Htag%bool_decide_eq_true].
  case_bool_decide as Hid; [done|]. set (info := SocketInfo (clientfd stu) (fd_unify_tag stu)).
  set (s1 := note _ _). assert (ok s1) as Hok1.
  { change s1 with (put_client (clientfd stu) (set_identity (socket_ientity stu) c)
      (note (Granted (clientfd stu) (fd_unify_tag stu) (socket_ientity stu)) s)).
    apply (ok_put _ c); [by apply ok_note|done|done| |by apply (ok_partial _ _ _ _ Hok _ _ E)].
    destruct (ok_client _ _ _ _ Hok _ _ E) as [H1 H2 H3 H4]. split; [done..|].
    intros _. simpl. rewrite Htag. apply elem_of_app. right. by left. }
  assert (Granted (clientfd stu) (fd_unify_tag stu) (socket_ientity stu) ∈ m_log s1) as Hg
    by (simpl; apply elem_of_app; right; by left).
  destruct (m_map_socket_ientity s1 !! socket_ientity stu) as [iter|] eqn:Ei; [|by apply ok_map_insert].
  case_bool_decide; [done|]. destruct (ok_identity _ _ _ _ Hok1 _ _ Ei) as [Hir _].
  rewrite close_internal_eq by done. cbn [mbind outcome_bind returns snd]. apply ok_map_insert; [by apply ok_closed|done|].
  rewrite log_closed. apply elem_of_app. by left.
Qed.

Lemma pipe_cmd_ok e stu s :
  ok s → 0 ≤ clientfd stu →
  returns (pipe_cmd host_le MD5 m_verify_key e stu s) (λ r,
    ok r.2 ∧ (cmd_type stu = PIPE_CMD_SEND → sent_to stu (m_log s) (m_log r.2))).
Proof.
  intros Hok Hfd. unfold pipe_cmd. destruct (command_target stu s) as [info|] eqn:Htgt; [|by split; [|left]].
  assert (0 ≤ info_fd info) as H0.
  { unfold command_target in Htgt. case_match; [by injection Htgt as <-|].
    destruct (ok_identity _ _ _ _ Hok _ _ Htgt). lia. }
  case_bool_decide as Eb.
  { run (boadcast_ok e (str_data_send stu) _ Hok). intros s' Hs'. split; [done|]. by rewrite Eb. }
  destruct (Z.leb_spec m_epoll_maxsize (info_fd info)); [by split; [|left]|].
  rewrite get_client_eq by lia. cbn [mbind outcome_bind].
  destruct (m_array_epoll_data s !! info_fd info) as [c|] eqn:E; [|by split; [|left]].
  destruct (same_socket c (info_fd info) (info_tag info)) eqn:Hss; [cbn [negb]|by split; [|left]].
  case_bool_decide as Es; [eapply returns_mono; [by apply pipe_cmd_send_ok|]; intros r [? ?]; done|].
  case_bool_decide; [run (close_ok e _ _ Hok); [lia|]; intros s' Hs'; by split|].
  case_bool_decide as Ea; [|by split].
  eapply returns_mono; [apply pipe_cmd_auth_ok_ok; [done|]|intros r Hr; by split].
  unfold command_target in Htgt. rewrite Ea, bool_decide_eq_true_2 in Htgt by done. injection Htgt as <-. simpl in *. lia.
Qed.

Lemma dealwith_pipe_ok e rc s :
  ok s → returns (dealwith_pipe_cmd host_le MD5 m_verify_key e rc s) (λ r,
    ok r.2 ∧ ∀ stu l, rc = 1 → m_list (m_queue_rtn s) = stu :: l → cmd_type stu = PIPE_CMD_SEND →
      sent_to stu (m_log s) (m_log r.2)).
Proof.
  intros Hok. unfold dealwith_pipe_cmd. case_bool_decide as Erc; [by split; [|intros ???; lia]|].
  unfold dequeue_nodelay. change (m_queue_rtn (set_pipe (m_pipe s - 1) s)) with (m_queue_rtn s).
  destruct (m_list (m_queue_rtn s)) as [|stu l] eqn:El.
  { split; [|by intros ?? _ ?]. destruct Hok as [Ho Hc Hp Hi Hq Hm Ht Hacc]. by split. }
  eapply returns_mono; [apply pipe_cmd_ok|].
  - destruct Hok as [Ho Hc Hp Hi Hq Hm Ht Hacc]. split; try done. intros c. simpl. intros Hin. apply Hq. rewrite El. by right.
  - apply (ok_command _ _ _ _ Hok). rewrite El. by left.
  - intros r [Hr Hs]. split; [done|]. intros ? ? _ [= <- <-] Ht. exact (Hs Ht).
Qed.

(** *** New connections *)
Lemma ok_accepted fd c s :
  ok s → 0 ≤ fd < m_epoll_maxsize → m_array_epoll_data s !! fd = None → m_fd c = fd → m_data_recv c = [] →
  m_is_authed c = false → m_socket_identity c = [] → m_unify_tag c = (get_unify_tag fd s).1 →
  ok (note (Accepted fd (m_unify_tag c)) (put_client fd c (get_unify_tag fd s).2)).
Proof.
  intros [Ho Hc Hp Hi Hq Hm Ht Hacc] Hfd E Ef Ed Ea Eid Et.
  split; cbn [note put_client set_clients get_unify_tag snd set_unify_id m_log m_array_epoll_data m_map_socket_ientity m_queue_rtn m_queue_adapter_cmd m_unify_id].
  - intros fd'. rewrite owner_app. cbn [owner_step]. case_bool_decide as Efd; [by rewrite <-Efd, lookup_insert_eq|].
    by rewrite lookup_insert_ne.
  - intros fd' c1 [[<- <-]|[? ?]]%lookup_insert_Some; [|by apply client_ok_mono, Hc]. split; [done..| |done].
    by rewrite Ea, Eid.
  - intros fd' c1 [[<- <-]|[? ?]]%lookup_insert_Some; [|eauto]. left. by rewrite Ed.
  - intros id info Eid'. destruct (Hi _ _ Eid'). split; [done|]. apply elem_of_app. by left.
  - done.
  - intros m Hin. by apply admitted_mono, Hm.
  - apply tags_ok_accept; [|done]. rewrite Et. apply tag_low.
  - intros fd' tag [?|[= -> _]%list_elem_of_singleton]%elem_of_app; [eauto|done].
Qed.

(** A descriptor that is not open has no client. *)
Lemma free_slot s fd : ok s → owner (m_log s) fd = None → m_array_epoll_data s !! fd = None.
Proof. intros Hok Eo. rewrite (ok_owner _ _ _ _ Hok) in Eo. by apply fmap_None in Eo. Qed.

Lemma new_connection_ok e a s :
  ok s → kernel_ok (NewConnection a) s →
  mostly (beyond_table (NewConnection a)) (dealwith_new_connection e a s) (λ r, ok r.2).
Proof.
  intros Hok Hk. unfold dealwith_new_connection. case_bool_decide as E1; [done|].
  destruct Hk as [?|[Hr E%(free_slot _ _ Hok)]]; [done|].
  repeat (case_bool_decide; [done|]).
  destruct (get_unify_tag (new_client_fd a) s) as [tag s1] eqn:Et.
  destruct (decide (m_epoll_maxsize ≤ new_client_fd a)) as [Hover|Hover].
  { unfold get_client. by rewrite (proj2 (Z.ltb_ge _ _) Hover), andb_false_r. }
  rewrite get_client_eq by lia. cbn [mbind outcome_bind mostly snd].
  set (c := SocketClient _ _ _ _ _ _ _).
  assert (ok (note (Accepted (new_client_fd a) tag) (put_client (new_client_fd a) c s1))) as Hok'.
  { pose proof (ok_accepted (new_client_fd a) c s Hok ltac:(lia) E) as Hkeep. rewrite Et in Hkeep. by apply Hkeep. }
  by destruct Hok'.
Qed.

(** *** Every event *)
Lemma handle_ok ev s :
  ok s → kernel_ok ev.2 s → mostly (beyond_table ev.2) (handle host_le MD5 m_verify_key ev s) ok.
Proof.
  intros Hok Hk. destruct ev as [e [a|rc|fd recv]]; unfold handle; cbn [fst snd] in *.
  - by eapply mostly_bind; [by apply new_connection_ok|].
  - apply mostly_returns. run (dealwith_pipe_ok e rc _ Hok). by intros r [? _].
  - apply mostly_returns. destruct Hk as [[tag Hfd%(ok_registered _ _ _ _ Hok)] Hrecv].
    cut (returns (dealwith_recv host_le MD5 m_verify_key e recv fd s)
           (λ r, r.1 = 0 ∧ ok r.2 ∨ r.1 = -1 ∧ closed fd r.2 = closed fd s)).
    { intros Hd. apply returns_bind. eapply returns_mono; [exact Hd|]. intros r [[-> Hr]|[-> Hr]]; [done|].
      rewrite bool_decide_eq_true_2, close_internal_eq by done. simpl. rewrite Hr. by apply ok_closed. }
    destruct (m_array_epoll_data s !! fd) as [c|] eqn:E.
    2:{ unfold dealwith_recv. rewrite get_client_eq by done. cbn [mbind outcome_bind]. rewrite E. by right. }
    rewrite (dealwith_recv_eq _ _ _ _ c) by (done || by apply (ok_partial _ _ _ _ Hok _ _ E)).
    case_bool_decide as Hb; [by right|]. destruct (recv (wanted (m_data_recv c))) as [l| |] eqn:Er; [|by left|by right].
    case_bool_decide; [by right|]. apply recv_more_ok; [done..|]. apply Hrecv; [|done].
    apply Z.lt_le_incl, wanted_nonneg; [by apply (ok_partial _ _ _ _ Hok _ _ E)|done].
Qed.

(** *** Time-outs, and every step *)
Context (interval limit : Z).

Lemma timeout_one_ok e now fd s :
  ok s → 0 ≤ fd < m_epoll_maxsize → returns (timeout_one host_le MD5 m_verify_key limit e now fd s) ok.
Proof.
  intros Hok Hfd. unfold timeout_one. rewrite get_client_eq by done. cbn [mbind outcome_bind].
  destruct (m_array_epoll_data s !! fd) as [c|] eqn:E; [|done]. repeat case_match; try done.
  apply close_ok; [done|]. by destruct (ok_client _ _ _ _ Hok _ _ E) as [-> _ _ _].
Qed.

Lemma check_timeout_ok e s : ok s → returns (check_timeout_statements host_le MD5 m_verify_key interval limit e s) ok.
Proof.
  intros Hok. unfold check_timeout_statements. repeat case_match; try done.
  apply (for_range_returns (λ _, ok)); [by unfold m_epoll_maxsize| |].
  - destruct Hok as [Ho Hc Hp Hi Hq Hm Ht Hacc]. by split.
  - intros i s' Hi Hs'. by apply timeout_one_ok.
Qed.

Lemma server_step_ok s s' : server_step host_le MD5 m_verify_key interval limit s s' → ok s → ok s'.
Proof.
  intros Hs Hok. destruct Hs as [ev s s' Hk E|e s s' E|c s Hc|e s|m q s E].
  - pose proof (handle_ok ev s Hok Hk) as Hkeep. by rewrite E in Hkeep.
  - pose proof (check_timeout_ok e s Hok) as Hkeep. by rewrite E in Hkeep.
  - by apply ok_command_added.
  - by apply ok_write.
  - unfold dequeue_nodelay in E. destruct (m_list (m_queue_adapter_cmd s)) as [|m' l] eqn:El; [done|]. injection E as <- <-.
    destruct Hok as [Ho Hc Hp Hi Hq Hm Ht Hacc]. split; try done. simpl. intros m Hin. apply Hm. rewrite El. by right.
Qed.

Lemma new_server_ok now : ok (new_server now).
Proof.
  split; cbn [new_server m_log m_array_epoll_data m_map_socket_ientity m_queue_rtn m_queue_adapter_cmd]; try (intros ??; by rewrite lookup_empty).
  all: try by intros ? ?%not_elem_of_nil.
  - done.
  - intros _. split_and!; [done|constructor|constructor].
  - by intros ? ? ?%not_elem_of_nil.
Qed.

Lemma reachable_ok s : reachable host_le MD5 m_verify_key interval limit s → ok s.
Proof.
  intros [now Hs]. eapply (rtc_ind_r ok); [apply new_server_ok| |done]. intros y z _ Hstep Hy. by eapply server_step_ok.
Qed.
End server_lemmas.

(** ** Properties *)

(** C3 Under what the kernel promises, in a state that the reactor, the workers
    and the dispatcher can reach, every event is handled without anything
    undefined, within the table, the 4096-byte buffer and the strings, except
    for a new connection whose descriptor is 200000 or more, for which the
    table has no slot ([beyond_table]; the state above counts what the server
    has done up to then).  The statements of the time-out check are executed
    in the same way, but the function then ends without the result it is
    declared with, so that its every call is undefined ([check_timeout]).  A
    registered descriptor is within the table; a client stands in the slot of
    its own descriptor, which is the one its connection holds, has been
    authenticated exactly when it has an identity, and then was given that
    identity. *)
Theorem server_safe `{Boost} host_le MD5 m_verify_key interval limit s :
  (∀ l, length (MD5 l) = 16%nat) → reachable host_le MD5 m_verify_key interval limit s →
  (∀ ev, kernel_ok ev.2 s → mostly (beyond_table ev.2) (handle host_le MD5 m_verify_key ev s) (λ _, True)) ∧
  (∀ e, returns (check_timeout_statements host_le MD5 m_verify_key interval limit e s) (λ _, True) ∧
     check_timeout host_le MD5 m_verify_key interval limit e s = Stuck) ∧
  (∀ fd tag, Accepted fd tag ∈ m_log s → 0 ≤ fd < m_epoll_maxsize) ∧
  (∀ fd, owner (m_log s) fd = m_unify_tag <$> m_array_epoll_data s !! fd) ∧
  (∀ fd c, m_array_epoll_data s !! fd = Some c →
     m_fd c = fd ∧ 0 ≤ fd < m_epoll_maxsize ∧ (m_is_authed c = true ↔ m_socket_identity c ≠ []) ∧
     (m_socket_identity c ≠ [] → Granted fd (m_unify_tag c) (m_socket_identity c) ∈ m_log s)).
Proof.
  intros HM Hs%reachable_ok; [|done]. split_and!.
  - intros ev Hk. eapply mostly_mono; [by apply handle_ok|done|done].
  - intros e. pose proof (check_timeout_ok host_le MD5 m_verify_key interval limit e s Hs) as Ht.
    split; [by eapply returns_mono|]. apply returns_eq in Ht as (s' & Et & _). unfold check_timeout. by rewrite Et.
  - apply Hs.
  - apply Hs.
  - intros fd c E. by destruct (ok_client _ _ _ _ Hs _ _ E).
Qed.

(** A new connection with a descriptor behind the table: its slot is written. *)
Lemma connection_beyond_table e a s :
  m_epoll_maxsize ≤ new_client_fd a → noblock_result a ≠ -1 → optresult a ≠ -1 → add_result a ≠ -1 →
  dealwith_new_connection e a s = Stuck.
Proof.
  intros Hfd H1 H2 H3. unfold dealwith_new_connection. unfold m_epoll_maxsize in Hfd.
  rewrite !bool_decide_eq_false_2 by (done || lia).
  destruct (get_unify_tag _ s) as [tag s1]. unfold get_client. by rewrite (proj2 (Z.ltb_ge _ m_epoll_maxsize)), andb_false_r.
Qed.

(** C12 What reaches the dispatcher: a message bears the identity its connection
    had been given, or it comes from a connection without an identity, and
    then it asks for a random key, or for authentication with the digest of
    its names and the secret key as signature. *)
Theorem message_admission `{Boost} host_le MD5 m_verify_key interval limit s m :
  (∀ l, length (MD5 l) = 16%nat) → reachable host_le MD5 m_verify_key interval limit s →
  m ∈ m_list (m_queue_adapter_cmd s) → admitted MD5 m_verify_key (m_log s) m.
Proof. intros HM Hs%reachable_ok; [|done]. apply Hs. Qed.

(** C34 A command to send data, taken from the queue: the data go to the very
    connection the command names, or, when it names an identity, to a
    connection that was given the identity, in one call; or nothing is sent.
    As long as there have been fewer than 2^32 connections no tag has been
    given twice, so a connection that has taken over the descriptor gets
    nothing. *)
Theorem command_delivery `{Boost} host_le MD5 m_verify_key interval limit s e stu l :
  (∀ l, length (MD5 l) = 16%nat) → reachable host_le MD5 m_verify_key interval limit s →
  m_list (m_queue_rtn s) = stu :: l → cmd_type stu = PIPE_CMD_SEND →
  returns (handle host_le MD5 m_verify_key (e, PipeReadable 1) s) (λ s', sent_to stu (m_log s) (m_log s')) ∧
  (slen (tags (m_log s)) < 2 ^ 32 → NoDup (tags (m_log s))).
Proof.
  intros HM Hs%reachable_ok El Ht; [|done]. split; [|intros Hn; by destruct (ok_tags _ _ _ _ Hs Hn) as (_ & ? & _)].
  unfold handle. cbn [fst snd]. run (dealwith_pipe_ok host_le MD5 m_verify_key e 1 s Hs). intros r [_ Hr]. exact (Hr _ _ eq_refl El Ht).
Qed.

(** *** Witnesses and traces *)
Definition demo_env : environment := Env 10 (λ _ _ data, slen data) (λ _ _, 1).
Definition demo_md5 (l : list Z) : list Z := repeat 0 16.
Definition demo_new (fd : Z) : environment * event := (demo_env, NewConnection (AcceptResult fd 0 0 0 [])).
Definition demo_tag (fd n : Z) : Z := fd * 2 ^ 32 + n.

(** A trace of events and of commands with their bytes in the pipe. *)
Inductive trace_item : Type :=
  | Happens (ev : environment * event)
  | Submits (c : STU_EPOLL_RTN).

Definition run_item (x : trace_item) (s : server) : outcome server :=
  match x with
  | Happens ev => handle (H := boost_impl) true demo_md5 [] ev s
  | Submits c =>
      handle (H := boost_impl) true demo_md5 [] (demo_env, PipeReadable 1) (write_byte_to_pipe demo_env (add_command c s)).2
  end.
Definition run_trace (l : list trace_item) : outcome server := for_each run_item l (new_server 10).

(** Traces that keep to what the kernel promises reach states. *)
Definition item_ok (x : trace_item) (s : server) : Prop :=
  match x with Happens ev => kernel_ok ev.2 s | Submits c => 0 ≤ clientfd c end.

Abbreviation demo_reachable := (reachable (H := boost_impl) true demo_md5 [] 100 100).

Lemma run_item_reachable x s s' : run_item x s = Ret s' → item_ok x s → demo_reachable s → demo_reachable s'.
Proof.
  intros Hr Hx [now Hs]. exists now. destruct x as [ev|c]; simpl in *.
  - eapply rtc_r; [exact Hs|]. by eapply step_event.
  - eapply rtc_r; [eapply rtc_r; [eapply rtc_r; [exact Hs|]|]|].
    + by apply (step_command _ _ _ _ _ c).
    + apply (step_write _ _ _ _ _ demo_env).
    + by eapply (step_event _ _ _ _ _ (demo_env, PipeReadable 1)).
Qed.

Definition demo_recv (l : list Z) : environment * event :=
  (demo_env, SocketReadable 7 (λ n, Received (take (Z.to_nat n) l))).
Definition demo_getkey : list trace_item :=
  [Happens (demo_new 7); Happens (demo_recv [0; 0; 0; 38]); Happens (demo_recv (str "path=/cli/notify/adapter/randomkey/get"))].
Definition demo_state (n : nat) : server :=
  match run_trace (take n demo_getkey) with Ret s => s | _ => new_server 10 end.
Definition demo_connected : server := demo_state 3.

Lemma demo_recv_ok l s : Accepted 7 (demo_tag 7 1) ∈ m_log s → item_ok (Happens (demo_recv l)) s.
Proof. intros Hin. split; [by eexists|]. intros n l' Hn [= <-]. rewrite length_take. lia. Qed.

Lemma demo_connected_reachable : demo_reachable demo_connected.
Proof.
  apply (run_item_reachable (Happens (demo_recv (str "path=/cli/notify/adapter/randomkey/get"))) (demo_state 2) (demo_state 3)); [by vm_compute|apply demo_recv_ok; by left|].
  apply (run_item_reachable (Happens (demo_recv [0; 0; 0; 38])) (demo_state 1) (demo_state 2)); [by vm_compute|apply demo_recv_ok; by left|].
  apply (run_item_reachable (Happens (demo_new 7)) (demo_state 0) (demo_state 1)); [by vm_compute|by right|].
  by exists 10.
Qed.

Lemma server_safe_witness :
  let ev := (demo_env, NewConnection (AcceptResult 8 0 0 0 [])) in
  mostly (beyond_table ev.2) (handle (H := boost_impl) true demo_md5 [] ev demo_connected) (λ _, True) ∧
  ¬ beyond_table ev.2.
Proof.
  intros ev. split; [|by intros []].
  refine (proj1 (server_safe true demo_md5 [] 100 100 demo_connected _ demo_connected_reachable) ev _); [done|].
  right. by vm_compute.
Defined.

Lemma message_admission_witness :
  admitted (H := boost_impl) demo_md5 [] (m_log demo_connected)
    (MsgInfo 7 (demo_tag 7 1) [] CONTENT_PATH_GETKEY (str "path=/cli/notify/adapter/randomkey/get")).
Proof.
  refine (message_admission true demo_md5 [] 100 100 demo_connected _ _ demo_connected_reachable _); [done|].
  assert (m_list (m_queue_adapter_cmd demo_connected) =
    [MsgInfo 7 (demo_tag 7 1) [] CONTENT_PATH_GETKEY (str "path=/cli/notify/adapter/randomkey/get")]) as -> by by vm_compute.
  by left.
Defined.

Lemma command_delivery_witness :
  let s := add_command (EpollRtn 7 (demo_tag 7 1) [] [1; 2] PIPE_CMD_SEND) demo_connected in
  returns (handle (H := boost_impl) true demo_md5 [] (demo_env, PipeReadable 1) s)
    (λ s', sent_to (EpollRtn 7 (demo_tag 7 1) [] [1; 2] PIPE_CMD_SEND) (m_log s) (m_log s')).
Proof.
  refine (proj1 (command_delivery (H := boost_impl) true demo_md5 [] 100 100 _ demo_env _ [] _ _ _ _)); [done| |done|done].
  destruct demo_connected_reachable as [now Hr]. exists now. eapply rtc_r; [exact Hr|]. by apply step_command.
Defined.

(** An identity outlives its connection when the connection is given a second
    one: only the second is erased when it ends.  The descriptor is then the
    next client's; a broadcast reaches that client although it has not been
    authenticated, a client that is given the first identity closes it, and
    gets nothing that is sent to its identity.  An authenticated client asks
    for another authentication without any signature.  And an event for a
    descriptor closed earlier in the same turn makes the number of connections
    negative. *)
Lemma stale_identity :
  let two_identities := [Happens (demo_new 7);
    Submits (EpollRtn 7 (demo_tag 7 1) [97] [] PIPE_CMD_AUTH_OK);
    Submits (EpollRtn 7 (demo_tag 7 1) [98] [] PIPE_CMD_AUTH_OK)] in
  let reused := two_identities ++ [Happens (demo_env, SocketReadable 7 (λ _, Received [])); Happens (demo_new 7)] in
  let taken_over := reused ++ [Happens (demo_new 8); Submits (EpollRtn 8 (demo_tag 8 3) [97] [] PIPE_CMD_AUTH_OK)] in
  returns (run_trace (reused ++ [Submits (EpollRtn 0 0 [] [1; 2] PIPE_CMD_BOADCAST)])) (λ s,
    last (m_log s) = Some (Sent 7 [1; 2] 2) ∧ owner (m_log s) 7 = Some (demo_tag 7 2) ∧
    m_is_authed <$> m_array_epoll_data s !! 7 = Some false) ∧
  returns (run_trace taken_over) (λ s,
    last (m_log s) = Some (Closed 7) ∧ m_socket_identity <$> m_array_epoll_data s !! 8 = Some [97] ∧
    m_map_socket_ientity s !! [97] = Some (SocketInfo 7 (demo_tag 7 1))) ∧
  returns (run_trace (taken_over ++ [Submits (EpollRtn 0 0 [97] [1; 2] PIPE_CMD_SEND)])) (λ s,
    last (m_log s) = Some (Closed 7)) ∧
  returns (run_trace (two_identities ++
      [Happens (demo_env, SocketReadable 7 (λ _, Received [0; 0; 0; 34]));
       Happens (demo_env, SocketReadable 7 (λ _, Received (str "path=/cli/notify/adapter/auth/post")))])) (λ s,
    m_list (m_queue_adapter_cmd s) =
      [MsgInfo 7 (demo_tag 7 1) [98] CONTENT_PATH_AUTH (str "path=/cli/notify/adapter/auth/post")]) ∧
  returns (run_trace [Happens (demo_new 7); Submits (EpollRtn 7 (demo_tag 7 1) [] [] PIPE_CMD_CLOSE);
      Happens (demo_env, SocketReadable 7 (λ _, Received [1]))]) (λ s,
    get_current_conn s = -1 ∧ m_array_epoll_data s = ∅).
Proof. vm_compute. repeat split. Qed.
