(* ===== verification/TcpRecv.v ===== *)
(** * Reassembly of frames by the connection server
    ([dealwith_recv] and [data_notify_callback] of [TcpServer.v])

    A peer sends frames one after the other; the kernel hands their bytes out in
    pieces of any size, between whatever else the server does.  The handler must
    pass on the contents, whole and in order. *)

From Stdlib Require Import String.
From S2P Require Import Prelude Text Coding Utility MyCommon BlockQueue Frame Socket TcpServer.

(** ** Definitions *)
Section stream.
Context `{Boost} (host_le : bool) (MD5 : list Z → list Z) (m_verify_key : list Z).

(** A frame as [encode_buffer] makes it. *)
Definition frame (version : Z) (body : list Z) : list Z := head_bytes host_le version (slen body) ++ body.

(** The bytes the kernel still holds for the socket, the messages it has
    brought to the dispatcher, and the server. *)
Record stream : Type := Stream { unread : list Z; passed : list STU_MSG_INFO; the_server : server }.

(** The messages of [s'] that come behind those of [s]. *)
Definition new_messages (s s' : server) : list STU_MSG_INFO :=
  drop (length (m_list (m_queue_adapter_cmd s))) (m_list (m_queue_adapter_cmd s')).

(** Reading a piece of at most the size asked for; an event without data; a
    step of anything else, which leaves the received bytes and the permission
    of this client alone. *)
Inductive stream_step (fd : Z) : stream → stream → Prop :=
  | stream_read e l u ms s s' c :
      m_array_epoll_data s !! fd = Some c → l ≠ [] → slen l ≤ wanted host_le (m_data_recv c) →
      handle host_le MD5 m_verify_key (e, SocketReadable fd (λ _, Received l)) s = Ret s' →
      stream_step fd (Stream (l ++ u) ms s) (Stream u (ms ++ new_messages s s') s')
  | stream_again e u ms s s' :
      handle host_le MD5 m_verify_key (e, SocketReadable fd (λ _, TryAgain)) s = Ret s' →
      stream_step fd (Stream u ms s) (Stream u ms s')
  | stream_other u ms s s' c c' :
      m_array_epoll_data s !! fd = Some c → m_array_epoll_data s' !! fd = Some c' →
      m_fd c' = m_fd c → m_unify_tag c' = m_unify_tag c → m_data_recv c' = m_data_recv c →
      m_is_authed c' = m_is_authed c →
      stream_step fd (Stream u ms s) (Stream u ms s').

(** ** Lemmas *)

(** Part of the frames [bodies]: less than the first of them, with the rest unread. *)
Definition within (version : Z) (data u : list Z) (bodies : list (list Z)) : Prop :=
  data ++ u = concat (map (frame version) bodies) ∧
  match bodies with [] => data = [] | b :: _ => slen data < 4 + slen b end.

Definition body_ok (b : list Z) : Prop := 0 < slen b ≤ 4096.

Lemma length_frame v b : slen (frame v b) = 4 + slen b.
Proof. unfold frame. rewrite length_app, length_head_bytes. lia. Qed.

Lemma within_head v data u b bodies :
  within v data u (b :: bodies) → body_ok b → 4 ≤ slen data → head_value host_le data = slen b.
Proof.
  intros [E Hl] Hb Hd. rewrite <-(head_value_app host_le data u), E by done. simpl. unfold frame.
  unfold body_ok in Hb. rewrite <-app_assoc. apply head_value_head. lia.
Qed.

Lemma within_partial v data u bodies : within v data u bodies → Forall body_ok bodies → partial host_le data.
Proof.
  intros Hw Hb. destruct bodies as [|b bodies]; [left; destruct Hw as [_ ->]; simpl; lia|].
  inversion_clear Hb as [|?? Hb1 Hb2]. destruct (decide (slen data ≤ 4)); [by left|]. right.
  rewrite (within_head v data u b bodies) by (done || lia). destruct Hw as [_ Hl].
  unfold body_ok, length_ok in *. lia.
Qed.

Lemma within_wanted v data u b bodies :
  within v data u (b :: bodies) → body_ok b → 
  wanted host_le data = if slen data <? 4 then 4 - slen data else 4 + slen b - slen data.
Proof.
  intros Hw Hb. unfold wanted. destruct (Z.ltb_spec (slen data) 4); [done|].
  rewrite (within_head v data u b bodies) by (done || lia). unfold body_ok in Hb. destruct Hw. lia.
Qed.

(** The head of a frame, once it is there, announces an acceptable length. *)
Lemma within_accepts v data u bodies :
  within v data u bodies → Forall body_ok bodies → ¬ (4 ≤ slen data ∧ ¬ length_ok (head_value host_le data)).
Proof.
  intros Hw Hb [H4 Hn]. destruct bodies as [|b bodies]; [destruct Hw as [_ ->]; simpl in H4; lia|].
  inversion_clear Hb as [|?? Hb1 Hb2]. apply Hn. rewrite (within_head v data u b bodies) by done.
  unfold body_ok, length_ok in *. lia.
Qed.

(** A piece that does not complete the frame, and one that does. *)
Lemma within_more v data l u b bodies :
  within v data (l ++ u) (b :: bodies) → slen data + slen l < 4 + slen b → within v (data ++ l) u (b :: bodies).
Proof. intros [E Hl] Hm. split; [by rewrite <-app_assoc|]. rewrite length_app. lia. Qed.

Lemma within_done v data l u b bodies :
  within v data (l ++ u) (b :: bodies) → slen data + slen l = 4 + slen b → Forall body_ok bodies →
  data ++ l = frame v b ∧ within v [] u bodies.
Proof.
  intros [E Hl] Hm Hb. rewrite app_assoc in E. simpl in E.
  assert (length (data ++ l) = length (frame v b)) as El by (pose proof (length_frame v b); rewrite length_app; lia).
  apply app_inj_1 in E as [E1 E2]; [|done]. split; [done|]. split; [done|].
  destruct bodies; [done|]. simpl. lia.
Qed.

Context (MD5_length : ∀ l, length (MD5 l) = 16%nat).

Lemma read_step e fd c l s :
  0 ≤ fd < m_epoll_maxsize → m_array_epoll_data s !! fd = Some c → partial host_le (m_data_recv c) →
  ¬ (4 ≤ slen (m_data_recv c) ∧ ¬ length_ok (head_value host_le (m_data_recv c))) → l ≠ [] →
  handle host_le MD5 m_verify_key (e, SocketReadable fd (λ _, Received l)) s =
  let! r := recv_more host_le MD5 m_verify_key e fd c l s in
  if bool_decide (r.1 = -1) then close_internal host_le MD5 m_verify_key e fd r.2 else Ret r.2.
Proof.
  intros Hfd E Hp Hb Hl. unfold handle. cbn [fst snd]. rewrite (dealwith_recv_eq _ _ _ _ _ _ _ c) by done.
  by rewrite !bool_decide_eq_false_2 by done.
Qed.

(** A piece that leaves the frame incomplete is kept. *)
Lemma read_more e fd c l s v u b bodies :
  0 ≤ fd < m_epoll_maxsize → m_array_epoll_data s !! fd = Some c → Forall body_ok (b :: bodies) →
  within v (m_data_recv c) (l ++ u) (b :: bodies) → l ≠ [] → slen l ≤ wanted host_le (m_data_recv c) →
  slen (m_data_recv c) + slen l < 4 + slen b →
  handle host_le MD5 m_verify_key (e, SocketReadable fd (λ _, Received l)) s =
  Ret (put_client fd (set_recv (m_data_recv c ++ l) c) s).
Proof.
  intros Hfd E Hb Hw Hl Hn Hm. inversion Hb as [|?? Hb1 _]; subst.
  rewrite (read_step e fd c) by (done || by eapply within_partial || by eapply within_accepts).
  unfold recv_more. rewrite (within_wanted v _ _ _ _ Hw Hb1) in *.
  destruct (Z.ltb_spec (slen (m_data_recv c)) 4); cbn [orb]; [done|]. by rewrite (proj2 (Z.ltb_lt _ _)) by lia.
Qed.

(** The piece that completes the frame of an authenticated client passes on the content. *)
Lemma read_done e fd c l s v u b bodies :
  0 ≤ fd < m_epoll_maxsize → m_array_epoll_data s !! fd = Some c → m_is_authed c = true → Forall body_ok (b :: bodies) →
  within v (m_data_recv c) (l ++ u) (b :: bodies) → l ≠ [] → slen l ≤ wanted host_le (m_data_recv c) →
  slen (m_data_recv c) + slen l = 4 + slen b →
  ∃ path, handle host_le MD5 m_verify_key (e, SocketReadable fd (λ _, Received l)) s =
  Ret (put_client fd (set_recv [] c) (delivered host_le e (set_recv (m_data_recv c ++ l) c) path b
         (put_client fd (set_recv (m_data_recv c ++ l) c) s))).
Proof.
  intros Hfd E Ha Hb Hw Hl Hn Hm. inversion Hb as [|?? Hb1 Hb2]; subst.
  rewrite (read_step e fd c) by (done || by eapply within_partial || by eapply within_accepts).
  unfold recv_more. rewrite (within_wanted v _ _ _ _ Hw Hb1) in *. unfold body_ok in Hb1.
  destruct (Z.ltb_spec (slen (m_data_recv c)) 4); [lia|]. cbn [orb]. rewrite (proj2 (Z.ltb_ge _ _)) by lia.
  destruct (within_done _ _ _ _ _ _ Hw Hm Hb2) as [Ef _]. set (c' := set_recv (m_data_recv c ++ l) c).
  assert (m_data_recv c' = frame v b) as Ec' by done.
  assert (slen (m_data_recv c') < 2 ^ 31) as Hlen by (rewrite Ec', length_frame; lia).
  assert (head_value host_le (frame v b) = slen b) as Hh by (apply head_value_head; lia).
  destruct (notify_recv_eq host_le MD5 m_verify_key MD5_length e c' (put_client fd c' s) Hlen) as (mc & bb & _ & Hauth & _ & ->).
  rewrite (Hauth Ha), Ec', decide_True by (unfold complete; rewrite Hh, length_frame; unfold length_ok; lia).
  cbn [mbind outcome_bind fst snd]. rewrite (bool_decide_eq_false_2 (TCP_CHECK_OK ≠ _)) by (intros ?; done).
  cbn [mbind outcome_bind fst snd]. rewrite bool_decide_eq_false_2 by done. exists (get_content_path mc).
  unfold frame. by rewrite drop_app_length' by by rewrite length_head_bytes.
Qed.

Lemma again_eq e fd c s v u bodies :
  0 ≤ fd < m_epoll_maxsize → m_array_epoll_data s !! fd = Some c → Forall body_ok bodies →
  within v (m_data_recv c) u bodies → handle host_le MD5 m_verify_key (e, SocketReadable fd (λ _, TryAgain)) s = Ret s.
Proof.
  intros Hfd E Hb Hw. unfold handle. cbn [fst snd].
  rewrite (dealwith_recv_eq _ _ _ _ _ _ _ c) by (done || by eapply within_partial).
  by rewrite bool_decide_eq_false_2 by by eapply within_accepts.
Qed.

(** The state of the transfer of [bodies] over the connection [tag]. *)
Definition transfer (fd tag v : Z) (bodies : list (list Z)) (st : stream) : Prop :=
  ∃ k c, m_array_epoll_data (the_server st) !! fd = Some c ∧ m_fd c = fd ∧ m_unify_tag c = tag ∧ m_is_authed c = true ∧
    content <$> passed st = take k bodies ∧ Forall (λ m, msg_fd m = fd ∧ msg_tag m = tag) (passed st) ∧
    within v (m_data_recv c) (unread st) (drop k bodies).

Lemma new_messages_delivered fd c2 e c path b c1 s :
  new_messages s (put_client fd c2 (delivered host_le e c path b (put_client fd c1 s))) =
  [MsgInfo (m_fd c) (m_unify_tag c) (m_socket_identity c) path b].
Proof.
  unfold new_messages. change (m_queue_adapter_cmd (put_client fd c2 ?x)) with (m_queue_adapter_cmd x).
  rewrite delivered_messages. apply drop_app_length.
Qed.

Lemma stream_step_transfer fd tag v bodies st st' :
  0 ≤ fd < m_epoll_maxsize → Forall body_ok bodies → stream_step fd st st' →
  transfer fd tag v bodies st → transfer fd tag v bodies st'.
Proof.
  intros Hfd Hb Hs (k & c & E & Efd & Et & Ea & Hms & Hf & Hw). assert (Forall body_ok (drop k bodies)) as Hbk by by apply Forall_drop.
  destruct Hs as [e l u ms s s' c1 E1 Hl Hn Hh|e u ms s s' Hh|u ms s s' c1 c2 E1 E2 H1 H2 H3 H4]; cbn [the_server passed unread] in *.
  - assert (c1 = c) as -> by congruence.
    destruct (drop k bodies) as [|b rest] eqn:Ek.
    { destruct Hw as [Ew Hd]. rewrite Hd in Ew. simpl in Ew. by apply app_eq_nil in Ew as [? _]. }
    inversion Hbk as [|?? Hb1 Hb2]; subst.
    pose proof (within_wanted v _ _ _ _ Hw Hb1) as Hwant. rewrite Hwant in Hn.
    destruct (decide (slen (m_data_recv c) + slen l = 4 + slen b)) as [Hm|Hm].
    + destruct (read_done e (m_fd c) c l s v u b rest) as [path Hr]; try done; [by rewrite Hwant|].
      rewrite Hr in Hh. injection Hh as <-. exists (S k), (set_recv [] c).
      rewrite new_messages_delivered. unfold put_client at 1. cbn [set_clients m_array_epoll_data the_server]. rewrite lookup_insert_eq.
      assert (bodies !! k = Some b) as Hkb by (rewrite <-(Nat.add_0_r k), <-lookup_drop, Ek; done).
      split_and!; try done.
      * cbn [passed]. rewrite fmap_app, Hms. simpl. by rewrite (take_S_r _ _ b).
      * cbn [passed]. apply Forall_app. split; [done|]. by constructor.
      * cbn [unread]. assert (drop (S k) bodies = rest) as -> by (replace (S k) with (k + 1)%nat by lia; rewrite <-drop_drop, Ek; done).
        by apply (within_done _ _ _ _ _ _ Hw Hm Hb2).
    + assert (slen (m_data_recv c) + slen l < 4 + slen b) as Hm'.
      { destruct Hw as [_ Hlt]. unfold body_ok in Hb1. case_match; lia. }
      rewrite (read_more e (m_fd c) c l s v u b rest) in Hh by (done || by rewrite Hwant). injection Hh as <-.
      exists k, (set_recv (m_data_recv c ++ l) c). unfold put_client. cbn [set_clients m_array_epoll_data the_server passed unread].
      rewrite lookup_insert_eq. unfold new_messages. cbn [set_clients m_queue_adapter_cmd]. rewrite drop_all, app_nil_r, Ek.
      split_and!; try done. by apply within_more.
  - rewrite (again_eq e fd c s v u (drop k bodies)) in Hh by done. injection Hh as <-. by exists k, c.
  - assert (c1 = c) as -> by congruence. exists k, c2. rewrite H3. split_and!; try done; congruence.
Qed.

Lemma transfer_done fd tag v bodies st :
  Forall body_ok bodies → transfer fd tag v bodies st → unread st = [] → content <$> passed st = bodies.
Proof.
  intros Hb (k & c & _ & _ & _ & _ & Hms & _ & Hw) Hu. rewrite Hms. destruct Hw as [E Hd]. rewrite Hu, app_nil_r in E.
  destruct (drop k bodies) as [|b rest] eqn:Ek; [rewrite <-(take_drop k bodies) at 2; by rewrite Ek, app_nil_r|].
  rewrite E in Hd. simpl in Hd. rewrite length_app in Hd. pose proof (length_frame v b). lia.
Qed.

Lemma transfer_progress e fd tag v bodies st :
  0 ≤ fd < m_epoll_maxsize → Forall body_ok bodies → transfer fd tag v bodies st → unread st ≠ [] →
  ∃ s' ms', stream_step fd st (Stream (drop 1 (unread st)) ms' s') ∧
    handle host_le MD5 m_verify_key (e, SocketReadable fd (λ _, Received (take 1 (unread st)))) (the_server st) = Ret s'.
Proof.
  intros Hfd Hb (k & c & E & Efd & Et & Ea & Hms & Hf & Hw) Hu. assert (Forall body_ok (drop k bodies)) as Hbk by by apply Forall_drop.
  destruct st as [u ms s]. cbn [unread passed the_server] in *. destruct u as [|x u]; [done|]. cbn [take drop].
  destruct (drop k bodies) as [|b rest]; [destruct Hw as [Ew Hd]; by rewrite Hd in Ew|].
  inversion Hbk as [|?? Hb1 Hb2]; subst. change (x :: u) with ([x] ++ u) in *.
  assert (slen [x] ≤ wanted host_le (m_data_recv c)) as Hn.
  { apply Z.lt_pred_le. change (Z.pred (slen [x])) with 0. eapply wanted_nonneg; [by eapply within_partial|by eapply within_accepts]. }
  assert (∃ s', handle host_le MD5 m_verify_key (e, SocketReadable (m_fd c) (λ _, Received [x])) s = Ret s') as [s' Hs'].
  { destruct (decide (slen (m_data_recv c) + slen [x] = 4 + slen b)) as [Hm|Hm].
    - destruct (read_done e (m_fd c) c [x] s v u b rest) as [path ->]; eauto.
    - rewrite (read_more e (m_fd c) c [x] s v u b rest); [eauto|done..|]. destruct Hw as [_ Hlt]. simpl in *. lia. }
  exists s', (ms ++ new_messages s s'). split; [|done]. by eapply stream_read.
Qed.

Lemma transfer_start fd v bodies c s :
  m_array_epoll_data s !! fd = Some c → m_fd c = fd → m_is_authed c = true → m_data_recv c = [] → Forall body_ok bodies →
  transfer fd (m_unify_tag c) v bodies (Stream (concat (map (frame v) bodies)) [] s).
Proof.
  intros E Efd Ea Ed Hb. exists 0%nat, c. unfold within. cbn [unread]. rewrite Ed, drop_0. split_and!; try done.
  destruct bodies; [done|]. simpl. lia.
Qed.
End stream.

(** ** Properties *)

(** C20 However the kernel cuts the bytes of the frames into pieces, and whatever
    else the server does between them: the contents of an authenticated
    client's frames of up to 4096 bytes reach the dispatcher as its messages,
    whole, in order and without repetition; all have arrived when no byte is
    unread; and while one is unread, the next byte can be read and brings the
    transfer on. *)
Theorem stream_reassembly `{Boost} host_le MD5 m_verify_key fd v bodies c s st :
  (∀ l, length (MD5 l) = 16%nat) → 0 ≤ fd < m_epoll_maxsize → Forall body_ok bodies →
  m_array_epoll_data s !! fd = Some c → m_fd c = fd → m_is_authed c = true → m_data_recv c = [] →
  rtc (stream_step host_le MD5 m_verify_key fd) (Stream (concat (map (frame host_le v) bodies)) [] s) st →
  (∃ k, content <$> passed st = take k bodies) ∧
  Forall (λ m, msg_fd m = fd ∧ msg_tag m = m_unify_tag c) (passed st) ∧
  (unread st = [] → content <$> passed st = bodies) ∧
  (unread st ≠ [] → ∃ s' ms', stream_step host_le MD5 m_verify_key fd st (Stream (drop 1 (unread st)) ms' s')).
Proof.
  intros HM Hfd Hb E Efd Ea Ed Hs.
  assert (transfer host_le fd (m_unify_tag c) v bodies st) as Ht.
  { eapply (rtc_ind_r (transfer host_le fd (m_unify_tag c) v bodies)); [by apply transfer_start| |done].
    intros y z _ Hstep. by eapply stream_step_transfer. }
  split_and!.
  - destruct Ht as (k & ? & _ & _ & _ & _ & Hms & _). by exists k.
  - by destruct Ht as (k & ? & _ & _ & _ & _ & _ & Hf & _).
  - by eapply transfer_done.
  - intros Hu. destruct (transfer_progress host_le MD5 m_verify_key HM demo_env fd _ v bodies st Hfd Hb Ht Hu) as (s' & ms' & ? & _). eauto.
Qed.

(** A frame of 4097 to 4999 bytes, whose length every other test accepts, is
    never received: when the first 4096 bytes of its body are there, the
    handler takes the body for complete, the test of the whole frame fails,
    and the connection is closed. *)
Lemma large_frame_refused `{Boost} host_le MD5 m_verify_key e fd v body c s :
  (∀ l, length (MD5 l) = 16%nat) → 0 ≤ fd < m_epoll_maxsize → 4096 < slen body < 5000 →
  m_array_epoll_data s !! fd = Some c → m_data_recv c = take 4 (frame host_le v body) →
  get_body_length host_le (m_data_recv c ++ [0]) 4 = Ret (slen body) ∧
  wanted host_le (m_data_recv c) = 4096 ∧
  handle host_le MD5 m_verify_key (e, SocketReadable fd (λ n, Received (take (Z.to_nat n) body))) s = Ret (closed fd s).
Proof.
  intros HM Hfd Hn E Ed. unfold frame in Ed. rewrite take_app_length' in Ed by by rewrite length_head_bytes.
  assert (slen (m_data_recv c) = 4) as Hl by (rewrite Ed, length_head_bytes; done).
  assert (head_value host_le (m_data_recv c) = slen body) as Hh.
  { rewrite Ed, <-(app_nil_r (head_bytes host_le v (slen body))). apply head_value_head. lia. }
  assert (length_ok (slen body)) as Hok by (unfold length_ok; lia).
  assert (wanted host_le (m_data_recv c) = 4096) as Hw by (unfold wanted; rewrite Hl, Hh; cbn [Z.ltb Z.compare]; simpl; lia).
  split_and!; [rewrite get_body_length_eq by lia; by rewrite Hh, decide_True|done|].
  unfold handle. cbn [fst snd]. rewrite (dealwith_recv_eq _ _ _ _ _ _ _ c) by (done || (left; lia)).
  rewrite Hw, Hh. rewrite bool_decide_eq_false_2 by (intros [_ ?]; done).
  assert (slen (take (Z.to_nat 4096) body) = 4096) as Hlt by (rewrite length_take; lia).
  rewrite bool_decide_eq_false_2 by (intros Hnil; by rewrite Hnil in Hlt).
  unfold recv_more. rewrite Hl, Hw, Hlt. cbn [Z.ltb Z.compare orb]. set (c' := set_recv _ c).
  assert (slen (m_data_recv c') = 4100) as Hl' by (unfold c'; cbn [set_recv m_data_recv]; rewrite length_app; lia).
  assert (head_value host_le (m_data_recv c') = slen body) as Hh' by (unfold c'; cbn [set_recv m_data_recv]; rewrite head_value_app; [done|lia]).
  destruct (notify_recv_eq host_le MD5 m_verify_key HM e c' (put_client fd c' s) ltac:(lia)) as (mc & b & _ & _ & _ & ->).
  rewrite decide_False by (unfold complete; lia). cbn [mbind outcome_bind fst snd]. rewrite (bool_decide_eq_true_2 (TCP_CHECK_ERROR ≠ _)) by done.
  change ((4 <? 4) || (4096 <? 4096)) with false. cbn [mbind outcome_bind fst snd].
  rewrite bool_decide_eq_true_2, close_internal_eq by done. f_equal. by apply (closed_put _ c).
Qed.

Lemma stream_reassembly_witness :
  let s := put_client 7 (SocketClient 7 9 [] true [97] 10 []) (new_server 10) in
  ∃ s' ms', stream_step (H := boost_impl) true demo_md5 [] 7
    (Stream (concat (map (frame true 0) [[120]; [121; 122]])) [] s)
    (Stream (drop 1 (concat (map (frame true 0) [[120]; [121; 122]]))) ms' s').
Proof.
  refine (proj2 (proj2 (proj2 (stream_reassembly (H := boost_impl) true demo_md5 [] 7 0 [[120]; [121; 122]] (SocketClient 7 9 [] true [97] 10 []) _ _ _ _ _ _ _ _ _ _))) _);
    try done; [unfold body_ok; by apply (bool_decide_unpack _); vm_compute|by vm_compute].
Defined.

Lemma large_frame_refused_witness :
  let s := put_client 7 (SocketClient 7 9 (head_bytes true 0 4500) true [97] 10 []) (new_server 10) in
  handle (H := boost_impl) true demo_md5 [] (demo_env, SocketReadable 7 (λ n, Received (take (Z.to_nat n) (repeat 120 4500)))) s =
  Ret (closed 7 s).
Proof.
  refine (proj2 (proj2 (large_frame_refused (H := boost_impl) true demo_md5 [] demo_env 7 0 (repeat 120 4500) (SocketClient 7 9 (head_bytes true 0 4500) true [97] 10 []) _ _ _ _ _ _)));
    try done; by vm_compute.
Defined.
