(* ===== verification/HttpServer.v ===== *)
(** * The HTTP server of the services
    ([logingame_server/src/main/httpserver.cpp], [http_manager.cpp]; the copies
    of [xlgame_touch_server/] have the same text, those of [template_http/] and
    [notify_adapter_v2/] rename types)

    One thread waits for sockets with epoll, collects what each client sends
    and hands it to [http_manager], which decodes it and queues the request for
    the workers; these answer through a queue of commands and a pipe.  The
    kernel and the log are those of [Socket.v].  A client is known by its
    descriptor and a tag; the object behind the slot is reached only from the
    slot.  The address of the peer is asked from the kernel only when the
    request has no X-REAL-IP header; the field [client_socket_addr] is written
    and never read, [str_data_write] is not used.  Counters of connections stay
    below 2^31. *)

From Stdlib Require Import String.
From S2P Require Import Prelude Text Utility MyCommon Config HttpPacket BlockQueue Socket.

(** ** Definitions: data *)
Record STU_EPOLL_DATA : Type := EpollData { data_fd : Z; data_tag : Z; str_data_recved : list Z }.

Record STU_EPOLL_RTN : Type := EpollRtn { clientfd : Z; fd_unify_tag : Z; str_data_send : list Z; cmd_type : Z }.

Definition PIPE_CMD_SEND : Z := 0.
Definition PIPE_CMD_CLOSE : Z := 1.

Inductive enum_notify_type : Type := enum_sock_new_conn | enum_sock_data_recv | enum_sock_close.

Definition HTTP_CHECK_DATA_OK : Z := 0.
Definition HTTP_CHECK_DATA_NEEDMORE : Z := -1.
Definition HTTP_CHECK_DATA_ERROR : Z := -2.

(** A decoded request with the fields [http_manager] adds. *)
Record http_request : Type := HttpRequest {
  request_packet : packet;
  m_clientfd : Z;
  m_client_tag : Z;
  m_addqueue_time_millsec : Z;
  m_unixtime_tag_map : gmap (list Z) (list Z);
}.

(** The fields of [httpserver] and [http_manager], the queue of the dispatcher,
    and the number of bytes in the pipe. *)
Record httpserver : Type := HttpServer {
  m_array_epoll_data : gmap Z STU_EPOLL_DATA;
  m_queue_send : block_queue STU_EPOLL_RTN;
  m_request_queue : block_queue http_request;
  m_clientcount : Z;
  m_client_history_count : Z;
  m_unify_id : Z;
  m_requst_count : Z;
  m_pipe : Z;
  m_log : list action;
}.

Definition set_slots (f : gmap Z STU_EPOLL_DATA → gmap Z STU_EPOLL_DATA) (s : httpserver) : httpserver :=
  HttpServer (f (m_array_epoll_data s)) (m_queue_send s) (m_request_queue s) (m_clientcount s) (m_client_history_count s)
    (m_unify_id s) (m_requst_count s) (m_pipe s) (m_log s).
Definition set_queue_send (q : block_queue STU_EPOLL_RTN) (s : httpserver) : httpserver :=
  HttpServer (m_array_epoll_data s) q (m_request_queue s) (m_clientcount s) (m_client_history_count s)
    (m_unify_id s) (m_requst_count s) (m_pipe s) (m_log s).
Definition set_requests (q : block_queue http_request) (count : Z) (s : httpserver) : httpserver :=
  HttpServer (m_array_epoll_data s) (m_queue_send s) q (m_clientcount s) (m_client_history_count s)
    (m_unify_id s) count (m_pipe s) (m_log s).
Definition set_counts (count history : Z) (s : httpserver) : httpserver :=
  HttpServer (m_array_epoll_data s) (m_queue_send s) (m_request_queue s) count history
    (m_unify_id s) (m_requst_count s) (m_pipe s) (m_log s).
Definition set_unify_id (id : Z) (s : httpserver) : httpserver :=
  HttpServer (m_array_epoll_data s) (m_queue_send s) (m_request_queue s) (m_clientcount s) (m_client_history_count s)
    id (m_requst_count s) (m_pipe s) (m_log s).
Definition set_pipe (n : Z) (s : httpserver) : httpserver :=
  HttpServer (m_array_epoll_data s) (m_queue_send s) (m_request_queue s) (m_clientcount s) (m_client_history_count s)
    (m_unify_id s) (m_requst_count s) n (m_log s).
Definition note (a : action) (s : httpserver) : httpserver :=
  HttpServer (m_array_epoll_data s) (m_queue_send s) (m_request_queue s) (m_clientcount s) (m_client_history_count s)
    (m_unify_id s) (m_requst_count s) (m_pipe s) (m_log s ++ [a]).

(** What the kernel says about a request: the address of the peer, and the
    clock, read twice, as [gettimeofday] gives it. *)
Record request_info : Type := RequestInfo { peer : option (list Z); clock1 : Z * Z; clock2 : Z * Z }.

(** ** Definitions: the server *)

(** [http_manager] asks for this size. *)
Definition m_epoll_maxsize : Z := 60000.

(** The state after the constructors. *)
Definition new_server : httpserver := HttpServer ∅ new_block_queue new_block_queue 0 0 0 0 0 [].

(** The slot of a descriptor; no function tests the index. *)
Definition get_slot (s : httpserver) (fd : Z) : outcome (option STU_EPOLL_DATA) :=
  if (0 <=? fd) && (fd <? m_epoll_maxsize) then Ret (m_array_epoll_data s !! fd) else Stuck.

Definition get_unify_tag (client_fd : Z) (s : httpserver) : Z * httpserver :=
  let s := set_unify_id (u64 (m_unify_id s + 1)) s in
  let unifyid := Z.land (m_unify_id s) (2 ^ 32 - 1) in
  let fd64 := u64 (Z.shiftl (u64 client_fd) 32) in
  (u64 (fd64 + unifyid), s).

(** *** Commands of the other threads *)
Definition submit (e : environment) (c : STU_EPOLL_RTN) (s : httpserver) : Z * httpserver :=
  let s := set_queue_send (add_queue (m_queue_send s) c) s in
  if bool_decide (env_write e (m_pipe s) 0 = -1) then (-1, s) else (0, set_pipe (m_pipe s + 1) s).

Definition send_data (e : environment) (fd unify_tag : Z) (str_data : list Z) (s : httpserver) : Z * httpserver :=
  submit e (EpollRtn fd unify_tag str_data PIPE_CMD_SEND) s.

Definition close_client (e : environment) (fd unify_tag : Z) (s : httpserver) : Z * httpserver :=
  submit e (EpollRtn fd unify_tag [] PIPE_CMD_CLOSE) s.

Definition get_client_count (s : httpserver) : Z := m_clientcount s.
Definition get_total_history_client_count (s : httpserver) : Z := m_client_history_count s.

(** *** [http_manager] *)

(** What the server needs of [HttpRequestPacket::Decode]: a result 0, -1 or -2,
    and -2 where there is no complete line. *)
Class RequestDecoder : Type := decode_request : packet → list Z → outcome (Z * packet).
Class RequestDecoderLaws `{RequestDecoder} : Prop := {
  decode_result p s r p' : decode_request p s = Ret (r, p') → r = 0 ∨ r = -1 ∨ r = -2;
  decode_unfinished p s : (13 ∉ s) → decode_request p s = Ret (-2, p);
}.

(** The decoder of [HttpPacket.v]. *)
#[export] Instance packet_decoder `{Boost} (iconv : list Z → Z → iconv_status * nat * list Z) : RequestDecoder := Decode iconv.

#[export] Instance packet_decoder_laws `{Boost} iconv : RequestDecoderLaws (H := packet_decoder iconv).
Proof.
  split; [apply Decode_result|]. intros p s H13. unfold decode_request, packet_decoder, Decode.
  pose proof (find_no_line [] s H13) as Hf. cbn [app] in Hf. change (slen []) with 0 in Hf. by rewrite Hf.
Qed.

Section http_manager.
Context `{Boost} `{RequestDecoder}.

(** [append] of a negative length throws. *)
Definition parse_http_request (i : request_info) (pdata : list Z) (length clientfd client_unify_tag : Z) (s : httpserver)
    : outcome (Z * httpserver) :=
  if length <? 0 then Stuck
  else
    let strdata := take (Z.to_nat length) pdata in
    let! r := decode_request new_packet strdata in
    let (decode_result, prquest) := (r : Z * packet) in
    if bool_decide (decode_result = -1) || bool_decide (decode_result = -2) then Ret (-1, s)
    else
      let prquest := generate_client_ip (peer i) prquest in
      let currenttime := get_cur_millseconds (clock2 i).1 (clock2 i).2 in
      let m := map_insert ∅ (str "1_recv_cmd") (format_uint64 currenttime) in
      let q := HttpRequest prquest clientfd client_unify_tag (get_cur_millseconds (clock1 i).1 (clock1 i).2) m in
      Ret (0, set_requests (add_queue (m_request_queue s) q) (u64 (m_requst_count s + 1)) s).

(** [pdata] is [None] for a null pointer. *)
Definition http_callback (i : request_info) (notify_type : enum_notify_type) (pdata : option (list Z)) (length : Z)
    (pstu_epoll_data : STU_EPOLL_DATA) (s : httpserver) : outcome (Z * httpserver) :=
  match notify_type, pdata with
  | enum_sock_new_conn, _ | enum_sock_close, _ => Ret (HTTP_CHECK_DATA_OK, s)
  | enum_sock_data_recv, None => Ret (HTTP_CHECK_DATA_OK, s)
  | enum_sock_data_recv, Some pdata =>
      let! r := parse_http_request i pdata length (data_fd pstu_epoll_data) (data_tag pstu_epoll_data) s in
      let (parse_result, s) := (r : Z * httpserver) in
      if bool_decide (parse_result = -1) then Ret (HTTP_CHECK_DATA_ERROR, s)
      else if bool_decide (parse_result = 0) then Ret (HTTP_CHECK_DATA_OK, s)
      else Ret (HTTP_CHECK_DATA_NEEDMORE, s)
  end.

(** *** The reactor *)
Definition no_info : request_info := RequestInfo None (0, 0) (0, 0).

(** [epoll_ctl] and [close], the count, then the slot. *)
Definition close_socket_internal (fd : Z) (s : httpserver) : outcome httpserver :=
  let s := note (Closed fd) s in
  let s := set_counts (m_clientcount s - 1) (m_client_history_count s) s in
  let! d := get_slot s fd in
  match d with
  | Some d =>
      let! r := http_callback no_info enum_sock_close None 0 d s in
      Ret (set_slots (delete fd) r.2)
  | None => Ret s
  end.

Definition send_internal (e : environment) (c : STU_EPOLL_RTN) (s : httpserver) : Z * httpserver :=
  let result := env_send e (m_log s) (clientfd c) (str_data_send c) in
  let s := note (Sent (clientfd c) (str_data_send c) result) s in
  if bool_decide (result = -1) then (-1, s)
  else if bool_decide (u64 result ≠ slen (str_data_send c)) then (-1, s)
  else (0, s).

(** [recv] of at most 4096 bytes. *)
Definition dealwith_recv (recv : recv_result) (i : request_info) (fd : Z) (s : httpserver) : outcome (Z * httpserver) :=
  let! d := get_slot s fd in
  match d with
  | None => Ret (-1, s)
  | Some d =>
      match recv with
      | TryAgain => Ret (0, s)
      | RecvFailed => Ret (-1, s)
      | Received char_buffer =>
          if bool_decide (char_buffer = []) then Ret (-1, s)
          else
            let d := EpollData (data_fd d) (data_tag d) (str_data_recved d ++ char_buffer) in
            let s := set_slots (<[fd := d]>) s in
            let! r := http_callback i enum_sock_data_recv (Some (str_data_recved d ++ [0])) (s32 (slen (str_data_recved d))) d s in
            let (notify_result, s) := (r : Z * httpserver) in
            if bool_decide (notify_result = HTTP_CHECK_DATA_OK) then
              Ret (0, set_slots (<[fd := EpollData (data_fd d) (data_tag d) []]>) s)
            else if bool_decide (notify_result = HTTP_CHECK_DATA_ERROR) then Ret (-1, s)
            else Ret (0, s)
      end
  end.

Definition new_client (a : accept_result) (s : httpserver) : outcome httpserver :=
  if bool_decide (new_client_fd a = -1) then Ret s
  else if bool_decide (noblock_result a = -1) then Ret s
  else if bool_decide (optresult a = -1) then Ret s
  else if bool_decide (add_result a = -1) then Ret s
  else
    let (tag, s) := get_unify_tag (new_client_fd a) s in
    let d := EpollData (new_client_fd a) tag [] in
    let! _ := get_slot s (new_client_fd a) in
    let s := note (Accepted (new_client_fd a) tag) (set_slots (<[new_client_fd a := d]>) s) in
    let! r := http_callback no_info enum_sock_new_conn None 0 d s in
    Ret (set_counts (m_clientcount r.2 + 1) (u64 (m_client_history_count r.2 + 1)) r.2).

(** [pipe_result] is what [read] of one byte answers. *)
Definition pipe_cmd (e : environment) (pipe_result : Z) (s : httpserver) : outcome httpserver :=
  if bool_decide (pipe_result = -1) then Ret s
  else
    let s := set_pipe (m_pipe s - pipe_result) s in
    match dequeue_nodelay (m_queue_send s) with
    | (1, Some c, q) =>
        let s := set_queue_send q s in
        let! d := get_slot s (clientfd c) in
        match d with
        | None => Ret s
        | Some d =>
            if bool_decide (data_fd d = clientfd c) && bool_decide (data_tag d = fd_unify_tag c) then
              if bool_decide (cmd_type c = PIPE_CMD_SEND) then
                let (send_result, s) := send_internal e c s in
                if bool_decide (send_result = -1) then close_socket_internal (clientfd c) s else Ret s
              else if bool_decide (cmd_type c = PIPE_CMD_CLOSE) then close_socket_internal (clientfd c) s
              else Ret s
            else Ret s
        end
    | (_, _, q) => Ret (set_queue_send q s)
    end.

(** One descriptor of [epoll_wait], and the loop over them. *)
Inductive event : Type :=
  | NewConnection (a : accept_result)
  | PipeReadable (e : environment) (pipe_result : Z)
  | SocketReadable (fd : Z) (recv : recv_result) (i : request_info).

Definition handle (ev : event) (s : httpserver) : outcome httpserver :=
  match ev with
  | NewConnection a => new_client a s
  | PipeReadable e pipe_result => pipe_cmd e pipe_result s
  | SocketReadable fd recv i =>
      let! r := dealwith_recv recv i fd s in
      if bool_decide (r.1 = -1) then close_socket_internal fd r.2 else Ret r.2
  end.

Definition epoll_turn (evs : list event) (s : httpserver) : outcome httpserver := for_each handle evs s.

(** ** Definitions for the statements *)

(** What the kernel promises for an event: a new descriptor is not in use, a
    descriptor of an event is one that was registered, and no more bytes come
    than were asked for. *)
Definition kernel_ok (ev : event) (s : httpserver) : Prop :=
  match ev with
  | NewConnection a => new_client_fd a = -1 ∨ 0 ≤ new_client_fd a ∧ owner (m_log s) (new_client_fd a) = None
  | PipeReadable _ _ => True
  | SocketReadable fd recv _ => (∃ tag, Accepted fd tag ∈ m_log s) ∧ ∀ l, recv = Received l → slen l ≤ 4096
  end.

(** The reactor; a worker, which answers to a connection it has a request of,
    and takes requests. *)
Inductive http_step : httpserver → httpserver → Prop :=
  | http_event ev s s' : kernel_ok ev s → handle ev s = Ret s' → http_step s s'
  | http_submit e c s : Accepted (clientfd c) (fd_unify_tag c) ∈ m_log s → http_step s (submit e c s).2
  | http_take q l s : dequeue_nodelay (m_request_queue s) = (1, Some q, l) → http_step s (set_requests l (m_requst_count s) s).

Definition reachable (s : httpserver) : Prop := rtc http_step new_server s.
End http_manager.

(** The state after the descriptor [fd] of the table has been closed. *)
Definition closed (fd : Z) (s : httpserver) : httpserver :=
  set_slots (delete fd) (set_counts (m_clientcount s - 1) (m_client_history_count s) (note (Closed fd) s)).

(** The state after a request of the client [d] has been queued. *)
Definition queued `{Boost} (i : request_info) (p : packet) (fd : Z) (d : STU_EPOLL_DATA) (s : httpserver) : httpserver :=
  set_slots (<[fd := EpollData (data_fd d) (data_tag d) []]>)
    (set_requests (add_queue (m_request_queue s)
        (HttpRequest (generate_client_ip (peer i) p) (data_fd d) (data_tag d) (get_cur_millseconds (clock1 i).1 (clock1 i).2)
           {[ str "1_recv_cmd" := format_uint64 (get_cur_millseconds (clock2 i).1 (clock2 i).2) ]}))
      (u64 (m_requst_count s + 1)) s).

(** What a command adds to the log: nothing unless the connection it names
    still holds the descriptor. *)
Definition command_log (e : environment) (c : STU_EPOLL_RTN) (log : list action) : list action :=
  if decide (owner log (clientfd c) = Some (fd_unify_tag c)) then
    if decide (cmd_type c = PIPE_CMD_SEND) then
      let rc := env_send e log (clientfd c) (str_data_send c) in
      log ++ Sent (clientfd c) (str_data_send c) rc ::
        if decide (rc = -1 ∨ u64 rc ≠ slen (str_data_send c)) then [Closed (clientfd c)] else []
    else if decide (cmd_type c = PIPE_CMD_CLOSE) then log ++ [Closed (clientfd c)]
    else log
  else log.

(** ** The invariant *)
Record http_ok (s : httpserver) : Prop := {
  ok_owner : ∀ fd, owner (m_log s) fd = data_tag <$> m_array_epoll_data s !! fd;
  ok_slot : ∀ fd d, m_array_epoll_data s !! fd = Some d → data_fd d = fd ∧ 0 ≤ fd < m_epoll_maxsize ∧ str_data_recved d = [];
  ok_accepted : ∀ fd tag, Accepted fd tag ∈ m_log s → 0 ≤ fd < m_epoll_maxsize;
  ok_request : ∀ q, q ∈ m_list (m_request_queue s) → Accepted (m_clientfd q) (m_client_tag q) ∈ m_log s;
  ok_command : ∀ c, c ∈ m_list (m_queue_send s) → Accepted (clientfd c) (fd_unify_tag c) ∈ m_log s;
  ok_tags : tags_ok (m_unify_id s) (m_log s);
}.

(** ** Lemmas *)
Lemma get_slot_eq s fd : 0 ≤ fd < m_epoll_maxsize → get_slot s fd = Ret (m_array_epoll_data s !! fd).
Proof. intros Hfd. unfold get_slot. by rewrite (proj2 (Z.leb_le 0 fd)), (proj2 (Z.ltb_lt fd _)) by lia. Qed.

Lemma get_slot_beyond s fd : m_epoll_maxsize ≤ fd → get_slot s fd = Stuck.
Proof. intros Hfd. unfold get_slot. by rewrite (proj2 (Z.ltb_ge fd _)), andb_false_r by lia. Qed.

Lemma http_new_server_ok : http_ok new_server.
Proof.
  split; cbn [new_server m_log m_array_epoll_data m_request_queue m_queue_send]; try (intros ??; by rewrite lookup_empty).
  all: try by intros ? ?%not_elem_of_nil.
  - done.
  - by intros ? ? ?%not_elem_of_nil.
  - intros _. split_and!; [done|constructor|constructor].
Qed.

Section http_lemmas.
Context `{Boost} `{RequestDecoderLaws}.

Lemma close_eq fd s : 0 ≤ fd < m_epoll_maxsize → close_socket_internal fd s = Ret (closed fd s).
Proof.
  intros Hfd. unfold close_socket_internal, closed. rewrite get_slot_eq by done. cbn [mbind outcome_bind].
  change (m_array_epoll_data (set_counts _ _ _)) with (m_array_epoll_data s).
  destruct (m_array_epoll_data s !! fd) as [d|] eqn:E; [done|].
  f_equal. unfold set_slots. cbn. by rewrite delete_id.
Qed.

Lemma http_ok_note a s : match a with Sent _ _ _ => True | _ => False end → http_ok s → http_ok (note a s).
Proof.
  intros Ha [Ho Hs Hac Hr Hc Ht]. split; cbn [note m_log m_array_epoll_data m_request_queue m_queue_send m_unify_id].
  - intros fd. rewrite owner_app, <-Ho. by destruct a.
  - done.
  - intros fd tag Hin. apply (Hac _ tag). rewrite elem_of_app, list_elem_of_singleton in Hin. by destruct Hin as [?|<-].
  - intros q Hq. apply elem_of_app. left. auto.
  - intros c Hin. apply elem_of_app. left. auto.
  - apply tags_ok_skip; [by destruct a|done].
Qed.

Lemma http_ok_closed fd s : http_ok s → http_ok (closed fd s).
Proof.
  intros [Ho Hs Hac Hr Hc Ht].
  split; cbn [closed set_slots set_counts note m_log m_array_epoll_data m_request_queue m_queue_send m_unify_id].
  - intros fd'. rewrite owner_app. cbn [owner_step]. case_bool_decide as E; [by rewrite E, lookup_delete_eq|].
    by rewrite lookup_delete_ne.
  - intros fd' d [_ E]%lookup_delete_Some. auto.
  - intros fd' tag Hin. apply (Hac _ tag). rewrite elem_of_app, list_elem_of_singleton in Hin. by destruct Hin.
  - intros q Hq. apply elem_of_app. left. auto.
  - intros c Hin. apply elem_of_app. left. auto.
  - by apply tags_ok_skip.
Qed.

Lemma http_ok_set_pipe n s : http_ok s → http_ok (set_pipe n s).
Proof. by intros [Ho Hs Hac Hr Hc Ht]. Qed.

Lemma ok_dequeue q c s l :
  http_ok s → m_list (m_queue_send s) = c :: l → m_list q = l → http_ok (set_queue_send q s).
Proof.
  intros [Ho Hs Hac Hr Hc Ht] El Eq. split; try done. cbn [set_queue_send m_queue_send m_log]. rewrite Eq.
  intros c' Hin. apply Hc. rewrite El. by right.
Qed.

(** What the callback answers for the bytes [l]. *)
Lemma callback_eq i l d s :
  slen l < 2 ^ 31 →
  http_callback i enum_sock_data_recv (Some (l ++ [0])) (s32 (slen l)) d s =
  (let! r := decode_request new_packet l in
   if bool_decide (r.1 = 0) then
     Ret (HTTP_CHECK_DATA_OK, set_requests (add_queue (m_request_queue s)
        (HttpRequest (generate_client_ip (peer i) r.2) (data_fd d) (data_tag d) (get_cur_millseconds (clock1 i).1 (clock1 i).2)
           {[ str "1_recv_cmd" := format_uint64 (get_cur_millseconds (clock2 i).1 (clock2 i).2) ]}))
      (u64 (m_requst_count s + 1)) s)
   else Ret (HTTP_CHECK_DATA_ERROR, s)).
Proof.
  intros Hl. unfold http_callback, parse_http_request. unfold s32. rewrite sw_id by lia. rewrite (proj2 (Z.ltb_ge _ _)) by lia.
  rewrite Nat2Z.id, take_app_length. destruct (decode_request new_packet l) as [[r p]| |] eqn:Edec; [|done..].
  by destruct (decode_result _ _ _ _ Edec) as [-> |[-> | ->]].
Qed.

(** What a live client sends is decoded by itself. *)
Lemma recv_eq fd d l i s :
  0 ≤ fd < m_epoll_maxsize → m_array_epoll_data s !! fd = Some d → str_data_recved d = [] → l ≠ [] → slen l ≤ 4096 →
  handle (SocketReadable fd (Received l) i) s =
  (let! r := decode_request new_packet l in
   if bool_decide (r.1 = 0) then Ret (queued i r.2 fd d s) else Ret (closed fd s)).
Proof.
  intros Hfd E Ed Hne Hl. unfold handle, dealwith_recv. rewrite get_slot_eq by done. cbn [mbind outcome_bind]. rewrite E, Ed.
  rewrite bool_decide_eq_false_2 by done. cbn [app str_data_recved data_fd data_tag].
  set (s1 := set_slots _ s). rewrite callback_eq by lia. cbn [data_fd data_tag].
  destruct (decode_request new_packet l) as [[r p]| |]; [cbn [mbind outcome_bind fst snd]|done..].
  destruct (decide (r = 0)) as [Hr|Hr]; [rewrite !(bool_decide_eq_true_2 (r = 0)) by done|rewrite !(bool_decide_eq_false_2 (r = 0)) by done];
    cbn [mbind outcome_bind]; unfold HTTP_CHECK_DATA_OK, HTTP_CHECK_DATA_ERROR.
  - rewrite (bool_decide_eq_true_2 (0 = 0)) by done. cbn [mbind outcome_bind fst snd].
    rewrite (bool_decide_eq_false_2 (0 = -1)) by done.
    f_equal. unfold queued, s1, set_slots, set_requests. cbn. by rewrite insert_insert_eq.
  - rewrite (bool_decide_eq_false_2 (-2 = 0)), (bool_decide_eq_true_2 (-2 = -2)) by done. cbn [mbind outcome_bind fst snd].
    rewrite (bool_decide_eq_true_2 (-1 = -1)), close_eq by done. f_equal. unfold closed, s1, set_slots. cbn. by rewrite delete_insert_eq.
Qed.

Lemma ok_queued i p fd d s : m_array_epoll_data s !! fd = Some d → http_ok s → http_ok (queued i p fd d s).
Proof.
  intros E [Ho Hs Hac Hr Hc Ht]. destruct (Hs _ _ E) as (Ed & Hfd & _).
  split; cbn [queued set_slots set_requests m_log m_array_epoll_data m_request_queue m_queue_send m_unify_id add_queue m_list]; [| |done| |done..].
  - intros fd'. rewrite Ho. destruct (decide (fd = fd')) as [<-|Hne]; [by rewrite lookup_insert_eq, E|by rewrite lookup_insert_ne].
  - intros fd' d' [[<- <-]|[_ ?]]%lookup_insert_Some; [done|auto].
  - intros q. rewrite elem_of_app, list_elem_of_singleton. intros [?| ->]; [auto|]. cbn [m_clientfd m_client_tag].
    rewrite Ed. apply owner_accepted. by rewrite Ho, E.
Qed.

(** A descriptor that is not open has no client. *)
Lemma free_http_slot s fd : owner (m_log s) fd = None → http_ok s → m_array_epoll_data s !! fd = None.
Proof. intros Eo Hok. rewrite (ok_owner _ Hok) in Eo. by apply fmap_None in Eo. Qed.

Lemma ok_accept a s s' : http_ok s → kernel_ok (NewConnection a) s → new_client a s = Ret s' → http_ok s'.
Proof.
  intros Hok Hk. unfold new_client. case_bool_decide as E1; [by intros [= <-]|]. destruct Hk as [?|[Hr E%free_http_slot]]; [done| |done].
  repeat (case_bool_decide; [by intros [= <-]|]). destruct Hok as [Ho Hs Hac Hrq Hc Ht].
  destruct (get_unify_tag (new_client_fd a) s) as [tag s1] eqn:Et.
  destruct (decide (m_epoll_maxsize ≤ new_client_fd a)) as [Hover|Hover]; [by rewrite get_slot_beyond|].
  assert (0 ≤ new_client_fd a < m_epoll_maxsize) as Hslot by lia. rewrite get_slot_eq by done. cbn [mbind outcome_bind http_callback snd].
  intros [= <-]. unfold get_unify_tag in Et. injection Et as <- <-.
  split; cbn [note set_slots set_counts set_unify_id m_log m_array_epoll_data m_request_queue m_queue_send m_unify_id].
  - intros fd'. rewrite owner_app. cbn [owner_step]. case_bool_decide as Efd; [by rewrite <-Efd, lookup_insert_eq|].
    by rewrite lookup_insert_ne.
  - intros fd' d [[<- <-]|[_ ?]]%lookup_insert_Some; [done|auto].
  - intros fd' tag. rewrite elem_of_app, list_elem_of_singleton. intros [?|[= -> _]]; [eauto|done].
  - intros q Hq. apply elem_of_app. left. auto.
  - intros c Hin. apply elem_of_app. left. auto.
  - apply tags_ok_accept; [apply tag_low|done].
Qed.

Lemma http_log_closed fd s : m_log (closed fd s) = m_log s ++ [Closed fd].
Proof. done. Qed.

Lemma pipe_eq e r c l s :
  http_ok s → r ≠ -1 → m_list (m_queue_send s) = c :: l →
  ∃ s', pipe_cmd e r s = Ret s' ∧ http_ok s' ∧ m_list (m_queue_send s') = l ∧ m_log s' = command_log e c (m_log s).
Proof.
  intros Hok Hr El. unfold pipe_cmd. rewrite bool_decide_eq_false_2 by done.
  unfold dequeue_nodelay. change (m_queue_send (set_pipe (m_pipe s - r) s)) with (m_queue_send s). rewrite El.
  set (q := BlockQueue _ _ _). set (s1 := set_queue_send q (set_pipe (m_pipe s - r) s)).
  assert (http_ok s1) as Hok1 by (apply (ok_dequeue q c _ l); [by apply http_ok_set_pipe|done|done]).
  assert (0 ≤ clientfd c < m_epoll_maxsize) as Hfd.
  { apply (ok_accepted _ Hok _ (fd_unify_tag c)), (ok_command _ Hok). rewrite El. by left. }
  rewrite get_slot_eq by done. cbn [mbind outcome_bind]. change (m_array_epoll_data s1) with (m_array_epoll_data s).
  unfold command_log. rewrite (ok_owner _ Hok (clientfd c)).
  destruct (m_array_epoll_data s !! clientfd c) as [d|] eqn:E; [|rewrite decide_False by done; by exists s1].
  destruct (ok_slot _ Hok _ _ E) as (Ed & _ & _). rewrite (bool_decide_eq_true_2 (data_fd d = _)) by done. cbn [andb fmap option_fmap option_map].
  destruct (decide (data_tag d = fd_unify_tag c)) as [Et|Et].
  2:{ rewrite bool_decide_eq_false_2, decide_False by congruence. by exists s1. }
  rewrite bool_decide_eq_true_2, decide_True by congruence.
  destruct (decide (cmd_type c = PIPE_CMD_SEND)) as [Es|Es].
  - rewrite bool_decide_eq_true_2 by done. unfold send_internal. change (m_log s1) with (m_log s).
    set (rc := env_send e (m_log s) (clientfd c) (str_data_send c)). set (s2 := note _ s1).
    assert (http_ok s2) as Hok2 by by apply http_ok_note.
    assert (∃ s', (let '(send_result, s3) := if bool_decide (rc = -1) then (-1, s2) else if bool_decide (u64 rc ≠ slen (str_data_send c)) then (-1, s2) else (0, s2) in
       if bool_decide (send_result = -1) then close_socket_internal (clientfd c) s3 else Ret s3) = Ret s' ∧
       s' = if decide (rc = -1 ∨ u64 rc ≠ slen (str_data_send c)) then closed (clientfd c) s2 else s2) as (s' & -> & ->).
    { destruct (decide (rc = -1)) as [Hrc|Hrc]; [|destruct (decide (u64 rc ≠ slen (str_data_send c))) as [Hl|Hl]].
      - rewrite (bool_decide_eq_true_2 (rc = -1)), decide_True by auto. eexists. split; [|done]. by rewrite close_eq.
      - rewrite (bool_decide_eq_false_2 (rc = -1)), (bool_decide_eq_true_2 (u64 rc ≠ _)), decide_True by auto.
        eexists. split; [|done]. by rewrite close_eq.
      - rewrite (bool_decide_eq_false_2 (rc = -1)), (bool_decide_eq_false_2 (u64 rc ≠ _)), decide_False by tauto. by eexists. }
    eexists. split; [done|]. destruct (decide (rc = -1 ∨ _)); (split_and!; [by try apply http_ok_closed|done|]).
    + rewrite http_log_closed. cbn [s2 note m_log]. by rewrite <-app_assoc.
    + done.
  - rewrite bool_decide_eq_false_2 by done. destruct (decide (cmd_type c = PIPE_CMD_CLOSE)) as [Ec|Ec].
    + rewrite bool_decide_eq_true_2, close_eq by done. eexists. split; [done|]. split_and!; [by apply http_ok_closed|done|done].
    + rewrite bool_decide_eq_false_2 by done. by exists s1.
Qed.

(** A new descriptor for which the table has no slot; nothing tests it. *)
Definition beyond_table (ev : event) : Prop :=
  match ev with NewConnection a => m_epoll_maxsize ≤ new_client_fd a | _ => False end.

(** An event on which the decoder itself is undefined. *)
Definition undecodable (ev : event) (s : httpserver) : Prop :=
  match ev with
  | SocketReadable fd (Received l) _ =>
      l ≠ [] ∧ is_Some (m_array_epoll_data s !! fd) ∧ ∀ r, decode_request new_packet l ≠ Ret r
  | _ => False
  end.

Lemma recv_other fd recv i s :
  0 ≤ fd < m_epoll_maxsize → m_array_epoll_data s !! fd = None ∨ recv = RecvFailed ∨ recv = Received [] →
  handle (SocketReadable fd recv i) s = Ret (closed fd s).
Proof.
  intros Hfd Hc. unfold handle, dealwith_recv. rewrite get_slot_eq by done. cbn [mbind outcome_bind].
  destruct (m_array_epoll_data s !! fd) as [d|] eqn:E; [|by cbn [mbind outcome_bind fst snd]; rewrite bool_decide_eq_true_2, close_eq].
  destruct Hc as [?|[-> | ->]]; [done| |]; rewrite ?(bool_decide_eq_true_2 ([] = [])) by done; cbn [mbind outcome_bind fst snd];
    by rewrite bool_decide_eq_true_2, close_eq.
Qed.

Lemma http_handle_ok ev s :
  http_ok s → kernel_ok ev s → returns (handle ev s) http_ok ∨ beyond_table ev ∨ undecodable ev s.
Proof.
  intros Hok Hk. destruct ev as [a|e r|fd recv i].
  - cbn [handle beyond_table]. destruct (decide (m_epoll_maxsize ≤ new_client_fd a)) as [?|Hin]; [by right; left|]. left.
    destruct (new_client a s) as [s'| |] eqn:E; [by eapply ok_accept|exfalso..];
      revert E; unfold new_client; (case_bool_decide; [done|]); (destruct Hk as [?|[? _]]; [done|]);
      repeat (case_bool_decide; [done|]); destruct (get_unify_tag _ _); by rewrite get_slot_eq by lia.
  - left. cbn [handle]. destruct (decide (r = -1)) as [->|Hr]; [done|].
    destruct (m_list (m_queue_send s)) as [|c l] eqn:El.
    + unfold pipe_cmd. rewrite bool_decide_eq_false_2 by done. unfold dequeue_nodelay.
      change (m_queue_send (set_pipe _ s)) with (m_queue_send s). rewrite El. by destruct Hok.
    + destruct (pipe_eq e r c l s Hok Hr El) as (s' & -> & Hs' & _). done.
  - destruct Hk as [[tag Hfd%(ok_accepted _ Hok)] Hl]. destruct (m_array_epoll_data s !! fd) as [d|] eqn:E; [|left; rewrite recv_other by auto; by apply http_ok_closed].
    destruct (ok_slot _ Hok _ _ E) as (_ & _ & Ed). destruct recv as [l| |].
    + destruct (decide (l = [])) as [->|Hne]; [left; rewrite recv_other by auto; by apply http_ok_closed|].
      rewrite (recv_eq fd d) by auto. destruct (decode_request new_packet l) as [r| |] eqn:Edec;
        [left|right; right; cbn [undecodable]; rewrite E, Edec; by repeat split..].
      cbn [mbind outcome_bind]. case_bool_decide; [by apply ok_queued|by apply http_ok_closed].
    + left. unfold handle, dealwith_recv. rewrite get_slot_eq, E by done. done.
    + left. rewrite recv_other by auto. by apply http_ok_closed.
Qed.

Lemma http_step_ok s s' : http_step s s' → http_ok s → http_ok s'.
Proof.
  intros Hs Hok. destruct Hs as [ev s s' Hk E|e c s Hc|q l s E].
  - destruct (http_handle_ok ev s Hok Hk) as [Hret|[Hb|Hu]]; [by rewrite E in Hret|by destruct ev; [eapply ok_accept|..]|].
    destruct ev as [| |fd [l| |] i]; try done. destruct Hu as (Hne & [d Ed] & Hu). destruct Hk as [[tag Hfd%(ok_accepted _ Hok)] Hl].
    destruct (ok_slot _ Hok _ _ Ed) as (_ & _ & Er). rewrite (recv_eq fd d) in E by auto.
    revert E. destruct (decode_request new_packet l) as [r| |] eqn:Edec; [by destruct (Hu r)|done..].
  - unfold submit. assert (http_ok (set_queue_send (add_queue (m_queue_send s) c) s)) as Hadd.
    { destruct Hok as [Ho Hsl Hac Hr Hcm Ht]. split; try done. cbn [set_queue_send m_queue_send m_log add_queue m_list].
      intros c'. rewrite elem_of_app, list_elem_of_singleton. intros [?| ->]; auto. }
    case_bool_decide; [done|]. by apply http_ok_set_pipe.
  - unfold dequeue_nodelay in E. destruct (m_list (m_request_queue s)) as [|q' l'] eqn:El; [done|]. injection E as -> <-.
    destruct Hok as [Ho Hsl Hac Hr Hcm Ht]. split; try done. cbn [set_requests m_request_queue m_log m_list].
    intros q' Hin. apply Hr. rewrite El. by right.
Qed.

Lemma http_reachable_ok s : reachable s → http_ok s.
Proof.
  intros Hs. eapply (rtc_ind_r http_ok); [apply http_new_server_ok| |exact Hs]. intros y z _ Hstep Hy. by eapply http_step_ok.
Qed.

(** The log only grows. *)
Lemma command_log_grows e c log : log ⊆ command_log e c log.
Proof. unfold command_log. repeat case_decide; try done; intros x Hx; apply elem_of_app; by left. Qed.

Lemma handle_log ev s s' : http_ok s → kernel_ok ev s → handle ev s = Ret s' → m_log s ⊆ m_log s'.
Proof.
  assert (∀ fd s, m_log s ⊆ m_log (closed fd s)) as Hcl by (intros fd s1 x Hx; apply elem_of_app; by left).
  intros Hok Hk E. destruct ev as [a|e r|fd recv i].
  - revert E. cbn [handle]. unfold new_client. case_bool_decide; [by intros [= <-]|]. destruct Hk as [?|[Hr _]]; [done|].
    repeat (case_bool_decide; [by intros [= <-]|]). destruct (get_unify_tag _ s) as [tag s1] eqn:Et.
    destruct (decide (m_epoll_maxsize ≤ new_client_fd a)) as [Hover|Hover]; [by rewrite get_slot_beyond|]. rewrite get_slot_eq by lia.
    intros [= <-]. injection Et as _ <-. intros x Hx. apply elem_of_app. by left.
  - revert E. cbn [handle]. destruct (decide (r = -1)) as [->|Hr]; [by intros [= <-]|].
    destruct (m_list (m_queue_send s)) as [|c l] eqn:El.
    + unfold pipe_cmd. rewrite bool_decide_eq_false_2 by done. unfold dequeue_nodelay.
      change (m_queue_send (set_pipe _ s)) with (m_queue_send s). rewrite El. by intros [= <-].
    + destruct (pipe_eq e r c l s Hok Hr El) as (s1 & -> & _ & _ & Hlog). intros [= <-]. rewrite Hlog. apply command_log_grows.
  - destruct Hk as [[tag Hfd%(ok_accepted _ Hok)] Hl]. destruct (m_array_epoll_data s !! fd) as [d|] eqn:Ed; [|rewrite recv_other in E by auto; by injection E as <-].
    destruct (ok_slot _ Hok _ _ Ed) as (_ & _ & Er). destruct recv as [l| |].
    + destruct (decide (l = [])) as [->|Hne]; [rewrite recv_other in E by auto; by injection E as <-|].
      rewrite (recv_eq fd d) in E by auto. destruct (decode_request new_packet l); [|done..]. cbn [mbind outcome_bind] in E.
      case_bool_decide; by injection E as <-.
    + unfold handle, dealwith_recv in E. rewrite get_slot_eq, Ed in E by done. by injection E as <-.
    + rewrite recv_other in E by auto. by injection E as <-.
Qed.
End http_lemmas.

(** ** Properties *)

(** C18 Under what the kernel promises, the HTTP server never does anything
    undefined in a state that it and the workers can reach, except where the
    decoder of requests itself does on what a client sent, and for a new
    connection whose descriptor is 60000 or more, for which the table has no
    slot; a registered descriptor is within the table; a client stands in
    the slot of its own descriptor, which is the one its connection holds, with
    nothing left of earlier data; every queued request and every queued command
    names a connection there has been, and no tag is given twice below 2^32
    connections. *)
Theorem http_server_safe `{Boost} `{RequestDecoderLaws} s :
  reachable s →
  (∀ ev, kernel_ok ev s → (∃ s', handle ev s = Ret s') ∨ beyond_table ev ∨ undecodable ev s) ∧
  (∀ fd tag, Accepted fd tag ∈ m_log s → 0 ≤ fd < m_epoll_maxsize) ∧
  (∀ fd, owner (m_log s) fd = data_tag <$> m_array_epoll_data s !! fd) ∧
  (∀ fd d, m_array_epoll_data s !! fd = Some d → data_fd d = fd ∧ 0 ≤ fd < m_epoll_maxsize ∧ str_data_recved d = []) ∧
  (∀ q, q ∈ m_list (m_request_queue s) → Accepted (m_clientfd q) (m_client_tag q) ∈ m_log s) ∧
  (∀ c, c ∈ m_list (m_queue_send s) → Accepted (clientfd c) (fd_unify_tag c) ∈ m_log s) ∧
  (slen (tags (m_log s)) < 2 ^ 32 → NoDup (tags (m_log s))).
Proof.
  intros Hs%http_reachable_ok. split_and!; [|by apply Hs..].
  intros ev Hk. destruct (http_handle_ok ev s Hs Hk) as [(s' & ? & _)%returns_eq|?]; eauto.
Qed.

(** C35 Whatever a live client sends in one piece is taken for one whole request:
    if it is decoded, exactly this request is queued, with the descriptor and
    the tag of the client; if not, the connection is closed.  A piece is never
    kept for the next one, although the callback has a code for it and the
    decoder reports a text without a complete line as unfinished: a piece
    without a carriage return closes the connection as well.  A first piece
    that ends behind a complete line may be decoded, and is then queued as the
    whole request ([first_piece_queued]).  An event for a descriptor without a client
    closes the descriptor again and counts one connection less. *)
Theorem http_request_whole `{Boost} `{RequestDecoderLaws} s fd i l :
  reachable s → 0 ≤ fd < m_epoll_maxsize → l ≠ [] → slen l ≤ 4096 →
  match m_array_epoll_data s !! fd with
  | Some d =>
      data_fd d = fd ∧ owner (m_log s) fd = Some (data_tag d) ∧
      handle (SocketReadable fd (Received l) i) s =
        (let! r := decode_request new_packet l in
         if bool_decide (r.1 = 0) then Ret (queued i r.2 fd d s) else Ret (closed fd s)) ∧
      ((13 ∉ l) → handle (SocketReadable fd (Received l) i) s = Ret (closed fd s)) ∧
      (∀ s', http_callback i enum_sock_data_recv (Some (l ++ [0])) (s32 (slen l)) d s ≠ Ret (HTTP_CHECK_DATA_NEEDMORE, s'))
  | None => handle (SocketReadable fd (Received l) i) s = Ret (closed fd s) ∧ get_client_count (closed fd s) = get_client_count s - 1
  end.
Proof.
  intros Hs%http_reachable_ok Hfd Hne Hl. destruct (m_array_epoll_data s !! fd) as [d|] eqn:E.
  2:{ split; [|done]. apply recv_other; auto. }
  destruct (ok_slot _ Hs _ _ E) as (Ed & _ & Er). split_and!; [done|by rewrite (ok_owner _ Hs), E|by apply recv_eq| |].
  - intros H13. rewrite (recv_eq fd d), decode_unfinished by done. done.
  - intros s'. rewrite callback_eq by lia. destruct (decode_request new_packet l) as [r| |]; [cbn [mbind outcome_bind]|done..].
    by case_bool_decide.
Qed.

(** C36 A worker answers a request with [send_data] and [close_client].  When the
    reactor takes the two commands, the connection the request came by, and no
    other, gets the text in one call and is closed, also when the call fails or
    sends less; if that connection has been closed before, nothing is sent and
    nothing closed, even if another client has its descriptor. *)
Theorem http_answer `{Boost} `{RequestDecoderLaws} s fd tag text l e1 e2 :
  reachable s →
  m_list (m_queue_send s) = EpollRtn fd tag text PIPE_CMD_SEND :: EpollRtn fd tag [] PIPE_CMD_CLOSE :: l →
  returns (epoll_turn [PipeReadable e1 1; PipeReadable e2 1] s) (λ s',
    m_list (m_queue_send s') = l ∧
    if decide (owner (m_log s) fd = Some tag) then
      m_log s' = m_log s ++ [Sent fd text (env_send e1 (m_log s) fd text); Closed fd] ∧ m_array_epoll_data s' !! fd = None
    else m_log s' = m_log s).
Proof.
  intros Hs%http_reachable_ok El. unfold epoll_turn. cbn [for_each handle].
  destruct (pipe_eq e1 1 _ _ s Hs ltac:(done) El) as (s1 & -> & Hs1 & El1 & Elog1). cbn [mbind outcome_bind].
  destruct (pipe_eq e2 1 _ _ s1 Hs1 ltac:(done) El1) as (s2 & -> & Hs2 & El2 & Elog2). cbn [mbind outcome_bind returns].
  split; [done|]. revert Elog1 Elog2. unfold command_log. cbn [clientfd fd_unify_tag cmd_type str_data_send].
  destruct (decide (owner (m_log s) fd = Some tag)) as [Ho|Ho].
  2:{ intros ->. by rewrite decide_False by done. }
  rewrite decide_True by done. rewrite (decide_False (P := PIPE_CMD_CLOSE = PIPE_CMD_SEND)), (decide_True (P := PIPE_CMD_CLOSE = PIPE_CMD_CLOSE)) by done.
  set (rc := env_send e1 (m_log s) fd text).
  assert (∀ log, m_log s2 = log ++ [Closed fd] → m_array_epoll_data s2 !! fd = None) as Hnone.
  { intros log E. pose proof (ok_owner _ Hs2 fd) as Ho2. rewrite E, owner_app in Ho2. cbn [owner_step] in Ho2.
    rewrite bool_decide_eq_true_2 in Ho2 by done. by destruct (m_array_epoll_data s2 !! fd). }
  assert (∀ log, owner (log ++ [Closed fd]) fd = None) as Hcl by (intros log; rewrite owner_app; cbn [owner_step]; by rewrite bool_decide_eq_true_2).
  assert (owner (m_log s ++ [Sent fd text rc]) fd = Some tag) as Hsent by by rewrite owner_app.
  destruct (decide (rc = -1 ∨ _)); intros E1; rewrite E1.
  - rewrite (cons_middle (Sent fd text rc)), app_assoc, Hcl, decide_False by done. rewrite <-!app_assoc. cbn [app].
    intros E2. split; [done|]. apply (Hnone (m_log s ++ [Sent fd text rc])). by rewrite <-app_assoc.
  - rewrite Hsent, decide_True by done. rewrite <-app_assoc. cbn [app]. intros E2. split; [done|].
    apply (Hnone (m_log s ++ [Sent fd text rc])). by rewrite <-app_assoc.
Qed.

(** *** Witnesses *)

(** A client on descriptor 7 sends "GET /a?u=1", and a worker answers. *)
Definition demo_iconv (s : list Z) (room : Z) : iconv_status * nat * list Z := (IconvDone, length s, s).
Definition demo_decoder : RequestDecoder := packet_decoder (H := boost_impl) demo_iconv.
#[export] Instance demo_decoder_laws : RequestDecoderLaws (H := demo_decoder) := packet_decoder_laws (H := boost_impl) demo_iconv.
Definition demo_env : environment := Env 10 (λ _ _ data, slen data) (λ _ _, 1).
Definition demo_text : list Z :=
  lines_text (request_line (str "GET") (str "/a") [(str "u", str "1")] :: map header_line [] ++ [[]]).
Definition demo_tag : Z := 7 * 2 ^ 32 + 1.
Definition demo_run (evs : list event) : httpserver :=
  match epoll_turn (H := boost_impl) (H0 := demo_decoder) evs new_server with Ret s => s | _ => new_server end.
Definition demo_accepted : httpserver := demo_run [NewConnection (AcceptResult 7 0 0 0 [])].
Definition demo_asked : httpserver :=
  demo_run [NewConnection (AcceptResult 7 0 0 0 []); SocketReadable 7 (Received demo_text) no_info].
Definition demo_answered : httpserver :=
  (close_client demo_env 7 demo_tag (send_data demo_env 7 demo_tag [1; 2] demo_asked).2).2.

Abbreviation demo_reachable := (reachable (H := boost_impl) (H0 := demo_decoder)).

Lemma demo_accepted_reachable : demo_reachable demo_accepted.
Proof.
  eapply rtc_once, (http_event (H := boost_impl) (H0 := demo_decoder) (NewConnection (AcceptResult 7 0 0 0 []))); [by right|by vm_compute].
Qed.

Lemma demo_asked_reachable : demo_reachable demo_asked.
Proof.
  eapply rtc_r; [apply demo_accepted_reachable|].
  eapply (http_event (H := boost_impl) (H0 := demo_decoder) (SocketReadable 7 (Received demo_text) no_info)); [|by vm_compute].
  split; [exists demo_tag; by left|]. intros l [= <-]. by vm_compute.
Qed.

Lemma demo_answered_reachable : demo_reachable demo_answered.
Proof.
  eapply rtc_r; [eapply rtc_r; [apply demo_asked_reachable|]|].
  - apply (http_submit (H := boost_impl) (H0 := demo_decoder) demo_env (EpollRtn 7 demo_tag [1; 2] PIPE_CMD_SEND)).
    by apply (bool_decide_unpack _); vm_compute.
  - apply (http_submit (H := boost_impl) (H0 := demo_decoder) demo_env (EpollRtn 7 demo_tag [] PIPE_CMD_CLOSE)).
    by apply (bool_decide_unpack _); vm_compute.
Qed.

Lemma http_server_safe_witness :
  (∃ s', handle (H := boost_impl) (H0 := demo_decoder) (PipeReadable demo_env 1) demo_answered = Ret s') ∨
  beyond_table (PipeReadable demo_env 1) ∨ undecodable (H0 := demo_decoder) (PipeReadable demo_env 1) demo_answered.
Proof. refine (proj1 (http_server_safe (H := boost_impl) (H0 := demo_decoder) demo_answered demo_answered_reachable) _ _). done. Defined.

Lemma http_request_whole_witness :
  handle (H := boost_impl) (H0 := demo_decoder) (SocketReadable 7 (Received (str "GET /a?u=1 HTT")) no_info) demo_accepted = Ret (closed 7 demo_accepted).
Proof.
  pose proof (http_request_whole (H := boost_impl) (H0 := demo_decoder) demo_accepted 7 no_info (str "GET /a?u=1 HTT") demo_accepted_reachable
    ltac:(done) ltac:(done) ltac:(by vm_compute)) as Hw.
  change (m_array_epoll_data demo_accepted !! 7) with (Some (EpollData 7 demo_tag [])) in Hw.
  refine (proj1 (proj2 (proj2 (proj2 Hw))) _). by apply (bool_decide_unpack _); vm_compute.
Defined.

Lemma http_answer_witness :
  returns (epoll_turn (H := boost_impl) (H0 := demo_decoder) [PipeReadable demo_env 1; PipeReadable demo_env 1] demo_answered) (λ s',
    m_list (m_queue_send s') = [] ∧
    if decide (owner (m_log demo_answered) 7 = Some demo_tag) then
      m_log s' = m_log demo_answered ++ [Sent 7 [1; 2] (env_send demo_env (m_log demo_answered) 7 [1; 2]); Closed 7] ∧
      m_array_epoll_data s' !! 7 = None
    else m_log s' = m_log demo_answered).
Proof. refine (http_answer (H := boost_impl) (H0 := demo_decoder) demo_answered 7 demo_tag [1; 2] [] demo_env demo_env demo_answered_reachable _). by vm_compute. Defined.

(** The first piece of a request whose head and body are still to come: the line
    alone is decoded, the request is queued, and what follows is taken for
    another request, which closes the connection. *)
Lemma first_piece_queued :
  let first := str "GET /a?u=1 HTTP/1.1" ++ [13; 10] in
  let rest := str "Host: b" ++ [13; 10; 13; 10] in
  returns (epoll_turn (H := boost_impl) (H0 := demo_decoder)
      [NewConnection (AcceptResult 7 0 0 0 []); SocketReadable 7 (Received first) no_info] new_server) (λ s,
    length (m_list (m_request_queue s)) = 1%nat ∧ owner (m_log s) 7 = Some demo_tag ∧
    returns (handle (H := boost_impl) (H0 := demo_decoder) (SocketReadable 7 (Received rest) no_info) s) (λ s',
      length (m_list (m_request_queue s')) = 1%nat ∧ last (m_log s') = Some (Closed 7))).
Proof. vm_compute. repeat split. Qed.
