(* ===== verification/Redis.v ===== *)
(** * What a client of Redis promises

    The interface between the dispatcher ([Dispatcher.v]) and the clients of
    Redis ([RedisClient.v]), and a simple implementation, a set of keys. *)

From Stdlib Require Import String.
From S2P Require Import Prelude Text.

(** The operations of the client with the address [loc], on a state [K] of all the
    clients and the server; [stored] are the keys the server has, [redis_ok] is
    what every operation keeps. *)
Class RedisClients (K : Type) : Type := {
  redis_set_value : loc → list Z → list Z → K → outcome (Z * K);
  redis_get_value : loc → list Z → K → outcome (Z * list Z * K);
  redis_del_value : loc → list Z → K → outcome (Z * K);
  redis_set_expire : loc → list Z → Z → K → outcome (Z * K);
  stored : K → gset (list Z);
  redis_ok : K → Prop;
}.

(** Keys end at their first zero byte.  Keys may expire at any time; an
    operation that fails may have been executed or not.  An operation completes
    unless a [%] (37) is in its texts. *)
Class RedisLaws (K : Type) `{RedisClients K} : Prop := {
  set_value_stored c k v s r s' : redis_ok s → redis_set_value c k v s = Ret (r, s') → redis_ok s' ∧ stored s' ⊆ {[ c_string k ]} ∪ stored s;
  get_value_stored c k s r v s' :
    redis_ok s → redis_get_value c k s = Ret (r, v, s') → redis_ok s' ∧ stored s' ⊆ stored s ∧ (r = 1 → c_string k ∈ stored s);
  del_value_stored c k s r s' :
    redis_ok s → redis_del_value c k s = Ret (r, s') → redis_ok s' ∧ stored s' ⊆ stored s ∧ (0 ≤ r → c_string k ∉ stored s');
  set_expire_stored c k t s r s' : redis_ok s → redis_set_expire c k t s = Ret (r, s') → redis_ok s' ∧ stored s' ⊆ stored s;
  set_value_returns c k v s : redis_ok s → (37 ∉ k ++ v) → ∃ r s', redis_set_value c k v s = Ret (r, s');
  get_value_returns c k s : redis_ok s → (37 ∉ k) → ∃ r v s', redis_get_value c k s = Ret (r, v, s');
  del_value_returns c k s : redis_ok s → (37 ∉ k) → ∃ r s', redis_del_value c k s = Ret (r, s');
  set_expire_returns c k t s : redis_ok s → (37 ∉ k) → ∃ r s', redis_set_expire c k t s = Ret (r, s');
}.

(** ** An implementation: a set of keys *)
#[export] Instance key_set : RedisClients (gset (list Z)) := {
  redis_set_value c k v s := Ret (0, {[ c_string k ]} ∪ s);
  redis_get_value c k s := Ret (if decide (c_string k ∈ s) then (1, str "0") else (0, []), s);
  redis_del_value c k s := Ret (if decide (c_string k ∈ s) then 1 else 0, s ∖ {[ c_string k ]});
  redis_set_expire c k t s := Ret (1, s);
  stored s := s;
  redis_ok s := True;
}.

#[export] Instance key_set_laws : RedisLaws (gset (list Z)).
Proof.
  split; cbn [redis_set_value redis_get_value redis_del_value redis_set_expire key_set stored redis_ok].
  - intros c k v s r s' _ [= <- <-]. done.
  - intros c k s r v s' _. case_decide; intros E; simplify_eq; done.
  - intros c k s r s' _. case_decide; intros E; simplify_eq; set_solver.
  - intros c k t s r s' _ [= <- <-]. done.
  - by eexists _, _.
  - intros. case_decide; by eexists _, _, _.
  - intros. case_decide; by eexists _, _.
  - by eexists _, _.
Qed.
