(* ===== verification/Hiredis.v ===== *)
(** * The interface of hiredis, and the commands of Redis

    The replies, and the functions that the clients of Redis of the adapter and of
    the touch server call; and what is documented of the commands that they send.
    Neither hiredis nor Redis is in the repository: what each client relies on
    is stated as laws in its own file. *)

From Stdlib Require Import String.
From S2P Require Import Prelude Text.

#[local] Set Warnings "-register-all".

(** [redisReply]: [len] is the length of [str], [elements] that of [element]. *)
Inductive redisReply : Type :=
  | Reply (type integer : Z) (reply_str : option (list Z)) (element : list (option redisReply)).

Definition REDIS_REPLY_STRING : Z := 1.
Definition REDIS_REPLY_ARRAY : Z := 2.
Definition REDIS_REPLY_INTEGER : Z := 3.
Definition REDIS_REPLY_NIL : Z := 4.
Definition REDIS_REPLY_STATUS : Z := 5.
Definition REDIS_REPLY_ERROR : Z := 6.

(** [C] are the contexts, [W] is the rest of the world.  A command is the list of
    its words; [redisAppendFormat] is [redisAppendCommand] with a format and no
    other argument. *)
Class Hiredis (C W : Type) : Type := {
  err : C → Z;
  obuf : C → list Z;
  redisConnectWithTimeout : list Z → Z → Z → W → option C * W;
  redisFree : C → W → W;
  redisAppendCommand : C → list (list Z) → Z * C;
  redisAppendFormat : C → list Z → outcome (Z * C);
  redisGetReply : C → W → Z * option redisReply * C * W;
  redisCommand : C → list (list Z) → W → option redisReply * C * W;
}.

(** [MY_LOGERROR] of a [char *], which must not be null. *)
Definition log_text (s : option (list Z)) : outcome unit := match s with Some _ => Ret tt | None => Stuck end.

(** Replies of the usual kinds. *)
Definition status (text : list Z) : redisReply := Reply REDIS_REPLY_STATUS 0 (Some text) [].
Definition number (n : Z) : redisReply := Reply REDIS_REPLY_INTEGER n None [].
Definition texts (l : list (list Z)) : list (option redisReply) := (λ t, Some (Reply REDIS_REPLY_STRING 0 (Some t) [])) <$> l.

(** ** What is documented of the commands *)

(** What is at a key, and the number of seconds that was given for it to live. *)
Inductive entry : Type :=
  | Text (v : list Z)
  | Members (l : gset (list Z))
  | Fields (h : gmap (list Z) (list Z)).
Abbreviation keyspace := (gmap (list Z) (entry * option Z)).

Abbreviation at_key k e t K := (K !! k = Some (e, t)).

(** The answer of a hash: names and values in turn. *)
Definition flat (ps : list (list Z * list Z)) : list (list Z) := mjoin ((λ p, [p.1; p.2]) <$> ps).

(** [serves cmd K K' x]: the server has [K] when the command is sent and [K'] when
    the reply [x] is there.  A key may expire, and is gone then, at any time between
    the two; the server may refuse any command, and refuses those it does not
    know and those for another kind of entry. *)
Inductive serves : list (list Z) → keyspace → keyspace → redisReply → Prop :=
  | serves_error cmd K K' text : K' ⊆ K → serves cmd K K' (Reply REDIS_REPLY_ERROR 0 (Some text) [])
  | serves_set k v K K' :
      delete k K' ⊆ K → (∀ x, K' !! k = Some x → x = (Text v, None)) → serves [str "SET"; k; v] K K' (status (str "OK"))
  | serves_setex k t v K K' :
      delete k K' ⊆ K → (∀ x, K' !! k = Some x → x = (Text v, Some (parse_dec t))) →
      serves [str "SETEX"; k; t; v] K K' (status (str "OK"))
  | serves_get k v t K K' : K' ⊆ K → at_key k (Text v) t K → serves [str "GET"; k] K K' (Reply REDIS_REPLY_STRING 0 (Some v) [])
  | serves_get_nil k K K' : K' ⊆ K → K' !! k = None → serves [str "GET"; k] K K' (Reply REDIS_REPLY_NIL 0 None [])
  | serves_del k K K' n :
      K' ⊆ K → K' !! k = None → 0 ≤ n ≤ 1 → (n = 1 → is_Some (K !! k)) → serves [str "DEL"; k] K K' (number n)
  | serves_expire k t K K' n :
      delete k K' ⊆ K → 0 ≤ n ≤ 1 → (n = 0 → K' !! k = None) → (n = 1 → is_Some (K !! k)) →
      (∀ e t', at_key k e t' K' → t' = Some (parse_dec t) ∧ ∃ t0, at_key k e t0 K) →
      serves [str "EXPIRE"; k; t] K K' (number n)
  | serves_incrby k d K K' n :
      delete k K' ⊆ K → (∀ e t, at_key k e t K' → ∃ v, e = Text v) → serves [str "INCRBY"; k; d] K K' (number n)
  | serves_sadd k v K K' n :
      delete k K' ⊆ K → 0 ≤ n ≤ 1 → (n = 0 → ∃ l t, at_key k (Members l) t K ∧ v ∈ l) →
      (∀ e t, at_key k e t K' → ∃ l, e = Members ({[ v ]} ∪ l) ∧ (at_key k (Members l) t K ∨ l = ∅ ∧ t = None)) →
      serves [str "SADD"; k; v] K K' (number n)
  | serves_srem k v K K' n :
      delete k K' ⊆ K → 0 ≤ n ≤ 1 → (n = 1 → ∃ l t, at_key k (Members l) t K ∧ v ∈ l) →
      (∀ e t, at_key k e t K' → ∃ l, e = Members (l ∖ {[ v ]}) ∧ at_key k (Members l) t K) →
      serves [str "SREM"; k; v] K K' (number n)
  | serves_sismember k v K K' n :
      K' ⊆ K → n = 1 ∧ (∃ l t, at_key k (Members l) t K ∧ v ∈ l) ∨ n = 0 ∧ (∀ l t, at_key k (Members l) t K' → v ∉ l) →
      serves [str "SISMEMBER"; k; v] K K' (number n)
  | serves_smembers k l K K' :
      K' ⊆ K → NoDup l → l = [] ∧ K' !! k = None ∨ l ≠ [] ∧ (∃ t, at_key k (Members (list_to_set l)) t K) →
      serves [str "SMEMBERS"; k] K K' (Reply REDIS_REPLY_ARRAY 0 None (texts l))
  | serves_hset k f v K K' n :
      delete k K' ⊆ K → 0 ≤ n ≤ 1 → (n = 0 → ∃ h t, at_key k (Fields h) t K ∧ is_Some (h !! f)) →
      (∀ e t, at_key k e t K' → ∃ h, e = Fields (<[f := v]> h) ∧ (at_key k (Fields h) t K ∨ h = ∅ ∧ t = None)) →
      serves [str "HSET"; k; f; v] K K' (number n)
  | serves_hdel k f K K' n :
      delete k K' ⊆ K → 0 ≤ n ≤ 1 → (n = 1 → ∃ h t, at_key k (Fields h) t K ∧ is_Some (h !! f)) →
      (∀ e t, at_key k e t K' → ∃ h, e = Fields (delete f h) ∧ at_key k (Fields h) t K) →
      serves [str "HDEL"; k; f] K K' (number n)
  | serves_hget k f v h t K K' :
      K' ⊆ K → at_key k (Fields h) t K → h !! f = Some v →
      serves [str "HGET"; k; f] K K' (Reply REDIS_REPLY_STRING 0 (Some v) [])
  | serves_hget_nil k f K K' :
      K' ⊆ K → (∀ h t, at_key k (Fields h) t K' → h !! f = None) →
      serves [str "HGET"; k; f] K K' (Reply REDIS_REPLY_NIL 0 None [])
  | serves_hgetall k ps K K' :
      K' ⊆ K → NoDup ps.*1 → ps = [] ∧ K' !! k = None ∨ ps ≠ [] ∧ (∃ t, at_key k (Fields (list_to_map ps)) t K) →
      serves [str "HGETALL"; k] K K' (Reply REDIS_REPLY_ARRAY 0 None (texts (flat ps))).

(** ** Lemmas *)

(** More may have been there before. *)
Lemma serves_weaken cmd K1 K2 K3 x : K2 ⊆ K1 → serves cmd K2 K3 x → serves cmd K1 K3 x.
Proof.
  intros Hs Hx. assert (∀ k y, K2 !! k = Some y → K1 !! k = Some y) as Hl by (intros k y E; by eapply lookup_weaken).
  assert (∀ k, is_Some (K2 !! k) → is_Some (K1 !! k)) as Hi by (intros k [y E]; eexists; by apply Hl).
  destruct Hx; econstructor; try done; try (by etransitivity); try (by apply Hl); try (by eauto).
  all: naive_solver.
Qed.

(** Only the key that a command names changes, apart from those that expire. *)
Lemma serves_elsewhere name k l K K' x : serves (name :: k :: l) K K' x → delete k K' ⊆ K.
Proof.
  intros Hx. assert (K' ⊆ K → delete k K' ⊆ K) as Hd by (intros ?; etransitivity; [apply delete_subseteq|done]).
  inversion Hx; subst; auto.
Qed.

(** The numbers that most commands answer. *)
Lemma s32_bit n : 0 ≤ n ≤ 1 → s32 n = n.
Proof. intros Hn. apply sw_id; [done|]. change (2 ^ (32 - 1)) with 2147483648. lia. Qed.

Lemma flat_length ps : (length (flat ps) mod 2 = 0)%nat.
Proof.
  assert (length (flat ps) = length ps * 2)%nat as ->; [|by apply Nat.Div0.mod_mul].
  induction ps as [|[f v] ps IH]; [done|]. change (flat ((f, v) :: ps)) with (f :: v :: flat ps). cbn [length]. by rewrite IH.
Qed.
