(* ===== verification/RedisClient.v ===== *)
(** * The client of Redis ([notify_adapter_v2/src/main/redis_client.cpp])

    hiredis is behind the class [Hiredis] of [Hiredis.v]; [HiredisLaws] states what is
    documented of it and of the server.  The client reconnects by itself:
    [check_connection] and [selectdb] call each other, with a depth as fuel. *)

From Stdlib Require Import String.
From stdpp Require Import functions.
From S2P Require Import Prelude Text Utility Config Redis Hiredis.

(** ** Definitions *)
Definition REDIS_REPLY_STATUS_OK : list Z := str "OK".
Definition REDIS_CMD_EXPIRE : list Z := str "EXPIRE".
Definition REDIS_CMD_GET : list Z := str "GET".
Definition REDIS_CMD_SET : list Z := str "SET".
Definition REDIS_CMD_DEL : list Z := str "DEL".
Definition REDIS_CMD_SADD : list Z := str "SADD".
Definition REDIS_CMD_SMEMBER : list Z := str "SMEMBERS".
Definition REDIS_CMD_SREM : list Z := str "SREM".
Definition REDIS_CMD_SELECT : list Z := str "SELECT".
Definition REDIS_CMD_FLUSHDB : list Z := str "FLUSHDB".

Record Redis_Field : Type := RedisField { field : list Z; field_value : list Z }.

Record redis_client (C : Type) : Type := RedisClient { m_redis_context : option C; m_default_db : Z }.
Arguments RedisClient {C}. Arguments m_redis_context {C}. Arguments m_default_db {C}.

(** [INIT_REDIS_CLIENT]: the address, the port and the two numbers of seconds. *)
Definition INIT_REDIS_CLIENT (config : list item) : outcome (list Z * Z * Z * Z) :=
  let m_redis_ip := getString config (str "redis_server_ip") (str "127.0.0.1") in
  let! m_redis_port := getInt config (str "redis_server_port") 6379 in
  let! m_timeout_seconds := getInt config (str "timeout_seconds") 10 in
  let! m_expire_seconds := getInt config (str "expire_seconds") 20000 in
  Ret (m_redis_ip, m_redis_port, m_timeout_seconds, m_expire_seconds).

Section client.
Context {C W : Type} `{Hiredis C W} `{Boost}.
Context (m_redis_ip : list Z) (m_redis_port m_timeout_seconds m_expire_seconds : Z).
(** Whether messages for debugging are written. *)
Context (debug : bool).

Definition state : Type := redis_client C * W.

Definition set_context (c : option C) (s : state) : state := (RedisClient c (m_default_db s.1), s.2).
Definition set_default_db (db : Z) (s : state) : state := (RedisClient (m_redis_context s.1) db, s.2).

(** A new connection. *)
Definition connect (s : state) : Z * state :=
  let (c, w) := redisConnectWithTimeout (c_string m_redis_ip) m_redis_port m_timeout_seconds s.2 in
  let s := (RedisClient c (m_default_db s.1), w) in
  match c with
  | None => (-1, s)
  | Some c => if bool_decide (err c ≠ 0) then (-1, s) else (0, s)
  end.

Definition free_context (c : C) (s : state) : state := (s.1, redisFree c s.2).

Definition is_cmd_send_out (c : C) : bool :=
  let str_outbuffer := c_string (obuf c) in bool_decide (str_outbuffer = []).

(** The first half of [commit_cmd]: a connection that has been lost is made
    again, and what was to be sent is appended. *)
Definition resend (ppreply : option redisReply) (c : C) (s : state) : outcome (Z * option redisReply * state + state) :=
  if bool_decide (err c ≠ 0) then
    let str_outbuffer := c_string (obuf c) in
    let (result, s) := connect (free_context c s) in
    if bool_decide (result = -1) then Ret (inl (-1, None, s))
    else
      match m_redis_context s.1 with
      | None => Stuck
      | Some c =>
          let! r := redisAppendFormat c str_outbuffer in
          let s := set_context (Some r.2) s in
          if bool_decide (r.1 ≠ 0) then Ret (inl (-1, ppreply, s)) else Ret (inr s)
      end
  else Ret (inr s).

Definition commit_result (reply : option redisReply) : Z := match reply with None => -1 | Some _ => 0 end.

(** The second half. *)
Definition receive (ppreply : option redisReply) (s : state) : outcome (Z * option redisReply * state) :=
  match m_redis_context s.1 with
  | None => Stuck
  | Some c =>
      if is_cmd_send_out c then Ret (commit_result ppreply, ppreply, s)
      else
        let '(result, reply, c, w) := redisGetReply c s.2 in
        let s := (RedisClient (Some c) (m_default_db s.1), w) in
        if bool_decide (result ≠ 0) then Ret (-1, reply, s) else Ret (commit_result reply, reply, s)
  end.

(** The result, [*ppreply] and the state. *)
Definition commit_cmd (ppreply : option redisReply) (s : state) : outcome (Z * option redisReply * state) :=
  match m_redis_context s.1 with
  | None => Ret (-1, None, s)
  | Some c =>
      let! r := resend ppreply c s in
      match r with
      | inl r => Ret r
      | inr s => receive ppreply s
      end
  end.

(** What the operations do between [check_connection] and the reply; [None]:
    they return -1. *)
Definition request (cmd : list (list Z)) (s : state) : outcome (option redisReply * state) :=
  match m_redis_context s.1 with
  | None => Ret (None, s)
  | Some c =>
      let (result, c) := redisAppendCommand c cmd in
      let s := set_context (Some c) s in
      if bool_decide (result ≠ 0) then Ret (None, s)
      else
        let! r := commit_cmd None s in
        let '(result, reply, s) := (r : Z * option redisReply * state) in
        if bool_decide (result = -1) && bool_decide (is_Some reply) then Ret (None, s) else Ret (reply, s)
  end.

(** [check], and then [k] if there is a connection. *)
Definition with_connection {A} (check : state → outcome (Z * state)) (k : state → outcome (option A * state)) (s : state)
    : outcome (option A * state) :=
  let! r := check s in
  let (result, s) := (r : Z * state) in
  if bool_decide (result = -1) then Ret (None, s)
  else match m_redis_context s.1 with
  | None => Ret (None, s)
  | Some _ => k s
  end.

Fixpoint check_connection (depth : nat) (s : state) : outcome (Z * state) :=
  match depth with
  | O => Loop
  | S depth =>
      let! r :=
        match m_redis_context s.1 with
        | None =>
            let (result, s) := connect s in
            if bool_decide (result = -1) then Ret (inl s)
            else let! r := selectdb depth (m_default_db s.1) s in Ret (inr r.2)
        | Some _ => Ret (inr s)
        end in
      match r with
      | inl s => Ret (-1, s)
      | inr s =>
          match m_redis_context s.1 with
          | None => Stuck
          | Some c =>
              if bool_decide (err c ≠ 0) then
                let (result, s) := connect (free_context c s) in
                if bool_decide (result = -1) then Ret (-1, s)
                else let! r := selectdb depth (m_default_db s.1) s in Ret (0, r.2)
              else Ret (0, s)
          end
      end
  end
with selectdb (depth : nat) (db : Z) (s : state) : outcome (Z * state) :=
  match depth with
  | O => Loop
  | S depth =>
      let s := set_default_db db s in
      let! r :=
        with_connection (check_connection depth)
          (with_connection (check_connection depth) (request [REDIS_CMD_SELECT; print_dec db])) s in
      match r.1 with
      | None => Ret (-1, r.2)
      | Some _ => Ret (0, r.2)
      end
  end.

(** Four calls deep is as deep as they get. *)
Definition depth : nat := 4.

Definition ask (cmd : list (list Z)) : state → outcome (option redisReply * state) :=
  with_connection (check_connection depth) (request cmd).

(** The constructors; the context is read even if it is null. *)
Definition new_redis_client (w : W) : outcome state :=
  let (c, w) := redisConnectWithTimeout (c_string m_redis_ip) m_redis_port m_timeout_seconds w in
  match c with
  | None => Stuck
  | Some c => Ret (RedisClient (Some c) 0, w)
  end.
Definition new_redis_client_db (defaultdb : Z) (w : W) : outcome state :=
  let! s := new_redis_client w in
  let! r := selectdb depth defaultdb (set_default_db defaultdb s) in
  Ret r.2.

Definition set_value (str_key str_value : list Z) (s : state) : outcome (Z * state) :=
  let! r := ask [REDIS_CMD_SET; c_string str_key; c_string str_value] s in
  match r.1 with
  | None => Ret (-1, r.2)
  | Some (Reply type _ reply_str _) =>
      if bool_decide (type ≠ REDIS_REPLY_STATUS) then let! _ := log_text reply_str in Ret (-1, r.2)
      else match reply_str with
      | None => Ret (-1, r.2)
      | Some text =>
          if bool_decide (text = []) then Ret (-1, r.2)
          else
            let str_reply := boost_trim (c_string text) in
            if bool_decide (str_reply ≠ REDIS_REPLY_STATUS_OK) then Ret (-1, r.2) else Ret (0, r.2)
      end
  end.

(** The result, [str_value] as it is left, and the state. *)
Definition get_value (str_key str_value : list Z) (s : state) : outcome (Z * list Z * state) :=
  let! r := ask [REDIS_CMD_GET; c_string str_key] s in
  match r.1 with
  | None => Ret (-1, str_value, r.2)
  | Some (Reply type _ reply_str _) =>
      if bool_decide (type ≠ REDIS_REPLY_STRING) then
        if bool_decide (type = REDIS_REPLY_NIL) then Ret (0, str_value, r.2)
        else let! _ := log_text reply_str in Ret (-1, str_value, r.2)
      else match reply_str with
      | None => Ret (-1, str_value, r.2)
      | Some text => if bool_decide (text = []) then Ret (-1, str_value, r.2) else Ret (1, c_string text, r.2)
      end
  end.

Definition set_value_set (str_key str_value : list Z) (s : state) : outcome (Z * state) :=
  let! r := ask [REDIS_CMD_SADD; c_string str_key; c_string str_value] s in
  match r.1 with
  | None => Ret (-1, r.2)
  | Some (Reply type _ _ _) => if bool_decide (type ≠ REDIS_REPLY_INTEGER) then Ret (-1, r.2) else Ret (0, r.2)
  end.

(** An element that is null, or has no text, has [reply] set to null; the loop
    reads it next. *)
Fixpoint collect (element : list (option redisReply)) (vec : list (list Z)) : outcome (list (list Z)) :=
  match element with
  | [] => Ret vec
  | Some (Reply _ _ (Some text) _) :: element => collect element (vec ++ [c_string text])
  | _ :: _ => Stuck
  end.

Definition get_value_set (str_key : list Z) (vec : list (list Z)) (s : state) : outcome (Z * list (list Z) * state) :=
  let! r := ask [REDIS_CMD_SMEMBER; c_string str_key] s in
  match r.1 with
  | None => Ret (-1, vec, r.2)
  | Some (Reply type _ reply_str element) =>
      if bool_decide (type ≠ REDIS_REPLY_ARRAY) then
        let! _ := if bool_decide (type = REDIS_REPLY_ERROR) then log_text reply_str else Ret tt in
        Ret (-1, vec, r.2)
      else if bool_decide (element = []) then Ret (0, vec, r.2)
      else
        let! vec := collect element vec in
        Ret (s32 (slen vec), vec, r.2)
  end.

Definition del_value_set (str_key str_value : list Z) (s : state) : outcome (Z * state) :=
  let! r := ask [REDIS_CMD_SREM; c_string str_key; c_string str_value] s in
  match r.1 with
  | None => Ret (-1, r.2)
  | Some _ => Ret (0, r.2)
  end.

(** The integer of a reply, or -1. *)
Definition integer_of (reply : option redisReply) : Z :=
  match reply with
  | Some (Reply type integer _ _) => if bool_decide (type ≠ REDIS_REPLY_INTEGER) then -1 else s32 integer
  | None => -1
  end.

Definition set_expire (str_key : list Z) (expire_second : Z) (s : state) : outcome (Z * state) :=
  let expire_second := if bool_decide (expire_second = 0) then m_expire_seconds else expire_second in
  let! r := ask [REDIS_CMD_EXPIRE; c_string str_key; c_string (format_int expire_second)] s in
  Ret (integer_of r.1, r.2).

Definition del_value (str_key : list Z) (s : state) : outcome (Z * state) :=
  let! r := ask [REDIS_CMD_DEL; c_string str_key] s in
  Ret (integer_of r.1, r.2).

Definition flushdb (s : state) : outcome (Z * state) :=
  let! r := with_connection (check_connection depth) (ask [REDIS_CMD_FLUSHDB]) s in
  match r.1 with
  | None => Ret (-1, r.2)
  | Some _ => Ret (0, r.2)
  end.

(** [redisCommand] and [commit_cmd] behind it, which sends nothing any more. *)
Definition command (cmd : list (list Z)) (s : state) : outcome (option redisReply * state) :=
  match m_redis_context s.1 with
  | None => Stuck
  | Some c =>
      let '(reply, c, w) := redisCommand c cmd s.2 in
      let s := (RedisClient (Some c) (m_default_db s.1), w) in
      match reply with
      | None => Ret (None, s)
      | Some _ =>
          let! r := commit_cmd reply s in
          let '(result, reply, s) := (r : Z * option redisReply * state) in
          if bool_decide (result = -1) && bool_decide (is_Some reply) then Ret (None, s) else Ret (reply, s)
      end
  end.

(** The loop of [set_hash_value_set]; a message for debugging reads the reply that
    has just been freed. *)
Fixpoint set_fields (str_key : list Z) (str_value_list : list Redis_Field) (s : state) : outcome (Z * state) :=
  match str_value_list with
  | [] => Ret (0, s)
  | it :: str_value_list =>
      let! r := command [str "HSET"; c_string str_key; c_string (field it); c_string (field_value it)] s in
      match r.1 with
      | None => Ret (-1, r.2)
      | Some (Reply type _ _ _) =>
          if bool_decide (type ≠ REDIS_REPLY_INTEGER) then Ret (-1, r.2)
          else if debug then Stuck
          else set_fields str_key str_value_list r.2
      end
  end.

Definition set_hash_value_set (str_key : list Z) (str_value_list : list Redis_Field) (s : state) : outcome (Z * state) :=
  let! r :=
    with_connection (check_connection depth) (λ s,
      let! r := set_fields str_key str_value_list s in
      Ret (if bool_decide (r.1 = -1) then None else Some tt, r.2)) s in
  match r.1 with
  | None => Ret (-1, r.2)
  | Some _ => let! r := set_expire str_key 0 r.2 in Ret (0, r.2)
  end.

(** The loop of [get_hash_value_set]: whether it got through, and the list. *)
Fixpoint get_fields (element : list (option redisReply)) (str_value_list : list Redis_Field) : bool * list Redis_Field :=
  match element with
  | Some (Reply _ _ (Some name) _) :: Some (Reply _ _ (Some value) _) :: element =>
      get_fields element (str_value_list ++ [RedisField (c_string name) (c_string value)])
  | [] => (true, str_value_list)
  | _ => (false, str_value_list)
  end.

Definition get_hash_value_set (str_key : list Z) (str_value_list : list Redis_Field) (s : state)
    : outcome (Z * list Redis_Field * state) :=
  let! r := with_connection (check_connection depth) (command [str "HGETALL"; c_string str_key]) s in
  match r.1 with
  | None => Ret (-1, str_value_list, r.2)
  | Some (Reply type _ _ element) =>
      if bool_decide (type ≠ REDIS_REPLY_ARRAY) then Ret (-1, str_value_list, r.2)
      else if bool_decide (element = []) then Ret (0, str_value_list, r.2)
      else if bool_decide (length element `mod` 2 ≠ 0)%nat then Ret (-1, str_value_list, r.2)
      else
        let (whole, str_value_list) := get_fields element str_value_list in
        if whole then
          let! r := set_expire str_key 0 r.2 in
          Ret (0, str_value_list, r.2)
        else Ret (-1, str_value_list, r.2)
  end.
End client.

(** ** What is documented of hiredis and the server *)

(** The databases of the server. *)
Abbreviation databases := (Z → keyspace).

(** Keys expire. *)
Definition expired (D D' : databases) : Prop := ∀ d, D' d ⊆ D d.

(** The server executes a command of a connection that works on the database
    [d], and on [d'] from then on. *)
Inductive served : list (list Z) → Z → Z → databases → databases → redisReply → Prop :=
  | served_key cmd d D D' x : serves cmd (D d) (D' d) x → (∀ d', d' ≠ d → D' d' ⊆ D d') → served cmd d d D D' x
  | served_select t d D D' :
      expired D D' → Forall (λ c, isdigit c = true) t → served [REDIS_CMD_SELECT; t] d (dec_value 0 t) D D' (status REDIS_REPLY_STATUS_OK)
  | served_flushdb d D D' : expired D D' → D' d = ∅ → served [REDIS_CMD_FLUSHDB] d d D D' (status REDIS_REPLY_STATUS_OK).

(** What a command may do when no reply comes. *)
Definition tried (cmd : list (list Z)) (d : Z) (D D' : databases) : Prop :=
  expired D D' ∨ ∃ d' x, served cmd d d' D D' x.

(** The text of a command in the protocol. *)
Definition resp_word (w : list Z) : list Z := 36 :: print_dec (slen w) ++ [13; 10] ++ w ++ [13; 10].
Definition resp (cmd : list (list Z)) : list Z := 42 :: print_dec (slen cmd) ++ [13; 10] ++ mjoin (resp_word <$> cmd).

(** The words of a format without arguments: a space ends a word, [%%] stands for
    [%], and so does a [%] at the end; any other [%] takes an argument. *)
Fixpoint format_words (cur text : list Z) : option (list (list Z)) :=
  match text with
  | [] => Some (if bool_decide (cur = []) then [] else [cur])
  | c :: text =>
      if bool_decide (c = 32) then
        if bool_decide (cur = []) then format_words [] text else cons cur <$> format_words [] text
      else if bool_decide (c = 37) then
        match text with
        | [] => Some [cur ++ [37]]
        | c2 :: text' => if bool_decide (c2 = 37) then format_words (cur ++ [37]) text' else None
        end
      else format_words (cur ++ [c]) text
  end.

(** [pending]: the commands that have been appended and not been answered;
    [session]: the database the connection works on. *)
Class RedisServer (C W : Type) : Type := {
  pending : C → list (list (list Z));
  session : C → Z;
  database : W → databases;
}.

Class HiredisLaws (C W : Type) `{Hiredis C W} `{RedisServer C W} : Prop := {
  connect_law ip port timeout w c w' :
    redisConnectWithTimeout ip port timeout w = (c, w') →
    expired (database w) (database w') ∧ ∀ c', c = Some c' → err c' = 0 → obuf c' = [] ∧ pending c' = [] ∧ session c' = 0;
  free_law c w : expired (database w) (database (redisFree c w));
  append_law c cmd r c' :
    redisAppendCommand c cmd = (r, c') →
    r = 0 ∧ err c' = err c ∧ obuf c' = obuf c ++ resp cmd ∧ pending c' = pending c ++ [cmd] ∧ session c' = session c ∨
    r ≠ 0 ∧ err c' ≠ 0 ∧ obuf c' = obuf c;
  format_law c text :
    redisAppendFormat c text =
    match format_words [] text with Some cmd => Ret (redisAppendCommand c cmd) | None => Stuck end;
  reply_law c w cmd r reply c' w' :
    redisGetReply c w = (r, reply, c', w') → err c = 0 → pending c = [cmd] →
    (r = 0 ∧ err c' = 0 ∧ obuf c' = [] ∧ pending c' = [] ∧
      ∃ x, reply = Some x ∧ served cmd (session c) (session c') (database w) (database w') x) ∨
    (r ≠ 0 ∧ reply = None ∧ err c' ≠ 0 ∧ (∃ sent, obuf c = sent ++ obuf c') ∧ tried cmd (session c) (database w) (database w'));
  command_law c w cmd reply c' w' :
    redisCommand c cmd w = (reply, c', w') → err c = 0 → pending c = [] → obuf c = [] →
    (reply = None ∧ err c' ≠ 0 ∧ tried cmd (session c) (database w) (database w')) ∨
    (err c' = 0 ∧ obuf c' = [] ∧ pending c' = [] ∧
      ∃ x, reply = Some x ∧ served cmd (session c) (session c') (database w) (database w') x);
}.

(** ** Lemmas *)

(** *** Formats *)
Lemma format_words_app t cur text : (32 ∉ t) → (37 ∉ t) → format_words cur (t ++ text) = format_words (cur ++ t) text.
Proof.
  revert cur. induction t as [|c t IH]; intros cur; [by rewrite app_nil_r|].
  intros [H1 H2]%not_elem_of_cons [H3 H4]%not_elem_of_cons. cbn [app format_words].
  rewrite (bool_decide_eq_false_2 (c = 32)), (bool_decide_eq_false_2 (c = 37)) by done. by rewrite IH, <-app_assoc.
Qed.

Lemma format_words_head cur text ws :
  cur ≠ [] → format_words cur text = Some ws → ∃ w l, ws = w :: l ∧ ∀ x, x ∈ cur → x ∈ w.
Proof.
  remember (length text) as n eqn:En. revert cur text En ws. induction (lt_wf n) as [n _ IH]. intros cur text -> ws Hcur.
  assert (∀ t text', (length text' < length text)%nat → format_words (cur ++ t) text' = Some ws →
    ∃ w l, ws = w :: l ∧ ∀ x, x ∈ cur → x ∈ w) as Happ.
  { intros t text' Hl E. destruct (IH _ Hl (cur ++ t) text' eq_refl ws ltac:(by destruct cur) E) as (w & l & -> & Hw).
    exists w, l. split; [done|]. intros x Hx. apply Hw, elem_of_app. by left. }
  destruct text as [|c text]; cbn [format_words].
  - rewrite (bool_decide_eq_false_2 (cur = [])) by done. intros [= <-]. by eexists _, _.
  - case_bool_decide.
    + rewrite (bool_decide_eq_false_2 (cur = [])) by done. intros (l & E & ->)%fmap_Some. by eexists _, _.
    + case_bool_decide; [|by apply Happ; simpl; lia]. destruct text as [|c2 text]; [|case_bool_decide; [by apply Happ; simpl; lia|done]].
      intros [= <-]. eexists _, _. split; [done|]. intros x Hx. apply elem_of_app. by left.
Qed.

Lemma format_words_some cur text : (37 ∉ text) → is_Some (format_words cur text).
Proof.
  revert cur. induction text as [|c text IH]; intros cur; [by eexists|]. intros [Hc Ht]%not_elem_of_cons. cbn [format_words].
  rewrite (bool_decide_eq_false_2 (c = 37)) by done. case_bool_decide; [|by apply IH]. case_bool_decide; [by apply IH|].
  destruct (IH [] Ht) as [l ->]. by eexists.
Qed.

(** The words of a command appended to the rest of another are no command. *)
Definition plain_text (pre : list Z) : Prop := (32 ∉ pre) ∧ (37 ∉ pre) ∧ (0 ∉ pre).

Lemma resent_words pre cmd :
  plain_text pre →
  match format_words [] (c_string (pre ++ resp cmd)) with
  | Some ws => ∃ w l, ws = w :: l ∧ 42 ∈ w
  | None => 37 ∈ mjoin cmd
  end.
Proof.
  intros (H32 & H37 & H0). rewrite c_string_app by done. unfold resp.
  change (c_string (42 :: ?l)) with (42 :: c_string l). set (rest := c_string _).
  assert (format_words [] (pre ++ 42 :: rest) = format_words (pre ++ [42]) rest) as ->.
  { change (pre ++ 42 :: rest) with (pre ++ [42] ++ rest). rewrite app_assoc. apply (format_words_app (pre ++ [42]) []); rewrite elem_of_app, list_elem_of_singleton; (intros [?|?]; [done|lia]). }
  destruct (format_words (pre ++ [42]) rest) as [ws|] eqn:E.
  - apply format_words_head in E as (w & l & -> & Hw); [|by destruct pre]. exists w, l. split; [done|]. apply Hw, elem_of_app. right. by left.
  - destruct (decide (37 ∈ rest)) as [Hin|Hin]; [|destruct (format_words_some (pre ++ [42]) rest Hin); congruence].
    apply c_string_sub in Hin. rewrite !elem_of_app in Hin. destruct Hin as [Hin|[Hin|Hin]].
    + by apply print_dec_not in Hin.
    + revert Hin. by apply (bool_decide_unpack _).
    + rewrite list_elem_of_join in Hin. destruct Hin as (l & Hl & (w & -> & Hw)%list_elem_of_fmap). apply list_elem_of_join. exists w.
      split; [|done]. unfold resp_word in Hl. rewrite elem_of_cons, !elem_of_app in Hl.
      assert (37 ∉ [13; 10]) by by apply (bool_decide_unpack _).
      destruct Hl as [?|[Hl|[?|[?|?]]]]; [lia|by apply print_dec_not in Hl|done|done|done].
Qed.

(** *** The server *)
Lemma expired_refl D : expired D D.
Proof. by intros d. Qed.

Lemma expired_trans D1 D2 D3 : expired D1 D2 → expired D2 D3 → expired D1 D3.
Proof. intros H1 H2 d. by transitivity (D2 d). Qed.

Lemma expired_served cmd d d' D1 D2 D3 x : expired D1 D2 → served cmd d d' D2 D3 x → served cmd d d' D1 D3 x.
Proof.
  intros He Hs. destruct Hs as [cmd d D2 D3 x Hx Ho|t d D2 D3 He3 Ht|d D2 D3 He3 Hd].
  - apply served_key; [eapply serves_weaken; [apply He|done]|]. intros d' Hd. etransitivity; [by apply Ho|apply He].
  - apply served_select; [by eapply expired_trans|done].
  - apply served_flushdb; [by eapply expired_trans|done].
Qed.

Lemma expired_tried cmd d D1 D2 D3 : expired D1 D2 → tried cmd d D2 D3 → tried cmd d D1 D3.
Proof.
  intros He [?|(d' & x & Hx)]; [left; by eapply expired_trans|right]. exists d', x. by eapply expired_served.
Qed.

Lemma served_tried cmd d d' D D' x : served cmd d d' D D' x → tried cmd d D D'.
Proof. right. by exists d', x. Qed.

Lemma served_serves name l d d' D D' x :
  name ∉ [REDIS_CMD_SELECT; REDIS_CMD_FLUSHDB] → served (name :: l) d d' D D' x →
  d' = d ∧ serves (name :: l) (D d) (D' d) x ∧ ∀ d', d' ≠ d → D' d' ⊆ D d'.
Proof. rewrite !not_elem_of_cons. intros (H1 & H2 & _) Hs. inversion Hs; subst; done. Qed.

Lemma served_unknown w l d d' D D' x :
  42 ∈ w → served (w :: l) d d' D D' x → d' = d ∧ expired D D' ∧ ∃ text, x = Reply REDIS_REPLY_ERROR 0 (Some text) [].
Proof.
  intros Hw Hs. inversion Hs as [? ? ? ? ? Hx Ho| |]; subst; [|exfalso; revert Hw; by apply (bool_decide_unpack _); vm_compute..].
  inversion Hx; subst; [|exfalso; revert Hw; by apply (bool_decide_unpack _); vm_compute..]. split; [done|]. split; [|by eexists].
  intros d2. destruct (decide (d2 = d')) as [->|]; auto.
Qed.

Lemma tried_unknown w l d D D' : 42 ∈ w → tried (w :: l) d D D' → expired D D'.
Proof. intros Hw [?|(d' & x & Hx)]; [done|]. by apply served_unknown in Hx as (_ & ? & _). Qed.

Lemma resp_select_plain : plain_text (resp [REDIS_CMD_SELECT; print_dec 0]).
Proof. split_and!; by apply (bool_decide_unpack _); vm_compute. Qed.

Lemma plain_suffix sent rest : plain_text (sent ++ rest) → plain_text rest.
Proof. intros (H1 & H2 & H3). rewrite elem_of_app in H1, H2, H3. split_and!; tauto. Qed.

(** ** The client and its connection *)
Section client_lemmas.
Context {C W : Type} `{HiredisLaws C W} `{Boost}.
Context (m_redis_ip : list Z) (m_redis_port m_timeout_seconds m_expire_seconds : Z) (debug : bool).
Abbreviation state := (redis_client C * W)%type.
Abbreviation connect := (connect m_redis_ip m_redis_port m_timeout_seconds).
Abbreviation check_connection := (check_connection m_redis_ip m_redis_port m_timeout_seconds).
Abbreviation selectdb := (selectdb m_redis_ip m_redis_port m_timeout_seconds).
Abbreviation request := (request m_redis_ip m_redis_port m_timeout_seconds).
Abbreviation resend := (resend m_redis_ip m_redis_port m_timeout_seconds).
Abbreviation commit_cmd := (commit_cmd m_redis_ip m_redis_port m_timeout_seconds).
Abbreviation ask := (ask m_redis_ip m_redis_port m_timeout_seconds).
Implicit Types (s : state).

(** A connection with nothing under way, on the database 0. *)
Definition fresh (c : C) : Prop := err c = 0 ∧ obuf c = [] ∧ pending c = [] ∧ session c = 0.

Definition client_ok (cl : redis_client C) : Prop :=
  m_default_db cl = 0 ∧ ∀ c, m_redis_context cl = Some c → err c ≠ 0 ∨ fresh c.

(** There is a connection; if it was lost the rest of a [SELECT] is in its buffer. *)
Definition ready s : Prop :=
  m_default_db s.1 = 0 ∧ ∃ c, m_redis_context s.1 = Some c ∧ (fresh c ∨ err c ≠ 0 ∧ plain_text (obuf c)).

Abbreviation db s := (database s.2).

Lemma ready_ok s : ready s → client_ok s.1.
Proof. intros (Hd & c & Ec & Hc). split; [done|]. intros c' E. rewrite Ec in E. injection E as <-. tauto. Qed.

Lemma connect_spec s :
  m_default_db s.1 = 0 →
  ∃ s', expired (db s) (db s') ∧ client_ok s'.1 ∧
    (connect s = (-1, s') ∨ connect s = (0, s') ∧ ∃ c, m_redis_context s'.1 = Some c ∧ fresh c).
Proof.
  intros Hd. unfold RedisClient.connect. destruct (redisConnectWithTimeout _ _ _ s.2) as [c w] eqn:E.
  apply connect_law in E as [He Hc]. destruct c as [c|]; [specialize (Hc c eq_refl); destruct (decide (err c = 0)) as [Ec|Ec]|].
  - rewrite bool_decide_eq_false_2 by tauto. destruct (Hc Ec) as (Eo & Ep & Es). assert (fresh c) as Hf by done.
    exists (RedisClient (Some c) (m_default_db s.1), w). split; [exact He|]. split; [|right; split; [done|by exists c]]. split; [done|]. intros c' [= <-]. by right.
  - rewrite bool_decide_eq_true_2 by done. exists (RedisClient (Some c) (m_default_db s.1), w). split; [exact He|]. split; [|by left]. split; [done|]. intros c' [= <-]. by left.
  - exists (RedisClient None (m_default_db s.1), w). split; [exact He|]. split; [|by left]. by split.
Qed.

(** *** Sending one command over a connection *)
Lemma receive_fresh s c cmd :
  m_redis_context s.1 = Some c → err c = 0 → obuf c = resp cmd → pending c = [cmd] → session c = 0 →
  returns (receive None s) (λ r, m_default_db r.2.1 = m_default_db s.1 ∧ ∃ c', m_redis_context r.2.1 = Some c' ∧
    ((r.1.1 = -1 ∧ r.1.2 = None ∧ err c' ≠ 0 ∧ (∃ sent, obuf c = sent ++ obuf c') ∧ tried cmd 0 (db s) (db r.2)) ∨
     (r.1.1 = 0 ∧ err c' = 0 ∧ obuf c' = [] ∧ pending c' = [] ∧
       ∃ x, r.1.2 = Some x ∧ served cmd 0 (session c') (db s) (db r.2) x))).
Proof.
  intros Ec Eerr Eo Ep Es. unfold receive. rewrite Ec. unfold is_cmd_send_out. rewrite Eo.
  assert (bool_decide (c_string (resp cmd) = []) = false) as -> by done.
  destruct (redisGetReply c s.2) as [[[r reply] c'] w'] eqn:E. apply (reply_law _ _ cmd) in E; [|done..]. rewrite Es in E.
  destruct E as [(-> & E1 & E2 & E3 & x & -> & Hx)|(Hr & -> & E1 & E2 & Ht)].
  - cbn. split; [done|]. exists c'. split; [done|]. right. split_and!; try done. by exists x.
  - rewrite bool_decide_eq_true_2 by done. cbn. split; [done|]. exists c'. split; [done|]. left. split_and!; try done. by rewrite <-Eo.
Qed.

Lemma request_fresh s c cmd :
  m_redis_context s.1 = Some c → fresh c →
  returns (request cmd s) (λ r, m_default_db r.2.1 = m_default_db s.1 ∧ ∃ c', m_redis_context r.2.1 = Some c' ∧
    ((r.1 = None ∧ err c' ≠ 0 ∧ (plain_text (resp cmd) → plain_text (obuf c')) ∧ tried cmd 0 (db s) (db r.2)) ∨
     (err c' = 0 ∧ obuf c' = [] ∧ pending c' = [] ∧ ∃ x, r.1 = Some x ∧ served cmd 0 (session c') (db s) (db r.2) x))).
Proof.
  intros Ec (Eerr & Eo & Ep & Es). unfold RedisClient.request. rewrite Ec.
  destruct (redisAppendCommand c cmd) as [r1 c1] eqn:E. apply append_law in E as [(-> & E1 & E2 & E3 & E4)|(Hr & E1 & E2)].
  - rewrite (bool_decide_eq_false_2 (0 ≠ 0)) by lia. rewrite Eo, Ep in *. cbn [app] in *. set (s1 := set_context (Some c1) s).
    unfold RedisClient.commit_cmd. change (m_redis_context s1.1) with (Some c1). unfold RedisClient.resend.
    rewrite bool_decide_eq_false_2 by (rewrite E1; lia). cbn [mbind outcome_bind].
    pose proof (receive_fresh s1 c1 cmd eq_refl ltac:(congruence) E2 E3 ltac:(congruence)) as Hr.
    destruct (receive None s1) as [[[r reply] s2]| |]; [|done..]. cbn [returns mbind outcome_bind fst snd] in *.
    destruct Hr as (Hd & c' & Ec' & [(-> & -> & F1 & [sent F2] & F3)|(-> & F1 & F2 & F3 & x & -> & F4)]).
    + rewrite andb_false_r. cbn. split; [done|]. exists c'. split; [done|]. left. split_and!; try done.
      rewrite <-E2, F2. by apply plain_suffix.
    + cbn. split; [done|]. exists c'. split; [done|]. right. split_and!; try done. by exists x.
  - rewrite bool_decide_eq_true_2 by done. cbn. split; [done|]. exists c1. split; [done|]. left. split_and!; [done|done| |left; apply expired_refl].
    intros _. rewrite E2, Eo. split_and!; apply not_elem_of_nil.
Qed.

(** What an operation gets from a command: nothing, or a reply. *)
Definition asked (cmd : list (list Z)) s (r : option redisReply * state) : Prop :=
  client_ok r.2.1 ∧
  (r.1 = None ∧ tried cmd 0 (db s) (db r.2) ∨ ∃ x, r.1 = Some x ∧ served cmd 0 0 (db s) (db r.2) x).

Lemma context_ok (cl : redis_client C) c : m_default_db cl = 0 → m_redis_context cl = Some c → err c ≠ 0 ∨ fresh c → client_ok cl.
Proof. intros Hd E Hc. split; [done|]. intros c' E'. rewrite E in E'. by injection E' as <-. Qed.

Lemma asked_nothing cmd s s' : client_ok s'.1 → expired (db s) (db s') → asked cmd s (None, s').
Proof. intros Hok He. split; [done|]. left. split; [done|by left]. Qed.

(** What was to be sent over a connection that has been lost, sent as a format
    over a new one: at best an unknown command. *)
Lemma resend_spec s c pre cmd :
  m_default_db s.1 = 0 → err c ≠ 0 → obuf c = pre ++ resp cmd → plain_text pre →
  mostly (37 ∈ mjoin cmd) (resend None c s) (λ r,
    match r with
    | inl (result, reply, s') => result = -1 ∧ reply = None ∧ client_ok s'.1 ∧ expired (db s) (db s')
    | inr s' => m_default_db s'.1 = 0 ∧ expired (db s) (db s') ∧ ∃ c' w l, m_redis_context s'.1 = Some c' ∧
        42 ∈ w ∧ err c' = 0 ∧ obuf c' = resp (w :: l) ∧ pending c' = [w :: l] ∧ session c' = 0
    end).
Proof.
  intros Hd Ec Eo Hp. unfold RedisClient.resend. rewrite bool_decide_eq_true_2 by done. rewrite Eo.
  destruct (connect_spec (free_context c s)) as (s2 & He & Hok & [->|[-> (c2 & Ec2 & F1 & F2 & F3 & F4)]]); [done|..];
    (assert (expired (db s) (db s2)) as He2 by (eapply expired_trans; [|exact He]; apply (free_law c))).
  { by rewrite (bool_decide_eq_true_2 (-1 = -1)). }
  rewrite (bool_decide_eq_false_2 (0 = -1)) by done. rewrite Ec2, format_law.
  pose proof (resent_words pre cmd Hp) as Hw. destruct (format_words [] (c_string (pre ++ resp cmd))) as [ws|]; [|exact Hw].
  destruct Hw as (w & l & -> & Hw). cbn [mbind outcome_bind].
  destruct (redisAppendCommand c2 (w :: l)) as [r3 c3] eqn:E3.
  apply append_law in E3 as [(-> & G1 & G2 & G3 & G4)|(Hr & G1 & G2)]; cbn [fst snd].
  - rewrite (bool_decide_eq_false_2 (0 ≠ 0)) by lia. rewrite F2, F3 in *. cbn. split; [apply Hok|]. split; [done|].
    exists c3, w, l. split_and!; congruence || done.
  - rewrite bool_decide_eq_true_2 by done. cbn. split_and!; try done. eapply context_ok; [apply Hok|done|by left].
Qed.

Lemma commit_stale s c pre cmd :
  m_default_db s.1 = 0 → m_redis_context s.1 = Some c → err c ≠ 0 → obuf c = pre ++ resp cmd → plain_text pre →
  mostly (37 ∈ mjoin cmd) (commit_cmd None s) (λ r, client_ok r.2.1 ∧ expired (db s) (db r.2) ∧
    (r.1 = (-1, None) ∨ ∃ text, r.1 = (0, Some (Reply REDIS_REPLY_ERROR 0 (Some text) [])))).
Proof.
  intros Hd Ec Eerr Eo Hp. unfold RedisClient.commit_cmd. rewrite Ec.
  eapply mostly_bind; [by apply (resend_spec s c pre cmd)|]. intros [[[result reply] s2]|s2].
  { intros (-> & -> & Hok & He). cbn. split; [exact Hok|]. split; [exact He|by left]. }
  intros (Hd2 & He & c3 & w & l & Ec3 & Hw & G1 & G2 & G3 & G4). apply mostly_returns.
  eapply returns_mono; [by apply (receive_fresh s2 c3 (w :: l))|].
  intros [[result reply] s4]. cbn [fst snd].
  intros (Hd4 & c' & Ec' & [(-> & -> & K1 & _ & K3)|(-> & K1 & K2 & K3 & x & -> & K4)]); rewrite Hd2 in Hd4.
  - apply tried_unknown in K3; [|done]. split; [eapply context_ok; [done..|by left]|]. split; [by eapply expired_trans|by left].
  - apply served_unknown in K4 as (Es & Hexp & text & ->); [|done]. split; [eapply context_ok; [done..|by right]|].
    split; [by eapply expired_trans|]. right. by exists text.
Qed.

Lemma request_stale s c cmd :
  m_default_db s.1 = 0 → m_redis_context s.1 = Some c → err c ≠ 0 → plain_text (obuf c) →
  mostly (37 ∈ mjoin cmd) (request cmd s) (asked cmd s).
Proof.
  intros Hd Ec Eerr Hp. unfold RedisClient.request. rewrite Ec.
  destruct (redisAppendCommand c cmd) as [r1 c1] eqn:E. apply append_law in E as [(-> & E1 & E2 & _)|(Hr & E1 & E2)].
  2:{ rewrite bool_decide_eq_true_2 by done. apply asked_nothing; [|apply expired_refl]. eapply context_ok; [done..|by left]. }
  rewrite (bool_decide_eq_false_2 (0 ≠ 0)) by lia. set (s1 := set_context (Some c1) s).
  eapply mostly_bind; [apply (commit_stale s1 c1 (obuf c) cmd); congruence || done|].
  intros [[result reply] s2] (Hok & He & Hr). cbn [fst snd] in *. destruct Hr as [[= -> ->]|(text & [= -> ->])]; cbn.
  - by apply asked_nothing.
  - split; [done|]. right. eexists. split; [done|]. constructor; [constructor; apply He|intros d' _; apply He].
Qed.

(** *** Making the connection *)
Lemma selectdb_S n d s :
  selectdb (S n) d s =
  (let! r := with_connection (check_connection n) (with_connection (check_connection n) (request [REDIS_CMD_SELECT; print_dec d]))
     (set_default_db d s) in
   match r.1 with None => Ret (-1, r.2) | Some _ => Ret (0, r.2) end).
Proof. done. Qed.

Lemma check_connection_S n s :
  check_connection (S n) s =
  (let! r :=
     match m_redis_context s.1 with
     | None =>
         let (result, s) := connect s in
         if bool_decide (result = -1) then Ret (inl s) else let! r := selectdb n (m_default_db s.1) s in Ret (inr r.2)
     | Some _ => Ret (inr s)
     end in
   match r with
   | inl s => Ret (-1, s)
   | inr s =>
       match m_redis_context s.1 with
       | None => Stuck
       | Some c =>
           if bool_decide (err c ≠ 0) then
             let (result, s) := connect (free_context c s) in
             if bool_decide (result = -1) then Ret (-1, s) else let! r := selectdb n (m_default_db s.1) s in Ret (0, r.2)
           else Ret (0, s)
       end
   end).
Proof. done. Qed.

Lemma check_fresh n s c : m_redis_context s.1 = Some c → err c = 0 → check_connection (S n) s = Ret (0, s).
Proof. intros Ec Eerr. rewrite check_connection_S, Ec. cbn [mbind outcome_bind]. rewrite Ec. by rewrite bool_decide_eq_false_2 by tauto. Qed.

Lemma served_select_0 d' D D' x : served [REDIS_CMD_SELECT; print_dec 0] 0 d' D D' x → d' = 0.
Proof. intros Hs. inversion Hs; subst; try done. Qed.

(** The commands that only let keys go. *)
Definition reading (name : list Z) : Prop := name ∈ [REDIS_CMD_GET; REDIS_CMD_DEL; REDIS_CMD_SMEMBER; REDIS_CMD_SELECT].

Lemma served_expired name l d d' D D' x : reading name → served (name :: l) d d' D D' x → expired D D'.
Proof.
  intros Hn Hs. inversion Hs as [? ? ? ? ? Hx Ho| |]; subst; [|done..]. intros d2. destruct (decide (d2 = d')) as [->|]; [|auto].
  inversion Hx; subst; try done; exfalso; revert Hn; by apply (bool_decide_unpack _); vm_compute.
Qed.

Lemma tried_expired name l d D D' : reading name → tried (name :: l) d D D' → expired D D'.
Proof. intros Hn [?|(d' & x & Hx)]; [done|by eapply served_expired]. Qed.

Lemma select_fresh n s c :
  m_default_db s.1 = 0 → m_redis_context s.1 = Some c → fresh c →
  returns (selectdb (S (S n)) 0 s) (λ r, ready r.2 ∧ expired (db s) (db r.2)).
Proof.
  intros Hd Ec Hf. rewrite selectdb_S. unfold with_connection.
  set (s1 := set_default_db 0 s). assert (m_redis_context s1.1 = Some c) as Ec1 by done.
  rewrite (check_fresh n s1 c) by (done || apply Hf). cbn [mbind outcome_bind]. rewrite (bool_decide_eq_false_2 (0 = -1)), Ec1 by done.
  rewrite (check_fresh n s1 c) by (done || apply Hf). cbn [mbind outcome_bind]. rewrite (bool_decide_eq_false_2 (0 = -1)), Ec1 by done.
  eapply returns_bind, returns_mono; [by apply (request_fresh s1 c)|]. intros [reply s2]. cbn [fst snd].
  intros (Hd2 & c' & Ec' & Hr). change (m_default_db s1.1) with 0 in Hd2. change (db s1) with (db s) in Hr.
  assert (ready s2 ∧ expired (db s) (db s2)) as Hready.
  { destruct Hr as [(-> & K1 & K2 & K3)|(K1 & K2 & K3 & x & -> & K4)].
    - apply tried_expired in K3; [|by apply (bool_decide_unpack _); vm_compute]. split; [|done]. split; [done|]. exists c'. split; [done|].
      right. split; [done|]. apply K2, resp_select_plain.
    - pose proof (served_tried _ _ _ _ _ _ K4) as Ht. apply tried_expired in Ht; [|by apply (bool_decide_unpack _); vm_compute].
      apply served_select_0 in K4. split; [|done]. split; [done|]. exists c'. split; [done|]. by left. }
  by destruct reply.
Qed.

(** A connection made again. *)
Lemma reconnect_spec n s :
  m_default_db s.1 = 0 →
  returns (let (result, s) := connect s in
    if bool_decide (result = -1) then Ret (inl s) else let! r := selectdb (S (S n)) (m_default_db s.1) s in Ret (inr r.2))
    (λ r : state + state, match r with inl s' => client_ok s'.1 ∧ expired (db s) (db s') | inr s' => ready s' ∧ expired (db s) (db s') end).
Proof.
  intros Hd. destruct (connect_spec s Hd) as (s1 & He & Hok & [->|[-> (c & Ec & Hf)]]).
  - by rewrite (bool_decide_eq_true_2 (-1 = -1)).
  - rewrite (bool_decide_eq_false_2 (0 = -1)) by done. destruct Hok as [Hd1 _]. rewrite Hd1.
    eapply returns_bind, returns_mono; [by apply (select_fresh n s1 c)|]. intros [result s2] [Hr He2]. split; [done|]. by eapply expired_trans.
Qed.

Lemma check_connection_spec n s :
  client_ok s.1 →
  returns (check_connection (S (S (S n))) s) (λ r, expired (db s) (db r.2) ∧ (r.1 = -1 ∧ client_ok r.2.1 ∨ r.1 = 0 ∧ ready r.2)).
Proof.
  intros [Hd Hc]. rewrite check_connection_S.
  assert (∀ s1, expired (db s) (db s1) → m_default_db s1.1 = 0 → ∀ c, m_redis_context s1.1 = Some c → (err c = 0 → ready s1) →
    returns (if bool_decide (err c ≠ 0) then
               let (result, s) := connect (free_context c s1) in
               if bool_decide (result = -1) then Ret (-1, s) else let! r := selectdb (S (S n)) (m_default_db s.1) s in Ret (0, r.2)
             else Ret (0, s1))
      (λ r, expired (db s) (db r.2) ∧ (r.1 = -1 ∧ client_ok r.2.1 ∨ r.1 = 0 ∧ ready r.2))) as Hagain.
  { intros s1 He Hd1 c Ec Hr. case_bool_decide as Herr; [|cbn; split; [done|right; split; [done|apply Hr; tauto]]].
    pose proof (reconnect_spec n (free_context c s1) Hd1) as Hn. destruct (connect (free_context c s1)) as [result s2].
    assert (expired (db s) (db (free_context c s1))) as He1 by (eapply expired_trans; [exact He|apply (free_law c)]).
    case_bool_decide; cbn [returns] in Hn |- *.
    - destruct Hn. split; [by eapply expired_trans|by left].
    - apply returns_bind. destruct (selectdb _ _ s2) as [[result2 s3]| |]; [|done..]. destruct Hn. split; [by eapply expired_trans|by right]. }
  destruct (m_redis_context s.1) as [c|] eqn:Ec.
  - cbn [mbind outcome_bind]. rewrite Ec. apply Hagain; [apply expired_refl|done..|]. intros Herr. split; [done|]. exists c. split; [done|]. left.
    destruct (Hc c eq_refl); [done|]. done.
  - eapply returns_bind, returns_mono; [by apply (reconnect_spec n s)|]. intros [s1|s1].
    + intros [Hok He]. split; [done|by left].
    + intros [Hready He]. destruct Hready as (Hd1 & c & Ec1 & Hc1). rewrite Ec1. apply Hagain; [done..|]. intros _. split; [done|]. by exists c.
Qed.

Lemma ask_fresh cmd s c :
  m_default_db s.1 = 0 → m_redis_context s.1 = Some c → fresh c → (∀ d' D D' x, served cmd 0 d' D D' x → d' = 0) →
  returns (request cmd s) (asked cmd s).
Proof.
  intros Hd Ec Hf Hcmd. eapply returns_mono; [by apply (request_fresh s c)|]. intros [reply s2]. cbn [fst snd]. rewrite Hd.
  intros (Hd2 & c' & Ec' & [(-> & K1 & _ & K3)|(K1 & K2 & K3 & x & -> & K4)]).
  - split; [by eapply context_ok; [..|left]|]. by left.
  - pose proof (Hcmd _ _ _ _ K4) as Es. rewrite Es in K4. split; [|right; by exists x]. eapply context_ok; [done..|]. by right.
Qed.

(** When a text with a [%] is undefined: the connection has to be made again. *)
Definition risky (cmd : list (list Z)) s : Prop := 37 ∈ mjoin cmd ∧ ∀ c, m_redis_context s.1 = Some c → err c ≠ 0.

(** A command that does not select another database. *)
Lemma ask_spec cmd s :
  client_ok s.1 → (∀ d' D D' x, served cmd 0 d' D D' x → d' = 0) → mostly (risky cmd s) (ask cmd s) (asked cmd s).
Proof.
  intros Hok Hcmd. unfold RedisClient.ask, with_connection, depth.
  assert ((∃ c, m_redis_context s.1 = Some c ∧ err c = 0) ∨ ∀ c, m_redis_context s.1 = Some c → err c ≠ 0) as [(c & Ec & Herr)|Hlost].
  { destruct (m_redis_context s.1) as [c|]; [|by right]. destruct (decide (err c = 0)); [left; by exists c|right; by intros ? [= <-]]. }
  { rewrite (check_fresh 3 s c) by done. cbn [mbind outcome_bind]. rewrite (bool_decide_eq_false_2 (0 = -1)), Ec by done.
    apply mostly_returns, (ask_fresh cmd s c); [apply Hok|done| |done]. by destruct (proj2 Hok c Ec). }
  eapply mostly_bind; [apply mostly_returns, (check_connection_spec 1 s Hok)|]. intros [result s1]. cbn [fst snd].
  intros [He [[-> Hok1]|[-> (Hd & c & Ec & Hc)]]]; [by apply asked_nothing|].
  rewrite (bool_decide_eq_false_2 (0 = -1)), Ec by done.
  assert (mostly (37 ∈ mjoin cmd) (request cmd s1) (asked cmd s1)) as Hr.
  { destruct Hc as [Hf|[Herr Hp]]; [apply mostly_returns|]; [by apply (ask_fresh cmd s1 c)|by apply (request_stale s1 c)]. }
  eapply mostly_mono; [exact Hr|done|]. intros [reply s2] [Hok2 Hx]. split; [done|]. destruct Hx as [[-> Ht]|(x & -> & Hx)]; [left|right].
  - split; [done|]. by eapply expired_tried.
  - exists x. split; [done|]. by eapply expired_served.
Qed.

(** Over a connection in order, with nothing under way, the command [cmd] is sent
    and hiredis answers the reply [x]; [s'] is the state then. *)
Definition replied (cmd : list (list Z)) s (x : redisReply) s' : Prop :=
  ∃ c c1 c2 w, m_redis_context s.1 = Some c ∧ fresh c ∧ redisAppendCommand c cmd = (0, c1) ∧
    redisGetReply c1 s.2 = (0, Some x, c2, w) ∧ s' = (RedisClient (Some c2) (m_default_db s.1), w).

Lemma ask_replied cmd s x s' : replied cmd s x s' → ask cmd s = Ret (Some x, s').
Proof.
  intros (c & c1 & c2 & w & Ec & (Herr & Eo & Ep & Es) & E1 & E2 & ->). unfold RedisClient.ask, with_connection, depth.
  rewrite (check_fresh 3 s c) by done. cbn [mbind outcome_bind]. rewrite (bool_decide_eq_false_2 (0 = -1)), Ec by done.
  unfold RedisClient.request. rewrite Ec, E1. rewrite (bool_decide_eq_false_2 (0 ≠ 0)) by lia.
  apply append_law in E1 as [(_ & F1 & F2 & _)|[? _]]; [|done].
  unfold RedisClient.commit_cmd. cbn [set_context fst snd m_redis_context]. unfold RedisClient.resend.
  rewrite bool_decide_eq_false_2 by (rewrite F1; lia). cbn [mbind outcome_bind]. unfold receive. cbn [set_context fst snd m_redis_context].
  unfold is_cmd_send_out. rewrite F2, Eo. assert (bool_decide (c_string ([] ++ resp cmd) = []) = false) as -> by done.
  rewrite E2. by rewrite (bool_decide_eq_false_2 (0 ≠ 0)) by lia.
Qed.
End client_lemmas.

(** *** What the server answers to a command *)
#[local] Ltac served_inv H :=
  apply served_serves in H as (-> & H & _); [|by apply (bool_decide_unpack _); vm_compute]; inversion H; subst; try done.

Lemma serves_set_inv k v K K' x :
  serves [REDIS_CMD_SET; k; v] K K' x →
  ((∃ text, x = Reply REDIS_REPLY_ERROR 0 (Some text) [] ∧ K' ⊆ K) ∨
   (x = status REDIS_REPLY_STATUS_OK ∧ delete k K' ⊆ K ∧ ∀ y, K' !! k = Some y → y = (Text v, None))).
Proof. intros Hs. inversion Hs; subst; try done; [left; by eexists|by right]. Qed.

Lemma serves_get_inv k K K' x :
  serves [REDIS_CMD_GET; k] K K' x →
  (∃ text, x = Reply REDIS_REPLY_ERROR 0 (Some text) []) ∨ (∃ v t, x = Reply REDIS_REPLY_STRING 0 (Some v) [] ∧ at_key k (Text v) t K) ∨
  (x = Reply REDIS_REPLY_NIL 0 None [] ∧ K' !! k = None).
Proof. intros Hs. inversion Hs; subst; try done; [left; by eexists|right; left; eexists _, _; by split|by right; right]. Qed.

Lemma serves_del_inv k K K' x :
  serves [REDIS_CMD_DEL; k] K K' x →
  (∃ text, x = Reply REDIS_REPLY_ERROR 0 (Some text) []) ∨ ∃ n, x = number n ∧ 0 ≤ n ≤ 1 ∧ K' !! k = None ∧ (n = 1 → is_Some (K !! k)).
Proof. intros Hs. inversion Hs; subst; try done; [left; by eexists|right; eexists; split; [reflexivity|]; repeat (split; [assumption|]); assumption]. Qed.

Lemma serves_expire_inv k t K K' x :
  serves [REDIS_CMD_EXPIRE; k; t] K K' x →
  (∃ text, x = Reply REDIS_REPLY_ERROR 0 (Some text) [] ∧ K' ⊆ K) ∨
  ∃ n, x = number n ∧ delete k K' ⊆ K ∧ 0 ≤ n ≤ 1 ∧ (n = 0 → K' !! k = None) ∧ (n = 1 → is_Some (K !! k)) ∧
    ∀ e t', at_key k e t' K' → t' = Some (parse_dec t) ∧ ∃ t0, at_key k e t0 K.
Proof. intros Hs. inversion Hs; subst; try done; [left; by eexists|right; eexists; split; [reflexivity|]; repeat (split; [assumption|]); assumption]. Qed.

Lemma serves_smembers_inv k K K' x :
  serves [REDIS_CMD_SMEMBER; k] K K' x →
  (∃ text, x = Reply REDIS_REPLY_ERROR 0 (Some text) []) ∨
  ∃ l, x = Reply REDIS_REPLY_ARRAY 0 None (texts l) ∧ NoDup l ∧
    (l = [] ∧ K' !! k = None ∨ l ≠ [] ∧ ∃ t, at_key k (Members (list_to_set l)) t K).
Proof. intros Hs. inversion Hs; subst; try done; [left; by eexists|right; eexists; split; [reflexivity|]; repeat (split; [assumption|]); assumption]. Qed.

(** ** The operations *)
Section operations.
Context {C W : Type} `{HiredisLaws C W} `{BoostLaws}.
Context (m_redis_ip : list Z) (m_redis_port m_timeout_seconds m_expire_seconds : Z).
Abbreviation set_value := (set_value m_redis_ip m_redis_port m_timeout_seconds).
Abbreviation get_value := (get_value m_redis_ip m_redis_port m_timeout_seconds).
Abbreviation del_value := (del_value m_redis_ip m_redis_port m_timeout_seconds).
Abbreviation set_expire := (set_expire m_redis_ip m_redis_port m_timeout_seconds m_expire_seconds).
Abbreviation state := (redis_client C * W)%type.
Implicit Types (s : state).

(** The database 0, which the client works on. *)
Definition keys s : keyspace := database s.2 0.

Lemma expired_keys s s' : expired (database s.2) (database s'.2) → keys s' ⊆ keys s.
Proof. intros He. apply He. Qed.

(** What came of a command: no reply, or one. *)
Lemma asked_inv name l s r :
  name ∉ [REDIS_CMD_SELECT; REDIS_CMD_FLUSHDB] → asked (name :: l) s r →
  client_ok r.2.1 ∧
  (r.1 = None ∧ (keys r.2 ⊆ keys s ∨ ∃ x, serves (name :: l) (keys s) (keys r.2) x) ∨
   ∃ x, r.1 = Some x ∧ serves (name :: l) (keys s) (keys r.2) x).
Proof.
  intros Hn [Hok Hr]. split; [done|]. destruct Hr as [[-> [He|(d' & x & Hx)]]|(x & -> & Hx)].
  - left. split; [done|]. left. by apply expired_keys.
  - left. split; [done|]. right. exists x. by apply served_serves in Hx as (_ & ? & _).
  - right. exists x. split; [done|]. by apply served_serves in Hx as (_ & ? & _).
Qed.

Lemma asked_reading name l s r : reading name → asked (name :: l) s r → keys r.2 ⊆ keys s.
Proof.
  intros Hn [_ [[_ Ht]|(x & _ & Hx%served_tried)]]; by eapply expired_keys, tried_expired.
Qed.

Lemma served_same name l d' D D' x : name ∉ [REDIS_CMD_SELECT; REDIS_CMD_FLUSHDB] → served (name :: l) 0 d' D D' x → d' = 0.
Proof. intros Hn Hs. by apply served_serves in Hs as (-> & _). Qed.

#[local] Ltac name := by apply (bool_decide_unpack _); vm_compute.
#[local] Ltac asking := eapply mostly_bind; [apply ask_spec; [done|intros ? ? ? ?; apply served_same; name]|].

(** What a command with one entry to write may leave, even when no reply comes. *)
Definition stores (k : list Z) (x : entry * option Z) (K K' : keyspace) : Prop :=
  delete k K' ⊆ K ∧ ∀ y, K' !! k = Some y → K !! k = Some y ∨ y = x.

Lemma stores_same (k : list Z) (x : entry * option Z) (K K' : keyspace) : K' ⊆ K → stores k x K K'.
Proof. intros Hs. split; [etransitivity; [apply delete_subseteq|done]|]. intros y E. left. by eapply lookup_weaken. Qed.

Lemma set_value_spec key value s :
  client_ok s.1 →
  mostly (risky [REDIS_CMD_SET; c_string key; c_string value] s) (set_value key value s) (λ r, client_ok r.2.1 ∧
    stores (c_string key) (Text (c_string value), None) (keys s) (keys r.2) ∧
    (r.1 = 0 ∧ (∀ y, keys r.2 !! c_string key = Some y → y = (Text (c_string value), None)) ∨ r.1 = -1)).
Proof.
  intros Hok. unfold RedisClient.set_value. asking.
  intros [reply s'] [Hok' Hr]%asked_inv; [|name]. cbn [fst snd] in *.
  assert (∀ x, serves [REDIS_CMD_SET; c_string key; c_string value] (keys s) (keys s') x →
    stores (c_string key) (Text (c_string value), None) (keys s) (keys s')) as Hst.
  { intros x [(? & _ & ?)|(_ & Hd & Hy)]%serves_set_inv; [by apply stores_same|]. split; [done|]. auto. }
  destruct Hr as [[-> Ht]|(x & -> & Hx)].
  - cbn. split; [done|]. split; [|by right]. destruct Ht as [?|[x ?]]; [by apply stores_same|by eapply Hst].
  - pose proof (Hst x Hx) as Hs. apply serves_set_inv in Hx as [(text & -> & He)|(-> & Hd & Hv)].
    { cbn. split; [done|]. split; [done|by right]. }
    assert (boost_trim REDIS_REPLY_STATUS_OK = REDIS_REPLY_STATUS_OK) as Htrim by by apply trim_id, solid_trimmed; repeat constructor.
    unfold status. rewrite (bool_decide_eq_false_2 (REDIS_REPLY_STATUS ≠ _)), (bool_decide_eq_false_2 (REDIS_REPLY_STATUS_OK = [])) by (tauto || done).
    change (c_string REDIS_REPLY_STATUS_OK) with REDIS_REPLY_STATUS_OK. rewrite Htrim. rewrite (bool_decide_eq_false_2 (REDIS_REPLY_STATUS_OK ≠ _)) by tauto. cbn.
    split; [done|]. split; [done|by left].
Qed.

Lemma get_value_spec key old s :
  client_ok s.1 →
  mostly (risky [REDIS_CMD_GET; c_string key] s) (get_value key old s) (λ r, client_ok r.2.1 ∧ keys r.2 ⊆ keys s ∧
    ((r.1.1 = 1 ∧ ∃ v t, at_key (c_string key) (Text v) t (keys s) ∧ v ≠ [] ∧ r.1.2 = c_string v) ∨
     (r.1.1 = 0 ∧ r.1.2 = old ∧ keys r.2 !! c_string key = None) ∨ (r.1.1 = -1 ∧ r.1.2 = old))).
Proof.
  intros Hok. unfold RedisClient.get_value. asking.
  intros [reply s'] Hr. assert (keys s' ⊆ keys s) as He by (eapply (asked_reading _ _ _ (reply, s')); [|exact Hr]; name).
  apply asked_inv in Hr as [Hok' Hr]; [|name]. cbn [fst snd] in *.
  destruct Hr as [[-> _]|(x & -> & [(text & ->)|[(v & t & -> & Hv)|[-> Hv]]]%serves_get_inv)].
  - cbn. split; [done|]. split; [done|]. by right; right.
  - cbn. split; [done|]. split; [done|]. by right; right.
  - rewrite bool_decide_eq_false_2 by tauto. case_bool_decide; cbn; (split; [done|]); (split; [done|]);
      [by right; right|left]. split; [done|]. by exists v, t.
  - cbn. split; [done|]. split; [done|]. right. by left.
Qed.

Lemma del_value_spec key s :
  client_ok s.1 →
  mostly (risky [REDIS_CMD_DEL; c_string key] s) (del_value key s) (λ r, client_ok r.2.1 ∧ keys r.2 ⊆ keys s ∧
    (0 ≤ r.1 ≤ 1 ∧ keys r.2 !! c_string key = None ∧ (r.1 = 1 → is_Some (keys s !! c_string key)) ∨ r.1 = -1)).
Proof.
  intros Hok. unfold RedisClient.del_value. asking.
  intros [reply s'] Hr. assert (keys s' ⊆ keys s) as He by (eapply (asked_reading _ _ _ (reply, s')); [|exact Hr]; name).
  apply asked_inv in Hr as [Hok' Hr]; [|name]. cbn [fst snd mostly] in *. split; [done|]. split; [done|].
  destruct Hr as [[-> _]|(x & -> & [(text & ->)|(n & -> & Hn & Hk & Hs)]%serves_del_inv)]; [by right|by right|].
  left. cbn. by rewrite s32_bit by done.
Qed.

(** The number of seconds of [set_expire], and what is at the key then. *)
Abbreviation seconds t := (if bool_decide (t = 0) then m_expire_seconds else t).

Lemma seconds_text n : is_s32 n → parse_dec (c_string (format_int n)) = n.
Proof.
  intros Hn. unfold format_int. rewrite c_string_id by by apply print_dec_not. apply print_dec_correct. unfold is_s32 in Hn. lia.
Qed.

Lemma set_expire_spec key t s :
  let secs := parse_dec (c_string (format_int (seconds t))) in
  client_ok s.1 →
  mostly (risky [REDIS_CMD_EXPIRE; c_string key; c_string (format_int (seconds t))] s)
    (set_expire key t s) (λ r, client_ok r.2.1 ∧ delete (c_string key) (keys r.2) ⊆ keys s ∧
      (∀ e t', at_key (c_string key) e t' (keys r.2) → ∃ t0, at_key (c_string key) e t0 (keys s) ∧ (t' = t0 ∨ t' = Some secs)) ∧
      (r.1 = 1 ∧ is_Some (keys s !! c_string key) ∧ (∀ e t', at_key (c_string key) e t' (keys r.2) → t' = Some secs) ∨
       r.1 = 0 ∧ keys r.2 !! c_string key = None ∨ r.1 = -1)).
Proof.
  intros secs Hok. unfold RedisClient.set_expire. cbn zeta. asking.
  intros [reply s'] [Hok' Hr]%asked_inv; [|name]. cbn [fst snd mostly] in *. split; [done|].
  assert (keys s' ⊆ keys s → delete (c_string key) (keys s') ⊆ keys s ∧
    ∀ e t', at_key (c_string key) e t' (keys s') → ∃ t0, at_key (c_string key) e t0 (keys s) ∧ (t' = t0 ∨ t' = Some secs)) as Hsame.
  { intros Hs. split; [etransitivity; [apply delete_subseteq|done]|]. intros e t' E. exists t'. split; [by eapply lookup_weaken|by left]. }
  assert (∀ n, serves [REDIS_CMD_EXPIRE; c_string key; c_string (format_int (seconds t))] (keys s) (keys s') n →
    delete (c_string key) (keys s') ⊆ keys s ∧
    ∀ e t', at_key (c_string key) e t' (keys s') → ∃ t0, at_key (c_string key) e t0 (keys s) ∧ (t' = t0 ∨ t' = Some secs)) as Hexp.
  { intros n [(? & _ & ?)|(m & _ & Hd & _ & _ & _ & He)]%serves_expire_inv; [by apply Hsame|]. split; [done|].
    intros e t' [-> [t0 E]]%He. exists t0. split; [done|]. by right. }
  destruct Hr as [[-> [Hs|[x Hx]]]|(x & -> & Hx)]; [by destruct (Hsame Hs); auto|by destruct (Hexp x Hx); auto|].
  destruct (Hexp x Hx) as [H1' H2']. split; [done|]. split; [done|].
  apply serves_expire_inv in Hx as [(text & -> & _)|(n & -> & _ & Hn & Hn0 & Hn1 & He)]; [by right; right|].
  change (integer_of (Some (number n))) with (s32 n). rewrite s32_bit by done.
  destruct (decide (n = 1)) as [->|?]; [left|right; left; assert (n = 0) as -> by lia; auto]. split; [done|]. split; [auto|].
  by intros e t' [-> _]%He.
Qed.

(** The members of a set as they are received. *)
Lemma collect_texts l vec : collect (texts l) vec = Ret (vec ++ map c_string l).
Proof.
  revert vec. induction l as [|t l IH]; intros vec; [by rewrite app_nil_r|]. cbn [texts collect fmap list_fmap]. fold (texts l).
  by rewrite IH, <-app_assoc.
Qed.

Lemma get_value_set_spec key vec s :
  client_ok s.1 →
  mostly (risky [REDIS_CMD_SMEMBER; c_string key] s) (get_value_set m_redis_ip m_redis_port m_timeout_seconds key vec s) (λ r,
    client_ok r.2.1 ∧ keys r.2 ⊆ keys s ∧
    (r.1 = (-1, vec) ∨ r.1 = (0, vec) ∧ keys r.2 !! c_string key = None ∨
     ∃ l t, at_key (c_string key) (Members (list_to_set l)) t (keys s) ∧ NoDup l ∧
       r.1 = (s32 (slen (vec ++ map c_string l)), vec ++ map c_string l))).
Proof.
  intros Hok. unfold get_value_set. asking.
  intros [reply s'] Hr. assert (keys s' ⊆ keys s) as He by (eapply (asked_reading _ _ _ (reply, s')); [|exact Hr]; name).
  apply asked_inv in Hr as [Hok' Hr]; [|name]. cbn [fst snd] in *.
  destruct Hr as [[-> _]|(x & -> & [(text & ->)|(l & -> & Hl & Hk)]%serves_smembers_inv)].
  - cbn. split; [done|]. split; [done|by left].
  - cbn. split; [done|]. split; [done|by left].
  - rewrite (bool_decide_eq_false_2 (REDIS_REPLY_ARRAY ≠ _)) by tauto. destruct Hk as [[-> Hk]|[Hne [t Hk]]].
    + cbn. split; [done|]. split; [done|]. right. by left.
    + rewrite bool_decide_eq_false_2 by by destruct l. rewrite collect_texts. cbn. split; [done|]. split; [done|]. right. right. by exists l, t.
Qed.

(** *** The answers to a reply that comes *)
Lemma set_value_replied key value s s' :
  replied [REDIS_CMD_SET; c_string key; c_string value] s (status REDIS_REPLY_STATUS_OK) s' → set_value key value s = Ret (0, s').
Proof.
  intros Hr. unfold RedisClient.set_value. rewrite (ask_replied _ _ _ _ _ _ _ Hr). cbn [mbind outcome_bind fst snd status].
  rewrite (bool_decide_eq_false_2 (REDIS_REPLY_STATUS ≠ _)), (bool_decide_eq_false_2 (REDIS_REPLY_STATUS_OK = [])) by (tauto || done).
  assert (boost_trim REDIS_REPLY_STATUS_OK = REDIS_REPLY_STATUS_OK) as Htrim by by apply trim_id, solid_trimmed; repeat constructor.
  change (c_string REDIS_REPLY_STATUS_OK) with REDIS_REPLY_STATUS_OK. rewrite Htrim. by rewrite (bool_decide_eq_false_2 (REDIS_REPLY_STATUS_OK ≠ _)) by tauto.
Qed.

Lemma get_value_replied key old s s' v :
  replied [REDIS_CMD_GET; c_string key] s (Reply REDIS_REPLY_STRING 0 (Some v) []) s' → v ≠ [] →
  get_value key old s = Ret (1, c_string v, s').
Proof.
  intros Hr Hv. unfold RedisClient.get_value. rewrite (ask_replied _ _ _ _ _ _ _ Hr). cbn [mbind outcome_bind fst snd].
  rewrite bool_decide_eq_false_2 by tauto. by rewrite bool_decide_eq_false_2.
Qed.

Lemma get_value_replied_nil key old s s' :
  replied [REDIS_CMD_GET; c_string key] s (Reply REDIS_REPLY_NIL 0 None []) s' → get_value key old s = Ret (0, old, s').
Proof. intros Hr. unfold RedisClient.get_value. by rewrite (ask_replied _ _ _ _ _ _ _ Hr). Qed.

Lemma del_value_replied key s n s' :
  replied [REDIS_CMD_DEL; c_string key] s (number n) s' → 0 ≤ n ≤ 1 → del_value key s = Ret (n, s').
Proof.
  intros Hr Hn. unfold RedisClient.del_value. rewrite (ask_replied _ _ _ _ _ _ _ Hr). cbn [mbind outcome_bind fst snd].
  change (integer_of (Some (number n))) with (s32 n). by rewrite s32_bit.
Qed.

Lemma set_expire_replied key t s n s' :
  replied [REDIS_CMD_EXPIRE; c_string key; c_string (format_int (seconds t))] s (number n) s' → 0 ≤ n ≤ 1 → set_expire key t s = Ret (n, s').
Proof.
  intros Hr Hn. unfold RedisClient.set_expire. rewrite (ask_replied _ _ _ _ _ _ _ Hr). cbn [mbind outcome_bind fst snd].
  change (integer_of (Some (number n))) with (s32 n). by rewrite s32_bit.
Qed.

Lemma get_value_set_replied key vec s l s' :
  replied [REDIS_CMD_SMEMBER; c_string key] s (Reply REDIS_REPLY_ARRAY 0 None (texts l)) s' → l ≠ [] →
  get_value_set m_redis_ip m_redis_port m_timeout_seconds key vec s = Ret (s32 (slen (vec ++ map c_string l)), vec ++ map c_string l, s').
Proof.
  intros Hr Hl. unfold get_value_set. rewrite (ask_replied _ _ _ _ _ _ _ Hr). cbn [mbind outcome_bind fst snd].
  rewrite (bool_decide_eq_false_2 (REDIS_REPLY_ARRAY ≠ _)) by tauto. rewrite bool_decide_eq_false_2 by by destruct l. by rewrite collect_texts.
Qed.
End operations.

(** ** The clients of a pool implement the interface *)
Section clients.
Context {C W : Type} `{HiredisLaws C W} `{BoostLaws}.
Context (m_redis_ip : list Z) (m_redis_port m_timeout_seconds m_expire_seconds : Z).

(** The clients by their address, and the rest of the world. *)
Abbreviation clients := ((loc → redis_client C) * W)%type.

Definition with_client {A} (c : loc) (f : redis_client C * W → outcome (A * (redis_client C * W))) (k : clients) : outcome (A * clients) :=
  let! r := f (k.1 c, k.2) in
  Ret (r.1, (<[c := r.2.1]> k.1, r.2.2)).

#[export] Instance redis_clients : RedisClients clients := {
  redis_set_value c key v := with_client c (set_value m_redis_ip m_redis_port m_timeout_seconds key v);
  redis_get_value c key := with_client c (get_value m_redis_ip m_redis_port m_timeout_seconds key []);
  redis_del_value c key := with_client c (del_value m_redis_ip m_redis_port m_timeout_seconds key);
  redis_set_expire c key t := with_client c (set_expire m_redis_ip m_redis_port m_timeout_seconds m_expire_seconds key t);
  stored k := dom (database k.2 0);
  redis_ok k := ∀ c, client_ok (k.1 c);
}.

Lemma with_client_law {A} (P : Prop) (c : loc) (f : redis_client C * W → outcome (A * (redis_client C * W))) (Q : A → keyspace → Prop) (k : clients) :
  redis_ok k →
  (client_ok (k.1 c) → mostly P (f (k.1 c, k.2)) (λ r, client_ok r.2.1 ∧ Q r.1 (database r.2.2 0))) →
  mostly P (with_client c f k) (λ r, redis_ok r.2 ∧ Q r.1 (database r.2.2 0)).
Proof.
  intros Hok Hf. eapply mostly_bind; [by apply Hf|]. intros [x [cl w]] [Hcl HQ]. cbn in *. split; [|done].
  intros c'. destruct (decide (c' = c)) as [->|Hne]; [by rewrite fn_lookup_insert|by rewrite fn_lookup_insert_ne].
Qed.

Lemma dom_elsewhere (k : list Z) (K K' : keyspace) : delete k K' ⊆ K → dom K' ⊆ {[ k ]} ∪ dom K.
Proof. intros Hs%subseteq_dom. rewrite dom_delete_L in Hs. set_unfold. intros x Hx. destruct (decide (x = k)); naive_solver. Qed.

Lemma set_law (c : loc) key v (k : clients) :
  redis_ok k →
  mostly (37 ∈ key ++ v) (redis_set_value c key v k) (λ r, redis_ok r.2 ∧ stored r.2 ⊆ {[ c_string key ]} ∪ stored k).
Proof.
  intros Hok. apply (with_client_law _ _ _ (λ _ D, dom D ⊆ {[ c_string key ]} ∪ dom (database k.2 0))); [done|]. intros Hc.
  eapply mostly_mono; [by apply set_value_spec|..].
  - intros [Hin _]. rewrite list_elem_of_join in Hin. destruct Hin as (l & Hl & Hin). rewrite !elem_of_cons in Hin.
    apply elem_of_app. destruct Hin as [->|[->|[->|[]%not_elem_of_nil]]]; [|left; by apply c_string_sub|right; by apply c_string_sub].
    by revert Hl; apply (bool_decide_unpack _); vm_compute.
  - intros r (Hok' & [Hs _] & _). split; [done|]. by apply dom_elsewhere.
Qed.

Lemma risky_key name key l (s : redis_client C * W) : (37 ∉ name) → (37 ∉ mjoin l) → risky (name :: c_string key :: l) s → 37 ∈ key.
Proof.
  intros Hn Hl [Hin _]. change (37 ∈ name ++ c_string key ++ mjoin l) in Hin. rewrite !elem_of_app in Hin.
  destruct Hin as [?|[?|?]]; [done|by apply c_string_sub|done].
Qed.

Lemma get_law (c : loc) key (k : clients) :
  redis_ok k →
  mostly (37 ∈ key) (redis_get_value c key k) (λ r, redis_ok r.2 ∧ stored r.2 ⊆ stored k ∧ (r.1.1 = 1 → c_string key ∈ stored k)).
Proof.
  intros Hok.
  apply (with_client_law _ _ _ (λ r D, dom D ⊆ dom (database k.2 0) ∧ (r.1 = 1 → c_string key ∈ dom (database k.2 0)))); [done|].
  intros Hc. eapply mostly_mono; [by apply get_value_spec|..].
  - apply risky_key; by apply (bool_decide_unpack _); vm_compute.
  - intros r (Hok' & Hs & Hr). split; [done|]. split; [by apply subseteq_dom|]. intros E.
    destruct Hr as [(_ & v & t & Ev & _)|[(E' & _)|(E' & _)]]; [by eapply elem_of_dom_2|unfold state in *; lia..].
Qed.

Lemma del_law (c : loc) key (k : clients) :
  redis_ok k →
  mostly (37 ∈ key) (redis_del_value c key k) (λ r, redis_ok r.2 ∧ stored r.2 ⊆ stored k ∧ (0 ≤ r.1 → c_string key ∉ stored r.2)).
Proof.
  intros Hok. apply (with_client_law _ _ _ (λ r D, dom D ⊆ dom (database k.2 0) ∧ (0 ≤ r → c_string key ∉ dom D))); [done|].
  intros Hc. eapply mostly_mono; [by apply del_value_spec|..].
  - apply risky_key; by apply (bool_decide_unpack _); vm_compute.
  - intros r (Hok' & Hs & Hr). split; [done|]. split; [by apply subseteq_dom|]. intros E.
    destruct Hr as [(_ & Hk & _)|?]; [by apply not_elem_of_dom|unfold state in *; lia].
Qed.

Lemma expire_law (c : loc) key t (k : clients) :
  redis_ok k → mostly (37 ∈ key) (redis_set_expire c key t k) (λ r, redis_ok r.2 ∧ stored r.2 ⊆ stored k).
Proof.
  intros Hok. apply (with_client_law _ _ _ (λ _ D, dom D ⊆ dom (database k.2 0))); [done|].
  intros Hc. eapply mostly_mono; [by apply set_expire_spec|..].
  - apply risky_key; [by apply (bool_decide_unpack _); vm_compute|]. change (37 ∉ c_string (format_int (if bool_decide (t = 0) then m_expire_seconds else t)) ++ []).
    rewrite app_nil_r. intros Hin%c_string_sub. by apply print_dec_not in Hin.
  - intros r (Hok' & Hs & Hk & _). split; [done|]. intros x Hx. pose proof (dom_elsewhere _ _ _ Hs x Hx) as Hin.
    apply elem_of_union in Hin as [->%elem_of_singleton|?]; [|done]. apply elem_of_dom in Hx as [[e t'] E].
    destruct (Hk e t' E) as (t0 & E0 & _). by eapply elem_of_dom_2.
Qed.

#[export] Instance redis_clients_laws : RedisLaws clients.
Proof.
  split.
  - intros c key v s r s' Hok E. exact (mostly_ret _ _ _ _ E (set_law c key v s Hok)).
  - intros c key s r v s' Hok E. exact (mostly_ret _ _ _ _ E (get_law c key s Hok)).
  - intros c key s r s' Hok E. exact (mostly_ret _ _ _ _ E (del_law c key s Hok)).
  - intros c key t s r s' Hok E. exact (mostly_ret _ _ _ _ E (expire_law c key t s Hok)).
  - intros c key v s Hok Hk. destruct (mostly_completes _ _ _ (set_law c key v s Hok) Hk) as [[r s'] E]. by exists r, s'.
  - intros c key s Hok Hk. destruct (mostly_completes _ _ _ (get_law c key s Hok) Hk) as [[[r v] s'] E]. by exists r, v, s'.
  - intros c key s Hok Hk. destruct (mostly_completes _ _ _ (del_law c key s Hok) Hk) as [[r s'] E]. by exists r, s'.
  - intros c key t s Hok Hk. destruct (mostly_completes _ _ _ (expire_law c key t s Hok) Hk) as [[r s'] E]. by exists r, s'.
Qed.
End clients.

(** ** A small hiredis *)

(** The databases of the server; [true]: the next reply does not come. *)
Record demo_context : Type := DemoContext { d_err : Z; d_obuf : list Z; d_pending : list (list (list Z)); d_session : Z }.
Record demo_world : Type := DemoWorld { w_databases : databases; w_lost : list bool }.

Definition demo_error (d : Z) (D : databases) : redisReply * Z * databases := (Reply REDIS_REPLY_ERROR 0 (Some (str "ERR")) [], d, D).

Definition demo_exec (cmd : list (list Z)) (d : Z) (D : databases) : redisReply * Z * databases :=
  match cmd with
  | [name; k; v] =>
      if decide (name = REDIS_CMD_SET) then (status REDIS_REPLY_STATUS_OK, d, <[d := <[k := (Text v, None)]> (D d)]> D)
      else if decide (name = REDIS_CMD_EXPIRE) then
        match D d !! k with
        | Some (e, _) => (number 1, d, <[d := <[k := (e, Some (parse_dec v))]> (D d)]> D)
        | None => (number 0, d, D)
        end
      else demo_error d D
  | [name; k] =>
      if decide (name = REDIS_CMD_GET) then
        match D d !! k with
        | Some (Text v, _) => (Reply REDIS_REPLY_STRING 0 (Some v) [], d, D)
        | None => (Reply REDIS_REPLY_NIL 0 None [], d, D)
        | _ => demo_error d D
        end
      else if decide (name = REDIS_CMD_SMEMBER) then
        match D d !! k with
        | Some (Members l, _) => (Reply REDIS_REPLY_ARRAY 0 None (texts (elements l)), d, if decide (l = ∅) then <[d := delete k (D d)]> D else D)
        | None => (Reply REDIS_REPLY_ARRAY 0 None [], d, D)
        | _ => demo_error d D
        end
      else if decide (name = REDIS_CMD_DEL) then
        (number (match D d !! k with Some _ => 1 | None => 0 end), d, <[d := delete k (D d)]> D)
      else if decide (name = REDIS_CMD_SELECT ∧ Forall (λ c, isdigit c = true) k) then (status REDIS_REPLY_STATUS_OK, dec_value 0 k, D)
      else demo_error d D
  | _ => demo_error d D
  end.

Definition demo_append (c : demo_context) (cmd : list (list Z)) : Z * demo_context :=
  (0, DemoContext (d_err c) (d_obuf c ++ resp cmd) (d_pending c ++ [cmd]) (d_session c)).

Definition demo_reply (c : demo_context) (cmd : list (list Z)) (w : demo_world) : option redisReply * demo_context * demo_world :=
  match w_lost w with
  | true :: l => (None, DemoContext 1 (d_obuf c) [] (d_session c), DemoWorld (w_databases w) l)
  | l =>
      let '(x, d, D) := demo_exec cmd (d_session c) (w_databases w) in
      (Some x, DemoContext 0 [] [] d, DemoWorld D (tail l))
  end.

#[export] Instance demo_hiredis : Hiredis demo_context demo_world := {
  err := d_err;
  obuf := d_obuf;
  redisConnectWithTimeout ip port timeout w := (Some (DemoContext 0 [] [] 0), w);
  redisFree c w := w;
  redisAppendCommand := demo_append;
  redisAppendFormat c text := match format_words [] text with Some cmd => Ret (demo_append c cmd) | None => Stuck end;
  redisGetReply c w :=
    let '(reply, c, w) := demo_reply c (match d_pending c with cmd :: _ => cmd | [] => [] end) w in
    (match reply with Some _ => 0 | None => -1 end, reply, c, w);
  redisCommand := demo_reply;
}.

#[export] Instance demo_server : RedisServer demo_context demo_world := {
  pending := d_pending;
  session := d_session;
  database := w_databases;
}.

Lemma demo_serves (cmd : list (list Z)) (d : Z) (D : databases) (K' : keyspace) x : serves cmd (D d) K' x → served cmd d d D (<[d := K']> D) x.
Proof.
  intros Hs. constructor; [by rewrite fn_lookup_insert|]. intros d' Hd. by rewrite fn_lookup_insert_ne.
Qed.

Lemma demo_reads (cmd : list (list Z)) (d : Z) (D : databases) x : serves cmd (D d) (D d) x → served cmd d d D D x.
Proof. by constructor. Qed.

Lemma demo_exec_served (cmd : list (list Z)) (d : Z) (D : databases) : served cmd d (demo_exec cmd d D).1.2 D (demo_exec cmd d D).2 (demo_exec cmd d D).1.1.
Proof.
  assert (served cmd d d D D (demo_error d D).1.1) as Herr by by apply demo_reads, serves_error.
  destruct cmd as [|name [|k [|v [|]]]]; try exact Herr; cbn [demo_exec].
  - case_decide as E1; [subst; cbn|case_decide as E0; [subst; cbn|case_decide as E2; [subst; cbn|case_decide as E3; [destruct E3 as [-> Ht]; cbn|exact Herr]]]].
    + destruct (D d !! k) as [[[v|l|h] t]|] eqn:Ek; try exact Herr; apply demo_reads; by econstructor.
    + destruct (D d !! k) as [[[v|l|h] t]|] eqn:Ek; try exact Herr.
      * case_decide as El.
        -- apply demo_serves. subst l. rewrite elements_empty. apply (serves_smembers k []); [apply delete_subseteq|constructor|left].
           split; [done|apply lookup_delete_eq].
        -- apply demo_reads. constructor; [done|apply NoDup_elements|right]. rewrite list_to_set_elements_L. split; [by intros ?%elements_empty_inv%leibniz_equiv|by exists t].
      * apply demo_reads. apply (serves_smembers k []); [done|constructor|by left].
    + apply demo_serves. constructor; [apply delete_subseteq|by rewrite lookup_delete_eq|by destruct (D d !! k)|].
      destruct (D d !! k); [by eexists|done].
    + apply served_select; [apply expired_refl|done].
  - case_decide as E1; [subst; cbn|case_decide as E2; [subst; cbn|exact Herr]].
    + apply demo_serves. constructor; [by rewrite delete_insert_eq; apply delete_subseteq|]. intros y. rewrite lookup_insert_eq. by intros [= <-].
    + destruct (D d !! k) as [[e t]|] eqn:Ek; cbn.
      * apply demo_serves. constructor; [by rewrite delete_insert_eq; apply delete_subseteq|done|done|by eexists|].
        intros e' t'. rewrite lookup_insert_eq. intros [= <- <-]. split; [done|by exists t].
      * apply demo_reads. constructor; [apply delete_subseteq|done|done|done|]. intros e t E. congruence.
Qed.

#[export] Instance demo_hiredis_laws : HiredisLaws demo_context demo_world.
Proof.
  split.
  - intros ip port t w c w' [= <- <-]. split; [apply expired_refl|]. by intros c' [= <-].
  - intros c w. apply expired_refl.
  - intros c cmd r c' [= <- <-]. left. by split_and!.
  - done.
  - intros c w cmd r reply c' w' E Herr Ep. cbn in E, Herr, Ep. rewrite Ep in E. unfold demo_reply in E.
    pose proof (demo_exec_served cmd (d_session c) (w_databases w)) as Hs. destruct (demo_exec cmd _ _) as [[x d] D].
    destruct (w_lost w) as [|[] l]; injection E as <- <- <- <-; [left| |left]; try (split_and!; try done; by exists x).
    right. split_and!; try done; [by exists []|left; apply expired_refl].
  - intros c w cmd reply c' w' E Herr Ep Eo. cbn in E. unfold demo_reply in E.
    pose proof (demo_exec_served cmd (d_session c) (w_databases w)) as Hs. destruct (demo_exec cmd _ _) as [[x d] D].
    destruct (w_lost w) as [|[] l]; injection E as <- <- <-; [right| |right]; try (split_and!; try done; by exists x).
    left. split_and!; [done..|left; apply expired_refl].
Qed.

(** ** Properties *)

(** C39 The operations on strings, expiry and the members of a set end, whatever
    the connection does: they reconnect at most once each time [commit_cmd] or
    [check_connection] finds it lost.  Apart from keys that expire nothing but
    the key that is named changes, at most to what was asked, also after -1.
    What an answer says: 0 of [set_value], that the server has nothing else at the
    key; 1 of [get_value] and its text, what the server had, up to the first zero
    byte, and 0, that the key is gone; 0 or 1 of [del_value], that the key is gone,
    and 1 that it was there; 1 of [set_expire], that the key was there and lives the
    seconds asked, and 0, that it is gone; the texts that [get_value_set] appends are
    the members the server had, each once, and 0 without them says that it has
    none.  Conversely a reply over a connection in order is the answer.  The
    operations are undefined at most when the connection had been lost and a
    text has a [%]: the command is then sent again as a format. *)
Theorem redis_client_correct {C W} `{HiredisLaws C W} `{BoostLaws} ip port timeout expire key value old vec t (s : redis_client C * W) :
  let secs := if bool_decide (t = 0) then expire else t in
  let k := c_string key in
  client_ok s.1 → is_s32 secs →
  (mostly (risky [REDIS_CMD_SET; k; c_string value] s) (set_value ip port timeout key value s) (λ r, client_ok r.2.1 ∧
      stores k (Text (c_string value), None) (keys s) (keys r.2) ∧
      (r.1 = 0 ∧ (∀ y, keys r.2 !! k = Some y → y = (Text (c_string value), None)) ∨ r.1 = -1)) ∧
   ∀ s', replied [REDIS_CMD_SET; k; c_string value] s (status REDIS_REPLY_STATUS_OK) s' → set_value ip port timeout key value s = Ret (0, s')) ∧
  (mostly (risky [REDIS_CMD_GET; k] s) (get_value ip port timeout key old s) (λ r, client_ok r.2.1 ∧ keys r.2 ⊆ keys s ∧
      ((r.1.1 = 1 ∧ ∃ v t, at_key k (Text v) t (keys s) ∧ v ≠ [] ∧ r.1.2 = c_string v) ∨
       (r.1.1 = 0 ∧ r.1.2 = old ∧ keys r.2 !! k = None) ∨ (r.1.1 = -1 ∧ r.1.2 = old))) ∧
   (∀ v s', v ≠ [] → replied [REDIS_CMD_GET; k] s (Reply REDIS_REPLY_STRING 0 (Some v) []) s' → get_value ip port timeout key old s = Ret (1, c_string v, s')) ∧
   ∀ s', replied [REDIS_CMD_GET; k] s (Reply REDIS_REPLY_NIL 0 None []) s' → get_value ip port timeout key old s = Ret (0, old, s')) ∧
  (mostly (risky [REDIS_CMD_DEL; k] s) (del_value ip port timeout key s) (λ r, client_ok r.2.1 ∧ keys r.2 ⊆ keys s ∧
      (0 ≤ r.1 ≤ 1 ∧ keys r.2 !! k = None ∧ (r.1 = 1 → is_Some (keys s !! k)) ∨ r.1 = -1)) ∧
   ∀ n s', 0 ≤ n ≤ 1 → replied [REDIS_CMD_DEL; k] s (number n) s' → del_value ip port timeout key s = Ret (n, s')) ∧
  (mostly (risky [REDIS_CMD_EXPIRE; k; c_string (format_int secs)] s)
      (set_expire ip port timeout expire key t s) (λ r, client_ok r.2.1 ∧ delete k (keys r.2) ⊆ keys s ∧
        (∀ e t', at_key k e t' (keys r.2) → ∃ t0, at_key k e t0 (keys s) ∧ (t' = t0 ∨ t' = Some secs)) ∧
        (r.1 = 1 ∧ is_Some (keys s !! k) ∧ (∀ e t', at_key k e t' (keys r.2) → t' = Some secs) ∨
         r.1 = 0 ∧ keys r.2 !! k = None ∨ r.1 = -1)) ∧
   ∀ n s', 0 ≤ n ≤ 1 → replied [REDIS_CMD_EXPIRE; k; c_string (format_int secs)] s (number n) s' → set_expire ip port timeout expire key t s = Ret (n, s')) ∧
  (mostly (risky [REDIS_CMD_SMEMBER; k] s) (get_value_set ip port timeout key vec s) (λ r, client_ok r.2.1 ∧ keys r.2 ⊆ keys s ∧
      (r.1 = (-1, vec) ∨ r.1 = (0, vec) ∧ keys r.2 !! k = None ∨
       ∃ l t, at_key k (Members (list_to_set l)) t (keys s) ∧ NoDup l ∧ r.1 = (s32 (slen (vec ++ map c_string l)), vec ++ map c_string l))) ∧
   ∀ l s', l ≠ [] → replied [REDIS_CMD_SMEMBER; k] s (Reply REDIS_REPLY_ARRAY 0 None (texts l)) s' →
     get_value_set ip port timeout key vec s = Ret (s32 (slen (vec ++ map c_string l)), vec ++ map c_string l, s')).
Proof.
  intros secs k Hok Hsecs.
  split; [split; [by apply set_value_spec|intros s'; apply set_value_replied]|].
  split; [split; [by apply get_value_spec|split; [intros v s' Hv Hr; by apply (get_value_replied ip port timeout key old s s' v)|intros s'; apply get_value_replied_nil]]|].
  split; [split; [by apply del_value_spec|intros n s' Hn Hr; by apply del_value_replied]|].
  split; [split; [|intros n s' Hn Hr; by apply set_expire_replied]|].
  - pose proof (set_expire_spec ip port timeout expire key t s Hok) as He. by rewrite seconds_text in He.
  - split; [by apply get_value_set_spec|]. intros l s' Hl Hr. by apply get_value_set_replied.
Qed.

(** *** Witness *)
Definition demo_client : redis_client demo_context * demo_world :=
  (RedisClient (Some (DemoContext 0 [] [] 0)) 0, DemoWorld (λ _, {[ str "a" := (Text (str "x"), None) ]}) []).

Lemma demo_client_ok : client_ok demo_client.1.
Proof. split; [done|]. intros c [= <-]. by right. Qed.

Lemma redis_client_correct_witness :
  mostly False (del_value (str "127.0.0.1") 6379 10 (str "a") demo_client) (λ r,
    0 ≤ r.1 ≤ 1 ∧ keys r.2 !! str "a" = None ∧ (r.1 = 1 → is_Some (keys demo_client !! str "a")) ∨ r.1 = -1) ∧
  (∃ s', set_expire (str "127.0.0.1") 6379 10 20000 (str "a") 120 demo_client = Ret (1, s')).
Proof.
  destruct (redis_client_correct (H2 := boost_impl) (str "127.0.0.1") 6379 10 20000 (str "a") (str "y") [] [] 120 demo_client demo_client_ok)
    as (_ & _ & [Hdel _] & [_ Hexp] & _); [unfold is_s32; rewrite bool_decide_eq_false_2 by lia; lia|]. split.
  - eapply mostly_mono; [exact Hdel| |].
    + intros [Hin _]. by revert Hin; apply (bool_decide_unpack _); vm_compute.
    + intros r (_ & _ & ?). done.
  - eexists. apply Hexp; [lia|]. exists (DemoContext 0 [] [] 0). eexists _, _, _. split; [done|]. split; [done|]. split; [reflexivity|].
    split; [reflexivity|]. reflexivity.
Defined.

(** ** What goes wrong *)

(** The connection has been lost, and the [SELECT] over the new one gets no
    reply. *)
Definition demo_lost : redis_client demo_context * demo_world :=
  (RedisClient (Some (DemoContext 1 [] [] 0)) 0, DemoWorld (λ _, {[ str "a" := (Text (str "x"), None) ]}) [true]).

(** The command is sent as a format over a third connection: the server does not
    know it, although the key is there; a key with a [%s] reads an argument that
    is not there. *)
Lemma resent_as_format :
  returns (get_value (str "127.0.0.1") 6379 10 (str "a") [] demo_lost) (λ r, r.1.1 = -1) ∧
  get_value (str "127.0.0.1") 6379 10 (str "a%s") [] demo_lost = Stuck.
Proof. by vm_compute. Qed.

(** With messages for debugging every field of a hash that is set reads a reply
    after it has been freed. *)
Lemma hash_read_after_free c w fields s x :
  m_redis_context s.1 = Some c → redisCommand c (str "HSET" :: fields) s.2 = (Some (number x), DemoContext 0 [] [] 0, w) →
  ∀ key f v, fields = [c_string key; c_string f; c_string v] →
  set_fields (str "127.0.0.1") 6379 10 true key [RedisField f v] s = Stuck.
Proof.
  intros Ec Er key f v ->. cbn [set_fields field field_value]. unfold command. by rewrite Ec, Er.
Qed.

(** A null context is read by the constructor. *)
Lemma constructor_null {C W} `{Hiredis C W} ip port timeout (w w' : W) :
  redisConnectWithTimeout (c_string ip) port timeout w = (None, w') → new_redis_client ip port timeout w = Stuck.
Proof. unfold new_redis_client. by intros ->. Qed.
