(* ===== verification/Program.v ===== *)
(** * Programs of threads that share a state

    What one thread does between two points at which others can run is an
    operation; a program is a tree of operations, each followed by what the
    thread does with the answer.  The same program can be run alone ([run]) and, operation
    by operation, interleaved with others. *)

From S2P Require Import Prelude.

(** [Crash]: the thread does something undefined. *)
Inductive prog (E : Type → Type) (R : Type) : Type :=
  | Done (r : R)
  | Crash
  | Do {A : Type} (o : E A) (k : A → prog E R).
Arguments Done {E R} r.
Arguments Crash {E R}.
Arguments Do {E R A} o k.

Fixpoint prog_bind {E A B} (k : A → prog E B) (p : prog E A) : prog E B :=
  match p with
  | Done r => k r
  | Crash => Crash
  | Do o f => Do o (λ a, prog_bind k (f a))
  end.

#[export] Instance prog_mbind E : MBind (prog E) := λ A B k p, prog_bind k p.
#[export] Instance prog_mret E : MRet (prog E) := λ A r, Done r.

Declare Scope prog_scope.
Delimit Scope prog_scope with prog.
Notation "'do!' x := p 'in' k" := (mbind (M:=prog _) (λ x, k) p)
  (at level 10, x pattern, p at level 200, k at level 200, only parsing) : prog_scope.
#[global] Open Scope prog_scope.

(** One operation. *)
Definition act {E A} (o : E A) : prog E A := Do o Done.

(** A computation that no other thread sees. *)
Definition local {E A} (m : outcome A) : prog E A :=
  match m with
  | Ret a => Done a
  | Stuck | Loop => Crash
  end.

Section execution.
Context {E : Type → Type} {W Answer : Type}.
(** The effect of an operation; [Answer] is what the environment answers. *)
Context (exec : ∀ A, Answer → E A → W → outcome (A * W)).

(** A program on its own; the environment answers one operation after the other. *)
Fixpoint run {R} (os : nat → Answer) (p : prog E R) (w : W) : outcome (R * W) :=
  match p with
  | Done r => Ret (r, w)
  | Crash => Stuck
  | Do o k => let! r := exec _ (os O) o w in run (λ n, os (S n)) (k r.1) r.2
  end.

Lemma run_bind {A B} os (p : prog E A) (k : A → prog E B) w :
  ∃ n, run os (p ≫= k) w = (let! r := run os p w in run (λ i, os (n + i)%nat) (k r.1) r.2).
Proof.
  revert os w. induction p as [r| |A' o f IH]; intros os w; [by exists O..|].
  cbn [run]. change (Do o f ≫= k) with (Do o (λ a, f a ≫= k)). cbn [run].
  destruct (exec A' (os O) o w) as [[x w1]| |]; [|by exists O..]. cbn [mbind outcome_bind fst snd].
  destruct (IH x (λ n, os (S n)) w1) as [n Hn]. exists (S n). exact Hn.
Qed.

(** With one answer to every operation the places do not matter. *)
Definition run_with {R} (a : Answer) (p : prog E R) (w : W) : outcome (R * W) := run (λ _, a) p w.

Lemma run_with_bind {A B} a (p : prog E A) (k : A → prog E B) w :
  run_with a (p ≫= k) w = (let! r := run_with a p w in run_with a (k r.1) r.2).
Proof. unfold run_with. by destruct (run_bind (λ _, a) p k w) as [n ->]. Qed.

Lemma run_with_act {A} a (o : E A) w : run_with a (act o) w = exec A a o w.
Proof. unfold run_with, act. cbn [run]. by destruct (exec A a o w) as [[x w']| |]. Qed.

Lemma run_with_done {R} a (r : R) w : run_with a (Done r) w = Ret (r, w).
Proof. done. Qed.

Lemma run_with_local {A} a (m : outcome A) x w : m = Ret x → run_with a (local m) w = Ret (x, w).
Proof. by intros ->. Qed.
End execution.

Lemma bind_done {E A B} (k : A → prog E B) a : prog_bind k (Done a) = k a.
Proof. done. Qed.

(** ** What a thread may do

    [wp crash g l p Q]: every operation of [p] is called with what [requires]
    allows, if the answers are [possible], and it ends with [Q]; it crashes only
    if [crash].  [g] is what is known of the shared state, which only grows; [l]
    belongs to the thread, and an operation changes it. *)
Section wp.
Context {E : Type → Type} {G L : Type} (grows : G → G → Prop).
Context (requires : ∀ A, G → L → E A → Prop) (possible : ∀ A, G → E A → A → Prop) (learns : ∀ A, L → E A → A → L).

Fixpoint prog_wp {R} (crash : Prop) (g : G) (l : L) (p : prog E R) (Q : G → L → R → Prop) : Prop :=
  match p with
  | Done r => Q g l r
  | Crash => crash
  | Do o k => requires _ g l o ∧ ∀ g' a, grows g g' → possible _ g' o a → prog_wp crash g' (learns _ l o a) (k a) Q
  end.

Lemma prog_wp_bind {A B} crash g l (p : prog E A) (k : A → prog E B) Q :
  prog_wp crash g l p (λ g l a, prog_wp crash g l (k a) Q) → prog_wp crash g l (p ≫= k) Q.
Proof.
  revert g l. induction p as [r| |A' o f IH]; intros g l; [done..|].
  intros [Hr Hk]. split; [done|]. intros g' a Hl Ha. apply IH, Hk; done.
Qed.

Lemma prog_wp_act {A} crash g l (o : E A) Q :
  requires _ g l o → (∀ g' a, grows g g' → possible _ g' o a → Q g' (learns _ l o a) a) → prog_wp crash g l (act o) Q.
Proof. by split. Qed.

Lemma prog_wp_local {A} crash g l (m : outcome A) Q :
  match m with Ret a => Q g l a | _ => crash end → prog_wp crash g l (local m) Q.
Proof. by destruct m. Qed.

Lemma prog_wp_mono {R} crash g l (p : prog E R) (Q Q' : G → L → R → Prop) :
  prog_wp crash g l p Q → (∀ g l r, Q g l r → Q' g l r) → prog_wp crash g l p Q'.
Proof.
  revert g l. induction p as [r| |A o k IH]; intros g l; cbn [prog_wp]; [auto..|].
  intros [Hr Hk] HQ. split; [done|]. intros g' a Hg Ha. by apply IH; [apply Hk|].
Qed.

(** More may be known. *)
Lemma prog_wp_grows `{!Transitive grows} {R} crash g g' l (p : prog E R) (Q : G → L → R → Prop) :
  (∀ A g g' l (o : E A), grows g g' → requires _ g l o → requires _ g' l o) →
  (∀ g g' l r, grows g g' → Q g l r → Q g' l r) → grows g g' → prog_wp crash g l p Q → prog_wp crash g' l p Q.
Proof.
  intros Hreq HQ Hg. destruct p as [r| |A o k]; [by apply HQ|done|]. intros [Hr Hk]. split; [by eapply Hreq|].
  intros g2 a Hg2. apply Hk. by transitivity g'.
Qed.
End wp.
