(* ===== verification/Dispatcher.v ===== *)
(** * The dispatcher of the notify adapter
    ([notify_adapter_v2/src/main/dispatcher.cpp], [threadpoll_manager.cpp],
    [template_pool.h], [template_guard.h], [service/tokenid_service.cpp])

    Threads take messages of the connection server and requests of the HTTP
    server, hand them as tasks to two pools of workers, and the workers answer
    with commands to the two servers.  Each thread is a program over operations
    ([Program.v]); an operation is what happens under one lock, or one call to a
    client of Redis, libcurl or ZeroMQ.  The clients of Redis are reached
    through the interface of [Redis.v]; what libcurl, the clock and the random
    numbers answer comes from the environment.  Logging and statistics are left
    out, as are [get_session_info] and [json_to_session], which nothing calls.
    The HTTP requests are those of [HttpServer.v]. *)

From Stdlib Require Import String.
From S2P Require Import Prelude Text Utility MyCommon Config HttpPacket HttpResponse BlockQueue Frame Socket Redis Program.
From S2P Require TcpServer HttpServer RedisClient.
Import TcpServer (STU_MSG_INFO, MsgInfo, msg_fd, msg_tag, tokenid, content_path, content).
Import HttpServer (http_request, request_packet, m_clientfd, m_client_tag).

(** ** Definitions: operations *)
Inductive task : Type :=
  | process_auth_task (prequest : STU_MSG_INFO)
  | process_getkey_task (prequest : STU_MSG_INFO)
  | process_offline_task (prequest : STU_MSG_INFO)
  | process_heartbeat_task (prequest : STU_MSG_INFO)
  | http_process_boadcast_task (request : http_request).

Inductive op : Type → Type :=
  | DequeueClient : op (Z * option loc)
  | RestoreClient (c : loc) : op unit
  | RedisSet (c : loc) (k v : list Z) : op Z
  | RedisGet (c : loc) (k : list Z) : op (Z * list Z)
  | RedisDel (c : loc) (k : list Z) : op Z
  | RedisExpire (c : loc) (k : list Z) (seconds : Z) : op Z
  | HttpPost (url params : list Z) (timeout : Z) : op (Z * list Z)
  | Random : op Z
  | Time : op Z
  | ReplyData (fd tag : Z) (data : list Z) : op unit
  | ReplyDataIdentity (identity data : list Z) : op unit
  | ReplyClose (fd tag : Z) : op unit
  | ReplyAuthOk (fd tag : Z) (identity : list Z) : op unit
  | Boadcast (data : list Z) : op unit
  | Publish (data identity : list Z) : op unit
  | HttpSend (fd tag : Z) (data : list Z) : op unit
  | HttpClose (fd tag : Z) : op unit
  | TakeMessage : op (Z * option STU_MSG_INFO)
  | TakeRequest : op (Z * option http_request)
  | CommitTask (t : task) : op unit
  | TakeTask : op (Z * option task)
  | CommitHttpTask (t : task) : op unit
  | TakeHttpTask : op (Z * option task).

(** ** Definitions: [template_pool], [template_guard] *)
Fixpoint fetch_attempts (n : nat) : prog op (Z * option loc) :=
  match n with
  | O => Done (-1, None)
  | S n =>
      do! r := act DequeueClient in
      let (result, pobj) := (r : Z * option loc) in
      if bool_decide (result ≠ 1) then fetch_attempts n else Done (0, pobj)
  end.

Definition fetch_obj : prog op (Z * option loc) := fetch_attempts 5.

(** A guard around [body]; its destructor gives the client back. *)
Definition with_guard (body : loc → prog op Z) : prog op Z :=
  do! r := fetch_obj in
  let (result, m_pobj) := (r : Z * option loc) in
  if bool_decide (result = -1) then Done (-1)
  else
    match m_pobj with
    | None => Done (-1)
    | Some pclient =>
        do! result := body pclient in
        do! _ := act (RestoreClient pclient) in
        Done result
    end.

(** ** Definitions: [dispatcher] *)
Definition PREFIX_RANDOMKEY : list Z := str "randomkey".
Definition PATH_BROADCAST : list Z := str "/notify/adapter/boadcast/push".

Definition set_randomkey_cache (key : list Z) : prog op Z :=
  with_guard (λ pclient,
    do! result := act (RedisSet pclient (PREFIX_RANDOMKEY ++ key) (str "0")) in
    if bool_decide (result = -1) then Done (-1)
    else
      do! _ := act (RedisExpire pclient (PREFIX_RANDOMKEY ++ key) 120) in
      Done 0).

Definition remove_randomkey_cache (key : list Z) : prog op Z :=
  with_guard (λ pclient,
    do! _ := act (RedisDel pclient (PREFIX_RANDOMKEY ++ key)) in
    Done 0).

Definition query_randomkey_cache (key : list Z) : prog op Z :=
  with_guard (λ pclient,
    do! r := act (RedisGet pclient (PREFIX_RANDOMKEY ++ key)) in
    let result : Z := r.1 in
    if negb (bool_decide (result = 0)) && negb (bool_decide (result = 1)) && negb (bool_decide (result = -1)) then Done (-1)
    else Done result).

Section dispatcher.
Context `{Boost} (host_le : bool) (MD5 : list Z → list Z).
(** [tokenid_service::m_server_domain], [m_tokenid_server_domain] and the
    identity of the application server, from the configuration. *)
Context (m_server_domain m_tokenid_server_domain m_zmq_router_app_server_identity : list Z).

(** The result and [tokenid]. *)
Definition fetch_tokenid (uid gameinternalno : list Z) : prog op (Z * list Z) :=
  let mapparam : gmap (list Z) (list Z) := ∅ in
  let mapparam := map_insert mapparam (str "uid") uid in
  let mapparam := map_insert mapparam (str "domain") m_server_domain in
  let mapparam := map_insert mapparam (str "gameinternalno") gameinternalno in
  let params := map2string [] mapparam in
  do! r := act (HttpPost m_tokenid_server_domain params 10) in
  let (result, m_str_response_body) := (r : Z * list Z) in
  if bool_decide (result = -1) then Done (-1, [])
  else
    do! mapresult := local (string2map m_str_response_body ∅) in
    let tokenid := get_value (str "tokenid") mapresult in
    if bool_decide (tokenid = []) then Done (-1, tokenid) else Done (0, tokenid).

(** The answer to an authentication that is refused. *)
Definition refuse_auth (prequest : STU_MSG_INFO) (seqid : list Z) : prog op unit :=
  let rtn_content := encode_auth false [] seqid [] in
  let rtn_buffer := encode_buffer host_le 0 rtn_content [] in
  do! _ := act (ReplyData (msg_fd prequest) (msg_tag prequest) rtn_buffer) in
  act (ReplyClose (msg_fd prequest) (msg_tag prequest)).

Definition process_auth (prequest : STU_MSG_INFO) : prog op unit :=
  do! m_content_map := local (decode_content (content prequest) ∅) in
  let seqid := get_value (str "seqid") m_content_map in
  let gameinternalno := get_value (str "gameinternalno") m_content_map in
  let uid := get_value (str "uid") m_content_map in
  let randomkey := get_value (str "key") m_content_map in
  if bool_decide (randomkey = []) then refuse_auth prequest seqid
  else
    do! result := query_randomkey_cache randomkey in
    if bool_decide (result ≠ 1) then refuse_auth prequest seqid
    else
      do! _ := remove_randomkey_cache randomkey in
      do! r := fetch_tokenid uid gameinternalno in
      let (result, tokenid) := (r : Z * list Z) in
      if bool_decide (result = -1) || bool_decide (tokenid = []) then refuse_auth prequest seqid
      else
        let rtn_content := encode_auth true [] seqid tokenid in
        let rtn_buffer := encode_buffer host_le 0 rtn_content [] in
        do! _ := act (ReplyAuthOk (msg_fd prequest) (msg_tag prequest) tokenid) in
        act (ReplyData (msg_fd prequest) (msg_tag prequest) rtn_buffer).

Definition process_getkey (prequest : STU_MSG_INFO) : prog op unit :=
  do! m_content_map := local (decode_content (content prequest) ∅) in
  let gameinternalno := get_value (str "gameinternalno") m_content_map in
  do! random := act Random in
  do! time := act Time in
  let hashbefore := gameinternalno ++ format_uint64 (u64 random) ++ format_uint64 (u64 time) in
  do! randomkey := local (get_md5 MD5 hashbefore) in
  do! result := set_randomkey_cache randomkey in
  if bool_decide (result = -1) then
    let rtn_buffer := encode_buffer host_le 0 (encode_getkey_rtn false randomkey []) [] in
    do! _ := act (ReplyData (msg_fd prequest) (msg_tag prequest) rtn_buffer) in
    act (ReplyClose (msg_fd prequest) (msg_tag prequest))
  else
    let rtn_buffer := encode_buffer host_le 0 (encode_getkey_rtn true randomkey []) [] in
    act (ReplyData (msg_fd prequest) (msg_tag prequest) rtn_buffer).

Definition process_offline (prequest : STU_MSG_INFO) : prog op unit :=
  let mapparams : gmap (list Z) (list Z) := ∅ in
  let mapparams := map_insert mapparams (str "path") (str "/svr/notify_adapter/presence/post") in
  let mapparams := map_insert mapparams (str "type") (str "offline") in
  let mapparams := map_insert mapparams (str "tokenid") (tokenid prequest) in
  act (Publish (map2string [] mapparams) m_zmq_router_app_server_identity).

Definition process_heartbeat (prequest : STU_MSG_INFO) : prog op unit :=
  let mapparams : gmap (list Z) (list Z) := ∅ in
  let mapparams := map_insert mapparams (str "path") (str "/notify/token_manager/heartbeat/post") in
  let mapparams := map_insert mapparams (str "tokenid") (tokenid prequest) in
  act (Publish (map2string [] mapparams) m_zmq_router_app_server_identity).

Definition http_reply_ok (request : http_request) : prog op unit :=
  let mapreturn : gmap (list Z) (list Z) := ∅ in
  let mapreturn := map_insert mapreturn (str "result") (str "1") in
  let mapreturn := map_insert mapreturn (str "errinfo") (str "ok") in
  do! m_str_respond := local (encode 200 mapreturn (str "text/html")) in
  do! _ := act (HttpSend (m_clientfd request) (m_client_tag request) m_str_respond) in
  act (HttpClose (m_clientfd request) (m_client_tag request)).

Definition http_process_boadcast (request : http_request) : prog op unit :=
  let broadcastInfo := get_value (str "broadcastInfo") (mapParam (request_packet request)) in
  if bool_decide (broadcastInfo = []) then http_reply_ok request
  else
    do! broadcastInfo := local (URLDecode broadcastInfo) in
    let strboadcast := str "path=/svr/notify/adapter/boadcast&msgcontent=" ++ broadcastInfo in
    let buffer := encode_buffer host_le 0 strboadcast [] in
    do! _ := act (Boadcast buffer) in
    http_reply_ok request.

(** A push from the application server. *)
Definition zmq_sub_recv_callback (str_data : list Z) : prog op unit :=
  do! map_recv := local (string2map str_data ∅) in
  let tokenid := get_value (str "tokenid") map_recv in
  if bool_decide (tokenid = []) then Done tt
  else if bool_decide (find_str m_server_domain tokenid 0 = None) then Done tt
  else
    let sendbuffer := encode_buffer host_le 0 str_data [] in
    act (ReplyDataIdentity tokenid sendbuffer).

(** *** The loops of the threads, one turn *)
Definition adapter_cmd_turn : prog op unit :=
  do! r := act TakeMessage in
  let (result, data) := (r : Z * option STU_MSG_INFO) in
  if bool_decide (result ≠ 1) then Done tt
  else match data with
  | Some pstu_msg_info =>
      if bool_decide (content_path pstu_msg_info = CONTENT_PATH_AUTH) then act (CommitTask (process_auth_task pstu_msg_info))
      else if bool_decide (content_path pstu_msg_info = CONTENT_PATH_GETKEY) then act (CommitTask (process_getkey_task pstu_msg_info))
      else if bool_decide (content_path pstu_msg_info = CONTENT_PATH_OFFLINE) then act (CommitTask (process_offline_task pstu_msg_info))
      else if bool_decide (content_path pstu_msg_info = CONTENT_PATH_HEARTBEAT) then act (CommitTask (process_heartbeat_task pstu_msg_info))
      else
        let tempcontent := content pstu_msg_info in
        let tempcontent := tempcontent ++ str "&tokenid=" ++ tokenid pstu_msg_info in
        act (Publish tempcontent m_zmq_router_app_server_identity)
  | None => Done tt
  end.

Definition http_request_turn : prog op unit :=
  do! r := act TakeRequest in
  let (result, data) := (r : Z * option http_request) in
  if bool_decide (result ≠ 1) then Done tt
  else match data with
  | Some request =>
      if bool_decide (m_str_cmdpath (request_packet request) = PATH_BROADCAST) then
        act (CommitHttpTask (http_process_boadcast_task request))
      else
        do! m_str_respond := local (encode 404 ∅ (str "text/html")) in
        do! _ := act (HttpSend (m_clientfd request) (m_client_tag request) m_str_respond) in
        act (HttpClose (m_clientfd request) (m_client_tag request))
  | None => Done tt
  end.

Definition run_task (t : task) : prog op unit :=
  match t with
  | process_auth_task prequest => process_auth prequest
  | process_getkey_task prequest => process_getkey prequest
  | process_offline_task prequest => process_offline prequest
  | process_heartbeat_task prequest => process_heartbeat prequest
  | http_process_boadcast_task request => http_process_boadcast request
  end.

(** [general_thread_doit] of the two pools. *)
Definition worker_turn : prog op unit :=
  do! r := act TakeTask in
  let (result, data) := (r : Z * option task) in
  if bool_decide (result ≠ 1) then Done tt
  else match data with
  | Some task => run_task task
  | None => Done tt
  end.
Definition http_worker_turn : prog op unit :=
  do! r := act TakeHttpTask in
  let (result, data) := (r : Z * option task) in
  if bool_decide (result ≠ 1) then Done tt
  else match data with
  | Some task => run_task task
  | None => Done tt
  end.
End dispatcher.

(** ** Definitions: the shared state *)

(** The two servers, the server and clients of Redis, the pool of clients, the
    tasks of the two pools of workers, what has been sent to ZeroMQ, and the
    keys, as C strings, that have been given to [set_value]. *)
Record world (K : Type) : Type := World {
  w_tcp : TcpServer.server;
  w_http : HttpServer.httpserver;
  w_redis : K;
  w_pool : block_queue loc;
  w_tasks : block_queue task;
  w_http_tasks : block_queue task;
  w_published : list (list Z * list Z);
  w_issued : gset (list Z);
}.
Arguments World {K}.
Arguments w_tcp {K}. Arguments w_http {K}. Arguments w_redis {K}. Arguments w_pool {K}.
Arguments w_tasks {K}. Arguments w_http_tasks {K}. Arguments w_published {K}. Arguments w_issued {K}.

(** What the environment answers to one operation. *)
Record answers : Type := Answers {
  a_env : environment;
  a_wait : wait_result;
  a_post : Z * list Z;
  a_random : Z;
  a_time : Z;
}.

Section exec.
Context {K : Type} `{RedisClients K}.
Implicit Types (w : world K).

Definition set_tcp (s : TcpServer.server) w : world K :=
  World s (w_http w) (w_redis w) (w_pool w) (w_tasks w) (w_http_tasks w) (w_published w) (w_issued w).
Definition set_http (s : HttpServer.httpserver) w : world K :=
  World (w_tcp w) s (w_redis w) (w_pool w) (w_tasks w) (w_http_tasks w) (w_published w) (w_issued w).
Definition set_redis (r : K) w : world K :=
  World (w_tcp w) (w_http w) r (w_pool w) (w_tasks w) (w_http_tasks w) (w_published w) (w_issued w).
Definition set_pool (q : block_queue loc) w : world K :=
  World (w_tcp w) (w_http w) (w_redis w) q (w_tasks w) (w_http_tasks w) (w_published w) (w_issued w).
Definition set_tasks (q : block_queue task) w : world K :=
  World (w_tcp w) (w_http w) (w_redis w) (w_pool w) q (w_http_tasks w) (w_published w) (w_issued w).
Definition set_http_tasks (q : block_queue task) w : world K :=
  World (w_tcp w) (w_http w) (w_redis w) (w_pool w) (w_tasks w) q (w_published w) (w_issued w).
Definition publish (data identity : list Z) w : world K :=
  World (w_tcp w) (w_http w) (w_redis w) (w_pool w) (w_tasks w) (w_http_tasks w) (w_published w ++ [(data, identity)]) (w_issued w).
Definition issue (k : list Z) w : world K :=
  World (w_tcp w) (w_http w) (w_redis w) (w_pool w) (w_tasks w) (w_http_tasks w) (w_published w) ({[ k ]} ∪ w_issued w).

Definition exec A (a : answers) (o : op A) w : outcome (A * world K) :=
  let e := a_env a in
  match o in op A return outcome (A * world K) with
  | DequeueClient => let '(r, c, q) := dequeue_expand (a_wait a) (w_pool w) in Ret ((r, c), set_pool q w)
  | RestoreClient c => Ret (tt, set_pool (add_queue (w_pool w) c) w)
  | RedisSet c k v => let! r := redis_set_value c k v (w_redis w) in Ret (r.1, issue (c_string k) (set_redis r.2 w))
  | RedisGet c k => let! r := redis_get_value c k (w_redis w) in Ret (r.1, set_redis r.2 w)
  | RedisDel c k => let! r := redis_del_value c k (w_redis w) in Ret (r.1, set_redis r.2 w)
  | RedisExpire c k t => let! r := redis_set_expire c k t (w_redis w) in Ret (r.1, set_redis r.2 w)
  | HttpPost _ _ _ => Ret (a_post a, w)
  | Random => Ret (a_random a, w)
  | Time => Ret (a_time a, w)
  | ReplyData fd tag data => Ret (tt, set_tcp (TcpServer.reply_data e fd tag data (w_tcp w)) w)
  | ReplyDataIdentity id data => Ret (tt, set_tcp (TcpServer.reply_data_identity e id data (w_tcp w)) w)
  | ReplyClose fd tag => Ret (tt, set_tcp (TcpServer.reply_close e fd tag (w_tcp w)) w)
  | ReplyAuthOk fd tag id => Ret (tt, set_tcp (TcpServer.reply_auth_ok e fd tag id (w_tcp w)) w)
  | Boadcast data => Ret (tt, set_tcp (TcpServer.boadcast e data (w_tcp w)).2 w)
  | Publish data id => Ret (tt, publish data id w)
  | HttpSend fd tag data => Ret (tt, set_http (HttpServer.send_data e fd tag data (w_http w)).2 w)
  | HttpClose fd tag => Ret (tt, set_http (HttpServer.close_client e fd tag (w_http w)).2 w)
  | TakeMessage =>
      let '(r, m, q) := dequeue_expand (a_wait a) (TcpServer.m_queue_adapter_cmd (w_tcp w)) in
      Ret ((r, m), set_tcp (TcpServer.set_messages q (w_tcp w)) w)
  | TakeRequest =>
      let '(r, m, q) := dequeue_expand (a_wait a) (HttpServer.m_request_queue (w_http w)) in
      Ret ((r, m), set_http (HttpServer.set_requests q (HttpServer.m_requst_count (w_http w)) (w_http w)) w)
  | CommitTask t => Ret (tt, set_tasks (add_queue (w_tasks w) t) w)
  | TakeTask => let '(r, t, q) := dequeue_expand (a_wait a) (w_tasks w) in Ret ((r, t), set_tasks q w)
  | CommitHttpTask t => Ret (tt, set_http_tasks (add_queue (w_http_tasks w) t) w)
  | TakeHttpTask => let '(r, t, q) := dequeue_expand (a_wait a) (w_http_tasks w) in Ret ((r, t), set_http_tasks q w)
  end.
End exec.

(** What an operation sends to Redis. *)
Definition redis_text {A} (o : op A) : list Z :=
  match o with
  | RedisSet _ k v => k ++ v
  | RedisGet _ k | RedisDel _ k | RedisExpire _ k _ => k
  | _ => []
  end.

(** ** Definitions: the whole adapter *)
Inductive role : Type := AdapterCmd | HttpRequests | Worker | HttpWorker | Subscriber.

Section adapter.
Context {K : Type} `{RedisClients K} `{Boost} `{HttpServer.RequestDecoder}.
Context (host_le : bool) (MD5 : list Z → list Z) (m_verify_key : list Z).
Context (check_interval invalid_timeout : Z).
Context (server_domain tokenid_domain app_server : list Z).

(** What a thread does each time it comes back to its loop; the subscriber is
    called with whatever text arrives. *)
Inductive turn : role → prog op unit → Prop :=
  | turn_adapter : turn AdapterCmd (adapter_cmd_turn app_server)
  | turn_requests : turn HttpRequests http_request_turn
  | turn_worker : turn Worker (worker_turn host_le MD5 server_domain tokenid_domain app_server)
  | turn_http_worker : turn HttpWorker (http_worker_turn host_le MD5 server_domain tokenid_domain app_server)
  | turn_subscriber data : turn Subscriber (zmq_sub_recv_callback host_le server_domain data).

Record adapter : Type := Adapter { the_world : world K; the_threads : gmap positive (role * prog op unit) }.

(** The two reactors, the keys that expire, and the threads; nobody else
    writes keys with the prefix of the random keys. *)
Inductive adapter_step : adapter → adapter → Prop :=
  | adapter_event w ts ev s :
      TcpServer.kernel_ok ev.2 (w_tcp w) → TcpServer.handle host_le MD5 m_verify_key ev (w_tcp w) = Ret s →
      adapter_step (Adapter w ts) (Adapter (set_tcp s w) ts)
  | adapter_timeout w ts e s :
      TcpServer.check_timeout_statements host_le MD5 m_verify_key check_interval invalid_timeout e (w_tcp w) = Ret s →
      adapter_step (Adapter w ts) (Adapter (set_tcp s w) ts)
  | adapter_http w ts ev s :
      HttpServer.kernel_ok ev (w_http w) → HttpServer.handle ev (w_http w) = Ret s →
      adapter_step (Adapter w ts) (Adapter (set_http s w) ts)
  | adapter_redis w ts k : redis_ok k → stored k ⊆ stored (w_redis w) → adapter_step (Adapter w ts) (Adapter (set_redis k w) ts)
  | adapter_turn w ts t r p :
      ts !! t = Some (r, Done tt) → turn r p → adapter_step (Adapter w ts) (Adapter w (<[t := (r, p)]> ts))
  | adapter_does w ts t r A (o : op A) k a x w' :
      ts !! t = Some (r, Do o k) → exec A a o w = Ret (x, w') →
      adapter_step (Adapter w ts) (Adapter w' (<[t := (r, k x)]> ts)).

(** The adapter after its start, with [n] clients of Redis. *)
Definition started (now : Z) (k : K) (clients : list loc) (roles : list (positive * role)) : adapter :=
  Adapter (World (TcpServer.new_server now) HttpServer.new_server k (foldl add_queue new_block_queue clients)
             new_block_queue new_block_queue [] ∅)
    (list_to_map ((λ tr, (tr.1, (tr.2, Done tt))) <$> roles)).
End adapter.

(** ** What a thread may do

    [wp log seen p Q]: while the log of the HTTP server has grown from [log],
    and the keys [seen] have been found in Redis, every operation of [p] is
    called with arguments that satisfy [requires], if the answers it gets
    satisfy [possible]; it crashes only if [crash] allows it. *)
Section wp.
Context `{Boost} (MD5 : list Z → list Z) (m_verify_key : list Z).

Definition key_of (m : STU_MSG_INFO) (k : list Z) : Prop :=
  ∃ mc, decode_content (content m) ∅ = Ret mc ∧ k = c_string (PREFIX_RANDOMKEY ++ get_value (str "key") mc).

Definition signed (m : STU_MSG_INFO) : Prop :=
  ∃ mc, decode_content (content m) ∅ = Ret mc ∧ content_auth_verify MD5 m_verify_key mc = Ret 0.

Definition sound_message (m : STU_MSG_INFO) : Prop :=
  0 ≤ msg_fd m ∧ (content_path m = CONTENT_PATH_AUTH → tokenid m ≠ [] ∨ signed m).

Definition sound_request (log : list action) (q : http_request) : Prop := Accepted (m_clientfd q) (m_client_tag q) ∈ log.

(** A task of the first pool, and one of either. *)
Definition sound_task (t : task) : Prop :=
  match t with
  | process_auth_task m => sound_message m ∧ content_path m = CONTENT_PATH_AUTH
  | process_getkey_task m | process_offline_task m | process_heartbeat_task m => sound_message m
  | http_process_boadcast_task _ => False
  end.
Definition sound_http_task (log : list action) (t : task) : Prop :=
  match t with
  | http_process_boadcast_task q => sound_request log q
  | _ => False
  end.

(** An authentication is granted to the connection of a message for a key of
    the message that has been found. *)
Definition auth_allowed (seen : list (list Z)) (fd tag : Z) (id : list Z) : Prop :=
  id ≠ [] ∧ ∃ m k, sound_message m ∧ content_path m = CONTENT_PATH_AUTH ∧ fd = msg_fd m ∧ tag = msg_tag m ∧ key_of m k ∧ k ∈ seen.

Definition requires (log : list action) (seen : list (list Z)) {A} (o : op A) : Prop :=
  match o with
  | ReplyData fd _ _ | ReplyClose fd _ => 0 ≤ fd
  | ReplyAuthOk fd tag id => auth_allowed seen fd tag id
  | HttpSend fd tag _ | HttpClose fd tag => Accepted fd tag ∈ log
  | CommitTask t => sound_task t
  | CommitHttpTask t => sound_http_task log t
  | _ => True
  end.

Definition possible (log : list action) {A} (o : op A) : A → Prop :=
  match o in op A return A → Prop with
  | TakeMessage => λ a, ∀ m, a.2 = Some m → sound_message m
  | TakeRequest => λ a, ∀ q, a.2 = Some q → sound_request log q
  | TakeTask => λ a, ∀ t, a.2 = Some t → sound_task t
  | TakeHttpTask => λ a, ∀ t, a.2 = Some t → sound_http_task log t
  | _ => λ _, True
  end.

Definition learns (seen : list (list Z)) {A} (o : op A) : A → list (list Z) :=
  match o in op A return A → list (list Z) with
  | RedisGet _ k => λ a, if bool_decide (a.1 = 1) then c_string k :: seen else seen
  | _ => λ _, seen
  end.

Fixpoint wp {R} (crash : Prop) (log : list action) (seen : list (list Z)) (p : prog op R)
    (Q : list action → list (list Z) → R → Prop) : Prop :=
  match p with
  | Done r => Q log seen r
  | Crash => crash
  | Do o k => requires log seen o ∧ ∀ log' a, log ⊆ log' → possible log' o a → wp crash log' (learns seen o a) (k a) Q
  end.

Lemma wp_bind {A B} crash log seen (p : prog op A) (k : A → prog op B) Q :
  wp crash log seen p (λ log seen a, wp crash log seen (k a) Q) → wp crash log seen (p ≫= k) Q.
Proof.
  revert log seen. induction p as [r| |A' o f IH]; intros log seen; [done..|].
  intros [Hr Hk]. split; [done|]. intros log' a Hl Ha. apply IH, Hk; done.
Qed.

Lemma wp_act {A} crash log seen (o : op A) Q :
  requires log seen o → (∀ log' a, log ⊆ log' → possible log' o a → Q log' (learns seen o a) a) → wp crash log seen (act o) Q.
Proof. by split. Qed.

Lemma wp_local {A} crash log seen (m : outcome A) Q :
  match m with Ret a => Q log seen a | _ => crash end → wp crash log seen (local m) Q.
Proof. by destruct m. Qed.

Lemma wp_mono {R} crash log log' seen (p : prog op R) (Q : list action → list (list Z) → R → Prop) :
  (∀ log log' seen r, log ⊆ log' → Q log seen r → Q log' seen r) →
  log ⊆ log' → wp crash log seen p Q → wp crash log' seen p Q.
Proof.
  intros HQ Hl. destruct p as [r| |A o k]; [by apply HQ|done|]. intros [Hr Hk]. split.
  - destruct o; try done; cbn [requires] in *; try by apply Hl. destruct t; try done. by apply Hl.
  - intros log2 a Hl2. apply Hk. by transitivity log'.
Qed.
End wp.

(** ** Lemmas: the programs *)
Section programs.
Context `{BoostLaws} (MD5 : list Z → list Z) (m_verify_key : list Z) (MD5_length : ∀ l, length (MD5 l) = 16%nat).
Context (host_le : bool) (server_domain tokenid_domain app_server : list Z).
Abbreviation wpp := (wp MD5 m_verify_key).

(** A claim about the answer that does not depend on the log. *)
Definition anywhere {R} (Q : list (list Z) → R → Prop) (log : list action) (seen : list (list Z)) (r : R) : Prop := Q seen r.

Lemma wp_seq {A B} crash log seen (p : prog op A) (k : A → prog op B) (P : list (list Z) → A → Prop) Q :
  wpp crash log seen p (anywhere P) → (∀ log' seen' a, P seen' a → wpp crash log' seen' (k a) Q) → wpp crash log seen (p ≫= k) Q.
Proof.
  intros Hp Hk. apply wp_bind. revert log seen Hp. induction p as [r| |A' o f IH]; intros log seen; [intros HP; by apply Hk|done|].
  intros [Hr Hf]. split; [done|]. intros log' a Hl Ha. apply IH, Hf; done.
Qed.

Lemma wp_fetch crash log seen n :
  wpp crash log seen (fetch_attempts n) (anywhere (λ seen' _, seen' = seen)).
Proof.
  revert log. induction n as [|n IH]; intros log; [done|].
  cbn [fetch_attempts]. apply wp_bind, wp_act; [done|]. intros log' [r c] _ _. cbn [learns]. case_bool_decide; [apply IH|done].
Qed.

Lemma wp_guard crash log seen (body : loc → prog op Z) (Q : list (list Z) → Z → Prop) :
  (∀ c log, wpp crash log seen (body c) (anywhere Q)) → Q seen (-1) → wpp crash log seen (with_guard body) (anywhere Q).
Proof.
  intros Hb HQ. unfold with_guard. eapply wp_seq; [apply wp_fetch|]. intros log' seen' [r c] ->.
  case_bool_decide; [done|]. destruct c as [c|]; [|done]. eapply wp_seq; [apply Hb|]. intros log2 seen2 a Ha.
  apply wp_bind, wp_act; [done|]. by intros.
Qed.

Lemma wp_query crash log seen key :
  wpp crash log seen (query_randomkey_cache key)
    (anywhere (λ seen' r, r = 1 → c_string (PREFIX_RANDOMKEY ++ key) ∈ seen')).
Proof.
  apply wp_guard; [|done]. intros c log'. apply wp_bind, wp_act; [done|]. intros log2 [r v] _ _. cbn [learns fst].
  destruct (decide (r = 1)) as [->|Hr]; [intros _; by left|]. rewrite (bool_decide_eq_false_2 (r = 1)) by done.
  destruct (_ && _)%bool; intros ?; [done|by destruct Hr].
Qed.

Lemma wp_remove crash log seen key : wpp crash log seen (remove_randomkey_cache key) (anywhere (λ seen' _, seen' = seen)).
Proof. apply wp_guard; [|done]. intros c log'. apply wp_bind, wp_act; [done|]. by intros. Qed.

Lemma wp_set crash log seen key : wpp crash log seen (set_randomkey_cache key) (anywhere (λ seen' _, seen' = seen)).
Proof.
  apply wp_guard; [|done]. intros c log'. apply wp_bind, wp_act; [done|]. intros log2 r _ _. cbn [learns].
  case_bool_decide; [done|]. apply wp_bind, wp_act; [done|]. by intros.
Qed.

Lemma wp_fetch_tokenid crash log seen uid g :
  wpp crash log seen (fetch_tokenid server_domain tokenid_domain uid g) (anywhere (λ seen' _, seen' = seen)).
Proof.
  unfold fetch_tokenid. apply wp_bind, wp_act; [done|]. intros log2 [r b] _ _. cbn [learns]. case_bool_decide; [done|].
  apply wp_bind, wp_local. destruct (string2map_total b ∅) as [m ->]. by case_bool_decide.
Qed.

Lemma wp_refuse crash log seen m seqid :
  0 ≤ msg_fd m → wpp crash log seen (refuse_auth host_le m seqid) (anywhere (λ _ _, True)).
Proof. intros Hm. unfold refuse_auth. apply wp_bind, wp_act; [done|]. intros log2 ? _ _. by apply wp_act. Qed.

Lemma wp_auth crash log seen m :
  sound_message MD5 m_verify_key m → content_path m = CONTENT_PATH_AUTH →
  wpp crash log seen (process_auth host_le server_domain tokenid_domain m) (anywhere (λ _ _, True)).
Proof.
  intros Hm Hp. destruct Hm as [Hfd Hs]. unfold process_auth. apply wp_bind, wp_local. unfold decode_content.
  destruct (string2map_total (content m) ∅) as [mc Emc]. rewrite Emc.
  case_bool_decide; [by apply wp_refuse|]. eapply wp_seq; [apply wp_query|]. cbn beta. intros log1 seen1 r Hr.
  case_bool_decide as Er; [by apply wp_refuse|]. assert (r = 1) as -> by (destruct (decide (r = 1)); tauto).
  eapply wp_seq; [apply wp_remove|]. intros log2 seen2 ? ->. eapply wp_seq; [apply wp_fetch_tokenid|]. intros log3 seen3 [r id] ->.
  destruct (bool_decide (r = -1)); [by apply wp_refuse|]. cbn [orb]. case_bool_decide as Eid; [by apply wp_refuse|].
  apply wp_bind, wp_act; [|intros log4 ? _ _; by apply wp_act].
  split; [done|]. exists m, (c_string (PREFIX_RANDOMKEY ++ get_value (str "key") mc)). split_and!; [done..|by exists mc|by apply Hr].
Qed.

Lemma wp_getkey crash log seen m :
  sound_message MD5 m_verify_key m → wpp crash log seen (process_getkey host_le MD5 m) (anywhere (λ _ _, True)).
Proof.
  intros [Hfd _]. unfold process_getkey. apply wp_bind, wp_local. unfold decode_content.
  destruct (string2map_total (content m) ∅) as [mc ->]. apply wp_bind, wp_act; [done|]. intros log1 random _ _.
  apply wp_bind, wp_act; [done|]. intros log2 time _ _. cbn [learns]. apply wp_bind, wp_local. rewrite get_md5_ok by done.
  eapply wp_seq; [apply wp_set|]. intros log3 seen3 r ->. case_bool_decide; [|by apply wp_act].
  apply wp_bind, wp_act; [done|]. intros log4 ? _ _. by apply wp_act.
Qed.

Lemma encode_ok n m ct : slen (response_map2string [] m) < 2 ^ 31 → ∃ text, encode n m ct = Ret text.
Proof.
  intros Hl. unfold encode. rewrite HttpHeaderInfo_eq. unfold print_512.
  pose proof (length_head_bounds n (s32 (slen (response_map2string [] m))) (str "text/html")) as Hb.
  change (slen (str "text/html")) with 9 in Hb. change (c_string (str "text/html")) with (str "text/html").
  rewrite (proj2 (Z.ltb_lt _ _)) by lia. by eexists.
Qed.

Lemma wp_answer crash log seen text q :
  sound_request log q →
  wpp crash log seen (do! _ := act (HttpSend (m_clientfd q) (m_client_tag q) text) in act (HttpClose (m_clientfd q) (m_client_tag q)))
    (anywhere (λ _ _, True)).
Proof. intros Hq. apply wp_bind, wp_act; [done|]. intros log2 ? Hl _. apply wp_act; [by apply Hl|done]. Qed.

Lemma wp_reply_ok crash log seen q : sound_request log q → wpp crash log seen (http_reply_ok q) (anywhere (λ _ _, True)).
Proof.
  intros Hq. unfold http_reply_ok. apply wp_bind, wp_local.
  destruct (encode_ok 200 (map_insert (map_insert ∅ (str "result") (str "1")) (str "errinfo") (str "ok")) (str "text/html")) as [text ->];
    [by vm_compute|]. by apply wp_answer.
Qed.

Lemma wp_boadcast (crash : Prop) log seen q :
  crash → sound_request log q → wpp crash log seen (http_process_boadcast host_le q) (anywhere (λ _ _, True)).
Proof.
  intros Hc Hq. unfold http_process_boadcast. case_bool_decide; [by apply wp_reply_ok|]. apply wp_bind, wp_local.
  destruct (URLDecode _); [|done..]. apply wp_bind, wp_act; [done|]. intros log2 ? Hl _. apply wp_reply_ok, Hl, Hq.
Qed.

Lemma wp_subscriber crash log seen data : wpp crash log seen (zmq_sub_recv_callback host_le server_domain data) (anywhere (λ _ _, True)).
Proof.
  unfold zmq_sub_recv_callback. apply wp_bind, wp_local. destruct (string2map_total data ∅) as [m ->]. by repeat case_bool_decide.
Qed.

(** What a thread does with what it took from a queue. *)
Lemma wp_taken {T} crash log seen (o : op (Z * option T)) (k : T → prog op unit) :
  requires MD5 m_verify_key log seen o → (∀ a, learns seen o a = seen) →
  (∀ log' r x, log ⊆ log' → possible MD5 m_verify_key log' o (r, Some x) → wpp crash log' seen (k x) (anywhere (λ _ _, True))) →
  wpp crash log seen (do! r := act o in
    let (result, data) := (r : Z * option T) in
    if bool_decide (result ≠ 1) then Done tt else match data with Some x => k x | None => Done tt end) (anywhere (λ _ _, True)).
Proof.
  intros Hr Hs Hk. apply wp_bind, wp_act; [done|]. intros log' [r [x|]] Hl Hp; rewrite Hs; cbn beta iota; case_bool_decide; try done. by eapply Hk.
Qed.

Lemma wp_adapter_cmd crash log seen : wpp crash log seen (adapter_cmd_turn app_server) (anywhere (λ _ _, True)).
Proof.
  apply wp_taken; [done..|]. intros log' r m _ Hm. specialize (Hm m eq_refl).
  repeat (case_bool_decide; [by apply wp_act|]). by apply wp_act.
Qed.

Lemma wp_requests crash log seen : wpp crash log seen http_request_turn (anywhere (λ _ _, True)).
Proof.
  apply wp_taken; [done..|]. intros log' r q _ Hq. specialize (Hq q eq_refl). case_bool_decide; [by apply wp_act|].
  apply wp_bind, wp_local. destruct (encode_ok 404 ∅ (str "text/html")) as [text ->]; [by vm_compute|]. by apply wp_answer.
Qed.

Lemma wp_worker crash log seen :
  wpp crash log seen (worker_turn host_le MD5 server_domain tokenid_domain app_server) (anywhere (λ _ _, True)).
Proof.
  apply wp_taken; [done..|]. intros log' r t _ Ht. specialize (Ht t eq_refl).
  destruct t; cbn [sound_task run_task] in *; [destruct Ht; by apply wp_auth|by apply wp_getkey|by apply wp_act..|done].
Qed.

Lemma wp_http_worker (crash : Prop) log seen :
  crash → wpp crash log seen (http_worker_turn host_le MD5 server_domain tokenid_domain app_server) (anywhere (λ _ _, True)).
Proof.
  intros Hc. apply wp_taken; [done..|]. intros log' r t _ Ht. specialize (Ht t eq_refl).
  destruct t; try done. by apply wp_boadcast.
Qed.

(** Every turn of every thread keeps to the rules; only a worker of the second
    pool may crash. *)
Lemma wp_turn r p log : turn host_le MD5 server_domain tokenid_domain app_server r p →
  wpp (r = HttpWorker) log [] p (anywhere (λ _ _, True)).
Proof.
  intros Ht. destruct Ht; [apply wp_adapter_cmd|apply wp_requests|apply wp_worker|by apply wp_http_worker|apply wp_subscriber].
Qed.
End programs.

(** ** The invariant of the adapter *)
Section adapter_invariant.
Context {K : Type} `{RedisLaws K} `{BoostLaws} `{HttpServer.RequestDecoderLaws}.
Context (host_le : bool) (MD5 : list Z → list Z) (m_verify_key : list Z) (MD5_length : ∀ l, length (MD5 l) = 16%nat).
Context (check_interval invalid_timeout : Z).
Context (server_domain tokenid_domain app_server : list Z).
Abbreviation tcp_reachable := (TcpServer.reachable host_le MD5 m_verify_key check_interval invalid_timeout).
Abbreviation wpp := (wp MD5 m_verify_key).
Implicit Types (w : world K).

Record world_ok w : Prop := {
  ok_tcp : tcp_reachable (w_tcp w);
  ok_http : HttpServer.reachable (w_http w);
  ok_redis : redis_ok (w_redis w);
  ok_keys : stored (w_redis w) ⊆ w_issued w;
  ok_tasks : ∀ t, t ∈ m_list (w_tasks w) → sound_task MD5 m_verify_key t;
  ok_http_tasks : ∀ t, t ∈ m_list (w_http_tasks w) → sound_http_task (HttpServer.m_log (w_http w)) t;
}.

Definition thread_ok w (r : role) (p : prog op unit) : Prop :=
  ∃ seen, (∀ k, k ∈ seen → k ∈ w_issued w) ∧ wpp (r = HttpWorker) (HttpServer.m_log (w_http w)) seen p (anywhere (λ _ _, True)).

Lemma tcp_command e c s : tcp_reachable s → 0 ≤ TcpServer.clientfd c → tcp_reachable (TcpServer.write_byte_to_pipe e (TcpServer.add_command c s)).2.
Proof.
  intros [now Hs] Hc. exists now. eapply rtc_r; [eapply rtc_r; [exact Hs|by apply TcpServer.step_command]|apply TcpServer.step_write].
Qed.

Lemma http_command e c s :
  HttpServer.reachable s → Accepted (HttpServer.clientfd c) (HttpServer.fd_unify_tag c) ∈ HttpServer.m_log s →
  HttpServer.reachable (HttpServer.submit e c s).2.
Proof. intros Hs Hc. eapply rtc_r; [exact Hs|]. by apply HttpServer.http_submit. Qed.

Lemma submit_log e c s : HttpServer.m_log (HttpServer.submit e c s).2 = HttpServer.m_log s.
Proof. unfold HttpServer.submit. by case_bool_decide. Qed.

Lemma ok_set_tcp w s : world_ok w → tcp_reachable s → world_ok (set_tcp s w).
Proof. by intros [H1' H2' Hr' H3' H4' H5'] Hs. Qed.

Lemma ok_set_http w s : world_ok w → HttpServer.reachable s → HttpServer.m_log (w_http w) ⊆ HttpServer.m_log s → world_ok (set_http s w).
Proof.
  intros [H1' H2' Hr' H3' H4' H5'] Hs Hl. split; try done. intros t Ht. specialize (H5' t Ht). destruct t; try done. by apply Hl.
Qed.

Lemma ok_set_redis w k X : world_ok w → redis_ok k → stored k ⊆ X ∪ stored (w_redis w) → (∀ x, x ∈ X → x ∈ w_issued w) → world_ok (set_redis k w).
Proof. intros [H1' H2' Hr' H3' H4' H5'] Hr Hk HX. split; try done. set_solver. Qed.

(** What the clients of the dispatcher's own state see of a message. *)
Lemma admitted_sound log m : 0 ≤ msg_fd m → TcpServer.admitted MD5 m_verify_key log m → sound_message MD5 m_verify_key m.
Proof.
  intros Hfd [[Hi _]|[_ (mc & E & _ & Ha)]]; (split; [done|]); intros Hp; [by left|right].
  destruct Ha as [Ha|[_ Ha]]; [|by exists mc]. by rewrite Hp in Ha.
Qed.

(** What an operation leaves. *)
Definition kept w w' {A} (o : op A) (x : A) : Prop :=
  world_ok w' ∧ HttpServer.m_log (w_http w) ⊆ HttpServer.m_log (w_http w') ∧ w_issued w ⊆ w_issued w' ∧
  possible MD5 m_verify_key (HttpServer.m_log (w_http w')) o x ∧
  ∀ seen k, k ∈ learns seen o x → k ∈ seen ∨ k ∈ w_issued w'.

Lemma kept_tcp w s {A} (o : op A) x :
  world_ok w → tcp_reachable s → possible MD5 m_verify_key (HttpServer.m_log (w_http w)) o x →
  (∀ seen k, k ∈ learns seen o x → k ∈ seen ∨ k ∈ w_issued w) → kept w (set_tcp s w) o x.
Proof. intros Hw Hs Hp Hl. split_and!; [by apply ok_set_tcp|done..]. Qed.

Lemma kept_http_command w e c {A} (o : op A) x :
  world_ok w → Accepted (HttpServer.clientfd c) (HttpServer.fd_unify_tag c) ∈ HttpServer.m_log (w_http w) →
  (∀ log, possible MD5 m_verify_key log o x) → (∀ seen k, k ∈ learns seen o x → k ∈ seen) →
  kept w (set_http (HttpServer.submit e c (w_http w)).2 w) o x.
Proof.
  intros Hw Hc Hp Hl. split_and!; [|by simpl; rewrite submit_log|done|apply Hp|intros; left; by apply Hl].
  apply ok_set_http; [done|by apply http_command; [apply Hw|]|by rewrite submit_log].
Qed.

Lemma take_message_ok a w x w' : world_ok w → exec _ a TakeMessage w = Ret (x, w') → kept w w' TakeMessage x.
Proof.
  intros Hw. cbn [exec]. destruct (dequeue_expand _ _) as [[r m] q] eqn:Ed. intros [= <- <-].
  pose proof (TcpServer.reachable_ok _ _ _ MD5_length _ _ _ (ok_tcp _ Hw)) as Hok.
  apply dequeue_cases in Ed as [(y & l & El & -> & Eq & Ed)|[-> ->]].
  - apply kept_tcp; [done| | |by intros; left].
    + destruct (ok_tcp _ Hw) as [now Hs]. exists now. eapply rtc_r; [exact Hs|]. by eapply TcpServer.step_take.
    + intros m [= <-]. destruct (TcpServer.ok_message _ _ _ _ Hok y) as [Hfd Ha]; [rewrite El; by left|]. by eapply admitted_sound.
  - assert (TcpServer.set_messages (TcpServer.m_queue_adapter_cmd (w_tcp w)) (w_tcp w) = w_tcp w) as -> by by destruct (w_tcp w).
    apply kept_tcp; [done|apply Hw|done|by intros; left].
Qed.

Lemma take_request_ok a w x w' : world_ok w → exec _ a TakeRequest w = Ret (x, w') → kept w w' TakeRequest x.
Proof.
  intros Hw. cbn [exec]. destruct (dequeue_expand _ _) as [[r m] q] eqn:Ed. intros [= <- <-].
  pose proof (HttpServer.http_reachable_ok _ (ok_http _ Hw)) as Hok.
  apply dequeue_cases in Ed as [(y & l & El & -> & Eq & Ed)|[-> ->]].
  - split_and!; [apply ok_set_http; [done| |done]|done|done| |by intros; left].
    + eapply rtc_r; [apply Hw|]. by eapply HttpServer.http_take.
    + intros m [= <-]. apply (HttpServer.ok_request _ Hok). rewrite El. by left.
  - assert (HttpServer.set_requests (HttpServer.m_request_queue (w_http w)) (HttpServer.m_requst_count (w_http w)) (w_http w) = w_http w) as ->
      by by destruct (w_http w).
    split_and!; [apply ok_set_http; [done|apply Hw|done]|done|done|done|by intros; left].
Qed.

Lemma redis_op_ok A a (o : op A) w x w' :
  match o with RedisSet _ _ _ | RedisGet _ _ | RedisDel _ _ | RedisExpire _ _ _ => True | _ => False end →
  world_ok w → exec A a o w = Ret (x, w') → kept w w' o x.
Proof.
  intros Ho Hw. destruct o; try done; cbn [exec].
  - destruct (redis_set_value c k v (w_redis w)) as [[r s]| |] eqn:E; [|done..]. intros [= <- <-]. apply set_value_stored in E as [Hr E]; [|apply Hw].
    pose proof (ok_keys _ Hw). destruct Hw as [? ? ? ? ? ?].
    split_and!; [split; try done; simpl; set_solver|done|simpl; set_solver|done|by intros; left].
  - destruct (redis_get_value c k (w_redis w)) as [[[r v] s]| |] eqn:E; [|done..]. intros [= <- <-].
    apply get_value_stored in E as (Hr & Hs & Hk); [|apply Hw]. split_and!; [apply (ok_set_redis _ _ ∅); [done|done|set_solver..]|done|done|done|].
    intros seen k'. cbn [learns fst]. case_bool_decide as Er; [|by left]. intros [->|?]%elem_of_cons; [right|by left].
    apply (ok_keys _ Hw). auto.
  - destruct (redis_del_value c k (w_redis w)) as [[r s]| |] eqn:E; [|done..]. intros [= <- <-].
    apply del_value_stored in E as (Hr & Hs & _); [|apply Hw]. split_and!; [apply (ok_set_redis _ _ ∅); [done|done|set_solver..]|done|done|done|by intros; left].
  - destruct (redis_set_expire c k seconds (w_redis w)) as [[r s]| |] eqn:E; [|done..]. intros [= <- <-].
    apply set_expire_stored in E as [Hr E]; [|apply Hw]. split_and!; [apply (ok_set_redis _ _ ∅); [done|done|set_solver..]|done|done|done|by intros; left].
Qed.

Lemma kept_world w w' {A} (o : op A) x :
  world_ok w' → w_http w' = w_http w → w_issued w' = w_issued w → possible MD5 m_verify_key (HttpServer.m_log (w_http w)) o x →
  (∀ seen k, k ∈ learns seen o x → k ∈ seen) → kept w w' o x.
Proof. intros Hw Eh Ei Hp Hl. split_and!; rewrite ?Eh, ?Ei; try done. intros; left. by apply Hl. Qed.

Lemma exec_ok A a (o : op A) w x w' seen :
  world_ok w → requires MD5 m_verify_key (HttpServer.m_log (w_http w)) seen o → exec A a o w = Ret (x, w') → kept w w' o x.
Proof.
  intros Hw Hr E. destruct o; try by eapply redis_op_ok.
  all: try by (revert E; cbn [exec]; intros [= <- <-]; apply kept_tcp; [done|by apply tcp_command; [apply Hw|]|done|by intros; left]).
  all: try by (revert E; cbn [exec]; intros [= <- <-]; apply kept_http_command; [done|done|done|done]).
  all: try by eapply take_message_ok.
  all: try by eapply take_request_ok.
  all: try by (revert E; cbn [exec]; intros [= <- <-]; apply kept_world; [by destruct Hw|done|done|done|done]).
  - revert E. cbn [exec]. destruct (dequeue_expand _ _) as [[r c] q]. intros [= <- <-].
    apply kept_world; [by destruct Hw|done|done|done|done].
  - destruct Hr as (_ & m & k & [Hfd _] & _ & -> & _). revert E. cbn [exec]. intros [= <- <-].
    apply kept_tcp; [done|by apply tcp_command; [apply Hw|]|done|by intros; left].
  - revert E. cbn [exec]. intros [= <- <-]. apply kept_world; [|done..]. destruct Hw as [H1' H2' Hr' H3' H4' H5']. split; try done.
    simpl. intros t'. rewrite elem_of_app, list_elem_of_singleton. intros [?| ->]; auto.
  - revert E. cbn [exec]. destruct (dequeue_expand _ _) as [[r c] q] eqn:Ed. intros [= <- <-].
    destruct (ok_queue _ _ _ _ _ _ Ed (ok_tasks _ Hw)) as [Hq Hx]. apply kept_world; [|done..]. by destruct Hw.
  - revert E. cbn [exec]. intros [= <- <-]. apply kept_world; [|done..]. destruct Hw as [H1' H2' Hr' H3' H4' H5']. split; try done.
    simpl. intros t'. rewrite elem_of_app, list_elem_of_singleton. intros [?| ->]; auto.
  - revert E. cbn [exec]. destruct (dequeue_expand _ _) as [[r c] q] eqn:Ed. intros [= <- <-].
    destruct (ok_queue _ _ _ _ _ _ Ed (ok_http_tasks _ Hw)) as [Hq Hx]. apply kept_world; [|done..]. by destruct Hw.
Qed.

Lemma exec_returns A a (o : op A) w : world_ok w → (37 ∉ redis_text o) → ∃ x, exec A a o w = Ret x.
Proof.
  intros [_ _ Hr _ _ _] Ho. destruct o; cbn [exec redis_text] in *; try by eexists.
  all: try by (destruct (dequeue_expand _ _) as [[? ?] ?]; eexists).
  - destruct (set_value_returns c k v _ Hr Ho) as (r & s' & ->). by eexists.
  - destruct (get_value_returns c k _ Hr Ho) as (r & x & s' & ->). by eexists.
  - destruct (del_value_returns c k _ Hr Ho) as (r & s' & ->). by eexists.
  - destruct (set_expire_returns c k seconds _ Hr Ho) as (r & s' & ->). by eexists.
Qed.

Definition adapter_ok (st : adapter) : Prop :=
  world_ok (the_world st) ∧ ∀ i r p, the_threads st !! i = Some (r, p) → thread_ok (the_world st) r p.

Abbreviation step := (adapter_step host_le MD5 m_verify_key check_interval invalid_timeout server_domain tokenid_domain app_server).

Lemma thread_mono w w' r p :
  HttpServer.m_log (w_http w) ⊆ HttpServer.m_log (w_http w') → w_issued w ⊆ w_issued w' → thread_ok w r p → thread_ok w' r p.
Proof.
  intros Hl Hi (seen & Hs & Hp). exists seen. split; [auto|]. by eapply wp_mono.
Qed.

Lemma threads_kept w w' (ts : gmap positive (role * prog op unit)) i r p :
  (∀ i r p, ts !! i = Some (r, p) → thread_ok w r p) →
  HttpServer.m_log (w_http w) ⊆ HttpServer.m_log (w_http w') → w_issued w ⊆ w_issued w' → thread_ok w' r p →
  ∀ i' r' p', <[i := (r, p)]> ts !! i' = Some (r', p') → thread_ok w' r' p'.
Proof.
  intros Hts Hl Hi Hp i' r' p' [[_ [= <- <-]]|[_ E]]%lookup_insert_Some; [done|]. eapply thread_mono; [done..|by eapply Hts].
Qed.

Lemma adapter_step_ok st st' : step st st' → adapter_ok st → adapter_ok st'.
Proof.
  intros Hs [Hw Hts]. destruct Hs as [w ts ev s Hk E|w ts e s E|w ts ev s Hk E|w ts k Hr Hk|w ts t r p Et Ht|w ts t r A o k a x w' Et E];
    cbn [the_world the_threads] in *.
  - split; [|by intros; eapply thread_mono; [| |by eapply Hts]]. apply ok_set_tcp; [done|].
    destruct (ok_tcp _ Hw) as [now Hr]. exists now. eapply rtc_r; [exact Hr|]. by eapply TcpServer.step_event.
  - split; [|by intros; eapply thread_mono; [| |by eapply Hts]]. apply ok_set_tcp; [done|].
    destruct (ok_tcp _ Hw) as [now Hr]. exists now. eapply rtc_r; [exact Hr|]. by eapply TcpServer.step_timeout.
  - pose proof (HttpServer.http_reachable_ok _ (ok_http _ Hw)) as Hok. pose proof (HttpServer.handle_log _ _ _ Hok Hk E) as Hl.
    split; [|by intros; eapply thread_mono; [| |by eapply Hts]]. apply ok_set_http; [done| |done].
    eapply rtc_r; [apply Hw|]. by eapply HttpServer.http_event.
  - split; [|by intros; eapply thread_mono; [| |by eapply Hts]]. apply (ok_set_redis _ _ ∅); [done|done|set_solver..].
  - split; [done|]. apply (threads_kept w); [done..|]. exists []. split; [by intros k ?%not_elem_of_nil|]. by eapply wp_turn.
  - destruct (Hts _ _ _ Et) as (seen & Hseen & [Hr Hp]). destruct (exec_ok A a o w x w' seen Hw Hr E) as (Hw' & Hl & Hi & Hpo & Hle).
    split; [done|]. apply (threads_kept w); [done..|]. exists (learns seen o x). split.
    + intros key Hkey. destruct (Hle seen key Hkey); auto.
    + by apply Hp.
Qed.

Lemma started_ok now k clients roles : redis_ok k → stored k = ∅ → adapter_ok (started now k clients roles).
Proof.
  intros Hr Hk. split.
  - split; cbn [started the_world w_tcp w_http w_redis w_tasks w_http_tasks w_issued].
    + by exists now.
    + constructor.
    + done.
    + by rewrite Hk.
    + by intros t ?%not_elem_of_nil.
    + by intros t ?%not_elem_of_nil.
  - intros i r p. cbn [started the_threads]. intros E%elem_of_list_to_map_2. rewrite list_elem_of_fmap in E.
    destruct E as ([i' r'] & [= -> -> ->] & _). exists []. split; [by intros x ?%not_elem_of_nil|done].
Qed.
End adapter_invariant.

(** ** Properties *)


(** *** Witness, with the clients of [RedisClient.v] over the small hiredis *)
Definition demo_clients : (loc → RedisClient.redis_client RedisClient.demo_context) * RedisClient.demo_world :=
  (λ _, RedisClient.RedisClient (Some (RedisClient.DemoContext 0 [] [] 0)) 0, RedisClient.DemoWorld (λ _, ∅) []).
Definition demo_redis : RedisClients ((loc → RedisClient.redis_client RedisClient.demo_context) * RedisClient.demo_world) :=
  RedisClient.redis_clients (H := RedisClient.demo_hiredis) (H0 := RedisClient.demo_server) (H2 := boost_impl) (str "127.0.0.1") 6379 10 20000.
Definition demo_redis_laws : RedisLaws _ (H := demo_redis) :=
  RedisClient.redis_clients_laws (H := RedisClient.demo_hiredis) (H0 := RedisClient.demo_server) (H1 := RedisClient.demo_hiredis_laws) (H2 := boost_impl) (str "127.0.0.1") 6379 10 20000.
Definition demo_started := started 10 demo_clients [1%positive; 2%positive] [(1%positive, AdapterCmd); (2%positive, Subscriber)].
Definition demo_pushed :=
  Adapter (the_world demo_started) (<[2%positive := (Subscriber, zmq_sub_recv_callback true (str "d") (str "tokenid=t@d&msg=m"))]> (the_threads demo_started)).

