(* ===== verification/Tasks.v ===== *)
(** * What the tasks of the dispatcher do on their own

    The programs of [Dispatcher.v] run without interference, and then the two
    reactors on the commands they submitted: the answer to an authentication,
    and the way of a broadcast from an HTTP request to the clients.  A schedule
    of two workers shows what interference can do. *)

From Stdlib Require Import String.
From S2P Require Import Prelude Text Utility MyCommon Config HttpPacket HttpResponse BlockQueue Frame Socket Redis Program.
From S2P Require TcpServer HttpServer.
From S2P Require Import Dispatcher.
Import TcpServer (STU_MSG_INFO, MsgInfo, msg_fd, msg_tag, tokenid, content_path, content).
Import HttpServer (http_request, request_packet, m_clientfd, m_client_tag).

(** ** Running a task *)
Section run.
Context {K : Type} `{RedisLaws K} `{BoostLaws}.
Implicit Types (w : world K).

Definition commands w : list TcpServer.STU_EPOLL_RTN := m_list (TcpServer.m_queue_rtn (w_tcp w)).

(** The commands for an authentication that is granted, and one that is refused. *)
Definition granted (host_le : bool) (m : STU_MSG_INFO) (seqid token : list Z) : list TcpServer.STU_EPOLL_RTN :=
  [TcpServer.EpollRtn (msg_fd m) (msg_tag m) token [] TcpServer.PIPE_CMD_AUTH_OK;
   TcpServer.EpollRtn (msg_fd m) (msg_tag m) [] (encode_buffer host_le 0 (encode_auth true [] seqid token) []) TcpServer.PIPE_CMD_SEND].
Definition refused (host_le : bool) (m : STU_MSG_INFO) (seqid : list Z) : list TcpServer.STU_EPOLL_RTN :=
  [TcpServer.EpollRtn (msg_fd m) (msg_tag m) [] (encode_buffer host_le 0 (encode_auth false [] seqid []) []) TcpServer.PIPE_CMD_SEND;
   TcpServer.EpollRtn (msg_fd m) (msg_tag m) [] [] TcpServer.PIPE_CMD_CLOSE].

(** With one answer to every operation the places do not matter. *)
Definition run1 {R} (a : answers) (p : prog op R) w : outcome (R * world K) := run_with exec a p w.

Lemma run1_bind {A B} a (p : prog op A) (k : A → prog op B) w :
  run1 a (p ≫= k) w = (let! r := run1 a p w in run1 a (k r.1) r.2).
Proof. apply run_with_bind. Qed.

Lemma run1_act {A} a (o : op A) w : run1 a (act o) w = exec A a o w.
Proof. apply run_with_act. Qed.

Lemma run1_done {A} a (r : A) w : run1 a (Done r) w = Ret (r, w).
Proof. done. Qed.

Lemma run1_local {A} a (m : outcome A) x w : m = Ret x → run1 a (local m) w = Ret (x, w).
Proof. apply run_with_local. Qed.

(** The server [s] with the commands [l] more in its queue. *)
Definition submitted (l : list TcpServer.STU_EPOLL_RTN) (s s' : TcpServer.server) : Prop :=
  ∃ k q, s' = TcpServer.set_pipe k (TcpServer.set_commands q s) ∧ m_list q = m_list (TcpServer.m_queue_rtn s) ++ l.

Lemma submitted_one e c s : submitted [c] s (TcpServer.write_byte_to_pipe e (TcpServer.add_command c s)).2.
Proof.
  unfold TcpServer.write_byte_to_pipe. destruct (TcpServer.write_attempts_pipe e 6 0 (TcpServer.add_command c s)) as [k ->]. by eexists k, _.
Qed.

Lemma submitted_app l1 l2 s s1 s2 : submitted l1 s s1 → submitted l2 s1 s2 → submitted (l1 ++ l2) s s2.
Proof. intros (k1 & q1 & -> & E1) (k2 & q2 & -> & E2). exists k2, q2. split; [done|]. rewrite E2. simpl. by rewrite E1, app_assoc. Qed.

Lemma submitted_commands l s s' : submitted l s s' → m_list (TcpServer.m_queue_rtn s') = m_list (TcpServer.m_queue_rtn s) ++ l.
Proof. by intros (k & q & -> & E). Qed.

(** A guard takes the first client of the pool and puts it behind the others. *)
Definition pool_rest (q : block_queue loc) (l : list loc) : block_queue loc := BlockQueue l (m_size q - 1) (m_seconds q).

Lemma run1_guard a body w c l :
  m_list (w_pool w) = c :: l →
  run1 a (with_guard body) w =
  (let! r := run1 a (body c) (set_pool (pool_rest (w_pool w) l) w) in Ret (r.1, set_pool (add_queue (w_pool r.2) c) r.2)).
Proof.
  intros El. unfold with_guard, fetch_obj. cbn [fetch_attempts]. rewrite run1_bind, run1_bind, run1_act.
  cbn [exec]. unfold dequeue_expand, dequeue_nodelay. rewrite El. cbn [mbind outcome_bind fst snd].
  rewrite (bool_decide_eq_false_2 (1 ≠ 1)) by (by intros []). rewrite run1_done. cbn [mbind outcome_bind fst snd].
  rewrite (bool_decide_eq_false_2 (0 = -1)) by done. rewrite run1_bind. unfold pool_rest.
  destruct (run1 a (body c) _) as [[r w2]| |]; [|done..]. cbn [mbind outcome_bind fst snd]. rewrite run1_bind, run1_act. done.
Qed.

Lemma run1_query a key w c l r v s' :
  m_list (w_pool w) = c :: l → redis_get_value c (PREFIX_RANDOMKEY ++ key) (w_redis w) = Ret (r, v, s') →
  ∃ q r', run1 a (query_randomkey_cache key) w = Ret (r', set_pool q (set_redis s' w)) ∧ m_list q = l ++ [c] ∧ (r' = 1 ↔ r = 1).
Proof.
  intros El E. unfold query_randomkey_cache.
  rewrite (run1_guard _ _ _ c l) by done. rewrite run1_bind, run1_act. cbn [exec set_pool w_redis].
  rewrite E. cbn [mbind outcome_bind fst snd].
  assert (∃ r', run1 a (if negb (bool_decide (r = 0)) && negb (bool_decide (r = 1)) && negb (bool_decide (r = -1)) then Done (-1) else Done r)
            (set_redis s' (set_pool (pool_rest (w_pool w) l) w)) = Ret (r', set_redis s' (set_pool (pool_rest (w_pool w) l) w)) ∧ (r' = 1 ↔ r = 1)) as (r' & -> & Hr).
  { destruct (decide (r = 1)) as [->|Hr]; [by exists 1|]. rewrite (bool_decide_eq_false_2 (r = 1)) by done.
    destruct (_ && _)%bool; [exists (-1)|exists r]; (split; [done|]); lia. }
  eexists _, r'. cbn [mbind outcome_bind fst snd]. split; [done|]. split; [|done]. done.
Qed.

Lemma run1_remove a key w c l r s' :
  m_list (w_pool w) = c :: l → redis_del_value c (PREFIX_RANDOMKEY ++ key) (w_redis w) = Ret (r, s') →
  ∃ q, run1 a (remove_randomkey_cache key) w = Ret (0, set_pool q (set_redis s' w)) ∧ m_list q = l ++ [c].
Proof.
  intros El E. unfold remove_randomkey_cache.
  rewrite (run1_guard _ _ _ c l) by done. rewrite run1_bind, run1_act. cbn [exec set_pool w_redis].
  rewrite E. cbn [mbind outcome_bind fst snd]. eexists. split; [done|]. done.
Qed.

Lemma run1_refuse a host_le m seqid w :
  ∃ s, run1 a (refuse_auth host_le m seqid) w = Ret (tt, set_tcp s w) ∧
    m_list (TcpServer.m_queue_rtn s) = commands w ++ refused host_le m seqid.
Proof.
  unfold refuse_auth. rewrite run1_bind, run1_act. cbn [exec mbind outcome_bind fst snd]. rewrite run1_act. cbn [exec].
  eexists. split; [done|]. apply submitted_commands.
  apply (submitted_app [_] [_] _ (TcpServer.reply_data (a_env a) (msg_fd m) (msg_tag m)
    (encode_buffer host_le 0 (encode_auth false [] seqid []) []) (w_tcp w))); apply submitted_one.
Qed.

(** What the tokenid service answers. *)
Definition token_of (post : Z * list Z) : list Z :=
  if bool_decide (post.1 = -1) then []
  else match string2map post.2 ∅ with Ret m => get_value (str "tokenid") m | _ => [] end.

Lemma run1_token a domain url uid g w :
  ∃ r, run1 a (fetch_tokenid domain url uid g) w = Ret ((r, token_of (a_post a)), w) ∧
    (r = -1 ↔ token_of (a_post a) = []).
Proof.
  unfold fetch_tokenid, token_of. rewrite run1_bind, run1_act. cbn [exec mbind outcome_bind fst snd].
  destruct (a_post a) as [r b]. cbn [fst snd]. case_bool_decide; [by exists (-1)|].
  destruct (string2map_total b ∅) as [mc E]. rewrite run1_bind, (run1_local _ _ mc), E by done. cbn [mbind outcome_bind fst snd].
  case_bool_decide as Et; [rewrite Et; by exists (-1)|by exists 0].
Qed.

Lemma run1_refuse_returns a host_le m seqid w :
  returns (run1 a (refuse_auth host_le m seqid) w) (λ x, commands x.2 = commands w ++ refused host_le m seqid).
Proof. destruct (run1_refuse a host_le m seqid w) as (s & -> & E). exact E. Qed.

#[local] Ltac refuse :=
  eapply returns_mono; [apply run1_refuse_returns|]; intros ? Hcommands; cbn beta; rewrite decide_False by tauto; exact Hcommands.

(** The removal is the call of the next client of the pool; what it answers is
    not looked at. *)
Lemma run1_auth a host_le domain url m mc w c l r v s' r2 s2 :
  redis_ok (w_redis w) → m_list (w_pool w) = c :: l → decode_content (content m) ∅ = Ret mc →
  redis_get_value c (PREFIX_RANDOMKEY ++ get_value (str "key") mc) (w_redis w) = Ret (r, v, s') →
  (r = 1 → redis_del_value (hd c l) (PREFIX_RANDOMKEY ++ get_value (str "key") mc) s' = Ret (r2, s2)) →
  let key := get_value (str "key") mc in let seqid := get_value (str "seqid") mc in
  returns (run1 a (process_auth host_le domain url m) w) (λ x,
    if decide (key ≠ [] ∧ r = 1 ∧ token_of (a_post a) ≠ []) then
      submitted (granted host_le m seqid (token_of (a_post a))) (w_tcp w) (w_tcp x.2) ∧ w_redis x.2 = s2
    else commands x.2 = commands w ++ refused host_le m seqid).
Proof.
  intros Hok El Emc Eget Edel key seqid. unfold process_auth. rewrite run1_bind, (run1_local _ _ mc) by done. cbn [mbind outcome_bind fst snd].
  fold key. fold seqid. case_bool_decide as Ekey; [refuse|].
  rewrite run1_bind. destruct (run1_query a key w c l r v s' El Eget) as (q & r' & -> & Eq & Hr). cbn [mbind outcome_bind fst snd].
  case_bool_decide as Er; [refuse|].
  assert (r = 1) as -> by (destruct (decide (r' = 1)); tauto). specialize (Edel eq_refl).
  set (w1 := set_pool q (set_redis s' w)). assert (∃ l2, m_list (w_pool w1) = hd c l :: l2) as (l2 & El2).
  { simpl. rewrite Eq. destruct l; by eexists _. }
  rewrite run1_bind. destruct (run1_remove a key w1 (hd c l) l2 r2 s2 El2 Edel) as (q2 & -> & _). cbn [mbind outcome_bind fst snd].
  rewrite run1_bind. set (w2 := set_pool q2 _).
  destruct (run1_token a domain url (get_value (str "uid") mc) (get_value (str "gameinternalno") mc) w2) as (r3 & -> & Hr3).
  cbn [mbind outcome_bind fst snd].
  destruct (decide (token_of (a_post a) = [])) as [Et|Et].
  - rewrite (bool_decide_eq_true_2 (r3 = -1)) by tauto. cbn [orb]. refuse.
  - rewrite (bool_decide_eq_false_2 (r3 = -1)), (bool_decide_eq_false_2 (_ = [])) by tauto. cbn [orb].
    rewrite run1_bind, run1_act. cbn [exec mbind outcome_bind fst snd]. rewrite run1_act. cbn [exec returns snd]. rewrite decide_True by tauto. split; [|done].
    apply (submitted_app [_] [_] _ (TcpServer.reply_auth_ok (a_env a) (msg_fd m) (msg_tag m) (token_of (a_post a)) (w_tcp w)));
      apply submitted_one.
Qed.
End run.

(** ** The reactor on the commands *)
Section reactor.
Context `{BoostLaws} (host_le : bool) (MD5 : list Z → list Z) (m_verify_key : list Z) (MD5_length : ∀ l, length (MD5 l) = 16%nat).
Abbreviation ok := (TcpServer.server_ok host_le MD5 m_verify_key).
Abbreviation handle := (TcpServer.handle host_le MD5 m_verify_key).
Implicit Types (s : TcpServer.server).

(** The connection that loses the identity [id] to the descriptor [fd]. *)
Definition loser s (id : list Z) (fd : Z) : list action :=
  match TcpServer.m_map_socket_ientity s !! id with
  | Some info => if decide (TcpServer.info_fd info = fd) then [] else [Closed (TcpServer.info_fd info)]
  | None => []
  end.

Lemma closed_other fd fd' s :
  fd ≠ fd' → TcpServer.m_array_epoll_data (TcpServer.closed fd s) !! fd' = TcpServer.m_array_epoll_data s !! fd'.
Proof.
  intros Hne. unfold TcpServer.closed. destruct (TcpServer.m_array_epoll_data s !! fd); [case_bool_decide|]; cbn; by rewrite lookup_delete_ne.
Qed.

Lemma closed_commands fd s : TcpServer.m_queue_rtn (TcpServer.closed fd s) = TcpServer.m_queue_rtn s.
Proof. unfold TcpServer.closed. by repeat case_match. Qed.

(** The reactor takes the first command. *)
Lemma handle_command e s cmd l :
  m_list (TcpServer.m_queue_rtn s) = cmd :: l →
  ∃ k q, m_list q = l ∧
    handle (e, TcpServer.PipeReadable 1) s =
    (let! r := TcpServer.pipe_cmd host_le MD5 m_verify_key e cmd (TcpServer.set_commands q (TcpServer.set_pipe k s)) in Ret r.2).
Proof.
  intros El. eexists _, _. split; [|unfold TcpServer.handle, TcpServer.dealwith_pipe_cmd; cbn [fst snd];
    rewrite (bool_decide_eq_false_2 (1 ≠ 1)) by (by intros []); unfold dequeue_nodelay;
    change (TcpServer.m_queue_rtn (TcpServer.set_pipe _ s)) with (TcpServer.m_queue_rtn s); rewrite El; done]. done.
Qed.

Lemma handle_auth e s fd tag id l c :
  ok s → m_list (TcpServer.m_queue_rtn s) = TcpServer.EpollRtn fd tag id [] TcpServer.PIPE_CMD_AUTH_OK :: l →
  TcpServer.m_array_epoll_data s !! fd = Some c → TcpServer.m_unify_tag c = tag → id ≠ [] →
  ∃ s', handle (e, TcpServer.PipeReadable 1) s = Ret s' ∧ m_list (TcpServer.m_queue_rtn s') = l ∧
    TcpServer.m_array_epoll_data s' !! fd = Some (TcpServer.set_identity id c) ∧
    TcpServer.m_log s' = TcpServer.m_log s ++ Granted fd tag id :: loser s id fd.
Proof.
  intros Hok El Ec Et Hid. destruct (TcpServer.ok_client _ _ _ _ Hok _ _ Ec) as [Efd Hfd _ _].
  destruct (handle_command e s _ _ El) as (k & q & Eq & ->). set (s0 := TcpServer.set_commands q _).
  unfold TcpServer.pipe_cmd, TcpServer.command_target. cbn [TcpServer.cmd_type TcpServer.clientfd TcpServer.fd_unify_tag TcpServer.socket_ientity].
  rewrite (bool_decide_eq_true_2 (TcpServer.PIPE_CMD_AUTH_OK = _)) by done. cbn [orb TcpServer.info_fd TcpServer.info_tag].
  rewrite (bool_decide_eq_false_2 (TcpServer.PIPE_CMD_AUTH_OK = TcpServer.PIPE_CMD_BOADCAST)) by done.
  rewrite (proj2 (Z.leb_gt _ _)) by lia. rewrite TcpServer.get_client_eq by done.
  change (TcpServer.m_array_epoll_data s0) with (TcpServer.m_array_epoll_data s). rewrite Ec. cbn [mbind outcome_bind].
  assert (TcpServer.same_socket c fd tag = true) as Hss by (unfold TcpServer.same_socket; by rewrite !bool_decide_eq_true_2).
  rewrite Hss. cbn [negb]. rewrite (bool_decide_eq_false_2 (TcpServer.PIPE_CMD_AUTH_OK = TcpServer.PIPE_CMD_SEND)),
    (bool_decide_eq_false_2 (TcpServer.PIPE_CMD_AUTH_OK = TcpServer.PIPE_CMD_CLOSE)) by done.
  unfold TcpServer.pipe_cmd_auth_ok. cbn [TcpServer.cmd_type TcpServer.clientfd TcpServer.fd_unify_tag TcpServer.socket_ientity].
  rewrite TcpServer.get_client_eq by done. change (TcpServer.m_array_epoll_data s0) with (TcpServer.m_array_epoll_data s).
  rewrite Ec. cbn [mbind outcome_bind]. rewrite Hss. cbn [negb]. rewrite (bool_decide_eq_false_2 (id = [])) by done.
  set (s1 := TcpServer.note _ _). change (TcpServer.m_map_socket_ientity s1) with (TcpServer.m_map_socket_ientity s).
  assert (TcpServer.m_array_epoll_data s1 !! fd = Some (TcpServer.set_identity id c)) as E1 by (cbn; by rewrite lookup_insert_eq).
  unfold loser. destruct (TcpServer.m_map_socket_ientity s !! id) as [info|] eqn:Ei.
  2:{ eexists. split; [done|]. by split_and!. }
  destruct (decide (TcpServer.info_fd info = fd)) as [<-|Hne].
  - rewrite bool_decide_eq_true_2 by done. eexists. split; [done|]. by split_and!.
  - rewrite bool_decide_eq_false_2 by congruence. destruct (TcpServer.ok_identity _ _ _ _ Hok _ _ Ei) as [Hfd2 _].
    rewrite TcpServer.close_internal_eq by done. eexists. split; [done|]. cbn [snd]. split_and!.
    + cbn [TcpServer.set_identities TcpServer.m_queue_rtn]. by rewrite closed_commands.
    + cbn [TcpServer.set_identities TcpServer.m_array_epoll_data]. by rewrite closed_other.
    + cbn [TcpServer.set_identities TcpServer.m_log]. rewrite TcpServer.log_closed. cbn [s1 TcpServer.note TcpServer.m_log]. by rewrite <-app_assoc.
Qed.

Lemma handle_send e s fd tag data l c :
  ok s → m_list (TcpServer.m_queue_rtn s) = TcpServer.EpollRtn fd tag [] data TcpServer.PIPE_CMD_SEND :: l →
  TcpServer.m_array_epoll_data s !! fd = Some c → TcpServer.m_unify_tag c = tag →
  let rc := env_send e (TcpServer.m_log s) fd data in
  ∃ s', handle (e, TcpServer.PipeReadable 1) s = Ret s' ∧ m_list (TcpServer.m_queue_rtn s') = l ∧
    TcpServer.m_array_epoll_data s' !! fd = (if decide (rc = -1) then None else Some (TcpServer.touch (env_time e) c)) ∧
    TcpServer.m_log s' = TcpServer.m_log s ++ Sent fd data rc :: if decide (rc = -1) then [Closed fd] else [].
Proof.
  intros Hok El Ec Et rc. destruct (TcpServer.ok_client _ _ _ _ Hok _ _ Ec) as [Efd Hfd _ _].
  destruct (handle_command e s _ _ El) as (k & q & Eq & ->). set (s0 := TcpServer.set_commands q _).
  unfold TcpServer.pipe_cmd, TcpServer.command_target. cbn [TcpServer.cmd_type TcpServer.clientfd TcpServer.fd_unify_tag TcpServer.socket_ientity].
  rewrite (bool_decide_eq_false_2 (TcpServer.PIPE_CMD_SEND = TcpServer.PIPE_CMD_AUTH_OK)), (bool_decide_eq_true_2 ([] = [])) by done.
  cbn [orb TcpServer.info_fd TcpServer.info_tag].
  rewrite (bool_decide_eq_false_2 (TcpServer.PIPE_CMD_SEND = TcpServer.PIPE_CMD_BOADCAST)) by done.
  rewrite (proj2 (Z.leb_gt _ _)) by lia. rewrite TcpServer.get_client_eq by done.
  change (TcpServer.m_array_epoll_data s0) with (TcpServer.m_array_epoll_data s). rewrite Ec. cbn [mbind outcome_bind].
  assert (TcpServer.same_socket c fd tag = true) as Hss by (unfold TcpServer.same_socket; by rewrite !bool_decide_eq_true_2).
  rewrite Hss. cbn [negb]. rewrite (bool_decide_eq_true_2 (TcpServer.PIPE_CMD_SEND = TcpServer.PIPE_CMD_SEND)) by done.
  unfold TcpServer.pipe_cmd_send. cbn [TcpServer.socket_ientity TcpServer.str_data_send].
  rewrite (bool_decide_eq_true_2 ([] = [])) by done. unfold TcpServer.senddata_internal.
  set (s1 := TcpServer.put_client fd _ s0). change (TcpServer.m_log s1) with (TcpServer.m_log s). fold rc.
  assert (TcpServer.m_array_epoll_data (TcpServer.note (Sent fd data rc) s1) !! fd = Some (TcpServer.touch (env_time e) c)) as E1
    by (cbn; by rewrite lookup_insert_eq).
  destruct (decide (rc = -1)) as [Hrc|Hrc].
  - rewrite (bool_decide_eq_true_2 (rc = -1)) by done. rewrite TcpServer.close_internal_eq by done. eexists. split; [done|]. cbn [snd].
    split_and!; [by rewrite closed_commands| |rewrite TcpServer.log_closed; cbn [TcpServer.note TcpServer.m_log]; by rewrite <-app_assoc].
    unfold TcpServer.closed. rewrite E1. case_bool_decide; cbn; by rewrite lookup_delete_eq.
  - rewrite (bool_decide_eq_false_2 (rc = -1)) by done. case_bool_decide; (eexists; split; [done|]; by split_and!).
Qed.

Lemma ok_submitted l s s' : ok s → Forall (λ c, 0 ≤ TcpServer.clientfd c) l → submitted l s s' → ok s'.
Proof.
  intros [H1 H2 H3 H4 H5 H6 H7 H8] Hl (k & q & -> & Eq). split; try done.
  cbn [TcpServer.set_pipe TcpServer.set_commands TcpServer.m_queue_rtn]. rewrite Eq. intros c. rewrite elem_of_app. rewrite Forall_forall in Hl.
  intros [?|?]; auto.
Qed.
End reactor.

(** ** Interference *)

(** The threads do one operation each in the order of the schedule. *)
Fixpoint schedule (sched : list positive) (a : answers) (ts : gmap positive (prog op unit)) (w : world (gset (list Z))) :
    outcome (gmap positive (prog op unit) * world (gset (list Z))) :=
  match sched with
  | [] => Ret (ts, w)
  | t :: sched =>
      match ts !! t with
      | Some (Do o k) => let! r := exec _ a o w in schedule sched a (<[t := k r.1]> ts) r.2
      | _ => Stuck
      end
  end.

Definition demo_answers : answers :=
  Answers (Env 10 (λ _ _ data, slen data) (λ _ _, 1)) TimedOut (0, str "tokenid=t@d") 5 6.
Definition demo_message (fd : Z) : STU_MSG_INFO :=
  MsgInfo fd (fd * 2 ^ 32 + 1) [] CONTENT_PATH_AUTH (str "path=/cli/notify/adapter/auth/post&key=k&seqid=9").
Definition demo_world (keys : gset (list Z)) : world (gset (list Z)) :=
  World (TcpServer.new_server 10) HttpServer.new_server keys (BlockQueue [1%positive; 2%positive] 2 3)
    new_block_queue new_block_queue [] keys.

(** The keys of [key_set] with a connection on which every removal fails. *)
Definition key_set_read_only : RedisClients (gset (list Z)) := {|
  redis_set_value := redis_set_value (RedisClients := key_set);
  redis_get_value := redis_get_value (RedisClients := key_set);
  redis_del_value c k s := Ret (-1, s);
  redis_set_expire := redis_set_expire (RedisClients := key_set);
  stored := stored (RedisClients := key_set);
  redis_ok := redis_ok (RedisClients := key_set);
|}.

Lemma key_set_read_only_laws : RedisLaws (gset (list Z)) (H := key_set_read_only).
Proof.
  split; try apply key_set_laws.
  - by intros c k s r s' _ [= <- <-].
  - intros. by eexists _, _.
Qed.

(** ** Properties *)

(** C37 [process_auth] without interference: with a key that Redis knows and an
    identity from the tokenid service, the connection of the message is to be
    authenticated with the identity and to get the answer; otherwise it is to
    get a refusal and to be closed.  The key is removed by one call, whose result
    [r2] is not looked at.  If the call succeeds the key grants once: a second
    message with it is refused, whatever other keys have expired.  If it fails
    the key grants again; and between the query and the removal another worker
    can ask for the same key: then, too, both connections are authenticated. *)
Theorem process_auth_correct {K : Type} `{RedisLaws K} `{BoostLaws} a host_le domain url m mc w c l r v s' r2 s2 :
  redis_ok (w_redis w) → m_list (w_pool w) = c :: l → decode_content (content m) ∅ = Ret mc →
  let key := get_value (str "key") mc in let seqid := get_value (str "seqid") mc in
  redis_get_value c (PREFIX_RANDOMKEY ++ key) (w_redis w) = Ret (r, v, s') →
  (r = 1 → redis_del_value (hd c l) (PREFIX_RANDOMKEY ++ key) s' = Ret (r2, s2)) →
  returns (run1 a (process_auth host_le domain url m) w) (λ x,
    if decide (key ≠ [] ∧ r = 1 ∧ token_of (a_post a) ≠ []) then
      commands x.2 = commands w ++ granted host_le m seqid (token_of (a_post a)) ∧ w_redis x.2 = s2 ∧
      (0 ≤ r2 → ∀ k c' l' m' mc' a' r' v' s', redis_ok k → stored k ⊆ stored s2 → m_list (w_pool x.2) = c' :: l' →
        decode_content (content m') ∅ = Ret mc' → get_value (str "key") mc' = key →
        redis_get_value c' (PREFIX_RANDOMKEY ++ key) k = Ret (r', v', s') →
        returns (run1 a' (process_auth host_le domain url m') (set_redis k x.2)) (λ x',
          commands x'.2 = commands x.2 ++ refused host_le m' (get_value (str "seqid") mc')))
    else commands x.2 = commands w ++ refused host_le m seqid) ∧
  returns (let! x := run1 (H := key_set_read_only) demo_answers (process_auth (H := boost_impl) true (str "d") (str "u") (demo_message 7)) (demo_world {[ str "randomkeyk" ]}) in
           run1 (H := key_set_read_only) demo_answers (process_auth (H := boost_impl) true (str "d") (str "u") (demo_message 8)) x.2) (λ x,
    commands x.2 = granted true (demo_message 7) (str "9") (str "t@d") ++ granted true (demo_message 8) (str "9") (str "t@d")) ∧
  returns (schedule [1; 1; 1; 2; 2; 2; 1; 1; 1; 1; 1; 1; 2; 2; 2; 2; 2; 2]%positive demo_answers
      {[ 1%positive := process_auth (H := boost_impl) true (str "d") (str "u") (demo_message 7);
         2%positive := process_auth (H := boost_impl) true (str "d") (str "u") (demo_message 8) ]}
      (demo_world {[ str "randomkeyk" ]})) (λ x,
    commands x.2 = granted true (demo_message 7) (str "9") (str "t@d") ++ granted true (demo_message 8) (str "9") (str "t@d")).
Proof.
  intros Hok El Emc key seqid Eget Edel. split; [|split; by vm_compute].
  eapply returns_mono; [by eapply run1_auth|]. intros [[] w'] Hx. cbn [snd] in *.
  fold key in Hx. fold seqid in Hx. destruct (decide (key ≠ [] ∧ r = 1 ∧ token_of (a_post a) ≠ [])) as [(_ & Hr & _)|]; [|exact Hx].
  destruct Hx as [Hc Hk]. split; [by apply submitted_commands|]. split; [done|].
  intros Hr2 k c' l' m' mc' a' r3 v3 s3 Hok' Hsub Ep Emc' Ekey E3.
  apply get_value_stored in Eget as (Hok1 & _); [|done].
  apply (del_value_stored _ _ _ _ _ Hok1) in Edel as (_ & _ & Hgone); [|done].
  pose proof E3 as (_ & _ & Hin)%get_value_stored; [|done].
  assert (r3 ≠ 1) as Hr3 by (intros E1; apply (Hgone Hr2), Hsub; auto).
  eapply returns_mono; [eapply (run1_auth _ _ _ _ _ _ _ _ _ _ _ _ r2 s2); [exact Hok'|exact Ep|exact Emc'|rewrite Ekey; exact E3|done]|].
  intros [[] w2]. cbn [snd]. by rewrite decide_False by tauto.
Qed.

(** C19 An authentication from the message to the client: the worker runs
    [process_auth], the reactor takes the two commands.  If the key is known and
    the tokenid service gives an identity, the very connection of the message is
    given the identity, another connection that has it is closed, and the client
    gets the frame with the answer in one call; unless the call fails the client
    stands in its slot, authenticated, with the identity. *)
Theorem auth_end_to_end {K : Type} `{RedisLaws K} `{BoostLaws} a host_le MD5 m_verify_key interval limit
    domain url m mc (w : world K) cl l v s' r2 k2 c e1 e2 :
  (∀ l, length (MD5 l) = 16%nat) → TcpServer.reachable host_le MD5 m_verify_key interval limit (w_tcp w) → commands w = [] → redis_ok (w_redis w) →
  m_list (w_pool w) = cl :: l → decode_content (content m) ∅ = Ret mc →
  let key := get_value (str "key") mc in
  key ≠ [] → redis_get_value cl (PREFIX_RANDOMKEY ++ key) (w_redis w) = Ret (1, v, s') →
  redis_del_value (hd cl l) (PREFIX_RANDOMKEY ++ key) s' = Ret (r2, k2) → token_of (a_post a) ≠ [] →
  TcpServer.m_array_epoll_data (w_tcp w) !! msg_fd m = Some c → TcpServer.m_unify_tag c = msg_tag m →
  let token := token_of (a_post a) in
  let frame := encode_buffer host_le 0 (encode_auth true [] (get_value (str "seqid") mc) token) [] in
  let log1 := TcpServer.m_log (w_tcp w) ++ Granted (msg_fd m) (msg_tag m) token :: loser (w_tcp w) token (msg_fd m) in
  let rc := env_send e2 log1 (msg_fd m) frame in
  returns (let! x := run1 a (process_auth host_le domain url m) w in
           let! s1 := TcpServer.handle host_le MD5 m_verify_key (e1, TcpServer.PipeReadable 1) (w_tcp x.2) in
           TcpServer.handle host_le MD5 m_verify_key (e2, TcpServer.PipeReadable 1) s1) (λ s2,
    TcpServer.m_log s2 = log1 ++ Sent (msg_fd m) frame rc :: (if decide (rc = -1) then [Closed (msg_fd m)] else []) ∧
    m_list (TcpServer.m_queue_rtn s2) = [] ∧
    (rc ≠ -1 → ∃ c', TcpServer.m_array_epoll_data s2 !! msg_fd m = Some c' ∧ TcpServer.m_is_authed c' = true ∧
       TcpServer.m_socket_identity c' = token ∧ TcpServer.m_unify_tag c' = msg_tag m)).
Proof.
  intros HM Hr%TcpServer.reachable_ok Hc Hred Ep Emc key Hk Eget Edel Htok Ec Et token frame log1 rc; [|done].
  apply returns_bind. eapply returns_mono; [by eapply run1_auth|]. intros [[] w']. cbn [snd]. fold key.
  rewrite decide_True by done. intros [Hsub _]. fold token in Hsub.
  destruct (TcpServer.ok_client _ _ _ _ Hr _ _ Ec) as [_ Hfd _ _].
  assert (TcpServer.server_ok host_le MD5 m_verify_key (w_tcp w')) as Hr'.
  { eapply ok_submitted; [exact Hr| |exact Hsub]. unfold granted. rewrite !Forall_cons, Forall_nil. cbn [TcpServer.clientfd]. lia. }
  pose proof (submitted_commands _ _ _ Hsub) as El. unfold commands in Hc. rewrite Hc in El. cbn [app] in El.
  destruct Hsub as (k & q & Ew & _).
  assert (TcpServer.m_array_epoll_data (w_tcp w') !! msg_fd m = Some c) as Ec' by by rewrite Ew.
  destruct (handle_auth host_le MD5 m_verify_key e1 (w_tcp w') _ _ _ _ c Hr' El Ec' Et Htok) as (s1 & E1 & El1 & Ec1 & Elog1).
  rewrite E1. cbn [mbind outcome_bind].
  assert (TcpServer.m_log s1 = log1) as Hlog1 by (rewrite Elog1, Ew; done).
  assert (TcpServer.server_ok host_le MD5 m_verify_key s1) as Hr1.
  { pose proof (TcpServer.handle_ok host_le MD5 m_verify_key HM (e1, TcpServer.PipeReadable 1) (w_tcp w') Hr' I) as Hret. by rewrite E1 in Hret. }
  destruct (handle_send host_le MD5 m_verify_key e2 s1 _ _ _ _ (TcpServer.set_identity token c) Hr1 El1 Ec1 Et) as (s2 & -> & El2 & Ec2 & Elog2).
  cbn [returns]. rewrite Hlog1 in Elog2, Ec2. split_and!; [exact Elog2|done|]. intros Hrc. rewrite Ec2, decide_False by done. by eexists.
Qed.

(** C38 A message that is not the adapter's own goes to the application server with
    the identity of its connection behind the content.  Read as texts are read
    everywhere in the adapter, it has the pairs of the content, and the identity
    unless the content has a pair [tokenid] itself: that one wins, so that a
    client can speak in another's name. *)
Theorem published_identity {K : Type} `{RedisLaws K} `{BoostLaws} a app_server m l mc (w : world K) :
  m_list (TcpServer.m_queue_adapter_cmd (w_tcp w)) = m :: l → decode_content (content m) ∅ = Ret mc →
  content_path m ∉ [CONTENT_PATH_AUTH; CONTENT_PATH_GETKEY; CONTENT_PATH_OFFLINE; CONTENT_PATH_HEARTBEAT] →
  plain (tokenid m) →
  returns (run1 a (adapter_cmd_turn app_server) w) (λ x,
    m_list (TcpServer.m_queue_adapter_cmd (w_tcp x.2)) = l ∧ w_tasks x.2 = w_tasks w ∧
    ∃ text, w_published x.2 = w_published w ++ [(text, app_server)] ∧
      returns (string2map text ∅) (λ mp,
        (∀ k, k ≠ str "tokenid" → get_value k mp = get_value k mc) ∧
        get_value (str "tokenid") mp = match mc !! str "tokenid" with Some id => id | None => tokenid m end)).
Proof.
  intros El Emc Hp Hid. rewrite !not_elem_of_cons in Hp. destruct Hp as (H1' & H2' & H3' & H4' & _).
  unfold adapter_cmd_turn. rewrite run1_bind, run1_act. cbn [exec]. unfold dequeue_expand, dequeue_nodelay. rewrite El.
  cbn [mbind outcome_bind fst snd]. rewrite (bool_decide_eq_false_2 (1 ≠ 1)) by (by intros []).
  rewrite !bool_decide_eq_false_2 by done. rewrite run1_act. cbn [exec returns snd]. split_and!; [done..|].
  eexists. split; [done|]. change (str "&tokenid=" ++ tokenid m) with (38 :: pair_text (str "tokenid", tokenid m)).
  rewrite (string2map_append _ _ _ _ mc) by (done || by apply plain_solid; by apply (bool_decide_unpack _); vm_compute).
  cbn [returns]. unfold get_value, map_insert. split.
  - intros k Hk. destruct (mc !! str "tokenid"); [done|]. by rewrite lookup_insert_ne.
  - destruct (mc !! str "tokenid") as [id|] eqn:E; [by rewrite E|]. by rewrite lookup_insert_eq.
Qed.

(** *** Witnesses *)
Definition demo_key_map : content_map :=
  match decode_content (content (demo_message 7)) ∅ with Ret m => m | _ => ∅ end.

Lemma demo_key_map_eq : decode_content (content (demo_message 7)) ∅ = Ret demo_key_map.
Proof. unfold demo_key_map, decode_content. by destruct (string2map_total (content (demo_message 7)) ∅) as [m ->]. Qed.

Lemma demo_key : get_value (str "key") demo_key_map = str "k" ∧ get_value (str "seqid") demo_key_map = str "9".
Proof. by vm_compute. Qed.

Lemma process_auth_correct_witness :
  returns (run1 demo_answers (process_auth (H := boost_impl) true (str "d") (str "u") (demo_message 7)) (demo_world {[ str "randomkeyk" ]}))
    (λ x, commands x.2 = granted true (demo_message 7) (str "9") (str "t@d")).
Proof.
  destruct demo_key as [Ek Es].
  eapply returns_mono; [refine (proj1 (process_auth_correct (H := key_set) (H1 := boost_impl) demo_answers true (str "d") (str "u") (demo_message 7) demo_key_map
    (demo_world {[ str "randomkeyk" ]}) 1 [2%positive] 1 (str "0") {[ str "randomkeyk" ]} 1 ∅ _ _ demo_key_map_eq _ _));
    [done|done|by rewrite Ek|by rewrite Ek]|].
  intros x. cbv beta zeta. rewrite Ek, Es, decide_True by by vm_compute. intros [Hx _]. exact Hx.
Defined.

Definition demo_authenticating : world (gset (list Z)) :=
  World TcpServer.demo_connected HttpServer.new_server {[ str "randomkeyk" ]} (BlockQueue [1%positive; 2%positive] 2 3)
    new_block_queue new_block_queue [] {[ str "randomkeyk" ]}.

Lemma demo_client :
  ∃ c, TcpServer.m_array_epoll_data TcpServer.demo_connected !! 7 = Some c ∧ TcpServer.m_unify_tag c = msg_tag (demo_message 7).
Proof.
  assert (TcpServer.m_unify_tag <$> (TcpServer.m_array_epoll_data TcpServer.demo_connected !! 7) = Some (msg_tag (demo_message 7))) as H by by vm_compute.
  apply fmap_Some in H as (c & E1 & E2). exists c. split; [exact E1|symmetry; exact E2].
Qed.

#[local] Opaque TcpServer.demo_connected.

Lemma auth_end_to_end_witness :
  let frame := encode_buffer true 0 (encode_auth true [] (str "9") (str "t@d")) [] in
  returns (let! x := run1 demo_answers (process_auth (H := boost_impl) true (str "d") (str "u") (demo_message 7)) demo_authenticating in
           let! s1 := TcpServer.handle (H := boost_impl) true TcpServer.demo_md5 [] (TcpServer.demo_env, TcpServer.PipeReadable 1) (w_tcp x.2) in
           TcpServer.handle (H := boost_impl) true TcpServer.demo_md5 [] (TcpServer.demo_env, TcpServer.PipeReadable 1) s1) (λ s2,
    ∃ l, TcpServer.m_log s2 = l ++ [Sent 7 frame (slen frame)]).
Proof.
  destruct demo_key as [Ek Es]. intros frame.
  destruct demo_client as (c & Ec & Et).
  assert (commands demo_authenticating = []) as Hc
    by (change (commands demo_authenticating) with (m_list (TcpServer.m_queue_rtn TcpServer.demo_connected)); by vm_compute).
  pose proof (auth_end_to_end (H := key_set) (H1 := boost_impl) demo_answers true TcpServer.demo_md5 [] 100 100 (str "d") (str "u")
    (demo_message 7) demo_key_map demo_authenticating 1 [2%positive] (str "0") {[ str "randomkeyk" ]} 1 ∅ c TcpServer.demo_env TcpServer.demo_env
    (λ _, eq_refl) TcpServer.demo_connected_reachable Hc I eq_refl demo_key_map_eq) as Hx.
  rewrite Ek, Es in Hx. cbv zeta in Hx.
  eapply returns_mono; [apply Hx; [done|by rewrite <-Ek|by rewrite <-Ek|by vm_compute|exact Ec|exact Et]|].
  intros s. cbv beta. intros [Hs _]. rewrite Hs. by eexists.
Defined.

(** A client with the identity [t@d] pushes in the name of [x@d]. *)
Definition demo_forged : STU_MSG_INFO := MsgInfo 7 (TcpServer.demo_tag 7 1) (str "t@d") (str "/p") (str "path=/p&tokenid=x@d").
Definition demo_forging : world (gset (list Z)) :=
  World (TcpServer.set_messages (BlockQueue [demo_forged] 1 3) (TcpServer.new_server 10)) HttpServer.new_server ∅ new_block_queue
    new_block_queue new_block_queue [] ∅.

Lemma published_identity_witness :
  returns (run1 demo_answers (adapter_cmd_turn (str "app")) demo_forging) (λ x,
    ∃ text, w_published x.2 = [(text, str "app")] ∧ returns (string2map (H := boost_impl) text ∅) (λ mp, get_value (str "tokenid") mp = str "x@d")).
Proof.
  destruct (string2map_total (H := boost_impl) (content demo_forged) ∅) as [mc E].
  assert (match string2map (H := boost_impl) (content demo_forged) ∅ with Ret m => m !! str "tokenid" | _ => None end = Some (str "x@d")) as Et
    by by vm_compute.
  rewrite E in Et.
  eapply returns_mono; [refine (published_identity (H1 := boost_impl) demo_answers (str "app") demo_forged [] mc demo_forging eq_refl E _ _);
    [|apply plain_solid]; by apply (bool_decide_unpack _); vm_compute|].
  intros x. cbv beta. intros (_ & _ & text & Ep & Hp). exists text. split; [done|]. eapply returns_mono; [exact Hp|].
  intros mp. cbv beta. rewrite Et. by intros [_ ?].
Defined.
