(* ===== verification/Store.v ===== *)
(** * What the touch server asks of Redis and MySQL

    The operations of the clients of Redis and MySQL that
    [xlgame_touch_server/src/rwdetach/RW_detacher.cpp] calls, as a class with its
    laws, and a small implementation.  [RedisSync.v] and [MySql.v] model the
    clients. *)

From Stdlib Require Import String.
From S2P Require Import Prelude Text.

(** ** Definitions *)

(** The methods of [redis_client]; a result that is also written to an argument
    comes as a pair. *)
Inductive redis_op : Type → Type :=
  | Hget (key field value : list Z) : redis_op (Z * list Z)
  | Hgetall (key : list Z) (out : list (list Z * list Z)) : redis_op (Z * list (list Z * list Z))
  | Hset (key field value : list Z) : redis_op Z
  | Hdel (key field : list Z) : redis_op Z
  | SetText (key value : list Z) : redis_op Z
  | Setex (key value : list Z) (secs : Z) : redis_op Z
  | GetText (key value : list Z) : redis_op (Z * list Z)
  | Expire (key : list Z) (secs : Z) : redis_op Z
  | Del (key : list Z) : redis_op Z
  | Incrby (key value : list Z) : redis_op Z
  | Sadd (key value : list Z) : redis_op Z
  | Sismember (key value : list Z) : redis_op Z.

Abbreviation row := (gmap (list Z) (list Z)).

(** What the server of Redis has at a key: the number, 0 if there is none, and the
    members of the set. *)
Record view : Type := View { numbers : list Z → Z; members : list Z → list Z → Prop }.

(** [K]: all the clients and the two servers.  [mysql_read] answers the rows of a
    select, [None] when [Query] or [StoreResult] throw. *)
Class Store (K : Type) : Type := {
  redis_do : ∀ A, redis_op A → loc → K → outcome (A * K);
  mysql_read : loc → list Z → K → outcome (option (list row) * K);
  mysql_write : loc → list Z → K → outcome (bool * K);
  contents : K → view;
  store_ok : K → Prop;
}.
Arguments redis_do {K _ A}.

Definition counter `{Store K} (s : K) : list Z → Z := numbers (contents s).
Definition member `{Store K} (s : K) : list Z → list Z → Prop := members (contents s).

(** The numbers, or the sets, stay as they are except at [key]. *)
Definition same_counters (key : option (list Z)) (V V' : view) : Prop := ∀ k, key ≠ Some k → numbers V' k = numbers V k.
Definition same_members (key : option (list Z)) (V V' : view) : Prop := ∀ k v, key ≠ Some k → members V' k v ↔ members V k v.

(** The effect of one operation on the numbers and sets, which is what the rules of
    the filters need; it may have been executed when the answer is -1.  Keys are C
    strings.  What expires is left out: the laws hold of a time in which no number
    and no set does.  [RedisSync.says] is what the answers say of strings, hashes and
    times to live. *)
Definition redis_effect {A} (q : redis_op A) : A → view → view → Prop :=
  match q in redis_op A return A → view → view → Prop with
  | Incrby key value => λ r V V',
      same_counters (Some (c_string key)) V V' ∧ same_members None V V' ∧
      (value = str "1" →
       numbers V' (c_string key) = numbers V (c_string key) + 1 ∧ (r = -1 ∨ r = s32 (numbers V' (c_string key))) ∨
       numbers V' (c_string key) = numbers V (c_string key) ∧ r = -1)
  | Del key => λ r V V',
      same_counters (Some (c_string key)) V V' ∧ same_members (Some (c_string key)) V V' ∧
      (numbers V' (c_string key) = 0 ∨ numbers V' (c_string key) = numbers V (c_string key) ∧ r = -1)
  | SetText key _ | Setex key _ _ => λ _ V V', same_counters (Some (c_string key)) V V' ∧ same_members (Some (c_string key)) V V'
  | Hset key _ _ | Hdel key _ => λ _ V V', same_counters None V V' ∧ same_members None V V'
  | Sadd key value => λ r V V',
      same_counters None V V' ∧ same_members (Some (c_string key)) V V' ∧
      (∀ v, members V (c_string key) v → members V' (c_string key) v) ∧
      (∀ v, members V' (c_string key) v → members V (c_string key) v ∨ v = c_string value) ∧
      (r ≠ -1 → members V' (c_string key) (c_string value))
  | Sismember key value => λ r V V',
      same_counters None V V' ∧ same_members None V V' ∧
      (r = 1 ∧ members V (c_string key) (c_string value) ∨ r = 0 ∧ ¬ members V (c_string key) (c_string value) ∨ r = -1)
  | Expire _ secs => λ _ V V', 0 < secs → same_counters None V V' ∧ same_members None V V'
  | Hget _ _ _ | Hgetall _ _ | GetText _ _ => λ _ V V', same_counters None V V' ∧ same_members None V V'
  end.

(** Every operation completes, apart from reads of null fields. *)
Class StoreLaws (K : Type) `{Store K} : Prop := {
  redis_do_effect A (q : redis_op A) c s r s' :
    store_ok s → redis_do q c s = Ret (r, s') → store_ok s' ∧ redis_effect q r (contents s) (contents s');
  redis_do_returns A (q : redis_op A) c s : store_ok s → ∃ x, redis_do q c s = Ret x;
  mysql_read_effect c sql s r s' :
    store_ok s → mysql_read c sql s = Ret (r, s') → store_ok s' ∧ same_counters None (contents s) (contents s') ∧ same_members None (contents s) (contents s');
  mysql_write_effect c sql s r s' :
    store_ok s → mysql_write c sql s = Ret (r, s') → store_ok s' ∧ same_counters None (contents s) (contents s') ∧ same_members None (contents s) (contents s');
}.

Lemma same_counters_refl key V : same_counters key V V.
Proof. done. Qed.
Lemma same_counters_trans key V1 V2 V3 : same_counters key V1 V2 → same_counters key V2 V3 → same_counters key V1 V3.
Proof. intros H1 H2 k Hk. transitivity (numbers V2 k); [by apply H2|by apply H1]. Qed.
Lemma same_counters_weaken key V V' : same_counters None V V' → same_counters key V V'.
Proof. intros Hs k _. by apply Hs. Qed.
Lemma same_members_refl key V : same_members key V V.
Proof. done. Qed.
Lemma same_members_trans key V1 V2 V3 : same_members key V1 V2 → same_members key V2 V3 → same_members key V1 V3.
Proof. intros H1 H2 k v Hk. transitivity (members V2 k v); [by apply H2|by apply H1]. Qed.

(** ** A small implementation *)

(** Counters and sets that never fail; [reply]: the answers of the selects, [None] if
    the query throws. *)
Record small_store : Type := SmallStore {
  s_counters : gmap (list Z) Z;
  s_members : gset (list Z * list Z);
}.

Definition small_with (reply : list Z → option (list row)) : Store small_store := {|
  redis_do A q c s :=
    match q in redis_op A return outcome (A * small_store) with
    | Incrby key value =>
        if bool_decide (value = str "1") then
          let n := default 0 (s_counters s !! c_string key) + 1 in
          Ret (s32 n, SmallStore (<[c_string key := n]> (s_counters s)) (s_members s))
        else Ret (-1, s)
    | Del key => Ret (1, SmallStore (delete (c_string key) (s_counters s)) (filter (λ x, x.1 ≠ c_string key) (s_members s)))
    | Sadd key value => Ret (1, SmallStore (s_counters s) ({[ (c_string key, c_string value) ]} ∪ s_members s))
    | Sismember key value => Ret (if decide ((c_string key, c_string value) ∈ s_members s) then 1 else 0, s)
    | Hget _ _ value | GetText _ value => Ret ((0, value), s)
    | Hgetall _ out => Ret ((0, out), s)
    | Hset _ _ _ | Hdel _ _ | SetText _ _ | Setex _ _ _ | Expire _ _ => Ret (1, s)
    end;
  mysql_read c sql s := Ret (reply sql, s);
  mysql_write c sql s := Ret (true, s);
  contents s := View (λ k, default 0 (s_counters s !! k)) (λ k v, (k, v) ∈ s_members s);
  store_ok s := True;
|}.

Lemma small_with_laws reply : StoreLaws small_store (H := small_with reply).
Proof.
  split.
  - intros A q c s r s' _ E. split; [done|].
    destruct q; cbn [redis_do small_with redis_effect] in *; simplify_eq; try done.
    + unfold same_counters, same_members. cbn. split_and!.
      * intros k Hk. by rewrite lookup_delete_ne by congruence.
      * intros k v Hk. rewrite elem_of_filter. cbn. naive_solver.
      * left. by rewrite lookup_delete_eq.
    + unfold same_counters, same_members. case_bool_decide as Ev; simplify_eq; cbn; [|by split_and!].
      split_and!; [|done|].
      * intros k Hk. by rewrite lookup_insert_ne by congruence.
      * intros _. left. rewrite lookup_insert_eq. cbn. by split; [|right].
    + unfold same_counters, same_members. cbn. split_and!; [done|..].
      * intros k v Hk. rewrite elem_of_union, elem_of_singleton. naive_solver.
      * set_solver.
      * set_solver.
      * set_solver.
    + unfold same_counters, same_members. cbn. split_and!; [done|done|]. case_decide; auto.
  - intros A q c s _. destruct q; cbn [redis_do small_with]; try by eexists. case_bool_decide; by eexists.
  - by intros c sql s r s' _ [= <- <-].
  - by intros c sql s r s' _ [= <- <-].
Qed.

#[export] Instance small : Store small_store := small_with (λ _, None).
#[export] Instance small_laws : StoreLaws small_store := small_with_laws _.
