(* ===== verification/RedisSync.v ===== *)
(** * The client of Redis of the touch server
    ([xlgame_touch_server/src/redis/redis_client/redis_client.cpp])

    Every operation sends one command and waits for the reply.  hiredis is behind
    the class [Hiredis]; [SyncLaws] states what is documented of it and of the
    commands. *)

From Stdlib Require Import String.
From stdpp Require Import functions.
From S2P Require Import Prelude Text Utility Store Hiredis.

(** ** Definitions *)
Definition REDIS_REPLY_STATUS_OK : list Z := str "OK".
Definition REDIS_CMD_EXPIRE : list Z := str "EXPIRE".
Definition REDIS_CMD_GET : list Z := str "GET".
Definition REDIS_CMD_SET : list Z := str "SET".
Definition REDIS_CMD_SETEX : list Z := str "SETEX".
Definition REDIS_CMD_DEL : list Z := str "DEL".
Definition REDIS_CMD_SADD : list Z := str "SADD".
Definition REDIS_CMD_SISMEMBER : list Z := str "SISMEMBER".
Definition REDIS_CMD_HSET : list Z := str "HSET".
Definition REDIS_CMD_HGET : list Z := str "HGET".
Definition REDIS_CMD_HGETALL : list Z := str "HGETALL".
Definition REDIS_CMD_HDEL : list Z := str "HDEL".
Definition REDIS_CMD_INCRBY : list Z := str "INCRBY".

(** [strcasecmp] says that they are equal. *)
Definition same_text (s1 s2 : list Z) : bool := bool_decide (tolower <$> c_string s1 = tolower <$> c_string s2).

Section client.
Context {C W : Type} `{Hiredis C W}.
Context (m_redis_ip : list Z) (m_redis_port m_timeout_seconds : Z).

(** [m_redis_context], and the rest of the world. *)
Definition state : Type := option C * W.

(** The constructor and the destructor. *)
Definition new_redis_client (w : W) : state := (None, w).
Definition delete_redis_client (s : state) : W := match s.1 with Some c => redisFree c s.2 | None => s.2 end.

Definition connect (s : state) : Z * state :=
  let s := redisConnectWithTimeout (c_string m_redis_ip) m_redis_port m_timeout_seconds s.2 in
  match s.1 with
  | None => (-1, s)
  | Some c => if bool_decide (err c ≠ 0) then (-1, s) else (0, s)
  end.

Definition check_connection (s : state) : outcome (Z * state) :=
  let (result, s) := match s.1 with None => connect s | Some _ => (0, s) end in
  if bool_decide (result = -1) then Ret (-1, s)
  else match s.1 with
  | None => Stuck
  | Some c => if bool_decide (err c ≠ 0) then Ret (connect (None, redisFree c s.2)) else Ret (0, s)
  end.

Definition is_cmd_send_out (c : C) : bool :=
  let str_outbuffer := c_string (obuf c) in bool_decide (str_outbuffer = []).

(** The result, [*ppreply] and the state. *)
Definition commit_cmd (ppreply : option redisReply) (s : state) : outcome (Z * option redisReply * state) :=
  match s.1 with
  | None => Ret (-1, None, s)
  | Some c =>
      if bool_decide (err c ≠ 0) then
        let str_outbuffer := c_string (obuf c) in
        let (result, s) := connect (None, redisFree c s.2) in
        if bool_decide (result = -1) then Ret (-1, None, s)
        else match s.1 with
        | None => Stuck
        | Some c =>
            let! r := redisAppendFormat c str_outbuffer in
            Ret (if bool_decide (r.1 ≠ 0) then -1 else 0, ppreply, (Some r.2, s.2))
        end
      else Ret (0, ppreply, s)
  end.

(** What every operation begins with; [None]: it returns -1. *)
Definition ask (cmd : list (list Z)) (s : state) : outcome (option redisReply * state) :=
  let! r := check_connection s in
  let (result, s) := (r : Z * state) in
  if bool_decide (result = -1) then Ret (None, s)
  else match s.1 with
  | None => Ret (None, s)
  | Some c => let '(reply, c, w) := redisCommand c cmd s.2 in Ret (reply, (Some c, w))
  end.

(** The replies of the kind [REDIS_REPLY_STATUS]. *)
Definition status_of (reply : option redisReply) : Z :=
  match reply with
  | None => -1
  | Some (Reply type _ reply_str _) =>
      if bool_decide (type ≠ REDIS_REPLY_STATUS) then -1
      else match reply_str with
      | None => -1
      | Some text => if bool_decide (text = []) then -1 else if same_text text REDIS_REPLY_STATUS_OK then 0 else -1
      end
  end.

(** The replies of the kind [REDIS_REPLY_INTEGER]; [message]: the text of another
    reply is written. *)
Definition integer_of (message : bool) (reply : option redisReply) : outcome Z :=
  match reply with
  | None => Ret (-1)
  | Some (Reply type integer reply_str _) =>
      if bool_decide (type ≠ REDIS_REPLY_INTEGER) then
        let! _ := if message then log_text reply_str else Ret tt in Ret (-1)
      else Ret (s32 integer)
  end.

(** The replies of the kind [REDIS_REPLY_STRING]: the result and the value that is
    left. *)
Definition string_of (value : list Z) (reply : option redisReply) : outcome (Z * list Z) :=
  match reply with
  | None => Ret (-1, value)
  | Some (Reply type _ reply_str _) =>
      if bool_decide (type ≠ REDIS_REPLY_STRING) then
        if bool_decide (type = REDIS_REPLY_NIL) then Ret (0, value)
        else let! _ := log_text reply_str in Ret (-1, value)
      else match reply_str with
      | None => Ret (-1, value)
      | Some text => if bool_decide (text = []) then Ret (-1, value) else Ret (0, c_string text)
      end
  end.

(** The fields and values of a hash; a pair that lacks one is dropped. *)
Fixpoint pairs_of (element : list (option redisReply)) (out : list (list Z * list Z)) : outcome (list (list Z * list Z)) :=
  match element with
  | [] => Ret out
  | [_] => Stuck
  | Some (Reply _ _ (Some key) _) :: Some (Reply _ _ (Some value) _) :: element => pairs_of element (out ++ [(c_string key, c_string value)])
  | _ :: _ :: element => pairs_of element out
  end.

Definition hash_of (out : list (list Z * list Z)) (reply : option redisReply) : outcome (Z * list (list Z * list Z)) :=
  match reply with
  | None => Ret (-1, out)
  | Some (Reply type _ reply_str element) =>
      if bool_decide (type ≠ REDIS_REPLY_ARRAY) then
        let! _ := if bool_decide (type = REDIS_REPLY_ERROR) then log_text reply_str else Ret tt in
        Ret (-1, out)
      else if bool_decide (element = []) then Ret (0, out)
      else let! out := pairs_of element out in Ret (0, out)
  end.

Definition set (key value : list Z) (s : state) : outcome (Z * state) :=
  let! r := ask [REDIS_CMD_SET; c_string key; c_string value] s in Ret (status_of r.1, r.2).
Definition setex (key value : list Z) (secs : Z) (s : state) : outcome (Z * state) :=
  let! r := ask [REDIS_CMD_SETEX; c_string key; format_uint32 secs; c_string value] s in Ret (status_of r.1, r.2).
Definition get (key value : list Z) (s : state) : outcome (Z * list Z * state) :=
  let! r := ask [REDIS_CMD_GET; c_string key] s in
  let! x := string_of value r.1 in Ret (x, r.2).
Definition del (key : list Z) (s : state) : outcome (Z * state) :=
  let! r := ask [REDIS_CMD_DEL; c_string key] s in
  let! x := integer_of false r.1 in Ret (x, r.2).
Definition expire (key : list Z) (secs : Z) (s : state) : outcome (Z * state) :=
  let! r := ask [REDIS_CMD_EXPIRE; c_string key; format_uint32 secs] s in
  let! x := integer_of false r.1 in Ret (x, r.2).
Definition hget (key field value : list Z) (s : state) : outcome (Z * list Z * state) :=
  let! r := ask [REDIS_CMD_HGET; c_string key; c_string field] s in
  let! x := string_of value r.1 in Ret (x, r.2).
Definition hgetall (key : list Z) (out : list (list Z * list Z)) (s : state) : outcome (Z * list (list Z * list Z) * state) :=
  let! r := ask [REDIS_CMD_HGETALL; c_string key] s in
  let! x := hash_of out r.1 in Ret (x, r.2).
Definition hset (key field value : list Z) (s : state) : outcome (Z * state) :=
  let! r := ask [REDIS_CMD_HSET; c_string key; c_string field; c_string value] s in
  let! x := integer_of true r.1 in Ret (x, r.2).
Definition hdel (key field : list Z) (s : state) : outcome (Z * state) :=
  let! r := ask [REDIS_CMD_HDEL; c_string key; c_string field] s in
  let! x := integer_of true r.1 in Ret (x, r.2).
Definition incrby (key value : list Z) (s : state) : outcome (Z * state) :=
  let! r := ask [REDIS_CMD_INCRBY; c_string key; c_string value] s in
  let! x := integer_of true r.1 in Ret (x, r.2).
Definition sadd (key value : list Z) (s : state) : outcome (Z * state) :=
  let! r := ask [REDIS_CMD_SADD; c_string key; c_string value] s in
  let! x := integer_of false r.1 in Ret (x, r.2).
Definition sismember (key value : list Z) (s : state) : outcome (Z * state) :=
  let! r := ask [REDIS_CMD_SISMEMBER; c_string key; c_string value] s in
  let! x := integer_of false r.1 in Ret (x, r.2).

(** The methods by the operations of [Store.v]. *)
Definition method {A} (q : redis_op A) : state → outcome (A * state) :=
  match q in redis_op A return state → outcome (A * state) with
  | Hget key field value => hget key field value
  | Hgetall key out => hgetall key out
  | Hset key field value => hset key field value
  | Hdel key field => hdel key field
  | SetText key value => set key value
  | Setex key value secs => setex key value secs
  | GetText key value => get key value
  | Expire key secs => expire key secs
  | Del key => del key
  | Incrby key value => incrby key value
  | Sadd key value => sadd key value
  | Sismember key value => sismember key value
  end.
End client.

(** ** What is documented of hiredis and the commands *)

Definition unchanged (V V' : view) : Prop := same_counters None V V' ∧ same_members None V V'.
Definition changes (key : list Z) (V V' : view) : Prop := same_counters (Some key) V V' ∧ same_members (Some key) V V'.

(** The server executes a command; it may refuse any.  A key with a number has no
    members, and a set no number.  This is the view of [Store], in which no number and
    no set expires; [serves] says what a command does with the keys in any case. *)
Inductive executed : list (list Z) → view → view → redisReply → Prop :=
  | executed_error cmd V V' text : unchanged V V' → executed cmd V V' (Reply REDIS_REPLY_ERROR 0 (Some text) [])
  | executed_set k v V V' : changes k V V' → executed [REDIS_CMD_SET; k; v] V V' (status REDIS_REPLY_STATUS_OK)
  | executed_setex k t v V V' : changes k V V' → executed [REDIS_CMD_SETEX; k; t; v] V V' (status REDIS_REPLY_STATUS_OK)
  | executed_get k v V V' : unchanged V V' → executed [REDIS_CMD_GET; k] V V' (Reply REDIS_REPLY_STRING 0 (Some v) [])
  | executed_get_nil k V V' : unchanged V V' → executed [REDIS_CMD_GET; k] V V' (Reply REDIS_REPLY_NIL 0 None [])
  | executed_del k V V' n :
      changes k V V' → numbers V' k = 0 → (∀ v, ¬ members V' k v) → 0 ≤ n ≤ 1 → executed [REDIS_CMD_DEL; k] V V' (number n)
  | executed_expire k t V V' n :
      changes k V V' → ((∃ secs, 0 < secs ∧ t = print_dec secs) → unchanged V V') → 0 ≤ n ≤ 1 → executed [REDIS_CMD_EXPIRE; k; t] V V' (number n)
  | executed_incrby k d V V' n :
      changes k V V' → (∀ v, members V' k v ↔ members V k v) → n = numbers V' k → (d = str "1" → n = numbers V k + 1) →
      executed [REDIS_CMD_INCRBY; k; d] V V' (number n)
  | executed_sadd k v V V' n :
      (∀ k, numbers V' k = numbers V k) → (∀ k' v', members V' k' v' ↔ members V k' v' ∨ k' = k ∧ v' = v) → 0 ≤ n ≤ 1 →
      executed [REDIS_CMD_SADD; k; v] V V' (number n)
  | executed_sismember k v V V' n :
      unchanged V V' → n = 1 ∧ members V k v ∨ n = 0 ∧ ¬ members V k v → executed [REDIS_CMD_SISMEMBER; k; v] V V' (number n)
  | executed_hget k f v V V' : unchanged V V' → executed [REDIS_CMD_HGET; k; f] V V' (Reply REDIS_REPLY_STRING 0 (Some v) [])
  | executed_hget_nil k f V V' : unchanged V V' → executed [REDIS_CMD_HGET; k; f] V V' (Reply REDIS_REPLY_NIL 0 None [])
  | executed_hset k f v V V' n : unchanged V V' → 0 ≤ n ≤ 1 → executed [REDIS_CMD_HSET; k; f; v] V V' (number n)
  | executed_hdel k f V V' n : unchanged V V' → 0 ≤ n ≤ 1 → executed [REDIS_CMD_HDEL; k; f] V V' (number n)
  | executed_hgetall k l V V' :
      unchanged V V' → (length l mod 2 = 0)%nat → executed [REDIS_CMD_HGETALL; k] V V' (Reply REDIS_REPLY_ARRAY 0 None (texts l)).

(** [idle]: nothing has been sent over the connection that has not been answered;
    [server] is what the interface [Store] sees of the server, [space] what it has. *)
Class SyncServer (C W : Type) : Type := { idle : C → Prop; server : W → view; space : W → keyspace }.

(** Nothing happens but that keys expire, and a command is executed. *)
Definition kept `{SyncServer C W} (w w' : W) : Prop := unchanged (server w) (server w') ∧ space w' ⊆ space w.
Definition served `{SyncServer C W} (cmd : list (list Z)) (w w' : W) (x : redisReply) : Prop :=
  executed cmd (server w) (server w') x ∧ serves cmd (space w) (space w') x.

Class SyncLaws (C W : Type) `{Hiredis C W} `{SyncServer C W} : Prop := {
  sync_connect_law ip port timeout w c w' :
    redisConnectWithTimeout ip port timeout w = (c, w') → kept w w' ∧ ∀ c', c = Some c' → err c' = 0 → idle c';
  sync_free_law c w : kept w (redisFree c w);
  sync_command_law c w cmd reply c' w' :
    redisCommand c cmd w = (reply, c', w') → err c = 0 → idle c →
    (reply = None ∧ err c' ≠ 0 ∧ (kept w w' ∨ ∃ x, served cmd w w' x)) ∨
    (err c' = 0 ∧ idle c' ∧ ∃ x, reply = Some x ∧ served cmd w w' x);
}.

(** What an operation asks of the server. *)
Definition command_of {A} (q : redis_op A) : list (list Z) :=
  match q with
  | Hget key field _ => [str "HGET"; c_string key; c_string field]
  | Hgetall key _ => [str "HGETALL"; c_string key]
  | Hset key field value => [str "HSET"; c_string key; c_string field; c_string value]
  | Hdel key field => [str "HDEL"; c_string key; c_string field]
  | SetText key value => [str "SET"; c_string key; c_string value]
  | Setex key value secs => [str "SETEX"; c_string key; print_dec secs; c_string value]
  | GetText key _ => [str "GET"; c_string key]
  | Expire key secs => [str "EXPIRE"; c_string key; print_dec secs]
  | Del key => [str "DEL"; c_string key]
  | Incrby key value => [str "INCRBY"; c_string key; c_string value]
  | Sadd key value => [str "SADD"; c_string key; c_string value]
  | Sismember key value => [str "SISMEMBER"; c_string key; c_string value]
  end.

(** The answer to a reply of the kind that the server gives when it executes the
    command. *)
Definition answer {A} (q : redis_op A) : redisReply → A → Prop :=
  match q in redis_op A return redisReply → A → Prop with
  | SetText _ _ | Setex _ _ _ => λ x r, x = status (str "OK") ∧ r = 0
  | GetText _ value | Hget _ _ value => λ x r,
      (∃ v, x = Reply REDIS_REPLY_STRING 0 (Some v) [] ∧ v ≠ [] ∧ r = (0, c_string v)) ∨
      x = Reply REDIS_REPLY_NIL 0 None [] ∧ r = (0, value)
  | Hgetall _ out => λ x r,
      ∃ ps, x = Reply REDIS_REPLY_ARRAY 0 None (texts (flat ps)) ∧ r = (0, out ++ map (λ p, (c_string p.1, c_string p.2)) ps)
  | _ => λ x r, ∃ n, x = number n ∧ r = s32 n
  end.

(** What an answer says of the keys of the server, which has [K] before and [K']
    after the operation; -1 says nothing.  What [incrby] answers is in
    [redis_effect]. *)
Definition says {A} (q : redis_op A) : A → keyspace → keyspace → Prop :=
  match q in redis_op A return A → keyspace → keyspace → Prop with
  | SetText key value => λ r K K', r = 0 ∧ (∀ y, K' !! c_string key = Some y → y = (Text (c_string value), None)) ∨ r = -1
  | Setex key value secs => λ r K K',
      r = 0 ∧ (∀ y, K' !! c_string key = Some y → y = (Text (c_string value), Some (parse_dec (print_dec secs)))) ∨ r = -1
  | GetText key value => λ r K K',
      (∃ v t, r = (0, c_string v) ∧ at_key (c_string key) (Text v) t K) ∨ r = (0, value) ∧ K' !! c_string key = None ∨ r = (-1, value)
  | Hget key field value => λ r K K',
      (∃ h v t, r = (0, c_string v) ∧ at_key (c_string key) (Fields h) t K ∧ h !! c_string field = Some v) ∨
      r = (0, value) ∧ (∀ h t, at_key (c_string key) (Fields h) t K' → h !! c_string field = None) ∨ r = (-1, value)
  | Hgetall key out => λ r K K',
      (∃ ps, r = (0, out ++ map (λ p, (c_string p.1, c_string p.2)) ps) ∧ NoDup ps.*1 ∧
         (ps = [] ∧ K' !! c_string key = None ∨ ps ≠ [] ∧ ∃ t, at_key (c_string key) (Fields (list_to_map ps)) t K)) ∨
      r = (-1, out)
  | Hset key field value => λ r K K',
      0 ≤ r ≤ 1 ∧ (r = 0 → ∃ h t, at_key (c_string key) (Fields h) t K ∧ is_Some (h !! c_string field)) ∧
      (∀ e t, at_key (c_string key) e t K' →
         ∃ h, e = Fields (<[c_string field := c_string value]> h) ∧ (at_key (c_string key) (Fields h) t K ∨ h = ∅ ∧ t = None)) ∨ r = -1
  | Hdel key field => λ r K K',
      0 ≤ r ≤ 1 ∧ (r = 1 → ∃ h t, at_key (c_string key) (Fields h) t K ∧ is_Some (h !! c_string field)) ∧
      (∀ e t, at_key (c_string key) e t K' → ∃ h, e = Fields (delete (c_string field) h) ∧ at_key (c_string key) (Fields h) t K) ∨ r = -1
  | Expire key secs => λ r K K',
      r = 1 ∧ is_Some (K !! c_string key) ∧
        (∀ e t, at_key (c_string key) e t K' → t = Some (parse_dec (print_dec secs)) ∧ ∃ t0, at_key (c_string key) e t0 K) ∨
      r = 0 ∧ K' !! c_string key = None ∨ r = -1
  | Del key => λ r K K', 0 ≤ r ≤ 1 ∧ K' !! c_string key = None ∧ (r = 1 → is_Some (K !! c_string key)) ∨ r = -1
  | Incrby _ _ => λ _ _ _, True
  | Sadd key value => λ r K K',
      0 ≤ r ≤ 1 ∧ (r = 0 → ∃ l t, at_key (c_string key) (Members l) t K ∧ c_string value ∈ l) ∧
      (∀ e t, at_key (c_string key) e t K' →
         ∃ l, e = Members ({[ c_string value ]} ∪ l) ∧ (at_key (c_string key) (Members l) t K ∨ l = ∅ ∧ t = None)) ∨ r = -1
  | Sismember key value => λ r K K',
      r = 1 ∧ (∃ l t, at_key (c_string key) (Members l) t K ∧ c_string value ∈ l) ∨
      r = 0 ∧ (∀ l t, at_key (c_string key) (Members l) t K' → c_string value ∉ l) ∨ r = -1
  end.

(** ** Lemmas *)
Lemma unchanged_refl V : unchanged V V.
Proof. done. Qed.

Lemma unchanged_changes k V V' : unchanged V V' → changes k V V'.
Proof. intros [Hn Hm]. split; intros ? *; [intros _; by apply Hn|intros _; by apply Hm]. Qed.

Lemma unchanged_trans V1 V2 V3 : unchanged V1 V2 → unchanged V2 V3 → unchanged V1 V3.
Proof. intros [N1 M1] [N2 M2]. split; [by eapply same_counters_trans|by eapply same_members_trans]. Qed.

Lemma changes_trans k V1 V2 V3 : changes k V1 V2 → changes k V2 V3 → changes k V1 V3.
Proof. intros [N1 M1] [N2 M2]. split; [by eapply same_counters_trans|by eapply same_members_trans]. Qed.

Lemma unchanged_number V V' k : unchanged V V' → numbers V' k = numbers V k.
Proof. intros [Hn _]. by apply Hn. Qed.
Lemma unchanged_member V V' k v : unchanged V V' → members V' k v ↔ members V k v.
Proof. intros [_ Hm]. by apply Hm. Qed.

Lemma unchanged_executed cmd V1 V2 V3 x : unchanged V1 V2 → executed cmd V2 V3 x → executed cmd V1 V3 x.
Proof.
  intros Hu Hx. assert (∀ k, changes k V2 V3 → changes k V1 V3) as Hc by (intros k; apply changes_trans; by apply unchanged_changes).
  destruct Hx; constructor; try (done || (by eapply unchanged_trans) || (by apply Hc)).
  - intros Ht. eapply unchanged_trans; [exact Hu|auto].
  - intros v. rewrite <-(unchanged_member _ _ _ _ Hu). auto.
  - intros ->. rewrite <-(unchanged_number _ _ _ Hu). auto.
  - intros k'. rewrite <-(unchanged_number _ _ _ Hu). auto.
  - intros k' v'. rewrite <-(unchanged_member _ _ _ _ Hu). auto.
  - by rewrite <-(unchanged_member _ _ _ _ Hu).
Qed.

Section lemmas.
Context {C W : Type} `{SyncLaws C W}.
Context (m_redis_ip : list Z) (m_redis_port m_timeout_seconds : Z).
Abbreviation state := (option C * W)%type.
Abbreviation connect := (connect m_redis_ip m_redis_port m_timeout_seconds).
Abbreviation check_connection := (check_connection m_redis_ip m_redis_port m_timeout_seconds).
Abbreviation ask := (ask m_redis_ip m_redis_port m_timeout_seconds).
Abbreviation method := (method m_redis_ip m_redis_port m_timeout_seconds).
Implicit Types (s : state).

(** A connection that is not lost has nothing under way. *)
Definition client_ok (m : option C) : Prop := ∀ c, m = Some c → err c = 0 → idle c.

Abbreviation db s := (server s.2).
Abbreviation kept_by s s' := (kept s.2 s'.2).

Lemma kept_trans (w1 w2 w3 : W) : kept w1 w2 → kept w2 w3 → kept w1 w3.
Proof. intros [U1 S1] [U2 S2]. split; [by eapply unchanged_trans|by transitivity (space w2)]. Qed.

Lemma kept_refl (w : W) : kept w w.
Proof. done. Qed.

Lemma kept_served cmd (w1 w2 w3 : W) x : kept w1 w2 → served cmd w2 w3 x → served cmd w1 w3 x.
Proof. intros [U S] [E1 E2]. split; [by eapply unchanged_executed|by eapply serves_weaken]. Qed.


Lemma sync_connect_spec s : client_ok (connect s).2.1 ∧ kept_by s (connect s).2 ∧
  ((connect s).1 = -1 ∨ (connect s).1 = 0 ∧ ∃ c, (connect s).2.1 = Some c ∧ err c = 0).
Proof.
  unfold RedisSync.connect. destruct (redisConnectWithTimeout _ _ _ s.2) as [c w] eqn:E. cbn [fst snd].
  apply sync_connect_law in E as [Hu Hi]. assert (client_ok c) as Hc by (intros c' ->; by apply Hi).
  destruct c as [c|]; [|cbn [fst snd]; split; [done|]; split; [done|by left]]. case_bool_decide as Ec; cbn [fst snd]; (split; [done|]; split; [done|]); [by left|].
  right. split; [done|]. exists c. split; [done|]. by destruct (decide (err c = 0)).
Qed.

Lemma check_spec s :
  client_ok s.1 →
  returns (check_connection s) (λ r, client_ok r.2.1 ∧ kept_by s r.2 ∧ (r.1 = -1 ∨ r.1 = 0 ∧ ∃ c, r.2.1 = Some c ∧ err c = 0)).
Proof.
  intros Hs. unfold RedisSync.check_connection. destruct s as [[c|] w]; cbn [fst snd].
  - rewrite bool_decide_eq_false_2 by done. case_bool_decide as Ec.
    + cbn [returns]. destruct (sync_connect_spec (None, redisFree c w)) as (Hc & Hu & Hr). split; [done|]. split; [|done].
      eapply kept_trans; [apply sync_free_law|exact Hu].
    + cbn [returns fst snd]. split; [done|]. split; [apply kept_refl|]. right. split; [done|]. exists c. split; [done|]. by destruct (decide (err c = 0)).
  - destruct (sync_connect_spec (None, w)) as (Hc & Hu & Hr). destruct (connect (None, w)) as [result s']. cbn [fst snd] in *.
    destruct Hr as [->|[-> (c & Ec & Herr)]].
    + rewrite bool_decide_eq_true_2 by done. cbn [returns fst snd]. split; [done|]. split; [done|by left].
    + rewrite bool_decide_eq_false_2, Ec, bool_decide_eq_false_2 by (done || by rewrite Herr; intros []). cbn [returns fst snd].
      split; [done|]. split; [done|]. right. split; [done|]. by exists c.
Qed.

(** What an operation knows when it has asked. *)
Definition asked (cmd : list (list Z)) s (r : option redisReply * state) : Prop :=
  client_ok r.2.1 ∧
  (r.1 = None ∧ (kept_by s r.2 ∨ ∃ x, served cmd s.2 r.2.2 x) ∨ ∃ x, r.1 = Some x ∧ served cmd s.2 r.2.2 x).

Lemma sync_ask_spec cmd s : client_ok s.1 → returns (ask cmd s) (asked cmd s).
Proof.
  intros Hs. unfold RedisSync.ask. run (check_spec s Hs). intros [result s'] (Hc & Hu & Hr). cbn [fst snd] in *.
  destruct Hr as [->|[-> (c & Ec & Herr)]].
  { rewrite bool_decide_eq_true_2 by done. split; [done|]. left. split; [done|by left]. }
  rewrite bool_decide_eq_false_2, Ec by done. destruct (redisCommand c cmd s'.2) as [[reply c'] w] eqn:E.
  pose proof (Hc _ Ec Herr) as Hi. apply sync_command_law in E; [|done..].
  destruct E as [(-> & Herr' & Hx)|(Herr' & Hi' & x & -> & Hx)]; split.
  - intros c2 [= <-]. by intros.
  - left. split; [done|]. cbn [snd]. destruct Hx as [?|(x & Hx)]; [left; by eapply kept_trans|right]. exists x. by eapply kept_served.
  - by intros c2 [= <-].
  - right. exists x. split; [done|]. by eapply kept_served.
Qed.

(** *** The replies *)
Lemma texts_pairs l out : (length l mod 2 = 0)%nat → ∃ out', pairs_of (texts l) out = Ret out'.
Proof.
  intros [n En]%Nat.Div0.mod_divides. revert l out En. induction n as [|n IH]; intros l out En.
  - destruct l; [by eexists|done].
  - destruct l as [|k [|v l]]; [by eexists|cbn [length] in En; lia|]. cbn [length] in En. apply (IH l). lia.
Qed.

Lemma integer_number m n : integer_of m (Some (number n)) = Ret (s32 n).
Proof. done. Qed.
Lemma integer_error m t : integer_of m (Some (Reply REDIS_REPLY_ERROR 0 (Some t) [])) = Ret (-1).
Proof. by destruct m. Qed.
Lemma string_error value t : string_of value (Some (Reply REDIS_REPLY_ERROR 0 (Some t) [])) = Ret (-1, value).
Proof. done. Qed.
Lemma string_nil value : string_of value (Some (Reply REDIS_REPLY_NIL 0 None [])) = Ret (0, value).
Proof. done. Qed.
Lemma hash_error out t : hash_of out (Some (Reply REDIS_REPLY_ERROR 0 (Some t) [])) = Ret (-1, out).
Proof. done. Qed.
Lemma string_text value v :
  string_of value (Some (Reply REDIS_REPLY_STRING 0 (Some v) [])) = Ret (if bool_decide (v = []) then (-1, value) else (0, c_string v)).
Proof. by destruct v. Qed.

Lemma hash_texts l out : (length l mod 2 = 0)%nat → ∃ out', hash_of out (Some (Reply REDIS_REPLY_ARRAY 0 None (texts l))) = Ret (0, out').
Proof.
  intros Hl. unfold hash_of. rewrite (bool_decide_eq_false_2 (REDIS_REPLY_ARRAY ≠ REDIS_REPLY_ARRAY)) by tauto. case_bool_decide; [by eexists|].
  destruct (texts_pairs l out Hl) as [out' ->]. by exists out'.
Qed.

(** An operation, from what its command may have done without a reply, and from
    each reply of its command. *)
Lemma ask_returns {A} cmd (f : option redisReply → outcome A) (Q : A → view → view → Prop) s :
  client_ok s.1 →
  (∀ V V', unchanged V V' ∨ (∃ x, executed cmd V V' x) → returns (f None) (λ y, Q y V V')) →
  (∀ V V' x, executed cmd V V' x → returns (f (Some x)) (λ y, Q y V V')) →
  returns (let! r := ask cmd s in let! y := f r.1 in Ret (y, r.2)) (λ r, client_ok r.2.1 ∧ Q r.1 (db s) (db r.2)).
Proof.
  intros Hs Hn Hx. run (sync_ask_spec cmd s Hs). intros [r s'] [Hc Hr]. cbn [fst snd] in *.
  assert (returns (f r) (λ y, Q y (db s) (db s'))) as Hf.
  { destruct Hr as [[-> [[? _]|(x & ? & _)]]|(x & -> & ? & _)]; eauto. }
  run Hf. intros y Hy. done.
Qed.

(** The same for what the server has. *)
Lemma ask_keys {A} (cmd : list (list Z)) (f : option redisReply → outcome A) (Q : A → keyspace → keyspace → Prop) s :
  client_ok s.1 →
  (∀ K K' : keyspace, returns (f None) (λ y, Q y K K')) →
  (∀ (K K' : keyspace) (x : redisReply), serves cmd K K' x → returns (f (Some x)) (λ y, Q y K K')) →
  returns (let! r := ask cmd s in let! y := f r.1 in Ret (y, r.2)) (λ r, Q r.1 (space s.2) (space r.2.2) ∧
    (space r.2.2 ⊆ space s.2 ∨ ∃ x, serves cmd (space s.2) (space r.2.2) x)).
Proof.
  intros Hs Hn Hx. run (sync_ask_spec cmd s Hs). intros [r s'] [Hc Hr]. cbn [fst snd] in *.
  assert (returns (f r) (λ y, Q y (space s.2) (space s'.2)) ∧
    (space s'.2 ⊆ space s.2 ∨ ∃ x, serves cmd (space s.2) (space s'.2) x)) as [Hf Hk].
  { destruct Hr as [[-> [[_ ?]|(x & _ & ?)]]|(x & -> & _ & ?)]; eauto. }
  run Hf. intros y Hy. done.
Qed.

Lemma unchanged_returns {A} cmd (f : option redisReply → outcome A) s :
  client_ok s.1 → (∃ y, f None = Ret y) → (∀ V V' x, executed cmd V V' x → unchanged V V' ∧ ∃ y, f (Some x) = Ret y) →
  returns (let! r := ask cmd s in let! y := f r.1 in Ret (y, r.2)) (λ r, client_ok r.2.1 ∧ unchanged (db s) (db r.2)).
Proof.
  intros Hs [y E] Hx. apply (ask_returns cmd f (λ _, unchanged)); [done|..].
  - intros V V' Hu. rewrite E. cbn. destruct Hu as [?|[x ?%Hx]]; [done|tauto].
  - intros V V' x [Hu [y' ->]]%Hx. done.
Qed.

Lemma sync_expire_spec key secs s :
  client_ok s.1 → returns (method (Expire key secs) s) (λ r, client_ok r.2.1 ∧ redis_effect (Expire key secs) r.1 (db s) (db r.2)).
Proof.
  intros Hs. apply (ask_returns _ (integer_of false) (redis_effect (Expire key secs))); [done|..]; cbn [redis_effect].
  - intros V V' [?|[x Hx]] Ht; [done|]. inversion Hx as [| | | | | |k t V1 V2 n Hc Hu| | | | | | | |]; subst; [done|]. apply Hu. by exists secs.
  - intros V V' x Hx. inversion Hx as [| | | | | |k t V1 V2 n Hc Hu| | | | | | | |]; subst; [by intros _|]. rewrite integer_number. intros Ht. apply Hu. by exists secs.
Qed.

Lemma sync_del_spec key s :
  client_ok s.1 → returns (method (Del key) s) (λ r, client_ok r.2.1 ∧ redis_effect (Del key) r.1 (db s) (db r.2)).
Proof.
  assert (∀ V V', unchanged V V' → redis_effect (Del key) (-1) V V') as Hsame.
  { intros V V' Hu. pose proof (unchanged_changes (c_string key) _ _ Hu) as [? ?]. split; [done|]. split; [done|]. right. split; [by apply unchanged_number|done]. }
  intros Hs. apply (ask_returns _ (integer_of false) (redis_effect (Del key))); [done|..].
  - intros V V' [?|[x Hx]]; [by apply Hsame|]. inversion Hx as [| | | | |k V1 V2 n [Hc Hm] Hk| | | | | | | | |]; subst; [by apply Hsame|].
    split; [done|]. split; [done|]. by left.
  - intros V V' x Hx. inversion Hx as [| | | | |k V1 V2 n [Hc Hm] Hk| | | | | | | | |]; subst; [by apply Hsame|]. rewrite integer_number.
    split; [done|]. split; [done|]. by left.
Qed.

Lemma incrby_spec key value s :
  client_ok s.1 → returns (method (Incrby key value) s) (λ r, client_ok r.2.1 ∧ redis_effect (Incrby key value) r.1 (db s) (db r.2)).
Proof.
  assert (∀ V V', unchanged V V' → redis_effect (Incrby key value) (-1) V V') as Hsame.
  { intros V V' Hu. pose proof (unchanged_changes (c_string key) _ _ Hu) as [? ?]. split; [done|]. split; [apply Hu|]. intros _. right. split; [by apply unchanged_number|done]. }
  assert (∀ k V V' n r, changes k V V' → (∀ v, members V' k v ↔ members V k v) → n = numbers V' k →
    (c_string value = str "1" → n = numbers V k + 1) → k = c_string key → r = -1 ∨ r = s32 n → redis_effect (Incrby key value) r V V') as Hone.
  { intros k V V' n r [Hc Hm] Hk En Hn -> Hr. split; [done|]. split.
    - intros k v _. destruct (decide (k = c_string key)) as [->|Hne]; [done|]. apply Hm. congruence.
    - intros Ev. left. rewrite <-En, (Hn ltac:(by rewrite Ev)). split; [done|]. by rewrite (Hn ltac:(by rewrite Ev)) in Hr. }
  intros Hs. apply (ask_returns _ (integer_of true) (redis_effect (Incrby key value))); [done|..].
  - intros V V' [?|[x Hx]]; [by apply Hsame|]. inversion Hx; subst; [by apply Hsame|]. eapply Hone; eauto.
  - intros V V' x Hx. inversion Hx; subst; [by apply Hsame|]. rewrite integer_number. eapply Hone; eauto.
Qed.

Lemma sadd_spec key value s :
  client_ok s.1 → returns (method (Sadd key value) s) (λ r, client_ok r.2.1 ∧ redis_effect (Sadd key value) r.1 (db s) (db r.2)).
Proof.
  assert (∀ V V', unchanged V V' → redis_effect (Sadd key value) (-1) V V') as Hsame.
  { intros V V' Hu. pose proof (unchanged_changes (c_string key) _ _ Hu) as [? ?]. split; [apply Hu|]. split; [done|].
    split; [intros v ?; by rewrite unchanged_member|]. split; [intros v ?; left; by rewrite <-(unchanged_member V V')|done]. }
  assert (∀ V V' r, (∀ k, numbers V' k = numbers V k) →
    (∀ k' v', members V' k' v' ↔ members V k' v' ∨ k' = c_string key ∧ v' = c_string value) → redis_effect (Sadd key value) r V V') as Hone.
  { intros V V' r Hn Hm. split; [intros k _; apply Hn|]. split; [intros k v Hk; rewrite Hm; naive_solver|].
    split; [intros v ?; apply Hm; by left|]. split; [intros v [?|[_ ->]]%Hm; [by left|by right]|intros _; apply Hm; by right]. }
  intros Hs. apply (ask_returns _ (integer_of false) (redis_effect (Sadd key value))); [done|..].
  - intros V V' [?|[x Hx]]; [by apply Hsame|]. inversion Hx; subst; [by apply Hsame|]. by apply Hone.
  - intros V V' x Hx. inversion Hx; subst; [by apply Hsame|]. by apply Hone.
Qed.

Lemma sismember_spec key value s :
  client_ok s.1 → returns (method (Sismember key value) s) (λ r, client_ok r.2.1 ∧ redis_effect (Sismember key value) r.1 (db s) (db r.2)).
Proof.
  assert (∀ V V', unchanged V V' → redis_effect (Sismember key value) (-1) V V') as Hsame.
  { intros V V' [? ?]. split; [done|]. split; [done|]. by right; right. }
  intros Hs. apply (ask_returns _ (integer_of false) (redis_effect (Sismember key value))); [done|..].
  - intros V V' [?|[x Hx]]; [by apply Hsame|]. inversion Hx; subst; by apply Hsame.
  - intros V V' x Hx. inversion Hx as [| | | | | | | | |k v V1 V2 n [? ?] Hn| | | | |]; subst; [by apply Hsame|]. rewrite integer_number.
    split; [done|]. split; [done|]. destruct Hn as [[-> ?]|[-> ?]]; [by left|by right; left].
Qed.

(** The fields and values of a hash as they are received. *)
Lemma pairs_flat ps out : pairs_of (texts (flat ps)) out = Ret (out ++ map (λ p, (c_string p.1, c_string p.2)) ps).
Proof.
  revert out. induction ps as [|[f v] ps IH]; intros out; [by rewrite app_nil_r|].
  change (flat ((f, v) :: ps)) with (f :: v :: flat ps). cbn [texts fmap list_fmap pairs_of]. fold (texts (flat ps)). by rewrite IH, <-app_assoc.
Qed.

Lemma hash_flat ps out :
  hash_of out (Some (Reply REDIS_REPLY_ARRAY 0 None (texts (flat ps)))) = Ret (0, out ++ map (λ p, (c_string p.1, c_string p.2)) ps).
Proof.
  unfold hash_of. rewrite (bool_decide_eq_false_2 (REDIS_REPLY_ARRAY ≠ REDIS_REPLY_ARRAY)) by tauto. case_bool_decide as E.
  - destruct ps as [|[f v] ps]; [by rewrite app_nil_r|done].
  - by rewrite pairs_flat.
Qed.

(** What an answer says of the server. *)
Lemma method_says {A} (q : redis_op A) s :
  client_ok s.1 → returns (method q s) (λ r, says q r.1 (space s.2) (space r.2.2) ∧
    (space r.2.2 ⊆ space s.2 ∨ ∃ x, serves (command_of q) (space s.2) (space r.2.2) x)).
Proof.
  intros Hs. destruct q; cbn [RedisSync.method command_of];
    first [apply (ask_keys _ (λ r, Ret (status_of r)) _ _ Hs)|apply (ask_keys _ _ _ _ Hs)];
    cbn [says]; intros K K'; try (cbn; tauto).
  all: intros x Hx; inversion Hx; subst; try (cbn; tauto).
  all: rewrite ?string_text, ?string_nil, ?string_error, ?hash_flat, ?hash_error, ?integer_number, ?integer_error; cbn [returns];
    rewrite ?s32_bit by done; try tauto.
  - case_bool_decide; [by right; right|left]. by eexists _, _, _.
  - left. by eexists.
  - case_bool_decide; [by right; right|left]. by eexists _, _.
  - assert (n = 0 ∨ n = 1) as [->| ->] by lia; [right; left|left]; auto.
  - naive_solver.
Qed.

(** A connection that is there is asked, and its reply is the answer. *)
Lemma method_answers {A} (q : redis_op A) s c x c' w' r :
  s.1 = Some c → err c = 0 → redisCommand c (command_of q) s.2 = (Some x, c', w') → answer q x r → method q s = Ret (r, (Some c', w')).
Proof.
  intros Ec Herr E Hr.
  assert (ask (command_of q) s = Ret (Some x, (Some c', w'))) as Ha.
  { unfold RedisSync.ask, RedisSync.check_connection. rewrite Ec. cbn [mbind outcome_bind]. rewrite bool_decide_eq_false_2 by done.
    rewrite Ec, bool_decide_eq_false_2 by (by rewrite Herr; intros []). cbn [mbind outcome_bind]. by rewrite bool_decide_eq_false_2, Ec, E. }
  destruct q; cbn [RedisSync.method command_of answer] in *;
    unfold RedisSync.hget, RedisSync.hgetall, RedisSync.hset, RedisSync.hdel, RedisSync.set, RedisSync.setex, RedisSync.get,
      RedisSync.expire, RedisSync.del, RedisSync.incrby, RedisSync.sadd, RedisSync.sismember;
    unfold format_uint32, REDIS_CMD_EXPIRE, REDIS_CMD_GET, REDIS_CMD_SET, REDIS_CMD_SETEX, REDIS_CMD_DEL, REDIS_CMD_SADD, REDIS_CMD_SISMEMBER,
      REDIS_CMD_HSET, REDIS_CMD_HGET, REDIS_CMD_HGETALL, REDIS_CMD_HDEL, REDIS_CMD_INCRBY; rewrite Ha; cbn [mbind outcome_bind fst snd]; clear Ha E.
  all: first [destruct Hr as (n & -> & ->); by rewrite integer_number|destruct Hr as [-> ->]; done|destruct Hr as (ps & -> & ->); by rewrite hash_flat|idtac].
  all: destruct Hr as [(v & -> & Hv & ->)|[-> ->]]; [by rewrite string_text, bool_decide_eq_false_2|done].
Qed.

(** An operation of the client does what its answer says. *)
Lemma method_spec {A} (q : redis_op A) s :
  client_ok s.1 → returns (method q s) (λ r, client_ok r.2.1 ∧ redis_effect q r.1 (db s) (db r.2)).
Proof.
  intros Hs. destruct q; cbn [RedisSync.method redis_effect].
  - apply unchanged_returns; [done|by eexists|]. intros V V' x Hx; inversion Hx; subst; (split; [done|]); rewrite ?string_text; by eexists.
  - apply unchanged_returns; [done|by eexists|]. intros V V' x Hx; inversion Hx; subst; (split; [done|]); [by eexists|].
    destruct (hash_texts l out) as [out' ->]; [done|by eexists].
  - apply unchanged_returns; [done|by eexists|]. intros V V' x Hx; inversion Hx; subst; (split; [done|]); rewrite ?integer_number; by eexists.
  - apply unchanged_returns; [done|by eexists|]. intros V V' x Hx; inversion Hx; subst; (split; [done|]); rewrite ?integer_number; by eexists.
  - apply (ask_returns _ (λ r, Ret (status_of r)) (λ _, changes (c_string key))); [done|..].
    + intros V V' [?|[x Hx]]; [by apply unchanged_changes|]. inversion Hx; subst; [by apply unchanged_changes|done].
    + intros V V' x Hx. inversion Hx; subst; [by apply unchanged_changes|done].
  - apply (ask_returns _ (λ r, Ret (status_of r)) (λ _, changes (c_string key))); [done|..].
    + intros V V' [?|[x Hx]]; [by apply unchanged_changes|]. inversion Hx; subst; [by apply unchanged_changes|done].
    + intros V V' x Hx. inversion Hx; subst; [by apply unchanged_changes|done].
  - apply unchanged_returns; [done|by eexists|]. intros V V' x Hx; inversion Hx; subst; (split; [done|]); rewrite ?string_text; by eexists.
  - by apply sync_expire_spec.
  - by apply sync_del_spec.
  - by apply incrby_spec.
  - by apply sadd_spec.
  - by apply sismember_spec.
Qed.
End lemmas.

(** ** The clients of the pools implement the interface *)
Section clients.
Context {C W M : Type} `{SyncLaws C W}.
(** Where each client connects to; the addresses are of one server. *)
Context (ip : loc → list Z) (port timeout : loc → Z).
(** The clients of MySQL. *)
Context (read : loc → list Z → M → outcome (option (list row) * M)) (write : loc → list Z → M → outcome (bool * M)) (ok : M → Prop).

(** The clients by their address, the rest of the world, and what MySQL has. *)
Abbreviation clients := ((loc → option C) * W * M)%type.

Definition with_client {A} (c : loc) (f : option C * W → outcome (A * (option C * W))) (k : clients) : outcome (A * clients) :=
  let! r := f (k.1.1 c, k.1.2) in
  Ret (r.1, (<[c := r.2.1]> k.1.1, r.2.2, k.2)).

Definition sync_store : Store clients := {|
  redis_do A q c := with_client c (method (ip c) (port c) (timeout c) q);
  mysql_read c sql k := let! r := read c sql k.2 in Ret (r.1, (k.1, r.2));
  mysql_write c sql k := let! r := write c sql k.2 in Ret (r.1, (k.1, r.2));
  contents k := server k.1.2;
  store_ok k := (∀ c, client_ok (k.1.1 c)) ∧ ok k.2;
|}.

Context (read_ok : ∀ c sql m r m', ok m → read c sql m = Ret (r, m') → ok m').
Context (write_ok : ∀ c sql m r m', ok m → write c sql m = Ret (r, m') → ok m').

Lemma sync_store_laws : StoreLaws clients (H := sync_store).
Proof.
  split.
  - intros A q c k r k' [Hc Hm] E. pose proof (method_spec (ip c) (port c) (timeout c) q (k.1.1 c, k.1.2) (Hc c)) as Hq. revert E.
    cbn [redis_do sync_store]. unfold with_client. destruct (method _ _ _ _ _) as [[x [cl w]]| |]; [|done..]. cbn [mbind outcome_bind fst snd].
    intros [= <- <-]. destruct Hq as [Hcl Hx]. split; [|exact Hx]. split; [|done]. intros c'. cbn [fst].
    destruct (decide (c' = c)) as [->|Hne]; [by rewrite fn_lookup_insert|by rewrite fn_lookup_insert_ne].
  - intros A q c k [Hc Hm]. pose proof (method_spec (ip c) (port c) (timeout c) q (k.1.1 c, k.1.2) (Hc c)) as Hq.
    cbn [redis_do sync_store]. unfold with_client. apply returns_eq in Hq as ([x [cl w]] & -> & _). by eexists.
  - intros c sql k r k' [Hc Hm]. cbn [mysql_read sync_store]. destruct (read c sql k.2) as [[x m]| |] eqn:E; [|done..].
    intros [= <- <-]. split; [split; [done|by eapply read_ok]|done].
  - intros c sql k r k' [Hc Hm]. cbn [mysql_write sync_store]. destruct (write c sql k.2) as [[x m]| |] eqn:E; [|done..].
    intros [= <- <-]. split; [split; [done|by eapply write_ok]|done].
Qed.
End clients.

(** ** A small hiredis *)

(** A connection is lost or not; [true]: the next reply does not come. *)
Record demo_server : Type := DemoServer { d_space : keyspace; d_lost : list bool }.

Definition demo_view (K : keyspace) : view := View
  (λ k, match K !! k with Some (Text v, _) => parse_dec v | _ => 0 end)
  (λ k v, match K !! k with Some (Members l, _) => v ∈ l | _ => False end).

(** [SET], [GET], [INCRBY] of 1 and [SISMEMBER]; any other command is refused. *)
Definition demo_exec (cmd : list (list Z)) (K : keyspace) : redisReply * keyspace :=
  let refused := (Reply REDIS_REPLY_ERROR 0 (Some (str "ERR")) [], K) in
  match cmd with
  | [name; k] =>
      if decide (name = str "GET") then
        match K !! k with
        | Some (Text v, _) => (Reply REDIS_REPLY_STRING 0 (Some v) [], K)
        | None => (Reply REDIS_REPLY_NIL 0 None [], K)
        | _ => refused
        end
      else refused
  | [name; k; v] =>
      if decide (name = str "SET") then (status (str "OK"), <[k := (Text v, None)]> K)
      else if decide (name = str "INCRBY" ∧ v = str "1") then
        let n := numbers (demo_view K) k + 1 in
        if decide (- 2 ^ 63 ≤ n < 2 ^ 63) then
          match K !! k with
          | Some (Text _, t) => (number n, <[k := (Text (print_dec n), t)]> K)
          | None => (number n, <[k := (Text (print_dec n), None)]> K)
          | _ => refused
          end
        else refused
      else if decide (name = str "SISMEMBER") then
        match K !! k with
        | Some (Members l, _) => (number (if decide (v ∈ l) then 1 else 0), K)
        | None => (number 0, K)
        | _ => refused
        end
      else refused
  | _ => refused
  end.

Definition demo_command (c : Z) (cmd : list (list Z)) (w : demo_server) : option redisReply * Z * demo_server :=
  match d_lost w with
  | true :: l => (None, 1, DemoServer (d_space w) l)
  | l => let (x, K) := demo_exec cmd (d_space w) in (Some x, 0, DemoServer K (tail l))
  end.

#[export] Instance demo_hiredis : Hiredis Z demo_server := {
  err c := c;
  obuf _ := [];
  redisConnectWithTimeout ip port timeout w := (Some 0, w);
  redisFree c w := w;
  redisAppendCommand c cmd := (0, c);
  redisAppendFormat c text := Ret (0, c);
  redisGetReply c w := (-1, None, c, w);
  redisCommand := demo_command;
}.

#[export] Instance demo_sync : SyncServer Z demo_server := {
  idle _ := True;
  server w := demo_view (d_space w);
  space := d_space;
}.

Lemma demo_insert (k : list Z) (y : entry * option Z) (K : keyspace) V' : V' = demo_view (<[k := y]> K) → changes k (demo_view K) V'.
Proof. intros ->. split; intros k' *; intros Hk; cbn; by rewrite lookup_insert_ne by congruence. Qed.

Lemma demo_number (k : list Z) (t : option Z) (n : Z) (K : keyspace) :
  - 2 ^ 63 ≤ n < 2 ^ 63 → numbers (demo_view (<[k := (Text (print_dec n), t)]> K)) k = n.
Proof. intros Hn. cbn. rewrite lookup_insert_eq. apply print_dec_correct. lia. Qed.

Lemma demo_increment (k : list Z) (y : option (entry * option Z)) (t : option Z) (n : Z) (K : keyspace) :
  K !! k = y → (∀ e t, y = Some (e, t) → ∃ v, e = Text v) → n = numbers (demo_view K) k + 1 → - 2 ^ 63 ≤ n < 2 ^ 63 →
  executed [str "INCRBY"; k; str "1"] (demo_view K) (demo_view (<[k := (Text (print_dec n), t)]> K)) (number n) ∧
  serves [str "INCRBY"; k; str "1"] K (<[k := (Text (print_dec n), t)]> K) (number n).
Proof.
  intros E Hy En Hn. split.
  - apply executed_incrby; [by eapply demo_insert| |by rewrite demo_number|by intros _].
    intros v. cbn. rewrite lookup_insert_eq, E. destruct y as [[e t']|]; [|done]. destruct (Hy e t' eq_refl) as [v' ->]. done.
  - apply serves_incrby; [rewrite delete_insert_eq; apply delete_subseteq|]. intros e t'. rewrite lookup_insert_eq. intros [= <- _]. by eexists.
Qed.

Lemma demo_served (cmd : list (list Z)) (K : keyspace) :
  executed cmd (demo_view K) (demo_view (demo_exec cmd K).2) (demo_exec cmd K).1 ∧ serves cmd K (demo_exec cmd K).2 (demo_exec cmd K).1.
Proof.
  assert (∀ t, executed cmd (demo_view K) (demo_view K) (Reply REDIS_REPLY_ERROR 0 (Some t) []) ∧
    serves cmd K K (Reply REDIS_REPLY_ERROR 0 (Some t) [])) as He by (intros t; split; [by apply executed_error|by apply serves_error]).
  destruct cmd as [|name [|k [|v []]]]; try apply He; cbn [demo_exec].
  { case_decide as E1; [subst|apply He]. destruct (K !! k) as [[[v| |] t]|] eqn:E; try apply He; cbn [fst snd].
    - split; [by apply executed_get|by eapply serves_get].
    - split; [by apply executed_get_nil|by eapply serves_get_nil]. }
  case_decide as E1; [subst|case_decide as E2; [destruct E2 as [-> ->]|case_decide as E3; [subst|apply He]]]; cbn [fst snd].
  - split; [apply executed_set; by eapply demo_insert|apply serves_set].
    + rewrite delete_insert_eq. apply delete_subseteq.
    + intros y. rewrite lookup_insert_eq. by intros [= <-].
  - case_decide as Hn; [|apply He].
    destruct (K !! k) as [[[v| |] t]|] eqn:E; try apply He; (eapply demo_increment; [exact E|naive_solver|done|done]).
  - destruct (K !! k) as [[[|l|] t]|] eqn:E; try apply He; cbn [fst snd]; split; first [apply executed_sismember; [done|]|apply serves_sismember; [done|]].
    + cbn. rewrite E. case_decide; [by left|by right].
    + rewrite E. case_decide; [left|right]; naive_solver.
    + cbn. rewrite E. right; split; [done|tauto].
    + right. split; [done|]. by rewrite E.
Qed.

#[export] Instance demo_laws : SyncLaws Z demo_server.
Proof.
  split.
  - intros ip port t w c w' [= <- <-]. done.
  - done.
  - intros c w cmd reply c' w' E _ _. cbn in E. unfold demo_command in E. pose proof (demo_served cmd (d_space w)) as Hx.
    destruct (demo_exec cmd (d_space w)) as [x K]. destruct (d_lost w) as [|[] l]; injection E as <- <- <-; [right|left|right];
      try (split_and!; [done..|]; exists x; split; [done|exact Hx]). split; [done|]. split; [done|]. left. exact (conj (unchanged_refl _) (reflexivity _)).
Qed.

(** ** Properties *)

(** C14 Every operation ends, whatever the connection does, with the client ready for
    the next; nothing is undefined.  The server executes the one command of the
    operation, at most once, or nothing.  The answer says what the server has
    ([says]): after 0 of [set] and [setex] the key has the value, and the time to
    live, that were given; [get], [hget] and [hgetall] answer the string, the value of
    the field or all the fields and values that are there, or that there is none
    (an empty string is -1); [expire], [hset], [hdel], [sadd], [sismember] and [del]
    answer whether the key, the field or the member was there; an increment by
    1 answers the new number, in 32 bits ([redis_effect]).  -1 says nothing, and then
    too nothing has been changed but what was asked.  And if there is a connection
    and it brings the reply, the answer is the one of the reply ([answer]). *)
Theorem sync_client_correct {C W} `{SyncLaws C W} ip port timeout {A} (q : redis_op A) (s : option C * W) :
  client_ok s.1 →
  returns (method ip port timeout q s) (λ r, client_ok r.2.1 ∧
    (space r.2.2 ⊆ space s.2 ∨ ∃ x, serves (command_of q) (space s.2) (space r.2.2) x) ∧
    says q r.1 (space s.2) (space r.2.2) ∧ redis_effect q r.1 (server s.2) (server r.2.2)) ∧
  ∀ c x c' w' r, s.1 = Some c → err c = 0 → redisCommand c (command_of q) s.2 = (Some x, c', w') → answer q x r →
    method ip port timeout q s = Ret (r, (Some c', w')).
Proof.
  intros Hs. split; [|intros *; apply method_answers].
  pose proof (method_spec ip port timeout q s Hs) as Hm. apply returns_eq in Hm as (r & E & Hc & Hr).
  pose proof (method_says ip port timeout q s Hs) as Hk. rewrite E in Hk |- *. destruct Hk as [Hy Hx]. done.
Qed.

(** A value is set and read over one connection, a number is incremented, and a
    reply that does not come is -1. *)
Lemma sync_client_correct_witness :
  let s := (Some 0, DemoServer {[str "k" := (Text (str "7"), None)]} []) in
  method (str "127.0.0.1") 6379 10 (GetText (str "k") []) s = Ret (0, str "7", s) ∧
  method (str "127.0.0.1") 6379 10 (Incrby (str "k") (str "1")) s = Ret (8, (Some 0, DemoServer {[str "k" := (Text (str "8"), None)]} [])) ∧
  returns (method (str "127.0.0.1") 6379 10 (SetText (str "k") (str "v")) (Some 0, DemoServer ∅ [true])) (λ r,
    says (SetText (str "k") (str "v")) r.1 ∅ (space r.2.2)).
Proof.
  cbv zeta. split; [|split].
  - eapply (sync_client_correct (str "127.0.0.1") 6379 10 (GetText (str "k") [])); [done|done|done|by vm_compute|].
    left. exists (str "7"). done.
  - eapply (sync_client_correct (str "127.0.0.1") 6379 10 (Incrby (str "k") (str "1"))); [done|done|done|by vm_compute|].
    exists 8. done.
  - pose proof (sync_client_correct (str "127.0.0.1") 6379 10 (SetText (str "k") (str "v")) (Some 0, DemoServer ∅ [true])) as [Hq _]; [done|].
    eapply returns_mono; [exact Hq|]. intros r (_ & _ & Hr & _). exact Hr.
Defined.
