(* ===== verification/MySql.v ===== *)
(** * The client of MySQL
    ([xlgame_touch_server/src/mysql/mysql_client/cmysql.cpp]; the other services
    have copies)

    The client library of MySQL is behind the class [MysqlApi]; [MysqlLaws] states
    what is documented of it.  An exception is the result [None], with its text in
    [m_ErrMsg].  Texts that are printed into [m_ErrMsg] have to fit. *)

From Stdlib Require Import String.
From stdpp Require Import functions.
From S2P Require Import Prelude Text Utility Store.

(** ** The client library *)

(** [H] are the connections, [R] the results that have been stored, [W] is the rest
    of the world.  [connect_args]: host, user, password, database, port, socket
    and flags.  A field is [None] when it is [NULL]. *)
Record connect_args : Type := ConnectArgs {
  a_host : list Z; a_user : list Z; a_pass : option (list Z); a_db : list Z; a_port : Z; a_socket : option (list Z); a_flag : Z;
}.
Abbreviation fields := (list (option (list Z))).

Class MysqlApi (H R W : Type) : Type := {
  mysql_init : H;
  mysql_real_connect : H → connect_args → W → bool * H * W;
  mysql_real_query : H → list Z → W → Z * H * W;
  mysql_errno : H → Z;
  mysql_error : H → list Z;
  mysql_close : H → W → W;
  mysql_affected_rows : H → Z;
  mysql_insert_id : H → Z;
  mysql_store_result : H → W → option R * H * W;
  mysql_num_fields : R → Z;
  mysql_num_rows : R → Z;
  mysql_fetch_fields : R → list (list Z);
  mysql_fetch_row : R → option fields * R;
  mysql_fetch_lengths : R → list Z;
  mysql_escape_string : list Z → list Z;
}.

(** ** Definitions *)

(** [m_connection], [m_row] and [m_iRows] are indeterminate at first, which is
    [None], and so is [m_row] when its result has been freed; [Some None] is a
    null row.  [m_bIfConfig] and [m_isuse] are never
    read. *)
Record CMysql (H R : Type) : Type := MkCMysql {
  m_ErrMsg : list Z;
  m_args : connect_args;
  m_connection : option H;
  m_result : option R;
  m_row : option (option fields);
  m_FieldIndex : gmap (list Z) Z;
  m_bFieldIndexInitialized : bool;
  m_bConnected : bool;
  m_iField : Z;
  m_iRows : option Z;
}.
Arguments MkCMysql {H R}. Arguments m_ErrMsg {H R}. Arguments m_args {H R}. Arguments m_connection {H R}. Arguments m_result {H R}.
Arguments m_row {H R}. Arguments m_FieldIndex {H R}. Arguments m_bFieldIndexInitialized {H R}. Arguments m_bConnected {H R}.
Arguments m_iField {H R}. Arguments m_iRows {H R}.

(** The counts that all clients share. *)
Record statistic : Type := Statistic {
  m_query_num : Z; m_read_num : Z; m_write_num : Z; m_db_read : gmap (list Z) Z; m_db_write : gmap (list Z) Z;
}.

Definition SET_NAMES : list Z := str "SET NAMES 'UTF8'".

Section client.
Context {H R W : Type} `{MysqlApi H R W}.
Abbreviation client := (CMysql H R).

Record state : Type := State { me : client; stat : statistic; world : W }.

Definition set_me (c : client) (s : state) : state := State c (stat s) (world s).
Definition set_msg (m : list Z) (c : client) : client :=
  MkCMysql m (m_args c) (m_connection c) (m_result c) (m_row c) (m_FieldIndex c) (m_bFieldIndexInitialized c) (m_bConnected c) (m_iField c) (m_iRows c).
Definition set_args (a : connect_args) (c : client) : client :=
  MkCMysql (m_ErrMsg c) a (m_connection c) (m_result c) (m_row c) (m_FieldIndex c) (m_bFieldIndexInitialized c) (m_bConnected c) (m_iField c) (m_iRows c).
Definition set_connection (h : H) (b : bool) (c : client) : client :=
  MkCMysql (m_ErrMsg c) (m_args c) (Some h) (m_result c) (m_row c) (m_FieldIndex c) (m_bFieldIndexInitialized c) b (m_iField c) (m_iRows c).
Definition set_result (r : option R) (n : Z) (rows : option Z) (c : client) : client :=
  MkCMysql (m_ErrMsg c) (m_args c) (m_connection c) r None (m_FieldIndex c) (m_bFieldIndexInitialized c) (m_bConnected c) n rows.
Definition set_row (r : R) (row : option fields) (c : client) : client :=
  MkCMysql (m_ErrMsg c) (m_args c) (m_connection c) (Some r) (Some row) (m_FieldIndex c) (m_bFieldIndexInitialized c) (m_bConnected c) (m_iField c) (m_iRows c).
Definition set_index (i : gmap (list Z) Z) (b : bool) (c : client) : client :=
  MkCMysql (m_ErrMsg c) (m_args c) (m_connection c) (m_result c) (m_row c) i b (m_bConnected c) (m_iField c) (m_iRows c).

(** [strncpy] of 64 characters into an array of 65. *)
Definition copy64 (s : list Z) : list Z := take 64 (c_string s).

(** The two constructors; the second writes behind [new char[64]]. *)
Definition new_CMysql : client := MkCMysql [] (ConnectArgs [] [] None [] 0 None 0) None None None ∅ false false 0 None.
Definition new_CMysql_args (a : connect_args) : outcome client :=
  match a_pass a with
  | Some _ => Stuck
  | None =>
      let a := ConnectArgs (copy64 (a_host a)) (copy64 (a_user a)) None (copy64 (a_db a)) (a_port a)
                 ((λ s, take 1023 (c_string s)) <$> a_socket a) (a_flag a) in
      Ret (MkCMysql [] a None None None ∅ false false 0 None)
  end.

(** [sprintf] into the 1024 bytes of [m_ErrMsg]. *)
Definition message (text : list Z) (s : state) : outcome state :=
  if slen text <? 1024 then Ret (set_me (set_msg text (me s)) s) else Stuck.

(** *** Connections *)

(** [m_row] points into the result that is freed. *)
Definition FreeResult (c : client) : client :=
  let c := set_result None 0 (m_iRows c) c in
  if m_bFieldIndexInitialized c then set_index ∅ false c else c.

Definition Close (s : state) : outcome state :=
  if m_bConnected (me s) then
    match m_connection (me s) with
    | None => Stuck
    | Some h => Ret (State (set_connection h false (FreeResult (me s))) (stat s) (mysql_close h (world s)))
    end
  else Ret s.

(** A query whose result is not looked at. *)
Definition query_ (h : H) (text : list Z) (w : W) : H * W := let '(_, h, w) := mysql_real_query h text w in (h, w).

Definition Connect (s : state) : outcome (Z * state) :=
  if m_bConnected (me s) then Ret (0, s)
  else
    let a := m_args (me s) in
    let '(connected, h, w) := mysql_real_connect mysql_init a (world s) in
    if negb connected then
      let s := State (set_connection h false (me s)) (stat s) w in
      match a_pass a with
      | None => Stuck
      | Some pass =>
          let! s := message (str "connect[-h" ++ a_host a ++ str " -u" ++ a_user a ++ str " -p" ++ pass ++ str " " ++ a_db a ++
                             str "] fail." ++ [10] ++ str "Error " ++ print_dec (mysql_errno h) ++ str " (" ++ mysql_error h ++ str ")" ++ [10]) s in
          Ret (-1, s)
      end
    else
      let (h, w) := query_ h SET_NAMES w in
      let (h, w) := query_ h (str "SET CHARACTER SET UTF8") w in
      let (h, w) := query_ h (str "SET CHARACTER_SET_RESULTS=UTF8") w in
      Ret (0, State (set_connection h true (me s)) (stat s) w).

Definition Connect_args (a : connect_args) (s : state) : outcome (Z * state) :=
  let a := ConnectArgs (copy64 (a_host a)) (copy64 (a_user a)) (copy64 <$> a_pass a) (copy64 (a_db a)) (a_port a) (copy64 <$> a_socket a) (a_flag a) in
  let! s := Close (set_me (set_args a (me s)) s) in
  Connect s.

(** The destructor. *)
Definition delete_CMysql (s : state) : outcome state := Close s.

Definition IfConnected (szHost : list Z) (c : client) : bool :=
  m_bConnected c && bool_decide (c_string szHost = c_string (a_host (m_args c))).

(** *** Queries *)
Definition real_query (text : list Z) (s : state) : outcome (Z * state) :=
  match m_connection (me s) with
  | None => Stuck
  | Some h =>
      let '(result, h, w) := mysql_real_query h text (world s) in
      Ret (result, State (set_connection h (m_bConnected (me s)) (me s)) (stat s) w)
  end.

Definition errno (s : state) : outcome Z := match m_connection (me s) with None => Stuck | Some h => Ret (mysql_errno h) end.
Definition error_text (s : state) : outcome (list Z) := match m_connection (me s) with None => Stuck | Some h => Ret (mysql_error h) end.

Definition add_one (key : list Z) (m : gmap (list Z) Z) : gmap (list Z) Z := <[key := u32 (default 0 (m !! key) + 1)]> m.

Definition record_query (szSqlString : list Z) (s : state) : outcome state :=
  let st := stat s in
  let! r := strnicmp (c_string szSqlString ++ [0]) (str "select" ++ [0]) 6 in
  let db := c_string (a_db (m_args (me s))) in
  let st :=
    if bool_decide (r = 0) then
      Statistic (u32 (m_query_num st + 1)) (u32 (m_read_num st + 1)) (m_write_num st) (add_one db (m_db_read st)) (m_db_write st)
    else Statistic (u32 (m_query_num st + 1)) (m_read_num st) (u32 (m_write_num st + 1)) (m_db_read st) (add_one db (m_db_write st)) in
  Ret (State (me s) st (world s)).

(** The query as it is put into a message. *)
Definition cut500 (sql : list Z) : list Z := c_string (if 500 <? slen sql then take 499 sql else sql).

(** The message, [Close] and the exception. *)
Definition query_failed (sql : list Z) (s : state) : outcome (option Z * state) :=
  let! text := error_text s in
  let! s := message (str "mysql query fail [" ++ a_host (m_args (me s)) ++ str "]." ++ [10] ++ str "Error=[" ++ text ++ str "]" ++ [10] ++
                     str "SQL=" ++ cut500 sql) s in
  let! s := Close s in
  Ret (None, s).

(** Where the query begins: a connection, tried out with [SET NAMES]. *)
Definition prepare (s : state) : outcome state :=
  let! r := Connect s in
  let s := (r : Z * state).2 in
  if m_bConnected (me s) then
    let! r := real_query SET_NAMES s in
    let (result, s) := (r : Z * state) in
    if bool_decide (result ≠ 0) then
      let! s := Close s in
      let! r := Connect s in
      Ret (r : Z * state).2
    else Ret s
  else Ret s.

(** Once more over a new connection, when the connection was lost (2013). *)
Definition query_again (sql : list Z) (s : state) : outcome (option Z * state) :=
  let! s := Close s in
  let! r := Connect s in
  let s := (r : Z * state).2 in
  let! s := if m_bConnected (me s) then let! r := real_query SET_NAMES s in Ret (r : Z * state).2 else Ret s in
  let! r := real_query sql s in
  let (result, s) := (r : Z * state) in
  if bool_decide (result ≠ 0) then query_failed sql s else Ret (Some 0, s).

Definition Query (sql : list Z) (s : state) : outcome (option Z * state) :=
  let! s := prepare s in
  let! r := real_query sql s in
  let (result, s) := (r : Z * state) in
  if bool_decide (result ≠ 0) then
    let! e := errno s in
    if bool_decide (e = 2013) then query_again sql s else query_failed sql s
  else
    let! s := record_query sql s in
    Ret (Some 0, s).

(** [Query] of a [char *] does the same with a text that ends at its zero byte. *)
Definition Query_chars (szSqlString : list Z) : state → outcome (option Z * state) := Query (c_string szSqlString).

(** *** Results *)
Definition StoreResult (s : state) : outcome (option Z * state) :=
  let s := set_me (FreeResult (me s)) s in
  match m_connection (me s) with
  | None => Stuck
  | Some h =>
      let '(r, h, w) := mysql_store_result h (world s) in
      let s := State (set_connection h (m_bConnected (me s)) (me s)) (stat s) w in
      match r with
      | None =>
          let! s := message (str "mysql_store_result :" ++ mysql_error h ++ str "!") s in
          Ret (None, s)
      | Some r => Ret (Some 0, set_me (set_result (Some r) (mysql_num_fields r) (Some (mysql_num_rows r)) (me s)) s)
      end
  end.

(** The row is null at the end; [None] is the exception of [StoreResult]. *)
Definition FetchRow (s : state) : outcome (option (option fields) * state) :=
  let! r := match m_result (me s) with None => StoreResult s | Some _ => Ret (Some 0, s) end in
  let (thrown, s) := (r : option Z * state) in
  match thrown with
  | None => Ret (None, s)
  | Some _ =>
      match m_result (me s) with
      | None => Ret (Some None, s)
      | Some r =>
          let (row, r) := mysql_fetch_row r in
          Ret (Some row, set_me (set_row r row (me s)) s)
      end
  end.

Definition InitFieldName (c : client) : client :=
  match m_result c with
  | Some r =>
      if m_bFieldIndexInitialized c then c
      else
        let names := take (Z.to_nat (m_iField c)) (mysql_fetch_fields r) in
        set_index (foldl (λ m x, <[x.2 := Z.of_nat x.1]> m) (m_FieldIndex c) (imap pair names)) true c
  | None => c
  end.

(** [None] is a null pointer. *)
Definition GetFieldName (iField : Z) (c : client) : outcome (option (list Z)) :=
  match m_result c with
  | None => Ret None
  | Some r =>
      if m_iField c <? u32 iField then Ret None
      else let! name := aget (mysql_fetch_fields r) iField in Ret (Some name)
  end.

Definition row_at (iField : Z) (c : client) : outcome (option (list Z)) :=
  match m_row c with
  | Some (Some row) => aget row iField
  | _ => Stuck
  end.

Definition GetField (iField : Z) (c : client) : outcome (option (list Z)) :=
  if m_iField c <? iField then Ret None else row_at iField c.

(** [m_FieldIndex[name]]: a name that is not there is the first column from then
    on. *)
Definition index_of (szFieldName : list Z) (c : client) : Z * client :=
  let c := InitFieldName c in
  match m_FieldIndex c !! c_string szFieldName with
  | Some i => (i, c)
  | None => (0, set_index (<[c_string szFieldName := 0]> (m_FieldIndex c)) (m_bFieldIndexInitialized c) c)
  end.
Definition GetField_name (szFieldName : list Z) (c : client) : outcome (option (list Z) * client) :=
  let (i, c) := index_of szFieldName c in
  let! x := GetField i c in
  Ret (x, c).

(** The pointer and the length. *)
Definition GetFieldBinary (iField : Z) (iFieldLen : Z) (c : client) : outcome (option (list Z) * Z) :=
  if m_iField c <? iField then Ret (None, iFieldLen)
  else match m_result c with
  | None => Stuck
  | Some r =>
      let! n := aget (mysql_fetch_lengths r) iField in
      let! x := row_at iField c in
      Ret (x, s32 n)
  end.
Definition GetFieldBinary_name (szFieldName : list Z) (iFieldLen : Z) (c : client) : outcome (option (list Z) * Z * client) :=
  let (i, c) := index_of szFieldName c in
  let! x := GetFieldBinary i iFieldLen c in
  Ret (x, c).

Definition GetAffectedRows (c : client) : outcome Z :=
  if negb (m_bConnected c) then Ret 0
  else match m_connection c with None => Stuck | Some h => Ret (s32 (mysql_affected_rows h)) end.
Definition GetLastInsertId (c : client) : outcome Z :=
  match m_connection c with None => Stuck | Some h => Ret (u32 (mysql_insert_id h)) end.
Definition GetErrorNo (s : state) : outcome Z := errno s.

Definition EscapeString (str : list Z) : list Z := if bool_decide (str = []) then str else c_string (mysql_escape_string str).
Definition Escape (buf_in : list Z) (buf_in_len : Z) : list Z :=
  if buf_in_len <=? 0 then [] else c_string (mysql_escape_string (take (Z.to_nat buf_in_len) buf_in)).

(** *** [get_statistic] *)
Definition print_counts (l : list (list Z * Z)) : list Z := mjoin ((λ x, x.1 ++ str ":" ++ print_dec x.2 ++ [10]) <$> l).
Definition get_statistic (reset : Z) (st : statistic) : list Z * statistic :=
  let output := str "[Mysql] m_query_num:" ++ print_dec (m_query_num st) ++ str ",m_read_num:" ++ print_dec (m_read_num st) ++ [10] ++
                print_counts (items (m_db_read st)) ++
                str ",m_write_num:" ++ print_dec (m_write_num st) ++ [10] ++ print_counts (items (m_db_write st)) in
  (output, if bool_decide (reset ≠ 0) then Statistic 0 0 0 ∅ ∅ else st).

(** ** Definitions: reading all rows ([RW_detacher::do_mysql_opt_read]) *)

(** One row as a map; a null name or field ends the program, as a [std::string]
    cannot be made of it. *)
Definition row_elem (s : state) : outcome row :=
  for_range 0 (m_iField (me s)) (λ i elem,
    let! key := GetFieldName i (me s) in
    let! value := GetField i (me s) in
    match key, value with
    | Some key, Some value => Ret (map_insert elem (c_string key) (c_string value))
    | _, _ => Stuck
    end) ∅.

(** The exception of [FetchRow], which nothing there catches, ends the program. *)
Definition read_step (x : list row * state) : outcome (list row * state + list row * state) :=
  let (reply, s) := x in
  let! r := FetchRow s in
  let (row, s) := (r : option (option fields) * state) in
  match row with
  | None => Stuck
  | Some None => Ret (inr (reply, s))
  | Some (Some _) => let! elem := row_elem s in Ret (inl (reply ++ [elem], s))
  end.

Definition opt_read (sql : list Z) (s : state) : outcome (option (list row) * state) :=
  let! r := Query sql s in
  let (thrown, s) := (r : option Z * state) in
  match thrown with
  | None => Ret (None, s)
  | Some _ =>
      let! r := StoreResult s in
      let (thrown, s) := (r : option Z * state) in
      match thrown with
      | None => Ret (None, s)
      | Some _ =>
          let! r := loop (S (Z.to_nat (default 0 (m_iRows (me s))))) read_step ([], s) in
          Ret (Some r.1, r.2)
      end
  end.

Definition opt_write (sql : list Z) (s : state) : outcome (bool * state) :=
  let! r := Query sql s in
  Ret (bool_decide (r.1 ≠ None), r.2).
End client.
Arguments state : clear implicits.

(** ** What is documented of the library and the server *)

(** The names and the rows that the server answers; what a connection has been
    answered and has not been stored yet; the rows of a result that are left. *)
Class MysqlServer (H R W : Type) : Type := {
  answer : W → list Z → list (list Z) * list fields;
  pending : H → option (list (list Z) * list fields);
  rows_left : R → list fields;
}.

Class MysqlLaws (H R W : Type) `{MysqlApi H R W} `{MysqlServer H R W} : Prop := {
  error_law h : slen (mysql_error h) ≤ 511;
  query_law h sql w h' w' : mysql_real_query h sql w = (0, h', w') → pending h' = Some (answer w sql);
  store_law h w r h' w' :
    mysql_store_result h w = (Some r, h', w') →
    pending h = Some (mysql_fetch_fields r, rows_left r) ∧ mysql_num_fields r = slen (mysql_fetch_fields r) ∧
    mysql_num_rows r = slen (rows_left r) ∧ Forall (λ row, length row = length (mysql_fetch_fields r)) (rows_left r);
  fetch_law r row r' :
    mysql_fetch_row r = (row, r') →
    mysql_fetch_fields r' = mysql_fetch_fields r ∧ row = head (rows_left r) ∧ rows_left r' = tail (rows_left r);
}.

(** The map that is made of a row: the first of several columns of one name. *)
Definition row_of (names : list (list Z)) (l : fields) : row :=
  foldl (λ m x, map_insert m (c_string x.1) (c_string (default [] x.2))) ∅ (zip names l).
Definition table_of (a : list (list Z) * list fields) : list row := row_of a.1 <$> a.2.

(** Some field is [NULL]. *)
Definition has_null (a : list (list Z) * list fields) : Prop := ∃ row, row ∈ a.2 ∧ None ∈ row.

(** ** Lemmas *)

(** Lengths of the texts that are written. *)
Ltac literals :=
  repeat match goal with
  | |- context [length (str ?s)] => let n := eval vm_compute in (length (str s)) in change (length (str s)) with n
  end.

Section lemmas.
Context {H R W : Type} `{MysqlLaws H R W}.
Abbreviation client := (CMysql H R).
Abbreviation state := (state H R W).
Implicit Types (c : client) (s : state).

(** The arguments are as [Connect_args] leaves them, with a password; a client
    that is connected has a connection. *)
Record client_ok c : Prop := {
  ok_host : slen (a_host (m_args c)) ≤ 64;
  ok_user : slen (a_user (m_args c)) ≤ 64;
  ok_db : slen (a_db (m_args c)) ≤ 64;
  ok_pass : ∃ p, a_pass (m_args c) = Some p ∧ slen p ≤ 64;
  ok_connected : m_bConnected c = true → is_Some (m_connection c);
}.

(** A call of the library has been made with it. *)
Definition live c : Prop := client_ok c ∧ is_Some (m_connection c).

Lemma client_ok_args c c' : m_args c' = m_args c → (m_bConnected c' = true → is_Some (m_connection c')) → client_ok c → client_ok c'.
Proof. intros E Hc [? ? ? ? ?]. split; rewrite ?E; done. Qed.

Lemma live_connection h b c : client_ok c → live (set_connection h b c).
Proof. intros Hc. split; [|by exists h]. apply (client_ok_args c); [done| |exact Hc]. by exists h. Qed.

Lemma ok_result r n rows c : client_ok c → client_ok (set_result r n rows c).
Proof. intros Hc. apply (client_ok_args c); [done|apply Hc|exact Hc]. Qed.

Lemma ok_FreeResult c : client_ok c → client_ok (FreeResult c).
Proof. intros Hc. unfold FreeResult. cbn. destruct (m_bFieldIndexInitialized c); by apply (client_ok_args c); [done|apply Hc|exact Hc]. Qed.

Lemma message_spec text s :
  mostly (1024 ≤ slen text) (message text s) (λ s', s' = set_me (set_msg text (me s)) s).
Proof. unfold message. destruct (Z.ltb_spec (slen text) 1024); done. Qed.

Lemma Close_spec s :
  client_ok (me s) →
  returns (Close s) (λ s', client_ok (me s') ∧ m_bConnected (me s') = false ∧ (is_Some (m_connection (me s)) → is_Some (m_connection (me s')))).
Proof.
  intros Hc. unfold Close. destruct (m_bConnected (me s)) eqn:Eb; [|done]. destruct (ok_connected _ Hc Eb) as [h Eh]. rewrite Eh. cbn [returns me].
  split; [|split; [done|by intros; exists h]]. by apply live_connection, ok_FreeResult.
Qed.

Lemma Connect_spec s : client_ok (me s) → returns (Connect s) (λ r, live (me r.2) ∧ m_bConnected (me r.2) = bool_decide (r.1 = 0)).
Proof.
  intros Hc. unfold Connect. destruct (m_bConnected (me s)) eqn:Eb.
  { cbn. split; [|done]. split; [done|]. by apply ok_connected. }
  destruct (mysql_real_connect _ _ _) as [[b h] w]. destruct b; cbn [negb].
  - destruct (query_ h SET_NAMES w) as [h1 w1], (query_ h1 _ w1) as [h2 w2], (query_ h2 _ w2) as [h3 w3]. cbn. split; [by apply live_connection|done].
  - destruct (ok_pass _ Hc) as (p & -> & Hp). match goal with |- context [message ?t ?s0] => pose proof (message_spec t s0) as Hm; assert (slen t < 1024) as Hlen end.
    { destruct Hc as [Hh Hu Hd _ _]. pose proof (error_law h) as He. pose proof (proj2 (print_dec_chars (mysql_errno h))) as Hn.
      rewrite !length_app. literals. cbn [length]. lia. }
    destruct (message _ _) as [s'| |]; [|cbn [mostly] in Hm; lia|done]. cbn [mostly] in Hm. subst s'. cbn. split; [|done].
    split; [|by exists h]. apply (client_ok_args (me s)); [done| |exact Hc]. by exists h.
Qed.

Lemma real_query_spec text s :
  live (me s) → returns (real_query text s) (λ r, live (me r.2) ∧ m_bConnected (me r.2) = m_bConnected (me s) ∧
    (r.1 = 0 → ∃ h w, m_connection (me r.2) = Some h ∧ pending h = Some (answer w text))).
Proof.
  intros [Hc [h Eh]]. unfold real_query. rewrite Eh. destruct (mysql_real_query h text (world s)) as [[result h'] w] eqn:E. cbn.
  split; [by apply live_connection|]. split; [done|]. intros ->. exists h', (world s). split; [done|]. by eapply query_law.
Qed.

Lemma prepare_spec s : client_ok (me s) → returns (prepare s) (λ s', live (me s')).
Proof.
  intros Hc. unfold prepare. run (Connect_spec s Hc). intros [r s1] [Hl _]. cbn [snd] in *. destruct (m_bConnected (me s1)); [|done].
  run (real_query_spec SET_NAMES s1 Hl). intros [result s2] (Hl2 & _ & _). cbn [fst snd] in *. case_bool_decide; [|done].
  run (Close_spec s2 (proj1 Hl2)). intros s3 (Hc3 & _ & _). run (Connect_spec s3 Hc3). intros [r' s4] [Hl4 _]. done.
Qed.

Lemma query_failed_spec sql s :
  live (me s) → mostly (414 < slen sql) (query_failed sql s) (λ r, live (me r.2) ∧ m_bConnected (me r.2) = false ∧ r.1 = None).
Proof.
  intros [Hc [h Eh]]. unfold query_failed, error_text. rewrite Eh. cbn [mbind outcome_bind].
  eapply mostly_bind; [eapply mostly_mono; [apply message_spec| |intros s' Hs'; exact Hs']|].
  - assert (slen (cut500 sql) ≤ slen sql).
    { unfold cut500. etransitivity; [|instantiate (1 := slen (if 500 <? slen sql then take 499 sql else sql)); destruct (500 <? slen sql); rewrite ?length_take; lia].
      apply inj_le. apply c_string_length. }
    destruct Hc as [Hh _ _ _ _]. pose proof (error_law h). rewrite !length_app. literals. cbn [length]. lia.
  - intros s' ->. apply mostly_returns. run Close_spec; [by apply (client_ok_args (me s)); [|apply Hc|]|].
    intros s2 (Hc2 & Eb2 & Hi). cbn. split; [|done]. split; [done|]. apply Hi. by exists h.
Qed.

Lemma record_query_spec sql s : returns (record_query sql s) (λ s', me s' = me s).
Proof.
  unfold record_query. run (strnicmp_ok (c_string sql) (str "select") 6); [apply c_string_no_nul|by apply (bool_decide_unpack _)|done|]. intros. done.
Qed.

(** An answer is waiting for [StoreResult]. *)
Definition answered (sql : list Z) (c : client) : Prop := ∃ h w, m_connection c = Some h ∧ pending h = Some (answer w sql).

Lemma query_again_spec sql s :
  client_ok (me s) → mostly (414 < slen sql) (query_again sql s) (λ r, live (me r.2) ∧
    (r.1 = None ∧ m_bConnected (me r.2) = false ∨ r.1 = Some 0 ∧ answered sql (me r.2))).
Proof.
  intros Hc. unfold query_again.
  eapply mostly_bind; [apply mostly_returns; by apply Close_spec|]. intros s1 (Hc1 & _ & _).
  eapply mostly_bind; [apply mostly_returns; by apply Connect_spec|]. intros [r s2] [Hl2 _]. cbn [snd] in *.
  eapply (mostly_bind _ _ _ (λ s', live (me s'))).
  { apply mostly_returns. destruct (m_bConnected (me s2)); [|done]. run (real_query_spec SET_NAMES s2 Hl2). by intros x (Hx & _). }
  intros s3 Hl3. eapply mostly_bind; [apply mostly_returns; by apply real_query_spec|]. intros [result s4] (Hl4 & _ & Ha). cbn [fst snd] in *.
  case_bool_decide as Er.
  - eapply mostly_mono; [by apply query_failed_spec|done|]. intros x (? & ? & ?). split; [done|by left].
  - split; [done|]. right. split; [done|]. apply Ha. by destruct (decide (result = 0)).
Qed.

Lemma Query_spec sql s :
  client_ok (me s) → mostly (414 < slen sql) (Query sql s) (λ r, live (me r.2) ∧
    (r.1 = None ∧ m_bConnected (me r.2) = false ∨ r.1 = Some 0 ∧ answered sql (me r.2))).
Proof.
  intros Hc. unfold Query. eapply mostly_bind; [apply mostly_returns; by apply prepare_spec|]. intros s1 Hl1.
  eapply mostly_bind; [apply mostly_returns; by apply real_query_spec|]. intros [result s2] (Hl2 & _ & Ha). cbn [fst snd] in *.
  case_bool_decide as Er.
  - destruct Hl2 as [Hc2 [h Eh]]. unfold errno. rewrite Eh. cbn [mbind outcome_bind]. case_bool_decide; [by apply query_again_spec|].
    eapply mostly_mono; [apply query_failed_spec; by split|done|]. intros x (? & ? & ?). split; [done|by left].
  - eapply mostly_bind; [apply mostly_returns, record_query_spec|]. intros s3 E3. cbn [mostly fst snd]. unfold answered. rewrite E3.
    split; [done|]. right. split; [done|]. apply Ha. by destruct (decide (result = 0)).
Qed.

(** The result is at the rows [rows]. *)
Definition reading (names : list (list Z)) (rows : list fields) (c : client) : Prop :=
  live c ∧ m_iField c = slen names ∧ Forall (λ row, length row = length names) rows ∧
  ∃ r, m_result c = Some r ∧ mysql_fetch_fields r = names ∧ rows_left r = rows.

Lemma StoreResult_spec sql s :
  live (me s) → answered sql (me s) →
  returns (StoreResult s) (λ r, live (me r.2) ∧
    (r.1 = None ∨ r.1 = Some 0 ∧ ∃ w, reading (answer w sql).1 (answer w sql).2 (me r.2) ∧ m_iRows (me r.2) = Some (slen (answer w sql).2))).
Proof.
  intros [Hc _] (h & w & Eh & Ep). unfold StoreResult. cbn [me set_me world stat].
  assert (m_connection (FreeResult (me s)) = Some h) as -> by (unfold FreeResult; by destruct (m_bFieldIndexInitialized _)).
  destruct (mysql_store_result h (world s)) as [[r h'] w'] eqn:E. destruct r as [r|]; cbn [returns fst snd me set_me].
  - destruct (store_law _ _ _ _ _ E) as (Ep' & Ef & En & Hl). rewrite Ep in Ep'. injection Ep' as Ea.
    assert (live (set_result (Some r) (mysql_num_fields r) (Some (mysql_num_rows r)) (set_connection h' (m_bConnected (FreeResult (me s))) (FreeResult (me s))))) as Hlive.
    { split; [|by exists h']. by apply ok_result, live_connection, ok_FreeResult. }
        split; [done|]. right. split; [done|]. exists w. rewrite Ea. cbn [fst snd]. split; [|cbn; by rewrite En]. split; [done|]. split; [done|].
    split; [done|]. by exists r.
  - match goal with |- context [message ?t ?s0] => pose proof (message_spec t s0) as Hm; assert (slen t < 1024) as Hlen end.
    { pose proof (error_law h'). rewrite !length_app. literals. lia. }
    destruct (message _ _) as [s'| |]; [|cbn [mostly] in Hm; lia|done]. cbn [mostly] in Hm. subst s'. cbn. split; [|by left].
    split; [|by exists h']. apply (client_ok_args (me s)); [unfold FreeResult; by destruct (m_bFieldIndexInitialized _)|by exists h'|done].
Qed.

Lemma row_elem_spec names row rows s :
  reading names rows (me s) → m_row (me s) = Some (Some row) → length row = length names →
  mostly (None ∈ row) (row_elem s) (λ e, e = row_of names row).
Proof.
  intros (_ & Ef & _ & r & Er & En & _) Erow Hl. unfold row_elem. rewrite Ef.
  eapply mostly_mono; [apply (for_range_mostly _ (λ i e, 0 ≤ i ∧ e = row_of (take (Z.to_nat i) names) (take (Z.to_nat i) row)) 0 (slen names)); [lia|done|]|done|].
  - intros i e Hi [_ ->]. unfold GetFieldName, GetField, row_at. rewrite Er, Ef, Erow, En.
    assert (u32 i ≤ i) by (unfold u32; apply Z.mod_le; lia). rewrite (proj2 (Z.ltb_ge _ _)), (proj2 (Z.ltb_ge _ _)) by lia.
    destruct (lookup_lt_is_Some_2 names (Z.to_nat i)) as [name Ename]; [lia|]. destruct (lookup_lt_is_Some_2 row (Z.to_nat i)) as [x Ex]; [lia|].
    rewrite (aget_lookup _ _ _ (proj1 Hi) Ename), (aget_lookup _ _ _ (proj1 Hi) Ex). cbn [mbind outcome_bind].
    destruct x as [value|]; [|by eapply list_elem_of_lookup_2]. cbn [mostly]. split; [lia|]. unfold row_of.
    rewrite Z2Nat.inj_add by lia. change (Z.to_nat 1) with 1%nat. rewrite Nat.add_1_r, (take_S_r _ _ _ Ename), (take_S_r _ _ _ Ex).
    rewrite zip_with_app by (rewrite !length_take; lia). by rewrite foldl_app.
  - intros e [_ ->]. rewrite Nat2Z.id. by rewrite !firstn_all2 by lia.
Qed.

Lemma read_step_eq reply s r row r' :
  m_result (me s) = Some r → mysql_fetch_row r = (row, r') →
  read_step (reply, s) =
  let s' := set_me (set_row r' row (me s)) s in
  match row with
  | None => Ret (inr (reply, s'))
  | Some _ => let! elem := row_elem s' in Ret (inl (reply ++ [elem], s'))
  end.
Proof. intros Er E. unfold read_step, FetchRow. rewrite Er. cbn [mbind outcome_bind]. rewrite Er, E. by destruct row. Qed.

Lemma read_loop_spec names rows reply s fuel :
  reading names rows (me s) → (length rows < fuel)%nat →
  mostly (∃ row, row ∈ rows ∧ None ∈ row) (loop fuel read_step (reply, s)) (λ r, client_ok (me r.2) ∧ r.1 = reply ++ (row_of names <$> rows)).
Proof.
  revert reply s fuel. induction rows as [|row rows IH]; intros reply s fuel Hr Hf; (destruct fuel as [|fuel]; [lia|]);
    rewrite loop_S; pose proof Hr as ([Hc Hcon] & Ef & Hrows & r & Er & En & El); destruct (mysql_fetch_row r) as [x r'] eqn:E;
    rewrite (read_step_eq _ _ _ _ _ Er E); apply fetch_law in E as (En' & -> & El'); rewrite El in *; cbn [hd_error tail] in *.
  - cbn [mbind outcome_bind mostly fst snd]. split; [|by rewrite app_nil_r]. by apply (client_ok_args (me s)); [|apply Hc|].
  - apply Forall_cons in Hrows as [Hrow Hrows]. set (s' := set_me _ s).
    assert (reading names rows (me s')) as Hr'.
    { split; [|split; [done|]; split; [done|]; exists r'; by rewrite En']. split; [|done]. by apply (client_ok_args (me s)); [|apply Hc|]. }
    eapply (mostly_bind _ _ _ (λ x, x = inl (reply ++ [row_of names row], s'))).
    { eapply mostly_bind; [eapply mostly_mono; [by apply (row_elem_spec names row rows)| |intros e He; exact He]|].
      - intros Hin. exists row. split; [by left|done].
      - by intros e ->. }
    intros x ->. eapply mostly_mono; [apply IH; [done|cbn in Hf; lia]| |].
    + intros (x & Hx & Hn). exists x. split; [by right|done].
    + intros x [Hx ->]. split; [done|]. by rewrite <-app_assoc.
Qed.

Lemma opt_read_spec sql s :
  client_ok (me s) →
  mostly (414 < slen sql ∨ ∃ w, has_null (answer w sql)) (opt_read sql s) (λ r, client_ok (me r.2) ∧ (r.1 = None ∨ ∃ w, r.1 = Some (table_of (answer w sql)))).
Proof.
  intros Hc. unfold opt_read. eapply mostly_bind; [eapply mostly_mono; [by apply Query_spec|by left|intros x Hx; exact Hx]|].
  intros [thrown s1] [Hl Hr]. cbn [fst snd] in *. destruct Hr as [[-> _]|[-> Ha]]; [split; [apply Hl|by left]|].
  eapply mostly_bind; [apply mostly_returns; by apply StoreResult_spec|]. intros [thrown s2] [Hl2 Hr]. cbn [fst snd] in *.
  destruct Hr as [->|[-> (w & Hr & En)]]; [split; [apply Hl2|by left]|]. rewrite En. cbn [default].
  eapply mostly_bind; [eapply mostly_mono; [apply (read_loop_spec (answer w sql).1 (answer w sql).2); [done|cbn; lia]| |intros x Hx; exact Hx]|].
  - intros (row & ? & ?). right. exists w. by exists row.
  - intros [rows s3] [Hc3 E]. cbn [fst snd mostly] in *. split; [done|]. right. exists w. by rewrite E.
Qed.

(** *** A server that can be reached *)

(** New connections are [alive], queries over one that is alive succeed, and so is
    one over which [SET NAMES] succeeds. *)
Record within_reach (alive : H → Prop) : Prop := {
  reach_connect a w : ∃ h w', mysql_real_connect mysql_init a w = (true, h, w') ∧ alive h;
  reach_query h text w : alive h → ∃ h' w', mysql_real_query h text w = (0, h', w') ∧ alive h';
  reach_probe h w h' w' : mysql_real_query h SET_NAMES w = (0, h', w') → alive h';
  reach_store h w : alive h → pending h ≠ None → ∃ r h' w', mysql_store_result h w = (Some r, h', w');
}.

Section reach.
Context (alive : H → Prop) (Hreach : within_reach alive).

Definition lively c : Prop := client_ok c ∧ m_bConnected c = true ∧ ∃ h, m_connection c = Some h ∧ alive h.

Lemma Connect_reach s : client_ok (me s) → m_bConnected (me s) = false → returns (Connect s) (λ r, lively (me r.2)).
Proof.
  intros Hc Eb. unfold Connect. rewrite Eb. destruct (reach_connect _ Hreach (m_args (me s)) (world s)) as (h & w & -> & Hh). cbn [negb]. unfold query_.
  destruct (reach_query _ Hreach h SET_NAMES w Hh) as (h1 & w1 & -> & Hh1).
  destruct (reach_query _ Hreach h1 (str "SET CHARACTER SET UTF8") w1 Hh1) as (h2 & w2 & -> & Hh2).
  destruct (reach_query _ Hreach h2 (str "SET CHARACTER_SET_RESULTS=UTF8") w2 Hh2) as (h3 & w3 & -> & Hh3).
  cbn. split; [by apply live_connection|]. split; [done|]. by exists h3.
Qed.

Lemma prepare_reach s : client_ok (me s) → returns (prepare s) (λ s', lively (me s')).
Proof.
  intros Hc. unfold prepare.
  assert (returns (Connect s) (λ r, live (me r.2) ∧ m_bConnected (me r.2) = true)) as Hcon.
  { destruct (m_bConnected (me s)) eqn:Eb.
    - unfold Connect. rewrite Eb. split; [|done]. split; [done|]. by apply ok_connected.
    - eapply returns_mono; [by apply Connect_reach|]. intros r (? & ? & h & ? & ?). split; [|done]. split; [done|]. by exists h. }
  run Hcon. intros [r s1] [[Hc1 [h Eh]] Eb]. cbn [snd] in *. rewrite Eb. unfold real_query. rewrite Eh.
  destruct (mysql_real_query h SET_NAMES (world s1)) as [[result h'] w] eqn:E. cbn [mbind outcome_bind]. case_bool_decide as Er.
  - run Close_spec; [by apply live_connection|]. intros s2 (Hc2 & Eb2 & _). run (Connect_reach s2 Hc2 Eb2). by intros [? ?] ?.
  - assert (result = 0) as -> by by destruct (decide (result = 0)). cbn. split; [by apply live_connection|]. split; [done|]. exists h'. split; [done|].
    by eapply reach_probe.
Qed.

Lemma Query_reach sql s :
  client_ok (me s) → returns (Query sql s) (λ r, r.1 = Some 0 ∧ lively (me r.2) ∧ answered sql (me r.2)).
Proof.
  intros Hc. unfold Query. run (prepare_reach s Hc). intros s1 (Hc1 & Eb & h & Eh & Hh). unfold real_query. rewrite Eh.
  destruct (reach_query _ Hreach h sql (world s1) Hh) as (h' & w & E & Hh'). rewrite E. cbn [mbind outcome_bind].
  rewrite bool_decide_eq_false_2 by tauto. run record_query_spec. intros s2 E2. cbn [returns fst snd]. rewrite E2. split; [done|].
  assert (live (set_connection h' (m_bConnected (me s1)) (me s1))) as [Hl _] by by apply live_connection.
  split; [split; [done|split; [done|by exists h']]|]. exists h', (world s1). split; [done|]. by eapply query_law.
Qed.

Lemma opt_read_reach sql s :
  client_ok (me s) → mostly (∃ w, has_null (answer w sql)) (opt_read sql s) (λ r, ∃ w, r.1 = Some (table_of (answer w sql))).
Proof.
  intros Hc. unfold opt_read. eapply mostly_bind; [apply mostly_returns; by apply Query_reach|].
  intros [thrown s1] (Et & (Hc1 & Eb & h & Eh & Hh) & Ha). cbn [fst snd] in *. subst thrown.
  assert (returns (StoreResult s1) (λ r, r.1 = Some 0)) as Hs.
  { unfold StoreResult. cbn [me set_me world stat].
    assert (m_connection (FreeResult (me s1)) = Some h) as -> by (unfold FreeResult; by destruct (m_bFieldIndexInitialized _)).
    destruct Ha as (h2 & w & Eh2 & Ep). rewrite Eh in Eh2. injection Eh2 as <-.
    destruct (reach_store _ Hreach h (world s1) Hh) as (r & h' & w' & E); [by rewrite Ep|]. by rewrite E. }
  assert (live (me s1)) as Hl by (split; [done|by exists h]). pose proof (StoreResult_spec sql s1 Hl Ha) as Hs2.
  destruct (StoreResult s1) as [[thrown s2]| |]; [|done..]. cbn [returns fst snd mbind outcome_bind] in *. subst thrown.
  destruct Hs2 as (Hl2 & [?|(_ & w & Hr & En)]); [done|]. rewrite En. cbn [default].
  eapply mostly_bind; [eapply mostly_mono; [apply (read_loop_spec (answer w sql).1 (answer w sql).2); [done|cbn; lia]| |intros x Hx; exact Hx]|].
  - intros (row & ? & ?). exists w. by exists row.
  - intros [rows s3] [Hc3 E]. cbn [fst snd mostly] in *. exists w. by rewrite E.
Qed.
End reach.

Lemma opt_write_spec sql s :
  client_ok (me s) → mostly (414 < slen sql) (opt_write sql s) (λ r, client_ok (me r.2) ∧ (r.1 = false → m_bConnected (me r.2) = false)).
Proof.
  intros Hc. unfold opt_write. eapply mostly_bind; [by apply Query_spec|]. intros r [[Hl _] Hr]. cbn [mostly fst snd]. split; [done|].
  intros Hf. destruct Hr as [[_ ?]|[E _]]; [done|]. rewrite E in Hf. apply bool_decide_eq_false in Hf. by destruct Hf.
Qed.
End lemmas.

(** ** The clients of a pool *)
Section clients.
Context {H R W : Type} `{MysqlLaws H R W}.

(** The clients by their address. *)
Abbreviation clients := ((loc → CMysql H R) * statistic * W)%type.

Definition with_client {A} (c : loc) (f : state H R W → outcome (A * state H R W)) (m : clients) : outcome (A * clients) :=
  let! r := f (State (m.1.1 c) m.1.2 m.2) in
  Ret (r.1, (<[c := me r.2]> m.1.1, stat r.2, world r.2)).

Definition pool_read (c : loc) (sql : list Z) : clients → outcome (option (list row) * clients) := with_client c (opt_read sql).
Definition pool_write (c : loc) (sql : list Z) : clients → outcome (bool * clients) := with_client c (opt_write sql).
Definition pool_ok (m : clients) : Prop := ∀ c, client_ok (m.1.1 c).

Lemma with_client_ok {A} (P : Prop) c (f : state H R W → outcome (A * state H R W)) m r m' :
  pool_ok m → (∀ s, client_ok (me s) → mostly P (f s) (λ r, client_ok (me r.2))) → with_client c f m = Ret (r, m') → pool_ok m'.
Proof.
  intros Hm Hf. unfold with_client. specialize (Hf (State (m.1.1 c) m.1.2 m.2) (Hm c)). destruct (f _) as [[x s]| |]; [|done..].
  intros [= <- <-] c'. cbn [fst snd]. destruct (decide (c' = c)) as [->|Hne]; [by rewrite fn_lookup_insert|by rewrite fn_lookup_insert_ne].
Qed.

Lemma pool_read_ok c sql m r m' : pool_ok m → pool_read c sql m = Ret (r, m') → pool_ok m'.
Proof. intros Hm. eapply with_client_ok; [done|]. intros s Hs. eapply mostly_mono; [by apply opt_read_spec|intros Hp; exact Hp|by intros x [? _]]. Qed.

Lemma pool_write_ok c sql m r m' : pool_ok m → pool_write c sql m = Ret (r, m') → pool_ok m'.
Proof. intros Hm. eapply with_client_ok; [done|]. intros s Hs. eapply mostly_mono; [by apply opt_write_spec|intros Hp; exact Hp|by intros x [? _]]. Qed.
End clients.

(** ** A small library *)

(** A connection that works or not, and whether an answer is waiting; every select
    has one row. *)
Definition demo_table : list (list Z) * list fields := ([str "data"], [[Some (str "x")]]).

#[export] Instance demo_api : MysqlApi (bool * bool) (list (list Z) * list fields) unit := {
  mysql_init := (false, false);
  mysql_real_connect h a w := (true, (true, false), w);
  mysql_real_query h sql w := if h.1 then (0, (true, true), w) else (1, h, w);
  mysql_errno h := 2013;
  mysql_error h := [];
  mysql_close h w := w;
  mysql_affected_rows h := 0;
  mysql_insert_id h := 0;
  mysql_store_result h w := (if h.2 then Some demo_table else None, (h.1, false), w);
  mysql_num_fields r := slen r.1;
  mysql_num_rows r := slen r.2;
  mysql_fetch_fields r := r.1;
  mysql_fetch_row r := (head r.2, (r.1, tail r.2));
  mysql_fetch_lengths r := [];
  mysql_escape_string s := s;
}.

#[export] Instance demo_mysql : MysqlServer (bool * bool) (list (list Z) * list fields) unit := {
  answer w sql := demo_table;
  pending h := if h.2 then Some demo_table else None;
  rows_left r := r.2;
}.

#[export] Instance demo_mysql_laws : MysqlLaws (bool * bool) (list (list Z) * list fields) unit.
Proof.
  split.
  - done.
  - intros [[] b] sql w h' w'; cbn; [|done]. by intros [= <- <-].
  - intros [a []] w r h' w'; cbn; [|done]. intros [= <- <- <-]. split; [done|]. split; [done|]. split; [done|]. by repeat constructor.
  - intros [names rows] row r' [= <- <-]. by split_and!.
Qed.

Lemma demo_reach : within_reach (R := list (list Z) * list fields) (W := unit) (λ h : bool * bool, h.1 = true).
Proof.
  split.
  - intros a w. by exists (true, false), w.
  - intros [[] b] text w; [|done]. by exists (true, true), w.
  - intros [[] b] w h' w' E; cbn in E; [|done]. by injection E as <- <-.
  - intros [a []] w; [|done]. intros _ _. by exists demo_table, (a, false), w.
Qed.

(** ** Properties *)

(** C15 Reading all rows of a select ends with the rows that the server answered, as
    maps from names to texts, or with the exception of a message; when the server
    can be reached it ends with the rows, even if the connection has been lost
    since the last query.  After the exception of a write the client is not
    connected, so that the next query connects anew.  Nothing is undefined unless
    a field is [NULL], or the select is longer than 414 bytes and its message
    does not fit. *)
Theorem mysql_client_correct {H R W} `{MysqlLaws H R W} sql (s : state H R W) :
  client_ok (me s) →
  mostly (414 < slen sql ∨ ∃ w, has_null (answer w sql)) (opt_read sql s) (λ r, client_ok (me r.2) ∧ (r.1 = None ∨ ∃ w, r.1 = Some (table_of (answer w sql)))) ∧
  (∀ alive, within_reach alive → mostly (∃ w, has_null (answer w sql)) (opt_read sql s) (λ r, ∃ w, r.1 = Some (table_of (answer w sql)))) ∧
  mostly (414 < slen sql) (opt_write sql s) (λ r, client_ok (me r.2) ∧ (r.1 = false → m_bConnected (me r.2) = false)).
Proof.
  intros Hc. split; [by apply opt_read_spec|]. split; [|by apply opt_write_spec]. intros alive Ha. by apply (opt_read_reach alive Ha).
Qed.

(** *** Witness: the connection has been lost *)
Definition demo_client : state (bool * bool) (list (list Z) * list fields) unit :=
  State (MkCMysql [] (ConnectArgs (str "localhost") (str "root") (Some (str "111")) (str "db") 3306 None 0) (Some (false, false)) None None ∅ false true 0 None)
    (Statistic 0 0 0 ∅ ∅) tt.

Lemma demo_mysql_client_ok : client_ok (me demo_client).
Proof. split; try done; by eexists. Qed.

Lemma mysql_client_correct_witness : returns (opt_read (str "select data") demo_client) (λ r, r.1 = Some [ {[ str "data" := str "x" ]} ]).
Proof.
  destruct (mysql_client_correct (str "select data") demo_client demo_mysql_client_ok) as (_ & Hr & _). specialize (Hr _ demo_reach).
  destruct (opt_read _ _) as [r| |].
  - destruct Hr as [[] Hr]. cbn [returns mostly]. rewrite Hr. vm_compute. reflexivity.
  - exfalso. destruct Hr as (w & row & Hin & Hn). apply list_elem_of_singleton in Hin. subst row. by apply list_elem_of_singleton in Hn.
  - done.
Defined.

(** ** What goes wrong *)

(** With a password the second constructor writes behind its array. *)
Lemma constructor_overflows {H R} (a : connect_args) p : a_pass a = Some p → new_CMysql_args (H := H) (R := R) a = Stuck.
Proof. unfold new_CMysql_args. by intros ->. Qed.

(** A column whose name is not in the result is read as the first one. *)
Lemma unknown_column {H R W} `{MysqlApi H R W} name (c : CMysql H R) row x :
  m_bFieldIndexInitialized c = true → m_FieldIndex c !! c_string name = None → 0 ≤ m_iField c → m_row c = Some (Some (x :: row)) →
  ∃ c', GetField_name name c = Ret (x, c').
Proof.
  intros Ei En Hf Er. unfold GetField_name, index_of, InitFieldName. rewrite Ei.
  assert (∀ r : option R, match r with Some _ => c | None => c end = c) as Hc by (by intros []). rewrite Hc, En. unfold GetField.
  rewrite (proj2 (Z.ltb_ge _ _)) by (cbn; lia). unfold row_at. cbn [set_index m_row]. rewrite Er. by eexists.
Qed.

(** A select of 500 bytes that fails with a message of 511 overflows [m_ErrMsg]. *)
Lemma message_overflows {H R W} `{MysqlApi H R W} sql (s : state H R W) h :
  m_connection (me s) = Some h → slen (mysql_error h) = 511 → slen sql = 500 → (0 ∉ sql) → query_failed sql s = Stuck.
Proof.
  intros Eh Ee El Hz. unfold query_failed, error_text. rewrite Eh. cbn [mbind outcome_bind]. unfold message.
  assert (cut500 sql = sql) as -> by (unfold cut500; rewrite El; cbn; by rewrite c_string_id).
  rewrite (proj2 (Z.ltb_ge _ _)); [done|]. rewrite !length_app. literals. cbn [length]. lia.
Qed.
