(* ===== verification/GameInfo.v ===== *)
(** * The tables of the login server
    ([main/gameinfo.cpp], [service/prevent_service.cpp], [service/trustee_service.cpp]
    and [init_map_startsource_promptid] of [main/dispatcher.cpp] in
    [logingame_server/src/])

    Maps that are read from MySQL with a client of their own, and a query for one
    record.  The client is that of [MySql.v]; the server answers a query for columns
    with these columns.  The locks protect the maps; here one thread uses them.  Times
    are left out. *)

From Stdlib Require Import String.
From S2P Require Import Prelude Text Utility Config Json Store MySql.

Abbreviation text_map := (gmap (list Z) (list Z)).

(** ** Definitions: reading a table *)
Section table.
Context {H R W : Type} `{MysqlApi H R W}.
Abbreviation state := (MySql.state H R W).

(** [std::string x = mysql.GetFieldBinary(name, data_len)]: not of a null pointer. *)
Definition field_text (name : list Z) (s : state) : outcome (list Z * state) :=
  let! r := GetFieldBinary_name name 0 (me s) in
  match r.1.1 with Some x => Ret (c_string x, set_me r.2 s) | None => Stuck end.
(** [append(pdata, data_len)], where a null field has the length 0. *)
Definition field_binary (name : list Z) (s : state) : outcome (list Z * state) :=
  let! r := GetFieldBinary_name name 0 (me s) in
  let n := r.1.2 in
  match r.1.1 with
  | Some x => if (0 <=? n) && (n <=? slen x) then Ret (take (Z.to_nat n) x, set_me r.2 s) else Stuck
  | None => if n =? 0 then Ret ([], set_me r.2 s) else Stuck
  end.
(** Where a null field leaves [old]. *)
Definition field_or (name old : list Z) (s : state) : outcome (list Z * state) :=
  let! r := GetFieldBinary_name name 0 (me s) in
  Ret (match r.1.1 with Some x => c_string x | None => old end, set_me r.2 s).

(** The loop over the rows; what [FetchRow] throws is not caught there. *)
Definition table_step {M} (row : M → state → outcome (M * state)) (x : M * state) : outcome (M * state + M * state) :=
  let (m, s) := x in
  let! r := FetchRow s in
  let (fetched, s) := (r : option (option fields) * state) in
  match fetched with
  | None => Stuck
  | Some None => Ret (inr (m, s))
  | Some (Some _) => let! x := row m s in Ret (inl x)
  end.

(** Connect, query, store, and the loop; [failed] is what is done with the client after
    the second or the third of them threw, [ended] after the loop, before the destructor;
    [clear] is what happens to the map before the loop.  The first component is [false]
    when one of the three failed, the map being as it was. *)
Definition load_table {M} (failed ended : state → outcome state) (a : connect_args) (sql : outcome (list Z)) (clear : M → M) (row : M → state → outcome (M * state)) (m : M) (st : statistic) (w : W)
    : outcome (bool * M * statistic * W) :=
  let quit b m s := let! s := delete_CMysql s in Ret (b, m, stat s, world s) in
  let! r := Connect_args a (State new_CMysql st w) in
  let (result, s) := (r : Z * state) in
  if bool_decide (result ≠ 0) then quit false m s
  else
    let! sql := sql in
    let! r := Query_chars sql s in
    let (thrown, s) := (r : option Z * state) in
    match thrown with
    | None => let! s := failed s in quit false m s
    | Some _ =>
        let! r := StoreResult s in
        let (thrown, s) := (r : option Z * state) in
        match thrown with
        | None => let! s := failed s in quit false m s
        | Some _ =>
            let! r := loop (S (Z.to_nat (default 0 (m_iRows (me s))))) (table_step row) (clear m, s) in
            let! s := ended r.2 in
            quit true r.1 s
        end
    end.
End table.

(** ** Definitions: the games *)
Record gameinfo : Type := mk_gameinfo { m_gameinfo : text_map; m_gameinfo_4spe : text_map }.

(** The server that the configuration names; [name] makes the key of an item. *)
Definition server_args (config : list item) (name : list Z → list Z) : outcome connect_args :=
  let! port := getInt config (name (str "port")) 8888 in
  Ret (ConnectArgs (c_string (getString config (name (str "ip")) (str "127.0.0.1"))) (c_string (getString config (name (str "user")) (str "user")))
         (Some (c_string (getString config (name (str "password")) (str "888888")))) (c_string (getString config (name (str "dbname")) (str "mysql")))
         (u32 port) None 0).

Definition columns_4spe : list (list Z) := [str "gameid"; str "serverid"; str "sid"; str "loginurl"].
Definition columns_gameinfo : list (list Z) := columns_4spe ++ [str "params"].

(** The JSON text of a game, with its parameters behind it. *)
Definition game_text (serverid sid loginurl params : list Z) : list Z :=
  [123; 34] ++ str "serverid" ++ [34; 58; 34] ++ serverid ++ [34; 44; 34] ++ str "sid" ++ [34; 58; 34] ++ sid ++ [34; 44; 34] ++
  str "loginurl" ++ [34; 58; 34] ++ loginurl ++ [34; 125] ++ params.

Section games.
Context {H R W : Type} `{MysqlApi H R W}.

Definition row_4spe (m : text_map) (s : MySql.state H R W) : outcome (text_map * MySql.state H R W) :=
  let! r := field_text (str "gameid") s in let (_gameid, s) := (r : list Z * _) in
  let! r := field_text (str "serverid") s in let (_serverid, s) := (r : list Z * _) in
  let! r := field_text (str "sid") s in let (_sid, s) := (r : list Z * _) in
  let! r := field_text (str "loginurl") s in let (_loginurl, s) := (r : list Z * _) in
  Ret (map_insert m (_gameid ++ _serverid ++ _sid) _loginurl, s).

Definition row_gameinfo (m : text_map) (s : MySql.state H R W) : outcome (text_map * MySql.state H R W) :=
  let! r := field_text (str "gameid") s in let (_gameid, s) := (r : list Z * _) in
  let! r := field_text (str "serverid") s in let (_serverid, s) := (r : list Z * _) in
  let! r := field_text (str "sid") s in let (_sid, s) := (r : list Z * _) in
  let! r := field_text (str "loginurl") s in let (_loginurl, s) := (r : list Z * _) in
  let! r := field_text (str "params") s in let (_params, s) := (r : list Z * _) in
  Ret (map_insert m _gameid (game_text _serverid _sid _loginurl _params), s).

(** The query, printed into 1024 bytes; the name of the table is a C string. *)
Definition query_text (columns tname : list Z) : outcome (list Z) :=
  let sql := str "select " ++ columns ++ str " from  " ++ c_string tname ++ str " " in
  if slen sql <? 1024 then Ret sql else Stuck.

Definition name_4spe (k : list Z) : list Z := str "gameinfo_mysql_" ++ k ++ str "_4spe".
Definition name_gameinfo (k : list Z) : list Z := str "gameinfo_mysql_" ++ k.

Definition get_gameinfo_from_db_4spe (config : list item) (g : gameinfo) (st : statistic) (w : W) : outcome (Z * gameinfo * statistic * W) :=
  let! a := server_args config name_4spe in
  let sql := query_text (join 44 columns_4spe) (getString config (name_4spe (str "tname")) (str "mysql")) in
  let! r := load_table Ret Close a sql (λ _, ∅) row_4spe (m_gameinfo_4spe g) st w in
  let '(ok, m, st, w) := (r : bool * text_map * statistic * W) in
  Ret (if ok then 0 else -1, mk_gameinfo (m_gameinfo g) m, st, w).

Definition get_gameinfo_from_db (config : list item) (g : gameinfo) (st : statistic) (w : W) : outcome (Z * gameinfo * statistic * W) :=
  let! a := server_args config name_gameinfo in
  let sql := query_text (join 44 columns_gameinfo) (getString config (name_gameinfo (str "tname")) (str "mysql")) in
  let! r := load_table Ret Close a sql (λ _, ∅) row_gameinfo (m_gameinfo g) st w in
  let '(ok, m, st, w) := (r : bool * text_map * statistic * W) in
  Ret (if ok then 0 else -1, mk_gameinfo m (m_gameinfo_4spe g), st, w).

(** The constructor. *)
Definition new_gameinfo (config : list item) (st : statistic) (w : W) : outcome (gameinfo * statistic * W) :=
  let! r := get_gameinfo_from_db config (mk_gameinfo ∅ ∅) st w in
  let '(_, g, st, w) := (r : Z * gameinfo * statistic * W) in
  let! r := get_gameinfo_from_db_4spe config g st w in
  let '(_, g, st, w) := (r : Z * gameinfo * statistic * W) in
  Ret (g, st, w).
End games.

(** The result and [loginurl]. *)
Definition get_gameinfo4special (gameid serverid sid : list Z) (g : gameinfo) : Z * list Z :=
  let loginurl := default [] (first_value (gameid ++ serverid ++ sid) (items (m_gameinfo_4spe g))) in
  if bool_decide (loginurl = []) then (-1, loginurl) else (0, loginurl).

(** The position is kept in 32 bits, and compared with [npos] of 64 bits. *)
Definition game_split (value : list Z) : list Z * list Z :=
  let loc := match find_char 125 value 0 with Some p => u32 p | None => 2 ^ 32 - 1 end in
  let n := u32 (loc + 1) in
  (take (Z.to_nat n) value, take (Z.to_nat (u64 (slen value - loc - 1))) (drop (Z.to_nat n) value)).

(** The text of a member; a root, a member or a text that is missing is a null pointer. *)
Definition root_text (root : option cJSON) (name : list Z) : outcome (list Z) :=
  match root with
  | None => Stuck
  | Some root => match cJSON_GetObjectItem root name ≫= valuestring with Some t => Ret t | None => Stuck end
  end.

(** The result, [serverid], [sid], [loginurl] and [gameinfo]; [None]: -1, and they stay. *)
Definition get_gameinfo (pow : double → double → double) (gameid : list Z) (g : gameinfo) : outcome (option (list Z * list Z * list Z * list Z)) :=
  let value := default [] (first_value gameid (items (m_gameinfo g))) in
  if bool_decide (value = []) then Ret None
  else
    let (phalf, bhalf) := game_split value in
    let! root := cJSON_Parse pow phalf in
    let! serverid := root_text root (str "serverid") in
    let! sid := root_text root (str "sid") in
    let! loginurl := root_text root (str "loginurl") in
    Ret (Some (serverid, sid, loginurl, bhalf)).

(** ** Definitions: who may not play *)

(** [seqid] is indeterminate in an object that [update_prevent] makes. *)
Record STU_PREVENT_INFO : Type := mk_prevent_info { prevent_seqid : option Z; prevent_gameid : list Z; is_prevent : list Z; is_adult : list Z }.
Abbreviation prevent_map := (gmap (list Z) STU_PREVENT_INFO).

Definition m_tablename : list Z := str "gamebox.prevent".

(** [sprintf] into 1024 bytes. *)
Definition print_1024 (text : list Z) : outcome (list Z) := if slen text <? 1024 then Ret text else Stuck.

(** The server of the services of the login server. *)
Definition mysql_config_loader (config : list item) : outcome connect_args := server_args config (λ k, str "mysql_" ++ k).

Section prevent.
Context {H R W : Type} `{MysqlApi H R W}.

Definition row_prevent (m : prevent_map) (s : MySql.state H R W) : outcome (prevent_map * MySql.state H R W) :=
  let! r := field_text (str "seqid") s in let (seqid, s) := (r : list Z * _) in
  let! n := atouint64_const (seqid ++ [0]) (s32 (slen seqid)) in
  let! r := field_text (str "gameid") s in let (gameid, s) := (r : list Z * _) in
  let! r := field_text (str "isprevent") s in let (isprevent, s) := (r : list Z * _) in
  let! r := field_text (str "isadult") s in let (isadult, s) := (r : list Z * _) in
  Ret (map_insert m gameid (mk_prevent_info (Some n) gameid isprevent isadult), s).

Definition INIT_PREVENT (config : list item) (m : prevent_map) (st : statistic) (w : W) : outcome (prevent_map * statistic * W) :=
  let! a := mysql_config_loader config in
  let! r := load_table Close (λ s, Close (set_me (FreeResult (me s)) s)) a (print_1024 (str "select seqid, gameid, isprevent,isadult from " ++ m_tablename)) id row_prevent m st w in
  let '(_, m, st, w) := (r : bool * prevent_map * statistic * W) in
  Ret (m, st, w).

(** The texts are put into the query as they are. *)
Definition update_prevent_text (info : STU_PREVENT_INFO) : list Z :=
  let g := c_string (prevent_gameid info) in let p := c_string (is_prevent info) in let a := c_string (is_adult info) in
  if bool_decide (prevent_gameid info = []) then str "update " ++ m_tablename ++ str " set isprevent=" ++ p ++ str " , isadult=" ++ a
  else str "insert into " ++ m_tablename ++ str " (gameid,isprevent,isadult) values('" ++ g ++ str "', " ++ p ++ str ", " ++ a ++
       str ")   on duplicate key update isprevent=" ++ p ++ str ",isadult=" ++ a ++ str " ".

Definition set_prevent (info old : STU_PREVENT_INFO) : STU_PREVENT_INFO := mk_prevent_info (prevent_seqid old) (prevent_gameid old) (is_prevent info) (is_adult info).

(** [None] is a null [m_pmysql]. *)
Definition update_prevent (info : STU_PREVENT_INFO) (m_pmysql : option (MySql.state H R W)) (m : prevent_map)
    : outcome (Z * option (MySql.state H R W) * prevent_map) :=
  match m_pmysql with
  | None => Ret (-1, None, m)
  | Some s =>
      let! sql := print_1024 (update_prevent_text info) in
      let! r := Query_chars sql s in
      match r.1 with
      | None => Ret (-1, Some r.2, m)
      | Some _ =>
          let m :=
            if bool_decide (prevent_gameid info = []) then set_prevent info <$> m
            else match m !! prevent_gameid info with
                 | Some old => <[prevent_gameid info := set_prevent info old]> m
                 | None => map_insert m (prevent_gameid info) (mk_prevent_info None (prevent_gameid info) (is_prevent info) (is_adult info))
                 end in
          Ret (0, Some r.2, m)
      end
  end.

Definition remove_prevent (gameid : list Z) (m_pmysql : option (MySql.state H R W)) (m : prevent_map)
    : outcome (Z * option (MySql.state H R W) * prevent_map) :=
  match m_pmysql with
  | None => Ret (-1, None, m)
  | Some s =>
      let! sql := print_1024 (if bool_decide (gameid = []) then str "delete from " ++ m_tablename
                              else str "delete from " ++ m_tablename ++ str " where gameid='" ++ c_string gameid ++ str "'") in
      let! r := Query_chars sql s in
      match r.1 with
      | None => Ret (-1, Some r.2, m)
      | Some _ => Ret (0, Some r.2, if bool_decide (gameid = []) then ∅ else delete gameid m)
      end
  end.
End prevent.

Definition query_prevent (vec : list STU_PREVENT_INFO) (str_gameid : list Z) (m : prevent_map) : list STU_PREVENT_INFO :=
  if bool_decide (str_gameid = []) then vec ++ (items m).*2
  else match m !! str_gameid with Some info => vec ++ [info] | None => vec end.

(** ** Definitions: sources and accounts *)
Record STU_TRUSTEE_INFO : Type := mk_trustee_info {
  trustee_seqid : Z; mastergid : list Z; mastername : list Z; masteralias : list Z; slavergid : list Z; slavername : list Z;
  slaveralias : list Z; trustee_gameid : list Z; trustee_serverid : list Z; trustee_status : Z; trustee_idcardno : list Z; smallsource : Z;
}.

Section services.
Context {H R W : Type} `{MysqlApi H R W}.

Definition row_startsource (m : text_map) (s : MySql.state H R W) : outcome (text_map * MySql.state H R W) :=
  let! r := field_binary (str "startsource") s in let (startsource, s) := (r : list Z * _) in
  let! r := field_binary (str "promptid") s in let (promptid, s) := (r : list Z * _) in
  Ret (map_insert m startsource promptid, s).

Definition init_map_startsource_promptid (config : list item) (m : text_map) (st : statistic) (w : W) : outcome (text_map * statistic * W) :=
  let! a := mysql_config_loader config in
  let! r := load_table Close Close a (print_1024 (str "select startsource, promptid from gamebox.startsource_promptid")) id row_startsource m st w in
  let '(_, m, st, w) := (r : bool * text_map * statistic * W) in
  Ret (m, st, w).

Definition trustee_query (seqid : Z) : list Z :=
  str "select seqid,mastergid,mastername,slavergid,slavername,slaveralias,gameid,serverid,masteralias,idcardno,smallsource from gamebox.trustee " ++
  str " where seqid='" ++ print_dec (s64 seqid) ++ str "'".

(** One row; [smallsource] and [idcardno] may be null. *)
Definition trustee_row (pstu : STU_TRUSTEE_INFO) (s : MySql.state H R W) : outcome (STU_TRUSTEE_INFO * MySql.state H R W) :=
  let! r := field_text (str "seqid") s in let (id, s) := (r : list Z * _) in
  let! id := atouint64_const (id ++ [0]) (s32 (slen id)) in
  let! r := field_text (str "mastername") s in let (mname, s) := (r : list Z * _) in
  let! r := field_text (str "mastergid") s in let (mgid, s) := (r : list Z * _) in
  let! r := field_text (str "masteralias") s in let (malias, s) := (r : list Z * _) in
  let! r := field_text (str "slavername") s in let (sname, s) := (r : list Z * _) in
  let! r := field_text (str "slavergid") s in let (sgid, s) := (r : list Z * _) in
  let! r := field_text (str "slaveralias") s in let (salias, s) := (r : list Z * _) in
  let! r := field_text (str "serverid") s in let (serverid, s) := (r : list Z * _) in
  let! r := field_text (str "gameid") s in let (gameid, s) := (r : list Z * _) in
  let! r := field_or (str "idcardno") (trustee_idcardno pstu) s in let (idcardno, s) := (r : list Z * _) in
  let! r := GetFieldBinary_name (str "smallsource") 0 (me s) in
  let s := set_me r.2 s in
  let! source := match r.1.1 with Some x => atouint32 (c_string x ++ [0]) (s32 (slen (c_string x))) | None => Ret (smallsource pstu) end in
  Ret (mk_trustee_info id mgid mname malias sgid sname salias gameid serverid 1 idcardno (s32 source), s).

Definition query_record (pstu : STU_TRUSTEE_INFO) (seqid : Z) (s : MySql.state H R W) : outcome (Z * STU_TRUSTEE_INFO * MySql.state H R W) :=
  let! r := Query_chars (trustee_query seqid) s in
  let (thrown, s) := (r : option Z * _) in
  match thrown with
  | None => Ret (-1, pstu, s)
  | Some _ =>
      let! r := StoreResult s in
      let (thrown, s) := (r : option Z * _) in
      match thrown with
      | None => Ret (-1, pstu, s)
      | Some _ =>
          let! r := FetchRow s in
          let (fetched, s) := (r : option (option fields) * _) in
          match fetched with
          | None => Stuck
          | Some None => Ret (0, pstu, s)
          | Some (Some _) => let! r := trustee_row pstu s in Ret (1, r.1, r.2)
          end
      end
  end.

(** [None] is a null pointer. *)
Definition query_record_by_seqid (pstu : option STU_TRUSTEE_INFO) (seqid : Z) (m_pmysql : option (MySql.state H R W))
    : outcome (Z * option STU_TRUSTEE_INFO * option (MySql.state H R W)) :=
  match m_pmysql, pstu with
  | Some s, Some stu =>
      let! r := query_record stu seqid s in
      let '(n, stu, s) := (r : Z * STU_TRUSTEE_INFO * MySql.state H R W) in Ret (n, Some stu, Some s)
  | _, _ => Ret (-1, pstu, m_pmysql)
  end.

(** [databasepool]: the clients that are not in use, as one thread uses them, and a
    block with a [mysql_guard]: [None] when no client could be fetched. *)
Record databasepool : Type := mk_databasepool { m_queue_mysql : list (CMysql H R); pool_stat : statistic; pool_world : W }.

Definition fetch_mysql (p : databasepool) : option (CMysql H R) * databasepool :=
  match m_queue_mysql p with
  | [] => (None, p)
  | pmysql :: queue => (Some pmysql, mk_databasepool queue (pool_stat p) (pool_world p))
  end.
Definition restore_mysql (pmysql : CMysql H R) (p : databasepool) : databasepool :=
  mk_databasepool (m_queue_mysql p ++ [pmysql]) (pool_stat p) (pool_world p).

Definition with_mysql {A} (use : MySql.state H R W → outcome (A * MySql.state H R W)) (p : databasepool) : outcome (option A * databasepool) :=
  let (pmysql, p) := fetch_mysql p in
  match pmysql with
  | None => Ret (None, p)
  | Some c =>
      let! r := use (MySql.State c (pool_stat p) (pool_world p)) in
      Ret (Some r.1, restore_mysql (me r.2) (mk_databasepool (m_queue_mysql p) (stat r.2) (world r.2)))
  end.

(** The loop of [init_databasepool]; a client that could not connect is kept. *)
Fixpoint init_mysql (poolcount : nat) (a : connect_args) (p : databasepool) : outcome databasepool :=
  match poolcount with
  | O => Ret p
  | S n =>
      let! r := Connect_args a (MySql.State new_CMysql (pool_stat p) (pool_world p)) in
      let s := (r : Z * MySql.state H R W).2 in
      init_mysql n a (mk_databasepool (m_queue_mysql p ++ [me s]) (stat s) (world s))
  end.
Definition init_databasepool (config : list item) (p : databasepool) : outcome databasepool :=
  let! poolcount := getInt config (str "database_poll_count") 8 in
  let! a := mysql_config_loader config in
  init_mysql (Z.to_nat poolcount) a p.
End services.
Arguments databasepool H R W : clear implicits.

(** ** Specification *)

(** The texts of a row, and whether it has a null field. *)
Definition texts (row : fields) : list (list Z) := (λ x, c_string (default [] x)) <$> row.

(** The table from names to columns that a client makes. *)
Definition index_table (names : list (list Z)) : gmap (list Z) Z := foldl (λ m x, <[x.2 := Z.of_nat x.1]> m) ∅ (imap pair names).

Section rows.
Context {H R W : Type} `{MysqlApi H R W}.

Definition index_ok (names : list (list Z)) (c : CMysql H R) : Prop :=
  if m_bFieldIndexInitialized c then m_FieldIndex c = index_table names else m_FieldIndex c = ∅.

(** The client stands at a row. *)
Definition at_row (names : list (list Z)) (row : fields) (c : CMysql H R) : Prop :=
  ∃ r, m_result c = Some r ∧ mysql_fetch_fields r = names ∧ m_iField c = slen names ∧ m_row c = Some (Some row) ∧
    length row = length names ∧ length (mysql_fetch_lengths r) = length names ∧ index_ok names c.

Definition indexed (names : list (list Z)) (c : CMysql H R) : CMysql H R := set_index (index_table names) true c.

Lemma set_index_id (c : CMysql H R) m b : m_FieldIndex c = m → m_bFieldIndexInitialized c = b → set_index m b c = c.
Proof. by destruct c; cbn; intros -> ->. Qed.

Lemma index_of_at names row (c : CMysql H R) name i : at_row names row c → index_table names !! c_string name = Some i → MySql.index_of name c = (i, indexed names c).
Proof.
  intros (r & Er & En & Ei & _ & _ & _ & Hok) Hi. unfold MySql.index_of, InitFieldName, index_ok in *. rewrite Er.
  destruct (m_bFieldIndexInitialized c) eqn:Eb.
  - rewrite Hok, Hi. f_equal. symmetry. by apply set_index_id.
  - rewrite En, Ei, Nat2Z.id, take_ge by done. rewrite Hok. cbn [m_FieldIndex set_index]. fold (index_table names). by rewrite Hi.
Qed.

Lemma at_row_indexed names row (c : CMysql H R) : at_row names row c → at_row names row (indexed names c).
Proof. intros (r & ? & ? & ? & ? & ? & ? & _). by exists r. Qed.

Lemma field_at names row (c : CMysql H R) name i x : at_row names row c → index_table names !! c_string name = Some (Z.of_nat i) → row !! i = Some x →
  ∃ n, GetFieldBinary_name name 0 c = Ret (x, n, indexed names c).
Proof.
  intros Hr Hi Hx. unfold GetFieldBinary_name. rewrite (index_of_at _ _ _ _ _ Hr Hi). destruct (at_row_indexed _ _ _ Hr) as (r & Er & _ & Ei & Erow & Hl & Hln & _).
  pose proof (lookup_lt_Some _ _ _ Hx) as Hlt. unfold GetFieldBinary. rewrite (proj2 (Z.ltb_ge _ _)) by lia. rewrite Er.
  destruct (lookup_lt_is_Some_2 (mysql_fetch_lengths r) i) as [n En]; [lia|]. rewrite (aget_lookup _ _ n) by (rewrite ?Nat2Z.id; done || lia).
  cbn [mbind outcome_bind]. unfold row_at. rewrite Erow, (aget_lookup _ _ x) by (rewrite ?Nat2Z.id; done || lia). by exists (s32 n).
Qed.

Definition s_indexed (names : list (list Z)) (s : MySql.state H R W) : MySql.state H R W := set_me (indexed names (me s)) s.

Lemma s_indexed_idem names (s : MySql.state H R W) : s_indexed names (s_indexed names s) = s_indexed names s.
Proof. done. Qed.

Lemma field_text_at names row (s : MySql.state H R W) name i x : at_row names row (me s) → index_table names !! c_string name = Some (Z.of_nat i) → row !! i = Some (Some x) →
  field_text name s = Ret (c_string x, s_indexed names s).
Proof. intros Hr Hi Hx. unfold field_text. destruct (field_at _ _ _ _ _ _ Hr Hi Hx) as [n ->]. done. Qed.

Lemma field_or_at names row (s : MySql.state H R W) name old i x : at_row names row (me s) → index_table names !! c_string name = Some (Z.of_nat i) → row !! i = Some x →
  field_or name old s = Ret (match x with Some x => c_string x | None => old end, s_indexed names s).
Proof. intros Hr Hi Hx. unfold field_or. destruct (field_at _ _ _ _ _ _ Hr Hi Hx) as [n ->]. done. Qed.
End rows.

(** Read the next field of a row whose fields are known. *)
Ltac next_field Hr :=
  lazymatch type of Hr with at_row ?n ?row (me ?s) =>
    lazymatch goal with
    | |- context [field_text ?name s] =>
        let i := eval vm_compute in (Z.to_nat (default 0 (index_table n !! c_string name))) in
        erewrite (field_text_at n row s name i _ Hr); [|by vm_compute|reflexivity]
    | |- context [field_or ?name ?old s] =>
        let i := eval vm_compute in (Z.to_nat (default 0 (index_table n !! c_string name))) in
        erewrite (field_or_at n row s name old i _ Hr); [|by vm_compute|reflexivity]
    end;
    cbn [mbind outcome_bind]; apply at_row_indexed in Hr; change (at_row n row (me (s_indexed n s))) in Hr; rewrite ?s_indexed_idem in *
  end.

Section row_lemmas.
Context {H R W : Type} `{MysqlApi H R W}.

Lemma row_4spe_at m (s : MySql.state H R W) g se si u : at_row columns_4spe [Some g; Some se; Some si; Some u] (me s) →
  row_4spe m s = Ret (map_insert m (c_string g ++ c_string se ++ c_string si) (c_string u), s_indexed columns_4spe s).
Proof. intros Hr. unfold row_4spe. next_field Hr. next_field Hr. next_field Hr. next_field Hr. done. Qed.

Lemma row_gameinfo_at m (s : MySql.state H R W) g se si u pa : at_row columns_gameinfo [Some g; Some se; Some si; Some u; Some pa] (me s) →
  row_gameinfo m s = Ret (map_insert m (c_string g) (game_text (c_string se) (c_string si) (c_string u) (c_string pa)), s_indexed columns_gameinfo s).
Proof. intros Hr. unfold row_gameinfo. next_field Hr. next_field Hr. next_field Hr. next_field Hr. next_field Hr. done. Qed.
End row_lemmas.

Definition columns_trustee : list (list Z) :=
  [str "seqid"; str "mastergid"; str "mastername"; str "slavergid"; str "slavername"; str "slaveralias"; str "gameid"; str "serverid";
   str "masteralias"; str "idcardno"; str "smallsource"].

(** The record that a row is; [old] is what the null fields leave. *)
Definition record_of (n : Z) (row : fields) (old : STU_TRUSTEE_INFO) : STU_TRUSTEE_INFO :=
  match row with
  | [_; mg; mn; sg; sn; sa; g; se; ma; card; source] =>
      let text x := c_string (default [] x) in
      mk_trustee_info n (text mg) (text mn) (text ma) (text sg) (text sn) (text sa) (text g) (text se) 1
        (match card with Some x => c_string x | None => trustee_idcardno old end)
        (s32 (match source with Some x => match atouint32 (c_string x ++ [0]) (s32 (slen (c_string x))) with Ret n => n | _ => 0 end | None => smallsource old end))
  | _ => old
  end.

(** Only [smallsource] and [idcardno] are null. *)
Definition trustee_fields (row : fields) : Prop :=
  match row with
  | [Some _; Some _; Some _; Some _; Some _; Some _; Some _; Some _; Some _; _; _] => True
  | _ => False
  end.

Lemma trustee_row_at {H R W} `{MysqlApi H R W} pstu (s : MySql.state H R W) row : at_row columns_trustee row (me s) → trustee_fields row →
  ∃ n, trustee_row pstu s = Ret (record_of n row pstu, s_indexed columns_trustee s).
Proof.
  intros Hr Hf. destruct row as [|[id|] [|[mg|] [|[mn|] [|[sg|] [|[sn|] [|[sa|] [|[g|] [|[se|] [|[ma|] [|card [|source [|]]]]]]]]]]]]; try done.
  unfold trustee_row. next_field Hr. unfold atouint64_const. destruct (atou_total u64 (c_string id) (s32 (slen (c_string id)))) as [n En].
  exists n. rewrite En. cbn [mbind outcome_bind]. do 9 next_field Hr.
  lazymatch type of Hr with at_row ?n ?row (me ?s) => destruct (field_at n row (me s) (str "smallsource") 10 source Hr) as [k ->]; [by vm_compute|done|] end.
  cbn [mbind outcome_bind fst snd]. fold (s_indexed columns_trustee (s_indexed columns_trustee s)). rewrite s_indexed_idem.
  destruct source as [x|]; [destruct (atouint32_total (c_string x) (s32 (slen (c_string x)))) as [m Em]; cbn [record_of]; by rewrite Em|done].
Qed.

(** The index of a client is empty, or the one of its result. *)
Definition index_fresh {H R} (c : CMysql H R) : Prop := m_bFieldIndexInitialized c = false → m_FieldIndex c = ∅.

Section index.
Context {H R W : Type} `{MysqlApi H R W}.
Abbreviation keeps m := (mostly True m (λ r, index_fresh (me r.2))).

Lemma fresh_FreeResult (c : CMysql H R) : index_fresh c → index_fresh (FreeResult c).
Proof. unfold index_fresh, FreeResult. intros Hc. cbn. destruct (m_bFieldIndexInitialized c) eqn:E; cbn; [done|]. by rewrite E. Qed.

Lemma fresh_message t (s : MySql.state H R W) : index_fresh (me s) → mostly True (message t s) (λ s', index_fresh (me s')).
Proof. intros Hs. unfold message. by destruct (slen t <? 1024). Qed.

Lemma fresh_Close (s : MySql.state H R W) : index_fresh (me s) → mostly True (Close s) (λ s', index_fresh (me s')).
Proof. intros Hs. unfold Close. destruct (m_bConnected (me s)); [|done]. destruct (m_connection (me s)); [|done]. cbn. by apply (fresh_FreeResult (me s)). Qed.

Lemma fresh_Connect (s : MySql.state H R W) : index_fresh (me s) → keeps (Connect s).
Proof.
  intros Hs. unfold Connect. destruct (m_bConnected (me s)); [done|]. destruct (mysql_real_connect _ _ _) as [[b h] w]. destruct b; cbn [negb].
  - destruct (query_ h SET_NAMES w) as [h1 w1], (query_ h1 _ w1) as [h2 w2], (query_ h2 _ w2) as [h3 w3]. done.
  - destruct (a_pass _); [|done]. eapply mostly_bind; [by apply fresh_message|]. done.
Qed.

Lemma fresh_real_query t (s : MySql.state H R W) : index_fresh (me s) → keeps (real_query t s).
Proof. intros Hs. unfold real_query. destruct (m_connection (me s)) as [h|]; [|done]. by destruct (mysql_real_query h t (world s)) as [[r h'] w]. Qed.

Lemma fresh_prepare (s : MySql.state H R W) : index_fresh (me s) → mostly True (prepare s) (λ s', index_fresh (me s')).
Proof.
  intros Hs. unfold prepare. eapply mostly_bind; [by apply fresh_Connect|]. intros [r s1] Hs1. cbn [snd] in *. destruct (m_bConnected (me s1)); [|done].
  eapply mostly_bind; [by apply fresh_real_query|]. intros [r2 s2] Hs2. cbn [snd] in *. case_bool_decide; [|done].
  eapply mostly_bind; [by apply fresh_Close|]. intros s3 Hs3. eapply mostly_bind; [by apply fresh_Connect|]. done.
Qed.

Lemma fresh_failed sql (s : MySql.state H R W) : index_fresh (me s) → keeps (query_failed sql s).
Proof.
  intros Hs. unfold query_failed, error_text. destruct (m_connection (me s)); [|done]. cbn [mbind outcome_bind].
  eapply mostly_bind; [by apply fresh_message|]. intros s1 Hs1. eapply mostly_bind; [by apply fresh_Close|]. done.
Qed.

Lemma fresh_Query sql (s : MySql.state H R W) : index_fresh (me s) → keeps (Query sql s).
Proof.
  intros Hs. unfold Query. eapply mostly_bind; [by apply fresh_prepare|]. intros s1 Hs1. eapply mostly_bind; [by apply fresh_real_query|].
  intros [r s2] Hs2. cbn [snd] in *. case_bool_decide.
  - unfold errno. destruct (m_connection (me s2)); [|done]. cbn [mbind outcome_bind]. case_bool_decide; [|by apply fresh_failed].
    unfold query_again. eapply mostly_bind; [by apply fresh_Close|]. intros s3 Hs3. eapply mostly_bind; [by apply fresh_Connect|]. intros [r4 s4] Hs4. cbn [snd] in *.
    eapply (mostly_bind _ _ _ (λ s', index_fresh (me s'))).
    { destruct (m_bConnected (me s4)); [|done]. eapply mostly_bind; [by apply fresh_real_query|]. done. }
    intros s5 Hs5. eapply mostly_bind; [by apply fresh_real_query|]. intros [r6 s6] Hs6. cbn [snd] in *. case_bool_decide; [by apply fresh_failed|done].
  - eapply mostly_bind; [apply mostly_returns, record_query_spec|]. intros s3 E3. cbn. by rewrite E3.
Qed.

Lemma fresh_StoreResult (s : MySql.state H R W) : index_fresh (me s) → mostly True (StoreResult s) (λ r,
  (m_bFieldIndexInitialized (me r.2) = false ∧ m_FieldIndex (me r.2) = ∅)).
Proof.
  intros Hs. unfold StoreResult. cbn [me set_me]. destruct (m_connection (FreeResult (me s))) as [h|]; [|done].
  assert (m_bFieldIndexInitialized (FreeResult (me s)) = false ∧ m_FieldIndex (FreeResult (me s)) = ∅) as Hf.
  { unfold FreeResult, index_fresh in *. cbn. destruct (m_bFieldIndexInitialized (me s)) eqn:E; [done|]. split; [exact E|exact (Hs eq_refl)]. }
  destruct (mysql_store_result h (world (set_me _ s))) as [[[r|] h'] w]; [exact Hf|].
  eapply (mostly_bind _ _ _ (λ s', (m_bFieldIndexInitialized (me s') = false ∧ m_FieldIndex (me s') = ∅))); [|done]. unfold message. destruct (_ <? 1024); [exact Hf|done].
Qed.
End index.

(** ** Lemmas: reading a table *)
Lemma copy64_length s : slen (copy64 s) ≤ 64.
Proof. unfold copy64. rewrite length_take. lia. Qed.

Lemma both {A} P (m : outcome A) Q Q' : mostly P m Q → mostly True m Q' → mostly P m (λ x, Q x ∧ Q' x).
Proof. by destruct m. Qed.
Lemma both_returns {A} (m : outcome A) Q Q' : returns m Q → mostly True m Q' → returns m (λ x, Q x ∧ Q' x).
Proof. by destruct m. Qed.

Section load.
Context {H R W : Type} `{MysqlLaws H R W}.
Context (Hlengths : ∀ (r : R) row r', mysql_fetch_row r = (Some row, r') → length (mysql_fetch_lengths r') = length row).

Lemma Connect_args_spec a p st (w : W) : a_pass a = Some p →
  returns (Connect_args a (State new_CMysql st w)) (λ r, live (me r.2) ∧ index_fresh (me r.2)).
Proof.
  intros Ep. unfold Connect_args. rewrite Ep. cbn [fmap option_fmap option_map].
  match goal with |- context [set_me (set_args ?b _) _] => set (s := set_me (set_args b (me (State new_CMysql st w))) (State new_CMysql st w)) end.
  change (Close s) with (Ret s : outcome (MySql.state H R W)). cbn [mbind outcome_bind]. apply both_returns.
  - eapply returns_mono; [apply Connect_spec|by intros r [? _]]. split; [apply copy64_length..| |done]. exists (copy64 p). split; [done|apply copy64_length].
  - by apply fresh_Connect.
Qed.

Context {M : Type} (row : M → MySql.state H R W → outcome (M * MySql.state H R W)) (add : list (list Z) → M → M) (names : list (list Z)).
Context (Hrow : ∀ m (s : MySql.state H R W) l, at_row names (Some <$> l) (me s) → row m s = Ret (add (c_string <$> l) m, s_indexed names s)).

Lemma no_null l : None ∉ l → ∃ l', l = Some <$> l' ∧ texts l = c_string <$> l'.
Proof.
  induction l as [|[x|] l IH]; [by exists []| |].
  - intros [_ Hl]%not_elem_of_cons. destruct (IH Hl) as (l' & -> & E). exists (x :: l'). split; [done|]. unfold texts in *. cbn. by rewrite E.
  - intros Hn. destruct Hn. by left.
Qed.

Lemma table_step_eq m (s : MySql.state H R W) r x r' : m_result (me s) = Some r → mysql_fetch_row r = (x, r') →
  table_step row (m, s) = let s' := set_me (set_row r' x (me s)) s in
    match x with None => Ret (inr (m, s')) | Some _ => let! y := row m s' in Ret (inl y) end.
Proof. intros Er E. unfold table_step, FetchRow. rewrite Er. cbn [mbind outcome_bind]. rewrite Er, E. by destruct x. Qed.

Lemma table_loop rows m (s : MySql.state H R W) fuel : reading names rows (me s) → index_ok names (me s) → Forall (λ row, None ∉ row) rows → (length rows < fuel)%nat →
  returns (loop fuel (table_step row) (m, s)) (λ r, client_ok (me r.2) ∧ r.1 = foldl (λ m row, add (texts row) m) m rows).
Proof.
  revert m s fuel. induction rows as [|l rows IH]; intros m s fuel Hr Hi Hn Hf; (destruct fuel as [|fuel]; [lia|]);
    rewrite loop_S; pose proof Hr as ([Hc Hcon] & Ef & Hrows & r & Er & En & El); destruct (mysql_fetch_row r) as [x r'] eqn:E;
    rewrite (table_step_eq _ _ _ _ _ Er E); pose proof (fetch_law _ _ _ E) as (En' & Ex & El'); rewrite El in *; cbn [hd_error tail] in *; subst x.
  - cbn [mbind outcome_bind returns fst snd foldl]. split; [|done]. by apply (client_ok_args (me s)); [|apply Hc|].
  - apply Forall_cons in Hrows as [Hl Hrows]. apply Forall_cons in Hn as [Hn0 Hn]. destruct (no_null l Hn0) as (l' & -> & Et). set (s' := set_me _ s).
    assert (at_row names (Some <$> l') (me s')) as Hat.
    { exists r'. rewrite En', (Hlengths _ _ _ E). by split_and!. }
    cbv zeta. rewrite (Hrow _ _ _ Hat). cbn [mbind outcome_bind foldl]. rewrite Et. apply IH; [|done|done|cbn in Hf; lia].
    split; [split; [by apply (client_ok_args (me s)); [|apply Hc|]|done]|]. split; [done|]. split; [done|]. exists r'. by rewrite En'.
Qed.

(** The map that is read, or the map as it was, when the server cannot be asked. *)
Lemma load_table_spec a p sql clear m st (w : W) : a_pass a = Some p → slen sql ≤ 414 → (0 ∉ sql) →
  (∀ w', (answer w' sql).1 = names ∧ ¬ has_null (answer w' sql)) →
  returns (load_table Ret Close a (Ret sql) clear row m st w) (λ '(ok, m', _, _),
    ok = false ∧ m' = m ∨ ok = true ∧ ∃ w', m' = foldl (λ m row, add (texts row) m) (clear m) (answer w' sql).2).
Proof.
  intros Ep Hlen Hno Hans. unfold load_table.
  assert (∀ b (m' : M) (s : MySql.state H R W) (Q : bool * M * statistic * W → Prop), client_ok (me s) → (∀ st w, Q (b, m', st, w)) →
    returns (let! s := delete_CMysql s in Ret (b, m', stat s, world s)) Q) as Hquit.
  { intros b m' s Q Hc HQ. unfold delete_CMysql. run (Close_spec s Hc). intros s' _. apply HQ. }
  run (Connect_args_spec a p st w Ep). intros [r s1] [Hl1 Hf1]. cbn [snd] in *. case_bool_decide as Er; [apply Hquit; [apply Hl1|by left]|].
  cbn [mbind outcome_bind]. unfold Query_chars. rewrite (c_string_id sql) by done.
  pose proof (both _ _ _ _ (Query_spec sql s1 (proj1 Hl1)) (fresh_Query sql s1 Hf1)) as Hq.
  destruct (Query sql s1) as [[thrown s2]| |]; cbn [mostly] in Hq; [|lia|done]. cbn [mbind outcome_bind fst snd] in *.
  destruct Hq as ((Hl2 & Ht2) & Hf2). destruct Ht2 as [[-> _]|[-> Ha]]; [apply Hquit; [apply Hl2|by left]|].
  pose proof (both_returns _ _ _ (StoreResult_spec sql s2 Hl2 Ha) (fresh_StoreResult s2 Hf2)) as Hs.
  destruct (StoreResult s2) as [[thrown s3]| |]; [|done..]. cbn [mbind outcome_bind returns fst snd] in *. destruct Hs as ((Hl3 & Ht3) & Hb3 & Hi3).
  destruct Ht3 as [->|(-> & w3 & Hr3 & En3)]; [apply Hquit; [apply Hl3|by left]|]. rewrite En3. cbn [default].
  destruct (Hans w3) as [Hn3 Hnull]. rewrite Hn3 in Hr3.
  run (table_loop (answer w3 sql).2 (clear m) s3 _ Hr3); [by unfold index_ok; rewrite Hb3| |cbn; lia|].
  { apply Forall_forall. intros l Hl Hin. apply Hnull. by exists l. }
  intros [m' s4] [Hc4 E4]. cbn [fst snd] in *. run (Close_spec s4 Hc4). intros s5 (Hc5 & _ & _). apply Hquit; [done|]. intros st' w'. right. split; [done|].
  by exists w3.
Qed.
End load.

(** *** A query for one record *)
Definition client_ready {H R} (c : CMysql H R) : Prop := client_ok c ∧ index_fresh c.

Section record.
Context {H R W : Type} `{MysqlLaws H R W}.
Context (Hlengths : ∀ (r : R) row r', mysql_fetch_row r = (Some row, r') → length (mysql_fetch_lengths r') = length row).

(** The record is the first row that the server answers. *)
Lemma query_record_spec pstu seqid (s : MySql.state H R W) : client_ready (me s) →
  (∀ w, (answer w (trustee_query seqid)).1 = columns_trustee ∧ Forall trustee_fields (answer w (trustee_query seqid)).2) →
  returns (query_record pstu seqid s) (λ '(r, stu, s'), client_ready (me s') ∧
    (r = -1 ∨ r = 0 ∨ r = 1 ∧ ∃ w row rows n, (answer w (trustee_query seqid)).2 = row :: rows ∧ stu = record_of n row pstu)).
Proof.
  intros [Hc Hf] Hans. unfold query_record, Query_chars.
  assert (slen (c_string (trustee_query seqid)) ≤ 414) as Hlen.
  { pose proof (c_string_length (trustee_query seqid)). unfold trustee_query in *. destruct (print_dec_chars (s64 seqid)) as [_ Hd]. rewrite !length_app in *. revert H3. literals. cbn [length]. lia. }
  assert (0 ∉ trustee_query seqid) as Hnul.
  { unfold trustee_query. rewrite !not_elem_of_app. split_and!; [by apply (bool_decide_unpack _); vm_compute..| |by apply (bool_decide_unpack _); vm_compute]. by apply print_dec_not. }
  rewrite c_string_id in * by done.
  pose proof (both _ _ _ _ (Query_spec (trustee_query seqid) s Hc) (fresh_Query (trustee_query seqid) s Hf)) as Hq.
  destruct (Query _ s) as [[thrown s2]| |]; cbn [mostly] in Hq; [|lia|done]. cbn [mbind outcome_bind fst snd] in *.
  destruct Hq as ((Hl2 & Ht2) & Hf2). destruct Ht2 as [[-> _]|[-> Ha]]; [split; [split; [apply Hl2|done]|by left]|].
  pose proof (both_returns _ _ _ (StoreResult_spec (trustee_query seqid) s2 Hl2 Ha) (fresh_StoreResult s2 Hf2)) as Hs.
  destruct (StoreResult s2) as [[thrown s3]| |]; [|done..]. cbn [mbind outcome_bind returns fst snd] in *. destruct Hs as ((Hl3 & Ht3) & Hb3 & Hi3).
  destruct Ht3 as [->|(-> & w3 & Hr3 & En3)]; [split; [split; [apply Hl3|by intros _]|by left]|].
  destruct (Hans w3) as [Hn3 Hrows3]. rewrite Hn3 in Hr3. destruct Hr3 as ([Hc3 Hcon3] & Ei3 & Hrows & r & Er & En & El).
  unfold FetchRow. rewrite Er. destruct (mysql_fetch_row r) as [x r'] eqn:E. pose proof (fetch_law _ _ _ E) as (En' & Ex & El').
  set (s4 := set_me (set_row r' x (me s3)) s3). assert (client_ok (me s4)) as Hc4 by by apply (client_ok_args (me s3)); [|apply Hc3|].
  assert (index_fresh (me s4)) as Hf4 by (intros _; exact Hi3). cbn [mbind outcome_bind]. rewrite Er, E. fold s4.
  rewrite El in Ex. destruct (answer w3 (trustee_query seqid)).2 as [|row rows] eqn:Erows; cbn [hd_error] in Ex; subst x; cbn [mbind outcome_bind].
  { split; [done|]. right. by left. }
  apply Forall_cons in Hrows as [Hlrow _]. apply Forall_cons in Hrows3 as [Hrow _].
  assert (at_row columns_trustee row (me s4)) as Hat.
  { exists r'. rewrite En', (Hlengths _ _ _ E). split_and!; try done. unfold index_ok. cbn. by rewrite Hb3. }
  destruct (trustee_row_at pstu s4 row Hat Hrow) as [n ->]. cbn [mbind outcome_bind returns fst snd].
  split; [split; [by apply (client_ok_args (me s4)); [|apply Hc4|]|done]|]. right. right. split; [done|]. by exists w3, row, rows, n.
Qed.
End record.

(** ** The games *)

(** Texts that stand in JSON as they are, and without a closing brace. *)
Definition json_plain (t : list Z) : Prop := Forall (λ c, 32 ≤ c < 256 ∧ (c ∉ [34; 92; 125])) t.

(** The first row of a game: its server, [sid], URL and parameters. *)
Fixpoint first_game (gameid : list Z) (rows : list (list (list Z))) : option (list Z * list Z * list Z * list Z) :=
  match rows with
  | [] => None
  | [g; serverid; sid; loginurl; params] :: rows =>
      if bool_decide (g = gameid) then Some (serverid, sid, loginurl, params) else first_game gameid rows
  | _ :: rows => first_game gameid rows
  end.

Definition game_members (serverid sid loginurl : list Z) : list (list Z * list Z) :=
  [(str "serverid", serverid); (str "sid", sid); (str "loginurl", loginurl)].

Lemma json_plain_text t : json_plain t → is_text t ∧ string_text t = [34] ++ t ++ [34].
Proof.
  unfold string_text. intros Ht. split; [eapply Forall_impl; [exact Ht|]; unfold is_char; intros c [? _]; lia|]. do 2 f_equal.
  induction Ht as [|c t [Hc Hin] _ IH]; [done|]. cbn [map concat]. rewrite IH. unfold escape_char.
  assert (c ≠ 34 ∧ c ≠ 92) as [H34 H92] by (split; intros ->; apply Hin; set_solver).
  by rewrite (proj2 (Z.ltb_lt 31 c)), (bool_decide_eq_true_2 (c ≠ 34)), (bool_decide_eq_true_2 (c ≠ 92)) by (done || lia).
Qed.

Lemma game_text_eq serverid sid loginurl params : json_plain serverid → json_plain sid → json_plain loginurl →
  game_text serverid sid loginurl params = members_text (game_members serverid sid loginurl) ++ params.
Proof.
  intros H1%json_plain_text H2%json_plain_text H3%json_plain_text. unfold members_text, game_members. cbn [map fst snd].
  rewrite (proj2 H1), (proj2 H2), (proj2 H3). unfold game_text, compose_object. cbn [map concat join fst snd]. rewrite <-!app_assoc. by vm_compute.
Qed.

(** The text of a game is split behind the brace that ends it. *)
Lemma game_split_eq serverid sid loginurl params : json_plain serverid → json_plain sid → json_plain loginurl →
  slen (game_text serverid sid loginurl params) < 2 ^ 32 - 1 →
  game_split (game_text serverid sid loginurl params) = (members_text (game_members serverid sid loginurl), params).
Proof.
  intros H1 H2 H3. rewrite (game_text_eq _ _ _ _ H1 H2 H3).
  assert (∃ a, members_text (game_members serverid sid loginurl) = a ++ [125] ∧ (125 ∉ a)) as (a & -> & Ha).
  { pose proof (game_text_eq serverid sid loginurl [] H1 H2 H3) as E. rewrite app_nil_r in E. rewrite <-E. unfold game_text.
    eexists ([123; 34] ++ str "serverid" ++ [34; 58; 34] ++ serverid ++ [34; 44; 34] ++ str "sid" ++ [34; 58; 34] ++ sid ++ [34; 44; 34] ++
      str "loginurl" ++ [34; 58; 34] ++ loginurl ++ [34]). split; [by rewrite <-!app_assoc|].
    unfold json_plain in *. rewrite Forall_forall in H1, H2, H3. rewrite !elem_of_app.
    assert (∀ l : list Z, bool_decide (125 ∉ l) → (125 ∉ l)) as Hd by (intros l; apply bool_decide_unpack).
    intros Hin. repeat (destruct Hin as [Hin|Hin]; [first [by revert Hin; apply Hd; vm_compute|by apply H1 in Hin as [_ Hin]; apply Hin; set_solver|
      by apply H2 in Hin as [_ Hin]; apply Hin; set_solver|by apply H3 in Hin as [_ Hin]; apply Hin; set_solver]|]). by revert Hin; apply Hd; vm_compute. }
  intros Hl. rewrite !length_app in Hl. cbn [length] in Hl. unfold game_split. rewrite <-app_assoc. cbn [app].
  rewrite (find_char_app 125 _ 0 a params); [|lia|done|done].
  rewrite (u32_id (0 + slen a)), (u32_id (0 + slen a + 1)) by (unfold is_u32; lia). rewrite u64_id by (unfold is_u64; rewrite length_app; cbn [length]; lia). rewrite length_app. cbn [length].
  change (a ++ 125 :: params) with (a ++ [125] ++ params). rewrite app_assoc.
  rewrite take_app_length', drop_app_length' by (rewrite length_app; cbn [length]; lia). rewrite take_ge by lia. done.
Qed.

Lemma game_read pow g gameid serverid sid loginurl params :
  m_gameinfo g !! gameid = Some (game_text serverid sid loginurl params) → json_plain serverid → json_plain sid → json_plain loginurl →
  slen (game_text serverid sid loginurl params) < 2 ^ 32 - 1 → get_gameinfo pow gameid g = Ret (Some (serverid, sid, loginurl, params)).
Proof.
  intros Eg H1 H2 H3 Hl. unfold get_gameinfo. rewrite (first_value_unique _ _ (game_text serverid sid loginurl params)).
  2:{ eapply NoDup_Permutation_proper; [apply Permutation_map, items_perm|]. apply NoDup_fst_map_to_list. }
  2:{ by apply elem_of_items. }
  cbn [default from_option id]. rewrite bool_decide_eq_false_2 by done. rewrite game_split_eq by done.
  assert (Forall (λ x, is_text x.1 ∧ is_text x.2) (game_members serverid sid loginurl)) as Hm.
  { unfold game_members. repeat constructor; cbn [fst snd]; try (by apply json_plain_text); apply (bool_decide_unpack _); by vm_compute. }
  rewrite members_parsed by done. cbn [mbind outcome_bind].
  assert (∀ name v, is_text name → entry (game_members serverid sid loginurl) name = Some v →
    root_text (Some (cJSON_Object (map (λ x, (x.1, cJSON_String x.2)) (game_members serverid sid loginurl)))) name = Ret v) as Hroot.
  { intros name v Hn E. unfold root_text, cJSON_GetObjectItem. rewrite is_text_c_string, find_entry by done. by rewrite E. }
  by rewrite (Hroot (str "serverid") serverid), (Hroot (str "sid") sid), (Hroot (str "loginurl") loginurl) by (done || by apply (bool_decide_unpack _); vm_compute).
Qed.

(** What a row of the table adds to the map. *)
Definition add_game (row : list (list Z)) (m : text_map) : text_map :=
  match row with
  | [gameid; serverid; sid; loginurl; params] => map_insert m gameid (game_text serverid sid loginurl params)
  | _ => m
  end.

Definition text_of (x : list Z * list Z * list Z * list Z) : list Z := let '(serverid, sid, loginurl, params) := x in game_text serverid sid loginurl params.

(** A later row of the same game changes nothing. *)
Lemma add_games rows m gameid :
  foldl (λ m row, add_game (texts row) m) m rows !! gameid = match m !! gameid with Some v => Some v | None => text_of <$> first_game gameid (texts <$> rows) end.
Proof.
  revert m. induction rows as [|row rows IH]; intros m; [cbn [foldl fmap list_fmap first_game]; by destruct (m !! gameid)|]. cbn [foldl fmap list_fmap first_game]. rewrite IH.
  destruct (texts row) as [|g [|se [|si [|u [|pa [|]]]]]]; try done. cbn [add_game]. rewrite map_insert_lookup.
  destruct (m !! gameid); [done|]. case_decide as E; [by rewrite bool_decide_eq_true_2|by rewrite bool_decide_eq_false_2 by congruence].
Qed.

(** Rows that can be read: the texts stand in JSON as they are, and are not too long for
    a position of 32 bits. *)
Definition game_row (row : list (list Z)) : Prop :=
  match row with
  | [_; serverid; sid; loginurl; params] => json_plain serverid ∧ json_plain sid ∧ json_plain loginurl ∧ slen (game_text serverid sid loginurl params) < 2 ^ 32 - 1
  | _ => True
  end.

Lemma first_game_row gameid rows serverid sid loginurl params : Forall game_row rows → first_game gameid rows = Some (serverid, sid, loginurl, params) →
  json_plain serverid ∧ json_plain sid ∧ json_plain loginurl ∧ slen (game_text serverid sid loginurl params) < 2 ^ 32 - 1.
Proof.
  induction 1 as [|row rows Hr _ IH]; [done|]. cbn [first_game]. destruct row as [|g [|se [|si [|u [|pa [|]]]]]]; try exact IH.
  case_bool_decide; [|exact IH]. by intros [= <- <- <- <-].
Qed.

Lemma game_missing pow g gameid : m_gameinfo g !! gameid = None → get_gameinfo pow gameid g = Ret None.
Proof.
  intros Eg. unfold get_gameinfo. assert (first_value gameid (items (m_gameinfo g)) = None) as ->; [|done]. apply first_value_None.
  intros ([k v] & -> & Hin)%list_elem_of_fmap. apply elem_of_items in Hin. cbn in Eg. congruence.
Qed.

(** What is found in a map that the rows were read into. *)
Lemma games_found pow g rows gameid : m_gameinfo g = foldl (λ m row, add_game (texts row) m) ∅ rows → Forall game_row (texts <$> rows) →
  get_gameinfo pow gameid g = Ret (first_game gameid (texts <$> rows)).
Proof.
  intros Eg Hrows. pose proof (add_games rows ∅ gameid) as E. rewrite <-Eg, lookup_empty in E.
  destruct (first_game gameid (texts <$> rows)) as [[[[se si] u] pa]|] eqn:Ef; [|by apply game_missing].
  destruct (first_game_row _ _ _ _ _ _ Hrows Ef) as (? & ? & ? & ?). by apply game_read.
Qed.

Lemma gameinfo_row {H R W} `{MysqlApi H R W} m (s : MySql.state H R W) l : at_row columns_gameinfo (Some <$> l) (me s) →
  row_gameinfo m s = Ret (add_game (c_string <$> l) m, s_indexed columns_gameinfo s).
Proof.
  intros Hr. assert (length l = 5%nat) as Hl.
  { destruct Hr as (r & _ & _ & _ & _ & Hl & _). by rewrite length_fmap in Hl. }
  destruct l as [|g [|se [|si [|u [|pa [|]]]]]]; try done. by apply row_gameinfo_at.
Qed.

(** The query that [get_gameinfo_from_db] makes. *)
Definition gameinfo_query (config : list item) : list Z :=
  str "select " ++ join 44 columns_gameinfo ++ str " from  " ++ c_string (getString config (name_gameinfo (str "tname")) (str "mysql")) ++ str " ".

(** C16 (functional).  [get_gameinfo_from_db] either fails and leaves the games as they were
    or has read the table: from then on [get_gameinfo] answers for every game what its
    first row says, taken apart again from the text that was made of it, and -1 for a
    game without a row; the special games stay.  The columns of the table are those that
    are asked for, no field is null, and the server, [sid] and URL of a row have no
    quotation mark, backslash, control character or closing brace.  The name of the table
    is that short that the query fits the client's message. *)
Theorem games_loaded {H R W} `{MysqlLaws H R W} (pow : double → double → double) (config : list item) (g : gameinfo) (st : statistic) (w : W) (port : Z)
    (Hlengths : ∀ (r : R) row r', mysql_fetch_row r = (Some row, r') → length (mysql_fetch_lengths r') = length row)
    (Hport : getInt config (name_gameinfo (str "port")) 8888 = Ret port)
    (Htname : slen (gameinfo_query config) ≤ 414)
    (Htable : ∀ w, (answer w (gameinfo_query config)).1 = columns_gameinfo ∧ ¬ has_null (answer w (gameinfo_query config)) ∧
       Forall game_row (texts <$> (answer w (gameinfo_query config)).2)) :
  returns (get_gameinfo_from_db config g st w) (λ '(r, g', _, _),
    m_gameinfo_4spe g' = m_gameinfo_4spe g ∧
    (r = -1 ∧ m_gameinfo g' = m_gameinfo g ∨
     r = 0 ∧ ∃ w', ∀ gameid, get_gameinfo pow gameid g' = Ret (first_game gameid (texts <$> (answer w' (gameinfo_query config)).2)))).
Proof.
  unfold get_gameinfo_from_db, server_args. rewrite Hport. cbn [mbind outcome_bind].
  assert (query_text (join 44 columns_gameinfo) (getString config (name_gameinfo (str "tname")) (str "mysql")) = Ret (gameinfo_query config)) as ->.
  { unfold query_text. fold (gameinfo_query config). by rewrite (proj2 (Z.ltb_lt _ _)) by lia. }
  assert (0 ∉ gameinfo_query config) as Hnul.
  { unfold gameinfo_query. rewrite !not_elem_of_app. pose proof (c_string_no_nul (getString config (name_gameinfo (str "tname")) (str "mysql"))) as Hs.
    split_and!; [by apply (bool_decide_unpack _); vm_compute..|exact Hs|by apply (bool_decide_unpack _); vm_compute]. }
  assert (∀ w, (answer w (gameinfo_query config)).1 = columns_gameinfo ∧ ¬ has_null (answer w (gameinfo_query config))) as Ht by (intros w'; destruct (Htable w') as (? & ? & _); done).
  match goal with |- context [load_table Ret Close ?b] => set (a := b) end. assert (∃ p, a_pass a = Some p) as [p Ep] by by eexists.
  run (load_table_spec Hlengths row_gameinfo add_game columns_gameinfo gameinfo_row a p _ (λ _, ∅) (m_gameinfo g) st w Ep Htname Hnul Ht).
  intros [[[ok m] st'] w'] Hm. destruct Hm as [[-> ->]|(-> & w2 & ->)]; cbn [returns]; (split; [done|]); [by left|right].
  split; [done|]. exists w2. intros gameid. by apply games_found; [|apply Htable].
Qed.

(** ** Who may not play *)
Section prevent_lemmas.
Context {H R W : Type} `{MysqlLaws H R W}.

(** What is found for a game after an update that succeeded. *)
Definition prevented (info : STU_PREVENT_INFO) (gameid : list Z) (m : prevent_map) : list STU_PREVENT_INFO :=
  let old := query_prevent [] gameid m in
  if bool_decide (prevent_gameid info = []) then set_prevent info <$> old
  else if bool_decide (gameid = prevent_gameid info) then
    match old with [] => [mk_prevent_info None gameid (is_prevent info) (is_adult info)] | _ => set_prevent info <$> old end
  else old.

(** The map changes only when the database does, and then as the query says. *)
Lemma update_prevent_spec info (s : MySql.state H R W) m : client_ok (me s) → slen (update_prevent_text info) ≤ 414 →
  returns (update_prevent info (Some s) m) (λ '(r, p, m'), (∃ s', p = Some s' ∧ client_ok (me s')) ∧
    (r = -1 ∧ m' = m ∨ r = 0 ∧ ∀ gameid, gameid ≠ [] → query_prevent [] gameid m' = prevented info gameid m)).
Proof.
  intros Hc Hl. unfold update_prevent, print_1024. rewrite (proj2 (Z.ltb_lt _ _)) by lia. cbn [mbind outcome_bind]. unfold Query_chars.
  pose proof (c_string_length (update_prevent_text info)) as Hlc. pose proof (Query_spec (c_string (update_prevent_text info)) s Hc) as Hq.
  destruct (Query _ s) as [[thrown s']| |]; cbn [mostly fst snd] in Hq; [|lia|done]. destruct Hq as ([Hc' _] & Ht). cbn [mbind outcome_bind fst snd].
  destruct Ht as [[-> _]|[-> _]]; cbn [returns]; (split; [by exists s'|]); [by left|right]. split; [done|]. intros k Hk. unfold prevented, query_prevent.
  rewrite bool_decide_eq_false_2 by done. case_bool_decide as Eg.
  - rewrite lookup_fmap. by destruct (m !! k).
  - case_bool_decide as Ek.
    + subst k. destruct (m !! prevent_gameid info) as [old|] eqn:Eo; [by rewrite lookup_insert_eq|]. by rewrite map_insert_lookup, Eo, decide_True.
    + destruct (m !! prevent_gameid info) as [old|] eqn:Eo; [by rewrite lookup_insert_ne by done|]. rewrite map_insert_lookup, decide_False by done. by destruct (m !! k).
Qed.

Lemma remove_prevent_spec gameid (s : MySql.state H R W) m : client_ok (me s) → slen gameid ≤ 300 →
  returns (remove_prevent gameid (Some s) m) (λ '(r, p, m'), (∃ s', p = Some s' ∧ client_ok (me s')) ∧
    (r = -1 ∧ m' = m ∨ r = 0 ∧ ∀ k, k ≠ [] → query_prevent [] k m' = if bool_decide (gameid = [] ∨ k = gameid) then [] else query_prevent [] k m)).
Proof.
  intros Hc Hl. unfold remove_prevent. match goal with |- context [print_1024 ?t] => set (sql := t) end.
  assert (slen sql ≤ 414) as Hs.
  { subst sql. pose proof (c_string_length gameid). case_bool_decide; rewrite ?length_app; [by vm_compute|]. unfold m_tablename. literals. cbn [length]. lia. }
  unfold print_1024. rewrite (proj2 (Z.ltb_lt _ _)) by lia. cbn [mbind outcome_bind]. unfold Query_chars.
  pose proof (c_string_length sql) as Hlc. pose proof (Query_spec (c_string sql) s Hc) as Hq.
  destruct (Query _ s) as [[thrown s']| |]; cbn [mostly fst snd] in Hq; [|lia|done]. destruct Hq as ([Hc' _] & Ht). cbn [mbind outcome_bind fst snd].
  destruct Ht as [[-> _]|[-> _]]; cbn [returns]; (split; [by exists s'|]); [by left|right]. split; [done|]. intros k Hk. unfold query_prevent.
  rewrite (bool_decide_eq_false_2 (k = [])) by done. destruct (decide (gameid = [])) as [->|Hg].
  - by rewrite !bool_decide_eq_true_2 by (by left || done).
  - rewrite (bool_decide_eq_false_2 (gameid = [])) by done. destruct (decide (k = gameid)) as [->|Hkg].
    + by rewrite lookup_delete_eq, bool_decide_eq_true_2 by by right.
    + by rewrite lookup_delete_ne, (bool_decide_eq_false_2 (gameid = [] ∨ k = gameid)) by naive_solver.
Qed.
End prevent_lemmas.

(** ** The pool *)

(** A block with a guard gives back the client that it took. *)
Lemma with_mysql_size {H R W A} `{MysqlApi H R W} (use : MySql.state H R W → outcome (A * MySql.state H R W)) (p : databasepool H R W) r p' :
  with_mysql use p = Ret (r, p') → length (m_queue_mysql p') = length (m_queue_mysql p).
Proof.
  unfold with_mysql, fetch_mysql. destruct (m_queue_mysql p) as [|c queue] eqn:Eq; [by intros [= <- <-]; rewrite Eq|].
  destruct (use _) as [x| |]; [|done..]. cbn. intros [= <- <-]. cbn. rewrite length_app. cbn. lia.
Qed.

Lemma init_mysql_spec {H R W} `{MysqlLaws H R W} n a pass (p : databasepool H R W) : a_pass a = Some pass → Forall client_ready (m_queue_mysql p) →
  returns (init_mysql n a p) (λ p', Forall client_ready (m_queue_mysql p') ∧ length (m_queue_mysql p') = (length (m_queue_mysql p) + n)%nat).
Proof.
  intros Ea. revert p. induction n as [|n IH]; intros p Hp; cbn [init_mysql returns]; [split; [done|lia]|].
  run (Connect_args_spec a pass (pool_stat p) (pool_world p) Ea). intros [r s] [[Hc _] Hf]. cbn [snd] in *.
  eapply returns_mono; [apply IH; cbn [m_queue_mysql]; apply Forall_app; split; [done|by apply Forall_singleton]|]. intros p' [? E]. split; [done|]. rewrite E. cbn. rewrite length_app. cbn. lia.
Qed.

(** ** A server with two games *)
Record game_result : Type := mk_game_rows { g_names : list (list Z); g_rows : list fields; g_lengths : list Z }.

Definition game_table : list (list Z) * list fields :=
  (columns_gameinfo,
   [[Some (str "000075"); Some (str "1"); Some (str "2035813"); Some (str "http://s1.g/"); Some (str "a=1")];
    [Some (str "000053"); Some (str "9"); Some (str "7"); Some (str "http://s9.g/"); Some []];
    [Some (str "000075"); Some (str "2"); Some (str "0"); Some (str "http://s2.g/"); Some []]]).

#[export] Instance game_api : MysqlApi bool game_result bool := {
  mysql_init := false;
  mysql_real_connect h a w := (w, w, w);
  mysql_real_query h sql w := if h then (0, true, w) else (1, h, w);
  mysql_errno h := 2013;
  mysql_error h := [];
  mysql_close h w := w;
  mysql_affected_rows h := 0;
  mysql_insert_id h := 0;
  mysql_store_result h w := (if h then Some (mk_game_rows game_table.1 game_table.2 []) else None, h, w);
  mysql_num_fields r := slen (g_names r);
  mysql_num_rows r := slen (g_rows r);
  mysql_fetch_fields r := g_names r;
  mysql_fetch_row r := (head (g_rows r), mk_game_rows (g_names r) (tail (g_rows r)) (match g_rows r with row :: _ => (λ x, slen (default [] x)) <$> row | [] => [] end));
  mysql_fetch_lengths r := g_lengths r;
  mysql_escape_string s := s;
}.

#[export] Instance game_mysql : MysqlServer bool game_result bool := {
  answer w sql := game_table;
  pending h := if h then Some game_table else None;
  rows_left r := g_rows r;
}.

#[export] Instance game_mysql_laws : MysqlLaws bool game_result bool.
Proof.
  split.
  - done.
  - intros [] sql w h' w'; cbn; [|done]. by intros [= <- <-].
  - intros [] w r h' w'; cbn; [|done]. intros [= <- <- <-]. split; [done|]. split; [done|]. split; [done|]. by repeat constructor.
  - intros [names rows lengths] row r' [= <- <-]. by split_and!.
Qed.

Definition no_statistic : statistic := Statistic 0 0 0 ∅ ∅.

(** The game with two rows, one with a row, and one without. *)
Lemma games_loaded_witness :
  (get_gameinfo_from_db (H := bool) (R := game_result) [] (mk_gameinfo ∅ ∅) no_statistic true ≫= λ x,
     let '(r, g, _, _) := (x : Z * gameinfo * statistic * bool) in
     let! a := get_gameinfo demo_pow (str "000075") g in let! b := get_gameinfo demo_pow (str "000001") g in Ret (r, a, b)) =
    Ret (0, Some (str "1", str "2035813", str "http://s1.g/", str "a=1"), None) ∧
  returns (get_gameinfo_from_db (H := bool) (R := game_result) [] (mk_gameinfo ∅ ∅) no_statistic true) (λ '(r, g', _, _),
    m_gameinfo_4spe g' = ∅ ∧
    (r = -1 ∧ m_gameinfo g' = ∅ ∨
     r = 0 ∧ ∃ w', ∀ gameid, get_gameinfo demo_pow gameid g' = Ret (first_game gameid (texts <$> (answer (w' : bool) (gameinfo_query [])).2)))).
Proof.
  split; [by vm_compute|].
  refine (games_loaded (H := bool) demo_pow [] (mk_gameinfo ∅ ∅) no_statistic true 8888 _ _ _ _).
  - intros [names rows lengths] row r' E. cbn in E. destruct rows; [done|]. injection E as <- <-. cbn. by rewrite length_fmap.
  - done.
  - by vm_compute.
  - intros w. split; [done|]. split.
    + intros (row & Hrow & Hn). assert (Forall (λ row : fields, None ∉ row) game_table.2) as Hf by by apply (bool_decide_unpack _); vm_compute.
      rewrite Forall_forall in Hf. by apply (Hf row).
    + repeat constructor; cbn [game_row]; by apply (bool_decide_unpack _); vm_compute.
Defined.

(** A connection that fails leaves everything as it was. *)
Lemma games_not_loaded : (get_gameinfo_from_db (H := bool) (R := game_result) [] (mk_gameinfo ∅ ∅) no_statistic false ≫= λ x,
    let '(r, g, _, _) := (x : Z * gameinfo * statistic * bool) in Ret (r, m_gameinfo g)) = Ret (-1, ∅).
Proof. by vm_compute. Qed.

(** ** What goes wrong *)

(** The key of a special game is its parts one behind the other. *)
Lemma special_key_ambiguous a b c d g : get_gameinfo4special a (b ++ c) d g = get_gameinfo4special (a ++ b) c d g.
Proof. unfold get_gameinfo4special. by rewrite <-!app_assoc. Qed.

(** A URL with a closing brace ends the JSON text, and a quotation mark the string: then
    a null pointer is read. *)
Lemma brace_in_url : get_gameinfo demo_pow (str "1") (mk_gameinfo {[ str "1" := game_text (str "1") (str "2") (str "http://g/?{x}") [] ]} ∅) = Stuck ∧
  get_gameinfo demo_pow (str "1") (mk_gameinfo {[ str "1" := game_text (str "1") [34] (str "http://g/") [] ]} ∅) = Stuck.
Proof. split; by vm_compute. Qed.

(** The name of a game is put into the query as it is. *)
Lemma prevent_injection info : prevent_gameid info = str "x', 0, 0); drop table gamebox.prevent; -- " → is_prevent info = str "1" → is_adult info = str "1" →
  ∃ rest, update_prevent_text info = str "insert into gamebox.prevent (gameid,isprevent,isadult) values('x', 0, 0); drop table gamebox.prevent; -- " ++ rest.
Proof. intros E1 E2 E3. unfold update_prevent_text. rewrite E1, E2, E3. by eexists. Qed.
