(* ===== verification/TouchStore.v ===== *)
(** * The store of the touch server, made of its clients

    The filters and the handlers of the touch server are proved against the class
    [Store]; here the clients of [RedisSync.v] and of [MySql.v] implement it
    together, so that their theorems hold of the program with these clients. *)

From S2P Require Import Prelude Text Store Hiredis RedisSync MySql.

Section touch_store.
Context {C W : Type} `{SyncLaws C W} {L R M : Type} `{MysqlLaws L R M}.
(** Where the clients of Redis connect to: addresses of one server. *)
Context (ip : loc → list Z) (port timeout : loc → Z).

(** The clients of Redis by their address with the rest of the world, and those
    of MySQL. *)
Abbreviation touch_clients := ((loc → option C) * W * ((loc → CMysql L R) * statistic * M))%type.

Definition touch_store : Store touch_clients := sync_store ip port timeout pool_read pool_write pool_ok.

(** Whatever the clients do, reconnect, fail or close, the promises of the
    interface are kept. *)
Lemma touch_store_laws : StoreLaws touch_clients (H := touch_store).
Proof. apply sync_store_laws; [apply pool_read_ok|apply pool_write_ok]. Qed.

(** At the start no client is connected. *)
Lemma touch_store_start (a : loc → connect_args) (st : statistic) (w : W) (w' : M) :
  (∀ c, slen (a_host (a c)) ≤ 64 ∧ slen (a_user (a c)) ≤ 64 ∧ slen (a_db (a c)) ≤ 64 ∧ ∃ p, a_pass (a c) = Some p ∧ slen p ≤ 64) →
  store_ok (Store := touch_store) (λ _, None, w, (λ c, set_args (a c) new_CMysql, st, w')).
Proof. intros Ha. split; [done|]. intros c. destruct (Ha c) as (? & ? & ? & ?). by split. Qed.
End touch_store.
