(* ===== verification/Detacher.v ===== *)
(** * The operations of the touch server's threads, and its pools of clients
    ([xlgame_touch_server/src/rwdetach/RW_detacher.cpp], [redis/redis_pool.cpp],
    [mysql/mysql_pool.cpp])

    The tables of the filters and the tasks are declared here, because the type of
    operations mentions them; they belong to [FilterConfig.v] and
    [TouchServer.v].  Logging is left out, and with it the delay that
    [fetch_single] measures. *)

From Stdlib Require Import String.
From S2P Require Import Prelude Text Config BlockQueue HttpServer Store Program.

(** ** Definitions: data *)

(** [restrict_cond_config] and [unrestrict_cond_config] have the same fields. *)
Record cond_config : Type := CondConfig {
  m_uniq_tag : list Z;
  m_control_identity : list Z;
  m_estimated_value : list Z;
}.
Record fixed_content_response_config : Type := FixedConfig {
  fixed_uniq_tag : list Z;
  m_type : list Z;
  fixed_estimated_value : list Z;
}.
Record business_config : Type := BusinessConfig {
  m_configid : list Z;
  m_valid_start_unixtime : list Z;
  m_regular_conf : list Z;
  m_unregular_conf : list Z;
  m_regular_rtn_content_conf : list Z;
  m_unregular_rtn_content_conf : list Z;
  m_task_conf : list Z;
  m_volumn : list Z;
}.

(** The maps of [filter_config]; [None] is a null [shared_ptr]. *)
Record configs : Type := Configs {
  m_fixed_content_config : gmap (list Z) fixed_content_response_config;
  m_restrict_cond_config : gmap (list Z) cond_config;
  m_business_config : gmap (list Z) (option business_config);
  m_unrestrict_cond_config : gmap (list Z) cond_config;
}.

(** [STU_HTTP_RTN] *)
Record http_rtn : Type := HttpRtn { rtn_clientfd : Z; rtn_unify_tag : Z; rtn_str_send : list Z }.

Inductive task : Type :=
  | Process_touchBoxAction_task (request : http_request)
  | Process_flushFilterConfig_task (request : http_request).

(** ** Definitions: operations *)
Inductive side : Type := Reader | Writer.
#[export] Instance side_eq_dec : EqDecision side.
Proof. solve_decision. Defined.

(** [BusinessEmpty] is [m_business_config.empty()]; [IndexBusiness] is [m_business_config[key]], which inserts a null pointer
    under a key that is not there. *)
Inductive op : Type → Type :=
  | DequeueRedis (s : side) : op (Z * option loc)
  | RebackRedis (s : side) (c : loc) : op unit
  | RedisDo (s : side) (c : loc) {A : Type} (q : redis_op A) : op A
  | DequeueMysql (s : side) : op (Z * option loc)
  | RebackMysql (s : side) (c : loc) : op unit
  | MysqlRead (c : loc) (sql : list Z) : op (option (list row))
  | MysqlWrite (c : loc) (sql : list Z) : op bool
  | RdLock : op unit
  | WrLock : op unit
  | Unlock : op unit
  | ReadConfigs : op configs
  | WriteConfigs (c : configs) : op unit
  | BusinessEmpty : op bool
  | IndexBusiness (key : list Z) : op (option business_config)
  | Time : op Z
  | Millseconds : op Z
  | TakeRequest : op (Z * option http_request)
  | CommitTask (t : task) : op unit
  | TakeTask : op (Z * option task)
  | AddResponse (r : http_rtn) : op unit
  | TakeResponse : op (Z * option http_rtn)
  | HttpSend (fd tag : Z) (data : list Z) : op unit
  | HttpClose (fd tag : Z) : op unit.

(** ** Definitions: [fetch_single] of the two kinds of pools *)
Fixpoint fetch_attempts (dequeue : op (Z * option loc)) (n : nat) : prog op (option loc) :=
  match n with
  | O => Done None
  | S n =>
      do! r := act dequeue in
      let (result, pclient) := (r : Z * option loc) in
      if bool_decide (result ≠ 1) then fetch_attempts dequeue n else Done pclient
  end.
Definition fetch_redis (s : side) : prog op (option loc) := fetch_attempts (DequeueRedis s) 3.
Definition fetch_mysql (s : side) : prog op (option loc) := fetch_attempts (DequeueMysql s) 3.

(** ** Definitions: [RW_detacher] *)

(** One operation of Redis with a client of the pool; [failed] without one. *)
Definition with_redis {A} (s : side) (q : redis_op A) (failed : A) : prog op A :=
  do! pclient := fetch_redis s in
  match pclient with
  | None => Done failed
  | Some pclient =>
      do! rt := act (RedisDo s pclient q) in
      do! _ := act (RebackRedis s pclient) in
      Done rt
  end.

Definition do_redis_hget (key field value : list Z) : prog op (Z * list Z) := with_redis Reader (Hget key field value) (-1, value).
Definition do_redis_hgetall (key : list Z) (out : list (list Z * list Z)) : prog op (Z * list (list Z * list Z)) :=
  with_redis Reader (Hgetall key out) (-1, out).
Definition do_redis_hset (key field value : list Z) : prog op Z := with_redis Writer (Hset key field value) (-1).
Definition do_redis_hdel (key field : list Z) : prog op Z := with_redis Writer (Hdel key field) (-1).
Definition do_redis_set (key value : list Z) : prog op Z := with_redis Writer (SetText key value) (-1).
Definition do_redis_expire (key : list Z) (secs : Z) : prog op Z := with_redis Writer (Expire key secs) (-1).
Definition do_redis_setex (key value : list Z) (secs : Z) : prog op Z := with_redis Writer (Setex key value secs) (-1).
Definition do_redis_get (key value : list Z) : prog op (Z * list Z) := with_redis Reader (GetText key value) (-1, value).
Definition do_redis_del (key : list Z) : prog op Z := with_redis Writer (Del key) (-1).
Definition do_redis_incrby (key value : list Z) : prog op Z := with_redis Writer (Incrby key value) (-1).
Definition do_redis_sadd (key value : list Z) : prog op Z := with_redis Writer (Sadd key value) (-1).
Definition do_redis_sismember (key value : list Z) : prog op Z := with_redis Reader (Sismember key value) (-1).

(** A query that throws leaves without giving the client back. *)
Definition do_mysql_opt_write (sql : list Z) : prog op Z :=
  do! pclient := fetch_mysql Writer in
  match pclient with
  | None => Done (-1)
  | Some pclient =>
      do! done := act (MysqlWrite pclient sql) in
      if done : bool then
        do! _ := act (RebackMysql Writer pclient) in
        Done 0
      else Done (-1)
  end.

(** The result and [reply]. *)
Definition do_mysql_opt_read (sql : list Z) (reply : list row) : prog op (Z * list row) :=
  do! pclient := fetch_mysql Reader in
  match pclient with
  | None => Done (-1, reply)
  | Some pclient =>
      do! rows := act (MysqlRead pclient sql) in
      match rows : option (list row) with
      | None => Done (-1, reply)
      | Some rows =>
          do! _ := act (RebackMysql Reader pclient) in
          Done (0, reply ++ rows)
      end
  end.

(** What [init_RW_datacher_for_redis] and [init_RW_datacher_for_mysql] read for one
    pool: the size, the address, the port and the two numbers of seconds; and the
    size, the address, the port, the user, the password and the database. *)
Definition redis_pool_config (config : list item) (prefix : list Z) : outcome (Z * list Z * Z * Z * Z) :=
  let! size := getInt config (prefix ++ str "pool_size") 10 in
  let host := getString config (prefix ++ str "host") (str "127.0.0.1") in
  let! port := getInt config (prefix ++ str "port") 6379 in
  let! timeout := getInt config (prefix ++ str "timeout") 10 in
  let! expire := getInt config (prefix ++ str "expire") 20000 in
  Ret (size, host, port mod 2 ^ 16, timeout, expire).
Definition mysql_pool_config (config : list item) (prefix : list Z) : outcome (Z * list Z * Z * list Z * list Z * list Z) :=
  let! size := getInt config (prefix ++ str "pool_size") 10 in
  let host := getString config (prefix ++ str "host") (str "127.0.0.1") in
  let user := getString config (prefix ++ str "user") (str "root") in
  let passwd := getString config (prefix ++ str "passwd") (str "111") in
  let! port := getInt config (prefix ++ str "port") 3306 in
  let dbname := getString config (prefix ++ str "dbname") (str "xxx") in
  Ret (size, host, port mod 2 ^ 16, user, passwd, dbname).

(** [init_pool] makes and connects the clients one by one; it stops at the first
    that cannot connect.  [connect] answers whether the [i]-th could. *)
Definition init_pool (pool_size : Z) (connect : Z → bool) (name : Z → loc) (q : block_queue loc) : Z * block_queue loc :=
  foldl (λ r i, match r with
    | (0, q) => if connect i then (0, add_queue q (name i)) else (-1, q)
    | _ => r
    end) (0, q) (seqZ 0 pool_size).

Definition RW_DETACHER_ALL : Z := 1.
Definition RW_DETACHER_ONLY_MYSQL : Z := 3.
Definition RW_DETACHER_ONLY_REDIS : Z := 2.

(** From what the two halves of the initialisation answer. *)
Definition init_RW_detacher (inittype mysql redis : Z) : Z :=
  if bool_decide (inittype = RW_DETACHER_ALL) then
    if bool_decide (mysql ≠ 0) then -1 else if bool_decide (redis ≠ 0) then -1 else 0
  else if bool_decide (inittype = RW_DETACHER_ONLY_MYSQL) then if bool_decide (mysql ≠ 0) then -1 else 0
  else if bool_decide (inittype = RW_DETACHER_ONLY_REDIS) then if bool_decide (redis ≠ 0) then -1 else 0
  else -1.
