(* ===== verification/FilterConfig.v ===== *)
(** * The tables of the filters
    ([xlgame_touch_server/src/filters/filter_config.cpp])

    [filter_config] keeps four tables behind one read-write lock.  Its methods are
    programs over the operations of [Detacher.v]: the lock, the tables, and Redis
    and MySQL, which some of them call while they hold the lock. *)

From Stdlib Require Import String.
From S2P Require Import Prelude Text Utility MyCommon Config Store Program Detacher.

(** ** Definitions *)
Definition REDIS_HEAD_FOR_BUSINESS : list Z := str "10001".
Definition REDIS_HEAD_FOR_UNRESTRICT_COND : list Z := str "10002".

(** The keys of a condition that is kept in Redis, and of the counter of a
    business. *)
Definition cond_key (c : cond_config) : list Z := REDIS_HEAD_FOR_UNRESTRICT_COND ++ m_uniq_tag c ++ m_control_identity c.
Definition business_key (b : business_config) : list Z := REDIS_HEAD_FOR_BUSINESS ++ m_valid_start_unixtime b ++ m_configid b.

(** The index and [value]. *)
Definition do_find_in_fixed_content_config (key value : list Z) : prog op (list Z * list Z) :=
  do! _ := act RdLock in
  do! c := act ReadConfigs in
  let r :=
    match m_fixed_content_config c !! key with
    | Some tmp => (m_type tmp, fixed_estimated_value tmp)
    | None => ([], value)
    end in
  do! _ := act Unlock in
  Done r.

(** The tag of the first condition with the key and the value. *)
Fixpoint find_restrict (key value : list Z) (l : list (list Z * cond_config)) : list Z :=
  match l with
  | [] => []
  | (_, tmp) :: l =>
      if bool_decide (value = m_estimated_value tmp) && bool_decide (key = m_control_identity tmp) then m_uniq_tag tmp
      else find_restrict key value l
  end.

Definition do_find_in_restrict_cond_config (key value : list Z) : prog op (list Z) :=
  do! _ := act RdLock in
  do! c := act ReadConfigs in
  let r := find_restrict key value (items (m_restrict_cond_config c)) in
  do! _ := act Unlock in
  Done r.

(** The result of the calls is not looked at. *)
Fixpoint flush_ttl (l : list (list Z * cond_config)) : prog op unit :=
  match l with
  | [] => Done tt
  | (_, config) :: l =>
      let key := REDIS_HEAD_FOR_BUSINESS ++ m_uniq_tag config ++ m_control_identity config in
      do! _ := do_redis_expire key 86400 in
      flush_ttl l
  end.

Definition do_flush_redis_ttl_in_unrestrict_cond_config : prog op unit :=
  do! _ := act RdLock in
  do! c := act ReadConfigs in
  do! _ := flush_ttl (items (m_unrestrict_cond_config c)) in
  act Unlock.

Fixpoint find_unrestrict (key value : list Z) (l : list (list Z * cond_config)) : prog op (list Z) :=
  match l with
  | [] => do! _ := act Unlock in Done []
  | (_, tmp) :: l =>
      if bool_decide (key = m_control_identity tmp) then
        do! result := do_redis_sismember (cond_key tmp) value in
        if bool_decide (result = -1) then do! _ := act Unlock in Done []
        else if bool_decide (result = 1) then do! _ := act Unlock in Done (m_uniq_tag tmp)
        else find_unrestrict key value l
      else find_unrestrict key value l
  end.

Definition do_find_in_unrestrict_cond_config (key value : list Z) : prog op (list Z) :=
  do! _ := act RdLock in
  do! c := act ReadConfigs in
  find_unrestrict key value (items (m_unrestrict_cond_config c)).

Section filter_config.
Context `{Boost}.
(** The statics, from the configuration. *)
Context (m_table_restrict_cond_config m_table_unrestrict_cond_config : list Z).
Context (m_table_business_config m_table_fixed_content_response_config : list Z).
Context (m_time_stamp : Z).

(** [time_t] is 64 bits wide and signed. *)
Definition out_of_time (now : Z) (_valid_start_unixtime : list Z) : outcome bool :=
  let! t := atouint64_str _valid_start_unixtime in
  let time_limit := s64 t in
  if bool_decide (_valid_start_unixtime = []) then Ret false
  else if bool_decide (time_limit > now) then Ret true
  else
    let! limit := in_s64 (time_limit + m_time_stamp) in
    Ret (bool_decide (limit < now)).

Fixpoint time_limit_loop (now : Z) (l : list (list Z * option business_config)) (vconfigid : list (list Z)) : outcome (list (list Z)) :=
  match l with
  | [] => Ret vconfigid
  | (_, None) :: _ => Stuck
  | (_, Some bconfig) :: l =>
      let! out := out_of_time now (m_valid_start_unixtime bconfig) in
      time_limit_loop now l (if (out : bool) then vconfigid else vconfigid ++ [m_configid bconfig])
  end.

(** The last test reads the table after the lock has been given back. *)
Definition do_filt_time_limit_in_business_config (vconfigid : list (list Z)) : prog op (Z * list (list Z)) :=
  do! now := act Time in
  do! _ := act RdLock in
  do! c := act ReadConfigs in
  do! vconfigid := local (time_limit_loop now (items (m_business_config c)) vconfigid) in
  do! _ := act Unlock in
  if bool_decide (vconfigid = []) then
    do! empty := act BusinessEmpty in
    Done (if (empty : bool) then 0 else -1, vconfigid)
  else Done (0, vconfigid).

Definition atoken : list Z := str "|".

(** Some part of [conf] is not in [set]; nothing is when the request has none. *)
Definition unmet (conf conf_value : list Z) : bool :=
  if negb (bool_decide (conf = [])) && negb (bool_decide (conf_value = [])) then
    existsb (λ rindex, negb (bool_decide (rindex = [])) && negb (bool_decide (rindex ∈ stringsplit conf_value atoken)))
      (stringsplit conf atoken)
  else false.

Fixpoint input_limit_loop (c : configs) (regular_conf_value unregular_conf_value : list Z) (vconfigid new_vconfigid : list (list Z))
    : outcome (list (list Z)) :=
  match vconfigid with
  | [] => Ret new_vconfigid
  | id :: vconfigid =>
      match m_business_config c !! id with
      | None => input_limit_loop c regular_conf_value unregular_conf_value vconfigid new_vconfigid
      | Some None => Stuck
      | Some (Some bconfig) =>
          let flag := unmet (m_regular_conf bconfig) regular_conf_value || unmet (m_unregular_conf bconfig) unregular_conf_value in
          input_limit_loop c regular_conf_value unregular_conf_value vconfigid (if flag then new_vconfigid else new_vconfigid ++ [id])
      end
  end.

(** The result, the map of the request's parameters and the configurations left. *)
Definition do_filt_input_limit (response_map_param : gmap (list Z) (list Z)) (vconfigid : list (list Z))
    : prog op (Z * gmap (list Z) (list Z) * list (list Z)) :=
  let regular_conf_value := get_value (str "regular_conf") response_map_param in
  let unregular_conf_value := get_value (str "unregular_conf") response_map_param in
  do! _ := act RdLock in
  do! c := act ReadConfigs in
  do! new_vconfigid := local (input_limit_loop c regular_conf_value unregular_conf_value vconfigid []) in
  do! _ := act Unlock in
  if bool_decide (new_vconfigid = []) then Done (-1, ∅, vconfigid) else Done (0, ∅, new_vconfigid).

(** A request is granted a configuration. *)
Definition granted_params (bconfig : business_config) (response_map_param : gmap (list Z) (list Z)) : gmap (list Z) (list Z) :=
  let m := map_insert response_map_param (str "reglular_rtn_content_conf") (m_regular_rtn_content_conf bconfig) in
  let m := map_insert m (str "unregular_rtn_content_conf") (m_unregular_rtn_content_conf bconfig) in
  map_insert m (str "task_conf") (m_task_conf bconfig).

Fixpoint do_filt_output_limit (response_map_param : gmap (list Z) (list Z)) (vconfigid : list (list Z))
    : prog op (Z * gmap (list Z) (list Z)) :=
  match vconfigid with
  | [] => Done (-1, response_map_param)
  | id :: vconfigid =>
      do! _ := act RdLock in
      do! bconfig := act (IndexBusiness id) in
      do! _ := act Unlock in
      match bconfig : option business_config with
      | None => do_filt_output_limit response_map_param vconfigid
      | Some bconfig =>
          do! volumn := local (atouint32_str (m_volumn bconfig)) in
          let limit := s32 volumn in
          do! result := do_redis_incrby (business_key bconfig) (str "1") in
          if bool_decide (result = -1) then Done (-1, response_map_param)
          else if bool_decide (limit < result) then do_filt_output_limit response_map_param vconfigid
          else Done (0, granted_params bconfig response_map_param)
      end
  end.

(** *** [do_update_configs] *)
Definition update_sql_1 : list Z := str "select uniq_tag,control_identity,estimated_value from " ++ m_table_restrict_cond_config.
Definition update_sql_2 : list Z := str "select uniq_tag,type,estimated_value from " ++ m_table_fixed_content_response_config.
Definition update_sql_3 : list Z :=
  str "select configid,UNIX_TIMESTAMP(valid_start_unixtime),regular_conf,unregular_conf, volumn, regular_rtn_content_conf, unregular_rtn_content_conf, task_conf from "
  ++ m_table_business_config.
Definition update_sql_4 : list Z := str "select uniq_tag,control_identity,estimated_value from " ++ m_table_unrestrict_cond_config.
Definition select_sql (estimated_value : list Z) : list Z :=
  str "select data from business_uid_list where bizid='" ++ estimated_value ++ str "'".

(** [operator[]] on a row. *)
Definition column (r : row) (name : list Z) : list Z := default [] (r !! name).

Definition cond_of (r : row) : cond_config :=
  CondConfig (column r (str "uniq_tag")) (column r (str "control_identity")) (column r (str "estimated_value")).
Definition fixed_of (r : row) : fixed_content_response_config :=
  FixedConfig (column r (str "uniq_tag")) (column r (str "type")) (column r (str "estimated_value")).
Definition business_of (r : row) : business_config :=
  BusinessConfig (column r (str "configid")) (column r (str "UNIX_TIMESTAMP(valid_start_unixtime)")) (column r (str "regular_conf"))
    (column r (str "unregular_conf")) (column r (str "regular_rtn_content_conf")) (column r (str "unregular_rtn_content_conf"))
    (column r (str "task_conf")) (column r (str "volumn")).

(** The members of one set are put into Redis. *)
Fixpoint add_members (key : list Z) (reply_select : list row) : prog op Z :=
  match reply_select with
  | [] => Done 0
  | r :: reply_select =>
      do! result := do_redis_sadd key (column r (str "data")) in
      if bool_decide (result = -1) then Done (-1) else add_members key reply_select
  end.

Fixpoint update_redis (reply_4 : list row) : prog op Z :=
  match reply_4 with
  | [] => Done 0
  | r :: reply_4 =>
      let key := cond_key (cond_of r) in
      do! x := do_mysql_opt_read (select_sql (m_estimated_value (cond_of r))) [] in
      let (result, reply_select) := (x : Z * list row) in
      if bool_decide (result = -1) then Done (-1)
      else if bool_decide (reply_select = []) then update_redis reply_4
      else
        do! result := add_members key reply_select in
        if bool_decide (result = -1) then Done (-1)
        else
          do! result := do_redis_expire key 86400 in
          if bool_decide (result = -1) then Done (-1) else update_redis reply_4
  end.

(** The counters of the old configurations are deleted; whether all were. *)
Fixpoint delete_counters (l : list (list Z * option business_config)) : prog op bool :=
  match l with
  | [] => Done true
  | (_, None) :: _ => Crash
  | (_, Some bconfig) :: l =>
      do! result := do_redis_del (business_key bconfig) in
      if bool_decide (result = -1) then Done false else delete_counters l
  end.

(** The loop over the fourth reply takes its rows from the first. *)
Definition unrestrict_configs (reply_4 reply_1 : list row) : outcome (gmap (list Z) cond_config) :=
  for_range 0 (slen reply_4) (λ i m,
    let! r := aget reply_1 i in
    Ret (map_insert m (m_uniq_tag (cond_of r)) (cond_of r))) ∅.
Definition restrict_configs (reply_1 : list row) : gmap (list Z) cond_config :=
  foldl (λ m r, map_insert m (m_uniq_tag (cond_of r)) (cond_of r)) ∅ reply_1.
Definition fixed_configs (reply_2 : list row) : gmap (list Z) fixed_content_response_config :=
  foldl (λ m r, map_insert m (fixed_uniq_tag (fixed_of r)) (fixed_of r)) ∅ reply_2.
Definition business_configs (reply_3 : list row) : gmap (list Z) (option business_config) :=
  foldl (λ m r, map_insert m (m_configid (business_of r)) (Some (business_of r))) ∅ reply_3.

(** The region behind the write lock. *)
Definition replace_configs (reply_1 reply_2 reply_3 reply_4 : list row) : prog op Z :=
  do! _ := act WrLock in
  do! c := act ReadConfigs in
  do! _ := act (WriteConfigs (Configs ∅ ∅ (m_business_config c) ∅)) in
  do! deleted := delete_counters (items (m_business_config c)) in
  if deleted : bool then
    do! unrestrict := local (unrestrict_configs reply_4 reply_1) in
    do! _ := act (WriteConfigs (Configs (fixed_configs reply_2) (restrict_configs reply_1) (business_configs reply_3) unrestrict)) in
    do! _ := act Unlock in
    Done 0
  else
    do! _ := act Unlock in
    Done (-1).

Definition do_update_configs : prog op Z :=
  do! x := do_mysql_opt_read update_sql_1 [] in
  let (result, reply_1) := (x : Z * list row) in
  if bool_decide (result = -1) then Done (-1) else
  do! x := do_mysql_opt_read update_sql_2 [] in
  let (result, reply_2) := (x : Z * list row) in
  if bool_decide (result = -1) then Done (-1) else
  do! x := do_mysql_opt_read update_sql_3 [] in
  let (result, reply_3) := (x : Z * list row) in
  if bool_decide (result = -1) then Done (-1) else
  do! x := do_mysql_opt_read update_sql_4 [] in
  let (result, reply_4) := (x : Z * list row) in
  if bool_decide (result = -1) then Done (-1) else
  do! result := update_redis reply_4 in
  if bool_decide (result = -1) then Done (-1)
  else replace_configs reply_1 reply_2 reply_3 reply_4.
End filter_config.

(** The names of the tables of the two kinds of conditions, of the business and of
    the contents, and the length of the window. *)
Definition INIT_FILTER_CONFIG (config : list item) : outcome (list Z * list Z * list Z * list Z * Z) :=
  let m_table_business_config := getString config (str "table_business_config") (str " ") in
  let m_table_fixed_content_response_config := getString config (str "table_fixed_content_response_config") (str " ") in
  let m_table_restrict_cond_config := getString config (str "table_restrict_cond_config") (str " ") in
  let m_table_unrestrict_cond_config := getString config (str "table_unrestrict_cond_config") (str " ") in
  let! m_time_stamp := getInt config (str "time_stamp") 600 in
  Ret (m_table_restrict_cond_config, m_table_unrestrict_cond_config, m_table_business_config, m_table_fixed_content_response_config, m_time_stamp).

(** ** What is noted of a program

    [always p Q]: whatever the operations of [p] answer, it ends with a result and
    a trace of which [Q] is true, unless it crashes. *)
Inductive table_event : Type :=
  | Looked (id : list Z) (b : option business_config)
  | Counted (key value : list Z) (r : Z).

Definition noted A (tr : list table_event) (o : op A) : A → list table_event :=
  match o in op A return A → list table_event with
  | IndexBusiness id => λ b, tr ++ [Looked id b]
  | RedisDo _ _ q =>
      match q in redis_op A return A → list table_event with
      | Incrby key value => λ r, tr ++ [Counted key value r]
      | _ => λ _, tr
      end
  | _ => λ _, tr
  end.

Definition always {R} (tr : list table_event) (p : prog op R) (Q : list table_event → R → Prop) : Prop :=
  prog_wp (λ _ _ : unit, True) (λ _ _ _ _, True) (λ _ _ _ _, True) noted True tt tr p (λ _, Q).

Lemma always_bind {A B} tr (p : prog op A) (k : A → prog op B) Q :
  always tr p (λ tr a, always tr (k a) Q) → always tr (p ≫= k) Q.
Proof. intros Hp. apply prog_wp_bind. eapply prog_wp_mono; [exact Hp|]. by intros []. Qed.

Lemma always_mono {R} tr (p : prog op R) (P Q : list table_event → R → Prop) :
  always tr p P → (∀ tr r, P tr r → Q tr r) → always tr p Q.
Proof. intros Hp HQ. eapply prog_wp_mono; [exact Hp|]. intros ? tr' r. apply HQ. Qed.

Lemma always_act {A} tr (o : op A) Q : (∀ a, Q (noted A tr o a) a) → always tr (act o) Q.
Proof. intros HQ. split; [done|]. intros [] a _ _. apply HQ. Qed.

Lemma always_pure {A B} tr (m : outcome A) (k : A → prog op B) Q :
  (∀ a, m = Ret a → always tr (k a) Q) → always tr (do! a := local m in k a) Q.
Proof. intros Hk. apply always_bind. destruct m; [|done..]. by apply Hk. Qed.

(** A client is fetched and given back around one operation. *)
Lemma always_redis {A} tr s (q : redis_op A) failed (Q : list table_event → A → Prop) :
  Q tr failed → (∀ c a, Q (noted A tr (RedisDo s c q) a) a) → always tr (with_redis s q failed) Q.
Proof.
  intros Hf Hq. unfold with_redis, fetch_redis. apply always_bind.
  assert (∀ n, always tr (fetch_attempts (DequeueRedis s) n) (λ tr' _, tr' = tr)) as Ha.
  { induction n as [|n IH]; [done|]. cbn [fetch_attempts]. apply always_bind, always_act. intros [r c]. cbn beta iota.
    case_bool_decide; [apply IH|done]. }
  eapply always_mono; [apply Ha|]. intros tr' [c|] ->; [|done]. apply always_bind, always_act. intros a.
  apply always_bind, always_act. intros ?. apply Hq.
Qed.

(** The configurations [ids] were looked up one after the other, and not granted:
    they were gone, or their counter was over the limit. *)
Definition over (b : business_config) (n : Z) : Prop := ∃ volumn, atouint32_str (m_volumn b) = Ret volumn ∧ s32 volumn < n.
Definition within (b : business_config) (n : Z) : Prop := ∃ volumn, atouint32_str (m_volumn b) = Ret volumn ∧ n ≤ s32 volumn.

Inductive declined : list (list Z) → list table_event → Prop :=
  | declined_nil : declined [] []
  | declined_gone id ids tr : declined ids tr → declined (id :: ids) (Looked id None :: tr)
  | declined_over id b n ids tr :
      n ≠ -1 → over b n → declined ids tr → declined (id :: ids) (Looked id (Some b) :: Counted (business_key b) (str "1") n :: tr).

(** How the configuration [id] ends the search. *)
Inductive decided (m : gmap (list Z) (list Z)) (id : list Z) : list table_event → Z * gmap (list Z) (list Z) → Prop :=
  | decided_granted b n :
      n ≠ -1 → within b n → decided m id [Looked id (Some b); Counted (business_key b) (str "1") n] (0, granted_params b m)
  | decided_failed b : decided m id [Looked id (Some b); Counted (business_key b) (str "1") (-1)] (-1, m)
  | decided_no_client b : decided m id [Looked id (Some b)] (-1, m).

(** ** Properties *)

(** C22 Whatever else happens while it runs, the search for a business that may be
    granted goes through the configurations in their order; it counts one for
    each that is still there, and grants the first whose counter is within its
    limit then; it gives up when all have been declined, or Redis does not
    answer. *)
Theorem output_limit_grants m ids :
  always [] (do_filt_output_limit m ids) (λ tr r,
    (r = (-1, m) ∧ declined ids tr) ∨
    ∃ ids1 id ids2 tr1 tr2, ids = ids1 ++ id :: ids2 ∧ tr = tr1 ++ tr2 ∧ declined ids1 tr1 ∧ decided m id tr2 r).
Proof.
  assert (∀ tr0, always tr0 (do_filt_output_limit m ids) (λ tr r, ∃ tr', tr = tr0 ++ tr' ∧
    ((r = (-1, m) ∧ declined ids tr') ∨
     ∃ ids1 id ids2 tr1 tr2, ids = ids1 ++ id :: ids2 ∧ tr' = tr1 ++ tr2 ∧ declined ids1 tr1 ∧ decided m id tr2 r))) as Hall.
  2:{ eapply always_mono; [apply Hall|]. intros tr r (tr' & -> & Hr). exact Hr. }
  induction ids as [|id ids IH]; intros tr0; cbn [do_filt_output_limit].
  { exists []. rewrite app_nil_r. split; [done|]. left. split; [done|constructor]. }
  apply always_bind, always_act. intros ?. apply always_bind, always_act. intros b. apply always_bind, always_act. intros ?. cbn [noted].
  destruct b as [b|].
  - apply always_pure. intros volumn Ev. apply always_bind, always_redis.
    + rewrite bool_decide_eq_true_2 by done. exists [Looked id (Some b)]. split; [done|]. right.
      eexists [], id, ids, [], _. split_and!; [done..|constructor|constructor].
    + intros c n. cbn [noted]. rewrite <-app_assoc. cbn [app]. case_bool_decide as En; [|case_bool_decide as El].
      * subst n. eexists. split; [done|]. right. eexists [], id, ids, [], _. split_and!; [done..|constructor|constructor].
      * eapply always_mono; [apply IH|]. intros tr r (tr' & -> & Hr). eexists (_ :: _ :: tr'). rewrite <-app_assoc. split; [done|].
        assert (over b n) by by exists volumn. destruct Hr as [[-> Hd]|(ids1 & id' & ids2 & tr1 & tr2 & -> & -> & Hd & Hr)].
        -- left. split; [done|]. by constructor.
        -- right. eexists (id :: ids1), id', ids2, (_ :: _ :: tr1), tr2. split_and!; [done..|by constructor|done].
      * eexists. split; [done|]. right. eexists [], id, ids, [], _. split_and!; [done..|constructor|]. constructor; [done|]. exists volumn. split; [done|lia].
  - eapply always_mono; [apply IH|]. intros tr r (tr' & -> & Hr). eexists (_ :: tr'). rewrite <-app_assoc. split; [done|].
    destruct Hr as [[-> Hd]|(ids1 & id' & ids2 & tr1 & tr2 & -> & -> & Hd & Hr)].
    + left. split; [done|]. by constructor.
    + right. eexists (id :: ids1), id', ids2, (_ :: tr1), tr2. split_and!; [done..|by constructor|done].
Qed.
