(* ===== verification/Filters.v ===== *)
(** * The filters of the touch server
    ([xlgame_touch_server/src/filters/], [events/])

    A request passes four periods, each with its filters: the conditions it
    matches, the business it may have, the contents of the response, and the
    tasks.  A filter is a program over [Detacher.v] that takes the parameters of
    the request and the map of the response. *)

From Stdlib Require Import String.
From S2P Require Import Prelude Text MyCommon Store Program Detacher FilterConfig.

(** ** Definitions *)

(** [enum_err_code] *)
Definition SUCCESS : Z := 1.
Definition FILT_FAIL_IN_RESTRICT_COND_PERIORD : Z := 2.
Definition FILT_FAIL_IN_ENTRY_BUSINESS_PERIORD : Z := 5.
Definition INTERNAL_TIMEOUT : Z := 9.
Definition PARAM_ERROR : Z := 10.
Definition FLUSH_FILTER_CONFIG_ERROR : Z := 11.
Definition ILLEGAL_ACCESS : Z := 13.

Definition BUSINESS_PERIOD : Z := 48.
Definition COND_PERIOD : Z := 49.
Definition RESPONSE_PERIOD : Z := 50.
Definition TASK_PERIOD : Z := 51.

(** The classes derived from [base_filter]. *)
Inductive base_filter : Type :=
  | entry_business_filter
  | restrict_cond_filter
  | common_cond_filter
  | fixed_content_response_filter
  | common_response_filter
  | common_task_filter.

Definition get_filter_type (f : base_filter) : Z :=
  match f with
  | entry_business_filter => BUSINESS_PERIOD
  | restrict_cond_filter | common_cond_filter => COND_PERIOD
  | fixed_content_response_filter | common_response_filter => RESPONSE_PERIOD
  | common_task_filter => TASK_PERIOD
  end.

Abbreviation params := (gmap (list Z) (list Z)).

(** A tag at the end of a list of tags. *)
Definition append_tag (conf configid : list Z) : list Z :=
  if bool_decide (conf = []) then conf ++ configid else conf ++ str "|" ++ configid.

(** The loops of the two filters on conditions: the number of conditions and the
    tags. *)
Fixpoint find_conditions (find : list Z → list Z → prog op (list Z)) (l : list (list Z * list Z)) (num : Z) (conf : list Z)
    : prog op (Z * list Z) :=
  match l with
  | [] => Done (num, conf)
  | (index, value) :: l =>
      do! configid := find index value in
      if bool_decide (configid = []) then find_conditions find l num conf
      else find_conditions find l (num + 1) (append_tag conf configid)
  end.

Definition insert_conf (name conf : list Z) (response_map_param : params) : params :=
  if bool_decide (conf = []) then response_map_param else map_insert response_map_param name conf.

Section filters.
Context `{Boost} (m_time_stamp : Z).

Definition entry_business_do_filt (response_map_param : params) : prog op (Z * params) :=
  do! r := do_filt_time_limit_in_business_config m_time_stamp [] in
  let (ret, vconfigid) := (r : Z * list (list Z)) in
  if bool_decide (ret ≠ 0) then Done (FILT_FAIL_IN_ENTRY_BUSINESS_PERIORD, response_map_param)
  else
    do! r := do_filt_input_limit response_map_param vconfigid in
    let '(ret, response_map_param, vconfigid) := (r : Z * params * list (list Z)) in
    if bool_decide (ret ≠ 0) then Done (FILT_FAIL_IN_ENTRY_BUSINESS_PERIORD, response_map_param)
    else
      do! r := do_filt_output_limit response_map_param vconfigid in
      let (ret, response_map_param) := (r : Z * params) in
      if bool_decide (ret ≠ 0) then Done (FILT_FAIL_IN_ENTRY_BUSINESS_PERIORD, response_map_param)
      else Done (SUCCESS, response_map_param).

Definition restrict_cond_do_filt (mapParam response_map_param : params) : prog op (Z * params) :=
  do! r := find_conditions do_find_in_restrict_cond_config (items mapParam) 0 [] in
  let (num, regular_conf) := (r : Z * list Z) in
  let response_map_param := insert_conf (str "regular_conf") regular_conf response_map_param in
  Done (if bool_decide (num ≠ 0) then SUCCESS else FILT_FAIL_IN_RESTRICT_COND_PERIORD, response_map_param).

Definition common_cond_do_filt (mapParam response_map_param : params) : prog op (Z * params) :=
  do! r := find_conditions do_find_in_unrestrict_cond_config (items mapParam) 0 [] in
  let unregular_conf : list Z := r.2 in
  Done (SUCCESS, insert_conf (str "unregular_conf") unregular_conf response_map_param).

Fixpoint fixed_contents (rs : list (list Z)) (response_map_param : params) : prog op params :=
  match rs with
  | [] => Done response_map_param
  | r :: rs =>
      do! x := do_find_in_fixed_content_config r [] in
      let (index, value) := (x : list Z * list Z) in
      fixed_contents rs (map_insert response_map_param index value)
  end.

Definition fixed_content_do_filt (response_map_param : params) : prog op (Z * params) :=
  let reglular_rtn_content_conf := get_value (str "reglular_rtn_content_conf") response_map_param in
  let response_map_param := delete (str "reglular_rtn_content_conf") response_map_param in
  do! response_map_param := fixed_contents (stringsplit reglular_rtn_content_conf (str "|")) response_map_param in
  Done (SUCCESS, response_map_param).

Definition base_do_filt (f : base_filter) (mapParam response_map_param : params) : prog op (Z * params) :=
  match f with
  | entry_business_filter => entry_business_do_filt response_map_param
  | restrict_cond_filter => restrict_cond_do_filt mapParam response_map_param
  | common_cond_filter => common_cond_do_filt mapParam response_map_param
  | fixed_content_response_filter => fixed_content_do_filt response_map_param
  | common_response_filter => Done (SUCCESS, delete (str "unreglular_rtn_content_conf") response_map_param)
  | common_task_filter => Done (SUCCESS, delete (str "task_conf") response_map_param)
  end.

(** *** [filter_ctx] and the events *)
Record filter_ctx : Type := FilterCtx { m_filters_period : Z; m_filters : list base_filter }.

Definition init_filter_ctx (c : filter_ctx) : Z * filter_ctx :=
  let push l := (0, FilterCtx (m_filters_period c) (m_filters c ++ l)) in
  if bool_decide (m_filters_period c = BUSINESS_PERIOD) then push [entry_business_filter]
  else if bool_decide (m_filters_period c = COND_PERIOD) then push [restrict_cond_filter; common_cond_filter]
  else if bool_decide (m_filters_period c = RESPONSE_PERIOD) then push [fixed_content_response_filter; common_response_filter]
  else if bool_decide (m_filters_period c = TASK_PERIOD) then push [common_task_filter]
  else (-1, c).

Definition remove_filter_ctx (c : filter_ctx) : filter_ctx := FilterCtx (m_filters_period c) [].

(** The loop of [filter_ctx::do_filt]; [ret] is not initialised. *)
Fixpoint run_filters (l : list base_filter) (ret : option Z) (mapParam response_map_param : params) : prog op (Z * params) :=
  match l with
  | [] => match ret with Some ret => Done (ret, response_map_param) | None => Crash end
  | f :: l =>
      do! r := base_do_filt f mapParam response_map_param in
      let (ret, response_map_param) := (r : Z * params) in
      if bool_decide (ret ≠ SUCCESS) then Done (ret, response_map_param)
      else run_filters l (Some ret) mapParam response_map_param
  end.

Definition ctx_do_filt (c : filter_ctx) : params → params → prog op (Z * params) := run_filters (m_filters c) None.

(** An event is its context. *)
Definition new_event (period : Z) : filter_ctx := (init_filter_ctx (FilterCtx period [])).2.
Definition m_events : list filter_ctx := [new_event COND_PERIOD; new_event BUSINESS_PERIOD; new_event RESPONSE_PERIOD; new_event TASK_PERIOD].

Fixpoint run_events (l : list filter_ctx) (ret : Z) (mapParam response_map_param : params) : prog op (Z * params) :=
  match l with
  | [] => Done (ret, response_map_param)
  | e :: l =>
      do! r := ctx_do_filt e mapParam response_map_param in
      let (ret, response_map_param) := (r : Z * params) in
      if bool_decide (ret ≠ SUCCESS) then Done (ret, response_map_param)
      else run_events l ret mapParam response_map_param
  end.

Definition touch_core : params → params → prog op (Z * params) := run_events m_events SUCCESS.
End filters.
