(* ===== verification/TouchServer.v ===== *)
(** * The touch server
    ([xlgame_touch_server/src/main/dispatcher.cpp], [thread/threadpoll_manager.cpp])

    The HTTP server is that of [HttpServer.v]; one thread takes its requests and
    commits tasks, the workers run them over the tables, Redis and MySQL, one
    thread sends the responses, and a timer renews keys of Redis.  A step of the
    whole is an event of the reactor, a change in Redis, or one operation of one
    thread; an operation on the lock is possible only while the lock allows it.
    Statistics and logging are left out. *)

From Stdlib Require Import String.
From stdpp Require Import functions.
From S2P Require Import Prelude Text Utility MyCommon HttpPacket HttpResponse BlockQueue Socket Store Program Detacher FilterConfig Filters.
From S2P Require HttpServer.
Import HttpServer (http_request, request_packet, m_clientfd, m_client_tag, m_addqueue_time_millsec).

(** ** Definitions: [dispatcher] *)
Definition GAMEBOX_SERVER_BOXSERVER_TOUCHBOXACTION : list Z := str "/boxserver/touchBoxaction".
Definition GAMEBOX_SERVER_BOXSERVER_FLUSHFILTERCONFIG : list Z := str "/boxserver/flushFilterConfig".
Definition GAMEBOX_SERVER_BOXSERVER_TOUCHBOXACTION_ID : Z := 0.
Definition GAMEBOX_SERVER_BOXSERVER_FLUSHFILTERCONFIG_ID : Z := 1.

Definition server_path2id (str_path : list Z) : Z :=
  if bool_decide (str_path = GAMEBOX_SERVER_BOXSERVER_TOUCHBOXACTION) then GAMEBOX_SERVER_BOXSERVER_TOUCHBOXACTION_ID
  else if bool_decide (str_path = GAMEBOX_SERVER_BOXSERVER_FLUSHFILTERCONFIG) then GAMEBOX_SERVER_BOXSERVER_FLUSHFILTERCONFIG_ID
  else -1.

Section dispatcher.
Context `{Boost}.
Context (m_table_restrict_cond_config m_table_unrestrict_cond_config : list Z).
Context (m_table_business_config m_table_fixed_content_response_config : list Z).
Context (m_time_stamp m_queue_delay_drop_threashold : Z).
(** [m_map_err_info], the messages converted by [iconv]; the message of success is
    also [m_str_success_static]. *)
Context (m_map_err_info : gmap Z (list Z)) (m_str_success_static : list Z).

Definition http_response (request : http_request) (m_str_respond : list Z) : prog op unit :=
  act (AddResponse (HttpRtn (m_clientfd request) (m_client_tag request) m_str_respond)).

Definition answer (request : http_request) (body : params) : prog op unit :=
  do! m_str_respond := local (encode 200 body (str "text/html")) in
  http_response request m_str_respond.

Definition http_response_error (errcode : Z) (request : http_request) : prog op unit :=
  match m_map_err_info !! errcode with
  | None => Done tt
  | Some errinfo =>
      let rtn_map : params := map_insert ∅ (str "result") (format_int errcode) in
      let rtn_map := map_insert rtn_map (str "errinfo") errinfo in
      answer request rtn_map
  end.

Definition http_response_ok (request : http_request) : prog op unit :=
  let body : params := map_insert ∅ (str "result") (format_int SUCCESS) in
  let body := map_insert body (str "errinfo") m_str_success_static in
  answer request body.

Definition http_response_ok_params (request : http_request) (map_param : params) : prog op unit :=
  let body : params := map_insert ∅ (str "result") (format_int SUCCESS) in
  let body := map_insert body (str "errinfo") (str "ok") in
  let body := insert_all (items map_param) body in
  answer request body.

(** The difference is taken without sign. *)
Definition check_request_queued_timeout (request : http_request) : prog op Z :=
  do! currenttime_millsec := act Millseconds in
  Done (if bool_decide (u64 (currenttime_millsec - m_addqueue_time_millsec request) > m_queue_delay_drop_threashold) then -1 else 0).

Definition Process_touchBoxAction (request : http_request) : prog op unit :=
  do! _ := act Millseconds in
  do! result := check_request_queued_timeout request in
  if bool_decide (result = -1) then http_response_error INTERNAL_TIMEOUT request
  else
    do! r := touch_core m_time_stamp (mapParam (request_packet request)) ∅ in
    let (result, response_map_param) := (r : Z * params) in
    if bool_decide (SUCCESS = result) then http_response_ok_params request response_map_param
    else http_response_error result request.

Definition Process_flushFilterConfig (request : http_request) : prog op unit :=
  do! _ := act Millseconds in
  do! result := check_request_queued_timeout request in
  if bool_decide (result = -1) then http_response_error INTERNAL_TIMEOUT request
  else
    let update_type := boost_trim (get_value (str "type") (mapParam (request_packet request))) in
    if bool_decide (update_type = []) || bool_decide (update_type ≠ str "flush_config") then http_response_error PARAM_ERROR request
    else
      do! result := do_update_configs m_table_restrict_cond_config m_table_unrestrict_cond_config m_table_business_config
                      m_table_fixed_content_response_config in
      if bool_decide (result ≠ 0) then http_response_error FLUSH_FILTER_CONFIG_ERROR request
      else http_response_ok request.

(** *** The loops of the threads, one turn *)
Definition dispatch_http_request_turn : prog op unit :=
  do! r := act TakeRequest in
  let (result, data) := (r : Z * option http_request) in
  if bool_decide (result ≠ 1) then Done tt
  else match data with
  | Some prequest =>
      let serverid := server_path2id (m_str_cmdpath (request_packet prequest)) in
      if bool_decide (serverid = -1) then Done tt
      else if bool_decide (serverid = GAMEBOX_SERVER_BOXSERVER_TOUCHBOXACTION_ID) then act (CommitTask (Process_touchBoxAction_task prequest))
      else if bool_decide (serverid = GAMEBOX_SERVER_BOXSERVER_FLUSHFILTERCONFIG_ID) then act (CommitTask (Process_flushFilterConfig_task prequest))
      else http_response_error ILLEGAL_ACCESS prequest
  | None => Done tt
  end.

Definition run_task (t : task) : prog op unit :=
  match t with
  | Process_touchBoxAction_task request => Process_touchBoxAction request
  | Process_flushFilterConfig_task request => Process_flushFilterConfig request
  end.

Definition general_thread_turn : prog op unit :=
  do! r := act TakeTask in
  let (result, data) := (r : Z * option task) in
  if bool_decide (result ≠ 1) then Done tt
  else match data with
  | Some task => run_task task
  | None => Done tt
  end.

Definition http_response_turn : prog op unit :=
  do! r := act TakeResponse in
  let (result, data) := (r : Z * option http_rtn) in
  if bool_decide (result ≠ 1) then Done tt
  else match data with
  | Some rtn =>
      do! _ := act (HttpSend (rtn_clientfd rtn) (rtn_unify_tag rtn) (rtn_str_send rtn)) in
      act (HttpClose (rtn_clientfd rtn) (rtn_unify_tag rtn))
  | None => Done tt
  end.
End dispatcher.

(** ** Definitions: the shared state *)

(** The read-write lock: how many hold it to read, and whether one does to write. *)
Record rwlock : Type := RWLock { readers : nat; writing : bool }.

(** What has been done to the counters: one was incremented with the answer [r],
    or set back. *)
Inductive count_event : Type :=
  | Incremented (key : list Z) (r : Z)
  | Reset (key : list Z).

Record world (K : Type) : Type := World {
  w_http : HttpServer.httpserver;
  w_store : K;
  w_redis_rpool : block_queue loc;
  w_redis_wpool : block_queue loc;
  w_mysql_rpool : block_queue loc;
  w_mysql_wpool : block_queue loc;
  w_lock : rwlock;
  w_configs : configs;
  w_tasks : block_queue task;
  w_responses : block_queue http_rtn;
  w_counts : list count_event;
}.
Arguments World {K}.
Arguments w_http {K}. Arguments w_store {K}. Arguments w_redis_rpool {K}. Arguments w_redis_wpool {K}.
Arguments w_mysql_rpool {K}. Arguments w_mysql_wpool {K}. Arguments w_lock {K}. Arguments w_configs {K}.
Arguments w_tasks {K}. Arguments w_responses {K}. Arguments w_counts {K}.

(** What the environment answers to one operation. *)
Record answers : Type := Answers { a_env : environment; a_wait : wait_result; a_time : Z; a_clock : Z * Z }.

Section exec.
Context {K : Type} `{Store K}.
Implicit Types (w : world K).

Definition set_http (s : HttpServer.httpserver) w : world K :=
  World s (w_store w) (w_redis_rpool w) (w_redis_wpool w) (w_mysql_rpool w) (w_mysql_wpool w) (w_lock w) (w_configs w) (w_tasks w) (w_responses w) (w_counts w).
Definition set_store (k : K) w : world K :=
  World (w_http w) k (w_redis_rpool w) (w_redis_wpool w) (w_mysql_rpool w) (w_mysql_wpool w) (w_lock w) (w_configs w) (w_tasks w) (w_responses w) (w_counts w).
Definition set_redis_pool (s : side) (q : block_queue loc) w : world K :=
  match s with
  | Reader => World (w_http w) (w_store w) q (w_redis_wpool w) (w_mysql_rpool w) (w_mysql_wpool w) (w_lock w) (w_configs w) (w_tasks w) (w_responses w) (w_counts w)
  | Writer => World (w_http w) (w_store w) (w_redis_rpool w) q (w_mysql_rpool w) (w_mysql_wpool w) (w_lock w) (w_configs w) (w_tasks w) (w_responses w) (w_counts w)
  end.
Definition set_mysql_pool (s : side) (q : block_queue loc) w : world K :=
  match s with
  | Reader => World (w_http w) (w_store w) (w_redis_rpool w) (w_redis_wpool w) q (w_mysql_wpool w) (w_lock w) (w_configs w) (w_tasks w) (w_responses w) (w_counts w)
  | Writer => World (w_http w) (w_store w) (w_redis_rpool w) (w_redis_wpool w) (w_mysql_rpool w) q (w_lock w) (w_configs w) (w_tasks w) (w_responses w) (w_counts w)
  end.
Definition redis_pool (s : side) w : block_queue loc := match s with Reader => w_redis_rpool w | Writer => w_redis_wpool w end.
Definition mysql_pool (s : side) w : block_queue loc := match s with Reader => w_mysql_rpool w | Writer => w_mysql_wpool w end.
Definition set_lock (l : rwlock) w : world K :=
  World (w_http w) (w_store w) (w_redis_rpool w) (w_redis_wpool w) (w_mysql_rpool w) (w_mysql_wpool w) l (w_configs w) (w_tasks w) (w_responses w) (w_counts w).
Definition set_configs (c : configs) w : world K :=
  World (w_http w) (w_store w) (w_redis_rpool w) (w_redis_wpool w) (w_mysql_rpool w) (w_mysql_wpool w) (w_lock w) c (w_tasks w) (w_responses w) (w_counts w).
Definition set_tasks (q : block_queue task) w : world K :=
  World (w_http w) (w_store w) (w_redis_rpool w) (w_redis_wpool w) (w_mysql_rpool w) (w_mysql_wpool w) (w_lock w) (w_configs w) q (w_responses w) (w_counts w).
Definition set_responses (q : block_queue http_rtn) w : world K :=
  World (w_http w) (w_store w) (w_redis_rpool w) (w_redis_wpool w) (w_mysql_rpool w) (w_mysql_wpool w) (w_lock w) (w_configs w) (w_tasks w) q (w_counts w).
Definition count (l : list count_event) w : world K :=
  World (w_http w) (w_store w) (w_redis_rpool w) (w_redis_wpool w) (w_mysql_rpool w) (w_mysql_wpool w) (w_lock w) (w_configs w) (w_tasks w) (w_responses w) (w_counts w ++ l).

(** [m_business_config[key]] *)
Definition index_business (key : list Z) (c : configs) : option business_config * configs :=
  match m_business_config c !! key with
  | Some b => (b, c)
  | None =>
      (None, Configs (m_fixed_content_config c) (m_restrict_cond_config c) (<[key := None]> (m_business_config c)) (m_unrestrict_cond_config c))
  end.

(** What is noted of an operation of Redis. *)
Definition count_of {A} (q : redis_op A) : A → list count_event :=
  match q in redis_op A return A → list count_event with
  | Incrby key _ => λ r, [Incremented (c_string key) r]
  | Del key | SetText key _ | Setex key _ _ => λ _, [Reset (c_string key)]
  | _ => λ _, []
  end.

Definition exec A (a : answers) (o : op A) w : outcome (A * world K) :=
  let e := a_env a in
  match o in op A return outcome (A * world K) with
  | DequeueRedis s => let '(r, c, q) := dequeue_expand (a_wait a) (redis_pool s w) in Ret ((r, c), set_redis_pool s q w)
  | RebackRedis s c => Ret (tt, set_redis_pool s (add_queue (redis_pool s w) c) w)
  | RedisDo s c q => let! r := redis_do q c (w_store w) in Ret (r.1, count (count_of q r.1) (set_store r.2 w))
  | DequeueMysql s => let '(r, c, q) := dequeue_expand (a_wait a) (mysql_pool s w) in Ret ((r, c), set_mysql_pool s q w)
  | RebackMysql s c => Ret (tt, set_mysql_pool s (add_queue (mysql_pool s w) c) w)
  | MysqlRead c sql => let! r := mysql_read c sql (w_store w) in Ret (r.1, set_store r.2 w)
  | MysqlWrite c sql => let! r := mysql_write c sql (w_store w) in Ret (r.1, set_store r.2 w)
  | RdLock => Ret (tt, set_lock (RWLock (S (readers (w_lock w))) (writing (w_lock w))) w)
  | WrLock => Ret (tt, set_lock (RWLock (readers (w_lock w)) true) w)
  | Unlock => Ret (tt, set_lock (if writing (w_lock w) then RWLock (readers (w_lock w)) false else RWLock (pred (readers (w_lock w))) false) w)
  | ReadConfigs => Ret (w_configs w, w)
  | WriteConfigs c => Ret (tt, set_configs c w)
  | BusinessEmpty => Ret (bool_decide (m_business_config (w_configs w) = ∅), w)
  | IndexBusiness key => let (b, c) := index_business key (w_configs w) in Ret (b, set_configs c w)
  | Time => Ret (a_time a, w)
  | Millseconds => Ret (get_cur_millseconds (a_clock a).1 (a_clock a).2, w)
  | TakeRequest =>
      let '(r, m, q) := dequeue_expand (a_wait a) (HttpServer.m_request_queue (w_http w)) in
      Ret ((r, m), set_http (HttpServer.set_requests q (HttpServer.m_requst_count (w_http w)) (w_http w)) w)
  | CommitTask t => Ret (tt, set_tasks (add_queue (w_tasks w) t) w)
  | TakeTask => let '(r, t, q) := dequeue_expand (a_wait a) (w_tasks w) in Ret ((r, t), set_tasks q w)
  | AddResponse x => Ret (tt, set_responses (add_queue (w_responses w) x) w)
  | TakeResponse => let '(r, x, q) := dequeue_expand (a_wait a) (w_responses w) in Ret ((r, x), set_responses q w)
  | HttpSend fd tag data => Ret (tt, set_http (HttpServer.send_data e fd tag data (w_http w)).2 w)
  | HttpClose fd tag => Ret (tt, set_http (HttpServer.close_client e fd tag (w_http w)).2 w)
  end.

(** Whether the lock lets an operation through. *)
Definition enabled {A} (o : op A) w : Prop :=
  match o with
  | RdLock => writing (w_lock w) = false
  | WrLock => writing (w_lock w) = false ∧ readers (w_lock w) = 0%nat
  | _ => True
  end.
End exec.

(** ** Definitions: the whole server *)
Inductive role : Type := Requests | Worker | Responder | Timer.

Section touch.
Context {K : Type} `{Store K} `{Boost} `{HttpServer.RequestDecoder}.
Context (table_restrict table_unrestrict table_business table_fixed : list Z) (time_stamp threshold : Z).
Context (err_info : gmap Z (list Z)) (success : list Z).

(** What a thread does each time it comes back to its loop; the timer when it has
    slept. *)
Inductive turn : role → prog op unit → Prop :=
  | turn_requests : turn Requests (dispatch_http_request_turn err_info)
  | turn_worker :
      turn Worker (general_thread_turn table_restrict table_unrestrict table_business table_fixed time_stamp threshold err_info success)
  | turn_responder : turn Responder http_response_turn
  | turn_timer : turn Timer do_flush_redis_ttl_in_unrestrict_cond_config.

Record touch : Type := Touch { the_world : world K; the_threads : gmap positive (role * prog op unit) }.

(** In [touch_store] the keys [ks] of Redis expire; others write the sets, but not
    the counters. *)
Inductive touch_step : touch → touch → Prop :=
  | touch_http w ts ev s :
      HttpServer.kernel_ok ev (w_http w) → HttpServer.handle ev (w_http w) = Ret s →
      touch_step (Touch w ts) (Touch (set_http s w) ts)
  | touch_store w ts k ks :
      store_ok k → (∀ key, (key ∉ ks) → counter k key = counter (w_store w) key) → (∀ key, key ∈ ks → counter k key = 0) →
      touch_step (Touch w ts) (Touch (count (Reset <$> ks) (set_store k w)) ts)
  | touch_turn w ts t r p :
      ts !! t = Some (r, Done tt) → turn r p → touch_step (Touch w ts) (Touch w (<[t := (r, p)]> ts))
  | touch_does w ts t r A (o : op A) k a x w' :
      ts !! t = Some (r, Do o k) → enabled o w → exec A a o w = Ret (x, w') →
      touch_step (Touch w ts) (Touch w' (<[t := (r, k x)]> ts)).

Definition pool_of (l : list loc) : block_queue loc := foldl add_queue new_block_queue l.

(** The server after its start, with the clients of the four pools. *)
Definition started (k : K) (c : configs) (clients : side → list loc) (sql_clients : side → list loc) (roles : list (positive * role)) : touch :=
  Touch (World HttpServer.new_server k (pool_of (clients Reader)) (pool_of (clients Writer)) (pool_of (sql_clients Reader))
           (pool_of (sql_clients Writer)) (RWLock 0 false) c new_block_queue new_block_queue [])
    (list_to_map ((λ tr, (tr.1, (tr.2, Done tt))) <$> roles)).
End touch.

(** The answers for a counter since it was last set back, and how often it has been
    incremented at all. *)
Definition answers_step (key : list Z) (acc : list Z) (e : count_event) : list Z :=
  match e with
  | Incremented k r => if bool_decide (k = key) then acc ++ [r] else acc
  | Reset k => if bool_decide (k = key) then [] else acc
  end.
Definition answers_since (key : list Z) (log : list count_event) : list Z := foldl (answers_step key) [] log.
Definition attempt (key : list Z) (e : count_event) : bool :=
  match e with Incremented k _ => bool_decide (k = key) | Reset _ => false end.
Definition attempts (key : list Z) (log : list count_event) : Z := slen (filter (λ e, attempt key e) log).

(** ** What a thread may do *)

(** What a thread holds: the lock, and a client of Redis. *)
Inductive lock_mode : Type := Free | Reading | Writing.
#[export] Instance lock_mode_eq_dec : EqDecision lock_mode.
Proof. solve_decision. Defined.
Record holding : Type := Holding { h_lock : lock_mode; h_client : option (side * loc) }.
Definition nothing : holding := Holding Free None.

Definition sound_request (log : list action) (q : http_request) : Prop := Accepted (m_clientfd q) (m_client_tag q) ∈ log.
Definition request_of (t : task) : http_request :=
  match t with Process_touchBoxAction_task q | Process_flushFilterConfig_task q => q end.

(** The operations of Redis that the server calls on counters. *)
Definition sound_query {A} (q : redis_op A) : Prop :=
  match q with
  | Incrby _ value => value = str "1"
  | SetText _ _ | Setex _ _ _ => False
  | Expire _ secs => 0 < secs
  | _ => True
  end.

(** A client of Redis is only there for one operation, after which it is given back;
    MySQL is not asked under the lock. *)
Definition requires_client {A} (h : holding) (o : op A) : Prop :=
  match o with
  | RebackRedis s c => h_client h = Some (s, c)
  | RedisDo s c q => h_client h = Some (s, c) ∧ sound_query q
  | _ => h_client h = None
  end.

Definition requires_rest {A} (log : list action) (h : holding) (o : op A) : Prop :=
  match o with
  | RdLock | WrLock | MysqlRead _ _ | MysqlWrite _ _ => h_lock h = Free
  | Unlock | ReadConfigs => h_lock h ≠ Free
  | WriteConfigs _ => h_lock h = Writing
  | IndexBusiness _ => h_lock h = Reading
  | CommitTask t => sound_request log (request_of t)
  | AddResponse x => Accepted (rtn_clientfd x) (rtn_unify_tag x) ∈ log
  | HttpSend fd tag _ | HttpClose fd tag => Accepted fd tag ∈ log
  | _ => True
  end.

Definition requires A (log : list action) (h : holding) (o : op A) : Prop := requires_client h o ∧ requires_rest log h o.

Definition possible A (log : list action) (o : op A) : A → Prop :=
  match o in op A return A → Prop with
  | DequeueRedis _ => λ a, a.1 = 1 ↔ is_Some a.2
  | TakeRequest => λ a, ∀ q, a.2 = Some q → sound_request log q
  | TakeTask => λ a, ∀ t, a.2 = Some t → sound_request log (request_of t)
  | TakeResponse => λ a, ∀ x, a.2 = Some x → Accepted (rtn_clientfd x) (rtn_unify_tag x) ∈ log
  | _ => λ _, True
  end.

Definition learns A (h : holding) (o : op A) : A → holding :=
  match o in op A return A → holding with
  | DequeueRedis s => λ a, Holding (h_lock h) ((λ c, (s, c)) <$> a.2)
  | RebackRedis _ _ => λ _, Holding (h_lock h) None
  | RdLock => λ _, Holding Reading (h_client h)
  | WrLock => λ _, Holding Writing (h_client h)
  | Unlock => λ _, Holding Free (h_client h)
  | _ => λ _, h
  end.

Abbreviation wp := (prog_wp (@subseteq (list action) _) requires possible learns).

(** ** Lemmas: the programs *)

(** The log has grown, the thread holds [h], and [P] is true of the result. *)
Definition leaves {R} (log : list action) (h : holding) (P : R → Prop) (log' : list action) (h' : holding) (r : R) : Prop :=
  log ⊆ log' ∧ h' = h ∧ P r.

Section programs.
Context `{Boost} (crash : Prop).

Lemma touch_wp_seq {A B} log h h1 h2 (p : prog op A) (k : A → prog op B) (P : A → Prop) (Q : B → Prop) :
  wp crash log h p (leaves log h1 P) →
  (∀ log' a, log ⊆ log' → P a → wp crash log' h1 (k a) (leaves log' h2 Q)) → wp crash log h (p ≫= k) (leaves log h2 Q).
Proof.
  intros Hp Hk. apply prog_wp_bind. eapply prog_wp_mono; [exact Hp|]. intros log' h' a (Hl & -> & Ha).
  eapply prog_wp_mono; [by apply Hk|]. intros log2 h2' b (Hl2 & -> & Hb). split_and!; [|done..]. by transitivity log'.
Qed.

Lemma wp_op {A} log h (o : op A) h' (P : A → Prop) :
  requires A log h o → (∀ log' a, log ⊆ log' → possible A log' o a → learns A h o a = h' ∧ P a) → wp crash log h (act o) (leaves log h' P).
Proof. intros Hr Hk. apply prog_wp_act; [done|]. intros log' a Hl Ha. destruct (Hk log' a Hl Ha). by split_and!. Qed.

Lemma wp_done {R} log h (r : R) (P : R → Prop) : P r → wp crash log h (Done r) (leaves log h P).
Proof. intros. by split_and!. Qed.

Lemma wp_post {R} log h h' (p : prog op R) (P Q : R → Prop) :
  wp crash log h p (leaves log h' P) → (∀ r, P r → Q r) → wp crash log h p (leaves log h' Q).
Proof. intros Hp HQ. eapply prog_wp_mono; [exact Hp|]. intros log2 h2 r (? & -> & ?). split_and!; auto. Qed.

Lemma wp_pure {A B} log h h' (m : outcome A) (k : A → prog op B) (Q : B → Prop) :
  match m with Ret a => wp crash log h (k a) (leaves log h' Q) | _ => crash end → wp crash log h (do! a := local m in k a) (leaves log h' Q).
Proof. intros Hm. apply prog_wp_bind, prog_wp_local. by destruct m. Qed.

(** One operation, and what comes after it. *)
Lemma wp_then {A B} log h (o : op A) (k : A → prog op B) h1 h2 (P : A → Prop) (Q : B → Prop) :
  requires A log h o → (∀ log' a, log ⊆ log' → possible A log' o a → learns A h o a = h1 ∧ P a) →
  (∀ log' a, log ⊆ log' → P a → wp crash log' h1 (k a) (leaves log' h2 Q)) → wp crash log h (do! a := act o in k a) (leaves log h2 Q).
Proof. intros Hr Ho Hk. eapply touch_wp_seq; [by apply wp_op|done]. Qed.

#[local] Ltac op_step := eapply (wp_then _ _ _ _ _ _ (λ _, True)); [done|intros; cbn [learns h_lock h_client]; split; [reflexivity|done]|].

Lemma wp_redis {A} log m s (q : redis_op A) failed :
  sound_query q → wp crash log (Holding m None) (with_redis s q failed) (leaves log (Holding m None) (λ _, True)).
Proof.
  intros Hq. unfold with_redis. apply prog_wp_bind.
  assert (∀ n log', log ⊆ log' → wp crash log' (Holding m None) (fetch_attempts (DequeueRedis s) n)
    (λ log' h r, log ⊆ log' ∧ h = Holding m ((λ c, (s, c)) <$> r))) as Hf.
  { induction n as [|n IH]; intros log' Hl; [done|]. cbn [fetch_attempts]. apply prog_wp_bind, prog_wp_act; [done|].
    intros log2 [r c] Hl2 Hp. cbn beta iota. cbn [possible learns fst snd h_lock] in *. case_bool_decide as Er.
    - assert (c = None) as -> by (destruct c; [|done]; destruct Er; by apply Hp). apply IH. by transitivity log'.
    - split; [by transitivity log'|done]. }
  eapply prog_wp_mono; [by apply Hf|]. cbn beta. intros log' h [c|] [Hl ->]; [|by split_and!].
  apply prog_wp_bind, prog_wp_act; [done|]. intros log2 a Hl2 _. apply prog_wp_bind, prog_wp_act; [done|]. intros log3 ? Hl3 _.
  split; [|done]. transitivity log'; [done|]. by transitivity log2.
Qed.

Lemma wp_mysql_read log sql reply :
  wp crash log nothing (do_mysql_opt_read sql reply) (leaves log nothing (λ _, True)).
Proof.
  unfold do_mysql_opt_read, fetch_mysql. eapply touch_wp_seq; [|intros log' [c|] Hl _; [|by apply wp_done]].
  - assert (∀ n log', wp crash log' nothing (fetch_attempts (DequeueMysql Reader) n) (leaves log' nothing (λ _, True))) as Hf; [|apply Hf].
    induction n as [|n IH]; intros log'; [by apply wp_done|]. cbn [fetch_attempts].
    op_step. intros log2 [r c] Hl _. cbn beta iota. case_bool_decide; [apply IH|by apply wp_done].
  - op_step. intros log2 [rows|] Hl2 _; [|by apply wp_done].
    op_step. intros log3 ? Hl3 _. by apply wp_done.
Qed.

(** A method that holds the lock to read. *)
Lemma wp_reading {B} log (k : configs → prog op B) (Q : B → Prop) :
  (∀ log' c, log ⊆ log' → wp crash log' (Holding Reading None) (k c) (leaves log' nothing Q)) →
  wp crash log nothing (do! _ := act RdLock in do! c := act ReadConfigs in k c) (leaves log nothing Q).
Proof.
  intros Hk. op_step. intros log1 ? Hl1 _.
  op_step.
  intros log2 c Hl2 _. apply Hk. by transitivity log1.
Qed.

Lemma wp_unlock {B} log m (r : B) (P : B → Prop) :
  m ≠ Free → P r → wp crash log (Holding m None) (do! _ := act Unlock in Done r) (leaves log nothing P).
Proof. intros Hm HP. op_step. intros log1 ? Hl1 _. by apply wp_done. Qed.

Lemma wp_find_fixed log key value : wp crash log nothing (do_find_in_fixed_content_config key value) (leaves log nothing (λ _, True)).
Proof. apply wp_reading. intros log' c _. by apply wp_unlock. Qed.

Lemma wp_find_restrict log key value : wp crash log nothing (do_find_in_restrict_cond_config key value) (leaves log nothing (λ _, True)).
Proof. apply wp_reading. intros log' c _. by apply wp_unlock. Qed.

Lemma wp_find_unrestrict log key value : wp crash log nothing (do_find_in_unrestrict_cond_config key value) (leaves log nothing (λ _, True)).
Proof.
  apply wp_reading. intros log' c _. generalize (items (m_unrestrict_cond_config c)). intros l. revert log'.
  induction l as [|[i tmp] l IH]; intros log1; cbn [find_unrestrict]; [by apply wp_unlock|]. case_bool_decide; [|apply IH].
  eapply touch_wp_seq; [by apply wp_redis|]. intros log2 r Hl2 _. cbn beta.
  case_bool_decide; [by apply wp_unlock|]. case_bool_decide; [by apply wp_unlock|apply IH].
Qed.

Lemma wp_flush_ttl log : wp crash log nothing do_flush_redis_ttl_in_unrestrict_cond_config (leaves log nothing (λ _, True)).
Proof.
  apply wp_reading. intros log' c _.
  eapply (touch_wp_seq _ _ (Holding Reading None) _ _ _ (λ _, True)); [|intros log2 ? Hl2 _; apply wp_op; [done|intros; by split]].
  generalize (items (m_unrestrict_cond_config c)). intros l. revert log'.
  induction l as [|[i config] l IH]; intros log1; cbn [flush_ttl]; [by apply (wp_done _ _ _ (λ _, True))|].
  eapply touch_wp_seq; [by apply wp_redis|]. intros log2 r Hl2 _. apply IH.
Qed.

Lemma wp_time_limit log time_stamp ids :
  crash → wp crash log nothing (do_filt_time_limit_in_business_config time_stamp ids) (leaves log nothing (λ _, True)).
Proof.
  intros Hc. unfold do_filt_time_limit_in_business_config. op_step. intros log1 now Hl1 _.
  apply wp_reading. intros log2 c _. apply wp_pure. destruct (time_limit_loop _ _ _ _) as [l| |]; [|done..].
  op_step. intros log3 ? Hl3 _. case_bool_decide; [|by apply wp_done].
  op_step. intros log4 b Hl4 _. by apply wp_done.
Qed.

Lemma wp_input_limit log m ids : crash → wp crash log nothing (do_filt_input_limit m ids) (leaves log nothing (λ _, True)).
Proof.
  intros Hc. apply wp_reading. intros log2 c _. apply wp_pure. destruct (input_limit_loop _ _ _ _ _) as [l| |]; [|done..].
  op_step. intros log3 ? Hl3 _. case_bool_decide; by apply wp_done.
Qed.

Lemma wp_output_limit log m ids : crash → wp crash log nothing (do_filt_output_limit m ids) (leaves log nothing (λ _, True)).
Proof.
  intros Hc. revert log. induction ids as [|id ids IH]; intros log; cbn [do_filt_output_limit]; [by apply wp_done|].
  op_step. intros log1 ? Hl1 _. op_step.
  intros log2 b Hl2 _. op_step. intros log3 ? Hl3 _. destruct b as [b|]; [|apply IH].
  apply wp_pure. destruct (atouint32_str _); [|done..].
  eapply touch_wp_seq; [by apply wp_redis|]. intros log4 r Hl4 _. cbn beta. case_bool_decide; [by apply wp_done|].
  case_bool_decide; [apply IH|by apply wp_done].
Qed.

(** *** The update of the tables *)
Lemma wp_add_members log m key l :
  wp crash log (Holding m None) (add_members key l) (leaves log (Holding m None) (λ _, True)).
Proof.
  revert log. induction l as [|r l IH]; intros log; cbn [add_members]; [by apply wp_done|].
  eapply touch_wp_seq; [by apply wp_redis|]. intros log1 x Hl1 _. cbn beta. case_bool_decide; [by apply wp_done|apply IH].
Qed.

Lemma wp_update_redis log l : wp crash log nothing (update_redis l) (leaves log nothing (λ _, True)).
Proof.
  revert log. induction l as [|r l IH]; intros log; cbn [update_redis]; [by apply wp_done|].
  eapply touch_wp_seq; [apply wp_mysql_read|]. intros log1 [x rows] Hl1 _. cbn beta iota. case_bool_decide; [by apply wp_done|].
  case_bool_decide; [apply IH|]. eapply touch_wp_seq; [apply wp_add_members|]. intros log2 y Hl2 _. cbn beta.
  case_bool_decide; [by apply wp_done|]. eapply touch_wp_seq; [by apply wp_redis|]. intros log3 z Hl3 _. cbn beta.
  case_bool_decide; [by apply wp_done|apply IH].
Qed.

Lemma wp_delete_counters log m l :
  crash → wp crash log (Holding m None) (delete_counters l) (leaves log (Holding m None) (λ _, True)).
Proof.
  intros Hc. revert log. induction l as [|[i [b|]] l IH]; intros log; cbn [delete_counters]; [by apply wp_done| |done].
  eapply touch_wp_seq; [by apply wp_redis|]. intros log1 x Hl1 _. cbn beta. case_bool_decide; [by apply wp_done|apply IH].
Qed.

Lemma wp_replace log r1 r2 r3 r4 : crash → wp crash log nothing (replace_configs r1 r2 r3 r4) (leaves log nothing (λ _, True)).
Proof.
  intros Hc. unfold replace_configs. op_step. intros log1 ? Hl1 _. op_step. intros log2 c Hl2 _. op_step. intros log3 ? Hl3 _.
  eapply touch_wp_seq; [by apply wp_delete_counters|]. intros log4 [] Hl4 _; [|by apply wp_unlock].
  apply wp_pure. destruct (unrestrict_configs r4 r1); [|done..]. op_step. intros log5 ? Hl5 _. by apply wp_unlock.
Qed.

Lemma wp_update log t1 t2 t3 t4 : crash → wp crash log nothing (do_update_configs t1 t2 t3 t4) (leaves log nothing (λ _, True)).
Proof.
  intros Hc. unfold do_update_configs.
  do 4 (eapply touch_wp_seq; [apply wp_mysql_read|]; intros ? [? ?] _ _; cbn beta iota; case_bool_decide; [by apply wp_done|]).
  eapply touch_wp_seq; [apply wp_update_redis|]. intros log2 x _ _. cbn beta. case_bool_decide; [by apply wp_done|by apply wp_replace].
Qed.

(** *** The filters *)
Lemma wp_find_conditions log find l num conf :
  (∀ log' k v, wp crash log' nothing (find k v) (leaves log' nothing (λ _, True))) →
  wp crash log nothing (find_conditions find l num conf) (leaves log nothing (λ _, True)).
Proof.
  intros Hf. revert log num conf. induction l as [|[k v] l IH]; intros log num conf; cbn [find_conditions]; [by apply wp_done|].
  eapply touch_wp_seq; [apply Hf|]. intros log1 id _ _. cbn beta. case_bool_decide; apply IH.
Qed.

Lemma wp_fixed_contents log rs m : wp crash log nothing (fixed_contents rs m) (leaves log nothing (λ _, True)).
Proof.
  revert log m. induction rs as [|r rs IH]; intros log m; cbn [fixed_contents]; [by apply wp_done|].
  eapply touch_wp_seq; [apply wp_find_fixed|]. intros log1 [k v] _ _. apply IH.
Qed.

Lemma wp_filter log time_stamp f mp m :
  crash → wp crash log nothing (base_do_filt time_stamp f mp m) (leaves log nothing (λ _, True)).
Proof.
  intros Hc. destruct f; cbn [base_do_filt]; try by apply wp_done.
  - unfold entry_business_do_filt. eapply touch_wp_seq; [by apply wp_time_limit|]. intros log1 [r ids] _ _. cbn beta iota.
    case_bool_decide; [by apply wp_done|]. eapply touch_wp_seq; [by apply wp_input_limit|]. intros log2 [[r2 m2] ids2] _ _. cbn beta iota.
    case_bool_decide; [by apply wp_done|]. eapply touch_wp_seq; [by apply wp_output_limit|]. intros log3 [r3 m3] _ _. cbn beta iota.
    case_bool_decide; by apply wp_done.
  - unfold restrict_cond_do_filt. eapply touch_wp_seq; [apply wp_find_conditions; intros; apply wp_find_restrict|]. intros log1 [n c] _ _. by apply wp_done.
  - unfold common_cond_do_filt. eapply touch_wp_seq; [apply wp_find_conditions; intros; apply wp_find_unrestrict|]. intros log1 [n c] _ _. by apply wp_done.
  - unfold fixed_content_do_filt. eapply touch_wp_seq; [apply wp_fixed_contents|]. intros log1 m' _ _. by apply wp_done.
Qed.

Lemma wp_filters log time_stamp l ret mp m :
  crash → wp crash log nothing (run_filters time_stamp l ret mp m) (leaves log nothing (λ _, True)).
Proof.
  intros Hc. revert log ret m. induction l as [|f l IH]; intros log ret m; cbn [run_filters].
  - destruct ret; [by apply wp_done|done].
  - eapply touch_wp_seq; [by apply wp_filter|]. intros log1 [r m'] _ _. cbn beta iota. case_bool_decide; [by apply wp_done|apply IH].
Qed.

Lemma wp_events log time_stamp l ret mp m :
  crash → wp crash log nothing (run_events time_stamp l ret mp m) (leaves log nothing (λ _, True)).
Proof.
  intros Hc. revert log ret m. induction l as [|e l IH]; intros log ret m; cbn [run_events]; [by apply wp_done|].
  eapply touch_wp_seq; [by apply wp_filters|]. intros log1 [r m'] _ _. cbn beta iota. case_bool_decide; [by apply wp_done|apply IH].
Qed.

(** *** The tasks and the turns *)
Lemma touch_wp_answer log q body : crash → sound_request log q → wp crash log nothing (answer q body) (leaves log nothing (λ _, True)).
Proof.
  intros Hc Hq. apply wp_pure. destruct (encode 200 body (str "text/html")); [|done..]. apply wp_op; [done|intros; by split].
Qed.

Lemma wp_error log err_info n q : crash → sound_request log q → wp crash log nothing (http_response_error err_info n q) (leaves log nothing (λ _, True)).
Proof. intros Hc Hq. unfold http_response_error. destruct (err_info !! n); [by apply touch_wp_answer|by apply wp_done]. Qed.

Context (table_restrict table_unrestrict table_business table_fixed : list Z) (time_stamp threshold : Z).
Context (err_info : gmap Z (list Z)) (success : list Z).

(** The two tasks begin alike. *)
Lemma wp_begin log q (k : prog op unit) :
  crash → sound_request log q → (∀ log', log ⊆ log' → sound_request log' q → wp crash log' nothing k (leaves log' nothing (λ _, True))) →
  wp crash log nothing
    (do! _ := act Millseconds in do! result := check_request_queued_timeout threshold q in
     if bool_decide (result = -1) then http_response_error err_info INTERNAL_TIMEOUT q else k) (leaves log nothing (λ _, True)).
Proof.
  intros Hc Hq Hk. op_step. intros log1 ? Hl1 _. unfold check_request_queued_timeout.
  eapply (touch_wp_seq _ _ nothing _ _ _ (λ _, True)); [op_step; intros; by apply wp_done|]. intros log2 r Hl2 _. cbn beta.
  assert (sound_request log2 q) as Hq2 by by apply Hl2, Hl1.
  case_bool_decide; [by apply wp_error|]. apply Hk; [|done]. by transitivity log1.
Qed.

Lemma wp_task log t :
  crash → sound_request log (request_of t) →
  wp crash log nothing (run_task table_restrict table_unrestrict table_business table_fixed time_stamp threshold err_info success t)
    (leaves log nothing (λ _, True)).
Proof.
  intros Hc. destruct t as [q|q]; cbn [run_task request_of]; intros Hq.
  - apply wp_begin; [done..|]. intros log1 _ Hq1. unfold touch_core. eapply touch_wp_seq; [by apply wp_events|]. intros log2 [r m] Hl2 _. cbn beta iota.
    assert (sound_request log2 q) by by apply Hl2. case_bool_decide; [by apply touch_wp_answer|by apply wp_error].
  - apply wp_begin; [done..|]. intros log1 _ Hq1. cbv zeta.
    match goal with |- context [if ?b then _ else _] => destruct b end; [by apply wp_error|].
    eapply touch_wp_seq; [by apply wp_update|]. intros log2 r Hl2 _. cbn beta.
    assert (sound_request log2 q) by by apply Hl2. case_bool_decide; [by apply wp_error|by apply touch_wp_answer].
Qed.

(** What a thread does with what it took from a queue. *)
Lemma touch_wp_taken {T} log (o : op (Z * option T)) (k : T → prog op unit) :
  requires _ log nothing o → (∀ a, learns _ nothing o a = nothing) →
  (∀ log' r x, log ⊆ log' → possible _ log' o (r, Some x) → wp crash log' nothing (k x) (leaves log' nothing (λ _, True))) →
  wp crash log nothing (do! r := act o in
    let (result, data) := (r : Z * option T) in
    if bool_decide (result ≠ 1) then Done tt else match data with Some x => k x | None => Done tt end) (leaves log nothing (λ _, True)).
Proof.
  intros Hr Hs Hk. apply prog_wp_bind, prog_wp_act; [done|]. intros log' [r data] Hl Hp. rewrite Hs. cbn beta iota.
  case_bool_decide; [by split_and!|]. destruct data as [x|]; [|by split_and!]. eapply prog_wp_mono; [by eapply Hk|].
  intros log2 h u (? & -> & _). split_and!; [|done..]. by transitivity log'.
Qed.

Lemma touch_wp_turn r p log :
  (r = Worker → crash) →
  turn table_restrict table_unrestrict table_business table_fixed time_stamp threshold err_info success r p →
  wp crash log nothing p (leaves log nothing (λ _, True)).
Proof.
  intros Hc Ht. destruct Ht.
  - apply touch_wp_taken; [done..|]. intros log' r q _ Hq. specialize (Hq q eq_refl). cbn beta. case_bool_decide as E1; [by apply wp_done|].
    case_bool_decide as E2; [apply wp_op; [done|intros; by split]|]. case_bool_decide as E3; [apply wp_op; [done|intros; by split]|].
    exfalso. revert E1 E2 E3. unfold server_path2id. by repeat case_bool_decide.
  - apply touch_wp_taken; [done..|]. intros log' r t _ Ht. apply wp_task; auto.
  - apply touch_wp_taken; [done..|]. intros log' r x _ Hx. specialize (Hx x eq_refl).
    eapply (wp_then _ _ _ _ nothing _ (λ _, True)); [done|intros; by split|]. intros log2 ? Hl2 _. apply wp_op; [split; [done|by apply Hl2]|intros; by split].
  - apply wp_flush_ttl.
Qed.
End programs.

(** ** The invariant *)

(** [mode] says what each thread does with the lock. *)
Definition lock_ok (l : rwlock) (mode : positive → lock_mode) : Prop :=
  (∃ X : gset positive, readers l = size X ∧ ∀ i, i ∈ X ↔ mode i = Reading) ∧
  (∀ i, mode i = Writing → writing l = true ∧ ∀ j, mode j ≠ Free → j = i) ∧
  (writing l = true → ∃ i, mode i = Writing).

Lemma lock_ok_ext l mode mode' : (∀ i, mode i = mode' i) → lock_ok l mode → lock_ok l mode'.
Proof.
  intros E (HX & Hw & Hl). split_and!.
  - destruct HX as (X & Hn & HX). exists X. split; [done|]. intros i. by rewrite HX, E.
  - intros i. rewrite <-E. intros [? Hj]%Hw. split; [done|]. intros j. rewrite <-E. apply Hj.
  - intros [i Hi]%Hl. exists i. by rewrite <-E.
Qed.

Lemma lock_no_writer l mode i : lock_ok l mode → mode i = Reading → writing l = false.
Proof.
  intros (_ & Hw & Hl) Hi. destruct (writing l) eqn:E; [|done]. destruct (Hl eq_refl) as [j Hj].
  destruct (Hw j Hj) as [_ Hu]. rewrite <-(Hu i) in Hj by (by rewrite Hi). congruence.
Qed.

Lemma lock_rd l mode i :
  mode i = Free → writing l = false → lock_ok l mode → lock_ok (RWLock (S (readers l)) (writing l)) (<[i := Reading]> mode).
Proof.
  intros Hi Hf (HX & Hw & Hl). split_and!; cbn [readers writing].
  - destruct HX as (X & Hn & HX). exists ({[ i ]} ∪ X). split.
    + rewrite size_union, size_singleton, Hn; [done|]. apply disjoint_singleton_l. by rewrite HX, Hi.
    + intros j. rewrite elem_of_union, elem_of_singleton, HX. destruct (decide (j = i)) as [->|Hne].
      * rewrite fn_lookup_insert. naive_solver.
      * rewrite fn_lookup_insert_ne by done. naive_solver.
  - intros j. destruct (decide (j = i)) as [->|Hne]; [by rewrite fn_lookup_insert|]. rewrite fn_lookup_insert_ne by done.
    intros [E _]%Hw. congruence.
  - rewrite Hf. done.
Qed.

Lemma lock_wr l mode i :
  mode i = Free → writing l = false → readers l = 0%nat → lock_ok l mode → lock_ok (RWLock (readers l) true) (<[i := Writing]> mode).
Proof.
  intros Hi Hf Hr (HX & Hw & Hl). destruct HX as (X & Hn & HX). rewrite Hr in Hn. symmetry in Hn. apply size_empty_iff in Hn.
  assert (∀ j, mode j = Free) as Hfree.
  { intros j. destruct (mode j) eqn:E; [done| |]; [apply HX in E; set_solver|]. apply Hw in E as [? _]. congruence. }
  split_and!; cbn [readers writing].
  - exists ∅. split; [by rewrite size_empty|]. intros j. split; [set_solver|]. destruct (decide (j = i)) as [->|Hne].
    + by rewrite fn_lookup_insert.
    + by rewrite fn_lookup_insert_ne, Hfree.
  - intros j Hj. assert (j = i) as ->.
    { destruct (decide (j = i)) as [->|Hne]; [done|]. by rewrite fn_lookup_insert_ne, Hfree in Hj. }
    split; [done|]. intros k Hk. destruct (decide (k = i)) as [->|Hne]; [done|]. by rewrite fn_lookup_insert_ne, Hfree in Hk.
  - intros _. exists i. by rewrite fn_lookup_insert.
Qed.

Lemma lock_un l mode i :
  mode i ≠ Free → lock_ok l mode →
  lock_ok (if writing l then RWLock (readers l) false else RWLock (pred (readers l)) false) (<[i := Free]> mode).
Proof.
  intros Hi Hok. destruct (mode i) eqn:E; [done| |].
  - rewrite (lock_no_writer _ _ _ Hok E). pose proof (lock_no_writer _ _ _ Hok E) as Hf. destruct Hok as (HX & Hw & Hl).
    split_and!; cbn [readers writing]; [| |done].
    + destruct HX as (X & Hn & HX). exists (X ∖ {[ i ]}). split.
      * rewrite size_difference by (apply singleton_subseteq_l; by apply HX). rewrite size_singleton, Hn. lia.
      * intros j. rewrite elem_of_difference, elem_of_singleton, HX. destruct (decide (j = i)) as [->|Hne].
        -- rewrite fn_lookup_insert. naive_solver.
        -- rewrite fn_lookup_insert_ne by done. naive_solver.
    + intros j. destruct (decide (j = i)) as [->|Hne]; [by rewrite fn_lookup_insert|]. rewrite fn_lookup_insert_ne by done.
      intros [? _]%Hw. congruence.
  - destruct Hok as (HX & Hw & Hl). destruct (Hw i E) as [-> Hu]. split_and!; cbn [readers writing]; [| |done].
    + destruct HX as (X & Hn & HX). exists X. split; [done|]. intros j. rewrite HX. destruct (decide (j = i)) as [->|Hne].
      * rewrite fn_lookup_insert. split; [congruence|done].
      * by rewrite fn_lookup_insert_ne.
    + intros j. destruct (decide (j = i)) as [->|Hne]; [by rewrite fn_lookup_insert|]. rewrite fn_lookup_insert_ne by done.
      intros Hj. by rewrite (Hu j) in Hne by (by rewrite Hj).
Qed.

(** How many hold the lock. *)
Definition unlocked (l : rwlock) : rwlock := if writing l then RWLock (readers l) false else RWLock (pred (readers l)) false.
Definition held (l : rwlock) : nat := readers l + if writing l then 1 else 0.

Lemma held_less l mode i : lock_ok l mode → mode i ≠ Free → (held (unlocked l) < held l)%nat.
Proof.
  intros Hok Hi. unfold held, unlocked. destruct (mode i) eqn:E; [done| |].
  - rewrite (lock_no_writer _ _ _ Hok E). cbn [readers writing]. destruct Hok as ((X & -> & HX) & _). apply HX in E.
    assert (size X ≠ 0%nat); [|lia]. intros E0%size_empty_iff. set_solver.
  - destruct Hok as (_ & Hw & _). destruct (Hw i E) as [-> _]. cbn [readers writing]. lia.
Qed.

(** Every client of Redis is in its pool or with one thread. *)
Definition clients_ok (clients pool : side → list loc) (held : positive → option (side * loc)) : Prop :=
  (∀ s, NoDup (pool s)) ∧
  (∀ s c, c ∈ clients s ↔ c ∈ pool s ∨ ∃ i, held i = Some (s, c)) ∧
  (∀ s c i, held i = Some (s, c) → (c ∉ pool s) ∧ ∀ j, held j = Some (s, c) → j = i).

Lemma clients_ok_ext clients pool pool' held held' :
  (∀ s, pool s = pool' s) → (∀ i, held i = held' i) → clients_ok clients pool held → clients_ok clients pool' held'.
Proof.
  intros Ep Eh (Hn & Hc & Hh). split_and!.
  - intros s. by rewrite <-Ep.
  - intros s c. rewrite Hc, Ep. by setoid_rewrite Eh.
  - intros s c i. rewrite <-Eh, <-Ep. intros [? Hu]%Hh. split; [done|]. intros j. rewrite <-Eh. apply Hu.
Qed.

Lemma clients_take clients pool pool' held i s c :
  held i = None → pool s = c :: pool' s → (∀ s', s' ≠ s → pool' s' = pool s') → clients_ok clients pool held →
  clients_ok clients pool' (<[i := Some (s, c)]> held).
Proof.
  intros Hi Es Eo (Hn & Hc & Hh). pose proof (Hn s) as Hs. rewrite Es in Hs. apply NoDup_cons in Hs as [Hcs Hs].
  assert (∀ s' d, d ∈ pool s' ↔ d ∈ pool' s' ∨ s' = s ∧ d = c) as Hin.
  { intros s' d. destruct (decide (s' = s)) as [->|Hne]; [rewrite Es, elem_of_cons; naive_solver|rewrite Eo by done; naive_solver]. }
  split_and!.
  - intros s'. destruct (decide (s' = s)) as [->|Hne]; [done|]. by rewrite Eo.
  - intros s' d. rewrite Hc, Hin. split.
    + intros [[?|[-> ->]]|[j Hj]]; [by left|right; exists i; by rewrite fn_lookup_insert|].
      right. exists j. rewrite fn_lookup_insert_ne; [done|]. intros ->. congruence.
    + intros [?|[j Hj]]; [by left; left|]. destruct (decide (j = i)) as [->|Hne].
      * rewrite fn_lookup_insert in Hj. injection Hj as <- <-. left; by right.
      * rewrite fn_lookup_insert_ne in Hj by done. right. by exists j.
  - intros s' d j Hj. destruct (decide (j = i)) as [->|Hne].
    + rewrite fn_lookup_insert in Hj. injection Hj as <- <-. split; [done|]. intros k Hk. destruct (decide (k = i)) as [->|Hne]; [done|].
      rewrite fn_lookup_insert_ne in Hk by done. apply Hh in Hk as [Hk _]. rewrite Hin in Hk. tauto.
    + rewrite fn_lookup_insert_ne in Hj by done. destruct (Hh _ _ _ Hj) as [Hp Hu]. rewrite Hin in Hp. split; [tauto|].
      intros k Hk. destruct (decide (k = i)) as [->|Hnk]; [rewrite fn_lookup_insert in Hk; injection Hk as <- <-; tauto|].
      rewrite fn_lookup_insert_ne in Hk by done. by apply Hu.
Qed.

Lemma clients_give clients pool pool' held i s c :
  held i = Some (s, c) → pool' s = pool s ++ [c] → (∀ s', s' ≠ s → pool' s' = pool s') → clients_ok clients pool held →
  clients_ok clients pool' (<[i := None]> held).
Proof.
  intros Hi Es Eo (Hn & Hc & Hh). destruct (Hh _ _ _ Hi) as [Hcs Hu].
  assert (∀ s' d, d ∈ pool' s' ↔ d ∈ pool s' ∨ s' = s ∧ d = c) as Hin.
  { intros s' d. destruct (decide (s' = s)) as [->|Hne]; [rewrite Es, elem_of_app, list_elem_of_singleton; naive_solver|rewrite Eo by done; naive_solver]. }
  split_and!.
  - intros s'. destruct (decide (s' = s)) as [->|Hne]; [|by rewrite Eo]. rewrite Es. apply NoDup_app. split_and!; [done| |apply NoDup_singleton].
    intros x Hx ->%list_elem_of_singleton. done.
  - intros s' d. rewrite Hc, Hin. split.
    + intros [?|[j Hj]]; [by left; left|]. destruct (decide (j = i)) as [->|Hne].
      * rewrite Hi in Hj. injection Hj as <- <-. left; by right.
      * right. exists j. by rewrite fn_lookup_insert_ne.
    + intros [[?|[-> ->]]|[j Hj]]; [by left|right; by exists i|]. destruct (decide (j = i)) as [->|Hne].
      * by rewrite fn_lookup_insert in Hj.
      * rewrite fn_lookup_insert_ne in Hj by done. right. by exists j.
  - intros s' d j Hj. destruct (decide (j = i)) as [->|Hne]; [by rewrite fn_lookup_insert in Hj|].
    rewrite fn_lookup_insert_ne in Hj by done. destruct (Hh _ _ _ Hj) as [Hp Hu']. rewrite Hin. split.
    + intros [?|[-> ->]]; [done|]. by rewrite (Hu j) in Hne.
    + intros k Hk. destruct (decide (k = i)) as [->|Hnk]; [by rewrite fn_lookup_insert in Hk|].
      rewrite fn_lookup_insert_ne in Hk by done. by apply Hu'.
Qed.

(** The counters, which began with [start], and the answers noted of them. *)
Definition counts_ok (start now : list Z → Z) (log : list count_event) : Prop :=
  ∀ key, start key + attempts key log < 2 ^ 31 →
    0 ≤ now key ≤ start key + attempts key log ∧
    StronglySorted Z.lt (filter (λ r, r ≠ -1) (answers_since key log)) ∧
    ∀ r, r ∈ answers_since key log → r = -1 ∨ 1 ≤ r ≤ now key.

Lemma answers_snoc key log e : answers_since key (log ++ [e]) = answers_step key (answers_since key log) e.
Proof. unfold answers_since. by rewrite foldl_app. Qed.

Lemma attempts_app key log log' : attempts key (log ++ log') = attempts key log + attempts key log'.
Proof. unfold attempts. rewrite filter_app, length_app. lia. Qed.

Lemma attempts_one key k r : attempts key [Incremented k r] = if bool_decide (k = key) then 1 else 0.
Proof. unfold attempts. rewrite filter_cons. cbn [attempt]. by destruct (bool_decide (k = key)). Qed.

Lemma attempts_nonneg key log : 0 ≤ attempts key log.
Proof. unfold attempts. lia. Qed.

Lemma counts_ok_ext start now now' log : (∀ key, now' key = now key) → counts_ok start now log → counts_ok start now' log.
Proof. intros E Hc key. rewrite E. apply Hc. Qed.

(** A key is set back, whatever has become of its counter. *)
Lemma counts_reset start now now' log key :
  (∀ k, k ≠ key → now' k = now k) → (now' key = 0 ∨ now' key = now key) → (∀ k, 0 ≤ start k) →
  counts_ok start now log → counts_ok start now' (log ++ [Reset key]).
Proof.
  intros Eo Ek Hs Hc k. rewrite attempts_app, answers_snoc. change (attempts k [Reset key]) with 0. rewrite Z.add_0_r. cbn [answers_step]. intros Hb.
  destruct (Hc k Hb) as (Hn & Hsort & Hr). case_bool_decide as E.
  - subst k. split; [|split; [apply SSorted_nil|by intros r ?%not_elem_of_nil]]. specialize (Hs key). pose proof (attempts_nonneg key log). lia.
  - rewrite Eo by congruence. done.
Qed.

Lemma counts_increment start now now' log key r :
  (∀ k, k ≠ key → now' k = now k) →
  (now' key = now key + 1 ∧ (r = -1 ∨ r = s32 (now' key)) ∨ now' key = now key ∧ r = -1) →
  counts_ok start now log → counts_ok start now' (log ++ [Incremented key r]).
Proof.
  intros Eo Ek Hc k. rewrite attempts_app, attempts_one, answers_snoc. cbn [answers_step]. case_bool_decide as E.
  - subst k.
    intros Hb. destruct (Hc key ltac:(lia)) as (Hn & Hsort & Hr).
    assert (r = -1 ∧ now key ≤ now' key ≤ now key + 1 ∨ r = now' key ∧ now' key = now key + 1) as Hx.
    { destruct Ek as [[E [->|Er]]|[E ->]]; [left; split; [done|lia]| |left; split; [done|lia]].
      right. split; [|done]. rewrite Er. unfold s32. apply sw_id; lia. }
    split_and!; [lia|lia| |].
    + rewrite filter_app. destruct Hx as [[-> _]|[-> E]]; [by rewrite filter_cons_False, app_nil_r by (by intros [])|].
      rewrite filter_cons_True by lia. apply StronglySorted_app_2; [|done|repeat constructor].
      intros x1 x2 [Hne Hx1]%list_elem_of_filter ->%list_elem_of_singleton. destruct (Hr x1 Hx1); lia.
    + intros x [Hx'| ->%list_elem_of_singleton]%elem_of_app; [|lia]. destruct (Hr x Hx'); [by left|right; lia].
  - rewrite Z.add_0_r, Eo by congruence. apply Hc.
Qed.

Section touch_invariant.
Context {K : Type} `{StoreLaws K} `{Boost} `{HttpServer.RequestDecoderLaws}.
Context (table_restrict table_unrestrict table_business table_fixed : list Z) (time_stamp threshold : Z).
Context (err_info : gmap Z (list Z)) (success : list Z).
Context (clients : side → list loc) (start : list Z → Z) (start_pos : ∀ key, 0 ≤ start key).
Implicit Types (w : world K).

Definition pools w (s : side) : list loc := m_list (redis_pool s w).

(** [hs] says what each thread holds. *)
Record world_ok w (hs : positive → holding) : Prop := {
  ok_http : HttpServer.reachable (w_http w);
  ok_store : store_ok (w_store w);
  ok_lock : lock_ok (w_lock w) (λ i, h_lock (hs i));
  ok_clients : clients_ok clients (pools w) (λ i, h_client (hs i));
  ok_counts : counts_ok start (counter (w_store w)) (w_counts w);
  ok_tasks : ∀ t, t ∈ m_list (w_tasks w) → sound_request (HttpServer.m_log (w_http w)) (request_of t);
  ok_responses : ∀ x, x ∈ m_list (w_responses w) → Accepted (rtn_clientfd x) (rtn_unify_tag x) ∈ HttpServer.m_log (w_http w);
}.

(** What an operation of the thread [i] leaves. *)
Definition kept w w' (hs : positive → holding) (i : positive) {A} (o : op A) (x : A) : Prop :=
  world_ok w' (<[i := learns A (hs i) o x]> hs) ∧ HttpServer.m_log (w_http w) ⊆ HttpServer.m_log (w_http w') ∧
  possible A (HttpServer.m_log (w_http w')) o x.

Lemma hs_same (hs : positive → holding) i j : <[i := hs i]> hs j = hs j.
Proof. destruct (decide (j = i)) as [->|Hne]; [by rewrite fn_lookup_insert|by rewrite fn_lookup_insert_ne]. Qed.

(** The holdings only matter point by point. *)
Lemma world_ok_ext w hs hs' : (∀ i, hs i = hs' i) → world_ok w hs → world_ok w hs'.
Proof.
  intros E [H1' H2' H3' H4' H5' H6' H7']. split; [done|done| | |done..].
  - eapply lock_ok_ext; [|exact H3']. intros i. cbn. by rewrite E.
  - eapply clients_ok_ext; [done| |exact H4']. intros i. cbn. by rewrite E.
Qed.

Lemma kept_still w w' hs i {A} (o : op A) x :
  learns A (hs i) o x = hs i → world_ok w' hs → HttpServer.m_log (w_http w) ⊆ HttpServer.m_log (w_http w') →
  possible A (HttpServer.m_log (w_http w')) o x → kept w w' hs i o x.
Proof.
  intros E Hw Hl Hp. split_and!; [|done..]. rewrite E. eapply world_ok_ext; [|exact Hw]. intros j. by rewrite hs_same.
Qed.

Lemma kept_pool i hs w s q c :
  world_ok w hs → h_client (hs i) = None → m_list (redis_pool s w) = c :: m_list q →
  world_ok (set_redis_pool s q w) (<[i := Holding (h_lock (hs i)) (Some (s, c))]> hs).
Proof.
  intros [H1' H2' H3' H4' H5' H6' H7'] Hc Eq. split; try by destruct s.
  - eapply lock_ok_ext; [|destruct s; exact H3']. intros j. cbn. destruct (decide (j = i)) as [->|Hne]; [by rewrite fn_lookup_insert|by rewrite fn_lookup_insert_ne].
  - eapply clients_ok_ext; [done| |apply (clients_take _ (pools w) (pools (set_redis_pool s q w)) (λ j, h_client (hs j)) i s c); [exact Hc| | |exact H4']].
    + intros j. cbn. destruct (decide (j = i)) as [->|Hne]; [by rewrite !fn_lookup_insert|by rewrite !fn_lookup_insert_ne].
    + unfold pools. rewrite Eq. by destruct s.
    + intros s' Hs. by destruct s, s'.
Qed.

Lemma kept_reback i hs w s c :
  world_ok w hs → h_client (hs i) = Some (s, c) →
  world_ok (set_redis_pool s (add_queue (redis_pool s w) c) w) (<[i := Holding (h_lock (hs i)) None]> hs).
Proof.
  intros [H1' H2' H3' H4' H5' H6' H7'] Hc. split; try by destruct s.
  - eapply lock_ok_ext; [|destruct s; exact H3']. intros j. cbn. destruct (decide (j = i)) as [->|Hne]; [by rewrite fn_lookup_insert|by rewrite fn_lookup_insert_ne].
  - eapply clients_ok_ext; [done| |apply (clients_give _ (pools w) (pools (set_redis_pool s (add_queue (redis_pool s w) c) w)) (λ j, h_client (hs j)) i s c); [exact Hc| | |exact H4']].
    + intros j. cbn. destruct (decide (j = i)) as [->|Hne]; [by rewrite !fn_lookup_insert|by rewrite !fn_lookup_insert_ne].
    + by destruct s.
    + intros s' Hs. by destruct s, s'.
Qed.

Lemma kept_lock i hs w l m :
  world_ok w hs → lock_ok l (<[i := m]> (λ j, h_lock (hs j))) → world_ok (set_lock l w) (<[i := Holding m (h_client (hs i))]> hs).
Proof.
  intros [H1' H2' H3' H4' H5' H6' H7'] Hl. split; try done.
  - eapply lock_ok_ext; [|exact Hl]. intros j. cbn. destruct (decide (j = i)) as [->|Hne]; [by rewrite !fn_lookup_insert|by rewrite !fn_lookup_insert_ne].
  - eapply clients_ok_ext; [done| |exact H4']. intros j. cbn. destruct (decide (j = i)) as [->|Hne]; [by rewrite fn_lookup_insert|by rewrite fn_lookup_insert_ne].
Qed.

(** An operation of Redis. *)
Lemma kept_redis w hs c {A} (q : redis_op A) r k :
  world_ok w hs → sound_query q → redis_do q c (w_store w) = Ret (r, k) → world_ok (count (count_of q r) (set_store k w)) hs.
Proof.
  intros [H1' H2' H3' H4' H5' H6' H7'] Hq E. apply redis_do_effect in E as [Hk He]; [|done]. split; try done.
  cbn [count set_store w_counts w_store]. revert He Hq.
  assert (∀ k', same_counters None (contents (w_store w)) (contents k') → counts_ok start (counter k') (w_counts w ++ [])) as Hsame.
  { intros k' Hs. rewrite app_nil_r. eapply counts_ok_ext; [|exact H5']. intros key. by apply Hs. }
  destruct q; cbn [redis_effect count_of sound_query]; try done; intros He Hq; try (by apply Hsame; apply He).
  - destruct He as (Hs & _ & Hz). apply (counts_reset _ (counter (w_store w)) _ _ (c_string key)); [|by destruct Hz as [?|[? _]]; auto|done|exact H5'].
    intros key' Hne. apply Hs. congruence.
  - destruct He as (Hs & _ & Hz). apply (counts_increment _ (counter (w_store w))); [|by apply Hz|exact H5'].
    intros key' Hne. apply Hs. congruence.
Qed.

Lemma touch_http_command e c s :
  HttpServer.reachable s → Accepted (HttpServer.clientfd c) (HttpServer.fd_unify_tag c) ∈ HttpServer.m_log s →
  HttpServer.reachable (HttpServer.submit e c s).2 ∧ HttpServer.m_log (HttpServer.submit e c s).2 = HttpServer.m_log s.
Proof.
  intros Hs Hc. split; [|unfold HttpServer.submit; by case_bool_decide]. eapply rtc_r; [exact Hs|]. by apply HttpServer.http_submit.
Qed.

Lemma touch_ok_set_http w hs s :
  world_ok w hs → HttpServer.reachable s → HttpServer.m_log (w_http w) ⊆ HttpServer.m_log s → world_ok (set_http s w) hs.
Proof.
  intros [H1' H2' H3' H4' H5' H6' H7'] Hs Hl. split; try done.
  - intros t Ht. by apply Hl, H6'.
  - intros x Hx. by apply Hl, H7'.
Qed.

Lemma kept_http w hs i e c {A} (o : op A) x :
  world_ok w hs → Accepted (HttpServer.clientfd c) (HttpServer.fd_unify_tag c) ∈ HttpServer.m_log (w_http w) →
  learns A (hs i) o x = hs i → (∀ log, possible A log o x) → kept w (set_http (HttpServer.submit e c (w_http w)).2 w) hs i o x.
Proof.
  intros Hw Hc Hl Hp. destruct (touch_http_command e c (w_http w) (ok_http _ _ Hw) Hc) as [Hr El].
  apply kept_still; [done| |cbn; by rewrite El|apply Hp]. apply touch_ok_set_http; [done..|by rewrite El].
Qed.

Lemma touch_take_request_ok a w hs i x w' : world_ok w hs → exec _ a TakeRequest w = Ret (x, w') → kept w w' hs i TakeRequest x.
Proof.
  intros Hw. cbn [exec]. destruct (dequeue_expand _ _) as [[r m] q] eqn:Ed. intros [= <- <-].
  pose proof (HttpServer.http_reachable_ok _ (ok_http _ _ Hw)) as Hok.
  apply dequeue_cases in Ed as [(y & l & El & -> & Eq & Ed)|[-> ->]].
  - apply kept_still; [done|apply touch_ok_set_http; [done| |done]|done|].
    + eapply rtc_r; [apply Hw|]. by eapply HttpServer.http_take.
    + intros m [= <-]. apply (HttpServer.ok_request _ Hok). rewrite El. by left.
  - assert (HttpServer.set_requests (HttpServer.m_request_queue (w_http w)) (HttpServer.m_requst_count (w_http w)) (w_http w) = w_http w) as ->
      by by destruct (w_http w).
    apply kept_still; [done|apply touch_ok_set_http; [done|apply Hw|done]|done|done].
Qed.

Lemma dequeue_redis_ok a w hs i s x w' :
  world_ok w hs → h_client (hs i) = None → exec _ a (DequeueRedis s) w = Ret (x, w') → kept w w' hs i (DequeueRedis s) x.
Proof.
  intros Hw Hc. cbn [exec]. destruct (dequeue_expand _ _) as [[r m] q] eqn:Ed. intros [= <- <-].
  pose proof Ed as Ed'. apply dequeue_cases in Ed as [(y & l & El & -> & Eq & Edn)|[-> ->]].
  - split_and!; [|by destruct s|].
    + apply kept_pool; [done..|]. by rewrite El, Eq.
    + unfold dequeue_expand in Ed'. rewrite Edn in Ed'. injection Ed' as <-. cbn. by split; [intros; eexists|].
  - split_and!; [|by destruct s|].
    + eapply world_ok_ext; [|destruct s; destruct Hw; split; done]. intros j. cbn [learns].
      destruct (decide (j = i)) as [->|Hne]; [rewrite fn_lookup_insert|by rewrite fn_lookup_insert_ne].
      cbn. rewrite <-Hc. by destruct (hs i).
    + cbn. split; [|by intros []]. intros ->. exfalso. revert Ed'. unfold dequeue_expand, dequeue, dequeue_nodelay.
      destruct (m_list (redis_pool s w)) eqn:El; [destruct (a_wait a); by rewrite ?El|done].
Qed.

Lemma touch_exec_ok A a (o : op A) w hs i x w' :
  world_ok w hs → requires A (HttpServer.m_log (w_http w)) (hs i) o → enabled o w → exec A a o w = Ret (x, w') → kept w w' hs i o x.
Proof.
  intros Hw [Hrc Hr] He E. pose proof Hw as [H1' H2' H3' H4' H5' H6' H7']. destruct o; try by eapply touch_take_request_ok.
  all: try by (revert E; cbn [exec]; intros [= <- <-]; apply kept_http; done).
  all: try by (revert E; cbn [exec]; intros [= <- <-]; apply kept_still; [done|by destruct Hw|done|done]).
  - by eapply dequeue_redis_ok.
  - revert E. cbn [exec]. intros [= <- <-]. split_and!; [by apply kept_reback|by destruct s|done].
  - revert E. cbn [exec]. destruct (redis_do q c (w_store w)) as [[r k]| |] eqn:Eq; [|done..]. intros [= <- <-].
    apply kept_still; [done|by eapply kept_redis; [|apply Hrc|]|done|done].
  - revert E. cbn [exec]. destruct (dequeue_expand _ _) as [[r c] q]. intros [= <- <-].
    destruct s; apply kept_still; [done|by split|done|done|done|by split|done|done].
  - revert E. cbn [exec]. intros [= <- <-]. destruct s; apply kept_still; [done|by split|done|done|done|by split|done|done].
  - revert E. cbn [exec]. destruct (mysql_read c sql (w_store w)) as [[r k]| |] eqn:Eq; [|done..]. intros [= <- <-].
    apply mysql_read_effect in Eq as (Hk & Hc & _); [|done]. apply kept_still; [done| |done|done].
    split; try done. eapply counts_ok_ext; [|exact H5']. intros key. by apply Hc.
  - revert E. cbn [exec]. destruct (mysql_write c sql (w_store w)) as [[r k]| |] eqn:Eq; [|done..]. intros [= <- <-].
    apply mysql_write_effect in Eq as (Hk & Hc & _); [|done]. apply kept_still; [done| |done|done].
    split; try done. eapply counts_ok_ext; [|exact H5']. intros key. by apply Hc.
  - revert E. cbn [exec]. intros [= <- <-]. split_and!; [|done..]. apply kept_lock; [done|]. by apply lock_rd.
  - revert E. cbn [exec]. intros [= <- <-]. split_and!; [|done..]. apply kept_lock; [done|]. destruct He. by apply lock_wr.
  - revert E. cbn [exec]. intros [= <- <-]. split_and!; [|done..]. apply kept_lock; [done|]. by apply lock_un.
  - revert E. cbn [exec]. destruct (index_business _ _) as [b c]. intros [= <- <-]. apply kept_still; [done|by split|done|done].
  - revert E. cbn [exec]. intros [= <- <-]. apply kept_still; [done| |done|done]. split; try done.
    simpl. intros t'. rewrite elem_of_app, list_elem_of_singleton. intros [?| ->]; auto.
  - revert E. cbn [exec]. destruct (dequeue_expand _ _) as [[r c] q] eqn:Ed. intros [= <- <-].
    destruct (ok_queue _ _ _ _ _ _ Ed H6') as [Hq Hx]. apply kept_still; [done|by split|done|done].
  - revert E. cbn [exec]. intros [= <- <-]. apply kept_still; [done| |done|done]. split; try done.
    simpl. intros t'. rewrite elem_of_app, list_elem_of_singleton. intros [?| ->]; auto.
  - revert E. cbn [exec]. destruct (dequeue_expand _ _) as [[r c] q] eqn:Ed. intros [= <- <-].
    destruct (ok_queue _ _ _ _ _ _ Ed H7') as [Hq Hx]. apply kept_still; [done|by split|done|done].
Qed.

Definition thread_ok (log : list action) (h : holding) (r : role) (p : prog op unit) : Prop :=
  wp (r = Worker) log h p (λ _ h' _, h' = nothing).

Record touch_ok (st : touch) (hs : positive → holding) : Prop := {
  ok_world : world_ok (the_world st) hs;
  ok_threads : ∀ i r p, the_threads st !! i = Some (r, p) → thread_ok (HttpServer.m_log (w_http (the_world st))) (hs i) r p;
  ok_others : ∀ i, the_threads st !! i = None → hs i = nothing;
}.

Abbreviation step := (touch_step table_restrict table_unrestrict table_business table_fixed time_stamp threshold err_info success).

Lemma touch_thread_mono log log' h r p : log ⊆ log' → thread_ok log h r p → thread_ok log' h r p.
Proof.
  intros Hl. apply prog_wp_grows; [apply _| |done|done].
  intros A g g' l o Hg [Hc Hr]. split; [exact Hc|]. destruct o; cbn [requires_rest] in *; try done; unfold sound_request in *; auto.
Qed.

Lemma touch_kept w w' ts hs :
  touch_ok (Touch w ts) hs → world_ok w' hs → HttpServer.m_log (w_http w) ⊆ HttpServer.m_log (w_http w') → touch_ok (Touch w' ts) hs.
Proof.
  intros [Hw Hts Ho] Hw' Hl. split; [done| |done]. intros i r p E. eapply touch_thread_mono; [exact Hl|]. by apply Hts.
Qed.

Lemma counts_expired w hs k ks :
  world_ok w hs → (∀ key, (key ∉ ks) → counter k key = counter (w_store w) key) → (∀ key, key ∈ ks → counter k key = 0) →
  counts_ok start (counter k) (w_counts w ++ (Reset <$> ks)).
Proof.
  intros Hw. pose proof (ok_counts _ _ Hw) as Hc. clear Hw. revert Hc. generalize (counter (w_store w)), (w_counts w).
  induction ks as [|key ks IH]; intros f log Hc Hk Hz.
  - cbn. rewrite app_nil_r. eapply counts_ok_ext; [|exact Hc]. intros key. apply Hk, not_elem_of_nil.
  - change (Reset <$> key :: ks) with ([Reset key] ++ (Reset <$> ks)). rewrite app_assoc.
    apply (IH (λ k', if decide (k' = key) then 0 else f k')).
    + apply (counts_reset _ f _ _ key); [intros k' Hne; by rewrite decide_False|left; by rewrite decide_True|done|done].
    + intros k' Hnot. case_decide; [subst; apply Hz; by left|]. apply Hk. by rewrite not_elem_of_cons.
    + intros k' Hin. apply Hz. by right.
Qed.

Lemma touch_does_ok w ts hs t r A (o : op A) k a x w' :
  touch_ok (Touch w ts) hs → ts !! t = Some (r, Do o k) → enabled o w → exec A a o w = Ret (x, w') →
  touch_ok (Touch w' (<[t := (r, k x)]> ts)) (<[t := learns A (hs t) o x]> hs).
Proof.
  intros [Hw Hts Ho] Et He E. cbn [the_world the_threads] in *.
  destruct (Hts _ _ _ Et) as [Hr Hp]. destruct (touch_exec_ok A a o w hs t x w' Hw Hr He E) as (Hw' & Hl & Hpo).
  split; [done| |]; cbn [the_world the_threads].
  - intros i r' p' [[<- [= <- <-]]|[Hne Ei]]%lookup_insert_Some.
    + rewrite fn_lookup_insert. by apply Hp.
    + rewrite fn_lookup_insert_ne by done. eapply touch_thread_mono; [exact Hl|]. by apply Hts.
  - intros i [Hi Hne]%lookup_insert_None. rewrite fn_lookup_insert_ne by done. by apply Ho.
Qed.

Lemma touch_step_ok st st' hs : step st st' → touch_ok st hs → ∃ hs', touch_ok st' hs'.
Proof.
  intros Hs Hok. pose proof Hok as [Hw Hts Ho].
  destruct Hs as [w ts ev s Hk E|w ts k ks Hk Hc Hz|w ts t r p Et Ht|w ts t r A o k a x w' Et He E]; cbn [the_world the_threads] in *.
  - exists hs. pose proof (HttpServer.http_reachable_ok _ (ok_http _ _ Hw)) as Hh. pose proof (HttpServer.handle_log _ _ _ Hh Hk E) as Hl.
    apply (touch_kept w); [done| |done]. apply touch_ok_set_http; [done| |done]. eapply rtc_r; [apply Hw|]. by eapply HttpServer.http_event.
  - exists hs. apply (touch_kept w); [done| |done]. pose proof (counts_expired w hs k ks Hw Hc Hz). by destruct Hw.
  - exists hs. assert (hs t = nothing) as Et0 by exact (Hts _ _ _ Et). split; [done| |]; cbn [the_world the_threads].
    + intros i r' p' [[<- [= <- <-]]|[_ E]]%lookup_insert_Some; [|by apply Hts]. unfold thread_ok. rewrite Et0.
      eapply prog_wp_mono; [eapply touch_wp_turn; [by intros ->|exact Ht]|]. by intros log h u (_ & -> & _).
    + intros i [Hi _]%lookup_insert_None. by apply Ho.
  - eexists. by eapply touch_does_ok.
Qed.

Lemma pool_of_list l : m_list (pool_of l) = l.
Proof.
  unfold pool_of. assert (∀ q, m_list (foldl add_queue q l) = m_list q ++ l) as Hf; [|by rewrite Hf].
  induction l as [|c l IH]; intros q; [by rewrite app_nil_r|]. cbn [foldl]. rewrite IH. cbn. by rewrite <-app_assoc.
Qed.

Lemma touch_started_ok k c sql_clients roles :
  store_ok k → (∀ key, start key = counter k key) → (∀ s, NoDup (clients s)) →
  touch_ok (started k c clients sql_clients roles) (λ _, nothing).
Proof.
  intros Hk Hs Hn. split.
  - split; cbn [started the_world w_http w_store w_lock w_tasks w_responses w_counts]; [constructor|done| | | |by intros ? ?%not_elem_of_nil..].
    + split_and!; [|done|done]. exists ∅. split; [by rewrite size_empty|]. intros i. split; [set_solver|done].
    + assert (∀ s, pools (the_world (started k c clients sql_clients roles)) s = clients s) as Ep by (intros []; apply pool_of_list).
      eapply clients_ok_ext; [by intros s; rewrite <-Ep|done|]. split_and!; [done| |done]. intros s d. cbn. naive_solver.
    + intros key _. rewrite <-Hs. cbn. pose proof (start_pos key). change (attempts key []) with 0. split; [lia|].
      split; [apply SSorted_nil|by intros r ?%not_elem_of_nil].
  - intros i r p. cbn [started the_threads]. intros E%elem_of_list_to_map_2. rewrite list_elem_of_fmap in E.
    by destruct E as ([i' r'] & [= -> -> ->] & _).
  - done.
Qed.

Lemma touch_reachable_ok k c sql_clients roles st :
  store_ok k → (∀ key, start key = counter k key) → (∀ s, NoDup (clients s)) →
  rtc step (started k c clients sql_clients roles) st → ∃ hs, touch_ok st hs.
Proof.
  intros Hk Hs Hn Hst. eapply (rtc_ind_r (λ st, ∃ hs, touch_ok st hs)); [eexists; by apply touch_started_ok| |exact Hst].
  intros y z _ Hstep [hs Hy]. by eapply touch_step_ok.
Qed.

(** *** The lock is let go *)
Lemma lock_holder st hs A (o : op A) :
  touch_ok st hs → ¬ enabled o (the_world st) → ∃ i, h_lock (hs i) ≠ Free.
Proof.
  intros [Hw _ _] Ho. destruct (ok_lock _ _ Hw) as ((X & Hn & HX) & Hwr & Hl).
  destruct (writing (w_lock (the_world st))) eqn:Ew; [destruct (Hl eq_refl) as [i Hi]; exists i; by rewrite Hi|].
  destruct o; cbn [enabled] in Ho; try done. rewrite Ew in Ho.
  destruct (set_choose_or_empty X) as [[i Hi]|HX0]; [exists i; apply HX in Hi; by rewrite Hi|].
  destruct Ho. split; [done|]. rewrite Hn, HX0. by rewrite size_empty.
Qed.

(** Under the lock, an operation gives it back or leaves it as it is. *)
Lemma exec_lock w w' A a (o : op A) x log h :
  h_lock h ≠ Free → requires_rest log h o → exec A a o w = Ret (x, w') →
  w_lock w' = unlocked (w_lock w) ∨ h_lock (learns A h o x) ≠ Free ∧ w_lock w' = w_lock w.
Proof.
  intros Hh Hr. destruct o; cbn [exec requires_rest learns h_lock] in *; try done; try (intros [= <- <-]; by right).
  all: try (destruct (dequeue_expand _ _) as [[? ?] ?]).
  all: try (by intros [= <- <-]; right; split; [done|]; by destruct s).
  all: try (intros [= <- <-]; by left).
  all: try (intros [= <- <-]; by right).
  - destruct (redis_do q c (w_store w)) as [[? ?]| |]; [|done..]. intros [= <- <-]. by right.
  - destruct (index_business _ _). intros [= <- <-]. by right.
Qed.

Lemma enabled_dec {A} (o : op A) w : {enabled o w} + {¬ enabled o w}.
Proof. destruct o; cbn [enabled]; try (by left); apply decide, _. Qed.

Lemma touch_exec_returns w hs A a (o : op A) :
  world_ok w hs → match o with MysqlRead _ _ | MysqlWrite _ _ => False | _ => True end → ∃ x, exec A a o w = Ret x.
Proof.
  intros Hw Ho. destruct o; cbn [exec]; try done; try by eexists.
  all: try by (destruct (dequeue_expand _ _) as [[? ?] ?]; eexists).
  - destruct (redis_do_returns _ q c (w_store w) (ok_store _ _ Hw)) as [[r k] ->]. by eexists.
  - destruct (index_business _ _). by eexists.
Qed.

(** A thread with the lock runs on alone until it gives the lock back, or
    crashes. *)
Lemma lock_released p st hs i r :
  touch_ok st hs → the_threads st !! i = Some (r, p) → h_lock (hs i) ≠ Free →
  ∃ st' hs', rtc step st st' ∧ touch_ok st' hs' ∧ (∀ j, j ≠ i → the_threads st' !! j = the_threads st !! j) ∧
    (the_threads st' !! i = Some (Worker, Crash) ∨ (held (w_lock (the_world st')) < held (w_lock (the_world st)))%nat).
Proof.
  revert st hs. induction p as [[]| |A o k IH]; intros [w ts] hs Hok Ei Hi; pose proof (ok_threads _ _ Hok _ _ _ Ei) as Hp.
  - unfold thread_ok in Hp. cbn in Hp. by rewrite Hp in Hi.
  - exists (Touch w ts), hs. split; [done|]. split; [done|]. split; [done|]. left. cbn in *. by rewrite Ei, Hp.
  - destruct Hp as [[_ Hr] _]. cbn [the_world the_threads] in *.
    assert (enabled o w) as He by by destruct o.
    destruct (touch_exec_returns w hs A (Answers HttpServer.demo_env TimedOut 0 (0, 0)) o (ok_world _ _ Hok)) as [[x w'] E]; [by destruct o|].
    pose proof (touch_does_ok _ _ _ _ _ _ _ _ _ _ _ Hok Ei He E) as Hok'.
    assert (step (Touch w ts) (Touch w' (<[i := (r, k x)]> ts))) as Hst by by eapply touch_does.
    destruct (exec_lock _ _ _ _ _ _ _ _ Hi Hr E) as [Hl|[Hf El]].
    + exists (Touch w' (<[i := (r, k x)]> ts)), (<[i := learns A (hs i) o x]> hs).
      split; [by apply rtc_once|]. split; [done|]. split; [intros j Hj; by apply lookup_insert_ne|]. right. cbn [the_world].
      rewrite Hl. apply (held_less _ (λ j, h_lock (hs j)) i); [apply Hok|done].
    + destruct (IH x (Touch w' (<[i := (r, k x)]> ts)) (<[i := learns A (hs i) o x]> hs)) as (st' & hs' & Hs' & Hok2 & Ho & Hx);
        [done|by apply lookup_insert_eq|by rewrite fn_lookup_insert|].
      exists st', hs'. split; [by eapply rtc_l|]. split; [done|]. split; [intros j Hj; rewrite Ho by done; by apply lookup_insert_ne|].
      destruct Hx as [?|Hx]; [by left|right]. cbn [the_world] in *. by rewrite <-El.
Qed.

(** All who hold it let it go one after the other. *)
Lemma lock_freed st hs i r A (o : op A) f :
  touch_ok st hs → the_threads st !! i = Some (r, Do o f) →
  ∃ st', rtc step st st' ∧ the_threads st' !! i = Some (r, Do o f) ∧
    (enabled o (the_world st') ∨ ∃ j, the_threads st' !! j = Some (Worker, Crash)).
Proof.
  remember (held (w_lock (the_world st))) as n eqn:En. revert st hs En. induction (lt_wf n) as [n _ IH]. intros st hs En Hok Ei.
  destruct (enabled_dec o (the_world st)) as [He|He]; [exists st; split; [done|]; split; [done|by left]|].
  destruct (lock_holder _ _ _ _ Hok He) as [j Hj]. destruct (the_threads st !! j) as [[r' p]|] eqn:Ej; [|by rewrite (ok_others _ _ Hok j Ej) in Hj].
  assert (i ≠ j) as Hij.
  { intros ->. destruct (ok_threads _ _ Hok _ _ _ Ei) as [[_ Hr] _]. destruct o; cbn [enabled] in He; try done; by rewrite Hr in Hj. }
  destruct (lock_released p st hs j r' Hok Ej Hj) as (st1 & hs1 & Hs1 & Hok1 & Ho & Hx).
  assert (the_threads st1 !! i = Some (r, Do o f)) as Ei1 by by rewrite Ho.
  destruct Hx as [Hc|Hx]; [exists st1; split; [done|]; split; [done|]; right; by exists j|].
  destruct (IH _ ltac:(rewrite En; exact Hx) st1 hs1 eq_refl Hok1 Ei1) as (st2 & Hs2 & Ei2 & Hx2). exists st2. split; [by etransitivity|done].
Qed.
End touch_invariant.

Lemma sorted_filter (P : Z → Prop) `{!∀ x, Decision (P x)} l : StronglySorted Z.lt l → StronglySorted Z.lt (filter P l).
Proof.
  induction 1 as [|x l Hs IH Hx]; [constructor|]. rewrite filter_cons. case_decide; [|done]. constructor; [done|].
  rewrite Forall_forall in *. intros y [_ Hy]%list_elem_of_filter. by apply Hx.
Qed.

(** The first [L] numbers hold no more than [L] different ones. *)
Lemma sorted_bounded l L : StronglySorted Z.lt l → (∀ r, r ∈ l → 1 ≤ r ≤ L) → slen l ≤ Z.max 0 L.
Proof.
  intros Hs Hb. assert (NoDup l) as Hn.
  { induction Hs as [|x l Hs IH Hx]; constructor.
    - intros Hin. rewrite Forall_forall in Hx. specialize (Hx x Hin). lia.
    - apply IH. intros r Hr. apply Hb. by right. }
  assert (l ⊆ seqZ 1 L) as Hsub by (intros r Hr; apply elem_of_seqZ; specialize (Hb r Hr); lia).
  pose proof (submseteq_length _ _ (NoDup_submseteq _ _ Hn Hsub)) as Hl. rewrite length_seqZ in Hl. lia.
Qed.

(** However the threads interleave: as long as a counter has been incremented
    fewer than 2^31 times, the answers to the increments since it was last set
    back grow strictly, so at most [L] of them are within a limit [L]. *)
Lemma answers_within {K : Type} `{StoreLaws K} `{Boost} `{HttpServer.RequestDecoderLaws} clients start st hs key L :
  touch_ok clients start st hs → start key + attempts key (w_counts (the_world st)) < 2 ^ 31 →
  slen (filter (λ r, r ≤ L ∧ r ≠ -1) (answers_since key (w_counts (the_world st)))) ≤ Z.max 0 L.
Proof.
  intros [Hw _ _] Hb. destruct (ok_counts _ _ _ _ Hw key Hb) as (_ & Hsort & Hr). apply sorted_bounded.
  - rewrite <-list_filter_filter. by apply sorted_filter.
  - intros r [[Hl Hne] Hin]%list_elem_of_filter. destruct (Hr r Hin); lia.
Qed.

(** What the server does to a counter, unless it sets it back, is to increment
    it. *)
Lemma count_grows {K : Type} `{StoreLaws K} `{Boost} `{HttpServer.RequestDecoderLaws} w hs clients start A a (o : op A) log h x (w' : world K) key :
  world_ok clients start w hs → requires A log h o → exec A a o w = Ret (x, w') →
  ∃ l, w_counts w' = w_counts w ++ l ∧ (Reset key ∉ l → counter (w_store w) key ≤ counter (w_store w') key).
Proof.
  intros Hw [Hc _] E. pose proof (ok_store _ _ _ _ Hw) as Hk.
  assert (∀ w2 : world K, w_counts w2 = w_counts w → same_counters None (contents (w_store w)) (contents (w_store w2)) →
    ∃ l, w_counts w2 = w_counts w ++ l ∧ (Reset key ∉ l → counter (w_store w) key ≤ counter (w_store w2) key)) as Hsame.
  { intros w2 El Hs. exists []. rewrite app_nil_r. split; [done|]. intros _. unfold counter. by rewrite (Hs key). }
  destruct o; cbn [exec requires_client] in *.
  all: try (destruct (dequeue_expand _ _) as [[? ?] ?]).
  all: try (injection E as <- <-; apply Hsame; first [done|by destruct s]).
  - destruct (redis_do q c (w_store w)) as [[r k]| |] eqn:Eq; [|done..]. injection E as <- <-. cbn [fst snd].
    apply redis_do_effect in Eq as [_ He]; [|done]. destruct Hc as [_ Hq]. exists (count_of q r). split; [done|]. intros Hnot. revert He.
    cbn [count set_store w_store]. unfold counter.
    destruct q; cbn [redis_effect count_of sound_query] in *; try done; intros He; try (by rewrite (proj1 He key)); try (by rewrite (proj1 (He Hq) key)).
    + destruct (decide (c_string key0 = key)) as [<-|Hne]; [destruct Hnot; by left|]. rewrite (proj1 He key); [done|congruence].
    + destruct He as (Hs & _ & Hz). destruct (decide (c_string key0 = key)) as [<-|Hne]; [destruct (Hz Hq) as [[-> _]|[-> _]]; lia|].
      rewrite (Hs key); [done|congruence].
  - destruct (mysql_read c sql (w_store w)) as [[r k]| |] eqn:Eq; [|done..]. injection E as <- <-.
    apply mysql_read_effect in Eq as (_ & Hs & _); [|done]. by apply Hsame.
  - destruct (mysql_write c sql (w_store w)) as [[r k]| |] eqn:Eq; [|done..]. injection E as <- <-.
    apply mysql_write_effect in Eq as (_ & Hs & _); [|done]. by apply Hsame.
  - destruct (index_business _ _). injection E as <- <-. by apply Hsame.
Qed.

Lemma server_counts {K : Type} `{StoreLaws K} `{Boost} `{HttpServer.RequestDecoderLaws} t1 t2 t3 t4 time_stamp threshold err_info success
    clients start st st' hs key :
  touch_step t1 t2 t3 t4 time_stamp threshold err_info success st st' → touch_ok clients start st hs →
  ∃ l, w_counts (the_world st') = w_counts (the_world st) ++ l ∧
    (Reset key ∉ l → counter (w_store (the_world st)) key ≤ counter (w_store (the_world st')) key).
Proof.
  intros Hs [Hw Hts _]. destruct Hs as [w ts ev s Hk E|w ts k ks Hk Hc Hz|w ts t r p Et Ht|w ts t r A o k a x w' Et He E]; cbn [the_world the_threads] in *.
  - exists []. by rewrite app_nil_r.
  - exists (Reset <$> ks). split; [done|]. intros Hnot. cbn. rewrite Hc; [done|]. intros Hin. apply Hnot, list_elem_of_fmap. by exists key.
  - exists []. by rewrite app_nil_r.
  - destruct (Hts _ _ _ Et) as [Hr _]. eapply count_grows; [exact Hw|exact Hr|exact E].
Qed.

(** A thread is about to use the client [x], or to give it back. *)
Definition at_client (p : prog op unit) (s : side) (x : loc) : Prop :=
  (∃ A (q : redis_op A) f, p = Do (RedisDo s x q) f) ∨ ∃ f, p = Do (RebackRedis s x) f.

Lemma at_client_held log h r p s x : thread_ok log h r p → at_client p s x → h_client h = Some (s, x).
Proof. intros Hp [(A & q & f & ->)|[f ->]]; destruct Hp as [[Hc _] _]; apply Hc. Qed.

Lemma client_at log h r p s x :
  thread_ok log h r p → h_client h = Some (s, x) → p = Crash ∧ r = Worker ∨ at_client p s x.
Proof.
  intros Hp Hh. destruct p as [[]| |A o f].
  - unfold thread_ok in Hp. cbn in Hp. by rewrite Hp in Hh.
  - by left.
  - right. destruct Hp as [[Hc _] _]. destruct o; cbn [requires_client] in Hc; try congruence.
    + right. exists f. congruence.
    + left. destruct Hc as [Hc _]. rewrite Hh in Hc. injection Hc as -> ->. by eexists _, _, _.
Qed.

(** Operations on the tables. *)
Definition uses_configs {A} (o : op A) : Prop :=
  match o with ReadConfigs | WriteConfigs _ | IndexBusiness _ => True | _ => False end.

(** ** Properties *)


(** C21 The threads never block each other for good at the lock of the tables.
    Whenever a thread [i] is at an operation [o], there is a way for the others to
    go on, each that holds the lock up to where it gives it back, after which the
    lock lets [o] through, unless a worker crashes on the way; [i] has not moved.  And
    every operation that is let through can be executed, apart from those of
    MySQL, where a field that is null is read, and none of which is done under
    the lock. *)
Theorem touch_lock_progress {K : Type} `{StoreLaws K} `{Boost} `{HttpServer.RequestDecoderLaws}
    t1 t2 t3 t4 time_stamp threshold err_info success clients (k : K) c sql_clients roles st i r A (o : op A) f :
  store_ok k → (∀ key, 0 ≤ counter k key) → (∀ s, NoDup (clients s)) →
  rtc (touch_step t1 t2 t3 t4 time_stamp threshold err_info success) (started k c clients sql_clients roles) st →
  the_threads st !! i = Some (r, Do o f) →
  (match o with MysqlRead _ _ | MysqlWrite _ _ => False | _ => True end → ∀ a, ∃ x, exec A a o (the_world st) = Ret x) ∧
  ∃ st', rtc (touch_step t1 t2 t3 t4 time_stamp threshold err_info success) st st' ∧ the_threads st' !! i = Some (r, Do o f) ∧
    (enabled o (the_world st') ∨ ∃ j, the_threads st' !! j = Some (Worker, Crash)).
Proof.
  intros Hk Hpos Hn Hst Ei.
  destruct (touch_reachable_ok _ _ _ _ _ _ _ _ clients (counter k) Hpos k c sql_clients roles st Hk (λ _, eq_refl) Hn Hst) as (hs & Hok).
  split; [intros Ho a; by eapply touch_exec_returns; [apply Hok|]|]. by eapply lock_freed.
Qed.

(** *** Witnesses *)
Definition demo_clients (s : side) : list loc := match s with Reader => [1%positive] | Writer => [2%positive] end.
Definition demo_business : business_config :=
  BusinessConfig (str "b") (str "") (str "r") (str "") (str "c") (str "") (str "") (str "1").
Definition demo_configs : configs :=
  Configs {[ str "c" := FixedConfig (str "c") (str "text") (str "hello") ]} {[ str "r" := CondConfig (str "r") (str "game") (str "7") ]}
    {[ str "b" := Some demo_business ]} ∅.
Definition demo_store : small_store := SmallStore ∅ ∅.
Abbreviation demo_step := (touch_step (H0 := boost_impl) (H1 := HttpServer.demo_decoder) (str "t1") (str "t2") (str "t3") (str "t4") 600 1000 ∅ (str "ok")).
Definition demo_started := started demo_store demo_configs demo_clients demo_clients [(1%positive, Timer); (2%positive, Timer)].

(** One timer holds the lock; the other waits for it. *)
Definition demo_timer : prog op unit := do_flush_redis_ttl_in_unrestrict_cond_config.
Definition after_lock : prog op unit := match demo_timer with Do RdLock k => k tt | _ => Crash end.
Definition demo_locked :=
  Touch (set_lock (RWLock 1 false) (the_world demo_started)) {[ 1%positive := (Timer, after_lock); 2%positive := (Timer, demo_timer) ]}.

Lemma demo_locked_reachable : rtc demo_step demo_started demo_locked.
Proof.
  eapply rtc_l; [apply (touch_turn _ _ _ _ _ _ _ _ _ _ 1%positive Timer demo_timer); [done|constructor]|].
  eapply rtc_l; [apply (touch_turn _ _ _ _ _ _ _ _ _ _ 2%positive Timer demo_timer); [done|constructor]|].
  eapply rtc_l; [|apply reflexive_eq].
  - eapply (touch_does _ _ _ _ _ _ _ _ _ _ 1%positive Timer unit RdLock (λ _, after_lock) (Answers HttpServer.demo_env TimedOut 0 (0, 0)));
      [|done|cbn [exec]; reflexivity]. by vm_compute.
  - unfold demo_locked. f_equal.
Qed.

Lemma demo_clients_nodup s : NoDup (demo_clients s).
Proof. destruct s; apply NoDup_singleton. Qed.

Lemma demo_store_ok : store_ok demo_store.
Proof. by unfold store_ok, small, small_with. Qed.

Lemma demo_counters key : 0 ≤ counter demo_store key.
Proof. cbn. by rewrite lookup_empty. Qed.


Definition demo_answers : answers := Answers HttpServer.demo_env TimedOut 0 (0, 0).

Lemma touch_lock_progress_witness :
  ∃ st, rtc demo_step demo_locked st ∧ the_threads st !! 2%positive = Some (Timer, demo_timer) ∧
    (enabled RdLock (the_world st) ∨ ∃ j, the_threads st !! j = Some (Worker, Crash)).
Proof.
  refine (proj2 (touch_lock_progress (H1 := boost_impl) (H2 := HttpServer.demo_decoder) (H3 := HttpServer.demo_decoder_laws) (str "t1") (str "t2") (str "t3") (str "t4")
    600 1000 ∅ (str "ok") demo_clients demo_store demo_configs demo_clients [(1%positive, Timer); (2%positive, Timer)] demo_locked
    2%positive Timer unit RdLock (λ _, after_lock) demo_store_ok demo_counters demo_clients_nodup demo_locked_reachable _)).
  by vm_compute.
Defined.
