(* ===== verification/TouchLimit.v ===== *)
(** * How often a business is granted
    ([filter_config.cpp], [do_filt_output_limit])

    Any number of searches for a business run at the same time over the state of
    [TouchServer.v], operation by operation, while the rest of the server does what
    it does.  The limit of a business is kept by no lock: each search increments
    its counter in Redis and compares the answer. *)

From Stdlib Require Import String.
From stdpp Require Import functions.
From S2P Require Import Prelude Text Utility Store Program Detacher BlockQueue FilterConfig TouchServer.
From S2P Require HttpServer.

(** ** Definitions *)

(** A search: what it has looked up and counted, and how it goes on. *)
Definition search : Type := list table_event * prog op (Z * gmap (list Z) (list Z)).
Record searches (K : Type) : Type := Searches { s_world : world K; s_searches : gmap positive search }.
Arguments Searches {K}. Arguments s_world {K}. Arguments s_searches {K}.

Section searching.
Context {K : Type} `{Store K}.

(** The others may do anything, such as add searches of their own or change the
    tables, but do not set the counter [key] back. *)
Inductive limit_step (key : list Z) : searches K → searches K → Prop :=
  | search_does w ss i tr A (o : op A) f a x w' :
      ss !! i = Some (tr, Do o f) → enabled o w → exec A a o w = Ret (x, w') →
      limit_step key (Searches w ss) (Searches w' (<[i := (noted A tr o x, f x)]> ss))
  | search_others w ss w' :
      store_ok (w_store w') → counter (w_store w) key ≤ counter (w_store w') key →
      limit_step key (Searches w ss) (Searches w' ss).

(** Each is at its beginning. *)
Definition begun (ss : gmap positive search) : Prop :=
  ∀ i s, ss !! i = Some s → ∃ m ids, s = ([], do_filt_output_limit m ids).

(** The search [i] has ended with a grant of the business [b]. *)
Definition grants (ss : gmap positive search) (i : positive) (b : business_config) (n : Z) : Prop :=
  ∃ tr id m, ss !! i = Some (tr ++ [Looked id (Some b); Counted (business_key b) (str "1") n], Done (0, granted_params b m)).

(** What [business_key] is to the server, and the limit. *)
Definition limited (key : list Z) (L : Z) (b : business_config) : Prop :=
  c_string (business_key b) = key ∧ ∃ v, atouint32_str (m_volumn b) = Ret v ∧ s32 v ≤ L.
End searching.

(** ** Lemmas: one search *)

(** It asks Redis for nothing but increments by one. *)
Definition increments {A} (q : redis_op A) : Prop := match q with Incrby _ value => value = str "1" | _ => False end.
Definition counts_only A (_ : unit) (_ : list table_event) (o : op A) : Prop :=
  match o with
  | RedisDo _ _ q => increments q
  | MysqlRead _ _ | MysqlWrite _ _ => False
  | _ => True
  end.

Definition search_wp {R} (tr : list table_event) (p : prog op R) (Q : list table_event → R → Prop) : Prop :=
  prog_wp (λ _ _ : unit, True) counts_only (λ _ _ _ _, True) noted True tt tr p (λ _, Q).

(** A result 0 is a grant: the last answer was within the limit of the business
    that was looked up last. *)
Definition found (tr : list table_event) (r : Z * gmap (list Z) (list Z)) : Prop :=
  r.1 = 0 → ∃ tr' id b n m, tr = tr' ++ [Looked id (Some b); Counted (business_key b) (str "1") n] ∧ r = (0, granted_params b m) ∧
    n ≠ -1 ∧ within b n.

Lemma search_bind {A B} tr (p : prog op A) (k : A → prog op B) Q :
  search_wp tr p (λ tr a, search_wp tr (k a) Q) → search_wp tr (p ≫= k) Q.
Proof. intros Hp. apply prog_wp_bind. eapply prog_wp_mono; [exact Hp|]. by intros []. Qed.

Lemma search_act {A} tr (o : op A) Q : counts_only A tt tr o → (∀ a, Q (noted A tr o a) a) → search_wp tr (act o) Q.
Proof. intros Ho HQ. split; [exact Ho|]. intros [] a _ _. apply HQ. Qed.

Lemma search_incrby tr k (Q : list table_event → Z → Prop) :
  Q tr (-1) → (∀ n, Q (tr ++ [Counted k (str "1") n]) n) → search_wp tr (do_redis_incrby k (str "1")) Q.
Proof.
  intros Hf Hq. unfold do_redis_incrby, with_redis, fetch_redis. apply search_bind.
  assert (∀ n, search_wp tr (fetch_attempts (DequeueRedis Writer) n) (λ tr' _, tr' = tr)) as Ha.
  { induction n as [|n IH]; [done|]. cbn [fetch_attempts]. apply search_bind, search_act; [done|]. intros [r c]. cbn beta iota.
    case_bool_decide; [apply IH|done]. }
  eapply prog_wp_mono; [apply Ha|]. intros [] tr' [c|] ->; [|done]. apply search_bind, search_act; [done|]. intros a.
  apply search_bind, search_act; [done|]. intros ?. apply Hq.
Qed.

Lemma search_spec tr m ids : search_wp tr (do_filt_output_limit m ids) found.
Proof.
  revert tr. induction ids as [|id ids IH]; intros tr; cbn [do_filt_output_limit]; [by intros [=]|].
  apply search_bind, search_act; [done|]. intros ?. apply search_bind, search_act; [done|]. intros b. apply search_bind, search_act; [done|].
  intros ?. cbn [noted]. destruct b as [b|]; [|apply IH]. apply search_bind, prog_wp_local.
  destruct (atouint32_str (m_volumn b)) as [v| |] eqn:Ev; [|done..]. apply search_bind, search_incrby.
  - rewrite bool_decide_eq_true_2 by done. by intros [=].
  - intros n. rewrite <-app_assoc. cbn [app]. case_bool_decide as En; [by intros [=]|]. case_bool_decide as El; [apply IH|].
    intros _. exists tr, id, b, n, m. split_and!; [done..|]. exists v. split; [done|lia].
Qed.

(** ** Lemmas: all of them *)
Section invariant.
Context {K : Type} `{StoreLaws K}.
Context (key : list Z) (first : Z) (first_pos : 0 ≤ first).
Implicit Types (w : world K) (ss : gmap positive search).

(** An answer of the counter. *)
Definition answered (tr : list table_event) (n : Z) : Prop := ∃ k, Counted k (str "1") n ∈ tr ∧ c_string k = key ∧ n ≠ -1.

(** While the counter fits: every answer is new. *)
Record distinct (now : Z) ss : Prop := {
  d_first : first ≤ now;
  d_range : ∀ i tr p n, ss !! i = Some (tr, p) → answered tr n → first < n ≤ now;
  d_one : ∀ i j tr p tr' p' n, ss !! i = Some (tr, p) → ss !! j = Some (tr', p') → answered tr n → answered tr' n → i = j;
}.

Record searches_ok (st : searches K) : Prop := {
  so_store : store_ok (w_store (s_world st));
  so_search : ∀ i tr p, s_searches st !! i = Some (tr, p) → search_wp tr p found;
  so_answers : counter (w_store (s_world st)) key < 2 ^ 31 → distinct (counter (w_store (s_world st)) key) (s_searches st);
}.

Lemma answered_snoc tr e n : answered (tr ++ [e]) n → answered tr n ∨ ∃ k, e = Counted k (str "1") n ∧ c_string k = key ∧ n ≠ -1.
Proof.
  intros (k & [Hk|<-%list_elem_of_singleton]%elem_of_app & ? & ?); [left; by exists k|right; by exists k].
Qed.

(** A step that brings no answer of the counter. *)
Lemma distinct_same now now' ss i tr p p' tr' :
  now ≤ now' → ss !! i = Some (tr, p) → (∀ n, answered tr' n → answered tr n) → distinct now ss → distinct now' (<[i := (tr', p')]> ss).
Proof.
  intros Hle Ei Hsub [Hf Hr Ho].
  assert (∀ j trj pj n, <[i := (tr', p')]> ss !! j = Some (trj, pj) → answered trj n → ∃ t q, ss !! j = Some (t, q) ∧ answered t n) as Hback.
  { intros j trj pj n [[<- [= <- <-]]|[_ E]]%lookup_insert_Some Ha; [exists tr, p; auto|by exists trj, pj]. }
  split; [lia| |].
  - intros j trj pj n E Ha. destruct (Hback _ _ _ _ E Ha) as (t & q & E' & Ha'). specialize (Hr _ _ _ _ E' Ha'). lia.
  - intros j j' trj pj trj' pj' n E E' Ha Ha'. destruct (Hback _ _ _ _ E Ha) as (t & q & ? & ?), (Hback _ _ _ _ E' Ha') as (t' & q' & ? & ?). eauto.
Qed.

(** A step that brings the next number. *)
Lemma distinct_next now ss i tr p p' k :
  ss !! i = Some (tr, p) → distinct now ss → distinct (now + 1) (<[i := (tr ++ [Counted k (str "1") (now + 1)], p')]> ss).
Proof.
  intros Ei [Hf Hr Ho].
  assert (∀ j trj pj n, <[i := (tr ++ [Counted k (str "1") (now + 1)], p')]> ss !! j = Some (trj, pj) → answered trj n →
    (∃ t q, ss !! j = Some (t, q) ∧ answered t n) ∨ j = i ∧ n = now + 1) as Hback.
  { intros j trj pj n [[<- [= <- <-]]|[_ E]]%lookup_insert_Some Ha; [|left; by exists trj, pj].
    apply answered_snoc in Ha as [Ha|(k' & [= _ <-] & _)]; [left; by exists tr, p|by right]. }
  split; [lia| |].
  - intros j trj pj n E Ha. destruct (Hback _ _ _ _ E Ha) as [(t & q & E' & Ha')|[-> ->]]; [specialize (Hr _ _ _ _ E' Ha')|]; lia.
  - intros j j' trj pj trj' pj' n E E' Ha Ha'.
    destruct (Hback _ _ _ _ E Ha) as [(t & q & E1 & A1)|[-> ->]], (Hback _ _ _ _ E' Ha') as [(t' & q' & E2 & A2)|[-> ?]]; [eauto| | |done].
    + specialize (Hr _ _ _ _ E1 A1). lia.
    + specialize (Hr _ _ _ _ E2 A2). lia.
Qed.

(** What an operation of a search may do to the counter. *)
Definition counted (w w' : world K) (tr tr' : list table_event) : Prop :=
  (counter (w_store w') key = counter (w_store w) key ∧ ∀ n, answered tr' n → answered tr n) ∨
  ∃ k r, tr' = tr ++ [Counted k (str "1") r] ∧ counter (w_store w') key = counter (w_store w) key + 1 ∧
    (r = -1 ∨ r = s32 (counter (w_store w) key + 1)).

Lemma incrby_counted c (q : redis_op Z) w r k tr key0 value :
  q = Incrby key0 value → value = str "1" → store_ok (w_store w) → redis_do q c (w_store w) = Ret (r, k) →
  store_ok k ∧ counted w (set_store k w) tr (tr ++ [Counted key0 (str "1") r]).
Proof.
  intros -> -> Hst E. apply redis_do_effect in E as [Hk He]; [|done]. split; [done|]. destruct He as (Hs & _ & He). specialize (He eq_refl).
  unfold counted, counter. cbn [set_store w_store]. destruct (decide (c_string key0 = key)) as [<-|Hne].
  - destruct He as [[En Hr]|[En ->]].
    + right. exists key0, r. split; [done|]. split; [done|]. by rewrite <-En.
    + left. split; [done|]. intros n [?|(k' & [= _ <-] & _ & [])]%answered_snoc; done.
  - left. split; [apply Hs; congruence|]. intros n [?|(k' & [= <- _] & ? & _)]%answered_snoc; done.
Qed.

Lemma exec_counted w w' A a (o : op A) x tr :
  store_ok (w_store w) → counts_only A tt tr o → exec A a o w = Ret (x, w') → store_ok (w_store w') ∧ counted w w' tr (noted A tr o x).
Proof.
  intros Hst Hc. assert (∀ w2 : world K, w_store w2 = w_store w → store_ok (w_store w2) ∧ counted w w2 tr tr) as Hsame.
  { intros w2 E. rewrite E. split; [done|]. left. by rewrite E. }
  destruct o; cbn [exec counts_only noted] in *; try done.
  all: try (destruct (dequeue_expand _ _) as [[? ?] ?]).
  all: try (intros [= <- <-]; apply Hsame; first [done|by destruct s]).
  - destruct (redis_do q c (w_store w)) as [[r k]| |] eqn:E; [|done..]. intros [= <- <-]. cbn [fst snd].
    destruct q; cbn [increments] in Hc; try done. subst value. cbn [count w_store]. by eapply (incrby_counted c _ w); [..|exact E].
  - destruct (index_business _ _). intros [= <- <-]. split; [done|]. left. split; [done|].
    by intros n [?|(k & [=] & _)]%answered_snoc.
Qed.

Lemma searches_step st st' : limit_step key st st' → searches_ok st → searches_ok st'.
Proof.
  intros Hs [Hst Hse Ha]. destruct Hs as [w ss i tr A o f a x w' Ei He E|w ss w' Hst' Hle]; cbn [s_world s_searches] in *.
  2:{ split; [done|done|]. cbn [s_world s_searches]. intros Hb. destruct Ha as [? Hr ?]; [lia|]. split; [lia| |done].
      intros i tr p n Ei Hn. specialize (Hr _ _ _ _ Ei Hn). lia. }
  destruct (Hse _ _ _ Ei) as [Hc Hp]. destruct (exec_counted _ _ _ _ _ _ _ Hst Hc E) as [Hst' Hx]. split; [done| |]; cbn [s_world s_searches].
  { intros j trj pj [[<- [= <- <-]]|[_ Ej]]%lookup_insert_Some; [by apply (Hp tt x)|by eapply Hse]. }
  intros Hb. destruct Hx as [[En Hsub]|(k & r & -> & En & Hr)].
  - rewrite En in *. by eapply distinct_same; [|exact Ei|exact Hsub|apply Ha].
  - specialize (Ha ltac:(lia)). assert (first ≤ counter (w_store w) key) by by destruct Ha.
    assert (r = -1 ∨ r = counter (w_store w) key + 1) as [->| ->].
    { destruct Hr as [->| ->]; [by left|right]. apply sw_id; lia. }
    + eapply distinct_same; [|exact Ei| |exact Ha]; [lia|]. intros n [?|(k' & [= _ <-] & _ & [])]%answered_snoc; done.
    + rewrite En. by eapply distinct_next.
Qed.

Lemma searches_reachable st st' : rtc (limit_step key) st st' → searches_ok st → searches_ok st'.
Proof. induction 1 as [|st st1 st2 Hs _ IH]; [done|]. intros Hok. by eapply IH, searches_step. Qed.

(** A grant is an answer. *)
Lemma grant_answer st i b n :
  searches_ok st → grants (s_searches st) i b n → c_string (business_key b) = key →
  within b n ∧ ∃ tr p, s_searches st !! i = Some (tr, p) ∧ answered tr n.
Proof.
  intros [_ Hse _] (tr & id & m & E) Hk. destruct (Hse _ _ _ E eq_refl) as (tr' & id' & b' & n' & m' & Etr & _ & Hne & Hw).
  change ([Looked ?x ?y; ?z]) with ([Looked x y] ++ [z]) in Etr. rewrite !app_assoc in Etr. apply app_inj_tail in Etr as [Etr En].
  apply app_inj_tail in Etr as [_ Eb]. simplify_eq. split; [done|]. eexists _, _. split; [exact E|]. exists (business_key b').
  split; [|done]. apply elem_of_app. right. right. by left.
Qed.
End invariant.

(** At the beginning nothing has been answered. *)
Lemma searches_begin {K : Type} `{StoreLaws K} key (w : world K) ss :
  store_ok (w_store w) → begun ss → searches_ok key (counter (w_store w) key) (Searches w ss).
Proof.
  intros Hst Hb. assert (∀ i tr p n, ss !! i = Some (tr, p) → ¬ answered key tr n) as Hno.
  { intros i tr p n E (k & Hk & _). destruct (Hb _ _ E) as (m & ids & [= -> _]). by apply not_elem_of_nil in Hk. }
  split; [done| |]; cbn [s_world s_searches].
  - intros i tr p E. destruct (Hb _ _ E) as (m & ids & [= -> ->]). apply search_spec.
  - intros _. split; [done| |].
    + intros i tr p n E Hn. by destruct (Hno _ _ _ _ E Hn).
    + intros i j tr p tr' p' n E _ Hn. by destruct (Hno _ _ _ _ E Hn).
Qed.

(** The last answer of a search. *)
Definition last_answer (ss : gmap positive search) (i : positive) : Z :=
  match ss !! i with Some (tr, _) => match last tr with Some (Counted _ _ n) => n | _ => 0 end | None => 0 end.

Lemma grants_last ss i b n : grants ss i b n → last_answer ss i = n.
Proof.
  intros (tr & id & m & E). unfold last_answer. rewrite E.
  change ([Looked id (Some b); ?z]) with ([Looked id (Some b)] ++ [z]). by rewrite app_assoc, last_snoc.
Qed.

(** The whole server between two updates of the tables is such an environment: a
    step of [TouchServer.v] that does not note the counter as set back does not
    lower it. *)
Lemma server_is_other {K : Type} `{StoreLaws K} `{Boost} `{HttpServer.RequestDecoderLaws} t1 t2 t3 t4 time_stamp threshold err_info success
    clients start st st' hs hs' key ss :
  touch_step t1 t2 t3 t4 time_stamp threshold err_info success st st' → touch_ok clients start st hs → touch_ok clients start st' hs' →
  (Reset key ∉ drop (length (w_counts (the_world st))) (w_counts (the_world st'))) →
  limit_step key (Searches (the_world st) ss) (Searches (the_world st') ss).
Proof.
  intros Hs Hok Hok' Hn. destruct (server_counts _ _ _ _ _ _ _ _ _ _ _ _ _ key Hs Hok) as (l & El & Hle).
  apply search_others; [apply Hok'|]. apply Hle. by rewrite El, drop_app_length in Hn.
Qed.

(** ** Properties *)

(** C10 Any number of searches run at once with each other and with anything that
    does not set the counter back.  Every search that ends with 0 has been
    granted a business whose counter was within its limit when it was incremented.
    And the searches that have been granted a business with the counter [key] and a
    limit of at most [L] are no more than what was left of [L] at the beginning,
    as long as the counter fits in 31 bits. *)
Theorem volume_limit {K : Type} `{StoreLaws K} key L (st st' : searches K) :
  let count (st : searches K) := counter (w_store (s_world st)) key in
  store_ok (w_store (s_world st)) → 0 ≤ count st → begun (s_searches st) → rtc (limit_step key) st st' → count st' < 2 ^ 31 →
  (∀ i tr r, s_searches st' !! i = Some (tr, Done r) → r.1 = 0 → ∃ b n, grants (s_searches st') i b n ∧ within b n) ∧
  ∀ G : gset positive, (∀ i, i ∈ G → ∃ b n, grants (s_searches st') i b n ∧ limited key L b) →
    Z.of_nat (size G) ≤ Z.max 0 (L - count st).
Proof.
  cbv zeta. destruct st as [w ss], st' as [w' ss']. cbn [s_world s_searches].
  intros Hst Hpos Hb Hrun Hfit. pose proof (searches_begin key w ss Hst Hb) as Hok.
  apply (searches_reachable key _ Hpos _ _ Hrun) in Hok. pose proof Hok as [_ Hse Ha]. cbn [s_world s_searches] in *. split.
  { intros i tr r E Er. destruct (Hse _ _ _ E Er) as (tr' & id & b & n & m & -> & -> & _ & Hw). exists b, n. split; [by exists tr', id, m|done]. }
  intros G HG. destruct (Ha Hfit) as [Hf Hr Ho].
  assert (∀ i, i ∈ G → ∃ tr p, ss' !! i = Some (tr, p) ∧ answered key tr (last_answer ss' i) ∧ last_answer ss' i ≤ L) as Hall.
  { intros i (b & n & Hg & Hk & v & Ev & Hv)%HG. destruct (grant_answer _ _ _ _ _ _ Hok Hg Hk) as ((v' & Ev' & Hv') & tr & p & E & Hn).
    rewrite (grants_last _ _ _ _ Hg). exists tr, p. split_and!; [done..|]. rewrite Ev in Ev'. injection Ev' as <-. lia. }
  assert (NoDup (last_answer ss' <$> elements G)) as Hnd.
  { apply NoDup_fmap_2_strong; [|apply NoDup_elements]. intros i j (tr & p & E & Hn & _)%elem_of_elements%Hall (tr' & p' & E' & Hn' & _)%elem_of_elements%Hall Eij.
    rewrite <-Eij in Hn'. by eapply Ho. }
  assert (last_answer ss' <$> elements G ⊆ seqZ (counter (w_store w) key + 1) (L - counter (w_store w) key)) as Hsub.
  { intros n (i & -> & (tr & p & E & Hn & Hl)%elem_of_elements%Hall)%list_elem_of_fmap. specialize (Hr _ _ _ _ E Hn). apply elem_of_seqZ. lia. }
  pose proof (submseteq_length _ _ (NoDup_submseteq _ _ Hnd Hsub)) as Hl. rewrite length_fmap, length_seqZ in Hl.
  change (length (elements G)) with (size G) in Hl. lia.
Qed.

(** ** Runs *)

(** One operation of the search [i]. *)
Definition passes {A} (o : op A) (l : rwlock) : bool :=
  match o with RdLock => negb (writing l) | WrLock => negb (writing l) && bool_decide (readers l = 0%nat) | _ => true end.

Definition play `{Store K} (i : positive) (st : searches K) : searches K :=
  match s_searches st !! i with
  | Some (tr, Do o f) =>
      if passes o (w_lock (s_world st)) then
        match exec _ demo_answers o (s_world st) with
        | Ret (x, w) => Searches w (<[i := (noted _ tr o x, f x)]> (s_searches st))
        | _ => st
        end
      else st
  | _ => st
  end.

Lemma play_steps `{Store K} key (l : list positive) (st : searches K) : rtc (limit_step key) st (foldl (λ st i, play i st) st l).
Proof.
  revert st. induction l as [|i l IH]; intros st; [done|]. cbn [foldl]. etransitivity; [|apply IH]. unfold play.
  destruct st as [w ss]. cbn [s_world s_searches]. destruct (ss !! i) as [[tr [r| |A o f]]|] eqn:E; [done..| |done].
  destruct (passes o (w_lock w)) eqn:Ep; [|done]. destruct (exec A demo_answers o w) as [[x w']| |] eqn:Ex; [|done..].
  apply rtc_once. eapply search_does; [done| |exact Ex]. revert Ep. destruct o; cbn [passes enabled]; try done.
  - by intros ?%negb_true_iff.
  - by intros [?%negb_true_iff ?%bool_decide_eq_true]%andb_prop.
Qed.

(** Two searches for the business "b", of which one may be granted. *)
Definition demo_begin (id : list Z) : searches small_store :=
  Searches (the_world demo_started) {[ 1%positive := ([], do_filt_output_limit ∅ [id]); 2%positive := ([], do_filt_output_limit ∅ [id]) ]}.
Definition demo_end : searches small_store := foldl (λ st i, play i st) (demo_begin (str "b")) (repeat 1%positive 3 ++ repeat 2%positive 6 ++ repeat 1%positive 3).

Lemma demo_begun id : begun (s_searches (demo_begin id)).
Proof. intros i s. cbn [s_searches demo_begin]. intros [[_ <-]|[_ [_ <-]%lookup_singleton_Some]]%lookup_insert_Some; by eexists _, _. Qed.

(** The second is granted the business, and the first counts past the limit. *)
Lemma volume_limit_witness :
  (fst <$> s_searches demo_end !! 1%positive) =
    Some [Looked (str "b") (Some demo_business); Counted (business_key demo_business) (str "1") 2] ∧
  grants (s_searches demo_end) 2 demo_business 1 ∧
  ∀ G : gset positive, (∀ i, i ∈ G → ∃ b n, grants (s_searches demo_end) i b n ∧ limited (business_key demo_business) 1 b) →
    Z.of_nat (size G) ≤ 1.
Proof.
  split; [by vm_compute|]. split.
  { exists [], (str "b"), ∅.
    vm_compute. reflexivity. }
  intros G HG.
  refine (proj2 (volume_limit (business_key demo_business) 1 (demo_begin (str "b")) demo_end _ _ _ _ _) G HG).
  - by vm_compute.
  - by vm_compute.
  - apply demo_begun.
  - apply (play_steps (business_key demo_business)).
  - by vm_compute.
Defined.

(** ** What goes wrong *)

(** Two searches for a business that is not in the table are both let through to
    the insertion by [operator[]]: nothing orders the two. *)
Definition at_insertion {R} (id : list Z) (p : prog op R) : bool :=
  match p with Do (IndexBusiness key) _ => bool_decide (key = id) | _ => false end.

Lemma insertions_meet :
  let st := foldl (λ st i, play i st) (demo_begin (str "x")) [1; 2]%positive in
  rtc (limit_step []) (demo_begin (str "x")) st ∧
  m_business_config (w_configs (s_world st)) !! str "x" = None ∧
  (at_insertion (str "x") ∘ snd <$> s_searches st !! 1%positive) = Some true ∧
  (at_insertion (str "x") ∘ snd <$> s_searches st !! 2%positive) = Some true ∧
  enabled (IndexBusiness (str "x")) (s_world st).
Proof. cbv zeta. split; [apply play_steps|]. split; [by vm_compute|]. split; [by vm_compute|]. split; [by vm_compute|done]. Qed.
