(* ===== verification/TouchTasks.v ===== *)
(** * What a task of the touch server does on its own

    The programs of [Filters.v] and [FilterConfig.v] run without interference, with
    clients of Redis that answer, against a specification of the whole chain of
    filters ([touch_spec]); what the update of the tables leaves; and what can go
    wrong: a client of MySQL is lost with every query that throws, the timer
    renews other keys than those of the sets, and an update between the steps of
    a request leaves a null pointer that the next request follows. *)

From Stdlib Require Import String.
From S2P Require Import Prelude Text Utility MyCommon BlockQueue Store Program Detacher FilterConfig Filters TouchServer.

(** ** The specification of a request *)

(** The first condition for the identity [key] that holds, by [holds]. *)
Fixpoint first_tag (holds : cond_config → bool) (key : list Z) (l : list (list Z * cond_config)) : list Z :=
  match l with
  | [] => []
  | (_, tmp) :: l => if bool_decide (key = m_control_identity tmp) && holds tmp then m_uniq_tag tmp else first_tag holds key l
  end.

(** The tags that the parameters of a request match. *)
Definition matched (find : list Z → list Z → list Z) (mapParam : params) : list (list Z) :=
  filter (λ t, t ≠ []) ((λ kv, find kv.1 kv.2) <$> items mapParam).

Definition restrict_tags (c : configs) (mapParam : params) : list (list Z) :=
  matched (λ k v, first_tag (λ tmp, bool_decide (v = m_estimated_value tmp)) k (items (m_restrict_cond_config c))) mapParam.
Definition unrestrict_tags (c : configs) (mem : list Z → list Z → bool) (mapParam : params) : list (list Z) :=
  matched (λ k v, first_tag (λ tmp, mem (c_string (cond_key tmp)) (c_string v)) k (items (m_unrestrict_cond_config c))) mapParam.

Section spec.
Context `{Boost} (m_time_stamp : Z).

(** Every part of [conf] is among the tags. *)
Definition meets (conf : list Z) (tags : list (list Z)) : bool :=
  forallb (λ p, bool_decide (p = []) || bool_decide (p ∈ tags)) (stringsplit conf (str "|")).

Definition in_time (now : Z) (b : business_config) : bool :=
  match out_of_time m_time_stamp now (m_valid_start_unixtime b) with Ret out => negb out | _ => false end.

(** A request with the two kinds of tags may have [b]: without any tag of the
    second kind it need not meet the second condition. *)
Definition eligible (now : Z) (regular unregular : list (list Z)) (b : business_config) : bool :=
  in_time now b && meets (m_regular_conf b) regular && (bool_decide (unregular = []) || meets (m_unregular_conf b) unregular).

Definition businesses (c : configs) : list business_config := omap (λ x, x.2) (items (m_business_config c)).

Definition volumn_of (b : business_config) : Z := match atouint32_str (m_volumn b) with Ret v => s32 v | _ => 0 end.

(** The first that has anything left, each that is tried being counted; a count that
    wraps around to -1 is taken for an error. *)
Fixpoint choose (counters : list Z → Z) (l : list business_config) : option business_config :=
  match l with
  | [] => None
  | b :: l =>
      let key := c_string (business_key b) in
      let n := counters key + 1 in
      if bool_decide (s32 n = -1) then None
      else if bool_decide (s32 n ≤ volumn_of b) then Some b
      else choose (λ k, if decide (k = key) then n else counters k) l
  end.

(** One part of the contents; a part that is not in the table stands for an item
    with an empty name. *)
Definition content_of (c : configs) (r : list Z) : list Z * list Z :=
  match m_fixed_content_config c !! r with Some tmp => (m_type tmp, fixed_estimated_value tmp) | None => ([], []) end.

Definition response_of (c : configs) (b : business_config) : params :=
  delete (str "task_conf")
    (insert_all (content_of c <$> stringsplit (m_regular_rtn_content_conf b) (str "|"))
       {[ str "unregular_rtn_content_conf" := m_unregular_rtn_content_conf b; str "task_conf" := m_task_conf b ]}).

Definition touch_spec (c : configs) (now : Z) (mem : list Z → list Z → bool) (counters : list Z → Z) (mapParam : params) : Z * option params :=
  let regular := restrict_tags c mapParam in
  let unregular := unrestrict_tags c mem mapParam in
  if bool_decide (regular = []) then (FILT_FAIL_IN_RESTRICT_COND_PERIORD, None)
  else match choose counters (filter (λ b, eligible now regular unregular b) (businesses c)) with
  | None => (FILT_FAIL_IN_ENTRY_BUSINESS_PERIORD, None)
  | Some b => (SUCCESS, Some (response_of c b))
  end.
End spec.

(** ** Running a program alone *)
Section run.
Context {K : Type} `{StoreLaws K} `{BoostLaws}.
Implicit Types (w : world K).

(** Redis answers. *)
Class StoreReliable : Prop := {
  incrby_answers c key (s : K) r s' :
    store_ok s → redis_do (Incrby key (str "1")) c s = Ret (r, s') →
    counter s' (c_string key) = counter s (c_string key) + 1 ∧ r = s32 (counter s' (c_string key));
  sismember_answers c key value (s : K) r s' : store_ok s → redis_do (Sismember key value) c s = Ret (r, s') → r ≠ -1;
}.

Abbreviation run1 := (run_with exec).

(** Nobody holds the lock, and the pools of clients of Redis are not empty. *)
Record calm w : Prop := {
  calm_lock : w_lock w = RWLock 0 false;
  calm_pools s : m_list (redis_pool s w) ≠ [];
  calm_store : store_ok (w_store w);
}.

Definition locked w : world K := set_lock (RWLock 1 false) w.

Lemma run_reading {B} a (k : configs → prog op B) w :
  w_lock w = RWLock 0 false →
  run1 a (do! _ := act RdLock in do! c := act ReadConfigs in k c) w = run1 a (k (w_configs w)) (locked w).
Proof. intros El. rewrite run_with_bind, run_with_act. cbn [exec mbind outcome_bind fst snd]. rewrite El, run_with_bind, run_with_act. done. Qed.

Lemma set_lock_id w l l' : w_lock w = l → set_lock l (set_lock l' w) = w.
Proof. intros <-. by destruct w. Qed.

Lemma exec_unlock a w : w_lock w = RWLock 0 false → exec unit a Unlock (locked w) = Ret (tt, w).
Proof. intros El. cbn [exec]. f_equal. f_equal. by apply (set_lock_id w). Qed.

Lemma run_unlock {B} a (r : B) w : w_lock w = RWLock 0 false → run1 a (do! _ := act Unlock in Done r) (locked w) = Ret (r, w).
Proof. intros El. by rewrite run_with_bind, run_with_act, exec_unlock. Qed.

(** One operation of Redis. *)
Lemma run_redis {A} a s (q : redis_op A) failed w :
  (∀ s, m_list (redis_pool s w) ≠ []) → store_ok (w_store w) →
  returns (run1 a (with_redis s q failed) w) (λ x,
    (∀ s, m_list (redis_pool s x.2) ≠ []) ∧ w_lock x.2 = w_lock w ∧ w_configs x.2 = w_configs w ∧
    w_mysql_rpool x.2 = w_mysql_rpool w ∧ store_ok (w_store x.2) ∧ redis_effect q x.1 (contents (w_store w)) (contents (w_store x.2)) ∧ ∃ c, redis_do q c (w_store w) = Ret (x.1, w_store x.2)).
Proof.
  intros Hp Hs. destruct (m_list (redis_pool s w)) as [|c l] eqn:El; [by destruct (Hp s)|].
  unfold with_redis, fetch_redis. cbn [fetch_attempts]. rewrite run_with_bind, run_with_bind, run_with_act. cbn [exec].
  unfold dequeue_expand, dequeue_nodelay. rewrite El. cbn [mbind outcome_bind fst snd].
  rewrite (bool_decide_eq_false_2 (1 ≠ 1)) by (by intros []). rewrite run_with_done. cbn [mbind outcome_bind fst snd].
  rewrite run_with_bind, run_with_act. cbn [exec]. set (w1 := set_redis_pool s _ w).
  assert (w_store w1 = w_store w) as Es by by destruct s. rewrite Es.
  destruct (redis_do_returns A q c (w_store w) Hs) as [[r k] E]. rewrite E. cbn [mbind outcome_bind fst snd].
  rewrite run_with_bind, run_with_act. cbn [exec mbind outcome_bind fst snd]. rewrite run_with_done. cbn [returns fst snd].
  pose proof E as [Hk He]%redis_do_effect; [|done].
  split; [|destruct s; split_and!; try done; by exists c].
  intros s'. destruct (decide (s' = s)) as [->|Hne].
  - destruct s; cbn; by destruct l.
  - specialize (Hp s'). by destruct s, s'.
Qed.

(** [w'] differs from [w] in nothing that a request reads; the lock is [l]. *)
Record quiet (l : rwlock) w w' : Prop := {
  q_lock : w_lock w' = l;
  q_pools s : m_list (redis_pool s w') ≠ [];
  q_store : store_ok (w_store w');
  q_configs : w_configs w' = w_configs w;
  q_members : same_members None (contents (w_store w)) (contents (w_store w'));
  q_counters : same_counters None (contents (w_store w)) (contents (w_store w'));
}.

Abbreviation free := (RWLock 0 false).

Lemma quiet_refl w : calm w → quiet free w w.
Proof. intros [? ? ?]. by split. Qed.

Lemma quiet_trans l l' w1 w2 w3 : quiet l w1 w2 → quiet l' w2 w3 → quiet l' w1 w3.
Proof.
  intros [? ? ? E1 M1 C1] [? ? ? E2 M2 C2]. split; try done; [by rewrite E2| |].
  - by eapply same_members_trans.
  - by eapply same_counters_trans.
Qed.

Lemma quiet_calm w w' : quiet free w w' → calm w'.
Proof. intros []. by split. Qed.

Lemma quiet_locked w : calm w → quiet (RWLock 1 false) w (locked w).
Proof. intros [El Hp Hs]. by split. Qed.

Lemma run_find_fixed a key value w :
  w_lock w = free →
  run1 a (do_find_in_fixed_content_config key value) w =
  Ret (match m_fixed_content_config (w_configs w) !! key with Some tmp => (m_type tmp, fixed_estimated_value tmp) | None => ([], value) end, w).
Proof. intros El. unfold do_find_in_fixed_content_config. rewrite run_reading by done. by apply run_unlock. Qed.

Lemma find_restrict_tag key value l : find_restrict key value l = first_tag (λ tmp, bool_decide (value = m_estimated_value tmp)) key l.
Proof. induction l as [|[i tmp] l IH]; [done|]. cbn [find_restrict first_tag]. by rewrite andb_comm, IH. Qed.

Lemma run_find_restrict a key value w :
  w_lock w = free →
  run1 a (do_find_in_restrict_cond_config key value) w =
  Ret (first_tag (λ tmp, bool_decide (value = m_estimated_value tmp)) key (items (m_restrict_cond_config (w_configs w))), w).
Proof. intros El. unfold do_find_in_restrict_cond_config. rewrite run_reading, find_restrict_tag by done. by apply run_unlock. Qed.

(** [mem] decides the sets in Redis. *)
Definition reflects (mem : list Z → list Z → bool) (k : K) : Prop := ∀ key value, mem key value = true ↔ member k key value.

Lemma reflects_same mem k k' : same_members None (contents k) (contents k') → reflects mem k → reflects mem k'.
Proof. intros Hs Hr key value. rewrite (Hr key value). symmetry. by apply Hs. Qed.

(** Giving back the lock after operations of Redis. *)
Lemma run_unlock_quiet {B} a (r : B) w w' :
  quiet (RWLock 1 false) w w' → returns (run1 a (do! _ := act Unlock in Done r) w') (λ x, x.1 = r ∧ quiet free w x.2).
Proof.
  intros [El Hp Hs Hc Hm Hn]. rewrite run_with_bind, run_with_act. cbn [exec mbind outcome_bind fst snd]. rewrite El, run_with_done.
  cbn [returns fst snd]. split; [done|]. by split.
Qed.

Lemma run_find_unrestrict `{!StoreReliable} a key value mem w :
  calm w → reflects mem (w_store w) →
  returns (run1 a (do_find_in_unrestrict_cond_config key value) w) (λ x,
    x.1 = first_tag (λ tmp, mem (c_string (cond_key tmp)) (c_string value)) key (items (m_unrestrict_cond_config (w_configs w))) ∧
    quiet free w x.2).
Proof.
  intros Hw Hmem. unfold do_find_in_unrestrict_cond_config. rewrite run_reading by apply Hw.
  generalize (items (m_unrestrict_cond_config (w_configs w))). intros l. pose proof (quiet_locked w Hw) as Hq. revert Hq.
  generalize (locked w). induction l as [|[i tmp] l IH]; intros w1 Hq; cbn [find_unrestrict first_tag]; [by apply run_unlock_quiet|].
  case_bool_decide as Ek; [|by apply IH]. cbn [andb]. rewrite run_with_bind. destruct Hq as [El Hp Hs Hc Hm Hn].
  run (run_redis a Reader (Sismember (cond_key tmp) value) (-1) w1 Hp Hs). intros [r w2]. cbn [fst snd].
  intros (Hp2 & El2 & Hc2 & _ & Hs2 & (Hn2 & Hm2 & Hr) & c & Ex).
  assert (quiet (RWLock 1 false) w w2) as Hq2.
  { split; [by rewrite El2|done|done|by rewrite Hc2| |]; [by eapply same_members_trans|by eapply same_counters_trans]. }
  apply (sismember_answers _ _ _ _ _ _ Hs) in Ex. rewrite (bool_decide_eq_false_2 (r = -1)) by done.
  assert (mem (c_string (cond_key tmp)) (c_string value) = true ↔ member (w_store w1) (c_string (cond_key tmp)) (c_string value)) as Hb
    by by apply (reflects_same mem (w_store w)).
  destruct Hr as [[-> Hin]|[[-> Hin]|?]]; [| |done].
  - rewrite (bool_decide_eq_true_2 (1 = 1)) by done. apply Hb in Hin as ->. by apply run_unlock_quiet.
  - rewrite (bool_decide_eq_false_2 (0 = 1)) by done. destruct (mem _ _); [by destruct Hin; apply Hb|]. by apply IH.
Qed.

(** *** The conditions *)
Lemma append_tags l conf : Forall (λ t, t ≠ []) l → conf ≠ [] → foldl append_tag conf l = join 124 (conf :: l).
Proof.
  revert conf. induction l as [|t l IH]; intros conf Hl Hc; [done|]. apply Forall_cons in Hl as [Ht Hl]. cbn [foldl].
  assert (append_tag conf t = conf ++ 124 :: t) as -> by (unfold append_tag; by rewrite bool_decide_eq_false_2).
  rewrite IH; [|done|by destruct conf]. change (join 124 (conf :: t :: l)) with (conf ++ 124 :: join 124 (t :: l)).
  destruct l as [|t2 l]; [done|]. change (join 124 (?x :: t2 :: l)) with (x ++ 124 :: join 124 (t2 :: l)). by rewrite <-app_assoc.
Qed.

Lemma append_tags_nil l : Forall (λ t, t ≠ []) l → foldl append_tag [] l = join 124 l.
Proof. intros Hl. destruct l as [|t l]; [done|]. apply Forall_cons in Hl as [Ht Hl]. cbn [foldl]. by rewrite append_tags. Qed.

Lemma run_conditions a find pure l num conf w0 w :
  (∀ k v w', quiet free w0 w' → returns (run1 a (find k v) w') (λ x, x.1 = pure k v ∧ quiet free w' x.2)) → quiet free w0 w →
  returns (run1 a (find_conditions find l num conf) w) (λ x,
    x.1 = (num + slen (filter (λ t, t ≠ []) ((λ kv, pure kv.1 kv.2) <$> l)), foldl append_tag conf (filter (λ t, t ≠ []) ((λ kv, pure kv.1 kv.2) <$> l))) ∧
    quiet free w0 x.2).
Proof.
  intros Hf. revert num conf w. induction l as [|[k v] l IH]; intros num conf w Hq; cbn [find_conditions].
  { rewrite run_with_done. cbn [returns fst snd fmap list_fmap]. split; [|done]. by rewrite Z.add_0_r. }
  rewrite run_with_bind. run (Hf k v w Hq). intros [t w1]. cbn [fst snd]. intros [-> Hq1].
  assert (quiet free w0 w1) as Hq2 by by eapply quiet_trans.
  rewrite fmap_cons, filter_cons. cbn [fst snd]. case_bool_decide as Et.
  - rewrite decide_False by (by intros []). by apply IH.
  - rewrite decide_True by done. eapply returns_mono; [by apply IH|]. intros [r w2]. cbn [fst snd length foldl]. intros [-> Hq3].
    split; [|done]. f_equal. lia.
Qed.

Lemma matched_tags find mapParam : Forall (λ t, t ≠ []) (matched find mapParam).
Proof. apply Forall_forall. by intros t [? _]%list_elem_of_filter. Qed.

Lemma run_restrict_cond a mapParam m w :
  calm w → let tags := restrict_tags (w_configs w) mapParam in
  returns (run1 a (restrict_cond_do_filt mapParam m) w) (λ x,
    x.1 = (if bool_decide (tags = []) then FILT_FAIL_IN_RESTRICT_COND_PERIORD else SUCCESS, insert_conf (str "regular_conf") (join 124 tags) m) ∧
    quiet free w x.2).
Proof.
  intros Hw tags. unfold restrict_cond_do_filt. rewrite run_with_bind.
  run (run_conditions a do_find_in_restrict_cond_config (λ k v, first_tag (λ tmp, bool_decide (v = m_estimated_value tmp)) k (items (m_restrict_cond_config (w_configs w))))
    (items mapParam) 0 [] w w); [|by apply quiet_refl|].
  - intros k v w' Hq. rewrite run_find_restrict by apply Hq. cbn [returns fst snd]. rewrite (q_configs _ _ _ Hq).
    split; [done|]. by eapply quiet_refl, quiet_calm.
  - intros [r w']. cbn [fst snd]. fold (matched (λ k v, first_tag (λ tmp, bool_decide (v = m_estimated_value tmp)) k (items (m_restrict_cond_config (w_configs w)))) mapParam).
    fold (restrict_tags (w_configs w) mapParam). fold tags. intros [-> Hq]. rewrite run_with_done. cbn [returns fst snd]. split; [|done].
    rewrite append_tags_nil by apply matched_tags. rewrite Z.add_0_l. f_equal. destruct tags; [done|]. by rewrite bool_decide_eq_true_2 by (cbn; lia).
Qed.

Lemma run_common_cond `{!StoreReliable} a mapParam m mem w :
  calm w → reflects mem (w_store w) → let tags := unrestrict_tags (w_configs w) mem mapParam in
  returns (run1 a (common_cond_do_filt mapParam m) w) (λ x,
    x.1 = (SUCCESS, insert_conf (str "unregular_conf") (join 124 tags) m) ∧ quiet free w x.2).
Proof.
  intros Hw Hmem tags. unfold common_cond_do_filt. rewrite run_with_bind.
  run (run_conditions a do_find_in_unrestrict_cond_config
    (λ k v, first_tag (λ tmp, mem (c_string (cond_key tmp)) (c_string v)) k (items (m_unrestrict_cond_config (w_configs w))))
    (items mapParam) 0 [] w w); [|by apply quiet_refl|].
  - intros k v w' Hq. eapply returns_mono; [apply (run_find_unrestrict a k v mem w'); [by eapply quiet_calm|]|].
    + eapply reflects_same; [apply Hq|done].
    + intros [t w2]. cbn [fst snd]. by rewrite (q_configs _ _ _ Hq).
  - intros [r w']. cbn [fst snd]. fold (matched (λ k v, first_tag (λ tmp, mem (c_string (cond_key tmp)) (c_string v)) k (items (m_unrestrict_cond_config (w_configs w)))) mapParam).
    fold (unrestrict_tags (w_configs w) mem mapParam). fold tags. intros [-> Hq]. rewrite run_with_done. cbn [returns fst snd]. split; [|done].
    by rewrite append_tags_nil by apply matched_tags.
Qed.

(** *** The business *)
Context (m_time_stamp : Z).

(** The tables as an update leaves them, and numbers in them that can be read. *)
Record tables_ok (c : configs) (now : Z) : Prop := {
  tables_business id o : m_business_config c !! id = Some o →
    ∃ b, o = Some b ∧ m_configid b = id ∧ (∃ out, out_of_time m_time_stamp now (m_valid_start_unixtime b) = Ret out) ∧
      ∃ v, atouint32_str (m_volumn b) = Ret v;
  tables_restrict id x : m_restrict_cond_config c !! id = Some x → 124 ∉ m_uniq_tag x;
  tables_unrestrict id x : m_unrestrict_cond_config c !! id = Some x → 124 ∉ m_uniq_tag x;
}.

Definition listed (c : configs) (l : list business_config) : Prop :=
  ∀ b, b ∈ l → m_business_config c !! m_configid b = Some (Some b) ∧ ∃ v, atouint32_str (m_volumn b) = Ret v.

Lemma time_loop c now l acc :
  tables_ok c now → (∀ x, x ∈ l → m_business_config c !! x.1 = Some x.2) →
  time_limit_loop m_time_stamp now l acc = Ret (acc ++ (m_configid <$> filter (λ b, in_time m_time_stamp now b) (omap snd l))).
Proof.
  intros Hc. revert acc. induction l as [|[id o] l IH]; intros acc Hl; cbn [time_limit_loop]; [by rewrite app_nil_r|].
  destruct (tables_business _ _ Hc id o) as (b & -> & Eid & [out Eo] & _); [apply (Hl (id, o)); by left|].
  rewrite Eo. cbn [mbind outcome_bind]. rewrite IH by (intros x Hx; apply Hl; by right). cbn [omap list_omap snd]. rewrite filter_cons.
  assert (in_time m_time_stamp now b = negb out) as -> by (unfold in_time; by rewrite Eo).
  destruct out; cbn [negb]; [done|]. rewrite decide_True by done. rewrite fmap_cons, <-app_assoc. done.
Qed.

Lemma businesses_listed c now : tables_ok c now → listed c (businesses c).
Proof.
  intros Hc b Hb. unfold businesses in Hb. apply list_elem_of_omap in Hb as ([id o] & Hin & E). cbn in E. subst o. apply elem_of_items in Hin.
  destruct (tables_business _ _ Hc _ _ Hin) as (b' & [= <-] & <- & _ & Hv). by split.
Qed.

Lemma listed_filter c l (P : business_config → Prop) `{!∀ b, Decision (P b)} : listed c l → listed c (filter P l).
Proof. intros Hl b [_ Hb]%list_elem_of_filter. by apply Hl. Qed.

Lemma run_time_limit a w :
  w_lock w = free → tables_ok (w_configs w) (a_time a) →
  let l := filter (λ b, in_time m_time_stamp (a_time a) b) (businesses (w_configs w)) in
  ∃ ret, run1 a (do_filt_time_limit_in_business_config m_time_stamp []) w = Ret ((ret, m_configid <$> l), w) ∧
    (ret = 0 ∨ ret = -1 ∧ l = []).
Proof.
  intros El Hc l. unfold do_filt_time_limit_in_business_config. rewrite run_with_bind, run_with_act. cbn [exec mbind outcome_bind fst snd].
  rewrite run_reading by done. rewrite run_with_bind, (run_with_local _ _ _ (m_configid <$> l)).
  2:{ rewrite (time_loop (w_configs w)); [done|done|]. intros [id o] Hx. by apply elem_of_items in Hx. }
  cbn [mbind outcome_bind fst snd]. rewrite run_with_bind, run_with_act, exec_unlock by done. cbn [mbind outcome_bind fst snd].
  case_bool_decide as Ee; [|exists 0; split; [done|by left]].
  rewrite run_with_bind, run_with_act. cbn [exec mbind outcome_bind fst snd]. rewrite run_with_done. eexists. split; [done|].
  case_bool_decide; [by left|right]. split; [done|]. by apply fmap_nil_inv in Ee.
Qed.

(** The text of some tags is cut into the tags again. *)
Lemma unmet_meets conf tags :
  Forall (λ t, t ≠ []) tags → Forall (λ t, 124 ∉ t) tags →
  unmet conf (join 124 tags) = negb (bool_decide (tags = []) || meets conf tags).
Proof.
  intros Hne Hp. unfold unmet, meets. destruct tags as [|t tags]; [by rewrite (bool_decide_eq_true_2 (join 124 [] = [])), andb_false_r by done|].
  assert (join 124 (t :: tags) ≠ []) as Hj by (apply Forall_cons in Hne as [Ht _]; by destruct tags, t).
  rewrite (bool_decide_eq_false_2 (join 124 _ = [])), (bool_decide_eq_false_2 (t :: tags = [])) by done. cbn [negb andb orb].
  rewrite andb_true_r. unfold stringsplit, atoken. change (str "|") with [124]. rewrite boost_split_join by done.
  assert (∀ l, existsb (λ r, negb (bool_decide (r = [])) && negb (bool_decide (r ∈ t :: tags))) l =
               negb (forallb (λ r, bool_decide (r = []) || bool_decide (r ∈ t :: tags)) l)) as Hl.
  { induction l as [|r l IH]; [done|]. cbn [existsb forallb]. by rewrite IH, negb_andb, negb_orb. }
  destruct (decide (conf = [])) as [->|Hc].
  - rewrite (bool_decide_eq_true_2 ([] = [])) by done. cbn [negb andb]. rewrite (split_one 124 []) by by intros ?%not_elem_of_nil.
    cbn [forallb]. by rewrite (bool_decide_eq_true_2 ([] = [])).
  - rewrite (bool_decide_eq_false_2 (conf = [])) by done. cbn [negb andb]. apply Hl.
Qed.

(** The map of the request's parameters after the conditions. *)
Definition conf_params (regular unregular : list (list Z)) : params :=
  insert_conf (str "unregular_conf") (join 124 unregular) (insert_conf (str "regular_conf") (join 124 regular) ∅).

Lemma get_conf_params regular unregular :
  get_value (str "regular_conf") (conf_params regular unregular) = join 124 regular ∧
  get_value (str "unregular_conf") (conf_params regular unregular) = join 124 unregular.
Proof.
  unfold conf_params, insert_conf, get_value.
  repeat case_bool_decide; rewrite ?map_insert_lookup; split; simpl;
    repeat (rewrite ?map_insert_lookup; rewrite ?decide_True by done; rewrite ?decide_False by done; rewrite ?lookup_empty); try done.
Qed.

Definition tags_ok (tags : list (list Z)) : Prop := Forall (λ t, t ≠ []) tags ∧ Forall (λ t, 124 ∉ t) tags.

Definition fits (regular unregular : list (list Z)) (b : business_config) : bool :=
  meets (m_regular_conf b) regular && (bool_decide (unregular = []) || meets (m_unregular_conf b) unregular).

Lemma input_loop c regular unregular l acc :
  listed c l → tags_ok regular → tags_ok unregular → regular ≠ [] →
  input_limit_loop c (join 124 regular) (join 124 unregular) (m_configid <$> l) acc =
  Ret (acc ++ (m_configid <$> filter (λ b, fits regular unregular b) l)).
Proof.
  intros Hl [Hr1 Hr2] [Hu1 Hu2] Hne. revert acc. induction l as [|b l IH]; intros acc; [by rewrite app_nil_r|].
  cbn [fmap list_fmap input_limit_loop]. destruct (Hl b) as [-> _]; [by left|].
  rewrite !unmet_meets by done. rewrite (bool_decide_eq_false_2 (regular = [])) by done. cbn [orb].
  rewrite <-negb_andb. fold (fits regular unregular b). rewrite IH by (intros b' Hb'; apply Hl; by right). rewrite filter_cons.
  destruct (fits regular unregular b); cbn [negb]; [|done]. rewrite decide_True by done. rewrite fmap_cons, <-app_assoc. done.
Qed.

Lemma run_input_limit a regular unregular l w :
  w_lock w = free → listed (w_configs w) l → tags_ok regular → tags_ok unregular → regular ≠ [] →
  let l' := filter (λ b, fits regular unregular b) l in
  run1 a (do_filt_input_limit (conf_params regular unregular) (m_configid <$> l)) w =
  Ret (if bool_decide (l' = []) then (-1, ∅, m_configid <$> l) else (0, ∅, m_configid <$> l'), w).
Proof.
  intros El Hl Hr Hu Hne l'. unfold do_filt_input_limit. destruct (get_conf_params regular unregular) as [-> ->].
  rewrite run_reading by done. rewrite run_with_bind, (run_with_local _ _ _ (m_configid <$> l')).
  2:{ by rewrite input_loop. }
  cbn [mbind outcome_bind fst snd]. rewrite run_with_bind, run_with_act, exec_unlock by done. cbn [mbind outcome_bind fst snd].
  destruct l' as [|b l2]; [by rewrite !bool_decide_eq_true_2|]. by rewrite !bool_decide_eq_false_2.
Qed.

Lemma choose_ext f g l : (∀ k, f k = g k) → choose f l = choose g l.
Proof.
  revert f g. induction l as [|b l IH]; intros f g E; [done|]. cbn [choose]. rewrite E. case_bool_decide; [done|].
  case_bool_decide; [done|]. apply IH. intros k. by rewrite E.
Qed.

Lemma run_output_limit `{!StoreReliable} a m l w :
  calm w → listed (w_configs w) l →
  returns (run1 a (do_filt_output_limit m (m_configid <$> l)) w) (λ x,
    x.1 = match choose (counter (w_store w)) l with None => (-1, m) | Some b => (0, granted_params b m) end ∧
    calm x.2 ∧ w_configs x.2 = w_configs w).
Proof.
  revert w. induction l as [|b l IH]; intros w Hw Hl; cbn [fmap list_fmap do_filt_output_limit choose]; [by rewrite run_with_done|].
  destruct (Hl b) as [Eb [v Ev]]; [by left|]. destruct Hw as [El Hp Hs].
  rewrite run_with_bind, run_with_act. cbn [exec mbind outcome_bind fst snd]. rewrite El. cbn [readers writing].
  rewrite run_with_bind, run_with_act. cbn [exec set_lock w_configs]. unfold index_business. rewrite Eb. cbn [mbind outcome_bind fst snd].
  assert (set_configs (w_configs w) (set_lock (RWLock 1 false) w) = locked w) as -> by by destruct w.
  rewrite run_with_bind, run_with_act, exec_unlock by done. cbn [mbind outcome_bind fst snd].
  rewrite run_with_bind, (run_with_local _ _ _ v) by done. cbn [mbind outcome_bind fst snd]. rewrite run_with_bind.
  run (run_redis a Writer (Incrby (business_key b) (str "1")) (-1) w Hp Hs). intros [r w2]. cbn [fst snd].
  intros (Hp2 & El2 & Hc2 & _ & Hs2 & (Hn & _) & c & Ex). destruct (incrby_answers _ _ _ _ _ Hs Ex) as [En ->]. rewrite En.
  assert (calm w2) as Hw2 by (split; [by rewrite El2|done..]).
  destruct (decide (s32 (counter (w_store w) (c_string (business_key b)) + 1) = -1)) as [Ewrap|Ewrap].
  { rewrite !bool_decide_eq_true_2 by done. by rewrite run_with_done. }
  rewrite !(bool_decide_eq_false_2 (_ = -1)) by done.
  assert (volumn_of b = s32 v) as -> by (unfold volumn_of; by rewrite Ev).
  destruct (decide (s32 v < s32 (counter (w_store w) (c_string (business_key b)) + 1))) as [Hlt|Hge].
  - rewrite bool_decide_eq_true_2, bool_decide_eq_false_2 by lia.
    eapply returns_mono; [apply (IH w2 Hw2); intros b' Hb'; rewrite Hc2; apply Hl; by right|].
    intros [x w3]. cbn [fst snd]. intros (-> & Hw3 & ->). split; [|done].
    rewrite (choose_ext (counter (w_store w2)) (λ k, if decide (k = c_string (business_key b)) then counter (w_store w) (c_string (business_key b)) + 1 else counter (w_store w) k)); [done|].
    intros k. case_decide as Ek; [by subst k|]. apply Hn. congruence.
  - rewrite (bool_decide_eq_false_2 (_ < _)), (bool_decide_eq_true_2 (_ ≤ _)) by lia. rewrite run_with_done. by split_and!.
Qed.

(** *** The contents *)
Lemma run_contents a rs m w :
  w_lock w = free → run1 a (fixed_contents rs m) w = Ret (insert_all (content_of (w_configs w) <$> rs) m, w).
Proof.
  intros El. revert m. induction rs as [|r rs IH]; intros m; cbn [fixed_contents fmap list_fmap]; [done|].
  rewrite run_with_bind, run_find_fixed by done. cbn [mbind outcome_bind fst snd].
  change (insert_all (?x :: ?l) m) with (insert_all l (map_insert m x.1 x.2)). rewrite <-IH. unfold content_of.
  by destruct (m_fixed_content_config _ !! r).
Qed.

Lemma granted_get b : get_value (str "reglular_rtn_content_conf") (granted_params b ∅) = m_regular_rtn_content_conf b.
Proof. by vm_compute. Qed.

Lemma granted_delete b :
  delete (str "reglular_rtn_content_conf") (granted_params b ∅) =
  {[ str "unregular_rtn_content_conf" := m_unregular_rtn_content_conf b; str "task_conf" := m_task_conf b ]}.
Proof. vm_compute. reflexivity. Qed.

Lemma tags_are_ok (find : list Z → list Z → list Z) mapParam :
  (∀ k v, 124 ∉ find k v) → tags_ok (matched find mapParam).
Proof.
  intros Hf. split; [apply matched_tags|]. apply Forall_forall. intros t [_ Ht]%list_elem_of_filter.
  apply list_elem_of_fmap in Ht as (kv & -> & _). apply Hf.
Qed.

Lemma first_tag_plain (holds : cond_config → bool) (key : list Z) (m : gmap (list Z) cond_config) :
  (∀ id x, m !! id = Some x → 124 ∉ m_uniq_tag x) → 124 ∉ first_tag holds key (items m).
Proof.
  intros Hm. assert (∀ l, (∀ x, x ∈ l → 124 ∉ m_uniq_tag x.2) → 124 ∉ first_tag holds key l) as Hl.
  { induction l as [|[i tmp] l IH]; intros Hx; cbn [first_tag]; [by intros ?%not_elem_of_nil|].
    destruct (_ && _)%bool; [apply (Hx (i, tmp)); by left|]. apply IH. intros x Hin. apply Hx. by right. }
  apply Hl. intros [i x] Hin. apply elem_of_items in Hin. by eapply Hm.
Qed.

(** The filter of the business, on what the conditions have left. *)
Lemma run_business `{!StoreReliable} a regular unregular w :
  calm w → tables_ok (w_configs w) (a_time a) → tags_ok regular → tags_ok unregular → regular ≠ [] →
  returns (run1 a (entry_business_do_filt m_time_stamp (conf_params regular unregular)) w) (λ x,
    match choose (counter (w_store w)) (filter (λ b, eligible m_time_stamp (a_time a) regular unregular b) (businesses (w_configs w))) with
    | None => x.1.1 = FILT_FAIL_IN_ENTRY_BUSINESS_PERIORD
    | Some b => x.1 = (SUCCESS, granted_params b ∅)
    end ∧ calm x.2 ∧ w_configs x.2 = w_configs w).
Proof.
  intros Hw Hc Hr Hu Hne. pose proof (calm_lock _ Hw) as El. unfold entry_business_do_filt.
  destruct (run_time_limit a w El Hc) as (ret & Er & Hret). rewrite run_with_bind, Er. cbn [mbind outcome_bind fst snd].
  set (l := filter _ (businesses _)) in *.
  assert (filter (λ b, eligible m_time_stamp (a_time a) regular unregular b) (businesses (w_configs w)) =
          filter (λ b, fits regular unregular b) l) as ->.
  { unfold l. rewrite list_filter_filter. apply list_filter_iff. intros b. unfold eligible. fold (fits regular unregular b).
    rewrite <-andb_assoc. fold (fits regular unregular b). rewrite andb_True. tauto. }
  assert (listed (w_configs w) l) as Hl by by eapply listed_filter, businesses_listed.
  case_bool_decide as Eret.
  { destruct Hret as [?|[_ ->]]; [done|]. by rewrite run_with_done. }
  rewrite run_with_bind, run_input_limit by done. set (l' := filter _ l). case_bool_decide as El'.
  { cbn [mbind outcome_bind fst snd]. rewrite bool_decide_eq_true_2 by done. rewrite run_with_done, El'. by split_and!. }
  cbn [mbind outcome_bind fst snd]. rewrite bool_decide_eq_false_2 by (by intros []). rewrite run_with_bind.
  run (run_output_limit a ∅ l' w Hw ltac:(by apply listed_filter)). intros [x w2]. cbn [fst snd]. intros (-> & Hw2 & Ec).
  destruct (choose _ l') as [b|]; cbn [fst snd].
  - rewrite bool_decide_eq_false_2 by (by intros []). by rewrite run_with_done.
  - rewrite bool_decide_eq_true_2 by done. by rewrite run_with_done.
Qed.

Lemma run_response a m w :
  w_lock w = free →
  run1 a (fixed_content_do_filt m) w =
  Ret ((SUCCESS, insert_all (content_of (w_configs w) <$> stringsplit (get_value (str "reglular_rtn_content_conf") m) (str "|"))
                   (delete (str "reglular_rtn_content_conf") m)), w).
Proof. intros El. unfold fixed_content_do_filt. by rewrite run_with_bind, run_contents. Qed.

(** The misspelt name is in no response: the filter that should take the contents
    of the second kind out of the response takes nothing. *)
Lemma misspelt_erased c b :
  (∀ r tmp, m_fixed_content_config c !! r = Some tmp → m_type tmp ≠ str "unreglular_rtn_content_conf") →
  delete (str "task_conf") (delete (str "unreglular_rtn_content_conf")
    (insert_all (content_of c <$> stringsplit (m_regular_rtn_content_conf b) (str "|"))
       {[ str "unregular_rtn_content_conf" := m_unregular_rtn_content_conf b; str "task_conf" := m_task_conf b ]})) =
  response_of c b.
Proof.
  intros Hc. unfold response_of. f_equal. apply delete_id. rewrite insert_all_lookup.
  rewrite lookup_insert_ne, lookup_singleton_ne by (by apply (bool_decide_unpack _); vm_compute).
  apply first_value_None. rewrite <-list_fmap_compose. intros (r & E & _)%list_elem_of_fmap. revert E. cbn. unfold content_of.
  destruct (m_fixed_content_config c !! r) as [tmp|] eqn:Er; cbn; [|by apply (bool_decide_unpack _); vm_compute].
  intros E. by apply (Hc r tmp Er).
Qed.

(** The two filters on conditions, and the two on the response with the last. *)
Lemma run_cond_event `{!StoreReliable} a mapParam mem w :
  calm w → reflects mem (w_store w) →
  let regular := restrict_tags (w_configs w) mapParam in let unregular := unrestrict_tags (w_configs w) mem mapParam in
  returns (run1 a (ctx_do_filt m_time_stamp (new_event COND_PERIOD) mapParam ∅) w) (λ x,
    if bool_decide (regular = []) then x.1.1 = FILT_FAIL_IN_RESTRICT_COND_PERIORD
    else x.1 = (SUCCESS, conf_params regular unregular) ∧ quiet free w x.2).
Proof.
  intros Hw Hmem regular unregular. unfold ctx_do_filt. change (m_filters (new_event COND_PERIOD)) with [restrict_cond_filter; common_cond_filter].
  cbn [run_filters base_do_filt]. rewrite run_with_bind. run (run_restrict_cond a mapParam ∅ w Hw). intros [x w1]. cbn [fst snd].
  fold regular. intros [-> Hq]. destruct (decide (regular = [])) as [Er|Er].
  { rewrite !(bool_decide_eq_true_2 (regular = [])) by done. rewrite bool_decide_eq_true_2 by done. by rewrite run_with_done. }
  rewrite !(bool_decide_eq_false_2 (regular = [])) by done. rewrite bool_decide_eq_false_2 by (by intros []).
  rewrite run_with_bind. run (run_common_cond a mapParam (insert_conf (str "regular_conf") (join 124 regular) ∅) mem w1).
  - by eapply quiet_calm.
  - eapply reflects_same; [apply Hq|done].
  - intros [x w2]. cbn [fst snd]. rewrite (q_configs _ _ _ Hq). fold unregular. intros [-> Hq2].
    rewrite bool_decide_eq_false_2 by (by intros []). rewrite run_with_done. cbn [returns fst snd].
    split; [done|]. by eapply quiet_trans.
Qed.

Lemma run_response_events a b mapParam w :
  w_lock w = free → (∀ r tmp, m_fixed_content_config (w_configs w) !! r = Some tmp → m_type tmp ≠ str "unreglular_rtn_content_conf") →
  run1 a (run_events m_time_stamp [new_event RESPONSE_PERIOD; new_event TASK_PERIOD] SUCCESS mapParam (granted_params b ∅)) w =
  Ret ((SUCCESS, response_of (w_configs w) b), w).
Proof.
  intros El Hc. cbn [run_events]. unfold ctx_do_filt.
  change (m_filters (new_event RESPONSE_PERIOD)) with [fixed_content_response_filter; common_response_filter].
  change (m_filters (new_event TASK_PERIOD)) with [common_task_filter]. cbn [run_filters base_do_filt].
  rewrite run_with_bind, run_with_bind, run_response by done. cbn [mbind outcome_bind fst snd].
  repeat (rewrite bool_decide_eq_false_2 by (by intros []); cbn [prog_mbind prog_bind run_with run mbind outcome_bind fst snd]).
  by rewrite granted_get, granted_delete, misspelt_erased.
Qed.

Lemma run_business_event `{!StoreReliable} a regular unregular mapParam w :
  calm w → tables_ok (w_configs w) (a_time a) → tags_ok regular → tags_ok unregular → regular ≠ [] →
  returns (run1 a (ctx_do_filt m_time_stamp (new_event BUSINESS_PERIOD) mapParam (conf_params regular unregular)) w) (λ x,
    match choose (counter (w_store w)) (filter (λ b, eligible m_time_stamp (a_time a) regular unregular b) (businesses (w_configs w))) with
    | None => x.1.1 = FILT_FAIL_IN_ENTRY_BUSINESS_PERIORD
    | Some b => x.1 = (SUCCESS, granted_params b ∅)
    end ∧ calm x.2 ∧ w_configs x.2 = w_configs w).
Proof.
  intros Hw Hc Hr Hu Hne. unfold ctx_do_filt. change (m_filters (new_event BUSINESS_PERIOD)) with [entry_business_filter].
  cbn [run_filters base_do_filt]. rewrite run_with_bind. run (run_business a regular unregular w); [done..|].
  intros [[r m] w2]. cbn [fst snd]. destruct (choose _ _) as [b|].
  - intros ([= -> ->] & Hw2 & Ec2). rewrite bool_decide_eq_false_2 by (by intros []). by rewrite run_with_done.
  - intros (-> & Hw2 & Ec2). rewrite bool_decide_eq_true_2 by done. by rewrite run_with_done.
Qed.

Lemma run_touch_core `{!StoreReliable} a mapParam mem w :
  calm w → tables_ok (w_configs w) (a_time a) → reflects mem (w_store w) →
  (∀ r tmp, m_fixed_content_config (w_configs w) !! r = Some tmp → m_type tmp ≠ str "unreglular_rtn_content_conf") →
  returns (run1 a (touch_core m_time_stamp mapParam ∅) w) (λ x,
    let spec := touch_spec m_time_stamp (w_configs w) (a_time a) mem (counter (w_store w)) mapParam in
    x.1.1 = spec.1 ∧ (∀ m, spec.2 = Some m → x.1.2 = m)).
Proof.
  intros Hw Hc Hmem Hfixed. unfold touch_spec, touch_core, m_events.
  set (regular := restrict_tags _ _). set (unregular := unrestrict_tags _ _ _).
  assert (tags_ok regular) as Hr by (apply tags_are_ok; intros; apply first_tag_plain; apply Hc).
  assert (tags_ok unregular) as Hu by (apply tags_are_ok; intros; apply first_tag_plain; apply Hc).
  cbn [run_events]. rewrite run_with_bind. run (run_cond_event a mapParam mem w Hw Hmem). fold regular. fold unregular.
  intros [[r m] w1]. cbn [fst snd]. case_bool_decide as Er.
  { intros ->. rewrite bool_decide_eq_true_2 by done. by rewrite run_with_done. }
  intros [[= -> ->] Hq]. rewrite bool_decide_eq_false_2 by (by intros []). rewrite run_with_bind.
  pose proof (q_configs _ _ _ Hq) as Ec.
  run (run_business_event a regular unregular mapParam w1); [by eapply quiet_calm|by rewrite Ec|done..|]. rewrite Ec.
  rewrite (choose_ext (counter (w_store w1)) (counter (w_store w))) by (intros k; by apply (q_counters _ _ _ Hq)).
  intros [[r m] w2]. cbn [fst snd]. destruct (choose _ _) as [b|].
  - intros ([= -> ->] & Hw2 & Ec2). rewrite bool_decide_eq_false_2 by (by intros []).
    change (run1 a _ w2) with (run1 a (run_events m_time_stamp [new_event RESPONSE_PERIOD; new_event TASK_PERIOD] SUCCESS mapParam (granted_params b ∅)) w2).
    rewrite run_response_events; [|apply Hw2|by rewrite Ec2]. cbn [returns fst snd]. split; [done|]. intros m [= <-]. by rewrite Ec2.
  - intros (-> & Hw2 & Ec2). rewrite bool_decide_eq_true_2 by done. by rewrite run_with_done.
Qed.

(** *** The update of the tables *)

(** The new tables. *)
Definition updated (reply_1 reply_2 reply_3 reply_4 : list row) : configs :=
  Configs (fixed_configs reply_2) (restrict_configs reply_1) (business_configs reply_3) (restrict_configs (take (length reply_4) reply_1)).

Definition no_null (c : configs) : Prop := ∀ id, m_business_config c !! id ≠ Some None.

Lemma run_delete_counters a l w :
  (∀ s, m_list (redis_pool s w) ≠ []) → store_ok (w_store w) → (∀ x, x ∈ l → x.2 ≠ None) →
  returns (run1 a (delete_counters l) w) (λ x,
    (∀ s, m_list (redis_pool s x.2) ≠ []) ∧ w_lock x.2 = w_lock w ∧ w_configs x.2 = w_configs w ∧ store_ok (w_store x.2)).
Proof.
  revert w. induction l as [|[id [b|]] l IH]; intros w Hp Hs Hl; cbn [delete_counters]; [by rewrite run_with_done| |by destruct (Hl (id, None)); [left|]].
  rewrite run_with_bind. run (run_redis a Writer (Del (business_key b)) (-1) w Hp Hs). intros [r w2]. cbn [fst snd].
  intros (Hp2 & El2 & Hc2 & _ & Hs2 & _). case_bool_decide; [by rewrite run_with_done|].
  eapply returns_mono; [apply (IH w2 Hp2 Hs2); intros x Hx; apply Hl; by right|].
  intros x (? & -> & -> & ?). by split_and!.
Qed.

Lemma restrict_configs_snoc l r : restrict_configs (l ++ [r]) = map_insert (restrict_configs l) (m_uniq_tag (cond_of r)) (cond_of r).
Proof. unfold restrict_configs. by rewrite foldl_app. Qed.

Lemma unrestrict_eq (reply_4 reply_1 : list row) :
  unrestrict_configs reply_4 reply_1 =
  if decide (length reply_4 ≤ length reply_1)%nat then Ret (restrict_configs (take (length reply_4) reply_1)) else Stuck.
Proof.
  unfold unrestrict_configs. case_decide as Hl.
  - pose proof (for_range_returns (λ i m, 0 ≤ i ∧ m = restrict_configs (take (Z.to_nat i) reply_1)) 0 (slen reply_4)
      (λ i m, let! r := aget reply_1 i in Ret (map_insert m (m_uniq_tag (cond_of r)) (cond_of r))) ∅) as Hr.
    apply returns_eq in Hr as (m & -> & _ & ->); [by rewrite Nat2Z.id|lia|done|].
    intros i m Hi [_ ->]. destruct (lookup_lt_is_Some_2 reply_1 (Z.to_nat i)) as [r Er]; [lia|].
    rewrite (aget_lookup _ _ r) by (done || lia). cbn [mbind outcome_bind returns]. split; [lia|].
    rewrite <-restrict_configs_snoc. f_equal. rewrite Z2Nat.inj_add by lia. change (Z.to_nat 1) with 1%nat. rewrite Nat.add_1_r. by erewrite take_S_r.
  - apply (for_range_stuck _ _ _ _ (slen reply_1)).
    + intros i m. unfold aget. by repeat case_match.
    + lia.
    + intros m. by rewrite aget_out by lia.
Qed.

(** A replacement that gets through leaves the new tables; one that cannot delete
    a counter leaves the businesses, and none of the rest. *)
Lemma run_replace a r1 r2 r3 r4 w :
  calm w → no_null (w_configs w) → (length r4 ≤ length r1)%nat →
  returns (run1 a (replace_configs r1 r2 r3 r4) w) (λ x, calm x.2 ∧
    (x.1 = 0 ∧ w_configs x.2 = updated r1 r2 r3 r4 ∨ x.1 = -1 ∧ w_configs x.2 = Configs ∅ ∅ (m_business_config (w_configs w)) ∅)).
Proof.
  intros [El Hp Hs] Hn Hlen. unfold replace_configs. rewrite run_with_bind, run_with_act. cbn [exec mbind outcome_bind fst snd]. rewrite El. cbn [readers writing].
  rewrite run_with_bind, run_with_act. cbn [exec mbind outcome_bind fst snd set_lock w_configs].
  rewrite run_with_bind, run_with_act. cbn [exec mbind outcome_bind fst snd]. rewrite run_with_bind. set (w1 := set_configs _ _).
  run (run_delete_counters a (items (m_business_config (w_configs w))) w1); [done|done|..].
  { intros [id o] Hx%elem_of_items E. cbn in E. subst o. by apply (Hn id). }
  intros [del w2]. cbn [fst snd]. intros (Hp2 & El2 & Hc2 & Hs2). change (w_lock w1) with (RWLock 0 true) in El2.
  destruct del; rewrite run_with_bind.
  - rewrite unrestrict_eq, decide_True, (run_with_local _ _ _ _ w2 eq_refl) by done. cbn [mbind outcome_bind fst snd].
    rewrite run_with_bind, run_with_act. cbn [exec mbind outcome_bind fst snd]. rewrite run_with_bind, run_with_act.
    cbn [exec mbind outcome_bind fst snd set_configs w_lock]. rewrite El2. cbn [readers writing]. rewrite run_with_done. cbn [returns fst snd].
    split; [by split|by left].
  - rewrite run_with_act. cbn [exec mbind outcome_bind fst snd]. rewrite El2. cbn [readers writing]. rewrite run_with_done. cbn [returns fst snd].
    split; [by split|right]. split; [done|]. exact Hc2.
Qed.

(** MySQL answers every select with the rows [table] has for it. *)
Definition answers_with (table : list Z → list row) : Prop :=
  ∀ c sql (k : K), store_ok k → ∃ k', mysql_read c sql k = Ret (Some (table sql), k').

Lemma run_mysql_read a sql reply table w :
  answers_with table → calm w → m_list (w_mysql_rpool w) ≠ [] →
  ∃ w', run1 a (do_mysql_opt_read sql reply) w = Ret ((0, reply ++ table sql), w') ∧ calm w' ∧ m_list (w_mysql_rpool w') ≠ [] ∧ w_configs w' = w_configs w.
Proof.
  intros Ht [El Hp Hs] Hm. destruct (m_list (w_mysql_rpool w)) as [|c l] eqn:Em; [done|].
  unfold do_mysql_opt_read, fetch_mysql. cbn [fetch_attempts]. rewrite run_with_bind, run_with_bind, run_with_act. cbn [exec mysql_pool].
  unfold dequeue_expand, dequeue_nodelay. rewrite Em. cbn [mbind outcome_bind fst snd].
  rewrite (bool_decide_eq_false_2 (1 ≠ 1)) by (by intros []). rewrite run_with_done. cbn [mbind outcome_bind fst snd].
  rewrite run_with_bind, run_with_act. cbn [exec set_mysql_pool w_store].
  destruct (Ht c sql (w_store w) Hs) as [k' E]. rewrite E. cbn [mbind outcome_bind fst snd].
  rewrite run_with_bind, run_with_act. cbn [exec mbind outcome_bind fst snd]. rewrite run_with_done.
  eexists. split; [done|]. apply mysql_read_effect in E as [Hk _]; [|done]. split_and!; [by split| |done]. cbn. by destruct l.
Qed.

(** What the update of Redis keeps. *)
Definition kept w w' : Prop := calm w' ∧ m_list (w_mysql_rpool w') ≠ [] ∧ w_configs w' = w_configs w.

Lemma run_redis_kept {A} a s (q : redis_op A) failed w0 w :
  kept w0 w → returns (run1 a (with_redis s q failed) w) (λ x, kept w0 x.2).
Proof.
  intros ([El Hp Hs] & Hm & Hc). eapply returns_mono; [by apply run_redis|]. intros x (Hp2 & El2 & Hc2 & Em & Hs2 & _).
  split; [split; [by rewrite El2|done..]|]. by rewrite Em, Hc2.
Qed.

Lemma run_add_members a key l w0 w : kept w0 w → returns (run1 a (add_members key l) w) (λ x, kept w0 x.2).
Proof.
  revert w. induction l as [|r l IH]; intros w Hw; cbn [add_members]; [by rewrite run_with_done|].
  rewrite run_with_bind. run (run_redis_kept a Writer (Sadd key (column r (str "data"))) (-1) w0 w Hw). intros [x w1] Hw1. cbn [fst snd] in *.
  case_bool_decide; [by rewrite run_with_done|by apply IH].
Qed.

Lemma run_update_redis a table l w0 w :
  answers_with table → kept w0 w → returns (run1 a (update_redis l) w) (λ x, kept w0 x.2 ∧ (x.1 = 0 ∨ x.1 = -1)).
Proof.
  intros Ht. revert w. induction l as [|r l IH]; intros w Hw; cbn [update_redis]; [rewrite run_with_done; cbn; auto|].
  pose proof Hw as (Hw1 & Hm & Hc). destruct (run_mysql_read a (select_sql (m_estimated_value (cond_of r))) [] table w Ht Hw1 Hm) as (w1 & E & Hcalm & Hm1 & Hc1).
  rewrite run_with_bind, E. cbn [mbind outcome_bind fst snd]. rewrite (bool_decide_eq_false_2 (0 = -1)) by done.
  assert (kept w0 w1) as Hk1 by (split; [done|]; by rewrite Hc1). case_bool_decide; [by apply IH|].
  rewrite run_with_bind. run (run_add_members a (cond_key (cond_of r)) (table (select_sql (m_estimated_value (cond_of r)))) w0 w1 Hk1).
  intros [x w2] Hk2. cbn [fst snd] in *. case_bool_decide; [rewrite run_with_done; cbn; auto|].
  rewrite run_with_bind. run (run_redis_kept a Writer (Expire (cond_key (cond_of r)) 86400) (-1) w0 w2 Hk2). intros [y w3] Hk3. cbn [fst snd] in *.
  case_bool_decide; [rewrite run_with_done; cbn; auto|by apply IH].
Qed.

Lemma run_update a t1 t2 t3 t4 table w :
  answers_with table → calm w → m_list (w_mysql_rpool w) ≠ [] → no_null (w_configs w) →
  let rows sql := table sql in
  (length (rows (update_sql_4 t2)) ≤ length (rows (update_sql_1 t1)))%nat →
  returns (run1 a (do_update_configs t1 t2 t3 t4) w) (λ x, calm x.2 ∧
    (x.1 = 0 ∧ w_configs x.2 = updated (rows (update_sql_1 t1)) (rows (update_sql_2 t4)) (rows (update_sql_3 t3)) (rows (update_sql_4 t2)) ∨
     x.1 = -1 ∧ (w_configs x.2 = w_configs w ∨ w_configs x.2 = Configs ∅ ∅ (m_business_config (w_configs w)) ∅))).
Proof.
  intros Ht Hw Hm Hn rows Hlen. unfold do_update_configs.
  destruct (run_mysql_read a (update_sql_1 t1) [] table w Ht Hw Hm) as (w1 & E1 & Hw1 & Hm1 & Hc1).
  destruct (run_mysql_read a (update_sql_2 t4) [] table w1 Ht Hw1 Hm1) as (w2 & E2 & Hw2 & Hm2 & Hc2).
  destruct (run_mysql_read a (update_sql_3 t3) [] table w2 Ht Hw2 Hm2) as (w3 & E3 & Hw3 & Hm3 & Hc3).
  destruct (run_mysql_read a (update_sql_4 t2) [] table w3 Ht Hw3 Hm3) as (w4 & E4 & Hw4 & Hm4 & Hc4).
  assert (w_configs w4 = w_configs w) as Hc by congruence.
  rewrite run_with_bind, E1. cbn [mbind outcome_bind fst snd]. rewrite (bool_decide_eq_false_2 (0 = -1)) by done.
  rewrite run_with_bind, E2. cbn [mbind outcome_bind fst snd]. rewrite (bool_decide_eq_false_2 (0 = -1)) by done.
  rewrite run_with_bind, E3. cbn [mbind outcome_bind fst snd]. rewrite (bool_decide_eq_false_2 (0 = -1)) by done.
  rewrite run_with_bind, E4. cbn [mbind outcome_bind fst snd]. rewrite (bool_decide_eq_false_2 (0 = -1)) by done.
  rewrite run_with_bind. run (run_update_redis a table (table (update_sql_4 t2)) w w4 Ht); [by split_and!|].
  intros [x w5] [(Hw5 & _ & Hc5) Hx]. cbn [fst snd app] in *. case_bool_decide.
  - rewrite run_with_done. cbn [returns fst snd]. split; [done|]. right. split; [done|by left].
  - eapply returns_mono; [apply run_replace; [done|by rewrite Hc5|done]|]. intros y [Hy Hres]. split; [done|].
    rewrite Hc5 in Hres. destruct Hres as [?|[? ?]]; [by left|right; split; [done|by right]].
Qed.

(** With more rows for the conditions in Redis than for the others the exception of
    [at] leaves the thread, and the lock taken. *)
Lemma run_replace_short a r1 r2 r3 r4 w x :
  calm w → no_null (w_configs w) → (length r1 < length r4)%nat → run1 a (replace_configs r1 r2 r3 r4) w = Ret x → x.1 = -1.
Proof.
  intros [El Hp Hs] Hn Hlen. unfold replace_configs. rewrite run_with_bind, run_with_act. cbn [exec mbind outcome_bind fst snd]. rewrite El. cbn [readers writing].
  rewrite run_with_bind, run_with_act. cbn [exec mbind outcome_bind fst snd set_lock w_configs].
  rewrite run_with_bind, run_with_act. cbn [exec mbind outcome_bind fst snd]. rewrite run_with_bind.
  destruct (run1 a (delete_counters _) _) as [[del w2]| |]; [|done..]. cbn [mbind outcome_bind fst snd]. destruct del; rewrite run_with_bind.
  - by rewrite unrestrict_eq, decide_False by lia.
  - rewrite run_with_act. cbn [exec mbind outcome_bind fst snd]. rewrite run_with_done. by intros [= <-].
Qed.

Lemma business_configs_ids l id o : business_configs l !! id = Some o → ∃ b, o = Some b ∧ m_configid b = id.
Proof.
  unfold business_configs. assert (∀ m : gmap (list Z) (option business_config), (∀ id o, m !! id = Some o → ∃ b, o = Some b ∧ m_configid b = id) →
    ∀ id o, foldl (λ m r, map_insert m (m_configid (business_of r)) (Some (business_of r))) m l !! id = Some o → ∃ b, o = Some b ∧ m_configid b = id) as Hf.
  { induction l as [|r l IH]; intros m Hm; [done|]. cbn [foldl]. apply IH. intros id' o'. rewrite map_insert_lookup.
    destruct (m !! id') as [o2|] eqn:E; [intros [= ->]; by apply Hm|]. case_decide; [|done]. intros [= <-]. by eexists. }
  apply Hf. intros id' o'. by rewrite lookup_empty.
Qed.

(** *** A client that is lost *)

(** Every query throws. *)
Definition throws : Prop := ∀ c sql (k : K), store_ok k → ∃ k', mysql_read c sql k = Ret (None, k') ∧ store_ok k'.

Lemma run_fetch_empty a s w n :
  m_list (mysql_pool s w) = [] → ∃ w', run1 a (fetch_attempts (DequeueMysql s) n) w = Ret (None, w') ∧ w_store w' = w_store w ∧ m_list (mysql_pool s w') = [].
Proof.
  revert w. induction n as [|n IH]; intros w Em; cbn [fetch_attempts]; [rewrite run_with_done; by eexists|].
  rewrite run_with_bind, run_with_act. cbn [exec].
  destruct (dequeue_expand (a_wait a) (mysql_pool s w)) as [[r c] q] eqn:Ed. pose proof Ed as [(y & l & E & _)|[-> ->]]%dequeue_cases; [by rewrite Em in E|].
  cbn [mbind outcome_bind fst snd].
  assert (r ≠ 1) as Hr.
  { intros ->. revert Ed. unfold dequeue_expand, dequeue, dequeue_nodelay. rewrite Em. by destruct (a_wait a); rewrite ?Em. }
  rewrite bool_decide_eq_true_2 by done. destruct (IH (set_mysql_pool s (mysql_pool s w) w)) as (w' & E & Es & Em'); [by destruct s|].
  rewrite E. exists w'. split_and!; [done|by destruct s|done].
Qed.

Lemma run_read_empty a sql reply w :
  m_list (w_mysql_rpool w) = [] →
  ∃ w', run1 a (do_mysql_opt_read sql reply) w = Ret ((-1, reply), w') ∧ w_store w' = w_store w ∧ m_list (w_mysql_rpool w') = [].
Proof.
  intros Em. unfold do_mysql_opt_read, fetch_mysql. rewrite run_with_bind. destruct (run_fetch_empty a Reader w 3 Em) as (w' & E & Es & Em').
  rewrite E. cbn [mbind outcome_bind fst snd]. rewrite run_with_done. by exists w'.
Qed.

Lemma run_read_throws a sql reply c l w :
  throws → store_ok (w_store w) → m_list (w_mysql_rpool w) = c :: l →
  ∃ w', run1 a (do_mysql_opt_read sql reply) w = Ret ((-1, reply), w') ∧ store_ok (w_store w') ∧ m_list (w_mysql_rpool w') = l.
Proof.
  intros Ht Hs Em. unfold do_mysql_opt_read, fetch_mysql. cbn [fetch_attempts]. rewrite run_with_bind, run_with_bind, run_with_act. cbn [exec mysql_pool].
  unfold dequeue_expand, dequeue_nodelay. rewrite Em. cbn [mbind outcome_bind fst snd].
  rewrite (bool_decide_eq_false_2 (1 ≠ 1)) by (by intros []). rewrite run_with_done. cbn [mbind outcome_bind fst snd].
  rewrite run_with_bind, run_with_act. cbn [exec set_mysql_pool w_store]. destruct (Ht c sql (w_store w) Hs) as (k' & E & Hk). rewrite E.
  cbn [mbind outcome_bind fst snd]. rewrite run_with_done. eexists. split; [done|]. by split.
Qed.

(** The same select again and again. *)
Fixpoint reads (n : nat) (sql : list Z) : prog op Z :=
  match n with
  | O => Done (-1)
  | S n => do! _ := do_mysql_opt_read sql [] in reads n sql
  end.

Lemma run_reads_throw a sql n w :
  throws → store_ok (w_store w) → length (m_list (w_mysql_rpool w)) = n →
  ∃ w', run1 a (reads n sql) w = Ret (-1, w') ∧ m_list (w_mysql_rpool w') = [].
Proof.
  intros Ht. revert w. induction n as [|n IH]; intros w Hs Hn; cbn [reads].
  - rewrite run_with_done. exists w. split; [done|]. by apply nil_length_inv.
  - destruct (m_list (w_mysql_rpool w)) as [|c l] eqn:Em; [done|]. destruct (run_read_throws a sql [] c l w Ht Hs Em) as (w1 & E & Hs1 & Em1).
    rewrite run_with_bind, E. cbn [mbind outcome_bind fst snd]. apply IH; [done|]. rewrite Em1. by injection Hn.
Qed.

(** *** A configuration that is gone *)
Lemma time_loop_null now l acc id : (id, None) ∈ l → ∀ x, time_limit_loop m_time_stamp now l acc ≠ Ret x.
Proof.
  revert acc. induction l as [|[id' [b|]] l IH]; intros acc Hin x; cbn [time_limit_loop]; [by apply not_elem_of_nil in Hin| |done].
  apply elem_of_cons in Hin as [?|Hin]; [done|]. destruct (out_of_time _ _ _); [|done..]. cbn [mbind outcome_bind]. by apply IH.
Qed.

Lemma run_time_null a ids id w :
  w_lock w = free → m_business_config (w_configs w) !! id = Some None →
  run1 a (do_filt_time_limit_in_business_config m_time_stamp ids) w = Stuck.
Proof.
  intros El E. unfold do_filt_time_limit_in_business_config. rewrite run_with_bind, run_with_act. cbn [exec mbind outcome_bind fst snd].
  rewrite run_reading by done. rewrite run_with_bind. destruct (time_limit_loop _ _ _ _) as [l| |] eqn:Et; [|done..].
  exfalso. eapply (time_loop_null (a_time a) _ ids id); [|exact Et]. by apply elem_of_items.
Qed.

Lemma run_index_gone a m id w :
  w_lock w = free → m_business_config (w_configs w) !! id = None →
  run1 a (do_filt_output_limit m [id]) w = Ret ((-1, m), set_configs (index_business id (w_configs w)).2 w).
Proof.
  intros El E. cbn [do_filt_output_limit]. rewrite run_with_bind, run_with_act. cbn [exec mbind outcome_bind fst snd]. rewrite El. cbn [readers writing].
  rewrite run_with_bind, run_with_act. cbn [exec set_lock w_configs]. unfold index_business. rewrite E. cbn [mbind outcome_bind fst snd].
  rewrite run_with_bind, run_with_act. cbn [exec mbind outcome_bind fst snd]. rewrite run_with_done. f_equal. f_equal. destruct w. cbn in *. by subst.
Qed.

(** Every request that matches a condition ends its thread. *)
Lemma run_touch_null `{!StoreReliable} a mapParam mem id w :
  calm w → reflects mem (w_store w) → m_business_config (w_configs w) !! id = Some None → restrict_tags (w_configs w) mapParam ≠ [] →
  run1 a (touch_core m_time_stamp mapParam ∅) w = Stuck.
Proof.
  intros Hw Hmem E Hr. unfold touch_core, m_events. cbn [run_events]. rewrite run_with_bind.
  pose proof (run_cond_event a mapParam mem w Hw Hmem) as Hc. cbv zeta in Hc. apply returns_eq in Hc as ([[r m] w1] & -> & Hc).
  cbn [fst snd] in Hc. rewrite bool_decide_eq_false_2 in Hc by done. destruct Hc as [[= -> ->] Hq]. cbn [mbind outcome_bind fst snd].
  rewrite bool_decide_eq_false_2 by (by intros []). rewrite run_with_bind. set (c := conf_params _ _).
  assert (run1 a (ctx_do_filt m_time_stamp (new_event BUSINESS_PERIOD) mapParam c) w1 = Stuck) as ->; [|done].
  unfold ctx_do_filt. change (m_filters (new_event BUSINESS_PERIOD)) with [entry_business_filter]. cbn [run_filters base_do_filt].
  rewrite run_with_bind. unfold entry_business_do_filt. rewrite run_with_bind, (run_time_null _ _ id); [done|apply Hq|].
  by rewrite (q_configs _ _ _ Hq).
Qed.
End run.

(** The keys that the timer renews are not those of the conditions. *)
Lemma timer_renews_no_set c c' : REDIS_HEAD_FOR_BUSINESS ++ m_uniq_tag c ++ m_control_identity c ≠ cond_key c'.
Proof. done. Qed.

(** ** Properties *)

(** C1 A request that runs alone is answered as the specification says: it must match
    a condition of the first table; of the businesses that are in time and whose
    conditions it meets, the first with anything left is granted, each that was
    tried being counted once; and the response has the contents of that business.
    (A request without any tag of the second kind meets every condition of the
    second kind, and the response also has the contents of the second kind, as the
    filter that should take them out has their name misspelt.) *)
Theorem touch_core_correct {K : Type} `{StoreLaws K} `{BoostLaws} `{!StoreReliable} time_stamp a mapParam mem (w : world K) :
  calm w → tables_ok time_stamp (w_configs w) (a_time a) → reflects mem (w_store w) →
  (∀ r tmp, m_fixed_content_config (w_configs w) !! r = Some tmp → m_type tmp ≠ str "unreglular_rtn_content_conf") →
  returns (run_with exec a (touch_core time_stamp mapParam ∅) w) (λ x,
    let spec := touch_spec time_stamp (w_configs w) (a_time a) mem (counter (w_store w)) mapParam in
    x.1.1 = spec.1 ∧ (∀ m, spec.2 = Some m → x.1.2 = m)).
Proof. intros. by apply run_touch_core. Qed.

(** C13 An update that runs alone, over a database that answers, leaves either the new
    tables, with 0; or the old ones, or the old businesses alone, with -1.  In the
    new tables every business is under its own name, and the conditions that are
    kept in Redis are the first rows of the table of the other conditions, as
    many as there are rows of their own; with more rows than that no update gets
    through: the thread ends by an exception, holding the lock. *)
Theorem update_configs_correct {K : Type} `{StoreLaws K} `{BoostLaws} a t1 t2 t3 t4 table (w : world K) :
  answers_with table → calm w → m_list (w_mysql_rpool w) ≠ [] → no_null (w_configs w) →
  let r1 := table (update_sql_1 t1) in let r2 := table (update_sql_2 t4) in
  let r3 := table (update_sql_3 t3) in let r4 := table (update_sql_4 t2) in
  let new := updated r1 r2 r3 r4 in
  ((length r4 ≤ length r1)%nat →
   returns (run_with exec a (do_update_configs t1 t2 t3 t4) w) (λ x, calm x.2 ∧
     (x.1 = 0 ∧ w_configs x.2 = new ∨
      x.1 = -1 ∧ (w_configs x.2 = w_configs w ∨ w_configs x.2 = Configs ∅ ∅ (m_business_config (w_configs w)) ∅)))) ∧
  (∀ id o, m_business_config new !! id = Some o → ∃ b, o = Some b ∧ m_configid b = id) ∧
  ((length r1 < length r4)%nat → ∀ x, run_with exec a (replace_configs r1 r2 r3 r4) w = Ret x → x.1 = -1).
Proof.
  intros Ht Hw Hm Hn r1 r2 r3 r4 new. split; [intros Hl; by apply run_update|]. split; [apply business_configs_ids|].
  intros Hl x. by apply run_replace_short.
Qed.

(** Each query that throws takes a client out of the pool for good: after as many
    as there were clients the pool is empty, and from then on every read fails
    without asking the database, whether it is back or not. *)
Lemma mysql_pool_leak {K : Type} `{StoreLaws K} a sql (w : world K) :
  throws (K := K) → store_ok (w_store w) →
  ∃ w', run_with exec a (reads (length (m_list (w_mysql_rpool w))) sql) w = Ret (-1, w') ∧
    ∀ a' sql' reply (w2 : world K), m_list (w_mysql_rpool w2) = m_list (w_mysql_rpool w') →
      ∃ w3, run_with exec a' (do_mysql_opt_read sql' reply) w2 = Ret ((-1, reply), w3) ∧ w_store w3 = w_store w2 ∧ m_list (w_mysql_rpool w3) = [].
Proof.
  intros Ht Hs. destruct (run_reads_throw a sql _ w Ht Hs eq_refl) as (w' & E & Em). exists w'. split; [done|].
  intros a' sql' reply w2 E2. apply run_read_empty. by rewrite E2.
Qed.

(** C40 A request that goes on with a configuration that an update has removed
    meanwhile gives up, but leaves a null pointer in the table; after that every
    request that matches a condition follows it and ends the process. *)
Theorem removed_business_crash {K : Type} `{StoreLaws K} `{BoostLaws} `{!StoreReliable} time_stamp a a' m id mapParam mem (w : world K) :
  calm w → reflects mem (w_store w) → m_business_config (w_configs w) !! id = None → restrict_tags (w_configs w) mapParam ≠ [] →
  ∃ w', run_with exec a (do_filt_output_limit m [id]) w = Ret ((-1, m), w') ∧
    run_with exec a' (touch_core time_stamp mapParam ∅) w' = Stuck.
Proof.
  intros Hw Hmem E Hr. eexists. split; [by apply run_index_gone; [apply Hw|]|].
  eapply (run_touch_null _ _ mapParam mem id); [destruct Hw; by split|done| |].
  - cbn. unfold index_business. rewrite E. apply lookup_insert_eq.
  - cbn. unfold index_business. by rewrite E.
Qed.

(** *** Witnesses *)
Lemma small_with_reliable reply : StoreReliable (H := small_with reply).
Proof.
  split.
  - intros c key s r s' _ E. cbn [redis_do small_with] in E. rewrite bool_decide_eq_true_2 in E by done. injection E as <- <-. cbn. by rewrite lookup_insert_eq.
  - intros c key value s r s' _ [= <- <-]. by case_decide.
Qed.

Definition demo_world : world small_store := the_world demo_started.
Definition demo_params : params := {[ str "game" := str "7" ]}.

Section demo.
Context (reply : list Z → option (list row)).
Lemma demo_calm : calm (H := small_with reply) demo_world.
Proof. split; [done| |done]. by intros []. Qed.

Lemma demo_reflects : reflects (H := small_with reply) (λ _ _, false) (w_store demo_world).
Proof. intros key value. cbn. set_solver. Qed.

Lemma demo_no_null : no_null (w_configs demo_world).
Proof.
  intros id. change (m_business_config (w_configs demo_world)) with ({[ str "b" := Some demo_business ]} : gmap (list Z) (option business_config)).
  destruct (decide (id = str "b")) as [->|Hne]; [by rewrite lookup_singleton_eq|by rewrite lookup_singleton_ne].
Qed.

Lemma demo_tables : tables_ok 600 (w_configs demo_world) 0.
Proof.
  split.
  - intros id o. change (m_business_config (w_configs demo_world)) with ({[ str "b" := Some demo_business ]} : gmap (list Z) (option business_config)).
    intros [<- <-]%lookup_singleton_Some. exists demo_business. split_and!; [done|done| |]; vm_compute; eauto.
  - intros id x. change (m_restrict_cond_config (w_configs demo_world)) with ({[ str "r" := CondConfig (str "r") (str "game") (str "7") ]} : gmap (list Z) cond_config).
    intros [<- <-]%lookup_singleton_Some. apply (bool_decide_unpack _). by vm_compute.
  - intros id x. change (m_unrestrict_cond_config (w_configs demo_world)) with (∅ : gmap (list Z) cond_config). by rewrite lookup_empty.
Qed.
End demo.

Lemma touch_core_correct_witness :
  let spec := touch_spec (H := boost_impl) 600 demo_configs 0 (λ _ _, false) (λ _, 0) demo_params in
  spec.1 = SUCCESS ∧ returns (run_with exec demo_answers (touch_core (H := boost_impl) 600 demo_params ∅) demo_world) (λ x, x.1.1 = SUCCESS).
Proof.
  intros spec. assert (spec.1 = SUCCESS) as Es by by vm_compute. split; [done|].
  assert (∀ r tmp, m_fixed_content_config (w_configs demo_world) !! r = Some tmp → m_type tmp ≠ str "unreglular_rtn_content_conf") as Hf.
  { intros r tmp. change (m_fixed_content_config _) with ({[ str "c" := FixedConfig (str "c") (str "text") (str "hello") ]} : gmap (list Z) fixed_content_response_config).
    by intros [<- <-]%lookup_singleton_Some. }
  eapply returns_mono; [apply (touch_core_correct (H := small) (H0 := small_laws) (H1 := boost_impl) (H2 := boost_impl_laws) (H3 := small_with_reliable _)
    600 demo_answers demo_params (λ _ _, false) demo_world (demo_calm _) demo_tables (demo_reflects _) Hf)|].
  intros x [Ex _]. rewrite Ex. exact Es.
Defined.

Lemma removed_business_crash_witness :
  ∃ w', run_with exec demo_answers (do_filt_output_limit ∅ [str "x"]) demo_world = Ret ((-1, ∅), w') ∧
    run_with exec demo_answers (touch_core (H := boost_impl) 600 demo_params ∅) w' = Stuck.
Proof.
  apply (removed_business_crash (H := small) (H0 := small_laws) (H1 := boost_impl) (H2 := boost_impl_laws) (H3 := small_with_reliable _)
    600 demo_answers demo_answers ∅ (str "x") demo_params (λ _ _, false) demo_world (demo_calm _) (demo_reflects _)); by vm_compute.
Defined.

Lemma mysql_pool_leak_witness :
  ∃ w', run_with exec demo_answers (reads 1 (str "select")) demo_world = Ret (-1, w') ∧ m_list (w_mysql_rpool w') = [].
Proof.
  assert (throws (K := small_store)) as Ht by (intros c sql k _; by exists k).
  destruct (mysql_pool_leak demo_answers (str "select") demo_world Ht demo_store_ok) as (w' & E & Hw). exists w'. split; [exact E|].
  revert E. vm_compute. by intros [= <-].
Defined.

Definition demo_rows (sql : list Z) : list row :=
  if bool_decide (sql = update_sql_3 (str "t3")) then [ {[ str "configid" := str "b2" ]} ] else [].

Lemma update_configs_correct_witness :
  returns (run_with (exec (H := small_with (λ sql, Some (demo_rows sql)))) demo_answers
    (do_update_configs (str "t1") (str "t2") (str "t3") (str "t4")) demo_world) (λ x, calm (H := small_with (λ sql, Some (demo_rows sql))) x.2).
Proof.
  pose (S := small_with (λ sql, Some (demo_rows sql))).
  assert (answers_with (H := S) demo_rows) as Ht by (intros c sql k _; by exists k).
  destruct (update_configs_correct (H := S) (H0 := small_with_laws _) (H1 := boost_impl) (H2 := boost_impl_laws) demo_answers (str "t1") (str "t2") (str "t3") (str "t4")
    demo_rows demo_world Ht (demo_calm _)) as (Hr & _ & _); [by vm_compute|apply demo_no_null|].
  eapply returns_mono; [apply Hr; by vm_compute|]. by intros x [? _].
Defined.
