(* ===== verification/Net.v ===== *)
(** * Request parsing and socket tables of the cache server
    ([mycache/src/net/protocol.h] and [mycache/src/net/net.h])

    [protocol_parse] runs over a byte buffer, a [const char *] is an index into
    it and [None] the null pointer.  [kv_alloc n] says whether [P_MALLOC(n)]
    succeeds.  The blocks a request allocates are not reachable after the call
    (the code that would use them is not written yet), so only their bounds
    matter.  The table of watched sockets is an array of pointers into a heap
    of [struct pollfd]s, of which the descriptor is kept. *)

From S2P Require Import Prelude Coding.

(** ** The request parser *)

(** [*in]. *)
Definition peek_char (buf : list Z) (in_ : option Z) : outcome Z :=
  match in_ with
  | Some p => aget buf p
  | None => Stuck
  end.

(** The pointer behind the line end at [in], null when there is none. *)
Definition enter_jump (buf : list Z) (in_ : option Z) : outcome (option Z) :=
  match in_ with
  | None => Stuck
  | Some p =>
      let! c := aget buf p in
      if bool_decide (c ≠ 13) then Ret None
      else
        let! d := aget buf (p + 1) in
        if bool_decide (d ≠ 10) then Ret None else Ret (Some (p + 2))
  end.

(** [in = get_varint32_data_ptr(in+1, in+5, &n); if(!n) return -1;]: without a
    number [n] stays indeterminate and its test is undefined. *)
Definition read_count (buf : list Z) (p : Z) : outcome (Z * Z) :=
  let! r := get_varint32_data_ptr buf (p + 1) (p + 5) in
  match r with
  | Some r => Ret r
  | None => Stuck
  end.

Section parser.
Context (kv_alloc : Z → bool).

(** One turn of the loop over the arguments; [inr] leaves the function. *)
Definition parse_arg (buf : list Z) (argc : Z) (st : Z * option Z) : outcome (Z * option Z + option Z * option Z) :=
  let '(i, in_) := st in
  if i <? argc then
    let! c := peek_char buf in_ in
    match in_ with
    | Some p =>
        if bool_decide (c = 36) then
          let! r := read_count buf p in
          let '(q, argv_len) := r in
          if bool_decide (argv_len = 0) then Ret (inr (Some (-1), in_))
          else
            let! in_ := enter_jump buf (Some q) in
            match in_ with
            | Some p =>
                if kv_alloc argv_len then
                  let! arg := load_bytes buf p (Z.to_nat argv_len) in
                  let! in_ := enter_jump buf in_ in
                  let! i := in_s32 (i + 1) in
                  Ret (inl (i, in_))
                else Stuck
            | None => Stuck
            end
        else
          let! i := in_s32 (i + 1) in
          Ret (inl (i, in_))
    | None => Stuck
    end
  else Ret (inr (None, in_)).

(** One turn of the outer loop.  [None] as the result of the function: it
    reaches its end without a [return].  The turn of the argument loop that
    fails its test is counted in the fuel. *)
Definition parse_step (buf : list Z) (len : Z) (in_ : option Z) : outcome (option Z + option Z) :=
  match in_ with
  | None => Stuck
  | Some p =>
      if p <? len then
        let! c := aget buf p in
        if bool_decide (c = 42) then
          let! r := read_count buf p in
          let '(q, argc) := r in
          if bool_decide (argc = 0) then Ret (inr (Some (-1)))
          else if kv_alloc (8 + argc * 8) then
            let! in_ := enter_jump buf (Some q) in
            let! r := loop (S (Z.to_nat argc)) (parse_arg buf argc) (0, in_) in
            match r with
            | (Some ret, _) => Ret (inr (Some ret))
            | (None, in_) => Ret (inl in_)
            end
          else Ret (inr (Some (-1)))
        else Ret (inl in_)
      else Ret (inr None)
  end.

(** [base] is index 0; [fuel] bounds the turns of the outer loop. *)
Definition protocol_parse (fuel : nat) (buf : list Z) (len : Z) : outcome (option Z) :=
  loop fuel (parse_step buf len) (Some 0).
End parser.

(** ** The table of watched sockets *)
Section table.
(** The descriptors of the [struct pollfd]s. *)
Context (fds : gmap loc Z).

Definition fd_of (p : ptr) : outcome Z :=
  match p with
  | Addr l => match fds !! l with Some fd => Ret fd | None => Stuck end
  | _ => Stuck
  end.

(** The first empty slot. *)
Definition pollfd_array_input (pfd_array : list ptr) (pfd_array_len : Z) (pfd_new : ptr) : outcome (Z * list ptr) :=
  loop (S (Z.to_nat pfd_array_len)) (λ i,
    if i <? pfd_array_len then
      let! p := aget pfd_array i in
      let! b := truth p in
      if b : bool then Ret (inl (i + 1))
      else
        let! pfd_array := aset pfd_array i pfd_new in
        Ret (inr (0, pfd_array))
    else Ret (inr (-1, pfd_array))) 0.

Definition shift_step (tmp : ptr) (st : list ptr * Z) : outcome (list ptr * Z + list ptr * Z) :=
  let '(pfd_array, j) := st in
  if 0 <=? j then
    let! p := aget pfd_array j in
    let! a := fd_of tmp in
    let! b := fd_of p in
    if a <? b then
      let! pfd_array := aset pfd_array (j + 1) p in
      Ret (inl (pfd_array, j - 1))
    else Ret (inr (pfd_array, j))
  else Ret (inr (pfd_array, j)).

Definition insert_one (i : Z) (pfd_array : list ptr) : outcome (list ptr) :=
  let! tmp := aget pfd_array i in
  let! st := loop (S (Z.to_nat i)) (shift_step tmp) (pfd_array, i - 1) in
  let '(pfd_array, j) := st in
  aset pfd_array (j + 1) tmp.

Definition pollfd_array_insert_sort (pfd_array : list ptr) (pfd_array_len : Z) : outcome (list ptr) :=
  for_range 1 pfd_array_len insert_one pfd_array.

Definition get_step (pfd_array : list ptr) (fd : Z) (st : Z * Z) : outcome (Z * Z + Z) :=
  let '(left_, right_) := st in
  if left_ <? right_ then
    let! sum := in_s32 (left_ + right_) in
    let mid := Z.quot sum 2 in
    let! p := aget pfd_array mid in
    let! f := fd_of p in
    if fd <? f then Ret (inl (left_, mid - 1))
    else if f <? fd then Ret (inl (mid + 1, right_))
    else Ret (inr mid)
  else Ret (inr (-1)).

Definition pollfd_array_binary_get (pfd_array : list ptr) (pfd_array_len fd : Z) : outcome Z :=
  loop (S (Z.to_nat pfd_array_len)) (get_step pfd_array fd) (0, pfd_array_len - 1).
End table.

(** ** Specification *)

(** "\r\n". *)
Definition crlf : list Z := [13; 10].

(** The format the parser reads: counts are varints, not decimal digits. *)
Definition request_head (argc argv_len : Z) : list Z :=
  42 :: varint 5 argc ++ crlf ++ 36 :: varint 5 argv_len ++ crlf.

(** The request of the comment at the head of [protocol.h],
    "*3\r\n$3\r\nSET\r\n$5\r\nmykey\r\n$7\r\nmyvalue\r\n". *)
Definition sample_request : list Z :=
  [42; 51; 13; 10; 36; 51; 13; 10; 83; 69; 84; 13; 10; 36; 53; 13; 10; 109; 121; 107; 101; 121; 13; 10;
   36; 55; 13; 10; 109; 121; 118; 97; 108; 117; 101; 13; 10].

(** ** Lemmas: the parser *)
Section parser_lemmas.
Context (kv_alloc : Z → bool).
Implicit Types (buf tl : list Z).

Lemma length_varint4 v : 0 ≤ v < 2 ^ 28 → (length (varint 5 v) ≤ 4)%nat.
Proof.
  intros Hv. rewrite (varint_fuel 4) by (lia || (change (128 ^ Z.of_nat 4) with (2 ^ 28); lia)).
  apply length_varint_le.
Qed.

Lemma read_count_ok buf p v tl :
  0 ≤ p → 0 ≤ v < 2 ^ 28 → drop (Z.to_nat (p + 1)) buf = varint 5 v ++ tl →
  read_count buf p = Ret (p + 1 + Z.of_nat (length (varint 5 v)), v).
Proof.
  intros Hp Hv Hd. pose proof (length_varint4 v Hv) as Hl. unfold read_count.
  rewrite (get_varint32_spec _ _ _ v tl) by (done || lia || (unfold is_u32; lia)).
  by rewrite (proj2 (Z.leb_le _ _)) by lia.
Qed.

Lemma enter_jump_ok buf p tl : 0 ≤ p → drop (Z.to_nat p) buf = crlf ++ tl → enter_jump buf (Some p) = Ret (Some (p + 2)).
Proof.
  intros Hp Hd. change (crlf ++ tl) with (13 :: 10 :: tl) in Hd. unfold enter_jump.
  rewrite (aget_drop _ _ _ _ Hp Hd). cbn [mbind outcome_bind].
  rewrite bool_decide_eq_false_2 by lia.
  apply (drop_prefix _ [13] _ p) in Hd; [|done]. change (p + Z.of_nat (length [13])) with (p + 1) in Hd.
  assert (0 <= p + 1) as Hp1 by lia. by rewrite (aget_drop _ _ _ _ Hp1 Hd).
Qed.

Lemma enter_jump_none buf p c tl : 0 ≤ p → drop (Z.to_nat p) buf = c :: tl → c ≠ 13 → enter_jump buf (Some p) = Ret None.
Proof.
  intros Hp Hd Hc. unfold enter_jump. rewrite (aget_drop _ _ _ _ Hp Hd). cbn [mbind outcome_bind].
  by rewrite bool_decide_eq_true_2.
Qed.

Lemma load_bytes_no_loop buf q k : load_bytes buf q k ≠ Loop.
Proof.
  revert q. induction k as [|k IH]; intros q; [done|]. cbn [load_bytes]. unfold aget.
  repeat case_match; cbn [mbind outcome_bind]; try done.
  by destruct (load_bytes buf (q + 1) k) eqn:E; [..|destruct (IH (q + 1))].
Qed.

(** The parser does not move over a byte that is not ['*']. *)
Lemma parse_diverges fuel buf len p c :
  p < len → aget buf p = Ret c → c ≠ 42 → loop fuel (parse_step kv_alloc buf len) (Some p) = Loop.
Proof.
  intros Hp Hc Hn. induction fuel as [|fuel IH]; [done|]. rewrite loop_S.
  assert (parse_step kv_alloc buf len (Some p) = Ret (inl (Some p))) as ->; [|exact IH].
  unfold parse_step. rewrite (proj2 (Z.ltb_lt _ _)) by done. rewrite Hc. cbn [mbind outcome_bind].
  by rewrite bool_decide_eq_false_2.
Qed.

(** Behind an argument the parser looks for the line end at its first byte, and
    is left with the null pointer. *)
Lemma parse_arg_null buf argc i p n c tl :
  0 ≤ p → 0 ≤ i < argc → i < INT_MAX → 1 ≤ n < 2 ^ 28 → c ≠ 13 →
  drop (Z.to_nat p) buf = 36 :: varint 5 n ++ crlf ++ c :: tl →
  parse_arg kv_alloc buf argc (i, Some p) = Stuck ∨ parse_arg kv_alloc buf argc (i, Some p) = Ret (inl (i + 1, None)).
Proof.
  intros Hp Hi Hm Hn Hc Hd. unfold parse_arg. rewrite (proj2 (Z.ltb_lt _ _)) by lia. cbn [peek_char].
  rewrite (aget_drop _ _ _ _ Hp Hd). cbn [mbind outcome_bind]. rewrite bool_decide_eq_true_2 by done.
  apply (drop_prefix _ [36]) in Hd; [|done]. simpl length in Hd. change (p + Z.of_nat 1) with (p + 1) in Hd.
  rewrite (read_count_ok buf p n (crlf ++ c :: tl)) by (done || lia). cbn [mbind outcome_bind].
  rewrite bool_decide_eq_false_2 by lia. apply drop_prefix in Hd; [|lia].
  rewrite (enter_jump_ok _ _ (c :: tl)) by (done || lia). cbn [mbind outcome_bind].
  apply (drop_prefix _ crlf) in Hd; [|lia].
  set (q := p + 1 + Z.of_nat (length (varint 5 n)) + 2) in *. destruct (kv_alloc n); [|by left].
  destruct (load_bytes buf q (Z.to_nat n)) eqn:El; cbn [mbind outcome_bind]; [|by left|].
  - rewrite (enter_jump_none _ q c tl) by (done || lia). cbn [mbind outcome_bind].
    rewrite in_s32_ok by (unfold is_s32, INT_MAX in *; lia). by right.
  - by destruct (load_bytes_no_loop buf q (Z.to_nat n)).
Qed.

Lemma parse_request fuel buf argc n c tl len :
  1 ≤ argc < 2 ^ 28 → 1 ≤ n < 2 ^ 28 → c ≠ 13 → kv_alloc (8 + argc * 8) = true → 0 < len → (2 ≤ fuel)%nat →
  buf = request_head argc n ++ c :: tl →
  protocol_parse kv_alloc fuel buf len = Stuck.
Proof.
  intros Ha Hn Hc Hk Hl Hf Eb. destruct fuel as [|[|fuel]]; [lia..|].
  assert (drop (Z.to_nat 0) buf = 42 :: varint 5 argc ++ crlf ++ 36 :: varint 5 n ++ crlf ++ c :: tl) as Hd.
  { rewrite Eb. unfold request_head. change (Z.to_nat 0) with O. rewrite drop_0.
    by rewrite <-app_comm_cons, <-!app_assoc, <-app_comm_cons, <-!app_assoc. }
  unfold protocol_parse. rewrite loop_S.
  assert (parse_step kv_alloc buf len (Some 0) = Stuck ∨ parse_step kv_alloc buf len (Some 0) = Ret (inl None)) as [-> | ->]; [|done..].
  unfold parse_step. rewrite (proj2 (Z.ltb_lt _ _)) by done.
  rewrite (aget_drop _ _ _ _ ltac:(done) Hd). cbn [mbind outcome_bind]. rewrite bool_decide_eq_true_2 by done.
  apply (drop_prefix _ [42] _ 0) in Hd; [|done]. change (0 + Z.of_nat (length [42])) with (0 + 1) in Hd.
  rewrite (read_count_ok buf 0 argc _ ltac:(done) ltac:(lia) Hd). cbn [mbind outcome_bind].
  rewrite bool_decide_eq_false_2 by lia. rewrite Hk. apply drop_prefix in Hd; [|done].
  assert (0 ≤ 0 + 1 + Z.of_nat (length (varint 5 argc))) as Hq by lia.
  rewrite (enter_jump_ok _ _ _ Hq Hd). cbn [mbind outcome_bind]. apply (drop_prefix _ crlf) in Hd; [|lia].
  rewrite loop_S.
  assert (0 ≤ 0 + 1 + Z.of_nat (length (varint 5 argc)) + Z.of_nat (length crlf)) as Hq2 by lia.
  change (Z.of_nat (length crlf)) with 2 in *.
  destruct (parse_arg_null buf argc 0 _ n c tl Hq2 ltac:(lia) ltac:(done) Hn Hc Hd) as [-> | ->]; [by left|].
  cbn [mbind outcome_bind]. change (0 + 1) with 1. destruct (Z.to_nat argc) as [|k] eqn:Ek; [lia|]. rewrite loop_S.
  change (parse_arg kv_alloc buf argc (1, None)) with (if 1 <? argc then Stuck else Ret (inr (None, None)) : outcome (Z * option Z + option Z * option Z)).
  destruct (1 <? argc); [by left|by right].
Qed.
End parser_lemmas.

(** ** Lemmas: the table *)
Section table_lemmas.
Context (fds : gmap loc Z).
Implicit Types (p q tmp : ptr) (l : list ptr).

Definition key p : Z := match p with Addr x => default 0 (fds !! x) | _ => 0 end.
Definition watched p : Prop := fd_of fds p = Ret (key p).
Definition by_fd : list ptr → Prop := StronglySorted (λ p q, key p ≤ key q).

Lemma shift_loop l1 h l2 tmp fuel :
  watched tmp → Forall watched l1 → (length l1 < fuel)%nat →
  ∃ la lb h', l1 = la ++ lb ∧ Forall (λ p, key tmp < key p) lb ∧ (∀ la' z, la = la' ++ [z] → key z ≤ key tmp) ∧
    loop fuel (shift_step fds tmp) (l1 ++ h :: l2, Z.of_nat (length l1) - 1) =
    Ret (la ++ h' :: lb ++ l2, Z.of_nat (length la) - 1).
Proof.
  intros Ht. revert h l2 fuel. induction l1 as [|z l1 IH] using rev_ind; intros h l2 fuel Hw Hf;
    (destruct fuel as [|fuel]; [lia|]); rewrite loop_S.
  - exists [], [], h. split; [done|]. split; [constructor|]. split; [|done]. intros la' z E. by destruct la'.
  - apply Forall_app in Hw as [Hw Hz]. apply Forall_cons in Hz as [Hz _]. rewrite length_app in *. simpl length in *.
    replace (Z.of_nat (length l1 + 1) - 1) with (Z.of_nat (length l1)) by lia.
    assert (shift_step fds tmp ((l1 ++ [z]) ++ h :: l2, Z.of_nat (length l1)) =
      if key tmp <? key z then Ret (inl (l1 ++ z :: z :: l2, Z.of_nat (length l1) - 1))
      else Ret (inr ((l1 ++ [z]) ++ h :: l2, Z.of_nat (length l1)))) as ->.
    { unfold shift_step. rewrite (proj2 (Z.leb_le _ _)) by lia. rewrite <-app_assoc. cbn [app].
      rewrite aget_mid by done. cbn [mbind outcome_bind]. rewrite Ht. cbn [mbind outcome_bind]. rewrite Hz. cbn [mbind outcome_bind].
      destruct (key tmp <? key z); [|done]. rewrite (cons_middle z), app_assoc, aset_mid by (rewrite length_app; simpl; lia).
      cbn [mbind outcome_bind]. by rewrite <-app_assoc. }
    destruct (Z.ltb_spec (key tmp) (key z)) as [Hlt|Hge]; cbn [mbind outcome_bind].
    + destruct (IH z (z :: l2) fuel Hw ltac:(lia)) as (la & lb & h' & E & Hlb & Hla & Eq). rewrite Eq.
      exists la, (lb ++ [z]), h'. split; [by rewrite E, app_assoc|]. split; [apply Forall_app; auto|]. split; [done|].
      by rewrite <-app_assoc.
    + exists (l1 ++ [z]), [], h. split; [by rewrite app_nil_r|]. split; [constructor|]. split.
      * intros la' z' E. apply app_inj_tail in E as [_ ->]. done.
      * rewrite length_app. simpl. do 2 f_equal. lia.
Qed.

Lemma insert_one_spec l1 tmp l2 :
  watched tmp → Forall watched l1 → by_fd l1 →
  returns (insert_one fds (Z.of_nat (length l1)) (l1 ++ tmp :: l2)) (λ l', ∃ l1', l' = l1' ++ l2 ∧ l1' ≡ₚ l1 ++ [tmp] ∧ by_fd l1').
Proof.
  intros Ht Hw Hs. unfold insert_one. rewrite aget_mid by done. cbn [mbind outcome_bind].
  destruct (shift_loop l1 tmp l2 tmp (S (Z.to_nat (Z.of_nat (length l1))))) as (la & lb & h & -> & Hlb & Hla & ->); [done..|lia|].
  cbn [mbind outcome_bind]. rewrite aset_mid by lia. cbn [returns].
  exists (la ++ tmp :: lb). split; [by rewrite <-app_assoc|]. split; [rewrite <-app_assoc; apply Permutation_app_head, Permutation_cons_append|].
  apply StronglySorted_app in Hs as (Hab & Ha & Hb). apply StronglySorted_app. split; [|split; [done|]].
  - assert (∀ x, x ∈ la → key x ≤ key tmp) as Hle.
    { destruct la as [|z la' _] using rev_ind; [set_solver|]. intros x Hx. specialize (Hla la' z eq_refl).
      apply elem_of_app in Hx as [Hx| ->%list_elem_of_singleton]; [|done].
      apply StronglySorted_app in Ha as (Ha & _). specialize (Ha x z Hx (list_elem_of_here _ _)). lia. }
    intros x y Hx Hy. apply elem_of_cons in Hy as [->|Hy]; auto.
  - constructor; [done|]. eapply Forall_impl; [exact Hlb|]. simpl. lia.
Qed.

Lemma insert_sort_spec l :
  Forall watched l → returns (pollfd_array_insert_sort fds l (Z.of_nat (length l))) (λ l', l' ≡ₚ l ∧ by_fd l').
Proof.
  intros Hw. unfold pollfd_array_insert_sort. destruct l as [|x l]; [by split; [|constructor]|].
  eapply returns_mono; [apply (for_range_returns (λ i l', ∃ l1 l2, l' = l1 ++ l2 ∧ Z.of_nat (length l1) = i ∧ l' ≡ₚ x :: l ∧ by_fd l1))|].
  - simpl. lia.
  - exists [x], l. split; [done|]. split; [done|]. split; [done|]. repeat constructor.
  - intros i l' Hi (l1 & l2 & -> & El & Hp & Hs). destruct l2 as [|tmp l2].
    { apply Permutation_length in Hp. rewrite app_nil_r in Hp. lia. }
    assert (Forall watched (l1 ++ tmp :: l2)) as Hw' by by rewrite Hp.
    apply Forall_app in Hw' as [Hw1 Hw2]. apply Forall_cons in Hw2 as [Ht _]. subst i.
    eapply returns_mono; [by apply insert_one_spec|]. intros l' (l1' & -> & Hp' & Hs'). exists l1', l2.
    split; [done|]. apply Permutation_length in Hp' as El. rewrite length_app in El. simpl in El.
    split; [lia|]. split; [|done]. by rewrite Hp', <-app_assoc.
  - intros l' (l1 & l2 & -> & El & Hp & Hs). split; [done|].
    assert (l2 = []) as ->; [|by rewrite app_nil_r].
    apply Permutation_length in Hp. rewrite length_app in Hp. apply length_zero_iff_nil. lia.
Qed.

Lemma get_step_eq l fd left_ right_ p :
  Forall watched l → 0 ≤ left_ < right_ → left_ + right_ ≤ INT_MAX → l !! Z.to_nat ((left_ + right_) / 2) = Some p →
  get_step fds l fd (left_, right_) =
  if fd <? key p then Ret (inl (left_, (left_ + right_) / 2 - 1))
  else if key p <? fd then Ret (inl ((left_ + right_) / 2 + 1, right_)) else Ret (inr ((left_ + right_) / 2)).
Proof.
  unfold INT_MAX. intros Hw Hlr Hm Hp. unfold get_step. rewrite (proj2 (Z.ltb_lt _ _)) by lia.
  rewrite in_s32_ok by (unfold is_s32; lia). cbn [mbind outcome_bind]. rewrite Z.quot_div_nonneg by lia.
  rewrite (aget_lookup _ _ p) by (done || (apply Z.div_pos; lia)). cbn [mbind outcome_bind].
  rewrite Forall_forall in Hw. rewrite (Hw p) by by eapply list_elem_of_lookup_2. done.
Qed.

Lemma mid_bounds a b : a < b → a ≤ (a + b) / 2 < b.
Proof. intros. split; [apply Z.div_le_lower_bound; lia|apply Z.div_lt_upper_bound; lia]. Qed.

Lemma binary_get_spec l fd :
  Forall watched l → Z.of_nat (length l) ≤ 2 ^ 30 →
  returns (pollfd_array_binary_get fds l (Z.of_nat (length l)) fd)
    (λ k, k = -1 ∨ ∃ p, 0 ≤ k ∧ l !! Z.to_nat k = Some p ∧ key p = fd).
Proof.
  intros Hw Hl. unfold pollfd_array_binary_get.
  apply (loop_returns (λ st, 0 ≤ st.1 ∧ st.2 < Z.of_nat (length l)) (λ st, Z.to_nat (st.2 - st.1))).
  - intros [left_ right_] [H1 H2]. cbn [fst snd] in *. destruct (decide (left_ < right_)) as [Hlr|].
    2:{ unfold get_step. rewrite (proj2 (Z.ltb_ge _ _)) by lia. by left. }
    pose proof (mid_bounds left_ right_ Hlr) as Hm.
    destruct (lookup_lt_is_Some_2 l (Z.to_nat ((left_ + right_) / 2))) as [p Hp]; [lia|].
    rewrite (get_step_eq _ _ _ _ p) by (done || unfold INT_MAX; lia).
    destruct (Z.ltb_spec fd (key p)); [cbn [returns fst snd]; lia|].
    destruct (Z.ltb_spec (key p) fd); [cbn [returns fst snd]; lia|].
    right. exists p. split; [lia|]. split; [done|lia].
  - simpl. lia.
  - simpl. lia.
Qed.

(** The entry at the right end is never probed. *)
Lemma binary_get_last l p fd :
  Forall watched (l ++ [p]) → Z.of_nat (length (l ++ [p])) ≤ 2 ^ 30 → Forall (λ q, key q < fd) l →
  pollfd_array_binary_get fds (l ++ [p]) (Z.of_nat (length (l ++ [p]))) fd = Ret (-1).
Proof.
  intros Hw Hl Hlt. rewrite length_app in *. simpl length in *.
  assert (returns (pollfd_array_binary_get fds (l ++ [p]) (Z.of_nat (length l + 1)) fd) (λ k, k = -1)) as H.
  2:{ apply returns_eq in H as (k & -> & ->). done. }
  unfold pollfd_array_binary_get.
  apply (loop_returns (λ st, 0 ≤ st.1 ∧ st.2 = Z.of_nat (length l)) (λ st, Z.to_nat (st.2 - st.1))).
  - intros [left_ right_] [H1 H2]. cbn [fst snd] in *. subst right_. destruct (decide (left_ < Z.of_nat (length l))) as [Hlr|].
    2:{ unfold get_step. rewrite (proj2 (Z.ltb_ge _ _)) by lia. done. }
    pose proof (mid_bounds _ _ Hlr) as Hm.
    destruct (lookup_lt_is_Some_2 l (Z.to_nat ((left_ + Z.of_nat (length l)) / 2))) as [q Hq]; [lia|].
    assert (key q < fd) as Hqf by (rewrite Forall_forall in Hlt; apply Hlt; by eapply list_elem_of_lookup_2).
    rewrite (get_step_eq _ _ _ _ q); [|done|lia|unfold INT_MAX; lia|by apply lookup_app_l_Some].
    rewrite (proj2 (Z.ltb_ge _ _)), (proj2 (Z.ltb_lt _ _)) by lia. cbn [returns fst snd]. lia.
  - simpl. lia.
  - simpl. lia.
Qed.

Lemma pollfd_array_input_spec l p :
  Forall (λ q, q ≠ Junk) l →
  returns (pollfd_array_input l (Z.of_nat (length l)) p) (λ r,
    (r = (-1, l) ∧ (Null ∉ l)) ∨ ∃ l1 l2, l = l1 ++ Null :: l2 ∧ (Null ∉ l1) ∧ r = (0, l1 ++ p :: l2)).
Proof.
  intros Hj. unfold pollfd_array_input.
  apply (loop_returns (λ i, 0 ≤ i ≤ Z.of_nat (length l) ∧ (Null ∉ take (Z.to_nat i) l)) (λ i, Z.to_nat (Z.of_nat (length l) - i))).
  - intros i [Hi Hn]. destruct (Z.ltb_spec i (Z.of_nat (length l))) as [Hlt|Hge].
    2:{ left. rewrite take_ge in Hn by lia. done. }
    destruct (lookup_lt_is_Some_2 l (Z.to_nat i)) as [q Hq]; [lia|].
    rewrite (aget_lookup _ _ q) by (done || lia). cbn [mbind outcome_bind].
    pose proof (take_drop_middle l _ q Hq) as Em. pose proof (take_S_r l _ q Hq) as Et.
    destruct q as [|a|]; cbn [truth mbind outcome_bind].
    + rewrite aset_ok by lia. cbn [mbind outcome_bind]. right.
      exists (take (Z.to_nat i) l), (drop (S (Z.to_nat i)) l). split; [done|]. split; [done|]. f_equal.
      rewrite insert_take_drop by lia. done.
    + cbn [returns]. replace (Z.to_nat (i + 1)) with (S (Z.to_nat i)) by lia. rewrite Et. split; [|lia]. split; [lia|].
      rewrite elem_of_app. intros [H|H]; [done|]. by apply list_elem_of_singleton in H.
    + rewrite Forall_forall in Hj. destruct (Hj Junk); [by eapply list_elem_of_lookup_2|done].
  - split; [lia|]. by rewrite take_0; apply not_elem_of_nil.
  - lia.
Qed.
End table_lemmas.

(** ** Properties *)

(** [protocol_parse] on the requests it is written for: it never returns,
    whatever the fuel, when it meets a byte that is not ['*']; and a request
    with a count of at least one and an argument whose first byte is not a
    carriage return (the sample request of [protocol.h] and whatever follows
    it, for one) makes it dereference a pointer that is null or read past the
    buffer.  Only requests for no argument are answered, with -1. *)
Lemma protocol_parse_progress kv_alloc len tl :
  0 < len →
  (∀ fuel c, c ≠ 42 → protocol_parse kv_alloc fuel (c :: tl) len = Loop) ∧
  (∀ fuel argc n c, (2 ≤ fuel)%nat → 1 ≤ argc < 2 ^ 28 → 1 ≤ n < 2 ^ 28 → c ≠ 13 → kv_alloc (8 + argc * 8) = true →
     protocol_parse kv_alloc fuel (request_head argc n ++ c :: tl) len = Stuck) ∧
  (∀ fuel, (2 ≤ fuel)%nat → kv_alloc 416 = true → protocol_parse kv_alloc fuel (sample_request ++ tl) len = Stuck) ∧
  (∀ fuel, (1 ≤ fuel)%nat → protocol_parse kv_alloc fuel (42 :: 0 :: tl) len = Ret (Some (-1))).
Proof.
  intros Hl. split; [|split; [|split]].
  - intros fuel c Hc. apply (parse_diverges _ _ _ _ _ c); [done|reflexivity|done].
  - intros fuel argc n c Hf Ha Hn Hc Hk. apply (parse_request _ _ _ argc n c tl); (done || reflexivity).
  - intros fuel Hf Hk. apply (parse_request _ _ _ 51 51 83 ([69; 84; 13; 10; 36; 53; 13; 10; 109; 121; 107; 101; 121; 13; 10;
   36; 55; 13; 10; 109; 121; 118; 97; 108; 117; 101; 13; 10] ++ tl)); (done || reflexivity).
  - intros [|fuel] Hf; [lia|]. unfold protocol_parse. rewrite loop_S. unfold parse_step.
    by rewrite (proj2 (Z.ltb_lt 0 len)).
Qed.

Lemma protocol_parse_progress_witness :
  protocol_parse (λ _, true) 2 (sample_request ++ []) 37 = Stuck.
Proof.
  refine (proj1 (proj2 (proj2 (protocol_parse_progress (λ _, true) 37 [] _))) 2%nat _ _); (lia || done).
Defined.

(** [pollfd_array_insert_sort] orders a table of open sockets by
    descriptor.  On the result [pollfd_array_binary_get] terminates and answers
    -1 or the index of an entry with the descriptor asked for; but the entry of
    the greatest descriptor is never found, so a table with one entry, such as
    the listening socket of [tcp_server_run], answers -1 to every descriptor. *)
Lemma pollfd_lookup fds (l : list ptr) :
  Forall (watched fds) l → l ≠ [] → Z.of_nat (length l) ≤ 2 ^ 30 →
  returns (pollfd_array_insert_sort fds l (Z.of_nat (length l))) (λ l', l' ≡ₚ l ∧ by_fd fds l' ∧
    (∀ fd, returns (pollfd_array_binary_get fds l' (Z.of_nat (length l)) fd)
       (λ k, k = -1 ∨ ∃ p, 0 ≤ k ∧ l' !! Z.to_nat k = Some p ∧ key fds p = fd)) ∧
    ∃ l1 p, l' = l1 ++ [p] ∧ ∀ fd, Forall (λ q, key fds q < fd) l1 →
      pollfd_array_binary_get fds l' (Z.of_nat (length l)) fd = Ret (-1)).
Proof.
  intros Hw Hne Hl. eapply returns_mono; [by apply insert_sort_spec|]. intros l' [Hp Hs].
  assert (Forall (watched fds) l') as Hw' by by rewrite Hp. rewrite <-(Permutation_length Hp) in *.
  split; [done|]. split; [done|]. split; [intros fd; by apply binary_get_spec|].
  destruct l' as [|p l1 _] using rev_ind; [by apply Permutation_nil_l in Hp|].
  exists l1, p. split; [done|]. intros fd Hlt. by apply binary_get_last.
Qed.

Lemma pollfd_lookup_witness :
  let fds := {[ 1%positive := 9; 2%positive := 4; 3%positive := 6 ]} : gmap loc Z in
  let l := [Addr 1; Addr 2; Addr 3] in
  returns (pollfd_array_insert_sort fds l (Z.of_nat (length l))) (λ l', l' ≡ₚ l ∧ by_fd fds l' ∧
    (∀ fd, returns (pollfd_array_binary_get fds l' (Z.of_nat (length l)) fd)
       (λ k, k = -1 ∨ ∃ p, 0 ≤ k ∧ l' !! Z.to_nat k = Some p ∧ key fds p = fd)) ∧
    ∃ l1 p, l' = l1 ++ [p] ∧ ∀ fd, Forall (λ q, key fds q < fd) l1 →
      pollfd_array_binary_get fds l' (Z.of_nat (length l)) fd = Ret (-1)).
Proof. refine (pollfd_lookup _ _ _ _ _); [repeat constructor; vm_compute; reflexivity|done|vm_compute; done]. Defined.
