(* ===== verification/MinHeap.v ===== *)
(** * The binary heap of [cstring/minheap.h]

    An array of words ordered as a heap with the least word at the root.  The
    words are the pointers the array holds: the code compares the addresses,
    not what they point to.  The routine is shown to be the sift-down of
    [heap_sort.h] (see [Sorting.v]) for the reversed order, and inherits its
    properties. *)

From S2P Require Import Prelude Sorting.

(** ** Definitions *)
Definition HPARENT (i : Z) : Z := if i <? 1 then 0 else Z.shiftr (i - 1) 1.
Definition HLEFT (i : Z) : Z := Z.shiftl i 1 + 1.
Definition HRIGHT (i : Z) : Z := Z.shiftl i 1 + 2.

(** [SWAP(&mheap\[i\], &mheap\[j\])]. *)
Definition swap_words (mheap : list Z) (i j : Z) : outcome (list Z) :=
  let! tmp := aget mheap i in
  let! b := aget mheap j in
  let! mheap := aset mheap i b in
  aset mheap j tmp.

(** [if(child < length && mheap\[child\] < mheap\[curindex\]) curindex = child;]. *)
Definition lighter (mheap : list Z) (child length_ curindex : Z) : outcome Z :=
  if child <? length_ then
    let! x := aget mheap child in
    let! y := aget mheap curindex in
    Ret (if x <? y then child else curindex)
  else Ret curindex.

Definition up_step (length_ : Z) (st : Z * Z * list Z) : outcome (Z * Z * list Z + list Z) :=
  let '(curindex, index, mheap) := st in
  if curindex <? Z.quot length_ 2 then
    let! curindex := lighter mheap (HLEFT index) length_ curindex in
    let! curindex := lighter mheap (HRIGHT index) length_ curindex in
    if bool_decide (index ≠ curindex) then
      let! mheap := swap_words mheap index curindex in
      Ret (inl (curindex, curindex, mheap))
    else Ret (inr mheap)
  else Ret (inr mheap).

(** A turn moves down a level, so the length bounds the turns. *)
Definition up_heap_node (mheap : list Z) (index length_ : Z) : outcome (list Z) :=
  loop (S (length mheap)) (up_step length_) (index, index, mheap).

Definition make_min_heap (mheap : list Z) (length_ : Z) : outcome (list Z) :=
  for_rev (Z.quot length_ 2 - 1) 0 (λ i mheap, up_heap_node mheap i length_) mheap.

(** ** Specification *)

(** Every word is at least the one at its parent. *)
Definition min_heap (n : Z) (a : list Z) : Prop := ∀ c, 0 < c < n → get a (HPARENT c) ≤ get a c.

(** The order reversed. *)
Definition rev_order (a : list Z) : list Z := map Z.opp a.
Definition rev_out (m : outcome (list Z)) : outcome (list Z) := let! a := m in Ret (rev_order a).

(** ** Lemmas *)
Section reversal.
Implicit Types (a : list Z) (i j n : Z).

Lemma length_rev_order a : length (rev_order a) = length a.
Proof. apply length_map. Qed.

Lemma rev_order_twice a : rev_order (rev_order a) = a.
Proof. unfold rev_order. rewrite map_map. etrans; [apply map_ext; apply Z.opp_involutive|apply map_id]. Qed.

Lemma aget_rev a i : aget (rev_order a) i = (let! x := aget a i in Ret (- x)).
Proof.
  unfold aget, rev_order. case_bool_decide; [|done]. rewrite list_lookup_fmap. by destruct (a !! Z.to_nat i).
Qed.

Lemma aset_rev a i x : aset (rev_order a) i (- x) = rev_out (aset a i x).
Proof.
  unfold aset, rev_out. rewrite length_rev_order. case_bool_decide; [|done]. cbn [mbind outcome_bind].
  f_equal. symmetry. apply (list_fmap_insert Z.opp).
Qed.

Lemma lighter_pick a child n current : lighter a child n current = pick_child (rev_order a) child n current.
Proof.
  unfold lighter, pick_child. destruct (child <? n); [|done]. rewrite !aget_rev.
  destruct (aget a child) as [x| |]; [|done..]. destruct (aget a current) as [y| |]; [|done..].
  cbn [mbind outcome_bind]. f_equal.
  destruct (Z.ltb_spec x y), (Z.ltb_spec (- y) (- x)); (done || lia).
Qed.

Lemma aget_no_loop a i : aget a i ≠ Loop.
Proof. unfold aget. by repeat case_match. Qed.

Lemma swap_rev a i j : i ≠ j → SWAP (rev_order a) j i = rev_out (swap_words a i j).
Proof.
  intros Hij. unfold SWAP, swap_words. rewrite !aget_rev.
  destruct (aget a i) as [x| |] eqn:Ei; [..|by destruct (aget_no_loop a i)];
    (destruct (aget a j) as [y| |] eqn:Ej; [..|by destruct (aget_no_loop a j)]); cbn [mbind outcome_bind]; try done.
  apply aget_Ret in Ei as [Hi Li]. apply aget_Ret in Ej as [Hj Lj].
  pose proof (lookup_lt_Some _ _ _ Li). pose proof (lookup_lt_Some _ _ _ Lj).
  rewrite (aset_rev a j x), (aset_ok a j), (aset_ok a i) by lia. unfold rev_out. cbn [mbind outcome_bind].
  rewrite (aset_rev _ i y), aset_ok, aset_ok by (rewrite length_insert; lia). unfold rev_out. cbn [mbind outcome_bind].
  do 2 f_equal. apply list_insert_insert_ne. lia.
Qed.

(** One turn of the two routines. *)
Definition rev_state (st : Z * Z * list Z + list Z) : Z * Z * list Z + list Z :=
  match st with
  | inl (c, i, a) => inl (c, i, rev_order a)
  | inr a => inr (rev_order a)
  end.

Definition max_step (n : Z) (st : Z * Z * list Z) : outcome (Z * Z * list Z + list Z) :=
  let '(current, index, array) := st in
  if current <? Z.quot n 2 then
    let! current := pick_child array (LEFT index) n current in
    let! current := pick_child array (RIGHT index) n current in
    if bool_decide (current ≠ index) then
      let! array := SWAP array current index in
      Ret (inl (current, current, array))
    else Ret (inr array)
  else Ret (inr array).

Lemma up_step_rev n c i a : max_step n (c, i, rev_order a) = (let! r := up_step n (c, i, a) in Ret (rev_state r)).
Proof.
  unfold max_step, up_step. destruct (c <? Z.quot n 2); [|done].
  change LEFT with HLEFT. change RIGHT with HRIGHT. rewrite <-lighter_pick.
  destruct (lighter a (HLEFT i) n c) as [c1| |]; [|done..]. cbn [mbind outcome_bind]. rewrite <-lighter_pick.
  destruct (lighter a (HRIGHT i) n c1) as [c2| |]; [|done..]. cbn [mbind outcome_bind].
  destruct (decide (i = c2)) as [->|Hne].
  - rewrite !bool_decide_eq_false_2 by auto. done.
  - rewrite !bool_decide_eq_true_2 by auto. rewrite swap_rev by done. by destruct (swap_words a i c2).
Qed.

Lemma up_loop_rev fuel n c i a : loop fuel (max_step n) (c, i, rev_order a) = rev_out (loop fuel (up_step n) (c, i, a)).
Proof.
  revert c i a. induction fuel as [|fuel IH]; intros c i a; [done|]. rewrite !loop_S, up_step_rev.
  destruct (up_step n (c, i, a)) as [[[[c' i'] a']|a']| |]; [|done..]. apply IH.
Qed.

(** The heap routine is [up_heap] of the sorts under the reversed order. *)
Lemma up_heap_node_rev a i n : up_heap (rev_order a) i n = rev_out (up_heap_node a i n).
Proof. unfold up_heap, up_heap_node. rewrite length_rev_order. apply up_loop_rev. Qed.

Lemma make_min_heap_rev a e n : max_heap (rev_order a) 0 e n = rev_out (make_min_heap a n).
Proof.
  unfold max_heap, make_min_heap, for_rev. generalize (Z.quot n 2 - 1) as i.
  intros i. generalize (Z.to_nat (i - 0 + 1)) as k. intros k. revert i a.
  induction k as [|k IH]; intros i a; [done|]. cbn [for_down]. rewrite up_heap_node_rev.
  destruct (up_heap_node a i n) as [a'| |]; [|done..]. apply IH.
Qed.

Lemma get_rev a k : 0 ≤ k < len a → get (rev_order a) k = - get a k.
Proof.
  intros Hk. unfold get, rev_order. unfold len in Hk.
  destruct (lookup_lt_is_Some_2 a (Z.to_nat k)) as [x Hx]; [lia|].
  rewrite (list_lookup_total_correct _ _ _ Hx). apply list_lookup_total_correct. by rewrite list_lookup_fmap, Hx.
Qed.

Lemma HPARENT_parent c : 0 < c → HPARENT c = parent c.
Proof.
  intros Hc. unfold HPARENT, parent. rewrite (proj2 (Z.ltb_ge _ _)) by lia. by rewrite Z.shiftr_div_pow2 by lia.
Qed.

Lemma min_heap_rev n a : n ≤ len a → heap_from 0 n (rev_order a) → min_heap n a.
Proof.
  intros Hn Hh c Hc. rewrite HPARENT_parent by lia. assert (0 ≤ parent c < c) as Hp by (unfold parent; dlia).
  specialize (Hh c Hc (proj1 Hp)). rewrite !get_rev in Hh by lia. lia.
Qed.
End reversal.

(** ** Properties *)

(** The heap routines are those of the heap sort for the reversed order, one
    turn and one call at a time; so [make_min_heap] over a whole array
    terminates and rearranges it into a heap whose root is the least word. *)
Lemma make_min_heap_correct a :
  (∀ i n, up_heap (rev_order a) i n = rev_out (up_heap_node a i n)) ∧
  (∀ e n, max_heap (rev_order a) 0 e n = rev_out (make_min_heap a n)) ∧
  returns (make_min_heap a (len a)) (λ a', a' ≡ₚ a ∧ min_heap (len a) a' ∧ ∀ k, 0 ≤ k < len a → get a' 0 ≤ get a' k).
Proof.
  split; [intros; apply up_heap_node_rev|]. split; [intros; apply make_min_heap_rev|].
  pose proof (max_heap_spec (rev_order a) 0) as H. assert (len (rev_order a) = len a) as El by (unfold len; by rewrite length_rev_order).
  rewrite El, make_min_heap_rev in H. unfold rev_out in H.
  destruct (make_min_heap a (len a)) as [a'| |]; [|done..]. cbn [mbind outcome_bind returns] in *. destruct H as [[Hp _] Hh].
  assert (a' ≡ₚ a) as Hp'.
  { rewrite <-(rev_order_twice a'), <-(rev_order_twice a). by apply Permutation_map. }
  assert (len a' = len a) as El' by (unfold len; by rewrite (Permutation_length Hp')).
  split; [done|]. split; [by apply min_heap_rev; [lia|]|]. intros k Hk.
  pose proof (heap_root _ _ Hh k Hk) as Hr. rewrite !get_rev in Hr by lia. lia.
Qed.
