(* ===== verification/Cstring.v ===== *)
(** * Reference-counted strings: [cstring/cstring.h]

    A [cstring] is a header (reference count, length with the terminator) and
    the characters behind it.  [sizeof(cstring)] is 16 while the characters
    start at offset 12, so every block has four bytes more than the length it
    was allocated for.  The heap maps the blocks to their contents, [None] being
    an indeterminate byte; the result of an allocation is an argument
    ([None] when it fails, otherwise a block that is not in use).  [string] is
    a variable with a cleanup that calls [cstring_free] when it leaves its
    scope, after the value to return has been computed; the trace it prints is
    not modelled. *)

From S2P Require Import Prelude.

(** ** Definitions *)
Record cstring : Type := CString { refcount : Z; strlen : Z; value : list (option Z) }.
Abbreviation heap := (gmap loc cstring).

Definition CSTRING_SIZE : Z := 16.
(** Offset of [value]. *)
Definition VALUE_OFFSET : Z := 12.

Definition deref (h : heap) (p : ptr) : outcome cstring :=
  match p with
  | Addr l => match h !! l with Some c => Ret c | None => Stuck end
  | _ => Stuck
  end.

Definition write (h : heap) (p : ptr) (c : cstring) : outcome heap :=
  match p with
  | Addr l => match h !! l with Some _ => Ret (<[l:=c]> h) | None => Stuck end
  | _ => Stuck
  end.

(** A block of [size] bytes with indeterminate contents. *)
Definition malloc (h : heap) (m : option loc) (size : Z) : ptr * heap :=
  match m with
  | Some l => (Addr l, <[l:=CString 0 0 (replicate (Z.to_nat (size - VALUE_OFFSET)) None)]> h)
  | None => (Null, h)
  end.

(** [atomic_fetch_sub_long(&p->refcount, v)] and [atomic_fetch_add_long]. *)
Definition atomic_fetch_sub_long (h : heap) (p : ptr) (v : Z) : outcome (Z * heap) :=
  let! c := deref h p in
  let! h := write h p (CString (s64 (refcount c - v)) (strlen c) (value c)) in
  Ret (refcount c, h).

Definition atomic_fetch_add_long (h : heap) (p : ptr) (v : Z) : outcome (Z * heap) :=
  let! c := deref h p in
  let! h := write h p (CString (s64 (refcount c + v)) (strlen c) (value c)) in
  Ret (refcount c, h).

Definition free (h : heap) (p : ptr) : outcome heap :=
  match p with
  | Addr l => match h !! l with Some _ => Ret (delete l h) | None => Stuck end
  | Null => Ret h
  | Junk => Stuck
  end.

(** [p] is the content of the variable whose address is passed. *)
Definition cstring_free (h : heap) (p : ptr) : outcome heap :=
  let! r := atomic_fetch_sub_long h p 1 in
  let '(curref, h) := r in
  if bool_decide (s32 curref = 1) then free h p else Ret h.

(** [pcstr] is the array behind the pointer, [None] the null pointer. *)
Definition new_string (h : heap) (m : option loc) (pcstr : option (list (option Z))) (index len : Z) : outcome (ptr * heap) :=
  match pcstr with
  | None => Ret (Null, h)
  | Some src =>
      if (0xfffffff <? index) || (0xfffffff <? len) then Ret (Null, h)
      else
        let '(p, h) := malloc h m (CSTRING_SIZE + len + 1) in
        let! c := deref h p in
        let! value := memcpy (value c) 0 src index len in
        let! value := aset value len (Some 0) in
        let! h := write h p (CString 2 (len + 1) value) in
        let! h := cstring_free h p in
        Ret (p, h)
  end.

(** The character, [None] for an indeterminate one. *)
Definition at_ (h : heap) (p : ptr) (pos : Z) : outcome (option Z) :=
  if bool_decide (p = Null) || (pos <? 0) then Ret (Some 0)
  else
    let! c := deref h p in
    if strlen c <=? pos then Ret (Some 0) else aget (value c) pos.

Definition empty (h : heap) (p : ptr) : outcome Z :=
  let! c := deref h p in Ret (if 1 <? strlen c then 1 else 0).

Definition length_ (h : heap) (p : ptr) : outcome Z :=
  let! c := deref h p in Ret (u32 (strlen c - 1)).

Definition substr (h : heap) (m : option loc) (p : ptr) (pos num : Z) : outcome (ptr * heap) :=
  let! c := deref h p in
  let! r := new_string h m (Some (value c)) pos num in
  let '(newp, h) := r in
  let! r := atomic_fetch_add_long h newp 1 in
  let '(curref, h) := r in
  if s32 curref <? 1 then
    let! h := free h p in
    let! h := cstring_free h newp in
    Ret (Null, h)
  else
    let! h := cstring_free h newp in
    Ret (newp, h).

Definition append (h : heap) (m : option loc) (p ip : ptr) : outcome (ptr * heap) :=
  let! cp := deref h p in
  let! ci := deref h ip in
  let newstrlen := u32 (strlen cp + strlen ci - 1) in
  let '(newp, h) := malloc h m (CSTRING_SIZE + newstrlen) in
  let! c := deref h newp in
  let! v := memcpy (value c) 0 (value cp) 0 (u32 (strlen cp - 1)) in
  let! v := memcpy v (u32 (strlen cp - 1)) (value ci) 0 (u32 (strlen ci - 1)) in
  let! v := aset v newstrlen (Some 0) in
  let! h := write h newp (CString 2 newstrlen v) in
  let! h := cstring_free h newp in
  Ret (newp, h).

(** [realloc] to a block of [size] bytes: [m] is the place of the result, [p]
    itself or a block that is not in use; the old block is gone. *)
Definition realloc (h : heap) (m : option loc) (p : ptr) (size : Z) : outcome (ptr * heap) :=
  let! c := deref h p in
  match m with
  | None => Ret (Null, h)
  | Some l =>
      let n := Z.to_nat (size - VALUE_OFFSET) in
      let! h := free h p in
      Ret (Addr l, <[l:=CString (refcount c) (strlen c) (take n (value c) ++ replicate (n - length (value c)) None)]> h)
  end.

Definition append_realloc (h : heap) (m : option loc) (p ip : ptr) : outcome (ptr * heap) :=
  let! cp := deref h p in
  let plen := strlen cp in
  let! ci := deref h ip in
  let iplen := strlen ci in
  let! r := realloc h m p (CSTRING_SIZE + plen + iplen - 1) in
  let '(p, h) := r in
  if bool_decide (p = Null) then Ret (Null, h)
  else
    let! c := deref h p in
    let newlen := u32 (plen + iplen - 1) in
    let! h := write h p (CString 1 newlen (value c)) in
    let! ci := deref h ip in
    let! c := deref h p in
    let! v := memcpy (value c) (plen - 1) (value ci) 0 (u32 (iplen - 1)) in
    let! v := aset v newlen (Some 0) in
    let! h := write h p (CString 1 newlen v) in
    Ret (p, h).

(** The array [c_str] points to. *)
Definition c_str (h : heap) (p : ptr) : outcome (option (list (option Z))) :=
  if bool_decide (p = Null) then Ret None else let! c := deref h p in Ret (Some (value c)).

(** ** Specification *)

(** The block at [l] holds the characters [s] with their terminator and is
    referred to [k] times. *)
Definition is_str (h : heap) (l : loc) (s : list Z) (k : Z) : Prop :=
  ∃ v, h !! l = Some (CString k (Z.of_nat (length s) + 1) v) ∧
    take (length s + 1) v = (Some <$> s) ++ [Some 0] ∧ length v = (length s + 5)%nat.

(** Strings [new_string] accepts. *)
Definition short (s : list Z) : Prop := Z.of_nat (length s) ≤ 0xfffffff.

(** ** Lemmas *)
Section strings.
Implicit Types (h : heap) (l : loc) (s : list Z).

Lemma memcpy_eq {A} (dst src : list A) d i n :
  0 ≤ n → 0 ≤ d → d + n ≤ Z.of_nat (length dst) → 0 ≤ i → i + n ≤ Z.of_nat (length src) →
  memcpy dst d src i n =
  Ret (take (Z.to_nat d) dst ++ take (Z.to_nat n) (drop (Z.to_nat i) src) ++ drop (Z.to_nat (d + n)) dst).
Proof. intros. unfold memcpy. by rewrite bool_decide_eq_true_2 by lia. Qed.

Lemma deref_write h l c c' : h !! l = Some c → write h (Addr l) c' = Ret (<[l:=c']> h).
Proof. intros H. unfold write. by rewrite H. Qed.

Lemma deref_ok h l c : h !! l = Some c → deref h (Addr l) = Ret c.
Proof. intros H. unfold deref. by rewrite H. Qed.

(** Dropping a reference: the block stays until the last one. *)
Lemma cstring_free_spec h l c :
  h !! l = Some c → 1 ≤ refcount c ≤ INT_MAX →
  cstring_free h (Addr l) =
  Ret (if bool_decide (refcount c = 1) then delete l h else <[l:=CString (refcount c - 1) (strlen c) (value c)]> h).
Proof.
  unfold INT_MAX. intros Hc Hr. unfold cstring_free, atomic_fetch_sub_long. rewrite (deref_ok _ _ _ Hc). cbn [mbind outcome_bind].
  rewrite (deref_write _ _ _ _ Hc). cbn [mbind outcome_bind]. unfold s32, s64. rewrite !sw_id by lia.
  case_bool_decide; [|done]. unfold free. rewrite lookup_insert_eq. by rewrite delete_insert_eq.
Qed.

Lemma free_other h h' l l' : h' = delete l h → l' ≠ l → h' !! l' = h !! l'.
Proof. intros -> H. by apply lookup_delete_ne. Qed.

Lemma finish_string h l c :
  h !! l = Some c → refcount c = 2 → cstring_free h (Addr l) = Ret (<[l:=CString 1 (strlen c) (value c)]> h).
Proof.
  intros Hc Hr. rewrite (cstring_free_spec _ _ _ Hc) by (rewrite Hr; unfold INT_MAX; lia).
  rewrite Hr. by rewrite bool_decide_eq_false_2 by lia.
Qed.

(** [new_string] copies the characters and leaves one reference. *)
Lemma new_string_ok h l src index s :
  h !! l = None → short s → 0 ≤ index ≤ 0xfffffff → index + Z.of_nat (length s) ≤ Z.of_nat (length src) →
  take (length s) (drop (Z.to_nat index) src) = Some <$> s →
  returns (new_string h (Some l) (Some src) index (Z.of_nat (length s)))
    (λ r, r.1 = Addr l ∧ is_str r.2 l s 1 ∧ ∀ l', l' ≠ l → r.2 !! l' = h !! l').
Proof.
  unfold short. intros Hf Hs Hi Hl Ht. unfold new_string, CSTRING_SIZE. rewrite (proj2 (Z.ltb_ge _ index)) by lia.
  rewrite (proj2 (Z.ltb_ge _ (Z.of_nat _))) by lia. cbn [orb malloc]. unfold VALUE_OFFSET.
  rewrite (deref_ok _ l _ (lookup_insert_eq _ _ _)). cbn [mbind outcome_bind value].
  rewrite memcpy_eq by (rewrite ?length_replicate; lia). cbn [mbind outcome_bind].
  rewrite Nat2Z.id, Ht, drop_replicate. change (Z.to_nat 0) with O. rewrite take_0. cbn [app].
  replace (Z.to_nat (16 + Z.of_nat (length s) + 1 - 12) - Z.to_nat (0 + Z.of_nat (length s)))%nat with 5%nat by lia.
  change (replicate 5 (None : option Z)) with (None :: replicate 4 (None : option Z)).
  rewrite (aset_mid (Some <$> s) _ None) by (by rewrite length_fmap). cbn [mbind outcome_bind].
  erewrite deref_write by apply lookup_insert_eq. cbn [mbind outcome_bind]. rewrite insert_insert_eq.
  erewrite finish_string by (apply lookup_insert_eq || done). cbn [mbind outcome_bind returns fst snd strlen value].
  split; [done|]. split.
  - eexists. rewrite insert_insert_eq, lookup_insert_eq. split; [done|]. split.
    + change (Some 0 :: replicate 4 None) with ([Some 0] ++ replicate 4 (None : option Z)). rewrite app_assoc.
      apply take_app_length'. rewrite length_app, length_fmap. simpl. lia.
    + rewrite length_app, length_fmap. simpl. lia.
  - intros l' Hne. by rewrite !lookup_insert_ne by done.
Qed.

Lemma is_str_deref h l s k : is_str h l s k → ∃ v, deref h (Addr l) = Ret (CString k (Z.of_nat (length s) + 1) v) ∧
  take (length s + 1) v = (Some <$> s) ++ [Some 0] ∧ length v = (length s + 5)%nat.
Proof. intros (v & H & Hv). exists v. by rewrite (deref_ok _ _ _ H). Qed.

(** The characters, the terminator, and 0 beyond. *)
Lemma at_ok h l s k pos :
  is_str h l s k → 0 ≤ pos → at_ h (Addr l) pos = Ret (Some (default 0 (s !! Z.to_nat pos))).
Proof.
  intros (v & Hd & Ht & Hl)%is_str_deref Hp. unfold at_. rewrite bool_decide_eq_false_2 by done.
  rewrite (proj2 (Z.ltb_ge _ 0)) by lia. cbn [orb]. rewrite Hd. cbn [mbind outcome_bind strlen value].
  destruct (Z.leb_spec (Z.of_nat (length s) + 1) pos).
  - by rewrite (lookup_ge_None_2 s) by lia.
  - apply aget_lookup; [done|]. rewrite <-(lookup_take_lt _ (length s + 1)), Ht by lia.
    destruct (decide (Z.to_nat pos < length s)%nat) as [Hlt|].
    + rewrite lookup_app_l, list_lookup_fmap by (by rewrite length_fmap).
      destruct (lookup_lt_is_Some_2 s (Z.to_nat pos) Hlt) as [x ->]. done.
    + rewrite lookup_app_r by (rewrite length_fmap; lia). rewrite length_fmap, (lookup_ge_None_2 s) by lia.
      by replace (Z.to_nat pos - length s)%nat with O by lia.
Qed.

(** [length] counts the characters; [empty] answers whether there are any. *)
Lemma length_empty_ok h l s k :
  is_str h l s k → short s →
  length_ h (Addr l) = Ret (Z.of_nat (length s)) ∧ empty h (Addr l) = Ret (if bool_decide (s = []) then 0 else 1).
Proof.
  unfold short. intros (v & Hd & Ht & Hl)%is_str_deref Hs. unfold length_, empty. rewrite Hd. cbn [mbind outcome_bind strlen].
  split.
  - rewrite u32_id by (unfold is_u32; lia). f_equal. lia.
  - f_equal. destruct s; [done|]. rewrite bool_decide_eq_false_2 by done. by rewrite (proj2 (Z.ltb_lt _ _)) by (simpl length; lia).
Qed.

(** [substr] within the string. *)
Lemma substr_ok h l l' s k pos num :
  is_str h l s k → h !! l' = None → short s → 0 ≤ pos → 0 ≤ num → pos + num ≤ Z.of_nat (length s) →
  returns (substr h (Some l') (Addr l) pos num)
    (λ r, r.1 = Addr l' ∧ is_str r.2 l' (take (Z.to_nat num) (drop (Z.to_nat pos) s)) 1 ∧ is_str r.2 l s k).
Proof.
  intros Hstr Hf Hs Hp Hn Hle. pose proof Hstr as (v & Hv & Ht & Hl). unfold short in Hs.
  unfold substr. rewrite (deref_ok _ _ _ Hv). cbn [mbind outcome_bind value].
  set (t := take (Z.to_nat num) (drop (Z.to_nat pos) s)).
  assert (length t = Z.to_nat num) as Et by (unfold t; rewrite length_take, length_drop; lia).
  assert (take (length t) (drop (Z.to_nat pos) v) = Some <$> t) as Htk.
  { rewrite Et. unfold t. rewrite fmap_take, fmap_drop.
    rewrite <-(take_drop (length s + 1) v), Ht, <-app_assoc.
    rewrite drop_app_le, take_app_le by (rewrite ?length_drop, length_fmap; lia). done. }
  replace num with (Z.of_nat (length t)) by lia.
  run (new_string_ok h l' v pos t); [done|unfold short; lia|lia|lia|done|].
  intros [newp h1] (E & (v1 & H1 & Hv1) & Hother). cbn [fst snd] in *. subst newp. unfold atomic_fetch_add_long.
  rewrite (deref_ok _ _ _ H1). cbn [mbind outcome_bind refcount strlen value].
  rewrite (deref_write _ _ _ _ H1). cbn [mbind outcome_bind]. change (s32 1 <? 1) with false. change (s64 (1 + 1)) with 2. cbv iota.
  erewrite finish_string by (apply lookup_insert_eq || done). cbn [mbind outcome_bind returns fst snd strlen value].
  split; [done|]. assert (l ≠ l') as Hne by congruence. split.
  - exists v1. rewrite insert_insert_eq, lookup_insert_eq. done.
  - exists v. rewrite !lookup_insert_ne by done. rewrite Hother by done. done.
Qed.

(** [append] puts the terminator one place too far: the character in front of
    it is never written. *)
Lemma append_indeterminate h l1 l2 l s1 s2 k1 k2 :
  is_str h l1 s1 k1 → is_str h l2 s2 k2 → h !! l = None → short s1 → short s2 →
  returns (append h (Some l) (Addr l1) (Addr l2)) (λ r, r.1 = Addr l ∧
    ∃ tl, r.2 !! l = Some (CString 1 (Z.of_nat (length (s1 ++ s2)) + 1) ((Some <$> s1 ++ s2) ++ None :: Some 0 :: tl)) ∧
      at_ r.2 (Addr l) (Z.of_nat (length (s1 ++ s2))) = Ret None).
Proof.
  intros (v1 & H1 & T1 & L1) (v2 & H2 & T2 & L2) Hf S1 S2. unfold short in *. unfold append, CSTRING_SIZE.
  rewrite (deref_ok _ _ _ H1), (deref_ok _ _ _ H2). cbn [mbind outcome_bind strlen value].
  rewrite !u32_id by (unfold is_u32; lia).
  replace (Z.of_nat (length s1) + 1 - 1) with (Z.of_nat (length s1)) by lia.
  replace (Z.of_nat (length s2) + 1 - 1) with (Z.of_nat (length s2)) by lia.
  set (n := Z.of_nat (length s1) + 1 + (Z.of_nat (length s2) + 1) - 1). cbn [malloc]. unfold VALUE_OFFSET.
  rewrite (deref_ok _ l _ (lookup_insert_eq _ _ _)). cbn [mbind outcome_bind value].
  assert (∀ s v, take (length s + 1) v = (Some <$> s) ++ [Some 0] → length v = (length s + 5)%nat → take (length s) v = Some <$> s) as Htake.
  { intros s v T L. rewrite <-(take_app_length' (Some <$> s) [Some 0] (length s)), <-T by (by rewrite length_fmap).
    rewrite take_take. f_equal. lia. }
  rewrite memcpy_eq by (rewrite ?length_replicate; unfold n; lia). cbn [mbind outcome_bind].
  change (Z.to_nat 0) with O. rewrite take_0, drop_0, Nat2Z.id, (Htake s1 v1 T1 L1), drop_replicate. cbn [app].
  replace (Z.to_nat (16 + n - 12) - Z.to_nat (0 + Z.of_nat (length s1)))%nat with (length s2 + 5)%nat by (unfold n; lia).
  rewrite memcpy_eq by (rewrite ?length_app, ?length_fmap, ?length_replicate; unfold n; lia). cbn [mbind outcome_bind].
  change (Z.to_nat 0) with O. rewrite drop_0, !Nat2Z.id, (Htake s2 v2 T2 L2), take_app_length' by (by rewrite length_fmap).
  rewrite drop_app_ge, drop_replicate by (rewrite length_fmap; lia). rewrite length_fmap.
  replace (length s2 + 5 - (Z.to_nat (Z.of_nat (length s1) + Z.of_nat (length s2)) - length s1))%nat with 5%nat by lia.
  rewrite (app_assoc (Some <$> s1)), <-fmap_app.
  change (replicate 5 (None : option Z)) with ([None] ++ None :: replicate 3 (None : option Z)). rewrite app_assoc.
  rewrite aset_mid by (rewrite length_app, length_fmap, length_app; unfold n; simpl; lia). cbn [mbind outcome_bind].
  erewrite deref_write by apply lookup_insert_eq. cbn [mbind outcome_bind]. rewrite insert_insert_eq.
  erewrite finish_string by (apply lookup_insert_eq || done). cbn [mbind outcome_bind returns fst snd strlen value].
  split; [done|]. rewrite insert_insert_eq.
  replace n with (Z.of_nat (length (s1 ++ s2)) + 1) by (rewrite length_app; unfold n; lia).
  exists (replicate 3 None). rewrite lookup_insert_eq, <-app_assoc. split; [done|].
  unfold at_. rewrite bool_decide_eq_false_2, (proj2 (Z.ltb_ge _ 0)) by (done || lia). cbn [orb].
  rewrite (deref_ok _ l _ (lookup_insert_eq _ _ _)). cbn [mbind outcome_bind strlen value].
  rewrite (proj2 (Z.leb_gt _ _)) by lia. apply aget_mid. by rewrite length_fmap.
Qed.
End strings.
