(* ===== verification/Practice.v ===== *)
(** * Pointer exercises: [practice/slist_reverse.c], [practice/binary_tree.c]
    and [practice/ary.c]

    A singly linked list behind a head cell, a binary search tree, and the
    reading of a hexadecimal number.  Nodes live in a heap of records; the node
    a [malloc] returns is an argument, [None] when it fails.  What the
    traversals print is the list of the numbers in order. *)

From S2P Require Import Prelude.

(** ** Definitions: the list *)
Record snode : Type := SNode { next : ptr; data : Z }.
Abbreviation sheap := (gmap loc snode).

Definition sget (h : sheap) (p : ptr) : outcome snode :=
  match p with
  | Addr l => match h !! l with Some n => Ret n | None => Stuck end
  | _ => Stuck
  end.

Definition set_next (h : sheap) (p q : ptr) : outcome sheap :=
  match p with
  | Addr l => match h !! l with Some n => Ret (<[l:=SNode q (data n)]> h) | None => Stuck end
  | _ => Stuck
  end.

(** [head] is null ([None]) or points to a cell with the first node. *)
Definition reverse_step (fetch : ptr) (st : ptr * sheap) : outcome (ptr * sheap + ptr * sheap) :=
  let '(head_next, h) := st in
  let! f := sget h fetch in
  let! b := truth (next f) in
  if b : bool then
    let node := next f in
    let! n := sget h node in
    let! h := set_next h fetch (next n) in
    let! h := set_next h node head_next in
    Ret (inl (node, h))
  else Ret (inr (head_next, h)).

Definition slist_reverse (h : sheap) (head : option ptr) : outcome (option ptr * sheap) :=
  match head with
  | None => Ret (head, h)
  | Some head_next =>
      let! b := truth head_next in
      if b : bool then
        let! r := loop (S (size h)) (reverse_step head_next) (head_next, h) in
        Ret (Some r.1, r.2)
      else Ret (head, h)
  end.

Definition slist_insert (h : sheap) (m : option loc) (head : option ptr) (d : Z) : outcome (option ptr * sheap) :=
  match head with
  | None => Ret (head, h)
  | Some head_next =>
      match m with
      | None => Stuck
      | Some l => Ret (Some (Addr l), <[l:=SNode head_next d]> h)
      end
  end.

Definition free_step (st : ptr * sheap) : outcome (ptr * sheap + sheap) :=
  let '(fetch, h) := st in
  let! b := truth fetch in
  if b : bool then
    let tmp := fetch in
    let! n := sget h fetch in
    match tmp with
    | Addr l => Ret (inl (next n, delete l h))
    | _ => Stuck
    end
  else Ret (inr h).

Definition slist_free (h : sheap) (head : option ptr) : outcome sheap :=
  match head with
  | None => Ret h
  | Some head_next => loop (S (size h)) free_step (head_next, h)
  end.

Definition print_step (h : sheap) (st : ptr * list Z) : outcome (ptr * list Z + list Z) :=
  let '(fetch, out) := st in
  let! b := truth fetch in
  if b : bool then
    let! n := sget h fetch in
    Ret (inl (next n, out ++ [data n]))
  else Ret (inr out).

Definition slist_foreach (h : sheap) (head : option ptr) : outcome (list Z) :=
  match head with
  | None => Ret []
  | Some head_next =>
      loop (S (size h)) (print_step h) (head_next, [])
  end.

(** ** Definitions: the tree *)
Record btree : Type := BTree { left_ : ptr; right_ : ptr; tdata : Z }.
Abbreviation bheap := (gmap loc btree).

Definition bget (h : bheap) (p : ptr) : outcome btree :=
  match p with
  | Addr l => match h !! l with Some n => Ret n | None => Stuck end
  | _ => Stuck
  end.

Definition bset (h : bheap) (p : ptr) (n : btree) : outcome bheap :=
  match p with
  | Addr l => match h !! l with Some _ => Ret (<[l:=n]> h) | None => Stuck end
  | _ => Stuck
  end.

(** [NEW_NODE(i)]. *)
Definition NEW_NODE (h : bheap) (m : option loc) (i : Z) : outcome (ptr * bheap) :=
  match m with
  | None => Stuck
  | Some l => Ret (Addr l, <[l:=BTree Null Null i]> h)
  end.

Definition btree_insert_step (h : bheap) (m : option loc) (d : Z) (head : ptr) : outcome (ptr + bheap) :=
  let! n := bget h head in
  if d <=? tdata n then
    let! b := truth (left_ n) in
    if b : bool then Ret (inl (left_ n))
    else
      let! r := NEW_NODE h m d in
      let! h := bset r.2 head (BTree r.1 (right_ n) (tdata n)) in
      Ret (inr h)
  else
    let! b := truth (right_ n) in
    if b : bool then Ret (inl (right_ n))
    else
      let! r := NEW_NODE h m d in
      let! h := bset r.2 head (BTree (left_ n) r.1 (tdata n)) in
      Ret (inr h).

Definition btree_insert (h : bheap) (m : option loc) (head : ptr) (d : Z) : outcome bheap :=
  let! b := truth head in
  if b : bool then
    let! n := bget h head in
    if bool_decide (tdata n = -1) then bset h head (BTree (left_ n) (right_ n) d)
    else loop (S (size h)) (btree_insert_step h m d) head
  else Ret h.

(** The recursive functions; [fuel] bounds the depth of the recursion. *)
Fixpoint btree_free (fuel : nat) (h : bheap) (head : ptr) : outcome bheap :=
  match fuel with
  | O => Loop
  | S fuel =>
      let! b := truth head in
      if b : bool then
        let! n := bget h head in
        let! h := btree_free fuel h (left_ n) in
        let! n := bget h head in
        let! h := btree_free fuel h (right_ n) in
        match head with
        | Addr l => match h !! l with Some _ => Ret (delete l h) | None => Stuck end
        | _ => Stuck
        end
      else Ret h
  end.

Fixpoint btree_foreach_preorder (fuel : nat) (h : bheap) (head : ptr) : outcome (list Z) :=
  match fuel with
  | O => Loop
  | S fuel =>
      let! b := truth head in
      if b : bool then
        let! n := bget h head in
        let! l := btree_foreach_preorder fuel h (left_ n) in
        let! r := btree_foreach_preorder fuel h (right_ n) in
        Ret (l ++ tdata n :: r)
      else Ret []
  end.

Fixpoint btree_foreach_midorder (fuel : nat) (h : bheap) (head : ptr) : outcome (list Z) :=
  match fuel with
  | O => Loop
  | S fuel =>
      let! b := truth head in
      if b : bool then
        let! n := bget h head in
        let! l := btree_foreach_midorder fuel h (left_ n) in
        let! r := btree_foreach_midorder fuel h (right_ n) in
        Ret (tdata n :: l ++ r)
      else Ret []
  end.

Fixpoint btree_foreach_postorder (fuel : nat) (h : bheap) (head : ptr) : outcome (list Z) :=
  match fuel with
  | O => Loop
  | S fuel =>
      let! b := truth head in
      if b : bool then
        let! n := bget h head in
        let! l := btree_foreach_postorder fuel h (left_ n) in
        let! r := btree_foreach_postorder fuel h (right_ n) in
        Ret (l ++ r ++ [tdata n])
      else Ret []
  end.

(** ** Definitions: the hexadecimal number *)

(** The value of a digit. *)
Definition hex_digit (chr : Z) : option Z :=
  if (chr <=? 57) && (48 <=? chr) then Some (chr - 48)
  else if (chr <=? 70) && (65 <=? chr) then Some (10 + chr - 65)
  else if (chr <=? 102) && (97 <=? chr) then Some (10 + chr - 97)
  else None.

(** [x << n] of an [int]: undefined when the count is not below 32 or the
    product does not fit. *)
Definition shl_int (x n : Z) : outcome Z :=
  if (0 <=? n) && (n <? 32) then in_s32 (x * 2 ^ n) else Stuck.

(** The status and the number ([*ret]). *)
Definition ary_step (string : list Z) (len : Z) (st : Z * Z) : outcome (Z * Z + Z * Z) :=
  let '(i, ret) := st in
  if i <? len then
    let! chr := aget string i in
    if bool_decide (chr = 0) then Ret (inr (0, ret))
    else
      match hex_digit chr with
      | Some x =>
          let! y := shl_int x (4 * (len - i - 1)) in
          let! ret := in_s32 (ret + y) in
          Ret (inl (i + 1, ret))
      | None => Ret (inr (-1, ret))
      end
  else Ret (inr (0, ret)).

Definition ary_change (string : list Z) (len : Z) : outcome (Z * Z) :=
  loop (S (Z.to_nat len)) (ary_step string len) (0, 0).

(** ** Lemmas: the list *)
Lemma nodup_size {A} (h : gmap loc A) (l : list loc) :
  NoDup l → (∀ x, x ∈ l → is_Some (h !! x)) → (length l ≤ size h)%nat.
Proof.
  intros Hn Hd. rewrite <-(size_list_to_set (C:=gset loc) l Hn), <-(size_dom (D:=gset loc) h).
  apply subseteq_size. intros x Hx. apply elem_of_list_to_set in Hx. apply elem_of_dom. auto.
Qed.

Section lists.
Implicit Types (h : sheap) (p q : ptr) (l : list (loc * Z)).

(** The nodes [l] (place and number) linked from [p] to [q]. *)
Fixpoint seg h p l q : Prop :=
  match l with
  | [] => p = q
  | (x, d) :: l => p = Addr x ∧ ∃ p', h !! x = Some (SNode p' d) ∧ seg h p' l q
  end.

Definition is_slist h p l : Prop := seg h p l Null ∧ NoDup l.*1.

Lemma seg_app h p l1 l2 q : seg h p (l1 ++ l2) q ↔ ∃ r, seg h p l1 r ∧ seg h r l2 q.
Proof.
  revert p. induction l1 as [|[x d] l1 IH]; intros p; simpl.
  - split; [intros H; by exists p|]. by intros (r & -> & H).
  - setoid_rewrite IH. naive_solver.
Qed.

Lemma seg_frame h h' p l q : (∀ x, x ∈ l.*1 → h' !! x = h !! x) → seg h p l q → seg h' p l q.
Proof.
  revert p. induction l as [|[x d] l IH]; intros p Hf; simpl; [done|]. intros (-> & p' & Hx & Hs).
  split; [done|]. exists p'. rewrite Hf by (simpl; constructor). split; [done|]. apply IH; [|done].
  intros y Hy. apply Hf. simpl. by constructor.
Qed.

Lemma seg_dom h p l q x : seg h p l q → x ∈ l.*1 → is_Some (h !! x).
Proof.
  revert p. induction l as [|[y d] l IH]; intros p; simpl; [intros _ H; by apply not_elem_of_nil in H|].
  intros (-> & p' & Hy & Hs) [->|Hx]%elem_of_cons; [by eexists|by eapply IH].
Qed.

Lemma slist_length h p l : is_slist h p l → (length l ≤ size h)%nat.
Proof.
  intros [Hs Hn]. rewrite <-(length_fmap fst). apply nodup_size; [done|]. intros x. by eapply seg_dom.
Qed.

(** One turn of the reversal moves the node behind [f] to the front. *)
Lemma reverse_step_spec h hn pre f d y e rest :
  is_slist h hn (pre ++ (f, d) :: (y, e) :: rest) →
  returns (reverse_step (Addr f) (hn, h)) (λ r, ∃ h', r = inl (Addr y, h') ∧
    is_slist h' (Addr y) ((y, e) :: pre ++ (f, d) :: rest) ∧ ∀ x, x ≠ f → x ≠ y → h' !! x = h !! x).
Proof.
  intros [Hs Hn]. apply seg_app in Hs as (r & Hpre & -> & p1 & Hf & -> & p2 & Hy & Hrest).
  rewrite fmap_app in Hn. cbn [fmap list_fmap fst] in Hn.
  apply NoDup_app in Hn as (Hnp & Hd & Hn). apply NoDup_cons in Hn as [Hnf Hn]. apply NoDup_cons in Hn as [Hny Hn].
  assert (f ≠ y) as Hfy by (intros ->; apply Hnf; constructor).
  unfold reverse_step. cbn [sget]. rewrite Hf. cbn [mbind outcome_bind next truth sget]. rewrite Hy. cbn [mbind outcome_bind next set_next].
  rewrite Hf. cbn [mbind outcome_bind data set_next]. rewrite lookup_insert_ne, Hy by done. cbn [mbind outcome_bind data returns].
  eexists. split; [done|]. split.
  - split.
    + split; [done|]. exists hn. rewrite lookup_insert_eq. split; [done|]. apply seg_app. exists (Addr f). split.
      { eapply seg_frame; [|exact Hpre]. intros x Hx. specialize (Hd x Hx). rewrite !elem_of_cons in Hd.
        rewrite !lookup_insert_ne; [done|naive_solver..]. }
      split; [done|]. exists p2. rewrite lookup_insert_ne, lookup_insert_eq by done. split; [done|].
      eapply seg_frame; [|exact Hrest]. intros x Hx. rewrite !lookup_insert_ne; [done|..].
      * intros ->. apply Hnf. by constructor.
      * by intros ->.
    + simpl. rewrite fmap_app. cbn [fmap list_fmap fst]. apply NoDup_cons. split.
      * intros [Hx|[Hx|Hx]%elem_of_cons]%elem_of_app; [|done|done].
        apply (Hd y Hx). by do 2 constructor.
      * apply NoDup_app. split; [done|]. split.
        -- intros x Hx Hx'. apply (Hd x Hx). apply elem_of_cons in Hx' as [->|Hx']; [by constructor|by do 2 constructor].
        -- apply NoDup_cons. split; [|done]. intros Hx. apply Hnf. by constructor.
  - intros x H1 H2. by rewrite !lookup_insert_ne.
Qed.

Lemma reverse_loop fuel h hn pre f d rest :
  is_slist h hn (pre ++ (f, d) :: rest) → (length rest < fuel)%nat →
  returns (loop fuel (reverse_step (Addr f)) (hn, h)) (λ r,
    is_slist r.2 r.1 (rev rest ++ pre ++ [(f, d)]) ∧ ∀ x, x ≠ f → (x ∉ rest.*1) → r.2 !! x = h !! x).
Proof.
  revert fuel h hn pre. induction rest as [|[y e] rest IH]; intros fuel h hn pre Hs Hf;
    (destruct fuel as [|fuel]; [simpl in Hf; lia|]); rewrite loop_S.
  - assert (reverse_step (Addr f) (hn, h) = Ret (inr (hn, h))) as ->; [|done].
    destruct Hs as [Hs _]. apply seg_app in Hs as (r & _ & -> & p1 & Hfn & ->).
    unfold reverse_step. cbn [sget]. by rewrite Hfn.
  - run (reverse_step_spec h hn pre f d y e rest); [done|]. intros r (h' & -> & Hs' & Ho).
    eapply returns_mono; [apply (IH fuel h' (Addr y) ((y, e) :: pre)); [done|simpl in Hf; lia]|].
    intros [p' h''] [Hr Ho']. cbn [fst snd] in *. cbn [rev fmap list_fmap fst]. rewrite <-app_assoc. split; [done|].
    intros x Hx Hxy. apply not_elem_of_cons in Hxy as [Hxy Hxr]. rewrite Ho', Ho by done. done.
Qed.

Lemma slist_reverse_ok h hn l :
  is_slist h hn l →
  returns (slist_reverse h (Some hn)) (λ r, ∃ hn', r.1 = Some hn' ∧ is_slist r.2 hn' (rev l) ∧
    ∀ x, (x ∉ l.*1) → r.2 !! x = h !! x).
Proof.
  intros Hs. pose proof (slist_length _ _ _ Hs) as Hl. unfold slist_reverse. destruct l as [|[f d] rest].
  - destruct Hs as [Hs _]. simpl in Hs. subst hn. simpl. exists Null. split; [done|]. split; [split; [done|constructor]|done].
  - pose proof Hs as [(-> & _) _]. cbn [truth mbind outcome_bind].
    run (reverse_loop (S (size h)) h (Addr f) [] f d rest); [done|simpl in Hl; lia|].
    intros [p' h'] [Hr Ho]. cbn [returns fst snd] in *. exists p'. split; [done|]. split; [done|].
    intros x Hx. apply not_elem_of_cons in Hx as [Hx Hxr]. by apply Ho.
Qed.

Lemma slist_insert_ok h hn l x d :
  is_slist h hn l → h !! x = None →
  returns (slist_insert h (Some x) (Some hn) d) (λ r, r.1 = Some (Addr x) ∧ is_slist r.2 (Addr x) ((x, d) :: l)).
Proof.
  intros [Hs Hn] Hx. assert (x ∉ l.*1) as Hxl by (intros H; apply (seg_dom _ _ _ _ _ Hs) in H as [? H]; congruence).
  simpl. split; [done|]. split.
  - split; [done|]. exists hn. rewrite lookup_insert_eq. split; [done|]. eapply seg_frame; [|exact Hs].
    intros y Hy. apply lookup_insert_ne. by intros ->.
  - by apply NoDup_cons.
Qed.

Lemma print_loop h hn l fuel out :
  seg h hn l Null → (length l < fuel)%nat → loop fuel (print_step h) (hn, out) = Ret (out ++ l.*2).
Proof.
  revert hn fuel out. induction l as [|[x d] l IH]; intros hn fuel out Hs Hf;
    (destruct fuel as [|fuel]; [simpl in Hf; lia|]); rewrite loop_S.
  - simpl in Hs. subst hn. cbn. by rewrite app_nil_r.
  - destruct Hs as (-> & p' & Hx & Hs). assert (print_step h (Addr x, out) = Ret (inl (p', out ++ [d]))) as ->.
    { unfold print_step. cbn. by rewrite Hx. }
    cbn [mbind outcome_bind]. rewrite IH by (done || (simpl in Hf; lia)). by rewrite <-app_assoc.
Qed.

Lemma slist_foreach_ok h hn l : is_slist h hn l → slist_foreach h (Some hn) = Ret (l.*2).
Proof. intros Hs. pose proof (slist_length _ _ _ Hs). unfold slist_foreach. by rewrite (print_loop _ _ l) by (apply Hs || lia). Qed.

Lemma free_loop h hn l fuel :
  is_slist h hn l → (length l < fuel)%nat →
  returns (loop fuel free_step (hn, h)) (λ h', ∀ x, h' !! x = if decide (x ∈ l.*1) then None else h !! x).
Proof.
  revert h hn fuel. induction l as [|[x d] l IH]; intros h hn fuel [Hs Hn] Hf;
    (destruct fuel as [|fuel]; [simpl in Hf; lia|]); rewrite loop_S.
  - simpl in Hs. subst hn. cbn [returns]. intros x. by rewrite decide_False by apply not_elem_of_nil.
  - destruct Hs as (-> & p' & Hx & Hs). cbn [fmap list_fmap fst] in Hn. apply NoDup_cons in Hn as [Hxl Hn].
    assert (free_step (Addr x, h) = Ret (inl (p', delete x h))) as ->.
    { unfold free_step. cbn. by rewrite Hx. }
    cbn [mbind outcome_bind]. eapply returns_mono; [apply IH; [|simpl in Hf; lia]|].
    + split; [|done]. eapply seg_frame; [|exact Hs]. intros y Hy. apply lookup_delete_ne. by intros ->.
    + intros h' Ho y. rewrite Ho. cbn [fmap list_fmap fst]. destruct (decide (y = x)) as [->|Hne].
      * rewrite lookup_delete_eq, (decide_True (P := x ∈ x :: _)) by constructor. by destruct (decide (x ∈ l.*1)).
      * rewrite lookup_delete_ne by done. destruct (decide (y ∈ l.*1)) as [Hy|Hy].
        -- by rewrite decide_True by by constructor.
        -- rewrite decide_False; [done|]. by intros [?|?]%elem_of_cons.
Qed.

(** Every node is released once and nothing else. *)
Lemma slist_free_ok h hn l :
  is_slist h hn l →
  returns (slist_free h (Some hn)) (λ h', ∀ x, h' !! x = if decide (x ∈ l.*1) then None else h !! x).
Proof. intros Hs. pose proof (slist_length _ _ _ Hs). apply free_loop; [done|lia]. Qed.
End lists.

(** ** Lemmas: the tree *)
Inductive tree : Type := Leaf | Node (l : tree) (x : loc) (d : Z) (r : tree).

Definition root_of (t : tree) : ptr := match t with Leaf => Null | Node _ x _ _ => Addr x end.
Fixpoint nodes (t : tree) : list loc := match t with Leaf => [] | Node l x _ r => nodes l ++ x :: nodes r end.
Fixpoint inorder (t : tree) : list Z := match t with Leaf => [] | Node l _ d r => inorder l ++ d :: inorder r end.
Fixpoint preorder (t : tree) : list Z := match t with Leaf => [] | Node l _ d r => d :: preorder l ++ preorder r end.
Fixpoint postorder (t : tree) : list Z := match t with Leaf => [] | Node l _ d r => postorder l ++ postorder r ++ [d] end.
Fixpoint height (t : tree) : nat := match t with Leaf => O | Node l _ _ r => S (height l `max` height r) end.

(** The cells of [h] are the nodes of the tree. *)
Fixpoint rep (h : bheap) (t : tree) : Prop :=
  match t with
  | Leaf => True
  | Node l x d r => h !! x = Some (BTree (root_of l) (root_of r) d) ∧ rep h l ∧ rep h r
  end.

(** Smaller and equal numbers to the left, greater ones to the right. *)
Fixpoint bst (t : tree) : Prop :=
  match t with
  | Leaf => True
  | Node l _ d r => bst l ∧ bst r ∧ Forall (λ x, x ≤ d) (inorder l) ∧ Forall (λ x, d < x) (inorder r)
  end.

Fixpoint tinsert (x : loc) (v : Z) (t : tree) : tree :=
  match t with
  | Leaf => Node Leaf x v Leaf
  | Node l y d r => if v <=? d then Node (tinsert x v l) y d r else Node l y d (tinsert x v r)
  end.

Section trees.
Implicit Types (h : bheap) (t l r : tree) (x y : loc) (d v : Z).

Lemma rep_frame h h' t : (∀ y, y ∈ nodes t → h' !! y = h !! y) → rep h t → rep h' t.
Proof.
  induction t as [|l IHl x d r IHr]; simpl; [done|]. intros Hf (Hx & Hl & Hr).
  rewrite Hf by (apply elem_of_app; right; constructor). split; [done|]. split.
  - apply IHl; [|done]. intros y Hy. apply Hf, elem_of_app. by left.
  - apply IHr; [|done]. intros y Hy. apply Hf, elem_of_app. right. by constructor.
Qed.

Lemma brep_dom h t x : rep h t → x ∈ nodes t → is_Some (h !! x).
Proof.
  induction t as [|l IHl y d r IHr]; simpl; [intros _ H; by apply not_elem_of_nil in H|].
  intros (Hy & Hl & Hr) [Hx|[->|Hx]%elem_of_cons]%elem_of_app; [auto|by eexists|auto].
Qed.

Lemma height_nodes t : (height t ≤ length (nodes t))%nat.
Proof. induction t as [|l IHl x d r IHr]; simpl; [lia|]. rewrite length_app. simpl. lia. Qed.

Lemma nodes_tinsert x v t : nodes (tinsert x v t) ≡ₚ x :: nodes t.
Proof.
  induction t as [|l IHl y d r IHr]; simpl; [done|]. destruct (v <=? d); simpl.
  - by rewrite IHl.
  - by rewrite IHr, (Permutation_swap x y), <-Permutation_middle.
Qed.

Lemma inorder_tinsert x v t : inorder (tinsert x v t) ≡ₚ v :: inorder t.
Proof.
  induction t as [|l IHl y d r IHr]; simpl; [done|]. destruct (v <=? d); simpl.
  - by rewrite IHl.
  - by rewrite IHr, (Permutation_swap v d), <-Permutation_middle.
Qed.

Lemma bst_tinsert x v t : bst t → bst (tinsert x v t).
Proof.
  induction t as [|l IHl y d r IHr]; simpl; [repeat constructor|]. intros (Hl & Hr & Fl & Fr).
  destruct (Z.leb_spec v d); simpl; (split; [auto|split; [auto|]]); split; auto.
  - rewrite inorder_tinsert. by constructor.
  - rewrite inorder_tinsert. by constructor.
Qed.

Definition is_leaf t : bool := match t with Leaf => true | _ => false end.

Lemma truth_root t : truth (root_of t) = Ret (negb (is_leaf t)).
Proof. by destruct t. Qed.

Lemma insert_step_eq h x v z l d r :
  h !! z = Some (BTree (root_of l) (root_of r) d) → x ≠ z →
  btree_insert_step h (Some x) v (Addr z) =
  let h' := <[x:=BTree Null Null v]> h in
  if v <=? d then
    (if is_leaf l then Ret (inr (<[z:=BTree (Addr x) (root_of r) d]> h')) else Ret (inl (root_of l)))
  else (if is_leaf r then Ret (inr (<[z:=BTree (root_of l) (Addr x) d]> h')) else Ret (inl (root_of r))).
Proof.
  intros Hz Hne. unfold btree_insert_step. cbn [bget]. rewrite Hz. cbn [mbind outcome_bind tdata left_ right_].
  destruct (v <=? d); rewrite truth_root; cbn [mbind outcome_bind].
  - destruct (is_leaf l); [|done]. cbn [negb NEW_NODE mbind outcome_bind fst snd bset]. by rewrite lookup_insert_ne, Hz by done.
  - destruct (is_leaf r); [|done]. cbn [negb NEW_NODE mbind outcome_bind fst snd bset]. by rewrite lookup_insert_ne, Hz by done.
Qed.

Lemma root_tinsert x v t : t ≠ Leaf → root_of (tinsert x v t) = root_of t.
Proof. destruct t; [done|]. intros _. simpl. by destruct (v <=? d). Qed.

(** A leaf below [z] becomes the new node. *)
Lemma insert_here h x v z n t :
  t = Leaf → x ≠ z → (∀ h', h' = <[z:=n]> (<[x:=BTree Null Null v]> h) →
    rep h' (tinsert x v t) ∧ h' !! z = Some n ∧ ∀ y, y ≠ x → y ≠ z → h' !! y = h !! y).
Proof.
  intros -> Hne h' ->. split_and!; [|by rewrite lookup_insert_eq|].
  - simpl. rewrite lookup_insert_ne, lookup_insert_eq by done. done.
  - intros y H1 H2. by rewrite !lookup_insert_ne.
Qed.

(** The descent from a node of the tree. *)
Lemma btree_insert_loop h x v t fuel :
  h !! x = None → rep h t → NoDup (nodes t) → t ≠ Leaf → (height t ≤ fuel)%nat →
  returns (loop fuel (btree_insert_step h (Some x) v) (root_of t)) (λ h', rep h' (tinsert x v t) ∧
    ∀ y, y ≠ x → (y ∉ nodes t) → h' !! y = h !! y).
Proof.
  intros Hx. revert fuel. induction t as [|l IHl z d r IHr]; intros fuel Hr Hn Hne Hf; [done|].
  destruct fuel as [|fuel]; [simpl in Hf; lia|]. rewrite loop_S. cbn [root_of tinsert].
  assert (∀ y, y ∈ nodes (Node l z d r) → x ≠ y) as Hxn.
  { intros y Hy ->. destruct (brep_dom _ _ _ Hr Hy). congruence. }
  destruct Hr as (Hz & Hl & Hr). simpl in Hn. apply NoDup_app in Hn as (Nl & Hd & Nr). apply NoDup_cons in Nr as [Nz Nr].
  cbn [nodes] in Hxn. assert (x ≠ z) as Hxz by (apply Hxn, elem_of_app; right; constructor).
  assert (∀ y, y ∈ nodes l → y ≠ z ∧ (y ∉ nodes r)) as Hd'.
  { intros y Hy. specialize (Hd y Hy). rewrite elem_of_cons in Hd. naive_solver. }
  rewrite (insert_step_eq _ _ _ _ _ _ _ Hz Hxz). simpl in Hf. cbv zeta. cbn [nodes].
  destruct (v <=? d).
  - destruct l as [|l1 y1 d1 l2] eqn:El; cbn [is_leaf mbind outcome_bind returns].
    + destruct (insert_here h x v z (BTree (Addr x) (root_of r) d) Leaf eq_refl Hxz _ eq_refl) as (H1 & H2 & H3).
      split; [|intros y Hy1 [Hy2 _]%not_elem_of_cons; by apply H3]. split; [done|]. split; [done|].
      eapply rep_frame; [|exact Hr]. intros y Hy. apply H3; [|by intros ->]. apply not_eq_sym, Hxn. by constructor.
    + rewrite <-El in *. eapply returns_mono; [apply IHl; [done|done|by rewrite El|lia]|].
      intros h' [Hrep Ho]. split; [|intros y Hy1 [Hy2 [Hy3 _]%not_elem_of_cons]%not_elem_of_app; by apply Ho].
      split; [rewrite root_tinsert by (by rewrite El); rewrite Ho; [done|by apply not_eq_sym|intros H; by destruct (Hd' z H)]|].
      split; [done|]. eapply rep_frame; [|exact Hr]. intros y Hy. apply Ho; [|intros H; by destruct (Hd' y H)].
      apply not_eq_sym, Hxn, elem_of_app. right. by constructor.
  - destruct r as [|r1 y1 d1 r2] eqn:Er; cbn [is_leaf mbind outcome_bind returns].
    + destruct (insert_here h x v z (BTree (root_of l) (Addr x) d) Leaf eq_refl Hxz _ eq_refl) as (H1 & H2 & H3).
      split; [|intros y Hy1 [Hy2 [Hy3 _]%not_elem_of_cons]%not_elem_of_app; by apply H3]. split; [done|]. split; [|done].
      eapply rep_frame; [|exact Hl]. intros y Hy. apply H3; [|by destruct (Hd' y Hy)]. apply not_eq_sym, Hxn, elem_of_app. by left.
    + rewrite <-Er in *. eapply returns_mono; [apply IHr; [done|done|by rewrite Er|lia]|].
      intros h' [Hrep Ho]. split; [|intros y Hy1 [Hy2 [Hy3 Hy4]%not_elem_of_cons]%not_elem_of_app; by apply Ho].
      split; [rewrite root_tinsert by (by rewrite Er); rewrite Ho; [done|by apply not_eq_sym|done]|].
      split; [|done]. eapply rep_frame; [|exact Hl]. intros y Hy. apply Ho; [|by destruct (Hd' y Hy)].
      apply not_eq_sym, Hxn, elem_of_app. by left.
Qed.

(** [btree_insert] into a tree whose root does not hold the mark -1 adds the
    number at its place and keeps a search tree a search tree. *)
Lemma btree_insert_ok h x v t :
  rep h t → NoDup (nodes t) → h !! x = None → (∀ l y r, t ≠ Node l y (-1) r) → t ≠ Leaf →
  returns (btree_insert h (Some x) (root_of t) v) (λ h',
    rep h' (tinsert x v t) ∧ NoDup (nodes (tinsert x v t)) ∧ inorder (tinsert x v t) ≡ₚ v :: inorder t ∧
    (bst t → bst (tinsert x v t))).
Proof.
  intros Hr Hn Hx Hm Hne. unfold btree_insert. rewrite truth_root. destruct t as [|l y d r] eqn:Et; [done|].
  cbn [is_leaf negb mbind outcome_bind root_of bget]. pose proof Hr as (Hy & _). rewrite Hy. cbn [mbind outcome_bind tdata].
  rewrite bool_decide_eq_false_2 by (intros ->; by eapply Hm). rewrite <-Et in *.
  change (Addr y) with (root_of (Node l y d r)). rewrite <-Et.
  assert (height t ≤ size h)%nat as Hh.
  { etrans; [apply height_nodes|]. apply nodup_size; [done|]. intros z. by apply brep_dom. }
  eapply returns_mono; [apply (btree_insert_loop h x v t); [done|done|done|done|lia]|].
  intros h' [Hrep _]. split; [done|]. split; [|split; [apply inorder_tinsert|apply bst_tinsert]].
  rewrite nodes_tinsert. apply NoDup_cons. split; [|done]. intros H. apply (brep_dom _ _ _ Hr) in H as [? H]. congruence.
Qed.

(** What the traversals print: [btree_foreach_preorder] the numbers in order
    and [btree_foreach_midorder] every node before its children, contrary to
    their names. *)
Lemma btree_foreach_ok h t fuel :
  rep h t → (height t < fuel)%nat →
  btree_foreach_preorder fuel h (root_of t) = Ret (inorder t) ∧
  btree_foreach_midorder fuel h (root_of t) = Ret (preorder t) ∧
  btree_foreach_postorder fuel h (root_of t) = Ret (postorder t).
Proof.
  revert fuel. induction t as [|l IHl x d r IHr]; intros fuel Hr Hf; (destruct fuel as [|fuel]; [lia|]); [done|].
  destruct Hr as (Hx & Hl & Hr). simpl in Hf.
  destruct (IHl fuel Hl ltac:(lia)) as (L1 & L2 & L3). destruct (IHr fuel Hr ltac:(lia)) as (R1 & R2 & R3).
  cbn [btree_foreach_preorder btree_foreach_midorder btree_foreach_postorder root_of truth mbind outcome_bind bget].
  rewrite Hx. cbn [mbind outcome_bind left_ right_ tdata]. rewrite L1, L2, L3. cbn [mbind outcome_bind]. by rewrite R1, R2, R3.
Qed.

(** [btree_free] releases the nodes of the tree and nothing else. *)
Lemma btree_free_ok h t fuel :
  rep h t → NoDup (nodes t) → (height t < fuel)%nat →
  returns (btree_free fuel h (root_of t)) (λ h', ∀ y, h' !! y = if decide (y ∈ nodes t) then None else h !! y).
Proof.
  revert h fuel. induction t as [|l IHl x d r IHr]; intros h fuel Hr Hn Hf; (destruct fuel as [|fuel]; [lia|]).
  { cbn. intros y. by rewrite decide_False by apply not_elem_of_nil. }
  destruct Hr as (Hx & Hl & Hr). simpl in Hf. cbn [nodes] in *. apply NoDup_app in Hn as (Nl & Hd & Nr).
  apply NoDup_cons in Nr as [Nx Nr]. cbn [btree_free root_of truth mbind outcome_bind bget]. rewrite Hx. cbn [mbind outcome_bind left_ right_].
  run (IHl h fuel); [done|done|lia|]. intros h1 H1.
  assert (∀ y, y ∈ x :: nodes r → h1 !! y = h !! y) as Hsame.
  { intros y Hy. rewrite H1, decide_False; [done|]. intros H. by apply (Hd y). }
  rewrite Hsame, Hx by constructor. cbn [mbind outcome_bind right_].
  run (IHr h1 fuel); [|done|lia|].
  { eapply rep_frame; [|exact Hr]. intros y Hy. apply Hsame. by constructor. }
  intros h2 H2. rewrite H2, (decide_False (P := x ∈ nodes r)), Hsame, Hx by (done || constructor). cbn [returns].
  intros y. destruct (decide (y = x)) as [->|Hne].
  - rewrite lookup_delete_eq, decide_True; [done|]. apply elem_of_app. right. constructor.
  - rewrite lookup_delete_ne by done. rewrite H2. destruct (decide (y ∈ nodes r)) as [Hy|Hy].
    + rewrite decide_True; [done|]. apply elem_of_app. right. by constructor.
    + rewrite H1. destruct (decide (y ∈ nodes l)) as [Hy'|Hy'].
      * rewrite decide_True; [done|]. apply elem_of_app. by left.
      * rewrite decide_False; [done|]. by intros [?|[?|?]%elem_of_cons]%elem_of_app.
Qed.
End trees.

(** ** Lemmas: the hexadecimal number *)
Section hexadecimal.
Implicit Types (s : list Z) (c x ret : Z).

(** The digits of a string and the number they denote. *)
Definition hex_string s (l : list Z) : Prop := Forall2 (λ c x, hex_digit c = Some x) s l.
Fixpoint hex_value (l : list Z) : Z :=
  match l with
  | [] => 0
  | x :: l => x * 16 ^ Z.of_nat (length l) + hex_value l
  end.

Lemma hex_digit_range c x : hex_digit c = Some x → 0 ≤ x < 16 ∧ c ≠ 0.
Proof.
  unfold hex_digit. destruct ((c <=? 57) && (48 <=? c)) eqn:E1; [|destruct ((c <=? 70) && (65 <=? c)) eqn:E2;
    [|destruct ((c <=? 102) && (97 <=? c)) eqn:E3; [|done]]]; intros [= <-];
    match goal with H : _ = true |- _ => apply andb_true_iff in H as [?%Z.leb_le ?%Z.leb_le] end; lia.
Qed.

Lemma hex_value_range s l : hex_string s l → 0 ≤ hex_value l < 16 ^ Z.of_nat (length l).
Proof.
  induction 1 as [|c x s l Hc Hs IH]; [simpl; lia|]. apply hex_digit_range in Hc as [Hx _]. cbn [hex_value].
  change (length (x :: l)) with (S (length l)). rewrite Nat2Z.inj_succ, Z.pow_succ_r by lia. nia.
Qed.

Lemma ary_step_digit s0 c s x ret :
  hex_digit c = Some x → Z.of_nat (length s) < 8 → is_s32 (x * 16 ^ Z.of_nat (length s)) →
  is_s32 (ret + x * 16 ^ Z.of_nat (length s)) →
  ary_step (s0 ++ c :: s) (Z.of_nat (length (s0 ++ c :: s))) (Z.of_nat (length s0), ret) =
  Ret (inl (Z.of_nat (length (s0 ++ [c])), ret + x * 16 ^ Z.of_nat (length s))).
Proof.
  intros Hc Hl H1 H2. unfold ary_step. rewrite !length_app. simpl length.
  rewrite (proj2 (Z.ltb_lt _ _)), aget_mid by lia. cbn [mbind outcome_bind].
  pose proof (hex_digit_range c x Hc) as [Hx Hnz]. rewrite bool_decide_eq_false_2, Hc by done.
  replace (4 * (Z.of_nat (length s0 + S (length s)) - Z.of_nat (length s0) - 1)) with (4 * Z.of_nat (length s)) by lia.
  unfold shl_int. rewrite (proj2 (Z.leb_le 0 _)), (proj2 (Z.ltb_lt _ 32)) by lia. cbn [andb].
  rewrite Z.pow_mul_r by lia. change (2 ^ 4) with 16. rewrite in_s32_ok by done. cbn [mbind outcome_bind].
  rewrite in_s32_ok by done. cbn [mbind outcome_bind]. do 3 f_equal. lia.
Qed.

Lemma ary_loop s0 s l ret fuel :
  hex_string s l → Z.of_nat (length s) ≤ 7 → 0 ≤ ret → ret + 16 ^ Z.of_nat (length s) ≤ 2 ^ 31 → (length s < fuel)%nat →
  loop fuel (ary_step (s0 ++ s) (Z.of_nat (length (s0 ++ s)))) (Z.of_nat (length s0), ret) = Ret (0, ret + hex_value l).
Proof.
  intros Hs. revert s0 ret fuel. induction Hs as [|c x s l Hc Hs IH]; intros s0 ret fuel Hl H0 Hr Hf;
    (destruct fuel as [|fuel]; [simpl in Hf; lia|]); rewrite loop_S.
  - rewrite app_nil_r. assert (ary_step s0 (Z.of_nat (length s0)) (Z.of_nat (length s0), ret) = Ret (inr (0, ret))) as ->.
    { unfold ary_step. by rewrite Z.ltb_irrefl. }
    cbn. by rewrite Z.add_0_r.
  - pose proof (hex_digit_range c x Hc) as [Hx _]. pose proof (Forall2_length _ _ _ Hs) as El.
    change (length (c :: s)) with (S (length s)) in *. rewrite Nat2Z.inj_succ, Z.pow_succ_r in Hr by lia.
    assert (0 < 16 ^ Z.of_nat (length s)) by (apply Z.pow_pos_nonneg; lia).
    assert (0 ≤ x * 16 ^ Z.of_nat (length s) ∧ x * 16 ^ Z.of_nat (length s) + 16 ^ Z.of_nat (length s) ≤ 16 * 16 ^ Z.of_nat (length s)) by nia.
    rewrite (ary_step_digit _ _ _ x) by (done || lia || (unfold is_s32; lia)). cbn [mbind outcome_bind].
    rewrite (cons_middle c), app_assoc. rewrite IH by lia. cbn [hex_value]. rewrite <-El, Z.add_assoc. done.
Qed.

(** Up to seven digits are read as the number they denote. *)
Lemma ary_change_ok s l : hex_string s l → Z.of_nat (length s) ≤ 7 → ary_change s (Z.of_nat (length s)) = Ret (0, hex_value l).
Proof.
  intros Hs Hl. unfold ary_change. etrans; [apply (ary_loop [] s l); [done|done|lia| |lia]|by rewrite Z.add_0_l].
  assert (16 ^ Z.of_nat (length s) ≤ 16 ^ 7) by (apply Z.pow_le_mono_r; lia). lia.
Qed.

(** A longer number is undefined: with eight digits when the first is 8 or
    more, with nine or more always. *)
Lemma ary_change_undefined c x s :
  hex_digit c = Some x → Z.of_nat (length s) = 7 ∧ 8 ≤ x ∨ 8 ≤ Z.of_nat (length s) →
  ary_change (c :: s) (Z.of_nat (length (c :: s))) = Stuck.
Proof.
  intros Hc Hl. pose proof (hex_digit_range c x Hc) as [Hx Hnz]. unfold ary_change. rewrite loop_S.
  assert (ary_step (c :: s) (Z.of_nat (length (c :: s))) (0, 0) = Stuck) as ->; [|done].
  unfold ary_step. rewrite (proj2 (Z.ltb_lt _ _)) by (simpl; lia).
  change (aget (c :: s) 0) with (Ret c). cbn [mbind outcome_bind]. rewrite bool_decide_eq_false_2, Hc by done.
  change (length (c :: s)) with (S (length s)). unfold shl_int.
  replace (4 * (Z.of_nat (S (length s)) - 0 - 1)) with (4 * Z.of_nat (length s)) by lia.
  destruct (Z.ltb_spec (4 * Z.of_nat (length s)) 32); [|by rewrite andb_false_r].
  rewrite (proj2 (Z.leb_le 0 _)) by lia. cbn [andb]. replace (Z.of_nat (length s)) with 7 by lia.
  unfold in_s32. rewrite bool_decide_eq_false_2; [done|]. unfold is_s32. lia.
Qed.
End hexadecimal.
